(* ===== verification/_CoqProject ===== *)
-Q . S2P
Prelude.v
Selection.v
SelectionGrid.v
ReadOpSort.v
DispatchTypes.v
Coalesce.v
CoalesceProof.v
CoalesceChunks.v
GroupChunks.v
Hash.v
PathIntern.v
PathInternProof.v
Strbuf.v
PrefetchTypes.v
Plan.v
PlanBuilder.v
PlanTable.v
PlanProof.v
PlanMain.v
PlanCorrect.v
Dispatch.v
DispatchSamples.v
DispatchUses.v
DispatchMain.v
Lru.v
LruLists.v
LruIndex.v
LruSpec.v
LruProof.v
LruCorrect.v
LruClaims.v
LruClient.v
PrefetchCache.v
PrefetchGates.v
PrefetchProof.v
PrefetchSteps.v
PrefetchRequest.v
PrefetchUnpin.v
PrefetchClaims.v
Crc.v
ShardFooter.v
Convert.v
ChunkLayout.v
ShardIter.v
Config.v
ConfigProof.v
Pool.v
Lookahead.v
Json.v
JsonTotal.v
JsonSpec.v
JsonQuery.v
JsonWriter.v
ZarrMeta.v
ZarrMetaProof.v
ZarrMetaClaims.v
Prefetcher.v
PrefetcherOps.v
PrefetcherOrder.v
PrefetcherDeliver.v
PrefetcherLaws.v
PrefetcherReady.v
PrefetcherCaches.v
PrefetcherClaims.v
SharedCache.v
MetaWorld.v
ZarrPlanner.v
ZarrPlannerRun.v
ZarrPlannerClaims.v
PrefetcherExample.v
ZarrPlannerExample.v
Components.v
CpuAssemble.v
CpuRegion.v
CpuBatch.v
CpuRead.v
CpuExecutor.v
CpuDispatch.v
CpuRun.v
CpuClaims.v
