(* ===== verification/Prelude.v ===== *)
(** * A verification library for damacy

    damacy streams batches of samples out of sharded zarr arrays. A sample is a box
    or a list of indices per dimension in some array; a batch is a list of samples.
    This library models the host-side C code that decides what is read and where it
    goes, and proves that code correct. Definitions carry the names of the C
    functions they translate.

    ** The program

    - The user pushes samples ([damacy_push.c]); they wait in the bounded queue of
      [lookahead/lookahead.c].
    - The prefetcher asks three caches for what each sample needs: array metadata,
      shard indices, chunk layouts. Each cache is a [prefetch/prefetch_cache.c] on
      top of the pinning cache [util/lru.c]; entries are fetched once and pinned
      while a sample that owns them is not consumed.
    - Array metadata is a [zarr.json] read by [zarr/zarr_metadata.c] with the JSON
      reader [util/json.c]; a shard index is decoded and checked by
      [zarr/zarr_shard_index.c] with [util/crc32c.c]; a chunk header by
      [zarr/zarr_chunk_layout.c].
    - The planner ([planner/plan_builder.c]) turns the samples of a batch into the
      chunks they touch, each once, with the geometry of [query/selection.c].
    - [pipeline/zarr_planner.c] drives the prefetcher and hands out the plans.
    - The GPU executor ([executor/dispatch.c]) turns a plan into aligned reads, merged by
      [executor/coalesce.c] (which sorts with [read_op_sort.c]) and grouped by
      [executor/group_chunks.c]; paths go through [util/path_intern.c].
    - The CPU executor ([executor/cpu_executor.c]) renders up to two batches at a time:
      it reads the chunks of a plan in waves, decodes them on a thread of its own, puts
      their elements at their places in the batch, converted by [dtype/convert.h], and
      hands the batches out in order.
    - [damacy_config.c] validates the configuration that sizes all of it.

    ** Files

    Shared:
    - [Prelude.v]: machine integers, arrays with bounds, tactics, the hint database
      [damacy]. Integers are [Z]; an operation that can wrap is wrapped with [u8] to
      [u64]; signed overflow is an error. [aget] and [aset] are array accesses,
      [None] out of bounds: a function that returns [Some] stays in its arrays.
    - [Hash.v]: [util/hash.c], and power-of-two open addressing, used by three hash
      tables.

    Queries: [Selection.v] ([query/selection.c]) and [SelectionGrid.v], the cell
    iterator; [ShardIter.v] ([zarr/sample_shard_iterator.c]).

    Reads: [DispatchTypes.v] ([executor/dispatch.h]), [ReadOpSort.v],
    [Coalesce.v] with [CoalesceProof.v] and [CoalesceChunks.v], [GroupChunks.v].

    Paths: [PathIntern.v] and [PathInternProof.v] ([util/path_intern.c]);
    [Strbuf.v] ([util/strbuf.c] and the shard paths of [zarr/zarr_shard_index.c]).

    Plans: [Plan.v] (the data, and the class [CacheView] through which the builder
    reads the prefetch caches), [PlanBuilder.v] ([planner/plan_builder.c]),
    [PlanTable.v], [PlanProof.v], [PlanMain.v], [PlanCorrect.v].
    Dispatch: [Dispatch.v] ([executor/dispatch.c]), [DispatchSamples.v],
    [DispatchUses.v] (with the string table as an instance of the interface dispatch
    uses), [DispatchMain.v].

    Caches: [Lru.v] ([util/lru.c]); [LruLists.v] and [LruIndex.v] for its lists and
    its index; [LruSpec.v], the abstract cache; [LruProof.v],
    [LruCorrect.v], [LruClaims.v]; [LruClient.v], what a client may use.
    [PrefetchTypes.v], [PrefetchCache.v] ([prefetch/prefetch_cache.c]);
    [PrefetchGates.v], [PrefetchProof.v] (the invariant), [PrefetchSteps.v],
    [PrefetchRequest.v], [PrefetchUnpin.v], [PrefetchClaims.v].

    Prefetcher ([prefetch/prefetcher.c]): [Prefetcher.v], the keys of the three caches,
    a slot and its stages, with the class [MetaCaches] of what it calls of the caches;
    [PrefetcherOps.v], owners, admission, the consumer's side, and the worker against
    producers, the consumer and the caches;
    [PrefetcherOrder.v] and [PrefetcherDeliver.v], the order of delivery;
    [PrefetcherLaws.v], what the prefetcher relies on, as classes; [PrefetcherReady.v],
    [PrefetcherCaches.v] and [PrefetcherClaims.v], what a delivered sample has;
    [PrefetcherExample.v], runs. [SharedCache.v] and [MetaWorld.v] prove that the two
    real caches keep what the prefetcher relies on.

    Planner ([pipeline/zarr_planner.c]): [ZarrPlanner.v], its operations;
    [ZarrPlannerRun.v], that the plan builder finds what it needs once the caches have
    answered, and the planner against the prefetcher's worker and the caches;
    [ZarrPlannerClaims.v]; [ZarrPlannerExample.v], runs.

    Batches: [Components.v] (the layout of [pipeline/components.c]), [Convert.v]
    ([dtype/convert.h]), [CpuAssemble.v] (rows, regions, decoding and assembly of
    [executor/cpu_executor.c]), [CpuRegion.v], one use of a chunk, [CpuBatch.v], the
    whole batch; [CpuRead.v], the reads of a plan; [CpuExecutor.v], slots, waves and the
    calls of the executor; [CpuDispatch.v], the reads of a wave; [CpuRun.v], the
    invariant, kept by every call; [CpuClaims.v], all interleavings of calls, decode
    thread and clients, and a run.

    Formats: [Crc.v], [ShardFooter.v], [ChunkLayout.v]; [Json.v] ([util/json.c]),
    [JsonTotal.v], [JsonSpec.v] (documents as trees, and what a query means on a
    tree, and the lexers), [JsonQuery.v], [JsonWriter.v] ([util/json_writer.c]);
    [ZarrMeta.v] ([zarr/zarr_metadata.c]), [ZarrMetaProof.v],
    [ZarrMetaClaims.v].

    Setup: [Config.v] and [ConfigProof.v] ([damacy_config.c]), [Pool.v]
    ([util/pool.c]), [Lookahead.v] ([lookahead/lookahead.c]).

    ** What the theorems show

    - Geometry (C1 to C3, C22): the iterators end and enumerate exactly the cells,
      indices and shards that a request selects.
    - Batches (C6, C13, C25): every position of a batch made on the CPU holds the
      element its request asks for, converted as [dtype_convert] says, and the layout
      gives each its own address.
    - CPU executor (C14, C27): in every lifetime between [cpu_start] and [cpu_stop],
      whatever the order of calls, decoding, answers of the store and releases, batches
      come out complete and in order, a batch in use is not written to and survives a
      stop, and the executor waits only for the store (an answer, or room for reads it
      refused with [DAMACY_AGAIN]) or its decode thread. The caller takes no step after
      one that failed, as [damacy_scheduler_step].
    - Reads (C4, C5, C7, C12): sorting, coalescing and grouping neither lose nor
      invent a byte, and each chunk is still found where its plan says.
    - Plans (C10, C11): the plan has, per sample, exactly the chunks the selection
      touches, in the allocation that was sized for it.
    - Tables and caches (C8, C9, C15, C17): the hash tables refine finite maps,
      the cache refines a recency list with pins, every value is destroyed once.
    - Prefetch (C36 to C39): in every interleaving of requests, completions and
      watermark moves, of fewer than 2^31 requests, no freed slot is used, no waiter is
      forgotten, errors reach exactly the gates that waited for a failed fetch, a handle
      stays valid while its sample is not consumed, and every value is released once.
    - Prefetcher (C26, C40): samples are handed out in the order they were pushed, and
      draining waits for all of them.
    - Planner (C16, C24): planner, prefetcher and caches together hand out a right plan
      for every full batch of the samples pushed, in order; a fetch that cannot start
      loses its sample.
    - Formats (C18 to C21, C29 to C35): the checksum is CRC-32C, encoders and
      decoders are inverse, damaged input is refused, the JSON reader returns on any
      bytes and computes the results of a query on the document's tree, what the writer
      escapes is what the escapes decode to, and metadata parsing is exactly the reading
      of that tree. The trees have their own semantics; two inputs on which the code
      departs from it are hypotheses: a [QUERY_WHERE] on a string whose sub-query does
      not start with a key ([query_ok]; json.c reads the characters of the string as
      JSON), and a half-precision fill value whose rounding carry is lost
      ([half_exact]).
    - Setup (C23, C28): accepted configurations make all derived sizes exact, the
      lookahead is a FIFO queue.

    ** Fuel and bounds

    A loop whose bound is a counter is a [Fixpoint] on that counter. The others take
    fuel and return [None] when it runs out; each theorem concludes that the result
    is [Some], so the fuel is enough. The amounts: a probe loop gets the size of its
    table (some cell is empty); quicksort the length of its range; the JSON lexers
    and iterators the length of what remains (each step consumes a byte); the
    backtracking iterator the total size of its frames; grid iterators the number of
    cells; the search for the ready prefix of the prefetcher the number of its slots. Sizes of texts are bounded by [INT_MAX], since nesting is counted in an
    [int]; capacities of caches by 2^30, past which rounding up to a power of two
    leaves 32 bits; requests to a prefetch cache by 2^31, past which its 32-bit
    generations repeat.

    ** Interfaces

    [KeyEquiv] (an equality callback is an equivalence), [CacheView] (what the plan
    builder reads from the prefetch caches), [MetaCaches] with [MetaLaws] and
    [CacheLaws] (what the prefetcher calls and relies on; [MetaWorld.v] has the real
    caches as the instance) and the interning interface of [Dispatch.v] are classes: the
    clients are proved against them and the implementations are instances. Code outside
    the repository is a parameter: [strtod], [malloc] (an oracle per allocation), the
    zstd and blosc decoders, what the fetchers of the caches read (arbitrary results). The
    store is a parameter of the CPU executor: it accepts reads or refuses them, answers
    when it likes, and delivers the bytes of the file when it answers [DAMACY_OK].

    ** Not modelled

    Device code and what drives it ([wave/], [executor/cuda_executor.c],
    [decoder/], the kernels), file systems and io_uring ([store/], [platform/]),
    logging, tracing, NUMA. Locks are modelled by their effect: an operation under a
    lock is one step, and histories interleave steps; waiting is modelled by what
    holds when a wait returns. The fetchers ([prefetch/array_meta.c], [shard_index.c],
    [chunk_layout.c]) are asynchronous calls of the stores around the parsers modelled
    here; batch slots, the GPU budget, the thread pool and the IO queue belong to the
    device path or to the platform; NGFF metadata and spatial sampling are
    conveniences on top of the interface. *)

From stdpp Require Export prelude gmap sorting.

#[local] Open Scope Z_scope.

(** ** Machine integers *)

(** A C integer is a [Z]; an operation that can leave its width is wrapped
    with one of these. *)
Definition u8 (z : Z) : Z := z mod 2 ^ 8.
Definition u16 (z : Z) : Z := z mod 2 ^ 16.
Definition u32 (z : Z) : Z := z mod 2 ^ 32.
Definition u64 (z : Z) : Z := z mod 2 ^ 64.
Definition UINT16_MAX : Z := 2 ^ 16 - 1.
Definition UINT32_MAX : Z := 2 ^ 32 - 1.
Definition UINT64_MAX : Z := 2 ^ 64 - 1.
Definition INT64_MAX : Z := 2 ^ 63 - 1.
(** [size_t] is 64 bits wide on the supported targets. *)
Definition SIZE_MAX : Z := UINT64_MAX.

(** Ranges of the unsigned widths. *)
Definition is_u8 (z : Z) : Prop := 0 <= z < 2 ^ 8.
Definition is_u32 (z : Z) : Prop := 0 <= z < 2 ^ 32.
Definition is_u64 (z : Z) : Prop := 0 <= z < 2 ^ 64.

Create HintDb damacy.

(** Unfold the numeric constants, then linear arithmetic. *)
Ltac cint :=
  unfold is_u8, is_u32, is_u64, SIZE_MAX in *;
  unfold UINT16_MAX, UINT32_MAX, UINT64_MAX, INT64_MAX in *;
  change (2 ^ 8) with 256 in *; change (2 ^ 16) with 65536 in *;
  change (2 ^ 31) with 2147483648 in *;
  change (2 ^ 32) with 4294967296 in *;
  change (2 ^ 63) with 9223372036854775808 in *;
  change (2 ^ 64) with 18446744073709551616 in *.
Ltac clia := cint; lia.
(** [lia] for goals with [/] and [mod]. *)
Ltac dlia := cint; Z.div_mod_to_equations; lia.

Lemma u32_id z : is_u32 z -> u32 z = z.
Proof. intros H. apply Z.mod_small. exact H. Qed.
Lemma u64_id z : is_u64 z -> u64 z = z.
Proof. intros H. apply Z.mod_small. exact H. Qed.
Lemma u8_id z : is_u8 z -> u8 z = z.
Proof. intros H. apply Z.mod_small. exact H. Qed.
Lemma u32_range z : is_u32 (u32 z).
Proof. apply Z.mod_pos_bound. done. Qed.
Lemma u64_range z : is_u64 (u64 z).
Proof. apply Z.mod_pos_bound. done. Qed.
#[export] Hint Resolve u32_range u64_range : damacy.

(** Replace [u32 e] / [u64 e] by [e] wherever the range is linear. *)
Ltac wrap_id :=
  repeat first
    [ rewrite u32_id by (clia) | rewrite u64_id by (clia) | rewrite u8_id by (clia) ].

(** ** Status codes ([enum damacy_status]) *)
Inductive damacy_status : Type :=
| DAMACY_OK | DAMACY_AGAIN | DAMACY_INVAL | DAMACY_NOTFOUND | DAMACY_DTYPE
| DAMACY_RANK | DAMACY_IO | DAMACY_DECODE | DAMACY_CUDA | DAMACY_OOM
| DAMACY_BUDGET | DAMACY_SHUTDOWN | DAMACY_UNSUPPORTED.

#[export] Instance damacy_status_eq_dec : EqDecision damacy_status.
Proof. solve_decision. Defined.

(** ** Arrays

    A C array is a list read and written through these two operations; both are
    [None] outside the array, so a model that is [Some] never leaves its
    arrays. *)
Definition aget {A} (l : list A) (i : Z) : option A :=
  if 0 <=? i then l !! Z.to_nat i else None.
Definition aset {A} (l : list A) (i : Z) (v : A) : option (list A) :=
  if (0 <=? i) && (i <? Z.of_nat (length l)) then Some (<[Z.to_nat i := v]> l)
  else None.
Abbreviation zlen l := (Z.of_nat (length l)).

Section arrays.
Context {A : Type}.
Implicit Types (l : list A) (i j : Z).

Lemma aget_Some_range l i v : aget l i = Some v -> 0 <= i < zlen l.
Proof.
  unfold aget. case (Z.leb_spec 0 i); [|done].
  intros ? ?%lookup_lt_Some. lia.
Qed.

Lemma aget_is_Some l i : 0 <= i < zlen l -> exists v, aget l i = Some v.
Proof.
  intros H. unfold aget. rewrite (proj2 (Z.leb_le 0 i)) by lia.
  apply lookup_lt_is_Some_2. lia.
Qed.

Lemma aget_None l i : aget l i = None <-> i < 0 \/ zlen l <= i.
Proof.
  split.
  - intros H. destruct (decide (0 <= i < zlen l)) as [Hr|]; [|lia].
    destruct (aget_is_Some l i Hr). congruence.
  - intros H. destruct (aget l i) eqn:E; [|done]. apply aget_Some_range in E. lia.
Qed.

Lemma aget_nat l (n : nat) : aget l (Z.of_nat n) = l !! n.
Proof. unfold aget. rewrite (proj2 (Z.leb_le _ _)) by lia. by rewrite Nat2Z.id. Qed.

Lemma aget_lookup l i v : aget l i = Some v <-> 0 <= i /\ l !! Z.to_nat i = Some v.
Proof. unfold aget. case (Z.leb_spec 0 i); intuition (lia || done). Qed.

Lemma aset_range l i v : 0 <= i < zlen l -> aset l i v = Some (<[Z.to_nat i := v]> l).
Proof.
  intros H. unfold aset. by rewrite (proj2 (Z.leb_le _ _)), (proj2 (Z.ltb_lt _ _)) by lia.
Qed.

Lemma aset_Some l i v l' :
  aset l i v = Some l' -> 0 <= i < zlen l /\ l' = <[Z.to_nat i := v]> l.
Proof.
  unfold aset. case (Z.leb_spec 0 i); case (Z.ltb_spec i (zlen l)); simpl; intros;
    simplify_eq; auto with lia.
Qed.

Lemma length_aset l i v l' : aset l i v = Some l' -> length l' = length l.
Proof. intros [_ ->]%aset_Some. apply length_insert. Qed.

Lemma aget_aset l i v l' j :
  aset l i v = Some l' -> aget l' j = if decide (i = j) then Some v else aget l j.
Proof.
  intros [H ->]%aset_Some. unfold aget. case (Z.leb_spec 0 j).
  - intros Hj. rewrite list_lookup_insert. repeat case_decide; try lia; done.
  - intros Hj. case_decide; [lia|done].
Qed.

Lemma aget_aset_eq l i v l' : aset l i v = Some l' -> aget l' i = Some v.
Proof. intros H. rewrite (aget_aset _ _ _ _ _ H). by case_decide. Qed.

Lemma aget_aset_ne l i v l' j : aset l i v = Some l' -> i <> j -> aget l' j = aget l j.
Proof. intros H ?. rewrite (aget_aset _ _ _ _ _ H). by case_decide. Qed.
End arrays.

(** [l[i] = v] for [n] slots from [i]: the initialisation loops. *)
Fixpoint array_fill {A} (n : nat) (l : list A) (i : Z) (v : A) : option (list A) :=
  match n with
  | O => Some l
  | S n => l ← aset l i v; array_fill n l (i + 1) v
  end.

Lemma array_fill_spec {A} n (l : list A) i v :
  0 <= i -> i + Z.of_nat n <= zlen l ->
  exists l', array_fill n l i v = Some l' /\ length l' = length l /\
    forall k, aget l' k = if decide (i <= k < i + Z.of_nat n) then Some v else aget l k.
Proof.
  revert l i. induction n as [|n IH]; intros l i Hi Hn; simpl.
  { exists l. split_and!; [done|done|]. intros k. by rewrite decide_False by lia. }
  rewrite aset_range by lia. simpl.
  destruct (IH (<[Z.to_nat i:=v]> l) (i + 1)) as (l' & -> & Hl & Hg);
    [lia|rewrite length_insert; lia|].
  exists l'. rewrite length_insert in Hl. split_and!; [done|done|]. intros k. rewrite Hg.
  rewrite (aget_aset l i v) by (apply aset_range; lia).
  repeat case_decide; try lia; done.
Qed.

(** ** Lists *)

(** [adj p l]: the elements of [l] that differ from their predecessor, [p]
    standing before the first. *)
Fixpoint adj (p : Z) (l : list Z) : list Z :=
  match l with
  | [] => []
  | x :: t => if decide (x = p) then adj p t else x :: adj x t
  end.

Lemma adj_elem p l x : x ∈ adj p l -> x ∈ l.
Proof.
  revert p. induction l as [|y t IH]; intros p; simpl; [done|].
  case_decide; rewrite ?elem_of_cons; [eauto|]. intros [->|?%IH]; eauto.
Qed.

Lemma adj_elem_iff p l x : p ∉ l -> x ∈ adj p l <-> x ∈ l.
Proof.
  intros Hp. split; [apply adj_elem|].
  assert (forall q m, x ∈ m -> x = q \/ x ∈ adj q m) as Hgen.
  { intros q m. revert q. induction m as [|y t IH]; intros q; simpl; [set_solver|].
    rewrite elem_of_cons. intros [->|Hx].
    - case_decide; [by left|right; set_solver].
    - case_decide as Hy; [auto|]. right. apply elem_of_cons.
      destruct (IH y Hx); auto. }
  intros Hx. destruct (Hgen p l Hx) as [->|]; done.
Qed.

Lemma adj_sorted_above p l :
  StronglySorted Z.le l -> Forall (Z.le p) l ->
  StronglySorted Z.lt (adj p l) /\ Forall (Z.lt p) (adj p l).
Proof.
  revert p. induction l as [|y t IH]; intros p Hs Hf; simpl; [by repeat constructor|].
  inversion Hs as [|? ? Ht Hy]; inversion Hf as [|? ? Hpy Hpt]; subst.
  case_decide; [auto|]. destruct (IH y Ht Hy) as [H1 H2].
  split; constructor; [done|done|lia|].
  eapply Forall_impl; [exact H2|]. simpl. lia.
Qed.

(** A [p] that does not occur makes no difference. *)
Lemma adj_fresh p q l : p ∉ l -> q ∉ l -> adj p l = adj q l.
Proof.
  destruct l as [|x t]; simpl; [done|]. rewrite !not_elem_of_cons. intros [? _] [? _].
  by rewrite !decide_False by congruence.
Qed.

Lemma adj_length p l : (length (adj p l) <= length l)%nat.
Proof.
  revert p. induction l as [|x t IH]; intros p; simpl; [done|].
  case_decide; simpl; [specialize (IH p)|specialize (IH x)]; lia.
Qed.

(** The Cartesian product, last factor fastest. *)
Fixpoint cart {A} (ls : list (list A)) : list (list A) :=
  match ls with
  | [] => [[]]
  | l :: ls => l ≫= (fun x => cons x <$> cart ls)
  end.

Lemma elem_of_cart {A} (ls : list (list A)) c :
  c ∈ cart ls <-> Forall2 (fun x l => x ∈ l) c ls.
Proof.
  revert c. induction ls as [|l ls IH]; intros c; simpl.
  - rewrite list_elem_of_singleton. split; [intros ->; constructor|by inversion 1].
  - rewrite list_elem_of_bind. split.
    + intros (x & Hc & Hx). apply list_elem_of_fmap in Hc as (c' & -> & Hc').
      constructor; [done|]. by apply IH.
    + inversion 1 as [|x l0 c' ls0 Hx Hc']; subst. exists x. split; [|done].
      apply list_elem_of_fmap. eexists. split; [done|]. by apply IH.
Qed.

Definition prod_len {A} (ls : list (list A)) : Z := foldr (fun l n => zlen l * n) 1 ls.

Lemma length_cart {A} (ls : list (list A)) : zlen (cart ls) = prod_len ls.
Proof.
  unfold prod_len. induction ls as [|l ls IH]; csimpl; [done|]. rewrite <-IH. clear IH.
  induction l as [|x l IHl]; csimpl; [done|].
  rewrite length_app, length_fmap, Nat2Z.inj_add, IHl. lia.
Qed.

(** Strict lexicographic order on coordinates: the row-major order. *)
Fixpoint lex_lt (c1 c2 : list Z) : Prop :=
  match c1, c2 with
  | x :: c1, y :: c2 => x < y \/ (x = y /\ lex_lt c1 c2)
  | _, _ => False
  end.

Lemma cart_sorted ls :
  Forall (StronglySorted Z.lt) ls -> StronglySorted lex_lt (cart ls).
Proof.
  induction 1 as [|l ls Hl _ IH]; simpl; [repeat constructor|].
  induction Hl as [|x l Hl IHl Hx]; simpl; [constructor|].
  apply StronglySorted_app_2; [|  |done].
  2: { clear -IH. induction IH as [|c cs Hcs IH' Hc]; csimpl; [constructor|].
    constructor; [done|]. apply Forall_fmap. eapply Forall_impl; [exact Hc|].
    simpl. auto. }
  intros c1 c2 (c1' & -> & _)%list_elem_of_fmap (y & Hc2 & Hy)%list_elem_of_bind.
    apply list_elem_of_fmap in Hc2 as (c2' & -> & _). simpl. left.
    rewrite Forall_forall in Hx. auto.
Qed.

Lemma elem_of_concat {A} (x : A) ls : x ∈ concat ls <-> exists l, l ∈ ls /\ x ∈ l.
Proof.
  rewrite list_elem_of_In, in_concat. setoid_rewrite list_elem_of_In. done.
Qed.

Lemma elem_of_aget {A} (x : A) l : x ∈ l <-> exists i, aget l i = Some x.
Proof.
  rewrite list_elem_of_lookup. split.
  - intros [i Hi]. exists (Z.of_nat i). by rewrite aget_nat.
  - intros [i [_ Hi]%aget_lookup]. eauto.
Qed.

Lemma elem_of_concat_aget {A} (x : A) ls i l : aget ls i = Some l -> x ∈ l -> x ∈ concat ls.
Proof. intros Hl Hx. apply elem_of_concat. exists l. split; [|done]. apply elem_of_aget. eauto. Qed.

Lemma aget_snoc {A} (l : list A) x i v :
  aget (l ++ [x]) i = Some v <-> aget l i = Some v \/ (i = zlen l /\ v = x).
Proof.
  rewrite !aget_lookup. split.
  - intros [? H]. apply lookup_app_Some in H as [H|[? H]]; [by auto|].
    apply list_lookup_singleton_Some in H as [? ->]. right. split; [lia|done].
  - intros [[? H]|[-> ->]].
    + split; [done|]. by apply lookup_app_l_Some.
    + split; [lia|]. rewrite lookup_app_r by lia.
      by replace (Z.to_nat (zlen l) - length l)%nat with 0%nat by lia.
Qed.

Lemma NoDup_concat_aget {A} (ls : list (list A)) i l :
  NoDup (concat ls) -> aget ls i = Some l -> NoDup l.
Proof.
  intros Hnd Hi. assert (l ∈ ls) as Hl by (apply elem_of_aget; eauto).
  apply list_elem_of_split in Hl as (l1 & l2 & ->). rewrite concat_app in Hnd. simpl in Hnd.
  apply NoDup_app in Hnd as (_ & _ & Hnd). by apply NoDup_app in Hnd as (? & _).
Qed.

Lemma Forall_aget {A} (P : A -> Prop) l i x : Forall P l -> aget l i = Some x -> P x.
Proof.
  intros HF Hx. rewrite Forall_forall in HF. apply HF, elem_of_aget. eauto.
Qed.

(** An array split at the position it is accessed at. *)
Lemma aget_middle {A} (l1 : list A) x l2 : aget (l1 ++ x :: l2) (zlen l1) = Some x.
Proof. rewrite aget_nat. by apply list_lookup_middle. Qed.

Lemma aset_middle {A} (l1 : list A) x l2 v : aset (l1 ++ x :: l2) (zlen l1) v = Some (l1 ++ v :: l2).
Proof.
  rewrite aset_range by (rewrite length_app; simpl; lia). f_equal. rewrite Nat2Z.id.
  replace (length l1) with (length l1 + 0)%nat by lia. by rewrite insert_app_r.
Qed.

Lemma take_succ_aget {A} (l : list A) i x :
  aget l i = Some x -> take (Z.to_nat (i + 1)) l = take (Z.to_nat i) l ++ [x].
Proof.
  intros [Hi Hx]%aget_lookup. replace (Z.to_nat (i + 1)) with (S (Z.to_nat i)) by lia.
  by apply take_S_r.
Qed.

Lemma aget_ext {A} (l1 l2 : list A) :
  length l1 = length l2 -> (forall i x, aget l1 i = Some x -> aget l2 i = Some x) -> l1 = l2.
Proof.
  intros Hl H. apply list_eq. intros i. destruct (l1 !! i) as [x|] eqn:E.
  - rewrite <-aget_nat in E. apply H in E. by rewrite aget_nat in E.
  - symmetry. apply lookup_ge_None. apply lookup_ge_None in E. lia.
Qed.

Lemma seqZ_succ r : 0 <= r -> seqZ 0 (r + 1) = seqZ 0 r ++ [r].
Proof. intros. rewrite seqZ_app by lia. by rewrite Z.add_0_l. Qed.

(** The least index at which a test holds. *)
Lemma least_Z (P : Z -> bool) k0 :
  0 <= k0 -> P k0 = true -> exists k, 0 <= k <= k0 /\ P k = true /\ forall t, 0 <= t < k -> P t = false.
Proof.
  intros H0. revert k0 H0.
  assert (forall n k0, k0 < Z.of_nat n -> 0 <= k0 -> P k0 = true ->
    exists k, 0 <= k <= k0 /\ P k = true /\ forall t, 0 <= t < k -> P t = false) as H.
  { induction n as [|n IH]; intros k0 Hn H0 HP; [lia|].
    destruct (existsb P (seqZ 0 k0)) eqn:E.
    - apply existsb_exists in E as (t & Ht%list_elem_of_In%elem_of_seqZ & HPt).
      destruct (IH t) as (k & ? & ? & ?); [lia..|done|]. exists k. split_and!; try done; lia.
    - exists k0. split_and!; [lia..|done|]. intros t Ht. apply not_true_iff_false. intros HPt.
      apply not_true_iff_false in E. apply E, existsb_exists. exists t. split; [|done].
      apply list_elem_of_In, elem_of_seqZ. lia. }
  intros k0 H0. apply (H (Z.to_nat (k0 + 1))); lia.
Qed.

(** Distinct elements of [[0, n)]. *)
Lemma nodup_bound (n : Z) (l : list Z) : 0 <= n -> NoDup l -> (forall e, e ∈ l -> 0 <= e < n) -> zlen l <= n.
Proof.
  intros Hn Hnd Hr. assert (l ⊆+ seqZ 0 n) as Hs.
  { apply NoDup_submseteq; [done|]. intros e He. apply elem_of_seqZ. specialize (Hr e He). lia. }
  apply submseteq_length in Hs. rewrite length_seqZ in Hs. lia.
Qed.

(** The product of [n] extents from [d]. *)
Fixpoint extent_prod (n : nat) (l : list Z) (d : Z) : Z :=
  match n with
  | O => 1
  | S n => default 1 (aget l d) * extent_prod n l (d + 1)
  end.

Lemma extent_prod_pos n l d :
  (forall k x, d <= k < d + Z.of_nat n -> aget l k = Some x -> 0 < x) -> 0 < extent_prod n l d.
Proof.
  revert d. induction n as [|n IH]; intros d Hp; cbn [extent_prod]; [done|].
  specialize (IH (d + 1)). destruct (aget l d) as [x|] eqn:E; cbn.
  - assert (0 < x) by (apply (Hp d); [lia|done]). assert (0 < extent_prod n l (d + 1)); [|nia].
    apply IH. intros k y Hk. apply Hp. lia.
  - rewrite Z.mul_1_l. apply IH. intros k y Hk. apply Hp. lia.
Qed.

(** A suffix product is a factor of the whole. *)
Lemma extent_prod_suffix n l d k :
  (k <= n)%nat -> (forall j x, d <= j < d + Z.of_nat n -> aget l j = Some x -> 0 < x) ->
  0 < extent_prod (n - k) l (d + Z.of_nat k) <= extent_prod n l d.
Proof.
  revert n d. induction k as [|k IH]; intros n d Hk Hp.
  - rewrite Nat.sub_0_r, Z.add_0_r. split; [by apply extent_prod_pos|done].
  - destruct n as [|n]; [lia|]. cbn [extent_prod Nat.sub].
    assert (forall j x, d + 1 <= j < d + 1 + Z.of_nat n -> aget l j = Some x -> 0 < x) as Hp'.
    { intros j x Hj. apply Hp. lia. }
    specialize (IH n (d + 1) ltac:(lia) Hp').
    replace (d + Z.of_nat (S k)) with (d + 1 + Z.of_nat k) by lia. split; [lia|].
    destruct (aget l d) as [x|] eqn:E; cbn; [|lia]. assert (0 < x) by (apply (Hp d); [lia|done]). nia.
Qed.
