(* ===== verification/Selection.v ===== *)
(** * Queries and selection grids

    [src/src/query/selection.c] and [selection.h]: validation and copying of a
    sample request, binary search over its sorted index arrays, and the grid
    iterator that enumerates the chunks (or shards) a request touches. *)

From stdpp Require Import strings.
From S2P Require Import Prelude.

#[local] Open Scope Z_scope.

(** ** Data *)

Definition DAMACY_MAX_RANK : Z := 31.

Record damacy_interval := Interval { beg : Z; end_ : Z }.

(** [dims] holds the entries [0 .. rank). *)
Record damacy_aabb := Aabb { dims : list damacy_interval; aabb_rank : Z }.

(** The tagged union [damacy_axis_selection]; [AxisOther] is a tag that is none
    of the two enumerators. [values = None] is the null pointer. *)
Inductive damacy_axis_selection :=
| AxisInterval (interval : damacy_interval)
| AxisIndices (values : option (list Z)) (count : Z)
| AxisOther.

Record damacy_sample := Sample {
  s_uri : option string; s_rank : Z; s_axes : list damacy_axis_selection }.

Record damacy_batch_spec := BatchSpec {
  dtype : Z; sample_shape : list Z; sample_rank : Z; samples_per_batch : Z }.

Record query_index := QueryIndex { source : Z; output : Z }.
#[export] Instance query_index_eq_dec : EqDecision query_index.
Proof. solve_decision. Defined.

(** [count = 0] marks an interval axis; its [indices] are the null pointer. *)
Record query_axis := QueryAxis { indices : list query_index; count : Z }.
Definition query_axis_none : query_axis := QueryAxis [] 0.

Record selection_grid_axis := GridAxis {
  g_indices : option (list query_index);
  cell_size_index : Z;
  span_cell_beg : Z; span_cell_end : Z;
  current_cell : Z;
  span_entry_beg : Z; span_entry_end : Z;
  current_entry : Z }.

Record selection_grid := Grid {
  g_axes : list selection_grid_axis; g_count : Z; g_rank : Z; finished : bool }.

Record selection_span := Span { sp_begin : Z; sp_count : Z }.

(** [sizeof(struct query_index)]: an [int64_t] and a [uint32_t], padded. *)
Definition sizeof_query_index : Z := 16.
Definition alignof_query_index : Z := 8.

(** ** Validation *)

Definition axis_length (axis : damacy_axis_selection) : damacy_status + Z :=
  match axis with
  | AxisInterval iv =>
      if (beg iv <? 0) || (end_ iv <=? beg iv) then inl DAMACY_INVAL
      else inr (end_ iv - beg iv)
  | AxisIndices values count =>
      match values with
      | None => inl DAMACY_INVAL
      | Some _ => if count =? 0 then inl DAMACY_INVAL else inr count
      end
  | AxisOther => inl DAMACY_INVAL
  end.

(** [values[i] < 0 || values[i] == INT64_MAX] for some [i < count]. *)
Fixpoint bad_value (n : nat) (values : list Z) (i : Z) : option bool :=
  match n with
  | O => Some false
  | S n =>
      v ← aget values i;
      if (v <? 0) || (v =? INT64_MAX) then Some true
      else bad_value n values (i + 1)
  end.

Fixpoint validate_axes (n : nat) (axes : list damacy_axis_selection)
    (shape : list Z) (max_plan_bytes d bytes : Z) : option damacy_status :=
  match n with
  | O => Some DAMACY_OK
  | S n =>
      axis ← aget axes d;
      match axis_length axis with
      | inl status => Some status
      | inr length =>
          extent ← aget shape d;
          if negb (length =? u64 extent) then Some DAMACY_INVAL
          else
            match axis with
            | AxisIndices (Some values) count =>
                let size := u64 (count * sizeof_query_index) in
                if (max_plan_bytes <? size) || (u64 (max_plan_bytes - size) <? bytes)
                then Some DAMACY_BUDGET
                else
                  bad ← bad_value (Z.to_nat count) values 0;
                  if (bad : bool) then Some DAMACY_INVAL
                  else validate_axes n axes shape max_plan_bytes (d + 1)
                         (u64 (bytes + size))
            | _ => validate_axes n axes shape max_plan_bytes (d + 1) bytes
            end
      end
  end.

(** [sample], [output] are the (possibly null) pointers of the C function. *)
Definition query_validate (sample : option damacy_sample)
    (output : option damacy_batch_spec) (max_plan_bytes : Z) : option damacy_status :=
  match sample, output with
  | Some s, Some o =>
      match s_uri s with
      | None => Some DAMACY_INVAL
      | Some _ =>
          if (s_rank s =? 0) || (DAMACY_MAX_RANK <? s_rank s)
             || negb (s_rank s =? sample_rank o)
          then Some DAMACY_RANK
          else validate_axes (Z.to_nat (s_rank s)) (s_axes s) (sample_shape o)
                 max_plan_bytes 0 0
      end
  | _, _ => Some DAMACY_INVAL
  end.

Fixpoint has_indices_from (n : nat) (axes : list damacy_axis_selection) (d : Z)
    : option bool :=
  match n with
  | O => Some false
  | S n =>
      axis ← aget axes d;
      match axis with
      | AxisIndices _ _ => Some true
      | _ => has_indices_from n axes (d + 1)
      end
  end.

Definition query_has_indices (s : damacy_sample) : option bool :=
  has_indices_from (Z.to_nat (Z.min (s_rank s) DAMACY_MAX_RANK)) (s_axes s) 0.

(** ** Copying a query *)

Definition compare_indices (a b : query_index) : Z :=
  if negb (source a =? source b)
  then Z.b2z (source b <? source a) - Z.b2z (source a <? source b)
  else Z.b2z (output b <? output a) - Z.b2z (output a <? output b).

(** The order [qsort] sorts by. *)
Definition index_le (a b : query_index) : Prop := compare_indices a b <= 0.
#[export] Instance index_le_dec : RelDecision index_le.
Proof. intros a b. unfold index_le. apply Z_le_dec. Defined.

(** The C library's [qsort] with [compare_indices]. The comparison is a total
    order on [(source, output)], so every correct sort gives this list. *)
Definition qsort_indices (l : list query_index) : list query_index :=
  merge_sort index_le l.

(** The index entries of one axis before sorting; [inl] when a value is out of
    range. *)
Fixpoint copy_values (n : nat) (values : list Z) (i : Z)
    : option (damacy_status + list query_index) :=
  match n with
  | O => Some (inr [])
  | S n =>
      v ← aget values i;
      if (v <? 0) || (v =? INT64_MAX) then Some (inl DAMACY_INVAL)
      else
        rest ← copy_values n values (i + 1);
        match rest with
        | inl st => Some (inl st)
        | inr l => Some (inr (QueryIndex v i :: l))
        end
  end.

(** The first pass: [count] over the index axes. *)
Fixpoint copy_count (n : nat) (axes : list damacy_axis_selection) (d count : Z)
    : option (damacy_status + Z) :=
  match n with
  | O => Some (inr count)
  | S n =>
      axis ← aget axes d;
      match axis_length axis with
      | inl st => Some (inl st)
      | inr length =>
          copy_count n axes (d + 1)
            (match axis with AxisIndices _ _ => u64 (count + length) | _ => count end)
      end
  end.

(** The second pass: bounds and sorted entries of each axis. *)
Fixpoint copy_axes (n : nat) (axes : list damacy_axis_selection) (d : Z)
    : option (damacy_status + list (damacy_interval * query_axis)) :=
  match n with
  | O => Some (inr [])
  | S n =>
      axis ← aget axes d;
      here ← match axis with
             | AxisInterval iv => Some (inr (iv, query_axis_none))
             | AxisIndices values k =>
                 vs ← values;
                 entries ← copy_values (Z.to_nat k) vs 0;
                 match entries with
                 | inl st => Some (inl st)
                 | inr l =>
                     let cursor := qsort_indices l in
                     first ← aget cursor 0;
                     last ← aget cursor (k - 1);
                     Some (inr (Interval (source first) (source last + 1),
                                QueryAxis cursor k))
                 end
             | AxisOther => None
             end;
      match here with
      | inl st => Some (inl st)
      | inr x =>
          rest ← copy_axes n axes (d + 1);
          match rest with
          | inl st => Some (inl st)
          | inr l => Some (inr (x :: l))
          end
      end
  end.

(** [malloc n] says whether the allocation of [n] bytes succeeds. The result is
    the copied uri, the bounds and the axes. *)
Definition query_copy (malloc : Z -> bool) (sample : option damacy_sample)
    : option (damacy_status + (string * damacy_aabb * list query_axis)) :=
  match sample with
  | None => Some (inl DAMACY_INVAL)
  | Some s =>
      match s_uri s with
      | None => Some (inl DAMACY_INVAL)
      | Some uri =>
          if (s_rank s =? 0) || (DAMACY_MAX_RANK <? s_rank s) then Some (inl DAMACY_INVAL)
          else
            let uri_bytes := Z.of_nat (String.length uri) + 1 in
            let alignment := alignof_query_index in
            if SIZE_MAX - alignment + 1 <? uri_bytes then Some (inl DAMACY_BUDGET)
            else
              let offset := (uri_bytes + alignment - 1) / alignment * alignment in
              counted ← copy_count (Z.to_nat (s_rank s)) (s_axes s) 0 0;
              match counted with
              | inl st => Some (inl st)
              | inr n =>
                  if (SIZE_MAX - offset) / sizeof_query_index <? n
                  then Some (inl DAMACY_BUDGET)
                  else if negb (malloc (offset + n * sizeof_query_index))
                  then Some (inl DAMACY_OOM)
                  else
                    copied ← copy_axes (Z.to_nat (s_rank s)) (s_axes s) 0;
                    match copied with
                    | inl st => Some (inl st)
                    | inr l =>
                        Some (inr (uri, Aabb (map fst l) (s_rank s), map snd l))
                    end
              end
      end
  end.

(** ** Binary search *)

Fixpoint lower_bound_loop (fuel : nat) (l : list query_index) (src lo hi : Z)
    : option Z :=
  if lo <? hi then
    match fuel with
    | O => None
    | S fuel =>
        let mid := u32 (lo + u32 (hi - lo) / 2) in
        e ← aget l mid;
        if u64 (source e) <? src then lower_bound_loop fuel l src (u32 (mid + 1)) hi
        else lower_bound_loop fuel l src lo mid
    end
  else Some lo.

(** The window halves each round and starts below [2 ^ 32] entries, so 33
    rounds are enough. *)
Definition query_lower_bound (axis : query_axis) (src : Z) : option Z :=
  lower_bound_loop 33 (indices axis) src 0 (count axis).

Definition query_chunk_span (axis : query_axis) (bounds : damacy_interval)
    (origin extent : Z) : option selection_span :=
  let e := if UINT64_MAX - extent <? origin then UINT64_MAX else origin + extent in
  if negb (count axis =? 0) then
    b ← query_lower_bound axis origin;
    b' ← query_lower_bound axis e;
    Some (Span b (u32 (b' - b)))
  else
    let b := if u64 (beg bounds) <? origin then origin else u64 (beg bounds) in
    let e := if u64 (end_ bounds) <? e then u64 (end_ bounds) else e in
    Some (Span b (if b <? e then e - b else 0)).

(** ** The grid *)

Definition cell_start_index (cell size : Z) : Z :=
  if UINT64_MAX / size <? cell then UINT64_MAX else cell * size.

(** [n] entries from [entry] on: how many times the cell changes. *)
Fixpoint count_cells (n : nat) (l : list query_index) (size entry previous acc : Z)
    : option Z :=
  match n with
  | O => Some acc
  | S n =>
      e ← aget l entry;
      let cell := u64 (source e) / size in
      count_cells n l size (entry + 1) cell
        (u64 (acc + Z.b2z (negb (cell =? previous))))
  end.

Definition clip_beg (clip : option (list Z)) (d b : Z) : option Z :=
  match clip with
  | None => Some b
  | Some c => v ← aget c d; Some (if b <? v then v else b)
  end.
Definition clip_end (clip : option (list Z)) (d e : Z) : option Z :=
  match clip with
  | None => Some e
  | Some c => v ← aget c d; Some (if v <? e then v else e)
  end.

(** The body of the loop over the dimensions: the axis and its cell count, or
    the status that ends the function. *)
Definition grid_axis_init (bounds : damacy_interval) (axis : query_axis) (size : Z)
    (clip_beg_cell clip_end_cell : option (list Z)) (d : Z)
    : option (damacy_status + selection_grid_axis * Z) :=
  if (beg bounds <? 0) || (end_ bounds <=? beg bounds) || (size =? 0)
  then Some (inl DAMACY_INVAL)
  else
    cb ← clip_beg clip_beg_cell d (u64 (beg bounds) / size);
    ce ← clip_end clip_end_cell d (u64 (u64 (u64 (end_ bounds) - 1) / size + 1));
    let cell_count := if cb <? ce then ce - cb else 0 in
    if negb (count axis =? 0) && negb (cell_count =? 0) then
      eb ← query_lower_bound axis (cell_start_index cb size);
      ee ← query_lower_bound axis (cell_start_index ce size);
      n ← count_cells (Z.to_nat (ee - eb)) (indices axis) size eb UINT64_MAX 0;
      cur ← (if negb (n =? 0) then
               e ← aget (indices axis) eb; Some (u64 (source e) / size)
             else Some cb);
      Some (inr (GridAxis (Some (indices axis)) size cb ce cur eb ee eb, n))
    else Some (inr (GridAxis None size cb ce cb 0 0 0, cell_count)).

Fixpoint grid_init_loop (n : nat) (bounds : damacy_aabb) (axes : list query_axis)
    (shape : list Z) (clip_b clip_e : option (list Z)) (max_cells d : Z)
    (acc : selection_grid) : option (damacy_status * selection_grid) :=
  match n with
  | O => Some (DAMACY_OK, acc)
  | S n =>
      b ← aget (dims bounds) d;
      a ← aget axes d;
      size ← aget shape d;
      r ← grid_axis_init b a size clip_b clip_e d;
      match r with
      | inl st => Some (st, acc)
      | inr (axis, cells) =>
          let axes' := g_axes acc ++ [axis] in
          if cells =? 0 then
            grid_init_loop n bounds axes shape clip_b clip_e max_cells (d + 1)
              (Grid axes' 0 (g_rank acc) true)
          else if max_cells / cells <? g_count acc then
            Some (DAMACY_BUDGET, Grid axes' (g_count acc) (g_rank acc) (finished acc))
          else
            grid_init_loop n bounds axes shape clip_b clip_e max_cells (d + 1)
              (Grid axes' (u64 (g_count acc * cells)) (g_rank acc) (finished acc))
      end
  end.

Definition selection_grid_init (bounds : damacy_aabb) (axes : list query_axis)
    (shape : list Z) (clip_b clip_e : option (list Z)) (max_cells : Z)
    : option (damacy_status * selection_grid) :=
  let grid := Grid [] 1 (aabb_rank bounds) false in
  if (aabb_rank bounds =? 0) || (DAMACY_MAX_RANK <? aabb_rank bounds)
  then Some (DAMACY_RANK, grid)
  else grid_init_loop (Z.to_nat (aabb_rank bounds)) bounds axes shape clip_b clip_e
         max_cells 0 grid.

(** [while (++current_entry < span_entry.end)]: the first entry of another cell. *)
Fixpoint next_entry (n : nat) (l : list query_index) (size cur entry last : Z)
    : option (option (Z * Z)) :=
  let entry := u32 (entry + 1) in
  if entry <? last then
    match n with
    | O => None
    | S n =>
        e ← aget l entry;
        let cell := u64 (source e) / size in
        if negb (cell =? cur) then Some (Some (entry, cell))
        else next_entry n l size cur entry last
    end
  else Some None.

Definition set_current (a : selection_grid_axis) (cell entry : Z) : selection_grid_axis :=
  GridAxis (g_indices a) (cell_size_index a) (span_cell_beg a) (span_cell_end a)
    cell (span_entry_beg a) (span_entry_end a) entry.

(** One axis steps; [true] when it moved to its next cell, [false] when it
    wrapped to its first one. *)
Definition axis_step (a : selection_grid_axis) : option (bool * selection_grid_axis) :=
  match g_indices a with
  | Some l =>
      r ← next_entry (Z.to_nat (span_entry_end a - current_entry a)) l
            (cell_size_index a) (current_cell a) (current_entry a) (span_entry_end a);
      match r with
      | Some (entry, cell) => Some (true, set_current a cell entry)
      | None =>
          e ← aget l (span_entry_beg a);
          Some (false, set_current a (u64 (source e) / cell_size_index a) (span_entry_beg a))
      end
  | None =>
      let c := u64 (current_cell a + 1) in
      if c <? span_cell_end a then Some (true, set_current a c (current_entry a))
      else Some (false, set_current a (span_cell_beg a) (current_entry a))
  end.

(** The loop from the last axis to the first: an axis steps when every axis
    after it has wrapped. *)
Fixpoint grid_carry (axes : list selection_grid_axis)
    : option (bool * list selection_grid_axis) :=
  match axes with
  | [] => Some (false, [])
  | a :: rest =>
      r ← grid_carry rest;
      let '(moved, rest') := (r : bool * _) in
      if moved then Some (true, a :: rest')
      else
        s ← axis_step a;
        let '(m, a') := (s : bool * _) in
        Some (m, a' :: rest')
  end.

(** [None] inside the result is the C function's 0. *)
Definition selection_grid_next (g : selection_grid)
    : option (option (list Z) * selection_grid) :=
  if finished g then Some (None, g)
  else
    let coordinate := map current_cell (g_axes g) in
    r ← grid_carry (g_axes g);
    let '(moved, axes) := (r : bool * _) in
    Some (Some coordinate, Grid axes (g_count g) (g_rank g) (negb moved)).

(** ** Binary search: correctness *)

(** Entries as [query_copy] stores them: sorted, sources in [0, 2^63). *)
Record entries_ok (l : list query_index) : Prop := {
  eo_sorted : StronglySorted (fun a b => source a <= source b) l;
  eo_range : Forall (fun e => 0 <= source e < INT64_MAX) l;
  eo_len : zlen l < 2 ^ 32 }.

(** [k] is the partition point of [l] at [src]. *)
Definition is_lower_bound (l : list query_index) (src k : Z) : Prop :=
  0 <= k <= zlen l /\
  forall i e, aget l i = Some e -> (i < k <-> source e < src).

Lemma sorted_aget l i j a b :
  StronglySorted (fun a b => source a <= source b) l ->
  aget l i = Some a -> aget l j = Some b -> i <= j -> source a <= source b.
Proof.
  intros Hs [? Ha]%aget_lookup [? Hb]%aget_lookup Hij.
  destruct (decide (i = j)) as [->|]; [simplify_eq; lia|].
  revert Ha Hb. assert (Z.to_nat i < Z.to_nat j)%nat as Hn by lia. clear -Hs Hn.
  revert Hn. generalize (Z.to_nat i) (Z.to_nat j). clear i j. induction Hs as [|x l Hs IH Hx]; [done|].
  intros [|i] [|j] Hij; simpl; try lia; intros Ha Hb; simplify_eq.
  - rewrite Forall_lookup in Hx. eauto.
  - eapply IH; [|done..]. lia.
Qed.

Lemma entries_aget l i e : entries_ok l -> aget l i = Some e -> 0 <= source e < INT64_MAX.
Proof.
  intros H [_ He]%aget_lookup. pose proof (eo_range _ H) as Hr.
  rewrite Forall_lookup in Hr. eauto.
Qed.

Lemma lower_bound_loop_spec fuel l src lo hi :
  entries_ok l -> 0 <= lo <= hi -> hi <= zlen l -> hi - lo < 2 ^ Z.of_nat fuel ->
  (forall i e, aget l i = Some e -> i < lo -> source e < src) ->
  (forall i e, aget l i = Some e -> hi <= i -> src <= source e) ->
  exists k, lower_bound_loop fuel l src lo hi = Some k /\ is_lower_bound l src k.
Proof.
  intros Hok. pose proof (eo_len _ Hok) as Hlen. revert lo hi.
  induction fuel as [|fuel IH]; intros lo hi Hlo Hhi Hf Hlt Hge; simpl;
    destruct (Z.ltb_spec lo hi) as [Hw|Hw];
    try (exists lo; split; [done|]; split; [lia|]; intros i e He; split;
         [eauto|intros; destruct (decide (i < lo)); [done|];
                specialize (Hge _ _ He ltac:(lia)); lia]).
  { simpl in Hf. lia. }
  rewrite Nat2Z.inj_succ, Z.pow_succ_r in Hf by lia.
  rewrite (u32_id (hi - lo)) by clia.
  assert (lo <= lo + (hi - lo) / 2 < hi) as Hmid by dlia.
  rewrite (u32_id (lo + _)) by clia.
  assert ((hi - lo) / 2 < 2 ^ Z.of_nat fuel /\ hi - (lo + (hi - lo) / 2 + 1) < 2 ^ Z.of_nat fuel)
    as [Hf1 Hf2] by dlia.
  remember (lo + (hi - lo) / 2) as mid eqn:Emid.
  destruct (aget_is_Some l mid ltac:(lia)) as [e He]. rewrite He. simpl.
  pose proof (entries_aget _ _ _ Hok He) as Hr.
  rewrite u64_id by clia. rewrite u32_id by clia.
  destruct (Z.ltb_spec (source e) src) as [Hc|Hc].
  - apply IH; [lia..| |done]. intros i e' He' Hi.
    pose proof (sorted_aget _ i mid _ _ (eo_sorted _ Hok) He' He ltac:(lia)). lia.
  - apply IH; [lia..|done|]. intros i e' He' Hi.
    pose proof (sorted_aget _ mid i _ _ (eo_sorted _ Hok) He He' ltac:(lia)). lia.
Qed.

Lemma query_lower_bound_spec axis src :
  entries_ok (indices axis) -> count axis = zlen (indices axis) ->
  exists k, query_lower_bound axis src = Some k /\ is_lower_bound (indices axis) src k.
Proof.
  intros Hok Hc. apply lower_bound_loop_spec; rewrite ?Hc; [done|lia|lia|..].
  - pose proof (eo_len _ Hok). change (2 ^ Z.of_nat 33) with 8589934592. clia.
  - intros i e ?%aget_Some_range ?. lia.
  - intros i e ?%aget_Some_range ?. lia.
Qed.

(** ** Sorting the index entries *)

Lemma compare_indices_le a b :
  index_le a b <-> source a < source b \/ (source a = source b /\ output a <= output b).
Proof.
  unfold index_le, compare_indices.
  destruct (Z.eqb_spec (source a) (source b)) as [->|?]; simpl.
  - destruct (Z.ltb_spec (output b) (output a)), (Z.ltb_spec (output a) (output b)); simpl; lia.
  - destruct (Z.ltb_spec (source b) (source a)), (Z.ltb_spec (source a) (source b)); simpl; lia.
Qed.

#[export] Instance index_le_total : Total index_le.
Proof. intros a b. rewrite !compare_indices_le. lia. Qed.
#[export] Instance index_le_trans : Transitive index_le.
Proof. intros a b c. rewrite !compare_indices_le. lia. Qed.
#[export] Instance index_le_antisymm : AntiSymm (=) index_le.
Proof.
  intros [s o] [s' o']. rewrite !compare_indices_le; simpl. intros.
  f_equal; lia.
Qed.

(** Any sort by [compare_indices] returns [qsort_indices]. *)
Lemma qsort_indices_unique l l' :
  Sorted index_le l' -> l' ≡ₚ l -> l' = qsort_indices l.
Proof.
  intros Hs Hp. eapply (Sorted_unique index_le); [done|apply Sorted_merge_sort, _|].
  unfold qsort_indices. by rewrite Hp, merge_sort_Permutation.
Qed.

Lemma copy_values_ok n values i :
  0 <= i -> i + Z.of_nat n <= zlen values ->
  (forall j v, aget values j = Some v -> i <= j < i + Z.of_nat n -> 0 <= v < INT64_MAX) ->
  exists l, copy_values n values i = Some (inr l) /\ length l = n /\
    (forall e, e ∈ l <-> i <= output e < i + Z.of_nat n
                       /\ aget values (output e) = Some (source e)).
Proof.
  revert i. induction n as [|n IH]; intros i Hi Hn Hv; simpl.
  - exists []. split; [done|]. split; [done|]. intros e. split; [set_solver|lia].
  - destruct (aget_is_Some values i ltac:(lia)) as [v Ev]. rewrite Ev. simpl.
    destruct (Hv i v Ev ltac:(lia)) as [Hv1 Hv2].
    rewrite (proj2 (Z.ltb_ge v 0)), (proj2 (Z.eqb_neq v INT64_MAX)) by lia. simpl.
    destruct (IH (i + 1) ltac:(lia) ltac:(lia)) as (l & -> & Hl & He).
    { intros j w Hj Hr. apply (Hv j w Hj). lia. }
    exists (QueryIndex v i :: l). split; [done|]. split; [simpl; lia|].
    intros e. rewrite elem_of_cons, He. split.
    + intros [->|[? ?]]; simpl; split; auto; lia.
    + intros [Hr Ha]. destruct (decide (output e = i)) as [Ho|?]; [left|right; split; auto; lia].
      rewrite Ho in Ha. destruct e; simpl in *; congruence.
Qed.

Lemma copy_values_bad n values i st :
  copy_values n values i = Some (inl st) ->
  st = DAMACY_INVAL /\ exists j v, i <= j < i + Z.of_nat n /\ aget values j = Some v /\
    (v < 0 \/ v = INT64_MAX).
Proof.
  revert i. induction n as [|n IH]; intros i; simpl; [done|].
  destruct (aget values i) as [v|] eqn:Ev; simpl; [|done].
  destruct (Z.ltb_spec v 0), (Z.eqb_spec v INT64_MAX); simpl;
    try (intros [= <-]; split; [done|]; exists i, v; split; [lia|split; [done|lia]]).
  destruct (copy_values n values (i + 1)) as [[?|?]|] eqn:Ec; simpl; try done.
  intros [= ->]. destruct (IH _ Ec) as [-> (j & w & Hj & Hw)].
  split; [done|]. exists j, w. split; [lia|done].
Qed.

(** What [query_copy] stores for one axis of a request: its bounding interval
    and, for an index axis, the selected sources each with its position. *)
Definition axis_copied (axis : damacy_axis_selection) (b : damacy_interval)
    (q : query_axis) : Prop :=
  match axis with
  | AxisInterval iv => b = iv /\ q = query_axis_none
  | AxisIndices (Some values) k =>
      count q = k /\ zlen (indices q) = k /\ Sorted index_le (indices q) /\
      (forall e, e ∈ indices q <->
         0 <= output e < k /\ aget values (output e) = Some (source e)) /\
      (forall e, e ∈ indices q -> beg b <= source e < end_ b) /\
      (exists e, e ∈ indices q /\ source e = beg b) /\
      (exists e, e ∈ indices q /\ source e + 1 = end_ b)
  | _ => False
  end.

(** An axis a caller may pass: a [uint32_t] count that fits its array. *)
Definition axis_fits (axis : damacy_axis_selection) : Prop :=
  match axis with
  | AxisIndices (Some values) k =>
      0 <= k < 2 ^ 32 /\ k <= zlen values /\ Forall (fun v => - 2 ^ 63 <= v < 2 ^ 63) values
  | AxisIndices None k => 0 <= k < 2 ^ 32
  | AxisInterval iv => - 2 ^ 63 <= beg iv < 2 ^ 63 /\ - 2 ^ 63 <= end_ iv < 2 ^ 63
  | AxisOther => True
  end.

(** The axis is one [query_validate] accepts. *)
Definition axis_valid (axis : damacy_axis_selection) : Prop :=
  match axis with
  | AxisInterval iv => 0 <= beg iv < end_ iv
  | AxisIndices (Some values) k =>
      0 < k /\ forall i v, 0 <= i < k -> aget values i = Some v -> 0 <= v < INT64_MAX
  | _ => False
  end.

Lemma sorted_index_source l :
  Sorted index_le l -> StronglySorted (fun a b => source a <= source b) l.
Proof.
  intros Hs%Sorted_StronglySorted; [|apply _].
  induction Hs as [|x l Hl IH Hx]; constructor; [done|].
  eapply Forall_impl; [exact Hx|]. intros y. rewrite compare_indices_le. lia.
Qed.

Lemma copy_indices_ok values k :
  axis_fits (AxisIndices (Some values) k) -> axis_valid (AxisIndices (Some values) k) ->
  exists l, copy_values (Z.to_nat k) values 0 = Some (inr l) /\
    exists f t, aget (qsort_indices l) 0 = Some f /\ aget (qsort_indices l) (k - 1) = Some t /\
      axis_copied (AxisIndices (Some values) k)
        (Interval (source f) (source t + 1)) (QueryAxis (qsort_indices l) k).
Proof.
  intros (Hk & Hlen & _) [Hpos Hv].
  destruct (copy_values_ok (Z.to_nat k) values 0) as (l & -> & Hl & Hin); [lia..| |].
  { intros j v Hj Hr. apply (Hv j v); [lia|done]. }
  exists l. split; [done|].
  assert (qsort_indices l ≡ₚ l) as Hp by apply merge_sort_Permutation.
  assert (Sorted index_le (qsort_indices l)) as Hs by apply Sorted_merge_sort, _.
  pose proof (sorted_index_source _ Hs) as Hss.
  assert (zlen (qsort_indices l) = k) as Hlen' by (rewrite Hp; lia).
  destruct (aget_is_Some (qsort_indices l) 0 ltac:(lia)) as [f Hf].
  destruct (aget_is_Some (qsort_indices l) (k - 1) ltac:(lia)) as [t Ht].
  exists f, t. split_and!; [done..|]. simpl.
  assert (forall e, e ∈ qsort_indices l -> source f <= source e < source t + 1) as Hb.
  { intros e [i Hi]%list_elem_of_lookup. rewrite <-aget_nat in Hi.
    pose proof (aget_Some_range _ _ _ Hi).
    pose proof (sorted_aget _ _ _ _ _ Hss Hf Hi ltac:(lia)).
    pose proof (sorted_aget _ _ _ _ _ Hss Hi Ht ltac:(lia)). lia. }
  split_and!; try done.
  - intros e. rewrite Hp, Hin. rewrite Z2Nat.id by lia. done.
  - exists f. split; [|done]. apply aget_lookup in Hf as [_ Hf]. by eapply list_elem_of_lookup_2.
  - exists t. split; [|done]. apply aget_lookup in Ht as [_ Ht]. by eapply list_elem_of_lookup_2.
Qed.

Lemma copy_axes_ok n axes d :
  0 <= d -> d + Z.of_nat n <= zlen axes ->
  (forall i a, aget axes i = Some a -> d <= i < d + Z.of_nat n -> axis_fits a /\ axis_valid a) ->
  exists l, copy_axes n axes d = Some (inr l) /\ length l = n /\
    forall i p a, aget l i = Some p -> aget axes (d + i) = Some a -> axis_copied a p.1 p.2.
Proof.
  revert d. induction n as [|n IH]; intros d Hd Hn Ha; simpl.
  { exists []. split_and!; [done..|]. intros i p a ?%aget_Some_range. simpl in *. lia. }
  destruct (aget_is_Some axes d ltac:(lia)) as [a Ea]. rewrite Ea. simpl.
  destruct (Ha d a Ea ltac:(lia)) as [Hfit Hval].
  destruct (IH (d + 1) ltac:(lia) ltac:(lia)) as (rest & Er & Hlen & Hrest).
  { intros i b Hb Hr. apply (Ha i b Hb). lia. }
  assert (exists here, axis_copied a here.1 here.2 /\
    copy_axes (S n) axes d = Some (inr (here :: rest))) as (here & Hh & Hc).
  { simpl. rewrite Ea. simpl. destruct a as [iv|[values|] k|]; try done.
    - exists (iv, query_axis_none). simpl. rewrite Er. done.
    - simpl. destruct (copy_indices_ok values k Hfit Hval) as (l & -> & f & t & Hf & Ht & Hc).
      simpl. rewrite Hf. simpl. rewrite Ht. simpl. rewrite Er. simpl.
      eexists (_, _). split; [|reflexivity]. exact Hc. }
  simpl in Hc. rewrite Ea in Hc. simpl in Hc. rewrite Hc.
  exists (here :: rest). split_and!; [done|simpl; lia|].
  intros i p b Hp Hb. destruct (decide (i = 0)) as [->|].
  - rewrite Z.add_0_r in Hb. replace (aget (here :: rest) 0) with (Some here) in Hp by done.
    by simplify_eq.
  - apply (Hrest (i - 1)).
    + pose proof (aget_Some_range _ _ _ Hp). apply aget_lookup in Hp as [_ Hp].
      apply aget_lookup. split; [lia|]. 
      replace (Z.to_nat i) with (S (Z.to_nat (i - 1))) in Hp by lia. done.
    + by replace (d + 1 + (i - 1)) with (d + i) by lia.
Qed.

(** ** Validation: exact acceptance condition *)

Definition axis_extent (axis : damacy_axis_selection) : Z :=
  match axis with
  | AxisInterval iv => end_ iv - beg iv
  | AxisIndices _ k => k
  | AxisOther => 0
  end.

Definition axis_index_bytes (axis : damacy_axis_selection) : Z :=
  match axis with AxisIndices _ k => k * sizeof_query_index | _ => 0 end.

Definition index_bytes (axes : list damacy_axis_selection) : Z :=
  foldr (fun a n => axis_index_bytes a + n) 0 axes.

(** A request whose memory is laid out as the API requires: [rank] axes. *)
Record sample_fits (s : damacy_sample) (o : damacy_batch_spec) : Prop := {
  sf_rank : 0 <= s_rank s < 2 ^ 8;
  sf_axes : zlen (s_axes s) = DAMACY_MAX_RANK;
  sf_axis : Forall axis_fits (s_axes s);
  sf_shape : zlen (sample_shape o) = DAMACY_MAX_RANK;
  sf_extent : Forall (fun x => - 2 ^ 63 <= x < 2 ^ 63) (sample_shape o) }.

Definition axes_accepted (axes : list damacy_axis_selection) (shape : list Z) : Prop :=
  Forall2 (fun a x => axis_valid a /\ axis_extent a = x) axes shape.

Lemma index_bytes_nonneg axes : Forall axis_fits axes -> 0 <= index_bytes axes.
Proof.
  induction 1 as [|a axes Ha _ IH]; simpl; [done|].
  destruct a as [|[]|]; simpl in *; unfold sizeof_query_index; lia.
Qed.

Lemma bad_value_spec n values i :
  0 <= i -> i + Z.of_nat n <= zlen values ->
  Forall (fun v => - 2 ^ 63 <= v < 2 ^ 63) values ->
  exists b, bad_value n values i = Some b /\
    (b = false <-> forall j v, i <= j < i + Z.of_nat n -> aget values j = Some v ->
                               0 <= v < INT64_MAX).
Proof.
  intros Hi Hn HF. revert i Hi Hn. induction n as [|n IH]; intros i Hi Hn; simpl.
  { exists false. split; [done|]. split; [|done]. intros _ j v ?. lia. }
  destruct (aget_is_Some values i ltac:(lia)) as [v Ev]. rewrite Ev. simpl.
  destruct (IH (i + 1) ltac:(lia) ltac:(lia)) as (b & Eb & Hb).
  assert (- 2 ^ 63 <= v < 2 ^ 63) as Hv.
  { apply aget_lookup in Ev as [_ Ev]. rewrite Forall_lookup in HF. eauto. }
  destruct (Z.ltb_spec v 0), (Z.eqb_spec v INT64_MAX); simpl;
    try (exists true; split; [done|]; split; [discriminate|];
         intros H'; specialize (H' i v ltac:(lia) Ev); lia).
  exists b. split; [done|]. rewrite Hb. split; intros H' j w Hj Hw.
  - destruct (decide (j = i)) as [->|]; [simplify_eq; clia|]. apply (H' j); [lia|done].
  - apply (H' j); [lia|done].
Qed.

Lemma drop_aget {A} (l : list A) d x :
  aget l d = Some x -> drop (Z.to_nat d) l = x :: drop (Z.to_nat (d + 1)) l.
Proof.
  intros Hx. pose proof (aget_Some_range _ _ _ Hx). apply aget_lookup in Hx as [_ Hx].
  replace (Z.to_nat (d + 1)) with (S (Z.to_nat d)) by lia. by apply drop_S.
Qed.

Lemma u64_eq_extent length extent :
  0 <= length < 2 ^ 63 -> - 2 ^ 63 <= extent < 2 ^ 63 ->
  (length =? u64 extent) = (length =? extent).
Proof.
  intros H1 H2. destruct (decide (0 <= extent)).
  - by rewrite u64_id by clia.
  - unfold u64. rewrite <-(Z.mod_add _ 1), Z.mod_small by clia.
    destruct (Z.eqb_spec length extent), (Z.eqb_spec length (extent + 1 * 2 ^ 64)); clia.
Qed.

Lemma axis_length_spec a :
  axis_fits a ->
  match axis_length a with
  | inl st => st = DAMACY_INVAL /\ ~ axis_valid a
  | inr length =>
      length = axis_extent a /\ 0 < length < 2 ^ 63 /\
      match a with
      | AxisInterval _ => axis_valid a
      | AxisIndices (Some _) k => True
      | _ => False
      end
  end.
Proof.
  destruct a as [iv|[values|] k|]; simpl; try (intros; split; auto; tauto).
  - intros ?. destruct (Z.ltb_spec (beg iv) 0), (Z.leb_spec (end_ iv) (beg iv)); simpl;
      split_and?; lia || done.
  - intros (? & ? & ?). destruct (Z.eqb_spec k 0); simpl; split_and?; try done; clia.
Qed.

Lemma validate_axes_ok n axes shape m d bytes :
  Forall axis_fits axes -> Forall (fun x => - 2 ^ 63 <= x < 2 ^ 63) shape ->
  0 <= d -> d + Z.of_nat n <= zlen axes -> d + Z.of_nat n <= zlen shape ->
  0 <= bytes <= m -> m < 2 ^ 64 ->
  exists st, validate_axes n axes shape m d bytes = Some st /\
    (st = DAMACY_OK <->
       axes_accepted (take n (drop (Z.to_nat d) axes)) (take n (drop (Z.to_nat d) shape)) /\
       bytes + index_bytes (take n (drop (Z.to_nat d) axes)) <= m).
Proof.
  intros Hfit Hshape. revert d bytes. induction n as [|n IH]; intros d bytes Hd H1 H2 Hb Hm; simpl.
  { exists DAMACY_OK. split; [done|]. split; [|done]. intros _. split; [constructor|simpl; lia]. }
  destruct (aget_is_Some axes d ltac:(lia)) as [a Ea].
  destruct (aget_is_Some shape d ltac:(lia)) as [x Ex]. rewrite Ea; simpl.
  rewrite (drop_aget _ _ _ Ea), (drop_aget _ _ _ Ex). simpl.
  assert (axis_fits a) as Ha.
  { apply aget_lookup in Ea as [_ Ea]. rewrite Forall_lookup in Hfit. eauto. }
  assert (- 2 ^ 63 <= x < 2 ^ 63) as Hx.
  { apply aget_lookup in Ex as [_ Ex']. rewrite Forall_lookup in Hshape. eauto. }
  assert (0 <= index_bytes (take n (drop (Z.to_nat (d + 1)) axes))) as Hpos.
  { apply index_bytes_nonneg. by apply Forall_take, Forall_drop. }
  pose proof (axis_length_spec a Ha) as Hlen. destruct (axis_length a) as [st|length].
  { destruct Hlen as [-> Hnv]. eexists. split; [done|]. split; [discriminate|].
    intros [Hacc _]. inversion Hacc; subst. tauto. }
  destruct Hlen as (-> & Hrange & Hk). rewrite Ex. simpl.
  rewrite (u64_eq_extent (axis_extent a) x ltac:(lia) Hx).
  destruct (Z.eqb_spec (axis_extent a) x) as [Hex|Hex]; simpl.
  2: { eexists. split; [done|]. split; [discriminate|].
       intros [Hacc _]. inversion Hacc; subst. tauto. }
  assert (forall bytes', 0 <= bytes' <= m -> bytes' = bytes + axis_index_bytes a -> axis_valid a ->
    exists st, validate_axes n axes shape m (d + 1) bytes' = Some st /\
    (st = DAMACY_OK <->
       axes_accepted (a :: take n (drop (Z.to_nat (d + 1)) axes))
         (x :: take n (drop (Z.to_nat (d + 1)) shape)) /\
       bytes + (axis_index_bytes a + index_bytes (take n (drop (Z.to_nat (d + 1)) axes))) <= m))
    as Hstep.
  { intros bytes' Hb' -> Hv. destruct (IH (d + 1) (bytes + axis_index_bytes a)) as (st & -> & Hst); [lia..|].
    exists st. split; [done|]. rewrite Hst. unfold axes_accepted.
    rewrite Forall2_cons, Z.add_assoc. tauto. }
  destruct a as [iv|[values|] k|]; try done.
  { apply Hstep; simpl; [lia|lia|exact Hk]. }
  destruct Ha as (Hk1 & Hk2 & Hval). simpl in *. unfold sizeof_query_index in *.
  rewrite (u64_id (k * 16)) by clia.
  destruct (Z.ltb_spec m (k * 16)) as [Hc|Hc]; simpl.
  { eexists. split; [done|]. split; [discriminate|]. intros [_ ?]. lia. }
  rewrite (u64_id (m - k * 16)) by clia.
  destruct (Z.ltb_spec (m - k * 16) bytes) as [Hc'|Hc'].
  { eexists. split; [done|]. split; [discriminate|]. intros [_ ?]. lia. }
  destruct (bad_value_spec (Z.to_nat k) values 0) as (b & -> & Hbad); [lia|lia|done|].
  simpl. destruct b.
  { eexists. split; [done|]. split; [discriminate|]. intros [Hacc _].
    apply Forall2_cons_1 in Hacc as [[[_ Hv] _] _]. enough (true = false) by done. apply Hbad.
    intros j v Hj Hv'. apply (Hv j v); [lia|done]. }
  rewrite u64_id by clia. apply Hstep; [lia..|]. split; [lia|].
  intros i v Hi Hv. apply (proj1 Hbad eq_refl i v); [lia|done].
Qed.

(** Acceptance of a whole request. *)
Definition query_accepted (s : damacy_sample) (o : damacy_batch_spec) (m : Z) : Prop :=
  s_uri s <> None /\ 0 < s_rank s <= DAMACY_MAX_RANK /\ s_rank s = sample_rank o /\
  axes_accepted (take (Z.to_nat (s_rank s)) (s_axes s))
    (take (Z.to_nat (s_rank s)) (sample_shape o)) /\
  index_bytes (take (Z.to_nat (s_rank s)) (s_axes s)) <= m.

Lemma query_validate_iff s o m :
  sample_fits s o -> is_u64 m ->
  exists st, query_validate (Some s) (Some o) m = Some st /\
    (st = DAMACY_OK <-> query_accepted s o m).
Proof.
  intros [Hr Ha Hfit Hsh Hext] Hm. unfold query_validate, query_accepted.
  destruct (s_uri s) as [uri|]; [|by exists DAMACY_INVAL; split; [done|]; split; [discriminate|intros [? _]]].
  destruct (Z.eqb_spec (s_rank s) 0), (Z.ltb_spec DAMACY_MAX_RANK (s_rank s)),
    (Z.eqb_spec (s_rank s) (sample_rank o)); simpl;
    try (exists DAMACY_RANK; split; [done|]; split; [discriminate|]; lia).
  destruct (validate_axes_ok (Z.to_nat (s_rank s)) (s_axes s) (sample_shape o) m 0 0)
    as (st & -> & Hst); [done|done|lia..| | |].
  { unfold is_u64 in Hm. lia. } { unfold is_u64 in Hm. lia. }
  exists st. split; [done|]. rewrite Hst, !drop_0, Z.add_0_l. split; [intros [? ?]; split_and!; done || lia|tauto].
Qed.

(** ** Copying an accepted request *)

Lemma copy_count_ok n axes d acc :
  Forall axis_fits axes -> 0 <= d -> d + Z.of_nat n <= zlen axes ->
  Forall axis_valid (take n (drop (Z.to_nat d) axes)) ->
  0 <= acc -> acc + index_bytes (take n (drop (Z.to_nat d) axes)) < 2 ^ 64 ->
  exists c, copy_count n axes d acc = Some (inr c) /\ 0 <= c /\
    c * sizeof_query_index =
      acc * sizeof_query_index + index_bytes (take n (drop (Z.to_nat d) axes)).
Proof.
  intros Hfit. revert d acc. induction n as [|n IH]; intros d acc Hd Hn Hv Hacc Hb; simpl.
  { exists acc. split_and!; [done|lia|]. change (index_bytes []) with 0. lia. }
  destruct (aget_is_Some axes d ltac:(lia)) as [a Ea]. rewrite Ea. simpl.
  rewrite (drop_aget _ _ _ Ea) in Hv, Hb |- *. simpl in *.
  apply Forall_cons in Hv as [Hva Hv].
  assert (axis_fits a) as Ha.
  { apply aget_lookup in Ea as [_ Ea]. rewrite Forall_lookup in Hfit. eauto. }
  assert (0 <= index_bytes (take n (drop (Z.to_nat (d + 1)) axes))) as Hpos.
  { apply index_bytes_nonneg. by apply Forall_take, Forall_drop. }
  pose proof (axis_length_spec a Ha) as Hlen. destruct (axis_length a) as [st|length].
  { destruct Hlen. done. }
  destruct Hlen as (-> & Hrange & Hk).
  destruct a as [iv|[values|] k|]; try done;
    cbn [axis_extent axis_fits axis_index_bytes] in *; unfold sizeof_query_index in *.
  - destruct (IH (d + 1) acc) as (c & -> & ? & ?); [lia|lia|done|lia|lia|].
    exists c. split_and!; [done|lia..].
  - rewrite u64_id by (clia).
    destruct (IH (d + 1) (acc + k)) as (c & -> & ? & ?); [lia|lia|done|lia|lia|].
    exists c. split_and!; [done|lia..].
Qed.

Lemma axes_accepted_valid axes shape : axes_accepted axes shape -> Forall axis_valid axes.
Proof. induction 1 as [|? ? ? ? [? _]]; by constructor. Qed.

Lemma aget_take_lookup {A} (l : list A) n i x :
  aget (take n l) i = Some x <-> i < Z.of_nat n /\ aget l i = Some x.
Proof.
  rewrite !aget_lookup, lookup_take_Some. intuition lia.
Qed.

(** Whatever happens, an accepted request is copied or refused for memory. *)
Lemma query_copy_accepted malloc s o m :
  sample_fits s o -> is_u64 m -> query_accepted s o m ->
  (forall uri, s_uri s = Some uri -> Z.of_nat (String.length uri) + m < 2 ^ 63) ->
  exists uri bounds axes size,
    s_uri s = Some uri /\
    query_copy malloc (Some s) =
      Some (if malloc size then inr (uri, bounds, axes) else inl DAMACY_OOM) /\
    aabb_rank bounds = s_rank s /\
    zlen (dims bounds) = s_rank s /\ zlen axes = s_rank s /\
    forall d a, 0 <= d < s_rank s -> aget (s_axes s) d = Some a ->
      exists b q, aget (dims bounds) d = Some b /\ aget axes d = Some q /\
        axis_copied a b q /\ axis_fits a /\ axis_valid a.
Proof.
  intros [Hr Ha Hfit Hsh Hext] Hm (Huri & Hrank & Hrk & Hacc & Hbytes) Hsize.
  unfold query_copy. destruct (s_uri s) as [uri|] eqn:Eu; [|done]. clear Huri.
  specialize (Hsize uri eq_refl). unfold is_u64, DAMACY_MAX_RANK in *.
  rewrite (proj2 (Z.eqb_neq (s_rank s) 0)), (proj2 (Z.ltb_ge 31 (s_rank s))) by lia. simpl.
  rewrite (proj2 (Z.ltb_ge _ (Z.of_nat (String.length uri) + 1)))
    by (unfold alignof_query_index; clia).
  set (offset := _ / _ * _).
  assert (0 <= offset <= Z.of_nat (String.length uri) + 8) as Hoff.
  { unfold offset, alignof_query_index. dlia. }
  pose proof (index_bytes_nonneg _ (Forall_take axis_fits (Z.to_nat (s_rank s)) _ Hfit)) as Hnn.
  pose proof (axes_accepted_valid _ _ Hacc) as Hval.
  destruct (copy_count_ok (Z.to_nat (s_rank s)) (s_axes s) 0 0) as (c & -> & Hc0 & Hc);
    [done|lia|lia|by rewrite drop_0|lia|rewrite drop_0; lia|].
  rewrite drop_0 in Hc. simpl. unfold sizeof_query_index in *.
  rewrite (proj2 (Z.ltb_ge _ c)) by (apply Z.div_le_lower_bound; clia).
  exists uri.
  destruct (copy_axes_ok (Z.to_nat (s_rank s)) (s_axes s) 0) as (l & -> & Hl & Hcp); [lia|lia| |].
  { intros i a Hi Hir. pose proof Hi as [_ Hi']%aget_lookup. split.
    - rewrite Forall_lookup in Hfit. eauto.
    - rewrite Forall_lookup in Hval. apply (Hval (Z.to_nat i)).
      apply lookup_take_Some. split; [done|lia]. }
  exists (Aabb (map fst l) (s_rank s)), (map snd l), (offset + c * 16). simpl.
  rewrite !length_map. split_and!; [done| |done|lia|lia|].
  { by destruct (malloc _). }
  intros d a Hd Hda.
  destruct (aget_is_Some l d ltac:(lia)) as [[b q] Hp].
  exists b, q. pose proof (Hcp d _ a Hp Hda) as Hcopied.
  pose proof Hp as [? Hp']%aget_lookup. pose proof Hda as [_ Hda']%aget_lookup.
  split_and!; [..|done| |].
  - apply aget_lookup. split; [done|]. by rewrite (list_lookup_fmap fst), Hp'.
  - apply aget_lookup. split; [done|]. by rewrite (list_lookup_fmap snd), Hp'.
  - rewrite Forall_lookup in Hfit. eauto.
  - rewrite Forall_lookup in Hval. apply (Hval (Z.to_nat d)).
    apply lookup_take_Some. split; [done|lia].
Qed.

(** ** Chunk spans *)

(** A source index the axis selects. *)
Definition axis_selects (b : damacy_interval) (q : query_axis) (s : Z) : Prop :=
  if decide (count q = 0) then beg b <= s < end_ b
  else exists e, e ∈ indices q /\ source e = s.

Lemma axis_selects_interval b q s :
  count q = 0 -> axis_selects b q s <-> beg b <= s < end_ b.
Proof. intros H. unfold axis_selects. by rewrite decide_True by done. Qed.
Lemma axis_selects_indices b q s :
  count q <> 0 -> axis_selects b q s <-> exists e, e ∈ indices q /\ source e = s.
Proof. intros H. unfold axis_selects. by rewrite decide_False by done. Qed.

(** Bounds and axis as [query_copy] leaves them. *)
Record axis_ok (b : damacy_interval) (q : query_axis) : Prop := {
  ao_bounds : 0 <= beg b < end_ b /\ end_ b < 2 ^ 63;
  ao_entries : count q <> 0 -> entries_ok (indices q) /\ count q = zlen (indices q) /\
    forall e, e ∈ indices q -> beg b <= source e < end_ b }.

(** Accepted requests are copied into well-formed axes. *)
Lemma axis_copied_ok a b q : axis_fits a -> axis_valid a -> axis_copied a b q -> axis_ok b q.
Proof.
  destruct a as [iv|[values|] k|]; simpl; try done.
  - intros ? ? [-> ->]. split; [lia|done].
  - intros (Hk & Hl & HF) [Hpos Hv] (Hc & Hlen & Hs & Hin & Hb & (e1 & He1 & Hb1) & (e2 & He2 & Hb2)).
    assert (forall e, e ∈ indices q -> 0 <= source e < INT64_MAX) as Hr.
    { intros e [Ho He]%Hin. eapply Hv; [exact Ho|done]. }
    split.
    + pose proof (Hr _ He1). pose proof (Hr _ He2). pose proof (Hb _ He1). clia.
    + intros _. split; [|split; [lia|done]]. split; [by apply sorted_index_source| |clia].
      by apply Forall_forall.
Qed.

Lemma query_chunk_span_interval q b origin extent :
  axis_ok b q -> count q = 0 -> is_u64 origin -> is_u64 extent ->
  exists sp, query_chunk_span q b origin extent = Some sp /\
    forall s, sp_begin sp <= s < sp_begin sp + sp_count sp <->
      axis_selects b q s /\ origin <= s < origin + extent.
Proof.
  intros [Hb _] Hc Ho He. unfold query_chunk_span, axis_selects. rewrite Hc. simpl.
  rewrite !u64_id by clia. eexists. split; [done|]. intros s. simpl.
  repeat (case_match; simpl in *);
    repeat match goal with
           | H : (_ <? _) = true |- _ => apply Z.ltb_lt in H
           | H : (_ <? _) = false |- _ => apply Z.ltb_ge in H
           end; clia.
Qed.

Lemma query_chunk_span_indices q b origin extent :
  axis_ok b q -> count q <> 0 -> is_u64 origin -> is_u64 extent ->
  exists sp, query_chunk_span q b origin extent = Some sp /\
    0 <= sp_begin sp /\ 0 <= sp_count sp /\ sp_begin sp + sp_count sp <= count q /\
    forall i e, aget (indices q) i = Some e ->
      (sp_begin sp <= i < sp_begin sp + sp_count sp <-> origin <= source e < origin + extent).
Proof.
  intros [Hb Hent] Hc Ho He. destruct (Hent Hc) as (Hok & Hlen & Hin).
  unfold query_chunk_span. rewrite (proj2 (Z.eqb_neq _ _) Hc). simpl.
  set (en := if _ <? origin then _ else _).
  destruct (query_lower_bound_spec q origin Hok Hlen) as (k1 & -> & Hr1 & Hk1).
  destruct (query_lower_bound_spec q en Hok Hlen) as (k2 & -> & Hr2 & Hk2). simpl.
  assert (forall e, e ∈ indices q -> source e < en <-> source e < origin + extent) as Hen.
  { intros e Hine. specialize (Hin e Hine). unfold en. destruct (Z.ltb_spec (UINT64_MAX - extent) origin); clia. }
  assert (k1 <= k2).
  { destruct (decide (k1 <= k2)); [done|].
    destruct (aget_is_Some (indices q) k2 ltac:(lia)) as [e E2].
    assert (source e < origin) by (apply (Hk1 k2); [done|lia]).
    assert (e ∈ indices q) as Hine by (apply aget_lookup in E2 as [_ E2]; by eapply list_elem_of_lookup_2).
    assert (source e < en) by (apply Hen; [done|cint; lia]).
    apply (Hk2 k2) in E2. lia. }
  pose proof (eo_len _ Hok).
  eexists. split; [done|]. simpl. rewrite u32_id by clia. split_and!; [lia..|].
  intros i e Ei. specialize (Hk1 i e Ei). specialize (Hk2 i e Ei).
  apply aget_lookup in Ei as [_ Ei]. apply list_elem_of_lookup_2, Hen in Ei. lia.
Qed.

(** ** The grid: one axis *)

Section grid.
Implicit Types (l : list query_index) (a : selection_grid_axis) (L rem : list Z).

Definition cells l (size b e : Z) : list Z :=
  map (fun x => source x / size) (take (Z.to_nat (e - b)) (drop (Z.to_nat b) l)).

Lemma cells_cons l size b e x :
  b < e -> aget l b = Some x -> cells l size b e = source x / size :: cells l size (b + 1) e.
Proof.
  intros Hb Hx. unfold cells. rewrite (drop_aget _ _ _ Hx).
  replace (Z.to_nat (e - b)) with (S (Z.to_nat (e - (b + 1)))) by lia. done.
Qed.
Lemma cells_nil l size b e : e <= b -> cells l size b e = [].
Proof. intros. unfold cells. by replace (Z.to_nat (e - b)) with 0%nat by lia. Qed.

Lemma elem_of_cells l size b e c :
  0 <= b ->
  c ∈ cells l size b e <-> exists i x, b <= i < e /\ aget l i = Some x /\ c = source x / size.
Proof.
  intros Hb. unfold cells. rewrite list_elem_of_fmap. split.
  - intros (x & -> & [i Hi]%list_elem_of_lookup).
    apply lookup_take_Some in Hi as [Hi Hlt]. rewrite lookup_drop in Hi.
    exists (b + Z.of_nat i), x. split; [lia|]. split; [|done]. apply aget_lookup.
    split; [lia|]. by replace (Z.to_nat (b + Z.of_nat i)) with (Z.to_nat b + i)%nat by lia.
  - intros (i & x & Hi & [? Hx]%aget_lookup & ->). exists x. split; [done|].
    apply list_elem_of_lookup. exists (Z.to_nat (i - b)).
    apply lookup_take_Some. split; [|lia]. rewrite lookup_drop.
    by replace (Z.to_nat b + Z.to_nat (i - b))%nat with (Z.to_nat i) by lia.
Qed.

Lemma cells_sorted l size b e :
  entries_ok l -> 0 < size -> StronglySorted Z.le (cells l size b e).
Proof.
  intros Hok Hs. unfold cells.
  assert (StronglySorted (fun x y => source x <= source y)
            (take (Z.to_nat (e - b)) (drop (Z.to_nat b) l))) as H.
  { pose proof (eo_sorted _ Hok) as H. 
    rewrite <-(take_drop (Z.to_nat b) l) in H. apply StronglySorted_app in H as (_ & _ & H).
    rewrite <-(take_drop (Z.to_nat (e - b)) (drop _ l)) in H.
    by apply StronglySorted_app in H as (_ & H & _). }
  induction H as [|x m Hm IH Hx]; csimpl; constructor; [done|].
  apply Forall_map. eapply Forall_impl; [exact Hx|]. simpl. intros.
  apply Z.div_le_mono; lia.
Qed.

Lemma cells_bound l size b e :
  entries_ok l -> 0 < size -> 0 <= b -> Forall (fun c => 0 <= c < UINT64_MAX) (cells l size b e).
Proof.
  intros Hok Hs Hb. apply Forall_forall. intros c (i & x & _ & Hx & ->)%elem_of_cells; [|done].
  pose proof (entries_aget _ _ _ Hok Hx). split; [apply Z.div_pos; lia|].
  assert (source x / size <= source x) by (apply Z.div_le_upper_bound; nia). clia.
Qed.
End grid.

(** ** Theorems *)

(** C2: [query_validate] accepts a request exactly when it names a uri, has the
    output's rank, every axis is well formed (a non-empty interval of
    non-negative bounds, or at least one index, each in [0, INT64_MAX)) with the
    output's extent, and its index arrays fit in [max_plan_bytes]. An accepted
    request is copied by [query_copy] unless the one allocation fails: every
    index axis is stored sorted, as exactly the pairs of a selected source and
    its position (order and duplicates kept), with the tightest bounds, and every
    interval axis as its interval, so that later stages may rely on [axis_ok]. *)
Theorem query_validate_then_copy malloc s o m :
  sample_fits s o -> is_u64 m ->
  (forall uri, s_uri s = Some uri -> Z.of_nat (String.length uri) + m < 2 ^ 63) ->
  exists st, query_validate (Some s) (Some o) m = Some st /\
    (st = DAMACY_OK <-> query_accepted s o m) /\
    (st = DAMACY_OK ->
     exists uri bounds axes size,
       s_uri s = Some uri /\
       query_copy malloc (Some s) =
         Some (if malloc size then inr (uri, bounds, axes) else inl DAMACY_OOM) /\
       aabb_rank bounds = s_rank s /\ zlen (dims bounds) = s_rank s /\ zlen axes = s_rank s /\
       forall d a, 0 <= d < s_rank s -> aget (s_axes s) d = Some a ->
         exists b q, aget (dims bounds) d = Some b /\ aget axes d = Some q /\
           axis_copied a b q /\ axis_ok b q).
Proof.
  intros Hfit Hm Hsize. destruct (query_validate_iff s o m Hfit Hm) as (st & Hv & Hiff).
  exists st. split_and!; [done|done|]. intros Hst.
  destruct (query_copy_accepted malloc s o m Hfit Hm (proj1 Hiff Hst) Hsize)
    as (uri & bounds & axes & size & Hu & Hc & Hr & Hd & Ha & Hax).
  exists uri, bounds, axes, size. split_and!; [done..|].
  intros d a Hdr Hda. destruct (Hax d a Hdr Hda) as (b & q & Hb & Hq & Hcp & Hf & Hval).
  exists b, q. split_and!; [done..|]. by eapply axis_copied_ok.
Qed.

(** C3: [query_chunk_span] with an axis and bounds as [query_copy] stores them.
    On an interval axis the span is exactly the selected source indices inside
    the chunk [origin, origin + extent). On an index axis it is exactly the
    positions of the sorted entries whose source lies in the chunk. Neither
    bound nor sum wraps, and the binary searches end within their 33 rounds. *)
Theorem query_chunk_span_exact q b origin extent :
  axis_ok b q -> is_u64 origin -> is_u64 extent ->
  exists sp, query_chunk_span q b origin extent = Some sp /\
    if decide (count q = 0) then
      forall s, sp_begin sp <= s < sp_begin sp + sp_count sp <->
        axis_selects b q s /\ origin <= s < origin + extent
    else
      0 <= sp_begin sp /\ 0 <= sp_count sp /\ sp_begin sp + sp_count sp <= count q /\
      forall i e, aget (indices q) i = Some e ->
        (sp_begin sp <= i < sp_begin sp + sp_count sp <-> origin <= source e < origin + extent).
Proof.
  intros Hok Ho He. case_decide.
  - by apply query_chunk_span_interval.
  - by apply query_chunk_span_indices.
Qed.

(** A 2-d request: rows 4..11, columns 9, 2, 9. *)
Definition ex_sample : damacy_sample :=
  Sample (Some "a.zarr") 2
    (AxisInterval (Interval 4 12) :: AxisIndices (Some [9; 2; 9]) 3 :: replicate 29 AxisOther).
Definition ex_output : damacy_batch_spec := BatchSpec 0 (8 :: 3 :: replicate 29 0) 2 1.

Lemma ex_sample_fits : sample_fits ex_sample ex_output.
Proof.
  split; [done|done| |done|].
  - repeat constructor; simpl; lia.
  - repeat constructor; simpl; lia.
Qed.

Lemma query_validate_then_copy_witness :
  query_validate (Some ex_sample) (Some ex_output) 4096 = Some DAMACY_OK /\
  query_accepted ex_sample ex_output 4096 /\
  query_copy (fun _ => true) (Some ex_sample) =
    Some (inr ("a.zarr"%string, Aabb [Interval 4 12; Interval 2 10] 2,
      [query_axis_none; QueryAxis [QueryIndex 2 1; QueryIndex 9 0; QueryIndex 9 2] 3])).
Proof.
  destruct (query_validate_then_copy (fun _ => true) ex_sample ex_output 4096 ex_sample_fits)
    as (st & Hv & Hiff & Hcopy).
  - done.
  - intros uri [= <-]. done.
  - split; [reflexivity|]. split; [|reflexivity]. apply Hiff.
    vm_compute in Hv. congruence.
Defined.

Lemma query_chunk_span_exact_witness :
  query_chunk_span (QueryAxis [QueryIndex 2 1; QueryIndex 9 0; QueryIndex 9 2] 3)
    (Interval 2 10) 5 5 = Some (Span 1 2).
Proof.
  destruct (query_chunk_span_exact (QueryAxis [QueryIndex 2 1; QueryIndex 9 0; QueryIndex 9 2] 3)
    (Interval 2 10) 5 5) as (sp & Hsp & _).
  - split; [done|]. intros _. split; [|split; [done|]].
    + split; [| |done]; repeat constructor; simpl; lia || done.
    + intros e He. simpl in He. repeat (apply elem_of_cons in He as [->|He]; [simpl; lia|]).
      by apply not_elem_of_nil in He.
  - done.
  - done.
  - reflexivity.
Defined.
