(* ===== verification/SelectionGrid.v ===== *)
(** * The selection grid enumerates the selected cells

    Correctness of [selection_grid_init] and [selection_grid_next]
    ([src/src/query/selection.c]): a drained grid yields, in row-major order and
    without repetition, exactly the cells that contain a selected source index. *)

From S2P Require Import Prelude Selection.

#[local] Open Scope Z_scope.

(** The caller's [while (selection_grid_next(&grid, coordinate))], collecting the
    coordinates. *)
Fixpoint grid_drain (fuel : nat) (g : selection_grid) : option (list (list Z)) :=
  match fuel with
  | O => None
  | S fuel =>
      r ← selection_grid_next g;
      match r with
      | (None, _) => Some []
      | (Some c, g') => cs ← grid_drain fuel g'; Some (c :: cs)
      end
  end.

(** ** One axis *)

(** The axis runs over the list [L] and has [rem] left, its current cell first. *)
Definition axis_rep (a : selection_grid_axis) (L rem : list Z) : Prop :=
  match g_indices a with
  | None =>
      0 <= span_cell_beg a <= current_cell a /\ current_cell a < span_cell_end a /\
      span_cell_end a < 2 ^ 64 /\
      L = seqZ (span_cell_beg a) (span_cell_end a - span_cell_beg a) /\
      rem = seqZ (current_cell a) (span_cell_end a - current_cell a)
  | Some l =>
      entries_ok l /\ 0 < cell_size_index a /\
      0 <= span_entry_beg a <= current_entry a /\ current_entry a < span_entry_end a /\
      span_entry_end a <= zlen l /\
      (exists e, aget l (current_entry a) = Some e /\
                 current_cell a = source e / cell_size_index a) /\
      L = adj UINT64_MAX (cells l (cell_size_index a) (span_entry_beg a) (span_entry_end a)) /\
      rem = current_cell a ::
        adj (current_cell a) (cells l (cell_size_index a) (current_entry a + 1) (span_entry_end a))
  end.

Lemma next_entry_spec n l size cur entry last :
  entries_ok l -> 0 < size -> 0 <= entry < last -> last <= zlen l ->
  last - entry <= Z.of_nat n ->
  exists r, next_entry n l size cur entry last = Some r /\
    match r with
    | None => adj cur (cells l size (entry + 1) last) = []
    | Some (entry', cell') =>
        entry < entry' < last /\
        (exists e, aget l entry' = Some e /\ cell' = source e / size) /\
        adj cur (cells l size (entry + 1) last) = cell' :: adj cell' (cells l size (entry' + 1) last)
    end.
Proof.
  intros Hok Hs. pose proof (eo_len _ Hok) as Hlen. revert entry.
  induction n as [|n IH]; intros entry He Hl Hn; simpl; rewrite u32_id by clia;
    destruct (Z.ltb_spec (entry + 1) last) as [Hlt|Hge];
    try (exists None; split; [done|]; by rewrite cells_nil by lia).
  { lia. }
  destruct (aget_is_Some l (entry + 1) ltac:(lia)) as [e Ee]. rewrite Ee. simpl.
  pose proof (entries_aget _ _ _ Hok Ee). rewrite u64_id by clia.
  rewrite (cells_cons _ _ _ _ _ Hlt Ee). simpl.
  destruct (Z.eqb_spec (source e / size) cur) as [->|Hne]; simpl.
  - rewrite decide_True by done.
    destruct (IH (entry + 1) ltac:(lia) ltac:(lia) ltac:(lia)) as (r & -> & Hr).
    exists r. split; [done|]. destruct r as [[entry' cell']|]; [|done].
    destruct Hr as (? & ? & ?). split_and!; [lia|lia|done|done].
  - rewrite decide_False by done. eexists. split; [done|]. split_and!; [lia|lia|by eauto|done].
Qed.

(** Stepping moves to the next element of [L], or wraps to the first. *)
Lemma axis_step_spec a L rem :
  axis_rep a L rem ->
  exists ys m a', rem = current_cell a :: ys /\ axis_step a = Some (m, a') /\
    match ys with
    | [] => m = false /\ axis_rep a' L L
    | _ :: _ => m = true /\ axis_rep a' L ys
    end.
Proof.
  unfold axis_rep, axis_step. destruct (g_indices a) as [l|] eqn:El.
  - intros (Hok & Hs & Hb & Hc & Hl & (e & Ee & Hcell) & HL & ->).
    destruct (next_entry_spec (Z.to_nat (span_entry_end a - current_entry a)) l
      (cell_size_index a) (current_cell a) (current_entry a) (span_entry_end a))
      as (r & -> & Hr); [done|lia..|]. simpl.
    destruct r as [[entry' cell']|].
    + destruct Hr as (He' & Hcell' & Hadj). rewrite Hadj. eexists _, true, _.
      do 3 (split; [reflexivity|]). simpl. rewrite El. split_and!; auto; lia.
    + rewrite Hr. destruct (aget_is_Some l (span_entry_beg a) ltac:(lia)) as [e0 E0].
      rewrite E0. simpl. pose proof (entries_aget _ _ _ Hok E0).
      rewrite u64_id by clia. eexists _, false, _.
      do 3 (split; [reflexivity|]). simpl. rewrite El.
      split_and!; [done|done|lia|lia|lia|lia|by eauto|done|].
      rewrite HL, (cells_cons l _ (span_entry_beg a) (span_entry_end a) e0 ltac:(lia) E0). simpl. rewrite decide_False; [done|].
      pose proof (cells_bound l (cell_size_index a) (span_entry_beg a) (span_entry_end a)
        Hok Hs ltac:(lia)) as Hbd.
      rewrite (cells_cons l _ (span_entry_beg a) (span_entry_end a) e0 ltac:(lia) E0) in Hbd. apply Forall_cons in Hbd as [? _]. lia.
  - intros (Hb & Hc & He & HL & ->).
    rewrite (seqZ_cons (current_cell a)) by lia. rewrite u64_id by clia.
    destruct (Z.ltb_spec (current_cell a + 1) (span_cell_end a)) as [Hlt|Hge].
    + eexists _, true, _. do 2 (split; [reflexivity|]). rewrite seqZ_cons by lia. split; [done|].
      simpl. rewrite El. split_and!; [lia..|done|].
      rewrite (seqZ_cons (current_cell a + 1)) by lia.
      repeat (f_equal; try lia).
    + eexists [], false, _. split_and!; [|done|done|].
      { f_equal. rewrite seqZ_nil; [done|lia]. }
      simpl. rewrite El. split_and!; [lia..|done|done].
Qed.

(** ** All axes *)

(** The coordinates left when axis [i] runs over the list [(reps !! i).1] and has
    [(reps !! i).2] left. *)
Fixpoint remaining (reps : list (list Z * list Z)) : list (list Z) :=
  match reps with
  | [] => [[]]
  | (L, rem) :: rs =>
      match rem with
      | [] => []
      | y :: ys => (cons y <$> remaining rs) ++ (ys ≫= fun z => cons z <$> cart (map fst rs))
      end
  end.

Definition axes_rep (axes : list selection_grid_axis) (reps : list (list Z * list Z)) : Prop :=
  Forall2 (fun a p => axis_rep a p.1 p.2) axes reps.

Lemma axes_rep_current axes reps :
  axes_rep axes reps -> exists T, remaining reps = map current_cell axes :: T.
Proof.
  induction 1 as [|a [L rem] axes reps Ha _ [T IH]]; simpl; [by eauto|].
  destruct (axis_step_spec _ _ _ Ha) as (ys & _ & _ & Hrem & _). simpl in Hrem. subst rem.
  rewrite IH. csimpl. eauto.
Qed.

Lemma remaining_start Ls :
  Forall (fun L => L <> []) Ls -> remaining (map (fun L => (L, L)) Ls) = cart Ls.
Proof.
  induction 1 as [|L Ls HL _ IH]; simpl; [done|]. destruct L as [|x L]; [done|].
  rewrite IH, map_map, map_id. done.
Qed.

Lemma grid_carry_spec axes reps T :
  axes_rep axes reps -> remaining reps = map current_cell axes :: T ->
  exists moved axes' reps', grid_carry axes = Some (moved, axes') /\
    axes_rep axes' reps' /\ map fst reps' = map fst reps /\
    match T with
    | [] => moved = false /\ remaining reps' = cart (map fst reps)
    | _ :: _ => moved = true /\ remaining reps' = T
    end.
Proof.
  intros Hrep. revert T. induction Hrep as [|a [L rem] axes reps Ha Hrest IH]; intros T HT.
  { simpl in HT. simplify_eq. exists false, [], []. split_and!; [done|constructor|done..]. }
  destruct (axis_step_spec _ _ _ Ha) as (ys & m & a' & Hrem & Hstep & Hm). simpl in Hrem, Hm.
  destruct (axes_rep_current _ _ Hrest) as [T' HT'].
  simpl in HT. rewrite Hrem, HT' in HT. csimpl in HT. simplify_eq.
  destruct (IH T' HT') as (moved & axes' & reps' & Hc & Hr' & Hfst & Hcase).
  simpl. rewrite Hc. simpl. destruct T' as [|t T'].
  - destruct Hcase as [-> Hcart]. rewrite Hstep. simpl.
    destruct ys as [|z ys]; destruct Hm as [-> Hrep'].
    + exists false, (a' :: axes'), ((L, L) :: reps'). split_and!; [done| |by simpl; f_equal|].
      { by constructor. }
      destruct (axis_step_spec _ _ _ Hrep') as (ys' & _ & _ & HL & _).
      csimpl. split; [done|]. rewrite Hcart, Hfst, HL. done.
    + exists true, (a' :: axes'), ((L, z :: ys) :: reps'). split_and!; [done| |by simpl; f_equal|].
      { by constructor. }
      destruct (axes_rep_current _ _ Hr') as [T'' HT'']. rewrite Hcart in HT''.
      csimpl. rewrite Hcart, Hfst, HT''. done.
  - destruct Hcase as [-> Hrem']. exists true, (a :: axes'), ((L, current_cell a :: ys) :: reps').
    split_and!; [done| |by simpl; f_equal|].
    { by constructor. }
    csimpl. rewrite Hrem', Hfst. done.
Qed.

Lemma grid_drain_unfold fuel g :
  grid_drain (S fuel) g =
    (r ← selection_grid_next g;
     match r with
     | (None, _) => Some []
     | (Some c, g') => cs ← grid_drain fuel g'; Some (c :: cs)
     end).
Proof. done. Qed.

Lemma grid_drain_spec axes reps cnt rank :
  axes_rep axes reps ->
  grid_drain (S (length (remaining reps))) (Grid axes cnt rank false) = Some (remaining reps).
Proof.
  destruct (remaining reps) as [|c T] eqn:ET; intros Hrep;
    destruct (axes_rep_current _ _ Hrep) as [T0 HT0]; [congruence|].
  rewrite ET in HT0. injection HT0 as -> <-. revert axes reps ET Hrep.
  induction T as [|c T IH]; intros axes reps ET Hrep;
    destruct (grid_carry_spec _ _ _ Hrep ET) as (moved & axes' & reps' & Hc & Hr' & _ & Hcase);
    assert (selection_grid_next (Grid axes cnt rank false) =
      Some (Some (map current_cell axes), Grid axes' cnt rank (negb moved))) as Hn
      by (unfold selection_grid_next; simpl; by rewrite Hc);
    cbn [length]; rewrite grid_drain_unfold, Hn; cbn [mbind option_bind].
  - destruct Hcase as [-> _]. done.
  - destruct Hcase as [-> Hrem]. cbn [negb]. destruct (axes_rep_current _ _ Hr') as [T1 HT1].
    rewrite Hrem in HT1. injection HT1 as -> <-.
    specialize (IH axes' reps' Hrem Hr'). cbn [length] in IH. rewrite IH. done.
Qed.

(** ** Initialisation *)

(** The clip arrays bound the cells of dimension [d]. *)
Definition clip_ok (clip_b clip_e : option (list Z)) (d c : Z) : Prop :=
  (forall l v, clip_b = Some l -> aget l d = Some v -> v <= c) /\
  (forall l v, clip_e = Some l -> aget l d = Some v -> c < v).

(** Cell [c] of dimension [d] is within the clip and holds a selected index. *)
Definition cell_selected (b : damacy_interval) (q : query_axis) (size : Z)
    (clip_b clip_e : option (list Z)) (d c : Z) : Prop :=
  clip_ok clip_b clip_e d c /\ exists s, axis_selects b q s /\ c = s / size.

(** Clip arrays are absent or hold a [uint64_t] for dimension [d]. *)
Definition clip_fits (clip : option (list Z)) (d : Z) : Prop :=
  match clip with None => True | Some l => exists v, aget l d = Some v /\ is_u64 v end.

Lemma cell_start_lt s c size :
  0 <= s < INT64_MAX -> 0 < size -> 0 <= c ->
  s < cell_start_index c size <-> s / size < c.
Proof.
  intros Hs Hz Hc. unfold cell_start_index. destruct (Z.ltb_spec (UINT64_MAX / size) c) as [Hlt|Hge].
  - assert (s / size <= UINT64_MAX / size) by (apply Z.div_le_mono; clia). clia.
  - split; intros H.
    + apply Z.div_lt_upper_bound; lia.
    + pose proof (Z.mul_succ_div_gt s size Hz). nia.
Qed.

Lemma count_cells_spec n l size entry prev acc :
  entries_ok l -> 0 < size -> 0 <= entry -> entry + Z.of_nat n <= zlen l ->
  0 <= acc -> acc + Z.of_nat n < 2 ^ 64 ->
  count_cells n l size entry prev acc =
    Some (acc + zlen (adj prev (cells l size entry (entry + Z.of_nat n)))).
Proof.
  intros Hok Hs. revert entry prev acc. induction n as [|n IH]; intros entry prev acc He Hn Ha Hb.
  { simpl. rewrite cells_nil by lia. simpl. f_equal. lia. }
  cbn [count_cells]. destruct (aget_is_Some l entry ltac:(lia)) as [e Ee]. rewrite Ee. simpl.
  pose proof (entries_aget _ _ _ Hok Ee). rewrite u64_id by clia.
  rewrite (cells_cons l size entry (entry + Z.of_nat (S n)) e ltac:(lia) Ee). simpl.
  destruct (Z.eqb_spec (source e / size) prev) as [Heq|Hne]; simpl.
  - rewrite (decide_True) by done. rewrite (u64_id (acc + 0)) by clia. rewrite IH by lia.
    replace (entry + 1 + Z.of_nat n) with (entry + Z.of_nat (S n)) by lia. by rewrite Heq, Z.add_0_r.
  - rewrite decide_False by done. rewrite (u64_id (acc + 1)) by clia. rewrite IH by lia.
    replace (entry + 1 + Z.of_nat n) with (entry + Z.of_nat (S n)) by lia. simpl. f_equal. lia.
Qed.

Lemma clip_beg_spec clip d b :
  clip_fits clip d -> is_u64 b ->
  exists cb, clip_beg clip d b = Some cb /\ is_u64 cb /\
    forall c, cb <= c <-> b <= c /\ forall l v, clip = Some l -> aget l d = Some v -> v <= c.
Proof.
  intros Hf Hb. destruct clip as [l|]; simpl.
  - destruct Hf as (v & Hv & Hr). rewrite Hv. simpl. eexists. split; [done|].
    destruct (Z.ltb_spec b v); (split; [done|]); intros c; split; intros Hc.
    all: try (split; [lia|intros; simplify_eq; lia]).
    all: destruct Hc as [? Hc]; specialize (Hc _ _ eq_refl Hv); lia.
  - exists b. split_and!; [done|apply Hb..|]. intros c. split; [intros; split; [done|discriminate]|by intros [? _]].
Qed.

Lemma clip_end_spec clip d e :
  clip_fits clip d -> is_u64 e ->
  exists ce, clip_end clip d e = Some ce /\ is_u64 ce /\
    forall c, c < ce <-> c < e /\ forall l v, clip = Some l -> aget l d = Some v -> c < v.
Proof.
  intros Hf Hb. destruct clip as [l|]; simpl.
  - destruct Hf as (v & Hv & Hr). rewrite Hv. simpl. eexists. split; [done|].
    destruct (Z.ltb_spec v e); (split; [done|]); intros c; split; intros Hc.
    all: try (split; [lia|intros; simplify_eq; lia]).
    all: destruct Hc as [? Hc]; specialize (Hc _ _ eq_refl Hv); lia.
  - exists e. split_and!; [done|apply Hb..|]. intros c. split; [intros; split; [done|discriminate]|by intros [? _]].
Qed.

Lemma interval_cell b size c :
  0 <= beg b < end_ b -> 0 < size ->
  (exists s, beg b <= s < end_ b /\ c = s / size) <->
  beg b / size <= c < (end_ b - 1) / size + 1.
Proof.
  intros Hb Hs. split.
  - intros (s & Hr & ->). split; [apply Z.div_le_mono; lia|].
    enough (s / size <= (end_ b - 1) / size) by lia. apply Z.div_le_mono; lia.
  - intros Hc. exists (Z.max (beg b) (c * size)).
    assert (c * size <= end_ b - 1).
    { assert (c <= (end_ b - 1) / size) as Hle by lia.
      apply (Z.mul_le_mono_nonneg_r _ _ size) in Hle; [|lia].
      pose proof (Z.mul_div_le (end_ b - 1) size Hs). lia. }
    split; [lia|]. destruct (Z.max_spec (beg b) (c * size)) as [[? ->]|[? ->]].
    + symmetry. apply Z.div_mul. lia.
    + assert (c <= beg b / size) by (apply Z.div_le_lower_bound; lia). lia.
Qed.

(** The cells of one dimension, in order. *)
Record axis_cells (b : damacy_interval) (q : query_axis) (size : Z)
    (clip_b clip_e : option (list Z)) (d : Z) (L : list Z) : Prop := {
  ac_sorted : StronglySorted Z.lt L;
  ac_elem : forall c, c ∈ L <-> cell_selected b q size clip_b clip_e d c }.

Lemma seqZ_sorted m n : StronglySorted Z.lt (seqZ m n).
Proof.
  destruct (decide (0 <= n)) as [Hn|]; [|rewrite seqZ_nil by lia; constructor].
  revert m. pattern n. apply natlike_ind; [intros; rewrite seqZ_nil by lia; constructor| |done].
  intros k Hk IH m. rewrite seqZ_cons by lia. rewrite Z.pred_succ. constructor; [done|].
  apply Forall_forall. intros x ?%elem_of_seqZ. lia.
Qed.

(** Entries between the two partition points are those whose cell is in range. *)
Lemma cells_between l size cb ce eb ee c :
  entries_ok l -> 0 < size -> 0 <= cb < ce ->
  is_lower_bound l (cell_start_index cb size) eb ->
  is_lower_bound l (cell_start_index ce size) ee ->
  eb <= ee /\
  (c ∈ cells l size eb ee <-> cb <= c < ce /\ exists e, e ∈ l /\ c = source e / size).
Proof.
  intros Hok Hs Hc [Hr1 H1] [Hr2 H2].
  assert (forall i e, aget l i = Some e -> (eb <= i < ee <-> cb <= source e / size < ce)) as Hin.
  { intros i e He. specialize (H1 _ _ He). specialize (H2 _ _ He).
    pose proof (entries_aget _ _ _ Hok He) as Hr.
    pose proof (cell_start_lt _ cb size Hr Hs ltac:(lia)).
    pose proof (cell_start_lt _ ce size Hr Hs ltac:(lia)). lia. }
  split.
  - destruct (decide (eb <= ee)); [done|].
    destruct (aget_is_Some l ee ltac:(lia)) as [e He]. pose proof (entries_aget _ _ _ Hok He) as Hr.
    pose proof (H1 _ _ He). pose proof (H2 _ _ He).
    pose proof (cell_start_lt _ cb size Hr Hs ltac:(lia)).
    pose proof (cell_start_lt _ ce size Hr Hs ltac:(lia)). lia.
  - rewrite elem_of_cells by lia. split.
    + intros (i & e & Hi & He & ->). split; [by apply (Hin i)|]. exists e. split; [|done].
      apply aget_lookup in He as [_ He]. by eapply list_elem_of_lookup_2.
    + intros (Hcc & e & [i He]%list_elem_of_lookup & ->). rewrite <-aget_nat in He.
      exists (Z.of_nat i), e. split; [by apply (Hin _ e)|done].
Qed.

Lemma grid_axis_init_spec b q size clip_b clip_e d :
  axis_ok b q -> 0 < size < 2 ^ 64 -> clip_fits clip_b d -> clip_fits clip_e d ->
  exists a L, grid_axis_init b q size clip_b clip_e d = Some (inr (a, zlen L)) /\
    axis_cells b q size clip_b clip_e d L /\ (L <> [] -> axis_rep a L L) /\ zlen L < 2 ^ 64.
Proof.
  intros [Hb Hq] Hs Hcb Hce. unfold grid_axis_init.
  rewrite (proj2 (Z.ltb_ge (beg b) 0)), (proj2 (Z.leb_gt (end_ b) (beg b))),
    (proj2 (Z.eqb_neq size 0)) by lia. simpl.
  rewrite (u64_id (beg b)), (u64_id (end_ b)), (u64_id (end_ b - 1)) by clia.
  assert (0 <= (end_ b - 1) / size <= end_ b - 1) as He1.
  { split; [apply Z.div_pos; lia|apply Z.div_le_upper_bound; nia]. }
  assert (0 <= beg b / size <= beg b) as Hb1.
  { split; [apply Z.div_pos; lia|apply Z.div_le_upper_bound; nia]. }
  rewrite (u64_id ((end_ b - 1) / size + 1)) by clia.
  destruct (clip_beg_spec clip_b d (beg b / size)) as (cb & -> & Hcb1 & Hcb2); [done|clia|].
  destruct (clip_end_spec clip_e d ((end_ b - 1) / size + 1)) as (ce & -> & Hce1 & Hce2); [done|clia|].
  assert (forall c, cb <= c < ce <->
    clip_ok clip_b clip_e d c /\ exists s, beg b <= s < end_ b /\ c = s / size) as Hspan.
  { intros c. rewrite (interval_cell b size c) by lia. rewrite Hcb2, Hce2. unfold clip_ok. tauto. }
  simpl. set (n := if cb <? ce then ce - cb else 0).
  assert (n = Z.max 0 (ce - cb)) as Hn by (unfold n; destruct (Z.ltb_spec cb ce); lia).
  destruct (Z.eqb_spec (count q) 0) as [Hz|Hz]; simpl.
  { exists (GridAxis None size cb ce cb 0 0 0), (seqZ cb (ce - cb)).
    assert (zlen (seqZ cb (ce - cb)) = n) as Hlen by (rewrite length_seqZ; lia).
    split_and!; [by rewrite Hlen| |..].
    - split; [apply seqZ_sorted|]. intros c. rewrite elem_of_seqZ. unfold cell_selected.
      setoid_rewrite axis_selects_interval; [|done]. rewrite <-Hspan. lia.
    - intros Hne. unfold axis_rep. simpl. destruct (decide (cb < ce)).
      + split_and!; clia || done.
      + by rewrite seqZ_nil in Hne by lia.
    - clia. }
  destruct (Hq Hz) as (Hok & Hlen & Hin).
  assert (forall c, cell_selected b q size clip_b clip_e d c <->
    cb <= c < ce /\ exists e, e ∈ indices q /\ c = source e / size) as Hsel.
  { intros c. rewrite Hspan. unfold cell_selected. setoid_rewrite axis_selects_indices; [|done].
    split.
    - intros (? & s & (e & He & <-) & ->). split; [|by eauto]. split; [done|]. eauto.
    - intros ([? _] & e & He & ->). eauto 6. }
  destruct (Z.eqb_spec n 0) as [Hn0|Hn0]; simpl.
  { eexists _, []. split; [by rewrite Hn0|]. split_and!; [|done|done].
    split; [constructor|]. intros c. rewrite Hsel. split; [by intros ?%not_elem_of_nil|lia]. }
  destruct (query_lower_bound_spec q (cell_start_index cb size) Hok Hlen) as (eb & -> & Heb).
  destruct (query_lower_bound_spec q (cell_start_index ce size) Hok Hlen) as (ee & -> & Hee).
  simpl. pose proof (eo_len _ Hok) as Hl32.
  assert (forall c, eb <= ee /\ (c ∈ cells (indices q) size eb ee <->
     cb <= c < ce /\ exists e, e ∈ indices q /\ c = source e / size)) as Hbetween.
  { intros c. apply cells_between; [done|lia| |done|done]. clia. }
  destruct (Hbetween 0) as [Hle _]. destruct Heb as [Heb1 _], Hee as [Hee1 _].
  rewrite count_cells_spec by (done || clia).
  replace (eb + Z.of_nat (Z.to_nat (ee - eb))) with ee by lia. rewrite Z.add_0_l. simpl.
  set (L := adj UINT64_MAX (cells (indices q) size eb ee)).
  pose proof (cells_bound (indices q) size eb ee Hok ltac:(lia) ltac:(lia)) as Hbd.
  assert (UINT64_MAX ∉ cells (indices q) size eb ee) as Hnin.
  { intros Hx. rewrite Forall_forall in Hbd. apply Hbd in Hx. lia. }
  assert (StronglySorted Z.lt L) as HsL.
  { unfold L. rewrite (adj_fresh _ (-1)); [|done|].
    - apply adj_sorted_above; [apply cells_sorted; [done|lia]|].
      eapply Forall_impl; [exact Hbd|]. simpl. lia.
    - intros Hx. rewrite Forall_forall in Hbd. apply Hbd in Hx. lia. }
  assert (axis_cells b q size clip_b clip_e d L) as HL.
  { split; [done|]. intros c. unfold L. rewrite adj_elem_iff by done. rewrite Hsel. apply Hbetween. }
  assert (zlen L < 2 ^ 64) as HlL.
  { pose proof (adj_length UINT64_MAX (cells (indices q) size eb ee)) as Hal.
    unfold cells in Hal at 2. rewrite length_map, length_take, length_drop in Hal.
    fold L in Hal. clia. }
  destruct (Z.eqb_spec (zlen L) 0) as [Hz0|Hz0]; simpl.
  { eexists _, L. split_and!; [done|done| |done]. destruct L; [done|simpl in Hz0; lia]. }
  assert (eb < ee).
  { destruct (decide (eb < ee)); [done|]. exfalso. apply Hz0. unfold L. by rewrite cells_nil by lia. }
  destruct (aget_is_Some (indices q) eb ltac:(lia)) as [e0 E0]. rewrite E0. simpl.
  pose proof (entries_aget _ _ _ Hok E0). rewrite u64_id by clia.
  eexists _, L. split_and!; [done|done| |done]. intros _. unfold axis_rep. simpl.
  split_and!; [done|lia..|by eauto|done|].
  unfold L. rewrite (cells_cons (indices q) size eb ee e0 ltac:(lia) E0). simpl.
  rewrite decide_False; [done|]. rewrite (cells_cons (indices q) size eb ee e0 ltac:(lia) E0) in Hbd.
  apply Forall_cons in Hbd as [? _]. lia.
Qed.

(** What a caller of [selection_grid_init] provides. *)
Record grid_ok (bounds : damacy_aabb) (axes : list query_axis) (shape : list Z)
    (clip_b clip_e : option (list Z)) : Prop := {
  go_rank : 0 < aabb_rank bounds <= DAMACY_MAX_RANK;
  go_axis : forall d, 0 <= d < aabb_rank bounds ->
    exists b q size, aget (dims bounds) d = Some b /\ aget axes d = Some q /\
      aget shape d = Some size /\ axis_ok b q /\ 0 < size < 2 ^ 64 /\
      clip_fits clip_b d /\ clip_fits clip_e d }.

Section init.
Context (bounds : damacy_aabb) (axes : list query_axis) (shape : list Z).
Context (clip_b clip_e : option (list Z)).

(** [L] lists the cells of dimension [d]. *)
Definition dim_cells (d : Z) (L : list Z) : Prop :=
  exists b q size, aget (dims bounds) d = Some b /\ aget axes d = Some q /\
    aget shape d = Some size /\ axis_cells b q size clip_b clip_e d L.

(** Cell [x] of dimension [d] holds a selected index. *)
Definition dim_selected (d x : Z) : Prop :=
  exists b q size, aget (dims bounds) d = Some b /\ aget axes d = Some q /\
    aget shape d = Some size /\ cell_selected b q size clip_b clip_e d x.

Lemma dim_cells_sorted d L : dim_cells d L -> StronglySorted Z.lt L.
Proof. by intros (b & q & size & _ & _ & _ & []). Qed.

Lemma dim_cells_elem d L x : dim_cells d L -> x ∈ L <-> dim_selected d x.
Proof.
  intros (b & q & size & Hb & Hq & Hs & [_ He]). rewrite He. split.
  - intros H. by exists b, q, size.
  - by intros (b' & q' & size' & ? & ? & ? & ?); simplify_eq.
Qed.

(** The partial grid after the dimensions whose cells are [Ls]. *)
Record grid_inv (g : selection_grid) (Ls : list (list Z)) : Prop := {
  gi_axes : Forall2 (fun a L => L <> [] -> axis_rep a L L) (g_axes g) Ls;
  gi_count : g_count g = prod_len Ls;
  gi_finished : finished g = (prod_len Ls =? 0) }.

Lemma prod_len_snoc {A} (Ls : list (list A)) L : prod_len (Ls ++ [L]) = prod_len Ls * zlen L.
Proof. unfold prod_len. induction Ls as [|x Ls IH]; simpl; [lia|]. rewrite IH. lia. Qed.

Lemma prod_len_nonneg {A} (Ls : list (list A)) : 0 <= prod_len Ls.
Proof. rewrite <-length_cart. lia. Qed.

Lemma prod_len_nonzero {A} (Ls : list (list A)) :
  prod_len Ls <> 0 -> Forall (fun L => L <> []) Ls.
Proof.
  unfold prod_len. induction Ls as [|L Ls IH]; simpl; [constructor|]. intros H.
  constructor; [by intros ->|]. apply IH. lia.
Qed.

Lemma grid_init_loop_spec n max_cells d acc Ls :
  grid_ok bounds axes shape clip_b clip_e -> is_u64 max_cells ->
  0 <= d -> d + Z.of_nat n = aabb_rank bounds -> grid_inv acc Ls -> prod_len Ls < 2 ^ 64 ->
  (n = 0%nat -> prod_len Ls <= max_cells) ->
  exists st g Ls',
    grid_init_loop n bounds axes shape clip_b clip_e max_cells d acc = Some (st, g) /\
    (forall i L, aget Ls' i = Some L -> dim_cells (d + i) L) /\
    match st with
    | DAMACY_OK => length Ls' = n /\ grid_inv g (Ls ++ Ls') /\ prod_len (Ls ++ Ls') <= max_cells
    | DAMACY_BUDGET => (length Ls' <= n)%nat /\ max_cells < prod_len (Ls ++ Ls')
    | _ => False
    end.
Proof.
  intros Hok Hm. revert d acc Ls.
  induction n as [|n IH]; intros d acc Ls Hd Hn Hinv Hlt Hmax; simpl.
  { exists DAMACY_OK, acc, []. rewrite app_nil_r. split_and!; auto.
    intros i L ?%aget_Some_range. simpl in *. lia. }
  destruct (go_axis _ _ _ _ _ Hok d ltac:(lia)) as
    (b & q & size & Eb & Eq & Es & Hao & Hs & Hcb & Hce).
  rewrite Eb, Eq, Es. simpl.
  destruct (grid_axis_init_spec b q size clip_b clip_e d Hao Hs Hcb Hce)
    as (a & L & -> & HL & Hrep & HlL). simpl.
  assert (dim_cells d L) as Hdim by (by exists b, q, size).
  pose proof (prod_len_nonneg Ls) as Hpos. pose proof (prod_len_snoc Ls L) as Hsnoc.
  assert (forall Ls' , (forall i L, aget Ls' i = Some L -> dim_cells (d + 1 + i) L) ->
     forall i L', aget (L :: Ls') i = Some L' -> dim_cells (d + i) L') as Hcons.
  { intros Ls' H i L' Hi. pose proof (aget_Some_range _ _ _ Hi).
    destruct (decide (i = 0)) as [->|]; [apply aget_lookup in Hi as [_ Hi]; simpl in Hi; simplify_eq;
      by rewrite Z.add_0_r|].
    replace (d + i) with (d + 1 + (i - 1)) by lia. apply H. apply aget_lookup in Hi as [_ Hi].
    apply aget_lookup. split; [lia|]. by replace (Z.to_nat i) with (S (Z.to_nat (i - 1))) in Hi by lia. }
  assert (forall acc', grid_inv acc' (Ls ++ [L]) -> prod_len (Ls ++ [L]) <= max_cells ->
    exists st g Ls',
      grid_init_loop n bounds axes shape clip_b clip_e max_cells (d + 1) acc' = Some (st, g) /\
      (forall i L, aget Ls' i = Some L -> dim_cells (d + i) L) /\
      match st with
      | DAMACY_OK => length Ls' = S n /\ grid_inv g (Ls ++ Ls') /\ prod_len (Ls ++ Ls') <= max_cells
      | DAMACY_BUDGET => (length Ls' <= S n)%nat /\ max_cells < prod_len (Ls ++ Ls')
      | _ => False
      end) as Hnext.
  { intros acc' Hinv' Hle. destruct (IH (d + 1) acc' (Ls ++ [L])) as (st & g & Ls' & -> & Hin & Hst);
      [lia|lia|done|clia|done|].
    exists st, g, (L :: Ls'). split; [done|]. split; [by apply Hcons|].
    rewrite <-app_assoc in Hst. simpl in Hst. destruct st; try done; simpl; split_and?; destruct_and?; try done; lia. }
  destruct Hinv as [Hax Hcnt Hfin].
  destruct (Z.eqb_spec (zlen L) 0) as [Hz|Hz].
  { apply Hnext; [|rewrite Hsnoc, Hz, Z.mul_0_r; clia]. split; simpl.
    - apply Forall2_app; [done|]. constructor; [done|constructor].
    - rewrite Hsnoc, Hz. lia.
    - by rewrite Hsnoc, Hz, Z.mul_0_r. }
  assert (0 < zlen L) by lia.
  destruct (Z.ltb_spec (max_cells / zlen L) (g_count acc)) as [Hb|Hb].
  { exists DAMACY_BUDGET. eexists _, [L]. split_and!; [done|apply Hcons| simpl; lia |].
    - intros i L' ?%aget_Some_range. simpl in *; lia.
    - rewrite Hsnoc, <-Hcnt. pose proof (Z.mul_succ_div_gt max_cells (zlen L) ltac:(lia)). nia. }
  assert (prod_len (Ls ++ [L]) <= max_cells) as Hle.
  { rewrite Hsnoc, <-Hcnt. pose proof (Z.mul_div_le max_cells (zlen L) ltac:(lia)). nia. }
  apply Hnext; [|done]. rewrite Hcnt, <-Hsnoc, u64_id by (rewrite ?Hsnoc in *; clia).
  split; simpl; [|done|].
  - apply Forall2_app; [done|]. by constructor.
  - rewrite Hfin, Hsnoc. destruct (Z.eqb_spec (prod_len Ls) 0) as [->|]; [done|].
    symmetry. apply Z.eqb_neq. lia.
Qed.
End init.

(** ** The theorem *)

Lemma grid_drain_inv g Ls :
  grid_inv g Ls -> grid_drain (S (Z.to_nat (g_count g))) g = Some (cart Ls).
Proof.
  intros [Hax Hcnt Hfin]. destruct g as [axes cnt rank fin]; simpl in *. subst cnt fin.
  destruct (Z.eqb_spec (prod_len Ls) 0) as [Hz|Hz].
  - rewrite Hz. simpl. rewrite <-length_cart in Hz. by destruct (cart Ls).
  - pose proof (prod_len_nonzero _ Hz) as Hne.
    assert (axes_rep axes (map (fun L => (L, L)) Ls)) as Hrep.
    { clear -Hax Hne. induction Hax as [|a L axes Ls Ha _ IH]; simpl; [constructor|].
      apply Forall_cons in Hne as [? ?]. constructor; [by apply Ha|by apply IH]. }
    pose proof (grid_drain_spec _ _ (prod_len Ls) rank Hrep) as Hd.
    rewrite (remaining_start _ Hne) in Hd. rewrite <-length_cart, Nat2Z.id in *. done.
Qed.

(** Coordinates of dimension-wise selected cells. *)
Definition coord_selected bounds axes shape clip_b clip_e (c : list Z) : Prop :=
  zlen c = aabb_rank bounds /\
  forall d x, aget c d = Some x -> dim_selected bounds axes shape clip_b clip_e d x.

Lemma Forall2_aget {A B} (P : A -> B -> Prop) (l : list A) (k : list B) :
  Forall2 P l k <-> length l = length k /\
    forall i x y, aget l i = Some x -> aget k i = Some y -> P x y.
Proof.
  rewrite Forall2_same_length_lookup. split; intros [Hl H]; (split; [done|]).
  - intros i x y [_ Hx]%aget_lookup [_ Hy]%aget_lookup. eauto.
  - intros i x y Hx Hy. rewrite <-aget_nat in Hx. rewrite <-aget_nat in Hy. eauto.
Qed.

Lemma elem_of_grid bounds axes shape clip_b clip_e Ls c :
  zlen Ls = aabb_rank bounds ->
  (forall i L, aget Ls i = Some L -> dim_cells bounds axes shape clip_b clip_e i L) ->
  c ∈ cart Ls <-> coord_selected bounds axes shape clip_b clip_e c.
Proof.
  intros Hlen HLs. rewrite elem_of_cart, Forall2_aget. unfold coord_selected. split.
  - intros [Hl H]. split; [lia|]. intros d x Hx. pose proof (aget_Some_range _ _ _ Hx).
    destruct (aget_is_Some Ls d ltac:(lia)) as [L HL]. eapply dim_cells_elem; eauto.
  - intros [Hl H]. split; [lia|]. intros d x L Hx HL. eapply dim_cells_elem; eauto.
Qed.

Lemma selection_grid_spec bounds axes shape clip_b clip_e max_cells :
  grid_ok bounds axes shape clip_b clip_e -> is_u64 max_cells ->
  exists st g, selection_grid_init bounds axes shape clip_b clip_e max_cells = Some (st, g) /\
    match st with
    | DAMACY_OK =>
        exists coords, grid_drain (S (Z.to_nat (g_count g))) g = Some coords /\
          zlen coords = g_count g /\ g_count g <= max_cells /\
          StronglySorted lex_lt coords /\
          (forall c, c ∈ coords <-> coord_selected bounds axes shape clip_b clip_e c)
    | DAMACY_BUDGET =>
        exists Ls, zlen Ls <= aabb_rank bounds /\ max_cells < prod_len Ls /\
          forall d L, aget Ls d = Some L -> dim_cells bounds axes shape clip_b clip_e d L
    | _ => False
    end.
Proof.
  intros Hok Hm. pose proof (go_rank _ _ _ _ _ Hok) as Hr. unfold selection_grid_init.
  rewrite (proj2 (Z.eqb_neq (aabb_rank bounds) 0)), (proj2 (Z.ltb_ge DAMACY_MAX_RANK _)) by lia.
  cbn [orb]. destruct (grid_init_loop_spec bounds axes shape clip_b clip_e
    (Z.to_nat (aabb_rank bounds)) max_cells 0 (Grid [] 1 (aabb_rank bounds) false) [])
    as (st & g & Ls & -> & HLs & Hst); [done|done|lia|lia|by repeat constructor|done|lia|].
  exists st, g. split; [done|]. simpl in Hst. destruct st; try done.
  - destruct Hst as (Hl & Hinv & Hle). exists (cart Ls).
    rewrite (grid_drain_inv _ _ Hinv), length_cart, (gi_count _ _ Hinv).
    split_and!; [done|done|done| |].
    + apply cart_sorted. apply Forall_forall. intros L [i Hi]%list_elem_of_lookup.
      rewrite <-aget_nat in Hi. eapply dim_cells_sorted. eauto.
    + intros c. apply elem_of_grid; [lia|done].
  - destruct Hst as [Hl Hlt]. exists Ls. split_and!; [lia|done|done].
Qed.

(** C1: for a well-formed request, [selection_grid_init] succeeds or refuses the
    request because the product of the first dimensions' cell counts exceeds
    [max_cells]. When it succeeds, the caller's [selection_grid_next] loop ends
    after [count <= max_cells] coordinates; they come in strict row-major order
    (so none repeats) and are exactly the cells, within the clip, that hold a
    selected source index in every dimension. *)
Theorem selection_grid_correct bounds axes shape clip_b clip_e max_cells :
  grid_ok bounds axes shape clip_b clip_e -> is_u64 max_cells ->
  exists st g, selection_grid_init bounds axes shape clip_b clip_e max_cells = Some (st, g) /\
    match st with
    | DAMACY_OK =>
        exists coords, grid_drain (S (Z.to_nat (g_count g))) g = Some coords /\
          zlen coords = g_count g /\ g_count g <= max_cells /\
          StronglySorted lex_lt coords /\
          (forall c, c ∈ coords <-> coord_selected bounds axes shape clip_b clip_e c)
    | DAMACY_BUDGET =>
        exists Ls, zlen Ls <= aabb_rank bounds /\ max_cells < prod_len Ls /\
          forall d L, aget Ls d = Some L -> dim_cells bounds axes shape clip_b clip_e d L
    | _ => False
    end.
Proof. apply selection_grid_spec. Qed.

(** Rows 4..11 of a 2-d array, columns 9, 2, 9, in cells of shape 4 x 5. *)
Definition ex_bounds : damacy_aabb := Aabb [Interval 4 12; Interval 2 10] 2.
Definition ex_axes : list query_axis :=
  [query_axis_none; QueryAxis [QueryIndex 2 1; QueryIndex 9 0; QueryIndex 9 2] 3].

Lemma ex_grid_ok : grid_ok ex_bounds ex_axes [4; 5] None None.
Proof.
  split; [done|]. intros d Hd. simpl in Hd. assert (d = 0 \/ d = 1) as [-> | ->] by lia.
  - eexists _, _, _. by split_and!.
  - eexists _, _, _. split_and!; try done. split; [done|]. intros _. split; [|split; [done|]].
    + split; [| |done]; repeat constructor; simpl; lia || done.
    + intros e He. simpl in He. repeat (apply elem_of_cons in He as [->|He]; [simpl; lia|]).
      by apply not_elem_of_nil in He.
Qed.

Lemma selection_grid_correct_witness :
  exists g, selection_grid_init ex_bounds ex_axes [4; 5] None None 100 = Some (DAMACY_OK, g) /\
    grid_drain (S (Z.to_nat (g_count g))) g = Some [[1; 0]; [1; 1]; [2; 0]; [2; 1]] /\
    coord_selected ex_bounds ex_axes [4; 5] None None [2; 1].
Proof.
  destruct (selection_grid_correct ex_bounds ex_axes [4; 5] None None 100 ex_grid_ok)
    as (st & g & Hi & Hst); [done|].
  pose proof Hi as Hi'. vm_compute in Hi'. injection Hi' as <- <-. simpl in Hst.
  destruct Hst as (coords & Hd & _ & _ & _ & Hin).
  eexists. split; [exact Hi|]. split; [done|]. apply Hin.
  vm_compute in Hd. injection Hd as <-. repeat constructor.
Defined.
