(* ===== verification/ReadOpSort.v ===== *)
(** * Sorting read operations

    [src/src/executor/read_op_sort.c]: an in-place quicksort (median of three,
    insertion sort below a cutoff, recursion on the smaller part) of a
    permutation of read operations by path, offset and index. *)

From Stdlib Require Import Ascii.
From stdpp Require Import strings.
From S2P Require Import Prelude.

#[local] Open Scope Z_scope.

(** [struct read_op]; a null path marks a fill placeholder. *)
Record read_op := ReadOp {
  shard_path : option string; file_offset : Z; host_buf_offset : Z; nbytes : Z }.
#[export] Instance read_op_inhabited : Inhabited read_op := populate (ReadOp None 0 0 0).
#[export] Instance read_op_eq_dec : EqDecision read_op.
Proof. solve_decision. Defined.

(** The C library's [strcmp]: the sign of the first differing byte. *)
Fixpoint strcmp (a b : string) : Z :=
  match a, b with
  | EmptyString, EmptyString => 0
  | EmptyString, String _ _ => -1
  | String _ _, EmptyString => 1
  | String x a, String y b =>
      let x := Z.of_nat (nat_of_ascii x) in
      let y := Z.of_nat (nat_of_ascii y) in
      if x <? y then -1 else if y <? x then 1 else strcmp a b
  end.

Definition READ_OP_SORT_INSERTION_CUTOFF : Z := 16.

(** Two paths are compared by content; equal pointers are equal contents. *)
Definition perm_lt (ops : list read_op) (a b : Z) : option bool :=
  oa ← aget ops a;
  ob ← aget ops b;
  pa ← shard_path oa;
  pb ← shard_path ob;
  let cmp := strcmp pa pb in
  if negb (cmp =? 0) then Some (cmp <? 0)
  else if negb (file_offset oa =? file_offset ob)
  then Some (file_offset oa <? file_offset ob)
  else Some (a <? b).

(** [while (j > lo && !perm_lt(perm[j-1], key))]: shift right, return the hole. *)
Fixpoint insertion_shift (fuel : nat) (ops : list read_op) (perm : list Z) (lo key j : Z)
    : option (list Z * Z) :=
  if lo <? j then
    p ← aget perm (j - 1);
    lt ← perm_lt ops p key;
    if (lt : bool) then Some (perm, j)
    else
      match fuel with
      | O => None
      | S fuel =>
          perm ← aset perm j p;
          insertion_shift fuel ops perm lo key (j - 1)
      end
  else Some (perm, j).

(** [n] iterations of the outer loop from index [i]. *)
Fixpoint insertion_loop (n : nat) (ops : list read_op) (perm : list Z) (lo i : Z)
    : option (list Z) :=
  match n with
  | O => Some perm
  | S n =>
      key ← aget perm i;
      r ← insertion_shift (Z.to_nat (i - lo)) ops perm lo key i;
      let '(perm, j) := (r : list Z * Z) in
      perm ← aset perm j key;
      insertion_loop n ops perm lo (i + 1)
  end.

Definition perm_insertion_sort (ops : list read_op) (perm : list Z) (lo hi : Z)
    : option (list Z) :=
  insertion_loop (Z.to_nat (hi - lo)) ops perm lo (lo + 1).

Definition swap (perm : list Z) (a b : Z) : option (list Z) :=
  x ← aget perm a;
  y ← aget perm b;
  perm ← aset perm a y;
  aset perm b x.

(** [if (perm_lt(perm[a], perm[b])) swap(a, b)]. *)
Definition swap_if_lt (ops : list read_op) (perm : list Z) (a b : Z) : option (list Z) :=
  x ← aget perm a;
  y ← aget perm b;
  lt ← perm_lt ops x y;
  if (lt : bool) then swap perm b a else Some perm.

(** [while (perm_lt(perm[++i], pivot))]. *)
Fixpoint scan_up (fuel : nat) (ops : list read_op) (perm : list Z) (pivot i : Z) : option Z :=
  match fuel with
  | O => None
  | S fuel =>
      let i := i + 1 in
      x ← aget perm i;
      lt ← perm_lt ops x pivot;
      if (lt : bool) then scan_up fuel ops perm pivot i else Some i
  end.

(** [while (perm_lt(pivot, perm[--j]))]. *)
Fixpoint scan_down (fuel : nat) (ops : list read_op) (perm : list Z) (pivot j : Z) : option Z :=
  match fuel with
  | O => None
  | S fuel =>
      let j := j - 1 in
      x ← aget perm j;
      lt ← perm_lt ops pivot x;
      if (lt : bool) then scan_down fuel ops perm pivot j else Some j
  end.

Fixpoint partition_loop (fuel : nat) (ops : list read_op) (perm : list Z) (pivot i j : Z)
    : option (list Z * Z) :=
  match fuel with
  | O => None
  | S fuel' =>
      i ← scan_up (length perm) ops perm pivot i;
      j ← scan_down (length perm) ops perm pivot j;
      if j <=? i then Some (perm, i)
      else
        perm ← swap perm i j;
        partition_loop fuel' ops perm pivot i j
  end.

(** Median of three, partition, pivot into place: the permutation and the
    pivot's final index. *)
Definition partition (ops : list read_op) (perm : list Z) (lo hi : Z)
    : option (list Z * Z) :=
  let mid := lo + (hi - lo) / 2 in
  perm ← swap_if_lt ops perm mid lo;
  perm ← swap_if_lt ops perm hi lo;
  perm ← swap_if_lt ops perm hi mid;
  let pivot_idx := hi - 1 in
  perm ← swap perm mid pivot_idx;
  pivot ← aget perm pivot_idx;
  r ← partition_loop (length perm) ops perm pivot lo pivot_idx;
  let '(perm, i) := (r : list Z * Z) in
  perm ← swap perm i pivot_idx;
  Some (perm, i).

(** The loop of [perm_quicksort]: each round sorts the smaller part by a call
    and continues on the larger one. *)
Fixpoint perm_quicksort (fuel : nat) (ops : list read_op) (perm : list Z) (lo hi : Z)
    : option (list Z) :=
  match fuel with
  | O => None
  | S fuel =>
      if lo <? hi then
        if hi - lo <? READ_OP_SORT_INSERTION_CUTOFF then perm_insertion_sort ops perm lo hi
        else
          r ← partition ops perm lo hi;
          let '(perm, i) := (r : list Z * Z) in
          if (0 <? i) && (u32 (u32 (i - 1) - lo) <? u32 (hi - u32 (i + 1))) then
            perm ← (if u32 (lo + 1) <? i then perm_quicksort fuel ops perm lo (i - 1)
                    else Some perm);
            perm_quicksort fuel ops perm (u32 (i + 1)) hi
          else
            perm ← (if u32 (i + 1) <? hi then perm_quicksort fuel ops perm (u32 (i + 1)) hi
                    else Some perm);
            if i =? 0 then Some perm
            else perm_quicksort fuel ops perm lo (i - 1)
      else Some perm
  end.

(** Every call works on a strictly shorter range, so [n + 1] levels suffice. *)
Definition read_op_perm_sort (ops : list read_op) (perm : list Z) (n : Z) : option (list Z) :=
  if 1 <? n then perm_quicksort (S (Z.to_nat n)) ops perm 0 (n - 1) else Some perm.

(** ** The order *)

Lemma nat_of_ascii_inj x y : nat_of_ascii x = nat_of_ascii y -> x = y.
Proof. intros H. rewrite <-(ascii_nat_embedding x), <-(ascii_nat_embedding y). by rewrite H. Qed.

Ltac strcmp_cases :=
  repeat match goal with
  | |- context [?x <? ?y] => destruct (Z.ltb_spec x y)
  | H : context [?x <? ?y] |- _ => destruct (Z.ltb_spec x y)
  end.

Lemma strcmp_eq a b : strcmp a b = 0 <-> a = b.
Proof.
  revert b. induction a as [|x a IH]; intros [|y b]; simpl; try done.
  strcmp_cases; try (split; [done|intros; simplify_eq; lia]).
  rewrite IH. split; [|congruence]. intros ->. f_equal. apply nat_of_ascii_inj. lia.
Qed.

Lemma strcmp_opp a b : strcmp b a = - strcmp a b.
Proof.
  revert b. induction a as [|x a IH]; intros [|y b]; simpl; try done.
  strcmp_cases; try lia. apply IH.
Qed.

Lemma strcmp_trans a b c : strcmp a b < 0 -> strcmp b c < 0 -> strcmp a c < 0.
Proof.
  revert b c. induction a as [|x a IH]; intros [|y b] [|z c]; simpl; try lia.
  strcmp_cases; try lia. eauto.
Qed.

Section sort.
Context (ops : list read_op).

(** An index that may be sorted: it names an operation with a path. *)
Definition valid (a : Z) : Prop := exists o p, aget ops a = Some o /\ shard_path o = Some p.

Definition olt (a b : Z) : bool := default false (perm_lt ops a b).
Definition ole (a b : Z) : Prop := olt b a = false.

Lemma perm_lt_olt a b : valid a -> valid b -> perm_lt ops a b = Some (olt a b).
Proof.
  intros (oa & pa & Ha & Hpa) (ob & pb & Hb & Hpb). unfold olt, perm_lt.
  rewrite Ha, Hb; simpl. rewrite Hpa, Hpb; simpl. by repeat case_match.
Qed.

Lemma olt_iff a b oa ob pa pb :
  aget ops a = Some oa -> aget ops b = Some ob ->
  shard_path oa = Some pa -> shard_path ob = Some pb ->
  olt a b = true <-> strcmp pa pb < 0 \/
    (pa = pb /\ (file_offset oa < file_offset ob \/
                 (file_offset oa = file_offset ob /\ a < b))).
Proof.
  intros Ha Hb Hpa Hpb. unfold olt, perm_lt. rewrite Ha, Hb; simpl. rewrite Hpa, Hpb; simpl.
  rewrite <-(strcmp_eq pa pb).
  destruct (Z.eqb_spec (strcmp pa pb) 0); simpl; [|rewrite Z.ltb_lt; lia].
  destruct (Z.eqb_spec (file_offset oa) (file_offset ob)); simpl; rewrite Z.ltb_lt; lia.
Qed.

Lemma olt_trans a b c :
  valid a -> valid b -> valid c -> olt a b = true -> olt b c = true -> olt a c = true.
Proof.
  intros (oa & pa & Ha & Hpa) (ob & pb & Hb & Hpb) (oc & pc & Hc & Hpc).
  rewrite (olt_iff a b oa ob pa pb), (olt_iff b c ob oc pb pc), (olt_iff a c oa oc pa pc) by done.
  intros [H1|[-> H1]] [H2|[-> H2]]; auto; [eauto using strcmp_trans|right; split; [done|lia]].
Qed.

Lemma olt_irrefl a : valid a -> olt a a = false.
Proof.
  intros (oa & pa & Ha & Hpa). apply not_true_iff_false.
  rewrite (olt_iff a a oa oa pa pa) by done.
  rewrite (proj2 (strcmp_eq pa pa)) by done. lia.
Qed.

Lemma olt_total a b : valid a -> valid b -> olt a b = true \/ a = b \/ olt b a = true.
Proof.
  intros (oa & pa & Ha & Hpa) (ob & pb & Hb & Hpb).
  rewrite (olt_iff a b oa ob pa pb), (olt_iff b a ob oa pb pa) by done.
  rewrite (strcmp_opp pa pb).
  destruct (decide (pa = pb)) as [->|Hne]; [|rewrite <-strcmp_eq in Hne; lia].
  destruct (Z.lt_trichotomy (file_offset oa) (file_offset ob)) as [?|[?|?]];
    [by auto 6|destruct (Z.lt_trichotomy a b) as [?|[?|?]]|]; auto 8.
Qed.

Lemma ole_trans a b c : valid a -> valid b -> valid c -> ole a b -> ole b c -> ole a c.
Proof.
  unfold ole. intros Ha Hb Hc H1 H2. apply not_true_iff_false. intros H3.
  destruct (olt_total a b Ha Hb) as [H|[->|H]]; [|congruence..].
  rewrite (olt_trans c a b) in H2 by done. done.
Qed.

Lemma olt_ole a b : valid a -> valid b -> olt a b = true -> ole a b.
Proof.
  unfold ole. intros Ha Hb H. apply not_true_iff_false. intros H'.
  pose proof (olt_trans a b a Ha Hb Ha H H') as H2. by rewrite olt_irrefl in H2.
Qed.

Lemma ole_refl a : valid a -> ole a a.
Proof. apply olt_irrefl. Qed.

(** ** Ranges of the permutation *)

(** [l'] rearranges [l] inside [lo .. hi] only. *)
Definition range_perm (l l' : list Z) (lo hi : Z) : Prop :=
  l' ≡ₚ l /\ forall k, k < lo \/ hi < k -> aget l' k = aget l k.

Definition range_sorted (l : list Z) (lo hi : Z) : Prop :=
  forall a b x y, lo <= a <= b -> b <= hi -> aget l a = Some x -> aget l b = Some y -> ole x y.

(** [P] holds of every entry of the range. *)
Definition range_all (P : Z -> Prop) (l : list Z) (lo hi : Z) : Prop :=
  forall k x, lo <= k <= hi -> aget l k = Some x -> P x.

Lemma range_perm_refl l lo hi : range_perm l l lo hi.
Proof. by split. Qed.

Lemma range_perm_trans l1 l2 l3 lo hi :
  range_perm l1 l2 lo hi -> range_perm l2 l3 lo hi -> range_perm l1 l3 lo hi.
Proof. intros [H1 H2] [H3 H4]. split; [by etrans|]. intros k Hk. rewrite H4, H2 by done. done. Qed.

Lemma range_perm_weaken l l' lo hi lo' hi' :
  range_perm l l' lo hi -> lo' <= lo -> hi <= hi' -> range_perm l l' lo' hi'.
Proof. intros [H1 H2] ? ?. split; [done|]. intros k Hk. apply H2. lia. Qed.

Lemma range_perm_length l l' lo hi : range_perm l l' lo hi -> length l' = length l.
Proof. intros [H _]. by apply Permutation_length. Qed.

Lemma take_eq_aget (l l' : list Z) n :
  length l' = length l -> (forall k, k < Z.of_nat n -> aget l' k = aget l k) ->
  take n l' = take n l.
Proof.
  intros Hlen H. apply list_eq. intros i. destruct (decide (i < n)%nat).
  - rewrite !lookup_take_lt by done. rewrite <-!aget_nat. apply H. lia.
  - rewrite !lookup_take_ge by lia. done.
Qed.

Lemma drop_eq_aget (l l' : list Z) n :
  (forall k, Z.of_nat n <= k -> aget l' k = aget l k) -> drop n l' = drop n l.
Proof.
  intros H. apply list_eq. intros i. rewrite !lookup_drop, <-!aget_nat. apply H. lia.
Qed.

(** Entries of the range stay entries of the range. *)
Lemma range_perm_elem l l' lo hi k x :
  range_perm l l' lo hi -> 0 <= lo -> lo <= k <= hi -> aget l' k = Some x ->
  exists k', lo <= k' <= hi /\ aget l k' = Some x.
Proof.
  intros [Hp Ho] Hlo Hk Hx.
  set (A := Z.to_nat lo). set (N := Z.to_nat (hi + 1 - lo)).
  assert (take A l' = take A l) as HA.
  { apply take_eq_aget; [by apply Permutation_length|]. intros. apply Ho. lia. }
  assert (drop N (drop A l') = drop N (drop A l)) as HB.
  { rewrite !drop_drop. apply drop_eq_aget. intros. apply Ho. lia. }
  assert (take N (drop A l') ≡ₚ take N (drop A l)) as HM.
  { rewrite <-(take_drop A l'), <-(take_drop A l), HA in Hp. apply (inj (app (take A l))) in Hp.
    rewrite <-(take_drop N (drop A l')), <-(take_drop N (drop A l)), HB in Hp.
    by apply (inj (fun m => m ++ drop N (drop A l))) in Hp. }
  assert (x ∈ take N (drop A l)) as Hin.
  { rewrite <-HM. apply list_elem_of_lookup. exists (Z.to_nat (k - lo)).
    rewrite lookup_take_lt by lia. rewrite lookup_drop. apply aget_lookup in Hx as [_ Hx].
    by replace (A + Z.to_nat (k - lo))%nat with (Z.to_nat k) by lia. }
  apply list_elem_of_lookup in Hin as [i Hi]. apply lookup_take_Some in Hi as [Hi Hlt].
  rewrite lookup_drop in Hi. exists (lo + Z.of_nat i). split; [lia|].
  apply aget_lookup. split; [lia|]. by replace (Z.to_nat (lo + Z.of_nat i)) with (A + i)%nat by lia.
Qed.

Lemma range_perm_all P l l' lo hi lo' hi' :
  range_perm l l' lo hi -> 0 <= lo -> lo' <= lo -> hi <= hi' ->
  range_all P l lo' hi' -> range_all P l' lo' hi'.
Proof.
  intros Hp Hlo H1 H2 HP k x Hk Hx. destruct (decide (lo <= k <= hi)).
  - destruct (range_perm_elem _ _ _ _ _ _ Hp Hlo ltac:(done) Hx) as (k' & Hk' & Hx').
    apply (HP k'); [lia|done].
  - apply (HP k); [lia|]. destruct Hp as [_ Ho]. rewrite <-Ho by lia. done.
Qed.

Lemma insert_swap_perm (l : list Z) (i j : nat) x y :
  l !! i = Some x -> l !! j = Some y -> <[j:=x]> (<[i:=y]> l) ≡ₚ l.
Proof.
  intros Hi Hj. apply Permutation_inj. rewrite !length_insert. split; [done|].
  exists (fun k => if decide (k = i) then j else if decide (k = j) then i else k).
  split.
  - intros a b. repeat case_decide; congruence.
  - intros k. apply lookup_lt_Some in Hi as Hi'. apply lookup_lt_Some in Hj as Hj'.
    destruct (decide (k = j)) as [->|].
    + rewrite list_lookup_insert_eq by (by rewrite length_insert).
      case_decide; congruence.
    + rewrite list_lookup_insert_ne by done. case_decide; [subst|].
      * by rewrite list_lookup_insert_eq.
      * by rewrite list_lookup_insert_ne.
Qed.

Lemma swap_spec l a b :
  0 <= a < zlen l -> 0 <= b < zlen l ->
  exists l' x y, swap l a b = Some l' /\ aget l a = Some x /\ aget l b = Some y /\
    l' ≡ₚ l /\ aget l' a = Some y /\ aget l' b = Some x /\
    (forall k, k <> a -> k <> b -> aget l' k = aget l k).
Proof.
  intros Ha Hb. unfold swap.
  destruct (aget_is_Some l a Ha) as [x Hx]. destruct (aget_is_Some l b Hb) as [y Hy].
  rewrite Hx, Hy. simpl. rewrite (aset_range l a) by done. simpl.
  rewrite aset_range by (rewrite length_insert; done).
  eexists _, x, y. split; [done|].
  pose proof Hx as [_ Hx']%aget_lookup. pose proof Hy as [_ Hy']%aget_lookup.
  assert (forall k, aget (<[Z.to_nat b:=x]> (<[Z.to_nat a:=y]> l)) k =
    if decide (k = b) then Some x else if decide (k = a) then Some y else aget l k) as Hget.
  { intros k. rewrite (aget_aset (<[Z.to_nat a:=y]> l) b x _ k)
      by (apply aset_range; rewrite length_insert; done).
    rewrite (aget_aset l a y _ k) by (by apply aset_range).
    repeat case_decide; congruence. }
  split_and!; [done|done|by apply insert_swap_perm|..].
  - rewrite Hget. repeat case_decide; congruence.
  - rewrite Hget. by case_decide.
  - intros k ? ?. rewrite Hget. by rewrite !decide_False.
Qed.

(** ** Insertion sort *)

Definition all_valid (l : list Z) : Prop := forall k x, aget l k = Some x -> valid x.

Lemma all_valid_perm l l' : l' ≡ₚ l -> all_valid l -> all_valid l'.
Proof.
  intros Hp Hv k x Hx. apply aget_lookup in Hx as [_ Hx].
  apply list_elem_of_lookup_2 in Hx. rewrite Hp in Hx.
  apply list_elem_of_lookup in Hx as [i Hi]. rewrite <-aget_nat in Hi. eauto.
Qed.

(** The hole at [j], [key] in hand: what is left of it stays sorted, what is
    right of it is sorted and above [key]. *)
Record shift_inv (l : list Z) (lo i j key : Z) : Prop := {
  si_left : range_sorted l lo (j - 1);
  si_right : range_sorted l (j + 1) i;
  si_key : range_all (ole key) l (j + 1) i;
  si_cross : forall a b x y, lo <= a < j -> j < b <= i ->
    aget l a = Some x -> aget l b = Some y -> ole x y }.

Lemma insertion_shift_spec fuel l lo i j key orig :
  all_valid l -> valid key -> 0 <= lo <= j -> j <= i < zlen l -> j - lo <= Z.of_nat fuel ->
  shift_inv l lo i j key ->
  range_perm orig (<[Z.to_nat j := key]> l) lo i ->
  exists l' j', insertion_shift fuel ops l lo key j = Some (l', j') /\
    all_valid l' /\ length l' = length l /\ lo <= j' <= j /\
    range_perm orig (<[Z.to_nat j' := key]> l') lo i /\
    range_sorted (<[Z.to_nat j' := key]> l') lo i.
Proof.
  intros Hv Hkey. revert l j Hv.
  assert (forall l j, all_valid l -> 0 <= lo <= j -> j <= i < zlen l -> shift_inv l lo i j key ->
    (forall p, lo < j -> aget l (j - 1) = Some p -> ole p key) ->
    range_sorted (<[Z.to_nat j := key]> l) lo i) as Hdone.
  { intros l j Hv Hlo Hi [Hl Hr Hk Hc] Hp a b x y Ha Hb Hx Hy.
    rewrite (aget_aset l j key _ a) in Hx by (apply aset_range; lia).
    rewrite (aget_aset l j key _ b) in Hy by (apply aset_range; lia).
    assert (forall a x, lo <= a < j -> aget l a = Some x -> ole x key) as Hleft.
    { intros a' x' Ha' Hx'. destruct (aget_is_Some l (j - 1) ltac:(lia)) as [p Ep].
      apply (ole_trans _ p); [by eapply Hv|by eapply Hv|done| |apply Hp; [lia|done]].
      apply (Hl a' (j - 1)); [lia|lia|done|done]. }
    repeat case_decide; simplify_eq.
    - by apply ole_refl.
    - apply (Hleft a); [lia|done].
    - apply (Hk b); [lia|done].
    - destruct (decide (b < j)); [apply (Hl a b); [lia|lia|done|done]|].
      destruct (decide (a < j)); [apply (Hc a b); [lia|lia|done|done]|].
      apply (Hr a b); [lia|lia|done|done]. }
  induction fuel as [|fuel IH]; intros l j Hv Hlo Hi Hf Hinv Hrp; simpl;
    destruct (Z.ltb_spec lo j) as [Hlt|Hge].
  { exfalso. simpl in Hf. lia. }
  { exists l, j. split_and!; try done; try lia. apply Hdone; [done|lia|lia|done|lia]. }
  2: { exists l, j. split_and!; try done; try lia. apply Hdone; [done|lia|lia|done|lia]. }
  destruct (aget_is_Some l (j - 1) ltac:(lia)) as [p Ep]. rewrite Ep. simpl.
  rewrite perm_lt_olt by (done || by eapply Hv). simpl.
  destruct (olt p key) eqn:Elt.
  { exists l, j. split_and!; try done; try lia. apply Hdone; [done|lia|lia|done|].
    intros p' _ Hp'. simplify_eq. apply olt_ole; [by eapply Hv|done|done]. }
  rewrite aset_range by lia. simpl.
  assert (forall k, aget (<[Z.to_nat j:=p]> l) k = if decide (j = k) then Some p else aget l k) as Hget.
  { intros k. apply (aget_aset l j p). apply aset_range. lia. }
  destruct (IH (<[Z.to_nat j:=p]> l) (j - 1)) as (l' & j' & -> & Hv' & Hl' & Hj' & Hrest).
  - intros k x. rewrite Hget. case_decide; [intros; simplify_eq; by eapply Hv|eauto].
  - lia.
  - rewrite length_insert. lia.
  - lia.
  - destruct Hinv as [Hl Hr Hk Hc]. split.
    + intros a b x y Ha Hb. rewrite !Hget, !decide_False by lia. apply Hl; lia.
    + intros a b x y Ha Hb. rewrite !Hget. repeat case_decide; intros; simplify_eq; try lia.
      * apply ole_refl. by eapply Hv.
      * apply (Hc (a - 1) b); [lia|lia|done|done].
      * apply (Hr a b); [lia|lia|done|done].
    + intros k x Hkr. rewrite Hget. case_decide; intros; simplify_eq; [done|]. apply (Hk k); [lia|done].
    + intros a b x y Ha Hb. rewrite !Hget. rewrite (decide_False (P := j = a)) by lia.
      case_decide; intros; simplify_eq.
      * apply (Hl a (b - 1)); [lia|lia|done|done].
      * apply (Hc a b); [lia|lia|done|done].
  - destruct Hrp as [Hp Ho]. split.
    + rewrite <-Hp. rewrite <-(list_insert_insert_eq l (Z.to_nat j) p key).
      apply insert_swap_perm.
      * apply list_lookup_insert_eq. lia.
      * rewrite list_lookup_insert_ne by lia. by apply aget_lookup in Ep as [_ ?].
    + intros k Hk. rewrite <-Ho by lia.
      rewrite (aget_aset (<[Z.to_nat j:=p]> l) (j - 1) key)
        by (apply aset_range; rewrite length_insert; lia).
      rewrite Hget, (aget_aset l j key (<[Z.to_nat j:=key]> l)) by (apply aset_range; lia).
      by rewrite !decide_False by lia.
  - exists l', j'. rewrite length_insert in Hl'. destruct Hrest. split_and!; done || lia.
Qed.

Lemma insertion_loop_spec n l lo i :
  all_valid l -> 0 <= lo < i -> i + Z.of_nat n <= zlen l -> range_sorted l lo (i - 1) ->
  exists l', insertion_loop n ops l lo i = Some l' /\
    range_perm l l' lo (i + Z.of_nat n - 1) /\ range_sorted l' lo (i + Z.of_nat n - 1).
Proof.
  revert l i. induction n as [|n IH]; intros l i Hv Hlo Hn Hs; simpl.
  { exists l. rewrite Z.add_0_r. split_and!; [done|apply range_perm_refl|done]. }
  destruct (aget_is_Some l i ltac:(lia)) as [key Ek]. rewrite Ek. simpl.
  destruct (insertion_shift_spec (Z.to_nat (i - lo)) l lo i i key l)
    as (l1 & j & -> & Hv1 & Hl1 & Hj & Hrp & Hrs); [done|by eapply Hv|lia|lia|lia| | |].
  { split; [done| | |]; intros ? **; lia. }
  { apply aget_lookup in Ek as [_ Ek]. rewrite list_insert_id by done. apply range_perm_refl. }
  simpl. rewrite aset_range by lia. simpl.
  destruct (IH (<[Z.to_nat j:=key]> l1) (i + 1)) as (l2 & -> & Hrp2 & Hrs2); [|lia| |by rewrite Z.add_simpl_r|].
  { eapply all_valid_perm; [apply Hrp|done]. }
  { rewrite length_insert. lia. }
  replace (i + 1 + Z.of_nat n - 1) with (i + Z.of_nat (S n) - 1) in * by lia.
  exists l2. split_and!; [done| |done].
  eapply range_perm_trans; [|done]. eapply range_perm_weaken; [done|lia..].
Qed.

Lemma perm_insertion_sort_spec l lo hi :
  all_valid l -> 0 <= lo <= hi -> hi < zlen l ->
  exists l', perm_insertion_sort ops l lo hi = Some l' /\
    range_perm l l' lo hi /\ range_sorted l' lo hi.
Proof.
  intros Hv Hlo Hhi. unfold perm_insertion_sort.
  destruct (insertion_loop_spec (Z.to_nat (hi - lo)) l lo (lo + 1)) as (l' & -> & H); [done|lia|lia| |].
  { intros a b x y Ha Hb Hx Hy. assert (a = b) as -> by lia. simplify_eq. apply ole_refl. by eapply Hv. }
  exists l'. by replace (lo + 1 + Z.of_nat (Z.to_nat (hi - lo)) - 1) with hi in H by lia.
Qed.

(** ** Partition *)

Lemma scan_up_spec fuel l pivot i j y :
  all_valid l -> valid pivot -> 0 <= i + 1 <= j -> aget l j = Some y -> ole pivot y ->
  j - i <= Z.of_nat fuel ->
  exists i' x, scan_up fuel ops l pivot i = Some i' /\ i < i' <= j /\
    aget l i' = Some x /\ ole pivot x /\ range_all (fun z => ole z pivot) l (i + 1) (i' - 1).
Proof.
  intros Hv Hp. revert i. induction fuel as [|fuel IH]; intros i Hi Hj Hy Hf; [lia|]. simpl.
  pose proof (aget_Some_range _ _ _ Hj).
  destruct (aget_is_Some l (i + 1) ltac:(lia)) as [x Ex]. rewrite Ex. simpl.
  rewrite perm_lt_olt by (done || by eapply Hv). simpl. destruct (olt x pivot) eqn:Elt.
  - assert (i + 1 <> j) by (intros Heq; rewrite Heq in Ex; unfold ole in Hy; congruence).
    destruct (IH (i + 1) ltac:(lia) Hj Hy ltac:(lia)) as (i' & x' & -> & Hi' & Hx' & Hle & Hall).
    exists i', x'. split_and!; try done; try lia. intros k z Hk Hz.
    destruct (decide (k = i + 1)) as [->|]; [simplify_eq; apply olt_ole; [by eapply Hv|done|done]|].
    apply (Hall k); [lia|done].
  - exists (i + 1), x. split_and!; try done; try lia. intros k z Hk. lia.
Qed.

Lemma scan_down_spec fuel l pivot i j x :
  all_valid l -> valid pivot -> 0 <= i <= j - 1 -> j <= zlen l -> aget l i = Some x -> ole x pivot ->
  j - i <= Z.of_nat fuel ->
  exists j' y, scan_down fuel ops l pivot j = Some j' /\ i <= j' < j /\
    aget l j' = Some y /\ ole y pivot /\ range_all (ole pivot) l (j' + 1) (j - 1).
Proof.
  intros Hv Hp. revert j. induction fuel as [|fuel IH]; intros j Hi Hjl Hx Hle Hf; [lia|]. simpl.
  destruct (aget_is_Some l (j - 1) ltac:(lia)) as [y Ey]. rewrite Ey. simpl.
  rewrite perm_lt_olt by (done || by eapply Hv). simpl. destruct (olt pivot y) eqn:Elt.
  - assert (i <> j - 1) by (intros Heq; rewrite Heq in Hx; unfold ole in Hle; congruence).
    destruct (IH (j - 1) ltac:(lia) ltac:(lia) Hx Hle ltac:(lia)) as (j' & y' & -> & Hj' & Hy' & Hle' & Hall).
    exists j', y'. split_and!; try done; try lia. intros k z Hk Hz.
    destruct (decide (k = j - 1)) as [->|]; [simplify_eq; apply olt_ole; [done|by eapply Hv|done]|].
    apply (Hall k); [lia|done].
  - exists (j - 1), y. split_and!; try done; try lia. intros k z Hk. lia.
Qed.

Lemma partition_loop_spec fuel l pivot lo i j p :
  all_valid l -> valid pivot -> 0 <= lo <= i -> i < j <= p -> p < zlen l ->
  j - i <= Z.of_nat fuel ->
  range_all (fun z => ole z pivot) l lo i -> range_all (ole pivot) l j p ->
  exists l' i', partition_loop fuel ops l pivot i j = Some (l', i') /\
    lo < i' <= p /\ range_perm l l' (i + 1) (j - 1) /\
    range_all (fun z => ole z pivot) l' lo (i' - 1) /\ range_all (ole pivot) l' i' p.
Proof.
  intros Hv Hp. revert l i j Hv. induction fuel as [|fuel IH]; intros l i j Hv Hi Hj Hpl Hf Hlo Hhi.
  { lia. }
  simpl. destruct (aget_is_Some l j ltac:(lia)) as [y Ey].
  destruct (aget_is_Some l i ltac:(lia)) as [x Ex].
  destruct (scan_up_spec (length l) l pivot i j y) as (i1 & x1 & -> & Hi1 & Hx1 & Hge & Hup);
    [done|done|lia|done|apply (Hhi j); [lia|done]|lia|]. simpl.
  destruct (scan_down_spec (length l) l pivot i j x) as (j1 & y1 & -> & Hj1 & Hy1 & Hle & Hdn);
    [done|done|lia|lia|done|apply (Hlo i); [lia|done]|lia|]. simpl.
  destruct (Z.leb_spec j1 i1) as [Hstop|Hgo].
  - exists l, i1. split_and!; [done|lia|lia|apply range_perm_refl| |].
    + intros k z Hk Hz. destruct (decide (k <= i)); [apply (Hlo k); [lia|done]|apply (Hup k); [lia|done]].
    + intros k z Hk Hz. destruct (decide (j <= k)); [apply (Hhi k); [lia|done]|].
      destruct (decide (k = i1)) as [->|]; [by simplify_eq|]. apply (Hdn k); [lia|done].
  - destruct (swap_spec l i1 j1 ltac:(lia) ltac:(lia))
      as (l1 & x1' & y1' & -> & Hx1' & Hy1' & Hperm & Ha & Hb & Hother). simpl. simplify_eq.
    destruct (IH l1 i1 j1) as (l2 & i2 & -> & Hi2 & Hrp & HA & HB).
    + by eapply all_valid_perm.
    + lia.
    + lia.
    + rewrite Hperm. done.
    + lia.
    + intros k z Hk Hz. destruct (decide (k = i1)) as [->|]; [by simplify_eq|].
      rewrite Hother in Hz by lia.
      destruct (decide (k <= i)); [apply (Hlo k); [lia|done]|apply (Hup k); [lia|done]].
    + intros k z Hk Hz. destruct (decide (k = j1)) as [->|]; [by simplify_eq|].
      rewrite Hother in Hz by lia.
      destruct (decide (j <= k)); [apply (Hhi k); [lia|done]|apply (Hdn k); [lia|done]].
    + exists l2, i2. split_and!; [done|lia|lia| |done|done].
      eapply range_perm_trans with l1; [|eapply range_perm_weaken; [done|lia..]].
      split; [done|]. intros k Hk. apply Hother; lia.
Qed.

Lemma swap_if_lt_spec l a b :
  all_valid l -> 0 <= a < zlen l -> 0 <= b < zlen l ->
  exists l', swap_if_lt ops l a b = Some l' /\ l' ≡ₚ l /\
    (forall k, k <> a -> k <> b -> aget l' k = aget l k) /\
    (exists x y, aget l' a = Some x /\ aget l' b = Some y /\ ole y x /\
       (aget l a = Some x /\ aget l b = Some y \/ aget l a = Some y /\ aget l b = Some x)).
Proof.
  intros Hv Ha Hb. unfold swap_if_lt.
  destruct (aget_is_Some l a Ha) as [x Hx]. destruct (aget_is_Some l b Hb) as [y Hy].
  rewrite Hx, Hy. simpl. rewrite perm_lt_olt by (by eapply Hv). simpl.
  destruct (olt x y) eqn:E.
  - destruct (swap_spec l b a Hb Ha) as (l' & y' & x' & -> & ? & ? & Hp & Hgb & Hga & Hother).
    assert (y' = y) as -> by congruence. assert (x' = x) as -> by congruence.
    exists l'. split_and!; [done|done|by auto|]. exists y, x.
    split_and!; try done; [apply olt_ole; [by eapply Hv|by eapply Hv|done]|by right].
  - exists l. split_and!; try done. exists x, y. split_and!; try done. by left.
Qed.

(** After the three exchanges: [lo <= mid <= hi]. *)
Lemma median_spec l lo mid hi :
  all_valid l -> 0 <= lo < mid -> mid < hi < zlen l ->
  exists l' x y z,
    (l1 ← swap_if_lt ops l mid lo; l2 ← swap_if_lt ops l1 hi lo; swap_if_lt ops l2 hi mid) = Some l' /\
    range_perm l l' lo hi /\ aget l' lo = Some x /\ aget l' mid = Some y /\ aget l' hi = Some z /\
    ole x y /\ ole y z.
Proof.
  intros Hv Hlo Hhi.
  destruct (swap_if_lt_spec l mid lo Hv ltac:(lia) ltac:(lia)) as (l1 & -> & Hp1 & Ho1 & H1). simpl.
  pose proof (all_valid_perm _ _ Hp1 Hv) as Hv1.
  assert (zlen l1 = zlen l) as Hl1 by (by rewrite Hp1).
  destruct (swap_if_lt_spec l1 hi lo Hv1 ltac:(lia) ltac:(lia)) as (l2 & -> & Hp2 & Ho2 & H2). simpl.
  pose proof (all_valid_perm _ _ Hp2 Hv1) as Hv2.
  assert (zlen l2 = zlen l) as Hl2 by (by rewrite Hp2).
  destruct (swap_if_lt_spec l2 hi mid Hv2 ltac:(lia) ltac:(lia)) as (l3 & -> & Hp3 & Ho3 & H3).
  pose proof (all_valid_perm _ _ Hp3 Hv2) as Hv3.
  destruct H1 as (m1 & o1 & Hm1 & Ho1' & Hle1 & _).
  destruct H2 as (h2 & o2 & Hh2 & Ho2' & Hle2 & Hcase).
  destruct H3 as (z & y & Hz & Hy & Hle & Hcase3).
  assert (aget l2 mid = Some m1) as Hm2 by (rewrite Ho2 by lia; done).
  assert (ole o2 m1) as Hle3.
  { destruct Hcase as [[? ?]|[? ?]]; [congruence|]. assert (h2 = o1) as -> by congruence.
    apply (ole_trans _ o1); eauto. }
  exists l3, o2, y, z. rewrite (Ho3 lo) by lia. split_and!; try done.
  - split; [by rewrite Hp3, Hp2, Hp1|]. intros k Hk. rewrite Ho3, Ho2, Ho1 by lia. done.
  - destruct Hcase3 as [[? ?]|[? ?]]; congruence.
Qed.

Lemma partition_spec l lo hi :
  all_valid l -> 0 <= lo -> lo + 3 <= hi -> hi < zlen l ->
  exists l' i pv, partition ops l lo hi = Some (l', i) /\ lo < i < hi /\
    range_perm l l' lo hi /\ aget l' i = Some pv /\
    range_all (fun z => ole z pv) l' lo (i - 1) /\ range_all (ole pv) l' (i + 1) hi.
Proof.
  intros Hv Hlo Hw Hhi. unfold partition.
  assert (lo < lo + (hi - lo) / 2 < hi - 1 \/ lo + (hi - lo) / 2 = hi - 1 /\ lo < hi - 1) as Hmid by dlia.
  remember (lo + (hi - lo) / 2) as mid eqn:Em. clear Em.
  destruct (median_spec l lo mid hi Hv ltac:(lia) ltac:(lia))
    as (l1 & x & pv & z & Hmed & Hrp1 & Hx & Hpv & Hz & Hle1 & Hle2).
  destruct (swap_if_lt ops l mid lo) as [la|]; [|done]. simpl in Hmed |- *.
  destruct (swap_if_lt ops la hi lo) as [lb|]; [|done]. simpl in Hmed |- *.
  rewrite Hmed. simpl.
  pose proof (all_valid_perm _ _ (proj1 Hrp1) Hv) as Hv1.
  pose proof (range_perm_length _ _ _ _ Hrp1) as Hl1.
  destruct (swap_spec l1 mid (hi - 1) ltac:(lia) ltac:(lia))
    as (l2 & pv' & w & -> & Epv & Hw' & Hp2 & Hm2 & Hpi2 & Ho2).
  assert (pv' = pv) as -> by congruence. simpl.
  rewrite Hpi2. simpl.
  pose proof (all_valid_perm _ _ Hp2 Hv1) as Hv2.
  assert (length l2 = length l) as Hl2 by (by rewrite Hp2).
  assert (valid pv) as Hvp by (by eapply Hv1).
  destruct (partition_loop_spec (length l2) l2 pv lo lo (hi - 1) (hi - 1))
    as (l3 & i & -> & Hi & Hrp3 & HA & HB); [done|done|lia|lia|lia|lia|..].
  { intros k q Hk Hq. assert (k = lo) as -> by lia. rewrite Ho2 in Hq by lia. by simplify_eq. }
  { intros k q Hk Hq. assert (k = hi - 1) as -> by lia. simplify_eq. by apply ole_refl. }
  simpl. pose proof (range_perm_length _ _ _ _ Hrp3) as Hl3.
  destruct (swap_spec l3 i (hi - 1) ltac:(lia) ltac:(lia))
    as (l4 & u & v & -> & Hu & Hv' & Hp4 & Hgi & Hgp & Ho4). simpl.
  assert (aget l3 (hi - 1) = Some pv) as Hp3 by (destruct Hrp3 as [_ ->]; [done|lia]).
  assert (v = pv) as -> by congruence.
  assert (aget l3 hi = Some z) as Hz3.
  { destruct Hrp3 as [_ ->]; [|lia]. rewrite Ho2 by lia. done. }
  exists l4, i, pv. split_and!; [done|lia|lia| |done| |].
  - eapply range_perm_trans; [exact Hrp1|].
    eapply range_perm_trans; [split; [exact Hp2|intros; apply Ho2; lia]|].
    eapply range_perm_trans; [eapply range_perm_weaken; [exact Hrp3|lia..]|].
    split; [done|]. intros. apply Ho4; lia.
  - intros k q Hk Hq. rewrite Ho4 in Hq by lia. apply (HA k); [lia|done].
  - intros k q Hk Hq. destruct (decide (k = hi - 1)) as [->|].
    { destruct (decide (i = hi - 1)); [lia|]. simplify_eq. apply (HB i); [lia|done]. }
    destruct (decide (k = hi)) as [->|]; [rewrite Ho4 in Hq by lia; by simplify_eq|].
    rewrite Ho4 in Hq by lia. apply (HB k); [lia|done].
Qed.

(** ** Quicksort *)

(** Sorted parts around a pivot make a sorted range. *)
Lemma range_sorted_join l lo i hi pv :
  all_valid l -> aget l i = Some pv -> lo <= i <= hi ->
  range_all (fun z => ole z pv) l lo (i - 1) -> range_all (ole pv) l (i + 1) hi ->
  range_sorted l lo (i - 1) -> range_sorted l (i + 1) hi -> range_sorted l lo hi.
Proof.
  intros Hv Hi Hr HA HB H1 H2 a b x y Ha Hb Hx Hy.
  assert (valid x) by eauto. assert (valid y) by eauto. assert (valid pv) by eauto.
  assert (a <= i -> ole x pv) as Hax.
  { intros. destruct (decide (a = i)) as [->|]; [simplify_eq; by apply ole_refl|].
    apply (HA a); [lia|done]. }
  assert (i <= b -> ole pv y) as Hby.
  { intros. destruct (decide (b = i)) as [->|]; [simplify_eq; by apply ole_refl|].
    apply (HB b); [lia|done]. }
  destruct (decide (b < i)); [apply (H1 a b); [lia|lia|done|done]|].
  destruct (decide (i < a)); [apply (H2 a b); [lia|lia|done|done]|].
  apply (ole_trans _ pv); auto with lia.
Qed.

Lemma range_all_outside P l l' lo hi a b :
  range_perm l l' lo hi -> b < lo \/ hi < a -> range_all P l a b -> range_all P l' a b.
Proof. intros [_ Ho] Hab H k x Hk. rewrite Ho by lia. by apply H. Qed.

Lemma range_sorted_outside l l' lo hi a b :
  range_perm l l' lo hi -> b < lo \/ hi < a -> range_sorted l a b -> range_sorted l' a b.
Proof. intros [_ Ho] Hab H k1 k2 x y Hk1 Hk2. rewrite !Ho by lia. by apply H. Qed.

(** Sorting both sides of the pivot, in either order, sorts the range. *)
Lemma range_sorted_sides l l1 l2 lo i hi pv (left_first : bool) :
  all_valid l -> 0 <= lo -> lo < i < hi -> aget l i = Some pv ->
  range_all (fun z => ole z pv) l lo (i - 1) -> range_all (ole pv) l (i + 1) hi ->
  (if left_first
   then range_perm l l1 lo (i - 1) /\ range_sorted l1 lo (i - 1) /\
        range_perm l1 l2 (i + 1) hi /\ range_sorted l2 (i + 1) hi
   else range_perm l l1 (i + 1) hi /\ range_sorted l1 (i + 1) hi /\
        range_perm l1 l2 lo (i - 1) /\ range_sorted l2 lo (i - 1)) ->
  range_perm l l2 lo hi /\ range_sorted l2 lo hi.
Proof.
  intros Hv Hlo Hi Hpv HA HB Hside.
  destruct left_first; destruct Hside as (Hp1 & Hs1 & Hp2 & Hs2).
  all: assert (range_perm l l2 lo hi) as Hp
    by (eapply range_perm_trans; [eapply range_perm_weaken; [exact Hp1|lia..]|
                                  eapply range_perm_weaken; [exact Hp2|lia..]]).
  all: assert (aget l2 i = Some pv) as Hpv2
    by (rewrite (proj2 Hp2), (proj2 Hp1) by lia; done).
  all: split; [done|]; eapply (range_sorted_join l2 lo i hi pv);
    [by eapply all_valid_perm; [apply Hp|]|done|lia|..]; try done.
  - eapply range_all_outside; [exact Hp2|lia|]. eapply range_perm_all; [exact Hp1|lia..|done].
  - eapply range_perm_all; [exact Hp2|lia..|]. eapply range_all_outside; [exact Hp1|lia|done].
  - eapply range_sorted_outside; [exact Hp2|lia|done].
  - eapply range_perm_all; [exact Hp2|lia..|]. eapply range_all_outside; [exact Hp1|lia|done].
  - eapply range_all_outside; [exact Hp2|lia|]. eapply range_perm_all; [exact Hp1|lia..|done].
  - eapply range_sorted_outside; [exact Hp2|lia|done].
Qed.

Lemma range_sorted_short l lo hi : all_valid l -> hi <= lo -> range_sorted l lo hi.
Proof.
  intros Hv Hle a b x y Ha Hb Hx Hy. assert (a = b) as -> by lia. simplify_eq.
  apply ole_refl. eauto.
Qed.

Lemma perm_quicksort_spec fuel l lo hi :
  all_valid l -> 0 <= lo -> hi < zlen l -> zlen l < 2 ^ 32 -> hi - lo < Z.of_nat fuel -> (0 < fuel)%nat ->
  exists l', perm_quicksort fuel ops l lo hi = Some l' /\
    range_perm l l' lo hi /\ range_sorted l' lo hi.
Proof.
  revert l lo hi. induction fuel as [|fuel IH]; intros l lo hi Hv Hlo Hhi Hlen Hf Hpos; [lia|].
  simpl. destruct (Z.ltb_spec lo hi) as [Hlt|Hge].
  2: { exists l. split_and!; [done|apply range_perm_refl|by apply range_sorted_short]. }
  unfold READ_OP_SORT_INSERTION_CUTOFF.
  destruct (Z.ltb_spec (hi - lo) 16); [by apply perm_insertion_sort_spec; auto with lia|].
  destruct (partition_spec l lo hi Hv Hlo ltac:(lia) Hhi)
    as (l0 & i & pv & -> & Hi & Hrp & Hpv & HA & HB). simpl.
  pose proof (range_perm_length _ _ _ _ Hrp) as Hl0.
  pose proof (all_valid_perm _ _ (proj1 Hrp) Hv) as Hv0.
  rewrite (u32_id (i - 1)), (u32_id (i + 1)), (u32_id (lo + 1)) by clia.
  assert (forall l2 l1 (b : bool),
    (if b then range_perm l0 l1 lo (i - 1) /\ range_sorted l1 lo (i - 1) /\
          range_perm l1 l2 (i + 1) hi /\ range_sorted l2 (i + 1) hi
     else range_perm l0 l1 (i + 1) hi /\ range_sorted l1 (i + 1) hi /\
          range_perm l1 l2 lo (i - 1) /\ range_sorted l2 lo (i - 1)) ->
    range_perm l l2 lo hi /\ range_sorted l2 lo hi) as Hjoin.
  { intros l2 l1 b Hb. destruct (range_sorted_sides l0 l1 l2 lo i hi pv b) as [Hp2 Hs2]; try done.
    split; [|done]. by eapply range_perm_trans. }
  assert (forall a b m, all_valid m -> length m = length l -> 0 <= a -> b < zlen m -> hi - lo > b - a -> (0 < fuel)%nat ->
    exists m', (if a <? b then perm_quicksort fuel ops m a b else Some m) = Some m' /\
      range_perm m m' a b /\ range_sorted m' a b) as Hcall.
  { intros a b m Hvm Hlm Ha Hb Hab Hfu. destruct (Z.ltb_spec a b).
    - apply IH; auto; lia.
    - exists m. split_and!; [done|apply range_perm_refl|by apply range_sorted_short]. }
  rewrite (proj2 (Z.ltb_lt 0 i)) by lia. cbn [andb].
  destruct (_ <? _).
  - destruct (Hcall lo (i - 1) l0) as (l1 & E1 & Hp1 & Hs1); [done|done|lia|lia|lia|lia|].
    replace (lo + 1 <? i) with (lo <? i - 1) by (destruct (Z.ltb_spec lo (i - 1)), (Z.ltb_spec (lo + 1) i); lia).
    rewrite E1. simpl. pose proof (range_perm_length _ _ _ _ Hp1) as Hl1.
    destruct (IH l1 (i + 1) hi) as (l2 & E2 & Hp2 & Hs2); [|lia|lia|lia|lia|lia|].
    { by eapply all_valid_perm; [apply Hp1|]. }
    exists l2. split; [done|]. by apply (Hjoin l2 l1 true).
  - destruct (Hcall (i + 1) hi l0) as (l1 & E1 & Hp1 & Hs1); [done|done|lia|lia|lia|lia|].
    rewrite E1. simpl. pose proof (range_perm_length _ _ _ _ Hp1) as Hl1.
    rewrite (proj2 (Z.eqb_neq i 0)) by lia.
    destruct (IH l1 lo (i - 1)) as (l2 & E2 & Hp2 & Hs2); [|lia|lia|lia|lia|lia|].
    { by eapply all_valid_perm; [apply Hp1|]. }
    exists l2. split; [done|]. by apply (Hjoin l2 l1 false).
Qed.
End sort.

Lemma read_op_perm_sort_spec ops l :
  all_valid ops l -> zlen l < 2 ^ 32 ->
  exists l', read_op_perm_sort ops l (zlen l) = Some l' /\ l' ≡ₚ l /\
    range_sorted ops l' 0 (zlen l - 1).
Proof.
  intros Hv Hlen. unfold read_op_perm_sort. destruct (Z.ltb_spec 1 (zlen l)).
  - destruct (perm_quicksort_spec ops (S (Z.to_nat (zlen l))) l 0 (zlen l - 1))
      as (l' & -> & [Hp _] & Hs); [done|lia..|]. by exists l'.
  - exists l. split_and!; [done|done|]. apply range_sorted_short; [done|lia].
Qed.

(** ** Theorem *)

(** C4: [read_op_perm_sort] on indices that name operations with a path: the
    in-place quicksort never reads or writes outside the array (in particular
    the unguarded [++i] and [--j] scans stop inside the partition), ends, and
    leaves a rearrangement of the input ordered by path ([strcmp]), then offset,
    then index. *)
Theorem read_op_perm_sort_correct ops l :
  all_valid ops l -> zlen l < 2 ^ 32 ->
  exists l', read_op_perm_sort ops l (zlen l) = Some l' /\ l' ≡ₚ l /\
    forall a b x y ox oy px py, a <= b ->
      aget l' a = Some x -> aget l' b = Some y ->
      aget ops x = Some ox -> aget ops y = Some oy ->
      shard_path ox = Some px -> shard_path oy = Some py ->
      strcmp px py < 0 \/
      (px = py /\ (file_offset ox < file_offset oy \/
                   (file_offset ox = file_offset oy /\ x <= y))).
Proof.
  intros Hv Hlen. destruct (read_op_perm_sort_spec ops l Hv Hlen) as (l' & Hs & Hp & Hr).
  exists l'. split_and!; [done..|]. intros a b x y ox oy px py Hab Hx Hy Hox Hoy Hpx Hpy.
  pose proof (aget_Some_range _ _ _ Hx). pose proof (aget_Some_range _ _ _ Hy) as Hb.
  rewrite Hp in Hb.
  specialize (Hr a b x y ltac:(lia) ltac:(lia) Hx Hy). unfold ole in Hr.
  apply not_true_iff_false in Hr. rewrite (olt_iff ops y x oy ox py px) in Hr by done.
  rewrite (strcmp_opp px py) in Hr.
  destruct (decide (px = py)) as [->|Hne]; [|rewrite <-strcmp_eq in Hne; lia].
  right. split; [done|].
  destruct (decide (file_offset ox < file_offset oy)); [by left|right].
  destruct (decide (file_offset oy < file_offset ox)); [exfalso; auto 6|].
  destruct (decide (y < x)); [exfalso; apply Hr; right; split; [done|lia]|lia].
Qed.

(** Twenty operations on two shards, offsets descending. *)
Definition ex_ops : list read_op :=
  map (fun i => ReadOp (Some (if Z.even i then "b" else "a")%string) (100 - i) 0 4) (seqZ 0 20).

Lemma read_op_perm_sort_correct_witness :
  exists l', read_op_perm_sort ex_ops (seqZ 0 20) (zlen (seqZ 0 20)) = Some l' /\
    l' = [19; 17; 15; 13; 11; 9; 7; 5; 3; 1; 18; 16; 14; 12; 10; 8; 6; 4; 2; 0].
Proof.
  destruct (read_op_perm_sort_correct ex_ops (seqZ 0 20)) as (l' & Hs & _).
  - intros k x Hx. pose proof (aget_Some_range _ _ _ Hx) as Hr. change (zlen (seqZ 0 20)) with 20 in Hr.
    assert (0 <= x < 20).
    { apply aget_lookup in Hx as [_ Hx]. apply list_elem_of_lookup_2, elem_of_seqZ in Hx. lia. }
    unfold valid, ex_ops. eexists _, _. split.
    + apply aget_lookup. split; [lia|]. rewrite (list_lookup_fmap), lookup_seqZ_lt by lia. reflexivity.
    + reflexivity.
  - done.
  - exists l'. split; [exact Hs|]. vm_compute in Hs. congruence.
Defined.
