(* ===== verification/DispatchTypes.v ===== *)
(** * Dispatch data

    The structures of [src/src/executor/dispatch.h] and
    [src/src/zarr/zarr_chunk_layout.h] that the passes of the IO planner share. A
    pointer a pass tests for null is an [option]. *)

From stdpp Require Import strings.
From S2P Require Import Prelude ReadOpSort.

#[local] Open Scope Z_scope.

Record chunk_layout := ChunkLayout {
  cl_codec_id : Z; typesize : Z; shuffle : Z; bitshuffle : Z; dont_split : Z;
  memcpyed : Z; blocksize : Z; cl_nbytes : Z; nblocks : Z; nsubstreams : Z }.
Definition chunk_layout_zero : chunk_layout := ChunkLayout 0 0 0 0 0 0 0 0 0 0.

Record gather_index := GatherIndex { gi_source : Z; gi_output : Z }.

Record gather_dim := GatherDim { gd_begin : Z; gd_count : Z; output_begin : Z }.

Record sample_dim := SampleDim {
  chunk_shape : Z; chunk_grid_extent : Z; index_offset : Z; index_count : Z;
  aabb_lo_relative : Z; aabb_extent : Z; dst_stride : Z; src_stride : Z }.

(** The pointers [indices] and [gather_dims] of a sample are set by the executor
    when it binds the tables, never by the planner. *)
Record sample_plan := SamplePlan {
  sp_batch_pool_slot : Z; sp_sample_idx_in_batch : Z; sp_rank : Z; src_dtype : Z;
  indexed : bool; sp_dims : list sample_dim; sample_dst_off_elems : Z;
  fill_value : list Z; layout : chunk_layout; layout_probed : Z }.

Record chunk_plan := ChunkPlan {
  read_op_idx : Z; offset_in_read : Z; compressed_nbytes : Z; decompressed_nbytes : Z;
  cp_host_buf_offset : Z; dev_decompressed_offset : Z; gather_offset : Z;
  batch_pool_slot : Z; sample_idx_in_batch : Z; codec_id : Z; is_fill : bool;
  chunk_d : list Z }.

Record read_op_group := ReadOpGroup {
  g_read_op_idx : Z; first_chunk : Z; n_chunks : Z; total_decompressed : Z }.

(** [read_op_group_iterator]; [n_groups] bounds [cursor]. *)
Record read_op_group_iterator := GroupIter {
  groups : list read_op_group; n_groups : Z; cursor : Z }.

Record dispatch_output := DispatchOutput {
  read_ops : option (list read_op); read_ops_cap : Z; n_read_ops : Z;
  chunk_plans : option (list chunk_plan); chunk_plans_cap : Z; n_chunk_plans : Z;
  sample_plans : list sample_plan; sample_plans_cap : Z; n_sample_plans : Z;
  read_op_groups : option (list read_op_group); read_op_groups_cap : Z; n_read_op_groups : Z;
  out_indices : option (list gather_index); indices_cap : Z; n_indices : Z;
  gather_dims : list gather_dim; gather_dims_cap : Z; n_gather_dims : Z;
  n_chunks_to_load : Z; n_loads_issued : Z }.

(** Field updates. *)
Definition set_reads (o : dispatch_output) (r : option (list read_op)) (n : Z) : dispatch_output :=
  DispatchOutput r (read_ops_cap o) n (chunk_plans o) (chunk_plans_cap o) (n_chunk_plans o)
    (sample_plans o) (sample_plans_cap o) (n_sample_plans o)
    (read_op_groups o) (read_op_groups_cap o) (n_read_op_groups o)
    (out_indices o) (indices_cap o) (n_indices o)
    (gather_dims o) (gather_dims_cap o) (n_gather_dims o)
    (n_chunks_to_load o) (n_loads_issued o).
Definition set_chunks (o : dispatch_output) (c : option (list chunk_plan)) (n : Z) : dispatch_output :=
  DispatchOutput (read_ops o) (read_ops_cap o) (n_read_ops o) c (chunk_plans_cap o) n
    (sample_plans o) (sample_plans_cap o) (n_sample_plans o)
    (read_op_groups o) (read_op_groups_cap o) (n_read_op_groups o)
    (out_indices o) (indices_cap o) (n_indices o)
    (gather_dims o) (gather_dims_cap o) (n_gather_dims o)
    (n_chunks_to_load o) (n_loads_issued o).
Definition set_samples (o : dispatch_output) (s : list sample_plan) (n : Z) : dispatch_output :=
  DispatchOutput (read_ops o) (read_ops_cap o) (n_read_ops o)
    (chunk_plans o) (chunk_plans_cap o) (n_chunk_plans o)
    s (sample_plans_cap o) n
    (read_op_groups o) (read_op_groups_cap o) (n_read_op_groups o)
    (out_indices o) (indices_cap o) (n_indices o)
    (gather_dims o) (gather_dims_cap o) (n_gather_dims o)
    (n_chunks_to_load o) (n_loads_issued o).
Definition set_groups (o : dispatch_output) (g : option (list read_op_group)) (n : Z) : dispatch_output :=
  DispatchOutput (read_ops o) (read_ops_cap o) (n_read_ops o)
    (chunk_plans o) (chunk_plans_cap o) (n_chunk_plans o)
    (sample_plans o) (sample_plans_cap o) (n_sample_plans o)
    g (read_op_groups_cap o) n
    (out_indices o) (indices_cap o) (n_indices o)
    (gather_dims o) (gather_dims_cap o) (n_gather_dims o)
    (n_chunks_to_load o) (n_loads_issued o).
Definition set_indices (o : dispatch_output) (i : option (list gather_index)) (n : Z) : dispatch_output :=
  DispatchOutput (read_ops o) (read_ops_cap o) (n_read_ops o)
    (chunk_plans o) (chunk_plans_cap o) (n_chunk_plans o)
    (sample_plans o) (sample_plans_cap o) (n_sample_plans o)
    (read_op_groups o) (read_op_groups_cap o) (n_read_op_groups o)
    i (indices_cap o) n
    (gather_dims o) (gather_dims_cap o) (n_gather_dims o)
    (n_chunks_to_load o) (n_loads_issued o).
Definition set_gather (o : dispatch_output) (g : list gather_dim) (n : Z) : dispatch_output :=
  DispatchOutput (read_ops o) (read_ops_cap o) (n_read_ops o)
    (chunk_plans o) (chunk_plans_cap o) (n_chunk_plans o)
    (sample_plans o) (sample_plans_cap o) (n_sample_plans o)
    (read_op_groups o) (read_op_groups_cap o) (n_read_op_groups o)
    (out_indices o) (indices_cap o) (n_indices o)
    g (gather_dims_cap o) n
    (n_chunks_to_load o) (n_loads_issued o).
Definition set_counters (o : dispatch_output) (to_load loads : Z) : dispatch_output :=
  DispatchOutput (read_ops o) (read_ops_cap o) (n_read_ops o)
    (chunk_plans o) (chunk_plans_cap o) (n_chunk_plans o)
    (sample_plans o) (sample_plans_cap o) (n_sample_plans o)
    (read_op_groups o) (read_op_groups_cap o) (n_read_op_groups o)
    (out_indices o) (indices_cap o) (n_indices o)
    (gather_dims o) (gather_dims_cap o) (n_gather_dims o) to_load loads.

Definition set_read (cp : chunk_plan) (idx off : Z) : chunk_plan :=
  ChunkPlan idx off (compressed_nbytes cp) (decompressed_nbytes cp)
    (cp_host_buf_offset cp) (dev_decompressed_offset cp) (gather_offset cp)
    (batch_pool_slot cp) (sample_idx_in_batch cp) (codec_id cp) (is_fill cp) (chunk_d cp).
