(* ===== verification/Coalesce.v ===== *)
(** * Coalescing reads

    [src/src/executor/coalesce.c]: per-chunk read windows are sorted by shard and
    offset, fused when they touch (within a byte cap and a chunk cap), and emitted
    interleaved across shards; every original window keeps an index into the
    merged list and an offset inside the merged read. *)

From stdpp Require Import strings.
From S2P Require Import Prelude ReadOpSort DispatchTypes.

#[local] Open Scope Z_scope.

(** [same_path]: equal pointers or equal contents. *)
Definition same_path (a b : option string) : bool := bool_decide (a = b).

(** A read that goes to storage: a path and a non-zero length. *)
Definition is_io (r : read_op) : bool :=
  negb (nbytes r =? 0) && bool_decide (is_Some (shard_path r)).

(** The indices of the first [n] reads that go to storage, [i] onwards. *)
Fixpoint collect_io (n : nat) (reads : list read_op) (i : Z) : option (list Z) :=
  match n with
  | O => Some []
  | S n =>
      r ← aget reads i;
      rest ← collect_io n reads (i + 1);
      Some (if is_io r then i :: rest else rest)
  end.

(** The variables of the fuse loop. [leader_old = UINT32_MAX] is "no leader". *)
Record fuse_state := Fuse {
  f_tmp : list read_op;
  f_index : list Z;
  f_offset : list Z;
  f_write : Z;
  leader_old : Z;
  leader_end : Z;
  leader_chunks : Z }.

Definition set_nbytes (r : read_op) (n : Z) : read_op :=
  ReadOp (shard_path r) (file_offset r) (host_buf_offset r) n.

(** The end of the window [leader, curr] fused, when the two may be fused. *)
Definition fusable (reads : list read_op) (max_bytes max_chunks : Z) (st : fuse_state)
    (curr : read_op) (curr_end : Z) : option bool :=
  if leader_old st =? UINT32_MAX then Some false
  else
    leader ← aget reads (leader_old st);
    if same_path (shard_path curr) (shard_path leader)
       && (file_offset leader <=? file_offset curr)
       && (file_offset curr <=? leader_end st)
       && (leader_chunks st <? max_chunks)
    then
      let fused_end := if leader_end st <? curr_end then curr_end else leader_end st in
      let fused_size := u64 (fused_end - file_offset leader) in
      Some ((fused_size <=? max_bytes) && (fused_size <=? UINT32_MAX))
    else Some false.

Definition fuse_step (reads : list read_op) (max_bytes max_chunks : Z) (st : fuse_state)
    (e : Z) : option fuse_state :=
  curr ← aget reads e;
  let curr_end := u64 (file_offset curr + nbytes curr) in
  f ← fusable reads max_bytes max_chunks st curr curr_end;
  if (f : bool) then
    new_idx ← aget (f_index st) (leader_old st);
    let fused_end := if leader_end st <? curr_end then curr_end else leader_end st in
    t ← aget (f_tmp st) new_idx;
    tmp ← aset (f_tmp st) new_idx (set_nbytes t (u32 (fused_end - file_offset t)));
    idx ← aset (f_index st) e new_idx;
    off ← aset (f_offset st) e (u32 (file_offset curr - file_offset t));
    Some (Fuse tmp idx off (f_write st) (leader_old st) fused_end (u32 (leader_chunks st + 1)))
  else
    tmp ← aset (f_tmp st) (f_write st) curr;
    idx ← aset (f_index st) e (f_write st);
    off ← aset (f_offset st) e 0;
    Some (Fuse tmp idx off (u32 (f_write st + 1)) e curr_end 1).

Fixpoint fuse_loop (reads : list read_op) (max_bytes max_chunks : Z) (perm : list Z)
    (st : fuse_state) : option fuse_state :=
  match perm with
  | [] => Some st
  | e :: perm =>
      st ← fuse_step reads max_bytes max_chunks st e;
      fuse_loop reads max_bytes max_chunks perm st
  end.

(** The first index of each run of equal paths in [tmp[0 .. n_real)]. *)
Fixpoint run_starts (n : nat) (tmp : list read_op) (k : Z) : option (list Z) :=
  match n with
  | O => Some []
  | S n =>
      t ← aget tmp k;
      new ← (if k =? 0 then Some true
             else p ← aget tmp (k - 1); Some (negb (same_path (shard_path t) (shard_path p))));
      rest ← run_starts n tmp (k + 1);
      Some (if (new : bool) then k :: rest else rest)
  end.

(** One round over the runs: each run that still has an entry at [round] gets
    the next output slot. *)
Fixpoint interleave_round (starts : list Z) (n_real round : Z) (pos : list Z) (outk : Z)
    : option (list Z * Z) :=
  match starts with
  | [] => Some (pos, outk)
  | s :: rest =>
      let k := u32 (s + round) in
      let e := match rest with s' :: _ => s' | [] => n_real end in
      if k <? e then
        pos ← aset pos k outk;
        interleave_round rest n_real round pos (u32 (outk + 1))
      else interleave_round rest n_real round pos outk
  end.

Fixpoint interleave (fuel : nat) (starts : list Z) (n_real round : Z) (pos : list Z) (outk : Z)
    : option (list Z) :=
  if outk <? n_real then
    match fuel with
    | O => None
    | S fuel =>
        r ← interleave_round starts n_real round pos outk;
        let '(pos, outk) := (r : list Z * Z) in
        interleave fuel starts n_real (u32 (round + 1)) pos outk
    end
  else Some pos.

(** Append the fill placeholders, in order, with identity slots. *)
Fixpoint append_fills (n : nat) (reads : list read_op) (i : Z) (st : fuse_state) (pos : list Z)
    : option (fuse_state * list Z) :=
  match n with
  | O => Some (st, pos)
  | S n =>
      x ← aget (f_index st) i;
      if negb (x =? UINT32_MAX) then append_fills n reads (i + 1) st pos
      else
        r ← aget reads i;
        tmp ← aset (f_tmp st) (f_write st) r;
        idx ← aset (f_index st) i (f_write st);
        off ← aset (f_offset st) i 0;
        pos ← aset pos (f_write st) (f_write st);
        append_fills n reads (i + 1)
          (Fuse tmp idx off (u32 (f_write st + 1)) (leader_old st) (leader_end st)
             (leader_chunks st)) pos
  end.

(** [reads[pos[k]] = tmp[k]] for [n] entries from [k]. *)
Fixpoint scatter (n : nat) (tmp : list read_op) (pos : list Z) (k : Z) (reads : list read_op)
    : option (list read_op) :=
  match n with
  | O => Some reads
  | S n =>
      t ← aget tmp k;
      p ← aget pos k;
      reads ← aset reads p t;
      scatter n tmp pos (k + 1) reads
  end.

(** [read_index[i] = pos[read_index[i]]] for [n] entries from [i]. *)
Fixpoint relabel (n : nat) (pos : list Z) (i : Z) (idx : list Z) : option (list Z) :=
  match n with
  | O => Some idx
  | S n =>
      x ← aget idx i;
      p ← aget pos x;
      idx ← aset idx i p;
      relabel n pos (i + 1) idx
  end.

(** The caller's arrays: results and scratch, all with at least [n] slots. *)
Record coalesce_scratch := Scratch {
  cs_index : list Z; cs_offset : list Z; cs_pos : list Z; cs_tmp : list read_op }.

Record coalesce_result := Coalesced {
  c_reads : list read_op; c_n : Z; c_index : list Z; c_offset : list Z }.

(** [reads] and [scratch] are possibly null pointers. *)
Definition coalesce_reads (reads : option (list read_op)) (n max_bytes max_chunks : Z)
    (scratch : option coalesce_scratch) : option (damacy_status + coalesce_result) :=
  match reads with
  | None => Some (inl DAMACY_INVAL)
  | Some reads =>
      if n =? 0 then Some (inr (Coalesced reads 0 [] []))
      else
        match scratch with
        | None => Some (inl DAMACY_INVAL)
        | Some s =>
            idx ← array_fill (Z.to_nat n) (cs_index s) 0 UINT32_MAX;
            io ← collect_io (Z.to_nat n) reads 0;
            perm ← read_op_perm_sort reads io (zlen io);
            st ← fuse_loop reads max_bytes max_chunks perm
                   (Fuse (cs_tmp s) idx (cs_offset s) 0 UINT32_MAX 0 0);
            let n_real := f_write st in
            starts ← run_starts (Z.to_nat n_real) (f_tmp st) 0;
            pos ← interleave (Z.to_nat n_real) starts n_real 0 (cs_pos s) 0;
            filled ← append_fills (Z.to_nat n) reads 0 st pos;
            let '(st, pos) := (filled : fuse_state * list Z) in
            reads ← scatter (Z.to_nat (f_write st)) (f_tmp st) pos 0 reads;
            idx ← relabel (Z.to_nat n) pos 0 (f_index st);
            Some (inr (Coalesced reads (f_write st) idx (f_offset st)))
        end
  end.

(** ** Chunk plans *)

(** The rewriting loop over the chunk plans, [i] onwards. *)
Fixpoint rewrite_chunks (n : nat) (read_index offset : list Z) (i : Z) (cps : list chunk_plan)
    : option (damacy_status * list chunk_plan) :=
  match n with
  | O => Some (DAMACY_OK, cps)
  | S n =>
      cp ← aget cps i;
      let old := read_op_idx cp in
      x ← aget read_index old;
      if is_fill cp then
        cps ← aset cps i (set_read cp x (offset_in_read cp));
        rewrite_chunks n read_index offset (i + 1) cps
      else
        o ← aget offset old;
        let sum := offset_in_read cp + o in
        if UINT32_MAX <? sum then
          cps ← aset cps i (set_read cp x (offset_in_read cp));
          Some (DAMACY_INVAL, cps)
        else
          cps ← aset cps i (set_read cp x (u32 sum));
          rewrite_chunks n read_index offset (i + 1) cps
  end.

(** The bench counters. *)
Definition count_to_load (cps : list chunk_plan) (n : Z) : Z :=
  zlen (filter (fun cp => is_fill cp = false) (take (Z.to_nat n) cps)).
Definition count_loads (rs : list read_op) (n : Z) : Z :=
  zlen (filter (fun r => is_io r = true) (take (Z.to_nat n) rs)).

Definition slice {A} (l : list A) (off n : Z) : list A := take (Z.to_nat n) (drop (Z.to_nat off) l).

(** [u32_scratch] holds [perm], [pos], [read_index] and [offset_in_read], [n]
    slots each. *)
Definition coalesce_chunks (out : dispatch_output) (max_bytes max_chunks : Z)
    (u32_scratch : option (list Z)) (read_op_scratch : option (list read_op))
    : option (damacy_status * dispatch_output) :=
  match read_ops out, chunk_plans out with
  | Some reads, Some cps =>
      let out := set_counters out 0 0 in
      let n := n_read_ops out in
      if n =? 0 then Some (DAMACY_OK, out)
      else
        match u32_scratch, read_op_scratch with
        | Some u, Some tmp =>
            let s := Scratch (slice u (u32 (2 * n)) n) (slice u (u32 (3 * n)) n) (slice u n n) tmp in
            r ← coalesce_reads (Some reads) n max_bytes max_chunks (Some s);
            match r with
            | inl st => Some (st, out)
            | inr c =>
                let out := set_reads out (Some (c_reads c)) (c_n c) in
                w ← rewrite_chunks (Z.to_nat (n_chunk_plans out)) (c_index c) (c_offset c) 0 cps;
                let '(st, cps) := (w : damacy_status * list chunk_plan) in
                let out := set_chunks out (Some cps) (n_chunk_plans out) in
                Some (st,
                  if decide (st = DAMACY_OK) then
                    set_counters out (count_to_load cps (n_chunk_plans out))
                      (count_loads (c_reads c) (c_n c))
                  else out)
            end
        | _, _ => Some (DAMACY_INVAL, out)
        end
  | _, _ => Some (DAMACY_INVAL, out)
  end.
