(* ===== verification/CoalesceProof.v ===== *)
(** * Coalescing preserves every read

    Correctness of [coalesce_reads] ([src/src/executor/coalesce.c]). The fuse
    loop is tracked by the list of groups it has formed, the interleaving by the
    list of slots it has handed out. *)

From stdpp Require Import strings.
From S2P Require Import Prelude ReadOpSort DispatchTypes Coalesce.

#[local] Open Scope Z_scope.

(** A window a caller may pass: a [uint32_t] length that does not wrap. *)
Definition read_fits (r : read_op) : Prop :=
  0 <= file_offset r /\ 0 <= nbytes r < 2 ^ 32 /\ file_offset r + nbytes r < 2 ^ 64.

Lemma is_io_iff r : is_io r = true <-> nbytes r <> 0 /\ is_Some (shard_path r).
Proof.
  unfold is_io. rewrite andb_true_iff, negb_true_iff, Z.eqb_neq, bool_decide_eq_true. done.
Qed.

(** ** Collecting *)

Lemma collect_io_spec n reads i :
  0 <= i -> i + Z.of_nat n <= zlen reads ->
  exists l, collect_io n reads i = Some l /\ NoDup l /\
    forall e, e ∈ l <-> i <= e < i + Z.of_nat n /\ exists r, aget reads e = Some r /\ is_io r = true.
Proof.
  revert i. induction n as [|n IH]; intros i Hi Hn; simpl.
  { exists []. split_and!; [done|constructor|]. intros e. split; [set_solver|lia]. }
  destruct (aget_is_Some reads i ltac:(lia)) as [r Er]. rewrite Er. simpl.
  destruct (IH (i + 1) ltac:(lia) ltac:(lia)) as (l & -> & Hnd & Hin). simpl.
  eexists. split; [done|]. destruct (is_io r) eqn:Eio.
  - split; [constructor; [rewrite Hin; lia|done]|]. intros e. rewrite elem_of_cons, Hin. split.
    + intros [->|[? ?]]; (split; [lia|eauto]).
    + intros [? He]. destruct (decide (e = i)); [by left|right; split; [lia|done]].
  - split; [done|]. intros e. rewrite Hin. split.
    + intros [? ?]. split; [lia|done].
    + intros [? (r' & Hr' & Hio)]. destruct (decide (e = i)) as [->|]; [congruence|].
      split; [lia|eauto].
Qed.

(** ** Fusing *)

Section fuse.
Context (reads : list read_op) (n max_bytes max_chunks : Z).
Hypothesis Hn : 0 <= n < 2 ^ 32 /\ n <= zlen reads.
Hypothesis Hfit : forall i r, 0 <= i < n -> aget reads i = Some r -> read_fits r.

(** The merged read [t] stands for the originals [G]. *)
Record group_ok (t : read_op) (G : list Z) : Prop := {
  go_ne : G <> [];
  go_path : is_Some (shard_path t) /\ 0 < nbytes t < 2 ^ 32 /\ 0 <= file_offset t /\
            file_offset t + nbytes t < 2 ^ 64;
  go_in : forall e, e ∈ G -> exists r, aget reads e = Some r /\ is_io r = true /\ shard_path t = shard_path r /\
            file_offset t <= file_offset r /\
            file_offset r + nbytes r <= file_offset t + nbytes t;
  go_exact : forall b, file_offset t <= b < file_offset t + nbytes t ->
            exists e r, e ∈ G /\ aget reads e = Some r /\
              file_offset r <= b < file_offset r + nbytes r;
  go_cap : zlen G = 1 \/ nbytes t <= max_bytes /\ zlen G <= max_chunks }.

Definition indexed_at (idx off : list Z) (x : Z) (t : read_op) (G : list Z) : Prop :=
  forall e r, e ∈ G -> aget reads e = Some r ->
    aget idx e = Some x /\ aget off e = Some (file_offset r - file_offset t).

(** A slot of the merged list: a fused read, or a placeholder kept as it is. *)
Definition slot_ok (t : read_op) (G : list Z) : Prop :=
  (is_io t = true /\ group_ok t G) \/
  (is_io t = false /\ exists i, G = [i] /\ aget reads i = Some t).

Record table_inv (tmp : list read_op) (idx off : list Z) (groups : list (list Z)) : Prop := {
  ti_tmp : n <= zlen tmp;
  ti_index : n <= zlen idx;
  ti_offset : n <= zlen off;
  ti_nodup : NoDup (concat groups);
  ti_range : forall e, e ∈ concat groups -> 0 <= e < n;
  ti_le : zlen groups <= zlen (concat groups);
  ti_groups : forall x G, aget groups x = Some G ->
    exists t, aget tmp x = Some t /\ slot_ok t G /\ indexed_at idx off x t G;
  ti_rest : forall i, 0 <= i < n -> i ∉ concat groups -> aget idx i = Some UINT32_MAX }.

Record fuse_inv (st : fuse_state) (groups : list (list Z)) : Prop := {
  fi_table : table_inv (f_tmp st) (f_index st) (f_offset st) groups;
  fi_write : f_write st = zlen groups;
  fi_leader :
    (groups = [] /\ leader_old st = UINT32_MAX) \/
    (exists gs G t r, groups = gs ++ [G] /\ leader_old st ∈ G /\ leader_old st <> UINT32_MAX /\
       aget (f_tmp st) (zlen gs) = Some t /\ aget reads (leader_old st) = Some r /\
       file_offset t = file_offset r /\ shard_path t = shard_path r /\ group_ok t G /\
       leader_end st = file_offset t + nbytes t /\ leader_chunks st = zlen G) }.

Lemma table_inv_room tmp idx off groups e :
  table_inv tmp idx off groups -> 0 <= e < n -> e ∉ concat groups -> zlen (concat groups) < n.
Proof.
  intros Hinv He Hne. assert (zlen (e :: concat groups) <= n) as H.
  { apply nodup_bound; [lia|constructor; [done|apply Hinv]|].
    intros x [->|?]%elem_of_cons; [done|by eapply (ti_range _ _ _ _ Hinv)]. }
  simpl in H. lia.
Qed.

(** A window that cannot be fused, or a placeholder, starts a group of its own. *)
Lemma table_inv_new tmp0 idx0 off0 groups e r tmp idx off :
  table_inv tmp0 idx0 off0 groups -> 0 <= e < n -> e ∉ concat groups ->
  aget reads e = Some r -> slot_ok r [e] ->
  aset tmp0 (zlen groups) r = Some tmp ->
  aset idx0 e (zlen groups) = Some idx -> aset off0 e 0 = Some off ->
  table_inv tmp idx off (groups ++ [[e]]).
Proof.
  intros Hinv He Hne Hr Hok Htmp Hidx Hoff. destruct Hinv.
  assert (concat (groups ++ [[e]]) = concat groups ++ [e]) as Hcat by (by rewrite concat_app).
  split; rewrite ?Hcat.
  - by rewrite (length_aset _ _ _ _ Htmp).
  - by rewrite (length_aset _ _ _ _ Hidx).
  - by rewrite (length_aset _ _ _ _ Hoff).
  - apply NoDup_app. split_and!; [done| |apply NoDup_singleton]. intros x Hx ?%list_elem_of_singleton. congruence.
  - intros x [?|Hx%list_elem_of_singleton]%elem_of_app; subst; auto.
  - rewrite !length_app; simpl. lia.
  - intros x G [Hx|[-> ->]]%aget_snoc.
    + destruct (ti_groups0 _ _ Hx) as (t & Ht & Hok' & Hat). exists t.
      pose proof (aget_Some_range _ _ _ Hx).
      rewrite (aget_aset_ne _ _ _ _ _ Htmp) by lia. split_and!; [done..|].
      intros e' r' He' Hr'. rewrite (aget_aset_ne _ _ _ _ _ Hidx), (aget_aset_ne _ _ _ _ _ Hoff); [by apply Hat|..].
      all: intros ->; by eapply Hne, elem_of_concat_aget.
    + exists r. rewrite (aget_aset_eq _ _ _ _ Htmp). split_and!; [done|done|].
      intros e' r' He'%list_elem_of_singleton Hr'. subst e'. simplify_eq.
      rewrite (aget_aset_eq _ _ _ _ Hidx), (aget_aset_eq _ _ _ _ Hoff). by rewrite Z.sub_diag.
  - intros i Hi [Hi1 Hi2]%not_elem_of_app. rewrite (aget_aset_ne _ _ _ _ _ Hidx); [by auto|].
    intros ->. apply Hi2. by apply list_elem_of_singleton.
Qed.

Lemma group_ok_single e r :
  aget reads e = Some r -> read_fits r -> is_io r = true -> group_ok r [e].
Proof.
  intros Hr (Ho & Hb & Hw) Hio. pose proof Hio as [Hnb Hsp]%is_io_iff.
  split; [done| | | |by left]; [split_and!; done || lia| |].
  - intros e' He'%list_elem_of_singleton. subst e'. exists r. split_and!; done || lia.
  - intros b Hbr. exists e, r. split_and!; [by apply list_elem_of_singleton|done|lia..].
Qed.

Lemma fuse_inv_new st groups e r tmp idx off :
  fuse_inv st groups -> 0 <= e < n -> e ∉ concat groups ->
  aget reads e = Some r -> is_io r = true ->
  aset (f_tmp st) (f_write st) r = Some tmp ->
  aset (f_index st) e (f_write st) = Some idx -> aset (f_offset st) e 0 = Some off ->
  fuse_inv (Fuse tmp idx off (u32 (f_write st + 1)) e (u64 (file_offset r + nbytes r)) 1)
    (groups ++ [[e]]).
Proof.
  intros [Hinv Hwr _] He Hne Hr Hio. rewrite Hwr. intros Htmp Hidx Hoff.
  pose proof (table_inv_room _ _ _ _ _ Hinv He Hne) as Hlt. pose proof (ti_le _ _ _ _ Hinv).
  pose proof (Hfit _ _ He Hr) as Hf. pose proof (group_ok_single _ _ Hr Hf Hio) as Hg.
  destruct Hf as (Ho & Hb & Hw). rewrite u64_id by clia. rewrite u32_id by clia.
  split; cbn [f_tmp f_index f_offset f_write leader_old leader_end leader_chunks].
  - eapply table_inv_new; try done. by left.
  - rewrite length_app; simpl. lia.
  - right. exists groups, [e], r, r. rewrite (aget_aset_eq _ _ _ _ Htmp).
    split_and!; try done; [by apply list_elem_of_singleton|clia].
Qed.

(** A fused window joins the last group. *)
Lemma group_ok_extend t G e r fused_end :
  group_ok t G -> aget reads e = Some r -> is_io r = true -> read_fits r ->
  shard_path r = shard_path t -> file_offset t <= file_offset r <= file_offset t + nbytes t ->
  fused_end = Z.max (file_offset t + nbytes t) (file_offset r + nbytes r) ->
  fused_end - file_offset t <= max_bytes -> fused_end - file_offset t < 2 ^ 32 ->
  zlen G < max_chunks ->
  group_ok (set_nbytes t (fused_end - file_offset t)) (G ++ [e]).
Proof.
  intros [Hne Hp Hin Hex Hcap] Hr Hio (Ho & Hb & Hw) Hpath Hoff -> Hmax H32 Hch.
  split; simpl.
  - by destruct G.
  - split_and!; [apply Hp|lia|lia|lia|lia].
  - intros x [Hx|Hx%list_elem_of_singleton]%elem_of_app.
    + destruct (Hin x Hx) as (r' & ? & ? & ? & ? & ?). exists r'. split_and!; done || lia.
    + subst x. exists r. split_and!; done || lia.
  - intros b Hbr. destruct (decide (b < file_offset t + nbytes t)) as [Hlt|Hge].
    + destruct (Hex b ltac:(lia)) as (x & r' & Hx & Hr' & Hbr'). exists x, r'.
      split_and!; [apply elem_of_app; by left|done|lia..].
    + exists e, r. split_and!; [apply elem_of_app; right; by apply list_elem_of_singleton|done|lia..].
  - right. rewrite length_app. simpl. lia.
Qed.

Lemma group_ok_io t G : group_ok t G -> is_io t = true.
Proof. intros [_ (? & ? & _) _ _ _]. apply is_io_iff. split; [lia|done]. Qed.

Lemma table_inv_extend tmp0 idx0 off0 gs G t e r tmp idx off nb :
  table_inv tmp0 idx0 off0 (gs ++ [G]) -> 0 <= e < n -> e ∉ concat (gs ++ [G]) ->
  aget reads e = Some r -> aget tmp0 (zlen gs) = Some t ->
  group_ok (set_nbytes t nb) (G ++ [e]) ->
  aset tmp0 (zlen gs) (set_nbytes t nb) = Some tmp ->
  aset idx0 e (zlen gs) = Some idx ->
  aset off0 e (file_offset r - file_offset t) = Some off ->
  table_inv tmp idx off (gs ++ [G ++ [e]]).
Proof.
  intros Hinv He Hne Hr Ht Hok Htmp Hidx Hoff. destruct Hinv.
  assert (concat (gs ++ [G ++ [e]]) = concat (gs ++ [G]) ++ [e]) as Hcat.
  { rewrite !concat_app. simpl. by rewrite !app_nil_r, app_assoc. }
  split; rewrite ?Hcat.
  - by rewrite (length_aset _ _ _ _ Htmp).
  - by rewrite (length_aset _ _ _ _ Hidx).
  - by rewrite (length_aset _ _ _ _ Hoff).
  - apply NoDup_app. split_and!; [done| |apply NoDup_singleton].
    intros x Hx ?%list_elem_of_singleton. congruence.
  - intros x [?|Hx%list_elem_of_singleton]%elem_of_app; subst; auto.
  - rewrite !length_app in *. simpl in *. lia.
  - intros x G' [Hx|[-> ->]]%aget_snoc.
    + assert (aget (gs ++ [G]) x = Some G') as Hx' by (apply aget_snoc; by left).
      destruct (ti_groups0 _ _ Hx') as (t' & Ht' & Hok' & Hat). exists t'.
      pose proof (aget_Some_range _ _ _ Hx).
      rewrite (aget_aset_ne _ _ _ _ _ Htmp) by lia. split_and!; [done..|].
      intros e' r' He' Hr'. rewrite (aget_aset_ne _ _ _ _ _ Hidx), (aget_aset_ne _ _ _ _ _ Hoff); [by apply Hat|..].
      all: intros ->; by eapply Hne, elem_of_concat_aget.
    + assert (aget (gs ++ [G]) (zlen gs) = Some G) as Hx' by (apply aget_snoc; by right).
      destruct (ti_groups0 _ _ Hx') as (t' & Ht' & Hok' & Hat). simplify_eq.
      eexists. rewrite (aget_aset_eq _ _ _ _ Htmp). split_and!; [done| |].
      { left. split; [by eapply group_ok_io|done]. }
      intros e' r' [He'|He'%list_elem_of_singleton]%elem_of_app Hr'; simpl.
      * rewrite (aget_aset_ne _ _ _ _ _ Hidx), (aget_aset_ne _ _ _ _ _ Hoff); [by apply Hat|..].
        all: intros ->; by eapply Hne, elem_of_concat_aget.
      * subst e'. simplify_eq. by rewrite (aget_aset_eq _ _ _ _ Hidx), (aget_aset_eq _ _ _ _ Hoff).
  - intros i Hi [Hi1 Hi2]%not_elem_of_app. rewrite (aget_aset_ne _ _ _ _ _ Hidx); [by auto|].
    intros ->. apply Hi2. by apply list_elem_of_singleton.
Qed.

(** What a positive fusing decision says about the last group. *)
Definition may_fuse (st : fuse_state) (groups : list (list Z)) (r : read_op) : Prop :=
  exists gs G t rl, groups = gs ++ [G] /\ leader_old st ∈ G /\
    leader_old st <> UINT32_MAX /\ aget (f_tmp st) (zlen gs) = Some t /\
    aget reads (leader_old st) = Some rl /\ file_offset t = file_offset rl /\
    shard_path t = shard_path rl /\ group_ok t G /\ shard_path r = shard_path t /\
    leader_end st = file_offset t + nbytes t /\ leader_chunks st = zlen G /\
    file_offset t <= file_offset r <= file_offset t + nbytes t /\ zlen G < max_chunks /\
    Z.max (leader_end st) (file_offset r + nbytes r) - file_offset t <= max_bytes /\
    Z.max (leader_end st) (file_offset r + nbytes r) - file_offset t < 2 ^ 32.

Lemma fused_end_max (a b : Z) : (if a <? b then b else a) = Z.max a b.
Proof. destruct (Z.ltb_spec a b); lia. Qed.

Lemma fusable_spec st groups r :
  fuse_inv st groups -> read_fits r ->
  exists f, fusable reads max_bytes max_chunks st r (file_offset r + nbytes r) = Some f /\
    (f = true -> may_fuse st groups r).
Proof.
  intros Hinv (Ho & Hb & Hw). unfold fusable.
  destruct (fi_leader _ _ Hinv)
    as [[-> Hl]|(gs & G & t & rl & Hg & HlG & Hlne & Ht & Hrl & Hfo & Hsp & Hok & Hend & Hch)].
  { rewrite Hl. exists false. by split. }
  rewrite (proj2 (Z.eqb_neq _ _) Hlne), Hrl. simpl.
  destruct (go_path _ _ Hok) as (_ & Hnb & Hto & Htw).
  unfold same_path. case_bool_decide as Hpath; simpl; [|by exists false].
  destruct (Z.leb_spec (file_offset rl) (file_offset r)); simpl; [|by exists false].
  destruct (Z.leb_spec (file_offset r) (leader_end st)); simpl; [|by exists false].
  destruct (Z.ltb_spec (leader_chunks st) max_chunks); simpl; [|by exists false].
  rewrite fused_end_max, u64_id by clia. eexists. split; [done|].
  rewrite andb_true_iff, !Z.leb_le. intros [? ?].
  exists gs, G, t, rl. split_and!; try done; try congruence; clia.
Qed.

Lemma fuse_step_spec st groups e r :
  fuse_inv st groups -> 0 <= e < n -> e ∉ concat groups ->
  aget reads e = Some r -> is_io r = true -> 0 <= max_chunks < 2 ^ 32 ->
  exists st' groups', fuse_step reads max_bytes max_chunks st e = Some st' /\
    fuse_inv st' groups' /\ concat groups' = concat groups ++ [e].
Proof.
  intros Hinv He Hne Hr Hio Hmc. pose proof (Hfit _ _ He Hr) as Hrf.
  pose proof (fi_write _ _ Hinv) as Hwr. pose proof (fi_table _ _ Hinv) as Htab.
  pose proof (table_inv_room _ _ _ _ _ Htab He Hne) as Hlt. pose proof (ti_le _ _ _ _ Htab) as Hle.
  pose proof (ti_tmp _ _ _ _ Htab). pose proof (ti_index _ _ _ _ Htab).
  pose proof (ti_offset _ _ _ _ Htab).
  unfold fuse_step. rewrite Hr. simpl.
  destruct (fusable_spec st groups r Hinv Hrf) as (f & Ef & Hf).
  destruct Hrf as (Ho & Hb & Hw). rewrite (u64_id (_ + _)) by clia. rewrite Ef. simpl. destruct f.
  - destruct (Hf eq_refl) as (gs & G & t & rl & -> & HlG & Hlne & Ht & Hrl & Hfo & Hsp & Hok & Hpath & Hend & Hch & Hoff & Hgc & Hmb & Hm32).
    destruct (ti_groups _ _ _ _ Htab (zlen gs) G) as (t' & Ht' & _ & Hat); [apply aget_snoc; by right|].
    assert (t' = t) as -> by congruence. clear Ht'.
    destruct (Hat _ _ HlG Hrl) as [Hil _]. rewrite Hil. simpl. rewrite Ht. simpl.
    rewrite fused_end_max. pose proof (aget_Some_range _ _ _ Ht) as Htr.
    destruct (go_path _ _ Hok) as (_ & Hnb & Hto & Htw).
    rewrite (u32_id (_ - file_offset t)) by clia. rewrite (u32_id (_ - file_offset t)) by clia.
    rewrite (aset_range (f_tmp st)) by lia. simpl. rewrite (aset_range (f_index st)) by lia. simpl.
    rewrite (aset_range (f_offset st)) by lia. simpl.
    rewrite (u32_id (leader_chunks st + 1)) by clia.
    replace (leader_chunks st + 1) with (zlen (G ++ [e])) by (rewrite length_app; simpl; lia).
    set (fe := Z.max (leader_end st) (file_offset r + nbytes r)) in *.
    assert (group_ok (set_nbytes t (fe - file_offset t)) (G ++ [e])) as Hok'.
    { eapply group_ok_extend; try done. subst fe. by rewrite Hend. }
    eexists _, (gs ++ [G ++ [e]]). split; [done|]. split.
    + split; cbn [f_tmp f_index f_offset f_write leader_old leader_end leader_chunks].
      * eapply table_inv_extend; try done; apply aset_range; lia.
      * rewrite Hwr, !length_app. done.
      * right. exists gs, (G ++ [e]), (set_nbytes t (fe - file_offset t)), rl.
        rewrite (aget_aset_eq (f_tmp st) (zlen gs) (set_nbytes t (fe - file_offset t)))
          by (apply aset_range; lia).
        split_and!; try done; simpl; [apply elem_of_app; by left|lia].
    + rewrite !concat_app. simpl. by rewrite !app_nil_r, app_assoc.
  - rewrite (aset_range (f_tmp st)) by lia. simpl. rewrite (aset_range (f_index st)) by lia. simpl.
    rewrite (aset_range (f_offset st)) by lia. simpl.
    eexists _, (groups ++ [[e]]). split; [done|]. split; [|by rewrite concat_app].
    rewrite <-(u64_id (file_offset r + nbytes r)) by clia.
    eapply fuse_inv_new; try done; apply aset_range; lia.
Qed.

Lemma fuse_loop_spec perm st groups :
  fuse_inv st groups -> 0 <= max_chunks < 2 ^ 32 -> NoDup (concat groups ++ perm) ->
  (forall e, e ∈ perm -> 0 <= e < n /\ exists r, aget reads e = Some r /\ is_io r = true) ->
  exists st' groups', fuse_loop reads max_bytes max_chunks perm st = Some st' /\
    fuse_inv st' groups' /\ concat groups' = concat groups ++ perm.
Proof.
  revert st groups. induction perm as [|e perm IH]; intros st groups Hinv Hmc Hnd Hperm; simpl.
  { exists st, groups. by rewrite app_nil_r. }
  destruct (Hperm e ltac:(set_solver)) as (He & r & Hr & Hio).
  assert (e ∉ concat groups) as Hne.
  { apply NoDup_app in Hnd as (_ & Hd & _). intros Hin. apply (Hd e Hin). set_solver. }
  destruct (fuse_step_spec st groups e r) as (st1 & g1 & -> & Hinv1 & Hcat); [done..|]. simpl.
  destruct (IH st1 g1) as (st2 & g2 & -> & Hinv2 & Hcat2); [done|done| |set_solver|].
  { by rewrite Hcat, <-app_assoc. }
  exists st2, g2. split_and!; [done|done|]. by rewrite Hcat2, Hcat, <-app_assoc.
Qed.
End fuse.

(** ** Interleaving *)

(** The runs as half-open intervals. *)
Fixpoint runs (starts : list Z) (n : Z) : list (Z * Z) :=
  match starts with
  | [] => []
  | s :: rest => (s, match rest with s' :: _ => s' | [] => n end) :: runs rest n
  end.

Lemma run_starts_spec n tmp k :
  0 <= k -> k + Z.of_nat n <= zlen tmp ->
  exists l, run_starts n tmp k = Some l /\ StronglySorted Z.lt l /\
    Forall (fun s => k <= s < k + Z.of_nat n) l /\
    (k = 0 -> n <> O -> exists l', l = 0 :: l').
Proof.
  revert k. induction n as [|n IH]; intros k Hk Hn; simpl.
  { exists []. split_and!; [done|constructor|constructor|done]. }
  destruct (aget_is_Some tmp k ltac:(lia)) as [t Et]. rewrite Et. simpl.
  destruct (IH (k + 1) ltac:(lia) ltac:(lia)) as (l & El & Hs & Hf & _).
  assert (exists b, (if k =? 0 then Some true
     else p ← aget tmp (k - 1); Some (negb (same_path (shard_path t) (shard_path p)))) = Some b /\
     (k = 0 -> b = true)) as (b & -> & Hb).
  { destruct (Z.eqb_spec k 0); [by exists true|].
    destruct (aget_is_Some tmp (k - 1) ltac:(lia)) as [p ->]. simpl. eauto. }
  simpl. rewrite El. simpl. eexists. split; [done|].
  assert (Forall (Z.lt k) l) by (eapply Forall_impl; [exact Hf|]; simpl; lia).
  assert (Forall (fun s => k <= s < k + Z.of_nat (S n)) l)
    by (eapply Forall_impl; [exact Hf|]; simpl; lia).
  split_and!.
  - destruct b; [by constructor|done].
  - destruct b; [constructor; [lia|done]|done].
  - intros -> _. rewrite Hb by done. eauto.
Qed.

Section interleave.
Context (n : Z).

Definition run_ok (se : Z * Z) : Prop := 0 <= se.1 < se.2 /\ se.2 <= n.
Definition before (a b : Z * Z) : Prop := a.2 <= b.1.

Lemma runs_ok starts :
  StronglySorted Z.lt starts -> Forall (fun s => 0 <= s < n) starts ->
  Forall run_ok (runs starts n) /\ StronglySorted before (runs starts n) /\
  (forall k s rest, starts = s :: rest -> s <= k < n -> exists se, se ∈ runs starts n /\ se.1 <= k < se.2).
Proof.
  induction 1 as [|s rest Hs IH Hlt]; intros Hf; simpl; [by repeat constructor|].
  inversion Hf as [|? ? H0 Hf']; subst. destruct (IH Hf') as (Hok & Hso & Hcov). clear IH.
  assert (forall se, se ∈ runs rest n ->
    match rest with [] => n | s' :: _ => s' end <= se.1) as Hmin.
  { destruct rest as [|s' rest']; [intros ? ?%elem_of_nil; done|].
    intros se [->|Hse]%elem_of_cons; simpl; [lia|].
    inversion Hso as [|? ? _ Hb]; subst. rewrite Forall_forall in Hb. specialize (Hb se Hse).
    unfold before in Hb. inversion Hok as [|? ? [? ?] _]; subst. simpl in *. lia. }
  split_and!.
  - constructor; [|done]. split; simpl.
    + destruct rest as [|s' ?]; [lia|]. inversion Hlt; subst. lia.
    + destruct rest as [|s' ?]; [lia|]. inversion Hf'; subst. lia.
  - constructor; [done|]. apply Forall_forall. intros se Hse. by apply Hmin.
  - intros k s0 rest0 [= <- <-] Hk.
    destruct (decide (k < match rest with [] => n | s' :: _ => s' end)).
    + eexists. split; [apply elem_of_cons; left; reflexivity|]. simpl. lia.
    + destruct rest as [|s' rest']; [lia|].
      destruct (Hcov k s' rest' eq_refl ltac:(lia)) as (se & Hse & ?).
      exists se. split; [apply elem_of_cons; by right|done].
Qed.

Lemma StronglySorted_before_disjoint rs a b :
  StronglySorted before rs -> a ∈ rs -> b ∈ rs -> a <> b -> before a b \/ before b a.
Proof.
  induction 1 as [|x rs _ IH Hx]; [by intros ?%elem_of_nil|].
  rewrite Forall_forall in Hx. rewrite !elem_of_cons. intros [->|?] [->|?] ?; by auto.
Qed.

(** [pos] gives the [v]-th handed-out index the slot [v]. *)
Record slots (A pos : list Z) : Prop := {
  sl_nodup : NoDup A;
  sl_pos : forall v k, aget A v = Some k -> 0 <= k < zlen pos /\ aget pos k = Some v }.

Lemma slots_snoc A pos k pos' :
  slots A pos -> k ∉ A -> aset pos k (zlen A) = Some pos' -> slots (A ++ [k]) pos'.
Proof.
  intros [Hnd Hp] Hk Hs. pose proof (aset_Some _ _ _ _ Hs) as [Hr _]. split.
  - apply NoDup_app. split_and!; [done| |apply NoDup_singleton].
    intros x Hx ->%list_elem_of_singleton. done.
  - intros v k' [Hv|[-> ->]]%aget_snoc; rewrite (length_aset _ _ _ _ Hs).
    + destruct (Hp v k' Hv). split; [done|]. rewrite (aget_aset_ne _ _ _ _ _ Hs); [done|].
      intros ->. apply Hk, elem_of_aget. eauto.
    + by rewrite (aget_aset_eq _ _ _ _ Hs).
Qed.

(** The indices handed out once round [R] has passed a run. *)
Definition in_rounds (R : Z) (rs : list (Z * Z)) (k : Z) : Prop :=
  exists se, se ∈ rs /\ se.1 <= k < Z.min se.2 (se.1 + R).

Lemma in_rounds_app R rs1 rs2 k :
  in_rounds R (rs1 ++ rs2) k <-> in_rounds R rs1 k \/ in_rounds R rs2 k.
Proof. unfold in_rounds. setoid_rewrite elem_of_app. naive_solver. Qed.

Lemma in_rounds_cons R s e rs k :
  in_rounds R ((s, e) :: rs) k <-> s <= k < Z.min e (s + R) \/ in_rounds R rs k.
Proof.
  unfold in_rounds. setoid_rewrite elem_of_cons. split.
  - intros (se & [->|?] & ?); [by left|right; eauto].
  - intros [?|(se & ? & ?)]; [exists (s, e); auto|exists se; auto].
Qed.

Lemma interleave_round_spec rest dn R A pos :
  Forall run_ok (dn ++ runs rest n) -> StronglySorted before (dn ++ runs rest n) ->
  n <= zlen pos -> n <= 2 ^ 31 -> 0 <= R < n -> slots A pos ->
  zlen A <= n -> (forall k, k ∈ A -> 0 <= k < n) ->
  (forall k, k ∈ A <-> in_rounds (R + 1) dn k \/ in_rounds R (runs rest n) k) ->
  exists pos' B, interleave_round rest n R pos (zlen A) = Some (pos', zlen (A ++ B)) /\
    length pos' = length pos /\ slots (A ++ B) pos' /\
    (forall k, k ∈ A ++ B <-> in_rounds (R + 1) (dn ++ runs rest n) k).
Proof.
  revert dn A pos. induction rest as [|s rest IH]; intros dn A pos Hok Hso Hpos Hn HR Hsl HAn HAr HA; simpl.
  { exists pos, []. rewrite !app_nil_r. split_and!; [done..|]. intros k. rewrite HA.
    split; [intros [?|(?&?%elem_of_nil&_)]; done|by left]. }
  set (e := match rest with [] => n | s' :: _ => s' end) in *.
  assert (run_ok (s, e)) as [Hse Hen].
  { rewrite Forall_forall in Hok. apply Hok. set_solver. }
  simpl in Hse, Hen. rewrite u32_id by clia.
  assert (dn ++ runs (s :: rest) n = (dn ++ [(s, e)]) ++ runs rest n) as Hre
    by (rewrite <-app_assoc; done).
  rewrite Hre in Hok, Hso. simpl runs in Hre. fold e in Hre. rewrite Hre.
  assert (forall k, s <= k < e -> ~ in_rounds (R + 1) dn k /\ ~ in_rounds R (runs rest n) k) as Hdis.
  { rewrite Forall_forall in Hok. intros k Hk. split.
    - intros (se & Hin & Hr). rewrite <-app_assoc in Hso.
      pose proof (StronglySorted_app_1_elem_of before dn ([(s, e)] ++ runs rest n) se (s, e)
        Hso Hin ltac:(set_solver)) as Hb. unfold before in Hb. simpl in Hb. lia.
    - intros (se & Hin & Hr).
      pose proof (StronglySorted_app_1_elem_of before (dn ++ [(s, e)]) (runs rest n) (s, e) se
        Hso ltac:(set_solver) Hin) as Hb. unfold before in Hb. simpl in Hb. lia. }
  assert (forall k, k ∈ A <-> in_rounds (R + 1) dn k \/ s <= k < Z.min e (s + R) \/ in_rounds R (runs rest n) k) as HA'.
  { intros k. rewrite HA. simpl runs. fold e. rewrite in_rounds_cons. tauto. }
  destruct (Z.ltb_spec (s + R) e) as [Hlt|Hge].
  - assert (s + R ∉ A) as Hnew.
    { rewrite HA'. specialize (Hdis (s + R) ltac:(lia)). intros [?|[?|?]]; [tauto|lia|tauto]. }
    rewrite aset_range by lia. simpl.
    assert (zlen A < n) as HAlt.
    { pose proof (nodup_bound n (s + R :: A)) as Hb. simpl in Hb.
      assert (NoDup (s + R :: A)) as Hnd by (constructor; [done|apply Hsl]).
      specialize (Hb ltac:(lia) Hnd). rewrite Nat2Z.inj_succ in Hb.
      enough (Z.succ (zlen A) <= n) by lia. apply Hb. intros x [->|Hx]%elem_of_cons; [lia|auto]. }
    rewrite u32_id by clia.
    destruct (IH (dn ++ [(s, e)]) (A ++ [s + R]) (<[Z.to_nat (s + R) := zlen A]> pos))
      as (pos' & B & HI & Hl & Hsl' & HB); try done.
    + by rewrite length_insert.
    + eapply slots_snoc; [done|done|]. apply aset_range. lia.
    + rewrite length_app. simpl. lia.
    + intros k [?|Hk%list_elem_of_singleton]%elem_of_app; [auto|lia].
    + intros k. rewrite elem_of_app, list_elem_of_singleton, HA', in_rounds_app, in_rounds_cons.
      split.
      * intros [[?|[?|?]]| ->]; [auto|left; right; left; lia|auto|left; right; left; lia].
      * intros [[?|[?|(?&?%elem_of_nil&_)]]|?]; [auto| |done|auto].
        destruct (decide (k = s + R)); [by right|left; right; left; lia].
    + replace (zlen A + 1) with (zlen (A ++ [s + R])) by (rewrite length_app; simpl; lia).
      rewrite HI. exists pos', ([s + R] ++ B). rewrite app_assoc. rewrite length_insert in Hl.
      split_and!; [done..|]. by setoid_rewrite HB.
  - destruct (IH (dn ++ [(s, e)]) A pos) as (pos' & B & HI & Hl & Hsl' & HB); try done.
    { intros k. rewrite HA', in_rounds_app, in_rounds_cons. split.
      - intros [?|[?|?]]; [auto|left; right; left; lia|auto].
      - intros [[?|[?|(?&?%elem_of_nil&_)]]|?]; [auto|right; left; lia|done|auto]. }
    exists pos', B. rewrite HI. split_and!; [done..|]. by setoid_rewrite HB.
Qed.

(** A round hands out at least one slot while one is left. *)
Lemma interleave_spec fuel starts R A pos :
  Forall run_ok (runs starts n) -> StronglySorted before (runs starts n) ->
  (forall k, 0 <= k < n -> exists se, se ∈ runs starts n /\ se.1 <= k < se.2) ->
  n <= zlen pos -> 0 <= n <= 2 ^ 31 -> 0 <= R <= zlen A -> slots A pos ->
  (forall k, k ∈ A <-> in_rounds R (runs starts n) k) ->
  n <= zlen A + Z.of_nat fuel ->
  exists pos' A', interleave fuel starts n R pos (zlen A) = Some pos' /\
    length pos' = length pos /\ slots A' pos' /\ zlen A' = n /\ (forall k, k ∈ A' -> 0 <= k < n).
Proof.
  revert R A pos. induction fuel as [|fuel IH]; intros R A pos Hok Hso Hcov Hpos Hn HR Hsl HA Hfuel; simpl.
  all: assert (forall k, k ∈ A -> 0 <= k < n) as HAr
    by (intros k (se & Hse & Hk)%HA; rewrite Forall_forall in Hok; destruct (Hok se Hse); lia).
  all: assert (zlen A <= n) as HAn by (apply nodup_bound; [lia|apply Hsl|done]).
  { rewrite (proj2 (Z.ltb_ge _ _)) by lia. exists pos, A. split_and!; done || lia. }
  destruct (Z.ltb_spec (zlen A) n) as [Hlt|]; [|exists pos, A; split_and!; done || lia].
  destruct (interleave_round_spec starts [] R A pos) as (pos1 & B & -> & Hl & Hsl1 & HB);
    [done|done|done|lia|lia|done|lia|done| |].
  { intros k. rewrite HA. split; [by right|]. intros [(?&?%elem_of_nil&_)|?]; done. }
  simpl in HB. simpl.
  assert (zlen A < zlen (A ++ B)) as Hprog.
  { assert (exists k, 0 <= k < n /\ k ∉ A) as (k & Hk & HkA).
    { destruct (decide (Forall (fun k => k ∈ A) (seqZ 0 n))) as [Hall|Hex].
      - exfalso. assert (seqZ 0 n ⊆+ A) as Hsub.
        { apply NoDup_submseteq; [apply NoDup_seqZ|]. intros x Hx.
          rewrite Forall_forall in Hall. auto. }
        apply submseteq_length in Hsub. rewrite length_seqZ in Hsub. lia.
      - apply not_Forall_Exists in Hex; [|apply _]. apply Exists_exists in Hex as (k & Hk & ?).
        exists k. split; [|done]. apply elem_of_seqZ in Hk. lia. }
    destruct (Hcov k Hk) as (se & Hse & Hsk).
    assert (se.1 + R ∈ A ++ B) as Hin.
    { apply HB. exists se. split; [done|]. destruct (decide (k < se.1 + R)); [|lia].
      exfalso. apply HkA, HA. exists se. split; [done|lia]. }
    assert (se.1 + R ∉ A) as Hout.
    { intros Hin'. apply HkA, HA. apply HA in Hin' as (se' & Hse' & Hr').
      exists se. split; [done|]. rewrite Forall_forall in Hok.
      pose proof (Hok se Hse) as [? ?]. pose proof (Hok se' Hse') as [? ?].
      destruct (decide (se = se')) as [->|Hne]; [lia|].
      destruct (StronglySorted_before_disjoint (runs starts n) se se'); try done;
        unfold before in *; destruct (decide (k < se.1 + R)); lia. }
    rewrite length_app. destruct B; [by rewrite app_nil_r in Hin|simpl; lia]. }
  destruct (IH (R + 1) (A ++ B) pos1) as (pos2 & A2 & HI & Hl2 & H2 & H3 & H4); try done;
    [lia|lia|rewrite length_app in *; lia|].
  rewrite u32_id by clia. rewrite HI. exists pos2, A2. split_and!; try done; congruence.
Qed.
End interleave.

(** ** Placeholders, scatter and relabelling *)

Section finish.
Context (reads : list read_op) (n max_bytes max_chunks : Z).
Hypothesis Hn : 0 <= n <= 2 ^ 31 /\ n <= zlen reads.

Notation table := (table_inv reads n max_bytes max_chunks).

Record placed (A pos : list Z) (groups : list (list Z)) : Prop := {
  pl_slots : slots A pos;
  pl_len : zlen A = zlen groups;
  pl_range : forall k, k ∈ A -> 0 <= k < zlen groups }.

Lemma placed_snoc A pos groups G pos' :
  placed A pos groups -> aset pos (zlen groups) (zlen groups) = Some pos' ->
  placed (A ++ [zlen groups]) pos' (groups ++ [G]).
Proof.
  intros [Hsl Hl Hr] Hs. split.
  - eapply slots_snoc; [done| |by rewrite Hl]. intros ?%Hr. lia.
  - rewrite !length_app. simpl. lia.
  - intros k. rewrite elem_of_app, list_elem_of_singleton, length_app. simpl.
    intros [?%Hr| ->]; lia.
Qed.

Lemma append_fills_spec m i st groups A pos :
  table (f_tmp st) (f_index st) (f_offset st) groups -> f_write st = zlen groups ->
  0 <= i -> i + Z.of_nat m = n -> n <= zlen pos -> placed A pos groups ->
  (forall j r, 0 <= j < n -> aget reads j = Some r -> j ∉ concat groups -> is_io r = false) ->
  (forall j, 0 <= j < i -> j ∈ concat groups) ->
  exists st' pos' groups' A', append_fills m reads i st pos = Some (st', pos') /\
    table (f_tmp st') (f_index st') (f_offset st') groups' /\ f_write st' = zlen groups' /\
    placed A' pos' groups' /\ (forall j, 0 <= j < n -> j ∈ concat groups').
Proof.
  revert i st groups A pos. induction m as [|m IH]; intros i st groups A pos Htab Hwr Hi Him Hpos Hpl Hfill Hdone; simpl.
  { exists st, pos, groups, A. split_and!; try done. intros j Hj. apply Hdone. lia. }
  pose proof (ti_index _ _ _ _ _ _ _ _ Htab). pose proof (ti_tmp _ _ _ _ _ _ _ _ Htab).
  pose proof (ti_offset _ _ _ _ _ _ _ _ Htab). pose proof (ti_le _ _ _ _ _ _ _ _ Htab).
  destruct (aget_is_Some (f_index st) i ltac:(lia)) as [x Ex]. rewrite Ex. simpl.
  destruct (decide (i ∈ concat groups)) as [Hin|Hout].
  - assert (x <> UINT32_MAX) as Hx.
    { apply elem_of_concat in Hin as (G & HG & HiG). apply elem_of_aget in HG as [y HG].
      destruct (ti_groups _ _ _ _ _ _ _ _ Htab y G HG) as (t & _ & _ & Hat).
      destruct (aget_is_Some reads i ltac:(lia)) as [r Hr]. destruct (Hat _ _ HiG Hr).
      apply aget_Some_range in HG.
      assert (zlen (concat groups) <= n) by (apply nodup_bound; [lia|apply Htab..]).
      assert (x = y) as -> by congruence. clia. }
    rewrite (proj2 (Z.eqb_neq _ _) Hx). simpl.
    eapply IH; try done; [lia|lia|]. intros j Hj. destruct (decide (j = i)) as [->|]; [done|apply Hdone; lia].
  - pose proof (ti_rest _ _ _ _ _ _ _ _ Htab i ltac:(lia) Hout) as Hx.
    assert (x = UINT32_MAX) as -> by congruence. simpl.
    destruct (aget_is_Some reads i ltac:(lia)) as [r Hr]. rewrite Hr. simpl.
    assert (zlen (concat groups) < n) by (eapply (table_inv_room reads n max_bytes max_chunks); [split; clia|done| |done]; lia).
    rewrite Hwr. rewrite !aset_range by lia. simpl. rewrite u32_id by clia.
    edestruct (IH (i + 1) (Fuse (<[Z.to_nat (zlen groups):=r]> (f_tmp st))
       (<[Z.to_nat i:=zlen groups]> (f_index st)) (<[Z.to_nat i:=0]> (f_offset st)) (zlen groups + 1)
       (leader_old st) (leader_end st) (leader_chunks st)) (groups ++ [[i]]) (A ++ [zlen groups])
       (<[Z.to_nat (zlen groups):=zlen groups]> pos)) as (st' & pos' & g' & A' & HI & HI'); last by eauto 10.
    + eapply table_inv_new; try done; [lia| |apply aset_range; lia..].
      right. split; [|by eauto]. eapply Hfill; [|done|done]. lia.
    + simpl. rewrite length_app. simpl. lia.
    + lia.
    + lia.
    + by rewrite length_insert.
    + eapply placed_snoc; [done|]. apply aset_range. lia.
    + rewrite concat_app. simpl. intros j r' Hj Hr' [??]%not_elem_of_app. eauto.
    + rewrite concat_app. simpl. intros j Hj. apply elem_of_app.
      destruct (decide (j = i)) as [->|]; [right; set_solver|left; apply Hdone; lia].
Qed.
End finish.

Lemma scatter_spec m tmp pos k reads :
  0 <= k -> k + Z.of_nat m <= zlen tmp ->
  (forall j, k <= j < k + Z.of_nat m -> exists p, aget pos j = Some p /\ 0 <= p < zlen reads) ->
  (forall i j p, k <= i < k + Z.of_nat m -> k <= j < k + Z.of_nat m ->
     aget pos i = Some p -> aget pos j = Some p -> i = j) ->
  exists reads', scatter m tmp pos k reads = Some reads' /\ length reads' = length reads /\
    (forall j p, k <= j < k + Z.of_nat m -> aget pos j = Some p -> aget reads' p = aget tmp j) /\
    (forall q, (forall j, k <= j < k + Z.of_nat m -> aget pos j <> Some q) -> aget reads' q = aget reads q).
Proof.
  revert k reads. induction m as [|m IH]; intros k reads Hk Hm Hp Hinj; simpl.
  { exists reads. split_and!; [done..|intros; lia|done]. }
  destruct (aget_is_Some tmp k ltac:(lia)) as [t Et]. rewrite Et. simpl.
  destruct (Hp k ltac:(lia)) as (p & Ep & Hpr). rewrite Ep. simpl.
  rewrite aset_range by lia. simpl.
  destruct (IH (k + 1) (<[Z.to_nat p:=t]> reads)) as (reads' & -> & Hl & H1 & H2); [lia|lia|..].
  { rewrite length_insert. intros j Hj. apply Hp. lia. }
  { intros i j q Hi Hj. apply Hinj; lia. }
  rewrite length_insert in Hl. exists reads'. split_and!; [done|done|..].
  - intros j q Hj Hq. destruct (decide (j = k)) as [->|].
    + assert (q = p) as -> by congruence. rewrite H2.
      * rewrite (aget_aset_eq reads p t), Et; [done|]. apply aset_range. lia.
      * intros j Hj' Hjp. assert (j = k) by (apply (Hinj j k p); [lia|lia|done..]). lia.
    + apply H1; [lia|done].
  - intros q Hq. rewrite H2 by (intros j Hj; apply Hq; lia).
    apply (aget_aset_ne _ p t); [apply aset_range; lia|]. intros ->. by apply (Hq k ltac:(lia)).
Qed.

Lemma relabel_spec m pos i idx :
  0 <= i -> i + Z.of_nat m <= zlen idx ->
  (forall j, i <= j < i + Z.of_nat m -> exists x p, aget idx j = Some x /\ aget pos x = Some p) ->
  exists idx', relabel m pos i idx = Some idx' /\ length idx' = length idx /\
    (forall j x, i <= j < i + Z.of_nat m -> aget idx j = Some x -> aget idx' j = aget pos x) /\
    (forall j, j < i \/ i + Z.of_nat m <= j -> aget idx' j = aget idx j).
Proof.
  revert i idx. induction m as [|m IH]; intros i idx Hi Hm Hp; simpl.
  { exists idx. split_and!; [done..|intros; lia|done]. }
  destruct (Hp i ltac:(lia)) as (x & p & Ex & Ep). rewrite Ex. simpl. rewrite Ep. simpl.
  assert (aset idx i p = Some (<[Z.to_nat i:=p]> idx)) as Hs by (apply aset_range; lia).
  rewrite Hs. simpl.
  destruct (IH (i + 1) (<[Z.to_nat i:=p]> idx)) as (idx' & -> & Hl & H1 & H2);
    [lia|rewrite length_insert; lia| |].
  { intros j Hj. destruct (Hp j ltac:(lia)) as (y & q & ? & ?). exists y, q.
    rewrite (aget_aset_ne _ _ _ _ _ Hs) by lia. done. }
  rewrite length_insert in Hl. exists idx'. split_and!; [done|done|..].
  - intros j y Hj Hy. destruct (decide (j = i)) as [->|].
    + rewrite H2, (aget_aset_eq _ _ _ _ Hs) by lia. congruence.
    + apply H1; [lia|]. by rewrite (aget_aset_ne _ _ _ _ _ Hs) by lia.
  - intros j Hj. rewrite H2 by lia. apply (aget_aset_ne _ _ _ _ _ Hs). lia.
Qed.

(** ** The whole routine *)

(** Where the original window [r] ended up. *)
Definition located (c : coalesce_result) (i : Z) (r : read_op) : Prop :=
  exists x o t, aget (c_index c) i = Some x /\ 0 <= x < c_n c /\
    aget (c_offset c) i = Some o /\ aget (c_reads c) x = Some t /\
    (if is_io r then
       shard_path t = shard_path r /\ file_offset t + o = file_offset r /\
       0 <= o /\ o + nbytes r <= nbytes t /\ nbytes t < 2 ^ 32
     else t = r /\ o = 0).

(** What the merged read at slot [x] stands for. *)
Definition justified (reads : list read_op) (n max_bytes max_chunks : Z) (c : coalesce_result)
    (x : Z) (t : read_op) : Prop :=
  exists G, G <> [] /\ NoDup G /\
    (forall i, i ∈ G <-> 0 <= i < n /\ aget (c_index c) i = Some x) /\
    (zlen G = 1 \/ nbytes t <= max_bytes /\ zlen G <= max_chunks) /\
    (if is_io t then
       forall b, file_offset t <= b < file_offset t + nbytes t ->
       exists i r, i ∈ G /\ aget reads i = Some r /\ file_offset r <= b < file_offset r + nbytes r
     else zlen G = 1).

Record coalesced (reads : list read_op) (n max_bytes max_chunks : Z) (c : coalesce_result) : Prop := {
  co_count : 0 < c_n c <= n;
  co_len : length (c_reads c) = length reads;
  co_located : forall i r, 0 <= i < n -> aget reads i = Some r -> located c i r;
  co_justified : forall x t, 0 <= x < c_n c -> aget (c_reads c) x = Some t ->
    justified reads n max_bytes max_chunks c x t }.

(** A full placement is a bijection between groups and slots. *)
Lemma placed_bij A pos groups :
  placed A pos groups ->
  (forall x, 0 <= x < zlen groups -> exists p, aget pos x = Some p /\ 0 <= p < zlen groups) /\
  (forall x y p, 0 <= x < zlen groups -> 0 <= y < zlen groups ->
     aget pos x = Some p -> aget pos y = Some p -> x = y) /\
  (forall p, 0 <= p < zlen groups -> exists x, 0 <= x < zlen groups /\ aget pos x = Some p).
Proof.
  intros [[Hnd Hp] Hl Hr].
  assert (forall x, 0 <= x < zlen groups -> exists v, aget A v = Some x /\ 0 <= v < zlen groups) as Hsur.
  { assert (A ≡ₚ seqZ 0 (zlen groups)) as Hperm.
    { apply submseteq_length_Permutation; [|rewrite length_seqZ; lia].
      apply NoDup_submseteq; [done|]. intros x Hx. apply elem_of_seqZ. specialize (Hr x Hx). lia. }
    intros x Hx. assert (x ∈ A) as HxA by (rewrite Hperm; apply elem_of_seqZ; lia).
    apply elem_of_aget in HxA as [v Hv]. exists v. split; [done|].
    apply aget_Some_range in Hv. lia. }
  split_and!.
  - intros x Hx. destruct (Hsur x Hx) as (v & Hv & ?). exists v. split; [by apply Hp|done].
  - intros x y p Hx Hy Hxp Hyp. destruct (Hsur x Hx) as (v & Hv & _), (Hsur y Hy) as (w & Hw & _).
    destruct (Hp _ _ Hv) as [_ ?], (Hp _ _ Hw) as [_ ?]. assert (v = w) by congruence. congruence.
  - intros p Hpr. destruct (aget_is_Some A p ltac:(lia)) as [x Hx]. exists x.
    destruct (Hp _ _ Hx). split; [|done]. apply Hr, elem_of_aget. eauto.
Qed.

Lemma table_coalesced reads n max_bytes max_chunks tmp idx0 off groups A pos reads' idx :
  0 < n -> n <= zlen reads ->
  table_inv reads n max_bytes max_chunks tmp idx0 off groups -> placed A pos groups ->
  (forall j, 0 <= j < n -> j ∈ concat groups) -> length reads' = length reads ->
  (forall j p, 0 <= j < zlen groups -> aget pos j = Some p -> aget reads' p = aget tmp j) ->
  (forall j x, 0 <= j < n -> aget idx0 j = Some x -> aget idx j = aget pos x) ->
  coalesced reads n max_bytes max_chunks (Coalesced reads' (zlen groups) idx off).
Proof.
  intros Hn Hlen Htab Hpl Hall Hl Hsc Hrl. destruct (placed_bij _ _ _ Hpl) as (Htot & Hinj & Hsur).
  assert (forall i x G r, aget groups x = Some G -> i ∈ G -> aget reads i = Some r ->
    exists p t, aget pos x = Some p /\ 0 <= p < zlen groups /\ aget idx i = Some p /\
      aget reads' p = Some t /\ aget tmp x = Some t /\ slot_ok reads max_bytes max_chunks t G /\
      aget off i = Some (file_offset r - file_offset t)) as Hloc.
  { intros i x G r HG HiG Hr. destruct (ti_groups _ _ _ _ _ _ _ _ Htab x G HG) as (t & Ht & Hok & Hat).
    destruct (Hat _ _ HiG Hr) as [Hi Ho]. pose proof (aget_Some_range _ _ _ HG) as Hx.
    destruct (Htot x Hx) as (p & Hp & Hpr). exists p, t.
    assert (0 <= i < n) by (eapply (ti_range _ _ _ _ _ _ _ _ Htab), elem_of_concat_aget; done).
    split_and!; try done; try lia; [by rewrite (Hrl i x)|by rewrite (Hsc x p)]. }
  split; simpl.
  - split.
    + destruct groups; [|simpl; lia]. specialize (Hall 0 ltac:(lia)). by apply elem_of_nil in Hall.
    + etrans; [apply (ti_le _ _ _ _ _ _ _ _ Htab)|].
      apply nodup_bound; [lia|apply (ti_nodup _ _ _ _ _ _ _ _ Htab)|apply (ti_range _ _ _ _ _ _ _ _ Htab)].
  - done.
  - intros i r Hi Hr. pose proof (Hall i Hi) as Hin. apply elem_of_concat in Hin as (G & HG & HiG).
    apply elem_of_aget in HG as [x HG].
    destruct (Hloc i x G r HG HiG Hr) as (p & t & Hp & Hpr & Hidx & Hrp & Htx & Hok & Hoff).
    exists p, (file_offset r - file_offset t), t. simpl. split_and!; try done; try lia.
    destruct Hok as [[Hio Hg]|[Hio (j & -> & Hj)]].
    + destruct (go_in _ _ _ _ _ Hg i HiG) as (r' & Hr' & Hior & Hpa & Hlo & Hhi).
      assert (r' = r) as -> by congruence.
      destruct (go_path _ _ _ _ _ Hg) as (_ & ? & _).
      rewrite Hior. split_and!; done || lia.
    + apply list_elem_of_singleton in HiG as ->. assert (t = r) as -> by congruence.
      rewrite Hio. split; [done|lia].
  - intros p t Hp Ht. destruct (Hsur p Hp) as (x & Hx & Hpx).
    destruct (aget_is_Some groups x ltac:(lia)) as [G HG].
    destruct (ti_groups _ _ _ _ _ _ _ _ Htab x G HG) as (t' & Ht' & Hok & Hat).
    assert (t' = t) as -> by (rewrite <-(Hsc x p) in Ht' by done; congruence).
    exists G. simpl. assert (NoDup G) as HndG.
    { by eapply NoDup_concat_aget; [apply (ti_nodup _ _ _ _ _ _ _ _ Htab)|]. }
    split_and!; [by destruct Hok as [[_ []]|(_ & ? & -> & _)]|done| | |].
    + intros i. split.
      * intros HiG. assert (0 <= i < n) as Hi by (eapply (ti_range _ _ _ _ _ _ _ _ Htab), elem_of_concat_aget; done).
        destruct (aget_is_Some reads i ltac:(lia)) as [r Hr].
        destruct (Hloc i x G r HG HiG Hr) as (p' & ? & ? & ? & ? & _). split; [lia|congruence].
      * intros [Hi Hip]. pose proof (Hall i Hi) as Hin. apply elem_of_concat in Hin as (G' & HG' & HiG').
        apply elem_of_aget in HG' as [y HG']. destruct (aget_is_Some reads i ltac:(lia)) as [r Hr].
        destruct (Hloc i y G' r HG' HiG' Hr) as (p' & ? & ? & ? & ? & _).
        assert (y = x) as -> by (apply (Hinj y x p); [by eapply aget_Some_range|lia|congruence|done]).
        congruence.
    + destruct Hok as [[_ Hg]|(_ & ? & -> & _)]; [apply Hg|by left].
    + destruct Hok as [[-> Hg]|(-> & ? & -> & _)]; [apply Hg|done].
Qed.

(** The state before the fuse loop. *)
Lemma table_inv_nil reads n max_bytes max_chunks tmp idx off :
  n <= zlen tmp -> n <= zlen idx -> n <= zlen off ->
  (forall i, 0 <= i < n -> aget idx i = Some UINT32_MAX) ->
  table_inv reads n max_bytes max_chunks tmp idx off [].
Proof.
  intros. split; simpl; try done; [apply NoDup_nil_2|set_solver|intros ? ? H'; apply aget_Some_range in H'; simpl in H'; lia|by auto].
Qed.

Lemma coalesce_reads_spec reads n max_bytes max_chunks s :
  0 < n <= 2 ^ 31 -> n <= zlen reads -> 0 <= max_chunks < 2 ^ 32 ->
  n <= zlen (cs_index s) -> n <= zlen (cs_offset s) -> n <= zlen (cs_pos s) -> n <= zlen (cs_tmp s) ->
  (forall i r, 0 <= i < n -> aget reads i = Some r -> read_fits r) ->
  exists c, coalesce_reads (Some reads) n max_bytes max_chunks (Some s) = Some (inr c) /\
    coalesced reads n max_bytes max_chunks c.
Proof.
  intros Hn Hlen Hmc Hidx Hoff Hpos Htmp Hfit. unfold coalesce_reads.
  rewrite (proj2 (Z.eqb_neq n 0)) by lia.
  destruct (array_fill_spec (Z.to_nat n) (cs_index s) 0 UINT32_MAX) as (idx & -> & Hil & Hiv); [lia|lia|]. simpl.
  destruct (collect_io_spec (Z.to_nat n) reads 0) as (io & -> & Hnd & Hio); [lia|lia|]. simpl.
  assert (forall e, e ∈ io -> 0 <= e < n /\ exists r, aget reads e = Some r /\ is_io r = true) as Hio'.
  { intros e [? ?]%Hio. split; [lia|done]. }
  assert (all_valid reads io) as Hv.
  { intros k x Hx. destruct (Hio' x) as (_ & r & Hr & [_ [p Hp]]%is_io_iff); [apply elem_of_aget; eauto|].
    by exists r, p. }
  assert (zlen io <= n) as Hiol by (apply nodup_bound; [lia|done|]; intros e He; by apply Hio').
  destruct (read_op_perm_sort_spec reads io Hv) as (perm & -> & Hperm & _); [clia|]. simpl.
  destruct (fuse_loop_spec reads n max_bytes max_chunks ltac:(split; clia) Hfit perm
    (Fuse (cs_tmp s) idx (cs_offset s) 0 UINT32_MAX 0 0) []) as (st & groups & -> & Hinv & Hcat).
  { split; [|done|by left]. apply table_inv_nil; simpl; [done|lia|done|].
    intros i Hi. rewrite Hiv, decide_True by lia. done. }
  { done. }
  { simpl. by rewrite Hperm. }
  { intros e He. apply Hio'. by rewrite <-Hperm. }
  simpl in *. destruct Hinv as [Htab Hwr _].
  assert (zlen groups <= n) as Hgn.
  { etrans; [apply (ti_le _ _ _ _ _ _ _ _ Htab)|].
    apply nodup_bound; [lia|apply (ti_nodup _ _ _ _ _ _ _ _ Htab)|apply (ti_range _ _ _ _ _ _ _ _ Htab)]. }
  pose proof (ti_tmp _ _ _ _ _ _ _ _ Htab) as Htl.
  destruct (run_starts_spec (Z.to_nat (f_write st)) (f_tmp st) 0) as (starts & -> & Hss & Hsf & Hs0); [lia|lia|].
  simpl. rewrite Hwr in *.
  destruct (runs_ok (zlen groups) starts Hss) as (Hrok & Hrso & Hcov).
  { eapply Forall_impl; [exact Hsf|]. simpl. lia. }
  destruct (interleave_spec (zlen groups) (Z.to_nat (zlen groups)) starts 0 [] (cs_pos s))
    as (pos & A & HI & Hpl & Hsl & HA & HAr); try done; simpl; try lia.
  { intros k Hk. destruct Hs0 as [l' ->]; [done|lia|]. by eapply Hcov. }
  { split; [apply NoDup_nil_2|intros ? ? H'; apply aget_Some_range in H'; simpl in H'; lia]. }
  { intros k. split; [by intros ?%elem_of_nil|]. intros (se & _ & ?). lia. }
  change (zlen []) with 0 in HI. rewrite HI. simpl.
  destruct (append_fills_spec reads n max_bytes max_chunks ltac:(split; lia) (Z.to_nat n) 0 st groups A pos)
    as (st' & pos' & groups' & A' & -> & Htab' & Hwr' & Hpl' & Hall); try done; try lia.
  { intros j r Hj Hr Hnin. apply not_true_iff_false. intros Hr'. apply Hnin. rewrite Hcat, Hperm.
    apply Hio. split; [lia|eauto]. }
  simpl. rewrite Hwr'. destruct (placed_bij _ _ _ Hpl') as (Htot & Hinj & _).
  assert (zlen groups' <= n) as Hgn'.
  { etrans; [apply (ti_le _ _ _ _ _ _ _ _ Htab')|].
    apply nodup_bound; [lia|apply (ti_nodup _ _ _ _ _ _ _ _ Htab')|apply (ti_range _ _ _ _ _ _ _ _ Htab')]. }
  pose proof (ti_tmp _ _ _ _ _ _ _ _ Htab'). pose proof (ti_index _ _ _ _ _ _ _ _ Htab').
  destruct (scatter_spec (Z.to_nat (zlen groups')) (f_tmp st') pos' 0 reads)
    as (reads' & -> & Hrl & Hsc & _); [lia|lia|..].
  { intros j Hj. destruct (Htot j ltac:(lia)) as (p & ? & ?). exists p. split; [done|lia]. }
  { intros i j p Hi Hj. apply Hinj; lia. }
  simpl. destruct (relabel_spec (Z.to_nat n) pos' 0 (f_index st')) as (idx' & -> & _ & Hre & _); [lia|lia|..].
  { intros j Hj. specialize (Hall j ltac:(lia)) as (G & HG & HjG)%elem_of_concat.
    apply elem_of_aget in HG as [x HG]. destruct (aget_is_Some reads j ltac:(lia)) as [r Hr].
    destruct (ti_groups _ _ _ _ _ _ _ _ Htab' x G HG) as (t & _ & _ & Hat).
    destruct (Hat _ _ HjG Hr). destruct (Htot x) as (p & ? & _); [by eapply aget_Some_range|]. eauto. }
  simpl. eexists. split; [done|].
  eapply table_coalesced; try done; try lia; intros; [eapply Hsc|eapply Hre]; done || lia.
Qed.
