(* ===== verification/CoalesceChunks.v ===== *)
(** * Coalescing keeps every chunk addressable

    Correctness of [coalesce_reads] and [coalesce_chunks]
    ([src/src/executor/coalesce.c]) as their callers see them. *)

From stdpp Require Import strings.
From S2P Require Import Prelude ReadOpSort DispatchTypes Coalesce CoalesceProof.

#[local] Open Scope Z_scope.

(** A chunk plan whose bytes lie inside its read window; a placeholder names a
    read that does no IO. *)
Definition chunk_in_read (reads : list read_op) (n : Z) (cp : chunk_plan) : Prop :=
  0 <= read_op_idx cp < n /\
  exists r, aget reads (read_op_idx cp) = Some r /\
    if is_fill cp then is_io r = false
    else is_io r = true /\ 0 <= offset_in_read cp /\ 0 <= compressed_nbytes cp /\
         offset_in_read cp + compressed_nbytes cp <= nbytes r.

(** The shard and the position in it that a chunk plan points at. *)
Definition chunk_addr (reads : list read_op) (cp : chunk_plan) : option (option string * Z) :=
  r ← aget reads (read_op_idx cp);
  Some (shard_path r, file_offset r + offset_in_read cp).

(** [cp'] is [cp] re-pointed at the merged reads. *)
Record moved (reads reads' : list read_op) (n' : Z) (cp cp' : chunk_plan) : Prop := {
  mv_only : cp' = set_read cp (read_op_idx cp') (offset_in_read cp');
  mv_addr : chunk_addr reads' cp' = chunk_addr reads cp;
  mv_in : chunk_in_read reads' n' cp' }.

Lemma located_moved reads n c cp r :
  aget reads (read_op_idx cp) = Some r -> 0 <= read_op_idx cp < n ->
  chunk_in_read reads n cp -> located c (read_op_idx cp) r ->
  exists x o, aget (c_index c) (read_op_idx cp) = Some x /\
    aget (c_offset c) (read_op_idx cp) = Some o /\
    (is_fill cp = true -> moved reads (c_reads c) (c_n c) cp (set_read cp x (offset_in_read cp))) /\
    (is_fill cp = false -> 0 <= offset_in_read cp + o < 2 ^ 32 /\
       moved reads (c_reads c) (c_n c) cp (set_read cp x (offset_in_read cp + o))).
Proof.
  intros Hr Hi (_ & r' & Hr' & Hcp) (x & o & t & Hx & Hxr & Ho & Ht & Hloc).
  assert (r' = r) as -> by congruence. exists x, o. split_and!; [done..| |].
  - intros Hf. rewrite Hf in Hcp. rewrite Hcp in Hloc. destruct Hloc as [-> ->].
    split; [done| |].
    + unfold chunk_addr. simpl. by rewrite Ht, Hr.
    + split; [done|]. exists r. simpl. by rewrite Hf.
  - intros Hf. rewrite Hf in Hcp. destruct Hcp as (Hio & H1 & H2 & H3). rewrite Hio in Hloc.
    destruct Hloc as (Hp & Hoff & H4 & H5 & H6). split; [lia|]. split; [done| |].
    + unfold chunk_addr. simpl. rewrite Ht, Hr. simpl. rewrite Hp. do 2 f_equal. lia.
    + split; [done|]. exists t. simpl. rewrite Hf. split; [done|]. split_and!; try lia.
      apply is_io_iff in Hio as [? ?]. apply is_io_iff. rewrite Hp. split; [lia|done].
Qed.

Lemma rewrite_chunks_spec reads n c m i cps :
  0 <= i -> i + Z.of_nat m <= zlen cps ->
  (forall j cp, i <= j < i + Z.of_nat m -> aget cps j = Some cp -> chunk_in_read reads n cp) ->
  (forall j r, 0 <= j < n -> aget reads j = Some r -> located c j r) ->
  exists cps', rewrite_chunks m (c_index c) (c_offset c) i cps = Some (DAMACY_OK, cps') /\
    length cps' = length cps /\
    (forall j cp, i <= j < i + Z.of_nat m -> aget cps j = Some cp ->
       exists cp', aget cps' j = Some cp' /\ moved reads (c_reads c) (c_n c) cp cp') /\
    (forall j, j < i \/ i + Z.of_nat m <= j -> aget cps' j = aget cps j).
Proof.
  revert i cps. induction m as [|m IH]; intros i cps Hi Hm Hin Hloc; simpl.
  { exists cps. split_and!; [done..|intros; lia|done]. }
  destruct (aget_is_Some cps i ltac:(lia)) as [cp Ecp]. rewrite Ecp. simpl.
  pose proof (Hin i cp ltac:(lia) Ecp) as Hc. destruct Hc as (Hr0 & r & Hr & Hc).
  destruct (located_moved reads n c cp r Hr Hr0 (Hin i cp ltac:(lia) Ecp) (Hloc _ _ Hr0 Hr))
    as (x & o & Hx & Ho & Hfill & Hdata).
  rewrite Hx. simpl. rewrite Ho. simpl.
  assert (exists cp', moved reads (c_reads c) (c_n c) cp cp' /\
    forall k, (if is_fill cp then
        cps0 ← aset cps i (set_read cp x (offset_in_read cp)); k cps0
      else if UINT32_MAX <? offset_in_read cp + o then
        cps0 ← aset cps i (set_read cp x (offset_in_read cp)); Some (DAMACY_INVAL, cps0)
      else cps0 ← aset cps i (set_read cp x (u32 (offset_in_read cp + o))); k cps0)
      = (cps0 ← aset cps i cp'; k cps0)) as (cp' & Hmv & Hstep).
  { destruct (is_fill cp) eqn:Ef; [by eauto|]. destruct (Hdata eq_refl) as [Hsum Hmv].
    eexists. split; [exact Hmv|]. intros k. rewrite (proj2 (Z.ltb_ge _ _)) by clia.
    by rewrite u32_id by clia. }
  rewrite (Hstep (fun cps0 => rewrite_chunks m (c_index c) (c_offset c) (i + 1) cps0)).
  assert (aset cps i cp' = Some (<[Z.to_nat i:=cp']> cps)) as Hs by (apply aset_range; lia).
  rewrite Hs. simpl.
  destruct (IH (i + 1) (<[Z.to_nat i:=cp']> cps)) as (cps' & -> & Hl & H1 & H2);
    [lia|rewrite length_insert; lia| |done|].
  { intros j q Hj. rewrite (aget_aset_ne _ _ _ _ _ Hs) by lia. apply Hin. lia. }
  rewrite length_insert in Hl. exists cps'. split_and!; [done..| |].
  - intros j q Hj Hq. destruct (decide (j = i)) as [->|].
    + rewrite H2, (aget_aset_eq _ _ _ _ Hs) by lia. exists cp'. split; [done|]. congruence.
    + apply H1; [lia|]. by rewrite (aget_aset_ne _ _ _ _ _ Hs) by lia.
  - intros j Hj. rewrite H2 by lia. apply (aget_aset_ne _ _ _ _ _ Hs). lia.
Qed.

Lemma length_slice {A} (l : list A) off n :
  0 <= off -> 0 <= n -> off + n <= zlen l -> zlen (slice l off n) = n.
Proof. intros. unfold slice. rewrite length_take, length_drop. lia. Qed.

(** What the pass leaves of [out]. *)
Record coalesce_post (out out' : dispatch_output) (reads : list read_op) (cps : list chunk_plan)
    (max_bytes max_chunks : Z) : Prop := {
  cc_reads : exists reads', read_ops out' = Some reads' /\ length reads' = length reads /\
     exists c, c_reads c = reads' /\ c_n c = n_read_ops out' /\
     coalesced reads (n_read_ops out) max_bytes max_chunks c;
  cc_count : 0 < n_read_ops out' <= n_read_ops out;
  cc_chunks : exists reads' cps', read_ops out' = Some reads' /\ chunk_plans out' = Some cps' /\
     length cps' = length cps /\
     forall i cp, 0 <= i < n_chunk_plans out -> aget cps i = Some cp ->
       exists cp', aget cps' i = Some cp' /\ moved reads reads' (n_read_ops out') cp cp';
  cc_rest : exists cps', chunk_plans out' = Some cps' /\
     out' = set_counters (set_chunks (set_reads out (read_ops out') (n_read_ops out'))
              (Some cps') (n_chunk_plans out)) (n_chunks_to_load out') (n_loads_issued out') }.

Lemma coalesce_chunks_spec out reads cps max_bytes max_chunks u tmp :
  read_ops out = Some reads -> chunk_plans out = Some cps ->
  0 < n_read_ops out < 2 ^ 30 -> n_read_ops out <= zlen reads -> 0 <= max_chunks < 2 ^ 32 ->
  4 * n_read_ops out <= zlen u -> n_read_ops out <= zlen tmp ->
  (forall i r, 0 <= i < n_read_ops out -> aget reads i = Some r -> read_fits r) ->
  0 <= n_chunk_plans out <= zlen cps ->
  (forall i cp, 0 <= i < n_chunk_plans out -> aget cps i = Some cp ->
     chunk_in_read reads (n_read_ops out) cp) ->
  exists out', coalesce_chunks out max_bytes max_chunks (Some u) (Some tmp) = Some (DAMACY_OK, out') /\
    coalesce_post out out' reads cps max_bytes max_chunks.
Proof.
  intros Hr Hc Hn Hlen Hmc Hu Ht Hfit Hcn Hin. unfold coalesce_chunks. rewrite Hr, Hc.
  cbn [n_read_ops set_counters].
  rewrite (proj2 (Z.eqb_neq _ 0)) by lia. rewrite !u32_id by clia.
  destruct (coalesce_reads_spec reads (n_read_ops out) max_bytes max_chunks
    (Scratch (slice u (2 * n_read_ops out) (n_read_ops out))
       (slice u (3 * n_read_ops out) (n_read_ops out))
       (slice u (n_read_ops out) (n_read_ops out)) tmp)) as (c & -> & Hco);
    [clia|done|done|simpl; rewrite length_slice; lia..|done|done|]. simpl.
  destruct (rewrite_chunks_spec reads (n_read_ops out) c (Z.to_nat (n_chunk_plans out)) 0 cps)
    as (cps' & -> & Hl & Hmv & _); [lia|lia| |apply Hco|].
  { intros j cp Hj. apply Hin. lia. }
  simpl. eexists. split; [done|]. split; simpl.
  - exists (c_reads c). split_and!; [done|apply Hco|by eauto].
  - apply Hco.
  - exists (c_reads c), cps'. split_and!; [done..|]. intros i cp Hi Hcp.
    apply Hmv; [lia|done].
  - exists cps'. split; done.
Qed.

(** ** Theorems *)

(** C5: [coalesce_reads] on windows that fit 64 bits, with the scratch its header
    asks for, always succeeds and stays inside its arrays. Every original read is
    found again: a storage read lies, at its recorded offset, inside a merged read
    of the same shard; a placeholder is kept unchanged. Conversely a merged read
    stands for exactly the originals indexed to it, it covers no byte that none of
    them asked for, and unless it stands for a single one it respects both the byte
    cap and the chunk cap. *)
Theorem coalesce_reads_correct reads n max_bytes max_chunks s :
  0 < n <= 2 ^ 31 -> n <= zlen reads -> 0 <= max_chunks < 2 ^ 32 ->
  n <= zlen (cs_index s) -> n <= zlen (cs_offset s) -> n <= zlen (cs_pos s) -> n <= zlen (cs_tmp s) ->
  (forall i r, 0 <= i < n -> aget reads i = Some r -> read_fits r) ->
  exists c, coalesce_reads (Some reads) n max_bytes max_chunks (Some s) = Some (inr c) /\
    0 < c_n c <= n /\
    (forall i r, 0 <= i < n -> aget reads i = Some r -> located c i r) /\
    (forall x t, 0 <= x < c_n c -> aget (c_reads c) x = Some t ->
       justified reads n max_bytes max_chunks c x t).
Proof.
  intros. destruct (coalesce_reads_spec reads n max_bytes max_chunks s) as (c & Hc & []); [done..|].
  by exists c.
Qed.

(** Two shards, two touching windows and a gap in the first, one placeholder. *)
Definition ex_reads : list read_op :=
  [ReadOp (Some "b") 0 0 4096; ReadOp (Some "a") 4096 0 4096; ReadOp None 0 0 0;
   ReadOp (Some "a") 0 0 4096; ReadOp (Some "a") 16384 0 8192].
Definition ex_scratch : coalesce_scratch :=
  Scratch (repeat 0 5) (repeat 0 5) (repeat 0 5) (repeat (ReadOp None 0 0 0) 5).

Lemma ex_reads_fit i r : aget ex_reads i = Some r -> read_fits r.
Proof.
  apply Forall_aget. repeat (constructor; [unfold read_fits; simpl; lia|]). constructor.
Qed.

Lemma coalesce_reads_correct_witness :
  exists c, coalesce_reads (Some ex_reads) 5 8192 8 (Some ex_scratch) = Some (inr c) /\
    c_n c = 4 /\ located c 1 (ReadOp (Some "a") 4096 0 4096).
Proof.
  destruct (coalesce_reads_correct ex_reads 5 8192 8 ex_scratch) as (c & Hc & _ & Hl & _);
    [lia|simpl; lia|lia|simpl; lia..| |].
  - intros i r _. apply ex_reads_fit.
  - exists c. split; [exact Hc|]. split; [|apply Hl; [lia|reflexivity]].
    assert (exists c', coalesce_reads (Some ex_reads) 5 8192 8 (Some ex_scratch) = Some (inr c') /\ c_n c' = 4)
      as (c' & Hc' & <-) by (eexists; split; [vm_compute; reflexivity|reflexivity]).
    congruence.
Defined.

(** [coalesce_chunks] re-points every chunk plan without moving the bytes it
    names: the call succeeds, each of the first [n_chunk_plans] entries changes only
    its read index and its offset, it still addresses the same position of the same
    shard, and its compressed bytes lie inside the merged read; placeholders keep
    naming a read that does no IO. *)
Theorem coalesce_chunks_correct out reads cps max_bytes max_chunks u tmp :
  read_ops out = Some reads -> chunk_plans out = Some cps ->
  0 < n_read_ops out < 2 ^ 30 -> n_read_ops out <= zlen reads -> 0 <= max_chunks < 2 ^ 32 ->
  4 * n_read_ops out <= zlen u -> n_read_ops out <= zlen tmp ->
  (forall i r, 0 <= i < n_read_ops out -> aget reads i = Some r -> read_fits r) ->
  0 <= n_chunk_plans out <= zlen cps ->
  (forall i cp, 0 <= i < n_chunk_plans out -> aget cps i = Some cp ->
     chunk_in_read reads (n_read_ops out) cp) ->
  exists out' reads' cps',
    coalesce_chunks out max_bytes max_chunks (Some u) (Some tmp) = Some (DAMACY_OK, out') /\
    read_ops out' = Some reads' /\ chunk_plans out' = Some cps' /\
    0 < n_read_ops out' <= n_read_ops out /\
    forall i cp, 0 <= i < n_chunk_plans out -> aget cps i = Some cp ->
      exists cp', aget cps' i = Some cp' /\ moved reads reads' (n_read_ops out') cp cp'.
Proof.
  intros. destruct (coalesce_chunks_spec out reads cps max_bytes max_chunks u tmp)
    as (out' & Ho & []); [done..|].
  destruct cc_chunks0 as (reads' & cps' & ? & ? & ? & ?). by exists out', reads', cps'.
Qed.

Definition ex_chunk (i : Z) (fill : bool) : chunk_plan :=
  ChunkPlan i (if fill then 0 else 100) (if fill then 0 else 3000) 8192 0 0 0 0 0 0 fill [].
Definition ex_out : dispatch_output :=
  DispatchOutput (Some ex_reads) 5 5
    (Some [ex_chunk 0 false; ex_chunk 1 false; ex_chunk 2 true; ex_chunk 3 false]) 4 4
    [] 0 0 None 0 0 None 0 0 [] 0 0 0 0.

Lemma coalesce_chunks_correct_witness :
  exists out' reads' cps',
    coalesce_chunks ex_out 8192 8 (Some (repeat 0 20)) (Some (repeat (ReadOp None 0 0 0) 5))
      = Some (DAMACY_OK, out') /\
    read_ops out' = Some reads' /\ chunk_plans out' = Some cps' /\
    exists cp', aget cps' 1 = Some cp' /\ chunk_addr reads' cp' = Some (Some "a", 4196).
Proof.
  destruct (coalesce_chunks_correct ex_out ex_reads
    [ex_chunk 0 false; ex_chunk 1 false; ex_chunk 2 true; ex_chunk 3 false] 8192 8
    (repeat 0 20) (repeat (ReadOp None 0 0 0) 5))
    as (out' & reads' & cps' & Hc & Hr & Hp & _ & Hm);
    [reflexivity|reflexivity|simpl; lia|simpl; lia|lia|simpl; lia|simpl; lia| |simpl; lia| |].
  - intros i r _. apply ex_reads_fit.
  - intros i cp _. apply Forall_aget.
    repeat (constructor; [split; [simpl; lia|eexists; split; [reflexivity|simpl; repeat split; simpl; lia]]|]).
    constructor.
  - exists out', reads', cps'. split_and!; [exact Hc|exact Hr|exact Hp|].
    destruct (Hm 1 (ex_chunk 1 false)) as (cp' & Hcp & Hmv); [simpl; lia|reflexivity|].
    exists cp'. split; [exact Hcp|]. rewrite (mv_addr _ _ _ _ _ Hmv). reflexivity.
Defined.
