(* ===== verification/GroupChunks.v ===== *)
(** * Grouping chunks by read

    [src/src/executor/group_chunks.c]: a stable counting sort of the chunk plans by
    the read they belong to, the table of groups it induces, and the iterator over
    that table. *)

From stdpp Require Import strings.
From S2P Require Import Prelude ReadOpSort DispatchTypes.

#[local] Open Scope Z_scope.

(** ** Operations *)

(** The counting loop; the inner [None] is the early [DAMACY_INVAL]. *)
Fixpoint count_heads (n : nat) (cps : list chunk_plan) (R i : Z) (head : list Z)
    : option (option (list Z)) :=
  match n with
  | O => Some (Some head)
  | S n =>
      cp ← aget cps i;
      let r := read_op_idx cp in
      if R <=? r then Some None
      else
        h ← aget head (r + 1);
        head ← aset head (r + 1) (u32 (h + 1));
        count_heads n cps R (i + 1) head
  end.

(** [head[r] += head[r - 1]] for [n] slots from [r]. *)
Fixpoint prefix_heads (n : nat) (head : list Z) (r : Z) : option (list Z) :=
  match n with
  | O => Some head
  | S n =>
      a ← aget head r;
      b ← aget head (r - 1);
      head ← aset head r (u32 (a + b));
      prefix_heads n head (r + 1)
  end.

(** One group per read with at least one chunk. *)
Fixpoint emit_groups (n : nat) (head : list Z) (r : Z) (gs : list read_op_group) (g_out : Z)
    : option (list read_op_group * Z) :=
  match n with
  | O => Some (gs, g_out)
  | S n =>
      first ← aget head r;
      last ← aget head (r + 1);
      if first =? last then emit_groups n head (r + 1) gs g_out
      else
        gs ← aset gs g_out (ReadOpGroup r first (u32 (last - first)) 0);
        emit_groups n head (r + 1) gs (u32 (g_out + 1))
  end.

(** [chunk_plan_scratch[head[r]++] = chunk_plans[i]]. *)
Fixpoint scatter_chunks (n : nat) (cps : list chunk_plan) (i : Z) (head : list Z)
    (scratch : list chunk_plan) : option (list chunk_plan) :=
  match n with
  | O => Some scratch
  | S n =>
      cp ← aget cps i;
      h ← aget head (read_op_idx cp);
      head ← aset head (read_op_idx cp) (u32 (h + 1));
      scratch ← aset scratch h cp;
      scatter_chunks n cps (i + 1) head scratch
  end.

Fixpoint sum_chunks (n : nat) (cps : list chunk_plan) (first i sum : Z) : option Z :=
  match n with
  | O => Some sum
  | S n =>
      cp ← aget cps (u32 (first + i));
      sum_chunks n cps first (i + 1) (u64 (sum + decompressed_nbytes cp))
  end.

Definition set_total (g : read_op_group) (t : Z) : read_op_group :=
  ReadOpGroup (g_read_op_idx g) (first_chunk g) (n_chunks g) t.

Fixpoint total_groups (n : nat) (cps : list chunk_plan) (g : Z) (gs : list read_op_group)
    : option (list read_op_group) :=
  match n with
  | O => Some gs
  | S n =>
      grp ← aget gs g;
      sum ← sum_chunks (Z.to_nat (n_chunks grp)) cps (first_chunk grp) 0 0;
      gs ← aset gs g (set_total grp sum);
      total_groups n cps (g + 1) gs
  end.

Definition group_chunks_by_read (out : dispatch_output) (u32_scratch : option (list Z))
    (chunk_plan_scratch : option (list chunk_plan)) : option (damacy_status * dispatch_output) :=
  match chunk_plans out with
  | None => Some (DAMACY_INVAL, out)
  | Some cps =>
      let n := n_chunk_plans out in
      let R := n_read_ops out in
      let out := set_groups out (read_op_groups out) 0 in
      if (n =? 0) || (R =? 0) then Some (DAMACY_OK, out)
      else
        match u32_scratch, chunk_plan_scratch with
        | Some head, Some scratch =>
            match read_op_groups out with
            | None => Some (DAMACY_BUDGET, out)
            | Some gs =>
                if read_op_groups_cap out <? R then Some (DAMACY_BUDGET, out)
                else
                  head ← array_fill (Z.to_nat (R + 1)) head 0 0;
                  counted ← count_heads (Z.to_nat n) cps R 0 head;
                  match counted with
                  | None => Some (DAMACY_INVAL, out)
                  | Some head =>
                      head ← prefix_heads (Z.to_nat R) head 1;
                      emitted ← emit_groups (Z.to_nat R) head 0 gs 0;
                      let '(gs, g_out) := (emitted : list read_op_group * Z) in
                      cps ← (if 2 <=? n then
                               scratch ← scatter_chunks (Z.to_nat n) cps 0 head scratch;
                               Some (take (Z.to_nat n) scratch ++ drop (Z.to_nat n) cps)
                             else Some cps);
                      gs ← total_groups (Z.to_nat g_out) cps 0 gs;
                      Some (DAMACY_OK,
                        set_groups (set_chunks out (Some cps) n) (Some gs) g_out)
                  end
            end
        | _, _ => Some (DAMACY_INVAL, out)
        end
  end.

Definition read_op_group_iterator_init (gs : list read_op_group) (n start : Z)
    : read_op_group_iterator := GroupIter gs n start.

Definition read_op_group_iterator_next (it : read_op_group_iterator)
    : option (option read_op_group * read_op_group_iterator) :=
  if n_groups it <=? cursor it then Some (None, it)
  else
    g ← aget (groups it) (cursor it);
    Some (Some g, GroupIter (groups it) (n_groups it) (u32 (cursor it + 1))).

(** ** Counting *)

Definition at_read (r : Z) (cp : chunk_plan) : Prop := read_op_idx cp = r.
#[export] Instance at_read_dec r cp : Decision (at_read r cp).
Proof. unfold at_read. apply _. Defined.

(** The chunks of read [r], in order, and how many belong to it or to an
    earlier one. *)
Definition of_read (cps : list chunk_plan) (r : Z) : list chunk_plan := filter (at_read r) cps.
Definition pre (cps : list chunk_plan) (r : Z) : Z :=
  zlen (filter (fun cp => read_op_idx cp < r) cps).

Lemma pre_succ cps r : pre cps (r + 1) = pre cps r + zlen (of_read cps r).
Proof.
  unfold pre, of_read, at_read. induction cps as [|cp cps IH]; [done|].
  rewrite !filter_cons. repeat case_decide; simpl; lia.
Qed.

Lemma pre_le cps r r' : r <= r' -> pre cps r <= pre cps r'.
Proof.
  unfold pre. intros Hr. induction cps as [|cp cps IH]; [done|].
  rewrite !filter_cons. repeat case_decide; simpl; lia.
Qed.

Lemma pre_bounds cps R :
  Forall (fun cp => 0 <= read_op_idx cp < R) cps -> pre cps 0 = 0 /\ pre cps R = zlen cps.
Proof.
  unfold pre. induction 1 as [|cp cps Hcp _ IH]; [done|].
  rewrite !filter_cons. repeat case_decide; simpl; lia.
Qed.

Lemma pre_le_len cps r : 0 <= pre cps r <= zlen cps.
Proof.
  unfold pre. pose proof (length_filter (fun cp => read_op_idx cp < r) cps). lia.
Qed.

Lemma of_read_snoc cps cp r :
  of_read (cps ++ [cp]) r = of_read cps r ++ (if decide (read_op_idx cp = r) then [cp] else []).
Proof.
  unfold of_read, at_read. rewrite filter_app, filter_cons. by case_decide.
Qed.

Lemma of_read_take cps i r : zlen (of_read (take i cps) r) <= zlen (of_read cps r).
Proof.
  rewrite <-(take_drop i cps) at 2. unfold of_read. rewrite filter_app, length_app. lia.
Qed.

(** The group table the sort induces on the chunks [us]; [total] is the last
    field of a group, which the code fills in a second pass. *)
Definition nonempty (us : list chunk_plan) (r : Z) : Prop := of_read us r <> [].
#[export] Instance nonempty_dec us r : Decision (nonempty us r).
Proof. unfold nonempty. destruct (of_read us r); [right; tauto|left; done]. Defined.

Definition mk_group (us : list chunk_plan) (total : list chunk_plan -> Z) (r : Z) : read_op_group :=
  ReadOpGroup r (pre us r) (zlen (of_read us r)) (total (of_read us r)).
Definition group_table (us : list chunk_plan) (total : list chunk_plan -> Z) (r : Z)
    : list read_op_group := mk_group us total <$> filter (nonempty us) (seqZ 0 r).

Section group.
Context (cps : list chunk_plan) (n R : Z).
Hypothesis Hn : 0 < n < 2 ^ 32 /\ n <= zlen cps.
Hypothesis HR : 0 < R < 2 ^ 32 - 1.

Definition used : list chunk_plan := take (Z.to_nat n) cps.
Hypothesis Hidx : Forall (fun cp => 0 <= read_op_idx cp < R) used.

Lemma len_used : zlen used = n.
Proof. unfold used. rewrite length_take. lia. Qed.

Lemma aget_used i : 0 <= i < n -> exists cp, aget cps i = Some cp /\ 0 <= read_op_idx cp < R.
Proof.
  intros Hi. destruct (aget_is_Some cps i ltac:(lia)) as [cp Hcp]. exists cp. split; [done|].
  apply (Forall_aget _ used i cp Hidx). apply aget_lookup in Hcp as [? Hcp].
  apply aget_lookup. split; [done|]. unfold used. by rewrite lookup_take_lt by lia.
Qed.

(** The chunks of [r] among the first [i]. *)
Definition seen (i r : Z) : list chunk_plan := of_read (take (Z.to_nat i) cps) r.

Lemma seen_n r : seen n r = of_read used r.
Proof. done. Qed.

Lemma seen_succ i cp r : aget cps i = Some cp ->
  seen (i + 1) r = seen i r ++ (if decide (read_op_idx cp = r) then [cp] else []).
Proof. intros H. unfold seen. rewrite (take_succ_aget _ _ _ H). apply of_read_snoc. Qed.

Lemma seen_le i r : 0 <= i <= n -> zlen (seen i r) <= zlen (of_read used r).
Proof.
  intros Hi. unfold seen, used. etrans; [|apply (of_read_take _ (Z.to_nat i))].
  rewrite take_take. by replace (Z.to_nat i `min` Z.to_nat n)%nat with (Z.to_nat i) by lia.
Qed.

Lemma seen_bound i r : 0 <= i -> zlen (seen i r) <= i.
Proof.
  intros Hi. unfold seen, of_read. pose proof (length_filter (at_read r) (take (Z.to_nat i) cps)).
  rewrite length_take in *. lia.
Qed.

Lemma count_heads_spec m i head :
  0 <= i -> i + Z.of_nat m = n -> R + 1 <= zlen head ->
  (forall r, 0 <= r <= R -> aget head r = Some (if decide (r = 0) then 0 else zlen (seen i (r - 1)))) ->
  exists head', count_heads m cps R i head = Some (Some head') /\ length head' = length head /\
    forall r, 0 <= r <= R -> aget head' r = Some (if decide (r = 0) then 0 else zlen (of_read used (r - 1))).
Proof.
  revert i head. induction m as [|m IH]; intros i head Hi Hm Hl Hh; simpl.
  { exists head. split_and!; [done..|]. intros r Hr. rewrite <-seen_n.
    replace n with i by lia. by apply Hh. }
  destruct (aget_used i ltac:(lia)) as (cp & Hcp & Hr). rewrite Hcp. simpl.
  rewrite (proj2 (Z.leb_gt _ _)) by lia. rewrite (Hh (read_op_idx cp + 1) ltac:(lia)), decide_False by lia. simpl.
  replace (read_op_idx cp + 1 - 1) with (read_op_idx cp) by lia.
  pose proof (seen_bound i (read_op_idx cp) Hi). rewrite u32_id by clia.
  assert (forall v, aset head (read_op_idx cp + 1) v = Some (<[Z.to_nat (read_op_idx cp + 1):=v]> head)) as Hs
    by (intros v; apply aset_range; lia).
  rewrite Hs. simpl. edestruct (IH (i + 1)) as (head' & -> & Hl' & Hh').
  4: { intros r Hr'. rewrite (aget_aset _ _ _ _ _ (Hs _)), (seen_succ _ _ _ Hcp), length_app, (Hh r Hr').
    repeat case_decide; simpl; try lia; f_equal; try lia.
    replace (r - 1) with (read_op_idx cp) by lia. lia. }
  - lia.
  - lia.
  - by rewrite length_insert.
  - rewrite length_insert in Hl'. exists head'. split_and!; [done..|]. done.
Qed.

Lemma prefix_heads_spec m r head :
  1 <= r -> r + Z.of_nat m = R + 1 -> R + 1 <= zlen head ->
  (forall k, 0 <= k < r -> aget head k = Some (pre used k)) ->
  (forall k, r <= k <= R -> aget head k = Some (zlen (of_read used (k - 1)))) ->
  exists head', prefix_heads m head r = Some head' /\ length head' = length head /\
    forall k, 0 <= k <= R -> aget head' k = Some (pre used k).
Proof.
  revert r head. induction m as [|m IH]; intros r head Hr Hm Hl Hlo Hhi; simpl.
  { exists head. split_and!; [done..|]. intros k Hk. apply Hlo. lia. }
  rewrite (Hhi r ltac:(lia)). simpl. rewrite (Hlo (r - 1) ltac:(lia)). simpl.
  pose proof (pre_succ used (r - 1)) as Hp. replace (r - 1 + 1) with r in Hp by lia.
  pose proof (pre_le_len used r) as Hb. rewrite len_used in Hb. rewrite u32_id by clia.
  replace (zlen (of_read used (r - 1)) + pre used (r - 1)) with (pre used r) by lia.
  assert (aset head r (pre used r) = Some (<[Z.to_nat r:=pre used r]> head)) as Hs by (apply aset_range; lia).
  rewrite Hs. simpl. destruct (IH (r + 1) (<[Z.to_nat r:=pre used r]> head)) as (head' & -> & Hl' & Hh').
  - lia.
  - lia.
  - by rewrite length_insert.
  - intros k Hk. rewrite (aget_aset _ _ _ _ _ Hs). case_decide; [by subst|apply Hlo; lia].
  - intros k Hk. rewrite (aget_aset_ne _ _ _ _ _ Hs) by lia. apply Hhi. lia.
  - rewrite length_insert in Hl'. exists head'. done.
Qed.

Lemma group_table_succ total r : 0 <= r ->
  group_table used total (r + 1) = group_table used total r ++ (if decide (nonempty used r) then [mk_group used total r] else []).
Proof.
  intros Hr. unfold group_table. rewrite seqZ_succ, filter_app, fmap_app, filter_cons by done.
  by case_decide.
Qed.

Lemma group_table_len total r : 0 <= r -> zlen (group_table used total r) <= r.
Proof.
  intros Hr. unfold group_table. rewrite length_fmap.
  pose proof (length_filter (nonempty used) (seqZ 0 r)). rewrite length_seqZ in *. lia.
Qed.

Lemma emit_groups_spec m r head gs rest :
  0 <= r -> r + Z.of_nat m = R ->
  (forall k, 0 <= k <= R -> aget head k = Some (pre used k)) ->
  gs = group_table used (fun _ => 0) r ++ rest -> Z.of_nat m <= zlen rest ->
  exists rest', emit_groups m head r gs (zlen (group_table used (fun _ => 0) r)) =
    Some (group_table used (fun _ => 0) R ++ rest', zlen (group_table used (fun _ => 0) R)).
Proof.
  revert r gs rest. induction m as [|m IH]; intros r gs rest Hr Hm Hh -> Hl; simpl.
  { exists rest. by replace r with R by lia. }
  rewrite (Hh r ltac:(lia)), (Hh (r + 1) ltac:(lia)). simpl. rewrite pre_succ.
  pose proof (group_table_succ (fun _ => 0) r Hr) as Hsucc.
  destruct (Z.eqb_spec (pre used r) (pre used r + zlen (of_read used r))) as [He|Hne].
  - rewrite decide_False, app_nil_r in Hsucc.
    2: { unfold nonempty. intros Hz. apply Hz. apply length_zero_iff_nil. lia. }
    rewrite <-Hsucc. by apply (IH (r + 1) _ rest); [lia|lia|..]; [|rewrite Hsucc|lia].
  - rewrite decide_True in Hsucc by (unfold nonempty; intros Hz; rewrite Hz in Hne; simpl in Hne; lia).
    destruct rest as [|x rest]; [simpl in Hl; lia|]. rewrite aset_middle. simpl.
    replace (pre used r + _ - pre used r) with (zlen (of_read used r)) by lia.
    pose proof (group_table_len (fun _ => 0) r Hr). pose proof (pre_le_len used (r + 1)) as Hb.
    rewrite pre_succ, len_used in Hb. pose proof (pre_le_len used r). rewrite !u32_id by clia.
    change (ReadOpGroup r (pre used r) (zlen (of_read used r)) 0) with (mk_group used (fun _ => 0) r).
    edestruct (IH (r + 1) (group_table used (fun _ => 0) r ++ mk_group used (fun _ => 0) r :: rest) rest)
      as (rest' & HI); [lia|lia|done| | |].
    + rewrite Hsucc, <-app_assoc. done.
    + simpl in Hl. lia.
    + exists rest'. rewrite Hsucc, length_app in HI. simpl in HI.
      rewrite Nat2Z.inj_add in HI. exact HI.
Qed.

(** ** The counting sort *)

Definition grouped : list chunk_plan := concat (of_read used <$> seqZ 0 R).

(** [l] holds the chunks [f r] of every read at that read's slots. *)
Definition in_place (l : list chunk_plan) (f : Z -> list chunk_plan) : Prop :=
  forall r k cp, 0 <= r < R -> aget (f r) k = Some cp -> aget l (pre used r + k) = Some cp.

Lemma slot_disjoint r k r' k' :
  0 <= k < zlen (of_read used r) -> 0 <= k' < zlen (of_read used r') ->
  pre used r + k = pre used r' + k' -> r = r'.
Proof.
  intros Hk Hk' He. pose proof (pre_succ used r). pose proof (pre_succ used r').
  destruct (decide (r < r')); [pose proof (pre_le used (r + 1) r'); lia|].
  destruct (decide (r' < r)); [pose proof (pre_le used (r' + 1) r); lia|]. lia.
Qed.

Lemma scatter_chunks_spec m i head scratch :
  0 <= i -> i + Z.of_nat m = n -> R <= zlen head -> n <= zlen scratch ->
  (forall r, 0 <= r < R -> aget head r = Some (pre used r + zlen (seen i r))) ->
  in_place scratch (seen i) ->
  exists scratch', scatter_chunks m cps i head scratch = Some scratch' /\
    length scratch' = length scratch /\ in_place scratch' (of_read used).
Proof.
  revert i head scratch. induction m as [|m IH]; intros i head scratch Hi Hm Hl Hls Hh Hp; simpl.
  { exists scratch. replace i with n in Hp by lia. split_and!; done. }
  destruct (aget_used i ltac:(lia)) as (cp & Hcp & Hr). rewrite Hcp. simpl.
  rewrite (Hh (read_op_idx cp) Hr). simpl. set (r := read_op_idx cp) in *.
  pose proof (seen_succ i cp r Hcp) as Hs1. rewrite decide_True in Hs1 by done.
  pose proof (seen_le (i + 1) r ltac:(lia)) as Hle. rewrite Hs1, length_app in Hle. simpl in Hle.
  pose proof (pre_succ used r) as Hps. pose proof (pre_le_len used (r + 1)) as Hpl. rewrite len_used in Hpl.
  pose proof (pre_le_len used r). rewrite u32_id by clia.
  assert (forall v, aset head r v = Some (<[Z.to_nat r:=v]> head)) as Hs by (intros v; apply aset_range; lia).
  rewrite Hs. simpl.
  assert (aset scratch (pre used r + zlen (seen i r)) cp =
    Some (<[Z.to_nat (pre used r + zlen (seen i r)):=cp]> scratch)) as Ht by (apply aset_range; lia).
  rewrite Ht. simpl. edestruct (IH (i + 1)) as (scratch' & HI & Hl' & Hp').
  7: { rewrite HI. exists scratch'. split_and!; [done|by rewrite Hl', length_insert|done]. }
  - lia.
  - lia.
  - by rewrite length_insert.
  - by rewrite length_insert.
  - intros r' Hr'. rewrite (aget_aset _ _ _ _ _ (Hs _)), (seen_succ _ _ _ Hcp), length_app. fold r.
    case_decide as E.
    + subst r'. rewrite decide_True by done. simpl. f_equal. lia.
    + rewrite decide_False by done. simpl. rewrite Hh by done. f_equal. lia.
  - intros r' k q Hr'. rewrite (seen_succ _ _ _ Hcp). fold r. case_decide as E.
    + subst r'. intros [Hk|[-> ->]]%aget_snoc.
      * rewrite (aget_aset_ne _ _ _ _ _ Ht); [by apply Hp|]. apply aget_Some_range in Hk. lia.
      * apply (aget_aset_eq _ _ _ _ Ht).
    + rewrite app_nil_r. intros Hk. rewrite (aget_aset_ne _ _ _ _ _ Ht); [by apply Hp|].
      apply aget_Some_range in Hk. pose proof (seen_le i r' ltac:(lia)). intros He.
      apply E. apply (slot_disjoint _ (zlen (seen i r)) _ k); lia.
Qed.

Lemma in_place_take l r :
  0 <= r <= R -> in_place l (of_read used) -> n <= zlen l ->
  take (Z.to_nat (pre used r)) l = concat (of_read used <$> seqZ 0 r).
Proof.
  intros [Hr HrR] Hp Hl. revert HrR. pattern r. apply natlike_ind; [|clear r Hr|done].
  { intros _. destruct (pre_bounds used R Hidx) as [-> _]. done. }
  intros r Hr IH HrR. unfold Z.succ in *. rewrite seqZ_succ, fmap_app, concat_app by done.
  rewrite <-IH by lia. simpl. rewrite app_nil_r, pre_succ.
  pose proof (pre_le_len used r). rewrite Z2Nat.inj_add, <-take_take_drop by lia. f_equal.
  pose proof (pre_le_len used (r + 1)) as Hb. rewrite pre_succ, len_used in Hb.
  symmetry. apply aget_ext.
  { rewrite length_take, length_drop. lia. }
  intros k cp Hk. pose proof (aget_Some_range _ _ _ Hk) as Hkr.
  pose proof (Hp r k cp ltac:(lia) Hk) as [_ Hlk]%aget_lookup.
  apply aget_lookup. split; [lia|]. rewrite lookup_take_lt, lookup_drop by lia.
  rewrite <-Hlk. f_equal. lia.
Qed.

Lemma in_place_grouped l :
  in_place l (of_read used) -> n <= zlen l -> take (Z.to_nat n) l = grouped.
Proof.
  intros Hp Hl. unfold grouped. rewrite <-(in_place_take l R) by (done || lia).
  destruct (pre_bounds used R Hidx) as [_ ->]. by rewrite len_used.
Qed.

(** ** Totals *)

Definition total_bytes (l : list chunk_plan) : Z :=
  foldr (fun cp s => decompressed_nbytes cp + s) 0 l.

Lemma total_bytes_nonneg l : Forall (fun cp => is_u32 (decompressed_nbytes cp)) l ->
  0 <= total_bytes l <= zlen l * UINT32_MAX.
Proof.
  unfold total_bytes. induction 1 as [|cp l Hcp _ IH]; simpl; [clia|]. unfold is_u32 in Hcp.
  rewrite Nat2Z.inj_succ. clia.
Qed.

Lemma sum_chunks_spec l cps' first i sum :
  Forall (fun cp => is_u32 (decompressed_nbytes cp)) l ->
  (forall k cp, aget l k = Some cp -> aget cps' (first + i + k) = Some cp) ->
  0 <= first -> 0 <= i -> first + i + zlen l < 2 ^ 32 -> 0 <= sum -> sum + zlen l * UINT32_MAX < 2 ^ 64 ->
  sum_chunks (length l) cps' first i sum = Some (sum + total_bytes l).
Proof.
  intros HF. revert i sum. induction HF as [|cp l Hcp HF IH]; intros i sum Hg H1 H2 H3 H4 H5; simpl.
  { f_equal. unfold total_bytes. simpl. lia. }
  simpl in H3, H5. rewrite Nat2Z.inj_succ in H3, H5. rewrite u32_id by clia.
  rewrite <-(Z.add_0_r (first + i)), (Hg 0 cp) by done. simpl.
  unfold is_u32 in Hcp. rewrite u64_id by clia. rewrite IH; try clia.
  - f_equal. unfold total_bytes. simpl. lia.
  - intros k q Hq. replace (first + (i + 1) + k) with (first + i + (k + 1)) by lia. apply Hg.
    apply aget_lookup in Hq as [? Hq]. apply aget_lookup. split; [lia|].
    replace (Z.to_nat (k + 1)) with (S (Z.to_nat k)) by lia. done.
Qed.

Lemma total_groups_spec (l : list chunk_plan) rs done_ rest :
  Forall (fun r => 0 <= r < R) rs -> in_place l (of_read used) ->
  Forall (fun cp => is_u32 (decompressed_nbytes cp)) used ->
  total_groups (length rs) l (zlen done_) (done_ ++ (mk_group used (fun _ => 0) <$> rs) ++ rest) =
    Some (done_ ++ (mk_group used total_bytes <$> rs) ++ rest).
Proof.
  intros HF Hp Hu. revert done_. induction HF as [|r rs Hr _ IH]; intros done_; csimpl; [done|].
  rewrite aget_middle. csimpl. rewrite Nat2Z.id.
  pose proof (pre_le_len used r). pose proof (pre_le_len used (r + 1)) as Hb.
  rewrite pre_succ, len_used in Hb.
  rewrite (sum_chunks_spec (of_read used r)); [|..|clia|lia|clia|lia|clia].
  2: { rewrite Forall_forall in *. intros cp [_ ?]%list_elem_of_filter. auto. }
  2: { intros k cp Hk. rewrite Z.add_0_r. by apply Hp. }
  csimpl. rewrite aset_middle. csimpl.
  specialize (IH (done_ ++ [mk_group used total_bytes r])).
  rewrite length_app, <-!app_assoc in IH. simpl in IH. rewrite Nat2Z.inj_add in IH. exact IH.
Qed.
End group.

(** ** Theorem *)

Lemma aget_take {A} (l : list A) n i x : aget (take n l) i = Some x -> aget l i = Some x.
Proof. rewrite !aget_lookup. intros [? H]. split; [done|]. by apply lookup_take_Some in H as [? _]. Qed.

(** A single chunk is in place as it stands. *)
Lemma in_place_single cps R :
  1 <= zlen cps -> Forall (fun cp => 0 <= read_op_idx cp < R) (used cps 1) ->
  in_place cps 1 R cps (of_read (used cps 1)).
Proof.
  intros Hl HF r k cp Hr Hk. destruct cps as [|c0 cps]; [simpl in Hl; lia|].
  change (used (c0 :: cps) 1) with [c0] in *. unfold of_read, at_read in Hk.
  rewrite filter_cons in Hk. case_decide as E; [|apply aget_Some_range in Hk; simpl in Hk; lia].
  pose proof (aget_Some_range _ _ _ Hk) as Hkr. simpl in Hkr. replace k with 0 in * by lia.
  assert (cp = c0) as -> by (unfold aget in Hk; simpl in Hk; congruence).
  replace (pre [c0] r) with 0; [done|]. unfold pre. rewrite filter_cons, decide_False by lia. done.
Qed.

Lemma group_chunks_spec out cps gs head scratch :
  let n := n_chunk_plans out in let R := n_read_ops out in
  chunk_plans out = Some cps -> read_op_groups out = Some gs ->
  0 < n < 2 ^ 32 -> n <= zlen cps -> 0 < R < 2 ^ 32 - 1 ->
  R <= read_op_groups_cap out -> R <= zlen gs -> R + 1 <= zlen head -> n <= zlen scratch ->
  Forall (fun cp => 0 <= read_op_idx cp < R /\ is_u32 (decompressed_nbytes cp)) (used cps n) ->
  exists rest,
    group_chunks_by_read out (Some head) (Some scratch) = Some (DAMACY_OK,
      set_groups (set_chunks out (Some (grouped cps n R ++ drop (Z.to_nat n) cps)) n)
        (Some (group_table (used cps n) total_bytes R ++ rest)) (zlen (group_table (used cps n) total_bytes R))).
Proof.
  intros n R Hc Hg Hn Hnl HR Hcap Hgl Hhl Hsl HF.
  assert (Forall (fun cp => 0 <= read_op_idx cp < R) (used cps n)) as Hidx
    by (eapply Forall_impl; [exact HF|]; tauto).
  assert (Forall (fun cp => is_u32 (decompressed_nbytes cp)) (used cps n)) as Hu
    by (eapply Forall_impl; [exact HF|]; tauto).
  assert (0 < n < 2 ^ 32 /\ n <= zlen cps) as Hn' by done.
  unfold group_chunks_by_read. rewrite Hc. fold n R.
  rewrite (proj2 (Z.eqb_neq n 0)), (proj2 (Z.eqb_neq R 0)) by lia.
  cbn [orb set_groups read_op_groups read_op_groups_cap]. rewrite Hg.
  rewrite (proj2 (Z.ltb_ge _ _)) by lia.
  destruct (array_fill_spec (Z.to_nat (R + 1)) head 0 0) as (h0 & -> & Hl0 & Hh0); [lia|lia|]. cbn.
  destruct (count_heads_spec cps n R Hn' Hidx (Z.to_nat n) 0 h0) as (h1 & -> & Hl1 & Hh1); [lia|lia|lia| |].
  { intros r Hr. rewrite Hh0, decide_True by lia. by case_decide. }
  cbn. destruct (prefix_heads_spec cps n R Hn' (Z.to_nat R) 1 h1) as (h2 & -> & Hl2 & Hh2); [lia|lia|lia| | |].
  { intros k Hk. replace k with 0 by lia. rewrite Hh1 by lia.
    destruct (pre_bounds _ _ Hidx) as [-> _]. done. }
  { intros k Hk. rewrite Hh1, decide_False by lia. done. }
  cbn. destruct (emit_groups_spec cps n R Hn' HR (Z.to_nat R) 0 h2 gs gs) as (rest & He); [lia|lia|done|done|lia|].
  change (zlen (group_table (used cps n) (fun _ => 0) 0)) with 0 in He. rewrite He. cbn.
  assert (exists cps', (if 2 <=? n then
      scratch0 ← scatter_chunks (Z.to_nat n) cps 0 h2 scratch;
      Some (take (Z.to_nat n) scratch0 ++ drop (Z.to_nat n) cps) else Some cps)
      = Some cps' /\ in_place cps n R cps' (of_read (used cps n)) /\
      cps' = grouped cps n R ++ drop (Z.to_nat n) cps) as (cps' & -> & Hp & Hcps').
  { destruct (Z.leb_spec 2 n).
    - destruct (scatter_chunks_spec cps n R Hn' Hidx (Z.to_nat n) 0 h2 scratch) as (s' & -> & Hls & Hp);
        [lia|lia|lia|lia| | |].
      { intros r Hr. rewrite Hh2 by lia. f_equal. unfold seen. simpl. lia. }
      { intros r k cp _ Hk. apply aget_Some_range in Hk. unfold seen in Hk. simpl in Hk. lia. }
      simpl. eexists. split; [done|]. rewrite (in_place_grouped cps n R Hn' HR Hidx s') by (done || lia).
      split; [|done]. intros r k cp Hr Hk. pose proof (Hp r k cp Hr Hk) as Ha.
      rewrite <-(in_place_grouped cps n R Hn' HR Hidx s') by (done || lia).
      apply aget_lookup in Ha as [H0 Ha]. apply aget_lookup. split; [done|].
      apply lookup_app_l_Some. rewrite lookup_take_lt; [done|].
      apply aget_Some_range in Hk. pose proof (pre_succ (used cps n) r).
      pose proof (pre_le_len (used cps n) (r + 1)) as Hb. rewrite (len_used cps n Hn') in Hb.
      pose proof (pre_le_len (used cps n) r). lia.
    - assert (n = 1) as En by lia. rewrite En in Hidx, Hnl |- *. exists cps.
      pose proof (in_place_single cps R Hnl Hidx) as Hp. split; [done|]. split; [done|].
      rewrite <-(in_place_grouped cps 1 R) with (l := cps) by (done || clia). by rewrite take_drop. }
  cbn. unfold group_table in *. rewrite length_fmap, Nat2Z.id.
  pose proof (total_groups_spec cps n R Hn' Hidx cps' (filter (nonempty (used cps n)) (seqZ 0 R)) [] rest) as Ht.
  cbn in Ht. change (Z.of_nat 0) with 0 in Ht. rewrite Ht; [|..|done|done].
  2: { apply Forall_forall. intros r [_ Hr]%list_elem_of_filter. apply elem_of_seqZ in Hr. lia. }
  cbn. exists rest. rewrite Hcps'. by rewrite length_fmap.
Qed.

(** Listing the chunks read by read loses and invents none. *)
Lemma grouped_perm us R :
  0 <= R -> Forall (fun cp => 0 <= read_op_idx cp < R) us -> concat (of_read us <$> seqZ 0 R) ≡ₚ us.
Proof.
  intros HR HF.
  assert (forall r, 0 <= r ->
    concat (of_read us <$> seqZ 0 r) ≡ₚ filter (fun cp => read_op_idx cp < r) us) as H.
  { apply natlike_ind.
    - induction HF as [|cp us Hcp _ IH]; [done|]. rewrite filter_cons, decide_False by lia. exact IH.
    - intros r Hr IH. unfold Z.succ. rewrite seqZ_succ, fmap_app, concat_app, IH by done. simpl.
      rewrite app_nil_r. clear. unfold of_read, at_read. induction us as [|cp us IH]; [done|].
      rewrite !filter_cons. repeat case_decide; try lia; simpl; [by rewrite IH| |done].
      by rewrite <-Permutation_middle, IH. }
  rewrite (H R HR). clear H. induction HF as [|cp us Hcp _ IH]; [done|].
  rewrite filter_cons, decide_True by lia. by rewrite IH.
Qed.

(** C7: [group_chunks_by_read] is a stable grouping. When every chunk names a read
    below [n_read_ops] and the tables are as large as the header asks, the call
    succeeds; the chunk plans come out read by read, each read's chunks in their
    original order, none lost or duplicated; and the group table has, in order, one
    entry for each read with chunks: where its run starts, its length and the exact
    sum of its decompressed sizes. *)
Theorem group_chunks_correct out cps gs head scratch :
  let n := n_chunk_plans out in let R := n_read_ops out in
  let us := take (Z.to_nat n) cps in
  chunk_plans out = Some cps -> read_op_groups out = Some gs ->
  0 < n < 2 ^ 32 -> n <= zlen cps -> 0 < R < 2 ^ 32 - 1 ->
  R <= read_op_groups_cap out -> R <= zlen gs -> R + 1 <= zlen head -> n <= zlen scratch ->
  Forall (fun cp => 0 <= read_op_idx cp < R /\ is_u32 (decompressed_nbytes cp)) us ->
  exists out' cps' gs',
    group_chunks_by_read out (Some head) (Some scratch) = Some (DAMACY_OK, out') /\
    chunk_plans out' = Some cps' /\ read_op_groups out' = Some gs' /\
    take (Z.to_nat n) cps' = concat (of_read us <$> seqZ 0 R) /\
    take (Z.to_nat n) cps' ≡ₚ us /\
    take (Z.to_nat (n_read_op_groups out')) gs' = group_table us total_bytes R.
Proof.
  intros n R us Hc Hg Hn Hnl HR Hcap Hgl Hhl Hsl HF.
  destruct (group_chunks_spec out cps gs head scratch) as (rest & He); [done..|].
  fold n R in He.
  assert (grouped cps n R ≡ₚ us) as Hp
    by (apply grouped_perm; [lia|exact (Forall_impl _ _ _ HF (fun _ H => proj1 H))]).
  assert (take (Z.to_nat n) (grouped cps n R ++ drop (Z.to_nat n) cps) = grouped cps n R) as Ht.
  { apply take_app_length'. rewrite Hp. subst us. rewrite length_take. lia. }
  rewrite He. do 3 eexists. split_and!; [done..|exact Ht|by rewrite Ht|].
  simpl. rewrite Nat2Z.id. apply take_app_length.
Qed.

Definition ex_cp (i bytes : Z) : chunk_plan := ChunkPlan i 0 10 bytes 0 0 0 0 0 0 false [].
Definition ex_gout : dispatch_output :=
  DispatchOutput (Some []) 0 4 (Some [ex_cp 2 8; ex_cp 0 16; ex_cp 2 32; ex_cp 1 64]) 4 4
    [] 0 0 (Some (repeat (ReadOpGroup 0 0 0 0) 4)) 4 0 None 0 0 [] 0 0 0 0.

Lemma group_chunks_correct_witness :
  exists out' cps' gs',
    group_chunks_by_read ex_gout (Some (repeat 7 5)) (Some (repeat (ex_cp 0 0) 4)) = Some (DAMACY_OK, out') /\
    chunk_plans out' = Some cps' /\ read_op_groups out' = Some gs' /\
    take 4 cps' = [ex_cp 0 16; ex_cp 1 64; ex_cp 2 8; ex_cp 2 32].
Proof.
  destruct (group_chunks_correct ex_gout [ex_cp 2 8; ex_cp 0 16; ex_cp 2 32; ex_cp 1 64]
    (repeat (ReadOpGroup 0 0 0 0) 4) (repeat 7 5) (repeat (ex_cp 0 0) 4))
    as (out' & cps' & gs' & H1 & H2 & H3 & H4 & _);
    [reflexivity|reflexivity|simpl; lia..| |].
  - repeat (constructor; [split; [simpl; lia|split; [vm_compute; discriminate|vm_compute; reflexivity]]|]).
    constructor.
  - exists out', cps', gs'. split; [exact H1|]. split; [exact H2|]. split; [exact H3|].
    exact H4.
Defined.
