(* ===== verification/Hash.v ===== *)
(** * Hashing and open addressing

    [src/src/util/hash.c], and the facts on power-of-two tables with linear probing
    that three hash tables share. *)

From stdpp Require Import strings.
From S2P Require Import Prelude.

#[local] Open Scope Z_scope.

Definition HASH_FNV_OFFSET_BASIS : Z := 0xcbf29ce484222325.
Definition HASH_FNV_PRIME : Z := 0x00000100000001b3.

Definition hash_fnv1a_init : Z := HASH_FNV_OFFSET_BASIS.

Fixpoint hash_fnv1a_step (state : Z) (bytes : list Z) : Z :=
  match bytes with
  | [] => state
  | b :: bytes => hash_fnv1a_step (u64 (Z.lxor state b * HASH_FNV_PRIME)) bytes
  end.

Definition hash_fnv1a (bytes : list Z) : Z := hash_fnv1a_step hash_fnv1a_init bytes.

(** A C string is its characters before the terminator. *)
Definition char_byte (c : Ascii.ascii) : Z := Z.of_nat (Ascii.nat_of_ascii c).

Fixpoint fnv1a_str_loop (state : Z) (s : string) : Z :=
  match s with
  | EmptyString => state
  | String c s => fnv1a_str_loop (u64 (Z.lxor state (char_byte c) * HASH_FNV_PRIME)) s
  end.

Definition hash_fnv1a_str (s : string) : Z := fnv1a_str_loop hash_fnv1a_init s.

Definition hash_ptr (p : Z) : Z :=
  let x := u64 (p * 0x9e3779b97f4a7c15) in
  Z.lxor x (Z.shiftr x 32).

Definition hash_combine (a b : Z) : Z :=
  let mixed := Z.lxor a (u64 (b + 0x9e3779b97f4a7c15 + u64 (Z.shiftl a 6) + Z.shiftr a 2)) in
  let mixed := Z.lxor mixed (Z.shiftr mixed 33) in
  let mixed := u64 (mixed * 0xff51afd7ed558ccd) in
  let mixed := Z.lxor mixed (Z.shiftr mixed 33) in
  let mixed := u64 (mixed * 0xc4ceb9fe1a85ec53) in
  Z.lxor mixed (Z.shiftr mixed 33).

(** ** Ranges *)

Lemma lxor_u64 a b : is_u64 a -> is_u64 b -> is_u64 (Z.lxor a b).
Proof.
  intros Ha Hb. assert (forall x, is_u64 x <-> 0 <= x /\ Z.log2 x < 64) as Hlog.
  { intros x. unfold is_u64. split.
    - intros [? Hx]. split; [done|]. destruct (decide (x = 0)) as [->|]; [done|].
      apply Z.log2_lt_pow2; lia.
    - intros [? Hx]. split; [done|]. destruct (decide (x = 0)) as [->|]; [done|].
      apply Z.log2_lt_pow2; lia. }
  rewrite Hlog in *. split; [apply Z.lxor_nonneg; lia|].
  pose proof (Z.log2_lxor a b). lia.
Qed.

Lemma shiftr_u64 a k : is_u64 a -> 0 <= k -> is_u64 (Z.shiftr a k).
Proof.
  unfold is_u64. intros [H0 Hlt] Hk. rewrite Z.shiftr_div_pow2 by done.
  split; [apply Z.div_pos; lia|]. eapply Z.le_lt_trans; [|exact Hlt].
  apply Z.div_le_upper_bound; [lia|]. assert (1 <= 2 ^ k) by lia. nia.
Qed.

Lemma xorshift_u64 a k : is_u64 a -> 0 <= k -> is_u64 (Z.lxor a (Z.shiftr a k)).
Proof. intros. apply lxor_u64; [done|]. by apply shiftr_u64. Qed.

Lemma hash_combine_range a b : is_u64 (hash_combine a b).
Proof. unfold hash_combine. apply xorshift_u64; [apply u64_range|lia]. Qed.

Lemma fnv1a_str_range s state : is_u64 state -> is_u64 (fnv1a_str_loop state s).
Proof.
  revert state. induction s as [|c s IH]; intros state Hs; simpl; [done|]. apply IH, u64_range.
Qed.

Lemma hash_fnv1a_str_range s : is_u64 (hash_fnv1a_str s).
Proof. apply fnv1a_str_range. split; vm_compute; [discriminate|reflexivity]. Qed.
#[export] Hint Resolve hash_fnv1a_str_range : damacy.

(** A table size. *)
Definition is_pow2 (cap : Z) : Prop := exists k, 0 <= k /\ cap = 2 ^ k.

Lemma pow2_pos cap : is_pow2 cap -> 0 < cap.
Proof. intros (k & Hk & ->). lia. Qed.

Lemma land_mask cap x : is_pow2 cap -> Z.land x (cap - 1) = x mod cap.
Proof.
  intros (k & Hk & ->). rewrite <-Z.land_ones by done. by rewrite Z.ones_equiv.
Qed.

(** The cell after [j], [k] cells after [j], and how far [j] is from [i]. *)
Definition cell_next (mask j : Z) : Z := Z.land (j + 1) mask.
Definition cell_dist (mask j i : Z) : Z := Z.land (j - i) mask.

Section table.
Context (cap : Z).
Hypothesis Hcap : is_pow2 cap.

Definition walk (i k : Z) : Z := (i + k) mod cap.

Lemma walk_range i k : 0 <= walk i k < cap.
Proof. apply Z.mod_pos_bound. by apply pow2_pos. Qed.

Lemma cell_next_walk j : cell_next (cap - 1) j = walk j 1.
Proof. unfold cell_next. by rewrite land_mask. Qed.

Lemma cell_dist_mod j i : cell_dist (cap - 1) j i = (j - i) mod cap.
Proof. unfold cell_dist. by rewrite land_mask. Qed.

Lemma cell_dist_range j i : 0 <= cell_dist (cap - 1) j i < cap.
Proof. rewrite cell_dist_mod. apply Z.mod_pos_bound. by apply pow2_pos. Qed.

Lemma walk_0 i : 0 <= i < cap -> walk i 0 = i.
Proof. intros. unfold walk. rewrite Z.add_0_r. by apply Z.mod_small. Qed.

Lemma walk_walk i a b : walk (walk i a) b = walk i (a + b).
Proof.
  unfold walk. pose proof (pow2_pos _ Hcap). rewrite Z.add_mod_idemp_l by lia. f_equal. lia.
Qed.

Lemma walk_dist j i : 0 <= j < cap -> walk i (cell_dist (cap - 1) j i) = j.
Proof.
  intros Hj. unfold walk. rewrite cell_dist_mod. pose proof (pow2_pos _ Hcap).
  rewrite Z.add_mod_idemp_r by lia. replace (i + (j - i)) with j by lia. by apply Z.mod_small.
Qed.

Lemma dist_walk i k : 0 <= k < cap -> cell_dist (cap - 1) (walk i k) i = k.
Proof.
  intros Hk. rewrite cell_dist_mod. unfold walk. pose proof (pow2_pos _ Hcap).
  rewrite Zminus_mod_idemp_l. replace (i + k - i) with k by lia. by apply Z.mod_small.
Qed.

Lemma walk_inj i a b : 0 <= a < cap -> 0 <= b < cap -> walk i a = walk i b -> a = b.
Proof. intros Ha Hb He. rewrite <-(dist_walk i a), <-(dist_walk i b) by done. by rewrite He. Qed.

Lemma dist_self i : cell_dist (cap - 1) i i = 0.
Proof. rewrite cell_dist_mod, Z.sub_diag. done. Qed.

(** One cell further from [i]. *)
Lemma dist_next j i :
  0 <= j < cap -> cell_dist (cap - 1) j i < cap - 1 ->
  cell_dist (cap - 1) (walk j 1) i = cell_dist (cap - 1) j i + 1.
Proof.
  intros Hj Hd. rewrite <-(walk_dist j i) at 1 by done. rewrite walk_walk. apply dist_walk.
  pose proof (cell_dist_range j i). lia.
Qed.

(** Every cell is on the walk from [i]. *)
Lemma walk_surj i j : 0 <= j < cap -> exists k, 0 <= k < cap /\ walk i k = j.
Proof.
  intros Hj. exists (cell_dist (cap - 1) j i). split; [apply cell_dist_range|by apply walk_dist].
Qed.

(** ** Probing *)

(** The probe loop: the first cell from [j] on where [stop] holds. *)
Fixpoint probe_until {A} (fuel : nat) (stop : A -> bool) (cells : list A) (mask j : Z) : option Z :=
  match fuel with
  | O => None
  | S fuel =>
      c ← aget cells j;
      if stop c then Some j else probe_until fuel stop cells mask (cell_next mask j)
  end.

Lemma probe_until_ext {A} (stop stop' : A -> bool) fuel cells mask j :
  (forall j c, aget cells j = Some c -> stop c = stop' c) ->
  probe_until fuel stop cells mask j = probe_until fuel stop' cells mask j.
Proof.
  intros He. revert j. induction fuel as [|fuel IH]; intros j; simpl; [done|].
  destruct (aget cells j) as [c|] eqn:Ec; simpl; [|done]. rewrite (He _ _ Ec). by destruct (stop' c).
Qed.

Lemma probe_until_spec {A} (stop : A -> bool) cells i k fuel :
  zlen cells = cap -> 0 <= i < cap -> 0 <= k < Z.of_nat fuel ->
  (forall t c, 0 <= t < k -> aget cells (walk i t) = Some c -> stop c = false) ->
  (exists c, aget cells (walk i k) = Some c /\ stop c = true) ->
  probe_until fuel stop cells (cap - 1) i = Some (walk i k).
Proof.
  intros Hlen. revert i k. induction fuel as [|fuel IH]; intros i k Hi Hk Hlt Hst; [lia|].
  simpl. destruct (aget_is_Some cells i ltac:(lia)) as [c Hc]. rewrite Hc. simpl.
  destruct (decide (k = 0)) as [->|Hk0].
  - rewrite walk_0 in Hst by done. destruct Hst as (c' & Hc' & Hs).
    assert (c' = c) as -> by congruence. by rewrite Hs, walk_0.
  - rewrite (Hlt 0 c); [|lia|by rewrite walk_0]. rewrite cell_next_walk.
    rewrite (IH (walk i 1) (k - 1)).
    + f_equal. rewrite walk_walk. f_equal. lia.
    + apply walk_range.
    + lia.
    + intros t c' Ht. rewrite walk_walk. apply Hlt. lia.
    + rewrite walk_walk. by replace (1 + (k - 1)) with k by lia.
Qed.

(** When some cell stops the probe it ends, at the nearest such cell. *)
Lemma probe_until_total {A} (stop : A -> bool) cells i fuel :
  zlen cells = cap -> 0 <= i < cap -> cap <= Z.of_nat fuel ->
  (exists j c, aget cells j = Some c /\ stop c = true) ->
  exists k c, 0 <= k < cap /\ probe_until fuel stop cells (cap - 1) i = Some (walk i k) /\
    aget cells (walk i k) = Some c /\ stop c = true /\
    forall t c, 0 <= t < k -> aget cells (walk i t) = Some c -> stop c = false.
Proof.
  intros Hlen Hi Hf (j & c & Hc & Hs).
  pose proof (aget_Some_range _ _ _ Hc) as Hj. rewrite Hlen in Hj.
  destruct (walk_surj i j Hj) as (k0 & Hk0 & Hw).
  destruct (least_Z (fun t => match aget cells (walk i t) with Some c => stop c | None => false end) k0)
    as (k & Hk & Hsk & Hmin); [lia|by rewrite Hw, Hc|].
  destruct (aget cells (walk i k)) as [c'|] eqn:Hc'; [|done].
  exists k, c'. split_and!; try lia; try done.
  - apply probe_until_spec; try done; [lia| |eauto]. intros t c0 Ht Hc0. specialize (Hmin t Ht).
    by rewrite Hc0 in Hmin.
  - intros t c0 Ht Hc0. specialize (Hmin t Ht). by rewrite Hc0 in Hmin.
Qed.

(** ** Linear probing

    [home c] is the ideal cell of the content [c], [None] when the cell is
    empty. *)
Section probing.
Context {A : Type} (home : A -> option Z).

Definition vacant (c : A) : bool := bool_decide (home c = None).

(** No empty cell between an entry and its home. *)
Definition probing (cells : list A) : Prop :=
  forall j c i, aget cells j = Some c -> home c = Some i ->
    0 <= i < cap /\
    forall t, 0 <= t < cell_dist (cap - 1) j i ->
      exists c', aget cells (walk i t) = Some c' /\ vacant c' = false.

Lemma vacant_false c i : home c = Some i -> vacant c = false.
Proof. intros H. unfold vacant. by rewrite bool_decide_eq_false, H. Qed.

(** An entry may be put at the first empty cell on the walk from its home. *)
Lemma probing_insert cells c i k cells' :
  probing cells -> zlen cells = cap -> home c = Some i -> 0 <= i < cap -> 0 <= k < cap ->
  (forall t c', 0 <= t < k -> aget cells (walk i t) = Some c' -> vacant c' = false) ->
  aset cells (walk i k) c = Some cells' -> probing cells'.
Proof.
  intros Hp Hlen Hc Hi Hk Hocc Hs j c1 i1 Hj Hc1.
  assert (forall p c', aget cells p = Some c' -> vacant c' = false ->
    exists c'', aget cells' p = Some c'' /\ vacant c'' = false) as Hkeep.
  { intros p c' Hp' Hv. rewrite (aget_aset _ _ _ _ _ Hs). case_decide; [|by eauto].
    exists c. split; [done|]. by eapply vacant_false. }
  rewrite (aget_aset _ _ _ _ _ Hs) in Hj. case_decide as E.
  - assert (c1 = c) as -> by congruence. assert (i1 = i) as -> by congruence. split; [done|].
    subst j. rewrite dist_walk by done. intros t Ht.
    destruct (aget_is_Some cells (walk i t)) as [c' Hc']; [rewrite Hlen; apply walk_range|].
    eapply Hkeep; [done|]. by eapply Hocc.
  - destruct (Hp _ _ _ Hj Hc1) as [? Hch]. split; [done|]. intros t Ht.
    destruct (Hch t Ht) as (c' & Hc' & Hv). by eapply Hkeep.
Qed.

(** Only the homes matter. *)
Lemma probing_same_home cells j x y cells' :
  probing cells -> aget cells j = Some x -> home y = home x -> aset cells j y = Some cells' ->
  probing cells'.
Proof.
  intros Hp Hj Hyx Hs p c i Hpc Hc.
  assert (exists c0, aget cells p = Some c0 /\ home c0 = Some i) as (c0 & Hc0 & Hi).
  { rewrite (aget_aset _ _ _ _ _ Hs) in Hpc. case_decide; [|by eauto]. subst p.
    exists x. split; [done|]. congruence. }
  destruct (Hp _ _ _ Hc0 Hi) as [? Hch]. split; [done|]. intros t Ht.
  destruct (Hch t Ht) as (c' & Hc' & Hv). rewrite (aget_aset _ _ _ _ _ Hs). case_decide as E; [|by eauto].
  exists y. split; [done|]. rewrite <-E, Hj in Hc'. injection Hc' as <-.
  unfold vacant in *. by rewrite Hyx.
Qed.

(** An entry is met before the first empty cell on the walk from its home. *)
Lemma probing_reach cells i k j c ck :
  probing cells -> zlen cells = cap -> aget cells j = Some c -> home c = Some i ->
  0 <= k -> aget cells (walk i k) = Some ck -> vacant ck = true ->
  0 <= cell_dist (cap - 1) j i < k /\ walk i (cell_dist (cap - 1) j i) = j.
Proof.
  intros Hp Hlen Hj Hc Hk Hck Hv. destruct (Hp _ _ _ Hj Hc) as [Hi Hch].
  pose proof (aget_Some_range _ _ _ Hj) as Hjc. rewrite Hlen in Hjc.
  split; [|by apply walk_dist]. pose proof (cell_dist_range j i).
  split; [lia|]. destruct (decide (cell_dist (cap - 1) j i < k)) as [|Hge]; [done|exfalso].
  destruct (decide (k = cell_dist (cap - 1) j i)) as [->|].
  - rewrite walk_dist in Hck by done. assert (ck = c) as -> by congruence.
    by rewrite (vacant_false c i) in Hv.
  - destruct (Hch k ltac:(lia)) as (c' & Hc' & Hv'). congruence.
Qed.

(** Searching from the home of a key: either the entry it hits, or the empty
    cell where it belongs, and then no cell holds it. *)
Lemma probing_search (hit : A -> bool) cells i fuel :
  probing cells -> zlen cells = cap -> 0 <= i < cap -> cap <= Z.of_nat fuel ->
  (exists j c, aget cells j = Some c /\ vacant c = true) ->
  (forall j c, aget cells j = Some c -> hit c = true -> home c = Some i) ->
  exists k c, 0 <= k < cap /\
    probe_until fuel (fun c => vacant c || hit c) cells (cap - 1) i = Some (walk i k) /\
    aget cells (walk i k) = Some c /\
    (forall t c', 0 <= t < k -> aget cells (walk i t) = Some c' -> vacant c' = false) /\
    ((vacant c = false /\ hit c = true) \/
     (vacant c = true /\ forall j c', aget cells j = Some c' -> hit c' = false)).
Proof.
  intros Hp Hlen Hi Hf (j0 & c0 & Hj0 & Hv0) Hhit.
  destruct (probe_until_total (fun c => vacant c || hit c) cells i fuel) as (k & c & Hk & Hpr & Hc & Hs & Hmin);
    [done..|exists j0, c0; split; [done|by rewrite Hv0]|].
  assert (forall t c', 0 <= t < k -> aget cells (walk i t) = Some c' ->
    vacant c' = false /\ hit c' = false) as Hmin'.
  { intros t c' Ht Hc'. specialize (Hmin t c' Ht Hc'). simpl in Hmin. by apply orb_false_iff. }
  exists k, c. split_and!; try done; try lia.
  { intros t c' Ht Hc'. by apply (Hmin' t). }
  destruct (vacant c) eqn:Hv; [right|left; done]. split; [done|].
  intros j c' Hj. apply not_true_iff_false. intros Hh.
  destruct (probing_reach cells i k j c' c) as [Hd Hw]; try done; [by eapply Hhit|lia|].
  destruct (Hmin' (cell_dist (cap - 1) j i) c') as [_ ?]; [lia|by rewrite Hw|congruence].
Qed.
End probing.

Lemma probing_ext {A} (home home' : A -> option Z) cells :
  (forall j c, aget cells j = Some c -> home' c = home c) -> probing home cells -> probing home' cells.
Proof.
  intros He Hp j c i Hj Hc. rewrite (He _ _ Hj) in Hc. destruct (Hp _ _ _ Hj Hc) as [? Hch].
  split; [done|]. intros t Ht. destruct (Hch t Ht) as (c' & Hc' & Hv). exists c'. split; [done|].
  unfold vacant in *. by rewrite (He _ _ Hc').
Qed.
End table.
