(* ===== verification/PathIntern.v ===== *)
(** * Interned paths

    [src/src/util/path_intern.c]: a reference-counted string table with linear
    probing, growth at three quarters load and backward-shift deletion. *)

From stdpp Require Import strings.
From S2P Require Import Prelude Hash.

#[local] Open Scope Z_scope.

(** ** Data *)

(** A heap string: its address and its contents. *)
Record cstr := CStr { addr : Z; text : string }.

(** [str = None] is the null pointer: an empty bucket. *)
Record path_intern_slot := Slot { slot_hash : Z; str : option cstr; refs : Z }.
Definition slot_zero : path_intern_slot := Slot 0 None 0.

Record path_intern := PathIntern { slots : list path_intern_slot; cap : Z; pi_n : Z }.

Definition no_str (s : path_intern_slot) : bool :=
  match str s with Some _ => false | None => true end.

(** ** Operations *)

(** The loop of [slots_rehash] over the old slots, [i] onwards. *)
Fixpoint rehash_loop (n : nat) (old : list path_intern_slot) (i mask : Z)
    (ns : list path_intern_slot) : option (list path_intern_slot) :=
  match n with
  | O => Some ns
  | S n =>
      s ← aget old i;
      if no_str s then rehash_loop n old (i + 1) mask ns
      else
        j ← probe_until (length ns) no_str ns mask (Z.land (slot_hash s) mask);
        ns ← aset ns j s;
        rehash_loop n old (i + 1) mask ns
  end.

(** [calloc_ok] says whether the allocation succeeds; [None] is the failure
    return. *)
Definition slots_rehash (calloc_ok : bool) (pi : path_intern) (new_cap : Z)
    : option (option path_intern) :=
  if calloc_ok then
    ns ← rehash_loop (Z.to_nat (cap pi)) (slots pi) 0 (new_cap - 1)
           (repeat slot_zero (Z.to_nat new_cap));
    Some (Some (PathIntern ns new_cap (pi_n pi)))
  else Some None.

(** The shifting loop of [slot_evict]: [idx] is the gap. *)
Fixpoint shift_loop (fuel : nat) (sl : list path_intern_slot) (mask idx scan : Z)
    : option (list path_intern_slot) :=
  match fuel with
  | O => None
  | S fuel =>
      s ← aget sl scan;
      if no_str s then Some sl
      else
        let ideal := Z.land (slot_hash s) mask in
        if cell_dist mask idx ideal <=? cell_dist mask scan ideal then
          sl ← aset sl idx s;
          sl ← aset sl scan slot_zero;
          shift_loop fuel sl mask scan (cell_next mask scan)
        else shift_loop fuel sl mask idx (cell_next mask scan)
  end.

Definition slot_evict (pi : path_intern) (idx : Z) : option path_intern :=
  if cap pi =? 0 then Some pi
  else
    let mask := cap pi - 1 in
    sl ← aset (slots pi) idx slot_zero;
    sl ← shift_loop (length sl) sl mask idx (cell_next mask idx);
    Some (PathIntern sl (cap pi) (u64 (pi_n pi - 1))).

(** [pi = None] and [s = None] are null pointers in the operations below. *)
Definition path_intern_free (pi : path_intern) : path_intern :=
  if decide (slots pi = []) then pi else PathIntern [] 0 0.

Definition path_intern_reset (pi : path_intern) : path_intern :=
  if decide (slots pi = []) then pi
  else PathIntern (repeat slot_zero (Z.to_nat (cap pi))) (cap pi) 0.

Definition set_refs (s : path_intern_slot) (r : Z) : path_intern_slot :=
  Slot (slot_hash s) (str s) r.

Definition same_str (h : Z) (s : string) (sl : path_intern_slot) : bool :=
  (slot_hash sl =? h) && match str sl with Some c => bool_decide (text c = s) | None => false end.

(** [copy] is the address [strdup] returns, [None] when it fails. The result is
    the returned pointer and the new table. *)
Definition path_intern_acquire (calloc_ok : bool) (copy : option Z) (pi : path_intern) (s : string)
    : option (option cstr * path_intern) :=
  grown ← (if u64 (cap pi * 3) <? u64 ((pi_n pi + 1) * 4) then
             slots_rehash calloc_ok pi (if cap pi =? 0 then 16 else u64 (cap pi * 2))
           else Some (Some pi));
  match grown with
  | None => Some (None, pi)
  | Some pi =>
      let h := hash_fnv1a_str s in
      let mask := cap pi - 1 in
      j ← probe_until (length (slots pi)) (fun sl => no_str sl || same_str h s sl)
            (slots pi) mask (Z.land h mask);
      sl ← aget (slots pi) j;
      match str sl with
      | None =>
          match copy with
          | None => Some (None, pi)
          | Some a =>
              sls ← aset (slots pi) j (Slot h (Some (CStr a s)) 1);
              Some (Some (CStr a s), PathIntern sls (cap pi) (u64 (pi_n pi + 1)))
          end
      | Some c =>
          sls ← aset (slots pi) j (set_refs sl (u32 (refs sl + 1)));
          Some (Some c, PathIntern sls (cap pi) (pi_n pi))
      end
  end.

Definition points_to (a : Z) (sl : path_intern_slot) : bool :=
  match str sl with Some c => addr c =? a | None => false end.

(** The linear scan by pointer. *)
Fixpoint find_ptr (n : nat) (sl : list path_intern_slot) (a i : Z) : option (option Z) :=
  match n with
  | O => Some None
  | S n =>
      s ← aget sl i;
      if points_to a s then Some (Some i) else find_ptr n sl a (i + 1)
  end.

Definition path_intern_release (pi : path_intern) (a : Z) : option path_intern :=
  found ← find_ptr (Z.to_nat (cap pi)) (slots pi) a 0;
  match found with
  | None => Some pi
  | Some idx =>
      sl ← aget (slots pi) idx;
      if refs sl <=? 0 then Some pi
      else
        let r := u32 (refs sl - 1) in
        sls ← aset (slots pi) idx (set_refs sl r);
        let pi := PathIntern sls (cap pi) (pi_n pi) in
        if r =? 0 then slot_evict pi idx else Some pi
  end.

Definition path_intern_owns (pi : path_intern) (a : Z) : option bool :=
  found ← find_ptr (Z.to_nat (cap pi)) (slots pi) a 0;
  Some (bool_decide (is_Some found)).
