(* ===== verification/PathInternProof.v ===== *)
(** * The string table refines a multiset of counted strings

    Proofs about [src/src/util/path_intern.c]: the table invariant, its
    preservation by growth, insertion and backward-shift deletion, and what
    acquire and release do to the set of interned strings. *)

From stdpp Require Import strings.
From S2P Require Import Prelude Hash PathIntern.

#[local] Open Scope Z_scope.

(** ** Occupied slots *)

Definition entries (sls : list path_intern_slot) : list path_intern_slot :=
  filter (fun s => no_str s = false) sls.

Definition home (mask : Z) (s : path_intern_slot) : option Z :=
  match str s with Some _ => Some (Z.land (slot_hash s) mask) | None => None end.

Lemma no_str_vacant mask s : no_str s = vacant (home mask) s.
Proof.
  unfold no_str, vacant, home. by destruct (str s).
Qed.

Lemma home_no_str mask s i : home mask s = Some i -> no_str s = false.
Proof. rewrite (no_str_vacant mask). apply vacant_false. Qed.

Lemma no_str_home mask s : no_str s = false -> home mask s = Some (Z.land (slot_hash s) mask).
Proof. unfold no_str, home. by destruct (str s). Qed.

Lemma home_range c s i : is_pow2 c -> home (c - 1) s = Some i -> 0 <= i < c.
Proof.
  intros Hc. unfold home. destruct (str s); [|done]. intros [= <-]. rewrite land_mask by done.
  apply Z.mod_pos_bound. by apply pow2_pos.
Qed.

Lemma entries_insert sls j x y :
  sls !! j = Some x -> entries (<[j:=y]> sls) ++ entries [x] ≡ₚ entries [y] ++ entries sls.
Proof.
  intros Hj. pose proof (list_elem_of_split_length sls j x Hj) as (l1 & l2 & -> & ->).
  replace (length l1) with (length l1 + 0)%nat at 1 by lia. rewrite insert_app_r. simpl.
  change (y :: l2) with ([y] ++ l2). change (x :: l2) with ([x] ++ l2).
  unfold entries. rewrite !filter_app. solve_Permutation.
Qed.

Lemma entries_one s : entries [s] = if no_str s then [] else [s].
Proof. unfold entries. rewrite filter_cons. destruct (no_str s); by case_decide. Qed.

(** Filling an empty slot, emptying one, and changing one in place. *)
Lemma entries_fill sls j x y sls' :
  aset sls j y = Some sls' -> aget sls j = Some x -> no_str x = true -> no_str y = false ->
  entries sls' ≡ₚ y :: entries sls.
Proof.
  intros [_ ->]%aset_Some [_ Hj]%aget_lookup Hx Hy. pose proof (entries_insert _ _ _ y Hj) as H.
  rewrite !entries_one, Hx, Hy, app_nil_r in H. exact H.
Qed.

Lemma entries_clear sls j x sls' :
  aset sls j slot_zero = Some sls' -> aget sls j = Some x -> no_str x = false ->
  x :: entries sls' ≡ₚ entries sls.
Proof.
  intros [_ ->]%aset_Some [_ Hj]%aget_lookup Hx. pose proof (entries_insert _ _ _ slot_zero Hj) as H.
  rewrite !entries_one, Hx in H. simpl in H. rewrite <-H. apply Permutation_cons_append.
Qed.

Lemma entries_update sls j x y sls' :
  aset sls j y = Some sls' -> aget sls j = Some x -> no_str x = false -> no_str y = false ->
  exists rest, entries sls ≡ₚ x :: rest /\ entries sls' ≡ₚ y :: rest.
Proof.
  intros Hs Hj Hx Hy.
  assert (aset sls j slot_zero = Some (<[Z.to_nat j := slot_zero]> sls)) as Hz
    by (apply aset_range; by eapply aget_Some_range).
  exists (entries (<[Z.to_nat j := slot_zero]> sls)). split; [by rewrite (entries_clear _ _ _ _ Hz Hj Hx)|].
  apply (entries_fill _ j slot_zero); [|by eapply aget_aset_eq|done|done].
  apply aset_Some in Hs as [? ->]. rewrite aset_range by (rewrite length_insert; done).
  f_equal. apply list_insert_insert_eq.
Qed.

Lemma entries_vacant sls :
  zlen (entries sls) < zlen sls -> exists j s, aget sls j = Some s /\ no_str s = true.
Proof.
  intros Hl. destruct (decide (Forall (fun s => no_str s = false) sls)) as [Hall|Hex].
  - exfalso. assert (entries sls = sls) as He; [|rewrite He in Hl; lia]. clear Hl.
    unfold entries. induction Hall as [|s sls Hs _ IH]; [done|].
    by rewrite filter_cons, decide_True, IH.
  - apply not_Forall_Exists in Hex; [|intros; apply _]. apply Exists_exists in Hex as (s & Hs & Hn).
    apply elem_of_aget in Hs as [j Hj]. exists j, s. split; [done|]. by apply not_false_iff_true.
Qed.

Lemma elem_of_entries sls s : s ∈ entries sls <-> no_str s = false /\ exists j, aget sls j = Some s.
Proof. unfold entries. rewrite list_elem_of_filter, elem_of_aget. done. Qed.

(** ** The invariant *)

Definition entry_ok (s : path_intern_slot) : Prop :=
  exists c, str s = Some c /\ slot_hash s = hash_fnv1a_str (text c) /\ 1 <= refs s < 2 ^ 32.

Record pi_ok (pi : path_intern) : Prop := {
  ok_len : zlen (slots pi) = cap pi;
  ok_cap : cap pi = 0 \/ 16 <= cap pi /\ is_pow2 (cap pi);
  ok_n : pi_n pi = zlen (entries (slots pi));
  ok_load : pi_n pi * 4 <= cap pi * 3;
  ok_probe : probing (cap pi) (home (cap pi - 1)) (slots pi);
  ok_entries : Forall entry_ok (entries (slots pi));
  ok_texts : NoDup (fmap text ∘ str <$> entries (slots pi));
  ok_addrs : NoDup (fmap addr ∘ str <$> entries (slots pi)) }.

(** ** Growth *)

Lemma probing_repeat c n : probing c (home (c - 1)) (repeat slot_zero n).
Proof.
  intros j s i Hj Hh. apply aget_lookup in Hj as [_ Hj].
  assert (s ∈ repeat slot_zero n) as Hs by (apply list_elem_of_lookup; eauto).
  apply list_elem_of_In, repeat_spec in Hs as ->. done.
Qed.

Lemma entries_repeat n : entries (repeat slot_zero n) = [].
Proof. unfold entries. induction n as [|n IH]; simpl; [done|]. by rewrite filter_cons, decide_False. Qed.

Lemma rehash_loop_spec m old i c ns :
  is_pow2 c -> 0 <= i -> i + Z.of_nat m = zlen old -> zlen ns = c ->
  probing c (home (c - 1)) ns ->
  entries ns ≡ₚ entries (take (Z.to_nat i) old) -> zlen (entries old) < c ->
  exists ns', rehash_loop m old i (c - 1) ns = Some ns' /\ zlen ns' = c /\
    probing c (home (c - 1)) ns' /\ entries ns' ≡ₚ entries old.
Proof.
  intros Hc. revert i ns. induction m as [|m IH]; intros i ns Hi Hm Hl Hp He Hlt; simpl.
  { exists ns. split_and!; [done..|]. rewrite take_ge in He by lia. done. }
  destruct (aget_is_Some old i ltac:(lia)) as [s Hs]. rewrite Hs. simpl.
  pose proof (take_succ_aget _ _ _ Hs) as Htk.
  assert (entries (take (Z.to_nat (i + 1)) old) = entries (take (Z.to_nat i) old) ++ entries [s]) as Hts.
  { rewrite Htk. unfold entries. by rewrite filter_app. }
  rewrite entries_one in Hts. destruct (no_str s) eqn:Hns.
  { apply IH; try done; [lia|lia|]. rewrite Hts, app_nil_r. done. }
  assert (zlen (entries ns) < c) as Hroom.
  { rewrite (Permutation_length He).
    assert (entries (take (Z.to_nat i) old) ⊆+ entries old).
    { rewrite <-(take_drop (Z.to_nat i) old) at 2. unfold entries. rewrite filter_app.
      apply submseteq_inserts_r. done. }
    pose proof (submseteq_length _ _ H). lia. }
  rewrite (land_mask c) by done.
  assert (0 <= slot_hash s mod c < c) as Hh by (apply Z.mod_pos_bound; by apply pow2_pos).
  destruct (probe_until_total c Hc no_str ns (slot_hash s mod c) (length ns))
    as (k & e & Hk & -> & He' & Hv & Hmin); [done|done|lia| |].
  { destruct (entries_vacant ns) as (j & x & Hj & Hx); [lia|]. eauto. }
  simpl. assert (exists ns1, aset ns (walk c (slot_hash s mod c) k) s = Some ns1) as [ns1 Hset].
  { eexists. apply aset_range. rewrite Hl. by apply walk_range. }
  rewrite Hset. simpl. apply IH; try done; [lia|lia|by rewrite (length_aset _ _ _ _ Hset)| |].
  - eapply (probing_insert c Hc (home (c - 1)) ns s (slot_hash s mod c) k); try done.
    + rewrite (no_str_home (c - 1)) by done. by rewrite (land_mask c).
    + intros t c' Ht Hc'. rewrite <-(no_str_vacant (c - 1)). by eapply Hmin.
  - rewrite (entries_fill _ _ _ _ _ Hset He' Hv Hns), He, Hts. apply Permutation_cons_append.
Qed.

(** A table that replaces another one with the same entries. *)
Lemma pi_ok_same_entries pi sls c :
  pi_ok pi -> zlen sls = c -> 16 <= c -> is_pow2 c -> probing c (home (c - 1)) sls ->
  entries sls ≡ₚ entries (slots pi) -> pi_n pi * 4 <= c * 3 -> pi_ok (PathIntern sls c (pi_n pi)).
Proof.
  intros [] Hl H16 Hc Hp He Hld. split; simpl; try done; [by right|..].
  - by rewrite He.
  - by rewrite He.
  - by rewrite He.
  - by rewrite He.
Qed.

(** The growth step leaves room for one more string. *)
Lemma grow_spec calloc_ok pi :
  pi_ok pi -> cap pi < 2 ^ 60 ->
  exists g, (if u64 (cap pi * 3) <? u64 ((pi_n pi + 1) * 4) then
      slots_rehash calloc_ok pi (if cap pi =? 0 then 16 else u64 (cap pi * 2)) else Some (Some pi)) = Some g /\
    (calloc_ok = true -> is_Some g) /\
    forall pi', g = Some pi' -> pi_ok pi' /\ entries (slots pi') ≡ₚ entries (slots pi) /\
      (pi_n pi' + 1) * 4 <= cap pi' * 3 /\ 16 <= cap pi' /\ is_pow2 (cap pi') /\ pi_n pi' = pi_n pi.
Proof.
  intros Hok Hb. pose proof Hok as [Hl Hcap Hn Hld Hp _ _ _].
  assert (0 <= cap pi) by lia. assert (0 <= pi_n pi) by lia. wrap_id.
  destruct (Z.ltb_spec (cap pi * 3) ((pi_n pi + 1) * 4)) as [Hgrow|Hfit].
  - assert (exists c, (if cap pi =? 0 then 16 else cap pi * 2) = c /\ 16 <= c /\
      is_pow2 c /\ (pi_n pi + 1) * 4 <= c * 3 /\ zlen (entries (slots pi)) < c) as (c & -> & H16 & Hc & Hld' & Hlt).
    { destruct (Z.eqb_spec (cap pi) 0) as [E|E].
      - exists 16. split_and!; try lia. by exists 4.
      - exists (cap pi * 2). split_and!; try lia. destruct Hcap as [|[_ (k & Hk & Hk')]]; [lia|].
        exists (k + 1). split; [lia|]. rewrite Hk', Z.pow_add_r by lia. done. }
    unfold slots_rehash. destruct calloc_ok; [|by exists None].
    assert (zlen (repeat slot_zero (Z.to_nat c)) = c) as Hrl by (rewrite repeat_length; lia).
    destruct (rehash_loop_spec (Z.to_nat (cap pi)) (slots pi) 0 c (repeat slot_zero (Z.to_nat c)))
      as (ns & -> & Hnl & Hnp & Hne); try done; [lia|apply probing_repeat|by rewrite entries_repeat|].
    simpl. eexists. split; [done|]. split; [by eexists|]. intros pi' [= <-]. simpl.
    split_and!; try done. apply pi_ok_same_entries; try done. lia.
  - exists (Some pi). split; [done|]. split; [by eexists|]. intros pi' [= <-].
    assert (16 <= cap pi /\ is_pow2 (cap pi)) as [? ?] by (destruct Hcap as [|[? ?]]; [lia|done]).
    split_and!; done.
Qed.

(** ** Acquire *)

Definition has_text (s : string) (e : path_intern_slot) : Prop := fmap text (str e) = Some s.

(** What an acquire of [s] does to the interned strings [es]. *)
Inductive acquired (calloc_ok : bool) (copy : option Z) (s : string) (es es' : list path_intern_slot)
    : option cstr -> Prop :=
| acq_no_table : calloc_ok = false -> es' ≡ₚ es -> acquired calloc_ok copy s es es' None
| acq_no_copy : copy = None -> Forall (fun e => ~ has_text s e) es -> es' ≡ₚ es ->
    acquired calloc_ok copy s es es' None
| acq_hit e c rest : str e = Some c -> text c = s -> es ≡ₚ e :: rest ->
    es' ≡ₚ set_refs e (refs e + 1) :: rest -> acquired calloc_ok copy s es es' (Some c)
| acq_new a : copy = Some a -> Forall (fun e => ~ has_text s e) es ->
    es' ≡ₚ Slot (hash_fnv1a_str s) (Some (CStr a s)) 1 :: es ->
    acquired calloc_ok copy s es es' (Some (CStr a s)).

Lemma same_str_iff h s e :
  same_str h s e = true <-> slot_hash e = h /\ has_text s e.
Proof.
  unfold same_str, has_text. rewrite andb_true_iff, Z.eqb_eq. destruct (str e); simpl.
  - rewrite bool_decide_eq_true. intuition congruence.
  - intuition congruence.
Qed.

(** Inserting a new string at the empty cell found from its home. *)
Lemma pi_ok_new pi s a k x sls :
  pi_ok pi -> (pi_n pi + 1) * 4 <= cap pi * 3 -> is_pow2 (cap pi) -> 16 <= cap pi ->
  Forall (fun e => ~ has_text s e) (entries (slots pi)) ->
  Forall (fun e => fmap addr (str e) <> Some a) (entries (slots pi)) ->
  0 <= k < cap pi -> let i := hash_fnv1a_str s mod cap pi in
  aget (slots pi) (walk (cap pi) i k) = Some x -> no_str x = true ->
  (forall t c', 0 <= t < k -> aget (slots pi) (walk (cap pi) i t) = Some c' -> no_str c' = false) ->
  aset (slots pi) (walk (cap pi) i k) (Slot (hash_fnv1a_str s) (Some (CStr a s)) 1) = Some sls ->
  pi_ok (PathIntern sls (cap pi) (pi_n pi + 1)) /\
  entries sls ≡ₚ Slot (hash_fnv1a_str s) (Some (CStr a s)) 1 :: entries (slots pi).
Proof.
  intros [] Hld Hc H16 Htx Had Hk i Hx Hv Hocc Hs.
  pose proof (entries_fill _ _ _ _ _ Hs Hx Hv eq_refl) as He. split; [|done].
  split; simpl; rewrite ?He.
  - by rewrite (length_aset _ _ _ _ Hs).
  - by right.
  - simpl. lia.
  - done.
  - eapply (probing_insert (cap pi) Hc _ (slots pi) _ i k); try done.
    + unfold home. simpl. by rewrite (land_mask (cap pi)).
    + apply Z.mod_pos_bound. by apply pow2_pos.
    + intros t c' Ht Hc'. rewrite <-(no_str_vacant (cap pi - 1)). by eapply Hocc.
  - constructor; [|done]. by exists (CStr a s).
  - csimpl. constructor; [|done]. rewrite list_elem_of_fmap. intros (e & He' & Hin).
    rewrite Forall_forall in Htx. by eapply Htx.
  - csimpl. constructor; [|done]. rewrite list_elem_of_fmap. intros (e & He' & Hin).
    rewrite Forall_forall in Had. by eapply Had.
Qed.

(** Changing only the count of an occupied slot. *)
Lemma pi_ok_refs pi j e r sls :
  pi_ok pi -> is_pow2 (cap pi) -> aget (slots pi) j = Some e -> no_str e = false -> 1 <= r < 2 ^ 32 ->
  aset (slots pi) j (set_refs e r) = Some sls ->
  pi_ok (PathIntern sls (cap pi) (pi_n pi)) /\
  exists rest, entries (slots pi) ≡ₚ e :: rest /\ entries sls ≡ₚ set_refs e r :: rest.
Proof.
  intros [] Hc Hj Hne Hr Hs.
  destruct (entries_update _ _ _ _ _ Hs Hj Hne Hne) as (rest & Hr1 & Hr2).
  split; [|by exists rest]. rewrite Hr1 in *. split; simpl; rewrite ?Hr2; try done.
  - by rewrite (length_aset _ _ _ _ Hs).
  - eapply probing_same_home; [done|done| |done]; done.
  - inversion ok_entries0 as [|? ? (c & ? & ? & ?) ?]; subst. constructor; [|done]. by exists c.
Qed.

Lemma path_intern_acquire_spec calloc_ok copy pi s :
  pi_ok pi -> cap pi < 2 ^ 60 ->
  (forall a, copy = Some a -> Forall (fun e => fmap addr (str e) <> Some a) (entries (slots pi))) ->
  Forall (fun e => refs e < 2 ^ 32 - 1) (entries (slots pi)) ->
  exists r pi', path_intern_acquire calloc_ok copy pi s = Some (r, pi') /\ pi_ok pi' /\
    acquired calloc_ok copy s (entries (slots pi)) (entries (slots pi')) r.
Proof.
  intros Hok Hb Hcopy Hrefs. unfold path_intern_acquire.
  destruct (grow_spec calloc_ok pi Hok Hb) as (g & -> & Hg1 & Hg). simpl.
  destruct g as [pi1|].
  2: { exists None, pi. split_and!; [done..|]. apply acq_no_table; [|done].
    destruct calloc_ok; [|done]. by destruct (Hg1 eq_refl). }
  destruct (Hg pi1 eq_refl) as (Hok1 & He1 & Hld & H16 & Hc & Hn1). clear Hg Hg1.
  pose proof (ok_len _ Hok1) as Hl. set (i := hash_fnv1a_str s mod cap pi1).
  assert (0 <= i < cap pi1) as Hi by (apply Z.mod_pos_bound; by apply pow2_pos).
  rewrite (land_mask (cap pi1)) by done. fold i.
  destruct (probing_search (cap pi1) Hc (home (cap pi1 - 1)) (same_str (hash_fnv1a_str s) s)
    (slots pi1) i (length (slots pi1))) as (k & x & Hk & Hpr & Hx & Hocc & Hcase).
  { apply Hok1. } { done. } { done. } { lia. }
  { destruct (entries_vacant (slots pi1)) as (j & e & Hj & He); [pose proof (ok_n _ Hok1); lia|].
    exists j, e. by rewrite <-no_str_vacant. }
  { intros j e Hj [Hh Ht]%same_str_iff. unfold has_text in Ht. unfold home.
    destruct (str e); [|done]. by rewrite Hh, (land_mask (cap pi1)). }
  rewrite (probe_until_ext _ (fun c => vacant (home (cap pi1 - 1)) c || same_str (hash_fnv1a_str s) s c))
    by (intros j c _; by rewrite (no_str_vacant (cap pi1 - 1))).
  rewrite Hpr. simpl. rewrite Hx. simpl.
  destruct Hcase as [[Hv Hhit]|[Hv Hmiss]]; rewrite <-no_str_vacant in Hv.
  - destruct (str x) as [c|] eqn:Ex; [|unfold no_str in Hv; by rewrite Ex in Hv].
    assert (x ∈ entries (slots pi1)) as Hin by (apply elem_of_entries; eauto).
    assert (1 <= refs x < 2 ^ 32 - 1) as Hrx.
    { rewrite Forall_forall in Hrefs. rewrite He1 in Hin. specialize (Hrefs x Hin).
      rewrite <-He1 in Hin. pose proof (ok_entries _ Hok1) as Hall. rewrite Forall_forall in Hall.
      destruct (Hall x Hin) as (? & _ & _ & ?). lia. }
    rewrite u32_id by clia. assert (exists sls, aset (slots pi1) (walk (cap pi1) i k) (set_refs x (refs x + 1)) = Some sls)
      as [sls Hs] by (eexists; apply aset_range; by eapply aget_Some_range).
    rewrite Hs. simpl. destruct (pi_ok_refs pi1 (walk (cap pi1) i k) x (refs x + 1) sls Hok1 Hc Hx Hv ltac:(lia) Hs) as (Hok' & rest & Hr1 & Hr2).
    eexists _, _. split; [done|]. split; [done|]. apply same_str_iff in Hhit as [_ Ht]. unfold has_text in Ht.
    rewrite Ex in Ht. apply (acq_hit _ _ _ _ _ x c rest); [done|by injection Ht|by rewrite <-He1|done].
  - assert (Forall (fun e => ~ has_text s e) (entries (slots pi1))) as Hno.
    { apply Forall_forall. intros e Hin Ht. pose proof (ok_entries _ Hok1) as Hall.
      rewrite Forall_forall in Hall. destruct (Hall e Hin) as (c & Hc' & Hh & _).
      apply elem_of_entries in Hin as [_ [j Hj]]. specialize (Hmiss j e Hj).
      apply not_true_iff_false in Hmiss. apply Hmiss, same_str_iff. split; [|done].
      unfold has_text in Ht. rewrite Hc' in Ht. injection Ht as Ht. by rewrite Hh, Ht. }
    assert (str x = None) as -> by (unfold no_str in Hv; by destruct (str x)).
    destruct copy as [a|].
    + assert (exists sls, aset (slots pi1) (walk (cap pi1) i k) (Slot (hash_fnv1a_str s) (Some (CStr a s)) 1) = Some sls)
        as [sls Hs] by (eexists; apply aset_range; by eapply aget_Some_range).
      pose proof (ok_load _ Hok). pose proof (ok_n _ Hok1).
      rewrite Hs. simpl. rewrite u64_id by clia.
      destruct (pi_ok_new pi1 s a k x sls) as [Hok' He']; try done.
      { rewrite He1. by apply Hcopy. }
      { intros t c' Ht Hc'. rewrite (no_str_vacant (cap pi1 - 1)). by eapply Hocc. }
      eexists _, _. split; [done|]. split; [done|]. simpl. apply acq_new; [done|by rewrite <-He1|by rewrite He', He1].
    + eexists _, _. split; [done|]. split; [done|]. apply acq_no_copy; [done|by rewrite <-He1|done].
Qed.

(** ** Release *)

Section shift.
Context (c g0 v : Z).
Hypothesis Hc : is_pow2 c.
Hypothesis Hg0 : 0 <= g0 < c.
Hypothesis Hvr : v < c.

Notation dist := (cell_dist (c - 1)).
Notation hm := (home (c - 1)).

(** The gap is [g] cells after the first gap [g0], the scan [s] cells; the cell
    [v] is the nearest one known to be empty. An entry whose chain is broken is
    broken only at the gap and lies at the scan or beyond. *)
Record shift_inv (sl : list path_intern_slot) (g s : Z) : Prop := {
  si_len : zlen sl = c;
  si_order : 0 <= g < s /\ s <= v;
  si_gap : exists x, aget sl (walk c g0 g) = Some x /\ no_str x = true;
  si_v : exists x, aget sl (walk c g0 v) = Some x /\ no_str x = true;
  si_probe : forall j e i, aget sl j = Some e -> hm e = Some i ->
    forall t, 0 <= t < dist j i ->
      (exists e', aget sl (walk c i t) = Some e' /\ no_str e' = false) \/
      (walk c i t = walk c g0 g /\ s <= dist j g0) }.

(** Two cells on the walk from [i], the later one seen from the earlier. *)
Lemma dist_split i t j :
  0 <= t <= dist j i -> 0 <= j < c -> dist j (walk c i t) = dist j i - t.
Proof.
  intros Ht Hj. rewrite <-(walk_dist c Hc j i) at 1 by done.
  replace (dist j i) with (t + (dist j i - t)) at 1 by lia.
  rewrite <-walk_walk by done. apply dist_walk; [done|].
  pose proof (cell_dist_range c Hc j i). lia.
Qed.

Lemma dist_from_g0 k j :
  0 <= k < c -> 0 <= j < c ->
  dist j (walk c g0 k) = if decide (k <= dist j g0) then dist j g0 - k else dist j g0 - k + c.
Proof.
  intros Hk Hj. case_decide as E; [by apply dist_split; [lia|done]|].
  pose proof (cell_dist_range c Hc j g0). pose proof (walk_dist c Hc j g0 Hj) as Hw.
  rewrite <-Hw at 1.
  replace (walk c g0 (dist j g0)) with (walk c (walk c g0 k) (dist j g0 - k + c)).
  - apply dist_walk; [done|lia].
  - rewrite walk_walk by done. unfold walk.
    replace (g0 + (k + (dist j g0 - k + c))) with (g0 + dist j g0 + 1 * c) by lia.
    apply Z_mod_plus_full.
Qed.

(** An unbroken chain does not pass an empty cell: if the chain of the entry at
    [j] passes the cell [k] after [g0], and [v'] is an empty cell between [k] and
    [j], then [v'] is the gap. *)
Lemma chain_blocked sl g s j e i t k v' x :
  shift_inv sl g s -> aget sl j = Some e -> hm e = Some i -> 0 <= t < dist j i ->
  walk c i t = walk c g0 k -> 0 <= k <= v' -> v' < c ->
  (k <= dist j g0 -> v' < dist j g0) ->
  aget sl (walk c g0 v') = Some x -> no_str x = true -> v' = g.
Proof.
  intros Hinv Hj He Ht Hw Hk Hv' Hd Hx Hnx. pose proof (aget_Some_range _ _ _ Hj) as Hjr.
  rewrite (si_len _ _ _ Hinv) in Hjr. pose proof (cell_dist_range c Hc j i).
  pose proof (dist_split i t j ltac:(lia) Hjr) as Hs. rewrite Hw in Hs.
  rewrite dist_from_g0 in Hs by (done || lia).
  pose proof (cell_dist_range c Hc j g0).
  assert (t + (v' - k) < dist j i) as Hlt by (case_decide; lia).
  assert (walk c i (t + (v' - k)) = walk c g0 v') as Hwv.
  { rewrite <-walk_walk, Hw, walk_walk by done. f_equal. lia. }
  destruct (si_probe _ _ _ Hinv _ _ _ Hj He (t + (v' - k)) ltac:(lia)) as [(e' & He' & Hne)|[Hg _]].
  - rewrite Hwv in He'. congruence.
  - rewrite Hwv in Hg. pose proof (si_order _ _ _ Hinv).
    apply (walk_inj c Hc g0); [lia|lia|done].
Qed.

(** The cell at the scan is moved into the gap. *)
Lemma shift_inv_move sl g s e i sl1 sl2 :
  shift_inv sl g s -> aget sl (walk c g0 s) = Some e -> hm e = Some i -> s < v ->
  dist (walk c g0 g) i <= dist (walk c g0 s) i ->
  aset sl (walk c g0 g) e = Some sl1 -> aset sl1 (walk c g0 s) slot_zero = Some sl2 ->
  shift_inv sl2 s (s + 1).
Proof.
  intros Hinv He Hh Hsv Hle H1 H2. pose proof Hinv as [Hl Ho (xg & Hxg & Hng) (xv & Hxv & Hnv) Hp].
  assert (walk c g0 g <> walk c g0 s) as Hgs by (intros E; apply walk_inj in E; [lia|done|lia..]).
  assert (walk c g0 v <> walk c g0 s) as Hvs by (intros E; apply walk_inj in E; [lia|done|lia..]).
  assert (walk c g0 v <> walk c g0 g) as Hvg by (intros E; apply walk_inj in E; [lia|done|lia..]).
  assert (forall p, aget sl2 p = if decide (p = walk c g0 s) then Some slot_zero
    else if decide (p = walk c g0 g) then Some e else aget sl p) as Hget.
  { intros p. rewrite (aget_aset _ _ _ _ _ H2), (aget_aset _ _ _ _ _ H1).
    repeat case_decide; congruence. }
  split.
  - by rewrite (length_aset _ _ _ _ H2), (length_aset _ _ _ _ H1).
  - lia.
  - exists slot_zero. by rewrite Hget, decide_True.
  - exists xv. by rewrite Hget, !decide_False.
  - intros j e' i' Hj Hh' t Ht.
    assert (forall p e0, aget sl p = Some e0 -> no_str e0 = false -> p <> walk c g0 s ->
      exists e', aget sl2 p = Some e' /\ no_str e' = false) as Hkeep.
    { intros p e0 Hp0 Hn0 Hps. rewrite Hget, decide_False by done. case_decide; [|by eauto].
      exists e. split; [done|]. by eapply home_no_str. }
    rewrite Hget in Hj.
    case_decide as E1; [by injection Hj as <-|]. case_decide as E2.
    + injection Hj as <-. assert (i' = i) as -> by congruence. subst j. left.
      destruct (Hp _ _ _ He Hh t ltac:(lia)) as [(e0 & He0 & Hn0)|[Hw _]].
      * eapply Hkeep; [done|done|]. intros Hw. rewrite <-Hw, dist_walk in Hle; [lia|done|].
        pose proof (cell_dist_range c Hc (walk c g0 g) i). lia.
      * assert (0 <= t < c) by (pose proof (cell_dist_range c Hc (walk c g0 g) i); lia).
        rewrite <-Hw, dist_walk in Ht by done. lia.
    + destruct (Hp _ _ _ Hj Hh' t Ht) as [(e0 & He0 & Hn0)|[Hw _]].
      2: { left. exists e. rewrite Hw, Hget, decide_False, decide_True by done.
           split; [done|]. by eapply home_no_str. }
      destruct (decide (walk c i' t = walk c g0 s)) as [Hw|Hw]; [|left; by eapply Hkeep].
      right. split; [done|]. destruct (decide (s + 1 <= dist j g0)) as [|Hlt]; [done|exfalso].
      pose proof (aget_Some_range _ _ _ Hj) as Hjr. rewrite Hl in Hjr.
      assert (dist j g0 <> s) as Hns by (intros Hd; apply E1; by rewrite <-Hd, walk_dist).
      assert (v = g) by (eapply (chain_blocked sl g s j e' i' t s v xv); try done; lia). lia.
Qed.

(** The cell at the scan stays. *)
Lemma shift_inv_skip sl g s e i :
  shift_inv sl g s -> aget sl (walk c g0 s) = Some e -> hm e = Some i -> s < v ->
  dist (walk c g0 s) i < dist (walk c g0 g) i -> shift_inv sl g (s + 1).
Proof.
  intros [Hl Ho Hg Hv Hp] He Hh Hsv Hlt. split; try done; [lia|].
  intros j e' i' Hj Hh' t Ht. destruct (Hp _ _ _ Hj Hh' t Ht) as [|[Hw Hd]]; [by left|right].
  split; [done|]. pose proof (aget_Some_range _ _ _ Hj) as Hjr. rewrite Hl in Hjr.
  destruct (decide (dist j g0 = s)) as [E|]; [exfalso|lia].
  assert (j = walk c g0 s) as -> by (rewrite <-E; by rewrite walk_dist).
  assert (e' = e) as -> by congruence. assert (i' = i) as -> by congruence.
  rewrite <-Hw, dist_walk in Hlt; [lia|done|]. pose proof (cell_dist_range c Hc (walk c g0 s) i). lia.
Qed.

(** The scan met an empty cell: every chain is whole again. *)
Lemma shift_inv_end sl g s x :
  shift_inv sl g s -> aget sl (walk c g0 s) = Some x -> no_str x = true -> probing c hm sl.
Proof.
  intros Hinv Hx Hn j e i Hj Hh. split; [by eapply home_range|]. intros t Ht.
  pose proof Hinv as [Hl Ho _ _ Hp].
  destruct (Hp _ _ _ Hj Hh t Ht) as [(e' & ? & Hn')|[Hw Hd]].
  { exists e'. by rewrite <-(no_str_vacant (c - 1)). }
  exfalso. pose proof (aget_Some_range _ _ _ Hj) as Hjr. rewrite Hl in Hjr.
  destruct (decide (dist j g0 = s)) as [E|].
  - assert (j = walk c g0 s) as -> by (rewrite <-E; by rewrite walk_dist).
    assert (e = x) as -> by congruence. apply home_no_str in Hh. congruence.
  - assert (s = g) by (eapply (chain_blocked sl g s j e i t g s x); try done; lia). lia.
Qed.

Lemma shift_loop_spec fuel sl g s :
  shift_inv sl g s -> v - s < Z.of_nat fuel ->
  exists sl', shift_loop fuel sl (c - 1) (walk c g0 g) (walk c g0 s) = Some sl' /\
    zlen sl' = c /\ probing c hm sl' /\ entries sl' ≡ₚ entries sl.
Proof.
  revert sl g s. induction fuel as [|fuel IH]; intros sl g s Hinv Hf; [pose proof (si_order _ _ _ Hinv); lia|].
  pose proof Hinv as [Hl Ho (xg & Hxg & Hng) (xv & Hxv & Hnv) _]. simpl.
  destruct (aget_is_Some sl (walk c g0 s)) as [e He]; [rewrite Hl; by apply walk_range|].
  rewrite He. simpl. destruct (no_str e) eqn:Hne.
  { exists sl. split_and!; try done. by eapply shift_inv_end. }
  assert (s < v) as Hsv.
  { destruct (decide (s = v)) as [->|]; [congruence|lia]. }
  pose proof (no_str_home (c - 1) e Hne) as Hh. rewrite (cell_next_walk c Hc), walk_walk by done.
  destruct (Z.leb_spec (dist (walk c g0 g) (Z.land (slot_hash e) (c - 1)))
                       (dist (walk c g0 s) (Z.land (slot_hash e) (c - 1)))) as [Hle|Hgt].
  - assert (exists sl1, aset sl (walk c g0 g) e = Some sl1) as [sl1 H1]
      by (eexists; apply aset_range; by eapply aget_Some_range).
    rewrite H1. simpl.
    assert (exists sl2, aset sl1 (walk c g0 s) slot_zero = Some sl2) as [sl2 H2].
    { eexists. apply aset_range. rewrite (length_aset _ _ _ _ H1). by eapply aget_Some_range. }
    rewrite H2. simpl. destruct (IH sl2 s (s + 1)) as (sl' & -> & Hl' & Hp' & He'); [|lia|].
    { by eapply shift_inv_move. }
    exists sl'. split_and!; try done. rewrite He'.
    apply (Permutation_cons_inv (a := e)). rewrite (entries_clear _ _ _ _ H2); [|..|done].
    + by apply (entries_fill _ _ _ _ _ H1 Hxg).
    + rewrite (aget_aset_ne _ _ _ _ _ H1); [done|]. intros E. apply walk_inj in E; [lia|done|lia..].
  - destruct (IH sl g (s + 1)) as (sl' & -> & Hl' & Hp' & He'); [|lia|by exists sl'].
    by eapply shift_inv_skip.
Qed.
End shift.

Lemma find_ptr_spec n sl a i :
  0 <= i -> i + Z.of_nat n = zlen sl ->
  (exists idx e, find_ptr n sl a i = Some (Some idx) /\ aget sl idx = Some e /\ points_to a e = true) \/
  (find_ptr n sl a i = Some None /\ forall j e, i <= j -> aget sl j = Some e -> points_to a e = false).
Proof.
  revert i. induction n as [|n IH]; intros i Hi Hn; simpl.
  { right. split; [done|]. intros j e Hj He. apply aget_Some_range in He. lia. }
  destruct (aget_is_Some sl i ltac:(lia)) as [s Hs]. rewrite Hs. simpl.
  destruct (points_to a s) eqn:E; [left; by exists i, s|].
  destruct (IH (i + 1) ltac:(lia) ltac:(lia)) as [?|[Hf Hno]]; [by left|right].
  split; [done|]. intros j e Hj He. destruct (decide (j = i)) as [->|]; [congruence|].
  by eapply Hno; [|done]; lia.
Qed.

Lemma points_to_iff a e : points_to a e = true <-> fmap addr (str e) = Some a.
Proof.
  unfold points_to. destruct (str e); simpl; [|done]. rewrite Z.eqb_eq. split; congruence.
Qed.

Lemma slot_evict_spec pi idx e :
  zlen (slots pi) = cap pi -> 16 <= cap pi -> is_pow2 (cap pi) ->
  probing (cap pi) (home (cap pi - 1)) (slots pi) ->
  zlen (entries (slots pi)) + 1 < cap pi -> 0 < pi_n pi < 2 ^ 64 ->
  aget (slots pi) idx = Some e -> no_str e = false ->
  exists sl, slot_evict pi idx = Some (PathIntern sl (cap pi) (pi_n pi - 1)) /\
    zlen sl = cap pi /\ probing (cap pi) (home (cap pi - 1)) sl /\ e :: entries sl ≡ₚ entries (slots pi).
Proof.
  intros Hl H16 Hc Hp Hroom Hn Hi Hne. unfold slot_evict. rewrite (proj2 (Z.eqb_neq _ 0)) by lia.
  pose proof (aget_Some_range _ _ _ Hi) as Hr. rewrite Hl in Hr.
  assert (exists sl, aset (slots pi) idx slot_zero = Some sl) as [sl Hs] by (eexists; apply aset_range; lia).
  rewrite Hs. simpl. pose proof (entries_clear _ _ _ _ Hs Hi Hne) as He.
  rewrite (cell_next_walk (cap pi) Hc).
  destruct (entries_vacant (slots pi)) as (vj & x & Hvj & Hx); [lia|].
  pose proof (aget_Some_range _ _ _ Hvj) as Hvr. rewrite Hl in Hvr.
  destruct (walk_surj (cap pi) Hc idx vj Hvr) as (v & Hv & Hvw).
  assert (v <> 0) as Hv0.
  { intros ->. rewrite walk_0 in Hvw by done. subst vj. congruence. }
  assert (shift_inv (cap pi) idx v sl 0 1) as Hinv.
  { split.
    - by rewrite (length_aset _ _ _ _ Hs).
    - lia.
    - rewrite walk_0 by done. exists slot_zero. split; [by eapply aget_aset_eq|done].
    - exists x. split; [|done]. rewrite Hvw. rewrite (aget_aset_ne _ _ _ _ _ Hs); [done|congruence].
    - intros j e' i Hj Hh t Ht. rewrite (aget_aset _ _ _ _ _ Hs) in Hj. case_decide as E; [by injection Hj as <-|].
      destruct (Hp _ _ _ Hj Hh) as [_ Hch]. destruct (Hch t Ht) as (c' & Hc' & Hv').
      rewrite <-no_str_vacant in Hv'. rewrite (aget_aset _ _ _ _ _ Hs). case_decide as E'.
      + right. split; [by rewrite walk_0|]. pose proof (cell_dist_range (cap pi) Hc j idx).
        destruct (decide (cell_dist (cap pi - 1) j idx = 0)) as [E0|]; [|lia]. exfalso. apply E.
        pose proof (aget_Some_range _ _ _ Hj) as Hjr. rewrite Hl in Hjr.
        pose proof (walk_dist (cap pi) Hc j idx Hjr) as Hw. rewrite E0, walk_0 in Hw by done. done.
      + left. eauto. }
  destruct (shift_loop_spec (cap pi) idx v Hc ltac:(lia) (length sl) sl 0 1 Hinv)
    as (sl' & Hsl & Hl' & Hp' & He').
  { rewrite (length_aset _ _ _ _ Hs). lia. }
  rewrite walk_0 in Hsl by done. rewrite Hsl. simpl. rewrite u64_id by clia.
  exists sl'. split_and!; try done. by rewrite He'.
Qed.

(** What a release of the pointer [a] does to the interned strings. *)
Inductive released (a : Z) (es es' : list path_intern_slot) : Prop :=
| rel_unknown : Forall (fun e => fmap addr (str e) <> Some a) es -> es' ≡ₚ es -> released a es es'
| rel_dec e rest : fmap addr (str e) = Some a -> es ≡ₚ e :: rest -> 1 < refs e ->
    es' ≡ₚ set_refs e (refs e - 1) :: rest -> released a es es'
| rel_last e rest : fmap addr (str e) = Some a -> es ≡ₚ e :: rest -> refs e = 1 ->
    es' ≡ₚ rest -> released a es es'.

Lemma path_intern_release_spec pi a :
  pi_ok pi -> cap pi < 2 ^ 60 ->
  exists pi', path_intern_release pi a = Some pi' /\ pi_ok pi' /\
    released a (entries (slots pi)) (entries (slots pi')).
Proof.
  intros Hok Hb. unfold path_intern_release. pose proof (ok_len _ Hok) as Hl.
  destruct (find_ptr_spec (Z.to_nat (cap pi)) (slots pi) a 0) as [(idx & e & -> & He & Ha)|[-> Hno]]; [lia|lia|..]; simpl.
  2: { exists pi. split_and!; [done..|]. apply rel_unknown; [|done]. apply Forall_forall.
    intros e [_ [j Hj]]%elem_of_entries Ha%points_to_iff.
    rewrite (Hno j e) in Ha; [done|by eapply aget_Some_range|done]. }
  apply points_to_iff in Ha. rewrite He. simpl.
  assert (no_str e = false) as Hne by (unfold no_str; by destruct (str e)).
  assert (e ∈ entries (slots pi)) as Hin by (apply elem_of_entries; eauto).
  pose proof (ok_entries _ Hok) as Hall.
  assert (entry_ok e) as (c & Hc' & Hh & Hr) by (rewrite Forall_forall in Hall; auto).
  rewrite (proj2 (Z.leb_gt _ _)) by lia. rewrite u32_id by clia.
  assert (exists sls, aset (slots pi) idx (set_refs e (refs e - 1)) = Some sls) as [sls Hs]
    by (eexists; apply aset_range; by eapply aget_Some_range).
  assert (16 <= cap pi /\ is_pow2 (cap pi)) as [H16 Hc].
  { destruct (ok_cap _ Hok); [|done]. apply aget_Some_range in He. lia. }
  rewrite Hs. simpl. destruct (Z.eqb_spec (refs e - 1) 0) as [E|E].
  - destruct (entries_update _ _ _ _ _ Hs He Hne Hne) as (rest & Hr1 & Hr2).
    pose proof Hok as [_ _ Hn Hld Hp _ Htx Had]. rewrite Hr1 in Hn. simpl in Hn.
    destruct (slot_evict_spec (PathIntern sls (cap pi) (pi_n pi)) idx (set_refs e (refs e - 1)))
      as (sl' & Hev & Hl' & Hp' & He'); simpl; try done.
    + by rewrite (length_aset _ _ _ _ Hs).
    + eapply probing_same_home; [done|done| |done]; done.
    + rewrite Hr2. simpl. lia.
    + rewrite Hn. split; [lia|]. clia.
    + by eapply aget_aset_eq.
    + rewrite Hev. assert (entries sl' ≡ₚ rest) as Hrest.
      { apply (Permutation_cons_inv (a := set_refs e (refs e - 1))). by rewrite He', Hr2. }
      eexists. split; [done|]. split; [|by apply (rel_last _ _ _ e rest); [..|lia|]].
      rewrite Hr1 in *. split; simpl; rewrite ?Hrest; try done; try lia; [by right|..].
      * by inversion Hall.
      * by inversion Htx.
      * by inversion Had.
  - destruct (pi_ok_refs pi idx e (refs e - 1) sls) as (Hok' & rest & Hr1 & Hr2); try done; [lia|].
    eexists. split; [done|]. split; [done|]. by apply (rel_dec _ _ _ e rest); [|..|lia|].
Qed.

(** ** Theorems *)

(** C8: [path_intern_acquire] keeps the table invariant (load at most three quarters,
    every string reachable by probing from its home, strings and pointers distinct)
    and does what the header promises. A string that is present gives back the very
    pointer it was interned under and one more reference, whatever [strdup] would
    do; a new string is added once, under the copy's address, with one reference;
    and the call fails only when the table could not grow or the copy could not be
    made, with the interned strings unchanged. *)
Theorem path_intern_acquire_correct calloc_ok copy pi s :
  pi_ok pi -> cap pi < 2 ^ 60 ->
  (forall a, copy = Some a -> Forall (fun e => fmap addr (str e) <> Some a) (entries (slots pi))) ->
  Forall (fun e => refs e < 2 ^ 32 - 1) (entries (slots pi)) ->
  exists r pi', path_intern_acquire calloc_ok copy pi s = Some (r, pi') /\ pi_ok pi' /\
    acquired calloc_ok copy s (entries (slots pi)) (entries (slots pi')) r.
Proof. apply path_intern_acquire_spec. Qed.

Lemma pi_ok_empty : pi_ok (PathIntern [] 0 0).
Proof.
  split; simpl; try done; [by left|by intros ? ? ? ?%aget_Some_range; simpl in *; lia|apply NoDup_nil_2..].
Qed.

(** The table with one string, as [acquire] leaves it. *)
Definition ex_pi : path_intern :=
  match path_intern_acquire true (Some 4096) (PathIntern [] 0 0) "shard/c/0" with
  | Some (_, pi) => pi
  | None => PathIntern [] 0 0
  end.

Lemma ex_pi_ok : pi_ok ex_pi.
Proof.
  destruct (path_intern_acquire_spec true (Some 4096) (PathIntern [] 0 0) "shard/c/0")
    as (r & pi' & He & Hok & _); [apply pi_ok_empty|simpl; lia|by constructor|by constructor|].
  unfold ex_pi. by rewrite He.
Qed.

Lemma ex_pi_entries :
  entries (slots ex_pi) = [Slot (hash_fnv1a_str "shard/c/0") (Some (CStr 4096 "shard/c/0")) 1].
Proof. vm_compute. reflexivity. Qed.

Lemma path_intern_acquire_correct_witness :
  exists r pi', path_intern_acquire true (Some 8192) ex_pi "shard/c/0" = Some (r, pi') /\
    acquired true (Some 8192) "shard/c/0" (entries (slots ex_pi)) (entries (slots pi')) r /\
    r = Some (CStr 4096 "shard/c/0").
Proof.
  destruct (path_intern_acquire_correct true (Some 8192) ex_pi "shard/c/0") as (r & pi' & He & _ & Ha);
    [apply ex_pi_ok|vm_compute; reflexivity| | |].
  - intros a [= <-]. rewrite ex_pi_entries. constructor; [discriminate|constructor].
  - rewrite ex_pi_entries. constructor; [simpl; lia|constructor].
  - exists r, pi'. split; [exact He|]. split; [exact Ha|].
    assert (fst <$> path_intern_acquire true (Some 8192) ex_pi "shard/c/0"
      = Some (Some (CStr 4096 "shard/c/0"))) as Hf by (vm_compute; reflexivity).
    rewrite He in Hf. simpl in Hf. congruence.
Defined.

(** C9: [path_intern_release] of a live pointer drops exactly one reference, and
    when it was the last one removes exactly that string: backward-shift deletion
    keeps every other string reachable and loses none. A pointer the table does not
    own changes nothing. The table invariant is preserved. *)
Theorem path_intern_release_correct pi a :
  pi_ok pi -> cap pi < 2 ^ 60 ->
  exists pi', path_intern_release pi a = Some pi' /\ pi_ok pi' /\
    released a (entries (slots pi)) (entries (slots pi')).
Proof. apply path_intern_release_spec. Qed.

Lemma path_intern_release_correct_witness :
  exists pi', path_intern_release ex_pi 4096 = Some pi' /\ pi_ok pi' /\
    released 4096 (entries (slots ex_pi)) (entries (slots pi')) /\ entries (slots pi') = [].
Proof.
  destruct (path_intern_release_correct ex_pi 4096) as (pi' & He & Hok & Hr);
    [apply ex_pi_ok|vm_compute; reflexivity|].
  exists pi'. split; [exact He|]. split; [exact Hok|]. split; [exact Hr|].
  assert ((fun p => entries (slots p)) <$> path_intern_release ex_pi 4096 = Some []) as Hf
    by (vm_compute; reflexivity).
  rewrite He in Hf. simpl in Hf. congruence.
Defined.
