(* ===== verification/Strbuf.v ===== *)
(** * String buffers and shard paths

    [src/src/util/strbuf.c], and [zarr_shard_path_build] of
    [src/src/zarr/zarr_shard_index.c], which writes shard keys with it. *)

From Stdlib Require Import Ascii.
From stdpp Require Import strings.
From S2P Require Import Prelude.

#[local] Open Scope Z_scope.

Definition STRBUF_INLINE_CAP : Z := 128.

(** [sb_beg = false] is the null [beg] of a zeroed buffer. [content] is the text
    between [beg] and [end]; [sb_cap] is [cap_end - beg]. *)
Record strbuf := StrBuf { sb_beg : bool; is_inline : bool; content : string; sb_cap : Z }.
Definition strbuf_zero : strbuf := StrBuf false false "" 0.

Definition strlen (s : string) : Z := Z.of_nat (String.length s).

Definition activate_inline : strbuf := StrBuf true true "" STRBUF_INLINE_CAP.

Definition strbuf_free (sb : strbuf) : strbuf := StrBuf false false "" 0.

Definition strbuf_reset (sb : strbuf) : strbuf :=
  if sb_beg sb then StrBuf true (is_inline sb) "" (sb_cap sb) else sb.

Definition strbuf_len (sb : strbuf) : Z := if sb_beg sb then strlen (content sb) else 0.
Definition strbuf_cstr (sb : strbuf) : string := if sb_beg sb then content sb else "".

(** The doubling loop; the inner [None] is the overflow return. Sixty-four
    doublings leave the width of [size_t]. *)
Fixpoint double_until (fuel : nat) (new_cap want : Z) : option (option Z) :=
  if new_cap <? want then
    match fuel with
    | O => None
    | S fuel =>
        let doubled := u64 (new_cap * 2) in
        if doubled <? new_cap then Some None else double_until fuel doubled want
    end
  else Some (Some new_cap).

(** [malloc n]: whether an allocation of [n] bytes succeeds. The first component
    of a result is the return code, [true] for failure. *)
Definition strbuf_reserve (malloc : Z -> bool) (sb : strbuf) (need : Z) : option (bool * strbuf) :=
  let sb := if sb_beg sb then sb else activate_inline in
  let len := strlen (content sb) in
  let cap := sb_cap sb in
  if SIZE_MAX - 1 - len <? need then Some (true, sb)
  else
    let want := len + need + 1 in
    if want <=? cap then Some (false, sb)
    else
      grown ← double_until 64 (if cap =? 0 then STRBUF_INLINE_CAP else cap) want;
      match grown with
      | None => Some (true, sb)
      | Some new_cap =>
          if malloc new_cap then Some (false, StrBuf true false (content sb) new_cap)
          else Some (true, sb)
      end.

(** A write of [data] and a terminator past the text; [None] when it does not
    fit the buffer. *)
Definition strbuf_write (sb : strbuf) (data : string) : option strbuf :=
  if strlen (content sb) + strlen data + 1 <=? sb_cap sb
  then Some (StrBuf (sb_beg sb) (is_inline sb) (content sb +:+ data) (sb_cap sb))
  else None.

Definition strbuf_append (malloc : Z -> bool) (sb : strbuf) (data : string) : option (bool * strbuf) :=
  r ← strbuf_reserve malloc sb (strlen data);
  let '(fail, sb) := (r : bool * strbuf) in
  if fail then Some (true, sb)
  else sb ← strbuf_write sb data; Some (false, sb).

Definition strbuf_append_cstr := strbuf_append.

(** [text] is what the format produces; [vsnprintf] reports its length and writes
    it when it fits. *)
Definition strbuf_vappendf (malloc : Z -> bool) (sb : strbuf) (text : string) : option (bool * strbuf) :=
  let sb := if sb_beg sb then sb else activate_inline in
  let avail := sb_cap sb - strlen (content sb) in
  let n := strlen text in
  if n <? avail then sb ← strbuf_write sb text; Some (false, sb)
  else
    r ← strbuf_reserve malloc sb n;
    let '(fail, sb) := (r : bool * strbuf) in
    if fail then Some (true, sb)
    else
      let avail := sb_cap sb - strlen (content sb) in
      if avail <=? n then Some (true, sb)
      else sb ← strbuf_write sb text; Some (false, sb).

Definition strbuf_set (malloc : Z -> bool) (sb : strbuf) (s : string) : option (bool * strbuf) :=
  strbuf_append_cstr malloc (strbuf_reset sb) s.

(** Whether [s] ends with a separator. *)
Fixpoint ends_with_slash (s : string) : bool :=
  match s with
  | EmptyString => false
  | String c EmptyString => bool_decide (c = "/"%char)
  | String _ s => ends_with_slash s
  end.

(** [prefix = None] is the null pointer. *)
Definition strbuf_join_path (malloc : Z -> bool) (sb : strbuf) (prefix : option string) (suffix : string)
    : option (bool * strbuf) :=
  let sb := strbuf_reset sb in
  joined ← match prefix with
           | Some (String c p) =>
               r ← strbuf_append_cstr malloc sb (String c p);
               let '(fail, sb) := (r : bool * strbuf) in
               if fail then Some (true, sb)
               else if (0 <? strbuf_len sb) && negb (ends_with_slash (strbuf_cstr sb))
               then strbuf_append malloc sb "/"
               else Some (false, sb)
           | _ => Some (false, sb)
           end;
  let '(fail, sb) := (joined : bool * strbuf) in
  if fail then Some (true, sb) else strbuf_append_cstr malloc sb suffix.

(** ** Shard paths *)

(** The decimal digits of a 64-bit number, as ["%llu"] prints it. *)
Definition digit (d : Z) : Ascii.ascii := Ascii.ascii_of_nat (48 + Z.to_nat d).
Fixpoint utoa_loop (fuel : nat) (n : Z) (acc : string) : string :=
  match fuel with
  | O => acc
  | S fuel =>
      let acc := String (digit (n mod 10)) acc in
      if n <? 10 then acc else utoa_loop fuel (n / 10) acc
  end.
Definition utoa (n : Z) : string := utoa_loop 20 n "".

Fixpoint append_coord (n : nat) (malloc : Z -> bool) (sb : strbuf) (coord : list Z) (d : Z)
    : option (bool * strbuf) :=
  match n with
  | O => Some (false, sb)
  | S n =>
      c ← aget coord d;
      r ← strbuf_vappendf malloc sb ("/" +:+ utoa c);
      let '(fail, sb) := (r : bool * strbuf) in
      if fail then Some (true, sb) else append_coord n malloc sb coord (d + 1)
  end.

Definition zarr_shard_path_build (malloc : Z -> bool) (sb : strbuf) (prefix : option string)
    (coord : list Z) (rank : Z) : option (bool * strbuf) :=
  r ← strbuf_join_path malloc sb prefix "c";
  let '(fail, sb) := (r : bool * strbuf) in
  if fail then Some (true, sb) else append_coord (Z.to_nat rank) malloc sb coord 0.

(** ** Buffer lemmas *)

(** A usable buffer: its text and terminator fit. *)
Definition sb_ok (sb : strbuf) : Prop :=
  if sb_beg sb then strlen (content sb) + 1 <= sb_cap sb < 2 ^ 64 /\ STRBUF_INLINE_CAP <= sb_cap sb else True.

Lemma strlen_app a b : strlen (a +:+ b) = strlen a + strlen b.
Proof.
  unfold strlen. induction a as [|c a IH]; [done|].
  change (String.length (String c a +:+ b)) with (S (String.length (a +:+ b))). simpl. lia.
Qed.
Lemma strlen_nonneg s : 0 <= strlen s.
Proof. unfold strlen. lia. Qed.

Lemma double_until_spec fuel nc want :
  2 ^ (64 - Z.of_nat fuel) <= nc < 2 ^ 64 -> (fuel <= 64)%nat -> want < 2 ^ 64 ->
  exists r, double_until fuel nc want = Some r /\
    (forall c, r = Some c -> want <= c < 2 ^ 64 /\ nc <= c) /\ (want <= 2 ^ 63 -> is_Some r).
Proof.
  revert nc. induction fuel as [|fuel IH]; intros nc Hnc Hf Hw; simpl.
  { exfalso. change (64 - Z.of_nat 0) with 64 in Hnc. lia. }
  destruct (Z.ltb_spec nc want) as [Hlt|Hge].
  - destruct (decide (nc * 2 < 2 ^ 64)) as [Hd|Hd].
    + rewrite u64_id by (split; lia). rewrite (proj2 (Z.ltb_ge _ _)) by lia.
      destruct (IH (nc * 2)) as (r & -> & Hr & Hs); [|lia|done|].
      { split; [|done]. replace (64 - Z.of_nat fuel) with (64 - Z.of_nat (S fuel) + 1) by lia.
        rewrite Z.pow_add_r by lia. lia. }
      exists r. split_and!; [done| |done]. intros c Hc. destruct (Hr c Hc). split; lia.
    + assert (u64 (nc * 2) = nc * 2 - 2 ^ 64) as ->.
      { unfold u64. rewrite <-(Z.mod_add _ (-1)) by lia. apply Z.mod_small. lia. }
      rewrite (proj2 (Z.ltb_lt _ _)) by lia. exists None. split_and!; [done..|].
      intros H63. change (2 ^ 64) with (2 ^ 63 * 2) in Hd. lia.
  - exists (Some nc). split_and!; [done| |by eauto]. intros c [= <-]. lia.
Qed.

(** What a fallible step [r] on [sb] that should append [data] does. *)
Definition appends (malloc : Z -> bool) (sb : strbuf) (data : string) (r : option (bool * strbuf)) : Prop :=
  exists fail sb', r = Some (fail, sb') /\ sb_ok sb' /\ sb_beg sb' = true /\
    (fail = false -> strbuf_cstr sb' = strbuf_cstr sb +:+ data) /\
    (fail = true -> exists n, malloc n = false).

Lemma reserve_spec malloc sb need :
  sb_ok sb -> 0 <= need -> strlen (strbuf_cstr sb) + need < 2 ^ 62 ->
  exists fail sb', strbuf_reserve malloc sb need = Some (fail, sb') /\ sb_ok sb' /\ sb_beg sb' = true /\
    content sb' = strbuf_cstr sb /\
    (fail = false -> strlen (content sb') + need + 1 <= sb_cap sb') /\
    (fail = true -> exists n, malloc n = false).
Proof.
  intros Hok Hn Hb. unfold strbuf_reserve.
  set (sb1 := if sb_beg sb then sb else activate_inline).
  assert (sb_ok sb1 /\ sb_beg sb1 = true /\ content sb1 = strbuf_cstr sb) as (Hok1 & Hbeg & Hct).
  { subst sb1. unfold strbuf_cstr. destruct (sb_beg sb) eqn:E; [done|]. split_and!; [|done..].
    unfold sb_ok, activate_inline. simpl. unfold STRBUF_INLINE_CAP, strlen. simpl. lia. }
  rewrite <-Hct in Hb |- *. clearbody sb1. clear Hok. unfold sb_ok in Hok1. rewrite Hbeg in Hok1.
  pose proof (strlen_nonneg (content sb1)). rewrite (proj2 (Z.ltb_ge _ _)) by clia.
  assert (sb_ok sb1) as Hok1' by (unfold sb_ok; by rewrite Hbeg).
  destruct (Z.leb_spec (strlen (content sb1) + need + 1) (sb_cap sb1)).
  { exists false, sb1. by split_and!. }
  rewrite (proj2 (Z.eqb_neq _ 0)) by lia.
  destruct (double_until_spec 64 (sb_cap sb1) (strlen (content sb1) + need + 1)) as (r & -> & Hr & Hs);
    [|done|lia|]. { change (64 - Z.of_nat 64) with 0. lia. }
  simpl. destruct (Hs ltac:(lia)) as [c ->]. destruct (Hr c eq_refl) as [Hc1 Hc2].
  destruct (malloc c) eqn:Em.
  - exists false, (StrBuf true false (content sb1) c). split_and!; try done; simpl; [|lia].
    unfold sb_ok. simpl. lia.
  - exists true, sb1. split_and!; try done. by eauto.
Qed.

Lemma write_spec sb data :
  sb_ok sb -> sb_beg sb = true -> strlen (content sb) + strlen data + 1 <= sb_cap sb ->
  exists sb', strbuf_write sb data = Some sb' /\ sb_ok sb' /\ sb_beg sb' = true /\
    strbuf_cstr sb' = content sb +:+ data.
Proof.
  intros Hok Hb Hf. unfold strbuf_write. rewrite (proj2 (Z.leb_le _ _)) by lia.
  eexists. split; [done|]. unfold sb_ok, strbuf_cstr in *. simpl. rewrite Hb in *.
  rewrite strlen_app. split_and!; done || lia.
Qed.

Lemma append_spec malloc sb data :
  sb_ok sb -> strlen (strbuf_cstr sb) + strlen data < 2 ^ 62 ->
  appends malloc sb data (strbuf_append malloc sb data).
Proof.
  intros Hok Hb. unfold strbuf_append, appends.
  destruct (reserve_spec malloc sb (strlen data) Hok (strlen_nonneg _) Hb)
    as (fail & sb1 & -> & Hok1 & Hbeg & Hct & Hroom & Hf). simpl.
  destruct fail; [exists true, sb1; by split_and!|].
  destruct (write_spec sb1 data) as (sb2 & -> & Hok2 & Hb2 & Ht); [done|done|by apply Hroom|].
  simpl. exists false, sb2. split_and!; try done. intros _. by rewrite Ht, Hct.
Qed.

Lemma vappendf_spec malloc sb data :
  sb_ok sb -> strlen (strbuf_cstr sb) + strlen data < 2 ^ 62 ->
  appends malloc sb data (strbuf_vappendf malloc sb data).
Proof.
  intros Hok Hb. unfold strbuf_vappendf, appends.
  set (sb1 := if sb_beg sb then sb else activate_inline).
  assert (sb_ok sb1 /\ sb_beg sb1 = true /\ content sb1 = strbuf_cstr sb) as (Hok1 & Hbeg & Hct).
  { subst sb1. unfold strbuf_cstr. destruct (sb_beg sb) eqn:E; [done|]. split_and!; [|done..].
    unfold sb_ok, activate_inline. simpl. unfold STRBUF_INLINE_CAP, strlen. simpl. lia. }
  clearbody sb1. assert (strbuf_cstr sb1 = content sb1) as Hcs by (unfold strbuf_cstr; by rewrite Hbeg).
  destruct (Z.ltb_spec (strlen data) (sb_cap sb1 - strlen (content sb1))).
  { destruct (write_spec sb1 data) as (sb2 & -> & Hok2 & Hb2 & Ht); [done|done|lia|].
    simpl. exists false, sb2. split_and!; try done. intros _. by rewrite Ht, Hct. }
  destruct (reserve_spec malloc sb1 (strlen data) Hok1 (strlen_nonneg _))
    as (fail & sb2 & -> & Hok2 & Hbeg2 & Hct2 & Hroom & Hf); [by rewrite Hcs, Hct|]. simpl.
  destruct fail; [exists true, sb2; by split_and!|]. specialize (Hroom eq_refl).
  rewrite (proj2 (Z.leb_gt _ _)) by lia.
  destruct (write_spec sb2 data) as (sb3 & -> & Hok3 & Hb3 & Ht); [done|done|done|].
  simpl. exists false, sb3. split_and!; try done. intros _. by rewrite Ht, Hct2, Hcs, Hct.
Qed.

(** ** Decimal text *)

Fixpoint all_digits (s : string) : Prop :=
  match s with
  | EmptyString => True
  | String c s => (exists d, 0 <= d < 10 /\ c = digit d) /\ all_digits s
  end.

(** Reading a number back. *)
Fixpoint dec (s : string) (v : Z) : Z :=
  match s with
  | EmptyString => v
  | String c s => dec s (v * 10 + (Z.of_nat (nat_of_ascii c) - 48))
  end.

Lemma digit_val d : 0 <= d < 10 -> Z.of_nat (nat_of_ascii (digit d)) - 48 = d.
Proof. intros. unfold digit. rewrite nat_ascii_embedding by lia. lia. Qed.

Lemma utoa_loop_spec fuel n acc :
  0 <= n < 10 ^ Z.of_nat fuel -> fuel <> O -> all_digits acc ->
  dec (utoa_loop fuel n acc) 0 = dec acc n /\ all_digits (utoa_loop fuel n acc) /\
  strlen (utoa_loop fuel n acc) <= strlen acc + Z.of_nat fuel.
Proof.
  revert n acc. induction fuel as [|fuel IH]; intros n acc Hn Hf Hd; [done|]. simpl.
  pose proof (Z.mod_pos_bound n 10 ltac:(lia)) as Hm.
  assert (all_digits (String (digit (n mod 10)) acc)) as Hd' by (split; [by eexists|done]).
  assert (strlen (String (digit (n mod 10)) acc) = strlen acc + 1) as Hl by (unfold strlen; simpl; lia).
  destruct (Z.ltb_spec n 10) as [Hlt|Hge].
  - split_and!; [|done|lia]. cbn [dec]. rewrite digit_val, Z.mod_small by lia. f_equal; lia.
  - assert (fuel <> O) as Hf' by (intros ->; simpl in Hn; lia).
    destruct (IH (n / 10) (String (digit (n mod 10)) acc)) as (H1 & H2 & H3); [|done|done|].
    { rewrite Nat2Z.inj_succ, Z.pow_succ_r in Hn by lia. split; [apply Z.div_pos; lia|].
      apply Z.div_lt_upper_bound; lia. }
    rewrite H1. split_and!; [|done|lia]. cbn [dec]. rewrite digit_val by lia. f_equal.
    pose proof (Z.div_mod n 10). lia.
Qed.

Lemma utoa_spec n : is_u64 n -> dec (utoa n) 0 = n /\ all_digits (utoa n) /\ strlen (utoa n) <= 20.
Proof.
  intros Hn. destruct (utoa_loop_spec 20 n "") as (H1 & H2 & H3); [|done|done|].
  - split; [apply Hn|]. eapply Z.lt_trans; [apply Hn|]. vm_compute. reflexivity.
  - split; [exact H1|]. split; [exact H2|exact H3].
Qed.

Lemma utoa_inj a b : is_u64 a -> is_u64 b -> utoa a = utoa b -> a = b.
Proof.
  intros Ha Hb He. destruct (utoa_spec a Ha) as [<- _], (utoa_spec b Hb) as [<- _]. by rewrite He.
Qed.

(** ** Shard paths *)

Fixpoint coord_text (coord : list Z) : string :=
  match coord with
  | [] => ""
  | c :: coord => "/" +:+ utoa c +:+ coord_text coord
  end.

Definition join_text (prefix : option string) (suffix : string) : string :=
  match prefix with
  | Some (String c p) =>
      if ends_with_slash (String c p) then String c p +:+ suffix
      else String c p +:+ "/" +:+ suffix
  | _ => suffix
  end.

Definition shard_path_text (prefix : option string) (coord : list Z) : string :=
  join_text prefix "c" +:+ coord_text coord.

Lemma string_app_assoc (a b c : string) : (a +:+ b) +:+ c = a +:+ b +:+ c.
Proof. induction a as [|x a IH]; [done|]. change (String x ((a +:+ b) +:+ c) = String x (a +:+ b +:+ c)). by f_equal. Qed.

Lemma string_app_nil (a : string) : a +:+ "" = a.
Proof. induction a as [|x a IH]; [done|]. change (String x (a +:+ "") = String x a). by f_equal. Qed.

Lemma coord_text_len coord :
  Forall is_u64 coord -> strlen (coord_text coord) <= 21 * zlen coord.
Proof.
  induction 1 as [|c coord Hc _ IH]; [done|]. cbn [coord_text length]. rewrite !strlen_app.
  destruct (utoa_spec c Hc) as (_ & _ & ?). change (strlen "/") with 1. lia.
Qed.

Lemma shard_path_len prefix coord :
  Forall is_u64 coord ->
  strlen (shard_path_text prefix coord) <= strlen (default "" prefix) + 2 + 21 * zlen coord.
Proof.
  intros Hc. pose proof (coord_text_len coord Hc). unfold shard_path_text. rewrite strlen_app.
  assert (strlen (join_text prefix "c") <= strlen (default "" prefix) + 2); [|lia].
  unfold join_text. destruct prefix as [[|c p]|]; [done| |done].
  change (default "" (Some (String c p))) with (String c p). set (q := String c p).
  destruct (ends_with_slash q); rewrite !strlen_app; change (strlen "/") with 1; change (strlen "c") with 1; lia.
Qed.

(** A text that is empty or starts with the separator. *)
Definition sep_start (s : string) : Prop := s = "" \/ exists s', s = String "/" s'.

Lemma coord_text_sep coord : sep_start (coord_text coord).
Proof. destruct coord as [|c coord]; [by left|right; by eexists]. Qed.

Lemma split_digits a a' r r' :
  all_digits a -> all_digits a' -> sep_start r -> sep_start r' -> a +:+ r = a' +:+ r' -> a = a' /\ r = r'.
Proof.
  assert (forall c s, (exists d, 0 <= d < 10 /\ c = digit d) -> sep_start (String c s) -> False) as Hno.
  { intros c s (d & Hd & ->) [|[s' [= He _]]]; [done|].
    pose proof (digit_val d Hd) as Hv. rewrite He in Hv.
    change (Z.of_nat (nat_of_ascii "/")) with 47 in Hv. lia. }
  revert a'. induction a as [|c a IH]; intros [|c' a'] Ha Ha' Hr Hr' He.
  - done.
  - exfalso. change (r = String c' (a' +:+ r')) in He. subst r. eapply Hno; [apply Ha'|done].
  - exfalso. change (String c (a +:+ r) = r') in He. subst r'. eapply Hno; [apply Ha|done].
  - change (String c (a +:+ r) = String c' (a' +:+ r')) in He. injection He as -> He.
    destruct (IH a') as [-> ->]; try done; [apply Ha|apply Ha'].
Qed.

Lemma coord_text_inj c1 c2 :
  Forall is_u64 c1 -> Forall is_u64 c2 -> coord_text c1 = coord_text c2 -> c1 = c2.
Proof.
  intros H1. revert c2. induction H1 as [|x c1 Hx H1 IH]; intros [|y c2] H2 He; try done.
  inversion H2 as [|? ? Hy H2']; subst. cbn [coord_text] in He.
  change (String "/" (utoa x +:+ coord_text c1) = String "/" (utoa y +:+ coord_text c2)) in He.
  injection He as He. destruct (utoa_spec x Hx) as (_ & Hdx & _), (utoa_spec y Hy) as (_ & Hdy & _).
  destruct (split_digits _ _ _ _ Hdx Hdy (coord_text_sep c1) (coord_text_sep c2) He) as [Hu Hc].
  f_equal; [by apply utoa_inj|by apply IH].
Qed.

Lemma reset_spec sb : sb_ok sb -> sb_ok (strbuf_reset sb) /\ strbuf_cstr (strbuf_reset sb) = "".
Proof.
  unfold sb_ok, strbuf_reset, strbuf_cstr. destruct (sb_beg sb) eqn:E; simpl; rewrite ?E; [|done].
  change (strlen "") with 0. unfold STRBUF_INLINE_CAP in *. intros [? ?]. split; [lia|done].
Qed.

Lemma join_path_spec malloc sb prefix suffix :
  sb_ok sb -> strlen (default "" prefix) + strlen suffix < 2 ^ 61 ->
  exists fail sb', strbuf_join_path malloc sb prefix suffix = Some (fail, sb') /\ sb_ok sb' /\
    (fail = false -> strbuf_cstr sb' = join_text prefix suffix) /\
    (fail = true -> exists n, malloc n = false).
Proof.
  intros Hok Hb. unfold strbuf_join_path. destruct (reset_spec sb Hok) as [Hok0 Ht0].
  pose proof (strlen_nonneg suffix). unfold strbuf_append_cstr.
  assert (forall sb1, sb_ok sb1 -> strlen (strbuf_cstr sb1) + strlen suffix < 2 ^ 62 ->
    exists fail sb', strbuf_append malloc sb1 suffix = Some (fail, sb') /\ sb_ok sb' /\
      (fail = false -> strbuf_cstr sb' = strbuf_cstr sb1 +:+ suffix) /\
      (fail = true -> exists n, malloc n = false)) as Hlast.
  { intros sb1 H1 H2. destruct (append_spec malloc sb1 suffix H1 H2) as (f & sb' & ? & ? & _ & ? & ?). eauto 10. }
  destruct prefix as [[|c p]|]; cbn [join_text].
  - simpl. destruct (Hlast _ Hok0) as (f & sb' & ? & ? & Ht & ?).
    { rewrite Ht0. change (strlen "" + strlen suffix < 2 ^ 61) in Hb. lia. }
    exists f, sb'. rewrite Ht0 in Ht. by split_and!.
  - change (default "" (Some (String c p))) with (String c p) in Hb. set (q := String c p) in *.
    destruct (append_spec malloc (strbuf_reset sb) q Hok0) as (f & sb1 & Hap & Hok1 & Hbeg & Ht1 & Hf1).
    { rewrite Ht0. change (strlen "") with 0. lia. }
    rewrite Hap. simpl. destruct f; [exists true, sb1; by split_and!|].
    specialize (Ht1 eq_refl). rewrite Ht0 in Ht1. change ("" +:+ q) with q in Ht1.
    rewrite Ht1. assert (0 <? strbuf_len sb1 = true) as ->.
    { apply Z.ltb_lt. unfold strbuf_len, strbuf_cstr in *. rewrite Hbeg in *. rewrite Ht1.
      subst q. unfold strlen. simpl. lia. }
    cbn [andb]. destruct (ends_with_slash q) eqn:Es; cbn [negb].
    + destruct (Hlast sb1 Hok1) as (f & sb' & ? & ? & Ht & ?); [rewrite Ht1; lia|].
      exists f, sb'. rewrite Ht1 in Ht. split_and!; try done.
      intros E. rewrite (Ht E). unfold q in Es. simpl in Es. by rewrite Es.
    + destruct (append_spec malloc sb1 "/" Hok1) as (f & sb2 & Hap2 & Hok2 & _ & Ht2 & Hf2).
      { rewrite Ht1. change (strlen "/") with 1. pose proof (strlen_nonneg q). lia. }
      rewrite Hap2. simpl. destruct f; [exists true, sb2; by split_and!|].
      specialize (Ht2 eq_refl). rewrite Ht1 in Ht2.
      destruct (Hlast sb2 Hok2) as (f & sb' & ? & ? & Ht & ?).
      { rewrite Ht2, strlen_app. change (strlen "/") with 1. lia. }
      exists f, sb'. rewrite Ht2, string_app_assoc in Ht. split_and!; try done.
      intros E. rewrite (Ht E). unfold q in Es. simpl in Es. by rewrite Es.
  - simpl. destruct (Hlast _ Hok0) as (f & sb' & ? & ? & Ht & ?).
    { rewrite Ht0. change (strlen "" + strlen suffix < 2 ^ 61) in Hb. lia. }
    exists f, sb'. rewrite Ht0 in Ht. by split_and!.
Qed.

Lemma append_coord_spec malloc coord done_ sb :
  sb_ok sb -> Forall is_u64 coord -> strlen (strbuf_cstr sb) + 21 * zlen coord < 2 ^ 62 ->
  exists fail sb', append_coord (length coord) malloc sb (done_ ++ coord) (zlen done_) = Some (fail, sb') /\
    sb_ok sb' /\ (fail = false -> strbuf_cstr sb' = strbuf_cstr sb +:+ coord_text coord) /\
    (fail = true -> exists n, malloc n = false).
Proof.
  intros Hok HF. revert done_ sb Hok. induction HF as [|c coord Hc HF IH]; intros done_ sb Hok Hb; cbn [length append_coord].
  { exists false, sb. split_and!; try done. intros _. by rewrite string_app_nil. }
  rewrite aget_middle. cbn [length] in Hb. rewrite Nat2Z.inj_succ in Hb. cbn [mbind option_bind].
  destruct (utoa_spec c Hc) as (_ & _ & Hl).
  destruct (vappendf_spec malloc sb ("/" +:+ utoa c) Hok) as (f & sb1 & -> & Hok1 & _ & Ht1 & Hf1).
  { rewrite strlen_app. change (strlen "/") with 1. lia. }
  cbn. destruct f; [exists true, sb1; by split_and!|]. specialize (Ht1 eq_refl).
  destruct (IH (done_ ++ [c]) sb1 Hok1) as (f & sb2 & HI & Hok2 & Ht2 & Hf2).
  { rewrite Ht1, !strlen_app. change (strlen "/") with 1. lia. }
  rewrite <-app_assoc, length_app, Nat2Z.inj_add in HI. simpl in HI.
  change (Z.of_nat 1) with 1 in HI. rewrite HI.
  exists f, sb2. split_and!; try done. intros E. rewrite Ht2, Ht1 by done.
  cbn [coord_text]. by rewrite !string_app_assoc.
Qed.

Lemma shard_path_build_spec malloc sb prefix coord :
  sb_ok sb -> Forall is_u64 coord -> strlen (default "" prefix) < 2 ^ 60 -> zlen coord <= 31 ->
  exists fail sb', zarr_shard_path_build malloc sb prefix coord (zlen coord) = Some (fail, sb') /\
    sb_ok sb' /\ (fail = false -> strbuf_cstr sb' = shard_path_text prefix coord) /\
    (fail = true -> exists n, malloc n = false).
Proof.
  intros Hok Hc Hb Hr. unfold zarr_shard_path_build.
  destruct (join_path_spec malloc sb prefix "c" Hok) as (f & sb1 & -> & Hok1 & Ht1 & Hf1).
  { change (strlen "c") with 1. lia. }
  cbn. destruct f; [exists true, sb1; by split_and!|]. specialize (Ht1 eq_refl). rewrite Nat2Z.id.
  destruct (append_coord_spec malloc coord [] sb1 Hok1 Hc) as (f & sb2 & HI & Hok2 & Ht2 & Hf2).
  { rewrite Ht1. pose proof (shard_path_len prefix [] ltac:(constructor)) as Hl.
    unfold shard_path_text in Hl. rewrite strlen_app in Hl. simpl in Hl. change (strlen "") with 0 in Hl. lia. }
  cbn in HI. change (Z.of_nat 0) with 0 in HI. rewrite HI. exists f, sb2. split_and!; try done. intros E. by rewrite Ht2, Ht1.
Qed.

(** ** Theorem *)

(** C10: [zarr_shard_path_build] never writes outside its buffer, fails only when an
    allocation fails, and otherwise leaves exactly ["<prefix>/c/<a>/<b>/..."] in the
    buffer (no second separator when the prefix ends with one), at most
    [strlen prefix + 2 + 21 * rank] characters; under one prefix, different shard
    coordinates give different paths. *)
Theorem zarr_shard_path_build_correct malloc sb prefix coord :
  sb_ok sb -> Forall is_u64 coord -> strlen (default "" prefix) < 2 ^ 60 -> zlen coord <= 31 ->
  exists fail sb', zarr_shard_path_build malloc sb prefix coord (zlen coord) = Some (fail, sb') /\
    sb_ok sb' /\ (fail = true -> exists n, malloc n = false) /\
    (fail = false ->
       strbuf_cstr sb' = join_text prefix "c" +:+ coord_text coord /\
       strlen (strbuf_cstr sb') <= strlen (default "" prefix) + 2 + 21 * zlen coord /\
       forall coord', Forall is_u64 coord' ->
         join_text prefix "c" +:+ coord_text coord' = strbuf_cstr sb' -> coord' = coord).
Proof.
  intros Hok Hc Hb Hr. destruct (shard_path_build_spec malloc sb prefix coord Hok Hc Hb Hr)
    as (f & sb' & H1 & H2 & H3 & H4).
  exists f, sb'. split_and!; try done. intros E. rewrite (H3 E). split_and!; [done|by apply shard_path_len|].
  unfold shard_path_text. intros coord' Hc' He. apply coord_text_inj; [done|done|].
  revert He. generalize (join_text prefix "c"). intros s. induction s as [|x s IHs]; [done|].
  change (String x (s +:+ coord_text coord') = String x (s +:+ coord_text coord) -> coord_text coord' = coord_text coord).
  intros [= ?]. auto.
Qed.

Lemma zarr_shard_path_build_correct_witness :
  exists sb', zarr_shard_path_build (fun _ => true) strbuf_zero (Some "s3/array") [12; 0; 7] 3 = Some (false, sb') /\
    strbuf_cstr sb' = "s3/array/c/12/0/7".
Proof.
  destruct (zarr_shard_path_build_correct (fun _ => true) strbuf_zero (Some "s3/array") [12; 0; 7])
    as (f & sb' & H1 & _ & Hf & Ht); [exact I| |vm_compute; reflexivity|vm_compute; discriminate|].
  - repeat (constructor; [split; [lia|vm_compute; reflexivity]|]). constructor.
  - destruct f; [destruct (Hf eq_refl); discriminate|]. exists sb'. split; [exact H1|].
    destruct (Ht eq_refl) as [-> _]. vm_compute. reflexivity.
Defined.
