(* ===== verification/PrefetchTypes.v ===== *)
(** * Handles and states of the prefetch caches

    The types of [src/src/prefetch/prefetch_cache.h] and
    [src/src/prefetch/prefetch_handle.h] that the caches and the planner share. *)

From S2P Require Import Prelude.

#[local] Open Scope Z_scope.

Inductive prefetch_state := PREFETCH_STATE_PENDING | PREFETCH_STATE_READY | PREFETCH_STATE_ERROR.
#[export] Instance prefetch_state_eq_dec : EqDecision prefetch_state.
Proof. solve_decision. Defined.

Record prefetch_handle := Handle { h_slot : Z; h_generation : Z }.
Definition PREFETCH_HANDLE_NONE : prefetch_handle := Handle 0 0.
Definition prefetch_handle_valid (h : prefetch_handle) : bool :=
  negb (h_slot h =? 0) || negb (h_generation h =? 0).
