(* ===== verification/Plan.v ===== *)
(** * Plans and array metadata

    The data of [src/src/planner/plan.h], [plan_builder.h] and
    [src/src/zarr/zarr_metadata.h], the element types of [src/src/dtype/dtype.c],
    and the chunk-per-shard arithmetic of [zarr_metadata.c]. *)

From stdpp Require Import strings.
From S2P Require Export PrefetchTypes.
From S2P Require Import Prelude Selection.

#[local] Open Scope Z_scope.

(** ** Element types *)

Inductive zdtype :=
| dtype_u8 | dtype_u16 | dtype_u32 | dtype_u64 | dtype_i8 | dtype_i16 | dtype_i32
| dtype_i64 | dtype_f16 | dtype_f32 | dtype_f64.
#[export] Instance zdtype_eq_dec : EqDecision zdtype.
Proof. solve_decision. Defined.

Definition dtype_bpe (dt : zdtype) : Z :=
  match dt with
  | dtype_u8 | dtype_i8 => 1
  | dtype_u16 | dtype_i16 | dtype_f16 => 2
  | dtype_u32 | dtype_i32 | dtype_f32 => 4
  | dtype_u64 | dtype_i64 | dtype_f64 => 8
  end.

(** The output types, by their enum value: f32, bf16, u8 .. u64, i8 .. i64. *)
Definition output_types : list Z := [4; 2; 1; 2; 4; 8; 1; 2; 4; 8].
Definition damacy_dtype_bpe (dt : Z) : Z := default 0 (aget output_types dt).

Definition cast_path_supported (dst : Z) (src : zdtype) : bool :=
  if damacy_dtype_bpe dst =? 0 then false
  else match src with dtype_f64 => false | _ => true end.

(** ** Array metadata *)

Inductive compression_codec :=
| CODEC_NONE | CODEC_ZSTD | CODEC_BLOSC_LZ4 | CODEC_BLOSC_ZSTD | CODEC_FILL.
#[export] Instance compression_codec_eq_dec : EqDecision compression_codec.
Proof. solve_decision. Defined.

(** The enum values. *)
Definition codec_value (c : compression_codec) : Z :=
  match c with
  | CODEC_NONE => 0 | CODEC_ZSTD => 1 | CODEC_BLOSC_LZ4 => 2 | CODEC_BLOSC_ZSTD => 3
  | CODEC_FILL => 4
  end.

Record zarr_metadata := Meta {
  m_dtype : zdtype; m_rank : Z;
  shape : list Z; inner_chunk_shape : list Z; shard_shape : list Z;
  sharded : bool; inner_codec : compression_codec; index_location_end : bool;
  m_fill_value : list Z }.

(** Per-dimension ratios and their product; the inner [None] is the failure
    return. *)
Fixpoint per_shard_loop (n : nat) (m : zarr_metadata) (d total : Z)
    : option (option (list Z * Z)) :=
  match n with
  | O => Some (Some ([], total))
  | S n =>
      inner ← aget (inner_chunk_shape m) d;
      shard ← aget (shard_shape m) d;
      if (inner =? 0) || negb (shard mod inner =? 0) then Some None
      else
        let per := shard / inner in
        if negb (per =? 0) && (UINT64_MAX / per <? total) then Some None
        else
          rest ← per_shard_loop n m (d + 1) (u64 (total * per));
          Some (option_map (fun r => (per :: fst r, snd r)) rest)
  end.

Definition zarr_metadata_inner_per_shard (m : zarr_metadata) : option (option (list Z * Z)) :=
  per_shard_loop (Z.to_nat (m_rank m)) m 0 1.

(** ** Plans *)

Record plan_array := PlanArray { uri : string; metadata : zarr_metadata }.

(** [coordinate] holds the entries below the rank; the rest of the C array is
    zero. *)
Record plan_chunk := PlanChunk {
  path : option string; offset : Z; coordinate : list Z; array : Z;
  encoded_bytes : Z; decoded_bytes : Z; first_use : Z; missing : bool }.

Inductive plan_operation := PLAN_COPY | PLAN_GATHER.

Record plan_region := PlanRegion {
  operation : plan_operation; r_array : Z; sample : Z; r_source : damacy_aabb;
  r_axes : list query_axis }.

Record plan_use := PlanUse { chunk : Z; region : Z; next : Z }.

Record prepared_plan := PreparedPlan {
  p_output : damacy_batch_spec; arrays : list plan_array; chunks : list plan_chunk;
  regions : list plan_region; uses : list plan_use; allocated_bytes : Z }.

(** Sizes on the 64-bit targets: [zarr_metadata] is 776 bytes, [damacy_aabb] 520 (32 intervals and the rank). *)
Definition sizeof_plan_array : Z := 784.
Definition sizeof_plan_region : Z := 1032.
Definition sizeof_plan_chunk : Z := 288.
Definition sizeof_plan_use : Z := 12.
Definition sizeof_prepared_plan : Z := 328.

Record damacy_plan_limits := Limits {
  max_chunks : Z; max_chunk_bytes : Z; max_shards_per_sample : Z; max_plan_bytes : Z }.

(** ** What the prefetch caches answer *)

(** The state, value and error [prefetch_cache_query] reports; error 0 is
    [DAMACY_OK]. *)
Record query_result (V : Type) := Query { q_state : prefetch_state; q_value : option V; q_error : damacy_status }.
Arguments Query {V}. Arguments q_state {V}. Arguments q_value {V}. Arguments q_error {V}.

Record zarr_shard_entry := ShardEntry { e_offset : Z; e_nbytes : Z }.
Definition ZARR_SHARD_EMPTY_OFFSET : Z := UINT64_MAX.
Definition ZARR_SHARD_EMPTY_NBYTES : Z := UINT64_MAX.
Record shard_index_value := ShardIndex { si_entries : list zarr_shard_entry; n_entries : Z }.

(** What the caches hold while a plan is built: the entries a sample's handles
    name are pinned, so an answer does not change during the build. *)
Class CacheView := {
  query_array : prefetch_handle -> query_result zarr_metadata;
  query_shard : prefetch_handle -> query_result shard_index_value }.

Record planner_sample := PlannerSample {
  ps_uri : option string; ps_aabb : damacy_aabb; ps_axes : list query_axis;
  h_meta : prefetch_handle; h_shards : list prefetch_handle; n_shards : Z;
  h_layout : prefetch_handle }.
