(* ===== verification/PlanBuilder.v ===== *)
(** * Building a plan

    [src/src/planner/plan_builder.c]: the samples of a batch become regions, the
    chunks they touch (each once, through a hash table) and the uses that connect
    the two. All of it lives in one allocation whose size is computed first; here
    each part is a list with the capacity the code gave it, and a write past that
    capacity is [None]. *)

From stdpp Require Import strings.
From S2P Require Import Prelude Hash Strbuf Selection SelectionGrid Plan.

#[local] Open Scope Z_scope.

(** ** Answers of the array cache *)

Definition array_metadata (q : query_result zarr_metadata) : damacy_status + zarr_metadata :=
  match q_state q with
  | PREFETCH_STATE_PENDING => inl DAMACY_AGAIN
  | PREFETCH_STATE_ERROR =>
      inl (if decide (q_error q = DAMACY_OK) then DAMACY_INVAL else q_error q)
  | PREFETCH_STATE_READY =>
      match q_value q with Some m => inr m | None => inl DAMACY_INVAL end
  end.

(** ** Geometry of a sample *)

Fixpoint geometry_loop (n : nat) (s : planner_sample) (m : zarr_metadata)
    (output : damacy_batch_spec) (limits : damacy_plan_limits) (d size : Z)
    : option (damacy_status + Z) :=
  match n with
  | O => Some (inr size)
  | S n =>
      iv ← aget (dims (ps_aabb s)) d;
      let lo := beg iv in
      let hi := end_ iv in
      chunk ← aget (inner_chunk_shape m) d;
      sh ← aget (shape m) d;
      if (lo <? 0) || (hi <=? lo) || (sh <? u64 hi) || (chunk =? 0) then Some (inl DAMACY_INVAL)
      else
        a ← aget (ps_axes s) d;
        let extent := if count a =? 0 then hi - lo else count a in
        out ← aget (sample_shape output) d;
        if negb (extent =? out) then Some (inl DAMACY_INVAL)
        else if max_chunk_bytes limits / chunk <? size then Some (inl DAMACY_BUDGET)
        else geometry_loop n s m output limits (d + 1) (u64 (size * chunk))
  end.

(** The number of chunks the sample touches and the decoded size of one. *)
Definition sample_geometry (s : planner_sample) (m : zarr_metadata) (output : damacy_batch_spec)
    (limits : damacy_plan_limits) : option (damacy_status + Z * Z) :=
  if negb (aabb_rank (ps_aabb s) =? m_rank m) || negb (m_rank m =? sample_rank output)
  then Some (inl DAMACY_RANK)
  else if negb (cast_path_supported (dtype output) (m_dtype m)) then Some (inl DAMACY_DTYPE)
  else
    r ← geometry_loop (Z.to_nat (m_rank m)) s m output limits 0 (dtype_bpe (m_dtype m));
    match r with
    | inl st => Some (inl st)
    | inr size =>
        g ← selection_grid_init (ps_aabb s) (ps_axes s) (inner_chunk_shape m) None None
              (max_chunks limits);
        let '(st, grid) := (g : damacy_status * selection_grid) in
        if decide (st = DAMACY_OK) then Some (inr (u32 (g_count grid), u32 size))
        else Some (inl st)
    end.

Fixpoint chunk_hash_loop (hash : Z) (coordinate : list Z) : Z :=
  match coordinate with
  | [] => hash
  | c :: coordinate => chunk_hash_loop (hash_combine hash c) coordinate
  end.
Definition chunk_hash (array : Z) (coordinate : list Z) : Z := chunk_hash_loop array coordinate.

(** ** Sizing *)

(** The bytes of the index arrays of one sample, added to [index_bytes]. *)
Fixpoint index_bytes_loop (n : nat) (axes : list query_axis) (max_bytes d index_bytes : Z)
    : option (damacy_status + Z) :=
  match n with
  | O => Some (inr index_bytes)
  | S n =>
      a ← aget axes d;
      let size := u64 (count a * sizeof_query_index) in
      if (max_bytes <? size) || (u64 (max_bytes - size) <? index_bytes) then Some (inl DAMACY_BUDGET)
      else index_bytes_loop n axes max_bytes (d + 1) (u64 (index_bytes + size))
  end.

Record sizes := Sizes { capacity : Z; path_bytes : Z; index_bytes : Z }.

Section build.
Context `{CacheView}.

Definition size_sample (s : planner_sample) (output : damacy_batch_spec)
    (limits : damacy_plan_limits) (z : sizes) : option (damacy_status + sizes) :=
  match ps_uri s with
  | None => Some (inl DAMACY_INVAL)
  | Some u =>
      if max_shards_per_sample limits <? n_shards s then Some (inl DAMACY_INVAL)
      else
        match array_metadata (query_array (h_meta s)) with
        | inl st => Some (inl st)
        | inr m =>
            g ← sample_geometry s m output limits;
            match g with
            | inl st => Some (inl st)
            | inr (cnt, _) =>
                ib ← index_bytes_loop (Z.to_nat (m_rank m)) (ps_axes s) (max_plan_bytes limits) 0
                       (index_bytes z);
                match ib with
                | inl st => Some (inl st)
                | inr ib =>
                    let cap := u64 (capacity z + cnt) in
                    if max_chunks limits <? cap then Some (inl DAMACY_BUDGET)
                    else
                      let length := u64 (strlen u + 1) in
                      let per_path := u64 (length + 3 + m_rank m * 21) in
                      if (max_plan_bytes limits <? per_path)
                         || (max_plan_bytes limits / per_path <? n_shards s)
                      then Some (inl DAMACY_BUDGET)
                      else
                        let addition := u64 (length + per_path * n_shards s) in
                        if (max_plan_bytes limits <? addition)
                           || (u64 (max_plan_bytes limits - addition) <? path_bytes z)
                        then Some (inl DAMACY_BUDGET)
                        else Some (inr (Sizes cap (u64 (path_bytes z + addition)) ib))
                end
            end
        end
  end.

Fixpoint size_loop (samples : list planner_sample) (output : damacy_batch_spec)
    (limits : damacy_plan_limits) (z : sizes) : option (damacy_status + sizes) :=
  match samples with
  | [] => Some (inr z)
  | s :: samples =>
      r ← size_sample s output limits z;
      match r with
      | inl st => Some (inl st)
      | inr z => size_loop samples output limits z
      end
  end.

(** [while (buckets < 2 * capacity) buckets *= 2]. [capacity] is at most
    [max_chunks], 32 bits wide, so 33 doublings are enough. *)
Fixpoint buckets_loop (fuel : nat) (buckets cap : Z) : option Z :=
  if buckets <? u64 (2 * cap) then
    match fuel with
    | O => None
    | S fuel => buckets_loop fuel (u64 (buckets * 2)) cap
    end
  else Some buckets.

(** ** Filling *)

(** [b_paths] and [b_indices] count the bytes and the index entries written so
    far; [b_path] is the scratch string. *)
Record build_state := Build {
  b_arrays : list plan_array; b_regions : list plan_region;
  b_chunks : list plan_chunk; b_uses : list plan_use; b_table : list Z;
  b_paths : Z; b_indices : Z; b_path : strbuf }.

(** The sizes of the parts of the allocation. *)
Record room := Room { r_samples : Z; r_capacity : Z; r_paths : Z; r_indices : Z; r_buckets : Z }.

(** Writing entry [zlen l] of an array with [cap] entries. *)
Definition push {A} (cap : Z) (l : list A) (x : A) : option (list A) :=
  if zlen l <? cap then Some (l ++ [x]) else None.

(** [copy_path]: the string and its terminator go to the path bytes. *)
Definition copy_path (cap used : Z) (p : string) : option Z :=
  if used + (strlen p + 1) <=? cap then Some (used + (strlen p + 1)) else None.

(** The first array with this uri, from [i]. *)
Fixpoint find_array (arrays : list plan_array) (u : string) (i : Z) : Z :=
  match arrays with
  | [] => i
  | a :: arrays => if decide (uri a = u) then i else find_array arrays u (i + 1)
  end.

(** The axes of a region and the number of index entries they take. *)
Fixpoint copy_axes_loop (n : nat) (axes : list query_axis) (d used cap : Z)
    : option (list query_axis * bool * Z) :=
  match n with
  | O => Some ([], false, used)
  | S n =>
      a ← aget axes d;
      if count a =? 0 then
        rest ← copy_axes_loop n axes (d + 1) used cap;
        let '(l, g, used) := (rest : list query_axis * bool * Z) in
        Some (query_axis_none :: l, g, used)
      else
        if cap <? used + count a then None
        else
          rest ← copy_axes_loop n axes (d + 1) (used + count a) cap;
          let '(l, _, used) := (rest : list query_axis * bool * Z) in
          Some (QueryAxis (take (Z.to_nat (count a)) (indices a)) (count a) :: l, true, used)
  end.

(** [lo], [hi] of the shard at [coord], in chunks. *)
Fixpoint shard_cells (coord per : list Z) : list Z * list Z :=
  match coord, per with
  | c :: coord, p :: per =>
      let lo := u64 (c * p) in
      let r := shard_cells coord per in
      (lo :: fst r, u64 (lo + p) :: snd r)
  | _, _ => ([], [])
  end.

(** The row-major index of a chunk in its shard. *)
Fixpoint entry_index_loop (acc : Z) (coord per : list Z) : Z :=
  match coord, per with
  | c :: coord, p :: per => entry_index_loop (u64 (u64 (acc * p) + c mod p)) coord per
  | _, _ => acc
  end.

(** The chunk as read from its shard's index: the entry's checks included. *)
Definition chunk_of_entry (index : option shard_index_value) (proto : plan_chunk) (entry_index : Z)
    : option (damacy_status + plan_chunk) :=
  match index with
  | None => Some (inr proto)
  | Some idx =>
      if n_entries idx <=? entry_index then Some (inl DAMACY_DECODE)
      else
        e ← aget (si_entries idx) entry_index;
        let empty_offset := e_offset e =? ZARR_SHARD_EMPTY_OFFSET in
        let empty_size := e_nbytes e =? ZARR_SHARD_EMPTY_NBYTES in
        if negb (Bool.eqb empty_offset empty_size)
           || (negb empty_size && ((e_nbytes e =? 0) || (UINT32_MAX <? e_nbytes e)
                                   || (u64 (UINT64_MAX - e_nbytes e) <? e_offset e)))
        then Some (inl DAMACY_DECODE)
        else Some (inr (PlanChunk (path proto) (if empty_size then 0 else e_offset e)
                          (coordinate proto) (array proto)
                          (if empty_size then 0 else e_nbytes e) (decoded_bytes proto)
                          (first_use proto) empty_size))
  end.

Definition same_chunk (a : Z) (coord : list Z) (c : plan_chunk) : bool :=
  (array c =? a) && bool_decide (coordinate c = coord).

(** The table probe stops at an empty bucket or at the chunk itself. *)
Definition table_stop (chunks : list plan_chunk) (a : Z) (coord : list Z) (t : Z) : bool :=
  (t =? 0) || match aget chunks (t - 1) with Some c => same_chunk a coord c | None => false end.

Definition set_first_use (c : plan_chunk) (u : Z) : plan_chunk :=
  PlanChunk (path c) (offset c) (coordinate c) (array c) (encoded_bytes c) (decoded_bytes c) u (missing c).

(** One chunk of region [i]. *)
Definition add_use (rm : room) (i : Z) (c : plan_chunk) (st : build_state)
    : option (damacy_status + build_state) :=
  let mask := r_buckets rm - 1 in
  b ← probe_until (length (b_table st)) (table_stop (b_chunks st) (array c) (coordinate c))
        (b_table st) mask (Z.land (chunk_hash (array c) (coordinate c)) mask);
  t ← aget (b_table st) b;
  placed ← (if t =? 0 then
              chunks ← push (r_capacity rm) (b_chunks st) c;
              table ← aset (b_table st) b (u32 (zlen (b_chunks st) + 1));
              Some (zlen (b_chunks st), chunks, table)
            else Some (t - 1, b_chunks st, b_table st));
  let '(chunk_index, chunks, table) := (placed : Z * list plan_chunk * list Z) in
  if r_capacity rm <=? zlen (b_uses st) then Some (inl DAMACY_BUDGET)
  else
    stored ← aget chunks chunk_index;
    uses ← push (r_capacity rm) (b_uses st) (PlanUse chunk_index i (first_use stored));
    chunks ← aset chunks chunk_index (set_first_use stored (zlen (b_uses st)));
    Some (inr (Build (b_arrays st) (b_regions st) chunks uses table (b_paths st) (b_indices st) (b_path st))).

(** The [while (selection_grid_next(&chunks, coordinate))] loop over the
    coordinates of one shard. *)
Fixpoint chunk_loop (rm : room) (i a decoded : Z) (per : list Z) (index : option shard_index_value)
    (shard_path : option string) (coords : list (list Z)) (st : build_state)
    : option (damacy_status + build_state) :=
  match coords with
  | [] => Some (inr st)
  | c :: coords =>
      let proto := PlanChunk shard_path 0 c a 0 decoded UINT32_MAX (bool_decide (index = None)) in
      r ← chunk_of_entry index proto (entry_index_loop 0 c per);
      match r with
      | inl e => Some (inl e)
      | inr ck =>
          r ← add_use rm i ck st;
          match r with
          | inl e => Some (inl e)
          | inr st => chunk_loop rm i a decoded per index shard_path coords st
          end
      end
  end.

(** The fields of a query of the shard cache that end the build: [None] goes on,
    with [None] as the index of a missing shard. *)
Definition shard_answer (q : query_result shard_index_value)
    : damacy_status + option shard_index_value :=
  let gone := bool_decide (q_state q = PREFETCH_STATE_ERROR) && bool_decide (q_error q = DAMACY_NOTFOUND) in
  if gone then inr None
  else
    match q_state q, q_value q with
    | PREFETCH_STATE_READY, Some v => inr (Some v)
    | s, _ =>
        inl (if decide (s = PREFETCH_STATE_PENDING) then DAMACY_AGAIN
             else if decide (q_error q = DAMACY_OK) then DAMACY_DECODE else q_error q)
    end.

Definition with_path (st : build_state) (p : strbuf) (used : Z) : build_state :=
  Build (b_arrays st) (b_regions st) (b_chunks st) (b_uses st) (b_table st) used (b_indices st) p.

(** One shard of a sample. *)
Definition add_shard (malloc : Z -> bool) (rm : room) (limits : damacy_plan_limits) (i a decoded : Z)
    (s : planner_sample) (u : string) (m : zarr_metadata) (per : list Z) (k : Z) (coord : list Z)
    (st : build_state) : option (damacy_status + build_state) :=
  if n_shards s <=? k then Some (inl DAMACY_INVAL)
  else
    h ← aget (h_shards s) k;
    match shard_answer (query_shard h) with
    | inl e => Some (inl e)
    | inr index =>
        pathed ← match index with
                 | None => Some (inr (st, None))
                 | Some _ =>
                     r ← zarr_shard_path_build malloc (b_path st) (Some u) coord (m_rank m);
                     let '(fail, sb) := (r : bool * strbuf) in
                     if fail then Some (inl DAMACY_OOM)
                     else
                       used ← copy_path (r_paths rm) (b_paths st) (strbuf_cstr sb);
                       Some (inr (with_path st sb used, Some (strbuf_cstr sb)))
                 end;
        match pathed with
        | inl e => Some (inl e)
        | inr (st, shard_path) =>
            let '(lo, hi) := shard_cells coord per in
            g ← selection_grid_init (ps_aabb s) (ps_axes s) (inner_chunk_shape m) (Some lo) (Some hi)
                  (max_chunks limits);
            let '(e, grid) := (g : damacy_status * selection_grid) in
            if decide (e = DAMACY_OK) then
              coords ← grid_drain (S (Z.to_nat (g_count grid))) grid;
              chunk_loop rm i a decoded per index shard_path coords st
            else Some (inl e)
        end
    end.

Fixpoint shard_loop (malloc : Z -> bool) (rm : room) (limits : damacy_plan_limits) (i a decoded : Z)
    (s : planner_sample) (u : string) (m : zarr_metadata) (per : list Z) (k : Z)
    (coords : list (list Z)) (st : build_state) : option (damacy_status + build_state) :=
  match coords with
  | [] => Some (if k =? n_shards s then inr st else inl DAMACY_INVAL)
  | c :: coords =>
      r ← add_shard malloc rm limits i a decoded s u m per k c st;
      match r with
      | inl e => Some (inl e)
      | inr st => shard_loop malloc rm limits i a decoded s u m per (u32 (k + 1)) coords st
      end
  end.

(** The array of a sample and its region. *)
Definition add_region (rm : room) (i : Z) (s : planner_sample) (u : string) (m : zarr_metadata)
    (st : build_state) : option (Z * build_state) :=
  let a := find_array (b_arrays st) u 0 in
  arr ← (if a =? zlen (b_arrays st) then
           used ← copy_path (r_paths rm) (b_paths st) u;
           l ← push (r_samples rm) (b_arrays st) (PlanArray u m);
           Some (l, used)
         else Some (b_arrays st, b_paths st));
  let '(arrays, used) := (arr : list plan_array * Z) in
  cp ← copy_axes_loop (Z.to_nat (m_rank m)) (ps_axes s) 0 (b_indices st) (r_indices rm);
  let '(axes, gather, idx) := (cp : list query_axis * bool * Z) in
  regions ← push (r_samples rm) (b_regions st)
    (PlanRegion (if (gather : bool) then PLAN_GATHER else PLAN_COPY) a i (ps_aabb s) axes);
  Some (a, Build arrays regions (b_chunks st) (b_uses st) (b_table st) used idx (b_path st)).

Definition add_sample (malloc : Z -> bool) (rm : room) (output : damacy_batch_spec)
    (limits : damacy_plan_limits) (i : Z) (s : planner_sample) (st : build_state)
    : option (damacy_status + build_state) :=
  u ← ps_uri s;
  match array_metadata (query_array (h_meta s)) with
  | inl e => Some (inl e)
  | inr m =>
      rg ← add_region rm i s u m st;
      let '(a, st) := (rg : Z * build_state) in
      geo ← sample_geometry s m output limits;
      match geo with
      | inl e => Some (inl e)
      | inr (_, decoded) =>
          pers ← zarr_metadata_inner_per_shard m;
          match pers with
          | None => Some (inl DAMACY_DECODE)
          | Some (per, _) =>
              g ← selection_grid_init (ps_aabb s) (ps_axes s) (shard_shape m) None None
                    (max_shards_per_sample limits);
              let '(e, grid) := (g : damacy_status * selection_grid) in
              if decide (e = DAMACY_OK) then
                coords ← grid_drain (S (Z.to_nat (g_count grid))) grid;
                shard_loop malloc rm limits i a decoded s u m per 0 coords st
              else Some (inl e)
          end
      end
  end.

Fixpoint sample_loop (malloc : Z -> bool) (rm : room) (output : damacy_batch_spec)
    (limits : damacy_plan_limits) (i : Z) (samples : list planner_sample) (st : build_state)
    : option (damacy_status + build_state) :=
  match samples with
  | [] => Some (inr st)
  | s :: samples =>
      r ← add_sample malloc rm output limits i s st;
      match r with
      | inl e => Some (inl e)
      | inr st => sample_loop malloc rm output limits (i + 1) samples st
      end
  end.

(** The null checks on the pointers are left out, the value checks are not. *)
Definition prepared_plan_build (malloc : Z -> bool) (samples : list planner_sample)
    (output : damacy_batch_spec) (limits : damacy_plan_limits)
    : option (damacy_status + prepared_plan) :=
  let n_samples := zlen samples in
  if (n_samples =? 0) || (max_chunks limits =? 0) || (max_chunk_bytes limits =? 0)
     || (sample_rank output =? 0) || (DAMACY_MAX_RANK <? sample_rank output)
  then Some (inl DAMACY_INVAL)
  else
    r ← size_loop samples output limits (Sizes 0 0 0);
    match r with
    | inl e => Some (inl e)
    | inr z =>
        buckets ← buckets_loop 33 1 (capacity z);
        let storage_bytes :=
          u64 (n_samples * (sizeof_plan_array + sizeof_plan_region)
               + capacity z * (sizeof_plan_chunk + sizeof_plan_use)
               + buckets * 4 + path_bytes z) in
        if u64 (UINT64_MAX - storage_bytes) <? index_bytes z then Some (inl DAMACY_BUDGET)
        else
          let storage_bytes := u64 (storage_bytes + index_bytes z) in
          if (SIZE_MAX <? storage_bytes) || (max_plan_bytes limits <? storage_bytes)
             || (u64 (max_plan_bytes limits - storage_bytes) <? sizeof_prepared_plan)
          then Some (inl DAMACY_BUDGET)
          else if negb (malloc sizeof_prepared_plan) then Some (inl DAMACY_OOM)
          else if negb (malloc storage_bytes) then Some (inl DAMACY_OOM)
          else
            let rm := Room n_samples (capacity z) (path_bytes z)
                        (index_bytes z / sizeof_query_index) buckets in
            r ← sample_loop malloc rm output limits 0 samples
                  (Build [] [] [] [] (repeat 0 (Z.to_nat buckets)) 0 0 strbuf_zero);
            match r with
            | inl e => Some (inl e)
            | inr st =>
                Some (inr (PreparedPlan output (b_arrays st) (b_chunks st) (b_regions st)
                             (b_uses st) (sizeof_prepared_plan + storage_bytes)))
            end
    end.
End build.
