(* ===== verification/PlanTable.v ===== *)
(** * Shards and the chunk table of a plan

    Parts of [src/src/planner/plan_builder.c]: the open-addressing table that finds a
    chunk again, and the shards a sample touches with their chunks. *)

From stdpp Require Import strings.
From S2P Require Import Prelude Hash Strbuf Selection SelectionGrid Plan PlanBuilder.

#[local] Open Scope Z_scope.

(** What identifies a chunk. *)
Definition key (c : plan_chunk) : Z * list Z := (array c, coordinate c).
#[export] Instance key_eq_dec (a b : plan_chunk) : Decision (key a = key b).
Proof. apply _. Defined.

Lemma same_chunk_iff c c' : same_chunk (array c) (coordinate c) c' = true <-> key c' = key c.
Proof.
  unfold same_chunk, key. rewrite andb_true_iff, Z.eqb_eq, bool_decide_eq_true. split.
  - intros [-> ->]. done.
  - intros [= -> ->]. done.
Qed.

(** The last use of chunk [x] in [us], [UINT32_MAX] when there is none. *)
Fixpoint last_use_from (us : list plan_use) (x p acc : Z) : Z :=
  match us with
  | [] => acc
  | u :: us => last_use_from us x (p + 1) (if decide (chunk u = x) then p else acc)
  end.
Definition last_use (us : list plan_use) (x : Z) : Z := last_use_from us x 0 UINT32_MAX.

Lemma last_use_snoc us u x :
  last_use (us ++ [u]) x = if decide (chunk u = x) then zlen us else last_use us x.
Proof.
  unfold last_use. enough (forall p acc, last_use_from (us ++ [u]) x p acc =
    if decide (chunk u = x) then p + zlen us else last_use_from us x p acc) as ->; [done|].
  induction us as [|v us IH]; intros p acc; simpl.
  - case_decide; [lia|done].
  - rewrite IH. case_decide; [lia|done].
Qed.

Lemma last_use_fresh us x : Forall (fun u => chunk u <> x) us -> last_use us x = UINT32_MAX.
Proof.
  unfold last_use. intros HF. enough (forall p acc, last_use_from us x p acc = acc) as ->; [done|].
  induction HF as [|u us Hu _ IH]; intros p acc; simpl; [done|]. by rewrite IH, decide_False.
Qed.

Definition home (mask : Z) (chunks : list plan_chunk) (t : Z) : option Z :=
  if decide (t = 0) then None
  else c ← aget chunks (t - 1); Some (Z.land (chunk_hash (array c) (coordinate c)) mask).

(** The chunks, uses and table after the visits [vs]: pairs of a region and the
    chunk as read from its shard. *)
Record dedup (bk : Z) (vs : list (Z * plan_chunk)) (chunks : list plan_chunk) (uses : list plan_use)
    (table : list Z) : Prop := {
  dd_len : zlen table = bk;
  dd_cells : forall j t, aget table j = Some t -> 0 <= t <= zlen chunks;
  dd_inj : forall j j' t, t <> 0 -> aget table j = Some t -> aget table j' = Some t -> j = j';
  dd_all : forall x, 0 <= x < zlen chunks -> exists j, aget table j = Some (x + 1);
  dd_probe : probing bk (home (bk - 1) chunks) table;
  dd_distinct : forall x y cx cy, aget chunks x = Some cx -> aget chunks y = Some cy ->
    key cx = key cy -> x = y;
  dd_count : zlen uses = zlen vs /\ zlen chunks <= zlen vs;
  dd_uses : forall p i c, aget vs p = Some (i, c) ->
    exists u ck, aget uses p = Some u /\ region u = i /\ aget chunks (chunk u) = Some ck /\ key ck = key c;
  dd_first : forall x ck, aget chunks x = Some ck ->
    exists p i c, aget vs p = Some (i, c) /\ ck = set_first_use c (first_use ck) /\
      forall q j d, 0 <= q < p -> aget vs q = Some (j, d) -> key d <> key c;
  dd_chain : forall x ck, aget chunks x = Some ck -> first_use ck = last_use uses x;
  dd_next : forall p u, aget uses p = Some u -> next u = last_use (take (Z.to_nat p) uses) (chunk u);
  dd_range : Forall (fun u => 0 <= chunk u < zlen chunks) uses }.

Lemma dedup_nil bk : 0 <= bk -> dedup bk [] [] [] (repeat 0 (Z.to_nat bk)).
Proof.
  intros Hbk.
  assert (forall j t, aget (repeat 0 (Z.to_nat bk)) j = Some t -> t = 0) as Hz.
  { intros j t Hj. assert (t ∈ repeat 0 (Z.to_nat bk)) as Ht by (apply elem_of_aget; eauto).
    by apply list_elem_of_In, repeat_spec in Ht. }
  assert (forall {A} (x : A) i, aget [] i = Some x -> False) as Hn
    by (intros A x i Hi; apply aget_Some_range in Hi; simpl in Hi; lia).
  split; simpl; try done.
  - rewrite repeat_length. lia.
  - intros j t Hj. rewrite (Hz _ _ Hj). lia.
  - intros j j' t Ht Hj. by rewrite (Hz _ _ Hj) in Ht.
  - lia.
  - intros j c i Hj. rewrite (Hz _ _ Hj). done.
  - intros x y cx cy Hx. by apply Hn in Hx.
  - intros p i c Hp. by apply Hn in Hp.
  - intros x ck Hx. by apply Hn in Hx.
  - intros x ck Hx. by apply Hn in Hx.
  - intros p u Hp. by apply Hn in Hp.
Qed.

(** The chunk of the visit [c] has been found or stored at [x]. *)
Record placed (bk : Z) (vs : list (Z * plan_chunk)) (chunks chunks1 : list plan_chunk) (table1 : list Z)
    (x : Z) (c : plan_chunk) : Prop := {
  pl_len : zlen table1 = bk;
  pl_cells : forall j t, aget table1 j = Some t -> 0 <= t <= zlen chunks1;
  pl_inj : forall j j' t, t <> 0 -> aget table1 j = Some t -> aget table1 j' = Some t -> j = j';
  pl_all : forall y, 0 <= y < zlen chunks1 -> exists j, aget table1 j = Some (y + 1);
  pl_probe : probing bk (home (bk - 1) chunks1) table1;
  pl_distinct : forall y z cy cz, aget chunks1 y = Some cy -> aget chunks1 z = Some cz ->
    key cy = key cz -> y = z;
  pl_count : zlen chunks <= zlen chunks1 <= zlen vs + 1;
  pl_old : forall y cy, aget chunks y = Some cy -> aget chunks1 y = Some cy;
  pl_new : forall y cy, aget chunks1 y = Some cy -> aget chunks y = Some cy \/
    (y = x /\ y = zlen chunks /\ cy = c /\ forall q j d, aget vs q = Some (j, d) -> key d <> key c);
  pl_x : exists ck, aget chunks1 x = Some ck /\ key ck = key c }.

Lemma home_same_keys mask chunks chunks' t :
  (forall y c, aget chunks y = Some c -> exists c', aget chunks' y = Some c' /\ key c' = key c) ->
  0 <= t <= zlen chunks -> home mask chunks' t = home mask chunks t.
Proof.
  intros Hk Ht. unfold home. case_decide; [done|].
  destruct (aget_is_Some chunks (t - 1) ltac:(lia)) as [c Hc]. destruct (Hk _ _ Hc) as (c' & Hc' & He).
  rewrite Hc, Hc'. simpl. unfold key in He. by injection He as -> ->.
Qed.

Lemma dedup_extend bk vs chunks uses table chunks1 table1 x i c stored chunks2 :
  dedup bk vs chunks uses table -> placed bk vs chunks chunks1 table1 x c ->
  first_use c = UINT32_MAX ->
  aget chunks1 x = Some stored -> aset chunks1 x (set_first_use stored (zlen uses)) = Some chunks2 ->
  dedup bk (vs ++ [(i, c)]) chunks2 (uses ++ [PlanUse x i (first_use stored)]) table1.
Proof.
  intros Hd Hp Hfu Hst Hs. destruct Hd, Hp. destruct dd_count0 as [Hcu Hcc].
  destruct pl_x0 as (ck & Hck & Hkey). assert (ck = stored) as -> by congruence. clear Hck.
  pose proof (length_aset _ _ _ _ Hs) as Hl2. pose proof (aget_Some_range _ _ _ Hst) as Hxr.
  assert (forall y cy, aget chunks1 y = Some cy -> exists c2, aget chunks2 y = Some c2 /\ key c2 = key cy) as H12.
  { intros y cy Hy. rewrite (aget_aset _ _ _ _ _ Hs). case_decide as E; [|by eauto].
    eexists. split; [done|]. subst y. assert (cy = stored) as -> by congruence. done. }
  assert (forall y c2, aget chunks2 y = Some c2 -> exists cy, aget chunks1 y = Some cy /\ key c2 = key cy /\
    c2 = set_first_use cy (first_use c2) /\
    first_use c2 = if decide (y = x) then zlen uses else first_use cy) as H21.
  { intros y c2. rewrite (aget_aset _ _ _ _ _ Hs). case_decide as E; intros Hy.
    - subst y. injection Hy as <-. exists stored. rewrite decide_True by done. done.
    - exists c2. rewrite decide_False by congruence. split_and!; try done. by destruct c2. }
  assert (forall y ck, aget chunks1 y = Some ck -> first_use ck = last_use uses y) as Hchain.
  { intros y ck Hy. destruct (pl_new0 _ _ Hy) as [Ho|(-> & Hyl & -> & _)]; [by apply dd_chain0|].
    rewrite last_use_fresh; [done|]. eapply Forall_impl; [exact dd_range0|]. simpl. intros u. lia. }
  split.
  - done.
  - intros j t Hj. rewrite Hl2. by eapply pl_cells0.
  - done.
  - intros y Hy. rewrite Hl2 in Hy. by apply pl_all0.
  - eapply probing_ext; [|exact pl_probe0]. intros j t Hj. apply home_same_keys; [done|]. by eapply pl_cells0.
  - intros y z cy cz Hy Hz Hk. destruct (H21 _ _ Hy) as (cy1 & Hy1 & Hk1 & _), (H21 _ _ Hz) as (cz1 & Hz1 & Hk2 & _).
    eapply pl_distinct0; [done|done|congruence].
  - rewrite !length_app. simpl. lia.
  - intros p i' c' [Hpv|[-> [= -> ->]]]%aget_snoc.
    + destruct (dd_uses0 _ _ _ Hpv) as (u & cu & Hu & Hr & Hcu' & Hk').
      destruct (H12 _ _ (pl_old0 _ _ Hcu')) as (c2 & Hc2 & Hk2). exists u, c2.
      split_and!; [apply aget_snoc; by left|done|done|congruence].
    + destruct (H12 _ _ Hst) as (c2 & Hc2 & Hk2). eexists _, c2.
      split_and!; [apply aget_snoc; right; split; [by rewrite Hcu|done]|done|done|congruence].
  - intros y c2 Hy. destruct (H21 _ _ Hy) as (cy & Hcy & Hk & Hset & _).
    destruct (pl_new0 _ _ Hcy) as [Ho|(-> & _ & -> & Hno)].
    + destruct (dd_first0 _ _ Ho) as (p & i' & c' & Hp & Hc' & Hq). exists p, i', c'.
      pose proof (aget_Some_range _ _ _ Hp). split_and!; [apply aget_snoc; by left|by rewrite Hset, Hc'|].
      intros q j d Hqp [Hd|[-> _]]%aget_snoc; [by eapply Hq|lia].
    + exists (zlen vs), i, c. split_and!; [apply aget_snoc; by right|done|].
      intros q j d Hqp [Hd|[-> _]]%aget_snoc; [by eapply Hno|lia].
  - intros y c2 Hy. destruct (H21 _ _ Hy) as (cy & Hcy & _ & _ & Hf). rewrite Hf, last_use_snoc.
    cbn [chunk]. destruct (decide (y = x)) as [->|]; [by rewrite decide_True|].
    rewrite decide_False by congruence. by apply Hchain.
  - intros p u [Hu|[-> ->]]%aget_snoc.
    + rewrite take_app_le; [by apply dd_next0|]. apply aget_Some_range in Hu. lia.
    + rewrite Nat2Z.id, take_app_length. simpl. by apply Hchain.
  - apply Forall_app. split; [|constructor; [simpl; lia|constructor]].
    eapply Forall_impl; [exact dd_range0|]. simpl. intros u. lia.
Qed.

Lemma dedup_vacant bk vs chunks uses table :
  dedup bk vs chunks uses table -> 0 <= zlen vs < bk ->
  exists j t, aget table j = Some t /\ vacant (home (bk - 1) chunks) t = true.
Proof.
  intros Hd Hlt. destruct Hd. destruct (decide (Forall (fun t => t <> 0) table)) as [Hall|Hex].
  - exfalso.
    assert (zlen (Z.pred <$> table) <= zlen chunks) as Hb; [|rewrite length_fmap in Hb; lia].
    apply nodup_bound; [lia|..].
    + apply NoDup_alt. intros i j t Hi Hj. apply list_lookup_fmap_Some in Hi as (a & -> & Ha).
      apply list_lookup_fmap_Some in Hj as (b & Hab & Hb). assert (a = b) as -> by lia.
      rewrite Forall_forall in Hall. rewrite <-aget_nat in Ha, Hb.
      assert (Z.of_nat i = Z.of_nat j); [|lia]. eapply dd_inj0; [|done|done].
      apply Hall, elem_of_aget. eauto.
    + intros e (a & -> & Ha)%list_elem_of_fmap. rewrite Forall_forall in Hall. specialize (Hall a Ha).
      apply elem_of_aget in Ha as [j Hj]. pose proof (dd_cells0 _ _ Hj). lia.
  - apply not_Forall_Exists in Hex; [|intros; apply _]. apply Exists_exists in Hex as (t & Ht & Hz).
    apply elem_of_aget in Ht as [j Hj]. exists j, t. split; [done|].
    destruct (decide (t = 0)) as [->|]; [done|by destruct Hz].
Qed.

Lemma vacant_zero bk vs chunks uses table j t :
  dedup bk vs chunks uses table -> aget table j = Some t -> vacant (home (bk - 1) chunks) t = (t =? 0).
Proof.
  intros Hd Hj. pose proof (dd_cells _ _ _ _ _ Hd _ _ Hj) as Ht. unfold vacant, home.
  destruct (Z.eqb_spec t 0) as [->|Hne]; [done|]. rewrite decide_False by done.
  destruct (aget_is_Some chunks (t - 1) ltac:(lia)) as [c ->]. done.
Qed.

(** A new chunk goes to the empty bucket the probe found. *)
Lemma dedup_place bk vs chunks uses table c k table1 :
  dedup bk vs chunks uses table -> is_pow2 bk -> zlen vs < bk -> 0 <= k < bk ->
  let i := Z.land (chunk_hash (array c) (coordinate c)) (bk - 1) in
  (forall j t, aget table j = Some t -> t <> 0 ->
     match aget chunks (t - 1) with Some c' => same_chunk (array c) (coordinate c) c' | None => false end = false) ->
  (forall t t', 0 <= t < k -> aget table (walk bk i t) = Some t' -> t' <> 0) ->
  aget table (walk bk i k) = Some 0 -> aset table (walk bk i k) (zlen chunks + 1) = Some table1 ->
  placed bk vs chunks (chunks ++ [c]) table1 (zlen chunks) c.
Proof.
  intros Hd Hbk Hlt Hk i Hmiss Hocc Hz Hs. pose proof Hd as Hd'. destruct Hd.
  assert (forall y cy, aget chunks y = Some cy -> key cy <> key c) as Hnew.
  { intros y cy Hy He. destruct (dd_all0 y) as [j Hj]; [by eapply aget_Some_range|].
    pose proof (aget_Some_range _ _ _ Hy).
    specialize (Hmiss j (y + 1) Hj ltac:(lia)). replace (y + 1 - 1) with y in Hmiss by lia.
    rewrite Hy in Hmiss. apply not_true_iff_false in Hmiss. by apply Hmiss, same_chunk_iff. }
  assert (forall y cy, aget chunks y = Some cy -> aget (chunks ++ [c]) y = Some cy) as Hold
    by (intros; apply aget_snoc; by left).
  split.
  - by rewrite (length_aset _ _ _ _ Hs).
  - intros j t. rewrite length_app, (aget_aset _ _ _ _ _ Hs). simpl. case_decide.
    + intros [= <-]. lia.
    + intros Hj. pose proof (dd_cells0 _ _ Hj). lia.
  - intros j j' t Ht. rewrite !(aget_aset _ _ _ _ _ Hs). repeat case_decide; try congruence.
    + intros [= <-] Hj. pose proof (dd_cells0 _ _ Hj). lia.
    + intros Hj [= <-]. pose proof (dd_cells0 _ _ Hj). lia.
    + by apply dd_inj0.
  - intros y. rewrite length_app. simpl. intros Hy. destruct (decide (y = zlen chunks)) as [->|].
    + exists (walk bk i k). by eapply aget_aset_eq.
    + destruct (dd_all0 y ltac:(lia)) as [j Hj]. exists j. rewrite (aget_aset_ne _ _ _ _ _ Hs); [done|].
      intros <-. assert (y + 1 = 0) by congruence. lia.
  - assert (probing bk (home (bk - 1) (chunks ++ [c])) table) as Hp.
    { eapply probing_ext; [|exact dd_probe0]. intros j t Hj. apply home_same_keys; [by eauto|].
      by eapply dd_cells0. }
    eapply (probing_insert bk Hbk _ table _ i k); try done.
    + unfold home. rewrite decide_False by lia. replace (zlen chunks + 1 - 1) with (zlen chunks) by lia.
      rewrite aget_middle. done.
    + subst i. rewrite land_mask by done. apply Z.mod_pos_bound. by apply pow2_pos.
    + intros t t' Ht Ht'. unfold vacant, home. specialize (Hocc t t' Ht Ht').
      rewrite decide_False by done. pose proof (dd_cells0 _ _ Ht').
      destruct (aget_is_Some chunks (t' - 1) ltac:(lia)) as [c' Hc']. by rewrite (Hold _ _ Hc').
  - intros y z cy cz [Hy|[-> ->]]%aget_snoc [Hz'|[-> ->]]%aget_snoc He.
    + by eapply dd_distinct0.
    + by destruct (Hnew _ _ Hy).
    + by destruct (Hnew _ _ Hz').
    + done.
  - rewrite length_app. simpl. lia.
  - done.
  - intros y cy [Hy|[-> ->]]%aget_snoc; [by left|right]. split_and!; try done.
    intros q j d Hq He. destruct (dd_uses0 _ _ _ Hq) as (u & ck & _ & _ & Hck & Hke).
    apply (Hnew _ _ Hck). congruence.
  - exists c. split; [apply aget_middle|done].
Qed.

(** ** One use *)

Definition same_rest (st st' : build_state) : Prop :=
  b_arrays st' = b_arrays st /\ b_regions st' = b_regions st /\ b_paths st' = b_paths st /\
  b_indices st' = b_indices st /\ b_path st' = b_path st.

Lemma add_use_spec rm i c st vs :
  dedup (r_buckets rm) vs (b_chunks st) (b_uses st) (b_table st) -> is_pow2 (r_buckets rm) ->
  first_use c = UINT32_MAX -> zlen vs < r_capacity rm -> r_capacity rm <= r_buckets rm ->
  r_capacity rm < 2 ^ 32 - 1 ->
  exists st', add_use rm i c st = Some (inr st') /\ same_rest st st' /\
    dedup (r_buckets rm) (vs ++ [(i, c)]) (b_chunks st') (b_uses st') (b_table st').
Proof.
  intros Hd Hbk Hfu Hvs Hcb Hc32. unfold add_use. set (bk := r_buckets rm) in *.
  pose proof (dd_count _ _ _ _ _ Hd) as [Hcu Hcc]. pose proof (dd_len _ _ _ _ _ Hd) as Hlen.
  set (h := Z.land (chunk_hash (array c) (coordinate c)) (bk - 1)).
  assert (0 <= h < bk) as Hh.
  { subst h. rewrite land_mask by done. apply Z.mod_pos_bound. by apply pow2_pos. }
  set (hit := fun t => negb (t =? 0) && match aget (b_chunks st) (t - 1) with
    Some c' => same_chunk (array c) (coordinate c) c' | None => false end).
  destruct (probing_search bk Hbk (home (bk - 1) (b_chunks st)) hit (b_table st) h (length (b_table st)))
    as (k & t & Hk & Hpr & Ht & Hocc & Hcase); [apply Hd|done|done|lia|by eapply dedup_vacant; [done|lia]| |].
  { intros j t Hj Hit. unfold hit in Hit. apply andb_true_iff in Hit as [Ht0 Hit].
    apply negb_true_iff, Z.eqb_neq in Ht0. unfold home. rewrite decide_False by done.
    destruct (aget (b_chunks st) (t - 1)) as [c'|]; [|done]. simpl.
    apply same_chunk_iff in Hit. unfold key in Hit. injection Hit as -> ->. done. }
  rewrite (probe_until_ext _ (fun t => vacant (home (bk - 1) (b_chunks st)) t || hit t)).
  2: { intros j t' Hj. rewrite (vacant_zero _ _ _ _ _ _ _ Hd Hj). unfold table_stop, hit.
    by destruct (t' =? 0). }
  rewrite Hpr. simpl. rewrite Ht. simpl. rewrite (vacant_zero _ _ _ _ _ _ _ Hd Ht) in Hcase.
  assert (exists x chunks1 table1, (if t =? 0 then
      chunks0 ← push (r_capacity rm) (b_chunks st) c;
      table0 ← aset (b_table st) (walk bk h k) (u32 (zlen (b_chunks st) + 1));
      Some (zlen (b_chunks st), chunks0, table0) else Some (t - 1, b_chunks st, b_table st))
      = Some (x, chunks1, table1) /\ placed bk vs (b_chunks st) chunks1 table1 x c)
    as (x & chunks1 & table1 & -> & Hpl).
  { destruct Hcase as [[Hz Hit]|[Hz Hmiss]]; rewrite Hz.
    - eexists _, _, _. split; [done|]. unfold hit in Hit. rewrite Hz in Hit. simpl in Hit.
      destruct (aget (b_chunks st) (t - 1)) as [c'|] eqn:Hc'; [|done]. apply same_chunk_iff in Hit.
      destruct Hd. split; try done; [lia|by eauto|by eauto].
    - apply Z.eqb_eq in Hz as ->. unfold push. rewrite (proj2 (Z.ltb_lt _ _)) by lia. simpl.
      rewrite u32_id by clia.
      assert (exists table1, aset (b_table st) (walk bk h k) (zlen (b_chunks st) + 1) = Some table1)
        as [table1 Hs] by (eexists; apply aset_range; by eapply aget_Some_range).
      rewrite Hs. simpl. eexists _, _, _. split; [done|].
      eapply (dedup_place bk vs _ (b_uses st) (b_table st) c k table1); try done; [lia| |].
      + intros j t Hj Ht0. specialize (Hmiss j t Hj). unfold hit in Hmiss.
        by rewrite (proj2 (Z.eqb_neq t 0) Ht0) in Hmiss.
      + intros t t' Htk Ht'. specialize (Hocc t t' Htk Ht').
        rewrite (vacant_zero _ _ _ _ _ _ _ Hd Ht') in Hocc. by apply Z.eqb_neq. }
  simpl. rewrite (proj2 (Z.leb_gt _ _)) by lia.
  destruct (pl_x _ _ _ _ _ _ _ Hpl) as (stored & Hst & _). rewrite Hst. simpl.
  unfold push. rewrite (proj2 (Z.ltb_lt _ _)) by lia. simpl.
  assert (exists chunks2, aset chunks1 x (set_first_use stored (zlen (b_uses st))) = Some chunks2)
    as [chunks2 Hs2] by (eexists; apply aset_range; by eapply aget_Some_range).
  rewrite Hs2. simpl. eexists. split; [done|]. split; [done|]. simpl.
  by eapply dedup_extend.
Qed.

(** ** Chunks per shard *)

Lemma per_shard_loop_spec n m d total :
  0 <= d -> d + Z.of_nat n <= zlen (inner_chunk_shape m) -> d + Z.of_nat n <= zlen (shard_shape m) ->
  exists r, per_shard_loop n m d total = Some r /\
    forall per tot, r = Some (per, tot) -> length per = n /\
      forall k inner shard, 0 <= k < Z.of_nat n -> aget (inner_chunk_shape m) (d + k) = Some inner ->
        aget (shard_shape m) (d + k) = Some shard ->
        inner <> 0 /\ shard mod inner = 0 /\ aget per k = Some (shard / inner).
Proof.
  revert d total. induction n as [|n IH]; intros d total Hd Hi Hs; simpl.
  { eexists. split; [done|]. intros per tot [= <- <-]. split; [done|]. intros; lia. }
  destruct (aget_is_Some (inner_chunk_shape m) d ltac:(lia)) as [inner Ei]. rewrite Ei. simpl.
  destruct (aget_is_Some (shard_shape m) d ltac:(lia)) as [shard Es]. rewrite Es. simpl.
  destruct (Z.eqb_spec inner 0) as [|H0]; simpl; [by exists None|].
  destruct (Z.eqb_spec (shard mod inner) 0) as [Hm|]; simpl; [|by exists None].
  destruct (_ && _); [by exists None|].
  destruct (IH (d + 1) (u64 (total * (shard / inner)))) as (r & -> & Hr); [lia..|]. simpl.
  eexists. split; [done|]. intros per tot Hpt. destruct r as [[per' tot']|]; [|done].
  injection Hpt as <- <-. destruct (Hr _ _ eq_refl) as [Hl Hk]. split; [simpl; by rewrite Hl|].
  intros k i' s' Hkr Hi' Hs'. destruct (decide (k = 0)) as [->|].
  - rewrite Z.add_0_r in *. assert (i' = inner) as -> by congruence. assert (s' = shard) as -> by congruence. done.
  - destruct (Hk (k - 1) i' s') as (? & ? & Hp); [lia|by replace (d + 1 + (k - 1)) with (d + k) by lia..|].
    split_and!; [done..|]. apply aget_lookup in Hp as [? Hp]. apply aget_lookup. split; [lia|].
    replace (Z.to_nat k) with (S (Z.to_nat (k - 1))) by lia. done.
Qed.

Lemma shard_cells_spec coord per d c p :
  aget coord d = Some c -> aget per d = Some p ->
  aget (fst (shard_cells coord per)) d = Some (u64 (c * p)) /\
  aget (snd (shard_cells coord per)) d = Some (u64 (u64 (c * p) + p)).
Proof.
  rewrite !aget_lookup. intros [Hd Hc] [_ Hp]. revert coord per Hc Hp.
  induction (Z.to_nat d) as [|k IH]; intros [|c0 coord] [|p0 per] Hc Hp; try done; simpl in *.
  - by injection Hc as ->; injection Hp as ->.
  - destruct (IH _ _ Hc Hp) as [[_ ?] [_ ?]]. done.
Qed.

(** ** Arithmetic *)

Lemma axis_selects_range iv q s : axis_ok iv q -> axis_selects iv q s -> 0 <= s < 2 ^ 63.
Proof.
  intros [Hb He] Hs. destruct (decide (count q = 0)) as [Hc|Hc].
  - apply axis_selects_interval in Hs; [lia|done].
  - apply axis_selects_indices in Hs as (e & Hin & <-); [|done].
    destruct (He Hc) as (_ & _ & Hr). specialize (Hr e Hin). lia.
Qed.

(** Dividing by the chunk and then by the ratio is dividing by the shard. *)
Lemma shard_div x inner p : 0 < inner -> 0 < p -> x / inner / p = x / (p * inner).
Proof. intros. rewrite Z.div_div by lia. f_equal. lia. Qed.

(** The bounds of a selected shard, in chunks, do not wrap. *)
Lemma shard_bounds s inner p :
  0 <= s < 2 ^ 63 -> 0 < inner -> 0 < p -> p * inner < 2 ^ 64 ->
  let c := s / (p * inner) in
  0 <= c * p /\ c * p + p < 2 ^ 64 /\ u64 (c * p) = c * p /\ u64 (c * p + p) = c * p + p.
Proof.
  intros Hs Hi Hp Hlt c. assert (0 <= c) by (apply Z.div_pos; lia).
  pose proof (Z.mul_div_le s (p * inner) ltac:(nia)) as Hle. fold c in Hle.
  assert (c * p + p < 2 ^ 64) as Hb.
  { destruct (decide (c = 0)) as [->|]; [nia|]. assert (c * p <= s) by nia. assert (p <= s) by nia. lia. }
  assert (0 <= c * p) by nia. split_and!; [lia|done|apply u64_id; split; lia..].
Qed.

Lemma div_in_shard x p c : 0 < p -> c * p <= x < c * p + p <-> x / p = c.
Proof.
  intros Hp. split.
  - intros Hx. symmetry. apply (Z.div_unique x p c (x - c * p)); lia.
  - intros <-. pose proof (Z.div_mod x p ltac:(lia)). pose proof (Z.mod_pos_bound x p Hp). lia.
Qed.

(** ** Shards and chunks *)

Section shards.
Context (b : damacy_aabb) (axes : list query_axis) (m : zarr_metadata) (per : list Z).
Hypothesis Hgi : grid_ok b axes (inner_chunk_shape m) None None.
Hypothesis Hgs : grid_ok b axes (shard_shape m) None None.
Hypothesis Hper : zlen per = aabb_rank b /\
  forall k inner shard, 0 <= k < aabb_rank b -> aget (inner_chunk_shape m) k = Some inner ->
    aget (shard_shape m) k = Some shard -> inner <> 0 /\ shard mod inner = 0 /\ aget per k = Some (shard / inner).

Notation chunk_sel := (coord_selected b axes (inner_chunk_shape m)).
Notation shard_sel := (coord_selected b axes (shard_shape m) None None).

(** The shard of a chunk. *)
Definition shard_of (c : list Z) : list Z := zip_with Z.div c per.

Lemma aget_shard_of c d x p :
  aget c d = Some x -> aget per d = Some p -> aget (shard_of c) d = Some (x / p).
Proof.
  rewrite !aget_lookup. intros [? Hx] [_ Hp]. split; [done|]. unfold shard_of.
  rewrite lookup_zip_with, Hx. simpl. by rewrite Hp.
Qed.

(** One dimension: sizes, ratio and what is selected. *)
Lemma dim_facts d : 0 <= d < aabb_rank b ->
  exists iv q inner shard p, aget (dims b) d = Some iv /\ aget axes d = Some q /\
    aget (inner_chunk_shape m) d = Some inner /\ aget (shard_shape m) d = Some shard /\
    aget per d = Some p /\ axis_ok iv q /\ 0 < inner < 2 ^ 64 /\ 0 < shard < 2 ^ 64 /\ 0 < p /\ shard = p * inner.
Proof.
  intros Hd. destruct (go_axis _ _ _ _ _ Hgi d Hd) as (iv & q & inner & Hiv & Hq & Hi & Hok & Hir & _).
  destruct (go_axis _ _ _ _ _ Hgs d Hd) as (iv' & q' & shard & Hiv' & Hq' & Hs & _ & Hsr & _).
  destruct Hper as [_ Hp]. destruct (Hp d inner shard Hd Hi Hs) as (H0 & Hm & Hpd).
  exists iv, q, inner, shard, (shard / inner). split_and!; try done; try lia.
  - pose proof (Z.div_mod shard inner ltac:(lia)). nia.
  - pose proof (Z.div_mod shard inner ltac:(lia)). lia.
Qed.

Lemma selected_shard c : chunk_sel None None c -> shard_sel (shard_of c).
Proof.
  intros [Hl Hc]. split.
  { unfold shard_of. rewrite length_zip_with. destruct Hper as [? _]. lia. }
  intros d x Hx. pose proof (aget_Some_range _ _ _ Hx) as Hd. unfold shard_of in Hd.
  rewrite length_zip_with in Hd.
  destruct (dim_facts d ltac:(lia)) as (iv & q & inner & shard & p & Hiv & Hq & Hi & Hs & Hp & _ & Hir & _ & Hp0 & ->).
  destruct (aget_is_Some c d ltac:(lia)) as [y Hy].
  rewrite (aget_shard_of _ _ _ _ Hy Hp) in Hx. injection Hx as <-.
  destruct (Hc d y Hy) as (iv' & q' & sz & ? & ? & ? & _ & s & Hsel & ->).
  assert (iv' = iv) as -> by congruence. assert (q' = q) as -> by congruence.
  assert (sz = inner) as -> by congruence. exists iv, q, (p * inner).
  split; [done|]. split; [done|]. split; [done|]. split; [split; done|]. exists s. split; [done|]. apply shard_div; lia.
Qed.

Lemma shard_clip sigma d x p :
  shard_sel sigma -> aget sigma d = Some x -> aget per d = Some p ->
  aget (fst (shard_cells sigma per)) d = Some (x * p) /\ is_u64 (x * p) /\
  aget (snd (shard_cells sigma per)) d = Some (x * p + p) /\ is_u64 (x * p + p).
Proof.
  intros [Hl Hsg] Hx Hp. pose proof (aget_Some_range _ _ _ Hx) as Hd.
  destruct (dim_facts d ltac:(lia)) as (iv & q & inner & shard & p' & Hiv & Hq & Hi & Hs & Hp' & Hok & Hir & Hsr & Hp0 & ->).
  assert (p' = p) as -> by congruence.
  destruct (Hsg d x Hx) as (iv' & q' & sz & ? & ? & ? & _ & s & Hsel & ->).
  assert (iv' = iv) as -> by congruence. assert (q' = q) as -> by congruence.
  assert (sz = p * inner) as -> by congruence.
  pose proof (axis_selects_range _ _ _ Hok Hsel) as Hsr'.
  destruct (shard_bounds s inner p Hsr' ltac:(lia) ltac:(lia) ltac:(lia)) as (Hb1 & Hb2 & Hb3 & Hb4).
  destruct (shard_cells_spec sigma per d _ p Hx Hp) as [-> ->]. rewrite Hb3, Hb4.
  split; [done|]. split; [split; lia|]. split; [done|]. split; lia.
Qed.

Lemma shard_grid_ok sigma :
  shard_sel sigma ->
  grid_ok b axes (inner_chunk_shape m) (Some (fst (shard_cells sigma per))) (Some (snd (shard_cells sigma per))).
Proof.
  intros Hsg. split; [apply Hgi|]. intros d Hd.
  destruct (dim_facts d Hd) as (iv & q & inner & shard & p & Hiv & Hq & Hi & _ & Hp & Hok & Hir & _).
  destruct (aget_is_Some sigma d) as [x Hx]; [destruct Hsg; lia|].
  destruct (shard_clip sigma d x p Hsg Hx Hp) as (? & ? & ? & ?).
  exists iv, q, inner. split; [done|]. split; [done|]. split; [done|]. split; [done|].
  split; [done|]. split; eexists; done.
Qed.

Lemma clipped_iff sigma c :
  shard_sel sigma ->
  chunk_sel (Some (fst (shard_cells sigma per))) (Some (snd (shard_cells sigma per))) c <->
  chunk_sel None None c /\ shard_of c = sigma.
Proof.
  intros Hsg. pose proof Hsg as [Hls _]. split.
  - intros [Hl Hc]. split.
    + split; [done|]. intros d x Hx. destruct (Hc d x Hx) as (iv & q & sz & ? & ? & ? & _ & ?).
      exists iv, q, sz. split; [done|]. split; [done|]. split; [done|]. split; [split; done|done].
    + apply aget_ext; [unfold shard_of; rewrite length_zip_with; destruct Hper as [? _]; lia|].
      intros d y Hy. pose proof (aget_Some_range _ _ _ Hy) as Hd. unfold shard_of in Hd.
      rewrite length_zip_with in Hd.
      destruct (dim_facts d ltac:(lia)) as (iv & q & inner & shard & p & Hiv & Hq & Hi & _ & Hp & _ & _ & _ & Hp0 & _).
      destruct (aget_is_Some c d ltac:(lia)) as [x Hx]. destruct (aget_is_Some sigma d ltac:(lia)) as [z Hz].
      rewrite (aget_shard_of _ _ _ _ Hx Hp) in Hy. injection Hy as <-.
      destruct (shard_clip sigma d z p Hsg Hz Hp) as (Hlo & _ & Hhi & _).
      destruct (Hc d x Hx) as (_ & _ & _ & _ & _ & _ & [Hcb Hce] & _).
      rewrite Hz. f_equal. symmetry. apply div_in_shard; [done|]. split; [by eapply Hcb|by eapply Hce].
  - intros [[Hl Hc] Hsh]. split; [done|]. intros d x Hx.
    destruct (Hc d x Hx) as (iv & q & sz & Hiv & Hq & Hsz & _ & Hsel).
    exists iv, q, sz. split; [done|]. split; [done|]. split; [done|]. split; [|done].
    pose proof (aget_Some_range _ _ _ Hx) as Hd.
    destruct (dim_facts d ltac:(lia)) as (_ & _ & _ & _ & p & _ & _ & _ & _ & Hp & _ & _ & _ & Hp0 & _).
    pose proof (aget_shard_of _ _ _ _ Hx Hp) as Hz. rewrite Hsh in Hz.
    destruct (shard_clip sigma d _ p Hsg Hz Hp) as (Hlo & _ & Hhi & _).
    assert (x / p * p <= x < x / p * p + p) as Hxp by (by apply div_in_shard).
    split; intros l v [= <-] Hv; [rewrite Hlo in Hv|rewrite Hhi in Hv]; injection Hv as <-; lia.
Qed.
End shards.
