(* ===== verification/PlanProof.v ===== *)
(** * The plan covers exactly the selected chunks

    Correctness of [prepared_plan_build] ([src/src/planner/plan_builder.c]): the
    sizes computed first are enough for everything that is written, and the plan's
    uses list, for every sample, exactly the chunks its selection touches. *)

From stdpp Require Import strings.
From S2P Require Import Prelude Hash Strbuf Selection SelectionGrid Plan PlanBuilder PlanTable.

#[local] Open Scope Z_scope.

(** ** Grids without the positive-size precondition *)

Record grid_pre (bounds : damacy_aabb) (axes : list query_axis) (shape : list Z) : Prop := {
  gp_rank : 0 < aabb_rank bounds <= DAMACY_MAX_RANK;
  gp_axis : forall d, 0 <= d < aabb_rank bounds ->
    exists b q size, aget (dims bounds) d = Some b /\ aget axes d = Some q /\
      aget shape d = Some size /\ axis_ok b q /\ 0 <= size < 2 ^ 64 }.

Lemma grid_init_loop_total bounds axes shape max_cells n d acc :
  grid_pre bounds axes shape -> 0 <= d -> d + Z.of_nat n = aabb_rank bounds ->
  exists st g, grid_init_loop n bounds axes shape None None max_cells d acc = Some (st, g) /\
    (st = DAMACY_OK -> forall k size, d <= k < aabb_rank bounds -> aget shape k = Some size -> size <> 0).
Proof.
  intros Hp. revert d acc. induction n as [|n IH]; intros d acc Hd Hn; simpl.
  { eexists _, _. split; [done|]. intros _ k size Hk. lia. }
  destruct (gp_axis _ _ _ Hp d ltac:(lia)) as (b & q & size & Eb & Eq & Es & Hao & Hs).
  rewrite Eb, Eq, Es. simpl. destruct (decide (size = 0)) as [->|Hz].
  { unfold grid_axis_init. rewrite orb_true_r. simpl. eexists _, _. split; [done|discriminate]. }
  destruct (grid_axis_init_spec b q size None None d Hao ltac:(lia) I I) as (a & L & -> & _). simpl.
  assert (forall acc, exists st g,
    grid_init_loop n bounds axes shape None None max_cells (d + 1) acc = Some (st, g) /\
    (st = DAMACY_OK -> forall k size, d <= k < aabb_rank bounds -> aget shape k = Some size -> size <> 0)) as Hnext.
  { intros acc'. destruct (IH (d + 1) acc') as (st & g & -> & Hst); [lia..|]. eexists _, _. split; [done|].
    intros E k s Hk Hks. destruct (decide (k = d)) as [->|]; [congruence|]. eapply Hst; [done| |done]. lia. }
  destruct (zlen L =? 0); [apply Hnext|]. destruct (_ <? _); [|apply Hnext].
  eexists _, _. split; [done|discriminate].
Qed.

Lemma grid_init_total bounds axes shape max_cells :
  grid_pre bounds axes shape ->
  exists st g, selection_grid_init bounds axes shape None None max_cells = Some (st, g) /\
    (st = DAMACY_OK -> grid_ok bounds axes shape None None).
Proof.
  intros Hp. unfold selection_grid_init. pose proof (gp_rank _ _ _ Hp).
  rewrite (proj2 (Z.eqb_neq _ 0)), (proj2 (Z.ltb_ge DAMACY_MAX_RANK _)) by lia. cbn [orb].
  destruct (grid_init_loop_total bounds axes shape max_cells (Z.to_nat (aabb_rank bounds)) 0
    (Grid [] 1 (aabb_rank bounds) false) Hp) as (st & g & -> & Hst); [lia..|].
  eexists _, _. split; [done|]. intros E. split; [done|]. intros d Hd.
  destruct (gp_axis _ _ _ Hp d Hd) as (b & q & size & ? & ? & Hs & ? & ?). exists b, q, size.
  specialize (Hst E d size ltac:(lia) Hs). split; [done|]. split; [done|]. split; [done|]. split; [done|].
  split; [lia|]. split; exact I.
Qed.

Lemma lex_sorted_NoDup l : StronglySorted lex_lt l -> NoDup l.
Proof.
  assert (forall c, ~ lex_lt c c) as Hirr.
  { induction c as [|x c IH]; simpl; [tauto|]. intros [?|[_ ?]]; [lia|tauto]. }
  induction 1 as [|c l _ IH Hc]; constructor; [|done].
  intros Hin. rewrite Forall_forall in Hc. by eapply Hirr, Hc.
Qed.

(** The coordinates of a grid that initialised. *)
Lemma grid_coords bounds axes shape cb ce max_cells g :
  grid_ok bounds axes shape cb ce -> is_u64 max_cells ->
  selection_grid_init bounds axes shape cb ce max_cells = Some (DAMACY_OK, g) ->
  exists coords, grid_drain (S (Z.to_nat (g_count g))) g = Some coords /\
    zlen coords = g_count g /\ g_count g <= max_cells /\ StronglySorted lex_lt coords /\
    forall c, c ∈ coords <-> coord_selected bounds axes shape cb ce c.
Proof.
  intros Hok Hm Hi. destruct (selection_grid_spec bounds axes shape cb ce max_cells Hok Hm) as (st & g' & Hi' & Hst).
  rewrite Hi in Hi'. injection Hi' as <- <-. destruct Hst as (coords & ? & ? & ? & Hs & ?).
  exists coords. by split_and!.
Qed.

(** ** Entries *)

Definition index_ok (index : option shard_index_value) : Prop :=
  match index with Some idx => n_entries idx = zlen (si_entries idx) | None => True end.

Definition proto (a decoded : Z) (index : option shard_index_value) (sp : option string) (c : list Z) : plan_chunk :=
  PlanChunk sp 0 c a 0 decoded UINT32_MAX (bool_decide (index = None)).

Lemma entry_index_nonneg acc c per : 0 <= acc -> 0 <= entry_index_loop acc c per.
Proof.
  revert acc per. induction c as [|x c IH]; intros acc [|p per] Ha; simpl; try done.
  apply IH. apply Z.mod_pos_bound. done.
Qed.

Lemma chunk_of_entry_spec index a decoded sp c e :
  index_ok index -> 0 <= e ->
  exists r, chunk_of_entry index (proto a decoded index sp c) e = Some r /\
    forall ck, r = inr ck -> first_use ck = UINT32_MAX /\ coordinate ck = c /\ array ck = a.
Proof.
  intros Hok He. unfold chunk_of_entry. destruct index as [idx|].
  - destruct (Z.leb_spec (n_entries idx) e); [by eexists|].
    destruct (aget_is_Some (si_entries idx) e) as [en ->]; [simpl in Hok; lia|]. simpl.
    destruct (_ || _); [by eexists|]. eexists. split; [done|]. by intros ck [= <-].
  - eexists. split; [done|]. by intros ck [= <-].
Qed.

Section visits.
Context (rm : room).
Hypothesis Hbk : is_pow2 (r_buckets rm).
Hypothesis Hcap : r_capacity rm <= r_buckets rm /\ r_capacity rm < 2 ^ 32 - 1.

Notation state_ok vs st := (dedup (r_buckets rm) vs (b_chunks st) (b_uses st) (b_table st)).

(** The chunks of one shard: one visit per coordinate. *)
Lemma chunk_loop_spec i a decoded per index sp coords st vs :
  state_ok vs st -> zlen vs + zlen coords <= r_capacity rm -> index_ok index ->
  exists r, chunk_loop rm i a decoded per index sp coords st = Some r /\
    forall st', r = inr st' -> exists cks,
      Forall2 (fun c ck => chunk_of_entry index (proto a decoded index sp c) (entry_index_loop 0 c per) = Some (inr ck))
        coords cks /\
      same_rest st st' /\ state_ok (vs ++ map (pair i) cks) st'.
Proof.
  revert st vs. induction coords as [|c coords IH]; intros st vs Hd Hroom Hix; simpl.
  { eexists. split; [done|]. intros st' [= <-]. exists []. rewrite app_nil_r. by split_and!. }
  fold (proto a decoded index sp c).
  destruct (chunk_of_entry_spec index a decoded sp c (entry_index_loop 0 c per) Hix
    ltac:(by apply entry_index_nonneg)) as (r & Hr & Hck). rewrite Hr. simpl.
  destruct r as [e|ck]; [by eexists|]. destruct (Hck ck eq_refl) as (Hfu & _ & _).
  simpl in Hroom. destruct Hcap as [Hc1 Hc2].
  destruct (add_use_spec rm i ck st vs Hd Hbk Hfu) as (st1 & -> & Hsr & Hd1); [lia|lia|lia|]. simpl.
  destruct (IH st1 (vs ++ [(i, ck)]) Hd1) as (r & -> & Hst); [rewrite length_app; simpl; lia|done|].
  eexists. split; [done|]. intros st' E. destruct (Hst st' E) as (cks & HF & Hsr' & Hd').
  exists (ck :: cks). split_and!.
  - by constructor.
  - destruct Hsr as (?&?&?&?&?), Hsr' as (?&?&?&?&?). unfold same_rest. split_and!; congruence.
  - rewrite <-app_assoc in Hd'. exact Hd'.
Qed.
End visits.

(** ** The shards of a sample *)

Section sample.
Context `{CacheView} (malloc : Z -> bool) (rm : room) (limits : damacy_plan_limits).
Context (i a decoded : Z) (s : planner_sample) (u : string) (m : zarr_metadata) (per : list Z).
Hypothesis Hbk : is_pow2 (r_buckets rm).
Hypothesis Hcap : r_capacity rm <= r_buckets rm /\ r_capacity rm < 2 ^ 32 - 1.
Hypothesis Hlim : 0 <= max_chunks limits < 2 ^ 32.
Hypothesis Hgi : grid_ok (ps_aabb s) (ps_axes s) (inner_chunk_shape m) None None.
Hypothesis Hgs : grid_ok (ps_aabb s) (ps_axes s) (shard_shape m) None None.
Hypothesis Hrank : m_rank m = aabb_rank (ps_aabb s).
Hypothesis Hper : zlen per = aabb_rank (ps_aabb s) /\
  forall k inner shard, 0 <= k < aabb_rank (ps_aabb s) -> aget (inner_chunk_shape m) k = Some inner ->
    aget (shard_shape m) k = Some shard -> inner <> 0 /\ shard mod inner = 0 /\ aget per k = Some (shard / inner).
Hypothesis Hshards : n_shards s = zlen (h_shards s) /\ zlen (h_shards s) < 2 ^ 32 - 1.
Hypothesis Hidx : forall h idx, h ∈ h_shards s -> q_value (query_shard h) = Some idx -> n_entries idx = zlen (si_entries idx).
Hypothesis Hu : strlen u < 2 ^ 60.

Notation state_ok vs st := (dedup (r_buckets rm) vs (b_chunks st) (b_uses st) (b_table st)).
Notation chunk_sel := (coord_selected (ps_aabb s) (ps_axes s) (inner_chunk_shape m) None None).
Notation shard_sel := (coord_selected (ps_aabb s) (ps_axes s) (shard_shape m) None None).

(** The bytes the sizing pass reserves per shard path. *)
Definition per_path : Z := strlen u + 1 + 3 + m_rank m * 21.

(** What the plan records for a chunk: it was read from the index of its own
    shard, the [k]-th one the sample touches. *)
Definition from_shard (S : list (list Z)) (ck : plan_chunk) : Prop :=
  exists k h index, aget S k = Some (shard_of per (coordinate ck)) /\ aget (h_shards s) k = Some h /\
    shard_answer (query_shard h) = inr index /\
    chunk_of_entry index
      (proto a decoded index
         (match index with None => None | Some _ => Some (shard_path_text (Some u) (shard_of per (coordinate ck))) end)
         (coordinate ck)) (entry_index_loop 0 (coordinate ck) per) = Some (inr ck).

Record kept (st st' : build_state) (bytes : Z) : Prop := {
  kp_arrays : b_arrays st' = b_arrays st;
  kp_regions : b_regions st' = b_regions st;
  kp_indices : b_indices st' = b_indices st;
  kp_paths : b_paths st' <= b_paths st + bytes;
  kp_path : sb_ok (b_path st') }.

Lemma kept_trans st1 st2 st3 n1 n2 : kept st1 st2 n1 -> kept st2 st3 n2 -> kept st1 st3 (n1 + n2).
Proof. intros [] []. split; try congruence; lia. Qed.

Lemma shard_answer_ok h index :
  h ∈ h_shards s -> shard_answer (query_shard h) = inr index -> index_ok index.
Proof.
  unfold shard_answer. intros Hh. destruct (_ && _); [by intros [= <-]|].
  destruct (q_state (query_shard h)); try done. destruct (q_value (query_shard h)) eqn:E; [|done].
  intros [= <-]. simpl. by eapply Hidx.
Qed.

Lemma shard_sel_u64 sigma : shard_sel sigma -> Forall is_u64 sigma.
Proof.
  intros [Hl Hs]. apply Forall_forall. intros x [d Hx]%elem_of_aget.
  destruct (Hs d x Hx) as (b & q & size & Hb & Hq & Hsz & _ & y & Hy & ->).
  destruct (go_axis _ _ _ _ _ Hgs d) as (b' & q' & size' & ? & ? & ? & Hok & Hr & _).
  { apply aget_Some_range in Hx. lia. }
  assert (b' = b) as -> by congruence. assert (q' = q) as -> by congruence. assert (size' = size) as -> by congruence.
  pose proof (axis_selects_range _ _ _ Hok Hy).
  split; [apply Z.div_pos; lia|]. eapply Z.le_lt_trans; [apply Z.div_le_upper_bound; [lia|]|].
  2: { instantiate (1 := 2 ^ 63). lia. } nia.
Qed.

(** The path step of a shard. *)
Lemma shard_path_step sigma index st :
  shard_sel sigma -> sb_ok (b_path st) -> b_paths st + per_path <= r_paths rm ->
  exists r, match index with
    | None => Some (inr (st, None))
    | Some _ =>
        r ← zarr_shard_path_build malloc (b_path st) (Some u) sigma (m_rank m);
        let '(fail, sb) := (r : bool * strbuf) in
        if fail then Some (inl DAMACY_OOM)
        else used ← copy_path (r_paths rm) (b_paths st) (strbuf_cstr sb);
             Some (inr (with_path st sb used, Some (strbuf_cstr sb)))
    end = Some r /\
    forall st' sp, r = @inr damacy_status _ (st', sp) ->
      sp = match (index : option shard_index_value) with None => None | Some _ => Some (shard_path_text (Some u) sigma) end /\
      kept st st' per_path /\ b_chunks st' = b_chunks st /\ b_uses st' = b_uses st /\ b_table st' = b_table st.
Proof.
  intros Hs Hok Hroom. pose proof (strlen_nonneg u) as Hu0.
  pose proof (go_rank _ _ _ _ _ Hgs) as Hrk. unfold DAMACY_MAX_RANK in Hrk.
  assert (0 <= per_path) as Hpp by (unfold per_path; lia).
  destruct index as [idx|].
  2: { eexists. split; [done|]. intros st' sp [= <- <-]. split_and!; try done. split; try done. lia. }
  pose proof Hs as [Hls _].
  destruct (shard_path_build_spec malloc (b_path st) (Some u) sigma Hok (shard_sel_u64 _ Hs) Hu ltac:(lia))
    as (f & sb & Hb & Hok' & Ht & _).
  rewrite Hrank, <-Hls, Hb. simpl. destruct f; [by eexists|]. specialize (Ht eq_refl).
  pose proof (shard_path_len (Some u) sigma (shard_sel_u64 _ Hs)) as Hlen.
  change (default "" (Some u)) with u in Hlen. unfold copy_path. rewrite Ht.
  assert (strlen (shard_path_text (Some u) sigma) + 1 <= per_path) as Hle by (unfold per_path; lia).
  rewrite (proj2 (Z.leb_le _ _)) by lia. simpl. eexists. split; [done|].
  intros st' sp [= <- <-]. split_and!; try done. split; simpl; try done. lia.
Qed.

(** A list of distinct chunks of the sample is no longer than its count. *)
Lemma visit_room (W l : list (list Z)) :
  (forall c, c ∈ W <-> chunk_sel c) -> NoDup l -> (forall c, c ∈ l -> chunk_sel c) -> zlen l <= zlen W.
Proof.
  intros HW Hnd Hl. assert (l ⊆+ W) as Hs.
  { apply NoDup_submseteq; [done|]. intros c Hc. apply HW. auto. }
  apply submseteq_length in Hs. lia.
Qed.

Lemma add_shard_spec S k sigma st vs :
  aget S k = Some sigma -> shard_sel sigma -> state_ok vs st -> sb_ok (b_path st) ->
  (k < n_shards s -> b_paths st + per_path <= r_paths rm) ->
  (forall l, NoDup l -> (forall c, c ∈ l -> chunk_sel c /\ shard_of per c = sigma) ->
     zlen vs + zlen l <= r_capacity rm) ->
  exists r, add_shard malloc rm limits i a decoded s u m per k sigma st = Some r /\
    forall st', r = inr st' -> k < n_shards s /\ exists cks,
      NoDup (coordinate <$> cks) /\
      (forall c, c ∈ coordinate <$> cks <-> chunk_sel c /\ shard_of per c = sigma) /\
      Forall (fun ck => array ck = a) cks /\ Forall (from_shard S) cks /\ kept st st' per_path /\ state_ok (vs ++ map (pair i) cks) st'.
Proof.
  intros HSk Hs Hd Hok Hp Hroom. unfold add_shard.
  destruct (Z.leb_spec (n_shards s) k) as [|Hk]; [by eexists|]. destruct Hshards as [Hsh _].
  pose proof (aget_Some_range _ _ _ HSk) as HkS.
  destruct (aget_is_Some (h_shards s) k ltac:(lia)) as [h Hh]. rewrite Hh. cbn [mbind option_bind].
  assert (h ∈ h_shards s) as Hin by (apply elem_of_aget; eauto).
  destruct (shard_answer (query_shard h)) as [e|index] eqn:Ha; [by eexists|].
  pose proof (shard_answer_ok _ _ Hin Ha) as Hix.
  destruct (shard_path_step sigma index st Hs Hok (Hp Hk)) as (r & Hr & Hpath).
  rewrite Hr. cbn [mbind option_bind]. destruct r as [e|[st1 sp]]; [by eexists|].
  destruct (Hpath st1 sp eq_refl) as (Hsp & Hk1 & Hc1 & Hu1 & Ht1). clear Hpath Hr.
  destruct (shard_cells sigma per) as [lo hi] eqn:Elh.
  assert (lo = fst (shard_cells sigma per)) as Hlo by (by rewrite Elh).
  assert (hi = snd (shard_cells sigma per)) as Hhi by (by rewrite Elh).
  assert (grid_ok (ps_aabb s) (ps_axes s) (inner_chunk_shape m) (Some lo) (Some hi)) as Hg.
  { rewrite Hlo, Hhi. by apply shard_grid_ok. }
  assert (is_u64 (max_chunks limits)) as Hm64 by clia.
  destruct (selection_grid_spec _ _ _ _ _ (max_chunks limits) Hg Hm64) as (e & g & Hi' & _).
  rewrite Hi'. cbn [mbind option_bind]. destruct (decide (e = DAMACY_OK)) as [->|]; [|by eexists].
  destruct (grid_coords _ _ _ _ _ _ _ Hg Hm64 Hi') as (coords & -> & _ & _ & Hnd%lex_sorted_NoDup & Hmem). cbn [mbind option_bind].
  assert (forall c, c ∈ coords <-> chunk_sel c /\ shard_of per c = sigma) as Hmem'.
  { intros c. rewrite Hmem, Hlo, Hhi. by apply clipped_iff. }
  assert (state_ok vs st1) as Hd1 by (by rewrite Hc1, Hu1, Ht1).
  destruct (chunk_loop_spec rm Hbk Hcap i a decoded per index sp coords st1 vs Hd1) as (r & -> & Hst).
  { apply Hroom; [done|]. intros c. apply Hmem'. }
  { done. }
  eexists. split; [done|]. intros st' E. split; [done|]. destruct (Hst st' E) as (cks & HF & Hsr & Hd').
  assert (Forall2 (fun c ck => coordinate ck = c /\ array ck = a) coords cks) as HF2.
  { eapply Forall2_impl; [exact HF|]. intros c ck Hck. simpl in Hck.
    destruct (chunk_of_entry_spec index a decoded sp c (entry_index_loop 0 c per) Hix
      ltac:(by apply entry_index_nonneg)) as (r' & Hr' & Hf). rewrite Hck in Hr'. injection Hr' as <-.
    destruct (Hf ck eq_refl) as (_ & ? & ?). done. }
  assert (coordinate <$> cks = coords) as Hcc.
  { clear -HF2. induction HF2 as [|c ck cs cks [Hc _] _ IH]; [done|]. csimpl. by rewrite Hc, IH. }
  exists cks. rewrite Hcc. split_and!; [done|done| | | |done].
  - clear -HF2. induction HF2 as [|c ck cs cks [_ Ha] _ IH]; constructor; done.
  - apply Forall_forall. intros ck Hck. apply list_elem_of_lookup in Hck as [j Hj].
    destruct (Forall2_lookup_r _ _ _ _ _ HF Hj) as (c & Hcj & Hent).
    destruct (Forall2_lookup_lr _ _ _ _ _ _ HF2 Hcj Hj) as [Hcoord _]. subst c.
    assert (shard_of per (coordinate ck) = sigma) as Hso.
    { apply Hmem'. apply list_elem_of_lookup. eauto. }
    exists k, h, index. rewrite Hso. split_and!; try done. by rewrite <-Hsp.
  - destruct Hsr as (? & ? & ? & ? & ?), Hk1. split; try congruence.
Qed.

(** The visits of a sample after the shards [D]. *)
Record visited (S D : list (list Z)) (cks : list plan_chunk) : Prop := {
  vi_nodup : NoDup (coordinate <$> cks);
  vi_mem : forall c, c ∈ coordinate <$> cks <-> chunk_sel c /\ shard_of per c ∈ D;
  vi_array : Forall (fun ck => array ck = a) cks;
  vi_from : Forall (from_shard S) cks }.

Lemma visited_app S D sigma cks cks' :
  visited S D cks -> sigma ∉ D -> NoDup (coordinate <$> cks') ->
  (forall c, c ∈ coordinate <$> cks' <-> chunk_sel c /\ shard_of per c = sigma) ->
  Forall (fun ck => array ck = a) cks' -> Forall (from_shard S) cks' ->
  visited S (D ++ [sigma]) (cks ++ cks').
Proof.
  intros [] Hn Hnd Hmem Ha Hf. split.
  - rewrite fmap_app. apply NoDup_app. split_and!; [done| |done].
    intros c [_ Hc]%vi_mem0 [_ Hs]%Hmem. by rewrite Hs in Hc.
  - intros c. rewrite fmap_app, elem_of_app, vi_mem0, Hmem, elem_of_app, list_elem_of_singleton. tauto.
  - by apply Forall_app.
  - by apply Forall_app.
Qed.

Lemma shard_loop_spec W S vs0 P0 coords D cks st :
  (forall c, c ∈ W <-> chunk_sel c) -> zlen vs0 + zlen W <= r_capacity rm ->
  NoDup S -> (forall sigma, sigma ∈ S -> shard_sel sigma) -> S = D ++ coords -> zlen S < 2 ^ 32 ->
  visited S D cks -> state_ok (vs0 ++ map (pair i) cks) st -> sb_ok (b_path st) ->
  b_paths st <= P0 + per_path * zlen D -> P0 + per_path * n_shards s <= r_paths rm ->
  exists r, shard_loop malloc rm limits i a decoded s u m per (zlen D) coords st = Some r /\
    forall st', r = inr st' -> zlen S = n_shards s /\ exists cks',
      visited S S cks' /\ state_ok (vs0 ++ map (pair i) cks') st' /\
      kept st st' (per_path * zlen coords).
Proof.
  intros HW Hroom HndS HS. revert D cks st.
  induction coords as [|sigma coords IH]; intros D cks st HD H32 Hv Hd Hok Hp HP; cbn [shard_loop].
  { eexists. split; [done|]. rewrite app_nil_r in HD. subst D. intros st' E.
    destruct (Z.eqb_spec (zlen S) (n_shards s)); [|done]. injection E as <-. split; [done|].
    exists cks. split_and!; try done. split; try done. simpl. lia. }
  assert (0 <= per_path) as Hpp.
  { unfold per_path. pose proof (strlen_nonneg u). pose proof (go_rank _ _ _ _ _ Hgs). lia. }
  assert (aget S (zlen D) = Some sigma) as HSk by (rewrite HD; apply aget_middle).
  assert (sigma ∉ D) as Hnin.
  { rewrite HD in HndS. apply NoDup_app in HndS as (_ & Hdis & _). intros Hin. apply (Hdis sigma Hin). set_solver. }
  destruct (add_shard_spec S (zlen D) sigma st (vs0 ++ map (pair i) cks)) as (r & -> & Hst); try done.
  { apply HS. rewrite HD. set_solver. }
  { intros Hk. nia. }
  { intros l Hnd Hl. rewrite length_app, length_map.
    assert (zlen (coordinate <$> cks) + zlen l <= zlen W); [|rewrite length_fmap in *; lia].
    rewrite <-Nat2Z.inj_add, <-length_app. apply visit_room; [done|..].
    - apply NoDup_app. split_and!; [apply Hv| |done].
      intros c [_ Hc]%(vi_mem _ _ _ Hv) Hcl. destruct (Hl c Hcl) as [_ Hs]. by rewrite Hs in Hc.
    - intros c [Hc|Hc]%elem_of_app; [by apply (vi_mem _ _ _ Hv)|by apply Hl]. }
  cbn [mbind option_bind]. destruct r as [e|st1]; [by eexists|].
  destruct (Hst st1 eq_refl) as (Hk & cks1 & Hnd1 & Hmem1 & Ha1 & Hf1 & Hkp & Hd1).
  assert (zlen (D ++ [sigma]) = zlen D + 1) as HlD by (rewrite length_app; simpl; lia).
  assert (S = (D ++ [sigma]) ++ coords) as HD' by (by rewrite <-app_assoc).
  assert (zlen (D ++ [sigma]) <= zlen S) by (rewrite HD', (length_app _ coords); lia).
  rewrite u32_id, <-HlD by clia.
  destruct (IH (D ++ [sigma]) (cks ++ cks1) st1) as (r & -> & Hst'); try done.
  - by eapply visited_app.
  - by rewrite map_app, app_assoc.
  - apply Hkp.
  - destruct Hkp. rewrite HlD. lia.
  - eexists. split; [done|]. intros st' E. destruct (Hst' st' E) as (? & cks' & ? & ? & Hkp').
    split; [done|]. exists cks'. split_and!; try done. cbn [length]. rewrite Nat2Z.inj_succ.
    replace (per_path * Z.succ (zlen coords)) with (per_path + per_path * zlen coords) by lia.
    by eapply kept_trans.
Qed.

(** All shards together: the visits list each selected chunk once. *)
Lemma visited_all S cks :
  (forall sigma, sigma ∈ S <-> shard_sel sigma) -> visited S S cks ->
  forall c, c ∈ coordinate <$> cks <-> chunk_sel c.
Proof.
  intros HS [] c. rewrite vi_mem0. split; [intros [Hc _]; exact Hc|]. intros Hc. split; [done|]. apply HS.
  by apply (selected_shard _ _ _ _ Hgi Hgs Hper).
Qed.
End sample.
