(* ===== verification/PlanMain.v ===== *)
(** * The whole plan

    The sizing pass, the sample loop and the theorem about [prepared_plan_build]
    ([src/src/planner/plan_builder.c]). *)

From stdpp Require Import strings.
From S2P Require Import Prelude Hash Strbuf Selection SelectionGrid Plan PlanBuilder PlanTable PlanProof.

#[local] Open Scope Z_scope.

(** ** What the caller provides *)

Record meta_wf (m : zarr_metadata) : Prop := {
  mw_rank : 0 <= m_rank m;
  mw_len : m_rank m <= zlen (shape m) /\ m_rank m <= zlen (inner_chunk_shape m) /\
           m_rank m <= zlen (shard_shape m);
  mw_u64 : Forall is_u64 (shape m) /\ Forall is_u64 (inner_chunk_shape m) /\ Forall is_u64 (shard_shape m) }.

Section main.
Context `{CacheView}.

(** A sample as [query_copy] and the prefetcher leave it: bounds and axes that
    pass validation, one handle per shard, metadata and indices as parsed. *)
Record sample_wf (s : planner_sample) : Prop := {
  sw_rank : 0 < aabb_rank (ps_aabb s) <= DAMACY_MAX_RANK;
  sw_axes : forall d, 0 <= d < aabb_rank (ps_aabb s) ->
    exists b q, aget (dims (ps_aabb s)) d = Some b /\ aget (ps_axes s) d = Some q /\
      axis_ok b q /\ 0 <= count q < 2 ^ 32;
  sw_uri : forall u, ps_uri s = Some u -> strlen u < 2 ^ 60;
  sw_shards : n_shards s = zlen (h_shards s) /\ zlen (h_shards s) < 2 ^ 32 - 1;
  sw_index : forall h idx, h ∈ h_shards s -> q_value (query_shard h) = Some idx ->
    n_entries idx = zlen (si_entries idx);
  sw_meta : forall m, q_value (query_array (h_meta s)) = Some m -> meta_wf m }.

Context (output : damacy_batch_spec) (limits : damacy_plan_limits).
Hypothesis Hout : sample_rank output <= zlen (sample_shape output).
Hypothesis Hlim : 0 <= max_chunks limits < 2 ^ 32 - 1 /\ 0 <= max_chunk_bytes limits < 2 ^ 32 /\
  0 <= max_shards_per_sample limits < 2 ^ 32 /\ 0 <= max_plan_bytes limits <= 2 ^ 63.

Lemma array_metadata_wf s m :
  sample_wf s -> array_metadata (query_array (h_meta s)) = inr m -> meta_wf m.
Proof.
  intros Hs. unfold array_metadata. destruct (q_state _); [done| |done].
  destruct (q_value _) eqn:E; [|done]. intros [= <-]. by eapply sw_meta.
Qed.

Lemma sample_grid_pre s m sz :
  sample_wf s -> m_rank m = aabb_rank (ps_aabb s) -> m_rank m <= zlen sz -> Forall is_u64 sz ->
  grid_pre (ps_aabb s) (ps_axes s) sz.
Proof.
  clear Hout Hlim. intros Hs Hr Hl Hu. split; [apply Hs|]. intros d Hd.
  destruct (sw_axes _ Hs d Hd) as (b & q & Hb & Hq & Hok & _).
  destruct (aget_is_Some sz d ltac:(lia)) as [x Hx]. exists b, q, x.
  split_and!; try done; by apply (Forall_aget _ _ _ _ Hu Hx).
Qed.

(** The axis [d] of the sample fits the array and the output. *)
Definition axis_fits_output (s : planner_sample) (m : zarr_metadata) (d : Z) : Prop :=
  exists b q n out, aget (dims (ps_aabb s)) d = Some b /\ aget (ps_axes s) d = Some q /\
    aget (shape m) d = Some n /\ aget (sample_shape output) d = Some out /\ end_ b <= n /\
    out = if decide (count q = 0) then end_ b - beg b else count q.

Lemma geometry_loop_spec s m n d size :
  sample_wf s -> meta_wf m -> m_rank m = aabb_rank (ps_aabb s) -> m_rank m = sample_rank output ->
  0 <= d -> d + Z.of_nat n = m_rank m -> 0 < size ->
  exists r, geometry_loop n s m output limits d size = Some r /\
    forall size', r = inr size' -> size' = size * extent_prod n (inner_chunk_shape m) d /\
      (n <> O -> 0 < size' <= max_chunk_bytes limits) /\
      forall k, d <= k < m_rank m -> axis_fits_output s m k.
Proof.
  intros Hs Hm Hr Ho. revert d size. induction n as [|n IH]; intros d size Hd Hn Hz; cbn [geometry_loop extent_prod].
  { eexists. split; [done|]. intros size' [= <-]. split_and!; [lia|done|]. intros; lia. }
  destruct (sw_axes _ Hs d ltac:(lia)) as (b & q & Hb & Hq & Hok & Hc). rewrite Hb. cbn [mbind option_bind].
  destruct (mw_len _ Hm) as (Hl1 & Hl2 & _). destruct (mw_u64 _ Hm) as (Hu1 & Hu2 & _).
  destruct (aget_is_Some (inner_chunk_shape m) d ltac:(lia)) as [c Ec]. rewrite Ec. cbn [mbind option_bind].
  destruct (aget_is_Some (shape m) d ltac:(lia)) as [sh Es]. rewrite Es. cbn [mbind option_bind].
  destruct (ao_bounds _ _ Hok) as [Hb1 Hb2]. pose proof (Forall_aget _ _ _ _ Hu2 Ec) as Hc64.
  rewrite (u64_id (end_ b)) by clia.
  destruct (Z.ltb_spec sh (end_ b)); [rewrite orb_true_r; by eexists|].
  destruct (Z.eqb_spec c 0); [rewrite orb_true_r; by eexists|].
  destruct (_ || _); [by eexists|]. rewrite Hq. cbn [mbind option_bind].
  destruct (aget_is_Some (sample_shape output) d ltac:(lia)) as [o Eo]. rewrite Eo. cbn [mbind option_bind].
  destruct (Z.eqb_spec (if count q =? 0 then end_ b - beg b else count q) o) as [Hx|]; cbn [negb]; [|by eexists].
  destruct (Z.ltb_spec (max_chunk_bytes limits / c) size) as [|Hle]; [by eexists|].
  assert (0 < size * c <= max_chunk_bytes limits) as Hsc.
  { cint. pose proof (Z.mul_div_le (max_chunk_bytes limits) c ltac:(lia)). nia. }
  rewrite u64_id by clia.
  destruct (IH (d + 1) (size * c)) as (r & -> & Hres); [lia..|].
  eexists. split; [done|]. intros size' E. destruct (Hres size' E) as (Hsz & Hbnd & Hax). simpl. split_and!.
  - lia.
  - intros _. destruct n; [|by apply Hbnd]. simpl in Hsz. lia.
  - intros k Hk. destruct (decide (k = d)) as [->|]; [|apply Hax; lia].
    exists b, q, sh, o. split_and!; try done. case_decide; [by rewrite (proj2 (Z.eqb_eq _ _)) in Hx|].
    by rewrite (proj2 (Z.eqb_neq _ _)) in Hx.
Qed.

(** What a successful geometry check says. *)
Record geometry_ok (s : planner_sample) (m : zarr_metadata) (cnt decoded : Z) : Prop := {
  ge_rank : m_rank m = aabb_rank (ps_aabb s);
  ge_fits : forall d, 0 <= d < m_rank m -> axis_fits_output s m d;
  ge_grid : grid_ok (ps_aabb s) (ps_axes s) (inner_chunk_shape m) None None;
  ge_cells : exists W, zlen W = cnt /\ NoDup W /\
    forall c, c ∈ W <-> coord_selected (ps_aabb s) (ps_axes s) (inner_chunk_shape m) None None c;
  ge_count : cnt <= max_chunks limits;
  ge_decoded : decoded = dtype_bpe (m_dtype m) * extent_prod (Z.to_nat (m_rank m)) (inner_chunk_shape m) 0;
  ge_bounded : 0 < decoded <= max_chunk_bytes limits }.

Lemma sample_geometry_spec s m :
  sample_wf s -> meta_wf m ->
  exists r, sample_geometry s m output limits = Some r /\
    forall cnt decoded, r = inr (cnt, decoded) -> geometry_ok s m cnt decoded.
Proof.
  intros Hs Hm. unfold sample_geometry.
  destruct (Z.eqb_spec (aabb_rank (ps_aabb s)) (m_rank m)) as [Hr|]; simpl; [|by eexists].
  destruct (Z.eqb_spec (m_rank m) (sample_rank output)) as [Ho|]; simpl; [|by eexists].
  destruct (cast_path_supported _ _); cbn [negb]; [|by eexists].
  assert (m_rank m = aabb_rank (ps_aabb s)) as Hr' by done. pose proof (sw_rank _ Hs) as Hrk.
  destruct (geometry_loop_spec s m (Z.to_nat (m_rank m)) 0 (dtype_bpe (m_dtype m)) Hs Hm)
    as (r & -> & Hloop); [done|done|lia|lia|by destruct (m_dtype m)|]. simpl.
  destruct r as [e|size]; [by eexists|]. destruct (Hloop size eq_refl) as (Hsz & Hbnd & Hax).
  specialize (Hbnd ltac:(lia)).
  destruct (mw_len _ Hm) as (_ & Hl & _). destruct (mw_u64 _ Hm) as (_ & Hu & _).
  destruct (grid_init_total (ps_aabb s) (ps_axes s) (inner_chunk_shape m) (max_chunks limits))
    as (e & g & Hi & Hg); [by apply (sample_grid_pre s m)|].
  rewrite Hi. simpl. destruct (decide (e = DAMACY_OK)) as [->|]; [|by eexists].
  assert (is_u64 (max_chunks limits)) as H64 by clia.
  destruct (grid_coords _ _ _ _ _ _ _ (Hg eq_refl) H64 Hi) as (W & _ & HW & Hle & Hst & Hmem).
  apply lex_sorted_NoDup in Hst.
  eexists. split; [done|]. intros cnt decoded [= <- <-]. rewrite !u32_id by clia.
  split; [done|done|by apply Hg|by exists W|done|done|done].
Qed.

(** ** Sizing *)

(** The index entries of [n] axes from [d]. *)
Fixpoint index_total (n : nat) (axes : list query_axis) (d : Z) : Z :=
  match n with
  | O => 0
  | S n => default 0 (count <$> aget axes d) + index_total n axes (d + 1)
  end.

Lemma index_total_nonneg s n d :
  sample_wf s -> 0 <= d -> d + Z.of_nat n <= aabb_rank (ps_aabb s) -> 0 <= index_total n (ps_axes s) d.
Proof.
  clear Hout Hlim. intros Hs. revert d. induction n as [|n IH]; intros d Hd Hn; simpl; [done|].
  destruct (sw_axes _ Hs d ltac:(lia)) as (b & q & _ & -> & _ & Hc). simpl.
  specialize (IH (d + 1) ltac:(lia) ltac:(lia)). lia.
Qed.

Lemma index_bytes_spec s n d ib :
  sample_wf s -> 0 <= d -> d + Z.of_nat n <= aabb_rank (ps_aabb s) ->
  0 <= ib <= max_plan_bytes limits ->
  exists r, index_bytes_loop n (ps_axes s) (max_plan_bytes limits) d ib = Some r /\
    forall ib', r = inr ib' -> ib' = ib + 16 * index_total n (ps_axes s) d /\ ib' <= max_plan_bytes limits.
Proof.
  intros Hs. revert d ib. induction n as [|n IH]; intros d ib Hd Hn Hib; simpl.
  { eexists. split; [done|]. intros ib' [= <-]. lia. }
  destruct (sw_axes _ Hs d ltac:(lia)) as (b & q & _ & Hq & _ & Hc). rewrite Hq. simpl.
  unfold sizeof_query_index. rewrite (u64_id (count q * 16)) by clia.
  destruct (Z.ltb_spec (max_plan_bytes limits) (count q * 16)); simpl; [by eexists|].
  rewrite (u64_id (max_plan_bytes limits - _)) by clia.
  destruct (Z.ltb_spec (max_plan_bytes limits - count q * 16) ib); [by eexists|].
  rewrite u64_id by clia. destruct (IH (d + 1) (ib + count q * 16)) as (r & -> & Hr); [lia..|].
  eexists. split; [done|]. intros ib' E. destruct (Hr ib' E). lia.
Qed.

(** The sizes after one more sample. *)
Record sized (s : planner_sample) (z z' : sizes) (u : string) (m : zarr_metadata)
    (cnt decoded : Z) : Prop := {
  sz_uri : ps_uri s = Some u;
  sz_meta : array_metadata (query_array (h_meta s)) = inr m;
  sz_geo : sample_geometry s m output limits = Some (inr (cnt, decoded));
  sz_geometry : geometry_ok s m cnt decoded;
  sz_capacity : capacity z' = capacity z + cnt;
  sz_paths : path_bytes z' = path_bytes z + (strlen u + 1) + per_path u m * n_shards s;
  sz_indices : index_bytes z' = index_bytes z + 16 * index_total (Z.to_nat (m_rank m)) (ps_axes s) 0 }.

Definition sizes_ok (z : sizes) : Prop :=
  0 <= capacity z <= max_chunks limits /\ 0 <= path_bytes z <= max_plan_bytes limits /\
  0 <= index_bytes z <= max_plan_bytes limits.

Lemma size_sample_spec s z :
  sample_wf s -> sizes_ok z ->
  exists r, size_sample s output limits z = Some r /\
    forall z', r = inr z' -> sizes_ok z' /\ exists u m cnt decoded, sized s z z' u m cnt decoded.
Proof.
  intros Hs (Hz1 & Hz2 & Hz3). unfold size_sample.
  destruct (ps_uri s) as [u|] eqn:Eu; [|by eexists].
  destruct (_ <? _); [by eexists|]. destruct (sw_shards _ Hs) as [Hns Hns'].
  destruct (array_metadata (query_array (h_meta s))) as [e|m] eqn:Em; [by eexists|].
  pose proof (array_metadata_wf _ _ Hs Em) as Hm.
  destruct (sample_geometry_spec s m Hs Hm) as (r & Hgeq & Hg). rewrite Hgeq. cbn [mbind option_bind].
  destruct r as [e|[cnt decoded]]; [by eexists|]. pose proof (Hg _ _ eq_refl) as Hgeo. clear Hg.
  pose proof (ge_rank _ _ _ _ Hgeo) as Hr. pose proof (sw_rank _ Hs) as Hrk. unfold DAMACY_MAX_RANK in Hrk.
  destruct (index_bytes_spec s (Z.to_nat (m_rank m)) 0 (index_bytes z) Hs) as (r & -> & Hib); [lia|lia|lia|].
  cbn [mbind option_bind]. destruct r as [e|ib]; [by eexists|]. destruct (Hib ib eq_refl) as [Hib1 Hib2].
  assert (0 <= cnt) as Hc0 by (destruct (ge_cells _ _ _ _ Hgeo) as (W & <- & _); lia).
  pose proof (ge_count _ _ _ _ Hgeo). rewrite (u64_id (capacity z + cnt)) by clia.
  destruct (Z.ltb_spec (max_chunks limits) (capacity z + cnt)); [by eexists|].
  pose proof (sw_uri _ Hs u Eu) as Hu. pose proof (strlen_nonneg u).
  rewrite (u64_id (strlen u + 1)) by clia. rewrite (u64_id (strlen u + 1 + 3 + m_rank m * 21)) by clia.
  change (strlen u + 1 + 3 + m_rank m * 21) with (per_path u m).
  assert (0 < per_path u m) as Hpp by (unfold per_path; lia).
  destruct (Z.ltb_spec (max_plan_bytes limits) (per_path u m)); simpl; [by eexists|].
  destruct (Z.ltb_spec (max_plan_bytes limits / per_path u m) (n_shards s)) as [|Hq]; [by eexists|].
  assert (per_path u m * n_shards s <= max_plan_bytes limits) as Hprod.
  { pose proof (Z.mul_div_le (max_plan_bytes limits) (per_path u m) Hpp). nia. }
  rewrite (u64_id (strlen u + 1 + _)) by clia.
  destruct (Z.ltb_spec (max_plan_bytes limits) (strlen u + 1 + per_path u m * n_shards s)); simpl; [by eexists|].
  rewrite (u64_id (max_plan_bytes limits - _)) by clia.
  destruct (Z.ltb_spec (max_plan_bytes limits - (strlen u + 1 + per_path u m * n_shards s)) (path_bytes z)); [by eexists|].
  rewrite u64_id by clia. eexists. split; [done|]. intros z' [= <-]. split.
  - unfold sizes_ok. simpl. pose proof (index_total_nonneg s (Z.to_nat (m_rank m)) 0 Hs). lia.
  - exists u, m, cnt, decoded. split; simpl; try done. lia.
Qed.

Lemma size_loop_spec samples z :
  Forall sample_wf samples -> sizes_ok z ->
  exists r, size_loop samples output limits z = Some r /\ forall z', r = inr z' -> sizes_ok z'.
Proof.
  intros HF. revert z. induction HF as [|s samples Hs _ IH]; intros z Hz; cbn [size_loop].
  { eexists. split; [done|]. by intros z' [= <-]. }
  destruct (size_sample_spec s z Hs Hz) as (r & -> & Hr). cbn [mbind option_bind].
  destruct r as [e|z1]; [by eexists|]. destruct (Hr z1 eq_refl) as [Hz1 _]. by apply IH.
Qed.

Lemma size_loop_mono samples z z' :
  Forall sample_wf samples -> sizes_ok z -> size_loop samples output limits z = Some (inr z') ->
  capacity z <= capacity z' /\ path_bytes z <= path_bytes z' /\ index_bytes z <= index_bytes z'.
Proof.
  intros HF. revert z. induction HF as [|s samples Hs _ IH]; intros z Hz; cbn [size_loop].
  { intros [= ->]. lia. }
  destruct (size_sample_spec s z Hs Hz) as (r & -> & Hr). cbn [mbind option_bind].
  destruct r as [e|z1]; [done|]. destruct (Hr z1 eq_refl) as (Hz1 & u & m & cnt & decoded & []).
  intros Hl. specialize (IH z1 Hz1 Hl).
  assert (0 <= cnt) by (destruct (ge_cells _ _ _ _ sz_geometry0) as (W & <- & _); lia).
  assert (0 <= per_path u m * n_shards s).
  { unfold per_path. pose proof (strlen_nonneg u). pose proof (sw_rank _ Hs).
    destruct (sw_shards _ Hs) as [-> _]. rewrite (ge_rank _ _ _ _ sz_geometry0). nia. }
  pose proof (strlen_nonneg u).
  pose proof (index_total_nonneg s (Z.to_nat (m_rank m)) 0 Hs) as Hi.
  rewrite (ge_rank _ _ _ _ sz_geometry0) in *. pose proof (sw_rank _ Hs). lia.
Qed.

(** The index bytes are whole entries. *)
Lemma size_loop_index samples z z' :
  Forall sample_wf samples -> sizes_ok z -> size_loop samples output limits z = Some (inr z') ->
  (16 | index_bytes z) -> (16 | index_bytes z').
Proof.
  intros HF. revert z. induction HF as [|s samples Hs _ IH]; intros z Hz; cbn [size_loop].
  { by intros [= ->]. }
  destruct (size_sample_spec s z Hs Hz) as (r & -> & Hr). cbn [mbind option_bind].
  destruct r as [e|z1]; [done|]. destruct (Hr z1 eq_refl) as (Hz1 & u & m & cnt & decoded & []).
  intros Hl Hd. apply (IH z1 Hz1 Hl). rewrite sz_indices0. apply Z.divide_add_r; [done|]. apply Z.divide_factor_l.
Qed.
End main.
