(* ===== verification/PlanCorrect.v ===== *)
(** * The plan is complete

    The fill pass of [prepared_plan_build] ([src/src/planner/plan_builder.c]) and the
    theorem about the whole build: it stays inside the one allocation it sized, and
    the uses of region [j] are exactly the chunks sample [j] selects. *)

From stdpp Require Import strings.
From S2P Require Import Prelude Hash Strbuf Selection SelectionGrid Plan PlanBuilder PlanTable PlanProof PlanMain.

#[local] Open Scope Z_scope.

(** ** Buckets *)

Lemma buckets_loop_spec fuel b cap :
  is_pow2 b -> 0 <= cap < 2 ^ 32 -> 2 ^ 33 <= b * 2 ^ Z.of_nat fuel -> b <= 2 ^ 33 ->
  exists bk, buckets_loop fuel b cap = Some bk /\ is_pow2 bk /\ 2 * cap <= bk <= 2 ^ 33.
Proof.
  revert b. induction fuel as [|fuel IH]; intros b Hb Hc Hf Hle; simpl; rewrite (u64_id (2 * cap)) by clia.
  - rewrite (proj2 (Z.ltb_ge _ _)) by lia. exists b. split_and!; try done; lia.
  - destruct (Z.ltb_spec b (2 * cap)); [|exists b; split_and!; try done; lia].
    pose proof (pow2_pos b Hb). rewrite u64_id by clia. apply IH; try done.
    + destruct Hb as (k & Hk & ->). exists (k + 1). split; [lia|]. rewrite Z.pow_add_r by lia. lia.
    + rewrite Nat2Z.inj_succ, Z.pow_succ_r in Hf by lia. lia.
    + destruct Hb as (k & Hk & ->). assert (k < 33); [|].
      { apply (Z.pow_lt_mono_r_iff 2); lia. }
      replace (2 ^ k * 2) with (2 ^ (k + 1)) by (rewrite Z.pow_add_r by lia; lia).
      apply Z.pow_le_mono_r; lia.
Qed.

(** ** Regions and arrays *)

(** The copy of an axis in the plan. *)
Definition copied_axis (q : query_axis) : query_axis :=
  if decide (count q = 0) then query_axis_none else QueryAxis (take (Z.to_nat (count q)) (indices q)) (count q).

Lemma copied_axis_selects b q x :
  axis_ok b q -> axis_selects b (copied_axis q) x <-> axis_selects b q x.
Proof.
  intros [_ He]. unfold copied_axis. case_decide as E; [by unfold axis_selects; rewrite E|].
  destruct (He E) as (_ & Hl & _). unfold axis_selects. simpl. rewrite !decide_False by done.
  by rewrite firstn_all2 by lia.
Qed.

Lemma find_array_spec l u i :
  (find_array l u i = i + zlen l /\ u ∉ uri <$> l) \/
  exists arr, aget l (find_array l u i - i) = Some arr /\ uri arr = u /\ find_array l u i < i + zlen l.
Proof.
  revert i. induction l as [|a l IH]; intros i; csimpl.
  { left. split; [lia|]. apply not_elem_of_nil. }
  destruct (decide (uri a = u)) as [E|E].
  - right. exists a. rewrite Z.sub_diag. split_and!; [done|done|lia].
  - destruct (IH (i + 1)) as [[-> Hn]|(arr & Ha & Hu & Hlt)].
    + left. split; [lia|]. rewrite not_elem_of_cons. split; congruence.
    + right. exists arr. split_and!; [|done|lia]. apply aget_lookup in Ha as [? Ha]. apply aget_lookup.
      split; [lia|]. replace (Z.to_nat (find_array l u (i + 1) - i)) with
        (S (Z.to_nat (find_array l u (i + 1) - (i + 1)))) by lia. done.
Qed.

Section main.
Context `{CacheView}.

Lemma copy_axes_spec s n d used cap :
  sample_wf s -> 0 <= d -> d + Z.of_nat n <= aabb_rank (ps_aabb s) ->
  used + index_total n (ps_axes s) d <= cap ->
  exists l g, copy_axes_loop n (ps_axes s) d used cap = Some (l, g, used + index_total n (ps_axes s) d) /\
    zlen l = Z.of_nat n /\
    (forall k q, 0 <= k < Z.of_nat n -> aget (ps_axes s) (d + k) = Some q -> aget l k = Some (copied_axis q)) /\
    (g = true <-> exists k q, 0 <= k < Z.of_nat n /\ aget (ps_axes s) (d + k) = Some q /\ count q <> 0).
Proof.
  intros Hs. revert d used. induction n as [|n IH]; intros d used Hd Hn Hcap; cbn [copy_axes_loop index_total].
  { exists [], false. split; [by rewrite Z.add_0_r|]. split; [done|]. split; [intros; lia|].
    split; [done|]. intros (k & q & Hk & _). lia. }
  destruct (sw_axes _ Hs d ltac:(lia)) as (b & q & _ & Hq & _ & Hc). cbn [index_total] in Hcap.
  rewrite Hq in Hcap |- *. cbn [mbind option_bind fmap option_fmap option_map default from_option id] in Hcap |- *.
  pose proof (index_total_nonneg s n (d + 1) Hs ltac:(lia) ltac:(lia)) as Hnn.
  assert (forall l, (forall k q, 0 <= k < Z.of_nat n -> aget (ps_axes s) (d + 1 + k) = Some q ->
      aget l k = Some (copied_axis q)) -> forall k q', 0 <= k < Z.of_nat (S n) ->
      aget (ps_axes s) (d + k) = Some q' -> aget (copied_axis q :: l) k = Some (copied_axis q')) as Hget.
  { intros l Hl k q' Hk Hk'. destruct (decide (k = 0)) as [->|].
    - rewrite Z.add_0_r in Hk'. assert (q' = q) as -> by congruence. done.
    - specialize (Hl (k - 1) q' ltac:(lia)). replace (d + 1 + (k - 1)) with (d + k) in Hl by lia.
      apply Hl, aget_lookup in Hk' as [? Hk']. apply aget_lookup. split; [lia|].
      replace (Z.to_nat k) with (S (Z.to_nat (k - 1))) by lia. done. }
  destruct (Z.eqb_spec (count q) 0) as [E|E].
  - destruct (IH (d + 1) used) as (l & g & -> & Hl & Hcp & Hg); [lia..|]. cbn [mbind option_bind].
    exists (copied_axis q :: l), g. split; [unfold copied_axis; rewrite decide_True by done; f_equal; f_equal; lia|].
    split; [simpl; lia|]. split; [by apply Hget|]. rewrite Hg. split.
    + intros (k & q' & Hk & Hq' & Hne). exists (k + 1), q'. split_and!; [lia|lia| |done].
      by replace (d + (k + 1)) with (d + 1 + k) by lia.
    + intros (k & q' & Hk & Hq' & Hne). destruct (decide (k = 0)) as [->|].
      { rewrite Z.add_0_r in Hq'. assert (q' = q) as -> by congruence. done. }
      exists (k - 1), q'. split_and!; [lia|lia| |done]. by replace (d + 1 + (k - 1)) with (d + k) by lia.
  - rewrite (proj2 (Z.ltb_ge _ _)) by lia.
    destruct (IH (d + 1) (used + count q)) as (l & g & -> & Hl & Hcp & Hg); [lia..|]. cbn [mbind option_bind].
    exists (copied_axis q :: l), true.
    split; [unfold copied_axis; rewrite decide_False by done; f_equal; f_equal; lia|].
    split; [simpl; lia|]. split; [by apply Hget|]. split; [|done]. intros _.
    exists 0, q. rewrite Z.add_0_r. split_and!; [lia|lia|done|done].
Qed.

(** The region of sample [s] as the plan stores it. *)
Record region_of (i a : Z) (s : planner_sample) (m : zarr_metadata) (r : plan_region) : Prop := {
  ro_ids : r_array r = a /\ sample r = i;
  ro_source : r_source r = ps_aabb s;
  ro_axes : forall d q, 0 <= d < m_rank m -> aget (ps_axes s) d = Some q -> aget (r_axes r) d = Some (copied_axis q);
  ro_op : operation r = PLAN_GATHER <->
    exists d q, 0 <= d < m_rank m /\ aget (ps_axes s) d = Some q /\ count q <> 0 }.

(** What [add_region] leaves of the rest of the state. *)
Record same_chunks (st st' : build_state) : Prop := {
  sc_chunks : b_chunks st' = b_chunks st;
  sc_uses : b_uses st' = b_uses st;
  sc_table : b_table st' = b_table st;
  sc_path : b_path st' = b_path st }.

Lemma array_step rm st u m :
  zlen (b_arrays st) < r_samples rm -> b_paths st + (strlen u + 1) <= r_paths rm ->
  NoDup (uri <$> b_arrays st) ->
  exists l used, (if find_array (b_arrays st) u 0 =? zlen (b_arrays st) then
      used ← copy_path (r_paths rm) (b_paths st) u;
      l ← push (r_samples rm) (b_arrays st) (PlanArray u m);
      Some (l, used) else Some (b_arrays st, b_paths st)) = Some (l, used) /\
    used <= b_paths st + (strlen u + 1) /\ NoDup (uri <$> l) /\
    (exists arr, aget l (find_array (b_arrays st) u 0) = Some arr /\ uri arr = u) /\
    exists extra, l = b_arrays st ++ extra /\ zlen extra <= 1 /\ Forall (eq (PlanArray u m)) extra.
Proof.
  intros Hs Hp Hnd. pose proof (strlen_nonneg u).
  destruct (find_array_spec (b_arrays st) u 0) as [[-> Hn]|(arr & Ha & Hu & Hlt)].
  - rewrite Z.eqb_refl. unfold copy_path, push. rewrite (proj2 (Z.leb_le _ _)) by done. simpl.
    rewrite (proj2 (Z.ltb_lt _ _)) by done. simpl. eexists _, _. split; [done|]. split; [lia|]. split_and!.
    + rewrite fmap_app. apply NoDup_app. split_and!; [done| |apply NoDup_singleton].
      intros x Hx. csimpl. rewrite list_elem_of_singleton. by intros ->.
    + exists (PlanArray u m). split; [apply aget_middle|done].
    + exists [PlanArray u m]. split_and!; [done|done|by apply Forall_singleton].
  - rewrite Z.sub_0_r in Ha. rewrite (proj2 (Z.eqb_neq _ _)) by lia. eexists _, _. split; [done|].
    split; [lia|]. split_and!; [done|by exists arr|]. exists []. rewrite app_nil_r. split_and!; [done|done|constructor].
Qed.

Lemma add_region_spec rm i s u m st :
  sample_wf s -> m_rank m = aabb_rank (ps_aabb s) ->
  zlen (b_arrays st) < r_samples rm -> zlen (b_regions st) < r_samples rm ->
  b_paths st + (strlen u + 1) <= r_paths rm -> NoDup (uri <$> b_arrays st) ->
  b_indices st + index_total (Z.to_nat (m_rank m)) (ps_axes s) 0 <= r_indices rm ->
  exists a r st', add_region rm i s u m st = Some (a, st') /\ same_chunks st st' /\
    region_of i a s m r /\ b_regions st' = b_regions st ++ [r] /\
    b_paths st' <= b_paths st + (strlen u + 1) /\
    b_indices st' = b_indices st + index_total (Z.to_nat (m_rank m)) (ps_axes s) 0 /\
    NoDup (uri <$> b_arrays st') /\ (exists arr, aget (b_arrays st') a = Some arr /\ uri arr = u) /\
    exists extra, b_arrays st' = b_arrays st ++ extra /\ zlen extra <= 1 /\ Forall (eq (PlanArray u m)) extra.
Proof.
  intros Hs Hr Ha Hreg Hp Hnd Hi. unfold add_region. pose proof (sw_rank _ Hs) as Hrk.
  destruct (array_step rm st u m Ha Hp Hnd) as (l & used & -> & Hused & Hnd' & Harr & Hex). cbn [mbind option_bind].
  destruct (copy_axes_spec s (Z.to_nat (m_rank m)) 0 (b_indices st) (r_indices rm) Hs) as
    (axes & g & -> & Hlen & Hcp & Hg); [lia|lia|done|]. cbn [mbind option_bind].
  unfold push. rewrite (proj2 (Z.ltb_lt _ _)) by done. cbn [mbind option_bind].
  eexists _, _, _. split; [done|]. split; [done|]. simpl. split; [|by split_and!].
  rewrite Z2Nat.id in Hcp, Hg by lia. split; simpl; [done|done|done|].
  rewrite <-Hg. by destruct g.
Qed.

Context (malloc : Z -> bool) (rm : room) (output : damacy_batch_spec) (limits : damacy_plan_limits).
Hypothesis Hout : sample_rank output <= zlen (sample_shape output).
Hypothesis Hlim : 0 <= max_chunks limits < 2 ^ 32 - 1 /\ 0 <= max_chunk_bytes limits < 2 ^ 32 /\
  0 <= max_shards_per_sample limits < 2 ^ 32 /\ 0 <= max_plan_bytes limits <= 2 ^ 63.
Hypothesis Hbk : is_pow2 (r_buckets rm).
Hypothesis Hcap : r_capacity rm <= r_buckets rm /\ r_capacity rm < 2 ^ 32 - 1.

(** Sample [j] has its region, and [cks] are the chunks it selects, each once. [S]
    lists the shards it touches, [per] the chunks per shard. *)
Record planned_with (arrays : list plan_array) (regions : list plan_region) (j : Z) (s : planner_sample)
    (u : string) (m : zarr_metadata) (a decoded : Z) (per : list Z) (S : list (list Z)) (cks : list plan_chunk) : Prop := {
  pw_uri : ps_uri s = Some u;
  pw_meta : array_metadata (query_array (h_meta s)) = inr m;
  pw_fits : m_rank m = aabb_rank (ps_aabb s) /\ forall d, 0 <= d < m_rank m -> axis_fits_output output s m d;
  pw_decoded : decoded = dtype_bpe (m_dtype m) * extent_prod (Z.to_nat (m_rank m)) (inner_chunk_shape m) 0;
  pw_bounded : 0 < decoded < 2 ^ 32;
  pw_per : exists tot, zarr_metadata_inner_per_shard m = Some (Some (per, tot));
  pw_shards : zlen S = n_shards s /\ StronglySorted lex_lt S /\
    forall c, c ∈ S <-> coord_selected (ps_aabb s) (ps_axes s) (shard_shape m) None None c;
  pw_region : exists r, aget regions j = Some r /\ region_of j a s m r;
  pw_array : exists arr, aget arrays a = Some arr /\ uri arr = u;
  pw_nodup : NoDup (coordinate <$> cks);
  pw_mem : forall c, c ∈ coordinate <$> cks <->
    coord_selected (ps_aabb s) (ps_axes s) (inner_chunk_shape m) None None c;
  pw_chunks : Forall (fun ck => array ck = a) cks }.

Definition visits_of (vs : list (Z * plan_chunk)) (j : Z) : list plan_chunk :=
  snd <$> filter (fun v => fst v = j) vs.

Definition planned arrays regions vs j s : Prop :=
  exists u m a decoded per S, planned_with arrays regions j s u m a decoded per S (visits_of vs j) /\
    Forall (from_shard a decoded s u per S) (visits_of vs j).

(** An array of the plan carries the metadata of a sample in it. *)
Definition array_from (done : list planner_sample) (arr : plan_array) : Prop :=
  exists s, s ∈ done /\ ps_uri s = Some (uri arr) /\ array_metadata (query_array (h_meta s)) = inr (metadata arr).

(** The state after the samples [done], sized [z]. *)
Record filled (done : list planner_sample) (z : sizes) (vs : list (Z * plan_chunk)) (st : build_state) : Prop := {
  fi_state : dedup (r_buckets rm) vs (b_chunks st) (b_uses st) (b_table st);
  fi_path : sb_ok (b_path st);
  fi_arrays : zlen (b_arrays st) <= zlen done /\ NoDup (uri <$> b_arrays st);
  fi_meta : Forall (array_from done) (b_arrays st);
  fi_regions : zlen (b_regions st) = zlen done;
  fi_visits : zlen vs = capacity z /\ forall v, v ∈ vs -> 0 <= fst v < zlen done;
  fi_paths : b_paths st <= path_bytes z;
  fi_indices : 16 * b_indices st = index_bytes z;
  fi_planned : forall j s, aget done j = Some s -> planned (b_arrays st) (b_regions st) vs j s }.

Lemma visits_of_other vs i cks j : i <> j -> visits_of (vs ++ map (pair i) cks) j = visits_of vs j.
Proof.
  intros Hne. unfold visits_of. rewrite filter_app, fmap_app.
  replace (filter (fun v => fst v = j) (map (pair i) cks)) with (@nil (Z * plan_chunk)); [by rewrite app_nil_r|].
  induction cks as [|ck cks IH]; [done|]. simpl. by rewrite filter_cons_False.
Qed.

Lemma visits_of_new vs i cks :
  (forall v, v ∈ vs -> fst v < i) -> visits_of (vs ++ map (pair i) cks) i = cks.
Proof.
  intros Hvs. unfold visits_of. rewrite filter_app, fmap_app.
  replace (filter (fun v => fst v = i) vs) with (@nil (Z * plan_chunk)).
  - simpl. induction cks as [|ck cks IH]; [done|]. simpl. rewrite filter_cons_True by done. csimpl. by rewrite IH.
  - induction vs as [|v vs IH]; [done|]. rewrite filter_cons_False.
    + apply IH. intros w Hw. apply Hvs. set_solver.
    + specialize (Hvs v ltac:(set_solver)). lia.
Qed.

Lemma planned_extend arrays regions extra r vs i cks j s :
  planned arrays regions vs j s -> i <> j ->
  planned (arrays ++ extra) (regions ++ [r]) (vs ++ map (pair i) cks) j s.
Proof.
  intros (u & m & a & decoded & per & S & [] & Hfrom) Hne. exists u, m, a, decoded, per, S.
  split; [|by rewrite visits_of_other]. split; rewrite ?visits_of_other; try done.
  - destruct pw_region0 as (r' & Hr & ?). exists r'. split; [|done]. apply aget_snoc. by left.
  - destruct pw_array0 as (arr & Ha & ?). exists arr. split; [|done]. apply aget_lookup in Ha as [? Ha].
    apply aget_lookup. split; [done|]. by apply lookup_app_l_Some.
Qed.

Lemma add_sample_spec done z z' vs st s :
  sample_wf s -> filled done z vs st -> size_sample s output limits z = Some (inr z') -> sizes_ok limits z ->
  zlen done < r_samples rm -> capacity z' <= r_capacity rm -> path_bytes z' <= r_paths rm ->
  index_bytes z' <= 16 * r_indices rm ->
  exists r, add_sample malloc rm output limits (zlen done) s st = Some r /\
    forall st', r = inr st' -> exists vs', filled (done ++ [s]) z' vs' st'.
Proof.
  intros Hs Hf Hz Hzok Hns Hc Hp Hi.
  destruct (size_sample_spec output limits Hout Hlim s z Hs Hzok) as (rz & Hz' & Hsz).
  rewrite Hz in Hz'. injection Hz' as <-. destruct (Hsz z' eq_refl) as (Hzok' & u & m & cnt & decoded & []). clear Hsz.
  unfold add_sample. rewrite sz_uri, sz_meta. cbn [mbind option_bind]. destruct Hf.
  pose proof (array_metadata_wf _ _ Hs sz_meta) as Hm. pose proof (ge_rank _ _ _ _ _ _ sz_geometry) as Hr.
  destruct (sw_shards _ Hs) as [Hns1 Hns2]. pose proof (strlen_nonneg u) as Hu0. pose proof (sw_rank _ Hs) as Hrk.
  assert (0 <= per_path u m * n_shards s) as Hpp by (unfold per_path; nia).
  destruct (add_region_spec rm (zlen done) s u m st Hs Hr) as
    (a & r & st1 & -> & [] & Hreg & Hregs & Hpaths & Hinds & Hnd & Harr & extra & Hex & Hexl & Hnew);
    [lia|lia|lia|apply fi_arrays0|lia|]. cbn [mbind option_bind].
  rewrite sz_geo. cbn [mbind option_bind].
  destruct (mw_len _ Hm) as (_ & Hl2 & Hl3). destruct (mw_u64 _ Hm) as (_ & _ & Hu3).
  destruct (per_shard_loop_spec (Z.to_nat (m_rank m)) m 0 1) as (pers & Epers & Hper); [lia..|].
  unfold zarr_metadata_inner_per_shard. rewrite Epers. cbn [mbind option_bind].
  destruct pers as [[per tot]|]; [|by eexists]. destruct (Hper per tot eq_refl) as [Hpl Hpk]. clear Hper.
  destruct (grid_init_total (ps_aabb s) (ps_axes s) (shard_shape m) (max_shards_per_sample limits))
    as (e & g & Hgi & Hgok); [by apply (sample_grid_pre s m)|].
  rewrite Hgi. cbn [mbind option_bind]. destruct (decide (e = DAMACY_OK)) as [->|]; [|by eexists].
  assert (is_u64 (max_shards_per_sample limits)) as H64 by clia. specialize (Hgok eq_refl).
  destruct (grid_coords _ _ _ _ _ _ _ Hgok H64 Hgi) as (S & -> & HlS & HlS' & HsS & HmS). cbn [mbind option_bind].
  destruct (ge_cells _ _ _ _ _ _ sz_geometry) as (W & HlW & HndW & HmW).
  assert (zlen per = aabb_rank (ps_aabb s) /\
    forall k inner shard, 0 <= k < aabb_rank (ps_aabb s) -> aget (inner_chunk_shape m) k = Some inner ->
      aget (shard_shape m) k = Some shard -> inner <> 0 /\ shard mod inner = 0 /\ aget per k = Some (shard / inner)) as Hper.
  { split; [lia|]. intros k inner shard Hk. apply Hpk. lia. }
  assert (0 <= max_chunks limits < 2 ^ 32) as Hmc by lia.
  pose proof (shard_loop_spec malloc rm limits (zlen done) a decoded s u m per Hbk Hcap Hmc
    (ge_grid _ _ _ _ _ _ sz_geometry) Hgok Hr Hper (conj Hns1 Hns2) (sw_index _ Hs) (sw_uri _ Hs u sz_uri)
    W S vs (b_paths st1) S [] [] st1 HmW) as Hloop.
  cbn [length] in Hloop. change (Z.of_nat 0) with 0 in Hloop.
  destruct Hloop as (rr & -> & Hst); simpl.
  - lia.
  - by apply lex_sorted_NoDup.
  - intros sigma. apply HmS.
  - done.
  - lia.
  - split; [apply NoDup_nil_2|set_solver|constructor|constructor].
  - rewrite app_nil_r. by rewrite sc_chunks0, sc_uses0, sc_table0.
  - by rewrite sc_path0.
  - lia.
  - lia.
  - eexists. split; [done|]. intros st' E. destruct (Hst st' E) as (HSn & cks & Hvis & Hd' & []).
    pose proof (visited_all a decoded s u m per (ge_grid _ _ _ _ _ _ sz_geometry) Hgok Hper S cks HmS Hvis) as Hall.
    destruct Hvis. destruct fi_visits0 as [Hvl Hvr]. destruct fi_arrays0 as [Hal _].
    exists (vs ++ map (pair (zlen done)) cks).
    assert (zlen cks = cnt) as Hlc.
    { rewrite <-HlW, <-(length_fmap coordinate cks). f_equal. apply Permutation_length, NoDup_Permutation; [done..|].
      intros c. by rewrite Hall, HmW. }
    split.
    + done.
    + done.
    + rewrite kp_arrays, Hex, !length_app. simpl. split; [lia|]. by rewrite <-Hex.
    + rewrite kp_arrays, Hex. apply Forall_app. split.
      * eapply Forall_impl; [exact fi_meta0|]. intros arr (s' & Hs' & Huri & Hme). exists s'. split; [|done]. set_solver.
      * eapply Forall_impl; [exact Hnew|]. intros arr <-. exists s. split; [set_solver|done].
    + rewrite kp_regions, Hregs, !length_app. simpl. lia.
    + rewrite !length_app, length_map. simpl. split; [lia|]. intros v [Hv|Hv]%elem_of_app.
      * specialize (Hvr v Hv). lia.
      * apply list_elem_of_In, in_map_iff in Hv as (ck & <- & _). simpl. lia.
    + rewrite HSn in kp_paths. lia.
    + lia.
    + intros j s' [Hj|[-> ->]]%aget_snoc.
      * rewrite kp_arrays, kp_regions, Hex, Hregs. apply aget_Some_range in Hj as Hjr.
        apply planned_extend; [by apply fi_planned0|lia].
      * exists u, m, a, decoded, per, S. rewrite visits_of_new by (intros v Hv; specialize (Hvr v Hv); lia).
        rewrite kp_arrays, kp_regions. split; [|done]. split; try done.
        -- split; [done|]. apply sz_geometry.
        -- apply sz_geometry.
        -- pose proof (ge_bounded _ _ _ _ _ _ sz_geometry). lia.
        -- by exists tot.
        -- exists r. split; [|done]. rewrite Hregs, <-fi_regions0. apply aget_middle.
Qed.

Lemma sample_loop_spec samples done z zf vs st :
  Forall sample_wf samples -> filled done z vs st -> sizes_ok limits z ->
  size_loop samples output limits z = Some (inr zf) ->
  zlen done + zlen samples <= r_samples rm -> capacity zf <= r_capacity rm ->
  path_bytes zf <= r_paths rm -> index_bytes zf <= 16 * r_indices rm ->
  exists r, sample_loop malloc rm output limits (zlen done) samples st = Some r /\
    forall st', r = inr st' -> exists vs', filled (done ++ samples) zf vs' st'.
Proof.
  intros HF. revert done z vs st.
  induction HF as [|s samples Hs HF IH]; intros done z vs st Hf Hz Hsz Hns Hc Hp Hi; cbn [size_loop sample_loop] in *.
  { injection Hsz as ->. eexists. split; [done|]. intros st' [= <-]. exists vs. by rewrite app_nil_r. }
  destruct (size_sample s output limits z) as [[e|z1]|] eqn:Ez; [done| |done]. cbn [mbind option_bind] in Hsz.
  destruct (size_sample_spec output limits Hout Hlim s z Hs Hz) as (rz & Hz' & Hsz1).
  rewrite Ez in Hz'. injection Hz' as <-. destruct (Hsz1 z1 eq_refl) as [Hz1 _].
  destruct (size_loop_mono output limits Hout Hlim samples z1 zf HF Hz1 Hsz) as (? & ? & ?).
  cbn [length] in Hns. rewrite Nat2Z.inj_succ in Hns.
  destruct (add_sample_spec done z z1 vs st s Hs Hf Ez Hz) as (r & -> & Hst); [lia..|]. cbn [mbind option_bind].
  destruct r as [e|st1]; [by eexists|]. destruct (Hst st1 eq_refl) as (vs1 & Hf1).
  assert (zlen (done ++ [s]) = zlen done + 1) as Hl by (rewrite length_app; simpl; lia).
  rewrite <-Hl. destruct (IH (done ++ [s]) z1 vs1 st1 Hf1 Hz1 Hsz) as (r & -> & Hst'); [lia..|].
  eexists. split; [done|]. intros st' E. destruct (Hst' st' E) as (vs' & Hf'). exists vs'. by rewrite <-app_assoc in Hf'.
Qed.

Lemma filled_nil : 0 < r_buckets rm -> filled [] (Sizes 0 0 0) []
  (Build [] [] [] [] (repeat 0 (Z.to_nat (r_buckets rm))) 0 0 strbuf_zero).
Proof.
  clear Hout Hlim Hbk Hcap. intros Hb. split; simpl; try done.
  - apply dedup_nil. lia.
  - split; [done|]. apply NoDup_nil_2.
  - split; [done|]. set_solver.
  - intros j s Hj. apply aget_Some_range in Hj. simpl in Hj. lia.
Qed.
End main.

(** ** The whole build *)

(** The chunks the uses of region [j] name, in order. *)
Definition used_chunks (plan : prepared_plan) (j : Z) : list plan_chunk :=
  omap (fun u => if decide (region u = j) then aget (chunks plan) (chunk u) else None) (uses plan).

Lemma used_chunks_keys bk vs plan table j :
  dedup bk vs (chunks plan) (uses plan) table -> key <$> used_chunks plan j = key <$> visits_of vs j.
Proof.
  intros Hd. unfold used_chunks, visits_of.
  assert (Forall2 (fun u v => region u = fst v /\
    exists ck, aget (chunks plan) (chunk u) = Some ck /\ key ck = key (snd v)) (uses plan) vs) as HF.
  { destruct Hd. destruct dd_count as [Hl _]. apply Forall2_same_length_lookup_2; [lia|].
    intros p u [i c] Hu Hv. rewrite <-aget_nat in Hu. rewrite <-aget_nat in Hv. destruct (dd_uses _ _ _ Hv) as (u' & ck & Hu' & Hr & Hck & Hk).
    assert (u' = u) as -> by congruence. simpl. split; [done|]. by exists ck. }
  clear Hd. induction HF as [|u v us vs' [Hr (ck & Hck & Hk)] _ IH]; [done|]. csimpl.
  destruct (decide (region u = j)) as [E|E].
  - rewrite Hck, filter_cons_True by (by rewrite <-Hr). csimpl. by rewrite Hk, IH.
  - rewrite filter_cons_False by (by rewrite <-Hr). exact IH.
Qed.

Section correct.
Context `{CacheView}.

(** The plan of a batch. *)
Record plan_ok (samples : list planner_sample) (output : damacy_batch_spec) (limits : damacy_plan_limits)
    (plan : prepared_plan) : Prop := {
  po_output : p_output plan = output;
  po_bytes : allocated_bytes plan <= max_plan_bytes limits;
  po_counts : zlen (regions plan) = zlen samples /\ zlen (chunks plan) <= zlen (uses plan) <= max_chunks limits;
  po_arrays : NoDup (uri <$> arrays plan);
  po_metadata : Forall (array_from samples) (arrays plan);
  po_distinct : forall x y cx cy, aget (chunks plan) x = Some cx -> aget (chunks plan) y = Some cy ->
    array cx = array cy -> coordinate cx = coordinate cy -> x = y;
  po_regions : forall j s, aget samples j = Some s ->
    exists u m a decoded per S,
      planned_with output (arrays plan) (regions plan) j s u m a decoded per S (used_chunks plan j);
  po_chunks : forall ck, ck ∈ chunks plan ->
    exists j s u m a decoded per S c, aget samples j = Some s /\
      planned_with output (arrays plan) (regions plan) j s u m a decoded per S (used_chunks plan j) /\
      from_shard a decoded s u per S c /\ ck = set_first_use c (first_use ck);
  po_uses : Forall (fun u => 0 <= chunk u < zlen (chunks plan) /\ 0 <= region u < zlen samples) (uses plan);
  po_first : forall x ck, aget (chunks plan) x = Some ck -> first_use ck = last_use (uses plan) x;
  po_next : forall p u, aget (uses plan) p = Some u ->
    next u = last_use (take (Z.to_nat p) (uses plan)) (chunk u) }.

Lemma planned_used rm samples output z vs st plan j s :
  filled rm output samples z vs st -> chunks plan = b_chunks st -> uses plan = b_uses st ->
  arrays plan = b_arrays st -> regions plan = b_regions st -> aget samples j = Some s ->
  exists u m a decoded per S,
    planned_with output (arrays plan) (regions plan) j s u m a decoded per S (used_chunks plan j) /\
    Forall (from_shard a decoded s u per S) (visits_of vs j).
Proof.
  intros Hf Hc Hu Ha Hr Hj. destruct (fi_planned _ _ _ _ _ _ Hf j s Hj) as (u & m & a & decoded & per & S & [] & Hfrom).
  exists u, m, a, decoded, per, S. split; [|done].
  assert (key <$> used_chunks plan j = key <$> visits_of vs j) as Hk.
  { eapply used_chunks_keys. rewrite Hc, Hu. apply Hf. }
  assert (coordinate <$> used_chunks plan j = coordinate <$> visits_of vs j) as Hco.
  { change coordinate with (snd ∘ key). by rewrite !list_fmap_compose, Hk. }
  assert (array <$> used_chunks plan j = array <$> visits_of vs j) as Har.
  { change array with (fst ∘ key). by rewrite !list_fmap_compose, Hk. }
  rewrite Ha, Hr. split; try done; rewrite ?Hco; try done.
  rewrite Forall_forall in pw_chunks0 |- *. intros ck Hck.
  assert (array ck ∈ array <$> visits_of vs j) as (ck' & -> & ?)%list_elem_of_fmap
    by (rewrite <-Har; by apply list_elem_of_fmap_2). auto.
Qed.

Lemma filled_plan_ok rm samples output limits z vs st bytes :
  filled rm output samples z vs st -> sizes_ok limits z -> bytes <= max_plan_bytes limits ->
  plan_ok samples output limits (PreparedPlan output (b_arrays st) (b_chunks st) (b_regions st) (b_uses st) bytes).
Proof.
  intros Hf (Hz & _ & _) Hb. set (plan := PreparedPlan _ _ _ _ _ _).
  assert (forall j s, aget samples j = Some s -> exists u m a decoded per S,
    planned_with output (arrays plan) (regions plan) j s u m a decoded per S (used_chunks plan j) /\
    Forall (from_shard a decoded s u per S) (visits_of vs j)) as Hpl.
  { intros j s Hj. by eapply planned_used. }
  destruct Hf, fi_state0. destruct fi_visits0 as [Hvl Hvr], dd_count as [Hc1 Hc2].
  split; simpl; try done.
  - split; [done|]. lia.
  - apply fi_arrays0.
  - intros x y cx cy Hx Hy Ha Hco. eapply dd_distinct; [done|done|]. unfold key. congruence.
  - intros j s Hj. destruct (Hpl j s Hj) as (u & m & a & decoded & per & S & Hpw & _). by exists u, m, a, decoded, per, S.
  - intros ck [x Hx]%elem_of_aget. destruct (dd_first _ _ Hx) as (p & j & c & Hp & Hck & _).
    assert ((j, c) ∈ vs) as Hin by (apply elem_of_aget; eauto). specialize (Hvr _ Hin). simpl in Hvr.
    destruct (aget_is_Some samples j Hvr) as [s Hj]. destruct (Hpl j s Hj) as (u & m & a & decoded & per & S & Hpw & Hfrom).
    exists j, s, u, m, a, decoded, per, S, c. split_and!; [done|done| |done].
    rewrite Forall_forall in Hfrom. apply Hfrom. unfold visits_of. apply list_elem_of_fmap. exists (j, c).
    split; [done|]. by apply list_elem_of_filter.
  - apply Forall_forall. intros u [p Hu]%elem_of_aget. split; [by apply (Forall_aget _ _ _ _ dd_range Hu)|].
    destruct (aget_is_Some vs p) as [[i c] Hv]; [rewrite <-Hc1; by eapply aget_Some_range|].
    destruct (dd_uses _ _ _ Hv) as (u' & ck & Hu' & <- & _). assert (u' = u) as -> by congruence.
    apply (Hvr (region u, c)), elem_of_aget. eauto.
Qed.

Lemma plan_build_ok malloc samples output limits :
  Forall sample_wf samples -> zlen samples < 2 ^ 32 ->
  0 <= sample_rank output <= zlen (sample_shape output) ->
  0 <= max_chunks limits < 2 ^ 32 - 1 -> 0 <= max_chunk_bytes limits < 2 ^ 32 ->
  0 <= max_shards_per_sample limits < 2 ^ 32 -> 0 <= max_plan_bytes limits <= 2 ^ 63 ->
  exists r, prepared_plan_build malloc samples output limits = Some r /\
    forall plan, r = inr plan -> plan_ok samples output limits plan.
Proof.
  intros HF Hn Hout Hl1 Hl2 Hl3 Hl4. unfold prepared_plan_build.
  destruct (_ || _); [by eexists|].
  assert (0 <= max_chunks limits < 2 ^ 32 - 1 /\ 0 <= max_chunk_bytes limits < 2 ^ 32 /\
    0 <= max_shards_per_sample limits < 2 ^ 32 /\ 0 <= max_plan_bytes limits <= 2 ^ 63) as Hlim by done.
  assert (sizes_ok limits (Sizes 0 0 0)) as Hz0 by (unfold sizes_ok; simpl; lia).
  destruct (size_loop_spec output limits (proj2 Hout) Hlim samples _ HF Hz0) as (r & Hr & Hz). rewrite Hr.
  cbn [mbind option_bind]. destruct r as [e|z]; [by eexists|]. specialize (Hz z eq_refl). pose proof Hz as (Hz1 & Hz2 & Hz3).
  destruct (buckets_loop_spec 33 1 (capacity z)) as (bk & -> & Hbk & Hbk'); [by exists 0|lia|done|done|].
  cbn [mbind option_bind]. unfold sizeof_plan_array, sizeof_plan_region, sizeof_plan_chunk, sizeof_plan_use.
  set (bytes := zlen samples * (784 + 1032) + capacity z * (288 + 12) + bk * 4 + path_bytes z).
  assert (0 <= bytes < 2 ^ 64) as Hbytes by (subst bytes; lia).
  rewrite (u64_id bytes) by clia. rewrite (u64_id (UINT64_MAX - bytes)) by clia.
  destruct (Z.ltb_spec (UINT64_MAX - bytes) (index_bytes z)) as [|Hix]; [by eexists|].
  rewrite (u64_id (bytes + index_bytes z)) by clia.
  destruct (Z.ltb_spec (max_plan_bytes limits) (bytes + index_bytes z)); [rewrite orb_true_r; by eexists|].
  rewrite (u64_id (max_plan_bytes limits - _)) by clia.
  destruct (Z.ltb_spec (max_plan_bytes limits - (bytes + index_bytes z)) sizeof_prepared_plan) as [|Hsp];
    [rewrite orb_true_r; by eexists|].
  destruct (_ || _); [by eexists|]. destruct (malloc sizeof_prepared_plan); simpl; [|by eexists].
  destruct (malloc (bytes + index_bytes z)); simpl; [|by eexists].
  set (rm := Room _ _ _ _ _). pose proof (pow2_pos _ Hbk) as Hbk0.
  assert (r_capacity rm <= r_buckets rm /\ r_capacity rm < 2 ^ 32 - 1) as Hcap by (subst rm; simpl; lia).
  assert (index_bytes z <= 16 * r_indices rm) as Hind.
  { destruct (size_loop_index output limits (proj2 Hout) Hlim samples _ z HF Hz0 Hr (Z.divide_0_r _)) as [k Hk].
    subst rm. simpl. unfold sizeof_query_index. rewrite Hk, Z.div_mul by done. lia. }
  destruct (sample_loop_spec malloc rm output limits (proj2 Hout) Hlim Hbk Hcap samples [] (Sizes 0 0 0) z []
    (Build [] [] [] [] (repeat 0 (Z.to_nat (r_buckets rm))) 0 0 strbuf_zero) HF) as (r & Hloop & Hst);
    [by apply filled_nil|done|done|simpl; lia|simpl; lia|simpl; lia|done|].
  cbn [length] in Hloop. change (Z.of_nat 0) with 0 in Hloop. cbn [r_buckets rm] in Hloop. rewrite Hloop.
  cbn [mbind option_bind]. destruct r as [e|st]; [by eexists|]. destruct (Hst st eq_refl) as (vs & Hf).
  eexists. split; [done|]. intros plan [= <-]. eapply (filled_plan_ok rm); [exact Hf|done|lia].
Qed.

(** C11. [prepared_plan_build] always returns. It never writes outside the one
    allocation it sized beforehand (arrays, regions, chunks, uses, hash table, paths
    and index entries all have room), the bytes it reports stay within
    [max_plan_bytes], and a plan it returns is complete: region [j] describes sample
    [j], its uses name every chunk the sample's selection touches, once and no other;
    a chunk shared by several samples is stored once; its offset, size and path are
    those of its entry in the index of its shard; and from [first_use] the [next]
    links run through the uses of a chunk. *)
Theorem prepared_plan_build_correct malloc samples output limits :
  Forall sample_wf samples -> zlen samples < 2 ^ 32 ->
  0 <= sample_rank output <= zlen (sample_shape output) ->
  0 <= max_chunks limits < 2 ^ 32 - 1 -> 0 <= max_chunk_bytes limits < 2 ^ 32 ->
  0 <= max_shards_per_sample limits < 2 ^ 32 -> 0 <= max_plan_bytes limits <= 2 ^ 63 ->
  exists r, prepared_plan_build malloc samples output limits = Some r /\
    forall plan, r = inr plan -> plan_ok samples output limits plan.
Proof. apply plan_build_ok. Qed.
End correct.

(** ** An example *)

Module Example.
(** Sixteen bytes in chunks of four and shards of eight. *)
Definition meta : zarr_metadata :=
  Meta dtype_u8 1 [16] [4] [8] true CODEC_NONE true (repeat 0 8).
Definition handle (n : Z) : prefetch_handle := Handle n 1.
#[local] Instance view : CacheView := {
  query_array h := Query PREFETCH_STATE_READY (Some meta) DAMACY_OK;
  query_shard h := Query PREFETCH_STATE_READY
    (Some (ShardIndex [ShardEntry 0 4; ShardEntry (4 + h_slot h) 4] 2)) DAMACY_OK }.
Definition at_ (lo : Z) (shards : list prefetch_handle) : planner_sample :=
  PlannerSample (Some "a"%string) (Aabb [Interval lo (lo + 6)] 1) [query_axis_none] (handle 0)
    shards (zlen shards) (handle 9).
Definition samples : list planner_sample := [at_ 2 [handle 0]; at_ 6 [handle 0; handle 1]].
Definition output : damacy_batch_spec := BatchSpec 2 [6] 1 2.
Definition limits : damacy_plan_limits := Limits 16 64 4 100000.

Lemma at_wf lo shards :
  0 <= lo < 100 -> zlen shards < 100 -> sample_wf (at_ lo shards).
Proof.
  intros Hlo Hsh. split; simpl; try done.
  - intros d Hd. assert (d = 0) as -> by lia. eexists _, _. split; [done|]. split; [done|].
    split; [|done]. split; [simpl; lia|done].
  - intros u [= <-]. done.
  - split; [done|]. lia.
  - intros h idx _ [= <-]. done.
  - intros m [= <-]. split; [done|done|]. split_and!; (constructor; [done|constructor]).
Qed.

(** The two samples share chunk 1, which the plan stores once. *)
Lemma prepared_plan_build_witness :
  exists plan, prepared_plan_build (fun _ => true) samples output limits = Some (inr plan) /\
    coordinate <$> chunks plan = [[0]; [1]; [2]] /\
    uses plan = [PlanUse 0 0 UINT32_MAX; PlanUse 1 0 UINT32_MAX; PlanUse 1 1 1; PlanUse 2 1 UINT32_MAX] /\
    plan_ok samples output limits plan.
Proof.
  destruct (prepared_plan_build_correct (fun _ => true) samples output limits) as (r & Hr & Hok).
  - constructor; [by apply at_wf|]. constructor; [by apply at_wf|constructor].
  - done.
  - done.
  - done.
  - done.
  - done.
  - done.
  - destruct (prepared_plan_build (fun _ => true) samples output limits) as [[e|plan]|] eqn:E;
      vm_compute in E; try discriminate.
    exists plan. injection E as <-. split; [done|]. split; [reflexivity|]. split; [reflexivity|].
    apply Hok. by injection Hr as <-.
Defined.
End Example.
