(* ===== verification/Dispatch.v ===== *)
(** * From a plan to reads

    [src/src/executor/dispatch.c]: a prepared plan becomes one sample plan per
    region, one chunk plan and one aligned read window per use, and the gather
    tables of indexed samples; coalescing and grouping finish it. The string table
    the paths go through is an interface, which [path_intern] implements. Signed
    overflow and division by zero are [None], like an access out of range. *)

From stdpp Require Import strings.
From S2P Require Import Prelude Selection ReadOpSort DispatchTypes Coalesce GroupChunks Plan.

#[local] Open Scope Z_scope.

(** ** Signed arithmetic *)

Definition i64 (z : Z) : option Z := if (- 2 ^ 63 <=? z) && (z <? 2 ^ 63) then Some z else None.

(** ** The string table *)

(** [in_acquire] gives the text behind the pointer it returns, [None] for null. *)
Class Interner (T : Type) := {
  in_reset : T -> T;
  in_acquire : T -> string -> option (option string * T) }.

(** ** Scratch *)

Record dispatch_scratch := DispatchScratch {
  ds_indices : option (list Z); ds_reads : option (list read_op);
  ds_chunks : option (list chunk_plan); ds_capacity : Z }.
Definition dispatch_scratch_destroy (s : dispatch_scratch) : dispatch_scratch :=
  DispatchScratch None None None 0.

Definition read_op_zero : read_op := ReadOp None 0 0 0.
Definition sizeof_read_op : Z := 32.
Definition chunk_plan_zero : chunk_plan := ChunkPlan 0 0 0 0 0 0 0 0 0 0 false (repeat 0 31).
Definition sizeof_chunk_plan : Z := 168.

(** [calloc] says whether a request of so many bytes succeeds. *)
Definition scratch_reserve (calloc : Z -> bool) (s : dispatch_scratch) (cnt : Z)
    : damacy_status * dispatch_scratch :=
  if cnt <=? ds_capacity s then (DAMACY_OK, s)
  else if calloc ((cnt * 4 + 1) * 4) && calloc (cnt * sizeof_read_op) && calloc (cnt * sizeof_chunk_plan)
  then (DAMACY_OK, DispatchScratch (Some (repeat 0 (Z.to_nat (cnt * 4 + 1))))
                     (Some (repeat read_op_zero (Z.to_nat cnt)))
                     (Some (repeat chunk_plan_zero (Z.to_nat cnt))) cnt)
  else (DAMACY_OOM, dispatch_scratch_destroy s).

(** ** Sample plans *)

(** [strides[d]] down to 0, given those above; the head is the last one set. *)
Fixpoint strides_loop (d : nat) (sh : list Z) (acc : list Z) : option (list Z) :=
  match d with
  | O => Some acc
  | S d =>
      x ← aget sh (Z.of_nat d);
      above ← head acc;
      s ← i64 (above * x);
      strides_loop d sh (s :: acc)
  end.

(** The loop over the [n] entries of an axis, from [j]. *)
Fixpoint fill_indices (n : nat) (entries : list query_index) (j chunk : Z)
    (l : list gather_index) (at_ : Z) : option (list gather_index * Z) :=
  match n with
  | O => Some (l, at_)
  | S n =>
      e ← aget entries j;
      l ← aset l at_ (GatherIndex (u32 (u64 (source e) mod chunk)) (output e));
      fill_indices n entries (j + 1) chunk l (u32 (at_ + 1))
  end.

Definition sample_dim_zero : sample_dim := SampleDim 0 0 0 0 0 0 0 0.
Definition set_dims (s : sample_plan) (l : list sample_dim) : sample_plan :=
  SamplePlan (sp_batch_pool_slot s) (sp_sample_idx_in_batch s) (sp_rank s) (src_dtype s) (indexed s) l
    (sample_dst_off_elems s) (fill_value s) (layout s) (layout_probed s).

(** One dimension [d] of the sample plan at [at_]; also the next source stride. *)
Definition sample_dim_step (plan : prepared_plan) (rg : plan_region) (m : zarr_metadata)
    (strides : list Z) (d : Z) (out : dispatch_output) (source_stride : Z)
    : option (damacy_status * dispatch_output * Z) :=
  chunk ← aget (inner_chunk_shape m) d;
  iv ← aget (dims (r_source rg)) d;
  if chunk =? 0 then None
  else
    let begin := u64 (beg iv) / chunk in
    let end_ := u64 (u64 (u64 (end_ iv) - 1) / chunk + 1) in
    axis ← aget (r_axes rg) d;
    if u32 (indices_cap out - n_indices out) <? count axis then Some (DAMACY_BUDGET, out, source_stride)
    else if negb (count axis =? 0) && bool_decide (out_indices out = None)
    then Some (DAMACY_INVAL, out, source_stride)
    else
      let offset := n_indices out in
      filled ← match out_indices out with
               | Some l => r ← fill_indices (Z.to_nat (count axis)) (indices axis) 0 chunk l offset;
                           Some (Some (fst r), snd r)
               | None => Some (None, offset)
               end;
      extent ← aget (sample_shape (p_output plan)) d;
      dst ← aget strides (d + 1);
      lo ← i64 (beg iv - u64 (begin * chunk));
      s ← aget (sample_plans out) (sample rg);
      l ← aset (sp_dims s) d
            (SampleDim (u32 chunk) (if count axis =? 0 then u32 (end_ - begin) else 0) offset (count axis)
               lo extent dst source_stride);
      samples ← aset (sample_plans out) (sample rg) (set_dims s l);
      next ← i64 (source_stride * chunk);
      Some (DAMACY_OK,
        set_samples (set_indices out (fst filled) (snd filled)) samples (n_sample_plans out), next).

(** [for (int d = meta->rank - 1; d >= 0; --d)]. *)
Fixpoint sample_dims_loop (d : nat) (plan : prepared_plan) (rg : plan_region) (m : zarr_metadata)
    (strides : list Z) (out : dispatch_output) (source_stride : Z)
    : option (damacy_status * dispatch_output) :=
  match d with
  | O => Some (DAMACY_OK, out)
  | S d =>
      r ← sample_dim_step plan rg m strides (Z.of_nat d) out source_stride;
      let '(st, out, source_stride) := (r : damacy_status * dispatch_output * Z) in
      if decide (st = DAMACY_OK) then sample_dims_loop d plan rg m strides out source_stride
      else Some (st, out)
  end.

(** The enum values. *)
Definition dtype_value (dt : zdtype) : Z :=
  match dt with
  | dtype_u8 => 0 | dtype_u16 => 1 | dtype_u32 => 2 | dtype_u64 => 3 | dtype_i8 => 4 | dtype_i16 => 5
  | dtype_i32 => 6 | dtype_i64 => 7 | dtype_f16 => 8 | dtype_f32 => 9 | dtype_f64 => 10
  end.

Definition is_gather (op : plan_operation) : bool :=
  match op with PLAN_GATHER => true | PLAN_COPY => false end.

Definition region_step (plan : prepared_plan) (slot : Z) (strides : list Z) (rg : plan_region)
    (out : dispatch_output) : option (damacy_status * dispatch_output) :=
  arr ← aget (arrays plan) (r_array rg);
  let m := metadata arr in
  s0 ← aget strides 0;
  off ← i64 (sample rg * s0);
  samples ← aset (sample_plans out) (sample rg)
    (SamplePlan slot (u16 (sample rg)) (m_rank m) (dtype_value (m_dtype m)) (is_gather (operation rg))
       (repeat sample_dim_zero (Z.to_nat DAMACY_MAX_RANK)) off (m_fill_value m) chunk_layout_zero 0);
  sample_dims_loop (Z.to_nat (m_rank m)) plan rg m strides
    (set_samples out samples (n_sample_plans out)) 1.

Fixpoint regions_loop (plan : prepared_plan) (slot : Z) (strides : list Z) (rgs : list plan_region)
    (out : dispatch_output) : option (damacy_status * dispatch_output) :=
  match rgs with
  | [] => Some (DAMACY_OK, out)
  | rg :: rgs =>
      r ← region_step plan slot strides rg out;
      let '(st, out) := (r : damacy_status * dispatch_output) in
      if decide (st = DAMACY_OK) then regions_loop plan slot strides rgs out else Some (st, out)
  end.

(** ** Uses *)

Definition set_chunk_d (cp : chunk_plan) (l : list Z) : chunk_plan :=
  ChunkPlan (read_op_idx cp) (offset_in_read cp) (compressed_nbytes cp) (decompressed_nbytes cp)
    (cp_host_buf_offset cp) (dev_decompressed_offset cp) (gather_offset cp)
    (batch_pool_slot cp) (sample_idx_in_batch cp) (codec_id cp) (is_fill cp) l.
Definition set_gather_offset (cp : chunk_plan) (o : Z) : chunk_plan :=
  ChunkPlan (read_op_idx cp) (offset_in_read cp) (compressed_nbytes cp) (decompressed_nbytes cp)
    (cp_host_buf_offset cp) (dev_decompressed_offset cp) o
    (batch_pool_slot cp) (sample_idx_in_batch cp) (codec_id cp) (is_fill cp) (chunk_d cp).

(** The loop over the dimensions, from [d]: the chunk's position in the sample's
    chunk grid, or its entries of the gather table. *)
Fixpoint use_dims_loop (n : nat) (ck : plan_chunk) (rg : plan_region) (m : zarr_metadata)
    (s : sample_plan) (d : Z) (cp : chunk_plan) (gd : list gather_dim)
    : option (chunk_plan * list gather_dim) :=
  match n with
  | O => Some (cp, gd)
  | S n =>
      iv ← aget (dims (r_source rg)) d;
      inner ← aget (inner_chunk_shape m) d;
      c ← aget (coordinate ck) d;
      if negb (indexed s) then
        if inner =? 0 then None
        else
          l ← aset (chunk_d cp) d (u32 (c - u64 (beg iv) / inner));
          use_dims_loop n ck rg m s (d + 1) (set_chunk_d cp l) gd
      else
        let origin := u64 (c * inner) in
        axis ← aget (r_axes rg) d;
        span ← query_chunk_span axis iv origin inner;
        sd ← aget (sp_dims s) d;
        gd ← aset gd (u32 (gather_offset cp + d))
               (GatherDim
                  (if count axis =? 0 then u32 (sp_begin span - origin)
                   else u32 (index_offset sd + u32 (sp_begin span)))
                  (u32 (sp_count span))
                  (if count axis =? 0 then u64 (sp_begin span - u64 (beg iv)) else 0));
        use_dims_loop n ck rg m s (d + 1) cp gd
  end.

Section dispatch.
Context {T : Type} `{Interner T}.

(** [source_path] and [dispatch_path]: the address of the last path interned, 0 for
    null, and the text it was interned as. *)
Record use_state := UseState { u_out : dispatch_output; u_paths : T; u_source : Z; u_path : option string }.

(** The chunk's path through the table. [at_] is the address of the path. *)
Definition intern_path (at_ : Z) (p : option string) (u : use_state) : option use_state :=
  if at_ =? u_source u then Some u
  else
    match p with
    | None => Some (UseState (u_out u) (u_paths u) at_ None)
    | Some s =>
        r ← in_acquire (u_paths u) s;
        Some (UseState (u_out u) (snd r) at_ (fst r))
    end.

(** [read_ops[i]] and [chunk_plans[i]] as left at the end of an iteration. *)
Definition put (u : use_state) (i : Z) (r : read_op) (cp : chunk_plan) : option use_state :=
  let out := u_out u in
  reads ← read_ops out;
  reads ← aset reads i r;
  cps ← chunk_plans out;
  cps ← aset cps i cp;
  Some (UseState (set_chunks (set_reads out (Some reads) (n_read_ops out)) (Some cps) (n_chunk_plans out))
          (u_paths u) (u_source u) (u_path u)).

Definition ret (st : damacy_status) (u : option use_state) : option (damacy_status * use_state) :=
  pair st <$> u.

(** The read window of a chunk that is not missing. *)
Definition read_step (alignment : Z) (ck : plan_chunk) (at_ i : Z) (cp : chunk_plan) (u : use_state)
    : option (damacy_status * use_state) :=
  let start := u64 (offset ck / alignment * alignment) in
  let end_ := u64 (offset ck + encoded_bytes ck) in
  if u64 (UINT64_MAX - alignment + 1) <? end_ then ret DAMACY_DECODE (put u i read_op_zero cp)
  else
    let end_ := u64 (u64 (end_ + alignment - 1) / alignment * alignment) in
    if UINT32_MAX <? u64 (end_ - start) then ret DAMACY_DECODE (put u i read_op_zero cp)
    else
      u ← intern_path at_ (path ck) u;
      match u_path u with
      | None => ret DAMACY_OOM (put u i read_op_zero cp)
      | Some p =>
          ret DAMACY_OK
            (put u i (ReadOp (Some p) start 0 (u32 (end_ - start)))
               (set_read cp (read_op_idx cp) (u32 (offset ck - start))))
      end.

(** Use [i]; [path_at x] is the address of the path of chunk [x]. *)
Definition use_step (plan : prepared_plan) (slot alignment : Z) (path_at : Z -> Z) (i : Z) (us : plan_use)
    (u : use_state) : option (damacy_status * use_state) :=
  ck ← aget (chunks plan) (chunk us);
  rg ← aget (regions plan) (region us);
  arr ← aget (arrays plan) (array ck);
  let m := metadata arr in
  let cp := ChunkPlan i 0 (encoded_bytes ck) (decoded_bytes ck) 0 0 0 slot (u16 (sample rg))
              (if missing ck then codec_value CODEC_FILL else u8 (codec_value (inner_codec m)))
              (missing ck) (repeat 0 (Z.to_nat DAMACY_MAX_RANK)) in
  s ← aget (sample_plans (u_out u)) (sample rg);
  let out := u_out u in
  if indexed s && (u32 (gather_dims_cap out - n_gather_dims out) <? m_rank m)
  then ret DAMACY_BUDGET (put u i read_op_zero cp)
  else
    let cp := if indexed s then set_gather_offset cp (n_gather_dims out) else cp in
    let n_gather := if indexed s then u32 (n_gather_dims out + m_rank m) else n_gather_dims out in
    r ← use_dims_loop (Z.to_nat (m_rank m)) ck rg m s 0 cp (gather_dims out);
    let '(cp, gd) := (r : chunk_plan * list gather_dim) in
    let u := UseState (set_gather out gd n_gather) (u_paths u) (u_source u) (u_path u) in
    if missing ck then ret DAMACY_OK (put u i read_op_zero cp)
    else read_step alignment ck (path_at (chunk us)) i cp u.

Fixpoint uses_loop (plan : prepared_plan) (slot alignment : Z) (path_at : Z -> Z) (i : Z)
    (l : list plan_use) (u : use_state) : option (damacy_status * use_state) :=
  match l with
  | [] => Some (DAMACY_OK, u)
  | us :: l =>
      r ← use_step plan slot alignment path_at i us u;
      let '(st, u) := (r : damacy_status * use_state) in
      if decide (st = DAMACY_OK) then uses_loop plan slot alignment path_at (i + 1) l u else Some (st, u)
  end.

(** ** The whole dispatch *)

(** The counters reset on entry. *)
Definition reset_out (out : dispatch_output) (n_regions : Z) : dispatch_output :=
  set_gather (set_indices (set_groups (set_reads (set_chunks (set_samples out (sample_plans out) n_regions)
    (chunk_plans out) 0) (read_ops out) 0) (read_op_groups out) 0) (out_indices out) 0) (gather_dims out) 0.

(** The scratch arrays hold no data between the passes: each writes what it reads. *)
Definition dispatch_plan_build (calloc : Z -> bool) (path_at : Z -> Z) (plan : prepared_plan)
    (slot alignment max_read_bytes max_chunks_per_wave : Z) (out : dispatch_output) (paths : T)
    (scratch : dispatch_scratch) : option (damacy_status * dispatch_output * T * dispatch_scratch) :=
  if (alignment =? 0) || (max_chunks_per_wave =? 0) then Some (DAMACY_INVAL, out, paths, scratch)
  else if (chunk_plans_cap out <? zlen (uses plan)) || (read_ops_cap out <? zlen (uses plan))
          || (sample_plans_cap out <? zlen (regions plan))
  then Some (DAMACY_BUDGET, out, paths, scratch)
  else
    let paths := in_reset paths in
    let out := reset_out out (zlen (regions plan)) in
    strides ← strides_loop (Z.to_nat (sample_rank (p_output plan))) (sample_shape (p_output plan)) [1];
    r ← regions_loop plan slot strides (regions plan) out;
    let '(st, out) := (r : damacy_status * dispatch_output) in
    if decide (st = DAMACY_OK) then
      r ← uses_loop plan slot alignment path_at 0 (uses plan) (UseState out paths 0 None);
      let '(st, u) := (r : damacy_status * use_state) in
      if decide (st = DAMACY_OK) then
        let n := zlen (uses plan) in
        let out := set_reads (set_chunks (u_out u) (chunk_plans (u_out u)) n) (read_ops (u_out u)) n in
        let '(st, scratch) := scratch_reserve calloc scratch n in
        if decide (st = DAMACY_OK) then
          r ← coalesce_chunks out max_read_bytes max_chunks_per_wave (ds_indices scratch) (ds_reads scratch);
          let '(st, out) := (r : damacy_status * dispatch_output) in
          if decide (st = DAMACY_OK) then
            r ← group_chunks_by_read out (ds_indices scratch) (ds_chunks scratch);
            let '(st, out) := (r : damacy_status * dispatch_output) in
            Some (st, out, u_paths u, scratch)
          else Some (st, out, u_paths u, scratch)
        else Some (st, out, u_paths u, scratch)
      else Some (st, u_out u, u_paths u, scratch)
    else Some (st, out, paths, scratch).
End dispatch.
