(* ===== verification/DispatchSamples.v ===== *)
(** * Sample plans and index tables

    The region pass of [dispatch_plan_build] ([src/src/executor/dispatch.c]): every
    sample plan describes its region, and its part of the index table lists the
    region's indices relative to their chunks. *)

From stdpp Require Import strings.
From S2P Require Import Prelude Selection ReadOpSort DispatchTypes Coalesce GroupChunks Plan Dispatch.

#[local] Open Scope Z_scope.

(** ** Strides *)

Lemma i64_id z : - 2 ^ 63 <= z < 2 ^ 63 -> i64 z = Some z.
Proof. intros Hz. unfold i64. by rewrite (proj2 (Z.leb_le _ _)), (proj2 (Z.ltb_lt _ _)) by lia. Qed.

(** The row-major strides of [rank] extents, and a final 1. *)
Definition strides_of (rank : nat) (sh strides : list Z) : Prop :=
  zlen strides = Z.of_nat rank + 1 /\
  forall d, (d <= rank)%nat -> aget strides (Z.of_nat d) = Some (extent_prod (rank - d) sh (Z.of_nat d)).

Lemma strides_loop_spec rank sh d acc :
  (d <= rank)%nat -> Z.of_nat rank <= zlen sh -> (forall k x, 0 <= k < Z.of_nat rank -> aget sh k = Some x -> 0 < x) ->
  extent_prod rank sh 0 < 2 ^ 63 ->
  zlen acc = Z.of_nat (rank - d) + 1 ->
  (forall k, (d <= k <= rank)%nat -> aget acc (Z.of_nat (k - d)) = Some (extent_prod (rank - k) sh (Z.of_nat k))) ->
  exists strides, strides_loop d sh acc = Some strides /\ strides_of rank sh strides.
Proof.
  intros Hd Hl Hpos Hmax. revert acc Hd. induction d as [|d IH]; intros acc Hd Hlen Hacc; cbn [strides_loop].
  { exists acc. split; [done|]. split; [lia|]. intros k Hk. specialize (Hacc k ltac:(lia)). by rewrite Nat.sub_0_r in Hacc. }
  destruct (aget_is_Some sh (Z.of_nat d) ltac:(lia)) as [x Ex]. rewrite Ex. cbn [mbind option_bind].
  pose proof (Hacc (S d) ltac:(lia)) as Ha. rewrite Nat.sub_diag in Ha.
  destruct acc as [|above acc]; [done|]. assert (above = extent_prod (rank - S d) sh (Z.of_nat (S d))) as ->.
  { unfold aget in Ha. simpl in Ha. congruence. }
  cbn [head mbind option_bind].
  assert (extent_prod (rank - d) sh (Z.of_nat d) =
    extent_prod (rank - S d) sh (Z.of_nat (S d)) * x) as Hstep.
  { replace (rank - d)%nat with (S (rank - S d)) by lia. cbn [extent_prod]. rewrite Ex. cbn.
    replace (Z.of_nat d + 1) with (Z.of_nat (S d)) by lia. lia. }
  assert (0 < extent_prod (rank - d) sh (0 + Z.of_nat d) <= extent_prod rank sh 0) as Hb.
  { apply extent_prod_suffix; [lia|]. intros j y Hj. apply Hpos. lia. }
  rewrite Z.add_0_l in Hb. rewrite <-Hstep, i64_id by lia. cbn [mbind option_bind].
  apply IH; [lia|cbn [length] in *; lia|]. intros k Hk. destruct (decide (k = d)) as [->|].
  - by rewrite Nat.sub_diag.
  - specialize (Hacc k ltac:(lia)). apply aget_lookup in Hacc as [? Hacc]. apply aget_lookup. split; [lia|].
    replace (Z.to_nat (Z.of_nat (k - d))) with (S (k - S d)) by lia. rewrite Nat2Z.id in Hacc. done.
Qed.

(** ** Index tables *)

Lemma fill_indices_spec n entries j chunk l at_ :
  0 <= j -> j + Z.of_nat n <= zlen entries -> 0 <= at_ -> at_ + Z.of_nat n <= zlen l ->
  at_ + Z.of_nat n < 2 ^ 32 -> 0 < chunk < 2 ^ 32 ->
  (forall k e, j <= k < j + Z.of_nat n -> aget entries k = Some e -> is_u64 (source e)) ->
  exists l', fill_indices n entries j chunk l at_ = Some (l', at_ + Z.of_nat n) /\ length l' = length l /\
    (forall k, k < at_ \/ at_ + Z.of_nat n <= k -> aget l' k = aget l k) /\
    forall k e, 0 <= k < Z.of_nat n -> aget entries (j + k) = Some e ->
      aget l' (at_ + k) = Some (GatherIndex (source e mod chunk) (output e)).
Proof.
  revert j l at_. induction n as [|n IH]; intros j l at_ Hj Hn Ha Hl H32 Hc Hu; cbn [fill_indices].
  { exists l. split; [by rewrite Z.add_0_r|]. split_and!; [done|done|]. intros; lia. }
  destruct (aget_is_Some entries j ltac:(lia)) as [e Ee]. rewrite Ee. cbn [mbind option_bind].
  rewrite (u64_id (source e)) by (apply (Hu j); [lia|done]).
  rewrite (u32_id (source e mod chunk)) by (pose proof (Z.mod_pos_bound (source e) chunk); clia).
  assert (exists l1, aset l at_ (GatherIndex (source e mod chunk) (output e)) = Some l1) as [l1 Hs]
    by (eexists; apply aset_range; lia). rewrite Hs. cbn [mbind option_bind]. rewrite u32_id by clia.
  pose proof (length_aset _ _ _ _ Hs) as Hl1.
  destruct (IH (j + 1) l1 (at_ + 1)) as (l' & -> & Hl' & Hout & Hin); [lia|lia|lia|rewrite Hl1; lia|lia|lia| |].
  { intros k x Hk. apply Hu. lia. }
  exists l'. split; [f_equal; f_equal; lia|]. split_and!; [congruence| |].
  - intros k Hk. rewrite Hout by lia. apply (aget_aset_ne _ _ _ _ _ Hs). lia.
  - intros k x Hk Hx. destruct (decide (k = 0)) as [->|].
    + rewrite Z.add_0_r in *. rewrite Hout, (aget_aset_eq _ _ _ _ Hs) by lia. congruence.
    + specialize (Hin (k - 1) x ltac:(lia)). replace (at_ + 1 + (k - 1)) with (at_ + k) in Hin by lia.
      apply Hin. by replace (j + 1 + (k - 1)) with (j + k) by lia.
Qed.

(** The entries [off, off + count) of the table are those of the axis, relative to
    their chunk. *)
Definition axis_table (tbl : list gather_index) (q : query_axis) (inner off : Z) : Prop :=
  forall k e, aget (indices q) k = Some e -> 0 <= k < count q ->
    aget tbl (off + k) = Some (GatherIndex (source e mod inner) (output e)).

Definition tbl (out : dispatch_output) : list gather_index := default [] (out_indices out).

(** Only the sample plans and the index table, from its current end, changed. *)
Record only_samples (out out' : dispatch_output) : Prop := {
  os_same : exists samples l n, out' = set_samples (set_indices out l n) samples (n_sample_plans out);
  os_null : out_indices out' = None <-> out_indices out = None;
  os_len : length (sample_plans out') = length (sample_plans out) /\ length (tbl out') = length (tbl out);
  os_grow : n_indices out <= n_indices out';
  os_kept : forall k, 0 <= k < n_indices out -> aget (tbl out') k = aget (tbl out) k }.

Lemma only_samples_refl out : only_samples out out.
Proof. split; try done. exists (sample_plans out), (out_indices out), (n_indices out). by destruct out. Qed.

Lemma only_samples_trans o1 o2 o3 : only_samples o1 o2 -> only_samples o2 o3 -> only_samples o1 o3.
Proof.
  intros [(s1 & l1 & n1 & E1) N1 [L1 L1'] G1 K1] [(s2 & l2 & n2 & E2) N2 [L2 L2'] G2 K2]. split.
  - exists s2, l2, n2. subst. done.
  - tauto.
  - split; congruence.
  - lia.
  - intros k Hk. rewrite K2 by lia. by apply K1.
Qed.

(** ** Well-formed regions *)

(** Dimension [d] of a region: its interval, its index axis, the chunk extent and
    the output extent. *)
Record axis_wf (plan : prepared_plan) (rg : plan_region) (m : zarr_metadata) (d : Z)
    (iv : damacy_interval) (q : query_axis) (inner extent : Z) : Prop := {
  aw_source : aget (dims (r_source rg)) d = Some iv;
  aw_axis : aget (r_axes rg) d = Some q;
  aw_inner : aget (inner_chunk_shape m) d = Some inner;
  aw_extent : aget (sample_shape (p_output plan)) d = Some extent;
  aw_ok : axis_ok iv q;
  aw_count : 0 <= count q < 2 ^ 32;
  aw_size : 0 < inner < 2 ^ 32;
  aw_grid : count q = 0 -> (end_ iv - 1) / inner - beg iv / inner + 1 < 2 ^ 32 }.

Record region_wf (plan : prepared_plan) (rg : plan_region) (m : zarr_metadata) : Prop := {
  rw_array : exists u, aget (arrays plan) (r_array rg) = Some (PlanArray u m);
  rw_sample : 0 <= sample rg < 2 ^ 16;
  rw_rank : m_rank m = sample_rank (p_output plan) /\ 0 < m_rank m <= DAMACY_MAX_RANK;
  rw_axes : forall d, 0 <= d < m_rank m -> exists iv q inner extent, axis_wf plan rg m d iv q inner extent;
  rw_op : operation rg = PLAN_GATHER <->
    exists d q, 0 <= d < m_rank m /\ aget (r_axes rg) d = Some q /\ count q <> 0;
  rw_chunk : extent_prod (Z.to_nat (m_rank m)) (inner_chunk_shape m) 0 < 2 ^ 63 }.

Record idx_ok (out : dispatch_output) : Prop := {
  ix_range : 0 <= n_indices out <= indices_cap out /\ indices_cap out < 2 ^ 32;
  ix_len : out_indices out <> None -> indices_cap out <= zlen (tbl out) }.

Lemma only_samples_caps out out' : only_samples out out' ->
  indices_cap out' = indices_cap out /\ read_ops out' = read_ops out /\ chunk_plans out' = chunk_plans out /\
  read_op_groups out' = read_op_groups out /\ gather_dims out' = gather_dims out /\
  n_gather_dims out' = n_gather_dims out /\ gather_dims_cap out' = gather_dims_cap out /\
  read_op_groups_cap out' = read_op_groups_cap out.
Proof. intros [(s & l & n & ->) _ _ _ _]. done. Qed.

(** The number of dimensions after [d]. *)
Definition inner_dims (m : zarr_metadata) (d : Z) : nat := Z.to_nat (m_rank m) - S (Z.to_nat d).

(** Dimension [d] of a sample plan: what the kernels need to map source to output. *)
Definition dim_ok (plan : prepared_plan) (rg : plan_region) (m : zarr_metadata) (out : dispatch_output)
    (d : Z) (sd : sample_dim) : Prop :=
  exists iv q inner extent off, axis_wf plan rg m d iv q inner extent /\
    sd = SampleDim inner (if decide (count q = 0) then (end_ iv - 1) / inner - beg iv / inner + 1 else 0)
           off (count q) (beg iv mod inner) extent
           (extent_prod (inner_dims m d) (sample_shape (p_output plan)) (d + 1))
           (extent_prod (inner_dims m d) (inner_chunk_shape m) (d + 1)) /\
    0 <= off /\ off + count q <= n_indices out /\ axis_table (tbl out) q inner off.

Lemma dim_ok_mono plan rg m out out' d sd :
  only_samples out out' -> dim_ok plan rg m out d sd -> dim_ok plan rg m out' d sd.
Proof.
  intros Hos (iv & q & inner & extent & off & Hw & Hsd & Ho & Hn & Ht).
  exists iv, q, inner, extent, off. do 3 (split; [done|]). split.
  - pose proof (os_grow _ _ Hos). lia.
  - intros k e Hk Hkr. rewrite (os_kept _ _ Hos) by lia. by apply Ht.
Qed.

Lemma axis_source_u64 iv q k e : axis_ok iv q -> count q <> 0 -> aget (indices q) k = Some e -> is_u64 (source e).
Proof.
  intros Hok Hc Hk. destruct (ao_entries _ _ Hok Hc) as (_ & _ & Hin). pose proof (ao_bounds _ _ Hok).
  assert (e ∈ indices q) as He by (apply elem_of_aget; eauto). specialize (Hin e He). clia.
Qed.

(** The index part of a dimension step. *)
Lemma fill_step out iv q inner :
  idx_ok out -> axis_ok iv q -> 0 <= count q < 2 ^ 32 -> 0 < inner < 2 ^ 32 ->
  count q <= indices_cap out - n_indices out -> (count q <> 0 -> out_indices out <> None) ->
  exists o n, match out_indices out with
    | Some l => r ← fill_indices (Z.to_nat (count q)) (indices q) 0 inner l (n_indices out);
                Some (Some (fst r), snd r)
    | None => Some (None, n_indices out)
    end = Some (o, n) /\ n = n_indices out + count q /\ (o = None <-> out_indices out = None) /\
    length (default [] o) = length (tbl out) /\
    (forall k, 0 <= k < n_indices out -> aget (default [] o) k = aget (tbl out) k) /\
    axis_table (default [] o) q inner (n_indices out).
Proof.
  intros [Hr Hl] Hok Hc Hi Hcap Hnull. unfold tbl in *. destruct (out_indices out) as [l|]; simpl in *.
  - destruct (decide (count q = 0)) as [E|E].
    { rewrite E. simpl. eexists _, _. split; [done|]. split_and!; try done; [lia|]. intros k e _ Hk. lia. }
    destruct (ao_entries _ _ Hok E) as (_ & Hlen & _). specialize (Hl ltac:(done)).
    destruct (fill_indices_spec (Z.to_nat (count q)) (indices q) 0 inner l (n_indices out))
      as (l' & -> & Hl' & Hout & Hin); [lia..| |].
    { intros k e _. by eapply axis_source_u64. }
    cbn [mbind option_bind fst snd]. eexists _, _. split; [done|]. simpl. split; [lia|]. split; [done|]. split; [done|]. split.
    + intros k Hk. apply Hout. lia.
    + intros k e He Hk. specialize (Hin k e ltac:(lia)). rewrite Z.add_0_l in Hin. by apply Hin.
  - assert (count q = 0) as E by (destruct (decide (count q = 0)); [done|by destruct Hnull]).
    eexists _, _. split; [done|]. split_and!; try done; [lia|]. intros k e _ Hk. lia.
Qed.

(** ** One dimension, one region, all regions *)

Section regions.
Context (plan : prepared_plan) (strides : list Z).
Notation rank := (Z.to_nat (sample_rank (p_output plan))).
Hypothesis Hstr : strides_of rank (sample_shape (p_output plan)) strides.

Lemma lo_relative iv q inner :
  axis_ok iv q -> 0 < inner < 2 ^ 32 -> i64 (beg iv - u64 (u64 (beg iv) / inner * inner)) = Some (beg iv mod inner).
Proof.
  intros Hok Hi. pose proof (ao_bounds _ _ Hok) as Hb. rewrite (u64_id (beg iv)) by clia.
  pose proof (Z.mul_div_le (beg iv) inner ltac:(lia)). pose proof (Z.mod_pos_bound (beg iv) inner ltac:(lia)).
  pose proof (Z.div_mod (beg iv) inner ltac:(lia)). pose proof (Z.div_pos (beg iv) inner ltac:(lia) ltac:(lia)).
  rewrite u64_id by clia. rewrite i64_id by lia. f_equal. lia.
Qed.

Lemma grid_extent iv q inner :
  axis_ok iv q -> 0 < inner < 2 ^ 32 -> (count q = 0 -> (end_ iv - 1) / inner - beg iv / inner + 1 < 2 ^ 32) ->
  (if count q =? 0 then u32 (u64 (u64 (u64 (end_ iv) - 1) / inner + 1) - u64 (beg iv) / inner) else 0)
  = if decide (count q = 0) then (end_ iv - 1) / inner - beg iv / inner + 1 else 0.
Proof.
  intros Hok Hi Hg. pose proof (ao_bounds _ _ Hok) as Hb. destruct (Z.eqb_spec (count q) 0) as [E|E].
  2: by rewrite decide_False. rewrite decide_True by done. specialize (Hg E).
  rewrite (u64_id (end_ iv)), (u64_id (end_ iv - 1)), (u64_id (beg iv)) by clia.
  assert (beg iv / inner <= (end_ iv - 1) / inner) by (apply Z.div_le_mono; lia).
  pose proof (Z.div_pos (beg iv) inner ltac:(lia) ltac:(lia)).
  assert ((end_ iv - 1) / inner <= end_ iv - 1) by (apply Z.div_le_upper_bound; nia).
  rewrite u64_id by clia. rewrite u32_id by clia. lia.
Qed.

(** What one step does to the sample plan of the region. *)
Definition dim_set (rg : plan_region) (d : Z) (sd : sample_dim) (out out' : dispatch_output) : Prop :=
  exists s l, aget (sample_plans out) (sample rg) = Some s /\ aset (sp_dims s) d sd = Some l /\
    aset (sample_plans out) (sample rg) (set_dims s l) = Some (sample_plans out').

Lemma sample_dim_step_spec rg m d out s :
  region_wf plan rg m -> idx_ok out -> 0 <= d < m_rank m ->
  aget (sample_plans out) (sample rg) = Some s -> zlen (sp_dims s) = DAMACY_MAX_RANK ->
  exists st out' next, sample_dim_step plan rg m strides d out (extent_prod (inner_dims m d) (inner_chunk_shape m) (d + 1))
      = Some (st, out', next) /\ only_samples out out' /\ idx_ok out' /\
    (st = DAMACY_OK -> next = extent_prod (S (inner_dims m d)) (inner_chunk_shape m) d /\
       exists sd, dim_set rg d sd out out' /\ dim_ok plan rg m out' d sd).
Proof.
  intros Hrw Hix Hd Hs Hlen. destruct (rw_axes _ _ _ Hrw d Hd) as (iv & q & inner & extent & Hw). pose proof Hw as [].
  unfold sample_dim_step. rewrite aw_inner0, aw_source0. cbn [mbind option_bind].
  rewrite (proj2 (Z.eqb_neq inner 0)) by lia. rewrite aw_axis0. cbn [mbind option_bind].
  destruct (ix_range _ Hix) as [Hr1 Hr2]. rewrite (u32_id (indices_cap out - n_indices out)) by clia.
  destruct (Z.ltb_spec (indices_cap out - n_indices out) (count q)) as [|Hfit].
  { eexists _, _, _. split; [done|]. split; [apply only_samples_refl|]. done. }
  destruct (negb (count q =? 0) && bool_decide (out_indices out = None)) eqn:Enull.
  { eexists _, _, _. split; [done|]. split; [apply only_samples_refl|]. done. }
  assert (count q <> 0 -> out_indices out <> None) as Hnull.
  { intros Hc Ho. rewrite (proj2 (Z.eqb_neq _ _) Hc), Ho in Enull. done. }
  destruct (fill_step out iv q inner Hix aw_ok0 aw_count0 aw_size0 ltac:(lia) Hnull)
    as (o & n & -> & Hn & Ho & Hl & Hkept & Ht). cbn [mbind option_bind fst snd]. rewrite aw_extent0. cbn [mbind option_bind].
  destruct (rw_rank _ _ _ Hrw) as [Hrk Hrk']. destruct Hstr as [Hsl Hst].
  pose proof (Hst (S (Z.to_nat d)) ltac:(lia)) as Hd1. replace (Z.of_nat (S (Z.to_nat d))) with (d + 1) in Hd1 by lia.
  rewrite Hd1. cbn [mbind option_bind]. rewrite (lo_relative iv q) by done. cbn [mbind option_bind].
  rewrite Hs. cbn [mbind option_bind]. rewrite (grid_extent iv q inner) by done. rewrite (u32_id inner) by clia.
  set (sd := SampleDim _ _ _ _ _ _ _ _).
  assert (exists l, aset (sp_dims s) d sd = Some l) as [l Hls] by (eexists; apply aset_range; lia).
  rewrite Hls. cbn [mbind option_bind].
  assert (exists ss, aset (sample_plans out) (sample rg) (set_dims s l) = Some ss) as [ss Hss]
    by (eexists; apply aset_range; by eapply aget_Some_range). rewrite Hss. cbn [mbind option_bind].
  assert (extent_prod (S (inner_dims m d)) (inner_chunk_shape m) d =
    extent_prod (inner_dims m d) (inner_chunk_shape m) (d + 1) * inner) as Hnext.
  { cbn [extent_prod]. rewrite aw_inner0. cbn. lia. }
  assert (0 < extent_prod (Z.to_nat (m_rank m) - Z.to_nat d) (inner_chunk_shape m) (0 + Z.of_nat (Z.to_nat d))
    <= extent_prod (Z.to_nat (m_rank m)) (inner_chunk_shape m) 0) as Hb.
  { apply extent_prod_suffix; [lia|]. intros j y Hj Hy.
    destruct (rw_axes _ _ _ Hrw j ltac:(lia)) as (? & ? & y' & ? & []). assert (y = y') as -> by congruence. lia. }
  replace (Z.to_nat (m_rank m) - Z.to_nat d)%nat with (S (inner_dims m d)) in Hb by (unfold inner_dims; lia).
  replace (0 + Z.of_nat (Z.to_nat d)) with d in Hb by lia. pose proof (rw_chunk _ _ _ Hrw).
  rewrite <-Hnext, i64_id by lia. cbn [mbind option_bind]. eexists _, _, _. split; [done|].
  assert (only_samples out (set_samples (set_indices out o n) ss (n_sample_plans out))) as Hos.
  { split; unfold tbl; simpl; try done; [by exists ss, o, n| |lia]. by rewrite (length_aset _ _ _ _ Hss). }
  split; [done|]. split.
  { split; unfold tbl; simpl; [lia|]. rewrite Hl. intros Hne. apply (ix_len _ Hix). tauto. }
  intros _. split; [done|]. exists sd. split; [by exists s, l|].
  exists iv, q, inner, extent, (n_indices out). split; [done|]. split.
  - subst sd. unfold inner_dims. rewrite Hrk. done.
  - unfold tbl. simpl. split_and!; [lia|lia|done].
Qed.

Lemma sample_dims_loop_spec rg m d out s :
  region_wf plan rg m -> idx_ok out -> (Z.of_nat d <= m_rank m) ->
  aget (sample_plans out) (sample rg) = Some s -> zlen (sp_dims s) = DAMACY_MAX_RANK ->
  (forall k, Z.of_nat d <= k < m_rank m -> exists sd, aget (sp_dims s) k = Some sd /\ dim_ok plan rg m out k sd) ->
  exists st out', sample_dims_loop d plan rg m strides out
      (extent_prod (Z.to_nat (m_rank m) - d) (inner_chunk_shape m) (Z.of_nat d)) = Some (st, out') /\
    only_samples out out' /\ idx_ok out' /\
    (st = DAMACY_OK -> exists s', aget (sample_plans out') (sample rg) = Some s' /\
       s' = set_dims s (sp_dims s') /\
       (forall k, 0 <= k < m_rank m -> exists sd, aget (sp_dims s') k = Some sd /\ dim_ok plan rg m out' k sd) /\
       forall j, j <> sample rg -> aget (sample_plans out') j = aget (sample_plans out) j).
Proof.
  intros Hrw. revert out s. induction d as [|d IH]; intros out s Hix Hd Hs Hlen Hdims; cbn [sample_dims_loop].
  { eexists _, _. split; [done|]. split; [apply only_samples_refl|]. split; [done|]. intros _.
    exists s. split; [done|]. split; [by destruct s|]. done. }
  destruct (sample_dim_step_spec rg m (Z.of_nat d) out s Hrw Hix ltac:(lia) Hs Hlen)
    as (st & out1 & next & Hstep & Hos & Hix1 & Hok).
  replace (inner_dims m (Z.of_nat d)) with (Z.to_nat (m_rank m) - S d)%nat in Hstep, Hok by (unfold inner_dims; lia).
  replace (Z.of_nat (S d)) with (Z.of_nat d + 1) by lia. rewrite Hstep. cbn [mbind option_bind].
  destruct (decide (st = DAMACY_OK)) as [->|]; [|by exists st, out1].
  destruct (Hok eq_refl) as (-> & sd & (s0 & l & Hs0 & Hl & Hss) & Hsd). clear Hok.
  assert (s0 = s) as -> by congruence.
  replace (S (Z.to_nat (m_rank m) - S d)) with (Z.to_nat (m_rank m) - d)%nat by lia.
  destruct (IH out1 (set_dims s l)) as (st & out' & -> & Hos' & Hix' & Hfin); [done|lia|by eapply aget_aset_eq| | |].
  - simpl. by rewrite (length_aset _ _ _ _ Hl).
  - intros k Hk. simpl. rewrite (aget_aset _ _ _ _ _ Hl). case_decide; [subst k; by eauto|].
    destruct (Hdims k ltac:(lia)) as (sdk & ? & ?). exists sdk. split; [done|]. by eapply dim_ok_mono.
  - eexists _, _. split; [done|]. split; [by eapply only_samples_trans|]. split; [done|]. intros E.
    destruct (Hfin E) as (s' & ? & ? & ? & Hother). exists s'. split_and!; try done.
    intros j Hj. rewrite (Hother j Hj). apply (aget_aset_ne _ _ _ _ _ Hss). congruence.
Qed.

(** The sample plan of a region. *)
Record sample_ok (slot : Z) (rg : plan_region) (m : zarr_metadata) (out : dispatch_output) (s : sample_plan) : Prop := {
  sm_ids : sp_batch_pool_slot s = slot /\ sp_sample_idx_in_batch s = sample rg /\ sp_rank s = m_rank m;
  sm_source : src_dtype s = dtype_value (m_dtype m) /\ fill_value s = m_fill_value m;
  sm_indexed : indexed s = is_gather (operation rg);
  sm_dst : sample_dst_off_elems s = sample rg * extent_prod rank (sample_shape (p_output plan)) 0;
  sm_dims : forall d, 0 <= d < m_rank m -> exists sd, aget (sp_dims s) d = Some sd /\ dim_ok plan rg m out d sd }.

Lemma sample_ok_mono slot rg m out out' s :
  only_samples out out' -> sample_ok slot rg m out s -> sample_ok slot rg m out' s.
Proof.
  intros Hos []. split; try done. intros d Hd. destruct (sm_dims0 d Hd) as (sd & ? & ?). exists sd.
  split; [done|]. by eapply dim_ok_mono.
Qed.

Lemma region_step_spec slot rg m out :
  region_wf plan rg m -> idx_ok out -> sample rg < zlen (sample_plans out) ->
  0 <= sample rg * extent_prod rank (sample_shape (p_output plan)) 0 < 2 ^ 63 ->
  exists st out', region_step plan slot strides rg out = Some (st, out') /\ only_samples out out' /\ idx_ok out' /\
    (st = DAMACY_OK -> (exists s, aget (sample_plans out') (sample rg) = Some s /\ sample_ok slot rg m out' s) /\
       forall j, j <> sample rg -> aget (sample_plans out') j = aget (sample_plans out) j).
Proof.
  intros Hrw Hix Hs Hdst. unfold region_step. destruct (rw_array _ _ _ Hrw) as (u & ->). cbn [mbind option_bind metadata].
  pose proof (rw_sample _ _ _ Hrw) as Hs0. destruct (rw_rank _ _ _ Hrw) as [Hrk Hrk'].
  destruct Hstr as [_ Hst]. pose proof (Hst O ltac:(lia)) as H0. change (Z.of_nat 0) with 0 in H0.
  rewrite H0, Nat.sub_0_r. cbn [mbind option_bind]. rewrite i64_id by lia. cbn [mbind option_bind].
  set (s := SamplePlan _ _ _ _ _ _ _ _ _ _).
  assert (exists ss, aset (sample_plans out) (sample rg) s = Some ss) as [ss Hss] by (eexists; apply aset_range; lia).
  rewrite Hss. cbn [mbind option_bind]. set (out1 := set_samples out ss (n_sample_plans out)).
  assert (only_samples out out1) as Hos1.
  { subst out1. split; try done; unfold tbl; simpl; [|by rewrite (length_aset _ _ _ _ Hss)].
    exists ss, (out_indices out), (n_indices out). by destruct out. }
  destruct (sample_dims_loop_spec rg m (Z.to_nat (m_rank m)) out1 s Hrw) as (st & out' & Hloop & Hos & Hix' & Hfin).
  - destruct Hix. by split.
  - lia.
  - by eapply aget_aset_eq.
  - done.
  - intros k Hk. lia.
  - rewrite Nat.sub_diag in Hloop. cbn [extent_prod] in Hloop. rewrite Hloop. eexists _, _. split; [done|].
    split; [by eapply only_samples_trans|]. split; [done|]. intros E.
    destruct (Hfin E) as (s' & Hs' & Hset & Hdims & Hother). split.
    + exists s'. split; [done|]. rewrite Hset. split; simpl; try done. split_and!; try done.
      unfold u16. by rewrite Z.mod_small by lia.
    + intros j Hj. rewrite (Hother j Hj). apply (aget_aset_ne _ _ _ _ _ Hss). congruence.
Qed.

Lemma regions_loop_spec slot rgs done_ out :
  regions plan = done_ ++ rgs -> idx_ok out -> zlen (regions plan) <= zlen (sample_plans out) ->
  (forall j rg, aget (regions plan) j = Some rg -> sample rg = j /\ exists m, region_wf plan rg m) ->
  0 <= zlen (regions plan) * extent_prod rank (sample_shape (p_output plan)) 0 < 2 ^ 63 ->
  0 < extent_prod rank (sample_shape (p_output plan)) 0 ->
  (forall rg, rg ∈ done_ -> exists m s, region_wf plan rg m /\
     aget (sample_plans out) (sample rg) = Some s /\ sample_ok slot rg m out s) ->
  exists st out', regions_loop plan slot strides rgs out = Some (st, out') /\ only_samples out out' /\ idx_ok out' /\
    (st = DAMACY_OK -> forall rg, rg ∈ regions plan -> exists m s, region_wf plan rg m /\
       aget (sample_plans out') (sample rg) = Some s /\ sample_ok slot rg m out' s).
Proof.
  intros Hrgs. revert done_ out Hrgs. induction rgs as [|rg rgs IH]; intros done_ out Hrgs Hix Hlen Hwf Hvol Hpos Hdone;
    cbn [regions_loop].
  { eexists _, _. split; [done|]. split; [apply only_samples_refl|]. split; [done|]. intros _ rg Hrg.
    rewrite Hrgs, app_nil_r in Hrg. by apply Hdone. }
  assert (aget (regions plan) (zlen done_) = Some rg) as Hrg by (rewrite Hrgs; apply aget_middle).
  destruct (Hwf _ _ Hrg) as (Hsm & m & Hrw). pose proof (aget_Some_range _ _ _ Hrg) as Hrange.
  destruct (region_step_spec slot rg m out Hrw Hix) as (st & out1 & -> & Hos & Hix1 & Hok); [lia|nia|].
  cbn [mbind option_bind]. destruct (decide (st = DAMACY_OK)) as [->|]; [|by exists st, out1].
  destruct (Hok eq_refl) as [(s & Hs & Hsok) Hother]. clear Hok.
  destruct (IH (done_ ++ [rg]) out1) as (st & out' & -> & Hos' & Hix' & Hfin); try done.
  - by rewrite <-app_assoc.
  - destruct (os_len _ _ Hos) as [-> _]. done.
  - intros rg' [Hin|Hin]%elem_of_app.
    + destruct (Hdone _ Hin) as (m' & s' & ? & ? & ?). exists m', s'. split; [done|]. split.
      * rewrite Hother; [done|]. apply elem_of_aget in Hin as [j Hj]. pose proof (aget_Some_range _ _ _ Hj).
        assert (aget (regions plan) j = Some rg') as Hj'.
        { rewrite Hrgs. apply aget_lookup in Hj as [? Hj]. apply aget_lookup. split; [done|]. by apply lookup_app_l_Some. }
        destruct (Hwf _ _ Hj') as [-> _]. lia.
      * by eapply sample_ok_mono.
    + apply list_elem_of_singleton in Hin as ->. by exists m, s.
  - eexists _, _. split; [done|]. split; [by eapply only_samples_trans|]. done.
Qed.
End regions.
