(* ===== verification/DispatchUses.v ===== *)
(** * The uses of a dispatch

    The pass of [dispatch_plan_build] ([src/src/executor/dispatch.c]) that turns every
    use of a plan into a read and a chunk plan, against an interface that interns
    paths; the string table of [src/src/util/path_intern.c] implements it. *)

From stdpp Require Import strings.
From S2P Require Import Prelude Coalesce GroupChunks DispatchSamples Hash PathIntern PathInternProof Selection ReadOpSort DispatchTypes Plan Dispatch.

#[local] Open Scope Z_scope.

(** ** What the string table promises *)

(** [in_ok t k]: the table is sound and [k] more acquisitions are within its bounds. *)
Class InternerLaws (T : Type) `{Interner T} := {
  in_ok : T -> Z -> Prop;
  in_weaken t k : 0 <= k -> in_ok t (k + 1) -> in_ok t k;
  in_reset_ok t k : in_ok t k -> in_ok (in_reset t) k;
  in_acquire_ok t k s : 0 <= k -> in_ok t (k + 1) ->
    exists r t', in_acquire t s = Some (r, t') /\ in_ok t' k /\ forall p, r = Some p -> p = s }.

(** ** Well-formed uses *)

Record use_wf (plan : prepared_plan) (us : plan_use) (ck : plan_chunk) (rg : plan_region)
    (m : zarr_metadata) : Prop := {
  uw_chunk : aget (chunks plan) (chunk us) = Some ck;
  uw_region : aget (regions plan) (region us) = Some rg;
  uw_array : array ck = r_array rg;
  uw_wf : region_wf plan rg m;
  uw_coord : forall d iv q inner extent, 0 <= d < m_rank m -> axis_wf plan rg m d iv q inner extent ->
    exists x, axis_selects iv q x /\ aget (coordinate ck) d = Some (x / inner);
  uw_bytes : 0 <= offset ck /\ 0 <= encoded_bytes ck < 2 ^ 32 /\ offset ck + encoded_bytes ck < 2 ^ 64;
  uw_decoded : is_u32 (decoded_bytes ck);
  uw_path : missing ck = false -> is_Some (path ck) /\ 0 < encoded_bytes ck }.

(** ** Positions in the sample *)

(** The gather entry [gd] of a chunk at cell [c] of an axis whose indices start at
    [off] in the index table. *)
Definition gather_ok (iv : damacy_interval) (q : query_axis) (inner c off : Z) (gd : gather_dim) : Prop :=
  if decide (count q = 0) then
    (forall x, c * inner + gd_begin gd <= x < c * inner + gd_begin gd + gd_count gd <->
       beg iv <= x < end_ iv /\ x / inner = c) /\
    output_begin gd = c * inner + gd_begin gd - beg iv
  else
    output_begin gd = 0 /\
    forall k e, aget (indices q) k = Some e ->
      (gd_begin gd <= off + k < gd_begin gd + gd_count gd <-> source e / inner = c).

Lemma in_cell x c inner : 0 < inner -> c * inner <= x < c * inner + inner <-> x / inner = c.
Proof.
  intros Hi. split.
  - intros Hx. symmetry. apply (Z.div_unique_pos x inner c (x - c * inner)); lia.
  - intros <-. pose proof (Z.div_mod x inner ltac:(lia)). pose proof (Z.mod_pos_bound x inner ltac:(lia)). nia.
Qed.

(** The cell of a selected index: its origin does not wrap. *)
Lemma cell_origin iv q inner x :
  axis_ok iv q -> axis_selects iv q x -> 0 < inner < 2 ^ 32 -> beg iv <= x < end_ iv /\
  0 <= x / inner * inner <= x /\ x < x / inner * inner + inner /\ u64 (x / inner * inner) = x / inner * inner.
Proof.
  intros Hok Hx Hi. pose proof (ao_bounds _ _ Hok) as Hb.
  assert (beg iv <= x < end_ iv) as Hr.
  { unfold axis_selects in Hx. case_decide as E; [done|]. destruct (ao_entries _ _ Hok E) as (_ & _ & Hin).
    destruct Hx as (e & He & <-). by apply Hin. }
  split; [done|]. destruct (in_cell x (x / inner) inner ltac:(lia)) as [_ Hc]. specialize (Hc eq_refl).
  pose proof (Z.div_pos x inner ltac:(lia) ltac:(lia)). split; [nia|]. split; [lia|]. apply u64_id. clia.
Qed.

(** The entry the code writes is right. *)
Lemma gather_entry iv q inner x off span :
  axis_ok iv q -> 0 <= count q < 2 ^ 32 -> 0 < inner < 2 ^ 32 -> axis_selects iv q x ->
  0 <= off -> off + count q < 2 ^ 32 ->
  query_chunk_span q iv (x / inner * inner) inner = Some span ->
  gather_ok iv q inner (x / inner) off
    (GatherDim (if count q =? 0 then u32 (sp_begin span - x / inner * inner) else u32 (off + u32 (sp_begin span)))
       (u32 (sp_count span)) (if count q =? 0 then u64 (sp_begin span - u64 (beg iv)) else 0)).
Proof.
  intros Hok Hc Hi Hx Ho Hoc Hspan. destruct (cell_origin iv q inner x Hok Hx Hi) as (Hr & Ho1 & Ho2 & Hu).
  pose proof (ao_bounds _ _ Hok) as Hb. assert (is_u64 (x / inner * inner)) by clia. assert (is_u64 inner) by clia.
  unfold gather_ok. destruct (Z.eqb_spec (count q) 0) as [E|E].
  - rewrite decide_True by done. destruct (query_chunk_span_interval q iv (x / inner * inner) inner) as (sp & Hsp & Hin); try done.
    rewrite Hspan in Hsp. injection Hsp as <-. setoid_rewrite (axis_selects_interval iv q _ E) in Hin.
    destruct (proj2 (Hin x) ltac:(lia)) as [Hs1 Hs2].
    destruct (proj1 (Hin (sp_begin span)) ltac:(lia)) as [Hs3 Hs4].
    destruct (proj1 (Hin (sp_begin span + sp_count span - 1)) ltac:(lia)) as [Hs5 Hs6].
    simpl. rewrite (u64_id (beg iv)) by clia. rewrite !u32_id by clia. rewrite u64_id by clia. split; [|lia].
    intros y. replace (x / inner * inner + (sp_begin span - x / inner * inner)) with (sp_begin span) by lia.
    rewrite Hin, in_cell by lia. done.
  - rewrite decide_False by done. split; [done|]. intros k e Hk.
    destruct (query_chunk_span_indices q iv (x / inner * inner) inner) as (sp & Hsp & Hs1 & Hs2 & Hs3 & Hin); try done.
    rewrite Hspan in Hsp. injection Hsp as <-. simpl. rewrite (u32_id (sp_begin span)) by clia. rewrite !u32_id by clia.
    rewrite <-(in_cell (source e) (x / inner) inner) by lia. rewrite <-(Hin k e Hk). lia.
Qed.

Lemma span_total iv q inner x :
  axis_ok iv q -> axis_selects iv q x -> 0 < inner < 2 ^ 32 ->
  exists span, query_chunk_span q iv (x / inner * inner) inner = Some span.
Proof.
  intros Hok Hx Hi. destruct (cell_origin iv q inner x Hok Hx Hi) as (Hr & Ho1 & Ho2 & Hu).
  pose proof (ao_bounds _ _ Hok) as Hb. assert (is_u64 (x / inner * inner)) by clia. assert (is_u64 inner) by clia.
  destruct (decide (count q = 0)) as [E|E].
  - destruct (query_chunk_span_interval q iv (x / inner * inner) inner) as (sp & -> & _); eauto.
  - destruct (query_chunk_span_indices q iv (x / inner * inner) inner) as (sp & -> & _); eauto.
Qed.

Section uses.
Context (plan : prepared_plan).

(** Dimension [d] of a chunk of an indexed sample: its gather entry. *)
Definition gathered (rg : plan_region) (m : zarr_metadata) (ck : plan_chunk) (s : sample_plan)
    (gds : list gather_dim) (go d : Z) : Prop :=
  exists iv q inner extent sd c gd, axis_wf plan rg m d iv q inner extent /\ aget (sp_dims s) d = Some sd /\
    aget (coordinate ck) d = Some c /\ aget gds (go + d) = Some gd /\ gather_ok iv q inner c (index_offset sd) gd.

(** Dimension [d] of a chunk of a plain sample: its place in the sample's grid. *)
Definition gridded (rg : plan_region) (m : zarr_metadata) (ck : plan_chunk) (l : list Z) (d : Z) : Prop :=
  exists iv q inner extent c, axis_wf plan rg m d iv q inner extent /\ aget (coordinate ck) d = Some c /\
    aget l d = Some (c - beg iv / inner).

Lemma use_dims_indexed us ck rg m s out n d cp gds :
  use_wf plan us ck rg m -> indexed s = true ->
  (forall d, 0 <= d < m_rank m -> exists sd, aget (sp_dims s) d = Some sd /\ dim_ok plan rg m out d sd) ->
  n_indices out < 2 ^ 32 -> 0 <= d -> d + Z.of_nat n = m_rank m ->
  0 <= gather_offset cp -> gather_offset cp + m_rank m <= zlen gds -> gather_offset cp + m_rank m < 2 ^ 32 ->
  (forall k, 0 <= k < d -> gathered rg m ck s gds (gather_offset cp) k) ->
  exists gds', use_dims_loop n ck rg m s d cp gds = Some (cp, gds') /\ length gds' = length gds /\
    (forall k, k < gather_offset cp -> aget gds' k = aget gds k) /\
    forall k, 0 <= k < m_rank m -> gathered rg m ck s gds' (gather_offset cp) k.
Proof.
  intros Hu Hi Hdims H32. revert d gds. induction n as [|n IH]; intros d gds Hd Hn Hgo Hlen Hmax Hold; cbn [use_dims_loop].
  { exists gds. split_and!; try done. intros k Hk. apply Hold. lia. }
  destruct (rw_axes _ _ _ (uw_wf _ _ _ _ _ Hu) d ltac:(lia)) as (iv & q & inner & extent & Hw). pose proof Hw as [].
  destruct (uw_coord _ _ _ _ _ Hu d iv q inner extent ltac:(lia) Hw) as (x & Hx & Hc).
  rewrite aw_source. cbn [mbind option_bind]. rewrite aw_inner. cbn [mbind option_bind]. rewrite Hc. cbn [mbind option_bind].
  rewrite Hi. cbn [negb]. rewrite aw_axis. cbn [mbind option_bind].
  destruct (cell_origin iv q inner x aw_ok Hx aw_size) as (_ & _ & _ & ->).
  destruct (span_total iv q inner x aw_ok Hx aw_size) as (span & Hspan). rewrite Hspan. cbn [mbind option_bind].
  destruct (Hdims d ltac:(lia)) as (sd & Hsd & (iv' & q' & inner' & extent' & off & Hw' & -> & Ho1 & Ho2 & _)).
  assert (q' = q) as -> by (destruct Hw'; congruence). rewrite Hsd. cbn [mbind option_bind index_offset].
  rewrite (u32_id (gather_offset cp + d)) by clia. set (gd := GatherDim _ _ _).
  assert (exists g1, aset gds (gather_offset cp + d) gd = Some g1) as [g1 Hg1] by (eexists; apply aset_range; lia).
  rewrite Hg1. cbn [mbind option_bind]. pose proof (length_aset _ _ _ _ Hg1) as Hl1.
  destruct (IH (d + 1) g1) as (gds' & -> & Hl' & Hkeep & Hall); [lia|lia|done|lia|done| |].
  - intros k Hk. destruct (decide (k = d)) as [->|].
    + eexists iv, q, inner, extent, _, (x / inner), gd. split; [done|]. split; [exact Hsd|]. split; [done|].
      split; [by eapply aget_aset_eq|]. simpl. by apply gather_entry; try done; lia.
    + destruct (Hold k ltac:(lia)) as (iv1 & q1 & inner1 & extent1 & sd1 & c1 & gd1 & ? & ? & ? & ? & ?).
      exists iv1, q1, inner1, extent1, sd1, c1, gd1. split_and!; try done.
      rewrite (aget_aset_ne _ _ _ _ _ Hg1); [done|lia].
  - exists gds'. split_and!; [done|congruence| |done]. intros k Hk. rewrite Hkeep by done.
    apply (aget_aset_ne _ _ _ _ _ Hg1). lia.
Qed.

Lemma use_dims_plain us ck rg m s n d cp gds :
  use_wf plan us ck rg m -> indexed s = false -> operation rg = PLAN_COPY -> 0 <= d -> d + Z.of_nat n = m_rank m ->
  zlen (chunk_d cp) = DAMACY_MAX_RANK -> (forall k, 0 <= k < d -> gridded rg m ck (chunk_d cp) k) ->
  exists l, use_dims_loop n ck rg m s d cp gds = Some (set_chunk_d cp l, gds) /\
    forall k, 0 <= k < m_rank m -> gridded rg m ck l k.
Proof.
  intros Hu Hi Hop. revert d cp. induction n as [|n IH]; intros d cp Hd Hn Hlen Hold; cbn [use_dims_loop].
  { exists (chunk_d cp). split; [by destruct cp|]. intros k Hk. apply Hold. lia. }
  pose proof (uw_wf _ _ _ _ _ Hu) as Hrw. destruct (rw_rank _ _ _ Hrw) as [_ Hrk].
  destruct (rw_axes _ _ _ Hrw d ltac:(lia)) as (iv & q & inner & extent & Hw). pose proof Hw as [].
  destruct (uw_coord _ _ _ _ _ Hu d iv q inner extent ltac:(lia) Hw) as (x & Hx & Hc).
  rewrite aw_source. cbn [mbind option_bind]. rewrite aw_inner. cbn [mbind option_bind]. rewrite Hc. cbn [mbind option_bind].
  rewrite Hi. cbn [negb]. rewrite (proj2 (Z.eqb_neq inner 0)) by lia.
  assert (count q = 0) as Eq.
  { destruct (decide (count q = 0)) as [|Hne]; [done|]. assert (operation rg = PLAN_GATHER); [|congruence].
    apply (rw_op _ _ _ Hrw). exists d, q. split; [lia|done]. }
  destruct (cell_origin iv q inner x aw_ok Hx aw_size) as (Hr & _). pose proof (ao_bounds _ _ aw_ok) as Hb.
  specialize (aw_grid Eq). rewrite (u64_id (beg iv)) by clia.
  assert (beg iv / inner <= x / inner <= (end_ iv - 1) / inner) by (split; apply Z.div_le_mono; lia).
  rewrite u32_id by clia.
  assert (exists l, aset (chunk_d cp) d (x / inner - beg iv / inner) = Some l) as [l Hl] by (eexists; apply aset_range; lia).
  rewrite Hl. cbn [mbind option_bind].
  destruct (IH (d + 1) (set_chunk_d cp l)) as (l' & -> & Hall); [lia|lia| | |].
  - simpl. by rewrite (length_aset _ _ _ _ Hl).
  - intros k Hk. simpl. destruct (decide (k = d)) as [->|].
    + exists iv, q, inner, extent, (x / inner). split_and!; try done. by eapply aget_aset_eq.
    + destruct (Hold k ltac:(lia)) as (iv1 & q1 & inner1 & extent1 & c1 & ? & ? & ?).
      exists iv1, q1, inner1, extent1, c1. split_and!; try done. rewrite (aget_aset_ne _ _ _ _ _ Hl); [done|lia].
  - by exists l'.
Qed.

(** ** Read windows *)

(** An aligned window around the bytes of the chunk. *)
Record window (alignment : Z) (ck : plan_chunk) (r : read_op) (off : Z) : Prop := {
  wi_path : shard_path r = path ck /\ is_Some (path ck);
  wi_align : (alignment | file_offset r) /\ (alignment | file_offset r + nbytes r);
  wi_off : off = offset ck - file_offset r /\ 0 <= off /\ off + encoded_bytes ck <= nbytes r;
  wi_fits : 0 <= file_offset r /\ 0 < nbytes r < 2 ^ 32 /\ file_offset r + nbytes r < 2 ^ 64 }.

Lemma align_down x a : 0 < a -> 0 <= x -> x / a * a <= x < x / a * a + a.
Proof. intros. pose proof (Z.div_mod x a ltac:(lia)). pose proof (Z.mod_pos_bound x a ltac:(lia)). lia. Qed.

(** The window arithmetic of the code; no step of it wraps. *)
Lemma window_bounds a o n :
  0 < a < 2 ^ 64 -> 0 <= o -> 0 < n -> o + n < 2 ^ 64 -> o + n <= UINT64_MAX - a + 1 ->
  let start := o / a * a in let stop := (o + n + a - 1) / a * a in
  u64 start = start /\ u64 (o + n) = o + n /\ u64 (o + n + a - 1) = o + n + a - 1 /\ u64 stop = stop /\
  u64 (stop - start) = stop - start /\ 0 <= start <= o /\ o + n <= stop < 2 ^ 64 /\ 0 < stop - start.
Proof.
  intros Ha Ho Hn Hon Hmax start stop. pose proof (align_down o a ltac:(lia) Ho).
  pose proof (align_down (o + n + a - 1) a ltac:(lia) ltac:(lia)). pose proof (Z.div_pos o a Ho ltac:(lia)).
  assert (0 <= start <= o) by (subst start; nia). assert (o + n <= stop < 2 ^ 64) by (subst stop; clia).
  split; [apply u64_id; clia|]. split; [apply u64_id; clia|]. split; [apply u64_id; clia|].
  split; [apply u64_id; clia|]. split; [apply u64_id; clia|]. lia.
Qed.

(** ** The use loop *)

(** The chunk plan and the read of use [i]; [ng] gather entries are in use. *)
Record use_placed (slot alignment : Z) (gds : list gather_dim) (ng i : Z) (ck : plan_chunk) (rg : plan_region)
    (m : zarr_metadata) (s : sample_plan) (cp : chunk_plan) (r : read_op) : Prop := {
  up_ids : read_op_idx cp = i /\ batch_pool_slot cp = slot /\ sample_idx_in_batch cp = sample rg;
  up_sizes : compressed_nbytes cp = encoded_bytes ck /\ decompressed_nbytes cp = decoded_bytes ck;
  up_codec : is_fill cp = missing ck /\
    codec_id cp = codec_value (if missing ck then CODEC_FILL else inner_codec m);
  up_place :
    if is_gather (operation rg) then
      0 <= gather_offset cp /\ gather_offset cp + m_rank m <= ng /\
      forall d, 0 <= d < m_rank m -> gathered rg m ck s gds (gather_offset cp) d
    else forall d, 0 <= d < m_rank m -> gridded rg m ck (chunk_d cp) d;
  up_read : if missing ck then r = read_op_zero /\ offset_in_read cp = 0
            else window alignment ck r (offset_in_read cp) }.

Lemma use_placed_mono slot alignment gds gds' ng ng' i ck rg m s cp r :
  (forall k, k < ng -> aget gds' k = aget gds k) -> ng <= ng' ->
  use_placed slot alignment gds ng i ck rg m s cp r -> use_placed slot alignment gds' ng' i ck rg m s cp r.
Proof.
  intros Hk Hle []. split; try done. destruct (is_gather (operation rg)); [|done].
  destruct up_place0 as (H1 & H2 & H3). split; [done|]. split; [lia|]. intros d Hd.
  destruct (H3 d Hd) as (iv & q & inner & extent & sd & c & gd & ? & ? & ? & ? & ?).
  exists iv, q, inner, extent, sd, c, gd. split_and!; try done. by rewrite Hk by lia.
Qed.

Context {T : Type} `{InternerLaws T} (slot alignment : Z) (path_at : Z -> Z) (out0 : dispatch_output).
Hypothesis Halign : 0 < alignment < 2 ^ 64.
Hypothesis Hpath : forall x y cx cy, aget (chunks plan) x = Some cx -> aget (chunks plan) y = Some cy ->
  path_at x = path_at y -> path cx = path cy.
Hypothesis Hnull : forall x cx, aget (chunks plan) x = Some cx -> path_at x = 0 <-> path cx = None.
Hypothesis Hslot32 : n_indices out0 < 2 ^ 32.
Hypothesis Hsamples : forall rg, rg ∈ regions plan -> exists m s, region_wf plan rg m /\
  aget (sample_plans out0) (sample rg) = Some s /\ sample_ok plan slot rg m out0 s.

Definition with_uses (reads : list read_op) (cps : list chunk_plan) (gds : list gather_dim) (ng : Z) : dispatch_output :=
  set_gather (set_chunks (set_reads out0 (Some reads) (n_read_ops out0)) (Some cps) (n_chunk_plans out0)) gds ng.

(** The state after the uses [done_], with [k] acquisitions left. *)
Record dispatching (k : Z) (done_ : list plan_use) (u : @use_state T) (reads : list read_op) (cps : list chunk_plan)
    (gds : list gather_dim) (ng : Z) : Prop := {
  dg_out : u_out u = with_uses reads cps gds ng;
  dg_len : zlen (uses plan) <= zlen reads /\ zlen (uses plan) <= zlen cps;
  dg_gather : 0 <= ng <= gather_dims_cap out0 /\ gather_dims_cap out0 < 2 ^ 32 /\ gather_dims_cap out0 <= zlen gds;
  dg_paths : in_ok (u_paths u) k;
  dg_cache : (u_source u = 0 /\ u_path u = None) \/
    exists x cx, aget (chunks plan) x = Some cx /\ u_source u = path_at x /\ u_path u = path cx /\ path cx <> None;
  dg_done : forall i us, aget done_ i = Some us -> exists ck rg m s cp r, use_wf plan us ck rg m /\
    aget (sample_plans out0) (sample rg) = Some s /\ sample_ok plan slot rg m out0 s /\
    aget cps i = Some cp /\ aget reads i = Some r /\ use_placed slot alignment gds ng i ck rg m s cp r }.

Lemma put_spec (u : @use_state T) i r cp reads cps gds ng :
  u_out u = with_uses reads cps gds ng -> 0 <= i < zlen reads -> i < zlen cps ->
  exists reads' cps', aset reads i r = Some reads' /\ aset cps i cp = Some cps' /\
    put u i r cp = Some (UseState (with_uses reads' cps' gds ng) (u_paths u) (u_source u) (u_path u)).
Proof.
  intros Hu Hr Hc. unfold put. rewrite Hu. simpl.
  assert (exists l, aset reads i r = Some l) as [reads' Hr'] by (eexists; apply aset_range; lia).
  assert (exists l, aset cps i cp = Some l) as [cps' Hc'] by (eexists; apply aset_range; lia).
  rewrite Hr'. simpl. rewrite Hc'. simpl. by exists reads', cps'.
Qed.

(** Looking a path up, or remembering the last one, gives the path itself. *)
Lemma intern_path_spec k x ck (u : @use_state T) :
  aget (chunks plan) x = Some ck -> is_Some (path ck) -> 0 <= k -> in_ok (u_paths u) (k + 1) ->
  ((u_source u = 0 /\ u_path u = None) \/
    exists x cx, aget (chunks plan) x = Some cx /\ u_source u = path_at x /\ u_path u = path cx /\ path cx <> None) ->
  exists u', intern_path (path_at x) (path ck) u = Some u' /\ u_out u' = u_out u /\ in_ok (u_paths u') k /\
    (u_path u' = None \/ u_source u' = path_at x /\ u_path u' = path ck).
Proof.
  intros Hx [p Hp] Hk Hok Hcache. unfold intern_path. destruct (Z.eqb_spec (path_at x) (u_source u)) as [E|E].
  - exists u. split; [done|]. split; [done|]. split; [by apply in_weaken|]. right. split; [done|].
    destruct Hcache as [[Hs _]|(y & cy & Hy & Hs & Hpy & _)].
    + exfalso. assert (path ck = None) by (apply (Hnull _ _ Hx); congruence). congruence.
    + rewrite Hpy. apply (Hpath _ _ _ _ Hy Hx). congruence.
  - rewrite Hp. destruct (in_acquire_ok (u_paths u) k p Hk Hok) as (r & t' & -> & Ht & Hr). simpl.
    eexists. split; [done|]. split; [done|]. split; [done|]. simpl. destruct r as [p'|]; [right|by left].
    split; [done|]. by rewrite (Hr p' eq_refl).
Qed.

Definition cache_ok (u : @use_state T) : Prop :=
  (u_source u = 0 /\ u_path u = None) \/
  exists x cx, aget (chunks plan) x = Some cx /\ u_source u = path_at x /\ u_path u = path cx /\ path cx <> None.

(** One iteration wrote [r] and [cp] at [i]. *)
Definition wrote (reads : list read_op) (cps : list chunk_plan) (gds : list gather_dim) (ng k i : Z)
    (r : read_op) (cp : chunk_plan) (u : @use_state T) : Prop :=
  exists reads' cps', aset reads i r = Some reads' /\ aset cps i cp = Some cps' /\
    u_out u = with_uses reads' cps' gds ng /\ in_ok (u_paths u) k /\ cache_ok u.

Lemma read_step_spec k x ck i cp (u : @use_state T) reads cps gds ng :
  aget (chunks plan) x = Some ck -> is_Some (path ck) -> 0 < encoded_bytes ck < 2 ^ 32 -> 0 <= offset ck ->
  offset ck + encoded_bytes ck < 2 ^ 64 -> 0 <= k -> in_ok (u_paths u) (k + 1) -> cache_ok u ->
  u_out u = with_uses reads cps gds ng -> 0 <= i < zlen reads -> i < zlen cps ->
  exists st u', read_step alignment ck (path_at x) i cp u = Some (st, u') /\
    (st = DAMACY_OK -> exists r off, wrote reads cps gds ng k i r (set_read cp (read_op_idx cp) off) u' /\
       window alignment ck r off).
Proof.
  intros Hx Hp Hn Ho Hon Hk Hok Hcache Hu Hi Hc. unfold read_step.
  assert (forall st (u : @use_state T) r cp, u_out u = with_uses reads cps gds ng -> st <> DAMACY_OK ->
    exists st' u', ret st (put u i r cp) = Some (st', u') /\ (st' = DAMACY_OK -> False)) as Hfail.
  { intros st u1 r cp1 Hu1 Hst. destruct (put_spec u1 i r cp1 reads cps gds ng Hu1 Hi Hc) as (? & ? & _ & _ & ->).
    simpl. eexists _, _. split; [done|]. done. }
  rewrite (u64_id (offset ck + encoded_bytes ck)) by clia. rewrite (u64_id (UINT64_MAX - alignment + 1)) by clia.
  destruct (Z.ltb_spec (UINT64_MAX - alignment + 1) (offset ck + encoded_bytes ck)) as [|Hmax].
  { destruct (Hfail DAMACY_DECODE u read_op_zero cp Hu ltac:(done)) as (? & ? & -> & Hf). eexists _, _. split; [done|]. intros E. by destruct Hf. }
  destruct (window_bounds alignment (offset ck) (encoded_bytes ck) Halign Ho ltac:(lia) Hon Hmax)
    as (-> & _ & -> & -> & -> & Hb1 & Hb2 & Hb3).
  set (start := offset ck / alignment * alignment) in *.
  set (stop := (offset ck + encoded_bytes ck + alignment - 1) / alignment * alignment) in *.
  destruct (Z.ltb_spec UINT32_MAX (stop - start)) as [|H32].
  { destruct (Hfail DAMACY_DECODE u read_op_zero cp Hu ltac:(done)) as (? & ? & -> & Hf). eexists _, _. split; [done|]. intros E. by destruct Hf. }
  destruct (intern_path_spec k x ck u Hx Hp Hk Hok Hcache) as (u1 & -> & Hu1 & Hok1 & Hcase). cbn [mbind option_bind].
  assert (u_out u1 = with_uses reads cps gds ng) as Hu1' by congruence.
  destruct (u_path u1) as [p|] eqn:Ep.
  2: { destruct (Hfail DAMACY_OOM u1 read_op_zero cp Hu1' ltac:(done)) as (? & ? & -> & Hf). eexists _, _. split; [done|]. intros E. by destruct Hf. }
  destruct Hcase as [|[Hsrc Hpc]]; [done|]. rewrite (u32_id (stop - start)) by clia.
  rewrite (u32_id (offset ck - start)) by (pose proof (align_down (offset ck) alignment ltac:(lia) Ho); clia).
  set (r := ReadOp _ _ _ _). set (cp' := set_read _ _ _).
  destruct (put_spec u1 i r cp' reads cps gds ng Hu1' Hi Hc) as (reads' & cps' & Hr' & Hc' & ->). simpl.
  eexists _, _. split; [done|]. intros _. exists r, (offset ck - start). split.
  - exists reads', cps'. split_and!; try done. right. exists x, ck. simpl. rewrite Ep, Hpc. split_and!; try done. congruence.
  - subst r. split; simpl; [by rewrite <-Hpc| | |clia].
    + split; [apply Z.divide_factor_r|]. replace (start + (stop - start)) with stop by lia. apply Z.divide_factor_r.
    + lia.
Qed.

(** The dimension pass of a use, in both cases. *)
Lemma use_dims_spec us ck rg m s cp gds ng :
  use_wf plan us ck rg m -> sample_ok plan slot rg m out0 s -> zlen (chunk_d cp) = DAMACY_MAX_RANK ->
  gather_offset cp = 0 -> 0 <= ng -> (indexed s = true -> ng + m_rank m <= zlen gds /\ ng + m_rank m < 2 ^ 32) ->
  exists l gds', use_dims_loop (Z.to_nat (m_rank m)) ck rg m s 0 (if indexed s then set_gather_offset cp ng else cp) gds
      = Some (set_chunk_d (if indexed s then set_gather_offset cp ng else cp) l, gds') /\
    length gds' = length gds /\ (forall k, k < ng -> aget gds' k = aget gds k) /\
    if is_gather (operation rg) then forall d, 0 <= d < m_rank m -> gathered rg m ck s gds' ng d
    else forall d, 0 <= d < m_rank m -> gridded rg m ck l d.
Proof.
  intros Hu Hs Hl Hgo Hng Hroom. pose proof (uw_wf _ _ _ _ _ Hu) as Hrw. destruct (rw_rank _ _ _ Hrw) as [_ Hrk].
  rewrite <-(sm_indexed _ _ _ _ _ _ Hs). destruct (indexed s) eqn:Ei.
  - destruct (Hroom eq_refl) as [Hr1 Hr2].
    destruct (use_dims_indexed us ck rg m s out0 (Z.to_nat (m_rank m)) 0 (set_gather_offset cp ng) gds Hu Ei
      (sm_dims _ _ _ _ _ _ Hs) Hslot32) as (gds' & -> & Hl' & Hk & Hall); simpl; [lia|lia|lia|lia|lia|intros; lia|].
    exists (chunk_d cp), gds'. by split_and!.
  - assert (operation rg = PLAN_COPY) as Hop.
    { pose proof (sm_indexed _ _ _ _ _ _ Hs) as Hi. rewrite Ei in Hi. by destruct (operation rg). }
    destruct (use_dims_plain us ck rg m s (Z.to_nat (m_rank m)) 0 cp gds Hu Ei Hop) as (l & -> & Hall);
      [lia|lia|done|intros; lia|]. by exists l, gds.
Qed.

Lemma use_step_spec k done_ us ck rg m (u : @use_state T) reads cps gds ng :
  use_wf plan us ck rg m -> 0 <= k -> zlen done_ < zlen (uses plan) ->
  dispatching (k + 1) done_ u reads cps gds ng ->
  exists st u', use_step plan slot alignment path_at (zlen done_) us u = Some (st, u') /\
    (st = DAMACY_OK -> exists reads' cps' gds' ng', dispatching k (done_ ++ [us]) u' reads' cps' gds' ng').
Proof.
  intros Hu Hk Hlt Hd. pose proof Hu as [Hck Hrg Harr Hrw _ (Hb1 & Hb2 & Hb3) Hdec Hp].
  destruct (Hsamples rg) as (m' & s & Hrw' & Hs & Hsok); [apply elem_of_aget; by eauto|].
  destruct (rw_array _ _ _ Hrw) as (un & Ha). destruct (rw_array _ _ _ Hrw') as (un' & Ha').
  assert (m' = m) as -> by congruence. clear Ha' Hrw' un'.
  destruct Hd. destruct dg_len0 as [Hl1 Hl2], dg_gather0 as (Hg1 & Hg2 & Hg3).
  unfold use_step. rewrite Hck. cbn [mbind option_bind]. rewrite Hrg. cbn [mbind option_bind]. rewrite Harr, Ha.
  cbn [mbind option_bind metadata]. rewrite dg_out0. cbn [sample_plans with_uses set_gather set_chunks set_reads].
  rewrite Hs. cbn [mbind option_bind]. set (cp := ChunkPlan _ _ _ _ _ _ _ _ _ _ _ _).
  cbn [gather_dims_cap n_gather_dims with_uses set_gather set_chunks set_reads gather_dims].
  rewrite (u32_id (gather_dims_cap out0 - ng)) by clia.
  destruct (indexed s && (gather_dims_cap out0 - ng <? m_rank m)) eqn:Efull.
  { destruct (put_spec u (zlen done_) read_op_zero cp reads cps gds ng dg_out0) as (? & ? & _ & _ & ->); [lia|lia|].
    simpl. eexists _, _. split; [done|]. done. }
  assert (indexed s = true -> ng + m_rank m <= gather_dims_cap out0) as Hroom.
  { intros Ei. rewrite Ei in Efull. simpl in Efull. apply Z.ltb_ge in Efull. lia. }
  destruct (use_dims_spec us ck rg m s cp gds ng Hu Hsok) as (l & gds' & -> & Hgl & Hkeep & Hplace);
    [done|done|lia|intros Ei; specialize (Hroom Ei); lia|].
  cbn [mbind option_bind]. set (cp1 := set_chunk_d _ l). destruct (rw_rank _ _ _ Hrw) as [_ Hrk].
  assert (exists ng', (if indexed s then u32 (ng + m_rank m) else ng) = ng' /\ ng <= ng' <= gather_dims_cap out0 /\
    (indexed s = true -> ng' = ng + m_rank m)) as (ng' & -> & Hng' & Hngi).
  { destruct (indexed s); [|eexists; split; [done|]; split; [lia|done]]. specialize (Hroom eq_refl).
    rewrite u32_id by clia. eexists. split; [done|]. split; [lia|done]. }
  set (u1 := UseState _ _ _ _).
  assert (u_out u1 = with_uses reads cps gds' ng') as Hu1 by done.
  assert (forall r off (u' : @use_state T), wrote reads cps gds' ng' k (zlen done_) r (set_read cp1 (read_op_idx cp1) off) u' ->
    (if missing ck then r = read_op_zero /\ off = 0 else window alignment ck r off) ->
    exists reads' cps' gds' ng', dispatching k (done_ ++ [us]) u' reads' cps' gds' ng') as Hfin.
  { intros r off u' (reads' & cps' & Hr' & Hc' & Ho' & Hok' & Hca) Hread. exists reads', cps', gds', ng'. split; try done.
    - by rewrite (length_aset _ _ _ _ Hr'), (length_aset _ _ _ _ Hc').
    - rewrite Hgl. lia.
    - intros j us' [Hj|[-> ->]]%aget_snoc.
      + destruct (dg_done0 j us' Hj) as (ck' & rg' & m' & s' & cp' & r' & ? & ? & ? & Hcj & Hrj & Hpl).
        exists ck', rg', m', s', cp', r'. apply aget_Some_range in Hj.
        rewrite (aget_aset_ne _ _ _ _ _ Hr'), (aget_aset_ne _ _ _ _ _ Hc') by lia. split_and!; try done.
        eapply use_placed_mono; [exact Hkeep|lia|done].
      + eexists ck, rg, m, s, _, r. split; [done|]. split; [done|]. split; [done|].
        split; [by eapply aget_aset_eq|]. split; [by eapply aget_aset_eq|].
        assert (forall (A : Type) (f : chunk_plan -> A), (forall c o, f (set_gather_offset c o) = f c) ->
          f (if indexed s then set_gather_offset cp ng else cp) = f cp) as Hif by (intros A f Hf; destruct (indexed s); [apply Hf|done]).
        pose proof (rw_sample _ _ _ Hrw).
        split; cbn [set_read set_chunk_d cp1 read_op_idx batch_pool_slot sample_idx_in_batch compressed_nbytes
          decompressed_nbytes is_fill codec_id gather_offset chunk_d offset_in_read]; rewrite ?Hif by done.
        * split_and!; try done. unfold cp. cbn. unfold u16. by rewrite Z.mod_small by lia.
        * done.
        * split; [done|]. unfold cp. cbn. destruct (missing ck); [done|]. by destruct (inner_codec m).
        * rewrite (sm_indexed _ _ _ _ _ _ Hsok) in Hngi |- *. destruct (is_gather (operation rg)); [|done].
          specialize (Hngi eq_refl). simpl. split; [lia|]. split; [lia|done].
        * done. }
  destruct (missing ck) eqn:Em.
  - destruct (put_spec u1 (zlen done_) read_op_zero cp1 reads cps gds' ng' Hu1) as (reads' & cps' & Hr' & Hc' & ->); [lia|lia|].
    simpl. eexists _, _. split; [done|]. intros _. apply (Hfin read_op_zero 0); [|done].
    exists reads', cps'. split; [done|]. split.
    { rewrite <-Hc'. f_equal. unfold cp1. by destruct (indexed s). }
    split; [done|]. split; [by apply in_weaken|done].
  - destruct (Hp eq_refl) as [Hps Hen].
    destruct (read_step_spec k (chunk us) ck (zlen done_) cp1 u1 reads cps gds' ng' Hck Hps) as (st & u' & -> & Hst);
      [lia|lia|lia|lia|done|done|done|lia|lia|].
    eexists _, _. split; [done|]. intros E. destruct (Hst E) as (r & off & Hw & Hwin). by eapply Hfin.
Qed.

Lemma uses_loop_spec k l done_ (u : @use_state T) reads cps gds ng :
  uses plan = done_ ++ l -> (forall us, us ∈ uses plan -> exists ck rg m, use_wf plan us ck rg m) -> 0 <= k ->
  dispatching (k + zlen l) done_ u reads cps gds ng ->
  exists st u', uses_loop plan slot alignment path_at (zlen done_) l u = Some (st, u') /\
    (st = DAMACY_OK -> exists reads' cps' gds' ng', dispatching k (uses plan) u' reads' cps' gds' ng').
Proof.
  intros Hl Hwf Hk. revert done_ u reads cps gds ng Hl.
  induction l as [|us l IH]; intros done_ u reads cps gds ng Hl Hd; cbn [uses_loop].
  { eexists _, _. split; [done|]. intros _. rewrite app_nil_r in Hl. rewrite Hl. simpl in Hd. rewrite Z.add_0_r in Hd.
    by exists reads, cps, gds, ng. }
  assert (us ∈ uses plan) as Hin by (rewrite Hl; set_solver). destruct (Hwf us Hin) as (ck & rg & m & Hu).
  assert (zlen (uses plan) = zlen done_ + zlen l + 1) as Hlen by (rewrite Hl, length_app; simpl; lia).
  cbn [length] in Hd. replace (k + Z.of_nat (S (length l))) with (k + zlen l + 1) in Hd by lia.
  destruct (use_step_spec (k + zlen l) done_ us ck rg m u reads cps gds ng Hu) as (st & u' & -> & Hst); [lia|lia|done|].
  cbn [mbind option_bind]. destruct (decide (st = DAMACY_OK)) as [->|]; [|by exists st, u'].
  destruct (Hst eq_refl) as (reads' & cps' & gds' & ng' & Hd').
  assert (zlen done_ + 1 = zlen (done_ ++ [us])) as -> by (rewrite length_app; simpl; lia).
  eapply IH; [by rewrite <-app_assoc|exact Hd'].
Qed.
End uses.

Lemma path_intern_reset_ok pi : pi_ok pi ->
  pi_ok (path_intern_reset pi) /\ entries (slots (path_intern_reset pi)) = [] /\ cap (path_intern_reset pi) = cap pi.
Proof.
  intros Hok. unfold path_intern_reset. case_decide as E; [by rewrite E|]. destruct Hok. simpl.
  rewrite entries_repeat. split; [|done]. split; simpl; rewrite ?entries_repeat; try done.
  - rewrite repeat_length. lia.
  - lia.
  - apply probing_repeat.
  - apply NoDup_nil_2.
  - apply NoDup_nil_2.
Qed.

(** The table grows at most to a multiple of what it holds. *)
Lemma acquire_cap calloc_ok copy pi s r pi' :
  pi_ok pi -> cap pi < 2 ^ 60 -> path_intern_acquire calloc_ok copy pi s = Some (r, pi') ->
  cap pi' = cap pi \/ cap pi' <= 16 + 3 * (pi_n pi + 1).
Proof.
  intros Hok Hc. unfold path_intern_acquire. destruct Hok.
  assert (0 <= cap pi) by lia. assert (0 <= pi_n pi) by lia. wrap_id.
  intros Ha. destruct (Z.ltb_spec (cap pi * 3) ((pi_n pi + 1) * 4)) as [Hg|Hg].
  - unfold slots_rehash in Ha. destruct calloc_ok; [|injection Ha as <- <-; by left].
    destruct (rehash_loop _ _ _ _ _); [|done]. cbn [mbind option_bind] in Ha.
    assert (cap pi' = if cap pi =? 0 then 16 else cap pi * 2) as ->.
    { destruct (probe_until _ _ _ _ _); [|done]. cbn [mbind option_bind] in Ha.
      destruct (aget _ _) as [sl|]; [|done]. cbn [mbind option_bind] in Ha.
      destruct (str sl); [|destruct copy]; try (destruct (aset _ _ _); [|done]; cbn [mbind option_bind] in Ha);
        injection Ha as <- <-; done. }
    right. destruct (Z.eqb_spec (cap pi) 0); lia.
  - cbn [mbind option_bind] in Ha. left.
    destruct (probe_until _ _ _ _ _); [|done]. cbn [mbind option_bind] in Ha.
    destruct (aget _ _) as [sl|]; [|done]. cbn [mbind option_bind] in Ha.
    destruct (str sl); [|destruct copy]; try (destruct (aset _ _ _); [|done]; cbn [mbind option_bind] in Ha);
      injection Ha as <- <-; done.
Qed.

Section instance.
(** What the allocator does on the [j]-th acquisition since the table was reset: the
    addresses of live copies are distinct. *)
Context (calloc_ok : Z -> bool) (strdup : Z -> option Z).
Hypothesis Hfresh : forall i j a, strdup i = Some a -> strdup j = Some a -> i = j.

(** The table and the number of acquisitions since its reset. *)
#[export] Instance path_interner : Interner (path_intern * Z) := {
  in_reset t := (path_intern_reset (fst t), 0);
  in_acquire t s :=
    match path_intern_acquire (calloc_ok (snd t)) (strdup (snd t)) (fst t) s with
    | Some (r, pi) => Some (option_map text r, (pi, snd t + 1))
    | None => None
    end }.

Record table_ok (t : path_intern * Z) (k : Z) : Prop := {
  tk_ok : pi_ok (fst t);
  tk_cap : cap (fst t) <= 2 ^ 59;
  tk_count : 0 <= snd t /\ zlen (entries (slots (fst t))) <= snd t;
  tk_left : 0 <= k /\ snd t + k < 2 ^ 32 - 1;
  tk_entries : Forall (fun e => refs e <= snd t /\ exists j, 0 <= j < snd t /\ fmap addr (str e) = strdup j)
                 (entries (slots (fst t))) }.

Lemma table_acquire t k s :
  0 <= k -> table_ok t (k + 1) ->
  exists r t', in_acquire t s = Some (r, t') /\ table_ok t' k /\ forall p, r = Some p -> p = s.
Proof using Hfresh.
  intros Hk []. destruct t as [pi c]. simpl in *.
  destruct (path_intern_acquire_spec (calloc_ok c) (strdup c) pi s) as (r & pi' & Ha & Hok & Hacq); [done|lia|..].
  { intros a Hc. eapply Forall_impl; [exact tk_entries0|]. intros e (_ & j & Hj & He) Ha. simpl in Ha.
    assert (j = c) by (eapply Hfresh; [by rewrite <-He|done]). lia. }
  { eapply Forall_impl; [exact tk_entries0|]. simpl. intros e [? _]. lia. }
  rewrite Ha. simpl. eexists _, _. split; [done|]. pose proof (ok_n _ tk_ok0) as Hn.
  assert (Forall (fun e => refs e <= c + 1 /\ exists j, 0 <= j < c + 1 /\ fmap addr (str e) = strdup j) (entries (slots pi)))
    as Hold.
  { eapply Forall_impl; [exact tk_entries0|]. simpl. intros e (? & j & ? & ?). split; [lia|]. exists j. split; [lia|done]. }
  split.
  - split; simpl; [done| | |lia|].
    + destruct (acquire_cap _ _ _ _ _ _ tk_ok0 ltac:(lia) Ha) as [->|]; [done|]. lia.
    + split; [lia|]. destruct Hacq as [_ Hp|_ _ Hp|e c' rest _ _ Hp1 Hp2|a _ _ Hp];
        [rewrite Hp; lia..| |rewrite Hp; simpl; lia].
      rewrite Hp2. rewrite Hp1 in tk_count0. simpl in *. lia.
    + destruct Hacq as [_ Hp|_ _ Hp|e c' rest He _ Hp1 Hp2|a Hcp _ Hp]; [by rewrite Hp..| |].
      * rewrite Hp2. rewrite Hp1 in Hold, tk_entries0. inversion_clear Hold as [|? ? [Hr Hj] Hrest].
        inversion_clear tk_entries0 as [|? ? [Hr0 _] _]. constructor; [|done]. simpl. split; [lia|done].
      * rewrite Hp. constructor; [|done]. simpl. split; [lia|]. exists c. split; [lia|done].
  - intros p Hp. destruct Hacq as [| |e c' rest _ Ht _ _|a _ _ _]; simpl in Hp; congruence.
Qed.

#[export] Instance path_interner_laws : InternerLaws (path_intern * Z).
Proof using Hfresh.
  refine {| in_ok := table_ok |}.
  - intros t k Hk []. split; try done; lia.
  - intros t k []. destruct (path_intern_reset_ok _ tk_ok0) as (Hok & He & Hc).
    split; simpl; rewrite ?He, ?Hc; try done; simpl; lia.
  - apply table_acquire.
Defined.
End instance.
