(* ===== verification/DispatchMain.v ===== *)
(** * A dispatched plan reads every chunk

    The theorem about [dispatch_plan_build] ([src/src/executor/dispatch.c]): the
    passes together turn a plan into aligned reads and chunk plans that address
    exactly the bytes and the sample positions of every use. *)

From stdpp Require Import strings.
From S2P Require Import Prelude Hash PathIntern PathInternProof Selection ReadOpSort DispatchTypes Coalesce CoalesceProof CoalesceChunks GroupChunks Plan Dispatch DispatchSamples DispatchUses.

#[local] Open Scope Z_scope.

(** ** Alignment survives coalescing *)

Definition aligned (alignment : Z) (r : read_op) : Prop :=
  (alignment | file_offset r) /\ (alignment | file_offset r + nbytes r).

Lemma coalesced_aligned alignment reads n max_bytes max_chunks c x t :
  coalesced reads n max_bytes max_chunks c -> n <= zlen reads ->
  (forall i r, 0 <= i < n -> aget reads i = Some r -> read_fits r /\ (is_io r = true -> aligned alignment r)) ->
  0 <= x < c_n c -> aget (c_reads c) x = Some t -> is_io t = true -> aligned alignment t.
Proof.
  intros Hco Hn Hal Hx Ht Hio. destruct (co_justified _ _ _ _ _ Hco x t Hx Ht) as (G & Hne & _ & Hmem & _ & Hcov).
  rewrite Hio in Hcov.
  assert (forall i r, i ∈ G -> aget reads i = Some r -> aligned alignment r /\ 0 <= nbytes r /\
    file_offset t <= file_offset r /\ file_offset r + nbytes r <= file_offset t + nbytes t) as Hin.
  { intros i r [Hi Hix]%Hmem Hr. destruct (Hal i r Hi Hr) as [(_ & Hf & _) Ha].
    destruct (co_located _ _ _ _ _ Hco i r Hi Hr) as (x' & o & t' & Hx' & _ & _ & Ht' & Hloc).
    assert (x' = x) as -> by congruence. assert (t' = t) as -> by congruence.
    destruct (is_io r) eqn:Er; [|destruct Hloc as [-> _]; congruence]. destruct Hloc as (_ & ? & ? & ? & _).
    split; [by apply Ha|]. lia. }
  apply is_io_iff in Hio as [Hnb _].
  assert (0 < nbytes t) as Hpos.
  { destruct G as [|i G]; [done|]. assert (i ∈ i :: G) as Hi by set_solver. pose proof Hi as [Hir _]%Hmem.
    destruct (aget_is_Some reads i ltac:(lia)) as [r Hr]. destruct (Hin i r Hi Hr) as (_ & ? & ? & ?). lia. }
  destruct (Hcov (file_offset t) ltac:(lia)) as (i1 & r1 & Hi1 & Hr1 & Hb1).
  destruct (Hcov (file_offset t + nbytes t - 1) ltac:(lia)) as (i2 & r2 & Hi2 & Hr2 & Hb2).
  destruct (Hin _ _ Hi1 Hr1) as ([Ha1 _] & ? & ? & ?), (Hin _ _ Hi2 Hr2) as ([_ Ha2] & ? & ? & ?).
  split; [by replace (file_offset t) with (file_offset r1) by lia|].
  by replace (file_offset t + nbytes t) with (file_offset r2 + nbytes r2) by lia.
Qed.

(** ** What the caller provides *)

Record plan_ready (plan : prepared_plan) : Prop := {
  pr_rank : 0 <= sample_rank (p_output plan) <= zlen (sample_shape (p_output plan));
  pr_shape : forall k x, 0 <= k < sample_rank (p_output plan) -> aget (sample_shape (p_output plan)) k = Some x -> 0 < x;
  pr_volume : 0 < zlen (regions plan) /\ zlen (regions plan) *
    extent_prod (Z.to_nat (sample_rank (p_output plan))) (sample_shape (p_output plan)) 0 < 2 ^ 63;
  pr_regions : forall j rg, aget (regions plan) j = Some rg -> sample rg = j /\ exists m, region_wf plan rg m;
  pr_uses : forall us, us ∈ uses plan -> exists ck rg m, use_wf plan us ck rg m;
  pr_count : 0 < zlen (uses plan) < 2 ^ 30 }.

(** Tables as large as their capacities say. *)
Record out_wf (out : dispatch_output) : Prop := {
  ow_reads : exists l, read_ops out = Some l /\ read_ops_cap out <= zlen l;
  ow_chunks : exists l, chunk_plans out = Some l /\ chunk_plans_cap out <= zlen l;
  ow_samples : sample_plans_cap out <= zlen (sample_plans out);
  ow_groups : exists l, read_op_groups out = Some l /\ read_op_groups_cap out <= zlen l;
  ow_indices : 0 <= indices_cap out < 2 ^ 32 /\ (out_indices out <> None -> indices_cap out <= zlen (tbl out));
  ow_gather : 0 <= gather_dims_cap out < 2 ^ 32 /\ gather_dims_cap out <= zlen (gather_dims out) }.

Record scratch_wf (s : dispatch_scratch) : Prop := {
  sw_cap : 0 <= ds_capacity s;
  sw_len : 0 < ds_capacity s -> exists u r c, ds_indices s = Some u /\ ds_reads s = Some r /\ ds_chunks s = Some c /\
    4 * ds_capacity s + 1 <= zlen u /\ ds_capacity s <= zlen r /\ ds_capacity s <= zlen c }.

Lemma scratch_reserve_spec calloc s cnt :
  scratch_wf s -> 0 < cnt -> exists st s', scratch_reserve calloc s cnt = (st, s') /\ scratch_wf s' /\
    (st = DAMACY_OK -> cnt <= ds_capacity s').
Proof.
  intros Hs Hc. unfold scratch_reserve. destruct (Z.leb_spec cnt (ds_capacity s)); [by eexists _, _|].
  assert (scratch_wf (dispatch_scratch_destroy s)) as Hz by (split; simpl; lia).
  destruct (_ && _); eexists _, _; (split; [done|]); [|done]. split; [|done].
  split; simpl; [lia|]. intros _. eexists _, _, _. split_and!; [done..| | |]; rewrite repeat_length; lia.
Qed.

(** ** The result *)

(** Chunk plan [cp] serves use [us]: it names the use's sample and the position of
    the chunk in it, and its read covers the chunk's bytes at the recorded offset. *)
Record serves (plan : prepared_plan) (slot : Z) (out : dispatch_output) (reads : list read_op) (cp : chunk_plan)
    (ck : plan_chunk) (rg : plan_region) (m : zarr_metadata) (s : sample_plan) : Prop := {
  sv_sample : aget (sample_plans out) (sample rg) = Some s /\ sample_ok plan slot rg m out s;
  sv_ids : batch_pool_slot cp = slot /\ sample_idx_in_batch cp = sample rg;
  sv_sizes : compressed_nbytes cp = encoded_bytes ck /\ decompressed_nbytes cp = decoded_bytes ck;
  sv_codec : is_fill cp = missing ck /\ codec_id cp = codec_value (if missing ck then CODEC_FILL else inner_codec m);
  sv_place :
    if is_gather (operation rg) then
      forall d, 0 <= d < m_rank m -> gathered plan rg m ck s (gather_dims out) (gather_offset cp) d
    else forall d, 0 <= d < m_rank m -> gridded plan rg m ck (chunk_d cp) d;
  sv_read : chunk_in_read reads (n_read_ops out) cp;
  sv_bytes : missing ck = false -> chunk_addr reads cp = Some (path ck, offset ck) }.

(** [mid] lists the chunk plans in the order of the uses. *)
Record dispatched (plan : prepared_plan) (slot alignment : Z) (out : dispatch_output) (reads : list read_op)
    (cps mid : list chunk_plan) (gs : list read_op_group) : Prop := {
  dd_tables : read_ops out = Some reads /\ chunk_plans out = Some cps /\ read_op_groups out = Some gs;
  dd_count : n_chunk_plans out = zlen (uses plan) /\ zlen mid = zlen (uses plan) /\
    0 < n_read_ops out <= zlen (uses plan);
  dd_grouped : take (length (uses plan)) cps = concat (of_read mid <$> seqZ 0 (n_read_ops out)) /\
    take (length (uses plan)) cps ≡ₚ mid;
  dd_groups : take (Z.to_nat (n_read_op_groups out)) gs = group_table mid total_bytes (n_read_ops out);
  dd_uses : forall i us, aget (uses plan) i = Some us -> exists cp ck rg m s,
    aget mid i = Some cp /\ use_wf plan us ck rg m /\ serves plan slot out reads cp ck rg m s;
  dd_aligned : forall x r, 0 <= x < n_read_ops out -> aget reads x = Some r -> is_io r = true -> aligned alignment r }.

Lemma sample_ok_ext plan slot rg m out out' s :
  tbl out' = tbl out -> n_indices out' = n_indices out ->
  sample_ok plan slot rg m out s -> sample_ok plan slot rg m out' s.
Proof.
  intros Ht Hn []. split; try done. intros d Hd. destruct (sm_dims d Hd) as (sd & Hsd & Hok). exists sd. split; [done|].
  destruct Hok as (iv & q & inner & extent & off & Hw & He & H0 & H1 & H2).
  exists iv, q, inner, extent, off. rewrite Ht, Hn. by split_and!.
Qed.

Section main.
Context {T : Type} `{InternerLaws T} (plan : prepared_plan) (slot alignment : Z) (path_at : Z -> Z).
Hypothesis Hplan : plan_ready plan.
Hypothesis Halign : 0 < alignment < 2 ^ 64.
Hypothesis Hpath : forall x y cx cy, aget (chunks plan) x = Some cx -> aget (chunks plan) y = Some cy ->
  path_at x = path_at y -> path cx = path cy.
Hypothesis Hnull : forall x cx, aget (chunks plan) x = Some cx -> path_at x = 0 <-> path cx = None.

(** The raw chunk plan of a use lies in its own read. *)
Lemma placed_in_read gds ng reads i us ck rg m s cp r :
  use_wf plan us ck rg m -> aget reads i = Some r -> 0 <= i < zlen (uses plan) ->
  use_placed plan slot alignment gds ng i ck rg m s cp r ->
  chunk_in_read reads (zlen (uses plan)) cp /\ read_fits r /\ (is_io r = true -> aligned alignment r) /\
  (missing ck = false -> chunk_addr reads cp = Some (path ck, offset ck)).
Proof.
  intros Hu Hr Hi []. destruct up_ids as (Hidx & _). destruct up_sizes as [Hc _]. destruct up_codec as [Hf _].
  pose proof (uw_bytes _ _ _ _ _ Hu). unfold chunk_in_read, chunk_addr. rewrite Hidx, Hr, Hf, Hc.
  destruct (missing ck).
  - destruct up_read as [-> ->]. split; [split; [done|]; by exists read_op_zero|]. split; [|done].
    unfold read_fits. simpl. lia.
  - destruct up_read as [[Hp1 Hp2] Hal [Ho1 Ho2] Hfit].
    split; [split; [done|]; exists r|split; [unfold read_fits; lia|split; [done|]]].
    + split; [done|]. split; [|lia]. apply is_io_iff. rewrite Hp1. split; [lia|done].
    + intros _. simpl. rewrite Hp1, Ho1. do 2 f_equal. lia.
Qed.

Lemma moved_serves gds ng out reads reads' n' i us ck rg m s cp cp' r :
  use_wf plan us ck rg m -> aget reads i = Some r -> 0 <= i < zlen (uses plan) ->
  use_placed plan slot alignment gds ng i ck rg m s cp r -> moved reads reads' n' cp cp' ->
  aget (sample_plans out) (sample rg) = Some s -> sample_ok plan slot rg m out s -> gather_dims out = gds ->
  n_read_ops out = n' -> serves plan slot out reads' cp' ck rg m s.
Proof.
  intros Hu Hr Hi Hpl [Ho Ha Hin] Hs Hsok Hg Hn.
  destruct (placed_in_read gds ng reads i us ck rg m s cp r Hu Hr Hi Hpl) as (_ & _ & _ & Hb).
  destruct Hpl. split.
  - done.
  - rewrite Ho. simpl. tauto.
  - rewrite Ho. done.
  - rewrite Ho. done.
  - rewrite Ho. simpl. destruct (is_gather (operation rg)); [|done]. rewrite Hg. tauto.
  - by rewrite Hn.
  - intros Hm. rewrite Ha. by apply Hb.
Qed.

(** Coalescing and grouping finish the dispatch. *)
Lemma finish_spec k out0 (u : @use_state T) reads cps gds ng max_bytes max_chunks us_ rs_ cs_ :
  dispatching plan slot alignment path_at out0 k (uses plan) u reads cps gds ng ->
  (exists gs, read_op_groups out0 = Some gs /\ read_op_groups_cap out0 <= zlen gs) ->
  0 <= max_chunks < 2 ^ 32 -> 4 * zlen (uses plan) + 1 <= zlen us_ -> zlen (uses plan) <= zlen rs_ -> zlen (uses plan) <= zlen cs_ ->
  let n := zlen (uses plan) in
  let out := set_reads (set_chunks (u_out u) (chunk_plans (u_out u)) n) (read_ops (u_out u)) n in
  exists out1, coalesce_chunks out max_bytes max_chunks (Some us_) (Some rs_) = Some (DAMACY_OK, out1) /\
    exists st out2, group_chunks_by_read out1 (Some us_) (Some cs_) = Some (st, out2) /\
      (st = DAMACY_OK -> exists reads' cps' mid gs, dispatched plan slot alignment out2 reads' cps' mid gs).
Proof.
  intros [Hout [Hl1 Hl2] _ _ _ Hdone] (gs & Hgs & Hgl) Hmc Hus Hrs Hcs n out. pose proof (pr_count _ Hplan) as Hcnt.
  subst out. rewrite Hout. set (out := set_reads _ _ _).
  assert (forall i, 0 <= i < n -> exists us ck rg m s cp r, aget (uses plan) i = Some us /\ use_wf plan us ck rg m /\
    aget (sample_plans out0) (sample rg) = Some s /\ sample_ok plan slot rg m out0 s /\ aget cps i = Some cp /\
    aget reads i = Some r /\ use_placed plan slot alignment gds ng i ck rg m s cp r) as Hall.
  { intros i Hi. destruct (aget_is_Some (uses plan) i Hi) as [us Hu].
    destruct (Hdone i us Hu) as (ck & rg & m & s & cp & r & ?). exists us, ck, rg, m, s, cp, r. tauto. }
  assert (forall i r, 0 <= i < n -> aget reads i = Some r -> read_fits r /\ (is_io r = true -> aligned alignment r)) as Hfits.
  { intros i r Hi Hr. destruct (Hall i Hi) as (us & ck & rg & m & s & cp & r' & _ & Hu & _ & _ & _ & Hr' & Hpl).
    assert (r' = r) as -> by congruence.
    destruct (placed_in_read gds ng reads i us ck rg m s cp r Hu Hr Hi Hpl) as (_ & ? & ? & _). done. }
  destruct (coalesce_chunks_spec out reads cps max_bytes max_chunks us_ rs_) as (out1 & Hc & []); try done.
  { change (n_read_ops out) with n. lia. }
  { intros i r Hi Hr. by apply (Hfits i). }
  { change (n_chunk_plans out) with n. lia. }
  { intros i cp Hi Hcp. destruct (Hall i Hi) as (us & ck & rg & m & s & cp' & r & _ & Hu & _ & _ & Hcp' & Hr & Hpl).
    assert (cp' = cp) as -> by congruence.
    destruct (placed_in_read gds ng reads i us ck rg m s cp r Hu Hr Hi Hpl) as (? & _). done. }
  exists out1. split; [done|]. cbn [n_read_ops n_chunk_plans out set_reads set_chunks] in cc_count, cc_chunks.
  destruct cc_chunks as (reads' & cps' & Hr' & Hc' & Hlc & Hmv). destruct cc_rest as (cps'' & Hc'' & Ho1).
  assert (cps'' = cps') as -> by congruence. clear Hc''.
  destruct cc_reads as (reads'' & Hr'' & Hlr & c & Hcr & Hcn & Hco). assert (reads'' = reads') as -> by congruence. clear Hr''.
  set (R := n_read_ops out1) in *. set (mid := take (Z.to_nat n) cps').
  assert (n_chunk_plans out1 = n) as Hn1 by (by rewrite Ho1).
  assert (read_op_groups out1 = Some gs) as Hg1 by (by rewrite Ho1).
  assert (forall i us, aget (uses plan) i = Some us -> exists cp ck rg m s, aget mid i = Some cp /\
    use_wf plan us ck rg m /\ forall out2, n_read_ops out2 = R -> sample_plans out2 = sample_plans out0 ->
      tbl out2 = tbl out0 -> n_indices out2 = n_indices out0 -> gather_dims out2 = gds ->
      serves plan slot out2 reads' cp ck rg m s) as Hserve.
  { intros i us Hu. pose proof (aget_Some_range _ _ _ Hu) as Hi.
    destruct (Hdone i us Hu) as (ck & rg & m & s & cp & r & Huw & Hs & Hsok & Hcp & Hr & Hpl).
    destruct (Hmv i cp Hi Hcp) as (cp' & Hcp' & Hm). exists cp', ck, rg, m, s. split.
    { apply aget_lookup in Hcp' as [? Hcp']. apply aget_lookup. split; [done|]. subst mid. by rewrite lookup_take_lt by lia. }
    split; [done|]. intros out2 E1 E2 E3 E4 E5. eapply moved_serves; try done; [by rewrite E2|].
    by eapply sample_ok_ext. }
  assert (Forall (fun cp => 0 <= read_op_idx cp < R /\ is_u32 (decompressed_nbytes cp)) mid) as Hmid.
  { apply Forall_forall. intros cp [i Hi]%elem_of_aget. pose proof (aget_Some_range _ _ _ Hi) as Hir.
    subst mid. rewrite length_take in Hir. destruct (aget_is_Some (uses plan) i ltac:(lia)) as [us Hu].
    destruct (Hserve i us Hu) as (cp' & ck & rg & m & s & Hcp & Huw & Hsv). assert (cp' = cp) as -> by congruence.
    destruct (Hsv (set_gather (set_indices (set_samples out1 (sample_plans out0) 0) (out_indices out0) (n_indices out0)) gds 0))
      as [_ _ [_ Hd] _ _ [Hin _] _]; try done. split; [done|]. rewrite Hd. by apply (uw_decoded _ _ _ _ _ Huw). }
  destruct (decide (R <= read_op_groups_cap out0)) as [Hcap|Hcap].
  - destruct (group_chunks_spec out1 cps' gs us_ cs_) as (rest & ->); try done.
    { rewrite Hn1. lia. } { rewrite Hn1. lia. } { fold R. lia. } { fold R. by rewrite Ho1. } { fold R. lia. }
    { fold R. lia. } { rewrite Hn1. lia. } { rewrite Hn1. done. }
    eexists _, _. split; [done|]. intros _. rewrite Hn1. fold R. unfold used. fold mid.
    assert (grouped cps' n R ≡ₚ mid) as Hp by (apply grouped_perm; [lia|exact (Forall_impl _ _ _ Hmid (fun _ H => proj1 H))]).
    assert (zlen mid = n) as Hlm by (subst mid; rewrite length_take; lia).
    assert (take (length (uses plan)) (grouped cps' n R ++ drop (Z.to_nat n) cps') = grouped cps' n R) as Ht.
    { apply take_app_length'. rewrite Hp. lia. }
    eexists reads', _, mid, _. split.
    + split; [done|]. split; done.
    + split; [done|]. split; [done|]. done.
    + cbn [n_read_ops set_groups set_chunks]. fold R. by rewrite Ht.
    + cbn. fold R. rewrite Nat2Z.id. apply take_app_length.
    + intros i us Hu. destruct (Hserve i us Hu) as (cp & ck & rg & m & s & ? & ? & Hsv). exists cp, ck, rg, m, s.
      split; [done|]. split; [done|]. apply Hsv; try done; by rewrite Ho1.
    + intros x r Hx Hr Hio. eapply (coalesced_aligned alignment); [exact Hco|cbn; lia|exact Hfits| |by rewrite Hcr|done].
      rewrite Hcn. exact Hx.
  - eexists DAMACY_BUDGET, _. split; [|done]. unfold group_chunks_by_read. rewrite Hc', Hn1. fold R.
    rewrite (proj2 (Z.eqb_neq n 0)), (proj2 (Z.eqb_neq R 0)) by lia. cbn [orb read_op_groups set_groups].
    rewrite Hg1. rewrite (proj2 (Z.ltb_lt _ _)); [done|]. rewrite Ho1. cbn. lia.
Qed.

(** Everything after the counters are reset. *)
Lemma dispatch_total calloc max_bytes max_chunks out paths scratch :
  out_wf out -> scratch_wf scratch -> in_ok paths (zlen (uses plan)) -> 0 < max_chunks < 2 ^ 32 ->
  exists st out' paths' scratch',
    dispatch_plan_build calloc path_at plan slot alignment max_bytes max_chunks out paths scratch
      = Some (st, out', paths', scratch') /\
    (st = DAMACY_OK -> exists reads cps mid gs, dispatched plan slot alignment out' reads cps mid gs).
Proof.
  intros Hout Hscr Hok Hmc. unfold dispatch_plan_build. pose proof Hplan as [].
  rewrite (proj2 (Z.eqb_neq alignment 0)), (proj2 (Z.eqb_neq max_chunks 0)) by lia. cbn [orb].
  destruct (Z.ltb_spec (chunk_plans_cap out) (zlen (uses plan))); [by eexists _, _, _, _|].
  destruct (Z.ltb_spec (read_ops_cap out) (zlen (uses plan))); [by eexists _, _, _, _|].
  destruct (Z.ltb_spec (sample_plans_cap out) (zlen (regions plan))); [by eexists _, _, _, _|]. cbn [orb].
  set (out1 := reset_out out (zlen (regions plan))). destruct Hout.
  destruct (strides_loop_spec (Z.to_nat (sample_rank (p_output plan))) (sample_shape (p_output plan))
    (Z.to_nat (sample_rank (p_output plan))) [1]) as (strides & -> & Hstr); [done|lia| | | | |].
  { intros k x Hk. apply pr_shape0. lia. }
  { pose proof (extent_prod_pos (Z.to_nat (sample_rank (p_output plan))) (sample_shape (p_output plan)) 0) as Hp.
    assert (0 < extent_prod (Z.to_nat (sample_rank (p_output plan))) (sample_shape (p_output plan)) 0); [|nia].
    apply Hp. intros k x Hk. apply pr_shape0. lia. }
  { rewrite Nat.sub_diag. done. }
  { intros k Hk. replace k with (Z.to_nat (sample_rank (p_output plan))) by lia. by rewrite !Nat.sub_diag. }
  cbn [mbind option_bind].
  assert (0 < extent_prod (Z.to_nat (sample_rank (p_output plan))) (sample_shape (p_output plan)) 0) as Hpos.
  { apply extent_prod_pos. intros k x Hk. apply pr_shape0. lia. }
  destruct (regions_loop_spec plan strides Hstr slot (regions plan) [] out1) as (st & out2 & -> & Hos & Hix & Hsam);
    try done; [|simpl; lia|nia|set_solver|].
  { split; [|exact (proj2 ow_indices0)]. cbn [out1 reset_out n_indices indices_cap set_gather set_indices set_groups set_reads set_chunks set_samples]. lia. }
  cbn [mbind option_bind]. destruct (decide (st = DAMACY_OK)) as [->|]; [|by eexists _, _, _, _].
  specialize (Hsam eq_refl). destruct (only_samples_caps _ _ Hos) as (_ & Hro & Hcp & Hgr & Hgd & Hng & Hgc & Hgrc).
  destruct ow_reads0 as (reads & Hreads & Hrl), ow_chunks0 as (cps & Hcps & Hcl).
  destruct (uses_loop_spec plan slot alignment path_at out2 Halign Hpath Hnull) with (k := 0) (l := uses plan)
    (done_ := @nil plan_use) (u := UseState out2 (in_reset paths) 0 None) (reads := reads) (cps := cps)
    (gds := gather_dims out) (ng := 0) as (st & u & Hloop & Hu); try done.
  { destruct Hix. lia. }
  { split; simpl; try done.
    - assert (read_ops out2 = Some reads) as E1 by (by rewrite Hro).
      assert (chunk_plans out2 = Some cps) as E2 by (by rewrite Hcp).
      assert (gather_dims out2 = gather_dims out) as E3 by (by rewrite Hgd).
      assert (n_gather_dims out2 = 0) as E4 by (by rewrite Hng).
      clear -E1 E2 E3 E4. unfold with_uses. destruct out2. cbn in *. by subst.
    - lia.
    - rewrite Hgc. cbn. lia.
    - rewrite Z.add_0_l. by apply in_reset_ok.
    - by left.
    - intros i us Hi. apply aget_Some_range in Hi. simpl in Hi. lia. }
  cbn [length] in Hloop. change (Z.of_nat 0) with 0 in Hloop. rewrite Hloop. cbn [mbind option_bind].
  destruct (decide (st = DAMACY_OK)) as [->|]; [|by eexists _, _, _, _].
  destruct (Hu eq_refl) as (reads1 & cps1 & gds & ng & Hd).
  destruct (scratch_reserve_spec calloc scratch (zlen (uses plan)) Hscr) as (st & scr & -> & Hscr' & Hcap); [lia|].
  destruct (decide (st = DAMACY_OK)) as [->|]; [|by eexists _, _, _, _]. specialize (Hcap eq_refl).
  destruct (sw_len _ Hscr') as (us_ & rs_ & cs_ & -> & -> & -> & Hl1 & Hl2 & Hl3); [lia|].
  destruct (finish_spec 0 out2 u reads1 cps1 gds ng max_bytes max_chunks us_ rs_ cs_ Hd) as (out3 & -> & st & out4 & Hg & Hfin);
    [rewrite Hgr, Hgrc; exact ow_groups0|lia..|].
  cbn [mbind option_bind]. rewrite decide_True by done. rewrite Hg. cbn [mbind option_bind]. by eexists _, _, _, _.
Qed.
End main.

(** C12. [dispatch_plan_build] on a well-formed plan always returns, inside its tables.
    When it reports success, every use of the plan has one chunk plan: it names the
    right sample, carries the sizes and codec of the chunk, places the chunk in the
    sample (its cell in the sample's grid, or, for an indexed sample, the gather
    entries whose indices fall in the chunk), and after alignment, coalescing and
    grouping still addresses the chunk's own bytes, inside the read it names. The
    reads start and end on the alignment, the chunk plans are ordered by read, and
    the group table describes the runs. *)
Theorem dispatch_plan_build_correct `{InternerLaws T} calloc path_at plan slot alignment max_bytes max_chunks
    out (paths : T) scratch :
  plan_ready plan -> 0 < alignment < 2 ^ 64 -> 0 < max_chunks < 2 ^ 32 ->
  (forall x y cx cy, aget (chunks plan) x = Some cx -> aget (chunks plan) y = Some cy ->
     path_at x = path_at y -> path cx = path cy) ->
  (forall x cx, aget (chunks plan) x = Some cx -> path_at x = 0 <-> path cx = None) ->
  out_wf out -> scratch_wf scratch -> in_ok paths (zlen (uses plan)) ->
  exists st out' paths' scratch',
    dispatch_plan_build calloc path_at plan slot alignment max_bytes max_chunks out paths scratch
      = Some (st, out', paths', scratch') /\
    (st = DAMACY_OK -> exists reads cps mid gs, dispatched plan slot alignment out' reads cps mid gs).
Proof. intros. by apply dispatch_total. Qed.

(** ** An example *)

Module DispatchExample.
(** One sample picks the elements 5 and 1 of an array in chunks of four. *)
Definition ex_meta : zarr_metadata := Meta dtype_u8 1 [8] [4] [8] true CODEC_ZSTD true (repeat 0 8).
Definition ex_interval : damacy_interval := Interval 1 6.
Definition ex_axis : query_axis := QueryAxis [QueryIndex 1 1; QueryIndex 5 0] 2.
Definition ex_region : plan_region := PlanRegion PLAN_GATHER 0 0 (Aabb [ex_interval] 1) [ex_axis].
Definition ex_chunk0 : plan_chunk := PlanChunk (Some "a/c/0") 100 [0] 0 50 4 0 false.
Definition ex_chunk1 : plan_chunk := PlanChunk (Some "a/c/0") 200 [1] 0 50 4 1 false.
Definition ex_plan : prepared_plan :=
  PreparedPlan (BatchSpec 2 [2] 1 1) [PlanArray "a" ex_meta] [ex_chunk0; ex_chunk1] [ex_region]
    [PlanUse 0 0 UINT32_MAX; PlanUse 1 0 UINT32_MAX] 4096.
Definition ex_empty : dispatch_output :=
  DispatchOutput (Some (repeat read_op_zero 2)) 2 0 (Some (repeat chunk_plan_zero 2)) 2 0
    [SamplePlan 0 0 0 0 false [] 0 [] chunk_layout_zero 0] 1 0
    (Some (repeat (ReadOpGroup 0 0 0 0) 2)) 2 0 (Some (repeat (GatherIndex 0 0) 2)) 2 0
    (repeat (GatherDim 0 0 0) 2) 2 0 0 0.
Definition ex_scratch0 : dispatch_scratch := DispatchScratch None None None 0.
Definition ex_strdup (j : Z) : option Z := Some (4096 + 64 * j).

Lemma ex_axis_wf d : 0 <= d < 1 -> axis_wf ex_plan ex_region ex_meta d ex_interval ex_axis 4 2.
Proof.
  intros Hd. assert (d = 0) as -> by lia. split; try done. split; [done|]. intros _. split; [|split; [done|]].
  - split; [|repeat (constructor; [done|]); constructor|done].
    repeat (constructor; [|repeat (constructor; [done|]); constructor]). constructor.
  - intros e. unfold ex_axis. cbn [indices]. rewrite !elem_of_cons. intros [->|[->|[]%not_elem_of_nil]]; done.
Qed.

Lemma ex_axis_unique d iv q inner extent :
  0 <= d < 1 -> axis_wf ex_plan ex_region ex_meta d iv q inner extent -> d = 0 /\ iv = ex_interval /\ q = ex_axis /\ inner = 4.
Proof.
  intros Hd []. assert (d = 0) as -> by lia. unfold aget in *. simpl in *. split_and!; congruence.
Qed.

Lemma ex_region_wf : region_wf ex_plan ex_region ex_meta.
Proof.
  split; try done.
  - by exists "a".
  - intros d Hd. exists ex_interval, ex_axis, 4, 2. by apply ex_axis_wf.
  - split; [|done]. intros _. exists 0, ex_axis. done.
Qed.

Lemma ex_ready : plan_ready ex_plan.
Proof.
  split; try done.
  - intros k x Hk. simpl in Hk. assert (k = 0) as -> by lia. by intros [= <-].
  - intros j rg Hj. assert (j = 0) as -> by (apply aget_Some_range in Hj; simpl in Hj; lia).
    injection Hj as <-. split; [done|]. exists ex_meta. apply ex_region_wf.
  - intros us. simpl. rewrite !elem_of_cons. intros [->|[->|[]%not_elem_of_nil]].
    + exists ex_chunk0, ex_region, ex_meta. split; try done; [apply ex_region_wf|].
      intros d iv q inner extent Hd Hw. destruct (ex_axis_unique d iv q inner extent Hd Hw) as (-> & -> & -> & ->).
      exists 1. split; [|done]. exists (QueryIndex 1 1). split; [set_solver|done].
    + exists ex_chunk1, ex_region, ex_meta. split; try done; [apply ex_region_wf|].
      intros d iv q inner extent Hd Hw. destruct (ex_axis_unique d iv q inner extent Hd Hw) as (-> & -> & -> & ->).
      exists 5. split; [|done]. exists (QueryIndex 5 0). split; [set_solver|done].
Qed.

Lemma ex_out_wf : out_wf ex_empty.
Proof. split; simpl; try done; eexists; done. Qed.

Lemma ex_fresh i j a : ex_strdup i = Some a -> ex_strdup j = Some a -> i = j.
Proof. unfold ex_strdup. intros [= <-] [= ?]. lia. Qed.

(** Both chunks end up in one aligned read of their shard. *)
Lemma dispatch_plan_build_correct_witness :
  exists out' paths' scratch',
    @dispatch_plan_build _ (path_interner (fun _ => true) ex_strdup) (fun _ => true) (fun _ => 4096) ex_plan 1 64 4096 8
      ex_empty (PathIntern [] 0 0, 0) ex_scratch0 = Some (DAMACY_OK, out', paths', scratch') /\
    n_read_ops out' = 1 /\ aget (default [] (read_ops out')) 0 = Some (ReadOp (Some "a/c/0") 64 0 192) /\
    exists reads cps mid gs, dispatched ex_plan 1 64 out' reads cps mid gs.
Proof.
  destruct (@dispatch_plan_build_correct _ (path_interner (fun _ => true) ex_strdup)
    (path_interner_laws (fun _ => true) ex_strdup ex_fresh) (fun _ => true) (fun _ => 4096) ex_plan 1 64 4096 8
    ex_empty (PathIntern [] 0 0, 0) ex_scratch0 ex_ready) as (st & out' & paths' & scratch' & Hd & Hok).
  - done.
  - done.
  - intros x y cx cy Hx Hy _.
    assert (forall c, c ∈ chunks ex_plan -> path c = Some "a/c/0"%string) as Hp.
    { intros c. simpl. rewrite !elem_of_cons. intros [->|[->|[]%not_elem_of_nil]]; done. }
    rewrite (Hp cx), (Hp cy); [done|apply elem_of_aget; by eauto..].
  - intros x cx Hx. assert (path cx = Some "a/c/0"%string) as ->; [|done].
    assert (cx ∈ chunks ex_plan) as Hin by (apply elem_of_aget; by eauto). simpl in Hin.
    rewrite !elem_of_cons in Hin. destruct Hin as [->|[->|[]%not_elem_of_nil]]; done.
  - apply ex_out_wf.
  - split; simpl; [done|lia].
  - split; simpl; try done; apply pi_ok_empty.
  - pose proof Hd as Hd'. vm_compute in Hd'. injection Hd' as <- <- <- <-.
    eexists _, _, _. split; [exact Hd|]. split; [reflexivity|]. split; [reflexivity|]. by apply Hok.
Defined.
End DispatchExample.
