(* ===== verification/Lru.v ===== *)
(** * The pinning cache

    [src/src/util/lru.c]: a fixed array of slots, a robin-hood index over slot
    numbers in which pinned entries do not move, and two circular doubly-linked
    lists through the slots, the recency order and the free list. The comparison
    callback is a parameter; calls of the destroy callback are recorded in
    [destroyed]. The operations run one at a time, as under the caller's mutex,
    on a cache, an entry and a value that are not [NULL]. An entry pointer is its
    slot number. *)

From stdpp Require Import strings.
From S2P Require Import Prelude Hash.

#[local] Open Scope Z_scope.

Definition LRU_NIL : Z := UINT32_MAX.

(** ** Data *)

(** What a list pointer can be: [NULL], a sentinel, or the link of a slot. *)
Inductive node := Null | Order | Free | Slot (i : Z).
#[export] Instance node_eq_dec : EqDecision node.
Proof. solve_decision. Defined.

Record lru_list := Link { prev : node; next : node }.

Record lru_counters := Counters {
  hits : Z; misses : Z; insertions : Z; evictions : Z; replacements : Z; put_failures : Z }.

Record lru_index := Index {
  cells : list Z; n_cells : Z; mask : Z; max_probe : Z; max_probe_observed : Z }.

Section data.
Context {V : Type}.
Record lru_entry := Entry { e_hash : Z; value : option V; refcount : Z; link : lru_list }.
Record lru := Lru {
  slots : list lru_entry; capacity : Z; size : Z; index : lru_index;
  lru_order : lru_list; freelist : lru_list; counters : lru_counters; destroyed : list V }.
End data.
Arguments lru_entry : clear implicits.
Arguments lru : clear implicits.

Section ops.
Context {V K : Type} (eq : V -> K -> bool).
Implicit Types self : lru V.

(** ** Field updates *)

Definition with_slots self (s : list (lru_entry V)) : lru V :=
  Lru s (capacity self) (size self) (index self) (lru_order self) (freelist self) (counters self) (destroyed self).
Definition with_size self (n : Z) : lru V :=
  Lru (slots self) (capacity self) n (index self) (lru_order self) (freelist self) (counters self) (destroyed self).
Definition with_index self (ix : lru_index) : lru V :=
  Lru (slots self) (capacity self) (size self) ix (lru_order self) (freelist self) (counters self) (destroyed self).
Definition with_counters self (c : lru_counters) : lru V :=
  Lru (slots self) (capacity self) (size self) (index self) (lru_order self) (freelist self) c (destroyed self).
Definition ops_destroy self (v : option V) : lru V :=
  Lru (slots self) (capacity self) (size self) (index self) (lru_order self) (freelist self) (counters self)
    (destroyed self ++ option_list v).
Definition with_cells (ix : lru_index) (c : list Z) : lru_index :=
  Index c (n_cells ix) (mask ix) (max_probe ix) (max_probe_observed ix).
Definition observe (ix : lru_index) (probe : Z) : lru_index :=
  Index (cells ix) (n_cells ix) (mask ix) (max_probe ix)
    (if max_probe_observed ix <? probe then probe else max_probe_observed ix).

(** ** Lists *)

Definition get_link self (n : node) : option lru_list :=
  match n with
  | Null => None
  | Order => Some (lru_order self)
  | Free => Some (freelist self)
  | Slot i => e ← aget (slots self) i; Some (link e)
  end.

Definition set_link self (n : node) (l : lru_list) : option (lru V) :=
  match n with
  | Null => None
  | Order => Some (Lru (slots self) (capacity self) (size self) (index self) l (freelist self) (counters self) (destroyed self))
  | Free => Some (Lru (slots self) (capacity self) (size self) (index self) (lru_order self) l (counters self) (destroyed self))
  | Slot i =>
      e ← aget (slots self) i;
      s ← aset (slots self) i (Entry (e_hash e) (value e) (refcount e) l);
      Some (with_slots self s)
  end.

Definition set_next self (n m : node) : option (lru V) :=
  l ← get_link self n; set_link self n (Link (prev l) m).
Definition set_prev self (n m : node) : option (lru V) :=
  l ← get_link self n; set_link self n (Link m (next l)).

Definition list_init self (n : node) : option (lru V) := set_link self n (Link n n).

Definition list_empty self (sentinel : node) : option bool :=
  l ← get_link self sentinel; Some (bool_decide (next l = sentinel)).

Definition list_unlink self (n : node) : option (lru V) :=
  l ← get_link self n;
  self ← set_next self (prev l) (next l);
  l ← get_link self n;
  self ← set_prev self (next l) (prev l);
  set_link self n (Link n n).

Definition list_push_front self (sentinel n : node) : option (lru V) :=
  self ← set_prev self n sentinel;
  l ← get_link self sentinel;
  self ← set_next self n (next l);
  l ← get_link self sentinel;
  self ← set_prev self (next l) n;
  set_next self sentinel n.

Definition list_promote self (sentinel n : node) : option (lru V) :=
  l ← get_link self sentinel;
  if decide (next l = n) then Some self
  else self ← list_unlink self n; list_push_front self sentinel n.

(** [entry_to_slot_idx(link_to_entry(node))]: not defined on a sentinel. *)
Definition node_slot (n : node) : option Z := match n with Slot i => Some i | _ => None end.

(** ** Index arithmetic *)

Definition next_pow2_ge (v : Z) : Z :=
  if v <? 2 then 2
  else
    let v := u32 (v - 1) in
    let v := Z.lor v (Z.shiftr v 1) in
    let v := Z.lor v (Z.shiftr v 2) in
    let v := Z.lor v (Z.shiftr v 4) in
    let v := Z.lor v (Z.shiftr v 8) in
    let v := Z.lor v (Z.shiftr v 16) in
    u32 (v + 1).

Definition ideal_cell (ix : lru_index) (hash : Z) : Z := Z.land hash (mask ix).
Definition probe_dist (ix : lru_index) (cell ideal : Z) : Z := cell_dist (mask ix) cell ideal.
Definition pinned (e : lru_entry V) : bool := 0 <? refcount e.

(** ** Free slots *)

Definition freelist_pop self : option (Z * lru V) :=
  empty ← list_empty self Free;
  if (empty : bool) then Some (LRU_NIL, self)
  else
    let n := next (freelist self) in
    self ← list_unlink self n;
    i ← node_slot n;
    Some (i, self).

Definition freelist_push self (i : Z) : option (lru V) := list_push_front self Free (Slot i).

Definition slot_clear self (i : Z) : option (lru V) :=
  e ← aget (slots self) i;
  s ← aset (slots self) i (Entry 0 None 0 (link e));
  Some (with_slots self s).

(** ** The index *)

(** The robin-hood loop; [carry] is the slot still to be placed. At least one cell
    is empty, so the walk ends within [n_cells] rounds. *)
Fixpoint insert_loop (fuel : nat) (sl : list (lru_entry V)) (ix : lru_index) (carry cell probe : Z)
    : option (Z * lru_index) :=
  if max_probe ix <? probe then Some (carry, ix)
  else
    match fuel with
    | O => None
    | S fuel =>
        incumbent ← aget (cells ix) cell;
        if incumbent =? LRU_NIL then
          c ← aset (cells ix) cell carry;
          Some (LRU_NIL, observe (with_cells ix c) probe)
        else
          e ← aget sl incumbent;
          let incumbent_probe := probe_dist ix cell (ideal_cell ix (e_hash e)) in
          if negb (pinned e) && (incumbent_probe <? probe) then
            c ← aset (cells ix) cell carry;
            insert_loop fuel sl (observe (with_cells ix c) probe) incumbent
              (cell_next (mask ix) cell) (u32 (incumbent_probe + 1))
          else insert_loop fuel sl ix carry (cell_next (mask ix) cell) (u32 (probe + 1))
    end.

Definition index_insert_robin self (i : Z) : option (Z * lru V) :=
  e ← aget (slots self) i;
  r ← insert_loop (length (cells (index self))) (slots self) (index self) i
        (ideal_cell (index self) (e_hash e)) 0;
  Some (fst r, with_index self (snd r)).

Fixpoint erase_loop (fuel : nat) (sl : list (lru_entry V)) (ix : lru_index) (cell : Z) : option lru_index :=
  match fuel with
  | O => None
  | S fuel =>
      let next_cell := cell_next (mask ix) cell in
      next_slot ← aget (cells ix) next_cell;
      if next_slot =? LRU_NIL then
        c ← aset (cells ix) cell LRU_NIL; Some (with_cells ix c)
      else
        e ← aget sl next_slot;
        if pinned e || (probe_dist ix next_cell (ideal_cell ix (e_hash e)) =? 0) then
          c ← aset (cells ix) cell LRU_NIL; Some (with_cells ix c)
        else
          c ← aset (cells ix) cell next_slot;
          erase_loop fuel sl (with_cells ix c) next_cell
  end.

Definition index_erase self (cell : Z) : option (lru V) :=
  ix ← erase_loop (S (length (cells (index self)))) (slots self) (index self) cell;
  Some (with_index self ix).

(** Cells [cell], [cell + 1], ... for [n] probes, the first where [hit] holds. *)
Fixpoint scan_cells (n : nat) (hit : Z -> option bool) (ix : lru_index) (cell : Z) : option Z :=
  match n with
  | O => Some LRU_NIL
  | S n =>
      i ← aget (cells ix) cell;
      b ← hit i;
      if (b : bool) then Some cell else scan_cells n hit ix (cell_next (mask ix) cell)
  end.

(** The probes 0 .. [max_probe]; [max_probe] is below [UINT32_MAX], past which the
    counter of the loop would wrap. *)
Definition n_probes (ix : lru_index) : nat := Z.to_nat (max_probe ix + 1).

Definition index_locate self (i : Z) : option Z :=
  e ← aget (slots self) i;
  scan_cells (n_probes (index self)) (fun j => Some (j =? i)) (index self)
    (ideal_cell (index self) (e_hash e)).

Definition matches self (hash : Z) (key : K) (i : Z) : option bool :=
  if i =? LRU_NIL then Some false
  else
    e ← aget (slots self) i;
    if negb (e_hash e =? hash) then Some false
    else v ← value e; Some (eq v key).

Definition index_lookup self (hash : Z) (key : K) : option Z :=
  scan_cells (n_probes (index self)) (matches self hash key) (index self) (ideal_cell (index self) hash).

(** ** Eviction *)

Definition add_eviction (c : lru_counters) : lru_counters :=
  Counters (hits c) (misses c) (insertions c) (u64 (evictions c + 1)) (replacements c) (put_failures c).
Definition add_failure (c : lru_counters) : lru_counters :=
  Counters (hits c) (misses c) (insertions c) (evictions c) (replacements c) (u64 (put_failures c + 1)).

(** Unlink, clear and free slot [i], then destroy its value. *)
Definition drop_slot self (i : Z) : option (lru V) :=
  e ← aget (slots self) i;
  self ← list_unlink self (Slot i);
  self ← slot_clear self i;
  self ← freelist_push self i;
  let self := with_size self (u32 (size self - 1)) in
  let self := with_counters self (add_eviction (counters self)) in
  Some (ops_destroy self (value e)).

Definition evict_slot self (i : Z) : option (lru V) :=
  cell ← index_locate self i;
  self ← (if cell =? LRU_NIL then Some self else index_erase self cell);
  drop_slot self i.

(** The walk from the tail; [true] when an entry was evicted. The list has at most
    [capacity] nodes. *)
Fixpoint evict_walk (fuel : nat) self (n : node) : option (bool * lru V) :=
  if decide (n = Order) then Some (false, self)
  else
    match fuel with
    | O => None
    | S fuel =>
        i ← node_slot n;
        e ← aget (slots self) i;
        if pinned e then evict_walk fuel self (prev (link e))
        else self ← evict_slot self i; Some (true, self)
    end.

Definition evict_lru_tail self : option (bool * lru V) :=
  evict_walk (Z.to_nat (capacity self)) self (prev (lru_order self)).

(** ** Creation and destruction *)

(** A loop over the recency list, most recent first. *)
Fixpoint order_walk {A} (fuel : nat) self (f : A -> lru_entry V -> A) (n : node) (acc : A) : option A :=
  if decide (n = Order) then Some acc
  else
    match fuel with
    | O => None
    | S fuel =>
        i ← node_slot n;
        e ← aget (slots self) i;
        order_walk fuel self f (next (link e)) (f acc e)
    end.

Definition order_fold {A} self (f : A -> lru_entry V -> A) (acc : A) : option A :=
  order_walk (Z.to_nat (capacity self)) self f (next (lru_order self)) acc.

Definition count_pinned (n : Z) (e : lru_entry V) : Z := if pinned e then u32 (n + 1) else n.

Fixpoint seed_freelist (n : nat) self (i : Z) : option (lru V) :=
  match n with
  | O => Some self
  | S n =>
      self ← list_init self (Slot i);
      self ← list_push_front self Free (Slot i);
      seed_freelist n self (i + 1)
  end.

(** [true] with the values destroyed, [false] when a pin is outstanding and
    everything is left in place. *)
Definition lru_destroy self : option (bool * lru V) :=
  n ← order_fold self count_pinned 0;
  if n =? 0 then
    d ← order_fold self (fun d e => d ++ option_list (value e)) [];
    Some (true, Lru (slots self) (capacity self) (size self) (index self) (lru_order self) (freelist self)
                  (counters self) (destroyed self ++ d))
  else Some (false, self).

Definition zero_entry : lru_entry V := Entry 0 None 0 (Link Null Null).
Definition zero_counters : lru_counters := Counters 0 0 0 0 0 0.

(** [alloc k]: does the [k]-th allocation succeed. [None] is [NULL]. *)
Definition lru_create (alloc : nat -> bool) (capacity max_probe : Z) : option (option (lru V)) :=
  if negb (0 <? capacity) || negb (0 <? max_probe) then Some None
  else if negb (alloc 0%nat) then Some None
  else
    let n := next_pow2_ge (u32 (2 * capacity)) in
    let self := Lru [] capacity 0 (Index [] n (u32 (n - 1)) max_probe 0)
                  (Link Null Null) (Link Null Null) zero_counters [] in
    self ← list_init self Order;
    self ← list_init self Free;
    if negb (alloc 1%nat) then r ← lru_destroy self; Some None
    else
      let self := with_slots self (replicate (Z.to_nat capacity) zero_entry) in
      if negb (alloc 2%nat) then r ← lru_destroy self; Some None
      else
        let self := with_index self (with_cells (index self) (replicate (Z.to_nat n) LRU_NIL)) in
        self ← seed_freelist (Z.to_nat capacity) self 0;
        Some (Some self).

(** ** Lookup *)

Definition add_hit (c : lru_counters) : lru_counters :=
  Counters (u64 (hits c + 1)) (misses c) (insertions c) (evictions c) (replacements c) (put_failures c).
Definition add_miss (c : lru_counters) : lru_counters :=
  Counters (hits c) (u64 (misses c + 1)) (insertions c) (evictions c) (replacements c) (put_failures c).
Definition add_replacement (c : lru_counters) : lru_counters :=
  Counters (hits c) (misses c) (insertions c) (evictions c) (u64 (replacements c + 1)) (put_failures c).
Definition add_insertion (c : lru_counters) : lru_counters :=
  Counters (hits c) (misses c) (u64 (insertions c + 1)) (evictions c) (replacements c) (put_failures c).

(** The entry, by its slot; [LRU_NIL] for [NULL]. *)
Definition lru_get self (hash : Z) (key : K) : option (Z * lru V) :=
  cell ← index_lookup self hash key;
  if cell =? LRU_NIL then Some (LRU_NIL, with_counters self (add_miss (counters self)))
  else
    i ← aget (cells (index self)) cell;
    self ← list_promote self Order (Slot i);
    Some (i, with_counters self (add_hit (counters self))).

Definition lru_peek self (hash : Z) (key : K) : option Z :=
  cell ← index_lookup self hash key;
  if cell =? LRU_NIL then Some LRU_NIL else aget (cells (index self)) cell.

(** ** Insertion *)

(** [destroy(value)] and [put_failures]. *)
Definition put_fail self (v : V) : lru V :=
  ops_destroy (with_counters self (add_failure (counters self))) (Some v).

Definition put_replace self (i : Z) (v : V) : option (Z * lru V) :=
  e ← aget (slots self) i;
  if pinned e then Some (LRU_NIL, put_fail self v)
  else
    s ← aset (slots self) i (Entry (e_hash e) (Some v) (refcount e) (link e));
    self ← list_promote (with_slots self s) Order (Slot i);
    let self := with_counters self (add_replacement (counters self)) in
    Some (i, ops_destroy self (value e)).

(** The slot, or [LRU_NIL] when every live entry is pinned. *)
Fixpoint put_alloc (fuel : nat) self : option (Z * lru V) :=
  r ← freelist_pop self;
  if negb (fst r =? LRU_NIL) then Some r
  else
    match fuel with
    | O => None
    | S fuel =>
        r ← evict_lru_tail (snd r);
        if (fst r : bool) then put_alloc fuel (snd r) else Some (LRU_NIL, snd r)
    end.

(** The insert loop; [true] when slot [i] is in the index. *)
Fixpoint put_index (fuel : nat) self (i : Z) : option (bool * lru V) :=
  r ← index_insert_robin self i;
  let '(orphan, self) := r in
  if orphan =? LRU_NIL then Some (true, self)
  else if orphan =? i then
    match fuel with
    | O => None
    | S fuel =>
        r ← evict_lru_tail self;
        if (fst r : bool) then put_index fuel (snd r) i
        else
          let self := snd r in
          e ← aget (slots self) i;
          self ← slot_clear self i;
          self ← freelist_push self i;
          let self := with_counters self (add_failure (counters self)) in
          Some (false, ops_destroy self (value e))
    end
  else self ← drop_slot self orphan; Some (true, self).

Definition lru_put self (hash : Z) (key : K) (v : V) : option (Z * lru V) :=
  cell ← index_lookup self hash key;
  if negb (cell =? LRU_NIL) then
    i ← aget (cells (index self)) cell;
    put_replace self i v
  else
    r ← put_alloc 1 self;
    let '(i, self) := r in
    if i =? LRU_NIL then Some (LRU_NIL, put_fail self v)
    else
      e ← aget (slots self) i;
      s ← aset (slots self) i (Entry hash (Some v) 0 (link e));
      r ← put_index (Z.to_nat (capacity self)) (with_slots self s) i;
      let '(placed, self) := r in
      if (placed : bool) then
        self ← list_push_front self Order (Slot i);
        let self := with_size self (u32 (size self + 1)) in
        Some (i, with_counters self (add_insertion (counters self)))
      else Some (LRU_NIL, self).

(** ** Entries *)

Definition lru_entry_value self (i : Z) : option (option V) :=
  e ← aget (slots self) i; Some (value e).

Definition set_refcount self (i n : Z) : option (lru V) :=
  e ← aget (slots self) i;
  s ← aset (slots self) i (Entry (e_hash e) (value e) n (link e));
  Some (with_slots self s).

Definition lru_entry_acquire_locked self (i : Z) : option (lru V) :=
  e ← aget (slots self) i; set_refcount self i (u32 (refcount e + 1)).

(** One successful compare-and-swap; a release of an unpinned entry is dropped. *)
Definition lru_entry_release self (i : Z) : option (lru V) :=
  e ← aget (slots self) i;
  if refcount e =? 0 then Some self else set_refcount self i (u32 (refcount e - 1)).

Record lru_stats := Stats {
  st_counters : lru_counters; st_size : Z; st_capacity : Z; st_pinned : Z; st_max_probe_observed : Z }.

Definition lru_stats_get self : option lru_stats :=
  n ← order_fold self count_pinned 0;
  Some (Stats (counters self) (size self) (capacity self) n (max_probe_observed (index self))).
End ops.
