(* ===== verification/LruLists.v ===== *)
(** * The linked lists of the cache

    The circular lists of [src/src/util/lru.c] as lists of slot numbers: what
    [list_unlink], [list_push_front] and [list_promote] do to the list they work
    on, and that they leave the other list and the data of the slots alone. *)

From S2P Require Import Prelude Hash Lru.

#[local] Open Scope Z_scope.

Section lists.
Context {V : Type}.
Implicit Types (self : lru V) (n m p q s : node).

(** ** Data and links *)

Definition data (e : lru_entry V) : Z * option V * Z := (e_hash e, value e, refcount e).

(** Equal up to the links. *)
Record same_data self self' : Prop := {
  sd_slots : data <$> slots self' = data <$> slots self;
  sd_capacity : capacity self' = capacity self;
  sd_size : size self' = size self;
  sd_index : index self' = index self;
  sd_counters : counters self' = counters self;
  sd_destroyed : destroyed self' = destroyed self }.

#[export] Instance same_data_preorder : PreOrder same_data.
Proof.
  split; [by constructor|]. intros a b c [H1 H2 H3 H4 H5 H6] [J1 J2 J3 J4 J5 J6].
  constructor; congruence.
Qed.

Lemma same_data_length self self' : same_data self self' -> length (slots self') = length (slots self).
Proof. intros [H%(f_equal length) _ _ _ _ _]. by rewrite !length_fmap in H. Qed.

Lemma same_data_aget self self' i e :
  same_data self self' -> aget (slots self) i = Some e ->
  exists e', aget (slots self') i = Some e' /\ data e' = data e.
Proof.
  intros [H _ _ _ _ _] [Hi He]%aget_lookup. apply (f_equal (fun l => l !! Z.to_nat i)) in H.
  rewrite !list_lookup_fmap, He in H. cbn in H. destruct (slots self' !! Z.to_nat i) as [e'|] eqn:E; [|done].
  exists e'. split; [by apply aget_lookup|]. cbn in H. congruence.
Qed.

Definition nx self n : option node := l ← get_link self n; Some (next l).
Definition pv self n : option node := l ← get_link self n; Some (prev l).

Lemma nx_pv_link self n a b : nx self n = Some a -> pv self n = Some b -> get_link self n = Some (Link b a).
Proof. unfold nx, pv. destruct (get_link self n) as [[]|]; cbn; congruence. Qed.

Lemma set_link_spec self n l l0 :
  get_link self n = Some l0 ->
  exists self', set_link self n l = Some self' /\ same_data self self' /\
    forall m, get_link self' m = if decide (n = m) then Some l else get_link self m.
Proof.
  destruct n as [| | |i]; cbn; intros Hl; try done.
  - eexists. split; [done|]. split; [done|]. intros []; by case_decide.
  - eexists. split; [done|]. split; [done|]. intros []; by case_decide.
  - destruct (aget (slots self) i) as [e|] eqn:E; [|done]. cbn [mbind option_bind].
    rewrite aset_range by (by eapply aget_Some_range). cbn [mbind option_bind].
    eexists. split; [done|]. apply aget_lookup in E as E'. split.
    + constructor; try done. cbn. rewrite list_fmap_insert. apply list_insert_id.
      rewrite list_lookup_fmap, (proj2 E'). done.
    + intros [| | |j]; cbn; try by rewrite decide_False.
      rewrite (aget_aset (slots self) i _ _ j) by (apply aset_range; by eapply aget_Some_range).
      repeat case_decide; simplify_eq; try done.
Qed.

Lemma set_next_spec self n m a :
  nx self n = Some a ->
  exists self', set_next self n m = Some self' /\ same_data self self' /\
    (forall k, nx self' k = if decide (n = k) then Some m else nx self k) /\
    (forall k, pv self' k = pv self k).
Proof.
  unfold nx, pv, set_next. destruct (get_link self n) as [l|] eqn:E; [|done]. intros _.
  destruct (set_link_spec self n (Link (prev l) m) l E) as (self' & Hs & Hd & Hl).
  exists self'. split; [exact Hs|]. split; [done|]. split; intros k; rewrite Hl; case_decide as Ek; try done.
  subst k. by rewrite E.
Qed.

Lemma set_prev_spec self n m a :
  pv self n = Some a ->
  exists self', set_prev self n m = Some self' /\ same_data self self' /\
    (forall k, pv self' k = if decide (n = k) then Some m else pv self k) /\
    (forall k, nx self' k = nx self k).
Proof.
  unfold nx, pv, set_prev. destruct (get_link self n) as [l|] eqn:E; [|done]. intros _.
  destruct (set_link_spec self n (Link m (next l)) l E) as (self' & Hs & Hd & Hl).
  exists self'. split; [exact Hs|]. split; [done|]. split; intros k; rewrite Hl; case_decide as Ek; try done.
  subst k. by rewrite E.
Qed.

Lemma list_unlink_links self n p q a b :
  nx self n = Some q -> pv self n = Some p -> nx self p = Some a -> pv self q = Some b ->
  p <> n -> q <> n ->
  exists self', list_unlink self n = Some self' /\ same_data self self' /\
    (forall k, nx self' k = if decide (n = k) then Some n else if decide (p = k) then Some q else nx self k) /\
    (forall k, pv self' k = if decide (n = k) then Some n else if decide (q = k) then Some p else pv self k).
Proof.
  intros Hn Hp Hpn Hqp Hpne Hqne. unfold list_unlink. rewrite (nx_pv_link _ _ _ _ Hn Hp). cbn [mbind option_bind prev next].
  destruct (set_next_spec self p q a Hpn) as (s1 & -> & Hd1 & Hx1 & Hv1). cbn [mbind option_bind].
  assert (get_link s1 n = Some (Link p q)) as ->.
  { apply nx_pv_link; [by rewrite Hx1, decide_False|by rewrite Hv1]. }
  cbn [mbind option_bind prev next].
  destruct (set_prev_spec s1 q p b) as (s2 & -> & Hd2 & Hv2 & Hx2); [by rewrite Hv1|]. cbn [mbind option_bind].
  destruct (set_link_spec s2 n (Link n n) (Link p q)) as (s3 & -> & Hd3 & Hl3).
  { apply nx_pv_link; [by rewrite Hx2, Hx1, decide_False|by rewrite Hv2, decide_False, Hv1]. }
  exists s3. split; [done|]. split; [by do 2 (etrans; [done|])|].
  unfold nx, pv in *. split; intros k; rewrite Hl3; case_decide; try done.
  - by rewrite Hx2, Hx1.
  - by rewrite Hv2, Hv1.
Qed.

Lemma list_push_links self s n q a b c :
  nx self s = Some q -> pv self q = Some a -> nx self n = Some b -> pv self n = Some c -> s <> n -> q <> n ->
  exists self', list_push_front self s n = Some self' /\ same_data self self' /\
    (forall k, nx self' k = if decide (s = k) then Some n else if decide (n = k) then Some q else nx self k) /\
    (forall k, pv self' k = if decide (q = k) then Some n else if decide (n = k) then Some s else pv self k).
Proof.
  intros Hs Hq Hnx Hnp Hsn Hqn. unfold list_push_front.
  destruct (set_prev_spec self n s c Hnp) as (s1 & -> & Hd1 & Hv1 & Hx1). cbn [mbind option_bind].
  assert (forall t, nx t s = Some q -> exists l, get_link t s = Some l /\ next l = q) as Hget.
  { intros t. unfold nx. destruct (get_link t s) as [l|]; cbn; [|done]. intros [= <-]. eauto. }
  destruct (Hget s1) as (l & -> & Hl); [by rewrite Hx1|]. cbn [mbind option_bind]. rewrite Hl.
  destruct (set_next_spec s1 n q b) as (s2 & -> & Hd2 & Hx2 & Hv2); [by rewrite Hx1|]. cbn [mbind option_bind].
  destruct (Hget s2) as (l2 & -> & Hl2); [by rewrite Hx2, decide_False, Hx1|]. cbn [mbind option_bind]. rewrite Hl2.
  destruct (set_prev_spec s2 q n a) as (s3 & -> & Hd3 & Hv3 & Hx3); [by rewrite Hv2, Hv1, decide_False|]. cbn [mbind option_bind].
  destruct (set_next_spec s3 s n q) as (s4 & -> & Hd4 & Hx4 & Hv4); [by rewrite Hx3, Hx2, decide_False, Hx1|].
  exists s4. split; [done|]. split; [by do 3 (etrans; [done|])|]. split; intros k.
  - by rewrite Hx4, Hx3, Hx2, Hx1.
  - by rewrite Hv4, Hv3, Hv2, Hv1.
Qed.

(** ** Segments *)

(** From [x] through [l] to [y], forwards and backwards. *)
Fixpoint linked self n (l : list node) m : Prop :=
  match l with
  | [] => nx self n = Some m /\ pv self m = Some n
  | k :: l => nx self n = Some k /\ pv self k = Some n /\ linked self k l m
  end.

Lemma linked_app self n l1 k l2 m : linked self n (l1 ++ k :: l2) m <-> linked self n l1 k /\ linked self k l2 m.
Proof. revert n. induction l1 as [|x l1 IH]; intros n; cbn; [tauto|]. rewrite IH. tauto. Qed.

Lemma linked_frame self self' n l m :
  linked self n l m ->
  (forall k, k ∈ n :: l -> nx self' k = nx self k) ->
  (forall k, k ∈ l ++ [m] -> pv self' k = pv self k) -> linked self' n l m.
Proof.
  revert n. induction l as [|x l IH]; intros n; cbn.
  - intros [H1 H2] Hx Hv. rewrite Hx, Hv by set_solver. done.
  - intros (H1 & H2 & H3) Hx Hv. rewrite Hx, (Hv x) by set_solver. split_and!; [done|done|].
    apply IH; [done| |]; intros k Hk; [apply Hx|apply Hv]; set_solver.
Qed.

Lemma linked_last self n l m :
  linked self n l m -> exists p, pv self m = Some p /\ p ∈ n :: l /\ nx self p = Some m.
Proof.
  revert n. induction l as [|x l IH]; intros n; cbn.
  - intros [H1 H2]. exists n. set_solver.
  - intros (H1 & H2 & H3). destruct (IH _ H3) as (p & ? & ? & ?). exists p. set_solver.
Qed.

Lemma linked_first self n l m :
  linked self n l m -> exists q, nx self n = Some q /\ q ∈ l ++ [m] /\ pv self q = Some n.
Proof. destruct l as [|x l]; cbn; intros H; eexists; split_and!; try apply H; set_solver. Qed.

(** The last link turned to another node. *)
Lemma linked_redirect self self' n l m p q :
  linked self n l m -> pv self m = Some p -> NoDup (n :: l) ->
  (forall k, k <> p -> k ∈ n :: l -> nx self' k = nx self k) -> nx self' p = Some q ->
  (forall k, k ∈ l -> pv self' k = pv self k) -> pv self' q = Some p ->
  linked self' n l q.
Proof.
  revert n. induction l as [|x l IH]; intros n; cbn [linked].
  - intros [H1 H2] Hp _ _ Hq _ Hv. assert (p = n) as -> by congruence. done.
  - intros (H1 & H2 & H3) Hp [Hnd1 Hnd2]%NoDup_cons Hx Hq Hv Hvq.
    destruct (linked_last _ _ _ _ H3) as (p' & Hp' & Hin & _). assert (p' = p) as -> by congruence.
    rewrite Hx, Hv by set_solver. split_and!; [done|done|].
    apply IH; try done; intros k; [|set_solver]. intros ? ?. apply Hx; set_solver.
Qed.

(** The first link turned to come from another node. *)
Lemma linked_reroot self self' n l m n' q :
  linked self n l m -> nx self n = Some q -> NoDup l -> m ∉ l -> n' ∉ l ->
  nx self' n' = Some q -> pv self' q = Some n' ->
  (forall k, k ∈ l -> nx self' k = nx self k) ->
  (forall k, k <> q -> k ∈ l ++ [m] -> pv self' k = pv self k) ->
  linked self' n' l m.
Proof.
  destruct l as [|x l]; cbn [linked].
  - intros [H1 H2] Hq _ _ _ Hn Hp Hx Hv. assert (q = m) as -> by congruence. done.
  - intros (H1 & H2 & H3) Hq [Hnd1 Hnd2]%NoDup_cons Hm Hn' Hn Hp Hx Hv.
    assert (q = x) as -> by congruence. split_and!; [done|done|].
    eapply linked_frame; [done| |]; intros k Hk; [apply Hx|apply Hv]; set_solver.
Qed.

(** ** Rings *)

(** Decide node equalities by membership. *)
Ltac off_list :=
  repeat case_decide; subst; try done; exfalso;
  repeat match goal with
  | H : _ ∈ _ :: _ |- _ => apply elem_of_cons in H
  | H : _ ∈ _ ++ _ |- _ => apply elem_of_app in H
  | H : _ ∈ [_] |- _ => apply list_elem_of_singleton in H
  | H : _ ∉ _ :: _ |- _ => apply not_elem_of_cons in H
  | H : _ ∈ [] |- _ => by apply not_elem_of_nil in H
  | H : _ \/ _ |- _ => destruct H
  | H : _ /\ _ |- _ => destruct H
  end; subst; try done; first [solve [eauto 3 using list_elem_of_here, list_elem_of_further] | set_solver].

(** The circular list anchored at [s] holds [l]. *)
Definition ring self s (l : list Z) : Prop := linked self s (Slot <$> l) s.

(** The two lists: disjoint, within the slots. *)
Record rings self (O F : list Z) : Prop := {
  r_order : ring self Order O;
  r_free : ring self Free F;
  r_nodup : NoDup (O ++ F) }.

Lemma Slot_nodup (l : list Z) : NoDup l -> NoDup (Slot <$> l).
Proof. apply NoDup_fmap_2. by intros ?? [= ->]. Qed.

Lemma elem_of_Slot i (l : list Z) : Slot i ∈ Slot <$> l <-> i ∈ l.
Proof. rewrite list_elem_of_fmap. split; [intros (? & [= ->] & ?); done|eauto]. Qed.

Lemma Slot_ne s (l : list Z) : (forall i, s <> Slot i) -> s ∉ Slot <$> l.
Proof. intros Hs (i & -> & _)%list_elem_of_fmap. by apply (Hs i). Qed.

Lemma nodup_split {A} (l1 : list A) x l2 l' :
  NoDup ((l1 ++ x :: l2) ++ l') ->
  x ∉ l1 /\ x ∉ l2 /\ x ∉ l' /\ NoDup l1 /\ NoDup l2 /\
  (forall k, k ∈ l1 -> k ∉ l2) /\ (forall k, k ∈ l1 -> k ∉ l') /\ (forall k, k ∈ l2 -> k ∉ l').
Proof.
  intros [(Hn1 & Hn2 & [Hx Hn3]%NoDup_cons)%NoDup_app [Hd Hn4]]%NoDup_app.
  split_and!; try done.
  - intros H. apply (Hn2 x H). left.
  - apply Hd. apply elem_of_app. right. left.
  - intros k Hk H. apply (Hn2 k Hk). by right.
  - intros k Hk. apply Hd, elem_of_app. by left.
  - intros k Hk. apply Hd, elem_of_app. right. by right.
Qed.

Lemma NoDup_app_remove_mid {A} (l1 : list A) x l2 : NoDup (l1 ++ x :: l2) -> NoDup (l1 ++ l2).
Proof. rewrite <-Permutation_middle. by intros [_ ?]%NoDup_cons. Qed.

Lemma ring_unlink self s s' l1 i l2 l' :
  ring self s (l1 ++ i :: l2) -> ring self s' l' -> NoDup ((l1 ++ i :: l2) ++ l') ->
  (forall i, s <> Slot i) -> (forall i, s' <> Slot i) -> s <> s' ->
  exists self', list_unlink self (Slot i) = Some self' /\ same_data self self' /\
    ring self' s (l1 ++ l2) /\ ring self' s' l'.
Proof.
  intros Hr Hr' Hnd Hs Hs' Hss. unfold ring in Hr. rewrite fmap_app, fmap_cons in Hr.
  apply linked_app in Hr as [Hl Hl2].
  destruct (linked_last _ _ _ _ Hl) as (p & Hp & Hpin & Hpn).
  destruct (linked_first _ _ _ _ Hl2) as (q & Hq & Hqin & Hqp).
  assert (NoDup (Slot <$> (l1 ++ i :: l2) ++ l')) as Hnd' by (by apply Slot_nodup).
  rewrite !fmap_app, fmap_cons in Hnd'.
  destruct (nodup_split _ _ _ _ Hnd') as (N1 & N2 & N3 & N4 & N5 & N6 & N7 & N8).
  pose proof (Slot_ne s l1 Hs) as S1. pose proof (Slot_ne s l2 Hs) as S2. pose proof (Slot_ne s l' Hs) as S3.
  pose proof (Slot_ne s' l1 Hs') as T1. pose proof (Slot_ne s' l2 Hs') as T2. pose proof (Slot_ne s' l' Hs') as T3.
  pose proof (Hs i) as Hsi. pose proof (Hs' i) as Hsi'.
  destruct (list_unlink_links self (Slot i) p q (Slot i) (Slot i)) as (self' & Hu & Hd & Hx & Hv);
    try done; [set_solver..|].
  exists self'. split; [done|]. split; [done|]. split.
  - unfold ring. rewrite fmap_app. destruct l2 as [|z l2].
    + cbn [linked fmap list_fmap] in Hl2. rewrite app_nil_r. assert (q = s) as -> by (destruct Hl2; congruence).
      eapply (linked_redirect self self' s _ (Slot i) p); try done; [apply NoDup_cons; set_solver|..].
      * intros k Hk Hin. rewrite Hx. off_list.
      * rewrite Hx. off_list.
      * intros k Hin. rewrite Hv. off_list.
      * rewrite Hv. off_list.
    + rewrite fmap_cons in *. cbn [linked] in Hl2. destruct Hl2 as (Hz1 & Hz2 & Hz3). assert (q = Slot z) as -> by congruence.
      apply NoDup_cons in N5 as [N5 N5'].
      apply linked_app. split.
      * eapply (linked_redirect self self' s _ (Slot i) p); try done; [apply NoDup_cons; set_solver|..].
        -- intros k Hk Hin. rewrite Hx. off_list.
        -- rewrite Hx. off_list.
        -- intros k Hin. rewrite Hv. off_list.
        -- rewrite Hv. off_list.
      * eapply linked_frame; [done|..]; intros k Hk; rewrite ?Hx, ?Hv; off_list.
  - eapply linked_frame; [done|..]; intros k Hk; rewrite ?Hx, ?Hv; off_list.
Qed.

Lemma ring_push self s s' i l l' :
  ring self s l -> ring self s' l' -> NoDup (i :: l ++ l') -> 0 <= i < zlen (slots self) ->
  (forall i, s <> Slot i) -> (forall i, s' <> Slot i) -> s <> s' ->
  exists self', list_push_front self s (Slot i) = Some self' /\ same_data self self' /\
    ring self' s (i :: l) /\ ring self' s' l'.
Proof.
  intros Hr Hr' Hnd Hi Hs Hs' Hss. unfold ring in Hr.
  destruct (linked_first _ _ _ _ Hr) as (q & Hq & Hqin & Hqp).
  assert (NoDup (Slot <$> i :: l ++ l')) as Hnd' by (by apply Slot_nodup).
  rewrite fmap_cons, !fmap_app in Hnd'.
  destruct (nodup_split [] (Slot i) _ _ Hnd') as (_ & N1 & N2 & _ & N3 & _ & _ & N4).
  pose proof (Slot_ne s l Hs) as S1. pose proof (Slot_ne s l' Hs) as S2.
  pose proof (Slot_ne s' l Hs') as T1. pose proof (Slot_ne s' l' Hs') as T2.
  pose proof (Hs i) as Hsi. pose proof (Hs' i) as Hsi'.
  destruct (aget_is_Some (slots self) i Hi) as [e He].
  destruct (list_push_links self s (Slot i) q s (next (link e)) (prev (link e))) as (self' & Hu & Hd & Hx & Hv);
    try done; [unfold nx; cbn; by rewrite He|unfold pv; cbn; by rewrite He|set_solver..|].
  exists self'. split; [done|]. split; [done|]. split.
  - unfold ring. rewrite fmap_cons. cbn [linked]. split_and!.
    + rewrite Hx. off_list.
    + rewrite Hv. off_list.
    + eapply (linked_reroot self self' s _ s (Slot i) q); try done.
      * rewrite Hx. off_list.
      * rewrite Hv. off_list.
      * intros k Hk. rewrite Hx. off_list.
      * intros k Hk Hk2. rewrite Hv. off_list.
  - eapply linked_frame; [done|..]; intros k Hk; rewrite ?Hx, ?Hv; off_list.
Qed.

(** ** Both lists *)

Lemma Order_ne i : Order <> Slot i.
Proof. done. Qed.
Lemma Free_ne i : Free <> Slot i.
Proof. done. Qed.

Lemma rings_unlink_order self l1 i l2 F :
  rings self (l1 ++ i :: l2) F ->
  exists self', list_unlink self (Slot i) = Some self' /\ same_data self self' /\ rings self' (l1 ++ l2) F.
Proof.
  intros [HO HF Hnd].
  destruct (ring_unlink self Order Free l1 i l2 F) as (self' & Hu & Hd & HO' & HF'); try done.
  exists self'. split_and!; try done. constructor; try done.
  rewrite <-app_assoc in *. by apply NoDup_app_remove_mid in Hnd.
Qed.

Lemma rings_pop_free self O i F :
  rings self O (i :: F) ->
  exists self', list_unlink self (Slot i) = Some self' /\ same_data self self' /\ rings self' O F.
Proof.
  intros [HO HF Hnd].
  destruct (ring_unlink self Free Order [] i F O) as (self' & Hu & Hd & HF' & HO'); try done.
  { cbn. by rewrite app_comm_cons, Permutation_app_comm. }
  exists self'. split_and!; try done. constructor; try done. by apply NoDup_app_remove_mid in Hnd.
Qed.

Lemma rings_push_order self i O F :
  rings self O F -> i ∉ O ++ F -> 0 <= i < zlen (slots self) ->
  exists self', list_push_front self Order (Slot i) = Some self' /\ same_data self self' /\ rings self' (i :: O) F.
Proof.
  intros [HO HF Hnd] Hi Hr.
  destruct (ring_push self Order Free i O F) as (self' & Hu & Hd & HO' & HF'); try done; [by constructor|].
  exists self'. split_and!; try done. constructor; try done. by constructor.
Qed.

Lemma rings_push_free self i O F :
  rings self O F -> i ∉ O ++ F -> 0 <= i < zlen (slots self) ->
  exists self', list_push_front self Free (Slot i) = Some self' /\ same_data self self' /\ rings self' O (i :: F).
Proof.
  intros [HO HF Hnd] Hi Hr.
  destruct (ring_push self Free Order i F O) as (self' & Hu & Hd & HF' & HO'); try done.
  { constructor; [by rewrite Permutation_app_comm|by rewrite Permutation_app_comm]. }
  exists self'. split_and!; try done. constructor; try done. rewrite <-Permutation_middle. by constructor.
Qed.

Lemma rings_promote self l1 i l2 F :
  rings self (l1 ++ i :: l2) F -> 0 <= i < zlen (slots self) ->
  exists self', list_promote self Order (Slot i) = Some self' /\ same_data self self' /\ rings self' (i :: l1 ++ l2) F.
Proof.
  intros HR Hi. pose proof HR as [HO HF Hnd]. unfold list_promote. unfold ring in HO.
  destruct (linked_first _ _ _ _ HO) as (q & Hq & _ & _).
  unfold nx in Hq. cbn [get_link mbind option_bind] in *. injection Hq as Hq. case_decide as E.
  - exists self. split_and!; try done. destruct l1 as [|x l1]; [done|]. exfalso.
    cbn in HO. destruct HO as [[= Hx] _]. rewrite E in Hx. injection Hx as ->.
    cbn in Hnd. apply NoDup_cons in Hnd as [Hnd _]. set_solver.
  - destruct (rings_unlink_order self l1 i l2 F HR) as (s1 & -> & Hd1 & HR1). cbn [mbind option_bind].
    destruct (rings_push_order s1 i (l1 ++ l2) F HR1) as (s2 & -> & Hd2 & HR2).
    + rewrite <-app_assoc in *. rewrite <-app_comm_cons, <-Permutation_middle in Hnd. by apply NoDup_cons in Hnd as [? _].
    + by rewrite (same_data_length _ _ Hd1).
    + exists s2. split_and!; try done. by etrans.
Qed.

(** Where the list starts and ends, and the steps between. *)
Lemma rings_first self O F : rings self O F -> next (lru_order self) = default Order (head (Slot <$> O)).
Proof. intros [HO _ _]. destruct O as [|i O]; destruct HO as [[= H] _]; done. Qed.

Lemma rings_last self O F : rings self O F -> prev (lru_order self) = default Order (last (Slot <$> O)).
Proof.
  intros [HO _ _]. unfold ring in HO. induction O as [|i O _] using rev_ind.
  - destruct HO as [_ [= H]]. done.
  - rewrite fmap_app in *. cbn in HO |- *. apply linked_app in HO as [_ [_ [= H]]]. rewrite H.
    by rewrite last_snoc.
Qed.

Lemma rings_slot self l1 i l2 F e :
  rings self (l1 ++ i :: l2) F -> aget (slots self) i = Some e ->
  next (link e) = default Order (head (Slot <$> l2)) /\ prev (link e) = default Order (last (Slot <$> l1)).
Proof.
  intros [HO _ _] He. unfold ring in HO. rewrite fmap_app, fmap_cons in HO. apply linked_app in HO as [H1 H2].
  assert (nx self (Slot i) = Some (next (link e))) as Hn by (unfold nx; cbn; by rewrite He).
  assert (pv self (Slot i) = Some (prev (link e))) as Hp by (unfold pv; cbn; by rewrite He).
  split.
  - destruct l2 as [|j l2]; cbn [linked fmap list_fmap] in H2; destruct H2 as [H2 _]; cbn; congruence.
  - induction l1 as [|j l1 _] using rev_ind.
    + destruct H1 as [_ H1]. cbn. congruence.
    + rewrite fmap_app in H1. apply linked_app in H1 as [_ [_ H1]].
      rewrite fmap_app. cbn. rewrite last_snoc. cbn. congruence.
Qed.
End lists.
