(* ===== verification/LruIndex.v ===== *)
(** * The robin-hood index of the cache

    The cells of [src/src/util/lru.c] hold each live slot once, within
    [max_probe] cells of its ideal cell. Insertion and backshift deletion keep
    that, end because some cell is empty, and never move a pinned slot. *)

From S2P Require Import Prelude Hash Lru.

#[local] Open Scope Z_scope.

Section index.
Context {V : Type}.
Implicit Types (sl : list (lru_entry V)) (ix : lru_index) (L : list Z).

(** The slots in the cells. *)
Definition live (cells : list Z) : list Z := filter (fun x => x <> LRU_NIL) cells.

Lemma elem_of_live cells i : i ∈ live cells <-> i <> LRU_NIL /\ exists c, aget cells c = Some i.
Proof. unfold live. by rewrite list_elem_of_filter, elem_of_aget. Qed.

Lemma aset_swap {A} (l : list A) c x y l' :
  aget l c = Some x -> aset l c y = Some l' -> x :: l' ≡ₚ y :: l.
Proof.
  intros [_ Hx]%aget_lookup [_ ->]%aset_Some.
  rewrite insert_take_drop by (by eapply lookup_lt_Some).
  rewrite <-(take_drop_middle l _ _ Hx) at 3. rewrite <-!Permutation_middle. apply perm_swap.
Qed.

Lemma live_fill cells c x cells' :
  aget cells c = Some LRU_NIL -> x <> LRU_NIL -> aset cells c x = Some cells' ->
  live cells' ≡ₚ x :: live cells.
Proof.
  intros Hc Hx Hs. pose proof (aset_swap _ _ _ _ _ Hc Hs) as Hp. unfold live.
  apply (filter_Permutation (fun x => x <> LRU_NIL)) in Hp.
  rewrite filter_cons_False, (filter_cons_True _ x) in Hp by auto. done.
Qed.

Lemma live_swap cells c y x cells' :
  aget cells c = Some y -> y <> LRU_NIL -> x <> LRU_NIL -> aset cells c x = Some cells' ->
  y :: live cells' ≡ₚ x :: live cells.
Proof.
  intros Hc Hy Hx Hs. pose proof (aset_swap _ _ _ _ _ Hc Hs) as Hp. unfold live.
  apply (filter_Permutation (fun x => x <> LRU_NIL)) in Hp. by rewrite !filter_cons_True in Hp.
Qed.

Lemma live_clear cells c y cells' :
  aget cells c = Some y -> y <> LRU_NIL -> aset cells c LRU_NIL = Some cells' ->
  y :: live cells' ≡ₚ live cells.
Proof.
  intros Hc Hy Hs. pose proof (aset_swap _ _ _ _ _ Hc Hs) as Hp. unfold live.
  apply (filter_Permutation (fun x => x <> LRU_NIL)) in Hp.
  rewrite filter_cons_True, (filter_cons_False _ LRU_NIL) in Hp by auto. done.
Qed.

(** Fewer slots than cells: an empty cell. *)
Lemma empty_cell cells : zlen (live cells) < zlen cells -> exists c, aget cells c = Some LRU_NIL.
Proof.
  intros H. destruct (decide (LRU_NIL ∈ cells)) as [Hin|Hout]; [by apply elem_of_aget|].
  exfalso. assert (live cells = cells) as E; [|rewrite E in H; lia].
  unfold live. clear H. induction cells as [|x l IH]; [done|].
  rewrite filter_cons_True by set_solver. rewrite IH; [done|set_solver].
Qed.

(** ** The invariant *)

(** [ideal] of a slot's hash, and how far a slot may be from it. *)
Definition at_dist sl ix (c i d : Z) : Prop :=
  exists e, aget sl i = Some e /\ d = probe_dist ix c (ideal_cell ix (e_hash e)).

Record index_shape ix : Prop := {
  ix_pow2 : is_pow2 (n_cells ix);
  ix_mask : mask ix = n_cells ix - 1;
  ix_len : zlen (cells ix) = n_cells ix;
  ix_small : n_cells ix < 2 ^ 32;
  ix_probe : 0 < max_probe ix < UINT32_MAX }.

Definition near sl ix : Prop :=
  forall c i, aget (cells ix) c = Some i -> i <> LRU_NIL -> exists d, at_dist sl ix c i d /\ d <= max_probe ix.

Record index_ok sl ix L : Prop := {
  ix_shape : index_shape ix;
  ix_near : near sl ix;
  ix_live : live (cells ix) ≡ₚ L }.

(** Pinned slots keep their cells. *)
Definition unmoved sl (cells cells' : list Z) : Prop :=
  forall c i e, aget cells c = Some i -> i <> LRU_NIL -> aget sl i = Some e -> pinned e = true ->
    aget cells' c = Some i.

#[export] Instance unmoved_preorder sl : PreOrder (unmoved sl).
Proof.
  split; [by intros ??|]. intros a b c H1 H2 p i e Hp Hi He Hpin. eapply H2; try done. by eapply H1.
Qed.

Lemma unmoved_set sl cells c x cells' :
  aset cells c x = Some cells' ->
  (forall i, aget cells c = Some i -> i <> LRU_NIL -> exists e, aget sl i = Some e /\ pinned e = false) ->
  unmoved sl cells cells'.
Proof.
  intros Hs Hc p i e Hp Hi He Hpin. rewrite (aget_aset _ _ _ _ _ Hs). case_decide as E; [|done].
  subst p. destruct (Hc i Hp Hi) as (e' & He' & Hpin'). congruence.
Qed.

Lemma index_shape_cells ix c cells' x :
  index_shape ix -> aset (cells ix) c x = Some cells' -> index_shape (with_cells ix cells').
Proof. intros [] Hs. constructor; cbn; try done. by rewrite (length_aset _ _ _ _ Hs). Qed.

Lemma index_shape_observe ix p : index_shape ix -> index_shape (observe ix p).
Proof. intros []. by constructor. Qed.

(** Slot [i] may be written at a cell within reach. *)
Lemma near_set sl ix c i cells' :
  near sl ix -> aset (cells ix) c i = Some cells' ->
  (i <> LRU_NIL -> exists d, at_dist sl ix c i d /\ d <= max_probe ix) -> near sl (with_cells ix cells').
Proof.
  intros Hn Hs Hi p j. cbn. rewrite (aget_aset _ _ _ _ _ Hs). case_decide as E.
  - intros [= <-]. subst p. exact Hi.
  - apply Hn.
Qed.

Lemma index_ok_perm sl ix L L' : index_ok sl ix L -> L ≡ₚ L' -> index_ok sl ix L'.
Proof. intros [] Hp. constructor; try done. by etrans. Qed.

Lemma ideal_range ix h : index_shape ix -> 0 <= ideal_cell ix h < n_cells ix.
Proof.
  intros []. unfold ideal_cell. rewrite ix_mask0, land_mask by done. apply Z.mod_pos_bound. by apply pow2_pos.
Qed.

(** ** Insertion *)

Lemma observe_cells ix p : cells (observe ix p) = cells ix.
Proof. done. Qed.

Lemma insert_loop_spec sl fuel : forall ix carry cell probe k ec,
  index_shape ix -> near sl ix -> 0 <= cell < n_cells ix ->
  aget sl carry = Some ec -> carry <> LRU_NIL -> pinned ec = false ->
  probe = probe_dist ix cell (ideal_cell ix (e_hash ec)) ->
  0 <= k < Z.of_nat fuel -> probe + k < n_cells ix ->
  aget (cells ix) (walk (n_cells ix) cell k) = Some LRU_NIL ->
  exists r ix', insert_loop fuel sl ix carry cell probe = Some (r, ix') /\
    index_shape ix' /\ near sl ix' /\ unmoved sl (cells ix) (cells ix') /\
    n_cells ix' = n_cells ix /\ max_probe ix' = max_probe ix /\
    ((r = LRU_NIL /\ live (cells ix') ≡ₚ carry :: live (cells ix)) \/
     (r <> LRU_NIL /\ r :: live (cells ix') ≡ₚ carry :: live (cells ix) /\
      exists er, aget sl r = Some er /\ pinned er = false)).
Proof.
  induction fuel as [|fuel IH]; intros ix carry cell probe k ec Hsh Hnear Hcell Hec Hcn Hpin Hprobe Hk Hpk Hnil; [lia|].
  pose proof Hsh as [Hp2 Hmask Hlen Hsmall Hmp]. cbn [insert_loop].
  destruct (Z.ltb_spec (max_probe ix) probe) as [Hgt|Hle].
  { exists carry, ix. split_and!; try done. right. split_and!; try done. eauto. }
  destruct (aget_is_Some (cells ix) cell) as [inc Hinc]; [lia|]. rewrite Hinc. cbn [mbind option_bind].
  assert (0 <= probe) as Hp0 by (subst probe; unfold probe_dist; rewrite Hmask; by apply cell_dist_range).
  assert (exists d, at_dist sl ix cell carry d /\ d <= max_probe ix) as Hreach.
  { exists probe. split; [|done]. exists ec. done. }
  assert (forall x, exists cs, aset (cells ix) cell x = Some cs) as Hset.
  { intros x. eexists. apply aset_range. lia. }
  destruct (Z.eqb_spec inc LRU_NIL) as [->|Hinn].
  { destruct (Hset carry) as [cs Hcs]. rewrite Hcs. cbn [mbind option_bind].
    eexists LRU_NIL, _. split; [done|]. rewrite observe_cells. split_and!; try done.
    - by eapply index_shape_observe, index_shape_cells.
    - by eapply near_set.
    - eapply unmoved_set; [done|]. intros i Hi ?. congruence.
    - left. split; [done|]. by eapply live_fill. }
  destruct (Hnear cell inc Hinc Hinn) as (d & (ei & Hei & Hd) & Hdm). rewrite Hei. cbn [mbind option_bind].
  rewrite <-Hd.
  assert (0 < k) as Hk0.
  { destruct (decide (k = 0)) as [->|]; [|lia]. rewrite walk_0 in Hnil by done. congruence. }
  assert (0 <= d < n_cells ix) as Hd0.
  { subst d. unfold probe_dist. rewrite Hmask. by apply cell_dist_range. }
  assert (cell_next (mask ix) cell = walk (n_cells ix) cell 1) as Hnext by (rewrite Hmask; by apply cell_next_walk).
  assert (0 <= walk (n_cells ix) cell 1 < n_cells ix) as Hnr by (by apply walk_range).
  assert (forall h, probe_dist ix cell (ideal_cell ix h) < n_cells ix - 1 ->
    probe_dist ix (walk (n_cells ix) cell 1) (ideal_cell ix h) = probe_dist ix cell (ideal_cell ix h) + 1) as Hstep.
  { intros h Hh. unfold probe_dist in *. rewrite Hmask in *. by apply dist_next. }
  destruct (negb (pinned ei) && (d <? probe)) eqn:Esw.
  - apply andb_true_iff in Esw as [Epin%negb_true_iff Elt%Z.ltb_lt].
    destruct (Hset carry) as [cs Hcs]. rewrite Hcs. cbn [mbind option_bind].
    rewrite Hnext, u32_id by clia.
    set (ix1 := observe (with_cells ix cs) probe).
    assert (unmoved sl (cells ix) cs) as Hum.
    { eapply unmoved_set; [done|]. intros i Hi ?. exists ei. split; [congruence|done]. }
    destruct (IH ix1 inc (walk (n_cells ix) cell 1) (d + 1) (k - 1) ei) as (r & ix' & -> & A1 & A2 & A3 & A4 & A5 & A6);
      try done.
    + by eapply index_shape_observe, index_shape_cells.
    + by eapply near_set.
    + rewrite Hd. symmetry. apply (Hstep (e_hash ei)). rewrite <-Hd. lia.
    + lia.
    + cbn. lia.
    + cbn. rewrite walk_walk by done. replace (1 + (k - 1)) with k by lia.
      rewrite (aget_aset _ _ _ _ _ Hcs), decide_False; [done|].
      intros E. rewrite <-(walk_0 (n_cells ix) cell Hcell) in E at 1. apply walk_inj in E; try done; lia.
    + exists r, ix'. split_and!; try done; [by etrans|].
      pose proof (live_swap _ _ _ _ _ Hinc Hinn Hcn Hcs) as Hlive. cbn [cells ix1 observe with_cells] in A6.
      destruct A6 as [[? Hl]|(? & Hl & ?)]; [left|right]; split_and!; try done; by rewrite Hl, Hlive.
  - rewrite Hnext, u32_id by clia.
    destruct (IH ix carry (walk (n_cells ix) cell 1) (probe + 1) (k - 1) ec) as (r & ix' & -> & A);
      try done.
    + rewrite Hprobe. symmetry. apply (Hstep (e_hash ec)). rewrite <-Hprobe. lia.
    + lia.
    + lia.
    + rewrite walk_walk by done. by replace (1 + (k - 1)) with k by lia.
    + exists r, ix'. done.
Qed.

Lemma index_insert_spec sl ix L i e :
  index_ok sl ix L -> zlen L < n_cells ix -> aget sl i = Some e -> i <> LRU_NIL -> pinned e = false ->
  exists r ix', insert_loop (length (cells ix)) sl ix i (ideal_cell ix (e_hash e)) 0 = Some (r, ix') /\
    unmoved sl (cells ix) (cells ix') /\ n_cells ix' = n_cells ix /\ max_probe ix' = max_probe ix /\
    ((r = LRU_NIL /\ index_ok sl ix' (i :: L)) \/
     (r <> LRU_NIL /\ (exists er, aget sl r = Some er /\ pinned er = false) /\
      exists L', r :: L' ≡ₚ i :: L /\ index_ok sl ix' L')).
Proof.
  intros [Hsh Hnear Hlive] Hroom He Hi Hpin. pose proof Hsh as [Hp2 Hmask Hlen Hsmall Hmp].
  pose proof (ideal_range ix (e_hash e) Hsh) as Hid.
  destruct (empty_cell (cells ix)) as [c0 Hc0].
  { apply Permutation_length in Hlive. lia. }
  destruct (walk_surj (n_cells ix) Hp2 (ideal_cell ix (e_hash e)) c0) as (k & Hk & Hw).
  { apply aget_Some_range in Hc0. lia. }
  destruct (insert_loop_spec sl (length (cells ix)) ix i (ideal_cell ix (e_hash e)) 0 k e)
    as (r & ix' & -> & A1 & A2 & A3 & A4 & A5 & A6); try done.
  - unfold probe_dist. rewrite Hmask. symmetry. by apply dist_self.
  - lia.
  - lia.
  - by rewrite Hw.
  - exists r, ix'. split_and!; try done.
    destruct A6 as [[-> Hl]|(Hr & Hl & Hr2)]; [left|right].
    + split; [done|]. constructor; try done. by rewrite Hl, Hlive.
    + split_and!; try done. exists (live (cells ix')). split; [by rewrite Hl, Hlive|]. by constructor.
Qed.

(** ** Deletion *)

Lemma with_cells_with ix c1 c2 : with_cells (with_cells ix c1) c2 = with_cells ix c2.
Proof. done. Qed.

Lemma erase_loop_spec sl fuel : forall ix cell k L cs,
  aset (cells ix) cell LRU_NIL = Some cs -> index_ok sl (with_cells ix cs) L ->
  0 < k < n_cells ix -> k <= Z.of_nat fuel -> 
  aget (cells ix) (walk (n_cells ix) cell k) = Some LRU_NIL ->
  exists cs', erase_loop fuel sl ix cell = Some (with_cells ix cs') /\
    index_ok sl (with_cells ix cs') L /\ unmoved sl cs cs'.
Proof.
  induction fuel as [|fuel IH]; intros ix cell k L cs Hcs Hok Hk Hf Hnil; [lia|].
  pose proof Hok as [Hsh Hnear Hlive]. pose proof Hsh as [Hp2 Hmask Hlen Hsmall Hmp]. cbn in Hp2, Hmask, Hlen, Hsmall, Hmp.
  assert (zlen (cells ix) = n_cells ix) as Hlen0 by (rewrite <-Hlen; by rewrite (length_aset _ _ _ _ Hcs)).
  pose proof (proj1 (aset_Some _ _ _ _ Hcs)) as Hcell. cbn [erase_loop].
  assert (cell_next (mask ix) cell = walk (n_cells ix) cell 1) as -> by (rewrite Hmask; by apply cell_next_walk).
  assert (0 <= walk (n_cells ix) cell 1 < n_cells ix) as Hnr by (by apply walk_range).
  destruct (aget_is_Some (cells ix) (walk (n_cells ix) cell 1)) as [nxt Hnxt]; [lia|]. rewrite Hnxt. cbn [mbind option_bind].
  assert (exists cs', (c ← aset (cells ix) cell LRU_NIL; Some (with_cells ix c)) = Some (with_cells ix cs') /\
    index_ok sl (with_cells ix cs') L /\ unmoved sl cs cs') as Hstop.
  { rewrite Hcs. exists cs. done. }
  destruct (Z.eqb_spec nxt LRU_NIL) as [->|Hnn]; [done|].
  assert (cell <> walk (n_cells ix) cell 1) as Hne.
  { intros E. rewrite <-(walk_0 (n_cells ix) cell) in E at 1 by lia. apply walk_inj in E; try done; lia. }
  assert (aget cs (walk (n_cells ix) cell 1) = Some nxt) as Hnxt' by (by rewrite (aget_aset_ne _ _ _ _ _ Hcs)).
  destruct (Hnear _ _ Hnxt' Hnn) as (d & (en & Hen & Hd) & Hdm). cbn [with_cells max_probe] in Hdm.
  rewrite Hen. cbn [mbind option_bind].
  change (probe_dist ix (walk (n_cells ix) cell 1) (ideal_cell ix (e_hash en)))
    with (probe_dist (with_cells ix cs) (walk (n_cells ix) cell 1) (ideal_cell (with_cells ix cs) (e_hash en))).
  rewrite <-Hd. destruct (pinned en) eqn:Epin; cbn [orb]; [done|].
  destruct (Z.eqb_spec d 0) as [->|Hd0]; [done|].
  destruct (aset (cells ix) cell nxt) as [cs1|] eqn:Hcs1; [|rewrite aset_range in Hcs1 by lia; done].
  cbn [mbind option_bind].
  assert (1 < k) as Hk1.
  { destruct (decide (k = 1)) as [->|]; [|lia]. congruence. }
  destruct (aset cs1 (walk (n_cells ix) cell 1) LRU_NIL) as [cs2|] eqn:Hcs2.
  2: { rewrite aset_range in Hcs2; [done|]. rewrite (length_aset _ _ _ _ Hcs1). lia. }
  assert (aset cs cell nxt = Some cs1) as Hcc1.
  { apply aset_Some in Hcs as [? ->]. apply aset_Some in Hcs1 as [? ->].
    rewrite aset_range by (rewrite length_insert; lia). f_equal. apply list_insert_insert_eq. }
  assert (aget cs cell = Some LRU_NIL) as Hcn by (by eapply aget_aset_eq).
  assert (aget cs1 (walk (n_cells ix) cell 1) = Some nxt) as Hn1 by (by rewrite (aget_aset_ne _ _ _ _ _ Hcs1)).
  assert (0 <= d) as Hdp.
  { rewrite Hd. unfold probe_dist. cbn [with_cells mask]. rewrite Hmask. by apply cell_dist_range. }
  destruct (IH (with_cells ix cs1) (walk (n_cells ix) cell 1) (k - 1) L cs2) as (cs' & He & Hok' & Hum).
  - done.
  - rewrite with_cells_with. constructor; cbn [with_cells cells].
    + constructor; try done. cbn. by rewrite (length_aset _ _ _ _ Hcs2), (length_aset _ _ _ _ Hcs1).
    + change (near sl (with_cells (with_cells (with_cells ix cs) cs1) cs2)).
      eapply near_set; [|exact Hcs2|done]. eapply near_set; [done|exact Hcc1|]. intros _.
      exists (d - 1). split; [|cbn; lia]. exists en. split; [done|].
      rewrite Hd. unfold probe_dist, ideal_cell. cbn [with_cells mask]. rewrite Hmask.
      pose proof (cell_dist_range (n_cells ix) Hp2 cell (Z.land (e_hash en) (n_cells ix - 1))) as Hr.
      destruct (decide (cell_dist (n_cells ix - 1) cell (Z.land (e_hash en) (n_cells ix - 1)) = n_cells ix - 1)) as [E|].
      * exfalso. apply Hd0. rewrite Hd. unfold probe_dist, ideal_cell. cbn [with_cells mask]. rewrite Hmask.
        rewrite cell_dist_mod in E by done. rewrite cell_dist_mod by done. unfold walk.
        rewrite Zminus_mod_idemp_l. replace (cell + 1 - Z.land (e_hash en) (n_cells ix - 1))
          with ((cell - Z.land (e_hash en) (n_cells ix - 1)) + 1) by lia.
        rewrite <-Z.add_mod_idemp_l, E by lia. replace (n_cells ix - 1 + 1) with (n_cells ix) by lia.
        apply Z_mod_same_full.
      * rewrite dist_next by (done || lia). lia.
    + pose proof (live_fill _ _ _ _ Hcn Hnn Hcc1) as P1. pose proof (live_clear _ _ _ _ Hn1 Hnn Hcs2) as P2.
      rewrite P1 in P2. apply Permutation_cons_inv in P2. by rewrite P2.
  - cbn. lia.
  - lia.
  - cbn. rewrite walk_walk by done. replace (1 + (k - 1)) with k by lia.
    rewrite (aget_aset_ne _ _ _ _ _ Hcs1); [done|].
    intros E. rewrite <-(walk_0 (n_cells ix) cell) in E at 1 by lia. apply walk_inj in E; try done; lia.
  - exists cs'. split; [done|]. split; [done|]. etrans; [|done].
    etrans; [eapply (unmoved_set sl cs); [exact Hcc1|]; intros i Hi ?; congruence|].
    eapply unmoved_set; [exact Hcs2|]. intros i Hi _. exists en. split; [congruence|done].
Qed.

Lemma index_erase_spec sl ix L c i :
  index_ok sl ix (i :: L) -> zlen L + 1 < n_cells ix -> aget (cells ix) c = Some i -> i <> LRU_NIL ->
  exists ix', erase_loop (S (length (cells ix))) sl ix c = Some ix' /\ index_ok sl ix' L /\
    n_cells ix' = n_cells ix /\ max_probe ix' = max_probe ix /\
    (forall e, aget sl i = Some e -> pinned e = false -> unmoved sl (cells ix) (cells ix')).
Proof.
  intros [Hsh Hnear Hlive] Hroom Hc Hi. pose proof Hsh as [Hp2 Hmask Hlen Hsmall Hmp].
  pose proof (aget_Some_range _ _ _ Hc) as Hcr.
  destruct (empty_cell (cells ix)) as [c0 Hc0].
  { apply Permutation_length in Hlive. cbn in Hlive. lia. }
  destruct (walk_surj (n_cells ix) Hp2 c c0) as (k & Hk & Hw).
  { apply aget_Some_range in Hc0. lia. }
  destruct (aset (cells ix) c LRU_NIL) as [cs|] eqn:Hcs; [|rewrite aset_range in Hcs by lia; done].
  destruct (erase_loop_spec sl (S (length (cells ix))) ix c k L cs) as (cs' & -> & Hok & Hum).
  - done.
  - constructor; [by eapply index_shape_cells|by eapply near_set|]. cbn [with_cells cells].
    apply (Permutation_cons_inv (a := i)). rewrite <-Hlive. by apply (live_clear _ c).
  - split; [|lia]. destruct (decide (k = 0)) as [->|]; [|lia]. rewrite walk_0 in Hw by lia. congruence.
  - lia.
  - by rewrite Hw.
  - exists (with_cells ix cs'). split_and!; try done. intros e He Hpin. cbn. etrans; [|done].
    eapply unmoved_set; [exact Hcs|]. intros j Hj _. exists e. split; [congruence|done].
Qed.

(** ** Search *)

Lemma scan_cells_spec ix (hit : Z -> option bool) n c :
  index_shape ix -> 0 <= c < n_cells ix ->
  (forall p i, aget (cells ix) p = Some i -> exists b, hit i = Some b) ->
  (exists t i, 0 <= t < Z.of_nat n /\ scan_cells n hit ix c = Some (walk (n_cells ix) c t) /\
     aget (cells ix) (walk (n_cells ix) c t) = Some i /\ hit i = Some true) \/
  (scan_cells n hit ix c = Some LRU_NIL /\
   forall t i, 0 <= t < Z.of_nat n -> aget (cells ix) (walk (n_cells ix) c t) = Some i -> hit i = Some false).
Proof.
  intros [Hp2 Hmask Hlen Hsmall Hmp] Hc Htot. revert c Hc. induction n as [|n IH]; intros c Hc.
  { right. split; [done|]. lia. }
  cbn [scan_cells]. destruct (aget_is_Some (cells ix) c) as [i Hi]; [lia|]. rewrite Hi. cbn [mbind option_bind].
  destruct (Htot _ _ Hi) as [b Hb]. rewrite Hb. cbn [mbind option_bind]. destruct b.
  { left. exists 0, i. rewrite walk_0 by done. split_and!; try done; lia. }
  rewrite Hmask, cell_next_walk by done.
  destruct (IH (walk (n_cells ix) c 1)) as [(t & j & Ht & -> & Hj & Hh)|[-> Hno]]; [by apply walk_range| |].
  - left. exists (1 + t), j. rewrite walk_walk in * by done. split_and!; try done; lia.
  - right. split; [done|]. intros t j Ht Hj. destruct (decide (t = 0)) as [->|].
    + rewrite walk_0 in Hj by done. congruence.
    + apply (Hno (t - 1) j); [lia|]. rewrite walk_walk by done. by replace (1 + (t - 1)) with t by lia.
Qed.

(** Searching from the ideal cell of [h] sees every slot with that hash. *)
Lemma scan_live sl ix L (hit : Z -> option bool) h :
  index_ok sl ix L ->
  (forall i, i = LRU_NIL \/ i ∈ L -> exists b, hit i = Some b) -> hit LRU_NIL = Some false ->
  (forall i e, i ∈ L -> aget sl i = Some e -> hit i = Some true -> e_hash e = h) ->
  (exists c i, scan_cells (n_probes ix) hit ix (ideal_cell ix h) = Some c /\ c <> LRU_NIL /\
     aget (cells ix) c = Some i /\ i ∈ L /\ i <> LRU_NIL /\ hit i = Some true) \/
  (scan_cells (n_probes ix) hit ix (ideal_cell ix h) = Some LRU_NIL /\
   forall i, i ∈ L -> hit i = Some false).
Proof.
  intros [Hsh Hnear Hlive] Htot Hnil Hhash. pose proof Hsh as [Hp2 Hmask Hlen Hsmall Hmp].
  assert (forall c i, aget (cells ix) c = Some i -> i <> LRU_NIL -> i ∈ L) as HinL.
  { intros c i Hc Hi. rewrite <-Hlive. apply elem_of_live. eauto. }
  destruct (scan_cells_spec ix hit (n_probes ix) (ideal_cell ix h) Hsh (ideal_range ix h Hsh))
    as [(t & i & Ht & -> & Hi & Hh)|[-> Hno]].
  - intros p i Hp. apply Htot. destruct (decide (i = LRU_NIL)); [by left|right; eauto].
  - left. assert (i <> LRU_NIL) by congruence. exists (walk (n_cells ix) (ideal_cell ix h) t), i. split_and!; try done; [|eauto].
    pose proof (walk_range (n_cells ix) Hp2 (ideal_cell ix h) t). unfold LRU_NIL. clia.
  - right. split; [done|]. intros i Hi.
    destruct (Htot i) as [b Hb]; [by right|]. destruct b; [|done].
    rewrite <-Hlive in Hi. apply elem_of_live in Hi as [Hin [c Hc]].
    destruct (Hnear c i Hc Hin) as (d & (e & He & Hd) & Hdm).
    assert (e_hash e = h) as Hhe by (eapply Hhash; eauto).
    rewrite Hhe in Hd. unfold probe_dist in Hd. rewrite Hmask in Hd.
    pose proof (aget_Some_range _ _ _ Hc) as Hcr. rewrite Hlen in Hcr.
    pose proof (cell_dist_range (n_cells ix) Hp2 c (ideal_cell ix h)) as Hdr. rewrite <-Hd in Hdr.
    rewrite (Hno d i) in Hb; [done|unfold n_probes; lia|].
    rewrite Hd, walk_dist by done. done.
Qed.
End index.
