(* ===== verification/LruSpec.v ===== *)
(** * What the cache promises

    The abstract cache of [src/src/util/lru.h]: a list of items, most recent
    first, with the event counters and the values passed to the destroy callback;
    and how a state of [src/src/util/lru.c] represents it. *)

From S2P Require Import Prelude Hash Lru LruLists LruIndex.

#[local] Open Scope Z_scope.

Section spec.
Context {V K : Type} (eq : V -> K -> bool).

(** ** The abstract cache *)

(** An item carries the slot a client holds as its [struct lru_entry*]. *)
Record item := Item { it_slot : Z; it_hash : Z; it_value : V; it_ref : Z }.
Record cache := Cache { items : list item; stats : lru_counters; gone : list V }.

Definition hits_key (h : Z) (k : K) (it : item) : bool := (it_hash it =? h) && eq (it_value it) k.
Definition loose (it : item) : Prop := it_ref it = 0.
Definition held (it : item) : Prop := 0 < it_ref it.

(** The least recent item that is not held leaves. *)
Inductive evict : cache -> cache -> Prop :=
| Evict A1 it A2 st d :
    loose it -> Forall held A2 ->
    evict (Cache (A1 ++ it :: A2) st d) (Cache (A1 ++ A2) (add_eviction st) (d ++ [it_value it])).

(** An item displaced past the probe bound leaves. *)
Inductive displace : cache -> cache -> Prop :=
| Displace A1 it A2 st d :
    loose it ->
    displace (Cache (A1 ++ it :: A2) st d) (Cache (A1 ++ A2) (add_eviction st) (d ++ [it_value it])).

(** [lru_get]: a hit moves to the front. *)
Inductive get_step (h : Z) (k : K) : cache -> Z -> cache -> Prop :=
| GetHit A1 it A2 st d :
    hits_key h k it = true ->
    get_step h k (Cache (A1 ++ it :: A2) st d) (it_slot it) (Cache (it :: A1 ++ A2) (add_hit st) d)
| GetMiss A st d :
    Forall (fun it => hits_key h k it = false) A ->
    get_step h k (Cache A st d) LRU_NIL (Cache A (add_miss st) d).

(** [lru_put] of [v] into a cache of [cap] slots. *)
Inductive put_step (cap h : Z) (k : K) (v : V) : cache -> Z -> cache -> Prop :=
| PutReplace A1 it A2 st d :
    hits_key h k it = true -> loose it ->
    put_step cap h k v (Cache (A1 ++ it :: A2) st d) (it_slot it)
      (Cache (Item (it_slot it) (it_hash it) v 0 :: A1 ++ A2) (add_replacement st) (d ++ [it_value it]))
| PutHeld A1 it A2 st d :
    hits_key h k it = true -> held it ->
    put_step cap h k v (Cache (A1 ++ it :: A2) st d) LRU_NIL
      (Cache (A1 ++ it :: A2) (add_failure st) (d ++ [v]))
| PutNew c c1 c2 c3 i :
    Forall (fun it => hits_key h k it = false) (items c) ->
    (if decide (zlen (items c) = cap) then evict c c1 else c1 = c) ->
    rtc evict c1 c2 -> (c2 = c3 \/ displace c2 c3) ->
    i ∉ it_slot <$> items c3 -> i <> LRU_NIL ->
    put_step cap h k v c i (Cache (Item i h v 0 :: items c3) (add_insertion (stats c3)) (gone c3))
| PutFail c c2 :
    Forall (fun it => hits_key h k it = false) (items c) ->
    rtc evict c c2 -> Forall held (items c2) ->
    put_step cap h k v c LRU_NIL (Cache (items c2) (add_failure (stats c2)) (gone c2 ++ [v])).

(** ** Representation *)

Implicit Types (self : lru V) (A : list item) (F H L : list Z).

Definition holds self (it : item) : Prop :=
  exists e, aget (slots self) (it_slot it) = Some e /\ data e = (it_hash it, Some (it_value it), it_ref it).
Definition cleared self (i : Z) : Prop :=
  exists e, aget (slots self) i = Some e /\ data e = (0, None, 0).

(** [A] in the recency list, [F] in the free list, [H] in neither, [L] in the
    index. *)
Record core self A F H L : Prop := {
  c_rings : rings self (it_slot <$> A) F;
  c_slots : zlen (slots self) = capacity self;
  c_cap : 0 < capacity self <= 2 ^ 30;
  c_perm : (it_slot <$> A) ++ F ++ H ≡ₚ seqZ 0 (capacity self);
  c_index : index_ok (slots self) (index self) L;
  c_room : 2 * capacity self <= n_cells (index self);
  c_items : Forall (holds self) A;
  c_refs : Forall (fun it => is_u32 (it_ref it)) A;
  c_free : Forall (cleared self) F }.

(** No two items answer to the same key. *)
Definition distinct A : Prop :=
  forall it it' k, it ∈ A -> it' ∈ A -> it_hash it = it_hash it' ->
    eq (it_value it) k = true -> eq (it_value it') k = true -> it = it'.

Record state self (c : cache) F H L : Prop := {
  s_core : core self (items c) F H L;
  s_size : size self = zlen (items c);
  s_stats : counters self = stats c;
  s_gone : destroyed self = gone c }.

(** [self] represents [c]: every slot is free or holds an item of [c], and the
    index finds exactly the items. *)
Definition rep self (c : cache) : Prop :=
  distinct (items c) /\ exists F, state self c F [] (it_slot <$> items c).

(** ** Lemmas *)

Lemma core_slot_range self A F H L i :
  core self A F H L -> i ∈ (it_slot <$> A) ++ F ++ H -> 0 <= i < zlen (slots self) /\ i <> LRU_NIL.
Proof.
  intros HC Hi. rewrite (c_perm _ _ _ _ _ HC), elem_of_seqZ in Hi. rewrite (c_slots _ _ _ _ _ HC).
  pose proof (c_cap _ _ _ _ _ HC). unfold LRU_NIL. clia.
Qed.

Lemma core_nodup self A F H L : core self A F H L -> NoDup ((it_slot <$> A) ++ F ++ H).
Proof. intros HC. rewrite (c_perm _ _ _ _ _ HC). apply NoDup_seqZ. Qed.

Lemma core_count self A F H L : core self A F H L -> zlen A + zlen F + zlen H = capacity self.
Proof.
  intros HC. pose proof (Permutation_length (c_perm _ _ _ _ _ HC)) as Hl.
  rewrite !length_app, length_fmap, length_seqZ in Hl. pose proof (c_cap _ _ _ _ _ HC). lia.
Qed.

Lemma holds_same self self' it : same_data self self' -> holds self it -> holds self' it.
Proof. intros Hd (e & He & Hde). destruct (same_data_aget _ _ _ _ Hd He) as (e' & He' & Hd'). exists e'. split; [done|congruence]. Qed.

Lemma cleared_same self self' i : same_data self self' -> cleared self i -> cleared self' i.
Proof. intros Hd (e & He & Hde). destruct (same_data_aget _ _ _ _ Hd He) as (e' & He' & Hd'). exists e'. split; [done|congruence]. Qed.

(** The index only depends on the hashes of the slots in it. *)
Lemma index_ok_slots (sl sl' : list (lru_entry V)) ix L :
  index_ok sl ix L ->
  (forall i e, i ∈ L -> aget sl i = Some e -> exists e', aget sl' i = Some e' /\ e_hash e' = e_hash e) ->
  index_ok sl' ix L.
Proof.
  intros [Hsh Hnear Hlive] Hh. constructor; try done.
  intros c i Hc Hi. destruct (Hnear c i Hc Hi) as (d & (e & He & Hd) & Hm).
  destruct (Hh i e) as (e' & He' & Hhe); [|done|].
  - rewrite <-Hlive. apply elem_of_live. eauto.
  - exists d. split; [|done]. exists e'. by rewrite Hhe.
Qed.

Lemma index_ok_same self self' L :
  same_data self self' -> index_ok (slots self) (index self) L -> index_ok (slots self') (index self') L.
Proof.
  intros Hd Hok. rewrite (sd_index _ _ Hd). eapply index_ok_slots; [done|]. intros i e _ He.
  destruct (same_data_aget _ _ _ _ Hd He) as (e' & He' & Hde). exists e'. split; [done|].
  unfold data in Hde. congruence.
Qed.

(** The lists changed. *)
Lemma core_relink self self' A F H L A' F' H' :
  core self A F H L -> same_data self self' -> rings self' (it_slot <$> A') F' ->
  (it_slot <$> A') ++ F' ++ H' ≡ₚ (it_slot <$> A) ++ F ++ H ->
  Forall (holds self) A' -> Forall (fun it => is_u32 (it_ref it)) A' -> Forall (cleared self) F' ->
  core self' A' F' H' L.
Proof.
  intros [] Hd HR Hp HA HU HF. constructor; rewrite ?(sd_capacity _ _ Hd), ?(same_data_length _ _ Hd); try done.
  - by rewrite Hp.
  - by eapply index_ok_same.
  - by rewrite (sd_index _ _ Hd).
  - eapply Forall_impl; [exact HA|]. intros it. by apply holds_same.
  - eapply Forall_impl; [exact HF|]. intros i. by apply cleared_same.
Qed.

Lemma rings_ext self self' O F :
  rings self O F -> (forall n, get_link self' n = get_link self n) -> rings self' O F.
Proof.
  intros [HO HF Hnd] Hg.
  constructor; [| |done]; eapply linked_frame; try done; intros k _; unfold nx, pv; by rewrite Hg.
Qed.

Lemma rings_slots self s O F :
  rings self O F ->
  (forall i e, aget s i = Some e -> exists e', aget (slots self) i = Some e' /\ link e' = link e) ->
  length s = length (slots self) -> rings (with_slots self s) O F.
Proof.
  intros HR Hl Hlen. eapply rings_ext; [done|].
  intros [| | |i]; cbn; try done. destruct (aget s i) as [e|] eqn:E; cbn.
  - destruct (Hl i e E) as (e' & -> & Hle). cbn. by rewrite Hle.
  - apply aget_None in E. symmetry. rewrite (proj2 (aget_None _ _)); [done|]. lia.
Qed.

(** A slot outside the lists and the index may be written. *)
Lemma core_write self A F H L i e e' s :
  core self A F H L -> i ∈ H -> i ∉ L -> aget (slots self) i = Some e -> link e' = link e ->
  aset (slots self) i e' = Some s -> core (with_slots self s) A F H L.
Proof.
  intros HC Hi HL He Hlk Hs. pose proof (core_nodup _ _ _ _ _ HC) as Hnd. destruct HC.
  assert (i ∉ it_slot <$> A /\ i ∉ F) as [HiA HiF].
  { rewrite app_assoc, NoDup_app in Hnd. destruct Hnd as (_ & Hnd & _). split; intros Hin; apply (Hnd i); set_solver. }
  constructor; cbn; rewrite ?(length_aset _ _ _ _ Hs); try done.
  - apply rings_slots; [done| |by apply (length_aset _ _ _ _ Hs)].
    intros j ej. rewrite (aget_aset _ _ _ _ _ Hs). case_decide as E; [|eauto]. intros [= <-]. subst j. eauto.
  - eapply index_ok_slots; [done|]. intros j ej Hj Hej. exists ej. split; [|done].
    rewrite (aget_aset_ne _ _ _ _ _ Hs); [done|]. congruence.
  - apply Forall_forall. intros it Hit. rewrite Forall_forall in c_items0.
    destruct (c_items0 it Hit) as (ej & Hej & Hd). exists ej. split; [|done]. cbn.
    rewrite (aget_aset_ne _ _ _ _ _ Hs); [done|]. intros ->. apply HiA. apply list_elem_of_fmap. eauto.
  - apply Forall_forall. intros j Hj. rewrite Forall_forall in c_free0.
    destruct (c_free0 j Hj) as (ej & Hej & Hd). exists ej. split; [|done]. cbn.
    rewrite (aget_aset_ne _ _ _ _ _ Hs); [done|]. congruence.
Qed.

Lemma core_with_index self A F H L ix L' :
  core self A F H L -> index_ok (slots self) ix L' -> n_cells ix = n_cells (index self) ->
  core (with_index self ix) A F H L'.
Proof.
  intros [] Hix Hn. constructor; cbn; try done; [|lia]. eapply rings_ext; [done|]. by intros [].
Qed.

(** The size, the counters and the destroyed values are apart. *)
Lemma core_ext self self' A F H L :
  core self A F H L -> slots self' = slots self -> capacity self' = capacity self -> index self' = index self ->
  lru_order self' = lru_order self -> freelist self' = freelist self -> core self' A F H L.
Proof.
  intros [] Hs Hc Hi Ho Hf.
  constructor; rewrite ?Hs, ?Hc, ?Hi; try done.
  - eapply rings_ext; [done|]. intros []; cbn; by rewrite ?Ho, ?Hf, ?Hs.
  - eapply Forall_impl; [exact c_items0|]. intros it. unfold holds. by rewrite Hs.
  - eapply Forall_impl; [exact c_free0|]. intros it. unfold cleared. by rewrite Hs.
Qed.
End spec.
Arguments item : clear implicits.
Arguments cache : clear implicits.
