(* ===== verification/LruProof.v ===== *)
(** * The operations of the cache

    Each operation of [src/src/util/lru.c] on a state that represents an abstract
    cache: it ends, stays within its arrays, and its result represents the cache
    after the abstract step. *)

From S2P Require Import Prelude Hash Lru LruLists LruIndex LruSpec.

#[local] Open Scope Z_scope.

Section ops.
Context {V : Type}.
Implicit Types (self : lru V) (c : cache V) (A : list (item V)) (F H L : list Z).

(** Slots outside the lists keep their data. *)
Definition keeps self self' H : Prop :=
  forall i e, i ∈ H -> aget (slots self) i = Some e -> exists e', aget (slots self') i = Some e' /\ data e' = data e.

Lemma keeps_same self self' H : same_data self self' -> keeps self self' H.
Proof. intros Hd i e _ He. by eapply same_data_aget. Qed.

Lemma keeps_trans self self1 self2 H : keeps self self1 H -> keeps self1 self2 H -> keeps self self2 H.
Proof.
  intros H1 H2 i e Hi He. destruct (H1 i e Hi He) as (e1 & He1 & Hd1).
  destruct (H2 i e1 Hi He1) as (e2 & He2 & Hd2). exists e2. split; [done|congruence].
Qed.

Lemma keeps_write self H i e' s :
  aset (slots self) i e' = Some s -> i ∉ H -> keeps self (with_slots self s) H.
Proof.
  intros Hs Hi j e Hj He. exists e. split; [|done]. cbn. rewrite (aget_aset_ne _ _ _ _ _ Hs); [done|]. congruence.
Qed.

(** ** Search *)

Lemma core_item self A F H L it :
  core self A F H L -> it ∈ A ->
  exists e, aget (slots self) (it_slot it) = Some e /\ e_hash e = it_hash it /\ value e = Some (it_value it) /\
    refcount e = it_ref it /\ it_slot it <> LRU_NIL /\ 0 <= it_slot it < zlen (slots self).
Proof.
  intros HC Hit. pose proof (c_items _ _ _ _ _ HC) as HA. rewrite Forall_forall in HA.
  destruct (HA it Hit) as (e & He & Hd). exists e. unfold data in Hd. simplify_eq.
  destruct (core_slot_range _ _ _ _ _ (it_slot it) HC); [|done].
  apply elem_of_app. left. apply list_elem_of_fmap. eauto.
Qed.

Lemma lookup_spec {K} (eq : V -> K -> bool) self A F H h k :
  core self A F H (it_slot <$> A) ->
  (exists A1 it A2 cell, A = A1 ++ it :: A2 /\ index_lookup eq self h k = Some cell /\ cell <> LRU_NIL /\
     aget (cells (index self)) cell = Some (it_slot it) /\ hits_key eq h k it = true) \/
  (index_lookup eq self h k = Some LRU_NIL /\ Forall (fun it => hits_key eq h k it = false) A).
Proof.
  intros HC.
  assert (forall it, it ∈ A -> matches eq self h k (it_slot it) = Some (hits_key eq h k it)) as Hm.
  { intros it Hit. destruct (core_item _ _ _ _ _ _ HC Hit) as (e & He & Hh & Hv & _ & Hn & _).
    unfold matches, hits_key. rewrite (proj2 (Z.eqb_neq _ _) Hn), He. cbn [mbind option_bind]. rewrite Hh, Hv.
    destruct (it_hash it =? h); done. }
  destruct (scan_live (slots self) (index self) (it_slot <$> A) (matches eq self h k) h) as
    [(cell & i & Hs & Hcn & Hcell & Hi & Hin & Hhit)|[Hs Hno]].
  - by apply (c_index _ _ _ _ _ HC).
  - intros i [->|(it & -> & Hit)%list_elem_of_fmap]; [by eexists|]. rewrite (Hm it Hit). eauto.
  - done.
  - intros i e (it & -> & Hit)%list_elem_of_fmap He Hhit. rewrite (Hm it Hit) in Hhit.
    destruct (core_item _ _ _ _ _ _ HC Hit) as (e' & He' & Hh & _). assert (e' = e) as -> by congruence.
    rewrite Hh. injection Hhit as [Hh' _]%andb_true_iff. by apply Z.eqb_eq.
  - left. apply list_elem_of_fmap in Hi as (it & -> & Hit). rewrite (Hm it Hit) in Hhit.
    apply list_elem_of_split in Hit as (A1 & A2 & ->). exists A1, it, A2, cell. split_and!; try done. congruence.
  - right. split; [done|]. apply Forall_forall. intros it Hit.
    specialize (Hno (it_slot it)). rewrite (Hm it Hit) in Hno.
    assert (Some (hits_key eq h k it) = Some false) as [= ->]; [|done].
    apply Hno. apply list_elem_of_fmap. eauto.
Qed.

Lemma locate_spec self A F H L i :
  core self A F H L -> i ∈ L -> i <> LRU_NIL ->
  exists cell, index_locate self i = Some cell /\ cell <> LRU_NIL /\ aget (cells (index self)) cell = Some i.
Proof.
  intros HC Hi Hin. pose proof (c_index _ _ _ _ _ HC) as Hok. unfold index_locate.
  assert (exists e, aget (slots self) i = Some e) as [e He].
  { pose proof Hi as Hi'. rewrite <-(ix_live _ _ _ Hok) in Hi'. apply elem_of_live in Hi' as [_ [p Hp]].
    destruct (ix_near _ _ _ Hok p i Hp Hin) as (d & (e & He & _) & _). eauto. }
  rewrite He. cbn [mbind option_bind].
  destruct (scan_live (slots self) (index self) L (fun j => Some (j =? i)) (e_hash e)) as
    [(cell & j & Hs & Hcn & Hcell & _ & _ & Hhit)|[Hs Hno]]; try done.
  - intros. by eexists.
  - by rewrite (proj2 (Z.eqb_neq LRU_NIL i)) by done.
  - intros j e' _ He' [= ->%Z.eqb_eq]. congruence.
  - injection Hhit as ->%Z.eqb_eq. eauto.
  - specialize (Hno i Hi). rewrite Z.eqb_refl in Hno. done.
Qed.

(** ** Dropping a slot *)

Lemma core_cut self A1 it A2 F H L :
  core self (A1 ++ it :: A2) F H L -> it_slot it ∉ (it_slot <$> A1 ++ A2) ++ F ++ H.
Proof.
  intros Hnd%core_nodup. rewrite fmap_app, fmap_cons, <-app_assoc, <-app_comm_cons, <-Permutation_middle in Hnd.
  apply NoDup_cons in Hnd as [Hn _]. by rewrite fmap_app, <-app_assoc.
Qed.

Lemma drop_slot_spec self A1 it A2 st d F H L :
  state self (Cache (A1 ++ it :: A2) st d) F H L -> it_slot it ∉ L ->
  exists self', drop_slot self (it_slot it) = Some self' /\ keeps self self' H /\ capacity self' = capacity self /\
    state self' (Cache (A1 ++ A2) (add_eviction st) (d ++ [it_value it])) (it_slot it :: F) H L.
Proof.
  intros [HC Hsz Hst Hg] HL. cbn in HC, Hsz, Hst, Hg. unfold drop_slot.
  pose proof (core_cut _ _ _ _ _ _ _ HC) as Hcut.
  destruct (core_item _ _ _ _ _ it HC) as (e & He & _ & Hv & _ & Hnil & Hr); [set_solver|].
  rewrite He. cbn [mbind option_bind].
  destruct (rings_unlink_order self (it_slot <$> A1) (it_slot it) (it_slot <$> A2) F) as (s1 & -> & Hd1 & HR1).
  { rewrite <-fmap_cons, <-fmap_app. apply HC. }
  cbn [mbind option_bind]. rewrite <-fmap_app in HR1.
  assert (core s1 (A1 ++ A2) F (it_slot it :: H) L) as HC1.
  { eapply core_relink; [done|done|done|..].
    - rewrite !fmap_app, fmap_cons, <-!app_assoc, <-app_comm_cons. solve_Permutation.
    - pose proof (c_items _ _ _ _ _ HC) as HA. rewrite Forall_app, Forall_cons in HA. apply Forall_app. tauto.
    - pose proof (c_refs _ _ _ _ _ HC) as HA. rewrite Forall_app, Forall_cons in HA. apply Forall_app. tauto.
    - apply HC. }
  destruct (same_data_aget _ _ _ _ Hd1 He) as (e1 & He1 & _). unfold slot_clear. rewrite He1. cbn [mbind option_bind].
  destruct (aset (slots s1) (it_slot it) (Entry 0 None 0 (link e1))) as [sl|] eqn:Hs.
  2: { rewrite aset_range in Hs; [done|]. by eapply aget_Some_range. }
  cbn [mbind option_bind].
  assert (core (with_slots s1 sl) (A1 ++ A2) F (it_slot it :: H) L) as HC2.
  { eapply (core_write s1 _ _ _ _ (it_slot it) e1 _ sl HC1); [left|done|done| |exact Hs]. done. }
  destruct (rings_push_free (with_slots s1 sl) (it_slot it) (it_slot <$> A1 ++ A2) F) as (s3 & Hp & Hd3 & HR3).
  { apply HC2. } { set_solver. } { cbn. rewrite (length_aset _ _ _ _ Hs), (same_data_length _ _ Hd1). done. }
  unfold freelist_push. rewrite Hp. cbn [mbind option_bind]. eexists. split; [done|]. split; [|split; [|constructor]].
  - eapply keeps_trans; [by apply (keeps_same _ s1)|]. eapply (keeps_trans _ (with_slots s1 sl)); [|by apply (keeps_same _ s3)].
    eapply keeps_write; [done|]. set_solver.
  - cbn. rewrite (sd_capacity _ _ Hd3). cbn. apply (sd_capacity _ _ Hd1).
  - apply (core_ext s3); [|done..]. cbn [items]. eapply core_relink; [exact HC2|exact Hd3|exact HR3|..].
    + solve_Permutation.
    + apply HC2.
    + apply HC2.
    + constructor; [|apply HC2]. eexists. split; [by eapply aget_aset_eq|done].
  - cbn [size with_size with_counters ops_destroy items]. rewrite (sd_size _ _ Hd3). cbn. rewrite (sd_size _ _ Hd1), Hsz.
    pose proof (core_count _ _ _ _ _ HC) as Hn. pose proof (c_cap _ _ _ _ _ HC) as Hcap.
    rewrite !length_app in *. cbn [length] in *. rewrite u32_id; clia.
  - cbn. rewrite (sd_counters _ _ Hd3). cbn. by rewrite (sd_counters _ _ Hd1), Hst.
  - cbn. rewrite (sd_destroyed _ _ Hd3). cbn. by rewrite (sd_destroyed _ _ Hd1), Hg, Hv.
Qed.

(** ** Eviction *)

Lemma fmap_cut A1 it A2 : it_slot <$> A1 ++ it :: A2 ≡ₚ it_slot it :: (it_slot <$> A1 ++ A2).
Proof. by rewrite <-Permutation_middle. Qed.

Lemma evict_slot_spec self A1 it A2 st d F H :
  state self (Cache (A1 ++ it :: A2) st d) F H (it_slot <$> A1 ++ it :: A2) ->
  exists self', evict_slot self (it_slot it) = Some self' /\ keeps self self' H /\ capacity self' = capacity self /\
    state self' (Cache (A1 ++ A2) (add_eviction st) (d ++ [it_value it])) (it_slot it :: F) H
      (it_slot <$> A1 ++ A2).
Proof.
  intros [HC Hsz Hst Hg]. cbn in HC, Hsz, Hst, Hg. unfold evict_slot.
  destruct (core_item _ _ _ _ _ it HC) as (e & He & _ & Hv & _ & Hnil & Hr); [set_solver|].
  destruct (locate_spec self _ _ _ _ (it_slot it) HC) as (cell & -> & Hcn & Hcell); [set_solver|done|].
  cbn [mbind option_bind]. rewrite (proj2 (Z.eqb_neq _ _) Hcn).
  pose proof (c_index _ _ _ _ _ HC) as Hok. pose proof (core_count _ _ _ _ _ HC) as Hn.
  pose proof (c_room _ _ _ _ _ HC) as Hroom. pose proof (c_cap _ _ _ _ _ HC) as Hcap.
  destruct (index_erase_spec (slots self) (index self) (it_slot <$> A1 ++ A2) cell (it_slot it))
    as (ix' & Hix & Hok' & Hnc & _ & _); [| |done|done|].
  { eapply index_ok_perm; [done|]. apply fmap_cut. }
  { rewrite length_fmap. rewrite !length_app in *. cbn [length] in Hn. lia. }
  unfold index_erase. rewrite Hix. cbn [mbind option_bind].
  destruct (drop_slot_spec (with_index self ix') A1 it A2 st d F H (it_slot <$> A1 ++ A2))
    as (self' & -> & Hk & Hc' & HS').
  - constructor; try done. by eapply core_with_index.
  - intros Hin. apply (core_cut _ _ _ _ _ _ _ HC). set_solver.
  - exists self'. done.
Qed.

Lemma pinned_item self A F H L it e :
  core self A F H L -> it ∈ A -> aget (slots self) (it_slot it) = Some e ->
  if pinned e then held it else loose it.
Proof.
  intros HC Hit He. destruct (core_item _ _ _ _ _ it HC Hit) as (e' & He' & _ & _ & Hr & _).
  assert (e' = e) as -> by congruence. pose proof (c_refs _ _ _ _ _ HC) as Hu. rewrite Forall_forall in Hu.
  specialize (Hu it Hit). unfold pinned, held, loose. rewrite Hr. case (Z.ltb_spec 0 (it_ref it)); clia.
Qed.

Lemma evict_walk_spec self c F H fuel : forall A1 A2,
  state self c F H (it_slot <$> items c) -> items c = A1 ++ A2 -> Forall held A2 -> (length A1 <= fuel)%nat ->
  (exists c' i self', evict_walk fuel self (default Order (last (Slot <$> (it_slot <$> A1)))) = Some (true, self') /\
     evict c c' /\ keeps self self' H /\ capacity self' = capacity self /\
     state self' c' (i :: F) H (it_slot <$> items c')) \/
  (evict_walk fuel self (default Order (last (Slot <$> (it_slot <$> A1)))) = Some (false, self) /\
   Forall held (items c)).
Proof.
  induction fuel as [|fuel IH]; intros A1 A2 HS HA Hheld Hf;
    (destruct A1 as [|it A1 _] using rev_ind; [right; rewrite HA; by split|]).
  { rewrite length_app in Hf. cbn in Hf. lia. }
  pose proof (s_core _ _ _ _ _ HS) as HC.
  rewrite <-app_assoc in HA. cbn [app] in HA.
  destruct (core_item _ _ _ _ _ it HC) as (e & He & _ & _ & _ & _ & _); [rewrite HA; set_solver|].
  rewrite !fmap_app, !list_fmap_singleton, last_snoc. cbn [from_option id evict_walk node_slot].
  rewrite decide_False by done. cbn [mbind option_bind]. rewrite He. cbn [mbind option_bind].
  assert (if pinned e then held it else loose it) as Hpin by (eapply pinned_item; [done|rewrite HA; set_solver|done]).
  destruct (pinned e).
  - pose proof (c_rings _ _ _ _ _ HC) as HR. rewrite HA, fmap_app, fmap_cons in HR.
    rewrite (proj2 (rings_slot _ _ _ _ _ _ HR He)).
    apply (IH A1 (it :: A2)); [done|done|by constructor|]. rewrite length_app in Hf. cbn in Hf. lia.
  - left. destruct c as [As st d]. cbn in HA. subst As.
    destruct (evict_slot_spec self A1 it A2 st d F H HS) as (self' & -> & Hk & Hcap & HS').
    eexists _, _, self'. split; [done|]. split; [by constructor|]. done.
Qed.

Lemma evict_tail_spec self c F H :
  state self c F H (it_slot <$> items c) ->
  (exists c' i self', evict_lru_tail self = Some (true, self') /\ evict c c' /\ keeps self self' H /\
     capacity self' = capacity self /\ state self' c' (i :: F) H (it_slot <$> items c')) \/
  (evict_lru_tail self = Some (false, self) /\ Forall held (items c)).
Proof.
  intros HS. pose proof (s_core _ _ _ _ _ HS) as HC. unfold evict_lru_tail.
  rewrite (rings_last _ _ _ (c_rings _ _ _ _ _ HC)).
  apply (evict_walk_spec _ _ _ _ _ (items c) []); [done|by rewrite app_nil_r|done|].
  pose proof (core_count _ _ _ _ _ HC). lia.
Qed.

(** ** Allocation *)

Lemma state_relink self self' c F H F' H' L :
  state self c F H L -> same_data self self' -> rings self' (it_slot <$> items c) F' ->
  F' ++ H' ≡ₚ F ++ H -> Forall (cleared self) F' -> state self' c F' H' L.
Proof.
  intros [HC Hsz Hst Hg] Hd HR Hp HF. constructor.
  - eapply core_relink; try done; [by rewrite Hp|apply HC|apply HC].
  - by rewrite (sd_size _ _ Hd).
  - by rewrite (sd_counters _ _ Hd).
  - by rewrite (sd_destroyed _ _ Hd).
Qed.

Lemma freelist_pop_spec self c F L :
  state self c F [] L ->
  match F with
  | [] => freelist_pop self = Some (LRU_NIL, self)
  | i :: F' => exists self', freelist_pop self = Some (i, self') /\ same_data self self' /\ state self' c F' [i] L
  end.
Proof.
  intros HS. pose proof (s_core _ _ _ _ _ HS) as HC. pose proof (c_rings _ _ _ _ _ HC) as HR.
  unfold freelist_pop, list_empty. cbn [get_link mbind option_bind].
  pose proof (r_free _ _ _ HR) as Hf. unfold ring in Hf. destruct F as [|i F].
  - destruct Hf as [[= Hn] _]. rewrite Hn. by rewrite bool_decide_true.
  - cbn in Hf. destruct Hf as [[= Hn] _]. rewrite Hn. rewrite bool_decide_false by done.
    destruct (rings_pop_free self _ i F HR) as (s1 & -> & Hd & HR1). cbn [mbind option_bind node_slot].
    exists s1. split; [done|]. split; [done|]. eapply state_relink; try done; [solve_Permutation|].
    pose proof (c_free _ _ _ _ _ HC) as HF. by apply Forall_cons in HF as [_ HF].
Qed.

Lemma put_alloc_spec self c F :
  state self c F [] (it_slot <$> items c) ->
  (exists c1 i F' self', put_alloc 1 self = Some (i, self') /\ i <> LRU_NIL /\
     (if decide (zlen (items c) = capacity self) then evict c c1 else c1 = c) /\
     capacity self' = capacity self /\ state self' c1 F' [i] (it_slot <$> items c1)) \/
  (put_alloc 1 self = Some (LRU_NIL, self) /\ Forall held (items c)).
Proof.
  intros HS. pose proof (freelist_pop_spec _ _ _ _ HS) as Hpop.
  pose proof (core_count _ _ _ _ _ (s_core _ _ _ _ _ HS)) as Hn. cbn [put_alloc]. destruct F as [|i F].
  - rewrite Hpop. cbn [mbind option_bind fst snd]. rewrite Z.eqb_refl. cbn [negb].
    destruct (evict_tail_spec self c [] [] HS) as [(c' & i & s1 & -> & He & _ & Hcap & HS1)|[-> Hheld]];
      cbn [mbind option_bind fst snd]; [|by right].
    left. destruct (freelist_pop_spec s1 c' [i] _ HS1) as (s2 & -> & Hd & HS2). cbn [mbind option_bind fst snd].
    destruct (core_slot_range _ _ _ _ _ i (s_core _ _ _ _ _ HS2)) as [_ Hi]; [set_solver|].
    rewrite (proj2 (Z.eqb_neq _ _) Hi). exists c', i, [], s2. split_and!; try done.
    + rewrite decide_True; [done|]. cbn in Hn. lia.
    + by rewrite (sd_capacity _ _ Hd).
  - destruct Hpop as (s1 & -> & Hd & HS1). cbn [mbind option_bind fst snd].
    destruct (core_slot_range _ _ _ _ _ i (s_core _ _ _ _ _ HS1)) as [_ Hi]; [set_solver|].
    rewrite (proj2 (Z.eqb_neq _ _) Hi). left. exists c, i, F, s1. split_and!; try done.
    + rewrite decide_False; [done|]. cbn in Hn. lia.
    + apply (sd_capacity _ _ Hd).
Qed.

(** ** Insertion *)

Lemma state_with_index self c F H L ix L' :
  state self c F H L -> index_ok (slots self) ix L' -> n_cells ix = n_cells (index self) ->
  state (with_index self ix) c F H L'.
Proof. intros [HC ? ? ?] Hix Hn. constructor; try done. by eapply core_with_index. Qed.

(** The slot in hand goes back to the free list. *)
Lemma return_slot self c F i L e v :
  state self c F [i] L -> i ∉ L -> aget (slots self) i = Some e -> value e = Some v ->
  exists self' self'', slot_clear self i = Some self' /\ freelist_push self' i = Some self'' /\
    capacity self'' = capacity self /\
    state (ops_destroy (with_counters self'' (add_failure (counters self''))) (Some v))
      (Cache (items c) (add_failure (stats c)) (gone c ++ [v])) (i :: F) [] L.
Proof.
  intros [HC Hsz Hst Hg] HL He Hv. unfold slot_clear. rewrite He. cbn [mbind option_bind].
  destruct (core_slot_range _ _ _ _ _ i HC) as [Hr _]; [set_solver|].
  destruct (aset (slots self) i (Entry 0 None 0 (link e))) as [sl|] eqn:Hs; [|by rewrite aset_range in Hs].
  cbn [mbind option_bind]. exists (with_slots self sl).
  assert (core (with_slots self sl) (items c) F [i] L) as HC1.
  { eapply (core_write self _ _ _ _ i e _ sl HC); [left|done|done| |exact Hs]. done. }
  pose proof (core_nodup _ _ _ _ _ HC1) as Hnd. rewrite app_assoc in Hnd.
  destruct (rings_push_free (with_slots self sl) i (it_slot <$> items c) F) as (s2 & Hp & Hd & HR).
  { apply HC1. } { apply NoDup_app in Hnd as (_ & Hnd & _). intros Hin. apply (Hnd i Hin). left. }
  { cbn. by rewrite (length_aset _ _ _ _ Hs). }
  exists s2. split; [done|]. split; [done|]. split; [by rewrite (sd_capacity _ _ Hd)|]. constructor.
  - apply (core_ext s2); [|done..]. cbn [items]. eapply core_relink; [exact HC1|exact Hd|exact HR|..].
    + solve_Permutation.
    + apply HC1.
    + apply HC1.
    + constructor; [|apply HC1]. eexists. split; [by eapply aget_aset_eq|done].
  - cbn. by rewrite (sd_size _ _ Hd).
  - cbn. by rewrite (sd_counters _ _ Hd), <-Hst.
  - cbn. by rewrite (sd_destroyed _ _ Hd), <-Hg.
Qed.

Lemma hand_free self c F i L : state self c F [i] L -> i ∉ it_slot <$> items c /\ i <> LRU_NIL.
Proof.
  intros [HC _ _ _]. destruct (core_slot_range _ _ _ _ _ i HC) as [_ Hi]; [set_solver|]. split; [|done].
  pose proof (core_nodup _ _ _ _ _ HC) as (_ & Hn & _)%NoDup_app. intros Hin. apply (Hn i Hin). set_solver.
Qed.

Lemma evict_shorter c c' : evict c c' -> (length (items c') < length (items c))%nat.
Proof. destruct 1. cbn. rewrite !length_app. cbn. lia. Qed.

Lemma put_index_spec h v i fuel : forall self c F e,
  state self c F [i] (it_slot <$> items c) -> aget (slots self) i = Some e -> data e = (h, Some v, 0) ->
  (length (items c) < fuel)%nat ->
  (exists c2 c3 F' self', put_index fuel self i = Some (true, self') /\ rtc evict c c2 /\ (c2 = c3 \/ displace c2 c3) /\
     capacity self' = capacity self /\ keeps self self' [i] /\ state self' c3 F' [i] (i :: (it_slot <$> items c3))) \/
  (exists c2 F' self', put_index fuel self i = Some (false, self') /\ rtc evict c c2 /\ Forall held (items c2) /\
     capacity self' = capacity self /\
     state self' (Cache (items c2) (add_failure (stats c2)) (gone c2 ++ [v])) F' [] (it_slot <$> items c2)).
Proof.
  induction fuel as [|fuel IH]; intros self c F e HS He Hd Hf; [lia|].
  pose proof (s_core _ _ _ _ _ HS) as HC. destruct (hand_free _ _ _ _ _ HS) as [Hout Hi].
  pose proof (core_count _ _ _ _ _ HC) as Hn. pose proof (c_room _ _ _ _ _ HC) as Hroom.
  pose proof (c_cap _ _ _ _ _ HC) as Hcap.
  cbn [put_index]. unfold index_insert_robin. rewrite He. cbn [mbind option_bind].
  destruct (index_insert_spec (slots self) (index self) (it_slot <$> items c) i e)
    as (r & ix' & -> & _ & Hnc & _ & Hcase); [apply HC|rewrite length_fmap; lia|done|done| |].
  { unfold pinned. unfold data in Hd. simplify_eq. by replace (refcount e) with 0. }
  cbn [mbind option_bind fst snd].
  destruct Hcase as [[-> Hok]|(Hr & (er & Her & Hpr) & L' & HL' & Hok)].
  { rewrite Z.eqb_refl. left. exists c, c, F, (with_index self ix'). split_and!; try done; [by left| |].
    - intros j ej _ Hj. by exists ej.
    - by eapply state_with_index. }
  rewrite (proj2 (Z.eqb_neq _ _) Hr). destruct (Z.eqb_spec r i) as [->|Hri].
  - assert (L' ≡ₚ it_slot <$> items c) as HL by (by apply Permutation_cons_inv in HL').
    assert (state (with_index self ix') c F [i] (it_slot <$> items c)) as HS1.
    { eapply state_with_index; [done| |done]. by eapply index_ok_perm. }
    destruct (evict_tail_spec _ _ _ _ HS1) as [(c' & j & s2 & -> & Hev & Hk & Hcap2 & HS2)|[-> Hheld]];
      cbn [mbind option_bind fst snd].
    + destruct (Hk i e) as (e2 & He2 & Hd2); [set_solver|done|].
      pose proof (evict_shorter _ _ Hev) as Hlt.
      destruct (IH s2 c' (j :: F) e2 HS2 He2) as [(c2 & c3 & F' & s3 & -> & Hc2 & Hc3 & Hcap3 & Hk3 & HS3)|
        (c2 & F' & s3 & -> & Hc2 & Hheld & Hcap3 & HS3)]; [congruence|lia|left|right].
      * exists c2, c3, F', s3. split_and!; try done; [by eapply rtc_l|by rewrite Hcap3, Hcap2|].
        by eapply (keeps_trans self s2).
      * exists c2, F', s3. split_and!; try done; [by eapply rtc_l|by rewrite Hcap3, Hcap2].
    + right. assert (aget (slots (with_index self ix')) i = Some e) as He' by done. rewrite He'. cbn [mbind option_bind].
      assert (value e = Some v) as Hv by (unfold data in Hd; congruence).
      destruct (return_slot _ _ _ _ _ e v HS1 Hout He' Hv) as (s2 & s3 & -> & Hp & Hcap3 & HS3).
      cbn [mbind option_bind]. rewrite Hp. cbn [mbind option_bind]. rewrite Hv.
      eexists c, (i :: F), _. split; [done|]. split; [done|]. split; [done|]. split; [done|]. done.
  - left. assert (r ∈ it_slot <$> items c) as (it & -> & Hit)%list_elem_of_fmap.
    { assert (r ∈ i :: (it_slot <$> items c)) as Hin by (rewrite <-HL'; left). set_solver. }
    assert (loose it) as Hl.
    { pose proof (pinned_item _ _ _ _ _ it er HC Hit Her) as Hp. by rewrite Hpr in Hp. }
    apply list_elem_of_split in Hit as (A1 & A2 & HA). destruct c as [As st d]. cbn in HA, Hout, HL', HS |- *. subst As.
    assert (L' ≡ₚ i :: (it_slot <$> A1 ++ A2)) as HL.
    { apply (Permutation_cons_inv (a := it_slot it)). rewrite HL', fmap_cut. apply perm_swap. }
    destruct (drop_slot_spec (with_index self ix') A1 it A2 st d F [i] (i :: (it_slot <$> A1 ++ A2)))
      as (s2 & -> & Hk & Hcap2 & HS2).
    + eapply state_with_index; [done| |done]. by eapply index_ok_perm.
    + intros [?|Hin]%elem_of_cons; [done|]. apply (core_cut _ _ _ _ _ _ _ HC). set_solver.
    + cbn [mbind option_bind]. eexists _, _, _, s2. split; [done|]. split; [done|].
      split; [right; by constructor|]. split; [by rewrite Hcap2|]. split; [|exact HS2]. done.
Qed.
End ops.
