(* ===== verification/LruCorrect.v ===== *)
(** * The cache is correct

    [lru_create], [lru_get], [lru_put], the entry operations and [lru_destroy] of
    [src/src/util/lru.c] against the abstract cache of [LruSpec], one at a time and
    over every history: a value put is found again, a pinned entry stays, and every
    value given to the cache is destroyed exactly once. *)

From S2P Require Import Prelude Hash Lru LruLists LruIndex LruSpec LruProof.

#[local] Open Scope Z_scope.

(** ** Creation *)

(** Bit [j] of [x] is set when one of the [w] bits of [v] from [j] up is. *)
Definition smeared (v x w : Z) : Prop :=
  forall j, 0 <= j -> Z.testbit x j = true <-> exists t, 0 <= t < w /\ Z.testbit v (j + t) = true.

Lemma smear_step v x w : 0 < w -> smeared v x w -> smeared v (Z.lor x (Z.shiftr x w)) (2 * w).
Proof.
  intros Hw Hx j Hj. rewrite Z.lor_spec, Z.shiftr_spec, orb_true_iff, (Hx j Hj), (Hx (j + w)) by lia. split.
  - intros [(t & Ht & Hb)|(t & Ht & Hb)]; [exists t; split; [lia|done]|].
    exists (w + t). rewrite Z.add_assoc. split; [lia|done].
  - intros (t & Ht & Hb). destruct (decide (t < w)); [left; exists t; split; [lia|done]|].
    right. exists (t - w). split; [lia|]. by replace (j + w + (t - w)) with (j + t) by lia.
Qed.

Lemma next_pow2_ge_correct v :
  2 <= v <= 2 ^ 31 ->
  is_pow2 (next_pow2_ge v) /\ v <= next_pow2_ge v < 2 * v.
Proof.
  intros Hv. unfold next_pow2_ge. rewrite (proj2 (Z.ltb_ge v 2)) by lia. rewrite (u32_id (v - 1)) by clia.
  set (x5 := Z.lor _ (Z.shiftr _ 16)).
  assert (smeared (v - 1) x5 32) as Hs.
  { subst x5. apply (smear_step _ _ 16), (smear_step _ _ 8), (smear_step _ _ 4), (smear_step _ _ 2), (smear_step _ _ 1);
      try done.
    intros j Hj. split; [intros Hb; exists 0; rewrite Z.add_0_r; split; [lia|done]|].
    intros (t & Ht & Hb). by replace (j + t) with j in Hb by lia. }
  pose proof (Z.log2_nonneg (v - 1)) as Hl0. pose proof (Z.log2_spec (v - 1) ltac:(lia)) as Hl.
  assert (Z.log2 (v - 1) < 31) as Hl31 by (apply Z.log2_lt_pow2; lia).
  assert (x5 = Z.ones (Z.log2 (v - 1) + 1)) as Hx.
  { apply Z.bits_inj'. intros j Hj. apply eq_true_iff_eq. rewrite (Hs j Hj), Z.testbit_ones by lia.
    rewrite andb_true_iff, Z.leb_le, Z.ltb_lt. split.
    - intros (t & Ht & Hb). split; [done|]. destruct (decide (Z.log2 (v - 1) < j + t)); [|lia].
      rewrite Z.bits_above_log2 in Hb by lia. done.
    - intros [_ Hlt]. exists (Z.log2 (v - 1) - j). split; [lia|].
      replace (j + (Z.log2 (v - 1) - j)) with (Z.log2 (v - 1)) by lia. apply Z.bit_log2. lia. }
  rewrite Hx, Z.ones_equiv. replace (Z.succ (Z.pred (2 ^ (Z.log2 (v - 1) + 1)))) with (2 ^ (Z.log2 (v - 1) + 1)) by lia.
  replace (Z.pred (2 ^ (Z.log2 (v - 1) + 1)) + 1) with (2 ^ (Z.log2 (v - 1) + 1)) by lia.
  assert (2 ^ (Z.log2 (v - 1) + 1) <= 2 ^ 31) by (apply Z.pow_le_mono_r; lia).
  rewrite u32_id by clia. rewrite Z.pow_add_r, Z.pow_1_r in * by lia.
  split; [|rewrite <-Z.add_1_r in Hl; rewrite Z.pow_add_r in Hl by lia; lia].
  exists (Z.log2 (v - 1) + 1). rewrite Z.pow_add_r by lia. split; [lia|done].
Qed.

Section create.
Context {V : Type}.

Lemma seed_freelist_spec n : forall (self : lru V) i F,
  rings self [] F -> F ≡ₚ seqZ 0 i -> 0 <= i -> i + Z.of_nat n = zlen (slots self) ->
  exists self' F', seed_freelist n self i = Some self' /\ same_data self self' /\ rings self' [] F' /\
    F' ≡ₚ seqZ 0 (i + Z.of_nat n).
Proof.
  induction n as [|n IH]; intros self i F HR HF Hi Hn; cbn [seed_freelist].
  { exists self, F. by rewrite Z.add_0_r. }
  destruct (aget_is_Some (slots self) i) as [e He]; [lia|]. unfold list_init.
  destruct (set_link_spec self (Slot i) (Link (Slot i) (Slot i)) (link e)) as (s1 & -> & Hd1 & Hl1).
  { cbn. by rewrite He. }
  cbn [mbind option_bind].
  assert (i ∉ F) as HiF by (rewrite HF, elem_of_seqZ; lia).
  assert (rings s1 [] F) as HR1.
  { destruct HR as [HO HFr Hnd]. assert (Slot i ∉ Slot <$> F) by (by rewrite elem_of_Slot).
    constructor; [| |done]; (eapply linked_frame; [done|..]); intros k Hk; unfold nx, pv; rewrite Hl1, decide_False;
      try done; set_solver. }
  pose proof (same_data_length _ _ Hd1) as Hlen1.
  destruct (rings_push_free s1 i [] F HR1) as (s2 & -> & Hd2 & HR2); [done|lia|]. cbn [mbind option_bind].
  pose proof (same_data_length _ _ Hd2) as Hlen2.
  destruct (IH s2 (i + 1) (i :: F) HR2) as (s3 & F' & -> & Hd3 & HR3 & HF3).
  - rewrite seqZ_succ by done. rewrite HF. by rewrite Permutation_app_comm.
  - lia.
  - lia.
  - exists s3, F'. split_and!; try done; [by do 2 (etrans; [done|])|].
    rewrite HF3. by replace (i + 1 + Z.of_nat n) with (i + Z.of_nat (S n)) by lia.
Qed.

Lemma live_replicate n : live (replicate n LRU_NIL) = [].
Proof. induction n as [|n IH]; [done|]. unfold live in *. cbn. by rewrite decide_False by auto. Qed.

Lemma aget_replicate_inv {A} n (x y : A) i : aget (replicate n x) i = Some y -> y = x.
Proof. intros [_ H]%aget_lookup. by apply lookup_replicate in H as [-> _]. Qed.

(** The empty cache. *)
Definition empty_cache : cache V := Cache [] zero_counters [].

Lemma order_walk_spec {A} (self : lru V) (As : list (item V)) F H L (f : A -> lru_entry V -> A) fuel : forall A1 A2 acc,
  core self As F H L -> As = A1 ++ A2 -> (length A2 <= fuel)%nat ->
  exists es, Forall2 (fun it e => aget (slots self) (it_slot it) = Some e /\
      data e = (it_hash it, Some (it_value it), it_ref it)) A2 es /\
    order_walk fuel self f (default Order (head (Slot <$> (it_slot <$> A2)))) acc = Some (foldl f acc es).
Proof.
  induction fuel as [|fuel IH]; intros A1 A2 acc HC HA Hf;
    (destruct A2 as [|it A2]; [exists []; by split|]); cbn [length] in Hf; [lia|].
  pose proof (c_items _ _ _ _ _ HC) as Hit. rewrite HA, Forall_app, Forall_cons in Hit. destruct Hit as (_ & (e & He & Hd) & _).
  cbn [head fmap list_fmap from_option id order_walk node_slot]. rewrite decide_False by done.
  cbn [mbind option_bind]. rewrite He. cbn [mbind option_bind].
  pose proof (c_rings _ _ _ _ _ HC) as HR. rewrite HA, fmap_app, fmap_cons in HR.
  rewrite (proj1 (rings_slot _ _ _ _ _ _ HR He)).
  destruct (IH (A1 ++ [it]) A2 (f acc e) HC) as (es & Hes & ->); [by rewrite <-app_assoc|lia|].
  exists (e :: es). split; [by constructor|done].
Qed.

Lemma order_fold_spec {A} (self : lru V) As F H L (f : A -> lru_entry V -> A) acc :
  core self As F H L ->
  exists es, Forall2 (fun it e => aget (slots self) (it_slot it) = Some e /\
      data e = (it_hash it, Some (it_value it), it_ref it)) As es /\
    order_fold self f acc = Some (foldl f acc es).
Proof.
  intros HC. unfold order_fold. rewrite (rings_first _ _ _ (c_rings _ _ _ _ _ HC)).
  apply (order_walk_spec self As F H L f _ [] As acc HC); [done|].
  pose proof (core_count _ _ _ _ _ HC). lia.
Qed.

Lemma create_state cap mp F (self : lru V) n :
  0 < cap <= 2 ^ 30 -> 0 < mp < UINT32_MAX -> n = next_pow2_ge (u32 (2 * cap)) ->
  rings self [] F -> F ≡ₚ seqZ 0 cap ->
  same_data (Lru (replicate (Z.to_nat cap) zero_entry) cap 0
    (Index (replicate (Z.to_nat n) LRU_NIL) n (u32 (n - 1)) mp 0) (Link Order Order) (Link Free Free) zero_counters []) self ->
  state self empty_cache F [] [].
Proof.
  intros Hcap Hmp -> HR HF Hd. rewrite (u32_id (2 * cap)) in * by clia.
  destruct (next_pow2_ge_correct (2 * cap)) as [Hp2 Hn]; [clia|].
  set (n := next_pow2_ge (2 * cap)) in *.
  assert (n <= 2 ^ 31) as Hn31.
  { destruct Hp2 as (k & Hk & ->). destruct (decide (k <= 31)); [apply Z.pow_le_mono_r; lia|].
    assert (2 ^ 32 <= 2 ^ k) by (apply Z.pow_le_mono_r; lia). clia. }
  constructor; cbn [items empty_cache stats gone].
  - constructor; rewrite ?(sd_capacity _ _ Hd), ?(same_data_length _ _ Hd), ?(sd_index _ _ Hd); cbn; try done.
    + rewrite length_replicate. lia.
    + by rewrite app_nil_r.
    + constructor; cbn.
      * constructor; cbn; try done; [rewrite u32_id; clia|rewrite length_replicate; lia|clia].
      * intros c i Hi Hne. by apply aget_replicate_inv in Hi.
      * by rewrite live_replicate.
    + lia.
    + apply Forall_forall. intros i Hi. rewrite HF, elem_of_seqZ in Hi.
      eapply cleared_same; [exact Hd|]. exists zero_entry. split; [|done]. cbn.
      apply aget_lookup. split; [lia|]. apply lookup_replicate. split; [done|lia].
  - by rewrite (sd_size _ _ Hd).
  - by rewrite (sd_counters _ _ Hd).
  - by rewrite (sd_destroyed _ _ Hd).
Qed.

(** The state a creation leaves. *)
Definition created (cap mp : Z) (self : lru V) : Prop :=
  capacity self = cap /\ n_cells (index self) = next_pow2_ge (2 * cap) /\ max_probe (index self) = mp /\
  exists F, state self empty_cache F [] [].

Lemma lru_create_ok alloc cap mp :
  0 < cap <= 2 ^ 30 -> 0 < mp < UINT32_MAX -> alloc 0%nat && alloc 1%nat && alloc 2%nat = true ->
  exists self, lru_create alloc cap mp = Some (Some self) /\ created cap mp self.
Proof.
  intros Hcap Hmp [[Ha0 Ha1]%andb_true_iff Ha2]%andb_true_iff. unfold lru_create.
  rewrite (proj2 (Z.ltb_lt 0 cap)), (proj2 (Z.ltb_lt 0 mp)), Ha0, Ha1, Ha2 by lia.
  cbn [negb orb list_init set_link mbind option_bind with_slots with_index with_cells index slots size capacity
       lru_order freelist counters destroyed n_cells mask max_probe max_probe_observed].
  match goal with |- context [seed_freelist _ ?s 0] => set (s0 := s) end.
  destruct (seed_freelist_spec (Z.to_nat cap) s0 0 []) as (s & F & -> & Hd & HR & HF).
  - constructor; [done|done|constructor].
  - done.
  - done.
  - cbn. rewrite length_replicate. lia.
  - cbn [mbind option_bind]. exists s. split; [done|].
    replace (0 + Z.of_nat (Z.to_nat cap)) with cap in HF by lia.
    pose proof (create_state cap mp F s _ Hcap Hmp eq_refl HR HF Hd) as HS.
    split; [by rewrite (sd_capacity _ _ Hd)|]. rewrite (sd_index _ _ Hd). cbn.
    split; [by rewrite u32_id by clia|]. split; [done|]. by exists F.
Qed.
End create.

Section abstract.
Context {V K : Type} (eq : V -> K -> bool).
Implicit Types (c : cache V) (A : list (item V)).

(** ** The abstract cache *)

(** The values the cache has been given and not handed back. *)
Definition owned c : list V := gone c ++ (it_value <$> items c).

Lemma owned_cut (A1 : list (item V)) it A2 d :
  (d ++ [it_value it]) ++ (it_value <$> A1 ++ A2) ≡ₚ d ++ (it_value <$> A1 ++ it :: A2).
Proof. rewrite !fmap_app, fmap_cons. solve_Permutation. Qed.

Lemma evict_owned c c' : evict c c' -> owned c' ≡ₚ owned c.
Proof. destruct 1. apply owned_cut. Qed.

Lemma displace_owned c c' : displace c c' -> owned c' ≡ₚ owned c.
Proof. destruct 1. apply owned_cut. Qed.

Lemma evicts_owned c c' : rtc evict c c' -> owned c' ≡ₚ owned c.
Proof. induction 1 as [|c1 c2 c3 He _ IH]; [done|]. by rewrite IH, (evict_owned _ _ He). Qed.

(** Only items that are not held leave, and none appear. *)
Definition shrinks c c' : Prop :=
  forall it, (it ∈ items c' -> it ∈ items c) /\ (it ∈ items c -> held it -> it ∈ items c').

#[export] Instance shrinks_preorder : PreOrder shrinks.
Proof. split; [by intros c it|]. intros a b c H1 H2 it. specialize (H1 it). specialize (H2 it). tauto. Qed.

Lemma cut_shrinks A1 it A2 st st' d d' :
  loose it -> shrinks (Cache (A1 ++ it :: A2) st d) (Cache (A1 ++ A2) st' d').
Proof.
  intros Hl x. cbn. rewrite !elem_of_app, elem_of_cons. split; [tauto|].
  intros [?|[->|?]] Hh; [tauto| |tauto]. unfold loose, held in *. lia.
Qed.

Lemma evict_shrinks c c' : evict c c' -> shrinks c c'.
Proof. destruct 1. by apply cut_shrinks. Qed.
Lemma displace_shrinks c c' : displace c c' -> shrinks c c'.
Proof. destruct 1. by apply cut_shrinks. Qed.
Lemma evicts_shrinks c c' : rtc evict c c' -> shrinks c c'.
Proof. induction 1 as [|c1 c2 c3 He _ IH]; [done|]. etrans; [by apply evict_shrinks|done]. Qed.

Lemma put_new_facts cap c c1 c2 c3 :
  (if decide (zlen (items c) = cap) then evict c c1 else c1 = c) -> rtc evict c1 c2 ->
  (c2 = c3 \/ displace c2 c3) -> owned c3 ≡ₚ owned c /\ shrinks c c3.
Proof.
  intros H1 H2 H3.
  assert (owned c1 ≡ₚ owned c /\ shrinks c c1) as [O1 S1].
  { case_decide; [split; [by apply evict_owned|by apply evict_shrinks]|by subst]. }
  assert (owned c3 ≡ₚ owned c2 /\ shrinks c2 c3) as [O3 S3].
  { destruct H3 as [->|H3]; [done|]. split; [by apply displace_owned|by apply displace_shrinks]. }
  split; [by rewrite O3, (evicts_owned _ _ H2)|]. etrans; [done|]. etrans; [by apply evicts_shrinks|done].
Qed.

Lemma get_step_facts h k c r c' : get_step eq h k c r c' -> owned c' ≡ₚ owned c /\ items c' ≡ₚ items c.
Proof.
  destruct 1 as [A1 it A2 st d Hh|A st d Hh]; [|done]. cbn [items]. unfold owned. cbn [items gone].
  rewrite <-Permutation_middle. done.
Qed.

(** A put destroys or keeps the value it was given and every other one, and held
    items stay as they are. *)
Lemma put_step_facts cap h k v c r c' :
  put_step eq cap h k v c r c' ->
  owned c' ≡ₚ v :: owned c /\ forall it, it ∈ items c -> held it -> it ∈ items c'.
Proof.
  destruct 1 as [A1 it A2 st d Hh Hl|A1 it A2 st d Hh Hl|c c1 c2 c3 i Hno H1 H2 H3 Hi Hn|c c2 Hno H2 Hall].
  - split.
    + unfold owned. cbn [items gone]. rewrite fmap_cons. cbn [it_value]. rewrite <-Permutation_middle. constructor. apply owned_cut.
    + cbn [items]. intros x. rewrite elem_of_cons, !elem_of_app, elem_of_cons. intros [?|[->|?]] Hx; [tauto| |tauto].
      unfold loose, held in *. lia.
  - split; [|done]. unfold owned. cbn [items gone]. solve_Permutation.
  - destruct (put_new_facts cap c c1 c2 c3 H1 H2 H3) as [Ho Hs]. split.
    + unfold owned in *. cbn [items gone]. rewrite fmap_cons, <-Permutation_middle. by constructor.
    + intros it Hit Hh. right. by apply Hs.
  - pose proof (evicts_owned _ _ H2) as Ho. split.
    + unfold owned in *. cbn [items gone]. rewrite <-Ho. solve_Permutation.
    + intros it Hit Hh. cbn. by apply (evicts_shrinks _ _ H2).
Qed.

Lemma distinct_sub A A' : distinct eq A -> (forall it, it ∈ A' -> it ∈ A) -> distinct eq A'.
Proof. intros Hd Hs it it' k Hi Hi'. apply Hd; eauto. Qed.

(** The key of a value: values that share one key share all. *)
Class KeyedEq : Prop := keyed : forall v w k k', eq v k = true -> eq v k' = true -> eq w k = eq w k'.

Lemma distinct_add `{!KeyedEq} A it k :
  distinct eq A -> eq (it_value it) k = true ->
  (forall it', it' ∈ A -> it_hash it' = it_hash it -> eq (it_value it') k = false) -> distinct eq (it :: A).
Proof.
  intros Hd Hk Hno a b q [->|Ha]%elem_of_cons [->|Hb]%elem_of_cons Hh Haq Hbq; [done| | |by eapply Hd].
  - specialize (Hno b Hb). rewrite (keyed (it_value it) (it_value b) k q) in Hno by done. rewrite Hno in Hbq by done. done.
  - specialize (Hno a Ha). rewrite (keyed (it_value it) (it_value a) k q) in Hno by done. rewrite Hno in Haq by done. done.
Qed.

Lemma put_step_distinct `{!KeyedEq} cap h k v c r c' :
  put_step eq cap h k v c r c' -> NoDup (it_slot <$> items c) -> eq v k = true ->
  distinct eq (items c) -> distinct eq (items c').
Proof.
  destruct 1 as [A1 it A2 st d Hh Hl|A1 it A2 st d Hh Hl|c c1 c2 c3 i Hno H1 H2 H3 Hi Hn|c c2 Hno H2 Hall];
    intros Hnd Hv Hd; cbn [items] in *.
  - apply andb_true_iff in Hh as [Hh%Z.eqb_eq Hk]. apply (distinct_add _ _ k); [|done|].
    + eapply distinct_sub; [done|]. set_solver.
    + intros it' Hit' Hhash. destruct (eq (it_value it') k) eqn:E; [|done]. exfalso. cbn in Hhash.
      assert (it' = it) as -> by (eapply Hd; eauto; set_solver).
      rewrite fmap_app, fmap_cons, <-Permutation_middle, <-fmap_app in Hnd. apply NoDup_cons in Hnd as [Hnd _].
      apply Hnd, list_elem_of_fmap. eauto.
  - done.
  - destruct (put_new_facts cap c c1 c2 c3 H1 H2 H3) as [_ Hs]. apply (distinct_add _ _ k); [|done|].
    + eapply distinct_sub; [done|]. apply Hs.
    + intros it' Hit' Hhash. apply Hs in Hit'. rewrite Forall_forall in Hno. specialize (Hno it' Hit').
      unfold hits_key in Hno. rewrite Hhash in Hno. cbn in Hno. by rewrite Z.eqb_refl in Hno.
  - eapply distinct_sub; [done|]. apply (evicts_shrinks _ _ H2).
Qed.
End abstract.

Section refine.
Context {V K : Type} (eq : V -> K -> bool).
Implicit Types (self : lru V) (c : cache V) (A : list (item V)) (F H L : list Z).

(** ** One operation *)

Lemma state_perm self c F H L L' : state self c F H L -> L ≡ₚ L' -> state self c F H L'.
Proof.
  intros [[] ? ? ?] Hp. constructor; try done. constructor; try done. by eapply index_ok_perm.
Qed.

Lemma promote_spec self A1 it A2 st d F :
  state self (Cache (A1 ++ it :: A2) st d) F [] (it_slot <$> A1 ++ it :: A2) ->
  exists self', list_promote self Order (Slot (it_slot it)) = Some self' /\ same_data self self' /\
    state self' (Cache (it :: A1 ++ A2) st d) F [] (it_slot <$> it :: A1 ++ A2).
Proof.
  intros HS. pose proof (s_core _ _ _ _ _ HS) as HC. cbn [items] in HC.
  destruct (core_item _ _ _ _ _ it HC) as (_ & _ & _ & _ & _ & _ & Hr); [set_solver|].
  destruct (rings_promote self (it_slot <$> A1) (it_slot it) (it_slot <$> A2) F) as (s & Hp & Hd & HR).
  { rewrite <-fmap_cons, <-fmap_app. apply HC. } { done. }
  exists s. split; [done|]. split; [done|]. apply (state_perm _ _ _ _ (it_slot <$> A1 ++ it :: A2)); [|apply fmap_cut].
  destruct HS as [_ Hsz Hst Hg]. cbn [items stats gone] in Hsz, Hst, Hg.
  assert (it :: A1 ++ A2 ≡ₚ A1 ++ it :: A2) as Hperm by apply Permutation_middle.
  constructor; cbn [items stats gone].
  - eapply core_relink; [done|done|by rewrite fmap_cons, fmap_app|by rewrite Hperm| | |apply HC]; rewrite Hperm; apply HC.
  - by rewrite (sd_size _ _ Hd), Hsz, Hperm.
  - by rewrite (sd_counters _ _ Hd).
  - by rewrite (sd_destroyed _ _ Hd).
Qed.

Lemma state_counters self c F H L st' :
  state self c F H L -> state (with_counters self st') (Cache (items c) st' (gone c)) F H L.
Proof. intros [HC ? ? ?]. constructor; try done. by apply (core_ext self). Qed.

Lemma state_destroy self c F H L v :
  state self c F H L -> state (ops_destroy self (Some v)) (Cache (items c) (stats c) (gone c ++ [v])) F H L.
Proof. intros [HC ? ? Hg]. constructor; try done; [by apply (core_ext self)|]. cbn. by rewrite Hg. Qed.

Lemma get_refines self c h k :
  rep eq self c ->
  exists r self' c', lru_get eq self h k = Some (r, self') /\ get_step eq h k c r c' /\ rep eq self' c' /\
    capacity self' = capacity self.
Proof.
  intros [Hd [F HS]]. destruct c as [A st d]. cbn [items] in *. pose proof (s_core _ _ _ _ _ HS) as HC. cbn [items] in HC.
  unfold lru_get. destruct (lookup_spec eq self A F [] h k HC) as [(A1 & it & A2 & cell & -> & -> & Hcn & Hcell & Hh)|[-> Hno]];
    cbn [mbind option_bind].
  - rewrite (proj2 (Z.eqb_neq _ _) Hcn), Hcell. cbn [mbind option_bind].
    destruct (promote_spec self A1 it A2 st d F HS) as (s & -> & Hsd & HS'). cbn [mbind option_bind].
    eexists _, _, _. split; [done|]. split; [by apply GetHit|]. split; [|apply (sd_capacity _ _ Hsd)].
    pose proof (s_stats _ _ _ _ _ HS') as Hst. cbn in Hst. split; [|exists F].
    + eapply distinct_sub; [done|]. cbn. set_solver.
    + rewrite Hst. by eapply (state_counters _ (Cache _ st d)).
  - rewrite Z.eqb_refl. eexists _, _, _. split; [done|]. split; [by apply GetMiss|]. split; [|done].
    split; [done|]. exists F. pose proof (s_stats _ _ _ _ _ HS) as Hst. cbn in Hst. rewrite Hst.
    by eapply (state_counters _ (Cache _ st d)).
Qed.

Lemma core_update self A1 it A2 F H L it' e e' s :
  core self (A1 ++ it :: A2) F H L -> it_slot it' = it_slot it -> it_hash it' = it_hash it ->
  aget (slots self) (it_slot it) = Some e -> link e' = link e -> aset (slots self) (it_slot it) e' = Some s ->
  data e' = (it_hash it', Some (it_value it'), it_ref it') -> is_u32 (it_ref it') ->
  core (with_slots self s) (A1 ++ it' :: A2) F H L.
Proof.
  intros HC Hsl Hh He Hlk Hs Hd Hu. pose proof (core_cut _ _ _ _ _ _ _ HC) as Hcut.
  destruct (core_item _ _ _ _ _ it HC) as (e0 & He0 & Hhe & _); [set_solver|]. assert (e0 = e) as -> by congruence.
  destruct HC.
  assert (it_slot <$> A1 ++ it' :: A2 = it_slot <$> A1 ++ it :: A2) as Hfm by (by rewrite !fmap_app, !fmap_cons, Hsl).
  rewrite Forall_app, Forall_cons in c_items, c_refs. destruct c_items as (HA1 & _ & HA2), c_refs as (HU1 & _ & HU2).
  assert (forall x, x ∈ A1 ++ A2 -> holds self x -> holds (with_slots self s) x) as Hkeep.
  { intros x Hx (ex & Hex & Hdx). exists ex. split; [|done]. cbn. rewrite (aget_aset_ne _ _ _ _ _ Hs); [done|].
    intros Hxe. apply Hcut. rewrite Hxe. apply elem_of_app. left. apply list_elem_of_fmap. eauto. }
  constructor; cbn [with_slots capacity slots index]; rewrite ?(length_aset _ _ _ _ Hs), ?Hfm; try done.
  - apply rings_slots; [done| |by apply (length_aset _ _ _ _ Hs)].
    intros j ej. rewrite (aget_aset _ _ _ _ _ Hs). case_decide as E; [|eauto]. intros [= <-]. subst j. eauto.
  - eapply index_ok_slots; [done|]. intros j ej Hj Hej. rewrite (aget_aset _ _ _ _ _ Hs). case_decide as E; [|eauto].
    subst j. exists e'. split; [done|]. unfold data in Hd. simplify_eq. congruence.
  - apply Forall_app. split; [|constructor].
    + rewrite Forall_forall in HA1 |- *. intros x Hx. apply Hkeep; [set_solver|auto].
    + exists e'. cbn. rewrite Hsl. split; [by eapply aget_aset_eq|done].
    + rewrite Forall_forall in HA2 |- *. intros x Hx. apply Hkeep; [set_solver|auto].
  - apply Forall_app. split; [done|]. by constructor.
  - rewrite Forall_forall in c_free |- *. intros j Hj. destruct (c_free j Hj) as (ej & Hej & Hdj). exists ej.
    split; [|done]. cbn. rewrite (aget_aset_ne _ _ _ _ _ Hs); [done|]. intros <-. apply Hcut. set_solver.
Qed.

Lemma state_update self A1 it A2 st d F H L it' e e' s :
  state self (Cache (A1 ++ it :: A2) st d) F H L -> it_slot it' = it_slot it -> it_hash it' = it_hash it ->
  aget (slots self) (it_slot it) = Some e -> link e' = link e -> aset (slots self) (it_slot it) e' = Some s ->
  data e' = (it_hash it', Some (it_value it'), it_ref it') -> is_u32 (it_ref it') ->
  state (with_slots self s) (Cache (A1 ++ it' :: A2) st d) F H L.
Proof.
  intros [HC Hsz Hst Hg] Hsl Hh He Hlk Hs Hd Hu. constructor; [by eapply core_update| |done|done].
  cbn in *. rewrite Hsz. by rewrite !length_app.
Qed.

Lemma put_fail_spec self c F H L v :
  state self c F H L -> state (put_fail self v) (Cache (items c) (add_failure (stats c)) (gone c ++ [v])) F H L.
Proof.
  intros HS. unfold put_fail. rewrite (s_stats _ _ _ _ _ HS).
  by apply (state_destroy _ (Cache (items c) (add_failure (stats c)) (gone c))), state_counters.
Qed.

Lemma put_replace_spec self A1 it A2 st d F h k v :
  state self (Cache (A1 ++ it :: A2) st d) F [] (it_slot <$> A1 ++ it :: A2) -> hits_key eq h k it = true ->
  exists r self' c', put_replace self (it_slot it) v = Some (r, self') /\
    put_step eq (capacity self) h k v (Cache (A1 ++ it :: A2) st d) r c' /\
    state self' c' F [] (it_slot <$> items c') /\ capacity self' = capacity self.
Proof.
  intros HS Hh. pose proof (s_core _ _ _ _ _ HS) as HC. cbn [items] in HC.
  destruct (core_item _ _ _ _ _ it HC) as (e & He & Hhe & Hv & Hre & Hn & Hr); [set_solver|].
  assert (if pinned e then held it else loose it) as Hpin by (eapply pinned_item; [done|set_solver|done]).
  unfold put_replace. rewrite He. cbn [mbind option_bind]. destruct (pinned e).
  - eexists _, _, _. split; [done|]. split; [by apply PutHeld|]. split; [|done].
    apply (put_fail_spec _ _ _ _ _ v HS).
  - destruct (aset (slots self) (it_slot it) (Entry (e_hash e) (Some v) (refcount e) (link e))) as [s|] eqn:Hs;
      [|by rewrite aset_range in Hs].
    cbn [mbind option_bind]. unfold loose in Hpin.
    assert (state (with_slots self s) (Cache (A1 ++ Item (it_slot it) (it_hash it) v 0 :: A2) st d) F []
      (it_slot <$> A1 ++ it :: A2)) as HS1.
    { eapply (state_update self A1 it A2 st d F [] _ (Item (it_slot it) (it_hash it) v 0) e _ s HS eq_refl eq_refl He); [|exact Hs| |done]; [done|]. unfold data. cbn. by rewrite Hhe, Hre, Hpin. }
    destruct (promote_spec (with_slots self s) A1 (Item (it_slot it) (it_hash it) v 0) A2 st d F) as (s2 & Hp & Hd & HS2).
    { rewrite !fmap_app, !fmap_cons in *. done. }
    cbn [it_slot] in Hp. rewrite Hp. cbn [mbind option_bind]. rewrite Hv.
    eexists _, _, _. split; [done|]. split; [by apply PutReplace|]. split; [|exact (sd_capacity _ _ Hd)].
    pose proof (s_stats _ _ _ _ _ HS2) as Hst. cbn in Hst. rewrite Hst.
    by apply (state_destroy _ (Cache _ (add_replacement st) d)), (state_counters _ (Cache _ st d)).
Qed.

Lemma put_link_spec self c F i h v L e :
  state self c F [i] (i :: L) -> L = it_slot <$> items c ->
  aget (slots self) i = Some e -> data e = (h, Some v, 0) ->
  exists self', list_push_front self Order (Slot i) = Some self' /\ capacity self' = capacity self /\
    state (with_counters (with_size self' (u32 (size self' + 1))) (add_insertion (counters self')))
      (Cache (Item i h v 0 :: items c) (add_insertion (stats c)) (gone c)) F [] (it_slot <$> Item i h v 0 :: items c).
Proof.
  intros [HC Hsz Hst Hg] -> He Hde. pose proof (core_nodup _ _ _ _ _ HC) as Hnd. rewrite app_assoc in Hnd.
  pose proof (core_count _ _ _ _ _ HC) as Hn. pose proof (c_cap _ _ _ _ _ HC) as Hcap.
  destruct (rings_push_order self i (it_slot <$> items c) F) as (s & Hp & Hd & HR).
  { apply HC. } { apply NoDup_app in Hnd as (_ & Hnd & _). intros Hin. apply (Hnd i Hin). left. }
  { by eapply aget_Some_range. }
  exists s. split; [done|]. split; [apply (sd_capacity _ _ Hd)|]. constructor; cbn [items stats gone].
  - apply (core_ext s); [|done..]. eapply core_relink; [exact HC|exact Hd|exact HR|..].
    + rewrite fmap_cons. cbn [it_slot]. solve_Permutation.
    + constructor; [|apply HC]. exists e. done.
    + constructor; [done|apply HC].
    + apply HC.
  - cbn. rewrite (sd_size _ _ Hd), Hsz. rewrite u32_id; cbn in *; clia.
  - cbn. by rewrite (sd_counters _ _ Hd), Hst.
  - cbn. by rewrite (sd_destroyed _ _ Hd).
Qed.

Lemma put_refines `{!KeyedEq eq} self c h k v :
  rep eq self c -> eq v k = true ->
  exists r self' c', lru_put eq self h k v = Some (r, self') /\
    put_step eq (capacity self) h k v c r c' /\ rep eq self' c' /\ capacity self' = capacity self.
Proof.
  intros [Hdis [F HS]] Hv. pose proof (s_core _ _ _ _ _ HS) as HC.
  assert (NoDup (it_slot <$> items c)) as Hnd.
  { pose proof (core_nodup _ _ _ _ _ HC) as Hn. by apply NoDup_app in Hn as (? & _). }
  assert (exists r self' c' F', lru_put eq self h k v = Some (r, self') /\
    put_step eq (capacity self) h k v c r c' /\ state self' c' F' [] (it_slot <$> items c') /\
    capacity self' = capacity self) as (r & s & c' & F' & Hp & Hst & HS' & Hcap).
  2: { exists r, s, c'. split_and!; try done. split; [by eapply put_step_distinct|by exists F']. }
  unfold lru_put. destruct (lookup_spec eq self (items c) F [] h k HC)
    as [(A1 & it & A2 & cell & HA & -> & Hcn & Hcell & Hh)|[-> Hno]]; cbn [mbind option_bind].
  { rewrite (proj2 (Z.eqb_neq _ _) Hcn). cbn [negb]. rewrite Hcell. cbn [mbind option_bind].
    destruct c as [A st d]. cbn [items] in *. subst A.
    destruct (put_replace_spec self A1 it A2 st d F h k v HS Hh) as (r & s & c' & ? & ? & ? & ?).
    exists r, s, c', F. done. }
  rewrite Z.eqb_refl. cbn [negb].
  destruct (put_alloc_spec self c F HS) as [(c1 & i & F1 & s1 & -> & Hi & Hev & Hcap1 & HS1)|[-> Hheld]];
    cbn [mbind option_bind].
  2: { rewrite Z.eqb_refl. eexists _, _, _, F. split; [done|]. split; [by apply (PutFail eq _ h k v c c)|].
       split; [|done]. by apply put_fail_spec. }
  rewrite (proj2 (Z.eqb_neq _ _) Hi).
  pose proof (s_core _ _ _ _ _ HS1) as HC1. destruct (hand_free _ _ _ _ _ HS1) as [Hout _].
  destruct (core_slot_range _ _ _ _ _ i HC1) as [Hr _]; [set_solver|].
  destruct (aget_is_Some (slots s1) i Hr) as [e He]. rewrite He. cbn [mbind option_bind].
  destruct (aset (slots s1) i (Entry h (Some v) 0 (link e))) as [sl|] eqn:Hs; [|by rewrite aset_range in Hs].
  cbn [mbind option_bind].
  assert (state (with_slots s1 sl) c1 F1 [i] (it_slot <$> items c1)) as HS2.
  { destruct HS1 as [? ? ? ?]. constructor; try done. eapply (core_write s1 _ _ _ _ i e _ sl HC1); [left|done|done| |exact Hs]. done. }
  pose proof (core_count _ _ _ _ _ HC1) as Hn.
  destruct (put_index_spec h v i (Z.to_nat (capacity s1)) (with_slots s1 sl) c1 F1 (Entry h (Some v) 0 (link e)) HS2)
    as [(c2 & c3 & F' & s3 & -> & Hc2 & Hc3 & Hcap3 & Hk & HS3)|(c2 & F' & s3 & -> & Hc2 & Hheld & Hcap3 & HS3)].
  { by eapply aget_aset_eq. } { done. } { cbn in Hn. lia. }
  - cbn [mbind option_bind].
    destruct (Hk i (Entry h (Some v) 0 (link e))) as (e3 & He3 & Hd3); [set_solver|by eapply aget_aset_eq|].
    destruct (put_link_spec s3 c3 F' i h v _ e3 HS3 eq_refl He3 Hd3) as (s4 & -> & Hcap4 & HS4). cbn [mbind option_bind].
    destruct (hand_free _ _ _ _ _ HS3) as [Hout3 _].
    eexists _, _, _, F'. split; [done|]. split; [by eapply (PutNew eq _ h k v c c1 c2 c3 i)|].
    split; [done|]. cbn. rewrite Hcap4, Hcap3. done.
  - cbn [mbind option_bind]. eexists _, _, (Cache (items c2) (add_failure (stats c2)) (gone c2 ++ [v])), F'.
    split; [done|]. split; [|split; [done|by rewrite Hcap3]].
    apply (PutFail eq _ h k v c c2); [done| |done].
    case_decide; [by eapply rtc_l|by subst c1].
Qed.
End refine.
