(* ===== verification/LruClaims.v ===== *)
(** * Theorems on the cache

    The results on [src/src/util/lru.c]: creation, lookup, insertion and every
    history of operations up to destruction. *)

From S2P Require Import Prelude Hash Lru LruLists LruIndex LruSpec LruProof LruCorrect.

#[local] Open Scope Z_scope.

Section histories.
Context {V K : Type} (eq : V -> K -> bool).
Implicit Types (self : lru V) (c : cache V) (A : list (item V)).

(** ** Creation that fails *)

Lemma lru_create_null alloc cap mp :
  (cap <= 0 \/ mp <= 0 \/ alloc 0%nat && alloc 1%nat && alloc 2%nat = false) ->
  lru_create (V := V) alloc cap mp = Some None.
Proof.
  intros H. unfold lru_create.
  destruct (Z.ltb_spec 0 cap); cbn [negb orb]; [|done]. destruct (Z.ltb_spec 0 mp); cbn [negb]; [|done].
  destruct (alloc 0%nat); cbn [negb]; [|done]. cbn [andb] in H.
  assert (Z.to_nat cap <> 0%nat) as Hn by lia.
  cbn [list_init set_link mbind option_bind]. destruct (alloc 1%nat); cbn [negb].
  - destruct (alloc 2%nat); cbn [negb]; [cbn in H; lia|].
    unfold lru_destroy, order_fold. cbn. destruct (Z.to_nat cap); done.
  - unfold lru_destroy, order_fold. cbn. destruct (Z.to_nat cap); done.
Qed.

(** ** Pins *)

Definition set_ref (it : item V) (n : Z) : item V := Item (it_slot it) (it_hash it) (it_value it) n.

Lemma set_refcount_spec self A1 it A2 st d F n :
  state self (Cache (A1 ++ it :: A2) st d) F [] (it_slot <$> A1 ++ it :: A2) -> is_u32 n ->
  exists self', set_refcount self (it_slot it) n = Some self' /\ capacity self' = capacity self /\
    state self' (Cache (A1 ++ set_ref it n :: A2) st d) F [] (it_slot <$> A1 ++ set_ref it n :: A2).
Proof.
  intros HS Hn. pose proof (s_core _ _ _ _ _ HS) as HC. cbn [items] in HC.
  destruct (core_item _ _ _ _ _ it HC) as (e & He & Hh & Hv & Hre & _ & Hr); [set_solver|].
  unfold set_refcount. rewrite He. cbn [mbind option_bind].
  destruct (aset (slots self) (it_slot it) (Entry (e_hash e) (value e) n (link e))) as [s|] eqn:Hs; [|by rewrite aset_range in Hs].
  cbn [mbind option_bind]. eexists. split; [done|]. split; [done|].
  assert (it_slot <$> A1 ++ set_ref it n :: A2 = it_slot <$> A1 ++ it :: A2) as -> by (by rewrite !fmap_app, !fmap_cons).
  eapply (state_update self A1 it A2 st d F [] _ (set_ref it n) e _ s HS eq_refl eq_refl He); [|exact Hs| |done]; [done|].
  unfold data. cbn. by rewrite Hh, Hv.
Qed.

(** The item of a slot that holds a value. *)
Lemma live_item self c F H i e v :
  state self c F [] H -> aget (slots self) i = Some e -> value e = Some v ->
  exists it, it ∈ items c /\ it_slot it = i /\ it_ref it = refcount e /\ it_value it = v.
Proof.
  intros [HC _ _ _] He Hv. assert (i ∈ (it_slot <$> items c) ++ F ++ []) as Hi.
  { rewrite (c_perm _ _ _ _ _ HC), elem_of_seqZ. apply aget_Some_range in He.
    rewrite (c_slots _ _ _ _ _ HC) in He. lia. }
  rewrite app_nil_r in Hi. apply elem_of_app in Hi as [(it & -> & Hit)%list_elem_of_fmap|Hi].
  - destruct (core_item _ _ _ _ _ it HC Hit) as (e' & He' & _ & Hv' & Hr & _). exists it. split_and!; congruence.
  - pose proof (c_free _ _ _ _ _ HC) as HF. rewrite Forall_forall in HF. destruct (HF i Hi) as (e' & He' & Hd).
    unfold data in Hd. congruence.
Qed.

(** One pin more or less on one item. *)
Inductive pin_step (i n : Z) : cache V -> cache V -> Prop :=
| Pin A1 it A2 st d :
    it_slot it = i -> pin_step i n (Cache (A1 ++ it :: A2) st d) (Cache (A1 ++ set_ref it n :: A2) st d).

Lemma pin_step_owned i n c c' : pin_step i n c c' -> owned c' = owned c.
Proof. destruct 1. unfold owned. cbn [items gone]. by rewrite !fmap_app, !fmap_cons. Qed.

Lemma refcount_refines self c i e v n :
  rep eq self c -> aget (slots self) i = Some e -> value e = Some v -> is_u32 n ->
  exists self' c', set_refcount self i n = Some self' /\ pin_step i n c c' /\ rep eq self' c' /\
    capacity self' = capacity self.
Proof.
  intros [Hd [F HS]] He Hv Hn. destruct (live_item _ _ _ _ _ _ _ HS He Hv) as (it & Hit & <- & _ & _).
  pose proof (core_nodup _ _ _ _ _ (s_core _ _ _ _ _ HS)) as (Hnd & _ & _)%NoDup_app.
  apply list_elem_of_split in Hit as (A1 & A2 & HA). destruct c as [A st d]. cbn [items] in *. subst A.
  destruct (set_refcount_spec self A1 it A2 st d F n HS Hn) as (s & Hs & Hcap & HS').
  exists s. eexists. split; [done|]. split; [by apply Pin|]. split; [|done]. split; [|by exists F].
  cbn [items]. rewrite fmap_app, fmap_cons, <-Permutation_middle, <-fmap_app in Hnd.
  apply NoDup_cons in Hnd as [Hnd _].
  assert (forall y q, y ∈ A1 ++ A2 -> it_hash it = it_hash y -> eq (it_value it) q = true ->
    eq (it_value y) q = true -> False) as Hone.
  { intros y q Hy Hh H1 H2. assert (it = y) as -> by (eapply (Hd it y q); try done; set_solver).
    apply Hnd, list_elem_of_fmap. eauto. }
  intros x y q Hx Hy Hh H1 H2. rewrite <-Permutation_middle, elem_of_cons in Hx, Hy.
  destruct Hx as [->|Hx], Hy as [->|Hy]; [done| | |eapply Hd; try done; set_solver]; exfalso; cbn in *; eauto.
Qed.

(** ** Counting pins *)

Lemma count_pinned_spec (es : list (lru_entry V)) n :
  0 <= n -> n + zlen es < 2 ^ 32 ->
  foldl count_pinned n es = n + zlen (filter (fun e => pinned e = true) es).
Proof.
  revert n. induction es as [|e es IH]; intros n Hn Hl; cbn [foldl]; [cbn; lia|].
  cbn [length] in Hl. unfold count_pinned at 2. destruct (pinned e) eqn:E.
  - rewrite filter_cons_True by done. rewrite u32_id, IH by clia. cbn. lia.
  - rewrite filter_cons_False by congruence. rewrite IH by lia. done.
Qed.

Lemma filter_pinned A (es : list (lru_entry V)) :
  Forall2 (fun it e => data e = (it_hash it, Some (it_value it), it_ref it)) A es ->
  zlen (filter (fun e => pinned e = true) es) = zlen (filter (fun it => 0 < it_ref it) A).
Proof.
  induction 1 as [|it e A es Hd _ IH]; [done|]. assert (refcount e = it_ref it) as Hr by (unfold data in Hd; congruence).
  destruct (decide (0 < it_ref it)).
  - rewrite (filter_cons_True _ it) by done. rewrite filter_cons_True; [cbn [length]; lia|].
    unfold pinned. rewrite Hr. by apply Z.ltb_lt.
  - rewrite (filter_cons_False _ it) by done. rewrite filter_cons_False; [done|].
    unfold pinned. rewrite Hr. intros ?%Z.ltb_lt. done.
Qed.

Definition n_held (c : cache V) : Z := zlen (filter (fun it => 0 < it_ref it) (items c)).

Lemma order_count self c F H L : state self c F H L -> order_fold self count_pinned 0 = Some (n_held c).
Proof.
  intros [HC _ _ _]. destruct (order_fold_spec self (items c) F H L count_pinned 0 HC) as (es & Hes & ->).
  f_equal. pose proof (core_count _ _ _ _ _ HC). pose proof (c_cap _ _ _ _ _ HC).
  pose proof (Forall2_length _ _ _ Hes) as Hlen.
  rewrite count_pinned_spec by clia. rewrite Z.add_0_l. apply filter_pinned.
  eapply Forall2_impl; [done|]. intros ?? [_ ?]. done.
Qed.

Lemma fold_values A (es : list (lru_entry V)) d :
  Forall2 (fun it e => data e = (it_hash it, Some (it_value it), it_ref it)) A es ->
  foldl (fun d e => d ++ option_list (value e)) d es = d ++ (it_value <$> A).
Proof.
  intros HF. revert d. induction HF as [|it e A es Hd _ IH]; intros d; cbn [foldl]; [by rewrite app_nil_r|].
  assert (value e = Some (it_value it)) as -> by (unfold data in Hd; congruence).
  rewrite IH, fmap_cons. cbn [option_list]. by rewrite <-app_assoc.
Qed.

(** ** Destruction *)

Lemma lru_destroy_spec self c :
  rep eq self c ->
  exists b self', lru_destroy self = Some (b, self') /\
    if decide (n_held c = 0) then b = true /\ destroyed self' = owned c else b = false /\ self' = self.
Proof.
  intros [_ [F HS]]. unfold lru_destroy. rewrite (order_count _ _ _ _ _ HS). cbn [mbind option_bind].
  case_decide as E; [rewrite E; cbn [Z.eqb]|].
  - pose proof (s_core _ _ _ _ _ HS) as HC.
    destruct (order_fold_spec self (items c) F _ _ (fun d e => d ++ option_list (value e)) [] HC) as (es & Hes & ->).
    cbn [mbind option_bind]. eexists true, _. split; [done|]. split; [done|]. cbn [destroyed].
    unfold owned. rewrite (s_gone _ _ _ _ _ HS). f_equal. rewrite (fold_values (items c)); [done|].
    eapply Forall2_impl; [done|]. intros ?? [_ ?]. done.
  - rewrite (proj2 (Z.eqb_neq _ _) E). eauto.
Qed.

(** ** Histories *)

(** The states a client reaches from a creation, with the values it put. Pins are
    taken and dropped on entries that hold a value; [Release] may also find the
    count at zero, which the code tolerates. *)
Inductive reachable (cap mp : Z) : list V -> lru V -> Prop :=
| ReachCreate alloc self : lru_create alloc cap mp = Some (Some self) -> reachable cap mp [] self
| ReachGet vs self h k r self' :
    reachable cap mp vs self -> lru_get eq self h k = Some (r, self') -> reachable cap mp vs self'
| ReachPut vs self h k v r self' :
    reachable cap mp vs self -> eq v k = true -> lru_put eq self h k v = Some (r, self') ->
    reachable cap mp (vs ++ [v]) self'
| ReachAcquire vs self i e v self' :
    reachable cap mp vs self -> aget (slots self) i = Some e -> value e = Some v -> refcount e < UINT32_MAX ->
    lru_entry_acquire_locked self i = Some self' -> reachable cap mp vs self'
| ReachRelease vs self i e v self' :
    reachable cap mp vs self -> aget (slots self) i = Some e -> value e = Some v ->
    lru_entry_release self i = Some self' -> reachable cap mp vs self'.

Lemma item_u32 self c F L i e v :
  state self c F [] L -> aget (slots self) i = Some e -> value e = Some v -> is_u32 (refcount e).
Proof.
  intros HS He Hv. destruct (live_item _ _ _ _ _ _ _ HS He Hv) as (it & Hit & _ & <- & _).
  pose proof (c_refs _ _ _ _ _ (s_core _ _ _ _ _ HS)) as HU. rewrite Forall_forall in HU. auto.
Qed.

Lemma acquire_refines self c i e v :
  rep eq self c -> aget (slots self) i = Some e -> value e = Some v -> refcount e < UINT32_MAX ->
  exists self' c', lru_entry_acquire_locked self i = Some self' /\ pin_step i (refcount e + 1) c c' /\ rep eq self' c' /\
    capacity self' = capacity self.
Proof.
  intros HR He Hv Hlt. destruct (HR) as [_ [F HS]]. pose proof (item_u32 _ _ _ _ _ _ _ HS He Hv) as Hu.
  unfold lru_entry_acquire_locked. rewrite He. cbn [mbind option_bind]. rewrite u32_id by clia.
  eapply refcount_refines; try done. clia.
Qed.

Lemma release_refines self c i e v :
  rep eq self c -> aget (slots self) i = Some e -> value e = Some v ->
  exists self' c', lru_entry_release self i = Some self' /\
    (if decide (refcount e = 0) then c' = c else pin_step i (refcount e - 1) c c') /\ rep eq self' c' /\
    capacity self' = capacity self.
Proof.
  intros HR He Hv. destruct (HR) as [_ [F HS]]. pose proof (item_u32 _ _ _ _ _ _ _ HS He Hv) as Hu.
  unfold lru_entry_release. rewrite He. cbn [mbind option_bind]. destruct (Z.eqb_spec (refcount e) 0) as [E|E].
  - exists self, c. rewrite decide_True by done. done.
  - rewrite u32_id by clia.
    destruct (refcount_refines self c i e v (refcount e - 1) HR He Hv) as (s & c' & ?); [clia|].
    exists s, c'. by rewrite decide_False by done.
Qed.

Lemma reachable_rep `{!KeyedEq eq} cap mp vs self :
  0 < cap <= 2 ^ 30 -> 0 < mp < UINT32_MAX -> reachable cap mp vs self ->
  exists c, rep eq self c /\ owned c ≡ₚ vs /\ capacity self = cap.
Proof.
  intros Hcap Hmp. induction 1 as [alloc self Hc|vs self h k r self' _ (c & HR & Ho & Hn) Hg|
    vs self h k v r self' _ (c & HR & Ho & Hn) Hv Hp|vs self i e v self' _ (c & HR & Ho & Hn) He Hv Hlt Ha|
    vs self i e v self' _ (c & HR & Ho & Hn) He Hv Ha].
  - destruct (alloc 0%nat && alloc 1%nat && alloc 2%nat) eqn:Ea.
    2: { rewrite lru_create_null in Hc by auto. done. }
    destruct (lru_create_ok (V := V) alloc cap mp Hcap Hmp Ea) as (s & Hs & Hn & _ & _ & F & HS).
    assert (s = self) as -> by congruence. exists empty_cache. split_and!; try done.
    split; [|by exists F]. intros ??? ?%not_elem_of_nil. done.
  - destruct (get_refines eq self c h k HR) as (r' & s & c' & Hs & Hst & HR' & Hn').
    assert (s = self') as -> by congruence. exists c'. split_and!; try done; [|congruence].
    by rewrite (proj1 (get_step_facts _ _ _ _ _ _ Hst)).
  - destruct (put_refines eq self c h k v HR Hv) as (r' & s & c' & Hs & Hst & HR' & Hn').
    assert (s = self') as -> by congruence. exists c'. split_and!; try done; [|congruence].
    rewrite (proj1 (put_step_facts _ _ _ _ _ _ _ _ Hst)), Ho. apply Permutation_cons_append.
  - destruct (acquire_refines self c i e v HR He Hv Hlt) as (s & c' & Hs & Hst & HR' & Hn').
    assert (s = self') as -> by congruence. exists c'. split_and!; try done; [|congruence].
    by rewrite (pin_step_owned _ _ _ _ Hst).
  - destruct (release_refines self c i e v HR He Hv) as (s & c' & Hs & Hst & HR' & Hn').
    assert (s = self') as -> by congruence. exists c'. split_and!; try done; [|congruence].
    case_decide; [by subst|]. by rewrite (pin_step_owned _ _ _ _ Hst).
Qed.

(** ** What a client sees *)

Lemma put_step_front cap h k v c i c' :
  put_step eq cap h k v c i c' -> i <> LRU_NIL ->
  exists A, items c' = Item i h v 0 :: A.
Proof.
  destruct 1 as [A1 it A2 st d Hh Hl|A1 it A2 st d Hh Hl|c c1 c2 c3 i Hno H1 H2 H3 Hi Hn|c c2 Hno H2 Hall]; intros Hne;
    try done; cbn [items]; eexists.
  - unfold hits_key in Hh. apply andb_true_iff in Hh as [<-%Z.eqb_eq _]. done.
  - done.
Qed.

Lemma put_get `{!KeyedEq eq} self c h k v i self' :
  rep eq self c -> eq v k = true -> lru_put eq self h k v = Some (i, self') -> i <> LRU_NIL ->
  exists self'', lru_get eq self' h k = Some (i, self'') /\ lru_entry_value self'' i = Some (Some v).
Proof.
  intros HR Hv Hp Hi. destruct (put_refines eq self c h k v HR Hv) as (r & s & c' & Hp' & Hst & HR' & _).
  rewrite Hp in Hp'. simplify_eq.
  destruct (put_step_front _ _ _ _ _ _ _ Hst Hi) as [A HA].
  destruct (get_refines eq s c' h k HR') as (r' & s' & c'' & Hg & Hgst & HR'' & _).
  assert (hits_key eq h k (Item r h v 0) = true) as Hhit by (unfold hits_key; cbn; by rewrite Z.eqb_refl).
  exists s'. destruct HR' as [Hd _]. destruct HR'' as [_ [F'' HS'']].
  destruct Hgst as [A1 it A2 st d Hh|A0 st d Hno].
  - cbn [items] in *. apply andb_true_iff in Hh as [Hh%Z.eqb_eq Hk].
    assert (it = Item r h v 0) as ->.
    { eapply Hd; [set_solver|rewrite HA; left|by rewrite Hh|done|done]. }
    split; [done|]. unfold lru_entry_value.
    destruct (core_item _ _ _ _ _ (Item r h v 0) (s_core _ _ _ _ _ HS'')) as (e & He & _ & Hve & _); [set_solver|].
    cbn in He. rewrite He. cbn. by rewrite Hve.
  - cbn [items] in HA. subst A0. apply Forall_cons in Hno as [Hno _]. congruence.
Qed.
End histories.

(** ** The theorems *)

(** [lru_create] with a capacity up to [2^30] and memory available gives an
    empty cache in which every slot is free and every cell empty; the index is a
    power of two of at least twice the capacity and less than four times it.
    Otherwise it returns [NULL], also after a partial allocation. *)
Theorem lru_create_correct {V} (alloc : nat -> bool) (cap mp : Z) :
  cap <= 2 ^ 30 -> mp < UINT32_MAX ->
  if (0 <? cap) && (0 <? mp) && (alloc 0%nat && alloc 1%nat && alloc 2%nat) then
    exists self : lru V, lru_create alloc cap mp = Some (Some self) /\
      capacity self = cap /\ max_probe (index self) = mp /\
      is_pow2 (n_cells (index self)) /\ 2 * cap <= n_cells (index self) < 4 * cap /\
      exists F, F ≡ₚ seqZ 0 cap /\ state self empty_cache F [] []
  else lru_create (V := V) alloc cap mp = Some None.
Proof.
  intros Hcap Hmp. destruct (Z.ltb_spec 0 cap) as [H0|]; cbn [andb]; [|apply lru_create_null; auto].
  destruct (Z.ltb_spec 0 mp) as [Hm|]; cbn [andb]; [|apply lru_create_null; auto].
  destruct (alloc 0%nat && alloc 1%nat && alloc 2%nat) eqn:Ea; [|apply lru_create_null; auto].
  destruct (lru_create_ok (V := V) alloc cap mp) as (self & Hs & Hn & Hc & Hp & F & HS); [lia|lia|done|].
  destruct (next_pow2_ge_correct (2 * cap)) as [Hp2 Hr]; [clia|].
  exists self. rewrite Hc. split_and!; try done; try lia. exists F. split; [|done].
  pose proof (c_perm _ _ _ _ _ (s_core _ _ _ _ _ HS)) as HF. cbn in HF. by rewrite app_nil_r, Hn in HF.
Qed.

(** [lru_get] on a well-formed cache ends and is the abstract lookup: a live
    entry with this hash and key is returned and becomes the most recent, and when
    there is none the result is [NULL] and only the miss counter changes. *)
Theorem lru_get_refines {V K} (eq : V -> K -> bool) self c h k :
  rep eq self c ->
  exists r self' c', lru_get eq self h k = Some (r, self') /\ get_step eq h k c r c' /\ rep eq self' c' /\
    items c' ≡ₚ items c.
Proof.
  intros HR. destruct (get_refines eq self c h k HR) as (r & s & c' & Hg & Hst & HR' & _).
  exists r, s, c'. split_and!; try done. apply (get_step_facts _ _ _ _ _ _ Hst).
Qed.

(** C15: [lru_put] on a well-formed cache ends and is the abstract insertion: it
    replaces an unpinned entry of the key, refuses a pinned one, or makes room by
    evicting unpinned entries only, least recent first, plus at most one entry
    displaced past the probe bound; it fails only when every remaining entry is
    pinned. Pinned entries keep their slot and value. *)
Theorem lru_put_refines {V K} (eq : V -> K -> bool) `{!KeyedEq eq} self c h k v :
  rep eq self c -> eq v k = true ->
  exists r self' c', lru_put eq self h k v = Some (r, self') /\
    put_step eq (capacity self) h k v c r c' /\ rep eq self' c' /\
    (forall it, it ∈ items c -> held it -> it ∈ items c').
Proof.
  intros HR Hv. destruct (put_refines eq self c h k v HR Hv) as (r & s & c' & Hp & Hst & HR' & _).
  exists r, s, c'. split_and!; try done. apply (put_step_facts _ _ _ _ _ _ _ _ Hst).
Qed.

(** A value that [lru_put] accepted is what [lru_get] finds under its key,
    in the slot [lru_put] returned. *)
Theorem lru_put_then_get {V K} (eq : V -> K -> bool) `{!KeyedEq eq} self c h k v i self' :
  rep eq self c -> eq v k = true -> lru_put eq self h k v = Some (i, self') -> i <> LRU_NIL ->
  exists self'', lru_get eq self' h k = Some (i, self'') /\ lru_entry_value self'' i = Some (Some v).
Proof. intros. by eapply put_get. Qed.

(** C17: in every history of lookups, insertions, pins and releases the cache stays
    well-formed with at most [capacity] entries, each value put is live or has been
    destroyed, once; [lru_destroy] then destroys the rest, so that every value is
    destroyed exactly once, unless an entry is pinned, when it does nothing. *)
Theorem lru_history_correct {V K} (eq : V -> K -> bool) `{!KeyedEq eq} cap mp vs self :
  0 < cap <= 2 ^ 30 -> 0 < mp < UINT32_MAX -> reachable eq cap mp vs self ->
  exists c, rep eq self c /\ zlen (items c) <= cap /\ destroyed self ++ (it_value <$> items c) ≡ₚ vs /\
    lru_stats_get self = Some (Stats (stats c) (zlen (items c)) cap (n_held c) (max_probe_observed (index self))) /\
    exists b self', lru_destroy self = Some (b, self') /\
      if decide (n_held c = 0) then b = true /\ destroyed self' ≡ₚ vs else b = false /\ self' = self.
Proof.
  intros Hcap Hmp Hr. destruct (reachable_rep eq cap mp vs self Hcap Hmp Hr) as (c & HR & Ho & Hn).
  exists c. split; [done|]. pose proof HR as [_ [F HS]].
  pose proof (core_count _ _ _ _ _ (s_core _ _ _ _ _ HS)) as Hl.
  split; [lia|]. rewrite (s_gone _ _ _ _ _ HS). split; [done|]. split.
  - unfold lru_stats_get. rewrite (order_count _ _ _ _ _ HS). cbn [mbind option_bind].
    by rewrite (s_stats _ _ _ _ _ HS), (s_size _ _ _ _ _ HS), Hn.
  - destruct (lru_destroy_spec eq self c HR) as (b & s & Hd & Hc). exists b, s. split; [done|].
    case_decide; [|done]. destruct Hc as [-> ->]. done.
Qed.

(** ** Examples *)

Module LruExample.

(** Values are (key, payload) pairs. *)
Definition eq (v : Z * Z) (k : Z) : bool := fst v =? k.
#[export] Instance eq_keyed : KeyedEq eq.
Proof. intros v w k k' H1%Z.eqb_eq H2%Z.eqb_eq. unfold eq. congruence. Qed.

Definition start : lru (Z * Z) := Eval vm_compute in
  match lru_create (fun _ => true) 2 3 with Some (Some s) => s | _ => Lru [] 0 0 (Index [] 0 0 0 0) (Link Null Null) (Link Null Null) zero_counters [] end.

Lemma start_created : lru_create (fun _ => true) 2 3 = Some (Some start).
Proof. vm_compute. reflexivity. Qed.

Lemma start_rep : rep eq start empty_cache.
Proof.
  destruct (lru_create_ok (V := Z * Z) (fun _ => true) 2 3) as (s & Hs & _ & _ & _ & F & HS); [clia|clia|done|].
  rewrite start_created in Hs. assert (s = start) as -> by congruence. split; [|by exists F].
  intros ??? ?%not_elem_of_nil. done.
Qed.

Lemma lru_create_correct_witness :
  exists self : lru Z, lru_create (fun _ => true) 5 3 = Some (Some self) /\ n_cells (index self) = 16.
Proof.
  destruct (lru_create_correct (V := Z) (fun _ => true) 5 3) as (self & Hs & _); [clia|clia|].
  exists self. split; [exact Hs|]. vm_compute in Hs. injection Hs as <-. reflexivity.
Defined.

Lemma lru_get_refines_witness :
  exists r self' c', lru_get eq start 7 1 = Some (r, self') /\ get_step eq 7 1 empty_cache r c'.
Proof.
  destruct (lru_get_refines eq start empty_cache 7 1 start_rep) as (r & s & c' & H1 & H2 & _).
  exists r, s, c'. exact (conj H1 H2).
Defined.

Lemma lru_put_refines_witness :
  exists r self' c', lru_put eq start 7 1 (1, 100) = Some (r, self') /\
    put_step eq 2 7 1 (1, 100) empty_cache r c'.
Proof.
  destruct (lru_put_refines eq start empty_cache 7 1 (1, 100) start_rep) as (r & s & c' & H1 & H2 & _); [reflexivity|].
  exists r, s, c'. exact (conj H1 H2).
Defined.

Definition start_put : lru (Z * Z) := Eval vm_compute in
  match lru_put eq start 7 1 (1, 100) with Some (_, s) => s | None => start end.

Lemma lru_put_then_get_witness :
  lru_put eq start 7 1 (1, 100) = Some (1, start_put) /\
  exists self'', lru_get eq start_put 7 1 = Some (1, self'') /\ lru_entry_value self'' 1 = Some (Some (1, 100)).
Proof.
  split; [vm_compute; reflexivity|].
  apply (lru_put_then_get eq start empty_cache 7 1 (1, 100) 1 start_put start_rep); [reflexivity| |discriminate].
  vm_compute. reflexivity.
Defined.

Lemma lru_history_correct_witness :
  exists c, rep eq start_put c /\ destroyed start_put ++ (it_value <$> items c) ≡ₚ [(1, 100)].
Proof.
  destruct (lru_history_correct eq 2 3 ([] ++ [(1, 100)]) start_put) as (c & HR & _ & Hp & _); [clia|clia| |].
  - apply (ReachPut eq 2 3 [] start 7 1 (1, 100) 1 start_put); [|reflexivity|vm_compute; reflexivity].
    apply (ReachCreate eq 2 3 (fun _ => true)). exact start_created.
  - exists c. exact (conj HR Hp).
Defined.

(** With pins crowding a probe range an insertion fails although slots are free,
    and unpinned entries elsewhere are evicted on the way. *)
Definition put (s : lru (Z * Z)) h k p := match lru_put eq s h k (k, p) with Some (i, s) => (i, s) | None => (LRU_NIL, s) end.
Definition pin (s : lru (Z * Z)) i := match lru_entry_acquire_locked s i with Some s => s | None => s end.
Definition crowded : lru (Z * Z) :=
  match lru_create (fun _ => true) 8 1 with
  | Some (Some s) =>
      let '(i, s) := put s 0 1 10 in let s := pin s i in
      let '(j, s) := put s 0 2 20 in let s := pin s j in
      snd (put s 5 3 30)
  | _ => start
  end.

Lemma put_fails_with_free_slots :
  size crowded = 3 /\ capacity crowded = 8 /\
  exists s, lru_put eq crowded 0 4 (4, 40) = Some (LRU_NIL, s) /\ size s = 2 /\ destroyed s = [(3, 30); (4, 40)].
Proof. split_and!; [reflexivity..|]. eexists. split; [vm_compute; reflexivity|]. done. Qed.
End LruExample.
