(* ===== verification/LruClient.v ===== *)
(** * The cache as its clients use it

    The refinement of [src/src/util/lru.c] in the form its clients need: items up to
    order, the values handed to the destroy callback, and the slot a client holds.
    [PrefetchProof.v] is proved against these lemmas only. *)

From S2P Require Import Prelude Hash Lru LruLists LruIndex LruSpec LruProof LruCorrect LruClaims.

#[local] Open Scope Z_scope.

Section client.
Context {V K : Type} (eq : V -> K -> bool) `{!KeyedEq eq}.
Implicit Types (self : lru V) (c : cache V) (A : list (item V)).

Lemma rep_size self c : rep eq self c -> zlen (items c) <= capacity self /\ capacity self <= 2 ^ 30.
Proof.
  intros [_ [F HS]]. pose proof (core_count _ _ _ _ _ (s_core _ _ _ _ _ HS)). pose proof (c_cap _ _ _ _ _ (s_core _ _ _ _ _ HS)). lia.
Qed.

Lemma rep_slots self c : rep eq self c -> NoDup (it_slot <$> items c).
Proof. intros [_ [F HS]]. pose proof (core_nodup _ _ _ _ _ (s_core _ _ _ _ _ HS)) as Hn. by apply NoDup_app in Hn as (? & _). Qed.

Lemma rep_gone self c : rep eq self c -> destroyed self = gone c.
Proof. intros [_ [F HS]]. apply HS. Qed.

(** The entry of an item. *)
Lemma rep_entry self c it :
  rep eq self c -> it ∈ items c ->
  exists e, aget (slots self) (it_slot it) = Some e /\ value e = Some (it_value it) /\ refcount e = it_ref it /\
    it_slot it <> LRU_NIL /\ is_u32 (it_ref it).
Proof.
  intros [_ [F HS]] Hit. pose proof (s_core _ _ _ _ _ HS) as HC.
  destruct (core_item _ _ _ _ _ it HC Hit) as (e & He & _ & Hv & Hr & Hn & _). exists e. split_and!; try done.
  pose proof (c_refs _ _ _ _ _ HC) as HU. rewrite Forall_forall in HU. auto.
Qed.

Lemma value_client self c it :
  rep eq self c -> it ∈ items c -> lru_entry_value self (it_slot it) = Some (Some (it_value it)).
Proof. intros HR Hit. destruct (rep_entry _ _ _ HR Hit) as (e & He & Hv & _). unfold lru_entry_value. rewrite He. cbn. by rewrite Hv. Qed.

(** Slots determine items. *)
Lemma rep_slot_inj self c it it' :
  rep eq self c -> it ∈ items c -> it' ∈ items c -> it_slot it = it_slot it' -> it = it'.
Proof.
  intros HR H H' Hs. pose proof (rep_slots _ _ HR) as Hnd. apply list_elem_of_lookup in H as [i Hi], H' as [j Hj].
  assert (i = j) as ->; [|congruence].
  eapply (NoDup_lookup _ _ _ (it_slot it)); [done|by rewrite list_lookup_fmap, Hi|by rewrite list_lookup_fmap, Hj, Hs].
Qed.

Lemma get_client self c h k :
  rep eq self c ->
  exists r self' c', lru_get eq self h k = Some (r, self') /\ rep eq self' c' /\ items c' ≡ₚ items c /\
    destroyed self' = destroyed self /\ capacity self' = capacity self /\
    if r =? LRU_NIL then Forall (fun it => hits_key eq h k it = false) (items c)
    else exists it, it ∈ items c /\ it_slot it = r /\ hits_key eq h k it = true.
Proof.
  intros HR. destruct (get_refines eq self c h k HR) as (r & s & c' & Hg & Hst & HR' & Hc).
  exists r, s, c'. pose proof (get_step_facts _ _ _ _ _ _ Hst) as [_ Hp]. split_and!; try done.
  - rewrite (rep_gone _ _ HR), (rep_gone _ _ HR'). by destruct Hst.
  - destruct Hst as [A1 it A2 st d Hh|A st d Hno]; [|done].
    destruct (rep_entry _ _ it HR) as (e & _ & _ & _ & Hn & _); [cbn; set_solver|].
    rewrite (proj2 (Z.eqb_neq _ _) Hn). exists it. split; [cbn; set_solver|done].
Qed.

Lemma peek_client self c h k :
  rep eq self c ->
  exists r, lru_peek eq self h k = Some r /\
    if r =? LRU_NIL then Forall (fun it => hits_key eq h k it = false) (items c)
    else exists it, it ∈ items c /\ it_slot it = r /\ hits_key eq h k it = true.
Proof.
  intros HR. pose proof HR as [_ [F HS]]. pose proof (s_core _ _ _ _ _ HS) as HC. unfold lru_peek.
  destruct (lookup_spec eq self (items c) F [] h k HC) as [(A1 & it & A2 & cell & HA & -> & Hcn & Hcell & Hh)|[-> Hno]];
    cbn [mbind option_bind].
  - rewrite (proj2 (Z.eqb_neq _ _) Hcn), Hcell. exists (it_slot it). split; [done|].
    assert (it ∈ items c) as Hit by (rewrite HA; set_solver).
    destruct (rep_entry _ _ it HR Hit) as (e & _ & _ & _ & Hn & _). rewrite (proj2 (Z.eqb_neq _ _) Hn). by exists it.
  - exists LRU_NIL. by rewrite Z.eqb_refl.
Qed.

(** What eviction removed. *)
Definition removes c c' : Prop :=
  exists D, items c ≡ₚ D ++ items c' /\ Forall loose D /\ gone c' = gone c ++ (it_value <$> D).

#[export] Instance removes_preorder : PreOrder removes.
Proof.
  split; [intros c; exists []; by rewrite app_nil_r|]. intros a b c (D & H1 & H2 & H3) (D' & H1' & H2' & H3').
  exists (D ++ D'). rewrite H1, H1', app_assoc. split; [done|]. split; [by apply Forall_app|].
  by rewrite H3', H3, fmap_app, app_assoc.
Qed.

Lemma cut_removes A1 it A2 st st' d :
  loose it -> removes (Cache (A1 ++ it :: A2) st d) (Cache (A1 ++ A2) st' (d ++ [it_value it])).
Proof. intros Hl. exists [it]. cbn [items gone]. split; [by rewrite <-Permutation_middle|]. split; [by apply Forall_singleton|done]. Qed.

Lemma evict_removes c c' : evict c c' -> removes c c'.
Proof. destruct 1. by apply cut_removes. Qed.
Lemma evicts_removes c c' : rtc evict c c' -> removes c c'.
Proof. induction 1 as [|c1 c2 c3 He _ IH]; [done|]. etrans; [by apply evict_removes|done]. Qed.
Lemma displace_removes c c' : displace c c' -> removes c c'.
Proof. destruct 1. by apply cut_removes. Qed.

(** An insertion of a key that is not there. *)
Lemma put_client self c h k v :
  rep eq self c -> eq v k = true -> Forall (fun it => hits_key eq h k it = false) (items c) ->
  exists r self' c' D A, lru_put eq self h k v = Some (r, self') /\ rep eq self' c' /\ capacity self' = capacity self /\
    items c ≡ₚ D ++ A /\ Forall loose D /\
    if r =? LRU_NIL then items c' ≡ₚ A /\ Forall held A /\ destroyed self' = destroyed self ++ (it_value <$> D) ++ [v]
    else items c' ≡ₚ Item r h v 0 :: A /\ destroyed self' = destroyed self ++ (it_value <$> D).
Proof.
  intros HR Hv Hno. destruct (put_refines eq self c h k v HR Hv) as (r & s & c' & Hp & Hst & HR' & Hc).
  assert (Hmiss : forall it, it ∈ items c -> hits_key eq h k it = true -> False).
  { intros it Hit Hh. rewrite Forall_forall in Hno. specialize (Hno it Hit). congruence. }
  rewrite (rep_gone _ _ HR).
  destruct Hst as [A1 it A2 st d Hh|A1 it A2 st d Hh|c c1 c2 c3 i _ H1 H2 H3 Hi Hn|c c2 _ H2 Hall].
  - destruct (Hmiss it); [cbn; set_solver|done].
  - destruct (Hmiss it); [cbn; set_solver|done].
  - assert (removes c c3) as (D & HD & HL & Hg).
    { trans c1; [case_decide; [by apply evict_removes|by subst]|]. trans c2; [by apply evicts_removes|].
      destruct H3 as [->|H3]; [done|by apply displace_removes]. }
    exists i, s. eexists _, D, (items c3). split_and!; try done.
    rewrite (proj2 (Z.eqb_neq _ _) Hn), (rep_gone _ _ HR'). done.
  - destruct (evicts_removes _ _ H2) as (D & HD & HL & Hg).
    exists LRU_NIL, s. eexists _, D, (items c2). split_and!; try done. rewrite Z.eqb_refl, (rep_gone _ _ HR').
    cbn [items gone]. rewrite Hg. split_and!; try done. by rewrite app_assoc.
Qed.

Lemma pin_step_items i n c c' it :
  pin_step i n c c' -> NoDup (it_slot <$> items c) -> it ∈ items c -> it_slot it = i ->
  exists A, items c ≡ₚ it :: A /\ items c' ≡ₚ set_ref it n :: A /\ gone c' = gone c.
Proof.
  destruct 1 as [A1 it' A2 st d Hs]. cbn [items gone]. intros Hnd Hit Hi.
  assert (it' = it) as ->.
  { rewrite fmap_app, fmap_cons, <-Permutation_middle, <-fmap_app in Hnd. apply NoDup_cons in Hnd as [Hnd _].
    rewrite <-Permutation_middle in Hit. apply elem_of_cons in Hit as [->|Hit]; [done|]. destruct Hnd.
    apply list_elem_of_fmap. exists it. split; [congruence|done]. }
  exists (A1 ++ A2). split_and!; [by rewrite <-Permutation_middle..|done].
Qed.

Lemma acquire_client self c it :
  rep eq self c -> it ∈ items c -> it_ref it < UINT32_MAX ->
  exists self' c' A, lru_entry_acquire_locked self (it_slot it) = Some self' /\ rep eq self' c' /\
    items c ≡ₚ it :: A /\ items c' ≡ₚ set_ref it (it_ref it + 1) :: A /\
    destroyed self' = destroyed self /\ capacity self' = capacity self.
Proof.
  intros HR Hit Hlt. destruct (rep_entry _ _ _ HR Hit) as (e & He & Hv & Hr & _). rewrite <-Hr in *.
  destruct (acquire_refines eq self c (it_slot it) e (it_value it) HR He Hv Hlt) as (s & c' & Hs & Hst & HR' & Hc).
  destruct (pin_step_items _ _ _ _ it Hst (rep_slots _ _ HR) Hit eq_refl) as (A & H1 & H2 & H3).
  exists s, c', A. rewrite (rep_gone _ _ HR), (rep_gone _ _ HR'). done.
Qed.

Lemma release_client self c it :
  rep eq self c -> it ∈ items c -> 0 < it_ref it ->
  exists self' c' A, lru_entry_release self (it_slot it) = Some self' /\ rep eq self' c' /\
    items c ≡ₚ it :: A /\ items c' ≡ₚ set_ref it (it_ref it - 1) :: A /\
    destroyed self' = destroyed self /\ capacity self' = capacity self.
Proof.
  intros HR Hit Hlt. destruct (rep_entry _ _ _ HR Hit) as (e & He & Hv & Hr & _). rewrite <-Hr in *.
  destruct (release_refines eq self c (it_slot it) e (it_value it) HR He Hv) as (s & c' & Hs & Hst & HR' & Hc).
  rewrite decide_False in Hst by lia.
  destruct (pin_step_items _ _ _ _ it Hst (rep_slots _ _ HR) Hit eq_refl) as (A & H1 & H2 & H3).
  exists s, c', A. rewrite (rep_gone _ _ HR), (rep_gone _ _ HR'). done.
Qed.

(** Destruction when nothing is pinned. *)
Lemma destroy_client self c :
  rep eq self c -> Forall loose (items c) ->
  exists self' D, lru_destroy self = Some (true, self') /\ D ≡ₚ items c /\
    destroyed self' = destroyed self ++ (it_value <$> D).
Proof.
  intros HR Hl. destruct (lru_destroy_spec eq self c HR) as (b & s & Hs & Hd).
  rewrite decide_True in Hd.
  - destruct Hd as [-> Hd]. exists s, (items c). split; [done|]. split; [done|].
    by rewrite Hd, (rep_gone _ _ HR).
  - unfold n_held. clear -Hl. induction Hl as [|it A Hi _ IH]; [done|]. rewrite filter_cons_False; [done|].
    unfold loose in Hi. lia.
Qed.
End client.
