(* ===== verification/PrefetchCache.v ===== *)
(** * The metadata prefetch cache

    [src/src/prefetch/prefetch_cache.c]: entries that are fetched once, shared by
    the samples that ask for them, and pinned in the cache of [Lru.v] while a sample
    at or past the watermark owns them. Every operation runs under the cache's lock,
    so an operation is one step.

    The slots live in a heap of pointers: [malloc] may give back an address that was
    freed, and using a pointer that is not allocated is undefined ([None]). The gates
    belong to the callers and are a second heap of 64-bit atomics. The value the
    index stores for a slot is its address together with its key, which does not
    change while the slot lives. The callbacks of [struct prefetch_ops] compare keys
    ([key_eq], a parameter), copy them and release them; the released keys and values
    are recorded in the order of the calls. *)

From stdpp Require Import gmap.
From S2P Require Import Prelude Hash Lru.
From S2P Require Export PrefetchTypes.

#[local] Open Scope Z_scope.

Definition GATE_ERROR_BIT : Z := 2 ^ 63.
Definition GATE_PENDING_MASK : Z := 2 ^ 63 - 1.
Definition ACTIVE_IDX_UNLINKED : Z := UINT32_MAX.
Definition WAITERS_INLINE : Z := 2.

Notation ptr := positive.

(** Error codes are numbers of [enum damacy_status]. *)
Definition status_code (s : damacy_status) : Z :=
  match s with
  | DAMACY_OK => 0 | DAMACY_AGAIN => 1 | DAMACY_INVAL => 2 | DAMACY_NOTFOUND => 3 | DAMACY_DTYPE => 4
  | DAMACY_RANK => 5 | DAMACY_IO => 6 | DAMACY_DECODE => 7 | DAMACY_CUDA => 8 | DAMACY_OOM => 9
  | DAMACY_BUDGET => 10 | DAMACY_SHUTDOWN => 11 | DAMACY_UNSUPPORTED => 12
  end.

Record prefetch_completion := Completion { c_slot : Z; c_generation : Z }.

Section cache.
Context {K V : Type}.

Record prefetch_slot := PSlot {
  key_hash : Z; s_key : K; s_value : option V; s_state : prefetch_state; s_err : Z;
  min_owner_id : Z; max_owner_id : Z; generation : Z;
  waiters_inline : list (option ptr); waiters_heap : list (option ptr); n_waiters : Z; cap_heap : Z;
  lru_ent : option Z; active_idx : Z }.

Record prefetch_cache := PCache {
  idx : lru (ptr * K); watermark : Z; generation_counter : Z;
  active : list (option ptr); free_list : list Z; n_free : Z; n_active : Z; pc_capacity : Z;
  pending_count : Z; errored_count : Z }.

(** The cache, the allocated slots, the callers' gates, and the keys and values
    released so far. *)
Record pst := PState {
  pc : prefetch_cache; heap : gmap ptr prefetch_slot; gates : gmap ptr Z; keys_freed : list K; values_freed : list V }.

(** ** Field updates *)

Definition with_pc (st : pst) (c : prefetch_cache) : pst := PState c (heap st) (gates st) (keys_freed st) (values_freed st).
Definition with_heap (st : pst) (h : gmap ptr prefetch_slot) : pst := PState (pc st) h (gates st) (keys_freed st) (values_freed st).
Definition with_gates (st : pst) (g : gmap ptr Z) : pst := PState (pc st) (heap st) g (keys_freed st) (values_freed st).
Definition free_value (st : pst) (v : option V) : pst :=
  PState (pc st) (heap st) (gates st) (keys_freed st) (values_freed st ++ option_list v).
Definition free_key (st : pst) (k : K) : pst := PState (pc st) (heap st) (gates st) (keys_freed st ++ [k]) (values_freed st).
Definition put_slot (st : pst) (p : ptr) (s : prefetch_slot) : pst := with_heap st (<[p := s]> (heap st)).

Definition with_idx (c : prefetch_cache) (l : lru (ptr * K)) : prefetch_cache :=
  PCache l (watermark c) (generation_counter c) (active c) (free_list c) (n_free c) (n_active c) (pc_capacity c)
    (pending_count c) (errored_count c).
Definition with_watermark (c : prefetch_cache) (w : Z) : prefetch_cache :=
  PCache (idx c) w (generation_counter c) (active c) (free_list c) (n_free c) (n_active c) (pc_capacity c)
    (pending_count c) (errored_count c).
Definition with_generation (c : prefetch_cache) (g : Z) : prefetch_cache :=
  PCache (idx c) (watermark c) g (active c) (free_list c) (n_free c) (n_active c) (pc_capacity c)
    (pending_count c) (errored_count c).
Definition with_active (c : prefetch_cache) (a : list (option ptr)) (f : list Z) (nf na : Z) : prefetch_cache :=
  PCache (idx c) (watermark c) (generation_counter c) a f nf na (pc_capacity c) (pending_count c) (errored_count c).
Definition with_counts (c : prefetch_cache) (p e : Z) : prefetch_cache :=
  PCache (idx c) (watermark c) (generation_counter c) (active c) (free_list c) (n_free c) (n_active c) (pc_capacity c) p e.

Definition slot_with_owners (s : prefetch_slot) (lo hi : Z) : prefetch_slot :=
  PSlot (key_hash s) (s_key s) (s_value s) (s_state s) (s_err s) lo hi (generation s)
    (waiters_inline s) (waiters_heap s) (n_waiters s) (cap_heap s) (lru_ent s) (active_idx s).
Definition slot_with_ent (s : prefetch_slot) (e : option Z) : prefetch_slot :=
  PSlot (key_hash s) (s_key s) (s_value s) (s_state s) (s_err s) (min_owner_id s) (max_owner_id s) (generation s)
    (waiters_inline s) (waiters_heap s) (n_waiters s) (cap_heap s) e (active_idx s).
Definition slot_with_idx (s : prefetch_slot) (i : Z) : prefetch_slot :=
  PSlot (key_hash s) (s_key s) (s_value s) (s_state s) (s_err s) (min_owner_id s) (max_owner_id s) (generation s)
    (waiters_inline s) (waiters_heap s) (n_waiters s) (cap_heap s) (lru_ent s) i.
Definition slot_with_waiters (s : prefetch_slot) (inl hp : list (option ptr)) (n cap : Z) : prefetch_slot :=
  PSlot (key_hash s) (s_key s) (s_value s) (s_state s) (s_err s) (min_owner_id s) (max_owner_id s) (generation s)
    inl hp n cap (lru_ent s) (active_idx s).
Definition slot_with_result (s : prefetch_slot) (t : prefetch_state) (v : option V) (e : Z) : prefetch_slot :=
  PSlot (key_hash s) (s_key s) v t e (min_owner_id s) (max_owner_id s) (generation s)
    (waiters_inline s) (waiters_heap s) (n_waiters s) (cap_heap s) (lru_ent s) (active_idx s).

Definition make_completion (s : prefetch_slot) : prefetch_completion := Completion (u32 (active_idx s + 1)) (generation s).
Definition make_handle (active_idx generation : Z) : prefetch_handle := Handle (u32 (active_idx + 1)) generation.

(** ** Gates; [None] is the null gate *)

Definition prefetch_gate_init (st : pst) (g : option ptr) : pst :=
  match g with None => st | Some g => with_gates st (<[g := 0]> (gates st)) end.

Definition gate_load (st : pst) (g : ptr) : option Z := gates st !! g.
Definition prefetch_gate_is_ready (st : pst) (g : option ptr) : option bool :=
  match g with None => Some true | Some g => s ← gate_load st g; Some (Z.land s GATE_PENDING_MASK =? 0) end.
Definition prefetch_gate_has_error (st : pst) (g : option ptr) : option bool :=
  match g with None => Some false | Some g => s ← gate_load st g; Some (negb (Z.land s GATE_ERROR_BIT =? 0)) end.
Definition prefetch_gate_pending (st : pst) (g : option ptr) : option Z :=
  match g with None => Some 0 | Some g => s ← gate_load st g; Some (Z.land s GATE_PENDING_MASK) end.

(** The atomic read-modify-write operations. *)
Definition gate_update (st : pst) (g : option ptr) (f : Z -> Z) : option pst :=
  match g with None => Some st | Some g => s ← gate_load st g; Some (with_gates st (<[g := f s]> (gates st))) end.
Definition gate_inc_pending (st : pst) (g : option ptr) : option pst := gate_update st g (fun s => u64 (s + 1)).
Definition prefetch_gate_dec_pending (st : pst) (g : option ptr) : option pst := gate_update st g (fun s => u64 (s - 1)).
Definition prefetch_gate_set_error (st : pst) (g : option ptr) : option pst :=
  gate_update st g (fun s => Z.lor s GATE_ERROR_BIT).

(** ** Waiters *)

(** [realloc_ok]: does the allocation succeed. The first component is the return
    code. A grown array holds the old entries and then unspecified ones, null here. *)
Definition slot_register_waiter (realloc_ok : bool) (s : prefetch_slot) (gate : option ptr)
    : option (bool * prefetch_slot) :=
  match gate with
  | None => Some (false, s)
  | Some g =>
      if n_waiters s <? WAITERS_INLINE then
        w ← aset (waiters_inline s) (n_waiters s) (Some g);
        Some (false, slot_with_waiters s w (waiters_heap s) (u32 (n_waiters s + 1)) (cap_heap s))
      else
        let heap_used := u32 (n_waiters s - WAITERS_INLINE) in
        if (heap_used =? cap_heap s) && negb realloc_ok then Some (true, s)
        else
          let new_cap := if heap_used =? cap_heap s then if cap_heap s =? 0 then 4 else u32 (cap_heap s * 2) else cap_heap s in
          let hp := if heap_used =? cap_heap s then resize (Z.to_nat new_cap) None (waiters_heap s) else waiters_heap s in
          w ← aset hp heap_used (Some g);
          Some (false, slot_with_waiters s (waiters_inline s) w (u32 (n_waiters s + 1)) new_cap)
  end.

Definition slot_waiter (s : prefetch_slot) (i : Z) : option ptr :=
  w ← (if i <? WAITERS_INLINE then aget (waiters_inline s) i else aget (waiters_heap s) (i - WAITERS_INLINE)); w.

Fixpoint release_loop (n : nat) (st : pst) (s : prefetch_slot) (i : Z) (errored : bool) : option pst :=
  match n with
  | O => Some st
  | S n =>
      g ← slot_waiter s i;
      st ← (if errored then prefetch_gate_set_error st (Some g) else Some st);
      st ← prefetch_gate_dec_pending st (Some g);
      release_loop n st s (i + 1) errored
  end.
Definition slot_release_waiters (st : pst) (p : ptr) (errored : bool) : option pst :=
  s ← heap st !! p;
  st ← release_loop (Z.to_nat (n_waiters s)) st s 0 errored;
  Some (put_slot st p (slot_with_waiters s (waiters_inline s) (waiters_heap s) 0 (cap_heap s))).

(** ** Callbacks of the index *)

Definition active_remove (st : pst) (p : ptr) : option pst :=
  s ← heap st !! p;
  let c := pc st in
  let i := active_idx s in
  a ← aset (active c) i None;
  f ← aset (free_list c) (n_free c) i;
  let st := with_pc st (with_active c a f (u32 (n_free c + 1)) (u32 (n_active c - 1))) in
  Some (put_slot st p (slot_with_idx s ACTIVE_IDX_UNLINKED)).

Definition lru_slot_destroy (st : pst) (p : ptr) : option pst :=
  s ← heap st !! p;
  st ← (if active_idx s =? ACTIVE_IDX_UNLINKED then Some st
        else
          st ← active_remove st p;
          let c := pc st in
          Some (with_pc st (with_counts c
            (if bool_decide (s_state s = PREFETCH_STATE_PENDING) then u64 (pending_count c - 1) else pending_count c)
            (if bool_decide (s_state s = PREFETCH_STATE_ERROR) then u64 (errored_count c - 1) else errored_count c))));
  st ← (if n_waiters s =? 0 then Some st else slot_release_waiters st p true);
  let st := free_value (free_key st (s_key s)) (s_value s) in
  Some (with_heap st (delete p (heap st))).

(** The calls of the destroy callback made since the index was [old], in order. *)
Fixpoint destroy_calls (st : pst) (l : list (ptr * K)) : option pst :=
  match l with
  | [] => Some st
  | (p, _) :: l => st ← lru_slot_destroy st p; destroy_calls st l
  end.
Definition new_calls (old new : lru (ptr * K)) : list (ptr * K) := drop (length (destroyed old)) (destroyed new).

(** ** Completion *)

Definition slot_complete_locked (st : pst) (p : ptr) (value : option V) (err_code : Z) : option pst :=
  s ← heap st !! p;
  let c := pc st in
  if err_code =? 0 then
    let st := put_slot st p (slot_with_result s PREFETCH_STATE_READY value (s_err s)) in
    let st := with_pc st (with_counts c (u64 (pending_count c - 1)) (errored_count c)) in
    slot_release_waiters st p false
  else
    let st := free_value st value in
    let st := put_slot st p (slot_with_result s PREFETCH_STATE_ERROR (s_value s) err_code) in
    let st := with_pc st (with_counts c (u64 (pending_count c - 1)) (u64 (errored_count c + 1))) in
    slot_release_waiters st p true.

(** The inner [None] is the null pointer. *)
Definition resolve_handle (st : pst) (h : prefetch_handle) : option (option ptr) :=
  if h_slot h =? 0 then Some None
  else
    let i := h_slot h - 1 in
    if pc_capacity (pc st) <=? i then Some None
    else
      e ← aget (active (pc st)) i;
      match e with
      | None => Some None
      | Some p => s ← heap st !! p; Some (if generation s =? h_generation h then Some p else None)
      end.

Definition prefetch_cache_complete (st : pst) (c : prefetch_completion) (value : option V) (err_code : Z) : option pst :=
  r ← resolve_handle st (Handle (c_slot c) (c_generation c));
  match r with
  | None => Some (free_value st value)
  | Some p =>
      s ← heap st !! p;
      if bool_decide (s_state s = PREFETCH_STATE_PENDING) then slot_complete_locked st p value err_code
      else Some (free_value st value)
  end.

(** ** Requests *)

Section request.
Context (key_eq : K -> K -> bool).

Definition lru_slot_eq (slot_value : ptr * K) (probe_key : K) : bool := key_eq (snd slot_value) probe_key.

(** The memory a request may ask for: whether the key is copied, the address of
    the slot (none when [malloc] fails), and whether a waiter array can grow. *)
Record request_memory := Memory { clone_ok : bool; slot_mem : option ptr; grow_ok : bool }.

Record prefetch_request_result := Result { r_handle : prefetch_handle; r_status : damacy_status }.

(** What the locked part leaves to do: nothing, or to start the fetch of a new
    slot. *)
Inductive request_outcome :=
  | Answered (r : prefetch_request_result)
  | Launch (p : ptr) (c : prefetch_completion) (h : prefetch_handle).

Definition refused (s : damacy_status) : request_outcome := Answered (Result PREFETCH_HANDLE_NONE s).

(** The key is cached; [hit] is its entry. *)
Definition request_hit (mem : request_memory) (st : pst) (hit owner_id : Z) (gate : option ptr)
    : option (pst * request_outcome) :=
  v ← lru_entry_value (idx (pc st)) hit;
  v ← v;
  let p := fst v in
  s ← heap st !! p;
  let needs_pin := bool_decide (lru_ent s = None) && (watermark (pc st) <=? owner_id) in
  let s := slot_with_owners s (Z.min owner_id (min_owner_id s)) (Z.max owner_id (max_owner_id s)) in
  r ← (if needs_pin : bool then
         l ← lru_entry_acquire_locked (idx (pc st)) hit;
         Some (with_pc st (with_idx (pc st) l), slot_with_ent s (Some hit))
       else Some (st, s));
  let '(st, s) := (r : pst * prefetch_slot) in
  let st := put_slot st p s in
  let done_ (st : pst) := Some (st, Answered (Result (make_handle (active_idx s) (generation s)) DAMACY_OK)) in
  match s_state s with
  | PREFETCH_STATE_PENDING =>
      st ← gate_inc_pending st gate;
      r ← slot_register_waiter (grow_ok mem) s gate;
      if (fst r : bool) then
        st ← prefetch_gate_dec_pending st gate;
        Some (st, refused DAMACY_OOM)
      else done_ (put_slot st p (snd r))
  | PREFETCH_STATE_ERROR => st ← prefetch_gate_set_error st gate; done_ st
  | PREFETCH_STATE_READY => done_ st
  end.

(** A new slot as the request fills it in. *)
Definition new_slot (hash : Z) (key : K) (owner_id gen : Z) : prefetch_slot :=
  PSlot hash key None PREFETCH_STATE_PENDING 0 owner_id owner_id gen
    (replicate (Z.to_nat WAITERS_INLINE) None) [] 0 0 None ACTIVE_IDX_UNLINKED.

(** The index took the slot as entry [ent]. *)
Definition request_link (st : pst) (p : ptr) (ent : Z) (gate : option ptr) : option (pst * request_outcome) :=
  s ← heap st !! p;
  let s := slot_with_ent s (Some ent) in
  l ← lru_entry_acquire_locked (idx (pc st)) ent;
  let c := with_idx (pc st) l in
  i ← aget (free_list c) (u32 (n_free c - 1));
  let s := slot_with_idx s i in
  a ← aset (active c) i (Some p);
  let c := with_active c a (free_list c) (u32 (n_free c - 1)) (u32 (n_active c + 1)) in
  let c := with_counts c (u64 (pending_count c + 1)) (errored_count c) in
  let st := put_slot (with_pc st c) p s in
  st ← gate_inc_pending st gate;
  r ← slot_register_waiter true s gate;
  let st := put_slot st p (snd r) in
  Some (st, Launch p (make_completion s) (make_handle (active_idx s) (generation s))).

(** The key is not cached. The slot is allocated, filled in and given to the index,
    which evicts others or refuses it. *)
Definition request_miss (mem : request_memory) (st : pst) (hash : Z) (key : K) (owner_id : Z) (gate : option ptr)
    : option (pst * request_outcome) :=
  if negb (clone_ok mem) then Some (st, refused DAMACY_OOM)
  else
    match slot_mem mem with
    | None => Some (free_key st key, refused DAMACY_OOM)
    | Some p =>
        match heap st !! p with
        | Some _ => None
        | None =>
            let gen := u32 (generation_counter (pc st) + 1) in
            let st := put_slot (with_pc st (with_generation (pc st) gen)) p (new_slot hash key owner_id gen) in
            let old := idx (pc st) in
            r ← lru_put lru_slot_eq old hash key (p, key);
            let '(ent, l) := (r : Z * lru (ptr * K)) in
            st ← destroy_calls (with_pc st (with_idx (pc st) l)) (new_calls old l);
            if ent =? LRU_NIL then Some (st, refused DAMACY_AGAIN) else request_link st p ent gate
        end
    end.

(** The part under the lock, on a cache and a key that are not null. *)
Definition request_locked (mem : request_memory) (st : pst) (hash : Z) (key : K) (owner_id : Z) (gate : option ptr)
    : option (pst * request_outcome) :=
  r ← lru_get lru_slot_eq (idx (pc st)) hash key;
  let '(hit, l) := (r : Z * lru (ptr * K)) in
  let st := with_pc st (with_idx (pc st) l) in
  if hit =? LRU_NIL then request_miss mem st hash key owner_id gate else request_hit mem st hit owner_id gate.

(** How the fetch is started, after the lock is released: by an asynchronous fetcher
    that takes it or refuses, or on the executor, which needs memory for the context
    and may refuse the post. *)
Inductive launch_result := AsyncStarted | AsyncRefused | NoContext | Posted | PostRefused.

Definition launch (st : pst) (p : ptr) (completion : prefetch_completion) (how : launch_result) : option pst :=
  match how with
  | AsyncStarted => s ← heap st !! p; Some st
  | AsyncRefused => s ← heap st !! p; prefetch_cache_complete st completion None (status_code DAMACY_AGAIN)
  | NoContext => prefetch_cache_complete st completion None (status_code DAMACY_OOM)
  | Posted => s ← heap st !! p; Some st
  | PostRefused =>
      s ← heap st !! p;
      let ctx_generation := generation s in
      if (generation s =? ctx_generation) && bool_decide (s_state s = PREFETCH_STATE_PENDING)
      then slot_complete_locked st p None (status_code DAMACY_AGAIN)
      else Some st
  end.

Definition prefetch_cache_request_result (mem : request_memory) (how : launch_result) (st : pst) (hash : Z) (key : K)
    (owner_id : Z) (gate : option ptr) : option (pst * prefetch_request_result) :=
  r ← request_locked mem st hash key owner_id gate;
  match r with
  | (st, Answered a) => Some (st, a)
  | (st, Launch p c h) => st ← launch st p c how; Some (st, Result h DAMACY_OK)
  end.

Definition prefetch_cache_request (mem : request_memory) (how : launch_result) (st : pst) (hash : Z) (key : K)
    (owner_id : Z) (gate : option ptr) : option (pst * prefetch_handle) :=
  r ← prefetch_cache_request_result mem how st hash key owner_id gate;
  Some (fst r, if decide (r_status (snd r) = DAMACY_OK) then r_handle (snd r) else PREFETCH_HANDLE_NONE).

(** A posted fetch runs: [rc], [value] and [err] are what the fetcher returned. *)
Definition prefetch_fetch_worker (st : pst) (p : ptr) (ctx_generation rc : Z) (value : option V) (err : Z) : option pst :=
  s ← heap st !! p;
  prefetch_cache_complete st (Completion (u32 (active_idx s + 1)) ctx_generation) value (if rc =? 0 then 0 else err).

(** ** Queries *)

Definition prefetch_cache_try_get (st : pst) (h : prefetch_handle) : option (option V) :=
  r ← resolve_handle st h;
  match r with
  | None => Some None
  | Some p =>
      s ← heap st !! p;
      Some (if bool_decide (s_state s = PREFETCH_STATE_READY) then s_value s else None)
  end.

Definition prefetch_cache_peek (st : pst) (hash : Z) (key : K) : option (option V) :=
  hit ← lru_peek lru_slot_eq (idx (pc st)) hash key;
  if hit =? LRU_NIL then Some None
  else
    v ← lru_entry_value (idx (pc st)) hit;
    v ← v;
    s ← heap st !! fst v;
    Some (if bool_decide (s_state s = PREFETCH_STATE_READY) then s_value s else None).

(** The state with the value and the error the out-parameters receive. *)
Definition prefetch_cache_query (st : pst) (h : prefetch_handle) : option (prefetch_state * option V * Z) :=
  r ← resolve_handle st h;
  match r with
  | None => Some (PREFETCH_STATE_PENDING, None, 0)
  | Some p =>
      s ← heap st !! p;
      Some (s_state s,
            (if bool_decide (s_state s = PREFETCH_STATE_READY) then s_value s else None),
            (if bool_decide (s_state s = PREFETCH_STATE_ERROR) then s_err s else 0))
  end.

(** ** The watermark *)

Fixpoint unpin_loop (n : nat) (st : pst) (i : Z) (skip : prefetch_slot -> bool) : option pst :=
  match n with
  | O => Some st
  | S n =>
      e ← aget (active (pc st)) i;
      st ← match e with
           | None => Some st
           | Some p =>
               s ← heap st !! p;
               match lru_ent s with
               | Some ent =>
                   if skip s then Some st
                   else
                     l ← lru_entry_release (idx (pc st)) ent;
                     Some (put_slot (with_pc st (with_idx (pc st) l)) p (slot_with_ent s None))
               | None => Some st
               end
           end;
      unpin_loop n st (i + 1) skip
  end.

(** An entry that stays pinned: its fetch runs, or a sample at or past [w] owns it. *)
Definition stays_pinned (w : Z) (s : prefetch_slot) : bool :=
  bool_decide (s_state s = PREFETCH_STATE_PENDING) || (w <=? max_owner_id s).

Definition prefetch_cache_advance_watermark (st : pst) (new_watermark : Z) : option pst :=
  if new_watermark <=? watermark (pc st) then Some st
  else
    let st := with_pc st (with_watermark (pc st) new_watermark) in
    unpin_loop (Z.to_nat (pc_capacity (pc st))) st 0 (stays_pinned new_watermark).

(** ** Creation, destruction and statistics *)

Fixpoint free_loop (n : nat) (l : list Z) (i cap : Z) : option (list Z) :=
  match n with
  | O => Some l
  | S n => l ← aset l i (u32 (cap - 1 - i)); free_loop n l (i + 1) cap
  end.

(** Which pointers of [struct prefetch_cache_config] are set. *)
Record prefetch_cache_config := PConfig {
  cf_capacity : Z; cf_max_probe : Z; cf_ops : bool; cf_fetcher : option bool; cf_executor : option bool; cf_async : option bool }.

Definition prefetch_config_ok (cfg : prefetch_cache_config) : bool :=
  (0 <? cf_capacity cfg) && cf_ops cfg && (bool_decide (is_Some (cf_fetcher cfg)) || bool_decide (is_Some (cf_async cfg))) &&
  match cf_fetcher cfg with
  | None => true
  | Some fetch => fetch && default false (cf_executor cfg)
  end &&
  match cf_async cfg with None => true | Some start => start end.

(** [alloc k]: does the [k]-th allocation succeed; the inner [None] is [NULL]. *)
Definition prefetch_cache_create (alloc : nat -> bool) (cfg : prefetch_cache_config) : option (option prefetch_cache) :=
  if negb (prefetch_config_ok cfg) then Some None
  else if negb (alloc 0%nat && alloc 1%nat && alloc 2%nat && alloc 3%nat) then Some None
  else
    let cap := cf_capacity cfg in
    f ← free_loop (Z.to_nat cap) (replicate (Z.to_nat cap) 0) 0 cap;
    l ← lru_create (fun k => alloc (4 + k)%nat) cap (cf_max_probe cfg);
    match l with
    | None => Some None
    | Some l => Some (Some (PCache l 0 0 (replicate (Z.to_nat cap) None) f cap 0 cap 0 0))
    end.

Definition prefetch_cache_destroy (st : pst) : option pst :=
  st ← unpin_loop (Z.to_nat (pc_capacity (pc st))) st 0 (fun _ => false);
  r ← lru_destroy (idx (pc st));
  let '(_, l) := (r : bool * lru (ptr * K)) in
  destroy_calls (with_pc st (with_idx (pc st) l)) (new_calls (idx (pc st)) l).

Record prefetch_cache_stats := PStats {
  ps_counters : lru_counters; ps_size : Z; ps_capacity : Z; ps_watermark : Z; ps_pending : Z; ps_errored : Z }.

Definition prefetch_cache_stats_get (st : pst) : option prefetch_cache_stats :=
  s ← lru_stats_get (idx (pc st));
  Some (PStats (st_counters s) (st_size s) (pc_capacity (pc st)) (watermark (pc st)) (pending_count (pc st)) (errored_count (pc st))).
End request.
End cache.
Arguments prefetch_slot : clear implicits.
Arguments prefetch_cache : clear implicits.
Arguments pst : clear implicits.
