(* ===== verification/PrefetchGates.v ===== *)
(** * Gates and waiters of the prefetch cache

    A gate is an error bit over a 63-bit count; a slot keeps its waiters in two inline
    places and then in an array that doubles. *)

From stdpp Require Import gmap.
From S2P Require Import Prelude Hash Lru PrefetchCache.

#[local] Open Scope Z_scope.

(** ** Sums over lists *)

Definition zsum {A} (f : A -> Z) (l : list A) : Z := foldr (fun x n => f x + n) 0 l.

Lemma zsum_cons {A} (f : A -> Z) x l : zsum f (x :: l) = f x + zsum f l.
Proof. done. Qed.
#[export] Instance zsum_perm {A} (f : A -> Z) : Proper ((≡ₚ) ==> (=)) (zsum f).
Proof. intros l l' H. induction H; rewrite ?zsum_cons; lia. Qed.
Lemma zsum_nonneg {A} (f : A -> Z) l : (forall x, x ∈ l -> 0 <= f x) -> 0 <= zsum f l.
Proof.
  induction l as [|x l IH]; intros H; [done|]. rewrite zsum_cons. specialize (H x ltac:(left)) as Hx.
  assert (0 <= zsum f l) by (apply IH; intros; apply H; by right). lia.
Qed.
Lemma zsum_elem {A} (f : A -> Z) l x : (forall y, y ∈ l -> 0 <= f y) -> x ∈ l -> f x <= zsum f l.
Proof.
  intros H Hx. apply list_elem_of_split in Hx as (l1 & l2 & ->).
  assert (0 <= zsum f (l1 ++ l2)) by (apply zsum_nonneg; intros; apply H; set_solver).
  rewrite <-Permutation_middle, zsum_cons. lia.
Qed.
Lemma zsum_le {A} (f g : A -> Z) l : (forall x, x ∈ l -> f x <= g x) -> zsum f l <= zsum g l.
Proof.
  induction l as [|x l IH]; intros H; [done|]. rewrite !zsum_cons.
  assert (f x <= g x) by (apply H; left). assert (zsum f l <= zsum g l) by (apply IH; intros; apply H; by right). lia.
Qed.
Lemma zsum_filter {A} (P : A -> Prop) `{!forall x, Decision (P x)} l :
  zsum (fun x => if decide (P x) then 1 else 0) l = zlen (filter P l).
Proof.
  induction l as [|x l IH]; [done|]. rewrite zsum_cons, IH. case_decide; [rewrite filter_cons_True by done|rewrite filter_cons_False by done];
    cbn [length]; lia.
Qed.

(** How often [x] occurs. *)
Definition occurs (x : ptr) (l : list ptr) : Z := zsum (fun y => if decide (y = x) then 1 else 0) l.
Lemma occurs_cons x y l : occurs x (y :: l) = (if decide (y = x) then 1 else 0) + occurs x l.
Proof. done. Qed.
Lemma occurs_app x l l' : occurs x (l ++ l') = occurs x l + occurs x l'.
Proof. induction l as [|y l IH]; [done|]. rewrite <-app_comm_cons, !occurs_cons, IH. lia. Qed.
Lemma occurs_range x l : 0 <= occurs x l <= zlen l.
Proof. induction l as [|y l IH]; [done|]. rewrite occurs_cons. cbn [length]. case_decide; lia. Qed.
Lemma occurs_elem x l : x ∈ l <-> 0 < occurs x l.
Proof.
  induction l as [|y l IH]; [split; [by intros ?%not_elem_of_nil|done]|]. rewrite occurs_cons, elem_of_cons, IH.
  pose proof (occurs_range x l). case_decide as E; [subst; split; [lia|by left]|].
  split; [intros [->|?]; [done|lia]|intros ?; right; lia].
Qed.

(** ** Gates *)

(** The value with error bit [b] and count [n]. *)
Definition gate_val (b : bool) (n : Z) : Z := (if b then 2 ^ 63 else 0) + n.

Lemma gate_val_inc b n : 0 <= n < 2 ^ 63 - 1 -> u64 (gate_val b n + 1) = gate_val b (n + 1).
Proof. intros H. unfold gate_val. rewrite u64_id by (destruct b; clia). destruct b; lia. Qed.
Lemma gate_val_dec b n : 0 < n < 2 ^ 63 -> u64 (gate_val b n - 1) = gate_val b (n - 1).
Proof. intros H. unfold gate_val. rewrite u64_id by (destruct b; clia). destruct b; lia. Qed.
Lemma gate_val_bit b n : 0 <= n < 2 ^ 63 -> Z.testbit (gate_val b n) 63 = b.
Proof.
  intros H. unfold gate_val. rewrite Z.testbit_odd, Z.shiftr_div_pow2 by lia. destruct b.
  - rewrite <-(Z.mul_1_l (2 ^ 63)) at 1. rewrite Z.div_add_l by lia. rewrite (Z.div_small n) by lia. done.
  - rewrite Z.add_0_l, Z.div_small by lia. done.
Qed.
Lemma gate_val_mask b n : 0 <= n < 2 ^ 63 -> Z.land (gate_val b n) GATE_PENDING_MASK = n.
Proof.
  intros H. unfold GATE_PENDING_MASK. change (2 ^ 63 - 1) with (Z.ones 63). rewrite Z.land_ones by lia.
  unfold gate_val. destruct b; [|rewrite Z.add_0_l; by apply Z.mod_small].
  rewrite <-(Z.mul_1_l (2 ^ 63)) at 1. rewrite Z.add_comm, Z.mod_add by lia. by apply Z.mod_small.
Qed.
Lemma land_error_bit x : Z.land x GATE_ERROR_BIT = if Z.testbit x 63 then 2 ^ 63 else 0.
Proof.
  unfold GATE_ERROR_BIT. apply Z.bits_inj'. intros n Hn. rewrite Z.land_spec, Z.pow2_bits_eqb by lia.
  destruct (Z.eqb_spec 63 n) as [<-|Hne].
  - by destruct (Z.testbit x 63) eqn:E; rewrite ?E.
  - rewrite andb_false_r. destruct (Z.testbit x 63); [|by rewrite Z.bits_0]. rewrite Z.pow2_bits_false by lia. done.
Qed.
Lemma gate_val_error b n : 0 <= n < 2 ^ 63 -> Z.lor (gate_val b n) GATE_ERROR_BIT = gate_val true n.
Proof.
  intros H. pose proof (Z.add_lor_land (gate_val b n) GATE_ERROR_BIT) as Ha.
  rewrite land_error_bit, gate_val_bit in Ha by done. unfold gate_val, GATE_ERROR_BIT in *. destruct b; lia.
Qed.

(** ** Waiters of a slot *)

Section waiters.
Context {K V : Type}.
Implicit Types (s : @prefetch_slot K V) (st : @pst K V).

Definition wait_cells s : list (option ptr) := take (Z.to_nat (n_waiters s)) (waiters_inline s ++ waiters_heap s).
Definition waiters s : list ptr := omap id (wait_cells s).

(** The first [n_waiters] places are taken; the rest of the arrays is room. *)
Record wait_wf s : Prop := {
  w_inline : zlen (waiters_inline s) = WAITERS_INLINE;
  w_heap : zlen (waiters_heap s) = cap_heap s;
  w_cap : cap_heap s < 2 ^ 32;
  w_room : 0 <= n_waiters s <= WAITERS_INLINE + cap_heap s;
  w_cells : wait_cells s = Some <$> waiters s }.

Lemma omap_some (l : list ptr) : omap id (Some <$> l) = l.
Proof. induction l as [|x l IH]; [done|]. cbn. by rewrite IH. Qed.

Lemma wait_length s : wait_wf s -> zlen (waiters s) = n_waiters s.
Proof.
  intros [Hi Hh _ Hr Hc]. unfold WAITERS_INLINE in *.
  assert (zlen (wait_cells s) = n_waiters s) as Hl.
  { unfold wait_cells. rewrite length_take, length_app. lia. }
  rewrite Hc, length_fmap in Hl. done.
Qed.

Lemma wait_at s i : wait_wf s -> 0 <= i < n_waiters s -> slot_waiter s i = waiters s !! Z.to_nat i.
Proof.
  intros Hw Hi. pose proof Hw as [Hin Hh _ Hr Hc]. unfold WAITERS_INLINE in *. unfold slot_waiter.
  assert (wait_cells s !! Z.to_nat i = Some <$> (waiters s !! Z.to_nat i)) as Hl by (rewrite Hc; apply list_lookup_fmap).
  unfold wait_cells in Hl. rewrite lookup_take_lt in Hl by lia.
  unfold WAITERS_INLINE. destruct (Z.ltb_spec i 2).
  - rewrite lookup_app_l in Hl by lia. unfold aget. rewrite (proj2 (Z.leb_le _ _)) by lia.
    destruct (waiters_inline s !! Z.to_nat i) as [o|]; cbn [mbind option_bind]; [|by destruct (waiters s !! Z.to_nat i)].
    destruct (waiters s !! Z.to_nat i); simplify_eq/=; done.
  - rewrite lookup_app_r in Hl by lia. unfold aget. rewrite (proj2 (Z.leb_le _ _)) by lia.
    replace (Z.to_nat (i - 2)) with (Z.to_nat i - length (waiters_inline s))%nat by lia.
    destruct (waiters_heap s !! _) as [o|]; cbn [mbind option_bind]; [|by destruct (waiters s !! Z.to_nat i)].
    destruct (waiters s !! Z.to_nat i); simplify_eq/=; done.
Qed.

(** A write at the first free place. *)
Lemma cells_snoc s (l : list (option ptr)) g :
  wait_wf s -> n_waiters s < zlen l ->
  take (Z.to_nat (n_waiters s)) l = Some <$> waiters s ->
  take (Z.to_nat (n_waiters s + 1)) (<[Z.to_nat (n_waiters s) := Some g]> l) = Some <$> (waiters s ++ [g]).
Proof.
  intros Hw Hl Ht. pose proof (w_room _ Hw). replace (Z.to_nat (n_waiters s + 1)) with (S (Z.to_nat (n_waiters s))) by lia.
  rewrite (take_S_r _ _ (Some g)); [|apply list_lookup_insert_eq; lia].
  rewrite take_insert_ge by lia. by rewrite Ht, fmap_app.
Qed.

Lemma register_waiter_spec ok s g :
  wait_wf s -> n_waiters s < 2 ^ 31 ->
  (slot_register_waiter ok s (Some g) = Some (true, s) /\ ok = false /\ WAITERS_INLINE <= n_waiters s) \/
  exists a h n c, slot_register_waiter ok s (Some g) = Some (false, slot_with_waiters s a h n c) /\
    wait_wf (slot_with_waiters s a h n c) /\ waiters (slot_with_waiters s a h n c) = waiters s ++ [g].
Proof.
  intros Hw Hn. pose proof Hw as [Hin Hh Hcap Hr Hc]. unfold slot_register_waiter, WAITERS_INLINE in *.
  assert (Hfin : forall a h c l, zlen a = 2 -> zlen h = c -> c < 2 ^ 32 -> n_waiters s < 2 + c ->
    a ++ h = <[Z.to_nat (n_waiters s) := Some g]> l -> take (Z.to_nat (n_waiters s)) l = Some <$> waiters s ->
    wait_wf (slot_with_waiters s a h (u32 (n_waiters s + 1)) c) /\
    waiters (slot_with_waiters s a h (u32 (n_waiters s + 1)) c) = waiters s ++ [g]).
  { intros a h c l Ha Hh' Hc' Hr' Hl Ht. rewrite u32_id by clia.
    assert (zlen l = 2 + c) as Hlen.
    { apply (f_equal length) in Hl. rewrite length_insert, length_app in Hl. lia. }
    pose proof (cells_snoc s l g Hw ltac:(lia) Ht) as Hcells. rewrite <-Hl in Hcells.
    assert (waiters (slot_with_waiters s a h (n_waiters s + 1) c) = waiters s ++ [g]) as Hws.
    { unfold waiters at 1, wait_cells. cbn [waiters_inline waiters_heap n_waiters slot_with_waiters]. by rewrite Hcells, omap_some. }
    split; [|done]. split; cbn [waiters_inline waiters_heap n_waiters cap_heap slot_with_waiters]; try done; unfold WAITERS_INLINE; try lia.
    by rewrite Hws. }
  destruct (Z.ltb_spec (n_waiters s) 2) as [Hlt|Hge].
  - right. rewrite aset_range by lia. cbn [mbind option_bind]. eexists _, _, _, _. split; [done|].
    eapply Hfin; [by rewrite length_insert|done|lia|lia| |exact Hc]. by rewrite insert_app_l by lia.
  - rewrite (u32_id (n_waiters s - 2)) by clia. destruct (Z.eqb_spec (n_waiters s - 2) (cap_heap s)) as [Hfull|Hroom]; cbn [andb].
    + destruct ok; [right|by left]. cbn [negb].
      assert (exists nc, (if cap_heap s =? 0 then 4 else u32 (cap_heap s * 2)) = nc /\ cap_heap s < nc < 2 ^ 32) as (nc & -> & Hnc).
      { destruct (Z.eqb_spec (cap_heap s) 0); [exists 4; clia|]. exists (cap_heap s * 2). rewrite u32_id by clia. split; [done|clia]. }
      assert (zlen (resize (Z.to_nat nc) None (waiters_heap s)) = nc) as Hrl by (rewrite length_resize; lia).
      rewrite aset_range by lia. cbn [mbind option_bind]. eexists _, _, _, _. split; [done|].
      eapply (Hfin _ _ _ (waiters_inline s ++ resize (Z.to_nat nc) None (waiters_heap s)));
        [done|by rewrite length_insert|lia|lia| |].
      * rewrite insert_app_r_alt by lia. do 2 f_equal. lia.
      * rewrite <-Hc. unfold wait_cells. rewrite resize_ge by lia. rewrite app_assoc, take_app_le by (rewrite length_app; lia). done.
    + right. rewrite aset_range by lia. cbn [mbind option_bind]. eexists _, _, _, _. split; [done|].
      eapply Hfin; [done|by rewrite length_insert|lia|lia| |exact Hc].
      rewrite insert_app_r_alt by lia. do 2 f_equal. lia.
Qed.

(** ** Counting waiters at the gates *)

(** Every gate counts [w]; a gate that is counted is alive. *)
Record gates_ok (G : gmap ptr Z) (w : ptr -> Z) : Prop := {
  g_val : forall g v, G !! g = Some v -> exists b, v = gate_val b (w g);
  g_live : forall g, w g <> 0 -> is_Some (G !! g);
  g_range : forall g, 0 <= w g < 2 ^ 63 - 1 }.

Definition error_bit (G : gmap ptr Z) (g : ptr) : bool := match G !! g with Some v => Z.testbit v 63 | None => false end.

Lemma gates_ok_ext G w w' : gates_ok G w -> (forall g, w' g = w g) -> gates_ok G w'.
Proof.
  intros [H1 H2 H3] He. split; [intros g v Hg; rewrite He; by apply H1|intros g; rewrite He; apply H2|intros g; rewrite He; apply H3].
Qed.

(** The waiters that other caches registered: the gates of a sample are shared. *)
Class OtherWaiters := { others : ptr -> Z; others_range : forall g, 0 <= others g <= 2 ^ 62 }.

(** One gate changes its count, keeping or setting its error bit. *)
Lemma gate_update_spec st g f w n e :
  gates_ok (gates st) w -> is_Some (gates st !! g) -> 0 <= n < 2 ^ 63 - 1 ->
  (forall b, f (gate_val b (w g)) = gate_val (b || e) n) ->
  exists st', gate_update st (Some g) f = Some st' /\ st' = with_gates st (gates st') /\
    gates_ok (gates st') (fun x => if decide (x = g) then n else w x) /\
    (forall x, error_bit (gates st') x = error_bit (gates st) x || (e && bool_decide (x = g))) /\
    dom (gates st') = dom (gates st).
Proof.
  intros [H1 H2 H3] [v Hv] Hn Hf. unfold gate_update, gate_load. rewrite Hv. cbn [mbind option_bind].
  destruct (H1 g v Hv) as [b ->]. rewrite Hf. eexists. split; [done|]. split; [done|]. cbn [gates with_gates]. split; [split|split].
  - intros x y. destruct (decide (x = g)) as [->|Hx]; [rewrite lookup_insert_eq; intros [= <-]; eauto|].
    rewrite lookup_insert_ne by done. apply H1.
  - intros x Hx. destruct (decide (x = g)) as [->|Hne]; [by rewrite lookup_insert_eq|rewrite lookup_insert_ne by done; by apply H2].
  - intros x. case_decide; [done|apply H3].
  - intros x. unfold error_bit. destruct (decide (x = g)) as [->|Hx].
    + rewrite lookup_insert_eq, Hv, bool_decide_true by done. specialize (H3 g). rewrite !gate_val_bit by clia.
      by rewrite andb_true_r.
    + rewrite lookup_insert_ne, bool_decide_false by done. by rewrite andb_false_r, orb_false_r.
  - apply dom_insert_lookup_L. eauto.
Qed.

(** Releasing the waiters from place [i] on. *)
Lemma release_loop_spec n st s i errored w :
  wait_wf s -> 0 <= i -> i + Z.of_nat n = n_waiters s ->
  gates_ok (gates st) (fun g => w g + occurs g (drop (Z.to_nat i) (waiters s))) -> (forall g, 0 <= w g) ->
  exists st', release_loop n st s i errored = Some st' /\ st' = with_gates st (gates st') /\ gates_ok (gates st') w /\
    (forall g, error_bit (gates st') g = error_bit (gates st) g || (errored && bool_decide (g ∈ drop (Z.to_nat i) (waiters s)))) /\
    dom (gates st') = dom (gates st).
Proof.
  intros Hw. revert st i. induction n as [|n IH]; intros st i Hi Hn Hg H0; cbn [release_loop].
  { rewrite drop_ge in * by (pose proof (wait_length s Hw); lia). exists st. split; [done|]. split; [by destruct st|].
    split; [eapply gates_ok_ext; [done|]; intros g; cbn; lia|]. split; [|done]. intros g.
    rewrite bool_decide_false by (by intros ?%not_elem_of_nil). by rewrite andb_false_r, orb_false_r. }
  rewrite wait_at by (done || lia). pose proof (wait_length s Hw) as Hlen.
  destruct (lookup_lt_is_Some_2 (waiters s) (Z.to_nat i)) as [g Hgi]; [lia|]. rewrite Hgi. cbn [mbind option_bind].
  rewrite (drop_S _ _ _ Hgi) in *. set (rest := drop (S (Z.to_nat i)) (waiters s)) in *.
  assert (Hg1 : exists st1, (if errored then prefetch_gate_set_error st (Some g) else Some st) = Some st1 /\
    st1 = with_gates st (gates st1) /\ gates_ok (gates st1) (fun x => w x + occurs x (g :: rest)) /\
    (forall x, error_bit (gates st1) x = error_bit (gates st) x || (errored && bool_decide (x = g))) /\
    dom (gates st1) = dom (gates st)).
  { destruct errored; [|exists st; split_and!; [done|by destruct st|done|by intros; rewrite orb_false_r|done]].
    destruct (gate_update_spec st g (fun v => Z.lor v GATE_ERROR_BIT) _ (w g + occurs g (g :: rest)) true Hg)
      as (st1 & H1 & H2 & H3 & H4 & H5).
    - apply (g_live _ _ Hg). rewrite occurs_cons, decide_True by done. pose proof (occurs_range g rest). specialize (H0 g). lia.
    - apply (g_range _ _ Hg).
    - intros b. rewrite gate_val_error by (pose proof (g_range _ _ Hg g); clia). by rewrite orb_true_r.
    - exists st1. split_and!; try done. eapply gates_ok_ext; [done|]. intros x. cbn beta. destruct (decide (x = g)) as [->|]; done. }
  destruct Hg1 as (st1 & -> & E1 & G1 & B1 & D1). cbn [mbind option_bind]. unfold prefetch_gate_dec_pending.
  destruct (gate_update_spec st1 g (fun v => u64 (v - 1)) _ (w g + occurs g rest) false G1) as (st2 & -> & E2 & G2 & B2 & D2).
  - apply (g_live _ _ G1). rewrite occurs_cons, decide_True by done. pose proof (occurs_range g rest). specialize (H0 g). lia.
  - pose proof (g_range _ _ G1 g) as Hr. cbn beta in Hr. rewrite occurs_cons, decide_True in Hr by done.
    pose proof (occurs_range g rest). specialize (H0 g). lia.
  - intros b. pose proof (g_range _ _ G1 g) as Hr. cbn beta in Hr. rewrite occurs_cons, decide_True in * by done.
    pose proof (occurs_range g rest). specialize (H0 g). rewrite gate_val_dec by clia. rewrite orb_false_r. f_equal. lia.
  - cbn [mbind option_bind].
    destruct (IH st2 (i + 1)) as (st3 & -> & E3 & G3 & B3 & D3); [lia|lia| |done|].
    { replace (Z.to_nat (i + 1)) with (S (Z.to_nat i)) by lia. fold rest. eapply gates_ok_ext; [exact G2|].
      intros x. cbn beta. case_decide as E; [by subst|]. rewrite occurs_cons. rewrite decide_False by congruence. lia. }
    replace (Z.to_nat (i + 1)) with (S (Z.to_nat i)) in B3 by lia. fold rest in B3.
    exists st3. split; [done|]. split; [rewrite E3, E2, E1; by destruct st|]. split; [done|]. split; [|congruence].
    intros x. rewrite B3, B2, B1. destruct errored; cbn [andb]; rewrite ?orb_false_r; [|done].
    rewrite <-orb_assoc. f_equal. rewrite <-bool_decide_or. apply bool_decide_ext. by rewrite elem_of_cons.
Qed.
End waiters.
