(* ===== verification/PrefetchProof.v ===== *)
(** * The invariant of the prefetch cache

    The state of [PrefetchCache.v] against the list of its entries: what the index
    holds for a slot, and the slot. The operations on one entry keep the invariant. *)

From stdpp Require Import gmap.
From S2P Require Import Prelude Hash Lru LruSpec LruCorrect LruClaims LruClient PrefetchCache PrefetchGates.

#[local] Open Scope Z_scope.

(** Keys are compared as an equivalence. *)
Class KeyEquiv {K} (key_eq : K -> K -> bool) : Prop := {
  ke_refl : forall k, key_eq k k = true;
  ke_trans : forall a b c d, key_eq a c = true -> key_eq a d = true -> key_eq b c = key_eq b d }.

#[export] Instance slot_eq_keyed {K} (key_eq : K -> K -> bool) `{!KeyEquiv key_eq} : KeyedEq (lru_slot_eq key_eq).
Proof. intros [p a] [q b] c d. unfold lru_slot_eq; cbn [snd]. apply ke_trans. Qed.

(** Computes the fields of an updated state. *)
Ltac unfold_st :=
  unfold put_slot in *; unfold free_value, free_key, with_heap, with_pc, with_gates, with_idx, with_watermark, with_generation, with_counts,
    with_active in *;
  cbn [pc heap gates keys_freed values_freed idx watermark generation_counter active free_list n_free n_active pc_capacity
    pending_count errored_count mbind option_bind] in *.

Section proof.
Context {K V : Type}.
Implicit Types (s : prefetch_slot K V) (st : pst K V) (c : prefetch_cache K).

Notation entry := (item (ptr * K) * prefetch_slot K V)%type.
Implicit Types (e : entry) (L : list entry).

Definition eptr e : ptr := fst (it_value (fst e)).
Definition is_pending e : Prop := s_state (snd e) = PREFETCH_STATE_PENDING.
Definition is_errored e : Prop := s_state (snd e) = PREFETCH_STATE_ERROR.
#[export] Instance is_pending_dec e : Decision (is_pending e).
Proof. unfold is_pending. apply _. Defined.
#[export] Instance is_errored_dec e : Decision (is_errored e).
Proof. unfold is_errored. apply _. Defined.

(** The waiters of gate [g]. *)
Definition waiting L (g : ptr) : Z := zsum (fun e => occurs g (waiters (snd e))) L.
(** What the gates count, with the waiters of the other caches. *)
Context {OW : OtherWaiters}.
Definition expected L (g : ptr) : Z := waiting L g + others g.
Definition n_pending L : Z := zsum (fun e => if decide (is_pending e) then 1 else 0) L.
Definition n_errored L : Z := zsum (fun e => if decide (is_errored e) then 1 else 0) L.

(** One entry: its item and its slot agree, it is pinned once or not at all, pinned
    while its fetch runs, and has waiters only while its fetch runs. [n] bounds the
    requests so far. *)
Record entry_ok c (n : Z) e : Prop := {
  e_active : aget (active c) (active_idx (snd e)) = Some (Some (eptr e));
  e_key : it_value (fst e) = (eptr e, s_key (snd e));
  e_hash : it_hash (fst e) = key_hash (snd e);
  e_pin : match lru_ent (snd e) with
          | Some i => it_slot (fst e) = i /\ it_ref (fst e) = 1
          | None => it_ref (fst e) = 0
          end;
  e_pending : is_pending e -> lru_ent (snd e) <> None;
  e_fetched : s_state (snd e) <> PREFETCH_STATE_READY -> s_value (snd e) = None;
  e_done : ~ is_pending e -> n_waiters (snd e) = 0;
  e_wait : wait_wf (snd e);
  e_few : n_waiters (snd e) <= n;
  e_gen : 0 < generation (snd e) <= generation_counter c }.

Record pcore (n : Z) st L : Prop := {
  k_cap : 0 < pc_capacity (pc st) <= 2 ^ 30;
  k_lens : zlen (active (pc st)) = pc_capacity (pc st) /\ zlen (free_list (pc st)) = pc_capacity (pc st);
  k_nodup : NoDup (eptr <$> L);
  k_gens : NoDup (generation ∘ snd <$> L);
  k_heap : Forall (fun e => heap st !! eptr e = Some (snd e)) L;
  k_entry : Forall (entry_ok (pc st) n) L;
  k_active : forall i p, aget (active (pc st)) i = Some (Some p) -> exists e, e ∈ L /\ eptr e = p /\ active_idx (snd e) = i;
  k_free : NoDup (take (Z.to_nat (n_free (pc st))) (free_list (pc st)));
  k_hole : forall i, i ∈ take (Z.to_nat (n_free (pc st))) (free_list (pc st)) <-> aget (active (pc st)) i = Some None;
  k_count : n_active (pc st) = zlen L /\ 0 <= n_free (pc st) /\ n_active (pc st) + n_free (pc st) = pc_capacity (pc st);
  k_pending : pending_count (pc st) = n_pending L;
  k_errored : errored_count (pc st) = n_errored L;
  k_gates : gates_ok (gates st) (expected L);
  k_reqs : 0 <= generation_counter (pc st) <= n /\ n < 2 ^ 31 }.

(** ** The entries as a set *)

#[export] Instance waiting_perm : Proper ((≡ₚ) ==> (=) ==> (=)) waiting.
Proof. intros L L' H g g' ->. unfold waiting. by rewrite H. Qed.

#[export] Instance n_pending_perm : Proper ((≡ₚ) ==> (=)) n_pending.
Proof. intros L L' H. unfold n_pending. by rewrite H. Qed.
#[export] Instance n_errored_perm : Proper ((≡ₚ) ==> (=)) n_errored.
Proof. intros L L' H. unfold n_errored. by rewrite H. Qed.

Lemma pcore_perm n st L L' : L ≡ₚ L' -> pcore n st L -> pcore n st L'.
Proof.
  intros Hp [H1 H2 H3 H4 H5 H6 H7 H8 H9 H10 H11 H12 H13 H14]. split; try done; try (by rewrite <-Hp).
  - intros i p Hi. destruct (H7 i p Hi) as (e & He & Hq). exists e. by rewrite <-Hp.
  - eapply gates_ok_ext; [done|]. intros g. unfold expected. by rewrite Hp.
Qed.

Lemma zsum_count {A} (P : A -> Prop) `{!forall x, Decision (P x)} (l : list A) :
  0 <= zsum (fun x => if decide (P x) then 1 else 0) l <= zlen l.
Proof. rewrite zsum_filter. pose proof (length_filter P l). lia. Qed.

Lemma pcore_len n st L : pcore n st L -> zlen L <= pc_capacity (pc st).
Proof. intros H. destruct (k_count _ _ _ H) as (? & ? & ?). lia. Qed.

Lemma waiting_cons e L g : waiting (e :: L) g = occurs g (waiters (snd e)) + waiting L g.
Proof. done. Qed.
Lemma waiting_app L L' g : waiting (L ++ L') g = waiting L g + waiting L' g.
Proof. induction L as [|e L IH]; [done|]. cbn [app]. rewrite !waiting_cons, IH. lia. Qed.
Lemma waiting_nonneg L g : 0 <= waiting L g.
Proof. apply zsum_nonneg. intros e _. apply occurs_range. Qed.

Lemma expected_cons e L g : expected (e :: L) g = occurs g (waiters (snd e)) + expected L g.
Proof. unfold expected. rewrite waiting_cons. lia. Qed.
Lemma expected_nonneg L g : 0 <= expected L g.
Proof. unfold expected. pose proof (waiting_nonneg L g). pose proof (others_range g). lia. Qed.

(** Few requests make few waiters. *)
Lemma waiting_bound c n L g :
  Forall (entry_ok c n) L -> zlen L <= 2 ^ 30 -> 0 <= n < 2 ^ 31 -> 0 <= waiting L g < 2 ^ 61.
Proof.
  intros Hf Hl Hn. split; [apply waiting_nonneg|]. assert (waiting L g <= zlen L * n) as Hb; [|nia].
  clear Hl. induction Hf as [|e L He _ IH]; [done|]. rewrite waiting_cons. cbn [length].
  pose proof (occurs_range g (waiters (snd e))). pose proof (wait_length _ (e_wait _ _ _ He)). pose proof (e_few _ _ _ He). lia.
Qed.

(** The parts of the cache that entries refer to. *)
Definition same_shape c c' : Prop :=
  active c' = active c /\ free_list c' = free_list c /\ n_free c' = n_free c /\ n_active c' = n_active c /\
  pc_capacity c' = pc_capacity c /\ watermark c' = watermark c /\ generation_counter c' = generation_counter c.

Lemma entry_ok_shape c c' n n' e : same_shape c c' -> n <= n' -> entry_ok c n e -> entry_ok c' n' e.
Proof. intros (H1 & _ & _ & _ & _ & H6 & H7) Hn []. split; rewrite ?H1, ?H6, ?H7; try done. lia. Qed.

Lemma heap_others st L (p : ptr) s' :
  p ∉ eptr <$> L -> Forall (fun e => heap st !! eptr e = Some (snd e)) L ->
  Forall (fun e => <[p := s']> (heap st) !! eptr e = Some (snd e)) L.
Proof.
  intros Hp Hh. apply Forall_forall. intros e He. rewrite Forall_forall in Hh. rewrite lookup_insert_ne; [by apply Hh|].
  intros ->. apply Hp, list_elem_of_fmap. eauto.
Qed.

(** One entry changes in place. *)
Lemma pcore_update n n' st st' e e' L :
  pcore n st (e :: L) -> eptr e' = eptr e -> generation (snd e') = generation (snd e) -> active_idx (snd e') = active_idx (snd e) ->
  same_shape (pc st) (pc st') -> n <= n' < 2 ^ 31 -> entry_ok (pc st') n' e' ->
  heap st' = <[eptr e := snd e']> (heap st) ->
  pending_count (pc st') = n_pending (e' :: L) -> errored_count (pc st') = n_errored (e' :: L) ->
  gates_ok (gates st') (expected (e' :: L)) -> pcore n' st' (e' :: L).
Proof.
  intros [H1 H2 H3 H4 H5 H6 H7 H8 H9 H10 H11 H12 H13 H14] Hp Hg Hix Hsh Hn He Hh Hpe Her Hgt.
  pose proof Hsh as (E1 & E2 & E3 & E4 & E5 & E6 & E7).
  rewrite fmap_cons in H3. rewrite fmap_cons in H4. cbn [compose] in H4. apply NoDup_cons in H3 as [H3 H3'].
  split; rewrite ?E1, ?E2, ?E3, ?E4, ?E5, ?E7; try done.
  - rewrite fmap_cons, Hp. by apply NoDup_cons.
  - rewrite fmap_cons. cbn [compose]. by rewrite Hg.
  - rewrite Hh. apply Forall_cons_2; [rewrite Hp; apply lookup_insert_eq|].
    apply heap_others; [done|]. by inversion H5.
  - apply Forall_cons_2; [done|]. inversion H6 as [|? ? _ H6']; subst. eapply Forall_impl; [exact H6'|].
    intros x. apply entry_ok_shape; [done|lia].
  - intros i p Hi. destruct (H7 i p Hi) as (x & Hx & Hq). apply elem_of_cons in Hx as [->|Hx].
    + exists e'. split; [left|]. destruct Hq. split; congruence.
    + exists x. split; [by right|done].
  - lia.
Qed.
(** ** Waiters of a changed slot *)

Lemma wait_same s s' :
  waiters_inline s' = waiters_inline s -> waiters_heap s' = waiters_heap s -> n_waiters s' = n_waiters s ->
  cap_heap s' = cap_heap s -> wait_wf s -> wait_wf s' /\ waiters s' = waiters s.
Proof.
  intros H1 H2 H3 H4 [W1 W2 W3 W4 W5].
  assert (waiters s' = waiters s) as Hw by (unfold waiters, wait_cells; by rewrite H1, H2, H3).
  split; [|done]. split; rewrite ?H1, ?H2, ?H3, ?H4; try done. rewrite Hw, <-W5. unfold wait_cells. by rewrite H1, H2, H3.
Qed.

Definition no_waiters s : prefetch_slot K V := slot_with_waiters s (waiters_inline s) (waiters_heap s) 0 (cap_heap s).
Lemma no_waiters_wf s : wait_wf s -> wait_wf (no_waiters s) /\ waiters (no_waiters s) = [].
Proof. intros [W1 W2 W3 W4 W5]. split; [|done]. split; try done. unfold WAITERS_INLINE in *. cbn in *. lia. Qed.

Lemma release_waiters_spec st p s errored w :
  heap st !! p = Some s -> wait_wf s -> gates_ok (gates st) (fun g => w g + occurs g (waiters s)) -> (forall g, 0 <= w g) ->
  exists G, slot_release_waiters st p errored = Some (put_slot (with_gates st G) p (no_waiters s)) /\ gates_ok G w /\
    (forall g, error_bit G g = error_bit (gates st) g || (errored && bool_decide (g ∈ waiters s))) /\ dom G = dom (gates st).
Proof.
  intros Hp Hw Hg H0. unfold slot_release_waiters. rewrite Hp. cbn [mbind option_bind].
  destruct (release_loop_spec (Z.to_nat (n_waiters s)) st s 0 errored w Hw) as (st' & -> & E & G & B & D);
    [lia|pose proof (w_room _ Hw); lia|done|done|].
  cbn [mbind option_bind]. exists (gates st'). split_and!; try done. by rewrite <-E.
Qed.

(** ** Completion *)

(** A slot whose fetch ended. *)
Definition done_slot s (value : option V) (err : Z) : prefetch_slot K V :=
  no_waiters (if err =? 0 then slot_with_result s PREFETCH_STATE_READY value (s_err s)
              else slot_with_result s PREFETCH_STATE_ERROR (s_value s) err).

Lemma n_pending_cons e L : n_pending (e :: L) = (if decide (is_pending e) then 1 else 0) + n_pending L.
Proof. done. Qed.
Lemma n_errored_cons e L : n_errored (e :: L) = (if decide (is_errored e) then 1 else 0) + n_errored L.
Proof. done. Qed.
Lemma n_pending_range L : 0 <= n_pending L <= zlen L.
Proof. apply zsum_count. Qed.
Lemma n_errored_range L : 0 <= n_errored L <= zlen L.
Proof. apply zsum_count. Qed.

Lemma done_entry c n it s value err :
  entry_ok c n (it, s) -> is_pending (it, s) -> 0 <= n -> entry_ok c n (it, done_slot s value err).
Proof.
  intros [] Hp Hn. unfold is_pending in *. cbn [fst snd] in *. unfold done_slot.
  destruct (Z.eqb_spec err 0); split; cbn [fst snd] in *; try done.
  all: try (apply no_waiters_wf; by eapply (wait_same s)).
  all: intros _; apply e_fetched0; by rewrite Hp.
Qed.

(** Of the pieces of a state that [slot_complete_locked] leaves alone. *)
Definition complete_st st (p : ptr) s (value : option V) (err : Z) (G : gmap ptr Z) : pst K V :=
  PState (with_counts (pc st) (pending_count (pc st) - 1) (errored_count (pc st) + (if err =? 0 then 0 else 1)))
    (<[p := done_slot s value err]> (heap st)) G (keys_freed st)
    (values_freed st ++ (if err =? 0 then [] else option_list value)).

Lemma complete_locked_spec n st it s L value err :
  pcore n st ((it, s) :: L) -> is_pending (it, s) ->
  exists G, slot_complete_locked st (eptr (it, s)) value err = Some (complete_st st (eptr (it, s)) s value err G) /\
    pcore n (complete_st st (eptr (it, s)) s value err G) ((it, done_slot s value err) :: L) /\
    (forall g, error_bit G g = error_bit (gates st) g || (negb (err =? 0) && bool_decide (g ∈ waiters s))) /\
    dom G = dom (gates st).
Proof.
  intros HC Hp. set (p := eptr (it, s)).
  pose proof (k_heap _ _ _ HC) as Hh. apply Forall_cons in Hh as [Hh _]. cbn [snd] in Hh. fold p in Hh.
  pose proof (k_entry _ _ _ HC) as He. apply Forall_cons in He as [He _].
  pose proof (k_pending _ _ _ HC) as Hpe. rewrite n_pending_cons, decide_True in Hpe by done.
  pose proof (k_errored _ _ _ HC) as Her. rewrite n_errored_cons, decide_False in Her by (unfold is_pending, is_errored in *; congruence).
  pose proof (n_pending_range L). pose proof (n_errored_range L). pose proof (pcore_len _ _ _ HC) as Hlen.
  pose proof (k_cap _ _ _ HC). cbn [length] in Hlen.
  unfold slot_complete_locked. rewrite Hh. cbn [mbind option_bind].
  set (mid := if err =? 0 then slot_with_result s PREFETCH_STATE_READY value (s_err s)
              else slot_with_result s PREFETCH_STATE_ERROR (s_value s) err).
  assert (Hmid : wait_wf mid /\ waiters mid = waiters s).
  { subst mid. destruct (err =? 0); apply wait_same; try done; apply He. }
  set (st1 := PState (with_counts (pc st) (pending_count (pc st) - 1) (errored_count (pc st) + (if err =? 0 then 0 else 1)))
    (<[p := mid]> (heap st)) (gates st) (keys_freed st) (values_freed st ++ (if err =? 0 then [] else option_list value))).
  destruct (release_waiters_spec st1 p mid (negb (err =? 0)) (expected L)) as (G & HR & HG & HB & HD);
    [apply lookup_insert_eq|apply Hmid| |intros g; apply expected_nonneg|].
  { eapply gates_ok_ext; [exact (k_gates _ _ _ HC)|]. intros g. rewrite expected_cons. cbn [snd]. rewrite (proj2 Hmid). lia. }
  assert (Hst : put_slot (with_gates st1 G) p (no_waiters mid) = complete_st st p s value err G).
  { unfold put_slot, with_heap, with_gates, complete_st, done_slot. cbn. by rewrite insert_insert_eq. }
  exists G. rewrite <-Hst. split_and!.
  - rewrite <-HR. subst st1 mid. destruct (Z.eqb_spec err 0); cbn [negb].
    + rewrite u64_id by clia. unfold put_slot, with_heap, with_pc. cbn. by rewrite app_nil_r, Z.add_0_r.
    + rewrite !u64_id by clia. done.
  - rewrite Hst. eapply (pcore_update n n); [exact HC|done| | |done| | | | | |].
    + unfold done_slot. by destruct (err =? 0).
    + unfold done_slot. by destruct (err =? 0).
    + pose proof (k_reqs _ _ _ HC). lia.
    + apply done_entry; [|done|pose proof (k_reqs _ _ _ HC); lia]. by apply (entry_ok_shape (pc st) _ n n).
    + done.
    + rewrite n_pending_cons, decide_False; [cbn -[n_pending]; lia|]. unfold is_pending, done_slot. cbn. by destruct (err =? 0).
    + rewrite n_errored_cons. cbn -[n_errored is_errored decide]. destruct (Z.eqb_spec err 0);
        [rewrite decide_False; [lia|]|rewrite decide_True; [lia|]]; unfold is_errored, done_slot; cbn; [by rewrite (proj2 (Z.eqb_eq _ _))|by rewrite (proj2 (Z.eqb_neq _ _))].
    + eapply gates_ok_ext; [exact HG|]. intros g. unfold expected. by rewrite waiting_cons.
  - intros g. rewrite HB. by rewrite (proj2 Hmid).
  - done.
Qed.
(** ** Handles *)

Lemma entry_idx n st L e : pcore n st L -> e ∈ L -> 0 <= active_idx (snd e) < pc_capacity (pc st).
Proof.
  intros HC He. pose proof (k_entry _ _ _ HC) as Hf. rewrite Forall_forall in Hf. specialize (Hf e He).
  pose proof (e_active _ _ _ Hf) as Ha. apply aget_Some_range in Ha. pose proof (k_lens _ _ _ HC) as [Hl _]. lia.
Qed.

(** The handle a request returns for an entry. *)
Definition handle_of e : prefetch_handle := make_handle (active_idx (snd e)) (generation (snd e)).

Lemma handle_slot n st L e : pcore n st L -> e ∈ L -> h_slot (handle_of e) = active_idx (snd e) + 1.
Proof.
  intros HC He. pose proof (entry_idx _ _ _ _ HC He). pose proof (k_cap _ _ _ HC).
  unfold handle_of, make_handle. cbn [h_slot]. rewrite u32_id by clia. done.
Qed.

Lemma resolve_entry n st L e : pcore n st L -> e ∈ L -> resolve_handle st (handle_of e) = Some (Some (eptr e)).
Proof.
  intros HC He. pose proof (entry_idx _ _ _ _ HC He) as Hi. unfold resolve_handle. rewrite (handle_slot _ _ _ _ HC He).
  rewrite (proj2 (Z.eqb_neq _ _)) by lia. replace (active_idx (snd e) + 1 - 1) with (active_idx (snd e)) by lia.
  rewrite (proj2 (Z.leb_gt _ _)) by lia.
  pose proof (k_entry _ _ _ HC) as Hf. pose proof (k_heap _ _ _ HC) as Hh. rewrite Forall_forall in Hf, Hh.
  rewrite (e_active _ _ _ (Hf e He)). cbn [mbind option_bind]. rewrite (Hh e He). cbn [mbind option_bind handle_of make_handle h_generation].
  by rewrite Z.eqb_refl.
Qed.

Lemma resolve_cases n st L h :
  pcore n st L -> 0 <= h_slot h ->
  resolve_handle st h = Some None \/ exists e, e ∈ L /\ h = handle_of e /\ resolve_handle st h = Some (Some (eptr e)).
Proof.
  intros HC Hs. unfold resolve_handle at 1. destruct (Z.eqb_spec (h_slot h) 0) as [|Hz]; [by left|].
  destruct (Z.leb_spec (pc_capacity (pc st)) (h_slot h - 1)); [by left|]. pose proof (k_lens _ _ _ HC) as [Hl _].
  destruct (aget_is_Some (active (pc st)) (h_slot h - 1)) as [[p|] Ho]; [lia| |rewrite Ho; by left]. rewrite Ho. cbn [mbind option_bind].
  destruct (k_active _ _ _ HC _ _ Ho) as (e & He & <- & Hi).
  pose proof (k_heap _ _ _ HC) as Hh. rewrite Forall_forall in Hh. rewrite (Hh e He). cbn [mbind option_bind].
  destruct (Z.eqb_spec (generation (snd e)) (h_generation h)) as [Hg|]; [|by left]. right. exists e.
  assert (h = handle_of e) as ->; [|split_and!; [done..|by eapply resolve_entry]].
  pose proof (handle_slot _ _ _ _ HC He) as Hsl. destruct h as [hs hg]. cbn [h_slot h_generation] in *.
  unfold handle_of, make_handle in *. cbn [h_slot] in Hsl. rewrite Hsl, Hi, Hg. f_equal. lia.
Qed.

(** Distinct entries have distinct handles. *)
Lemma handle_inj n st L e e' : pcore n st L -> e ∈ L -> e' ∈ L -> handle_of e = handle_of e' -> e = e'.
Proof.
  intros HC He He' Hh. pose proof (resolve_entry _ _ _ _ HC He) as H1. rewrite Hh in H1.
  rewrite (resolve_entry _ _ _ _ HC He') in H1. injection H1 as Hp.
  pose proof (k_nodup _ _ _ HC) as Hnd. apply list_elem_of_lookup in He as [i Hi], He' as [j Hj].
  assert (i = j) as ->; [|congruence].
  eapply (NoDup_lookup _ _ _ (eptr e)); [done|by rewrite list_lookup_fmap, Hi|rewrite list_lookup_fmap, Hj; cbn; by rewrite Hp].
Qed.

(** ** Tokens *)

Definition token_of e : prefetch_completion := Completion (h_slot (handle_of e)) (h_generation (handle_of e)).
Lemma token_completion e : token_of e = make_completion (snd e).
Proof. done. Qed.

Lemma complete_token n st it s L value err :
  pcore n st ((it, s) :: L) -> is_pending (it, s) ->
  prefetch_cache_complete st (token_of (it, s)) value err = slot_complete_locked st (eptr (it, s)) value err.
Proof.
  intros HC Hp. unfold prefetch_cache_complete. assert ((it, s) ∈ (it, s) :: L) as He by left.
  change (Handle (c_slot (token_of (it, s))) (c_generation (token_of (it, s)))) with (handle_of (it, s)).
  rewrite (resolve_entry _ _ _ _ HC He). cbn [mbind option_bind].
  pose proof (k_heap _ _ _ HC) as Hh. apply Forall_cons in Hh as [-> _]. cbn [mbind option_bind snd].
  by rewrite bool_decide_true.
Qed.

(** A token that is no longer outstanding changes nothing. *)
Lemma complete_stale n st L t value err :
  pcore n st L -> 0 <= c_slot t -> t ∉ token_of <$> filter is_pending L ->
  prefetch_cache_complete st t value err = Some (free_value st value).
Proof.
  intros HC Hs Ht. unfold prefetch_cache_complete.
  destruct (resolve_cases n st L (Handle (c_slot t) (c_generation t)) HC Hs) as [->|(e & He & Hh & ->)]; [done|].
  cbn [mbind option_bind]. pose proof (k_heap _ _ _ HC) as Hp. rewrite Forall_forall in Hp. rewrite (Hp e He). cbn [mbind option_bind].
  rewrite bool_decide_false; [done|]. intros Hpe. apply Ht, list_elem_of_fmap. exists e. split.
  - unfold token_of. rewrite <-Hh. by destruct t.
  - by apply list_elem_of_filter.
Qed.

(** ** Eviction *)

Lemma entry_pin c n e : entry_ok c n e -> it_ref (fst e) = 0 -> lru_ent (snd e) = None.
Proof. intros H Hr. pose proof (e_pin _ _ _ H) as Hp. destruct (lru_ent (snd e)); [lia|done]. Qed.

Definition evicted_st st e (a : list (option ptr)) (f : list Z) : pst K V :=
  PState (with_counts (with_active (pc st) a f (n_free (pc st) + 1) (n_active (pc st) - 1))
            (pending_count (pc st)) (errored_count (pc st) - (if decide (is_errored e) then 1 else 0)))
    (delete (eptr e) (heap st)) (gates st) (keys_freed st ++ [s_key (snd e)]) (values_freed st ++ option_list (s_value (snd e))).

Lemma entry_ok_active c c' n e (p : ptr) i x :
  entry_ok c n e -> aget (active c) i = Some x -> aset (active c) i None = Some (active c') -> x = Some p -> eptr e <> p ->
  watermark c' = watermark c -> generation_counter c' = generation_counter c -> entry_ok c' n e.
Proof.
  intros [] Hi Ha -> Hp Hw Hg. split; rewrite ?Hw, ?Hg; try done.
  rewrite (aget_aset _ _ _ _ _ Ha). rewrite decide_False; [done|]. intros ->. congruence.
Qed.

(** The stack of free places grows. *)
Lemma take_push (l l' : list Z) k x :
  0 <= k -> aset l k x = Some l' -> take (Z.to_nat (k + 1)) l' = take (Z.to_nat k) l ++ [x].
Proof.
  intros Hk [Hr ->]%aset_Some. replace (Z.to_nat (k + 1)) with (S (Z.to_nat k)) by lia.
  rewrite (take_S_r _ _ x); [|apply list_lookup_insert_eq; lia]. by rewrite take_insert_ge by lia.
Qed.

Lemma destroy_entry n st e L :
  pcore n st (e :: L) -> it_ref (fst e) = 0 ->
  exists a f, lru_slot_destroy st (eptr e) = Some (evicted_st st e a f) /\ pcore n (evicted_st st e a f) L.
Proof.
  intros HC Hr. pose proof HC as [H1 H2 H3 H4 H5 H6 H7 H8 H9 H10 H11 H12 H13 H14].
  apply Forall_cons in H5 as [Hh H5], H6 as [He H6]. pose proof (entry_pin _ _ _ He Hr) as Hpin.
  assert (~ is_pending e) as Hnp by (intros Hp; by apply (e_pending _ _ _ He) in Hp).
  pose proof (e_done _ _ _ He Hnp) as Hw. pose proof (entry_idx _ _ _ e HC ltac:(left)) as Hidx.
  destruct H2 as [Hla Hlf], H10 as (Hna & Hnf & Hsum). cbn [length] in Hna.
  unfold lru_slot_destroy. rewrite Hh. cbn [mbind option_bind].
  rewrite (proj2 (Z.eqb_neq (active_idx (snd e)) _)) by (unfold ACTIVE_IDX_UNLINKED; clia).
  unfold active_remove. rewrite Hh. cbn [mbind option_bind].
  destruct (aset (active (pc st)) (active_idx (snd e)) None) as [a|] eqn:Ea; [|by rewrite aset_range in Ea by lia].
  cbn [mbind option_bind].
  destruct (aset (free_list (pc st)) (n_free (pc st)) (active_idx (snd e))) as [f|] eqn:Ef; [|by rewrite aset_range in Ef by lia].
  cbn [mbind option_bind].
  rewrite (proj2 (Z.eqb_eq (n_waiters (snd e)) 0)) by done.
  rewrite (bool_decide_false (s_state (snd e) = PREFETCH_STATE_PENDING)) by done.
  pose proof (n_errored_range L). rewrite n_errored_cons in H12. rewrite n_pending_cons, decide_False in H11 by done.
  rewrite fmap_cons in H3. rewrite fmap_cons in H4. apply NoDup_cons in H3 as [H3 H3'], H4 as [_ H4].
  pose proof (e_active _ _ _ He) as Hact. exists a, f. split.
  - pose proof (pcore_len _ _ _ HC) as Hlen. cbn [length] in Hlen. unfold evicted_st. unfold_st.
    rewrite !u32_id, delete_insert_eq by clia. destruct (decide (is_errored e)) as [E|E].
    + rewrite (@bool_decide_true _ _ E), u64_id by clia. done.
    + rewrite (@bool_decide_false _ _ E). by rewrite Z.sub_0_r.
  - pose proof (length_aset _ _ _ _ Ea) as La. pose proof (length_aset _ _ _ _ Ef) as Lf.
    pose proof (take_push _ _ _ _ Hnf Ef) as Hpush.
    assert (active_idx (snd e) ∉ take (Z.to_nat (n_free (pc st))) (free_list (pc st))) as Hnew.
    { rewrite H9, Hact. done. }
    split; cbn -[n_pending n_errored waiting expected decide]; try done; try lia.
    + apply Forall_forall. intros x Hx. rewrite Forall_forall in H5. rewrite lookup_delete_ne; [by apply H5|].
      intros E. apply H3. rewrite E. apply list_elem_of_fmap. eauto.
    + apply Forall_forall. intros x Hx. rewrite Forall_forall in H6.
      eapply (entry_ok_active (pc st) _ n x (eptr e)); [by apply H6|exact Hact|exact Ea|done| |done|done].
      intros E. apply H3. rewrite <-E. apply list_elem_of_fmap. eauto.
    + intros i p. rewrite (aget_aset _ _ _ _ _ Ea). destruct (decide (active_idx (snd e) = i)) as [E|E]; [done|]. intros Hi.
      destruct (H7 i p Hi) as (x & Hx & Hp & Hxi). apply elem_of_cons in Hx as [->|Hx]; [congruence|eauto].
    + rewrite Hpush. apply NoDup_app. split_and!; [done|set_solver|apply NoDup_singleton].
    + intros i. rewrite Hpush, elem_of_app, list_elem_of_singleton, H9, (aget_aset _ _ _ _ _ Ea).
      destruct (decide (active_idx (snd e) = i)) as [E|E]; [subst i; split; [done|by right]|]. split; [intros [?|?]; congruence|by left].
    + eapply gates_ok_ext; [exact H13|]. intros g. rewrite expected_cons.
      assert (waiters (snd e) = []) as ->; [|done].
      apply length_zero_iff_nil. pose proof (wait_length _ (e_wait _ _ _ He)). lia.
Qed.
End proof.
