(* ===== verification/PrefetchSteps.v ===== *)
(** * Requests on the prefetch cache

    The branches of a request keep the invariant of [PrefetchProof.v]: eviction, a new
    entry, a hit, and the watermark. *)

From stdpp Require Import gmap.
From S2P Require Import Prelude Hash Lru LruSpec LruCorrect LruClaims LruClient PrefetchCache PrefetchGates PrefetchProof.

#[local] Open Scope Z_scope.

Section steps.
Context {OW : OtherWaiters} {K V : Type} (key_eq : K -> K -> bool) `{!KeyEquiv key_eq}.
Notation entry := (item (ptr * K) * prefetch_slot K V)%type.
Implicit Types (s : prefetch_slot K V) (st : pst K V) (c : prefetch_cache K) (e : entry) (L D : list entry).

(** ** The evictions of one insertion *)

Lemma destroy_entries n st D L :
  pcore n st (D ++ L) -> Forall (fun e => it_ref (fst e) = 0) D ->
  exists st', destroy_calls st (it_value ∘ fst <$> D) = Some st' /\ pcore n st' L /\
    idx (pc st') = idx (pc st) /\ watermark (pc st') = watermark (pc st) /\
    generation_counter (pc st') = generation_counter (pc st) /\ pc_capacity (pc st') = pc_capacity (pc st) /\
    gates st' = gates st /\
    (forall p, p ∉ eptr <$> D -> heap st' !! p = heap st !! p) /\ (forall p, p ∈ eptr <$> D -> heap st' !! p = None) /\
    keys_freed st' = keys_freed st ++ (s_key ∘ snd <$> D) /\
    values_freed st' = values_freed st ++ (D ≫= (fun e => option_list (s_value (snd e)))).
Proof.
  intros HC Hl. revert st HC. induction Hl as [|e D He _ IH]; intros st HC.
  { exists st. rewrite !app_nil_r. split_and!; try done. by intros p ?%not_elem_of_nil. }
  cbn [app] in HC. destruct (destroy_entry n st e (D ++ L) HC He) as (a & f & Hd & HC').
  destruct (IH _ HC') as (st' & Hc & HC2 & H1 & H2 & H3 & H4 & H5 & H6 & H6' & H7 & H8). exists st'.
  rewrite fmap_cons. change ((it_value ∘ fst) e) with (it_value (fst e)).
  destruct (it_value (fst e)) as [p k] eqn:Ev. cbn [destroy_calls].
  assert (eptr e = p) as Hp by (unfold eptr; by rewrite Ev). rewrite <-Hp, Hd. cbn [mbind option_bind].
  split; [done|]. split; [done|]. do 4 (split; [done|]). split; [done|]. split_and!.
  - intros q. rewrite fmap_cons, not_elem_of_cons. intros [Hne Hq]. rewrite H6 by done. cbn. by rewrite lookup_delete_ne.
  - intros q. rewrite fmap_cons, elem_of_cons. intros [->|Hq]; [|by apply H6'].
    destruct (decide (eptr e ∈ eptr <$> D)); [by apply H6'|]. rewrite H6 by done. cbn. apply lookup_delete_eq.
  - rewrite H7. cbn. by rewrite <-app_assoc.
  - rewrite H8. cbn. by rewrite <-app_assoc.
Qed.

(** ** Gates of a request *)

Lemma gate_step_spec st gate f w w' err :
  gates_ok (gates st) w ->
  (forall g, gate = Some g -> is_Some (gates st !! g) /\ 0 <= w' g < 2 ^ 63 - 1 /\
     forall b, f (gate_val b (w g)) = gate_val (b || err) (w' g)) ->
  (forall x, gate <> Some x -> w' x = w x) ->
  exists G, gate_update st gate f = Some (with_gates st G) /\ gates_ok G w' /\
    (forall x, error_bit G x = error_bit (gates st) x || (err && bool_decide (gate = Some x))) /\ dom G = dom (gates st).
Proof.
  intros Hg Ha Hx. destruct gate as [g|].
  - destruct (Ha g eq_refl) as (Hl & Hb & Hf).
    destruct (gate_update_spec st g f w (w' g) err Hg Hl Hb Hf) as (st' & -> & E & G & B & Dm).
    exists (gates st'). rewrite <-E. split_and!; try done.
    + eapply gates_ok_ext; [exact G|]. intros x. cbn beta. destruct (decide (x = g)) as [->|]; [done|]. apply Hx. congruence.
    + intros x. rewrite B. do 2 f_equal. apply bool_decide_ext. naive_solver.
  - exists (gates st). split; [by destruct st|]. split_and!; try done.
    + eapply gates_ok_ext; [exact Hg|]. intros x. by apply Hx.
    + intros x. by rewrite bool_decide_false, andb_false_r, orb_false_r.
Qed.

(** One more waiter at [gate]. *)
Definition plus_one (gate : option ptr) (w : ptr -> Z) (x : ptr) : Z := w x + (if decide (gate = Some x) then 1 else 0).

Lemma gate_inc_spec st gate w :
  gates_ok (gates st) w -> (forall g, gate = Some g -> is_Some (gates st !! g) /\ w g + 1 < 2 ^ 63 - 1) ->
  exists G, gate_inc_pending st gate = Some (with_gates st G) /\ gates_ok G (plus_one gate w) /\
    (forall x, error_bit G x = error_bit (gates st) x) /\ dom G = dom (gates st).
Proof.
  intros Hg Ha. destruct (gate_step_spec st gate (fun v => u64 (v + 1)) w (plus_one gate w) false Hg) as (G & H1 & H2 & H3 & H4).
  - intros g E. destruct (Ha g E) as [Hl Hb]. pose proof (g_range _ _ Hg g). unfold plus_one. rewrite decide_True by done.
    split_and!; [done|lia..|]. intros b. rewrite gate_val_inc, orb_false_r by clia. done.
  - intros x Hx. unfold plus_one. rewrite decide_False by done. lia.
  - exists G. split_and!; try done. intros x. by rewrite H3, orb_false_r.
Qed.

Lemma gate_dec_spec st gate w :
  gates_ok (gates st) (plus_one gate w) -> (forall g, 0 <= w g) ->
  exists G, prefetch_gate_dec_pending st gate = Some (with_gates st G) /\ gates_ok G w /\
    (forall x, error_bit G x = error_bit (gates st) x) /\ dom G = dom (gates st).
Proof.
  intros Hg H0. destruct (gate_step_spec st gate (fun v => u64 (v - 1)) (plus_one gate w) w false Hg) as (G & H1 & H2 & H3 & H4).
  - intros g E. pose proof (g_range _ _ Hg g) as Hr. pose proof (g_live _ _ Hg g) as Hl. specialize (H0 g). unfold plus_one in *.
    rewrite decide_True in * by done. split_and!; [apply Hl; lia|lia..|]. intros b.
    rewrite gate_val_dec, orb_false_r by clia. f_equal. lia.
  - intros x Hx. unfold plus_one. rewrite decide_False by done. lia.
  - exists G. split_and!; try done. intros x. by rewrite H3, orb_false_r.
Qed.

Lemma gate_error_spec st gate w :
  gates_ok (gates st) w -> (forall g, gate = Some g -> is_Some (gates st !! g)) ->
  exists G, prefetch_gate_set_error st gate = Some (with_gates st G) /\ gates_ok G w /\
    (forall x, error_bit G x = error_bit (gates st) x || bool_decide (gate = Some x)) /\ dom G = dom (gates st).
Proof.
  intros Hg Ha. apply (gate_step_spec st gate (fun v => Z.lor v GATE_ERROR_BIT) w w true Hg); [|done].
  intros g E. pose proof (g_range _ _ Hg g). split_and!; [by apply Ha|lia..|]. intros b.
  rewrite gate_val_error, orb_true_r by clia. done.
Qed.

(** ** A new entry *)

Lemma pcore_bump n st L :
  pcore n st L -> n + 1 < 2 ^ 31 -> pcore (n + 1) (with_pc st (with_generation (pc st) (generation_counter (pc st) + 1))) L.
Proof.
  intros [H1 H2 H3 H4 H5 H6 H7 H8 H9 H10 H11 H12 H13 H14] Hn. split; try done; [|cbn; lia].
  eapply Forall_impl; [exact H6|]. intros e [E1 E2 E3 E4 E5 E6 E7 E8 E9 E10]. split; try done; [lia|]. cbn. lia.
Qed.

Lemma pcore_more n n' st L : pcore n st L -> n <= n' < 2 ^ 31 -> pcore n' st L.
Proof.
  intros [H1 H2 H3 H4 H5 H6 H7 H8 H9 H10 H11 H12 H13 H14] Hn. split; try done; [|lia].
  eapply Forall_impl; [exact H6|]. intros e. apply entry_ok_shape; [done|lia].
Qed.

(** The heap may hold slots that are not entries yet. *)
Lemma pcore_heap n st st' L :
  pcore n st L -> pc st' = pc st -> gates st' = gates st -> (forall p, p ∈ eptr <$> L -> heap st' !! p = heap st !! p) -> pcore n st' L.
Proof.
  intros [H1 H2 H3 H4 H5 H6 H7 H8 H9 H10 H11 H12 H13 H14] Hc Hg Hh. split; rewrite ?Hc, ?Hg; try done.
  apply Forall_forall. intros e He. rewrite Forall_forall in H5. rewrite Hh; [by apply H5|]. apply list_elem_of_fmap. eauto.
Qed.

Lemma new_slot_wf hash (key : K) owner gen : wait_wf (new_slot (V := V) hash key owner gen) /\ waiters (new_slot (V := V) hash key owner gen) = [].
Proof. split; [split; try done|done]. Qed.

(** The last free place. *)
Lemma free_top n st L :
  pcore n st L -> zlen L < pc_capacity (pc st) ->
  exists i F, aget (free_list (pc st)) (n_free (pc st) - 1) = Some i /\
    take (Z.to_nat (n_free (pc st))) (free_list (pc st)) = F ++ [i] /\
    take (Z.to_nat (n_free (pc st) - 1)) (free_list (pc st)) = F /\ 0 < n_free (pc st) <= pc_capacity (pc st).
Proof.
  intros HC Hl. destruct (k_count _ _ _ HC) as (H1 & H2 & H3). destruct (k_lens _ _ _ HC) as [_ Hf].
  destruct (aget_is_Some (free_list (pc st)) (n_free (pc st) - 1)) as [i Hi]; [lia|].
  exists i, (take (Z.to_nat (n_free (pc st) - 1)) (free_list (pc st))). split_and!; try done; try lia.
  apply aget_lookup in Hi as [_ Hi]. rewrite <-(take_S_r _ _ _ Hi). f_equal. lia.
Qed.

(** A place that was free now holds [p]. *)
Lemma entry_ok_add c c' n e i (p : ptr) :
  entry_ok c n e -> aget (active c) i = Some None -> aset (active c) i (Some p) = Some (active c') ->
  watermark c' = watermark c -> generation_counter c' = generation_counter c -> entry_ok c' n e.
Proof.
  intros [] Hi Ha Hw Hg. split; rewrite ?Hw, ?Hg; try done.
  rewrite (aget_aset _ _ _ _ _ Ha). destruct (decide (i = active_idx (snd e))) as [->|]; [congruence|done].
Qed.
(** Registration that cannot fail, or may run out of memory. *)
Lemma register_cases ok s gate :
  wait_wf s -> n_waiters s < 2 ^ 31 ->
  (slot_register_waiter ok s gate = Some (true, s) /\ ok = false) \/
  exists a h n m, slot_register_waiter ok s gate = Some (false, slot_with_waiters s a h n m) /\
    wait_wf (slot_with_waiters s a h n m) /\ waiters (slot_with_waiters s a h n m) = waiters s ++ option_list gate /\
    n_waiters (slot_with_waiters s a h n m) <= n_waiters s + 1.
Proof.
  intros Hw Hn. destruct gate as [g|].
  - destruct (register_waiter_spec ok s g Hw Hn) as [(-> & -> & _)|(a & h & n & m & -> & Hw' & Hws)]; [by left|right].
    exists a, h, n, m. split_and!; try done. rewrite <-!wait_length by done. rewrite Hws, length_app. cbn. lia.
  - right. exists (waiters_inline s), (waiters_heap s), (n_waiters s), (cap_heap s).
    assert (slot_with_waiters s (waiters_inline s) (waiters_heap s) (n_waiters s) (cap_heap s) = s) as -> by (by destruct s).
    split_and!; try done; [by rewrite app_nil_r|lia].
Qed.

(** A free place is taken by a new entry. *)
Lemma pcore_insert n st st' e L a F :
  pcore n st L -> aget (active (pc st)) (active_idx (snd e)) = Some None ->
  take (Z.to_nat (n_free (pc st))) (free_list (pc st)) = F ++ [active_idx (snd e)] ->
  take (Z.to_nat (n_free (pc st) - 1)) (free_list (pc st)) = F -> 0 < n_free (pc st) ->
  aset (active (pc st)) (active_idx (snd e)) (Some (eptr e)) = Some a ->
  eptr e ∉ eptr <$> L -> generation (snd e) ∉ generation ∘ snd <$> L -> entry_ok (pc st') n e ->
  active (pc st') = a -> free_list (pc st') = free_list (pc st) -> n_free (pc st') = n_free (pc st) - 1 ->
  n_active (pc st') = n_active (pc st) + 1 -> pc_capacity (pc st') = pc_capacity (pc st) ->
  watermark (pc st') = watermark (pc st) -> generation_counter (pc st') = generation_counter (pc st) ->
  heap st' = <[eptr e := snd e]> (heap st) ->
  pending_count (pc st') = n_pending (e :: L) -> errored_count (pc st') = n_errored (e :: L) ->
  gates_ok (gates st') (expected (e :: L)) -> pcore n st' (e :: L).
Proof.
  intros [H1 H2 H3 H4 H5 H6 H7 H8 H9 H10 H11 H12 H13 H14] Hi Htk Htk' Hnf Ha Hp Hg He E1 E2 E3 E4 E5 E6 E7 Eh Ep Er EG.
  pose proof (length_aset _ _ _ _ Ha) as Hla. rewrite Htk in H8, H9. apply NoDup_app in H8 as (H8 & H8' & _).
  split; rewrite ?E1, ?E2, ?E3, ?E4, ?E5, ?E7; try done.
  - rewrite Hla. done.
  - rewrite fmap_cons. by apply NoDup_cons.
  - rewrite fmap_cons. by apply NoDup_cons.
  - rewrite Eh. apply Forall_cons_2; [apply lookup_insert_eq|by apply heap_others].
  - apply Forall_cons_2; [done|]. eapply Forall_impl; [exact H6|]. intros x Hx.
    eapply (entry_ok_add (pc st)); [done|exact Hi|by rewrite E1|done|done].
  - intros j q. rewrite (aget_aset _ _ _ _ _ Ha). destruct (decide (active_idx (snd e) = j)) as [E|E].
    + intros [= <-]. exists e. split; [left|done].
    + intros Hj. destruct (H7 j q Hj) as (x & Hx & Hq). exists x. split; [by right|done].
  - by rewrite Htk'.
  - intros j. rewrite Htk', (aget_aset _ _ _ _ _ Ha). destruct (decide (active_idx (snd e) = j)) as [E|E].
    + split; [|done]. intros Hj. destruct (H8' j Hj). subst j. set_solver.
    + rewrite <-H9. set_solver.
  - cbn [length]. lia.
Qed.

Lemma occurs_gate (gate : option ptr) g : occurs g (option_list gate) = if decide (gate = Some g) then 1 else 0.
Proof.
  destruct gate as [h|]; [|by rewrite decide_False]. change (option_list (Some h)) with [h]. rewrite occurs_cons. change (occurs g []) with 0.
  destruct (decide (h = g)) as [->|]; [rewrite decide_True by done|rewrite decide_False by congruence]; lia.
Qed.

Lemma link_entry n st L p hash (key : K) owner ent l gate :
  pcore n st L -> 1 <= n -> zlen L < pc_capacity (pc st) ->
  heap st !! p = Some (new_slot hash key owner (generation_counter (pc st))) -> p ∉ eptr <$> L ->
  0 < generation_counter (pc st) -> generation_counter (pc st) ∉ generation ∘ snd <$> L ->
  lru_entry_acquire_locked (idx (pc st)) ent = Some l -> (forall g, gate = Some g -> is_Some (gates st !! g)) ->
  exists st' s', request_link st p ent gate =
      Some (st', Launch p (token_of (Item ent hash (p, key) 1, s')) (handle_of (Item ent hash (p, key) 1, s'))) /\
    pcore n st' ((Item ent hash (p, key) 1, s') :: L) /\ idx (pc st') = l /\ heap st' = <[p := s']> (heap st) /\
    s_key s' = key /\ s_state s' = PREFETCH_STATE_PENDING /\ max_owner_id s' = owner /\
    generation s' = generation_counter (pc st) /\ waiters s' = option_list gate /\
    watermark (pc st') = watermark (pc st) /\ generation_counter (pc st') = generation_counter (pc st) /\
    pc_capacity (pc st') = pc_capacity (pc st) /\ dom (gates st') = dom (gates st) /\
    keys_freed st' = keys_freed st /\ values_freed st' = values_freed st.
Proof.
  intros HC Hn1 Hlen Hh Hp Hg0 Hgen Hacq Hgate. unfold request_link. rewrite Hh, Hacq. cbn [mbind option_bind].
  destruct (free_top _ _ _ HC Hlen) as (i & F & Htop & Htk & Htk' & Hnf). pose proof (k_cap _ _ _ HC) as Hcap.
  pose proof HC as [H1 H2 H3 H4 H5 H6 H7 H8 H9 H10 H11 H12 H13 H14].
  assert (aget (active (pc st)) i = Some None) as Hi by (apply H9; rewrite Htk; set_solver).
  unfold_st. rewrite (u32_id (n_free (pc st) - 1)) by clia. rewrite Htop. cbn [mbind option_bind].
  destruct (aset (active (pc st)) i (Some p)) as [a|] eqn:Ea; [|apply aget_Some_range in Hi; by rewrite aset_range in Ea].
  cbn [mbind option_bind]. set (s1 := slot_with_idx _ i).
  assert (wait_wf s1 /\ waiters s1 = []) as [Hw1 Hws1].
  { destruct (new_slot_wf hash key owner (generation_counter (pc st))) as [W E]. rewrite <-E. by apply (wait_same (new_slot hash key owner (generation_counter (pc st)))). }
  match goal with |- context [gate_inc_pending ?x gate] => set (st1 := x) end.
  destruct (gate_inc_spec st1 gate (expected L)) as (G & -> & HG & HB & HD); [exact H13| |].
  { intros g Hg. split; [by apply Hgate|].
    pose proof (waiting_bound _ _ _ g H6 ltac:(destruct H10; lia) ltac:(lia)). pose proof (others_range g). unfold expected. lia. }
  cbn [mbind option_bind].
  destruct (register_cases true s1 gate Hw1 ltac:(done)) as [[_ ?]|(wi & wh & wn & wc & -> & Hw2 & Hws2 & Hle)]; [done|].
  cbn [mbind option_bind snd]. set (s2 := slot_with_waiters s1 wi wh wn wc) in *. rewrite Hws1 in Hws2. cbn [app] in Hws2.
  eexists _, s2. split; [done|]. subst st1. unfold_st. split; [|by rewrite insert_insert_eq].
  pose proof (n_pending_range L). pose proof (n_errored_range L).
  eapply (pcore_insert n st _ (Item ent hash (p, key) 1, s2) L a F); try done; try lia; cbn [pc heap gates snd].
  - split; try done; cbn in *; [by apply (aget_aset_eq _ _ _ _ Ea)|lia].
  - rewrite u32_id by clia. done.
  - by rewrite insert_insert_eq.
  - rewrite n_pending_cons, decide_True, u64_id by (done || clia). cbn [pending_count]. lia.
  - eapply gates_ok_ext; [exact HG|]. intros g. rewrite expected_cons. cbn [snd]. rewrite Hws2, occurs_gate. unfold plus_one. lia.
Qed.
(** ** The whole invariant *)

(** A sample at or past the watermark keeps its entries pinned. *)
Definition owner_pins st e : Prop := watermark (pc st) <= max_owner_id (snd e) -> lru_ent (snd e) <> None.

(** The entries are what the index holds, no slot leaks, and samples in the window
    pin theirs. *)
Record pinv (n : Z) st L (ca : cache (ptr * K)) : Prop := {
  v_rep : rep (lru_slot_eq key_eq) (idx (pc st)) ca;
  v_cap : capacity (idx (pc st)) = pc_capacity (pc st);
  v_items : L.*1 ≡ₚ items ca;
  v_core : pcore n st L;
  v_dom : forall p, is_Some (heap st !! p) -> p ∈ eptr <$> L;
  v_owned : Forall (owner_pins st) L }.

Lemma pinv_perm n st L L' ca : L ≡ₚ L' -> pinv n st L ca -> pinv n st L' ca.
Proof.
  intros Hp [H1 H2 H3 H4 H5 H6]. split; try done; [by rewrite <-Hp|by eapply pcore_perm| |by rewrite <-Hp]. intros p Hh. rewrite <-Hp. auto.
Qed.

(** The pin and the owners of one entry change. *)
Lemma pcore_touch n st st' it s it' s' L :
  pcore n st ((it, s) :: L) -> eptr (it', s') = eptr (it, s) -> generation s' = generation s -> active_idx s' = active_idx s ->
  s_state s' = s_state s -> waiters s' = waiters s ->
  same_shape (pc st) (pc st') -> pending_count (pc st') = pending_count (pc st) -> errored_count (pc st') = errored_count (pc st) ->
  gates st' = gates st -> heap st' = <[eptr (it, s) := s']> (heap st) -> entry_ok (pc st') n (it', s') ->
  pcore n st' ((it', s') :: L).
Proof.
  intros HC Hp Hg Hi Hs Hw Hsh E1 E2 E3 Eh He. eapply (pcore_update n n st st' (it, s)); try done.
  - pose proof (k_reqs _ _ _ HC). lia.
  - rewrite E1, (k_pending _ _ _ HC), !n_pending_cons. f_equal. unfold is_pending. cbn [snd].
    destruct (decide _), (decide _); congruence.
  - rewrite E2, (k_errored _ _ _ HC), !n_errored_cons. f_equal. unfold is_errored. cbn [snd].
    destruct (decide _), (decide _); congruence.
  - rewrite E3. eapply gates_ok_ext; [exact (k_gates _ _ _ HC)|]. intros g. rewrite !expected_cons. cbn [snd]. by rewrite Hw.
Qed.

Lemma pinv_entry n st L ca e : pinv n st L ca -> e ∈ L ->
  fst e ∈ items ca /\ heap st !! eptr e = Some (snd e) /\ entry_ok (pc st) n e.
Proof.
  intros HV He. pose proof (v_core _ _ _ _ HV) as HC. pose proof (k_heap _ _ _ HC) as Hh. pose proof (k_entry _ _ _ HC) as Hf.
  rewrite Forall_forall in Hh, Hf. split_and!; [|by apply Hh|by apply Hf].
  rewrite <-(v_items _ _ _ _ HV). apply list_elem_of_fmap. eauto.
Qed.

Lemma hit_pin n st it s L ca owner :
  pinv n st ((it, s) :: L) ca ->
  exists st1 it1 s1 ca1,
    (if bool_decide (lru_ent s = None) && (watermark (pc st) <=? owner) then
       l ← lru_entry_acquire_locked (idx (pc st)) (it_slot it);
       Some (with_pc st (with_idx (pc st) l),
             slot_with_ent (slot_with_owners s (Z.min owner (min_owner_id s)) (Z.max owner (max_owner_id s))) (Some (it_slot it)))
     else Some (st, slot_with_owners s (Z.min owner (min_owner_id s)) (Z.max owner (max_owner_id s)))) = Some (st1, s1) /\
    pinv n (put_slot st1 (eptr (it, s)) s1) ((it1, s1) :: L) ca1 /\
    st1 = with_pc st (with_idx (pc st) (idx (pc st1))) /\ it_value it1 = it_value it /\
    s1 = slot_with_ent (slot_with_owners s (Z.min owner (min_owner_id s)) (Z.max owner (max_owner_id s))) (lru_ent s1) /\
    (watermark (pc st) <= owner -> lru_ent s1 <> None).
Proof.
  intros HV. destruct (pinv_entry _ _ _ _ (it, s) HV ltac:(left)) as (Hit & Hh & He). cbn [fst snd] in *.
  set (s0 := slot_with_owners s _ _). pose proof (v_core _ _ _ _ HV) as HC. pose proof (v_rep _ _ _ _ HV) as HR.
  destruct (wait_same s s0) as [Hw0 Hws0]; try done; [apply He|].
  assert (Hdom : forall st1 s1 (it1 : item (ptr * K)) , it_value it1 = it_value it -> heap st1 = heap st ->
    forall p, is_Some (heap (put_slot st1 (eptr (it, s)) s1) !! p) -> p ∈ eptr <$> (it1, s1) :: L).
  { intros st1 s1 it1 Hv Hst p. cbn. rewrite Hst. assert (eptr (it1, s1) = eptr (it, s)) as -> by (unfold eptr; cbn; by rewrite Hv).
    rewrite lookup_insert_is_Some. intros [<-|[_ Hp]]; [left|]. by apply (v_dom _ _ _ _ HV) in Hp. }
  destruct (bool_decide (lru_ent s = None) && (watermark (pc st) <=? owner)) eqn:Eneed.
  - apply andb_true_iff in Eneed as [Hnone%bool_decide_eq_true Hwm%Z.leb_le].
    assert (it_ref it = 0) as Hr by (pose proof (e_pin _ _ _ He) as Hpin; cbn in Hpin; by rewrite Hnone in Hpin).
    destruct (acquire_client (lru_slot_eq key_eq) _ _ it HR Hit) as (l & ca1 & A & -> & HR' & HA & HA' & Hd & Hc); [rewrite Hr; clia|].
    cbn [mbind option_bind]. eexists _, (set_ref it 1), _, ca1. split; [done|]. rewrite Hr in HA'. split_and!; try done.
    split; try done.
    + cbn. by rewrite Hc, (v_cap _ _ _ _ HV).
    + rewrite HA', fmap_cons. apply Permutation_skip. pose proof (v_items _ _ _ _ HV) as Hi. rewrite fmap_cons, HA in Hi.
      by apply Permutation_cons_inv in Hi.
    + apply (pcore_touch n st _ it s); try done. pose proof He as []. split; try done. by eapply (wait_same s0).
    + by apply Hdom.
    + pose proof (v_owned _ _ _ _ HV) as Hf. apply Forall_cons in Hf as [_ Hf]. by apply Forall_cons_2.
  - exists st, it, s0, ca. assert (with_pc st (with_idx (pc st) (idx (pc st))) = st) as Hst by (by destruct st as [[] ? ? ? ?]).
    split; [done|]. split_and!; try done.
    + destruct HV as [V1 V2 V3 V4 V5 V6]. apply Forall_cons in V6 as [V6 V6']. split; try done; [|by apply Hdom|].
      * apply (pcore_touch n st _ it s); try done. by pose proof He as [].
      * apply Forall_cons_2; [|done]. unfold owner_pins in *. cbn in *. intros Hwm.
        apply andb_false_iff in Eneed as [Hn|Hn]; [by apply bool_decide_eq_false in Hn|]. apply Z.leb_gt in Hn. apply V6. lia.
    + cbn. intros Hwm. apply andb_false_iff in Eneed as [Hn|Hn]; [by apply bool_decide_eq_false in Hn|]. apply Z.leb_gt in Hn. lia.
Qed.
(** The last part of a hit: the gate joins the waiters of a fetch that runs, or
    learns that it failed. *)
Definition hit_finish (mem : request_memory) st (p : ptr) s (gate : option ptr) : option (pst K V * request_outcome) :=
  let done_ st := Some (st, Answered (Result (make_handle (active_idx s) (generation s)) DAMACY_OK)) in
  match s_state s with
  | PREFETCH_STATE_PENDING =>
      st ← gate_inc_pending st gate;
      r ← slot_register_waiter (grow_ok mem) s gate;
      if (fst r : bool) then st ← prefetch_gate_dec_pending st gate; Some (st, refused DAMACY_OOM)
      else done_ (put_slot st p (snd r))
  | PREFETCH_STATE_ERROR => st ← prefetch_gate_set_error st gate; done_ st
  | PREFETCH_STATE_READY => done_ st
  end.

Lemma pinv_gates n n' st L ca G :
  pinv n st L ca -> n <= n' < 2 ^ 31 -> gates_ok G (expected L) -> pinv n' (with_gates st G) L ca.
Proof.
  intros [H1 H2 H3 H4 H5 H6] Hn HG. split; try done. eapply pcore_more in H4; [|exact Hn]. destruct H4. by split.
Qed.

Lemma pinv_more n n' st L ca : pinv n st L ca -> n <= n' < 2 ^ 31 -> pinv n' st L ca.
Proof. intros [H1 H2 H3 H4 H5 H6] Hn. split; try done. by eapply pcore_more. Qed.

Lemma hit_finish_spec n mem st it s L ca gate :
  pinv n st ((it, s) :: L) ca -> n + 1 < 2 ^ 31 -> (forall g, gate = Some g -> is_Some (gates st !! g)) ->
  exists st' s' out, hit_finish mem st (eptr (it, s)) s gate = Some (st', out) /\ pinv (n + 1) st' ((it, s') :: L) ca /\
    (exists a h m k, s' = slot_with_waiters s a h m k) /\ pc st' = pc st /\ dom (gates st') = dom (gates st) /\
    keys_freed st' = keys_freed st /\ values_freed st' = values_freed st /\
    (forall g, error_bit (gates st) g = true -> error_bit (gates st') g = true) /\
    ((out = Answered (Result (handle_of (it, s)) DAMACY_OK) /\
      waiters s' = waiters s ++ (if decide (is_pending (it, s)) then option_list gate else []) /\
      (is_errored (it, s) -> forall g, gate = Some g -> error_bit (gates st') g = true)) \/
     (out = refused DAMACY_OOM /\ grow_ok mem = false /\ waiters s' = waiters s)).
Proof.
  intros HV Hn Hgate. destruct (pinv_entry _ _ _ _ (it, s) HV ltac:(left)) as (Hit & Hh & He). cbn [fst snd] in *.
  pose proof (v_core _ _ _ _ HV) as HC. pose proof (k_gates _ _ _ HC) as HG. pose proof (k_reqs _ _ _ HC) as Hreq.
  assert (Hself : slot_with_waiters s (waiters_inline s) (waiters_heap s) (n_waiters s) (cap_heap s) = s) by (by destruct s).
  unfold hit_finish. destruct (s_state s) eqn:Est.
  - destruct (gate_inc_spec st gate _ HG) as (G & -> & HG1 & HB1 & HD1).
    { intros g Hg. split; [by apply Hgate|]. pose proof (pcore_len _ _ _ HC). pose proof (k_cap _ _ _ HC).
      pose proof (waiting_bound _ _ _ g (k_entry _ _ _ HC) ltac:(lia) ltac:(lia)). pose proof (others_range g). unfold expected. lia. }
    cbn [mbind option_bind].
    destruct (register_cases (grow_ok mem) s gate (e_wait _ _ _ He)) as [[-> Hoom]|(wi & wh & wn & wc & -> & Hw & Hws & Hle)];
      [pose proof (e_few _ _ _ He); cbn in *; lia|cbn [mbind option_bind fst]..].
    + destruct (gate_dec_spec (with_gates st G) gate _ HG1) as (G2 & -> & HG2 & HB2 & HD2); [intros; apply expected_nonneg|].
      cbn [mbind option_bind]. eexists _, s, _. split; [done|]. split; [by apply (pinv_gates n (n + 1) st); [|lia|]|].
      split; [by eexists _, _, _, _|]. split_and!; try done; [cbn in *; congruence| |by right].
      intros g. cbn in *. by rewrite HB2, HB1.
    + eexists _, (slot_with_waiters s wi wh wn wc), _. split; [done|]. cbn [snd]. set (s' := slot_with_waiters s wi wh wn wc) in *.
      split; [|split; [by eexists _, _, _, _|]; split_and!; try done; [by intros g; cbn; rewrite HB1|left; split_and!; try done; [by rewrite decide_True|intros Hx; unfold is_errored in Hx; cbn in Hx; congruence]]].
      destruct HV as [V1 V2 V3 V4 V5 V6]. split; try done.
      * eapply (pcore_update n (n + 1) st _ (it, s) (it, s')); try done; [lia| | | |].
        -- pose proof He as []. split; try done. cbn in *. lia.
        -- cbn. rewrite (k_pending _ _ _ HC). done.
        -- cbn. rewrite (k_errored _ _ _ HC). done.
        -- eapply gates_ok_ext; [exact HG1|]. intros g. unfold plus_one. rewrite !expected_cons. cbn [snd].
           rewrite Hws, occurs_app, occurs_gate. lia.
      * intros q. cbn. rewrite lookup_insert_is_Some. intros [<-|[_ Hq]]; [left|]. by apply V5.
      * apply Forall_cons in V6 as [V6 V6']. by apply Forall_cons_2.
  - eexists _, s, _. split; [done|]. split; [by apply (pinv_more n); [|lia]|].
    split; [by eexists _, _, _, _|]. split_and!; try done. left. split_and!; try done; [rewrite decide_False, app_nil_r; [done|]; unfold is_pending; cbn; congruence|]. intros Hx. unfold is_errored in Hx. cbn in Hx. congruence.
  - destruct (gate_error_spec st gate _ HG Hgate) as (G & -> & HG1 & HB1 & HD1). cbn [mbind option_bind].
    eexists _, s, _. split; [done|]. split; [by apply (pinv_gates n (n + 1) st); [|lia|]|].
    split; [by eexists _, _, _, _|]. split_and!; try done.
    + intros g Hg. cbn. by rewrite HB1, Hg.
    + left. split_and!; try done; [rewrite decide_False, app_nil_r; [done|]; unfold is_pending; cbn; congruence|]. intros _ g Hg. cbn. rewrite HB1, bool_decide_true by done.
      apply orb_true_r.
Qed.
End steps.
