(* ===== verification/PrefetchRequest.v ===== *)
(** * The operations of the prefetch cache

    What each operation of [PrefetchCache.v] does to the entries: which stay, which
    fetches are outstanding, where every value is. *)

From stdpp Require Import gmap.
From S2P Require Import Prelude Hash Lru LruSpec LruCorrect LruClaims LruClient PrefetchCache PrefetchGates PrefetchProof PrefetchSteps.

#[local] Open Scope Z_scope.

Section ops.
Context {OW : OtherWaiters} {K V : Type} (key_eq : K -> K -> bool) `{!KeyEquiv key_eq}.
Notation entry := (item (ptr * K) * prefetch_slot K V)%type.
Implicit Types (s : prefetch_slot K V) (st : pst K V) (e : entry) (L D : list entry).

(** ** What an observer can tell *)

(** [e'] is [e] at a later time: the same slot, with the same result once there is
    one, and no fewer owners. *)
Record later e e' : Prop := {
  l_ptr : eptr e' = eptr e;
  l_key : s_key (snd e') = s_key (snd e) /\ key_hash (snd e') = key_hash (snd e);
  l_handle : handle_of e' = handle_of e;
  l_owner : max_owner_id (snd e) <= max_owner_id (snd e');
  l_state : ~ is_pending e ->
    s_state (snd e') = s_state (snd e) /\ s_value (snd e') = s_value (snd e) /\ s_err (snd e') = s_err (snd e) }.

#[export] Instance later_preorder : PreOrder later.
Proof.
  split; [intros e; by split|]. intros a b c [H1 H2 H3 H4 H5] [K1 K2 K3 K4 K5].
  split; try congruence; try lia; [destruct H2, K2; split; congruence|].
  intros Hp. destruct (H5 Hp) as (E1 & E2 & E3). destruct K5 as (F1 & F2 & F3); [unfold is_pending in *; congruence|].
  split_and!; congruence.
Qed.

(** Pinned entries stay. *)
Definition evolves L L' : Prop := forall e, e ∈ L -> lru_ent (snd e) <> None -> exists e', e' ∈ L' /\ later e e'.

(** The fetches that run, each with the address its worker holds. *)
Definition tokens L : list (ptr * prefetch_completion) := (fun e => (eptr e, token_of e)) <$> filter is_pending L.
#[export] Instance tokens_perm : Proper ((≡ₚ) ==> (≡ₚ)) tokens.
Proof. intros L L' H. unfold tokens. by rewrite H. Qed.

(** The values given to the cache: released, or held by an entry. *)
Definition values_of L : list V := L ≫= (fun e => option_list (s_value (snd e))).
#[export] Instance values_perm : Proper ((≡ₚ) ==> (≡ₚ)) values_of.
Proof. intros L L' H. unfold values_of. by rewrite H. Qed.
Definition accounted st L : list V := values_freed st ++ values_of L.
#[export] Instance accounted_perm st : Proper ((≡ₚ) ==> (≡ₚ)) (accounted st).
Proof. intros L L' H. unfold accounted. by rewrite H. Qed.

Lemma tokens_cons e L : tokens (e :: L) = (if decide (is_pending e) then [(eptr e, token_of e)] else []) ++ tokens L.
Proof. unfold tokens. destruct (decide (is_pending e)); [by rewrite filter_cons_True|by rewrite filter_cons_False]. Qed.
Lemma values_cons e L : values_of (e :: L) = option_list (s_value (snd e)) ++ values_of L.
Proof. done. Qed.

Lemma tokens_done D : Forall (fun e => ~ is_pending e) D -> tokens D = [].
Proof. induction 1 as [|e D He _ IH]; [done|]. by rewrite tokens_cons, decide_False, IH. Qed.
Lemma tokens_app L L' : tokens (L ++ L') = tokens L ++ tokens L'.
Proof. unfold tokens. by rewrite filter_app, fmap_app. Qed.
Lemma values_app L L' : values_of (L ++ L') = values_of L ++ values_of L'.
Proof. unfold values_of. apply bind_app. Qed.

Lemma evolves_refl L : evolves L L.
Proof. intros e He _. by exists e. Qed.
Lemma evolves_cons e e' L : later e e' -> evolves (e :: L) (e' :: L).
Proof.
  intros Hl x [->|Hx]%elem_of_cons _; [exists e'; split; [left|done]|]. exists x. split; [by right|done].
Qed.
Lemma evolves_perm_l L L2 L' : L ≡ₚ L2 -> evolves L2 L' -> evolves L L'.
Proof. intros Hp H e He. rewrite Hp in He. by apply H. Qed.

(** The entry of an item of the index. *)
Lemma entry_of_item n st L ca it :
  pinv key_eq n st L ca -> it ∈ items ca -> exists s L0, L ≡ₚ (it, s) :: L0.
Proof.
  intros HV Hit. rewrite <-(v_items _ _ _ _ _ HV) in Hit. apply list_elem_of_fmap in Hit as ([it' s] & -> & He).
  apply list_elem_of_split in He as (L1 & L2 & ->). exists s, (L1 ++ L2). by rewrite <-Permutation_middle.
Qed.

(** What a request promises about its outcome. *)
Definition answers st' L L' (hash : Z) (key : K) (owner : Z) (gate : option ptr) (out : request_outcome) : Prop :=
  match out with
  | Answered r => tokens L' ≡ₚ tokens L /\
      (r_status r = DAMACY_OK -> exists e, e ∈ L' /\ r_handle r = handle_of e /\ key_hash (snd e) = hash /\
         key_eq (s_key (snd e)) key = true /\ owner <= max_owner_id (snd e) /\
         (is_pending e -> forall g, gate = Some g -> g ∈ waiters (snd e)) /\
         (is_errored e -> forall g, gate = Some g -> error_bit (gates st') g = true)) /\
      (r_status r <> DAMACY_OK -> r_handle r = PREFETCH_HANDLE_NONE /\ (r_status r = DAMACY_OOM \/ r_status r = DAMACY_AGAIN))
  | Launch p t h => exists e, e ∈ L' /\ p = eptr e /\ t = token_of e /\ h = handle_of e /\ is_pending e /\
      tokens L' ≡ₚ (p, t) :: tokens L /\ key_hash (snd e) = hash /\ s_key (snd e) = key /\ owner <= max_owner_id (snd e) /\
      (forall g, gate = Some g -> g ∈ waiters (snd e))
  end.

Lemma request_hit_spec n mem st L ca it hash key owner gate :
  pinv key_eq n st L ca -> it ∈ items ca -> hits_key (lru_slot_eq key_eq) hash key it = true ->
  n + 1 < 2 ^ 31 -> (forall g, gate = Some g -> is_Some (gates st !! g)) ->
  exists st' out L' ca', request_hit mem st (it_slot it) owner gate = Some (st', out) /\ pinv key_eq (n + 1) st' L' ca' /\
    evolves L L' /\ answers st' L L' hash key owner gate out /\ accounted st' L' ≡ₚ accounted st L /\
    watermark (pc st') = watermark (pc st) /\ dom (gates st') = dom (gates st) /\
    (forall g, waiting L' g <= waiting L g + occurs g (option_list gate)).
Proof.
  intros HV Hit Hkey Hn Hgate. destruct (entry_of_item _ _ _ _ _ HV Hit) as (s & L0 & HL).
  pose proof (pinv_perm _ _ _ _ _ _ HL HV) as HV0.
  destruct (pinv_entry _ _ _ _ _ (it, s) HV0 ltac:(left)) as (_ & Hh & He). cbn [fst snd] in *.
  destruct (hit_pin key_eq n st it s L0 ca owner HV0) as (st1 & it1 & s1 & ca1 & Hpin & HV1 & Est1 & Ev & Es1 & Hown).
  assert (eptr (it1, s1) = eptr (it, s)) as Hp by (unfold eptr; cbn; by rewrite Ev).
  destruct (hit_finish_spec key_eq n mem (put_slot st1 (eptr (it, s)) s1) it1 s1 L0 ca1 gate HV1 Hn)
    as (st' & s' & out & Hfin & HV' & (wi & wh & wn & wc & Es') & Hpc & Hdom & Hkf & Hvf & Herr & Hout).
  { intros g Hg. rewrite Est1. by apply Hgate. }
  exists st', out, ((it1, s') :: L0), ca1.
  assert (Hlater : later (it, s) (it1, s')).
  { split; cbn; subst s'; rewrite Es1; cbn; try done; try lia. }
  assert (Hst : s_state s' = s_state s /\ s_value s' = s_value s) by (subst s'; rewrite Es1; done).
  assert (Hpend : is_pending (it1, s') <-> is_pending (it, s)) by (unfold is_pending; cbn; by rewrite (proj1 Hst)).
  assert (Htok : tokens ((it1, s') :: L0) ≡ₚ tokens L).
  { rewrite HL, !tokens_cons. replace (eptr (it1, s')) with (eptr (it, s)) by (unfold eptr; cbn; by rewrite Ev).
    unfold token_of. rewrite (l_handle _ _ Hlater). destruct (decide (is_pending (it1, s'))), (decide (is_pending (it, s))); first [done|exfalso; tauto]. }
  split; [|split; [done|split; [eapply evolves_perm_l; [done|by apply evolves_cons]|split; [|split; [|split; [|split]]]]]].
  - unfold request_hit. rewrite (value_client _ _ _ _ (v_rep _ _ _ _ _ HV) Hit). cbn [mbind option_bind].
    change (fst (it_value it)) with (eptr (it, s)). rewrite Hh. cbn [mbind option_bind].
    rewrite Hpin. cbn [mbind option_bind]. rewrite Hp in Hfin. exact Hfin.
  - apply andb_true_iff in Hkey as [Hhash%Z.eqb_eq Hkey]. pose proof (e_key _ _ _ He) as Hek. pose proof (e_hash _ _ _ He) as Heh.
    cbn in Hek, Heh. unfold lru_slot_eq in Hkey. rewrite Hek in Hkey. cbn in Hkey.
    destruct (l_key _ _ Hlater) as [Hk1 Hk2]. cbn in Hk1, Hk2.
    destruct Hout as [(-> & Hw & Her)|(-> & _ & Hw)]; cbn [answers r_status r_handle]; [|by split; [|split; [|auto]]].
    split; [done|]. split; [|done]. intros _. exists (it1, s'). cbn [snd].
    assert (handle_of (it1, s1) = handle_of (it1, s')) as -> by (by subst s').
    split; [left|]. split; [done|]. split; [congruence|]. split; [congruence|].
    split; [subst s'; rewrite Es1; cbn; lia|]. split.
    + intros Hpe g ->. rewrite Hw, decide_True; [set_solver|]. unfold is_pending in *. subst s'. done.
    + intros Hpe. apply Her. unfold is_errored in *. by subst s'.
  - unfold accounted. rewrite Hvf, Est1. rewrite HL, !values_cons. cbn [snd]. rewrite (proj2 Hst). done.
  - rewrite Hpc, Est1. done.
  - rewrite Hdom, Est1. done.
  - intros g. rewrite HL, !waiting_cons. cbn [snd]. pose proof (occurs_range g (option_list gate)).
    assert (waiters s1 = waiters s) as Hw1 by (rewrite Es1; apply (wait_same s); try done; apply He).
    destruct Hout as [(_ & -> & _)|(_ & _ & ->)]; rewrite Hw1; [|lia]. rewrite occurs_app. case_decide; [|change (occurs g []) with 0]; lia.
Qed.
(** ** A key that is not cached *)

Lemma pcore_ext n st st' L : pcore n st L -> pc st' = pc st -> heap st' = heap st -> gates st' = gates st -> pcore n st' L.
Proof. intros HC E1 E2 E3. eapply pcore_heap; [done..|]. intros p _. by rewrite E2. Qed.

Lemma pcore_idx n st L l : pcore n st L -> pcore n (with_pc st (with_idx (pc st) l)) L.
Proof.
  intros [H1 H2 H3 H4 H5 H6 H7 H8 H9 H10 H11 H12 H13 H14]. split; try done.
  eapply Forall_impl; [exact H6|]. intros e. by apply entry_ok_shape.
Qed.

Lemma destroy_calls_app st (l l' : list (ptr * K)) :
  destroy_calls st (l ++ l') = (st' ← destroy_calls st l; destroy_calls st' l').
Proof.
  revert st. induction l as [|[p k] l IH]; intros st; [done|]. cbn [app destroy_calls].
  destruct (lru_slot_destroy st p) as [st1|]; cbn [mbind option_bind]; [apply IH|done].
Qed.

Lemma new_calls_app (old new : lru (ptr * K)) X : destroyed new = destroyed old ++ X -> new_calls old new = X.
Proof. intros H. unfold new_calls. by rewrite H, drop_app_length. Qed.

(** The entries behind a split of the items. *)
Lemma entries_split L (D A : list (item (ptr * K))) :
  L.*1 ≡ₚ D ++ A -> exists E R, L ≡ₚ E ++ R /\ E.*1 = D /\ R.*1 = A.
Proof.
  intros HP. symmetry in HP. apply Permutation_map_inv in HP as (L3 & HL3 & Hp).
  symmetry in HL3. apply map_eq_app in HL3 as (E & R & -> & <- & <-). by exists E, R.
Qed.

Lemma loose_unpinned n st L e : pcore n st L -> e ∈ L -> loose (fst e) -> lru_ent (snd e) = None /\ ~ is_pending e.
Proof.
  intros HC He Hl. pose proof (k_entry _ _ _ HC) as Hf. rewrite Forall_forall in Hf. specialize (Hf e He).
  pose proof (entry_pin _ _ _ Hf Hl) as Hp. split; [done|]. intros Hpe. by apply (e_pending _ _ _ Hf) in Hpe.
Qed.

(** Evicted entries: nothing pinned, no fetch that runs. *)
Lemma evict_facts n st E R L :
  pcore n st L -> L ≡ₚ E ++ R -> Forall (fun e => loose (fst e)) E ->
  evolves L R /\ tokens R ≡ₚ tokens L /\ values_of L ≡ₚ values_of E ++ values_of R.
Proof.
  intros HC HL HF. rewrite Forall_forall in HF. assert (Hin : forall e, e ∈ E -> e ∈ L) by (intros; rewrite HL; set_solver).
  split_and!.
  - intros e He Hpin. exists e. split; [|done]. rewrite HL, elem_of_app in He. destruct He as [He|He]; [|done].
    destruct (loose_unpinned _ _ _ e HC); auto; done.
  - rewrite HL, tokens_app, (tokens_done E); [done|]. apply Forall_forall. intros e He. apply (loose_unpinned _ _ _ e HC); auto.
  - by rewrite HL, values_app.
Qed.

(** Room is made for a slot that is not an entry yet. *)
Lemma evict_for n st L E R p s0 l :
  pcore n st L -> L ≡ₚ E ++ R -> Forall (fun e => loose (fst e)) E -> heap st !! p = None -> n + 1 < 2 ^ 31 ->
  exists st3, destroy_calls (with_pc (put_slot (with_pc st (with_generation (pc st) (generation_counter (pc st) + 1))) p s0)
        (with_idx (with_generation (pc st) (generation_counter (pc st) + 1)) l)) (it_value ∘ fst <$> E) = Some st3 /\
    pcore (n + 1) st3 R /\ idx (pc st3) = l /\ watermark (pc st3) = watermark (pc st) /\
    generation_counter (pc st3) = generation_counter (pc st) + 1 /\ pc_capacity (pc st3) = pc_capacity (pc st) /\
    gates st3 = gates st /\ heap st3 !! p = Some s0 /\ p ∉ eptr <$> L /\
    (forall q, is_Some (heap st3 !! q) -> q = p \/ (is_Some (heap st !! q) /\ q ∉ eptr <$> E)) /\
    values_freed st3 = values_freed st ++ values_of E.
Proof.
  intros HC HL HF Hp Hn.
  assert (Hfresh : p ∉ eptr <$> L).
  { intros (e & -> & He)%list_elem_of_fmap. pose proof (k_heap _ _ _ HC) as Hh. rewrite Forall_forall in Hh.
    rewrite (Hh e He) in Hp. done. }
  match goal with |- context [destroy_calls ?x _] => set (st2 := x) end.
  assert (HC2 : pcore (n + 1) st2 (E ++ R)).
  { eapply pcore_perm; [exact HL|]. apply (pcore_idx _ (put_slot (with_pc st (with_generation (pc st) (generation_counter (pc st) + 1))) p s0)).
    eapply pcore_heap; [by apply pcore_bump|done|done|]. intros q Hq. cbn. rewrite lookup_insert_ne; [done|]. intros ->. done. }
  destruct (destroy_entries (n + 1) st2 E R HC2) as (st3 & Hd & HC3 & H1 & H2 & H3 & H4 & H5 & H6 & H6' & H7 & H8); [done|].
  assert (HpE : p ∉ eptr <$> E) by (intros HpE; apply Hfresh; rewrite HL, fmap_app; set_solver).
  exists st3. split_and!; try done.
  - rewrite H6 by done. cbn. apply lookup_insert_eq.
  - intros q Hq. destruct (decide (q ∈ eptr <$> E)) as [Hq'|Hq']; [rewrite H6' in Hq by done; by destruct Hq|].
    rewrite H6 in Hq by done. cbn in Hq. rewrite lookup_insert_is_Some in Hq. destruct Hq as [->|[_ ?]]; auto.
Qed.
(** The index refused the slot: it is destroyed before it is linked. *)
Lemma destroy_unlinked st p hash (key : K) owner gen :
  heap st !! p = Some (new_slot hash key owner gen) ->
  destroy_calls st [(p, key)] = Some (PState (pc st) (delete p (heap st)) (gates st) (keys_freed st ++ [key]) (values_freed st)).
Proof.
  intros Hp. cbn [destroy_calls]. unfold lru_slot_destroy. rewrite Hp. cbn [mbind option_bind].
  change (active_idx (new_slot hash key owner gen)) with ACTIVE_IDX_UNLINKED.
  change (ACTIVE_IDX_UNLINKED =? ACTIVE_IDX_UNLINKED) with true. cbn [mbind option_bind].
  change (n_waiters (new_slot hash key owner gen)) with 0. change (0 =? 0) with true. cbn [mbind option_bind]. unfold_st. change (s_value (new_slot hash key owner gen)) with (@None V). change (option_list (@None V)) with (@nil V). by rewrite app_nil_r.
Qed.

Lemma answers_refused st' L L' hash key owner gate x :
  tokens L' ≡ₚ tokens L -> x = DAMACY_OOM \/ x = DAMACY_AGAIN -> answers st' L L' hash key owner gate (refused x).
Proof. intros Ht Hx. split; [done|]. cbn. split; [destruct Hx; congruence|auto]. Qed.

Lemma request_miss_spec n mem st L ca hash key owner gate :
  pinv key_eq n st L ca -> Forall (fun it => hits_key (lru_slot_eq key_eq) hash key it = false) (items ca) ->
  n + 1 < 2 ^ 31 -> (forall g, gate = Some g -> is_Some (gates st !! g)) ->
  (forall p, slot_mem mem = Some p -> heap st !! p = None) ->
  exists st' out L' ca', request_miss key_eq mem st hash key owner gate = Some (st', out) /\ pinv key_eq (n + 1) st' L' ca' /\
    evolves L L' /\ answers st' L L' hash key owner gate out /\ accounted st' L' ≡ₚ accounted st L /\
    watermark (pc st') = watermark (pc st) /\ dom (gates st') = dom (gates st) /\
    (forall g, waiting L' g <= waiting L g + occurs g (option_list gate)).
Proof.
  intros HV Hno Hn Hgate Hmem. pose proof (v_core _ _ _ _ _ HV) as HC. pose proof (v_rep _ _ _ _ _ HV) as HR.
  pose proof (k_reqs _ _ _ HC) as Hreq. pose proof (fun g => occurs_range g (option_list gate)) as Hocc. unfold request_miss.
  destruct (clone_ok mem); cbn [negb].
  2: { eexists _, _, L, ca. split; [done|]. split; [by apply (pinv_more _ n); [|lia]|]. split; [apply evolves_refl|].
       split; [apply answers_refused; auto|]. split_and!; try done. intros g. specialize (Hocc g). lia. }
  destruct (slot_mem mem) as [p|] eqn:Emem.
  2: { eexists _, _, L, ca. split; [done|]. split; [apply (pinv_more _ n); [|lia]; destruct HV; split; try done; by eapply pcore_ext|].
       split; [apply evolves_refl|]. split; [apply answers_refused; auto|]. split_and!; try done. intros g. specialize (Hocc g). lia. }
  specialize (Hmem p eq_refl). rewrite Hmem. rewrite (u32_id (generation_counter (pc st) + 1)) by clia.
  cbn [pc put_slot with_heap with_pc idx with_generation].
  assert (lru_slot_eq key_eq (p, key) key = true) as Hkk by (unfold lru_slot_eq; cbn; apply ke_refl).
  destruct (put_client (lru_slot_eq key_eq) (idx (pc st)) ca hash key (p, key) HR Hkk Hno)
    as (r & l & ca1 & D & A & -> & HR1 & Hcap & HDA & HD & Hcase). cbn [mbind option_bind].
  rewrite <-(v_items _ _ _ _ _ HV) in HDA. destruct (entries_split L D A HDA) as (E & R & HL & <- & <-). rewrite Forall_fmap in HD.
  destruct (evict_facts n st E R L HC HL HD) as (Hev & Htok & Hval).
  destruct (evict_for n st L E R p (new_slot hash key owner (generation_counter (pc st) + 1)) l HC HL HD Hmem Hn)
    as (st3 & Hd & HC3 & Hidx & Hwm & Hgen & Hcp & Hgt & Hh3 & Hfresh & Hdom3 & Hvf).
  assert (HpR : p ∉ eptr <$> R) by (intros HpR; apply Hfresh; rewrite HL, fmap_app; set_solver).
  assert (HwR : forall g, waiting R g <= waiting L g) by (intros g; rewrite HL, waiting_app; pose proof (waiting_nonneg E g); lia).
  assert (HdomR : forall q, is_Some (heap st3 !! q) -> q <> p -> q ∈ eptr <$> R).
  { intros q [->|[Hq HqE]]%Hdom3 Hne; [done|]. apply (v_dom _ _ _ _ _ HV) in Hq. rewrite HL, fmap_app in Hq. set_solver. }
  assert (Hown : forall st', watermark (pc st') = watermark (pc st3) -> Forall (owner_pins st') R).
  { intros st' Hw. pose proof (v_owned _ _ _ _ _ HV) as Hf. rewrite HL, Forall_app in Hf. unfold owner_pins in *.
    rewrite Hw, Hwm. apply Hf. }
  assert (Hacc : values_freed st ++ values_of E ++ values_of R ≡ₚ accounted st L) by (unfold accounted; by rewrite Hval).
  change (pc (put_slot ?a ?b ?c)) with (pc a) in *. rewrite <-list_fmap_compose in Hcase. destruct (r =? LRU_NIL) eqn:Er.
  - destruct Hcase as (Hit & Hheld & Hds). rewrite (new_calls_app _ _ _ Hds), destroy_calls_app.
    match goal with |- context [destroy_calls ?x (_ <$> E)] => change x with (with_pc (put_slot (with_pc st (with_generation (pc st) (generation_counter (pc st) + 1))) p
       (new_slot hash key owner (generation_counter (pc st) + 1))) (with_idx (with_generation (pc st) (generation_counter (pc st) + 1)) l)) end.
    rewrite Hd. cbn [mbind option_bind]. rewrite (destroy_unlinked _ _ _ _ _ _ Hh3). cbn [mbind option_bind].
    eexists _, _, R, ca1. split; [done|]. split_and!; try done.
    + split; try done; cbn; [by rewrite Hidx|by rewrite Hidx, Hcap, Hcp, (v_cap _ _ _ _ _ HV)| | |by apply Hown].
      * eapply pcore_heap; [exact HC3|done|done|]. intros q Hq. cbn. rewrite lookup_delete_ne; [done|]. intros ->. done.
      * intros q. rewrite lookup_delete_is_Some. intros [Hne Hq]. by apply HdomR.
    + apply answers_refused; auto.
    + unfold accounted. cbn. rewrite Hvf, <-app_assoc. done.
    + cbn. by rewrite Hgt.
    + intros g. specialize (HwR g). specialize (Hocc g). lia.
  - destruct Hcase as (Hit & Hds). rewrite (new_calls_app _ _ _ Hds).
    match goal with |- context [destroy_calls ?x (_ <$> E)] => change x with (with_pc (put_slot (with_pc st (with_generation (pc st) (generation_counter (pc st) + 1))) p
       (new_slot hash key owner (generation_counter (pc st) + 1))) (with_idx (with_generation (pc st) (generation_counter (pc st) + 1)) l)) end.
    rewrite Hd. cbn [mbind option_bind]. set (it0 := Item r hash (p, key) 0) in *.
    destruct (acquire_client (lru_slot_eq key_eq) l ca1 it0 HR1) as (l2 & ca2 & A2 & Hacq & HR2 & HA & HA' & _ & Hcap2);
      [rewrite Hit; left|cbn; clia|].
    assert (zlen R < pc_capacity (pc st3)) as Hroom.
    { destruct (rep_size _ _ _ HR1) as [Hsz _]. rewrite Hit in Hsz. cbn [length] in Hsz. rewrite length_fmap in Hsz.
      rewrite Hcp, <-(v_cap _ _ _ _ _ HV), <-Hcap. lia. }
    destruct (link_entry key_eq (n + 1) st3 R p hash key owner r l2 gate) as
      (st' & s' & Hlink & HC' & Hidx' & Hheap' & Hk' & Hs' & Ho' & Hg' & Hw' & Hwm' & _ & Hcp' & Hdom' & _ & Hvf'); try done; try lia.
    { by rewrite Hgen. }
    { rewrite Hgen. intros (e & Heg & He)%list_elem_of_fmap. pose proof (k_entry _ _ _ HC) as Hf. rewrite Forall_forall in Hf.
      assert (e ∈ L) as HeL by (rewrite HL; set_solver). pose proof (e_gen _ _ _ (Hf e HeL)). cbn in Heg. lia. }
    { by rewrite Hidx. }
    { intros g Hg. rewrite Hgt. by apply Hgate. }
    set (e' := (Item r hash (p, key) 1, s')) in *. assert (is_pending e') as Hpe by done.
    assert (s_value s' = None) as Hv0.
    { pose proof (k_entry _ _ _ HC') as Hf. apply Forall_cons in Hf as [Hf _]. apply (e_fetched _ _ _ Hf). cbn. congruence. }
    exists st'. eexists _, (e' :: R), ca2. split; [exact Hlink|]. split_and!.
    + split; try done; [by rewrite Hidx'|by rewrite Hidx', Hcap2, Hcap, Hcp', Hcp, (v_cap _ _ _ _ _ HV)| | |].
      * rewrite HA', fmap_cons. apply Permutation_skip. rewrite Hit in HA. by apply Permutation_cons_inv in HA.
      * intros q. rewrite Hheap', lookup_insert_is_Some. intros [<-|[Hne Hq]]; [left|]. right. by apply HdomR.
      * apply Forall_cons_2; [|by apply Hown]. intros _. pose proof (k_entry _ _ _ HC') as Hf. apply Forall_cons in Hf as [Hf _].
        by apply (e_pending _ _ _ Hf).
    + intros e He Hpin. destruct (Hev e He Hpin) as (x & Hx & Hl). exists x. split; [by right|done].
    + exists e'. split; [left|]. do 3 (split; [done|]). split; [done|]. split; [rewrite tokens_cons, decide_True by done; by rewrite Htok|].
      split; [|split; [done|split; [cbn; lia|intros g ->; cbn; rewrite Hw'; set_solver]]].
      pose proof (k_entry _ _ _ HC') as Hf. apply Forall_cons in Hf as [Hf _]. by rewrite <-(e_hash _ _ _ Hf).
    + unfold accounted. rewrite Hvf', Hvf, values_cons. change (snd e') with s'. rewrite Hv0. change (option_list (@None V)) with (@nil V). cbn [app]. rewrite <-app_assoc. done.
    + by rewrite Hwm', Hwm.
    + by rewrite Hdom', Hgt.
    + intros g. rewrite waiting_cons. change (snd e') with s'. rewrite Hw'. specialize (HwR g). lia.
Qed.

(** ** Requests *)

Lemma request_locked_spec n mem st L ca hash key owner gate :
  pinv key_eq n st L ca -> n + 1 < 2 ^ 31 -> (forall g, gate = Some g -> is_Some (gates st !! g)) ->
  (forall p, slot_mem mem = Some p -> heap st !! p = None) ->
  exists st' out L' ca', request_locked key_eq mem st hash key owner gate = Some (st', out) /\ pinv key_eq (n + 1) st' L' ca' /\
    evolves L L' /\ answers st' L L' hash key owner gate out /\ accounted st' L' ≡ₚ accounted st L /\
    watermark (pc st') = watermark (pc st) /\ dom (gates st') = dom (gates st) /\
    (forall g, waiting L' g <= waiting L g + occurs g (option_list gate)).
Proof.
  intros HV Hn Hgate Hmem. unfold request_locked.
  destruct (get_client (lru_slot_eq key_eq) _ _ hash key (v_rep _ _ _ _ _ HV)) as (r & l & ca1 & -> & HR1 & Hit & _ & Hcap & Hr).
  cbn [mbind option_bind]. set (st1 := with_pc st (with_idx (pc st) l)).
  assert (HV1 : pinv key_eq n st1 L ca1).
  { destruct HV as [V1 V2 V3 V4 V5 V6]. split; try done; [by cbn; rewrite Hcap|by rewrite Hit|by apply pcore_idx]. }
  destruct (r =? LRU_NIL).
  - rewrite <-Hit in Hr. apply (request_miss_spec n mem st1 L ca1 hash key owner gate); try done.
  - destruct Hr as (it & Hin & <- & Hh). apply (request_hit_spec n mem st1 L ca1 it hash key owner gate); try done. by rewrite Hit.
Qed.
End ops.
