(* ===== verification/PrefetchUnpin.v ===== *)
(** * Pins of the prefetch cache

    Completion, the watermark and destruction, on the invariant of
    [PrefetchSteps.v]. *)

From stdpp Require Import gmap.
From S2P Require Import Prelude Hash Lru LruSpec LruCorrect LruClaims LruClient PrefetchCache PrefetchGates PrefetchProof PrefetchSteps PrefetchRequest.

#[local] Open Scope Z_scope.

Section unpin.
Context {OW : OtherWaiters} {K V : Type} (key_eq : K -> K -> bool) `{!KeyEquiv key_eq}.
Notation entry := (item (ptr * K) * prefetch_slot K V)%type.
Implicit Types (s : prefetch_slot K V) (st : pst K V) (e : entry) (L : list entry).

(** ** The end of a fetch *)

Lemma complete_spec n st L ca e value err :
  pinv key_eq n st L ca -> e ∈ L -> is_pending e ->
  exists st' e' L', prefetch_cache_complete st (token_of e) value err = Some st' /\
    slot_complete_locked st (eptr e) value err = Some st' /\
    pinv key_eq n st' L' ca /\ evolves L L' /\ tokens L ≡ₚ (eptr e, token_of e) :: tokens L' /\
    accounted st' L' ≡ₚ option_list value ++ accounted st L /\
    watermark (pc st') = watermark (pc st) /\ dom (gates st') = dom (gates st) /\
    e' ∈ L' /\ later e e' /\
    (if err =? 0 then s_state (snd e') = PREFETCH_STATE_READY /\ s_value (snd e') = value
     else s_state (snd e') = PREFETCH_STATE_ERROR /\ s_err (snd e') = err) /\
    (forall g, waiting L g = occurs g (waiters (snd e)) + waiting L' g) /\
    (forall g, error_bit (gates st') g = error_bit (gates st) g || (negb (err =? 0) && bool_decide (g ∈ waiters (snd e)))) /\
    (forall x, x ∈ L' -> is_pending x -> x ∈ L).
Proof.
  intros HV He Hp. apply list_elem_of_split in He as (L1 & L2 & HL). assert (L ≡ₚ e :: L1 ++ L2) as HP by (by rewrite HL, <-Permutation_middle).
  clear HL. set (L0 := L1 ++ L2) in *. pose proof (pinv_perm _ _ _ _ _ _ HP HV) as HV0. destruct e as [it s].
  pose proof (v_core _ _ _ _ _ HV0) as HC. pose proof (k_entry _ _ _ HC) as Hf. apply Forall_cons in Hf as [He _].
  destruct (complete_locked_spec n st it s L0 value err HC Hp) as (G & Hst & HC' & HB & HD).
  exists (complete_st st (eptr (it, s)) s value err G), (it, done_slot s value err), ((it, done_slot s value err) :: L0).
  assert (Hnp : ~ is_pending (it, done_slot s value err)) by (unfold is_pending, done_slot; cbn; by destruct (err =? 0)).
  assert (Hl : later (it, s) (it, done_slot s value err)).
  { unfold done_slot. destruct (err =? 0); (split; try done; lia). }
  assert (s_value s = None) as Hv0 by (apply (e_fetched _ _ _ He); unfold is_pending in Hp; cbn in *; congruence).
  rewrite (complete_token _ _ _ _ _ _ _ HC Hp). split_and!; try done.
  - destruct HV0 as [V1 V2 V3 V4 V5 V6]. split; try done.
    + intros q. cbn. rewrite lookup_insert_is_Some. intros [<-|[_ Hq]]; [left|by apply V5].
    + apply Forall_cons in V6 as [V6 V6']. apply Forall_cons_2; [|done]. unfold owner_pins, done_slot in *. by destruct (err =? 0).
  - eapply evolves_perm_l; [exact HP|]. by apply evolves_cons.
  - rewrite HP, !tokens_cons, decide_True, decide_False by done. done.
  - unfold accounted. rewrite HP, !values_cons. cbn [snd]. rewrite Hv0. unfold done_slot. cbn [values_freed complete_st].
    destruct (err =? 0); cbn [s_value no_waiters slot_with_waiters slot_with_result].
    + rewrite app_nil_r, Permutation_app_swap_app. done.
    + rewrite Hv0. cbn. rewrite <-app_assoc, Permutation_app_swap_app. done.
  - left.
  - unfold done_slot. by destruct (err =? 0).
  - intros g. rewrite HP, !waiting_cons. unfold done_slot. by destruct (err =? 0).
  - intros x [->|Hx]%elem_of_cons Hpx; [done|]. rewrite HP. by right.
Qed.

(** A worker holds the address of its slot, which is still there. *)
Lemma worker_spec n st L ca e rc value err :
  pinv key_eq n st L ca -> e ∈ L -> 
  prefetch_fetch_worker st (eptr e) (generation (snd e)) rc value err =
    prefetch_cache_complete st (token_of e) value (if rc =? 0 then 0 else err).
Proof.
  intros HV He. destruct (pinv_entry _ _ _ _ _ e HV He) as (_ & Hh & _). unfold prefetch_fetch_worker. by rewrite Hh.
Qed.

Definition launch_error (how : launch_result) : option Z :=
  match how with
  | AsyncStarted | Posted => None
  | AsyncRefused | PostRefused => Some (status_code DAMACY_AGAIN)
  | NoContext => Some (status_code DAMACY_OOM)
  end.

Lemma launch_spec n st L ca e how :
  pinv key_eq n st L ca -> e ∈ L -> is_pending e ->
  launch st (eptr e) (token_of e) how =
    match launch_error how with None => Some st | Some err => prefetch_cache_complete st (token_of e) None err end.
Proof.
  intros HV He Hp. destruct (pinv_entry _ _ _ _ _ e HV He) as (_ & Hh & _). unfold launch.
  destruct how; cbn [launch_error]; rewrite ?Hh; cbn [mbind option_bind]; try done.
  rewrite Z.eqb_refl, bool_decide_true by done. cbn [andb].
  destruct (complete_spec n st L ca e None (status_code DAMACY_AGAIN) HV He Hp) as (st' & e' & L' & -> & -> & _). done.
Qed.

(** ** Releasing pins *)

Record pbase (n : Z) st L (ca : cache (ptr * K)) : Prop := {
  b_rep : rep (lru_slot_eq key_eq) (idx (pc st)) ca;
  b_cap : capacity (idx (pc st)) = pc_capacity (pc st);
  b_items : L.*1 ≡ₚ items ca;
  b_core : pcore n st L;
  b_dom : forall p, is_Some (heap st !! p) -> p ∈ eptr <$> L }.

Lemma pinv_base n st L ca : pinv key_eq n st L ca -> pbase n st L ca.
Proof. by intros []. Qed.

Definition unpin e : entry := (set_ref (fst e) 0, slot_with_ent (snd e) None).

Lemma unpin_free c n e : entry_ok c n e -> lru_ent (snd e) = None -> unpin e = e.
Proof.
  intros He Hn. pose proof (e_pin _ _ _ He) as Hp. rewrite Hn in Hp. destruct e as [[a b v r] s]. unfold unpin, set_ref. cbn in *.
  subst. f_equal. destruct s. cbn in *. by subst.
Qed.

Lemma unpin_one n st e L ca ent :
  pbase n st (e :: L) ca -> lru_ent (snd e) = Some ent -> ~ is_pending e ->
  exists l ca', lru_entry_release (idx (pc st)) ent = Some l /\ destroyed l = destroyed (idx (pc st)) /\
    pbase n (put_slot (with_pc st (with_idx (pc st) l)) (eptr e) (slot_with_ent (snd e) None)) (unpin e :: L) ca'.
Proof.
  intros [B1 B2 B3 B4 B5] Hent Hnp. pose proof (k_entry _ _ _ B4) as Hf. apply Forall_cons in Hf as [He _].
  pose proof (e_pin _ _ _ He) as Hpin. rewrite Hent in Hpin. destruct Hpin as [Hs Hr].
  assert (Hin : fst e ∈ items ca) by (rewrite <-B3; left).
  destruct (release_client (lru_slot_eq key_eq) _ _ (fst e) B1 Hin) as (l & ca' & A & Hrel & HR' & HA & HA' & Hd & Hc); [lia|].
  rewrite Hs in Hrel. rewrite Hr in HA'. exists l, ca'. split; [done|]. split; [done|]. split; try done.
  - cbn. by rewrite Hc.
  - rewrite HA', fmap_cons. apply Permutation_skip. rewrite fmap_cons, HA in B3. by apply Permutation_cons_inv in B3.
  - destruct e as [it s]. apply (pcore_touch n st _ it s); try done. pose proof He as []. split; try done. by eapply (wait_same s).
  - intros p. cbn. rewrite lookup_insert_is_Some. intros [<-|[_ Hp]]; [left|]. by apply B5 in Hp.
Qed.

(** The entries after the places [i], ..., [i + k - 1] were visited. *)
Definition unpin_in (skip : prefetch_slot K V -> bool) (i k : Z) e : entry :=
  if decide (i <= active_idx (snd e) < i + k /\ skip (snd e) = false) then unpin e else e.

Lemma unpin_idx skip i k e : active_idx (snd (unpin_in skip i k e)) = active_idx (snd e).
Proof. unfold unpin_in. by case_decide. Qed.

Lemma unpin_in_step skip i k e :
  (forall s x, skip (slot_with_ent s x) = skip s) -> 0 <= k ->
  unpin_in skip (i + 1) k (unpin_in skip i 1 e) = unpin_in skip i (k + 1) e.
Proof.
  intros Hsk Hk. assert (skip (snd (unpin_in skip i 1 e)) = skip (snd e)) as Hs.
  { unfold unpin_in. case_decide; [|done]. apply Hsk. }
  unfold unpin_in at 1. rewrite unpin_idx, Hs. unfold unpin_in. destruct (skip (snd e)).
  { rewrite !decide_False by (intros [_ ?]; done). done. }
  repeat case_decide; try done; exfalso; match goal with H : ~ (_ /\ _) |- _ => apply H end; split; try done; lia.
Qed.

(** The entry at a place, if there is one. *)
Lemma entry_at n st L i :
  pcore n st L -> 0 <= i < pc_capacity (pc st) ->
  (aget (active (pc st)) i = Some None /\ forall e, e ∈ L -> active_idx (snd e) <> i) \/
  exists e L0, aget (active (pc st)) i = Some (Some (eptr e)) /\ L ≡ₚ e :: L0 /\ active_idx (snd e) = i /\
    forall x, x ∈ L0 -> active_idx (snd x) <> i.
Proof.
  intros HC Hi. pose proof (k_lens _ _ _ HC) as [Hl _]. pose proof (k_entry _ _ _ HC) as Hf. rewrite Forall_forall in Hf.
  destruct (aget_is_Some (active (pc st)) i) as [[p|] Ho]; [lia|right|left].
  - destruct (k_active _ _ _ HC _ _ Ho) as (e & He & <- & Hidx). pose proof (k_nodup _ _ _ HC) as Hnd.
    apply list_elem_of_split in He as (L1 & L2 & ->). exists e, (L1 ++ L2). split; [done|]. split; [by rewrite <-Permutation_middle|].
    split; [done|]. intros x Hx Hxi. rewrite <-Permutation_middle, fmap_cons in Hnd. apply NoDup_cons in Hnd as [Hnd _].
    apply Hnd. pose proof (e_active _ _ _ (Hf x ltac:(rewrite <-Permutation_middle; by right))) as Ha. rewrite Hxi, Ho in Ha.
    apply list_elem_of_fmap. exists x. split; [congruence|done].
  - split; [done|]. intros e He Hei. pose proof (e_active _ _ _ (Hf e He)) as Ha. rewrite Hei, Ho in Ha. done.
Qed.

Lemma unpin_none skip i L : (forall e, e ∈ L -> active_idx (snd e) <> i) -> unpin_in skip i 1 <$> L = L.
Proof.
  intros H. induction L as [|e L IH]; [done|]. rewrite fmap_cons, IH by (intros; apply H; by right). f_equal.
  unfold unpin_in. rewrite decide_False; [done|]. specialize (H e ltac:(left)). lia.
Qed.

Lemma unpin_loop_spec n skip k st i L ca :
  (forall s x, skip (slot_with_ent s x) = skip s) ->
  pbase n st L ca -> 0 <= i -> i + Z.of_nat k <= pc_capacity (pc st) -> (forall e, e ∈ L -> is_pending e -> skip (snd e) = true) ->
  exists st' ca', unpin_loop k st i skip = Some st' /\ pbase n st' (unpin_in skip i (Z.of_nat k) <$> L) ca' /\
    watermark (pc st') = watermark (pc st) /\ pc_capacity (pc st') = pc_capacity (pc st) /\ gates st' = gates st /\
    values_freed st' = values_freed st /\ keys_freed st' = keys_freed st /\ destroyed (idx (pc st')) = destroyed (idx (pc st)).
Proof.
  intros Hsk. revert st i L ca. induction k as [|k IH]; intros st i L ca HB Hi Hk Hp.
  { exists st, ca. split; [done|]. assert (unpin_in skip i (Z.of_nat 0) <$> L = L) as ->; [|done].
    rewrite <-(list_fmap_id L) at 2. apply list_fmap_ext. intros j e _. unfold unpin_in. by rewrite decide_False by lia. }
  assert (Hrest : forall st1 ca1, pbase n st1 (unpin_in skip i 1 <$> L) ca1 -> watermark (pc st1) = watermark (pc st) ->
    pc_capacity (pc st1) = pc_capacity (pc st) -> gates st1 = gates st -> values_freed st1 = values_freed st ->
    keys_freed st1 = keys_freed st -> destroyed (idx (pc st1)) = destroyed (idx (pc st)) ->
    exists st' ca', unpin_loop k st1 (i + 1) skip = Some st' /\ pbase n st' (unpin_in skip i (Z.of_nat (S k)) <$> L) ca' /\
    watermark (pc st') = watermark (pc st) /\ pc_capacity (pc st') = pc_capacity (pc st) /\ gates st' = gates st /\
    values_freed st' = values_freed st /\ keys_freed st' = keys_freed st /\ destroyed (idx (pc st')) = destroyed (idx (pc st))).
  { intros st1 ca1 HB1 E1 E2 E3 E4 E5 E6. destruct (IH st1 (i + 1) _ ca1 HB1) as (st' & ca' & Hl & HB' & F1 & F2 & F3 & F4 & F5 & F6);
      [lia|lia| |].
    { intros e (x & -> & Hx)%list_elem_of_fmap. unfold unpin_in. case_decide; [|by apply Hp].
      unfold is_pending. cbn. rewrite Hsk. by apply Hp. }
    exists st', ca'. split; [done|]. split; [|split_and!; congruence].
    rewrite <-list_fmap_compose in HB'. erewrite (list_fmap_ext (unpin_in skip i (Z.of_nat (S k)))); [exact HB'|].
    intros j e _. cbn. rewrite unpin_in_step by (done || lia). f_equal. lia. }
  cbn [unpin_loop]. destruct (entry_at n st L i (b_core _ _ _ _ HB) ltac:(lia)) as [[-> Hno]|(e & L0 & -> & HL & Hei & Hno)];
    cbn [mbind option_bind].
  { apply (Hrest st ca); try done. by rewrite unpin_none. }
  assert (Hmap : unpin_in skip i 1 <$> L ≡ₚ unpin_in skip i 1 e :: L0) by (by rewrite HL, fmap_cons, unpin_none).
  assert (HB0 : pbase n st (e :: L0) ca).
  { destruct HB as [B1 B2 B3 B4 B5]. split; try done; [by rewrite <-HL|by eapply pcore_perm|]. intros p Hq. rewrite <-HL. auto. }
  assert (Hperm : forall st1 ca1, pbase n st1 (unpin_in skip i 1 e :: L0) ca1 -> pbase n st1 (unpin_in skip i 1 <$> L) ca1).
  { intros st1 ca1 [B1 B2 B3 B4 B5]. split; try done; [by rewrite Hmap|by eapply pcore_perm|]. intros p Hq. rewrite Hmap. auto. }
  pose proof (k_heap _ _ _ (b_core _ _ _ _ HB0)) as Hh. apply Forall_cons in Hh as [-> _]. cbn [mbind option_bind].
  pose proof (k_entry _ _ _ (b_core _ _ _ _ HB0)) as He. apply Forall_cons in He as [He _].
  destruct (lru_ent (snd e)) as [ent|] eqn:Eent.
  - destruct (skip (snd e)) eqn:Es.
    + apply (Hrest st ca); try done. apply Hperm. unfold unpin_in. rewrite decide_False by (intros [_ ?]; congruence). done.
    + assert (~ is_pending e) as Hnp by (intros Hpe; rewrite Hp in Es; [done|rewrite HL; left|done]).
      destruct (unpin_one n st e L0 ca ent HB0 Eent Hnp) as (l & ca' & Hrel & Hds & HB').
      rewrite Hrel. cbn [mbind option_bind]. apply (Hrest _ ca'); try done.
      apply Hperm. unfold unpin_in. rewrite decide_True by (split; [lia|done]). done.
  - apply (Hrest st ca); try done. apply Hperm. unfold unpin_in. case_decide; [|done]. by rewrite (unpin_free _ _ _ He Eent).
Qed.

Lemma unpin_later skip i k e : later e (unpin_in skip i k e).
Proof. unfold unpin_in. case_decide; [|done]. by split. Qed.

Lemma unpin_tokens skip i k L : tokens (unpin_in skip i k <$> L) = tokens L.
Proof.
  induction L as [|e L IH]; [done|]. rewrite fmap_cons, !tokens_cons, IH. f_equal.
  pose proof (unpin_later skip i k e) as Hl. unfold token_of. rewrite (l_ptr _ _ Hl), (l_handle _ _ Hl).
  assert (is_pending (unpin_in skip i k e) <-> is_pending e) as Hp by (unfold unpin_in; by case_decide).
  destruct (decide (is_pending (unpin_in skip i k e))), (decide (is_pending e)); try done; tauto.
Qed.
Lemma unpin_values skip i k L : values_of (unpin_in skip i k <$> L) = values_of L.
Proof.
  induction L as [|e L IH]; [done|]. rewrite fmap_cons, !values_cons, IH. unfold unpin_in. by case_decide.
Qed.
Lemma unpin_waiting skip i k L g : waiting (unpin_in skip i k <$> L) g = waiting L g.
Proof.
  induction L as [|e L IH]; [done|]. rewrite fmap_cons, !waiting_cons, IH. f_equal. unfold unpin_in. by case_decide.
Qed.
Lemma unpin_evolves skip i k L : evolves L (unpin_in skip i k <$> L).
Proof. intros e He _. exists (unpin_in skip i k e). split; [|apply unpin_later]. apply list_elem_of_fmap. eauto. Qed.

(** ** The watermark *)

Lemma advance_spec n st L ca w :
  pinv key_eq n st L ca ->
  exists st' L' ca', prefetch_cache_advance_watermark st w = Some st' /\ pinv key_eq n st' L' ca' /\ evolves L L' /\
    tokens L' ≡ₚ tokens L /\ accounted st' L' ≡ₚ accounted st L /\ watermark (pc st') = Z.max w (watermark (pc st)) /\
    gates st' = gates st /\ (forall g, waiting L' g = waiting L g).
Proof.
  intros HV. unfold prefetch_cache_advance_watermark. destruct (Z.leb_spec w (watermark (pc st))) as [Hle|Hlt].
  { exists st, L, ca. split_and!; try done; [apply evolves_refl|lia]. }
  set (st0 := with_pc st (with_watermark (pc st) w)).
  assert (HB0 : pbase n st0 L ca).
  { destruct HV as [V1 V2 V3 V4 V5 V6]. split; try done. destruct V4. split; try done.
    eapply Forall_impl; [exact k_entry|]. by intros e []. }
  pose proof (k_cap _ _ _ (v_core _ _ _ _ _ HV)) as Hcap.
  destruct (unpin_loop_spec n (stays_pinned w) (Z.to_nat (pc_capacity (pc st))) st0 0 L ca)
    as (st' & ca' & Hl & [B1 B2 B3 B4 B5] & E1 & E2 & E3 & E4 & E5 & E6); [done|done|done|cbn; lia| |].
  { intros e _ Hp. unfold stays_pinned. by rewrite bool_decide_true. }
  exists st', (unpin_in (stays_pinned w) 0 (Z.of_nat (Z.to_nat (pc_capacity (pc st)))) <$> L), ca'.
  split; [exact Hl|]. split_and!; try done.
  - split; try done. apply Forall_fmap, Forall_forall. intros e He. unfold owner_pins. cbn. rewrite E1. cbn. unfold unpin_in.
    pose proof (v_owned _ _ _ _ _ HV) as Hf. rewrite Forall_forall in Hf. specialize (Hf e He). unfold owner_pins in Hf.
    case_decide as Hd; [|intros ?; apply Hf; lia]. destruct Hd as [_ Hd]. unfold stays_pinned in Hd.
    apply orb_false_iff in Hd as [_ Hd%Z.leb_gt]. cbn. lia.
  - apply unpin_evolves.
  - by rewrite unpin_tokens.
  - unfold accounted. by rewrite unpin_values, E4.
  - rewrite E1. cbn. lia.
  - intros g. apply unpin_waiting.
Qed.

(** ** Destruction *)

Lemma unpin_all n st L ca e :
  pbase n st L ca -> e ∈ L ->
  unpin_in (fun _ => false) 0 (Z.of_nat (Z.to_nat (pc_capacity (pc st)))) e = unpin e.
Proof.
  intros HB He. pose proof (entry_idx _ _ _ _ (b_core _ _ _ _ HB) He). unfold unpin_in.
  by rewrite decide_True by (split; [lia|done]).
Qed.

Lemma cache_destroy_spec n st L ca :
  pinv key_eq n st L ca -> tokens L = [] ->
  exists st', prefetch_cache_destroy st = Some st' /\ heap st' = ∅ /\ values_freed st' ≡ₚ accounted st L /\
    gates st' = gates st /\ (forall g, waiting L g = 0).
Proof.
  intros HV Ht. pose proof (k_cap _ _ _ (v_core _ _ _ _ _ HV)) as Hcap.
  assert (Hnp : forall e, e ∈ L -> ~ is_pending e).
  { intros e He Hp. assert ((eptr e, token_of e) ∈ tokens L) as Hin; [|rewrite Ht in Hin; by apply not_elem_of_nil in Hin].
    apply list_elem_of_fmap. exists e. split; [done|]. by apply list_elem_of_filter. }
  unfold prefetch_cache_destroy.
  destruct (unpin_loop_spec n (fun _ => false) (Z.to_nat (pc_capacity (pc st))) st 0 L ca)
    as (st1 & ca1 & -> & HB & E1 & E2 & E3 & E4 & E5 & E6); [done|by apply pinv_base|done|lia|by intros e He ?%Hnp|].
  cbn [mbind option_bind].
  set (L1 := unpin_in (fun _ => false) 0 _ <$> L) in *.
  assert (Hloose : Forall loose (items ca1)).
  { rewrite <-(b_items _ _ _ _ HB). apply Forall_fmap, Forall_fmap, Forall_forall. intros e He.
    unfold compose. rewrite (unpin_all n st L ca) by (done || by apply pinv_base). done. }
  destruct (destroy_client (lru_slot_eq key_eq) _ _ (b_rep _ _ _ _ HB) Hloose) as (l & D & -> & HD & Hds).
  cbn [mbind option_bind]. rewrite (new_calls_app _ _ _ Hds).
  assert (L1.*1 ≡ₚ D ++ []) as HDA by (rewrite app_nil_r, HD; apply HB).
  destruct (entries_split L1 D [] HDA) as (E & R & HL & <- & HR). apply fmap_nil_inv in HR as ->. rewrite app_nil_r in HL.
  rewrite <-list_fmap_compose.
  destruct (destroy_entries n (with_pc st1 (with_idx (pc st1) l)) E []) as (st2 & -> & HC2 & F1 & F2 & F3 & F4 & F5 & F6 & F6' & F7 & F8).
  { rewrite app_nil_r. eapply pcore_perm; [exact HL|]. apply pcore_idx, HB. }
  { rewrite Forall_forall. intros e He. rewrite <-HL in He. rewrite Forall_forall in Hloose. apply (Hloose (fst e)).
    rewrite <-(b_items _ _ _ _ HB). apply list_elem_of_fmap. eauto. }
  exists st2. split_and!; try done.
  - apply map_eq. intros p. rewrite lookup_empty. destruct (decide (p ∈ eptr <$> E)) as [Hp|Hp]; [by apply F6'|]. rewrite F6 by done. cbn.
    destruct (heap st1 !! p) eqn:Eh; [|done]. destruct Hp. rewrite <-HL. by apply (b_dom _ _ _ _ HB).
  - rewrite F8. cbn. unfold accounted. rewrite E4. f_equiv. change (E ≫= _) with (values_of E).
    rewrite <-HL. subst L1. by rewrite unpin_values.
  - by rewrite F5.
  - intros g. pose proof (k_entry _ _ _ (v_core _ _ _ _ _ HV)) as Hf. rewrite Forall_forall in Hf. clear -Hnp Hf.
    induction L as [|e L IH]; [done|]. rewrite waiting_cons, IH; [|intros; apply Hnp; by right|intros; apply Hf; by right].
    assert (waiters (snd e) = []) as ->; [|done]. specialize (Hf e ltac:(left)). specialize (Hnp e ltac:(left)).
    apply length_zero_iff_nil. pose proof (wait_length _ (e_wait _ _ _ Hf)). pose proof (e_done _ _ _ Hf Hnp). lia.
Qed.
End unpin.
