(* ===== verification/PrefetchClaims.v ===== *)
(** * Theorems on the prefetch cache

    Histories of the operations of [src/src/prefetch/prefetch_cache.c], with the
    requests and the ends of their fetches in any order, and what holds in them. *)

From stdpp Require Import gmap.
From S2P Require Import Prelude Hash Lru LruLists LruIndex LruSpec LruProof LruCorrect LruClaims LruClient PrefetchCache PrefetchGates PrefetchProof PrefetchSteps PrefetchRequest PrefetchUnpin.

#[local] Open Scope Z_scope.

Section history.
Context {OW : OtherWaiters} {K V : Type} (key_eq : K -> K -> bool) `{!KeyEquiv key_eq}.
Notation entry := (item (ptr * K) * prefetch_slot K V)%type.
Implicit Types (st : pst K V) (e : entry) (L : list entry).

(** ** Creation *)

Lemma free_loop_spec n (l : list Z) i cap :
  0 <= i -> i + Z.of_nat n = cap -> zlen l = cap -> cap <= 2 ^ 30 ->
  exists l', free_loop n l i cap = Some l' /\ zlen l' = cap /\
    forall k, aget l' k = if decide (i <= k < cap) then Some (cap - 1 - k) else aget l k.
Proof.
  revert l i. induction n as [|n IH]; intros l i Hi Hn Hl Hc; cbn [free_loop].
  { exists l. split_and!; try done. intros k. by rewrite decide_False by lia. }
  rewrite u32_id by clia. rewrite aset_range by lia. cbn [mbind option_bind].
  destruct (IH (<[Z.to_nat i := cap - 1 - i]> l) (i + 1)) as (l' & -> & Hl' & Hg); [lia|lia|by rewrite length_insert|done|].
  exists l'. split_and!; try done. intros k. rewrite Hg, (aget_aset l i (cap - 1 - i)) by (apply aset_range; lia).
  repeat case_decide; try lia; try done. by subst.
Qed.

Lemma create_spec (alloc : nat -> bool) cfg :
  (forall g, others g = 0) -> prefetch_config_ok cfg = true -> cf_capacity cfg <= 2 ^ 30 -> 0 < cf_max_probe cfg < UINT32_MAX -> (forall k, alloc k = true) ->
  exists c, prefetch_cache_create (K := K) alloc cfg = Some (Some c) /\ pc_capacity c = cf_capacity cfg /\ watermark c = 0 /\
    pinv key_eq 0 (PState c ∅ ∅ [] []) ([] : list entry) empty_cache.
Proof.
  intros Hnone Hok Hcap Hmp Ha. unfold prefetch_cache_create. rewrite Hok, !Ha. cbn [negb andb].
  assert (0 < cf_capacity cfg) as H0.
  { unfold prefetch_config_ok in Hok. rewrite !andb_true_iff in Hok. destruct Hok as [[[[H _] _] _] _]. by apply Z.ltb_lt. }
  destruct (free_loop_spec (Z.to_nat (cf_capacity cfg)) (replicate (Z.to_nat (cf_capacity cfg)) 0) 0 (cf_capacity cfg))
    as (f & -> & Hf & Hg); [lia|lia|rewrite length_replicate; lia|done|].
  cbn [mbind option_bind].
  destruct (lru_create_ok (V := ptr * K) (fun k => alloc (4 + k)%nat) (cf_capacity cfg) (cf_max_probe cfg))
    as (l & -> & Hn & _ & _ & F & HS); [lia|lia|by rewrite !Ha|].
  cbn [mbind option_bind]. eexists. split; [done|]. split; [done|]. split; [done|].
  assert (Hrep : rep (lru_slot_eq key_eq) l empty_cache) by (split; [by intros ??? ?%not_elem_of_nil|by exists F]).
  assert (Htk : take (Z.to_nat (cf_capacity cfg)) f = f) by (apply take_ge; lia).
  split; try done; [split; cbn; try done|intros p [s Hp]; cbn in Hp; by rewrite lookup_empty in Hp].
  - rewrite length_replicate. lia.
  - constructor.
  - constructor.
  - intros i p Hi. unfold aget in Hi. destruct (0 <=? i); [|done]. by apply lookup_replicate_1 in Hi as [? _].
  - rewrite Htk. apply NoDup_alt. intros i j x Hi Hj.
    pose proof (Hg (Z.of_nat i)) as Gi. pose proof (Hg (Z.of_nat j)) as Gj. rewrite aget_nat, Hi in Gi. rewrite aget_nat, Hj in Gj.
    apply lookup_lt_Some in Hi, Hj. rewrite decide_True in Gi by lia. rewrite decide_True in Gj by lia. simplify_eq. lia.
  - intros i. rewrite Htk, elem_of_aget. split.
    + intros [k Hk]. rewrite Hg in Hk. case_decide; [|apply aget_Some_range in Hk as Hr; rewrite length_replicate in Hr; lia].
      simplify_eq. apply aget_lookup. split; [lia|]. apply lookup_replicate_2. lia.
    + intros Hi. apply aget_Some_range in Hi. rewrite length_replicate in Hi. exists (cf_capacity cfg - 1 - i).
      rewrite Hg, decide_True by lia. f_equal. lia.
  - lia.
  - split; [done| |]; intros g; unfold expected; rewrite Hnone; [done|]. change (waiting [] g) with 0. lia.
Qed.
(** ** Histories *)

(** The state, the number of requests so far, the fetches that were handed out and
    have not ended, and the values they produced. *)
Record world := World { w_reqs : Z; w_st : pst K V; w_out : list (ptr * prefetch_completion); w_vals : list V }.

(** A gate its owner may initialise, or free: nothing waits for it. *)
Definition gate_idle st (g : ptr) : Prop := gates st !! g = None \/ prefetch_gate_is_ready st (Some g) = Some true.

(** One operation. A request passes a gate that is alive and memory that is free;
    each outstanding fetch ends once, through its worker, through an asynchronous
    completion, or when it cannot be started. *)
Inductive pstep : world -> world -> Prop :=
| StepGateInit n st T vs g : gate_idle st g -> pstep (World n st T vs) (World n (prefetch_gate_init st (Some g)) T vs)
| StepGateFree n st T vs g : gate_idle st g -> pstep (World n st T vs) (World n (with_gates st (delete g (gates st))) T vs)
| StepGateError n st T vs g st' :
    prefetch_gate_set_error st (Some g) = Some st' -> pstep (World n st T vs) (World n st' T vs)
| StepRequest n st T vs mem hash key owner gate st' out :
    n + 1 < 2 ^ 31 -> (forall g, gate = Some g -> is_Some (gates st !! g)) ->
    (forall p, slot_mem mem = Some p -> heap st !! p = None) ->
    request_locked key_eq mem st hash key owner gate = Some (st', out) ->
    pstep (World n st T vs) (World (n + 1) st' (match out with Launch p t _ => (p, t) :: T | Answered _ => T end) vs)
| StepLaunch n st T1 p t T2 vs how st' :
    launch st p t how = Some st' ->
    pstep (World n st (T1 ++ (p, t) :: T2) vs)
      (World n st' (match launch_error how with None => T1 ++ (p, t) :: T2 | Some _ => T1 ++ T2 end) vs)
| StepWorker n st T1 p t T2 vs rc value err st' :
    prefetch_fetch_worker st p (c_generation t) rc value err = Some st' ->
    pstep (World n st (T1 ++ (p, t) :: T2) vs) (World n st' (T1 ++ T2) (option_list value ++ vs))
| StepComplete n st T1 p t T2 vs value err st' :
    prefetch_cache_complete st t value err = Some st' ->
    pstep (World n st (T1 ++ (p, t) :: T2) vs) (World n st' (T1 ++ T2) (option_list value ++ vs))
| StepStale n st T vs t value err st' :
    t ∉ T.*2 -> 0 <= c_slot t -> prefetch_cache_complete st t value err = Some st' ->
    pstep (World n st T vs) (World n st' T (option_list value ++ vs))
| StepAdvance n st T vs w st' :
    prefetch_cache_advance_watermark st w = Some st' -> pstep (World n st T vs) (World n st' T vs).

Definition winv (w : world) L ca : Prop :=
  pinv key_eq (w_reqs w) (w_st w) L ca /\ tokens L ≡ₚ w_out w /\ accounted (w_st w) L ≡ₚ w_vals w.

(** ** Gates *)

Lemma gate_value n st L ca g v :
  pinv key_eq n st L ca -> gates st !! g = Some v -> exists b, v = gate_val b (expected L g) /\ 0 <= expected L g < 2 ^ 63 - 1.
Proof.
  intros HV Hg. pose proof (k_gates _ _ _ (v_core _ _ _ _ _ HV)) as HG. destruct (g_val _ _ HG g v Hg) as [b Hb].
  exists b. split; [done|]. apply HG.
Qed.

(** A gate is ready when no fetch it waits for runs. *)
Lemma gate_ready n st L ca g :
  pinv key_eq n st L ca -> is_Some (gates st !! g) ->
  prefetch_gate_is_ready st (Some g) = Some (expected L g =? 0) /\ prefetch_gate_pending st (Some g) = Some (expected L g) /\
  prefetch_gate_has_error st (Some g) = Some (error_bit (gates st) g).
Proof.
  intros HV [v Hg]. destruct (gate_value _ _ _ _ _ _ HV Hg) as (b & -> & Hr).
  unfold prefetch_gate_is_ready, prefetch_gate_pending, prefetch_gate_has_error, gate_load, error_bit. rewrite Hg. cbn [mbind option_bind].
  rewrite gate_val_mask, land_error_bit, gate_val_bit by clia. by destruct b.
Qed.

Lemma idle_waiting n st L ca g : pinv key_eq n st L ca -> gate_idle st g -> expected L g = 0.
Proof.
  intros HV [Hn|Hr].
  - pose proof (k_gates _ _ _ (v_core _ _ _ _ _ HV)) as HG. destruct (decide (expected L g = 0)) as [|Hw]; [done|].
    destruct (g_live _ _ HG g Hw) as [v Hv]. congruence.
  - assert (is_Some (gates st !! g)) as Hs.
    { unfold prefetch_gate_is_ready, gate_load in Hr. destruct (gates st !! g); [done|by cbn in Hr]. }
    destruct (gate_ready _ _ _ _ _ HV Hs) as (Hr' & _). rewrite Hr in Hr'. apply Z.eqb_eq. congruence.
Qed.

(** A gate nothing waits for may be set or removed. *)
Lemma pinv_gate_map n st L ca g (f : gmap ptr Z -> gmap ptr Z) :
  pinv key_eq n st L ca -> gate_idle st g -> (forall x, x <> g -> f (gates st) !! x = gates st !! x) ->
  (forall v, f (gates st) !! g = Some v -> v = 0) -> pinv key_eq n (with_gates st (f (gates st))) L ca.
Proof.
  intros HV Hi Hx Hg. pose proof (k_reqs _ _ _ (v_core _ _ _ _ _ HV)). apply (pinv_gates key_eq n n); [done|lia|].
  pose proof (idle_waiting _ _ _ _ _ HV Hi) as Hw. pose proof (k_gates _ _ _ (v_core _ _ _ _ _ HV)) as [G1 G2 G3]. split; [| |done].
  - intros x v Hv. destruct (decide (x = g)) as [->|Hne]; [|rewrite Hx in Hv by done; by apply G1].
    exists false. rewrite Hw. by apply Hg in Hv as ->.
  - intros x Hxw. destruct (decide (x = g)) as [->|Hne]; [done|]. rewrite Hx by done. by apply G2.
Qed.
(** ** Every step keeps the invariant *)

(** An outstanding fetch and its entry. *)
Lemma token_entry w L ca p t :
  winv w L ca -> (p, t) ∈ w_out w -> exists e, e ∈ L /\ is_pending e /\ p = eptr e /\ t = token_of e.
Proof.
  intros (_ & Ht & _) Hin. rewrite <-Ht in Hin. apply list_elem_of_fmap in Hin as (e & [= -> ->] & He).
  apply list_elem_of_filter in He as [Hp He]. eauto.
Qed.

Definition moves (w w' : world) L : Prop :=
  exists L' ca', winv w' L' ca' /\ evolves L L' /\ watermark (pc (w_st w)) <= watermark (pc (w_st w')).

(** The end of an outstanding fetch. *)
Lemma complete_moves n st T1 p t T2 vs L ca value err :
  winv (World n st (T1 ++ (p, t) :: T2) vs) L ca ->
  exists st', prefetch_cache_complete st t value err = Some st' /\
    moves (World n st (T1 ++ (p, t) :: T2) vs) (World n st' (T1 ++ T2) (option_list value ++ vs)) L.
Proof.
  intros Hw. destruct (token_entry _ _ _ p t Hw) as (e & He & Hp & -> & ->); [cbn; set_solver|].
  destruct Hw as (HV & Ht & Ha). cbn [w_reqs w_st w_out w_vals] in *.
  destruct (complete_spec key_eq n st L ca e value err HV He Hp)
    as (st' & e' & L' & Hc & _ & HV' & Hev & Htk & Hacc & Hwm & _).
  exists st'. split; [done|]. exists L', ca. split; [|split; [done|cbn; lia]]. split; [done|]. split; cbn; [|by rewrite Hacc, Ha].
  rewrite Htk, <-Permutation_middle in Ht. by apply Permutation_cons_inv in Ht.
Qed.

Lemma gate_moves n st T vs L ca G :
  winv (World n st T vs) L ca -> pinv key_eq n (with_gates st G) L ca -> moves (World n st T vs) (World n (with_gates st G) T vs) L.
Proof. intros (HV & Ht & Ha) HV'. exists L, ca. split; [done|]. split; [apply evolves_refl|done]. Qed.

Lemma step_moves w w' L ca : winv w L ca -> pstep w w' -> moves w w' L.
Proof.
  intros Hw Hs. pose proof Hw as (HV & Ht & Ha).
  destruct Hs as [n st T vs g Hi|n st T vs g Hi|n st T vs g st' Hs|n st T vs mem hash key owner gate st' out Hn Hg Hm Hs|
    n st T1 p t T2 vs how st' Hs|n st T1 p t T2 vs rc value err st' Hs|n st T1 p t T2 vs value err st' Hs|
    n st T vs t value err st' Hnt H0 Hs|n st T vs wm st' Hs]; cbn [w_reqs w_st w_out w_vals] in *.
  - eapply gate_moves; [done|]. apply (pinv_gate_map n st L ca g (fun G => <[g := 0]> G)); try done.
    + intros x Hx. by rewrite lookup_insert_ne.
    + intros v. rewrite lookup_insert_eq. congruence.
  - eapply gate_moves; [done|]. apply (pinv_gate_map n st L ca g (delete g)); try done.
    + intros x Hx. by rewrite lookup_delete_ne.
    + intros v. by rewrite lookup_delete_eq.
  - assert (is_Some (gates st !! g)) as Hl.
    { unfold prefetch_gate_set_error, gate_update, gate_load in Hs. destruct (gates st !! g); [done|by cbn in Hs]. }
    destruct (gate_error_spec st (Some g) _ (k_gates _ _ _ (v_core _ _ _ _ _ HV))) as (G & HG & HG' & _); [by intros ? [= <-]|].
    assert (st' = with_gates st G) as -> by congruence. eapply gate_moves; [done|].
    pose proof (k_reqs _ _ _ (v_core _ _ _ _ _ HV)). apply (pinv_gates key_eq n n); try done. lia.
  - destruct (request_locked_spec key_eq n mem st L ca hash key owner gate HV Hn Hg Hm)
      as (st2 & out2 & L' & ca' & Hs' & HV' & Hev & Hans & Hacc & Hwm & _).
    rewrite Hs in Hs'. injection Hs' as <- <-. exists L', ca'. split; [|split; [done|cbn; lia]].
    split; [done|]. split; [|cbn; by rewrite Hacc]. cbn. destruct out as [r|p t h]; cbn in Hans.
    + destruct Hans as (-> & _). done.
    + destruct Hans as (e & _ & _ & _ & _ & _ & -> & _). by rewrite Ht.
  - destruct (token_entry _ _ _ p t Hw) as (e & He & Hp & -> & ->); [cbn; set_solver|].
    rewrite (launch_spec key_eq n st L ca e how HV He Hp) in Hs. destruct (launch_error how) as [err|] eqn:Eh.
    + destruct (complete_moves _ _ _ _ _ _ _ _ _ None err Hw) as (st2 & Hs2 & Hmv). rewrite Hs in Hs2. by injection Hs2 as <-.
    + injection Hs as <-. exists L, ca. split; [done|]. split; [apply evolves_refl|done].
  - destruct (token_entry _ _ _ p t Hw) as (e & He & Hp & -> & ->); [cbn; set_solver|].
    change (c_generation (token_of e)) with (generation (snd e)) in Hs. rewrite (worker_spec key_eq n st L ca) in Hs by done.
    destruct (complete_moves _ _ _ _ _ _ _ _ _ value (if rc =? 0 then 0 else err) Hw) as (st2 & Hs2 & Hmv).
    rewrite Hs in Hs2. by injection Hs2 as <-.
  - destruct (complete_moves _ _ _ _ _ _ _ _ _ value err Hw) as (st2 & Hs2 & Hmv). rewrite Hs in Hs2. by injection Hs2 as <-.
  - rewrite (complete_stale n st L t value err (v_core _ _ _ _ _ HV) H0) in Hs.
    2:{ intros Hin. apply Hnt. rewrite <-Ht. apply list_elem_of_fmap in Hin as (e & -> & He).
        apply list_elem_of_fmap. exists (eptr e, token_of e). split; [done|]. apply list_elem_of_fmap. eauto. }
    injection Hs as <-. exists L, ca. split; [|split; [apply evolves_refl|done]]. split.
    + destruct HV as [V1 V2 V3 V4 V5 V6]. split; try done. by eapply pcore_ext.
    + split; [done|]. cbn. unfold accounted in *. cbn. rewrite <-Ha, <-app_assoc. apply Permutation_app_swap_app.
  - destruct (advance_spec key_eq n st L ca wm HV) as (st2 & L' & ca' & Hs2 & HV' & Hev & Htk & Hacc & Hwm & _).
    rewrite Hs in Hs2. injection Hs2 as <-. exists L', ca'. split; [|split; [done|cbn; lia]]. split; [done|]. cbn. by rewrite Htk, Hacc.
Qed.
(** The worlds that follow a creation with memory available. *)
Definition history (cfg : prefetch_cache_config) (w : world) : Prop :=
  exists c, prefetch_cache_create (fun _ => true) cfg = Some (Some c) /\ rtc pstep (World 0 (PState c ∅ ∅ [] []) [] []) w.

Definition config_small (cfg : prefetch_cache_config) : Prop :=
  cf_capacity cfg <= 2 ^ 30 /\ 0 < cf_max_probe cfg < UINT32_MAX.

Lemma rtc_moves w w' L ca : winv w L ca -> rtc pstep w w' -> exists L' ca', winv w' L' ca'.
Proof.
  intros Hw Hr. revert L ca Hw. induction Hr as [w|w1 w2 w3 Hs _ IH]; intros L ca Hw; [eauto|].
  destruct (step_moves _ _ _ _ Hw Hs) as (L' & ca' & Hw' & _). eauto.
Qed.

Lemma history_inv cfg w : (forall g, others g = 0) -> config_small cfg -> history cfg w -> exists L ca, winv w L ca.
Proof.
  intros Hnone [Hc Hm] (c & Hcr & Hr).
  assert (prefetch_config_ok cfg = true) as Hok.
  { unfold prefetch_cache_create in Hcr. by destruct (prefetch_config_ok cfg). }
  destruct (create_spec (fun _ => true) cfg Hnone Hok Hc Hm) as (c' & Hcr' & _ & _ & HV); [done|].
  assert (c' = c) as -> by congruence. eapply rtc_moves; [|exact Hr]. split; [exact HV|done].
Qed.

(** ** Queries *)

(** What a client reads of an entry. *)
Definition reading e : prefetch_state * option V * Z :=
  match s_state (snd e) with
  | PREFETCH_STATE_PENDING => (PREFETCH_STATE_PENDING, None, 0)
  | PREFETCH_STATE_READY => (PREFETCH_STATE_READY, s_value (snd e), 0)
  | PREFETCH_STATE_ERROR => (PREFETCH_STATE_ERROR, None, s_err (snd e))
  end.

Lemma query_entry n st L ca e :
  pinv key_eq n st L ca -> e ∈ L -> prefetch_cache_query st (handle_of e) = Some (reading e) /\
    prefetch_cache_try_get st (handle_of e) = Some (snd (fst (reading e))).
Proof.
  intros HV He. destruct (pinv_entry _ _ _ _ _ e HV He) as (_ & Hh & _).
  unfold prefetch_cache_query, prefetch_cache_try_get. rewrite (resolve_entry _ _ _ _ (v_core _ _ _ _ _ HV) He). cbn [mbind option_bind].
  rewrite Hh. cbn [mbind option_bind]. unfold reading. by destruct (s_state (snd e)).
Qed.

Lemma query_total n st L ca h :
  pinv key_eq n st L ca -> 0 <= h_slot h -> is_Some (prefetch_cache_query st h) /\ is_Some (prefetch_cache_try_get st h).
Proof.
  intros HV Hs. destruct (resolve_cases n st L h (v_core _ _ _ _ _ HV) Hs) as [Hr|(e & He & -> & _)].
  - unfold prefetch_cache_query, prefetch_cache_try_get. rewrite Hr. cbn. by split; eexists.
  - destruct (query_entry _ _ _ _ _ HV He) as [-> ->]. by split; eexists.
Qed.

Lemma peek_total n st L ca hash key : pinv key_eq n st L ca -> is_Some (prefetch_cache_peek key_eq st hash key).
Proof.
  intros HV. unfold prefetch_cache_peek. pose proof (v_rep _ _ _ _ _ HV) as HR.
  destruct (peek_client (lru_slot_eq key_eq) _ _ hash key HR) as (r & -> & Hr). cbn [mbind option_bind].
  destruct (r =? LRU_NIL); [by eexists|]. destruct Hr as (it & Hit & <- & _). rewrite (value_client _ _ _ _ HR Hit). cbn [mbind option_bind].
  destruct (entry_of_item key_eq _ _ _ _ _ HV Hit) as (s & L0 & HL).
  destruct (pinv_entry _ _ _ _ _ (it, s) HV) as (_ & Hh & _); [rewrite HL; left|]. change (fst (it_value it)) with (eptr (it, s)).
  rewrite Hh. by eexists.
Qed.

Lemma heap_size n st L ca : pinv key_eq n st L ca -> Z.of_nat (base.size (heap st)) = zlen L.
Proof.
  intros HV. f_equal. rewrite <-size_dom. assert (dom (heap st) = list_to_set (eptr <$> L)) as ->.
  { apply set_eq. intros p. rewrite elem_of_dom, elem_of_list_to_set. split; [apply HV|]. intros (e & -> & He)%list_elem_of_fmap.
    destruct (pinv_entry _ _ _ _ _ e HV He) as (_ & -> & _). done. }
  rewrite size_list_to_set by apply (v_core _ _ _ _ _ HV). apply length_fmap.
Qed.

Lemma pending_tokens L : n_pending L = zlen (tokens L).
Proof. unfold tokens. rewrite length_fmap. apply zsum_filter. Qed.

Lemma stats_spec n st L ca :
  pinv key_eq n st L ca -> exists s, prefetch_cache_stats_get st = Some s /\ ps_pending s = zlen (tokens L) /\
    ps_size s = zlen L /\ ps_size s <= ps_capacity s.
Proof.
  intros HV. pose proof (v_rep _ _ _ _ _ HV) as [_ [F HS]]. unfold prefetch_cache_stats_get, lru_stats_get.
  rewrite (order_count _ _ _ _ _ HS). cbn [mbind option_bind]. eexists. split; [done|]. cbn.
  pose proof (v_core _ _ _ _ _ HV) as HC. rewrite (k_pending _ _ _ HC), pending_tokens, (s_size _ _ _ _ _ HS).
  assert (zlen (items ca) = zlen L) as -> by (rewrite <-(v_items _ _ _ _ _ HV); by rewrite length_fmap).
  split_and!; try done. by eapply pcore_len.
Qed.
(** ** Ending every fetch *)

(** The completions of [l], one after the other. *)
Fixpoint finish st (l : list (prefetch_completion * option V * Z)) : option (pst K V) :=
  match l with
  | [] => Some st
  | (t, value, err) :: l => st ← prefetch_cache_complete st t value err; finish st l
  end.

(** Gate [g] is registered as a waiter of the fetch that [t] completes. *)
Definition awaits st (t : prefetch_completion) (g : ptr) : bool :=
  match resolve_handle st (Handle (c_slot t) (c_generation t)) with
  | Some (Some p) => match heap st !! p with Some s => bool_decide (g ∈ waiters s) | None => false end
  | _ => false
  end.

Lemma awaits_entry n st L ca e g : pinv key_eq n st L ca -> e ∈ L -> awaits st (token_of e) g = bool_decide (g ∈ waiters (snd e)).
Proof.
  intros HV He. unfold awaits. change (Handle (c_slot (token_of e)) (c_generation (token_of e))) with (handle_of e).
  rewrite (resolve_entry _ _ _ _ (v_core _ _ _ _ _ HV) He). destruct (pinv_entry _ _ _ _ _ e HV He) as (_ & -> & _). done.
Qed.

(** A gate is counted for once per fetch it waits for. *)
Lemma waiting_awaits w L ca g : winv w L ca -> (0 < waiting L g <-> exists t, t ∈ (w_out w).*2 /\ awaits (w_st w) t g = true).
Proof.
  intros Hw. pose proof Hw as (HV & Ht & _). split.
  - intros Hpos. assert (exists e, e ∈ L /\ 0 < occurs g (waiters (snd e))) as (e & He & Hoc).
    { clear -Hpos. induction L as [|e L IH]; [cbn in Hpos; lia|]. rewrite waiting_cons in Hpos. destruct (decide (0 < occurs g (waiters (snd e)))); [exists e; split; [left|done]|].
      destruct IH as (e' & ? & ?); [lia|]. exists e'. split; [by right|done]. }
    apply occurs_elem in Hoc. destruct (pinv_entry _ _ _ _ _ e HV He) as (_ & _ & Hok). exists (token_of e). rewrite (awaits_entry _ _ _ _ _ _ HV He). split; [|by apply bool_decide_eq_true].
    rewrite <-Ht. apply list_elem_of_fmap. exists (eptr e, token_of e). split; [done|]. unfold tokens. apply list_elem_of_fmap. exists e. split; [done|]. apply list_elem_of_filter. split; [|done].
    destruct (decide (is_pending e)) as [|Hn]; [done|]. pose proof (wait_length _ (e_wait _ _ _ Hok)) as Hl. rewrite (e_done _ _ _ Hok Hn) in Hl. destruct (waiters (snd e)); [by apply not_elem_of_nil in Hoc|done].
  - intros (t & Hin & Haw). apply list_elem_of_fmap in Hin as ([p t'] & -> & Hin). cbn [snd] in *. destruct (token_entry _ _ _ p t' Hw Hin) as (e & He & _ & _ & ->).
    rewrite (awaits_entry _ _ _ _ _ _ HV He) in Haw. apply bool_decide_eq_true, occurs_elem in Haw. apply list_elem_of_split in He as (L1 & L2 & HL).
    assert (waiting L g = occurs g (waiters (snd e)) + waiting (L1 ++ L2) g) as -> by (rewrite <-waiting_cons; apply waiting_perm; [rewrite HL; symmetry; apply Permutation_middle|done]). pose proof (waiting_nonneg (L1 ++ L2) g). lia.
Qed.

(** The completions of all fetches: a gate gains an error when it waited for one that
    failed, and only then. *)
Lemma finish_drains l n st T vs L ca :
  winv (World n st T vs) L ca -> l.*1.*1 ≡ₚ T.*2 ->
  exists st' L' vs', finish st l = Some st' /\ rtc pstep (World n st T vs) (World n st' [] vs') /\
    winv (World n st' [] vs') L' ca /\ dom (gates st') = dom (gates st) /\
    (forall g, error_bit (gates st') g = error_bit (gates st) g || existsb (fun r => negb (snd r =? 0) && awaits st (fst (fst r)) g) l).
Proof.
  revert st T vs L. induction l as [|[[t value] err] l IH]; intros st T vs L Hw Hp.
  { symmetry in Hp. apply Permutation_nil_r, fmap_nil_inv in Hp as ->. exists st, L, vs. split; [done|]. split; [apply rtc_refl|].
    split; [done|]. split; [done|]. intros g. cbn. by rewrite orb_false_r. }
  assert (Hin : t ∈ T.*2) by (rewrite <-Hp; left). apply list_elem_of_fmap in Hin as ([p t'] & -> & Hin). cbn [snd] in *.
  destruct (token_entry _ _ _ p t' Hw Hin) as (e & He & Hpe & -> & ->).
  apply list_elem_of_split in Hin as (T1 & T2 & ->). pose proof Hw as (HV & Ht & Ha). cbn [w_reqs w_st w_out w_vals] in *.
  destruct (complete_spec key_eq n st L ca e value err HV He Hpe)
    as (st1 & e' & L1 & Hc & _ & HV1 & _ & Htk & Hacc & _ & Hdom & _ & _ & _ & _ & Herr & Hkeep).
  assert (Hw1 : winv (World n st1 (T1 ++ T2) (option_list value ++ vs)) L1 ca).
  { split; [done|]. split; cbn; [|by rewrite Hacc, Ha]. rewrite Htk, <-Permutation_middle in Ht. by apply Permutation_cons_inv in Ht. }
  assert (Hp1 : l.*1.*1 ≡ₚ (T1 ++ T2).*2) by (rewrite <-Permutation_middle in Hp; cbn in Hp; by apply Permutation_cons_inv in Hp).
  destruct (IH st1 (T1 ++ T2) (option_list value ++ vs) L1 Hw1 Hp1) as (st' & L' & vs' & Hf & Hr & Hw' & Hd' & Hz').
  exists st', L', vs'. cbn [finish]. rewrite Hc. cbn [mbind option_bind]. split; [done|]. split.
  { eapply rtc_l; [|exact Hr]. by eapply StepComplete. }
  split; [done|]. split; [congruence|]. intros g. rewrite Hz', Herr. cbn [existsb fst snd]. rewrite (awaits_entry _ _ _ _ _ g HV He), <-orb_assoc. do 2 f_equal.
  (* the fetches that are left have the waiters they had *)
  assert (Hsame : forall r, r ∈ l -> awaits st1 (fst (fst r)) g = awaits st (fst (fst r)) g).
  { intros r Hr'. assert (Hin : fst (fst r) ∈ (T1 ++ T2).*2) by (rewrite <-Hp1; apply list_elem_of_fmap; exists (fst r); split; [done|]; apply list_elem_of_fmap; by exists r).
    apply list_elem_of_fmap in Hin as ([p t'] & E & Hin). cbn [snd] in E. rewrite E. destruct (token_entry _ _ _ p t' Hw1 Hin) as (x & Hx & Hpx & _ & ->).
    by rewrite (awaits_entry _ _ _ _ _ g HV1 Hx), (awaits_entry _ _ _ _ _ g HV (Hkeep x Hx Hpx)). }
  clear -Hsame. induction l as [|r l IH]; [done|]. cbn [existsb]. rewrite (Hsame r) by left. f_equal. apply IH. intros r' Hr'. apply Hsame. by right.
Qed.

(** ** Pinned entries over time *)

Lemma rtc_watermark w w' L ca : winv w L ca -> rtc pstep w w' -> watermark (pc (w_st w)) <= watermark (pc (w_st w')).
Proof.
  intros Hw Hr. revert L ca Hw. induction Hr as [w|a b c Hs _ IH]; intros L ca Hw; [done|].
  destruct (step_moves _ _ _ _ Hw Hs) as (L2 & ca2 & Hw2 & _ & Hle). specialize (IH _ _ Hw2). lia.
Qed.

(** An entry that a sample at or past the watermark owns stays. *)
Lemma owned_stays w w' L ca e o :
  winv w L ca -> rtc pstep w w' -> e ∈ L -> o <= max_owner_id (snd e) -> watermark (pc (w_st w')) <= o ->
  exists L' ca' e', winv w' L' ca' /\ e' ∈ L' /\ later e e'.
Proof.
  intros Hw Hr. revert L ca e Hw. induction Hr as [w|w1 w2 w3 Hs Hr IH]; intros L ca e Hw He Ho Hwm; [by exists L, ca, e|].
  destruct (step_moves _ _ _ _ Hw Hs) as (L' & ca' & Hw' & Hev & Hle).
  pose proof (rtc_watermark _ _ _ _ Hw' Hr) as Hmono.
  destruct Hw as (HV & _ & _). pose proof (v_owned _ _ _ _ _ HV) as Hown. rewrite Forall_forall in Hown.
  destruct (Hev e He) as (e1 & He1 & Hl1); [apply Hown; [done|lia]|].
  destruct (IH L' ca' e1 Hw' He1) as (L2 & ca2 & e2 & Hw2 & He2 & Hl2); [pose proof (l_owner _ _ Hl1); lia|done|].
  exists L2, ca2, e2. split; [done|]. split; [done|]. by etrans.
Qed.
End history.

(** ** The theorems *)

(** A cache whose gates no other cache uses. *)
Definition no_others : OtherWaiters.
Proof. by exists (fun _ => 0). Defined.
#[local] Existing Instance no_others.

Section claims.
Context {K V : Type} (key_eq : K -> K -> bool) `{!KeyEquiv key_eq}.
Implicit Types w : @world K V.

Lemma single_inv cfg w : config_small cfg -> history key_eq cfg w -> exists L ca, winv key_eq w L ca.
Proof. by apply history_inv. Qed.
Lemma expected_single (L : list (item (ptr * K) * prefetch_slot K V)) g : expected L g = waiting L g.
Proof. apply Z.add_0_r. Qed.

(** C36: in every history of requests, completions in any order, watermark moves and
    gates that come and go, no operation uses a slot that was freed or leaves an
    array: every request with a live gate and free memory returns, every outstanding
    fetch can be started, refused or ended, and every query returns. The statistics
    count exactly the outstanding fetches, and exactly the cached entries are
    allocated. *)
Theorem prefetch_cache_safe cfg w :
  config_small cfg -> history key_eq cfg w ->
  (forall mem hash key owner gate, w_reqs w + 1 < 2 ^ 31 -> (forall g, gate = Some g -> is_Some (gates (w_st w) !! g)) ->
     (forall p, slot_mem mem = Some p -> heap (w_st w) !! p = None) ->
     is_Some (request_locked key_eq mem (w_st w) hash key owner gate)) /\
  (forall p t, (p, t) ∈ w_out w ->
     (forall how, is_Some (launch (w_st w) p t how)) /\
     (forall rc value err, is_Some (prefetch_fetch_worker (w_st w) p (c_generation t) rc value err)) /\
     (forall value err, is_Some (prefetch_cache_complete (w_st w) t value err))) /\
  (forall m, is_Some (prefetch_cache_advance_watermark (w_st w) m)) /\
  (forall h, 0 <= h_slot h -> is_Some (prefetch_cache_query (w_st w) h) /\ is_Some (prefetch_cache_try_get (w_st w) h)) /\
  (forall hash key, is_Some (prefetch_cache_peek key_eq (w_st w) hash key)) /\
  exists s, prefetch_cache_stats_get (w_st w) = Some s /\ ps_pending s = zlen (w_out w) /\
    ps_size s = Z.of_nat (base.size (heap (w_st w))) /\ ps_size s <= ps_capacity s.
Proof.
  intros Hcfg Hh. destruct (single_inv cfg w Hcfg Hh) as (L & ca & Hw). pose proof Hw as (HV & Ht & _). split_and!.
  - intros mem hash key owner gate Hn Hg Hm.
    destruct (request_locked_spec key_eq _ mem _ L ca hash key owner gate HV Hn Hg Hm) as (st' & out & _ & _ & -> & _). by eexists.
  - intros p t Hin. destruct (token_entry key_eq _ _ _ p t Hw Hin) as (e & He & Hp & -> & ->).
    assert (Hc : forall value err, is_Some (prefetch_cache_complete (w_st w) (token_of e) value err)).
    { intros value err. destruct (complete_spec key_eq _ _ _ _ e value err HV He Hp) as (st' & _ & _ & -> & _). by eexists. }
    split_and!; [|intros rc value err; change (c_generation (token_of e)) with (generation (snd e));
      rewrite (worker_spec key_eq _ _ L ca) by done; apply Hc|done].
    intros how. rewrite (launch_spec key_eq _ _ L ca) by done. destruct (launch_error how); [apply Hc|by eexists].
  - intros m. destruct (advance_spec key_eq _ _ _ _ m HV) as (st' & _ & _ & -> & _). by eexists.
  - intros h. by apply (query_total key_eq _ _ _ _ h HV).
  - intros hash key. by apply (peek_total key_eq _ _ _ _ hash key HV).
  - destruct (stats_spec key_eq _ _ _ _ HV) as (s & Hs & H1 & H2 & H3). exists s. split; [done|].
    rewrite (heap_size key_eq _ _ _ _ HV), <-Ht. done.
Qed.

(** C37: no waiter is forgotten, in histories of fewer than 2^31 requests. A gate is
    ready exactly when it waits for no outstanding fetch. Completing the outstanding
    fetches, in any order and with any results, leaves every gate ready, and a gate has
    an error afterwards exactly when it had one before or waited for a fetch that
    failed. *)
Theorem prefetch_gates_drain cfg w l :
  config_small cfg -> history key_eq cfg w -> l.*1.*1 ≡ₚ (w_out w).*2 ->
  exists st' vs', finish (w_st w) l = Some st' /\ history key_eq cfg (World (w_reqs w) st' [] vs') /\
    forall g, is_Some (gates (w_st w) !! g) ->
      prefetch_gate_is_ready (w_st w) (Some g) = Some (negb (existsb (fun t => awaits (w_st w) t g) (w_out w).*2)) /\
      prefetch_gate_is_ready st' (Some g) = Some true /\
      exists b, prefetch_gate_has_error (w_st w) (Some g) = Some b /\
        prefetch_gate_has_error st' (Some g) = Some (b || existsb (fun r => negb (snd r =? 0) && awaits (w_st w) (fst (fst r)) g) l).
Proof.
  intros Hcfg Hh Hl. destruct (single_inv cfg w Hcfg Hh) as (L & ca & Hw). destruct w as [n st T vs]. cbn [w_reqs w_st w_out] in *.
  destruct (finish_drains key_eq l n st T vs L ca Hw Hl) as (st' & L' & vs' & Hf & Hr & (HV' & Ht' & _) & Hd & Hz).
  exists st', vs'. split; [done|]. split; [destruct Hh as (c & Hc & Hr0); exists c; split; [done|by etrans]|].
  intros g Hg. assert (is_Some (gates st' !! g)) as Hg' by (by rewrite <-elem_of_dom, Hd, elem_of_dom).
  pose proof Hw as (HV & Ht & _). cbn [w_reqs w_st w_out] in *. apply Permutation_nil_r in Ht'.
  destruct (cache_destroy_spec key_eq _ _ _ _ HV' Ht') as (_ & _ & _ & _ & _ & Hzero).
  destruct (gate_ready key_eq _ _ _ _ g HV Hg) as (R1 & _ & R3). destruct (gate_ready key_eq _ _ _ _ g HV' Hg') as (R1' & _ & R3').
  rewrite R1, R1', R3, R3', !expected_single, Hzero, Hz. split; [|split; [done|by eexists]].
  pose proof (waiting_awaits key_eq _ _ _ g Hw) as Hiff. cbn in Hiff. pose proof (waiting_nonneg L g). f_equal. destruct (existsb _ _) eqn:Ex; cbn.
  - apply existsb_exists in Ex as (t & Hin & Haw). apply Z.eqb_neq. apply list_elem_of_In in Hin. assert (0 < waiting L g) by (apply Hiff; eauto). lia.
  - apply Z.eqb_eq. destruct (decide (0 < waiting L g)) as [Hpos|]; [|lia]. apply Hiff in Hpos as (t & Hin & Haw). rewrite (proj2 (existsb_exists _ _)) in Ex; [done|]. exists t. split; [by apply list_elem_of_In|done].
Qed.

(** C38: the handle of a request that succeeded, made for a sample at [owner], stands
    for the entry of that key, whatever other requests, evictions and completions
    happen, until the watermark passes [owner]: a state that was read once and is no
    longer pending is read again unchanged. *)
Theorem prefetch_handle_stable cfg n st T vs mem hash key owner gate st1 r w2 w3 :
  config_small cfg -> history key_eq cfg (World n st T vs) ->
  n + 1 < 2 ^ 31 -> (forall g, gate = Some g -> is_Some (gates st !! g)) ->
  (forall p, slot_mem mem = Some p -> heap st !! p = None) ->
  request_locked key_eq mem st hash key owner gate = Some (st1, r) ->
  let h := match r with Answered a => r_handle a | Launch _ _ h => h end in
  let T1 := match r with Launch p t _ => (p, t) :: T | Answered _ => T end in
  (forall a, r = Answered a -> r_status a = DAMACY_OK) ->
  rtc (pstep key_eq) (World (n + 1) st1 T1 vs) w2 -> rtc (pstep key_eq) w2 w3 -> watermark (pc (w_st w3)) <= owner ->
  exists p s a b, resolve_handle (w_st w3) h = Some (Some p) /\ heap (w_st w3) !! p = Some s /\
    key_hash s = hash /\ key_eq (s_key s) key = true /\
    prefetch_cache_query (w_st w2) h = Some a /\ prefetch_cache_query (w_st w3) h = Some b /\
    (fst (fst a) <> PREFETCH_STATE_PENDING -> b = a).
Proof.
  intros Hcfg Hh Hn Hg Hm Hreq h T1 Hok Hr2 Hr3 Hwm. destruct (single_inv _ _ Hcfg Hh) as (L & ca & HV & Ht & Ha).
  cbn [w_reqs w_st w_out w_vals] in *.
  destruct (request_locked_spec key_eq n mem st L ca hash key owner gate HV Hn Hg Hm)
    as (st2 & out2 & L1 & ca1 & Hs' & HV1 & _ & Hans & Hacc & _). rewrite Hreq in Hs'. injection Hs' as <- <-.
  assert (exists e, e ∈ L1 /\ h = handle_of e /\ key_hash (snd e) = hash /\ key_eq (s_key (snd e)) key = true /\
    owner <= max_owner_id (snd e) /\ tokens L1 ≡ₚ T1) as (e & He & -> & Hhash & Hkey & Ho & HT1).
  { subst h T1. destruct r as [a|p t h]; cbn in Hans.
    - destruct Hans as (H1 & H2 & _). destruct (H2 (Hok a eq_refl)) as (e & ? & ? & ? & ? & ? & _). exists e. by rewrite H1, Ht.
    - destruct Hans as (e & ? & _ & _ & ? & _ & HT & ? & Hk & ? & _). exists e. rewrite HT, Ht. split_and!; try done.
      rewrite Hk. apply ke_refl. }
  assert (Hw1 : winv key_eq (World (n + 1) st1 T1 vs) L1 ca1) by (split; [done|]; split; [done|]; cbn; by rewrite Hacc).
  assert (Hwm2 : watermark (pc (w_st w2)) <= owner).
  { destruct (rtc_moves key_eq _ _ _ _ Hw1 Hr2) as (L2 & ca2 & Hw2). pose proof (rtc_watermark key_eq _ _ _ _ Hw2 Hr3). lia. }
  destruct (owned_stays key_eq _ _ _ _ e owner Hw1 Hr2 He Ho Hwm2) as (L2 & ca2 & e2 & Hw2 & He2 & Hl2).
  destruct (owned_stays key_eq _ _ _ _ e2 owner Hw2 Hr3 He2) as (L3 & ca3 & e3 & Hw3 & He3 & Hl3); [pose proof (l_owner _ _ Hl2); lia|done|].
  destruct Hw2 as (HV2 & _ & _), Hw3 as (HV3 & _ & _).
  destruct (query_entry key_eq _ _ _ _ _ HV2 He2) as [Hq2 _]. destruct (query_entry key_eq _ _ _ _ _ HV3 He3) as [Hq3 _].
  destruct (pinv_entry key_eq _ _ _ _ e3 HV3 He3) as (_ & Hp3 & _). destruct (l_key _ _ Hl2), (l_key _ _ Hl3).
  pose proof (resolve_entry _ _ _ _ (v_core _ _ _ _ _ HV3) He3) as Hres.
  rewrite (l_handle _ _ Hl2) in Hq2. rewrite (l_handle _ _ Hl3), (l_handle _ _ Hl2) in Hq3, Hres.
  exists (eptr e3), (snd e3), (reading e2), (reading e3). split_and!; try done; try congruence.
  - intros Hnp. destruct (l_state _ _ Hl3) as (E1 & E2 & E3); [intros Hp; apply Hnp; unfold reading; by rewrite Hp|].
    unfold reading. by rewrite E1, E2, E3.
Qed.

(** C39: [prefetch_cache_destroy], once no fetch is outstanding, frees every slot, and
    every value that any fetch of the history produced has then been released exactly
    once; the gates are left alone. *)
Theorem prefetch_cache_destroy_releases cfg w :
  config_small cfg -> history key_eq cfg w -> w_out w = [] ->
  exists st', prefetch_cache_destroy (w_st w) = Some st' /\ heap st' = ∅ /\ values_freed st' ≡ₚ w_vals w /\ gates st' = gates (w_st w).
Proof.
  intros Hcfg Hh Hout. destruct (single_inv cfg w Hcfg Hh) as (L & ca & HV & Ht & Ha). rewrite Hout in Ht. apply Permutation_nil_r in Ht.
  destruct (cache_destroy_spec key_eq _ _ _ _ HV Ht) as (st' & Hd & Hh' & Hv & Hg & _). exists st'. by rewrite Hv, Ha.
Qed.
End claims.

(** ** A short history: one gate, one request, its fetch *)

Module PrefetchExample.

#[export] Instance Z_keys : KeyEquiv Z.eqb.
Proof.
  split; [apply Z.eqb_refl|]. intros a b c d <-%Z.eqb_eq <-%Z.eqb_eq. done.
Qed.

Definition ex_cfg : prefetch_cache_config := PConfig 2 8 true None None (Some true).
Definition ex_cache : prefetch_cache Z :=
  match prefetch_cache_create (fun _ => true) ex_cfg with
  | Some (Some c) => c
  | _ => PCache (Lru [] 0 0 (Index [] 0 0 0 0) (Link Null Null) (Link Null Null) zero_counters []) 0 0 [] [] 0 0 0 0 0
  end.
Definition ex_st0 : pst Z Z := PState ex_cache ∅ ∅ [] [].
Definition ex_st1 : pst Z Z := prefetch_gate_init ex_st0 (Some 1%positive).
Definition ex_mem : request_memory := Memory true (Some 5%positive) true.
Definition ex_st2 : pst Z Z :=
  match request_locked Z.eqb ex_mem ex_st1 40 7 3 (Some 1%positive) with Some (st, _) => st | None => ex_st1 end.
Definition ex_token : prefetch_completion := Completion 1 1.
Definition ex_st3 : pst Z Z :=
  match prefetch_cache_complete ex_st2 ex_token (Some 99) 0 with Some st => st | None => ex_st2 end.

Lemma ex_small : config_small ex_cfg.
Proof. split; vm_compute; [congruence|split; congruence]. Qed.
Lemma ex_request : request_locked Z.eqb ex_mem ex_st1 40 7 3 (Some 1%positive) = Some (ex_st2, Launch 5 ex_token (Handle 1 1)).
Proof. vm_compute. reflexivity. Qed.
Lemma ex_complete : prefetch_cache_complete ex_st2 ex_token (Some 99) 0 = Some ex_st3.
Proof. vm_compute. reflexivity. Qed.
Lemma ex_gate g : Some 1%positive = Some g -> is_Some (gates ex_st1 !! g).
Proof. intros [= <-]. vm_compute. by eexists. Qed.
Lemma ex_unused p : slot_mem ex_mem = Some p -> heap ex_st1 !! p = None.
Proof. by intros [= <-]. Qed.

Definition ex_w1 : world := World 0 ex_st1 [] [].
Definition ex_w2 : world := World 1 ex_st2 [(5%positive, ex_token)] [].
Definition ex_w3 : world := World 1 ex_st3 [] [99].

Lemma ex_history1 : history Z.eqb ex_cfg ex_w1.
Proof.
  exists ex_cache. split; [vm_compute; reflexivity|]. eapply rtc_once. apply (StepGateInit Z.eqb 0 ex_st0). left. vm_compute. reflexivity.
Qed.
Lemma ex_step2 : pstep Z.eqb ex_w1 ex_w2.
Proof. exact (StepRequest Z.eqb 0 ex_st1 [] [] ex_mem 40 7 3 (Some 1%positive) ex_st2 _ eq_refl ex_gate ex_unused ex_request). Qed.
Lemma ex_step3 : pstep Z.eqb ex_w2 ex_w3.
Proof. exact (StepComplete Z.eqb 1 ex_st2 [] 5 ex_token [] [] (Some 99) 0 ex_st3 ex_complete). Qed.
Lemma ex_history2 : history Z.eqb ex_cfg ex_w2.
Proof. destruct ex_history1 as (c & Hc & Hr). exists c. split; [done|]. eapply rtc_r; [exact Hr|apply ex_step2]. Qed.
Lemma ex_history3 : history Z.eqb ex_cfg ex_w3.
Proof. destruct ex_history2 as (c & Hc & Hr). exists c. split; [done|]. eapply rtc_r; [exact Hr|apply ex_step3]. Qed.

Lemma prefetch_cache_safe_witness :
  exists s, prefetch_cache_stats_get (w_st ex_w2) = Some s /\ ps_pending s = zlen (w_out ex_w2) /\
    ps_size s = Z.of_nat (base.size (heap (w_st ex_w2))) /\ ps_size s <= ps_capacity s.
Proof.
  destruct (prefetch_cache_safe Z.eqb ex_cfg ex_w2 ex_small ex_history2) as (_ & _ & _ & _ & _ & H). exact H.
Defined.

(** The gate waits for the fetch; its failure readies the gate with an error. *)
Lemma prefetch_gates_drain_witness :
  prefetch_gate_is_ready (w_st ex_w2) (Some 1%positive) = Some false /\
  exists st' vs', finish (w_st ex_w2) [(ex_token, None, 6)] = Some st' /\
    history Z.eqb ex_cfg (World (w_reqs ex_w2) st' [] vs') /\ prefetch_gate_is_ready st' (Some 1%positive) = Some true /\
    prefetch_gate_has_error st' (Some 1%positive) = Some true.
Proof.
  assert (H0 : prefetch_gate_is_ready (w_st ex_w2) (Some 1%positive) = Some false) by (vm_compute; reflexivity).
  split; [exact H0|].
  destruct (prefetch_gates_drain Z.eqb ex_cfg ex_w2 [(ex_token, None, 6)] ex_small ex_history2) as (st' & vs' & Hf & Hh & Hg); [done|].
  exists st', vs'. destruct (Hg 1%positive) as (_ & H1 & b & _ & H2); [vm_compute; by eexists|].
  split; [exact Hf|]. split; [exact Hh|]. split; [exact H1|]. rewrite H2. assert (Ha : awaits (w_st ex_w2) ex_token 1%positive = true) by (vm_compute; reflexivity).
  cbn [existsb fst snd]. rewrite Ha, orb_false_r. cbn. by rewrite orb_true_r.
Defined.

Lemma prefetch_handle_stable_witness :
  watermark (pc (w_st ex_w3)) <= 3 /\
  exists p s a b, resolve_handle (w_st ex_w3) (Handle 1 1) = Some (Some p) /\ heap (w_st ex_w3) !! p = Some s /\ key_hash s = 40 /\
    Z.eqb (s_key s) 7 = true /\ prefetch_cache_query (w_st ex_w3) (Handle 1 1) = Some a /\
    prefetch_cache_query (w_st ex_w3) (Handle 1 1) = Some b /\ (fst (fst a) <> PREFETCH_STATE_PENDING -> b = a).
Proof.
  assert (Hw : watermark (pc (w_st ex_w3)) <= 3) by (vm_compute; congruence). split; [exact Hw|].
  refine (prefetch_handle_stable Z.eqb ex_cfg 0 ex_st1 [] [] ex_mem 40 7 3 (Some 1%positive) ex_st2
    (Launch 5 ex_token (Handle 1 1)) ex_w3 ex_w3 ex_small ex_history1 eq_refl ex_gate ex_unused ex_request _ _ _ Hw).
  - intros a Ha. congruence.
  - apply rtc_once, ex_step3.
  - apply rtc_refl.
Defined.

Lemma prefetch_cache_destroy_releases_witness :
  exists st', prefetch_cache_destroy (w_st ex_w3) = Some st' /\ heap st' = ∅ /\ values_freed st' ≡ₚ w_vals ex_w3 /\
    gates st' = gates (w_st ex_w3).
Proof. exact (prefetch_cache_destroy_releases Z.eqb ex_cfg ex_w3 ex_small ex_history3 eq_refl). Defined.
End PrefetchExample.
