(* ===== verification/Crc.v ===== *)
(** * CRC-32C

    [src/src/util/crc32c.c]: the table-driven checksum, its equality with the
    bit-at-a-time definition, and that it changes whenever a single byte of the
    message does. A byte is a [Z] in [[0, 256)]. *)

From S2P Require Import Prelude.

#[local] Open Scope Z_scope.

Definition crc32c_poly : Z := 0x82F63B78.

(** One round of the inner loop of [crc32c_init]. *)
Definition crc_bit (crc : Z) : Z :=
  Z.lxor (Z.shiftr crc 1) (Z.land crc32c_poly (u32 (0 - Z.land crc 1))).

Fixpoint crc_bits (n : nat) (crc : Z) : Z :=
  match n with
  | O => crc
  | S n => crc_bits n (crc_bit crc)
  end.

Fixpoint crc_fill (n : nat) (table : list Z) (i : Z) : option (list Z) :=
  match n with
  | O => Some table
  | S n => table ← aset table i (crc_bits 8 i); crc_fill n table (i + 1)
  end.

Definition crc32c_init (table : list Z) : option (list Z) := crc_fill 256 table 0.

(** [for (i = 0; i < len; ++i)] over the bytes from [i]. *)
Fixpoint crc_loop (n : nat) (table p : list Z) (i crc : Z) : option Z :=
  match n with
  | O => Some crc
  | S n =>
      b ← aget p i;
      t ← aget table (Z.land (Z.lxor crc b) 0xFF);
      crc_loop n table p (i + 1) (Z.lxor t (Z.shiftr crc 8))
  end.

(** The static table starts as zeros and is filled once. *)
Definition crc32c (data : list Z) (len : Z) : option Z :=
  table ← crc32c_init (repeat 0 256);
  crc ← crc_loop (Z.to_nat len) table data 0 UINT32_MAX;
  Some (Z.lxor crc UINT32_MAX).

(** ** Reference *)

(** Eight shifts of the register for each byte. *)
Definition crc_byte (crc b : Z) : Z := crc_bits 8 (Z.lxor crc b).
Definition crc_reference (data : list Z) : Z := Z.lxor (foldl crc_byte UINT32_MAX data) UINT32_MAX.

Definition byte (b : Z) : Prop := 0 <= b < 256.

(** ** The register *)

Lemma lxor_u32 a b : is_u32 a -> is_u32 b -> is_u32 (Z.lxor a b).
Proof.
  unfold is_u32. intros Ha Hb. split; [apply Z.lxor_nonneg; lia|].
  destruct (Z.eq_dec (Z.lxor a b) 0) as [->|Hne]; [done|].
  assert (0 <= Z.lxor a b) by (apply Z.lxor_nonneg; lia).
  apply Z.log2_lt_pow2; [lia|]. eapply Z.le_lt_trans; [apply Z.log2_lxor; lia|].
  apply Z.max_lub_lt.
  - destruct (Z.eq_dec a 0) as [->|]; [done|]. apply Z.log2_lt_pow2; lia.
  - destruct (Z.eq_dec b 0) as [->|]; [done|]. apply Z.log2_lt_pow2; lia.
Qed.

Lemma byte_u32 b : byte b -> is_u32 b.
Proof. unfold byte. clia. Qed.
#[export] Hint Resolve lxor_u32 byte_u32 : damacy.

Lemma poly_u32 : is_u32 crc32c_poly.
Proof. done. Qed.

(** The mask [-(crc & 1)] selects the polynomial or nothing. *)
Lemma crc_bit_odd crc : crc_bit crc = if Z.odd crc then Z.lxor (Z.shiftr crc 1) crc32c_poly else Z.shiftr crc 1.
Proof.
  unfold crc_bit. change 1 with (Z.ones 1) at 2. rewrite Z.land_ones by done. change (2 ^ 1) with 2.
  rewrite Zmod_odd. by destruct (Z.odd crc); [|apply Z.lxor_0_r].
Qed.

Lemma crc_bit_lxor a b : crc_bit (Z.lxor a b) = Z.lxor (crc_bit a) (crc_bit b).
Proof.
  rewrite !crc_bit_odd, Z.shiftr_lxor. rewrite <-!Z.bit0_odd, Z.lxor_spec.
  apply Z.bits_inj'. intros n Hn.
  destruct (Z.testbit a 0), (Z.testbit b 0); cbn [xorb]; rewrite !Z.lxor_spec;
    by destruct (Z.testbit (Z.shiftr a 1) n), (Z.testbit (Z.shiftr b 1) n), (Z.testbit crc32c_poly n).
Qed.

Lemma crc_bits_lxor n a b : crc_bits n (Z.lxor a b) = Z.lxor (crc_bits n a) (crc_bits n b).
Proof. revert a b. induction n as [|n IH]; intros a b; cbn; [done|]. by rewrite crc_bit_lxor, IH. Qed.

Lemma crc_bit_u32 a : is_u32 a -> is_u32 (crc_bit a).
Proof.
  intros Ha. assert (is_u32 (Z.shiftr a 1)).
  { rewrite Z.shiftr_div_pow2 by done. unfold is_u32 in *. change (2 ^ 1) with 2. dlia. }
  rewrite crc_bit_odd. destruct (Z.odd a); [|done]. by apply lxor_u32.
Qed.

Lemma crc_bits_u32 n a : is_u32 a -> is_u32 (crc_bits n a).
Proof. revert a. induction n as [|n IH]; intros a Ha; cbn; [done|]. by apply IH, crc_bit_u32. Qed.

(** Zero bits are only shifted out. *)
Lemma crc_bits_shift (n : nat) h : 0 <= h -> crc_bits n (Z.shiftl h (Z.of_nat n)) = h.
Proof.
  revert h. induction n as [|n IH]; intros h Hh; cbn [crc_bits]; [by rewrite Z.shiftl_0_r|].
  rewrite crc_bit_odd, <-Z.bit0_odd, Z.shiftl_spec_low by lia.
  rewrite Z.shiftr_shiftl_l by lia. replace (Z.of_nat (S n) - 1) with (Z.of_nat n) by lia. by apply IH.
Qed.

(** ** The table *)

Definition crc_table : list Z := Eval vm_compute in crc_bits 8 <$> seqZ 0 256.

Lemma crc32c_init_table : crc32c_init (repeat 0 256) = Some crc_table.
Proof. vm_compute. reflexivity. Qed.

Lemma crc_table_eq : crc_table = crc_bits 8 <$> seqZ 0 256.
Proof. vm_compute. reflexivity. Qed.

Lemma crc_table_get i : byte i -> aget crc_table i = Some (crc_bits 8 i).
Proof.
  intros Hi. unfold byte in Hi. rewrite crc_table_eq. apply aget_lookup. split; [lia|].
  rewrite list_lookup_fmap, lookup_seqZ_lt by lia. cbn -[crc_bits]. do 2 f_equal. lia.
Qed.

Lemma land_byte x : Z.land x 0xFF = x mod 256.
Proof. change 0xFF with (Z.ones 8). by rewrite Z.land_ones. Qed.

Lemma byte_split x : 0 <= x -> x = Z.lxor (x mod 256) (Z.shiftl (Z.shiftr x 8) 8).
Proof.
  intros Hx. apply Z.bits_inj'. intros n Hn. rewrite Z.lxor_spec. change 256 with (2 ^ 8).
  destruct (decide (n < 8)).
  - rewrite Z.mod_pow2_bits_low, Z.shiftl_spec_low by lia. by rewrite xorb_false_r.
  - rewrite Z.mod_pow2_bits_high, Z.shiftl_spec, Z.shiftr_spec by lia. cbn. f_equal. lia.
Qed.

Lemma shiftr_byte b : byte b -> Z.shiftr b 8 = 0.
Proof. intros Hb. rewrite Z.shiftr_div_pow2 by done. unfold byte in Hb. apply Z.div_small. done. Qed.

Lemma crc_top_nodup : NoDup ((fun i => Z.shiftr (crc_bits 8 i) 24) <$> seqZ 0 256).
Proof. apply (bool_decide_unpack _). vm_compute. exact I. Qed.

(** One look-up is eight shifts. *)
Lemma crc_byte_table crc b :
  is_u32 crc -> byte b ->
  crc_byte crc b = Z.lxor (crc_bits 8 (Z.land (Z.lxor crc b) 0xFF)) (Z.shiftr crc 8).
Proof.
  intros Hc Hb. unfold crc_byte. rewrite land_byte.
  assert (is_u32 (Z.lxor crc b)) as Hx by auto with damacy.
  rewrite (byte_split (Z.lxor crc b)) at 1 by (unfold is_u32 in Hx; lia).
  rewrite crc_bits_lxor. f_equal. rewrite (crc_bits_shift 8).
  - by rewrite Z.shiftr_lxor, (shiftr_byte b Hb), Z.lxor_0_r.
  - apply Z.shiftr_nonneg. unfold is_u32 in Hx. lia.
Qed.

#[local] Opaque crc_bits.

Lemma crc_byte_u32 crc b : is_u32 crc -> byte b -> is_u32 (crc_byte crc b).
Proof. intros Hc Hb. apply crc_bits_u32. auto with damacy. Qed.

Lemma crc_loop_spec n : forall p i crc,
  Forall byte p -> is_u32 crc -> 0 <= i -> i + Z.of_nat n <= zlen p ->
  crc_loop n crc_table p i crc = Some (foldl crc_byte crc (take n (drop (Z.to_nat i) p))).
Proof.
  induction n as [|n IH]; intros p i crc Hp Hc Hi Hn; cbn [crc_loop]; [by rewrite take_0|].
  destruct (aget_is_Some p i) as [b Hb]; [lia|]. rewrite Hb. cbn [mbind option_bind].
  pose proof (Forall_aget _ _ _ _ Hp Hb) as Hby.
  rewrite crc_table_get by (rewrite land_byte; apply Z.mod_pos_bound; done). cbn [mbind option_bind].
  rewrite <-crc_byte_table by done. rewrite IH by (try done; try lia; by apply crc_byte_u32).
  apply aget_lookup in Hb as [_ Hb]. rewrite (drop_S _ _ _ Hb). cbn [take foldl].
  by replace (Z.to_nat (i + 1)) with (S (Z.to_nat i)) by lia.
Qed.

(** The checksum of a message. *)
Lemma crc32c_spec data n :
  Forall byte data -> 0 <= n <= zlen data ->
  crc32c data n = Some (crc_reference (take (Z.to_nat n) data)).
Proof.
  intros Hd Hn. unfold crc32c. rewrite crc32c_init_table. cbn [mbind option_bind].
  rewrite crc_loop_spec by (try done; lia). cbn [mbind option_bind]. by rewrite drop_0.
Qed.

(** ** Single-byte errors *)

(** The top byte of a table entry determines its index. *)
Lemma crc_table_top a b :
  byte a -> byte b -> Z.shiftr (crc_bits 8 a) 24 = Z.shiftr (crc_bits 8 b) 24 -> a = b.
Proof.
  intros Ha Hb. unfold byte in *. intros He.
  assert (NoDup ((fun i => Z.shiftr (crc_bits 8 i) 24) <$> seqZ 0 256)) as Hnd.
  { exact crc_top_nodup. }
  rewrite NoDup_alt in Hnd. specialize (Hnd (Z.to_nat a) (Z.to_nat b) (Z.shiftr (crc_bits 8 a) 24)).
  rewrite !list_lookup_fmap, !lookup_seqZ_lt in Hnd by lia. cbn -[crc_bits] in Hnd.
  rewrite !Z2Nat.id, !Z.add_0_l in Hnd by lia. rewrite He in Hnd. specialize (Hnd eq_refl eq_refl). lia.
Qed.

Lemma shiftr_24_8 crc : is_u32 crc -> Z.shiftr (Z.shiftr crc 8) 24 = 0.
Proof.
  intros Hc. rewrite Z.shiftr_shiftr by done. cbn. rewrite Z.shiftr_div_pow2 by done. apply Z.div_small. exact Hc.
Qed.

(** The register before a byte is determined by the one after it. *)
Lemma crc_byte_inj crc crc' b :
  is_u32 crc -> is_u32 crc' -> byte b -> crc_byte crc b = crc_byte crc' b -> crc = crc'.
Proof.
  intros Hc Hc' Hb. rewrite !crc_byte_table by done. intros He.
  assert (Z.land (Z.lxor crc b) 0xFF = Z.land (Z.lxor crc' b) 0xFF) as Hl.
  { apply crc_table_top.
    - rewrite land_byte. by apply Z.mod_pos_bound.
    - rewrite land_byte. by apply Z.mod_pos_bound.
    - apply (f_equal (fun x => Z.shiftr x 24)) in He. rewrite !Z.shiftr_lxor, !shiftr_24_8, !Z.lxor_0_r in He by done. done. }
  rewrite Hl in He. apply (f_equal (Z.lxor (crc_bits 8 (Z.land (Z.lxor crc' b) 0xFF)))) in He.
  rewrite <-!Z.lxor_assoc, Z.lxor_nilpotent, !Z.lxor_0_l in He. rewrite !land_byte in Hl.
  assert (Z.lxor crc b = Z.lxor crc' b) as Hx.
  { rewrite (byte_split (Z.lxor crc b)), (byte_split (Z.lxor crc' b)); [|unfold is_u32 in *; apply Z.lxor_nonneg; unfold byte in Hb; lia..].
    by rewrite Hl, !Z.shiftr_lxor, He. }
  apply (f_equal (fun x => Z.lxor x b)) in Hx. by rewrite !Z.lxor_assoc, Z.lxor_nilpotent, !Z.lxor_0_r in Hx.
Qed.

Lemma crc_fold_inj l : forall crc crc',
  is_u32 crc -> is_u32 crc' -> Forall byte l -> foldl crc_byte crc l = foldl crc_byte crc' l -> crc = crc'.
Proof.
  induction l as [|b l IH]; intros crc crc' Hc Hc' Hl; cbn; [done|]. apply Forall_cons in Hl as [Hb Hl]. intros He.
  apply IH in He; [|by apply crc_byte_u32..|done]. by eapply crc_byte_inj.
Qed.

Lemma crc_fold_u32 l : forall crc, is_u32 crc -> Forall byte l -> is_u32 (foldl crc_byte crc l).
Proof.
  induction l as [|b l IH]; intros crc Hc Hl; cbn; [done|]. apply Forall_cons in Hl as [Hb Hl].
  apply IH; [by apply crc_byte_u32|done].
Qed.

Lemma crc_bits8_inj a b : is_u32 a -> is_u32 b -> crc_bits 8 a = crc_bits 8 b -> a = b.
Proof.
  intros Ha Hb He. apply (crc_byte_inj a b 0); try done. unfold crc_byte. by rewrite !Z.lxor_0_r.
Qed.

(** Messages that differ in one byte have different checksums. *)
Lemma crc_single_byte l1 x y l2 :
  Forall byte (l1 ++ x :: l2) -> byte y -> x <> y ->
  crc_reference (l1 ++ x :: l2) <> crc_reference (l1 ++ y :: l2).
Proof.
  intros [H1 [Hx H2]%Forall_cons]%Forall_app Hy Hne He. unfold crc_reference in He. rewrite !foldl_app in He. cbn [foldl] in He.
  apply (f_equal (fun z => Z.lxor z UINT32_MAX)) in He. rewrite !Z.lxor_assoc, Z.lxor_nilpotent, !Z.lxor_0_r in He.
  assert (is_u32 (foldl crc_byte UINT32_MAX l1)) as Hc by (by apply crc_fold_u32).
  apply crc_fold_inj in He; [|by apply crc_byte_u32..|done].
  unfold crc_byte in He. apply crc_bits8_inj in He; [|auto with damacy..].
  apply Hne. apply (f_equal (Z.lxor (foldl crc_byte UINT32_MAX l1))) in He.
  by rewrite <-!Z.lxor_assoc, Z.lxor_nilpotent, !Z.lxor_0_l in He.
Qed.
