(* ===== verification/ShardFooter.v ===== *)
(** * The shard index

    [src/src/zarr/zarr_shard_index.c]: decoding the table of (offset, size) pairs
    of a shard with its trailing checksum, against the format described in
    [zarr_shard_index.h]. *)

From stdpp Require Import strings.
From S2P Require Import Prelude Strbuf Plan Crc.

#[local] Open Scope Z_scope.

Definition zarr_shard_index_size (n_entries : Z) : Z := u64 (u64 (n_entries * 16) + 4).

Fixpoint load_le_loop (n : nat) (p : list Z) (at_ i v : Z) : option Z :=
  match n with
  | O => Some v
  | S n =>
      b ← aget p (at_ + i);
      load_le_loop n p at_ (i + 1) (Z.lor v (u64 (Z.shiftl b (8 * i))))
  end.

Definition load_le_u64 (p : list Z) (at_ : Z) : option Z := load_le_loop 8 p at_ 0 0.

Definition load_le_u32 (p : list Z) (at_ : Z) : option Z :=
  b0 ← aget p at_;
  b1 ← aget p (at_ + 1);
  b2 ← aget p (at_ + 2);
  b3 ← aget p (at_ + 3);
  Some (Z.lor (Z.lor (Z.lor b0 (Z.shiftl b1 8)) (Z.shiftl b2 16)) (Z.shiftl b3 24)).

Fixpoint entries_loop (n : nat) (p : list Z) (i : Z) (entries : list zarr_shard_entry)
    : option (list zarr_shard_entry) :=
  match n with
  | O => Some entries
  | S n =>
      offset ← load_le_u64 p (i * 16);
      nbytes ← load_le_u64 p (i * 16 + 8);
      entries ← aset entries i (ShardEntry offset nbytes);
      entries_loop n p (i + 1) entries
  end.

(** The return code and the array; [buf] and [entries] are [None] for [NULL]. *)
Definition zarr_shard_index_parse (buf : option (list Z)) (buf_len n_entries : Z)
    (entries : option (list zarr_shard_entry)) : option (Z * option (list zarr_shard_entry)) :=
  match buf, entries with
  | Some p, Some es =>
      if negb (buf_len =? zarr_shard_index_size n_entries) then Some (1, entries)
      else
        got ← load_le_u32 p (u64 (n_entries * 16));
        expected ← crc32c p (u64 (n_entries * 16));
        if negb (got =? expected) then Some (1, entries)
        else
          es ← entries_loop (Z.to_nat n_entries) p 0 es;
          Some (0, Some es)
  | _, _ => Some (1, entries)
  end.

(** ** The format *)

(** [n] bytes, least significant first. *)
Fixpoint le_bytes (n : nat) (v : Z) : list Z :=
  match n with
  | O => []
  | S n => v mod 256 :: le_bytes n (v / 256)
  end.

Fixpoint le_value (l : list Z) : Z :=
  match l with
  | [] => 0
  | b :: l => b + 256 * le_value l
  end.

Definition entry_bytes (e : zarr_shard_entry) : list Z := le_bytes 8 (e_offset e) ++ le_bytes 8 (e_nbytes e).
Definition table_bytes (es : list zarr_shard_entry) : list Z := es ≫= entry_bytes.

(** A shard index on disk. *)
Definition shard_index_bytes (es : list zarr_shard_entry) : list Z :=
  table_bytes es ++ le_bytes 4 (crc_reference (table_bytes es)).

Definition entry_ok (e : zarr_shard_entry) : Prop := is_u64 (e_offset e) /\ is_u64 (e_nbytes e).

(** ** Little-endian numbers *)

Lemma length_le_bytes n v : length (le_bytes n v) = n.
Proof. revert v. induction n as [|n IH]; intros v; cbn; [done|]. by rewrite IH. Qed.

Lemma le_bytes_byte n v : Forall byte (le_bytes n v).
Proof. revert v. induction n as [|n IH]; intros v; cbn; constructor; [|done]. by apply Z.mod_pos_bound. Qed.

Lemma le_value_bytes n v : 0 <= v < 256 ^ Z.of_nat n -> le_value (le_bytes n v) = v.
Proof.
  revert v. induction n as [|n IH]; intros v Hv; cbn [le_bytes le_value].
  - change (256 ^ Z.of_nat 0) with 1 in Hv. lia.
  - rewrite Nat2Z.inj_succ, Z.pow_succ_r in Hv by lia. rewrite IH; [|split; [apply Z.div_pos; lia|apply Z.div_lt_upper_bound; lia]].
    pose proof (Z_div_mod_eq_full v 256). lia.
Qed.

Lemma le_value_range l : Forall byte l -> 0 <= le_value l < 256 ^ zlen l.
Proof.
  induction 1 as [|b l Hb _ IH]; [done|]. cbn [le_value length]. rewrite Nat2Z.inj_succ, Z.pow_succ_r by lia.
  unfold byte in Hb. lia.
Qed.

Lemma le_value_inj l l' :
  Forall byte l -> Forall byte l' -> length l = length l' -> le_value l = le_value l' -> l = l'.
Proof.
  intros Hl. revert l'. induction Hl as [|b l Hb _ IH]; intros [|b' l'] Hl' Hlen He; try done.
  apply Forall_cons in Hl' as [Hb' Hl']. cbn in Hlen, He. unfold byte in *.
  assert (b = b') as -> by lia. f_equal. apply IH; [done|lia|lia].
Qed.

Lemma lor_add a b k : 0 <= k -> 0 <= a < 2 ^ k -> Z.lor a (Z.shiftl b k) = a + b * 2 ^ k.
Proof.
  intros Hk Ha. rewrite <-Z.shiftl_mul_pow2 by done. rewrite <-Z.add_lor_land.
  assert (Z.land a (Z.shiftl b k) = 0) as ->; [|lia].
  apply Z.bits_inj'. intros n Hn. rewrite Z.land_spec, Z.bits_0. destruct (decide (n < k)).
  - rewrite Z.shiftl_spec_low by done. apply andb_false_r.
  - destruct (decide (a = 0)) as [->|]; [by rewrite Z.bits_0|].
    rewrite Z.bits_above_log2; [done|lia|]. assert (Z.log2 a < k) by (apply Z.log2_lt_pow2; lia). lia.
Qed.

Lemma pow_256 i : 0 <= i -> 256 ^ i = 2 ^ (8 * i).
Proof. intros Hi. change 256 with (2 ^ 8). by rewrite <-Z.pow_mul_r. Qed.

Lemma load_le_loop_spec n : forall p at_ i v,
  Forall byte p -> 0 <= at_ -> 0 <= i -> i + Z.of_nat n <= 8 -> at_ + i + Z.of_nat n <= zlen p -> 0 <= v < 256 ^ i ->
  load_le_loop n p at_ i v = Some (v + 256 ^ i * le_value (take n (drop (Z.to_nat (at_ + i)) p))).
Proof.
  induction n as [|n IH]; intros p at_ i v Hp Hat Hi Hn Hl Hv; cbn [load_le_loop].
  { rewrite take_0. cbn. f_equal. lia. }
  destruct (aget_is_Some p (at_ + i)) as [b Hb]; [lia|]. rewrite Hb. cbn [mbind option_bind].
  pose proof (Forall_aget _ _ _ _ Hp Hb) as Hby. unfold byte in Hby.
  assert (256 * 256 ^ i <= 2 ^ 64) as Hpow.
  { rewrite <-Z.pow_succ_r, pow_256 by lia. apply Z.pow_le_mono_r; lia. }
  assert (0 < 256 ^ i) by lia.
  rewrite (u64_id (Z.shiftl b (8 * i))).
  2: { unfold is_u64. rewrite Z.shiftl_mul_pow2, <-pow_256 by lia. nia. }
  rewrite lor_add; [|lia|rewrite <-pow_256 by lia; lia]. rewrite <-pow_256 by lia.
  rewrite IH; [|done|lia..|rewrite Z.pow_add_r, Z.pow_1_r by lia; nia].
  apply aget_lookup in Hb as [_ Hb]. rewrite (drop_S _ _ _ Hb). cbn [take le_value].
  replace (Z.to_nat (at_ + (i + 1))) with (S (Z.to_nat (at_ + i))) by lia.
  f_equal. rewrite Z.pow_add_r, Z.pow_1_r by lia. lia.
Qed.

Lemma load_le_u64_spec p at_ :
  Forall byte p -> 0 <= at_ -> at_ + 8 <= zlen p ->
  load_le_u64 p at_ = Some (le_value (take 8 (drop (Z.to_nat at_) p))).
Proof.
  intros Hp Ha Hl. unfold load_le_u64. rewrite load_le_loop_spec by (done || lia). f_equal. rewrite Z.add_0_r. lia.
Qed.

Lemma load_le_u32_spec p at_ :
  Forall byte p -> 0 <= at_ -> at_ + 4 <= zlen p ->
  load_le_u32 p at_ = Some (le_value (take 4 (drop (Z.to_nat at_) p))).
Proof.
  intros Hp Ha Hl. unfold load_le_u32.
  destruct (aget_is_Some p at_) as [b0 H0]; [lia|]. destruct (aget_is_Some p (at_ + 1)) as [b1 H1]; [lia|].
  destruct (aget_is_Some p (at_ + 2)) as [b2 H2]; [lia|]. destruct (aget_is_Some p (at_ + 3)) as [b3 H3]; [lia|].
  rewrite H0, H1, H2, H3. cbn [mbind option_bind].
  pose proof (Forall_aget _ _ _ _ Hp H0) as B0. pose proof (Forall_aget _ _ _ _ Hp H1) as B1.
  pose proof (Forall_aget _ _ _ _ Hp H2) as B2. unfold byte in *.
  apply aget_lookup in H0 as [_ H0], H1 as [_ H1], H2 as [_ H2], H3 as [_ H3].
  replace (Z.to_nat (at_ + 1)) with (S (Z.to_nat at_)) in H1 by lia.
  replace (Z.to_nat (at_ + 2)) with (S (S (Z.to_nat at_))) in H2 by lia.
  replace (Z.to_nat (at_ + 3)) with (S (S (S (Z.to_nat at_)))) in H3 by lia.
  rewrite (drop_S _ _ _ H0), (drop_S _ _ _ H1), (drop_S _ _ _ H2), (drop_S _ _ _ H3). cbn [take le_value].
  rewrite (lor_add b0 b1 8), (lor_add _ b2 16), (lor_add _ b3 24) by (change (2 ^ 8) with 256; change (2 ^ 16) with 65536;
    change (2 ^ 24) with 16777216; lia).
  rewrite take_0. cbn [le_value]. f_equal. change (2 ^ 8) with 256; change (2 ^ 16) with 65536; change (2 ^ 24) with 16777216. lia.
Qed.

(** ** Entries *)

(** Entry [i] of the buffer. *)
Definition entry_at (p : list Z) (i : Z) : zarr_shard_entry :=
  ShardEntry (le_value (take 8 (drop (Z.to_nat (i * 16)) p))) (le_value (take 8 (drop (Z.to_nat (i * 16 + 8)) p))).

Lemma entries_loop_spec n : forall p i es,
  Forall byte p -> 0 <= i -> (i + Z.of_nat n) * 16 <= zlen p -> i + Z.of_nat n <= zlen es ->
  exists es', entries_loop n p i es = Some es' /\ length es' = length es /\
    forall j, aget es' j = if decide (i <= j < i + Z.of_nat n) then Some (entry_at p j) else aget es j.
Proof.
  induction n as [|n IH]; intros p i es Hp Hi Hl He; cbn [entries_loop].
  { exists es. split_and!; [done|done|]. intros j. by rewrite decide_False by lia. }
  rewrite !load_le_u64_spec by (done || lia). cbn [mbind option_bind].
  destruct (aset es i (entry_at p i)) as [es1|] eqn:Hs; [|rewrite aset_range in Hs by lia; done].
  change (ShardEntry _ _) with (entry_at p i). rewrite Hs. cbn [mbind option_bind].
  pose proof (length_aset _ _ _ _ Hs) as Hlen.
  destruct (IH p (i + 1) es1) as (es' & -> & Hl' & Hg); [done|lia..|].
  exists es'. split_and!; [done|congruence|]. intros j. rewrite Hg, (aget_aset _ _ _ _ _ Hs).
  repeat case_decide; try lia; congruence.
Qed.

(** When the parser accepts: the length is right and the checksum matches. *)
Lemma parse_spec p n es :
  Forall byte p -> 0 <= n -> 16 * n + 4 <= SIZE_MAX -> zlen p = 16 * n + 4 -> n <= zlen es ->
  if decide (le_value (drop (Z.to_nat (16 * n)) p) = crc_reference (take (Z.to_nat (16 * n)) p)) then
    exists es', zarr_shard_index_parse (Some p) (zlen p) n (Some es) = Some (0, Some es') /\
      length es' = length es /\
      forall j, aget es' j = if decide (0 <= j < n) then Some (entry_at p j) else aget es j
  else zarr_shard_index_parse (Some p) (zlen p) n (Some es) = Some (1, Some es).
Proof.
  intros Hp Hn Hmax Hlen Hes. unfold zarr_shard_index_parse, zarr_shard_index_size.
  replace (n * 16) with (16 * n) by lia. rewrite !(u64_id (16 * n)) by clia. rewrite (u64_id (16 * n + 4)) by clia.
  rewrite (proj2 (Z.eqb_eq (zlen p) _) Hlen). cbn [negb].
  rewrite load_le_u32_spec, crc32c_spec by (done || lia). cbn [mbind option_bind].
  rewrite (take_ge (drop _ _)) by (rewrite length_drop; lia).
  case_decide as E.
  - rewrite E, Z.eqb_refl. cbn [negb].
    destruct (entries_loop_spec (Z.to_nat n) p 0 es) as (es' & -> & Hl & Hg); [done|lia..|]. cbn [mbind option_bind].
    exists es'. split_and!; [done|done|]. intros j. rewrite Hg. repeat case_decide; try lia; done.
  - by rewrite (proj2 (Z.eqb_neq _ _) E).
Qed.

(** ** Round trip *)

Lemma length_entry_bytes e : length (entry_bytes e) = 16%nat.
Proof. unfold entry_bytes. by rewrite length_app, !length_le_bytes. Qed.

Lemma length_table_bytes es : zlen (table_bytes es) = 16 * zlen es.
Proof.
  unfold table_bytes. induction es as [|e es IH]; [done|]. rewrite bind_cons, length_app, length_entry_bytes. cbn [length]. lia.
Qed.

Lemma table_bytes_byte es : Forall byte (table_bytes es).
Proof.
  unfold table_bytes. induction es as [|e es IH]; [constructor|]. rewrite bind_cons. apply Forall_app. split; [|done].
  unfold entry_bytes. apply Forall_app. split; apply le_bytes_byte.
Qed.

Lemma shard_index_bytes_byte es : Forall byte (shard_index_bytes es).
Proof. unfold shard_index_bytes. apply Forall_app. split; [apply table_bytes_byte|apply le_bytes_byte]. Qed.

Lemma length_shard_index_bytes es : zlen (shard_index_bytes es) = 16 * zlen es + 4.
Proof. unfold shard_index_bytes. rewrite length_app, length_le_bytes. pose proof (length_table_bytes es). lia. Qed.

Lemma entry_at_bytes es rest i e :
  aget es i = Some e -> entry_ok e -> entry_at (table_bytes es ++ rest) i = e.
Proof.
  intros [Hi He]%aget_lookup [Ho Hb]. destruct (list_elem_of_split_length _ _ _ He) as (l1 & l2 & -> & Hl).
  assert (zlen (table_bytes l1) = i * 16) as Hlen by (rewrite length_table_bytes; lia).
  assert (table_bytes (l1 ++ e :: l2) ++ rest =
    table_bytes l1 ++ le_bytes 8 (e_offset e) ++ le_bytes 8 (e_nbytes e) ++ (table_bytes l2 ++ rest)) as ->.
  { unfold table_bytes. rewrite bind_app, bind_cons. unfold entry_bytes at 2. by rewrite <-!app_assoc. }
  unfold entry_at. destruct e as [o b]. cbn [e_offset e_nbytes] in *. f_equal.
  - rewrite drop_app_length' by lia. rewrite take_app_length' by (by rewrite length_le_bytes). by apply le_value_bytes.
  - rewrite (app_assoc (table_bytes l1)), drop_app_length' by (rewrite length_app, length_le_bytes; lia).
    rewrite take_app_length' by (by rewrite length_le_bytes). by apply le_value_bytes.
Qed.

Lemma crc_reference_u32 l : Forall byte l -> is_u32 (crc_reference l).
Proof. intros Hl. unfold crc_reference. apply lxor_u32; [by apply crc_fold_u32|done]. Qed.

(** C18: the checksum computed with the table is the bit-by-bit CRC-32C of the
    message, for every message. *)
Theorem crc32c_equivalent data :
  Forall byte data -> crc32c data (zlen data) = Some (crc_reference data).
Proof. intros Hd. rewrite crc32c_spec by (done || lia). by rewrite take_ge by lia. Qed.

(** C19: parsing the bytes of a shard index gives back its entries. *)
Theorem shard_index_round_trip es out :
  Forall entry_ok es -> length out = length es -> 16 * zlen es + 4 <= SIZE_MAX ->
  zarr_shard_index_parse (Some (shard_index_bytes es)) (zarr_shard_index_size (zlen es)) (zlen es) (Some out) =
    Some (0, Some es).
Proof.
  intros Hok Hout Hmax.
  pose proof (parse_spec (shard_index_bytes es) (zlen es) out (shard_index_bytes_byte es) ltac:(lia) Hmax
    (length_shard_index_bytes es) ltac:(lia)) as Hp.
  rewrite length_shard_index_bytes in Hp.
  assert (zarr_shard_index_size (zlen es) = 16 * zlen es + 4) as ->.
  { unfold zarr_shard_index_size. rewrite (u64_id (zlen es * 16)) by clia. rewrite u64_id by clia. lia. }
  assert (Z.to_nat (16 * zlen es) = length (table_bytes es)) as Hlt by (pose proof (length_table_bytes es); lia).
  rewrite Hlt in Hp. unfold shard_index_bytes in Hp. rewrite drop_app_length, take_app_length in Hp.
  rewrite decide_True in Hp.
  2: { apply le_value_bytes. apply (crc_reference_u32 _ (table_bytes_byte es)). }
  destruct Hp as (es' & Hp & Hl & Hg). unfold shard_index_bytes. rewrite Hp. do 3 f_equal. symmetry. apply aget_ext; [congruence|].
  intros i e He. rewrite Hg. pose proof (aget_Some_range _ _ _ He). rewrite decide_True by lia. f_equal.
  apply entry_at_bytes; [done|]. by eapply Forall_aget.
Qed.

(** C20: an accepted index of which one byte is altered, in the table or in the
    checksum, is rejected, and the caller's array is left alone. *)
Theorem shard_index_detects_byte p n es es' i x p' out :
  Forall byte p -> 0 <= n -> 16 * n + 4 <= SIZE_MAX -> zlen p = 16 * n + 4 -> n <= zlen es -> n <= zlen out ->
  zarr_shard_index_parse (Some p) (zlen p) n (Some es) = Some (0, es') ->
  byte x -> aset p i x = Some p' -> p' <> p ->
  zarr_shard_index_parse (Some p') (zlen p') n (Some out) = Some (1, Some out).
Proof.
  intros Hp Hn Hmax Hlen Hes Hout Hok Hx Hs Hne.
  assert (Forall byte p') as Hp'.
  { apply aset_Some in Hs as [_ ->]. by apply Forall_insert. }
  pose proof (length_aset _ _ _ _ Hs) as Hlen'.
  pose proof (parse_spec p n es Hp Hn Hmax Hlen Hes) as H1. case_decide as E1; [|rewrite H1 in Hok; done].
  pose proof (parse_spec p' n out Hp' Hn Hmax ltac:(lia) Hout) as H2. case_decide as E2; [|done]. exfalso.
  apply aset_Some in Hs as [Hi ->]. destruct (lookup_lt_is_Some_2 p (Z.to_nat i)) as [y Hy]; [lia|].
  assert (x <> y) as Hxy by (intros ->; apply Hne; by apply list_insert_id).
  destruct (decide (i < 16 * n)).
  - rewrite drop_insert_lt in E2 by lia. rewrite take_insert_lt in E2 by lia. rewrite E1 in E2.
    assert (take (Z.to_nat (16 * n)) p !! Z.to_nat i = Some y) as Hy' by (rewrite lookup_take_lt; [done|lia]).
    destruct (list_elem_of_split_length _ _ _ Hy') as (l1 & l2 & Hl & Hi1). rewrite Hl in E2.
    replace (Z.to_nat i) with (length l1 + 0)%nat in E2 by lia. rewrite insert_app_r in E2. cbn in E2.
    revert E2. apply crc_single_byte; [|done|congruence]. rewrite <-Hl. by apply Forall_take.
  - rewrite take_insert_ge in E2 by lia. rewrite drop_insert_ge in E2 by lia. rewrite <-E1 in E2.
    apply le_value_inj in E2; [|by apply Forall_insert; [apply Forall_drop|]|by apply Forall_drop|by rewrite length_insert].
    apply (f_equal (fun l => l !! (Z.to_nat i - Z.to_nat (16 * n))%nat)) in E2.
    rewrite list_lookup_insert_eq in E2 by (rewrite length_drop; lia). rewrite lookup_drop in E2.
    replace (Z.to_nat (16 * n) + (Z.to_nat i - Z.to_nat (16 * n)))%nat with (Z.to_nat i) in E2 by lia. congruence.
Qed.

(** ** Examples *)

Definition ex_entries : list zarr_shard_entry := [ShardEntry 0 5; ShardEntry UINT64_MAX UINT64_MAX].

(** The check value of the polynomial: the digits 1 to 9. *)
Lemma crc32c_equivalent_witness :
  crc32c [0x31; 0x32; 0x33; 0x34; 0x35; 0x36; 0x37; 0x38; 0x39] 9 = Some 0xE3069283.
Proof.
  etrans; [apply (crc32c_equivalent [0x31; 0x32; 0x33; 0x34; 0x35; 0x36; 0x37; 0x38; 0x39])|vm_compute; reflexivity].
  repeat constructor; discriminate.
Defined.

Lemma shard_index_round_trip_witness :
  zarr_shard_index_parse (Some (shard_index_bytes ex_entries)) 36 2 (Some [ShardEntry 0 0; ShardEntry 0 0]) =
    Some (0, Some ex_entries).
Proof.
  apply (shard_index_round_trip ex_entries [ShardEntry 0 0; ShardEntry 0 0]); [|reflexivity|discriminate].
  repeat constructor; discriminate.
Defined.

Definition ex_bad : list Z := Eval vm_compute in <[3%nat := 7]> (shard_index_bytes ex_entries).
Lemma shard_index_detects_byte_witness :
  zarr_shard_index_parse (Some ex_bad) 36 2 (Some ex_entries) = Some (1, Some ex_entries).
Proof.
  apply (shard_index_detects_byte (shard_index_bytes ex_entries) 2 ex_entries (Some ex_entries) 3 7 ex_bad ex_entries);
    [apply shard_index_bytes_byte|discriminate|discriminate|reflexivity|discriminate|discriminate
    |vm_compute; reflexivity|split; [discriminate|reflexivity]|vm_compute; reflexivity|discriminate].
Defined.
