(* ===== verification/Convert.v ===== *)
(** * Conversion of elements

    [src/src/dtype/convert.h]: loads, the conversions of every array type to every output
    type, half and brain floats. A [float] is its 32 bits; [f32_value] is its value in
    units of [2 ^ -149], which is exact, with an infinity at [2 ^ 128]. A cast of a float
    to an integer type that cannot hold it is undefined in C and [None] here. Memory is
    little-endian. *)

From stdpp Require Import strings.
From S2P Require Import Prelude Plan Crc ShardFooter.

#[local] Open Scope Z_scope.

(** ** Floats *)

Definition f32_unit : Z := 2 ^ 149.
Definition f32_inf : Z := 0x7f800000.
(** The magnitude of the bits below the sign. *)
Definition f32_mag (b : Z) : Z :=
  let e := b / 2 ^ 23 in let m := b mod 2 ^ 23 in if e =? 0 then m else (2 ^ 23 + m) * 2 ^ (e - 1).
Definition f32_value (b : Z) : Z := if b <? 2 ^ 31 then f32_mag b else - f32_mag (b - 2 ^ 31).
Definition f32_nan (b : Z) : bool := f32_inf <? b mod 2 ^ 31.

Definition f32_lt (a b : Z) : bool := negb (f32_nan a) && negb (f32_nan b) && (f32_value a <? f32_value b).
Definition f32_le (a b : Z) : bool := negb (f32_nan a) && negb (f32_nan b) && (f32_value a <=? f32_value b).

(** [(float)z] for [0 < m < 2 ^ 64], to nearest, ties to even. *)
Definition f32_round (m : Z) : Z :=
  let e := Z.log2 m in
  if e <=? 23 then (e + 127) * 2 ^ 23 + (m * 2 ^ (23 - e) - 2 ^ 23)
  else
    let s := 2 ^ (e - 23) in
    let q := m / s in
    let r := m mod s in
    (e + 127) * 2 ^ 23 + (q + Z.b2z ((s <? 2 * r) || ((2 * r =? s) && Z.odd q)) - 2 ^ 23).
Definition f32_of_int (z : Z) : Z := if z =? 0 then 0 else if 0 <? z then f32_round z else 2 ^ 31 + f32_round (- z).

(** [(uint64_t)value] and [(int64_t)value]. *)
Definition f32_trunc (b : Z) : Z := Z.quot (f32_value b) f32_unit.
Definition f32_to_u64 (b : Z) : option Z := if negb (f32_nan b) && (0 <=? f32_trunc b) && (f32_trunc b <=? UINT64_MAX) then Some (f32_trunc b) else None.
Definition f32_to_i64 (b : Z) : option Z := if negb (f32_nan b) && (- 2 ^ 63 <=? f32_trunc b) && (f32_trunc b <=? INT64_MAX) then Some (f32_trunc b) else None.

(** ** Loads *)

Definition dtype_load (n : Z) (source : list Z) : option Z := if n <=? zlen source then Some (le_value (take (Z.to_nat n) source)) else None.
Definition two_complement (n v : Z) : Z := if v <? 2 ^ (8 * n - 1) then v else v - 2 ^ (8 * n).

Definition dtype_load_unsigned (source : list Z) (type : zdtype) : option Z :=
  match type with dtype_u8 => dtype_load 1 source | dtype_u16 => dtype_load 2 source | dtype_u32 => dtype_load 4 source | _ => dtype_load 8 source end.
Definition dtype_load_signed (source : list Z) (type : zdtype) : option Z :=
  let n := match type with dtype_i8 => 1 | dtype_i16 => 2 | dtype_i32 => 4 | _ => 8 end in
  v ← dtype_load n source; Some (two_complement n v).

(** ** Half and brain floats *)

(** [while (!(mantissa & 1024))] *)
Fixpoint half_shift (fuel : nat) (mantissa shift : Z) : option (Z * Z) :=
  if negb (Z.land mantissa 1024 =? 0) then Some (mantissa, shift)
  else match fuel with O => None | S fuel => half_shift fuel (u32 (Z.shiftl mantissa 1)) (shift + 1) end.

(** A mantissa of 1 needs the ten rounds. *)
Definition dtype_half_to_float (half : Z) : option Z :=
  let sign := Z.shiftl (Z.land half 0x8000) 16 in
  let exponent := Z.land (Z.shiftr half 10) 31 in
  let mantissa := Z.land half 1023 in
  if exponent =? 0 then
    if mantissa =? 0 then Some sign
    else
      r ← half_shift 10 mantissa 0;
      Some (Z.lor (Z.lor sign (Z.shiftl (113 - snd r) 23)) (Z.shiftl (Z.land (fst r) 1023) 13))
  else Some (Z.lor (Z.lor sign (Z.shiftl (if exponent =? 31 then 255 else exponent + 112) 23)) (Z.shiftl mantissa 13)).

Definition dtype_float_to_bfloat (bits : Z) : Z :=
  if 0x7f800000 <? Z.land bits 0x7fffffff then 0x7fff
  else u16 (Z.shiftr (u32 (bits + 0x7fff + Z.land (Z.shiftr bits 16) 1)) 16).

(** ** Conversions *)

(** [type <= dtype_u64] and [type <= dtype_i64]. *)
Definition dtype_unsigned (type : zdtype) : bool := match type with dtype_u8 | dtype_u16 | dtype_u32 | dtype_u64 => true | _ => false end.
Definition dtype_signed (type : zdtype) : bool := match type with dtype_i8 | dtype_i16 | dtype_i32 | dtype_i64 => true | _ => false end.

Definition dtype_as_float (source : list Z) (type : zdtype) : option Z :=
  match type with
  | dtype_u8 | dtype_u16 | dtype_u32 | dtype_u64 => v ← dtype_load_unsigned source type; Some (f32_of_int v)
  | dtype_i8 | dtype_i16 | dtype_i32 | dtype_i64 => v ← dtype_load_signed source type; Some (f32_of_int v)
  | dtype_f16 => h ← dtype_load 2 source; dtype_half_to_float h
  | _ => dtype_load 4 source
  end.

Definition dtype_as_unsigned (source : list Z) (type : zdtype) (maximum : Z) : option Z :=
  if dtype_unsigned type then
    value ← dtype_load_unsigned source type; Some (if maximum <? value then maximum else value)
  else if dtype_signed type then
    value ← dtype_load_signed source type;
    if value <? 0 then Some 0 else Some (if maximum <? u64 value then maximum else u64 value)
  else
    value ← dtype_as_float source type;
    if negb (f32_lt 0 value) then Some 0
    else if f32_le (f32_of_int maximum) value then Some maximum
    else f32_to_u64 value.

Definition dtype_as_signed (source : list Z) (type : zdtype) (minimum maximum : Z) : option Z :=
  if dtype_unsigned type then
    value ← dtype_load_unsigned source type; Some (if u64 maximum <? value then maximum else value)
  else if dtype_signed type then
    value ← dtype_load_signed source type; Some (if value <? minimum then minimum else if maximum <? value then maximum else value)
  else
    value ← dtype_as_float source type;
    if f32_nan value then Some 0
    else if f32_le value (f32_of_int minimum) then Some minimum
    else if f32_le (f32_of_int maximum) value then Some maximum
    else f32_to_i64 value.

(** The bytes stored, by the value of [enum damacy_dtype]. *)
Definition dtype_convert (output : Z) (source : list Z) (input : zdtype) : option (list Z) :=
  match output with
  | 0 => le_bytes 4 <$> dtype_as_float source input
  | 1 => v ← dtype_as_float source input; Some (le_bytes 2 (dtype_float_to_bfloat v))
  | 2 => le_bytes 1 <$> dtype_as_unsigned source input (2 ^ 8 - 1)
  | 3 => le_bytes 2 <$> dtype_as_unsigned source input UINT16_MAX
  | 4 => le_bytes 4 <$> dtype_as_unsigned source input UINT32_MAX
  | 5 => le_bytes 8 <$> dtype_as_unsigned source input UINT64_MAX
  | 6 => le_bytes 1 <$> dtype_as_signed source input (- 2 ^ 7) (2 ^ 7 - 1)
  | 7 => le_bytes 2 <$> dtype_as_signed source input (- 2 ^ 15) (2 ^ 15 - 1)
  | 8 => le_bytes 4 <$> dtype_as_signed source input (- 2 ^ 31) (2 ^ 31 - 1)
  | 9 => le_bytes 8 <$> dtype_as_signed source input (- 2 ^ 63) INT64_MAX
  | _ => Some []
  end.

(** ** The value of an element *)

(** Half floats, in units of [2 ^ -24]. *)
Definition f16_mag (h : Z) : Z := let e := h / 2 ^ 10 in let m := h mod 2 ^ 10 in if e =? 0 then m else (2 ^ 10 + m) * 2 ^ (e - 1).
(** In units of [2 ^ -149]; the infinities are those of floats. *)
Definition f16_value (h : Z) : Z :=
  let m := h mod 2 ^ 15 in
  let v := if m =? 0x7c00 then f32_mag f32_inf else f16_mag m * 2 ^ 125 in
  if h <? 2 ^ 15 then v else - v.
Definition f16_nan (h : Z) : bool := 0x7c00 <? h mod 2 ^ 15.

(** In units of [2 ^ -149]; [None] is a NaN. *)
Definition source_value (source : list Z) (type : zdtype) : option Z :=
  let v := le_value source in
  if dtype_unsigned type then Some (v * f32_unit)
  else if dtype_signed type then Some (two_complement (dtype_bpe type) v * f32_unit)
  else match type with
       | dtype_f16 => if f16_nan v then None else Some (f16_value v)
       | _ => if f32_nan v then None else Some (f32_value v)
       end.

(** [b] is the float for [x]. *)
Definition f32_is (b : Z) (x : option Z) : Prop := 0 <= b < 2 ^ 32 /\ match x with None => f32_nan b = true | Some v => f32_nan b = false /\ f32_value b = v end.

(** *** The floats in order *)

Lemma f32_mag_at e m : 0 < e -> 0 <= m < 2 ^ 23 -> f32_mag (e * 2 ^ 23 + m) = (2 ^ 23 + m) * 2 ^ (e - 1).
Proof.
  intros He Hm. unfold f32_mag. rewrite Z.div_add_l, Z.div_small, Z.add_0_r by lia. rewrite (proj2 (Z.eqb_neq e 0)) by lia.
  rewrite (Z.add_comm (e * _)), Z.mod_add, Z.mod_small by lia. done.
Qed.

(** [q] counts from the start of the exponent [e], its end included. *)
Lemma f32_mag_grid e q : 0 < e -> 2 ^ 23 <= q <= 2 ^ 24 -> f32_mag (e * 2 ^ 23 + (q - 2 ^ 23)) = q * 2 ^ (e - 1).
Proof.
  intros He Hq. destruct (decide (q = 2 ^ 24)) as [->|].
  - replace (e * 2 ^ 23 + (2 ^ 24 - 2 ^ 23)) with ((e + 1) * 2 ^ 23 + 0) by lia. rewrite f32_mag_at by lia. rewrite Z.add_0_r, Z.add_simpl_r.
    replace (2 ^ e) with (2 * 2 ^ (e - 1)) by (rewrite <-Z.pow_succ_r by lia; f_equal; lia). lia.
  - rewrite f32_mag_at by lia. f_equal. lia.
Qed.

Lemma f32_mag_small m : 0 <= m <= 2 ^ 23 -> f32_mag m = m.
Proof.
  intros Hm. destruct (decide (m = 2 ^ 23)) as [->|]; [done|]. unfold f32_mag. rewrite Z.div_small, Z.mod_small by lia. done.
Qed.

(** The weight of the last bit. *)
Definition f32_ulp (b : Z) : Z := 2 ^ (Z.max (b / 2 ^ 23) 1 - 1).
Lemma f32_ulp_pos b : 0 < f32_ulp b.
Proof. unfold f32_ulp. apply Z.pow_pos_nonneg; lia. Qed.
Lemma f32_mag_block e m d : 0 <= e -> 0 <= m -> 0 <= d -> m + d <= 2 ^ 23 -> f32_mag (e * 2 ^ 23 + m + d) = f32_mag (e * 2 ^ 23 + m) + d * 2 ^ (Z.max e 1 - 1).
Proof.
  intros He Hm Hd Hs. destruct (decide (e = 0)) as [->|].
  - rewrite !f32_mag_small by lia. change (2 ^ (0 `max` 1 - 1)) with 1. lia.
  - replace (e * 2 ^ 23 + m + d) with (e * 2 ^ 23 + ((2 ^ 23 + m + d) - 2 ^ 23)) by lia.
    replace (e * 2 ^ 23 + m) with (e * 2 ^ 23 + ((2 ^ 23 + m) - 2 ^ 23)) by lia. rewrite !f32_mag_grid by lia. rewrite Z.max_l by lia. lia.
Qed.
(** Neighbours below a boundary of [2 ^ k] patterns are evenly spaced. *)
Lemma f32_mag_affine k r d : 0 <= k <= 23 -> 0 <= r -> 0 <= d <= 2 ^ k -> f32_mag (r * 2 ^ k + d) = f32_mag (r * 2 ^ k) + d * f32_ulp (r * 2 ^ k).
Proof.
  intros Hk Hr Hd. set (c := 2 ^ (23 - k)). assert (Hc : 0 < c) by (apply Z.pow_pos_nonneg; lia).
  assert (Hck : c * 2 ^ k = 2 ^ 23) by (unfold c; rewrite <-Z.pow_add_r by lia; f_equal; lia). assert (H2 : 0 < 2 ^ k) by (apply Z.pow_pos_nonneg; lia).
  pose proof (Z.div_mod r c ltac:(lia)) as Hdm. pose proof (Z.mod_pos_bound r c Hc) as Hb. pose proof (Z.div_pos r c Hr Hc).
  assert (Hsplit : r * 2 ^ k = r / c * 2 ^ 23 + r mod c * 2 ^ k) by (rewrite <-Hck; rewrite Hdm at 1; lia).
  assert (Hu : r * 2 ^ k / 2 ^ 23 = r / c) by (rewrite <-Hck, Z.div_mul_cancel_r by lia; done).
  unfold f32_ulp. rewrite Hu, Hsplit. apply f32_mag_block; try lia; nia.
Qed.
Lemma f32_mag_succ b : 0 <= b -> f32_mag (b + 1) = f32_mag b + f32_ulp b.
Proof. intros Hb. pose proof (f32_mag_affine 0 b 1 ltac:(lia) Hb ltac:(lia)) as E. change (2 ^ 0) with 1 in E. rewrite Z.mul_1_r, Z.mul_1_l in E. done. Qed.
Lemma f32_mag_mono a b : 0 <= a <= b -> f32_mag a <= f32_mag b.
Proof.
  intros [Ha Hab]. revert b Hab. apply Zlt_lower_bound_ind. intros b IH Hab. destruct (decide (b = a)) as [->|]; [done|].
  specialize (IH (b - 1) ltac:(lia)). pose proof (f32_mag_succ (b - 1) ltac:(lia)) as E. rewrite Z.sub_add in E. pose proof (f32_ulp_pos (b - 1)). lia.
Qed.

(** *** Half floats *)

Lemma land_pow2_bit a k : 0 <= k -> Z.land a (2 ^ k) = 2 ^ k * Z.b2z (Z.testbit a k).
Proof.
  intros Hk. apply Z.bits_inj'. intros n Hn. rewrite Z.land_spec, Z.pow2_bits_eqb by lia. destruct (Z.eqb_spec k n) as [->|Hne].
  - rewrite andb_true_r. destruct (Z.testbit a n); cbn [Z.b2z]; [by rewrite Z.mul_1_r, Z.pow2_bits_true|by rewrite Z.mul_0_r, Z.bits_0].
  - rewrite andb_false_r. destruct (Z.testbit a k); cbn [Z.b2z]; [by rewrite Z.mul_1_r, Z.pow2_bits_false|by rewrite Z.mul_0_r, Z.bits_0].
Qed.

Lemma pack_float s e m : 0 <= s <= 1 -> 0 <= e <= 255 -> 0 <= m < 2 ^ 10 -> Z.lor (Z.lor (Z.shiftl s 31) (Z.shiftl e 23)) (Z.shiftl m 13) = s * 2 ^ 31 + (e * 2 ^ 23 + m * 2 ^ 13).
Proof.
  intros Hs He Hm. rewrite Z.lor_comm, (Z.lor_comm (Z.shiftl s 31)), Z.lor_assoc. rewrite (Z.shiftl_mul_pow2 m) by lia.
  rewrite (lor_add (m * 2 ^ 13) e 23), (lor_add _ s 31) by lia. lia.
Qed.

Lemma half_shift_spec fuel m shift : 0 < m < 2048 -> 1024 <= m * 2 ^ Z.of_nat fuel ->
  exists k, 0 <= k <= Z.of_nat fuel /\ half_shift fuel m shift = Some (m * 2 ^ k, shift + k) /\ 1024 <= m * 2 ^ k < 2048.
Proof.
  assert (Hbit : forall m, 0 < m < 2048 -> negb (Z.land m 1024 =? 0) = (1024 <=? m)).
  { intros n Hn. rewrite (land_pow2_bit n 10 ltac:(lia) : Z.land n 1024 = _). rewrite Z.testbit_spec' by lia. destruct (Z.leb_spec 1024 n) as [Hge|Hlt].
    - replace (n / 2 ^ 10) with 1 by (apply (Z.div_unique_pos n (2 ^ 10) 1 (n - 1024)); lia). done.
    - rewrite Z.div_small by lia. done. }
  revert m shift. induction fuel as [|fuel IH]; intros m shift Hm Hf; cbn [half_shift]; rewrite Hbit by done; destruct (Z.leb_spec 1024 m) as [Hge|Hlt].
  - exists 0. rewrite Z.mul_1_r, Z.add_0_r. split; [lia|]. split; [done|lia].
  - rewrite Z.mul_1_r in Hf. lia.
  - exists 0. rewrite Z.mul_1_r, Z.add_0_r. split; [lia|]. split; [done|lia].
  - rewrite Z.shiftl_mul_pow2 by lia. rewrite u32_id by clia. rewrite Nat2Z.inj_succ, Z.pow_succ_r in Hf by lia.
    destruct (IH (m * 2 ^ 1) (shift + 1)) as (k & Hk & -> & Hr); [lia|lia|]. exists (k + 1). rewrite Z.pow_add_r by lia. split; [lia|]. split; [do 2 f_equal; lia|lia].
Qed.

Lemma half_to_float_exact h : 0 <= h < 2 ^ 16 -> exists b, dtype_half_to_float h = Some b /\ f32_is b (if f16_nan h then None else Some (f16_value h)).
Proof.
  intros Hh. set (s := h / 2 ^ 15). set (m := h mod 2 ^ 10). set (e := h / 2 ^ 10 mod 2 ^ 5). set (r := h mod 2 ^ 15).
  assert (Hr : r = e * 2 ^ 10 + m).
  { unfold r, e, m. change (2 ^ 15) with (2 ^ 10 * 2 ^ 5). rewrite Z.rem_mul_r by lia. lia. }
  assert (He : 0 <= e < 2 ^ 5) by (apply Z.mod_pos_bound; lia). assert (Hm : 0 <= m < 2 ^ 10) by (apply Z.mod_pos_bound; lia).
  pose proof (Z.div_mod h (2 ^ 15) ltac:(lia)) as Hdm. fold s r in Hdm. assert (Hs : 0 <= s <= 1) by lia.
  assert (Hval : forall b v, 0 <= b <= f32_inf -> f32_mag b = v -> (f16_nan h = false -> (if r =? 0x7c00 then f32_mag f32_inf else f16_mag r * 2 ^ 125) = v) -> f16_nan h = false ->
    f32_is (s * 2 ^ 31 + b) (Some (f16_value h))).
  { intros b v Hb Hv Hf Hn. unfold f32_inf in Hb. unfold f32_is, f32_nan, f32_inf, f32_value, f16_value. fold r. rewrite (Hf Hn).
    assert (s = 0 \/ s = 1) as [E|E] by lia; rewrite E in *.
    - rewrite (proj2 (Z.ltb_lt h _)) by lia. rewrite !Z.mul_0_l, !Z.add_0_l, Z.mod_small by lia. rewrite (proj2 (Z.ltb_lt b _)), (proj2 (Z.ltb_ge _ b)) by lia. split; [lia|done].
    - rewrite (proj2 (Z.ltb_ge h _)) by lia. rewrite (proj2 (Z.ltb_ge (1 * 2 ^ 31 + b) _)) by lia. rewrite Z.mul_1_l. replace (2 ^ 31 + b - 2 ^ 31) with b by lia.
      replace ((2 ^ 31 + b) mod 2 ^ 31) with b by (rewrite Z.add_comm, <-(Z.mul_1_l (2 ^ 31)) at 1; rewrite Z.mod_add, Z.mod_small by lia; done).
      rewrite (proj2 (Z.ltb_ge _ b)) by lia. split; [lia|]. split; [done|]. by rewrite Hv. }
  assert (Hnan : f16_nan h = (0x7c00 <? r)) by done.
  assert (Hsign : Z.shiftl (Z.land h 0x8000) 16 = Z.shiftl s 31).
  { rewrite (land_pow2_bit h 15 ltac:(lia) : Z.land h 0x8000 = _), Z.testbit_spec' by lia. fold s. rewrite Z.mod_small by lia. rewrite !Z.shiftl_mul_pow2 by lia. lia. }
  assert (Hexp : Z.land (Z.shiftr h 10) 31 = e) by (change 31 with (Z.ones 5); rewrite Z.land_ones, Z.shiftr_div_pow2 by lia; done).
  assert (Hman : Z.land h 1023 = m) by (change 1023 with (Z.ones 10); rewrite Z.land_ones by lia; done).
  unfold dtype_half_to_float. rewrite Hsign, Hexp, Hman. destruct (Z.eqb_spec e 0) as [E0|E0]; [destruct (Z.eqb_spec m 0) as [M0|M0]|].
  - exists (s * 2 ^ 31 + 0). rewrite Z.shiftl_mul_pow2, Z.add_0_r by lia. split; [done|]. rewrite Hnan, (proj2 (Z.ltb_ge _ r)) by lia. rewrite <-(Z.add_0_r (s * _)).
    apply (Hval 0 0); [done|done| |by rewrite Hnan, (proj2 (Z.ltb_ge _ r)) by lia]. intros _. rewrite Hr, E0, M0. done.
  - destruct (half_shift_spec 10 m 0) as (k & Hk & -> & Hmk); [lia|change (2 ^ Z.of_nat 10) with 1024; lia|]. cbn [mbind option_bind fst snd]. rewrite Z.add_0_l.
    change 1023 with (Z.ones 10). rewrite Z.land_ones by lia. replace ((m * 2 ^ k) mod 2 ^ 10) with (m * 2 ^ k - 2 ^ 10) by (apply (Z.mod_unique_pos _ _ 1); lia).
    rewrite pack_float by lia. eexists. split; [done|]. assert (Hn : f16_nan h = false) by (rewrite Hnan; apply Z.ltb_ge; lia). rewrite Hn.
    apply (Hval _ (m * 2 ^ 125)); [unfold f32_inf; lia| | |done].
    + rewrite f32_mag_at by lia. replace (2 ^ 23 + (m * 2 ^ k - 2 ^ 10) * 2 ^ 13) with (m * (2 ^ k * 2 ^ 13)) by lia. rewrite <-Z.mul_assoc, <-!Z.pow_add_r by lia. f_equal. f_equal. lia.
    + intros _. rewrite (proj2 (Z.eqb_neq r _)) by lia. rewrite Hr, E0. unfold f16_mag. cbn [Z.mul Z.add]. rewrite Z.div_small, Z.mod_small by lia. done.
  - rewrite pack_float by (destruct (e =? 31); lia). eexists. split; [done|]. destruct (Z.eqb_spec e 31) as [E31|E31].
    + destruct (Z.ltb_spec 0x7c00 r) as [Hbig|Hsmall].
      * rewrite Hnan. split; [lia|]. unfold f32_nan, f32_inf. rewrite Z.add_comm, Z.mod_add, Z.mod_small by lia. apply Z.ltb_lt. lia.
      * rewrite Hnan. assert (m = 0) as -> by lia. apply (Hval _ (f32_mag f32_inf)); [done|done| |done]. intros _. rewrite Hr, E31. done.
    + assert (Hn : f16_nan h = false) by (rewrite Hnan; apply Z.ltb_ge; lia). rewrite Hn.
      apply (Hval _ ((1024 + m) * 2 ^ (e - 1) * 2 ^ 125)); [unfold f32_inf; lia| | |done].
      * rewrite f32_mag_at by lia. replace (2 ^ 23 + m * 2 ^ 13) with ((1024 + m) * 2 ^ 13) by lia. rewrite <-!Z.mul_assoc, <-!Z.pow_add_r by lia. f_equal. f_equal. lia.
      * intros _. rewrite (proj2 (Z.eqb_neq r _)) by lia. rewrite Hr. unfold f16_mag. rewrite Z.div_add_l, (Z.div_small m), Z.add_0_r by lia. rewrite (proj2 (Z.eqb_neq e 0)) by lia.
        rewrite (Z.add_comm (e * _)), Z.mod_add, Z.mod_small by lia. done.
Qed.

(** *** Rounding *)

(** The patterns with [k] zeros at the end: all floats for 0, brain floats for 16. *)
Definition on_grid (k b : Z) : Prop := 0 <= b < 2 ^ 32 /\ f32_nan b = false /\ (2 ^ k | b).
(** [b] is a closest one to [x]. *)
Definition nearest (k b x : Z) : Prop := on_grid k b /\ forall b', on_grid k b' -> Z.abs (f32_value b - x) <= Z.abs (f32_value b' - x).
Definition rounds (k b : Z) (x : option Z) : Prop := match x with None => f32_nan b = true | Some x => nearest k b x end.

Lemma nearest_exact k b : on_grid k b -> nearest k b (f32_value b).
Proof. intros H. split; [done|]. intros. rewrite Z.sub_diag. cbn. lia. Qed.

(** A pattern in two parts. *)
Lemma f32_signed s a : s = 0 \/ s = 1 -> 0 <= a < 2 ^ 31 -> f32_value (s * 2 ^ 31 + a) = (if s =? 0 then f32_mag a else - f32_mag a) /\ f32_nan (s * 2 ^ 31 + a) = (f32_inf <? a).
Proof.
  intros Hs Ha. unfold f32_value, f32_nan. rewrite (Z.add_comm (s * _)), Z.mod_add, Z.mod_small by lia. split; [|done]. destruct Hs as [->| ->]; cbn [Z.eqb].
  - rewrite Z.mul_0_l, Z.add_0_r, (proj2 (Z.ltb_lt a _)) by lia. done.
  - rewrite (proj2 (Z.ltb_ge (a + _) _)) by lia. f_equal. f_equal. lia.
Qed.
Lemma grid_parts k b : 0 <= k <= 16 -> on_grid k b -> exists s c, b = s * 2 ^ 31 + c * 2 ^ k /\ (s = 0 \/ s = 1) /\ 0 <= c /\ c * 2 ^ k <= f32_inf.
Proof.
  intros Hk (Hb & Hn & [q Hq]). assert (H2 : 2 ^ 31 = 2 ^ (31 - k) * 2 ^ k) by (rewrite <-Z.pow_add_r by lia; f_equal; lia). assert (0 < 2 ^ k) by (apply Z.pow_pos_nonneg; lia).
  exists (b / 2 ^ 31), (q - b / 2 ^ 31 * 2 ^ (31 - k)). pose proof (Z.div_mod b (2 ^ 31) ltac:(lia)) as Hd. pose proof (Z.mod_pos_bound b (2 ^ 31) ltac:(lia)) as Hm.
  assert (E : (q - b / 2 ^ 31 * 2 ^ (31 - k)) * 2 ^ k = b mod 2 ^ 31) by nia. rewrite E. unfold f32_nan in Hn. apply Z.ltb_ge in Hn. split_and!; [lia| |nia|done].
  assert (0 <= b / 2 ^ 31 <= 1) by lia. lia.
Qed.
Lemma f32_mag_nonneg a : 0 <= a -> 0 <= f32_mag a.
Proof. intros Ha. pose proof (f32_mag_mono 0 a ltac:(lia)). change (f32_mag 0) with 0 in *. done. Qed.

(** [x] lies between the neighbours [p] and [p + 1] and [c] is the closer one. *)
Lemma nearest_between k s p c x :
  0 <= k <= 16 -> s = 0 \/ s = 1 -> 0 <= p -> (p + 1) * 2 ^ k <= f32_inf -> c = p \/ c = p + 1 ->
  Z.abs (f32_mag (c * 2 ^ k) - x) <= x - f32_mag (p * 2 ^ k) -> Z.abs (f32_mag (c * 2 ^ k) - x) <= f32_mag ((p + 1) * 2 ^ k) - x ->
  nearest k (s * 2 ^ 31 + c * 2 ^ k) (if s =? 0 then x else - x).
Proof.
  intros Hk Hs Hp Hinf Hc H1 H2. assert (H2k : 0 < 2 ^ k) by (apply Z.pow_pos_nonneg; lia). unfold f32_inf in *. assert (Hcr : 0 <= c * 2 ^ k <= 0x7f800000) by nia.
  destruct (f32_signed s (c * 2 ^ k) Hs ltac:(lia)) as [Hv Hn]. split.
  - split; [lia|]. split; [rewrite Hn; unfold f32_inf; apply Z.ltb_ge; lia|]. apply Z.divide_add_r; [|apply Z.divide_factor_r]. apply Z.divide_mul_r.
    exists (2 ^ (31 - k)). rewrite <-Z.pow_add_r by lia. f_equal. lia.
  - intros b' Hb'. destruct (grid_parts k b' Hk Hb') as (s' & c' & -> & Hs' & Hc' & Hi'). unfold f32_inf in Hi'. destruct (f32_signed s' (c' * 2 ^ k) Hs' ltac:(nia)) as [-> _]. rewrite Hv.
    pose proof (f32_mag_nonneg (c' * 2 ^ k) ltac:(nia)) as Hm0. pose proof (f32_mag_nonneg (p * 2 ^ k) ltac:(nia)) as Hmp.
    assert (Hmain : Z.abs (f32_mag (c * 2 ^ k) - x) <= Z.abs (f32_mag (c' * 2 ^ k) - x)).
    { destruct (Z.le_gt_cases c' p) as [Hle|Hgt].
      - pose proof (f32_mag_mono (c' * 2 ^ k) (p * 2 ^ k) ltac:(nia)). lia.
      - pose proof (f32_mag_mono ((p + 1) * 2 ^ k) (c' * 2 ^ k) ltac:(nia)). lia. }
    destruct Hs as [->| ->], Hs' as [->| ->]; cbn [Z.eqb]; lia.
Qed.

Lemma f32_round_nearest s m : s = 0 \/ s = 1 -> 0 < m < 2 ^ 64 -> nearest 0 (s * 2 ^ 31 + f32_round m) (if s =? 0 then m * f32_unit else - (m * f32_unit)).
Proof.
  intros Hs Hm. unfold f32_round. set (e := Z.log2 m). pose proof (Z.log2_spec m ltac:(lia)) as Hl. fold e in Hl. pose proof (Z.log2_nonneg m) as He0. fold e in He0.
  assert (He : e < 64) by (apply Z.log2_lt_pow2; lia). replace (Z.succ e) with (e + 1) in Hl by lia. rewrite Z.pow_add_r in Hl by lia. change (2 ^ 1) with 2 in Hl.
  unfold f32_unit. destruct (Z.leb_spec e 23) as [Hle|Hgt].
  - set (q := m * 2 ^ (23 - e)). assert (Hp : 2 ^ e * 2 ^ (23 - e) = 2 ^ 23) by (rewrite <-Z.pow_add_r by lia; f_equal; lia). assert (0 < 2 ^ (23 - e)) by (apply Z.pow_pos_nonneg; lia).
    assert (Hq : 2 ^ 23 <= q < 2 ^ 24) by (unfold q; nia). pose proof (f32_mag_grid (e + 127) q ltac:(lia) ltac:(lia)) as Hmag.
    assert (Hx : m * 2 ^ 149 = f32_mag ((e + 127) * 2 ^ 23 + (q - 2 ^ 23))).
    { rewrite Hmag. unfold q. rewrite <-Z.mul_assoc, <-Z.pow_add_r by lia. f_equal. f_equal. lia. }
    rewrite Hx. destruct (f32_signed s ((e + 127) * 2 ^ 23 + (q - 2 ^ 23)) Hs ltac:(lia)) as [<- Hn]. apply nearest_exact. split; [lia|]. split; [rewrite Hn; apply Z.ltb_ge; unfold f32_inf; lia|].
    apply Z.divide_1_l.
  - set (st := 2 ^ (e - 23)). assert (Hst : 0 < st) by (apply Z.pow_pos_nonneg; lia). assert (Hse : 2 ^ 23 * st = 2 ^ e) by (unfold st; rewrite <-Z.pow_add_r by lia; f_equal; lia).
    pose proof (Z.div_mod m st ltac:(lia)) as Hdm. pose proof (Z.mod_pos_bound m st Hst) as Hr. set (q := m / st) in *. set (r := m mod st) in *.
    assert (Hq : 2 ^ 23 <= q < 2 ^ 24) by nia. set (c := Z.b2z _). assert (Hc : 0 <= c <= 1 /\ (c = 0 -> 2 * r <= st) /\ (c = 1 -> st <= 2 * r)).
    { unfold c. destruct (Z.ltb_spec st (2 * r)); cbn [orb Z.b2z]; [lia|]. destruct (Z.eqb_spec (2 * r) st); cbn [andb]; [destruct (Z.odd q); cbn [Z.b2z]; lia|cbn [Z.b2z]; lia]. }
    clearbody c. pose proof (f32_mag_grid (e + 127) q ltac:(lia) ltac:(lia)) as M0. pose proof (f32_mag_grid (e + 127) (q + 1) ltac:(lia) ltac:(lia)) as M1.
    assert (Hu : 2 ^ (e + 127 - 1) = st * 2 ^ 149) by (unfold st; rewrite <-Z.pow_add_r by lia; f_equal; lia). rewrite Hu in M0, M1.
    set (p := (e + 127) * 2 ^ 23 + (q - 2 ^ 23)) in *. replace ((e + 127) * 2 ^ 23 + (q + 1 - 2 ^ 23)) with (p + 1) in M1 by lia.
    replace ((e + 127) * 2 ^ 23 + (q + c - 2 ^ 23)) with (p + c) by lia. pose proof (nearest_between 0 s p (p + c) (m * 2 ^ 149)) as N. change (2 ^ 0) with 1 in N. rewrite !Z.mul_1_r in N.
    assert (0 < 2 ^ 149) as Hbig by done. generalize dependent (2 ^ 149). intros U M0 M1 Hu N HU. apply N; try lia; [unfold f32_inf; lia| |].
    + assert (c = 0 \/ c = 1) as [->| ->] by lia; [rewrite Z.add_0_r, M0|rewrite M1]; nia.
    + assert (c = 0 \/ c = 1) as [->| ->] by lia; [rewrite Z.add_0_r, M0, M1|rewrite M1]; nia.
Qed.

Lemma f32_of_int_nearest z : - 2 ^ 64 < z < 2 ^ 64 -> nearest 0 (f32_of_int z) (z * f32_unit).
Proof.
  intros Hz. unfold f32_of_int. destruct (Z.eqb_spec z 0) as [->|H0]; [apply (nearest_exact 0 0); split; [lia|split; [done|apply Z.divide_0_r]]|].
  destruct (Z.ltb_spec 0 z).
  - pose proof (f32_round_nearest 0 z ltac:(by left) ltac:(lia)) as N. cbn [Z.eqb] in N. by rewrite Z.mul_0_l, Z.add_0_l in N.
  - pose proof (f32_round_nearest 1 (- z) ltac:(by right) ltac:(lia)) as N. cbn [Z.eqb] in N. rewrite Z.mul_1_l in N. by replace (- (- z * f32_unit)) with (z * f32_unit) in N by lia.
Qed.

(** The nearest brain float; a NaN gives a NaN. *)
Lemma float_to_bfloat_nearest b : 0 <= b < 2 ^ 32 -> 0 <= dtype_float_to_bfloat b < 2 ^ 16 /\ rounds 16 (dtype_float_to_bfloat b * 2 ^ 16) (if f32_nan b then None else Some (f32_value b)).
Proof.
  intros Hb. unfold dtype_float_to_bfloat. change 0x7fffffff with (Z.ones 31). rewrite Z.land_ones by lia. change (0x7f800000 <? b mod 2 ^ 31) with (f32_nan b).
  destruct (f32_nan b) eqn:Hn; [split; [lia|done]|].
  rewrite !Z.shiftr_div_pow2 by lia. change (Z.land (b / 2 ^ 16) 1) with (Z.land (b / 2 ^ 16) (Z.ones 1)). rewrite Z.land_ones by lia.
  pose proof (Z.div_mod b (2 ^ 31) ltac:(lia)) as Hd. pose proof (Z.mod_pos_bound b (2 ^ 31) ltac:(lia)) as Hm. unfold f32_nan in Hn. apply Z.ltb_ge in Hn. set (s := b / 2 ^ 31) in *. set (a := b mod 2 ^ 31) in *.
  assert (Hs : s = 0 \/ s = 1) by lia. pose proof (Z.div_mod a (2 ^ 16) ltac:(lia)) as Hd2. pose proof (Z.mod_pos_bound a (2 ^ 16) ltac:(lia)) as Hm2. set (p := a / 2 ^ 16) in *. set (d := a mod 2 ^ 16) in *.
  assert (Hpb : b / 2 ^ 16 = s * 2 ^ 15 + p) by (symmetry; apply (Z.div_unique_pos b (2 ^ 16) _ d); lia).
  pose proof (Z.mod_pos_bound (b / 2 ^ 16) (2 ^ 1) ltac:(lia)) as Hodd. set (o := (b / 2 ^ 16) mod 2 ^ 1) in *. unfold f32_inf in Hn.
  set (c := if 2 ^ 16 <=? d + 0x7fff + o then 1 else 0).
  assert (Hq : (b + 0x7fff + o) / 2 ^ 16 = s * 2 ^ 15 + (p + c)).
  { symmetry. unfold c. destruct (Z.leb_spec (2 ^ 16) (d + 0x7fff + o)); [apply (Z.div_unique_pos _ (2 ^ 16) _ (d + 0x7fff + o - 2 ^ 16))|apply (Z.div_unique_pos _ (2 ^ 16) _ (d + 0x7fff + o))]; lia. }
  assert (Hc : (c = 0 /\ 2 * d <= 2 ^ 16) \/ (c = 1 /\ 2 ^ 16 <= 2 * d)) by (unfold c; destruct (Z.leb_spec (2 ^ 16) (d + 0x7fff + o)); lia).
  rewrite u32_id by clia. rewrite Hq. unfold u16. rewrite Z.mod_small by lia. split; [lia|]. cbn [rounds].
  destruct (f32_signed s a Hs ltac:(lia)) as [Hv _]. replace b with (s * 2 ^ 31 + a) by lia. rewrite Hv.
  replace ((s * 2 ^ 15 + (p + c)) * 2 ^ 16) with (s * 2 ^ 31 + (p + c) * 2 ^ 16) by lia. destruct (decide (a = 0x7f800000)) as [E|Hne].
  - assert (d = 0) as E1 by (unfold d; by rewrite E). assert (c = 0) as E2 by lia.
    replace ((p + c) * 2 ^ 16) with a by lia. rewrite <-Hv. apply nearest_exact. split; [lia|]. split; [|].
    + destruct (f32_signed s a Hs ltac:(lia)) as [_ ->]. rewrite E. done.
    + apply Z.divide_add_r; [apply Z.divide_mul_r; by exists (2 ^ 15)|]. exists p. lia.
  - pose proof (f32_mag_affine 16 p d ltac:(lia) ltac:(lia) ltac:(lia)) as A1. pose proof (f32_mag_affine 16 p (2 ^ 16) ltac:(lia) ltac:(lia) ltac:(lia)) as A2.
    replace (p * 2 ^ 16 + d) with a in A1 by lia. replace (p * 2 ^ 16 + 2 ^ 16) with ((p + 1) * 2 ^ 16) in A2 by lia. pose proof (f32_ulp_pos (p * 2 ^ 16)) as Hu.
    apply (nearest_between 16 s p); try lia; [unfold f32_inf; lia| |]; destruct Hc as [[-> Hc]|[-> Hc]]; rewrite ?Z.add_0_r, ?A1, ?A2; nia.
Qed.

(** *** Loads and integers *)

Section source.
Context (source : list Z) (input : zdtype).
Hypothesis Hbytes : Forall byte source.
Hypothesis Hsize : zlen source = dtype_bpe input.

Lemma load_all : dtype_load (dtype_bpe input) source = Some (le_value source).
Proof. unfold dtype_load. rewrite (proj2 (Z.leb_le _ _)) by lia. rewrite take_ge by lia. done. Qed.
Lemma source_range : 0 <= le_value source < 2 ^ (8 * dtype_bpe input).
Proof. pose proof (le_value_range _ Hbytes) as H. rewrite Hsize in H. rewrite Z.pow_mul_r by (destruct input; cbn; lia). done. Qed.
Lemma load_unsigned : dtype_unsigned input = true -> dtype_load_unsigned source input = Some (le_value source) /\ 0 <= le_value source <= UINT64_MAX.
Proof. intros E. pose proof load_all as H. pose proof source_range as R. destruct input; try done; split; try done; cbn in R |- *; unfold UINT64_MAX; lia. Qed.
Lemma load_signed : dtype_signed input = true ->
  let v := two_complement (dtype_bpe input) (le_value source) in dtype_load_signed source input = Some v /\ - 2 ^ 63 <= v <= INT64_MAX.
Proof.
  intros E v. unfold v. pose proof load_all as H. pose proof source_range as R. unfold dtype_load_signed, two_complement.
  destruct input; try done; cbn [dtype_bpe] in *; rewrite H; (split; [done|]); cbn in R |- *; unfold INT64_MAX; case_match; lia.
Qed.

Lemma as_float_rounds : input <> dtype_f64 -> exists b, dtype_as_float source input = Some b /\ 0 <= b < 2 ^ 32 /\ rounds 0 b (source_value source input) /\
  (dtype_unsigned input = false -> dtype_signed input = false -> f32_is b (source_value source input)).
Proof.
  intros Hn. destruct (dtype_unsigned input) eqn:Eu; [|destruct (dtype_signed input) eqn:Es].
  - destruct (load_unsigned Eu) as [Hl Hr]. exists (f32_of_int (le_value source)). pose proof (f32_of_int_nearest (le_value source) ltac:(unfold UINT64_MAX in Hr; lia)) as N.
    split; [destruct input; try done; cbn [dtype_as_float]; by rewrite Hl|]. split; [apply N|]. split; [|done]. unfold source_value. by rewrite Eu.
  - destruct (load_signed Es) as [Hl Hr]. set (v := two_complement _ _) in *. exists (f32_of_int v). pose proof (f32_of_int_nearest v ltac:(unfold INT64_MAX in Hr; lia)) as N.
    split; [destruct input; try done; cbn [dtype_as_float]; by rewrite Hl|]. split; [apply N|]. split; [|done]. unfold source_value. by rewrite Eu, Es.
  - assert (Hex : exists b, dtype_as_float source input = Some b /\ f32_is b (source_value source input)).
    { pose proof load_all as Hl. pose proof source_range as R. destruct input; try done; cbn [dtype_as_float source_value dtype_unsigned dtype_signed dtype_bpe] in *; rewrite Hl; cbn [mbind option_bind].
      - apply half_to_float_exact. exact R.
      - eexists. split; [done|]. split; [exact R|]. by destruct (f32_nan (le_value source)) eqn:E. }
    destruct Hex as (b & Hb & Hi). exists b. split; [done|]. split; [apply Hi|]. split; [|done]. destruct Hi as [Hr Hi]. destruct (source_value source input) as [x|]; [|done].
    destruct Hi as [Hn' <-]. apply nearest_exact. split; [done|]. split; [done|]. apply Z.divide_1_l.
Qed.
End source.

(** The value of an element as an integer of the range: rounded toward zero, limited to
    the range, 0 for a NaN. *)
Definition saturated (lo hi : Z) (x : option Z) : Z := match x with None => 0 | Some x => Z.max lo (Z.min hi (Z.quot x f32_unit)) end.

Lemma quot_le x y u : 0 < u -> x <= y * u -> Z.quot x u <= Z.max y 0.
Proof.
  intros Hu H. destruct (Z.le_gt_cases 0 x) as [Hx|Hx].
  - rewrite Z.quot_div_nonneg by lia. assert (x / u <= y); [|lia]. apply Z.div_le_upper_bound; lia.
  - pose proof (Z.quot_opp_l x u ltac:(lia)) as E. pose proof (Z.quot_pos (- x) u ltac:(lia) ltac:(lia)). lia.
Qed.
Lemma quot_ge x y u : 0 < u -> y * u <= x -> Z.min y 0 <= Z.quot x u.
Proof. intros Hu H. pose proof (Z.quot_opp_l x u ltac:(lia)) as E. pose proof (quot_le (- x) (- y) u Hu ltac:(lia)). lia. Qed.
Lemma quot_neg x y u : 0 < u -> x <= y * u -> y <= 0 -> Z.quot x u <= y.
Proof.
  intros Hu H Hy. pose proof (Z.quot_opp_l x u ltac:(lia)) as E. assert (- y <= Z.quot (- x) u); [|lia]. rewrite Z.quot_div_nonneg by nia. apply Z.div_le_lower_bound; lia.
Qed.
Lemma quot_pos_ge x y u : 0 < u -> y * u <= x -> 0 <= y -> y <= Z.quot x u.
Proof. intros Hu H Hy. rewrite Z.quot_div_nonneg by nia. apply Z.div_le_lower_bound; lia. Qed.
Lemma quot_lt x y u : 0 < u -> x < y * u -> 0 < y -> Z.quot x u < y.
Proof.
  intros Hu H Hy. destruct (Z.le_gt_cases 0 x); [rewrite Z.quot_div_nonneg by lia; apply Z.div_lt_upper_bound; lia|]. pose proof (quot_le x 0 u Hu ltac:(lia)). lia.
Qed.

Lemma f32_unit_pos : 0 < f32_unit.
Proof. done. Qed.

(** The bounds of the integer types as floats: the upper one may round up. *)
Definition upper_float (hi : Z) : Prop := f32_nan (f32_of_int hi) = false /\ exists B, f32_value (f32_of_int hi) = B * f32_unit /\ hi <= B <= hi + 1.
Lemma upper_floats : Forall upper_float [2 ^ 8 - 1; UINT16_MAX; UINT32_MAX; UINT64_MAX; 2 ^ 7 - 1; 2 ^ 15 - 1; 2 ^ 31 - 1; INT64_MAX].
Proof.
  repeat apply Forall_cons_2; [..|apply Forall_nil_2]; (split; [done|]);
    [exists (2 ^ 8 - 1)|exists UINT16_MAX|exists (2 ^ 32)|exists (2 ^ 64)|exists (2 ^ 7 - 1)|exists (2 ^ 15 - 1)|exists (2 ^ 31)|exists (2 ^ 63)]; (split; [reflexivity|]); unfold UINT16_MAX, UINT32_MAX, UINT64_MAX, INT64_MAX; lia.
Qed.

Section integers.
Context (source : list Z) (input : zdtype).
Hypothesis Hbytes : Forall byte source.
Hypothesis Hsize : zlen source = dtype_bpe input.
Hypothesis Hinput : input <> dtype_f64.

Lemma as_unsigned_saturated hi : 0 < hi <= UINT64_MAX -> upper_float hi -> dtype_as_unsigned source input hi = Some (saturated 0 hi (source_value source input)).
Proof.
  intros Hhi (Hn & B & HB & HB'). pose proof f32_unit_pos as Hu. unfold dtype_as_unsigned. destruct (dtype_unsigned input) eqn:Eu; [|destruct (dtype_signed input) eqn:Es].
  - destruct (load_unsigned source input Hbytes Hsize Eu) as [-> Hr]. cbn [mbind option_bind]. unfold source_value. rewrite Eu. cbn [saturated]. rewrite Z.quot_mul by lia. f_equal. case_match; lia.
  - destruct (load_signed source input Hbytes Hsize Es) as [-> Hr]. cbn [mbind option_bind]. unfold source_value. rewrite Eu, Es. cbn [saturated]. rewrite Z.quot_mul by lia.
    set (v := two_complement _ _) in *. destruct (Z.ltb_spec v 0); [f_equal; lia|]. rewrite u64_id by clia. f_equal. case_match; lia.
  - destruct (as_float_rounds source input Hbytes Hsize Hinput) as (b & -> & _ & _ & Hi). cbn [mbind option_bind]. destruct (Hi Eu Es) as [_ Hx]. unfold f32_lt, f32_le. rewrite Hn, HB.
    change (f32_nan 0) with false. change (f32_value 0) with 0. destruct (source_value source input) as [x|]; [|by rewrite Hx; cbn].
    destruct Hx as [Hnb Hv]. rewrite Hnb, Hv. cbn [negb andb saturated]. destruct (Z.ltb_spec 0 x) as [Hpos|Hneg]; cbn [negb].
    + destruct (Z.leb_spec (B * f32_unit) x) as [Hge|Hlt].
      * pose proof (quot_pos_ge x B f32_unit Hu Hge ltac:(lia)). f_equal. lia.
      * pose proof (quot_lt x B f32_unit Hu Hlt ltac:(lia)). pose proof (quot_pos_ge x 0 f32_unit Hu ltac:(lia) ltac:(lia)). unfold f32_to_u64, f32_trunc. rewrite Hnb, Hv. cbn [negb andb].
        rewrite !(proj2 (Z.leb_le _ _)) by lia. cbn [andb]. f_equal. lia.
    + pose proof (quot_neg x 0 f32_unit Hu ltac:(lia) ltac:(lia)). f_equal. lia.
Qed.

Lemma as_signed_saturated lo hi : - 2 ^ 63 <= lo < 0 -> 0 < hi <= INT64_MAX -> upper_float hi -> f32_nan (f32_of_int lo) = false -> f32_value (f32_of_int lo) = lo * f32_unit ->
  dtype_as_signed source input lo hi = Some (saturated lo hi (source_value source input)).
Proof.
  intros Hlo Hhi (Hn & B & HB & HB') Hln Hl. pose proof f32_unit_pos as Hu. unfold dtype_as_signed. destruct (dtype_unsigned input) eqn:Eu; [|destruct (dtype_signed input) eqn:Es].
  - destruct (load_unsigned source input Hbytes Hsize Eu) as [-> Hr]. cbn [mbind option_bind]. unfold source_value. rewrite Eu. cbn [saturated]. rewrite Z.quot_mul by lia. rewrite u64_id by clia. f_equal. case_match; lia.
  - destruct (load_signed source input Hbytes Hsize Es) as [-> Hr]. cbn [mbind option_bind]. unfold source_value. rewrite Eu, Es. cbn [saturated]. rewrite Z.quot_mul by lia. f_equal. repeat case_match; lia.
  - destruct (as_float_rounds source input Hbytes Hsize Hinput) as (b & -> & _ & _ & Hi). cbn [mbind option_bind]. destruct (Hi Eu Es) as [_ Hx]. unfold f32_le. rewrite Hn, Hln, HB, Hl.
    destruct (source_value source input) as [x|]; [|by rewrite Hx]. destruct Hx as [Hnb Hv]. rewrite Hnb, Hv. cbn [negb andb saturated]. destruct (Z.leb_spec x (lo * f32_unit)) as [Hmin|Hmin].
    + pose proof (quot_neg x lo f32_unit Hu Hmin ltac:(lia)). f_equal. lia.
    + pose proof (quot_ge x lo f32_unit Hu ltac:(lia)) as Hq. destruct (Z.leb_spec (B * f32_unit) x) as [Hge|Hlt].
      * pose proof (quot_pos_ge x B f32_unit Hu Hge ltac:(lia)). f_equal. lia.
      * pose proof (quot_lt x B f32_unit Hu Hlt ltac:(lia)). unfold f32_to_i64, f32_trunc. rewrite Hnb, Hv. cbn [negb andb]. rewrite !(proj2 (Z.leb_le _ _)) by lia. cbn [andb]. f_equal. lia.
Qed.
End integers.

(** The range of an integer output type. *)
Definition output_range (output : Z) : option (Z * Z) :=
  match output with
  | 2 => Some (0, 2 ^ 8 - 1) | 3 => Some (0, UINT16_MAX) | 4 => Some (0, UINT32_MAX) | 5 => Some (0, UINT64_MAX)
  | 6 => Some (- 2 ^ 7, 2 ^ 7 - 1) | 7 => Some (- 2 ^ 15, 2 ^ 15 - 1) | 8 => Some (- 2 ^ 31, 2 ^ 31 - 1) | 9 => Some (- 2 ^ 63, INT64_MAX)
  | _ => None
  end.

(** What an element becomes. *)
Definition converted (output : Z) (x : option Z) (bytes : list Z) : Prop :=
  match output_range output with
  | Some (lo, hi) => bytes = le_bytes (Z.to_nat (damacy_dtype_bpe output)) (saturated lo hi x)
  | None =>
      if output =? 0 then rounds 0 (le_value bytes) x
      else exists b, 0 <= b < 2 ^ 32 /\ rounds 0 b x /\ rounds 16 (le_value bytes * 2 ^ 16) (if f32_nan b then None else Some (f32_value b))
  end.

(** C13: [dtype_convert] from any type but [f64], which [cast_path_supported] refuses, to any output type
    never makes an undefined cast and stores as many bytes as the type has. For the
    integer types they are the value rounded toward zero and limited to the range of
    the type, 0 for a NaN, on signed, unsigned, half and single sources; for [f32] the
    nearest float, so half floats (subnormals, infinities and NaNs included) and small
    integers exactly; for [bf16] the brain float nearest to that float. *)
Theorem dtype_convert_correct output source input :
  0 <= output < 10 -> input <> dtype_f64 -> Forall byte source -> zlen source = dtype_bpe input ->
  exists bytes, dtype_convert output source input = Some bytes /\ zlen bytes = damacy_dtype_bpe output /\ Forall byte bytes /\ converted output (source_value source input) bytes.
Proof.
  intros Ho Hin Hb Hs. destruct (as_float_rounds source input Hb Hs Hin) as (b & Hf & Hr & Hround & _). pose proof upper_floats as HU. rewrite !Forall_cons in HU. destruct HU as (U1 & U2 & U3 & U4 & U5 & U6 & U7 & U8 & _).
  assert (output = 0 \/ output = 1 \/ output = 2 \/ output = 3 \/ output = 4 \/ output = 5 \/ output = 6 \/ output = 7 \/ output = 8 \/ output = 9) as Hc by lia.
  destruct Hc as [->|[->|[->|[->|[->|[->|[->|[->|[->| ->]]]]]]]]]; cbn [dtype_convert].
  1: { rewrite Hf. eexists. split; [done|]. rewrite length_le_bytes. split; [done|]. split; [apply le_bytes_byte|]. unfold converted. cbn [output_range]. rewrite le_value_bytes by (change (256 ^ Z.of_nat 4) with (2 ^ 32); lia). done. }
  1: { rewrite Hf. cbn [mbind option_bind]. eexists. split; [done|]. rewrite length_le_bytes. split; [done|]. split; [apply le_bytes_byte|]. destruct (float_to_bfloat_nearest b Hr) as [Hr2 Hn2].
       exists b. split; [done|]. split; [done|]. rewrite le_value_bytes by (change (256 ^ Z.of_nat 2) with (2 ^ 16); lia). done. }
  all: rewrite ?as_unsigned_saturated, ?as_signed_saturated by (try done; lia). all: eexists; (split; [reflexivity|]); rewrite length_le_bytes; (split; [done|]); (split; [apply le_bytes_byte|reflexivity]).
Qed.

(** ** An example *)

Module Example.
(** -1.5 in half precision is -1 as an [i8], 0 as a [u16], and itself as a float. *)
Lemma dtype_convert_correct_witness :
  source_value (le_bytes 2 0xbe00) dtype_f16 = Some (- (3 * 2 ^ 148)) /\
  dtype_convert 6 (le_bytes 2 0xbe00) dtype_f16 = Some [255] /\ dtype_convert 3 (le_bytes 2 0xbe00) dtype_f16 = Some [0; 0] /\
  exists bytes, dtype_convert 0 (le_bytes 2 0xbe00) dtype_f16 = Some bytes /\ bytes = le_bytes 4 0xbfc00000 /\ nearest 0 (le_value bytes) (- (3 * 2 ^ 148)).
Proof.
  destruct (dtype_convert_correct 0 (le_bytes 2 0xbe00) dtype_f16) as (bytes & E & _ & _ & Hc); [done|done|apply le_bytes_byte|done|].
  split; [reflexivity|]. split; [reflexivity|]. split; [reflexivity|]. exists bytes. split; [done|]. split; [vm_compute in E; by injection E as <-|]. exact Hc.
Defined.
End Example.
