(* ===== verification/ChunkLayout.v ===== *)
(** * Chunk headers

    [src/src/zarr/zarr_chunk_layout.c]: decoding the 16-byte blosc1 header of a
    chunk into the layout the wave pool sizes its buffers with. *)

From stdpp Require Import strings.
From S2P Require Import Prelude DispatchTypes Plan Crc ShardFooter.

#[local] Open Scope Z_scope.

Definition BLOSC1_HEADER_BYTES : Z := 16.
Definition DAMACY_BLOSC_MAX_CHUNK_UNCOMPRESSED_BYTES : Z := Z.shiftl 16 20.

Definition read_u32_le (p : list Z) (at_ : Z) : option Z := load_le_u32 p at_.

Definition is_blosc (codec_id : Z) : bool :=
  (codec_id =? codec_value CODEC_BLOSC_ZSTD) || (codec_id =? codec_value CODEC_BLOSC_LZ4).

(** A C truth value. *)
Definition nz (z : Z) : bool := negb (z =? 0).

(** The return code and [*out]. *)
Definition zarr_chunk_layout_parse_header (header : option (list Z)) (first_chunk_cbytes codec_id max_substreams_per_chunk : Z)
    (out : option chunk_layout) : option (Z * option chunk_layout) :=
  match header, out with
  | Some p, Some _ =>
      if negb (is_blosc codec_id) then Some (1, out)
      else if first_chunk_cbytes <? BLOSC1_HEADER_BYTES then Some (1, out)
      else
        version ← aget p 0;
        versionlz ← aget p 1;
        flags ← aget p 2;
        typesize ← aget p 3;
        nbytes ← read_u32_le p 4;
        blocksize ← read_u32_le p 8;
        cbytes ← read_u32_le p 12;
        if (version <? 1) || (2 <? version) || negb (cbytes =? first_chunk_cbytes) then Some (1, out)
        else if (nbytes =? 0) || (DAMACY_BLOSC_MAX_CHUNK_UNCOMPRESSED_BYTES <? nbytes) || (blocksize =? 0) ||
             (nbytes <? blocksize) || (typesize =? 0) || (8 <? typesize) ||
             nz (nbytes mod typesize) || nz (blocksize mod typesize) then Some (1, out)
        else
          let memcpyed := Z.land (Z.shiftr flags 1) 1 in
          let compformat := if codec_id =? codec_value CODEC_BLOSC_LZ4 then 1 else 4 in
          if (if nz memcpyed then negb (u32 (first_chunk_cbytes - BLOSC1_HEADER_BYTES) =? nbytes)
              else negb (versionlz =? 1) || negb (Z.shiftr flags 5 =? compformat) || nz (Z.land flags 8))
          then Some (1, out)
          else
            let rest := if nz (nbytes mod blocksize) then 1 else 0 in
            let nblocks := u32 (nbytes / blocksize + rest) in
            let nsplits := if negb (nz (Z.land flags 0x10)) && (128 <=? blocksize / typesize) then typesize else 1 in
            let nsubstreams := u32 (u32 (nbytes / blocksize * nsplits) + rest) in
            if (max_substreams_per_chunk <? nsubstreams) ||
               (negb (nz memcpyed) && (u32 (first_chunk_cbytes - BLOSC1_HEADER_BYTES) / 4 <? nblocks))
            then Some (1, out)
            else
              Some (0, Some (ChunkLayout codec_id typesize (Z.land flags 1) (Z.land (Z.shiftr flags 2) 1)
                               (Z.land (Z.shiftr flags 4) 1) (Z.land (Z.shiftr flags 1) 1)
                               blocksize nbytes nblocks nsubstreams))
  | _, _ => Some (1, out)
  end.

(** [store_read_many] of one range: the bytes, or [None] when the read fails. *)
Definition zarr_chunk_layout_probe (store_read : string -> Z -> Z -> option (list Z)) (shard_path : option string)
    (first_chunk_off first_chunk_cbytes codec_id max_substreams_per_chunk : Z) (out : option chunk_layout)
    : option (Z * option chunk_layout) :=
  match shard_path, out with
  | Some path, Some _ =>
      if negb (is_blosc codec_id) then Some (1, out)
      else if first_chunk_cbytes <? BLOSC1_HEADER_BYTES then Some (1, out)
      else
        match store_read path first_chunk_off BLOSC1_HEADER_BYTES with
        | None => Some (1, out)
        | Some header =>
            zarr_chunk_layout_parse_header (Some header) first_chunk_cbytes codec_id max_substreams_per_chunk out
        end
  | _, _ => Some (1, out)
  end.

(** ** The format *)

(** The fields of a header. *)
Record blosc_header := BloscHeader {
  h_version : Z; h_versionlz : Z; h_flags : Z; h_typesize : Z; h_nbytes : Z; h_blocksize : Z; h_cbytes : Z }.

Definition header_bytes (h : blosc_header) : list Z :=
  [h_version h; h_versionlz h; h_flags h; h_typesize h] ++
  le_bytes 4 (h_nbytes h) ++ le_bytes 4 (h_blocksize h) ++ le_bytes 4 (h_cbytes h).

Definition header_fits (h : blosc_header) : Prop :=
  byte (h_version h) /\ byte (h_versionlz h) /\ byte (h_flags h) /\ byte (h_typesize h) /\
  is_u32 (h_nbytes h) /\ is_u32 (h_blocksize h) /\ is_u32 (h_cbytes h).

Definition flag (h : blosc_header) (k : Z) : bool := Z.testbit (h_flags h) k.
Definition splits (h : blosc_header) : Z :=
  if negb (flag h 4) && (128 <=? h_blocksize h / h_typesize h) then h_typesize h else 1.
Definition n_blocks (h : blosc_header) : Z := (h_nbytes h + h_blocksize h - 1) / h_blocksize h.
(** The last block, when shorter than the others, is never split. *)
Definition n_substreams (h : blosc_header) : Z :=
  h_nbytes h / h_blocksize h * splits h + (if decide (h_nbytes h mod h_blocksize h = 0) then 0 else 1).

(** The headers the decoder can handle. *)
Definition header_ok (codec_id cbytes max_substreams : Z) (h : blosc_header) : Prop :=
  (codec_id = 2 \/ codec_id = 3) /\ 16 <= cbytes /\ h_cbytes h = cbytes /\ 1 <= h_version h <= 2 /\
  0 < h_blocksize h <= h_nbytes h /\ h_nbytes h <= 2 ^ 24 /\ 1 <= h_typesize h <= 8 /\
  (h_typesize h | h_nbytes h) /\ (h_typesize h | h_blocksize h) /\ n_substreams h <= max_substreams /\
  (if flag h 1 then cbytes = 16 + h_nbytes h
   else h_versionlz h = 1 /\ h_flags h / 32 = (if decide (codec_id = 2) then 1 else 4) /\ flag h 3 = false /\
        16 + 4 * n_blocks h <= cbytes).

Definition layout_of (codec_id : Z) (h : blosc_header) : chunk_layout :=
  ChunkLayout codec_id (h_typesize h) (Z.b2z (flag h 0)) (Z.b2z (flag h 2)) (Z.b2z (flag h 4)) (Z.b2z (flag h 1))
    (h_blocksize h) (h_nbytes h) (n_blocks h) (n_substreams h).

(** ** Proof *)

Lemma land_bit x k : 0 <= k -> Z.land (Z.shiftr x k) 1 = Z.b2z (Z.testbit x k).
Proof.
  intros Hk. change 1 with (Z.ones 1). rewrite Z.land_ones by done. rewrite Z.testbit_spec', Z.shiftr_div_pow2 by done.
  done.
Qed.

Lemma nz_b2z b : nz (Z.b2z b) = b.
Proof. by destruct b. Qed.

Lemma nz_pow2 x k : 0 <= k -> nz (Z.land x (2 ^ k)) = Z.testbit x k.
Proof.
  intros Hk. unfold nz. destruct (Z.testbit x k) eqn:E.
  - apply negb_true_iff, Z.eqb_neq. intros H0. apply (f_equal (fun z => Z.testbit z k)) in H0.
    rewrite Z.land_spec, E, Z.pow2_bits_true, Z.bits_0 in H0 by done. done.
  - apply negb_false_iff, Z.eqb_eq. apply Z.bits_inj'. intros n Hn. rewrite Z.land_spec, Z.bits_0.
    destruct (decide (n = k)) as [->|]; [by rewrite E|]. rewrite Z.pow2_bits_false by lia. apply andb_false_r.
Qed.

Lemma header_fields h :
  header_fits h ->
  aget (header_bytes h) 0 = Some (h_version h) /\ aget (header_bytes h) 1 = Some (h_versionlz h) /\
  aget (header_bytes h) 2 = Some (h_flags h) /\ aget (header_bytes h) 3 = Some (h_typesize h) /\
  read_u32_le (header_bytes h) 4 = Some (h_nbytes h) /\ read_u32_le (header_bytes h) 8 = Some (h_blocksize h) /\
  read_u32_le (header_bytes h) 12 = Some (h_cbytes h).
Proof.
  intros (B0 & B1 & B2 & B3 & U1 & U2 & U3). split_and!; try done; unfold read_u32_le.
  all: assert (Forall byte (header_bytes h)) as HB by
    (unfold header_bytes; apply Forall_app; split; [repeat apply Forall_cons_2; try done; apply Forall_nil_2|];
     rewrite !Forall_app; split_and!; apply le_bytes_byte).
  all: assert (zlen (header_bytes h) = 16) as HL by (unfold header_bytes; rewrite !length_app, !length_le_bytes; done).
  all: rewrite load_le_u32_spec by (done || lia); f_equal.
  - change (drop (Z.to_nat 4) (header_bytes h)) with
      (le_bytes 4 (h_nbytes h) ++ le_bytes 4 (h_blocksize h) ++ le_bytes 4 (h_cbytes h)).
    rewrite take_app_length' by (by rewrite length_le_bytes). by apply le_value_bytes.
  - change (drop (Z.to_nat 8) (header_bytes h)) with (le_bytes 4 (h_blocksize h) ++ le_bytes 4 (h_cbytes h)).
    rewrite take_app_length' by (by rewrite length_le_bytes). by apply le_value_bytes.
  - change (drop (Z.to_nat 12) (header_bytes h)) with (le_bytes 4 (h_cbytes h)).
    rewrite take_ge by (by rewrite length_le_bytes). by apply le_value_bytes.
Qed.

(** Block counts, without the overflow of [nbytes + blocksize - 1]. *)
Lemma n_blocks_code h :
  0 < h_blocksize h -> 0 <= h_nbytes h ->
  n_blocks h = h_nbytes h / h_blocksize h + (if nz (h_nbytes h mod h_blocksize h) then 1 else 0).
Proof.
  intros Hb Hn. unfold n_blocks, nz. pose proof (Z.div_mod (h_nbytes h) (h_blocksize h) ltac:(lia)) as Hd.
  pose proof (Z.mod_pos_bound (h_nbytes h) (h_blocksize h) Hb) as Hm.
  destruct (Z.eqb_spec (h_nbytes h mod h_blocksize h) 0) as [E|E]; cbn [negb]; symmetry.
  - apply (Z.div_unique_pos _ _ _ (h_blocksize h - 1)); lia.
  - apply (Z.div_unique_pos _ _ _ (h_nbytes h mod h_blocksize h - 1)); lia.
Qed.

Lemma nz_divide a b : 0 < b -> nz (a mod b) = false <-> (b | a).
Proof. intros Hb. unfold nz. rewrite negb_false_iff, Z.eqb_eq. split; [apply Z.mod_divide; lia|intros ?; by apply Z.mod_divide; [lia|]]. Qed.

(** The counts fit their 32 bits. *)
Lemma counts_fit h :
  0 < h_blocksize h <= h_nbytes h -> h_nbytes h <= 2 ^ 24 -> 1 <= h_typesize h <= 8 ->
  let rest := if nz (h_nbytes h mod h_blocksize h) then 1 else 0 in
  u32 (h_nbytes h / h_blocksize h + rest) = n_blocks h /\
  u32 (u32 (h_nbytes h / h_blocksize h * splits h) + rest) = n_substreams h.
Proof.
  intros Hb Hn Ht rest.
  assert (0 <= h_nbytes h / h_blocksize h <= 2 ^ 24) as Hq.
  { split; [apply Z.div_pos; lia|]. etrans; [|exact Hn]. apply Z.div_le_upper_bound; nia. }
  assert (1 <= splits h <= 8) as Hs by (unfold splits; destruct (_ && _); lia).
  assert (0 <= rest <= 1) as Hr by (unfold rest; destruct (nz _); lia).
  assert (0 <= h_nbytes h / h_blocksize h * splits h <= 2 ^ 27) as Hm by nia.
  rewrite (u32_id (h_nbytes h / h_blocksize h + rest)) by clia.
  rewrite (u32_id (h_nbytes h / h_blocksize h * splits h)) by clia. rewrite u32_id by clia. split.
  - symmetry. apply n_blocks_code; lia.
  - unfold n_substreams, rest, nz. destruct (Z.eqb_spec (h_nbytes h mod h_blocksize h) 0) as [E|E]; cbn [negb].
    + by rewrite decide_True.
    + by rewrite decide_False.
Qed.

(** C21: on the bytes of any header the parser stays in bounds and accepts exactly
    the headers the decoder can handle: consistent sizes, a known format, at most
    [max_substreams_per_chunk] streams, and a block table that fits in the chunk.
    The layout has the header's fields and the exact block and stream counts; a
    rejected header leaves [*out] alone. *)
Theorem chunk_layout_parse_correct h cbytes codec_id max_substreams out :
  header_fits h -> is_u32 cbytes -> is_u32 max_substreams -> is_u8 codec_id ->
  exists r out', zarr_chunk_layout_parse_header (Some (header_bytes h)) cbytes codec_id max_substreams (Some out) =
      Some (r, Some out') /\
    (header_ok codec_id cbytes max_substreams h -> r = 0 /\ out' = layout_of codec_id h) /\
    (~ header_ok codec_id cbytes max_substreams h -> r = 1 /\ out' = out).
Proof.
  intros Hfit Hcb Hmax Hcodec. pose proof Hfit as (B0 & B1 & B2 & B3 & U1 & U2 & U3).
  destruct (header_fields h Hfit) as (F0 & F1 & F2 & F3 & F4 & F5 & F6).
  assert (~ header_ok codec_id cbytes max_substreams h ->
    exists r out', Some (1, Some out) = Some (r, Some out') /\
      (header_ok codec_id cbytes max_substreams h -> r = 0 /\ out' = layout_of codec_id h) /\
      (~ header_ok codec_id cbytes max_substreams h -> r = 1 /\ out' = out)) as Hrej.
  { intros Hno. exists 1, out. split_and!; [done| |done]. intros ?. contradiction. }
  unfold zarr_chunk_layout_parse_header.
  destruct (is_blosc codec_id) eqn:Ebl; cbn [negb].
  2: { apply Hrej. intros (Hc & _). unfold is_blosc in Ebl. cbn in Ebl. lia. }
  destruct (Z.ltb_spec cbytes BLOSC1_HEADER_BYTES) as [|Hc16]; unfold BLOSC1_HEADER_BYTES in *.
  { apply Hrej. intros (_ & ? & _). lia. }
  rewrite F0, F1, F2, F3, F4, F5, F6. cbn [mbind option_bind].
  destruct ((h_version h <? 1) || (2 <? h_version h) || negb (h_cbytes h =? cbytes)) eqn:E1.
  { apply Hrej. intros (_ & _ & ? & ? & _). lia. }
  match goal with |- context [if ?c then Some (1, Some out) else _] => destruct c eqn:E2 end.
  { apply Hrej. intros (_ & _ & _ & _ & Hb & Hn & Ht & Hd1 & Hd2 & _).
    apply nz_divide in Hd1; [|lia]. apply nz_divide in Hd2; [|lia]. rewrite Hd1, Hd2 in E2.
    change DAMACY_BLOSC_MAX_CHUNK_UNCOMPRESSED_BYTES with (2 ^ 24) in E2. clia. }
  change DAMACY_BLOSC_MAX_CHUNK_UNCOMPRESSED_BYTES with (2 ^ 24) in E2.
  rewrite !orb_false_iff in E2. destruct E2 as (((((((N1 & N2) & N3) & N4) & N5) & N6) & D1) & D2).
  assert (0 < h_blocksize h <= h_nbytes h /\ h_nbytes h <= 2 ^ 24 /\ 1 <= h_typesize h <= 8) as (Hb & Hn & Ht).
  { unfold is_u32, byte in *. lia. }
  rewrite (u32_id (cbytes - 16)) by clia.
  replace (if negb (nz (Z.land (h_flags h) 16)) && (128 <=? h_blocksize h / h_typesize h) then h_typesize h else 1)
    with (splits h) by (unfold splits, flag; by rewrite (nz_pow2 _ 4)).
  destruct (counts_fit h Hb Hn Ht) as [-> ->].
  rewrite !land_bit by done. rewrite nz_b2z. fold (flag h 1). rewrite (nz_pow2 _ 3) by done. fold (flag h 3).
  assert (Z.shiftr (h_flags h) 5 = h_flags h / 32) as Hsh by (by rewrite Z.shiftr_div_pow2).
  rewrite Hsh.
  match goal with |- context [if (if flag h 1 then ?a else ?b) then _ else _] =>
    destruct (if flag h 1 then a else b) eqn:E3 end.
  { apply Hrej. intros (_ & _ & _ & _ & _ & _ & _ & _ & _ & _ & Hfmt). destruct (flag h 1); [lia|].
    destruct Hfmt as (Hv & Hf & Hf3 & _). rewrite Hv, Hf, Hf3 in E3. cbn in E3.
    destruct (Z.eqb_spec codec_id 2), (decide (codec_id = 2)); cbn in E3; done || lia. }
  destruct ((max_substreams <? n_substreams h) || negb (flag h 1) && ((cbytes - 16) / 4 <? n_blocks h)) eqn:E4.
  { apply Hrej. intros (_ & _ & _ & _ & _ & _ & _ & _ & _ & Hs & Hfmt). destruct (flag h 1); cbn in E4; [lia|].
    destruct Hfmt as (_ & _ & _ & Hf). assert (n_blocks h <= (cbytes - 16) / 4); [|lia]. apply Z.div_le_lower_bound; lia. }
  exists 0. eexists. split; [done|]. split.
  { intros _. split; [done|]. unfold layout_of. f_equal. unfold flag.
    by rewrite <-(land_bit (h_flags h) 0), Z.shiftr_0_r by done. }
  intros Hno. exfalso. apply Hno.
  apply orb_false_iff in E4 as [E4 E5].
  split_and!; try lia.
  - unfold is_blosc in Ebl. cbn in Ebl. lia.
  - by apply nz_divide; [lia|].
  - by apply nz_divide; [lia|].
  - destruct (flag h 1); cbn in E5; [lia|]. apply orb_false_iff in E3 as [E3 E6]. apply orb_false_iff in E3 as [E3 E7].
    split_and!; [lia| |done|].
    + cbn in E7. destruct (Z.eqb_spec codec_id 2), (decide (codec_id = 2)); done || lia.
    + pose proof (Z.mul_div_le (cbytes - 16) 4 ltac:(lia)). lia.
Qed.

(** The header of a 256-byte chunk of shuffled 2-byte elements stored by a copy. *)
Lemma chunk_layout_parse_correct_witness :
  zarr_chunk_layout_parse_header (Some (header_bytes (BloscHeader 2 1 3 2 256 256 272))) 272 2 32 (Some chunk_layout_zero) =
    Some (0, Some (ChunkLayout 2 2 1 0 0 1 256 256 1 2)).
Proof.
  destruct (chunk_layout_parse_correct (BloscHeader 2 1 3 2 256 256 272) 272 2 32 chunk_layout_zero)
    as (r & out' & Hp & Hok & _); [repeat split; discriminate|split; [discriminate|reflexivity]..|].
  rewrite Hp. destruct Hok as [-> ->]; [|reflexivity].
  split_and!; try reflexivity; try discriminate; [by left|by exists 128|by exists 128].
Defined.
