(* ===== verification/ShardIter.v ===== *)
(** * The shards of a sample

    [src/src/zarr/sample_shard_iterator.c]: the odometer that enumerates the shards
    a sample's bounding box meets. *)

From stdpp Require Import strings.
From S2P Require Import Prelude Selection SelectionGrid Plan.

#[local] Open Scope Z_scope.

Record sample_shard_iterator := ShardIterator {
  it_rank : Z; shard_beg : list Z; shard_end : list Z; it_cursor : list Z; finished : bool }.

(** The loop of [sample_shard_iterator_init]; the inner [None] is a failed check. *)
Fixpoint init_loop (n : nat) (meta : zarr_metadata) (aabb : damacy_aabb) (d : Z) (it : sample_shard_iterator)
    : option (option sample_shard_iterator) :=
  match n with
  | O => Some (Some it)
  | S n =>
      chunk_extent ← aget (inner_chunk_shape meta) d;
      shard_extent ← aget (shard_shape meta) d;
      if negb (0 <? chunk_extent) || negb (0 <? shard_extent) || negb (shard_extent mod chunk_extent =? 0)
      then Some None
      else
        let inner_per_shard := shard_extent / chunk_extent in
        iv ← aget (dims aabb) d;
        extent ← aget (shape meta) d;
        if negb (0 <=? beg iv) || negb (beg iv <? end_ iv) || negb (end_ iv <=? extent) then Some None
        else
          let chunk_beg := beg iv / chunk_extent in
          let chunk_end := u64 ((end_ iv - 1) / chunk_extent + 1) in
          let sb := chunk_beg / inner_per_shard in
          let se := u64 (u64 (chunk_end - 1) / inner_per_shard + 1) in
          b ← aset (shard_beg it) d sb;
          e ← aset (shard_end it) d se;
          c ← aset (it_cursor it) d sb;
          init_loop n meta aabb (d + 1) (ShardIterator (it_rank it) b e c (finished it))
  end.

(** [None] is the error return; the arrays start zeroed. *)
Definition sample_shard_iterator_init (meta : zarr_metadata) (aabb : damacy_aabb) : option (option sample_shard_iterator) :=
  let zeros := repeat 0 (Z.to_nat DAMACY_MAX_RANK) in
  if negb (aabb_rank aabb =? m_rank meta) || negb (0 <? m_rank meta) || negb (m_rank meta <=? DAMACY_MAX_RANK)
  then Some None
  else init_loop (Z.to_nat (m_rank meta)) meta aabb 0 (ShardIterator (m_rank meta) zeros zeros zeros false).

(** [while (d >= 0)] with [d = n - 1]; [true] when a digit could be advanced. *)
Fixpoint advance_loop (n : nat) (b e c : list Z) : option (bool * list Z) :=
  match n with
  | O => Some (false, c)
  | S n =>
      let d := Z.of_nat n in
      x ← aget c d;
      c ← aset c d (u64 (x + 1));
      hi ← aget e d;
      if u64 (x + 1) <? hi then Some (true, c)
      else
        lo ← aget b d;
        c ← aset c d lo;
        advance_loop n b e c
  end.

(** The coordinate, [None] when the iteration is over. *)
Definition sample_shard_iterator_next (it : sample_shard_iterator) : option (option (list Z) * sample_shard_iterator) :=
  if finished it then Some (None, it)
  else
    let out := take (Z.to_nat (it_rank it)) (it_cursor it) in
    r ← advance_loop (Z.to_nat (it_rank it)) (shard_beg it) (shard_end it) (it_cursor it);
    Some (Some out, ShardIterator (it_rank it) (shard_beg it) (shard_end it) (snd r) (negb (fst r))).

(** The caller's [while (sample_shard_iterator_next(&it, out))]. *)
Fixpoint shards_drain (fuel : nat) (it : sample_shard_iterator) : option (list (list Z)) :=
  match fuel with
  | O => None
  | S fuel =>
      r ← sample_shard_iterator_next it;
      match r with
      | (None, _) => Some []
      | (Some c, it) => cs ← shards_drain fuel it; Some (c :: cs)
      end
  end.

(** ** Odometers *)

(** A digit: its first value, its bound, its current value. *)
Record digit := Digit { lo : Z; hi : Z; now : Z }.
Definition rewind (x : digit) : digit := Digit (lo x) (hi x) (lo x).
Definition values (x : digit) : list Z := seqZ (lo x) (hi x - lo x).

Fixpoint step (xs : list digit) : option (list digit) :=
  match xs with
  | [] => None
  | x :: xs =>
      match step xs with
      | Some xs' => Some (x :: xs')
      | None => if now x + 1 <? hi x then Some (Digit (lo x) (hi x) (now x + 1) :: (rewind <$> xs)) else None
      end
  end.

(** What is left, the current reading first. *)
Fixpoint rest (xs : list digit) : list (list Z) :=
  match xs with
  | [] => [[]]
  | x :: xs =>
      (cons (now x) <$> rest xs) ++ (seqZ (now x + 1) (hi x - now x - 1) ≫= fun y => cons y <$> cart (values <$> xs))
  end.

Definition digit_ok (x : digit) : Prop := lo x <= now x < hi x.

Lemma values_rewind (xs : list digit) : values <$> (rewind <$> xs) = values <$> xs.
Proof. rewrite <-list_fmap_compose. by apply list_fmap_ext. Qed.

Lemma rest_rewind xs : Forall digit_ok xs -> rest (rewind <$> xs) = cart (values <$> xs).
Proof.
  induction 1 as [|x xs Hx _ IH]; [done|]. rewrite !fmap_cons. cbn [rest cart]. rewrite IH.
  change (values x) with (seqZ (lo x) (hi x - lo x)). unfold digit_ok in Hx. rewrite (seqZ_cons (lo x)) by lia. cbn [rewind lo hi now].
  rewrite values_rewind, bind_cons. do 2 f_equal; lia.
Qed.

Lemma step_values xs xs' : step xs = Some xs' -> values <$> xs' = values <$> xs.
Proof.
  revert xs'. induction xs as [|x xs IH]; intros xs' Hs; cbn in Hs; [done|].
  destruct (step xs) as [ys|].
  - injection Hs as <-. rewrite !fmap_cons. f_equal. by apply IH.
  - destruct (now x + 1 <? hi x); [|done]. injection Hs as <-. rewrite !fmap_cons, values_rewind. done.
Qed.

Lemma rest_step xs :
  Forall digit_ok xs ->
  rest xs = (now <$> xs) :: match step xs with Some xs' => rest xs' | None => [] end.
Proof.
  induction 1 as [|x xs Hx Hxs IH]; [done|]. cbn [rest step]. rewrite IH, !fmap_cons. cbn [app]. f_equal.
  unfold digit_ok in Hx. destruct (step xs) as [xs'|] eqn:E; [cbn [rest]; by rewrite (step_values _ _ E)|].
  cbn [fmap list_fmap app].
  destruct (Z.ltb_spec (now x + 1) (hi x)) as [Hlt|Hge].
  - rewrite seqZ_cons by lia. cbn [rest now hi lo]. rewrite bind_cons, rest_rewind by done. f_equal.
    rewrite values_rewind. f_equal. f_equal; lia.
  - by rewrite seqZ_nil by lia.
Qed.

Lemma step_ok xs xs' : Forall digit_ok xs -> step xs = Some xs' -> Forall digit_ok xs' /\ length xs' = length xs.
Proof.
  intros Hok. revert xs'. induction Hok as [|x xs Hx Hxs IH]; intros xs' Hs; cbn in Hs; [done|].
  destruct (step xs) as [ys|] eqn:E.
  - injection Hs as <-. destruct (IH ys eq_refl). split; [by constructor|cbn; lia].
  - destruct (Z.ltb_spec (now x + 1) (hi x)); [|done]. injection Hs as <-. split; [|cbn; by rewrite length_fmap].
    unfold digit_ok in *. constructor; [cbn; lia|]. apply Forall_fmap. eapply Forall_impl; [exact Hxs|].
    intros y. unfold rewind. cbn. lia.
Qed.

Lemma step_snoc xs x :
  step (xs ++ [x]) =
    if now x + 1 <? hi x then Some (xs ++ [Digit (lo x) (hi x) (now x + 1)])
    else option_map (fun xs' => xs' ++ [rewind x]) (step xs).
Proof.
  induction xs as [|y xs IH]; cbn [app step].
  - by destruct (now x + 1 <? hi x).
  - rewrite IH. destruct (now x + 1 <? hi x); [done|]. destruct (step xs); cbn; [done|].
    destruct (now y + 1 <? hi y); [|done]. cbn. by rewrite fmap_app.
Qed.

(** ** The code's odometer *)

(** The first digits of the arrays. *)
Definition digits (n : nat) (b e c : list Z) : list digit :=
  zip_with (fun p now => Digit (fst p) (snd p) now) (zip (take n b) (take n e)) (take n c).

Lemma digits_S n b e c vb ve vc :
  b !! n = Some vb -> e !! n = Some ve -> c !! n = Some vc ->
  digits (S n) b e c = digits n b e c ++ [Digit vb ve vc].
Proof.
  intros Hb He Hc. unfold digits. rewrite (take_S_r _ _ _ Hb), (take_S_r _ _ _ He), (take_S_r _ _ _ Hc).
  rewrite zip_with_app by (rewrite !length_take; apply lookup_lt_Some in Hb, He; lia).
  rewrite zip_with_app; [done|]. rewrite length_zip_with, !length_take. apply lookup_lt_Some in Hb, He, Hc. lia.
Qed.

Lemma digits_take n b e c c' : take n c' = take n c -> digits n b e c' = digits n b e c.
Proof. intros H. unfold digits. by rewrite H. Qed.

Lemma advance_loop_spec n : forall b e c,
  (n <= length b)%nat -> (n <= length e)%nat -> (n <= length c)%nat ->
  Forall (fun x => digit_ok x /\ 0 <= lo x /\ hi x < 2 ^ 64) (digits n b e c) ->
  exists m c', advance_loop n b e c = Some (m, c') /\ length c' = length c /\ drop n c' = drop n c /\
    match step (digits n b e c) with
    | Some xs' => m = true /\ digits n b e c' = xs'
    | None => m = false
    end.
Proof.
  induction n as [|n IH]; intros b e c Hb He Hc Hok; cbn [advance_loop].
  { exists false, c. done. }
  destruct (lookup_lt_is_Some_2 b n) as [vb Hvb]; [lia|]. destruct (lookup_lt_is_Some_2 e n) as [ve Hve]; [lia|].
  destruct (lookup_lt_is_Some_2 c n) as [vc Hvc]; [lia|]. rewrite !aget_nat, Hvb, Hve, Hvc. cbn [mbind option_bind].
  rewrite (digits_S n b e c vb ve vc) in Hok |- * by done. apply Forall_app in Hok as [Hok [[Hx [H0 H64]] _]%Forall_cons].
  unfold digit_ok in Hx. cbn in Hx, H0, H64. rewrite step_snoc. cbn [now hi lo rewind].
  rewrite aset_range by lia. cbn [mbind option_bind]. rewrite (u64_id (vc + 1)) by clia. rewrite Nat2Z.id.
  destruct (Z.ltb_spec (vc + 1) ve) as [Hlt|Hge].
  - exists true, (<[n:=vc + 1]> c). split; [done|]. split; [by rewrite length_insert|].
    split; [apply drop_insert_lt; lia|].
    split; [done|]. rewrite (digits_S n b e _ vb ve (vc + 1)); [|done|done|by apply list_lookup_insert_eq; lia].
    f_equal. apply digits_take. by apply take_insert_ge.
  - rewrite aset_range by (rewrite length_insert; lia). cbn [mbind option_bind]. rewrite Nat2Z.id, list_insert_insert_eq.
    assert (digits n b e (<[n:=vb]> c) = digits n b e c) as Hdg by (apply digits_take; by apply take_insert_ge).
    destruct (IH b e (<[n:=vb]> c)) as (m & c' & Ha & Hl & Hd & Hs); [lia|lia|rewrite length_insert; lia|by rewrite Hdg|].
    rewrite length_insert in Hl. exists m, c'. split; [done|]. split; [done|].
    assert (c' !! n = Some vb) as Hcn.
    { rewrite <-(Nat.add_0_r n), <-lookup_drop, Hd, lookup_drop, Nat.add_0_r. apply list_lookup_insert_eq. lia. }
    split.
    { apply (f_equal (drop 1)) in Hd. rewrite !drop_drop, Nat.add_1_r in Hd. rewrite Hd. apply drop_insert_lt. lia. }
    rewrite Hdg in Hs. destruct (step (digits n b e c)) as [xs'|]; cbn [option_map]; [|done].
    destruct Hs as [-> <-]. split; [done|]. by apply digits_S.
Qed.

(** ** Draining *)

Record odometer (it : sample_shard_iterator) (xs : list digit) : Prop := {
  od_rank : 0 <= it_rank it;
  od_beg : it_rank it <= zlen (shard_beg it);
  od_end : it_rank it <= zlen (shard_end it);
  od_cursor : it_rank it <= zlen (it_cursor it);
  od_digits : digits (Z.to_nat (it_rank it)) (shard_beg it) (shard_end it) (it_cursor it) = xs;
  od_ok : Forall (fun x => digit_ok x /\ 0 <= lo x /\ hi x < 2 ^ 64) xs }.

Lemma digits_now n b e c :
  (n <= length b)%nat -> (n <= length e)%nat -> (n <= length c)%nat -> now <$> digits n b e c = take n c.
Proof.
  intros Hb He Hc. unfold digits. rewrite fmap_zip_with_r; [done|done|].
  rewrite length_zip_with, !length_take. lia.
Qed.

Lemma iterator_drain_spec fuel : forall it xs,
  odometer it xs -> finished it = false -> (length (rest xs) < fuel)%nat ->
  shards_drain fuel it = Some (rest xs).
Proof.
  induction fuel as [|fuel IH]; intros it xs Hod Hfin Hf; [lia|]. pose proof Hod as [Hr Hb He Hc Hd Hok].
  cbn [shards_drain]. unfold sample_shard_iterator_next. rewrite Hfin.
  assert (Forall digit_ok xs) as Hok1 by (eapply Forall_impl; [exact Hok|]; by intros ? [? _]).
  destruct (advance_loop_spec (Z.to_nat (it_rank it)) (shard_beg it) (shard_end it) (it_cursor it))
    as (m & c' & -> & Hl & Hdr & Hs); [lia..|by rewrite Hd|]. cbn [mbind option_bind fst snd].
  rewrite Hd in Hs. rewrite <-(digits_now _ (shard_beg it) (shard_end it)) by lia. rewrite Hd.
  rewrite (rest_step xs Hok1) in Hf |- *. destruct (step xs) as [xs'|] eqn:Es.
  - destruct Hs as [-> Hd']. cbn [negb]. rewrite (IH _ xs'); [done| |done|cbn in Hf; lia].
    constructor; cbn; try done; [lia|].
    rewrite Forall_forall in Hok |- *. destruct (step_ok _ _ Hok1 Es) as [Hok' _]. rewrite Forall_forall in Hok'.
    intros x Hx. split; [by apply Hok'|].
    assert ((lo x, hi x) ∈ ((fun x => (lo x, hi x)) <$> xs)) as (y & [= -> ->] & Hy)%list_elem_of_fmap; [|by apply Hok].
    assert ((fun x => (lo x, hi x)) <$> xs' = (fun x => (lo x, hi x)) <$> xs) as <-; [|apply list_elem_of_fmap; eauto].
    subst xs xs'. unfold digits. rewrite !fmap_zip_with_l;
      try (by intros []); try done; rewrite length_zip_with, !length_take; lia.
  - subst m. destruct fuel as [|fuel]; [cbn in Hf; lia|]. done.
Qed.

(** ** Initialisation *)

Section init.
Context (meta : zarr_metadata) (aabb : damacy_aabb).

(** What dimension [d] of the box and of the array must satisfy. *)
Definition dim_fits (d : Z) : Prop :=
  exists chunk shard iv extent,
    aget (inner_chunk_shape meta) d = Some chunk /\ aget (shard_shape meta) d = Some shard /\
    aget (dims aabb) d = Some iv /\ aget (shape meta) d = Some extent /\
    0 < chunk /\ 0 < shard /\ (chunk | shard) /\ 0 <= beg iv < end_ iv /\ end_ iv <= extent.

(** The arrays hold 64-bit values for every dimension. *)
Definition dim_given (d : Z) : Prop :=
  exists chunk shard iv extent,
    aget (inner_chunk_shape meta) d = Some chunk /\ aget (shard_shape meta) d = Some shard /\
    aget (dims aabb) d = Some iv /\ aget (shape meta) d = Some extent /\
    is_u64 chunk /\ is_u64 shard /\ is_u64 extent /\ end_ iv < 2 ^ 63.

(** The shards dimension [d] of the box meets: [[sb, se)]. *)
Definition dim_digit (d : Z) (x : digit) : Prop :=
  exists shard iv, aget (shard_shape meta) d = Some shard /\ aget (dims aabb) d = Some iv /\
    0 < shard /\ 0 <= beg iv < end_ iv /\ end_ iv < 2 ^ 63 /\
    x = Digit (beg iv / shard) ((end_ iv - 1) / shard + 1) (beg iv / shard).

Lemma div_shard x chunk shard : 0 < chunk -> 0 < shard -> (chunk | shard) -> x / chunk / (shard / chunk) = x / shard.
Proof.
  intros Hc Hs [k ->]. rewrite Z.div_mul by lia. rewrite Zdiv_Zdiv by nia. f_equal. lia.
Qed.

Lemma init_loop_spec n : forall d it,
  0 <= d -> d + Z.of_nat n <= zlen (shard_beg it) -> d + Z.of_nat n <= zlen (shard_end it) ->
  d + Z.of_nat n <= zlen (it_cursor it) ->
  (forall j, d <= j < d + Z.of_nat n -> dim_given j) ->
  (init_loop n meta aabb d it = Some None /\ exists j, d <= j < d + Z.of_nat n /\ ~ dim_fits j) \/
  (exists it', init_loop n meta aabb d it = Some (Some it') /\
     (forall j, d <= j < d + Z.of_nat n -> dim_fits j) /\
     it_rank it' = it_rank it /\ finished it' = finished it /\
     length (shard_beg it') = length (shard_beg it) /\ length (shard_end it') = length (shard_end it) /\
     length (it_cursor it') = length (it_cursor it) /\
     (forall j, j < d -> aget (shard_beg it') j = aget (shard_beg it) j /\
        aget (shard_end it') j = aget (shard_end it) j /\ aget (it_cursor it') j = aget (it_cursor it) j) /\
     forall j, d <= j < d + Z.of_nat n -> exists x, dim_digit j x /\
       aget (shard_beg it') j = Some (lo x) /\ aget (shard_end it') j = Some (hi x) /\
       aget (it_cursor it') j = Some (now x)).
Proof.
  induction n as [|n IH]; intros d it Hd Hb He Hc Hg; cbn [init_loop].
  { right. exists it. split_and!; try done; intros; lia. }
  destruct (Hg d ltac:(lia)) as (chunk & shard & iv & extent & E1 & E2 & E3 & E4 & U1 & U2 & U4 & U3).
  rewrite E1, E2. cbn [mbind option_bind].
  assert (dim_fits d -> 0 < chunk /\ 0 < shard /\ (chunk | shard) /\ 0 <= beg iv < end_ iv /\ end_ iv <= extent) as Hfit.
  { intros (? & ? & ? & ? & ? & ? & ? & ? & ?). simplify_eq. done. }
  destruct (negb (0 <? chunk) || negb (0 <? shard) || negb (shard mod chunk =? 0)) eqn:Ec.
  { left. split; [done|]. exists d. split; [lia|]. intros (? & ? & Hdv & _)%Hfit.
    apply Z.mod_divide in Hdv; [|lia]. lia. }
  rewrite E3, E4. cbn [mbind option_bind].
  destruct (negb (0 <=? beg iv) || negb (beg iv <? end_ iv) || negb (end_ iv <=? extent)) eqn:Eb.
  { left. split; [done|]. exists d. split; [lia|]. intros (_ & _ & _ & ? & ?)%Hfit. lia. }
  assert (0 < chunk /\ 0 < shard /\ 0 <= beg iv < end_ iv /\ end_ iv <= extent) as (C1 & C2 & C3 & C4) by lia.
  assert (chunk | shard) as Hdv by (apply Z.mod_divide; [lia|]; lia).
  assert (0 <= (end_ iv - 1) / chunk < 2 ^ 63) as Hq.
  { split; [apply Z.div_pos; lia|]. apply Z.div_lt_upper_bound; nia. }
  assert (0 <= (end_ iv - 1) / shard < 2 ^ 63) as Hqs.
  { split; [apply Z.div_pos; lia|]. apply Z.div_lt_upper_bound; nia. }
  rewrite (u64_id ((end_ iv - 1) / chunk + 1)) by clia.
  replace ((end_ iv - 1) / chunk + 1 - 1) with ((end_ iv - 1) / chunk) by lia.
  rewrite (u64_id ((end_ iv - 1) / chunk)) by clia. rewrite !div_shard by done.
  rewrite (u64_id ((end_ iv - 1) / shard + 1)) by clia.
  destruct (aset (shard_beg it) d (beg iv / shard)) as [b'|] eqn:Sb; [|rewrite aset_range in Sb by lia; done].
  destruct (aset (shard_end it) d ((end_ iv - 1) / shard + 1)) as [e'|] eqn:Se; [|rewrite aset_range in Se by lia; done].
  destruct (aset (it_cursor it) d (beg iv / shard)) as [c'|] eqn:Sc; [|rewrite aset_range in Sc by lia; done].
  cbn [mbind option_bind]. pose proof (length_aset _ _ _ _ Sb) as Lb. pose proof (length_aset _ _ _ _ Se) as Le.
  pose proof (length_aset _ _ _ _ Sc) as Lc.
  destruct (IH (d + 1) (ShardIterator (it_rank it) b' e' c' (finished it))) as
    [[Hn (j & Hj & Hno)]|(it' & Hi & Hall & Hrk & Hfi & L1 & L2 & L3 & Hlow & Hdig)];
    [lia|cbn; lia..|intros j Hj; apply Hg; lia| |].
  { left. split; [done|]. exists j. split; [lia|done]. }
  right. exists it'. cbn in *. split; [done|]. split.
  { intros j Hj. destruct (decide (j = d)) as [->|]; [|apply Hall; lia].
    exists chunk, shard, iv, extent. done. }
  split_and!; try congruence.
  - intros j Hj. destruct (Hlow j ltac:(lia)) as (-> & -> & ->).
    rewrite (aget_aset_ne _ _ _ _ _ Sb), (aget_aset_ne _ _ _ _ _ Se), (aget_aset_ne _ _ _ _ _ Sc) by lia. done.
  - intros j Hj. destruct (decide (j = d)) as [->|]; [|apply Hdig; lia].
    eexists. split; [by exists shard, iv|]. cbn. destruct (Hlow d ltac:(lia)) as (-> & -> & ->).
    by rewrite (aget_aset_eq _ _ _ _ Sb), (aget_aset_eq _ _ _ _ Se), (aget_aset_eq _ _ _ _ Sc).
Qed.
End init.

Lemma length_digits n b e c :
  (n <= length b)%nat -> (n <= length e)%nat -> (n <= length c)%nat -> length (digits n b e c) = n.
Proof. intros. unfold digits. rewrite !length_zip_with, !length_take. lia. Qed.

Lemma digits_aget n b e c j x :
  aget (digits n b e c) j = Some x ->
  aget b j = Some (lo x) /\ aget e j = Some (hi x) /\ aget c j = Some (now x) /\ 0 <= j < Z.of_nat n.
Proof.
  intros [Hj Hx]%aget_lookup. unfold digits in Hx. apply lookup_zip_with_Some in Hx as ([vb ve] & vc & -> & Hbe & Hc).
  apply lookup_zip_with_Some in Hbe as (? & ? & [= <- <-] & Hb & He).
  apply lookup_take_Some in Hb as [Hb ?], He as [He ?], Hc as [Hc ?]. rewrite !aget_lookup. cbn. split_and!; try done; lia.
Qed.

(** A coordinate is met by the box when, in each dimension, the shard holds one of
    its indices. *)
Definition shard_met (meta : zarr_metadata) (aabb : damacy_aabb) (c : list Z) : Prop :=
  zlen c = m_rank meta /\
  forall d k shard iv, aget c d = Some k -> aget (shard_shape meta) d = Some shard -> aget (dims aabb) d = Some iv ->
    exists x, beg iv <= x < end_ iv /\ x / shard = k.

Lemma met_range b e s k :
  0 < s -> 0 <= b < e -> (b / s <= k < (e - 1) / s + 1) <-> exists x, b <= x < e /\ x / s = k.
Proof.
  intros Hs Hbe. split.
  - intros [H1 H2]. destruct (decide (b / s = k)) as [<-|]; [exists b; lia|]. exists (k * s).
    rewrite Z.div_mul by lia. split; [|done]. pose proof (Z.mul_div_le (e - 1) s Hs).
    pose proof (Z.mod_pos_bound b s Hs). pose proof (Z.div_mod b s ltac:(lia)). nia.
  - intros (x & Hx & <-). pose proof (Z.div_le_mono b x s Hs). pose proof (Z.div_le_mono x (e - 1) s Hs). lia.
Qed.

(** Either a check fails, or the iterator stands at the first shard. *)
Lemma iterator_init_spec meta aabb :
  0 <= m_rank meta -> (forall d, 0 <= d < m_rank meta -> dim_given meta aabb d) ->
  (sample_shard_iterator_init meta aabb = Some None /\
   (aabb_rank aabb <> m_rank meta \/ m_rank meta = 0 \/ DAMACY_MAX_RANK < m_rank meta \/
    exists d, 0 <= d < m_rank meta /\ ~ dim_fits meta aabb d)) \/
  exists it xs, sample_shard_iterator_init meta aabb = Some (Some it) /\
    (forall d, 0 <= d < m_rank meta -> dim_fits meta aabb d) /\
    odometer it xs /\ finished it = false /\ zlen xs = m_rank meta /\ rewind <$> xs = xs /\
    (forall d x, aget xs d = Some x -> dim_digit meta aabb d x).
Proof.
  intros Hr0 Hg. unfold sample_shard_iterator_init.
  destruct (negb (aabb_rank aabb =? m_rank meta) || negb (0 <? m_rank meta) || negb (m_rank meta <=? DAMACY_MAX_RANK)) eqn:E.
  { left. split; [done|]. unfold DAMACY_MAX_RANK in *. lia. }
  assert (0 < m_rank meta <= 31) as Hr by (unfold DAMACY_MAX_RANK in E; lia).
  match goal with |- context [init_loop ?n _ _ _ ?i] =>
    destruct (init_loop_spec meta aabb n 0 i) as [[Hn (j & Hj & Hno)]|(it & Hi & Hall & Hrk & Hfi & L1 & L2 & L3 & _ & Hd)] end;
    try (cbn [shard_beg shard_end it_cursor]; rewrite ?repeat_length; lia); [by intros j Hj; apply Hg; lia| |].
  { left. split; [done|]. do 3 right. exists j. split; [lia|done]. }
  right. exists it. cbn [it_rank finished shard_beg shard_end it_cursor] in Hrk, Hfi, L1, L2, L3. rewrite repeat_length in L1, L2, L3.
  change (Z.to_nat DAMACY_MAX_RANK) with 31%nat in L1, L2, L3.
  set (n := Z.to_nat (it_rank it)). exists (digits n (shard_beg it) (shard_end it) (it_cursor it)).
  assert (forall d x, aget (digits n (shard_beg it) (shard_end it) (it_cursor it)) d = Some x -> dim_digit meta aabb d x) as Hdd.
  { intros d x (Hb & He & Hc & Hdn)%digits_aget. destruct (Hd d) as (y & Hy & Hby & Hey & Hcy); [lia|].
    assert (x = y) as -> by (destruct x, y; cbn in *; congruence). done. }
  split; [done|]. split; [intros d ?; apply Hall; lia|]. split; [|split; [done|split; [|split; [|done]]]].
  - constructor; try lia; try done. apply Forall_forall. intros x (d & Hx)%elem_of_aget.
    destruct (Hdd d x Hx) as (s & iv & _ & _ & Hs & Hbe & H63 & ->). unfold digit_ok. cbn.
    assert (beg iv / s <= (end_ iv - 1) / s) by (apply Z.div_le_mono; lia).
    assert (0 <= beg iv / s) by (apply Z.div_pos; lia).
    assert ((end_ iv - 1) / s < 2 ^ 63) by (apply Z.div_lt_upper_bound; nia). clia.
  - rewrite length_digits; lia.
  - rewrite <-(list_fmap_id (digits _ _ _ _)) at 2. apply list_fmap_ext. intros d x Hx. rewrite <-aget_nat in Hx.
    destruct (Hdd _ x Hx) as (s & iv & _ & _ & _ & _ & _ & ->). done.
Qed.

(** C22: [sample_shard_iterator_init] accepts exactly the boxes that lie in the
    array, with chunk sizes that divide the shard sizes; iterating then ends and
    yields, in row-major order and each once, exactly the shards that hold a voxel
    of the box. *)
Theorem shard_iterator_correct meta aabb :
  0 <= m_rank meta -> (forall d, 0 <= d < m_rank meta -> dim_given meta aabb d) ->
  exists r, sample_shard_iterator_init meta aabb = Some r /\
    match r with
    | Some it =>
        (forall d, 0 <= d < m_rank meta -> dim_fits meta aabb d) /\
        exists L, (forall fuel, (length L < fuel)%nat -> shards_drain fuel it = Some L) /\
          StronglySorted lex_lt L /\ forall c, c ∈ L <-> shard_met meta aabb c
    | None => aabb_rank aabb <> m_rank meta \/ m_rank meta = 0 \/ DAMACY_MAX_RANK < m_rank meta \/
        exists d, 0 <= d < m_rank meta /\ ~ dim_fits meta aabb d
    end.
Proof.
  intros Hr Hg. destruct (iterator_init_spec meta aabb Hr Hg) as [[Hi Hno]|(it & xs & Hi & Hfit & Hod & Hfin & Hlen & Hrw & Hdd)].
  { exists None. done. }
  exists (Some it). split; [done|]. split; [done|].
  assert (Forall digit_ok xs) as Hok by (eapply Forall_impl; [apply Hod|]; by intros ? [? _]).
  pose proof (rest_rewind xs Hok) as Hrest. rewrite Hrw in Hrest. exists (rest xs). split_and!.
  - intros fuel Hf. by apply iterator_drain_spec.
  - rewrite Hrest. apply cart_sorted. apply Forall_fmap, Forall_forall. intros x _. apply seqZ_sorted.
  - intros c. rewrite Hrest, elem_of_cart, Forall2_aget, length_fmap. unfold shard_met. split.
    + intros [Hl H]. split; [lia|]. intros d k shard iv Hk Hs Hiv.
      destruct (aget_is_Some xs d) as [x Hx]; [apply aget_Some_range in Hk; lia|].
      specialize (H d k (values x) Hk). rewrite aget_lookup, list_lookup_fmap in H.
      pose proof Hx as [Hd0 Hx']%aget_lookup. rewrite Hx' in H. specialize (H (conj Hd0 eq_refl)).
      destruct (Hdd d x Hx) as (s & iv' & Hs' & Hiv' & Hs0 & Hbe & _ & ->). simplify_eq.
      unfold values in H. cbn in H. apply elem_of_seqZ in H. apply met_range; lia.
    + intros [Hl H]. split; [lia|]. intros d k l Hk Hx. apply aget_lookup in Hx as [Hd0 Hx].
      apply list_lookup_fmap_Some in Hx as (x & -> & Hx).
      assert (aget xs d = Some x) as Hx' by (by apply aget_lookup).
      destruct (Hdd d x Hx') as (s & iv & Hs' & Hiv' & Hs0 & Hbe & _ & ->).
      specialize (H d k s iv Hk Hs' Hiv'). apply met_range in H; [|done|done].
      unfold values. cbn. apply elem_of_seqZ. lia.
Qed.

(** ** Example: a 2-dimensional array of 10 by 20 in shards of 4 by 6. *)
Definition ex_meta : zarr_metadata := Meta dtype_u8 2 [10; 20] [2; 3] [4; 6] true CODEC_NONE true [].
Definition ex_box : damacy_aabb := Aabb [Interval 3 9; Interval 5 7] 2.

Lemma shard_iterator_correct_witness :
  exists it L, sample_shard_iterator_init ex_meta ex_box = Some (Some it) /\ shards_drain 10 it = Some L /\
    StronglySorted lex_lt L /\ L = [[0; 0]; [0; 1]; [1; 0]; [1; 1]; [2; 0]; [2; 1]].
Proof.
  destruct (shard_iterator_correct ex_meta ex_box) as (r & Hi & Hr); [discriminate| |].
  { intros d Hd. cbn in Hd. assert (d = 0 \/ d = 1) as [-> | ->] by lia;
      repeat eexists; cbn; try reflexivity; clia. }
  vm_compute in Hi. injection Hi as <-. destruct Hr as (_ & L & Hd & Hs & _).
  eexists _, [[0; 0]; [0; 1]; [1; 0]; [1; 1]; [2; 0]; [2; 1]].
  split; [vm_compute; reflexivity|]. split; [vm_compute; reflexivity|]. split; [|reflexivity].
  specialize (Hd (S (length L + 10)) ltac:(lia)). replace (S (length L + 10)) with (10 + S (length L))%nat in Hd by lia.
  vm_compute in Hd. injection Hd as Hd. subst L. exact Hs.
Defined.
