(* ===== verification/Config.v ===== *)
(** * Configuration

    [src/src/damacy_config.c]: output types, validation, defaults and the sizing
    resolvers, and the index capacities [src/src/executor/dispatch.c] derives from
    a configuration. *)

From Stdlib Require Import SpecFloat.
From stdpp Require Import strings.
From S2P Require Import Prelude Selection Plan.

#[local] Open Scope Z_scope.

(** ** Limits ([damacy_limits.h]) *)

Definition DAMACY_MAX_CHUNK_BYTES : Z := UINT32_MAX.
Definition DAMACY_N_WAVES : Z := 2.
Definition DAMACY_DEFAULT_HOST_BUFFER_WAVES : Z := 4.
Definition DAMACY_MAX_HOST_BUFFER_WAVES : Z := 8.
Definition DAMACY_DEFAULT_MAX_CHUNKS_PER_WAVE : Z := 512.
Definition DAMACY_HARD_MAX_CHUNKS_PER_WAVE : Z := 0xFFFF.
Definition DAMACY_MAX_CHUNKS_PER_BATCH : Z := 16384.
Definition DAMACY_MAX_METADATA_IO_CONCURRENCY : Z := 4096.
Definition DAMACY_MAX_IO_THREADS : Z := 1024.
Definition DAMACY_DEFAULT_ARRAY_META_CACHE : Z := 64.
Definition DAMACY_DEFAULT_SHARD_INDEX_CACHE : Z := 256.
Definition DAMACY_DEFAULT_CHUNK_LAYOUT_CACHE : Z := 64.
Definition DAMACY_DEFAULT_MAX_SHARDS_PER_SAMPLE : Z := 64.
Definition DAMACY_DEFAULT_MAX_SUBSTREAMS_PER_CHUNK : Z := 32.
Definition DAMACY_HARD_MAX_SUBSTREAMS_PER_CHUNK : Z := 0xFFFF.

(** ** Data ([damacy.h]) *)

Definition DAMACY_NUMA_AUTO : Z := 0.
Definition DAMACY_NUMA_DISABLED : Z := 1.
Definition DAMACY_NUMA_PIN_TO : Z := 2.
Definition DAMACY_GDS_AUTO : Z := 0.
Definition DAMACY_GDS_ON : Z := 1.
Definition DAMACY_GDS_OFF : Z := 2.

(** Enumerations are kept as the integers a C caller may store. *)
Record damacy_tuning := Tuning {
  max_gpu_memory_bytes : Z; max_index_bytes : Z; max_chunk_uncompressed_bytes : Z; max_read_op_bytes : Z;
  host_buffer_waves : Z; max_chunks_per_wave : Z; max_substreams_per_chunk : Z;
  n_io_threads : Z; metadata_io_concurrency : Z;
  n_array_meta_cache : Z; n_shard_index_cache : Z; n_chunk_layout_cache : Z;
  max_shards_per_sample : Z; numa_strategy : Z; numa_node : Z; enable_gds : Z }.

(** A double is its IEEE value. *)
Record damacy_latency_model := Latency {
  baseline_ns : Z; lognormal_mu_ln_ns : spec_float; lognormal_sigma_ln_ns : spec_float; cap_ns : Z; seed : Z }.
Record damacy_debug_flags := DebugFlags { bypass_decode : Z; metadata_latency : damacy_latency_model }.

Record damacy_config := Config {
  cfg_dtype : Z; cfg_sample_shape : list Z; cfg_sample_rank : Z; samples_per_batch : Z; lookahead_samples : Z;
  device : Z; tuning : damacy_tuning; debug : damacy_debug_flags }.

(** ** Output types *)

Definition output_names : list (string * string) :=
  [("f32", "float32"); ("bf16", "bfloat16"); ("u8", "uint8"); ("u16", "uint16"); ("u32", "uint32");
   ("u64", "uint64"); ("i8", "int8"); ("i16", "int16"); ("i32", "int32"); ("i64", "int64")].

Definition damacy_dtype_name (dt : Z) : string :=
  if negb (damacy_dtype_bpe dt =? 0) then default "?" (fst <$> aget output_names dt) else "?".

Fixpoint dtype_loop (names : list (string * string)) (i : Z) (name : string) : option Z :=
  match names with
  | [] => None
  | (short, full) :: names =>
      if String.eqb short name || String.eqb full name then Some i else dtype_loop names (i + 1) name
  end.

(** The name has the given length and no terminator; [None] is -1. *)
Definition damacy_dtype_from_string (name : string) : option Z := dtype_loop output_names 0 name.

(** ** Validation *)

Definition isfinite (f : spec_float) : bool :=
  match f with S754_zero _ | S754_finite _ _ _ => true | _ => false end.
(** [f >= 0.0] *)
Definition nonneg (f : spec_float) : bool :=
  match f with S754_zero _ | S754_finite false _ _ | S754_infinity false => true | _ => false end.

Fixpoint shape_positive (n : nat) (sh : list Z) (d : Z) : option bool :=
  match n with
  | O => Some true
  | S n => x ← aget sh d; if 0 <? x then shape_positive n sh (d + 1) else Some false
  end.

(** The cache floors. *)
Definition floors_ok (cfg : damacy_config) : bool :=
  let t := tuning cfg in
  let meta_floor := u64 (lookahead_samples cfg + u64 (2 * samples_per_batch cfg)) in
  if n_array_meta_cache t <? meta_floor then false
  else if n_chunk_layout_cache t <? meta_floor then false
  else
    let shard_floor := u64 (meta_floor * max_shards_per_sample t) in
    if n_shard_index_cache t <? shard_floor then false else true.

Definition out_of (x lo hi : Z) : bool := (x <? lo) || (hi <? x).

Definition validate_config (config : option damacy_config) : option damacy_status :=
  match config with
  | None => Some DAMACY_INVAL
  | Some cfg =>
      let t := tuning cfg in
      if negb (0 <? samples_per_batch cfg) || negb (0 <? max_gpu_memory_bytes t) ||
         negb (max_index_bytes t <=? 8 * UINT32_MAX) || negb (samples_per_batch cfg <=? lookahead_samples cfg) ||
         negb (0 <? n_io_threads t) || negb (n_io_threads t <=? DAMACY_MAX_IO_THREADS) ||
         negb (0 <? metadata_io_concurrency t) ||
         negb (metadata_io_concurrency t <=? DAMACY_MAX_METADATA_IO_CONCURRENCY)
      then Some DAMACY_INVAL
      else if out_of (max_chunk_uncompressed_bytes t) 1 DAMACY_MAX_CHUNK_BYTES then Some DAMACY_INVAL
      else if out_of (max_read_op_bytes t) 1 UINT32_MAX then Some DAMACY_INVAL
      else if out_of (host_buffer_waves t) DAMACY_N_WAVES DAMACY_MAX_HOST_BUFFER_WAVES then Some DAMACY_INVAL
      else if out_of (max_chunks_per_wave t) 1 DAMACY_HARD_MAX_CHUNKS_PER_WAVE then Some DAMACY_INVAL
      else if out_of (max_substreams_per_chunk t) 1 DAMACY_HARD_MAX_SUBSTREAMS_PER_CHUNK then Some DAMACY_INVAL
      else if negb (0 <? n_array_meta_cache t) || negb (0 <? n_shard_index_cache t) ||
              negb (0 <? n_chunk_layout_cache t) || negb (0 <? max_shards_per_sample t)
      then Some DAMACY_INVAL
      else if negb (floors_ok cfg) then Some DAMACY_INVAL
      else if negb (0 <? damacy_dtype_bpe (cfg_dtype cfg)) || negb (0 <? cfg_sample_rank cfg) ||
              negb (cfg_sample_rank cfg <=? DAMACY_MAX_RANK)
      then Some DAMACY_INVAL
      else
        pos ← shape_positive (Z.to_nat (cfg_sample_rank cfg)) (cfg_sample_shape cfg) 0;
        if negb pos then Some DAMACY_INVAL
        else if negb ((numa_strategy t =? DAMACY_NUMA_AUTO) || (numa_strategy t =? DAMACY_NUMA_DISABLED) ||
                      (numa_strategy t =? DAMACY_NUMA_PIN_TO))
        then Some DAMACY_INVAL
        else if (numa_strategy t =? DAMACY_NUMA_PIN_TO) && negb (0 <=? numa_node t) then Some DAMACY_INVAL
        else if negb ((enable_gds t =? DAMACY_GDS_AUTO) || (enable_gds t =? DAMACY_GDS_ON) ||
                      (enable_gds t =? DAMACY_GDS_OFF))
        then Some DAMACY_INVAL
        else
          let m := metadata_latency (debug cfg) in
          if negb (isfinite (lognormal_mu_ln_ns m)) || negb (isfinite (lognormal_sigma_ln_ns m)) ||
             negb (nonneg (lognormal_sigma_ln_ns m))
          then Some DAMACY_INVAL
          else Some DAMACY_OK
  end.

Definition damacy_tuning_defaults : damacy_tuning :=
  Tuning 0 (Z.shiftl 64 20) (2 * 1024 * 1024) (4 * 1024 * 1024) DAMACY_DEFAULT_HOST_BUFFER_WAVES
    DAMACY_DEFAULT_MAX_CHUNKS_PER_WAVE DAMACY_DEFAULT_MAX_SUBSTREAMS_PER_CHUNK 64 64
    DAMACY_DEFAULT_ARRAY_META_CACHE DAMACY_DEFAULT_SHARD_INDEX_CACHE DAMACY_DEFAULT_CHUNK_LAYOUT_CACHE
    DAMACY_DEFAULT_MAX_SHARDS_PER_SAMPLE DAMACY_NUMA_AUTO 0 DAMACY_GDS_AUTO.

(** ** Resolvers *)

Definition resolve_max_chunk_uncompressed (cfg : damacy_config) : Z := max_chunk_uncompressed_bytes (tuning cfg).
Definition resolve_max_read_op_bytes (cfg : damacy_config) : Z := max_read_op_bytes (tuning cfg).
Definition resolve_host_buffer_waves (cfg : damacy_config) : Z := host_buffer_waves (tuning cfg).
Definition resolve_max_chunks_per_wave (cfg : damacy_config) : Z := max_chunks_per_wave (tuning cfg).
Definition resolve_max_substreams_per_chunk (cfg : damacy_config) : Z := max_substreams_per_chunk (tuning cfg).
Definition resolve_metadata_io_concurrency (cfg : damacy_config) : Z := metadata_io_concurrency (tuning cfg).

(** [getenv name] is the environment. *)
Definition resolve_enable_gds (getenv : string -> option string) (cfg : damacy_config) : Z :=
  if enable_gds (tuning cfg) =? DAMACY_GDS_ON then 1
  else if enable_gds (tuning cfg) =? DAMACY_GDS_OFF then 0
  else match getenv "DAMACY_GDS_ENABLE" with Some "1" => 1 | _ => 0 end.

(** The loop copies each extent it accepts; the status with the array. *)
Fixpoint copy_shape (n : nat) (sh out : list Z) (d : Z) : option (damacy_status * list Z) :=
  match n with
  | O => Some (DAMACY_OK, out)
  | S n =>
      x ← aget sh d;
      if x <=? 0 then Some (DAMACY_INVAL, out)
      else out ← aset out d x; copy_shape n sh out (d + 1)
  end.

(** Status, [out_shape] and [out_rank]. *)
Definition resolve_sample_shape (config : option damacy_config) (out_shape : list Z) (out_rank : Z)
    : option (damacy_status * list Z * Z) :=
  match config with
  | None => Some (DAMACY_INVAL, out_shape, out_rank)
  | Some cfg =>
      if (cfg_sample_rank cfg =? 0) || (DAMACY_MAX_RANK <? cfg_sample_rank cfg)
      then Some (DAMACY_INVAL, out_shape, out_rank)
      else
        r ← copy_shape (Z.to_nat (cfg_sample_rank cfg)) (cfg_sample_shape cfg) out_shape 0;
        if decide (fst r = DAMACY_OK) then Some (DAMACY_OK, snd r, cfg_sample_rank cfg)
        else Some (fst r, snd r, out_rank)
  end.

Fixpoint volume_loop (n : nat) (sh : list Z) (d volume : Z) : option (option Z) :=
  match n with
  | O => Some (Some volume)
  | S n =>
      x ← aget sh d;
      if UINT64_MAX / u64 x <? volume then Some None
      else volume_loop n sh (d + 1) (u64 (volume * u64 x))
  end.

(** The status and the value written, if any. *)
Definition resolve_sample_volume_bytes (config : option damacy_config) : option (damacy_status * option Z) :=
  match config with
  | None => Some (DAMACY_INVAL, None)
  | Some cfg =>
      r ← resolve_sample_shape config (repeat 0 31) 0;
      let '(s, shape, rank) := r in
      if decide (s <> DAMACY_OK) then Some (s, None)
      else
        let bpe := damacy_dtype_bpe (cfg_dtype cfg) in
        if (bpe =? 0) || (samples_per_batch cfg =? 0) then Some (DAMACY_INVAL, None)
        else
          v ← volume_loop (Z.to_nat rank) shape 0 (u64 (samples_per_batch cfg * bpe));
          match v with
          | None => Some (DAMACY_BUDGET, None)
          | Some v => Some (DAMACY_OK, Some v)
          end
  end.

(** ** Index capacities ([dispatch.c]) *)

Definition sizeof_gather_index : Z := 8.
Definition sizeof_gather_dim : Z := 16.

(** Sum of the extents: [inl] is an early return. *)
Fixpoint extents_loop (n : nat) (sh : list Z) (d cnt : Z) : option (Z + Z) :=
  match n with
  | O => Some (inr cnt)
  | S n =>
      x ← aget sh d;
      if x <=? 0 then Some (inl 0)
      else if UINT64_MAX - cnt <? x then Some (inl UINT64_MAX)
      else extents_loop n sh (d + 1) (cnt + x)
  end.

Definition dispatch_max_indices (config : option damacy_config) : option Z :=
  match config with
  | None => Some 0
  | Some cfg =>
      if (samples_per_batch cfg =? 0) || (cfg_sample_rank cfg =? 0) || (DAMACY_MAX_RANK <? cfg_sample_rank cfg)
      then Some 0
      else
        r ← extents_loop (Z.to_nat (cfg_sample_rank cfg)) (cfg_sample_shape cfg) 0 0;
        match r with
        | inl early => Some early
        | inr cnt =>
            if UINT64_MAX / samples_per_batch cfg <? cnt then Some UINT64_MAX
            else Some (u64 (cnt * samples_per_batch cfg))
        end
  end.

Definition dispatch_index_capacity (cfg : damacy_config) : option Z :=
  capacity ← dispatch_max_indices (Some cfg);
  if capacity =? 0 then Some 0
  else
    let limit := max_index_bytes (tuning cfg) / sizeof_gather_index in
    let capacity := if limit <? capacity then limit else capacity in
    Some (if UINT32_MAX <? capacity then UINT32_MAX else u32 capacity).

Definition dispatch_gather_dim_capacity (cfg : damacy_config) : option Z :=
  c ← dispatch_index_capacity cfg;
  Some (if negb (c =? 0) then u32 (DAMACY_MAX_CHUNKS_PER_BATCH * cfg_sample_rank cfg) else 0).

Definition dispatch_index_storage_bytes (cfg : damacy_config) : option Z :=
  c ← dispatch_index_capacity cfg;
  g ← dispatch_gather_dim_capacity cfg;
  Some (u64 (u64 (c * sizeof_gather_index) + u64 (g * sizeof_gather_dim))).

(** The check of the CUDA executor: [max_index_bytes] is 0 or covers a batch. *)
Definition index_budget_ok (cfg : damacy_config) : option bool :=
  m ← dispatch_max_indices (Some cfg);
  Some (negb (negb (max_index_bytes (tuning cfg) =? 0) && (max_index_bytes (tuning cfg) / sizeof_gather_index <? m))).
