(* ===== verification/ConfigProof.v ===== *)
(** * Validated configurations

    What [validate_config] accepts, and that the sizes derived from an accepted
    configuration are exact ([src/src/damacy_config.c],
    [src/src/executor/dispatch.c]). *)

From Stdlib Require Import SpecFloat.
From stdpp Require Import strings.
From S2P Require Import Prelude Selection Plan Config.

#[local] Open Scope Z_scope.

(** The fields within their C types. *)
Record cfg_fits (cfg : damacy_config) : Prop := {
  fit_rank : is_u8 (cfg_sample_rank cfg);
  fit_shape : length (cfg_sample_shape cfg) = 31%nat;
  fit_extents : Forall (fun x => - 2 ^ 63 <= x < 2 ^ 63) (cfg_sample_shape cfg);
  fit_spb : is_u32 (samples_per_batch cfg);
  fit_look : is_u32 (lookahead_samples cfg);
  fit_gpu : is_u64 (max_gpu_memory_bytes (tuning cfg));
  fit_index : is_u64 (max_index_bytes (tuning cfg));
  fit_meta : is_u32 (n_array_meta_cache (tuning cfg));
  fit_sidx : is_u32 (n_shard_index_cache (tuning cfg));
  fit_layout : is_u32 (n_chunk_layout_cache (tuning cfg));
  fit_shards : is_u32 (max_shards_per_sample (tuning cfg)) }.

(** A configuration the library can run. *)
Record config_valid (cfg : damacy_config) : Prop := {
  ok_batch : 1 <= samples_per_batch cfg <= lookahead_samples cfg;
  ok_gpu : 0 < max_gpu_memory_bytes (tuning cfg);
  ok_index : max_index_bytes (tuning cfg) <= 8 * UINT32_MAX;
  ok_io : 1 <= n_io_threads (tuning cfg) <= 1024;
  ok_mio : 1 <= metadata_io_concurrency (tuning cfg) <= 4096;
  ok_chunk : 1 <= max_chunk_uncompressed_bytes (tuning cfg) <= UINT32_MAX;
  ok_read : 1 <= max_read_op_bytes (tuning cfg) <= UINT32_MAX;
  ok_waves : 2 <= host_buffer_waves (tuning cfg) <= 8;
  ok_cpw : 1 <= max_chunks_per_wave (tuning cfg) <= 65535;
  ok_spc : 1 <= max_substreams_per_chunk (tuning cfg) <= 65535;
  ok_shards : 1 <= max_shards_per_sample (tuning cfg);
  ok_meta : lookahead_samples cfg + 2 * samples_per_batch cfg <= n_array_meta_cache (tuning cfg);
  ok_layout : lookahead_samples cfg + 2 * samples_per_batch cfg <= n_chunk_layout_cache (tuning cfg);
  ok_sidx : (lookahead_samples cfg + 2 * samples_per_batch cfg) * max_shards_per_sample (tuning cfg) <=
            n_shard_index_cache (tuning cfg);
  ok_dtype : 0 <= cfg_dtype cfg < 10;
  ok_rank : 1 <= cfg_sample_rank cfg <= 31;
  ok_shape : forall d x, 0 <= d < cfg_sample_rank cfg -> aget (cfg_sample_shape cfg) d = Some x -> 0 < x;
  ok_numa : 0 <= numa_strategy (tuning cfg) <= 2;
  ok_node : numa_strategy (tuning cfg) = 2 -> 0 <= numa_node (tuning cfg);
  ok_gds : 0 <= enable_gds (tuning cfg) <= 2;
  ok_mu : isfinite (lognormal_mu_ln_ns (metadata_latency (debug cfg))) = true;
  ok_sigma : isfinite (lognormal_sigma_ln_ns (metadata_latency (debug cfg))) = true;
  ok_sigma0 : nonneg (lognormal_sigma_ln_ns (metadata_latency (debug cfg))) = true }.

Lemma dtype_bpe_pos dt : 0 < damacy_dtype_bpe dt <-> 0 <= dt < 10.
Proof.
  unfold damacy_dtype_bpe. split.
  - destruct (aget output_types dt) eqn:E; cbn; [|lia]. intros _. by apply aget_Some_range in E.
  - intros Hd. assert (dt ∈ seqZ 0 10) as Hin by (apply elem_of_seqZ; lia).
    revert Hin. generalize dt. apply Forall_forall. cbn. repeat constructor.
Qed.

Lemma shape_positive_spec n : forall sh d,
  0 <= d -> d + Z.of_nat n <= zlen sh ->
  exists b, shape_positive n sh d = Some b /\
    (b = true <-> forall k x, d <= k < d + Z.of_nat n -> aget sh k = Some x -> 0 < x).
Proof.
  induction n as [|n IH]; intros sh d Hd Hl; cbn [shape_positive].
  { exists true. split; [done|]. split; [intros _ k x; lia|done]. }
  destruct (aget_is_Some sh d) as [x Hx]; [lia|]. rewrite Hx. cbn [mbind option_bind].
  destruct (Z.ltb_spec 0 x) as [H0|H0].
  - destruct (IH sh (d + 1)) as (b & -> & Hb); [lia..|]. exists b. split; [done|]. rewrite Hb. split.
    + intros H k y Hk Hy. destruct (decide (k = d)) as [->|]; [congruence|]. apply (H k); [lia|done].
    + intros H k y Hk. apply H. lia.
  - exists false. split; [done|]. split; [done|]. intros H. specialize (H d x ltac:(lia) Hx). lia.
Qed.

(** The products of the floor check do not wrap: the metadata floor is compared
    with a 32-bit field first. *)
Lemma floors_spec cfg :
  cfg_fits cfg ->
  floors_ok cfg = true <->
    lookahead_samples cfg + 2 * samples_per_batch cfg <= n_array_meta_cache (tuning cfg) /\
    lookahead_samples cfg + 2 * samples_per_batch cfg <= n_chunk_layout_cache (tuning cfg) /\
    (lookahead_samples cfg + 2 * samples_per_batch cfg) * max_shards_per_sample (tuning cfg) <=
      n_shard_index_cache (tuning cfg).
Proof.
  intros []. unfold floors_ok. rewrite (u64_id (2 * samples_per_batch cfg)) by clia.
  rewrite (u64_id (lookahead_samples cfg + 2 * samples_per_batch cfg)) by clia.
  set (m := lookahead_samples cfg + 2 * samples_per_batch cfg) in *.
  destruct (Z.ltb_spec (n_array_meta_cache (tuning cfg)) m); [split; [done|lia]|].
  destruct (Z.ltb_spec (n_chunk_layout_cache (tuning cfg)) m); [split; [done|lia]|].
  assert (0 <= m < 2 ^ 32) as Hm by (unfold m in *; clia).
  rewrite (u64_id (m * max_shards_per_sample (tuning cfg))) by (unfold is_u32, is_u64 in *; nia).
  destruct (Z.ltb_spec (n_shard_index_cache (tuning cfg)) (m * max_shards_per_sample (tuning cfg))); [split; [done|lia]|].
  split; [lia|done].
Qed.

Lemma out_of_false x a b : out_of x a b = false <-> a <= x <= b.
Proof. unfold out_of. lia. Qed.

(** C23: [validate_config] returns [DAMACY_OK] for exactly the configurations in
    range whose caches hold every sample that can be pinned, in exact integers, and
    [DAMACY_INVAL] for the others; [NULL] is [DAMACY_INVAL]. *)
Theorem validate_config_correct cfg :
  cfg_fits cfg ->
  exists s, validate_config (Some cfg) = Some s /\ (s = DAMACY_OK \/ s = DAMACY_INVAL) /\
    (s = DAMACY_OK <-> config_valid cfg) /\ validate_config None = Some DAMACY_INVAL.
Proof.
  intros Hf. pose proof (floors_spec cfg Hf) as Hfl. pose proof Hf as [Frk Fsh _ _ _ Fgpu _ _ _ _ Fs].
  assert (~ config_valid cfg -> exists s, Some DAMACY_INVAL = Some s /\ (s = DAMACY_OK \/ s = DAMACY_INVAL) /\
    (s = DAMACY_OK <-> config_valid cfg) /\ validate_config None = Some DAMACY_INVAL) as Hbad.
  { intros Hn. exists DAMACY_INVAL. split; [done|]. split; [by right|]. split; [|done]. split; [done|]. intros ?. contradiction. }
  unfold validate_config at 1.
  match goal with |- context [if ?c then _ else _] => destruct c eqn:E1 end.
  { apply Hbad. intros []. unfold DAMACY_MAX_IO_THREADS, DAMACY_MAX_METADATA_IO_CONCURRENCY in E1. lia. }
  unfold DAMACY_MAX_IO_THREADS, DAMACY_MAX_METADATA_IO_CONCURRENCY in E1.
  do 5 (match goal with |- context [out_of ?x ?a ?b] =>
    let E := fresh "R" in destruct (out_of x a b) eqn:E;
      [apply Hbad; intros []; apply not_false_iff_true in E; apply E, out_of_false; by cbn|apply out_of_false in E] end).
  match goal with |- context [if ?c then _ else _] => destruct c eqn:E2 end.
  { apply Hbad. intros []. unfold is_u32 in *. nia. }
  destruct (floors_ok cfg) eqn:E3; cbn [negb].
  2: { apply Hbad. intros []. assert (false = true); [|done]. apply Hfl. done. }
  destruct (proj1 Hfl eq_refl) as (M1 & M2 & M3).
  match goal with |- context [if ?c then _ else _] => destruct c eqn:E4 end.
  { apply Hbad. intros []. pose proof (proj2 (dtype_bpe_pos _) ok_dtype0). unfold DAMACY_MAX_RANK in E4. lia. }
  unfold DAMACY_MAX_RANK in E4.
  destruct (shape_positive_spec (Z.to_nat (cfg_sample_rank cfg)) (cfg_sample_shape cfg) 0) as (b & -> & Hb);
    [lia|rewrite Fsh; lia|]. cbn [mbind option_bind].
  destruct b; cbn [negb].
  2: { apply Hbad. intros []. assert (false = true); [|done]. apply Hb. intros k x Hk. apply ok_shape0. lia. }
  unfold DAMACY_NUMA_AUTO, DAMACY_NUMA_DISABLED, DAMACY_NUMA_PIN_TO, DAMACY_GDS_AUTO, DAMACY_GDS_ON, DAMACY_GDS_OFF.
  do 3 (match goal with |- context [if ?c then Some DAMACY_INVAL else _] =>
    let E := fresh "Q" in destruct c eqn:E; [apply Hbad; intros []; lia|] end).
  match goal with |- context [if ?c then _ else _] => destruct c eqn:E5 end.
  { apply Hbad. intros [? ? ? ? ? ? ? ? ? ? ? ? ? ? ? ? ? ? ? ? F1 F2 F3]. rewrite F1, F2, F3 in E5. done. }
  exists DAMACY_OK. split; [done|]. split; [by left|]. split; [|done]. split; [intros _|done].
  rewrite !orb_false_iff, !negb_false_iff in E5. destruct E5 as [[F1 F2] F3].
  constructor; try done; try lia.
  - apply dtype_bpe_pos. lia.
  - intros d x Hd. apply (proj1 Hb eq_refl). lia.
Qed.

(** ** Sizes *)

(** The sum of [n] extents from [d]. *)
Fixpoint extent_sum (n : nat) (l : list Z) (d : Z) : Z :=
  match n with
  | O => 0
  | S n => default 0 (aget l d) + extent_sum n l (d + 1)
  end.

Lemma extent_sum_nonneg n l d :
  (forall k x, d <= k < d + Z.of_nat n -> aget l k = Some x -> 0 < x) -> 0 <= extent_sum n l d.
Proof.
  revert d. induction n as [|n IH]; intros d Hp; cbn [extent_sum]; [done|].
  assert (0 <= extent_sum n l (d + 1)) by (apply IH; intros k x Hk; apply Hp; lia).
  destruct (aget l d) as [x|] eqn:E; cbn; [|lia]. specialize (Hp d x ltac:(lia) E). lia.
Qed.

Lemma extents_loop_spec n : forall sh d cnt,
  0 <= d -> d + Z.of_nat n <= zlen sh -> is_u64 cnt ->
  (forall k x, d <= k < d + Z.of_nat n -> aget sh k = Some x -> 0 < x) ->
  extents_loop n sh d cnt =
    Some (if decide (cnt + extent_sum n sh d <= UINT64_MAX) then inr (cnt + extent_sum n sh d) else inl UINT64_MAX).
Proof.
  induction n as [|n IH]; intros sh d cnt Hd Hl Hc Hp; cbn [extents_loop extent_sum].
  { rewrite Z.add_0_r, decide_True by clia. done. }
  destruct (aget_is_Some sh d) as [x Hx]; [lia|]. rewrite Hx. cbn [mbind option_bind from_option id].
  assert (0 < x) as Hx0 by (apply (Hp d); [lia|done]). rewrite (proj2 (Z.leb_gt x 0)) by lia.
  assert (forall k y, d + 1 <= k < d + 1 + Z.of_nat n -> aget sh k = Some y -> 0 < y) as Hp' by (intros k y Hk; apply Hp; lia).
  pose proof (extent_sum_nonneg n sh (d + 1) Hp') as H0.
  destruct (Z.ltb_spec (UINT64_MAX - cnt) x).
  - by rewrite decide_False by lia.
  - rewrite IH by (done || lia || clia). by rewrite Z.add_assoc.
Qed.

(** Indices a batch can need. *)
Definition batch_indices (cfg : damacy_config) : Z :=
  samples_per_batch cfg * extent_sum (Z.to_nat (cfg_sample_rank cfg)) (cfg_sample_shape cfg) 0.

Lemma max_indices_spec cfg :
  cfg_fits cfg -> config_valid cfg -> dispatch_max_indices (Some cfg) = Some (Z.min UINT64_MAX (batch_indices cfg)).
Proof.
  intros [] []. unfold dispatch_max_indices, batch_indices, DAMACY_MAX_RANK.
  rewrite (proj2 (Z.eqb_neq (samples_per_batch cfg) 0)), (proj2 (Z.eqb_neq (cfg_sample_rank cfg) 0)),
    (proj2 (Z.ltb_ge 31 (cfg_sample_rank cfg))) by lia. cbn [orb].
  assert (forall k x, 0 <= k < 0 + Z.of_nat (Z.to_nat (cfg_sample_rank cfg)) ->
    aget (cfg_sample_shape cfg) k = Some x -> 0 < x) as Hp by (intros k x Hk; apply ok_shape0; lia).
  rewrite extents_loop_spec; [|lia|rewrite fit_shape0; lia|done|done]. cbn [mbind option_bind]. rewrite Z.add_0_l.
  pose proof (extent_sum_nonneg _ _ _ Hp) as H0. set (e := extent_sum _ _ _) in *.
  assert (0 < samples_per_batch cfg) by lia. case_decide as E.
  - destruct (Z.ltb_spec (UINT64_MAX / samples_per_batch cfg) e) as [Hlt|Hge].
    + f_equal. assert (UINT64_MAX < samples_per_batch cfg * e); [|lia].
      pose proof (Z.mul_succ_div_gt UINT64_MAX (samples_per_batch cfg) ltac:(lia)). nia.
    + f_equal. assert (samples_per_batch cfg * e <= UINT64_MAX).
      { pose proof (Z.mul_div_le UINT64_MAX (samples_per_batch cfg) ltac:(lia)). nia. }
      rewrite u64_id; [lia|]. split; [nia|clia].
  - f_equal. assert (e <= samples_per_batch cfg * e) by nia. lia.
Qed.

(** For a validated configuration that passes the executor's check, indexing
    is off or the index table has exactly one entry for every index a batch can
    hold, so that a batch cannot run out; and the storage size does not wrap. *)
Theorem index_capacity_exact cfg :
  cfg_fits cfg -> config_valid cfg -> index_budget_ok cfg = Some true ->
  if decide (max_index_bytes (tuning cfg) = 0) then
    dispatch_index_capacity cfg = Some 0 /\ dispatch_index_storage_bytes cfg = Some 0
  else
    dispatch_index_capacity cfg = Some (batch_indices cfg) /\ 0 < batch_indices cfg <= UINT32_MAX /\
    dispatch_gather_dim_capacity cfg = Some (DAMACY_MAX_CHUNKS_PER_BATCH * cfg_sample_rank cfg) /\
    dispatch_index_storage_bytes cfg =
      Some (8 * batch_indices cfg + 16 * (DAMACY_MAX_CHUNKS_PER_BATCH * cfg_sample_rank cfg)).
Proof.
  intros Hf Hv Hb. pose proof (max_indices_spec cfg Hf Hv) as Hm. unfold index_budget_ok in Hb. rewrite Hm in Hb.
  cbn [mbind option_bind] in Hb. injection Hb as Hb.
  assert (0 < batch_indices cfg) as Hpos.
  { unfold batch_indices. destruct Hf, Hv.
    assert (0 < extent_sum (Z.to_nat (cfg_sample_rank cfg)) (cfg_sample_shape cfg) 0); [|nia].
    replace (Z.to_nat (cfg_sample_rank cfg)) with (S (Z.to_nat (cfg_sample_rank cfg - 1))) by lia. cbn [extent_sum].
    destruct (aget_is_Some (cfg_sample_shape cfg) 0) as [x Hx]; [rewrite fit_shape0; lia|]. rewrite Hx. cbn [from_option id].
    assert (0 < x) by (apply (ok_shape0 0); [lia|done]).
    assert (0 <= extent_sum (Z.to_nat (cfg_sample_rank cfg - 1)) (cfg_sample_shape cfg) (0 + 1)); [|lia].
    apply extent_sum_nonneg. intros k y Hk. apply ok_shape0. lia. }
  assert (dispatch_index_capacity cfg = Some (if decide (max_index_bytes (tuning cfg) = 0) then 0 else batch_indices cfg) /\
    (max_index_bytes (tuning cfg) <> 0 -> batch_indices cfg <= UINT32_MAX)) as [Hcap H32].
  { unfold dispatch_index_capacity. rewrite Hm. cbn [mbind option_bind]. unfold sizeof_gather_index in *.
    rewrite (proj2 (Z.eqb_neq (Z.min UINT64_MAX (batch_indices cfg)) 0)) by (cint; lia).
    destruct Hf as [_ _ _ _ _ _ Fi _ _ _ _]. destruct Hv as [_ _ Oi _ _ _ _ _ _ _ _ _ _ _ _ _ _ _ _ _ _ _ _].
    case_decide as E.
    - rewrite E. change (0 / 8) with 0. rewrite (proj2 (Z.ltb_lt 0 (Z.min UINT64_MAX (batch_indices cfg)))) by (cint; lia). done.
    - assert (max_index_bytes (tuning cfg) / 8 <= UINT32_MAX) by (apply Z.div_le_upper_bound; lia).
      assert (Z.min UINT64_MAX (batch_indices cfg) <= max_index_bytes (tuning cfg) / 8) by lia.
      rewrite (proj2 (Z.ltb_ge (max_index_bytes (tuning cfg) / 8) _)) by lia.
      assert (batch_indices cfg <= UINT32_MAX) as H32 by (cint; lia).
      rewrite (Z.min_r UINT64_MAX) by (cint; lia). rewrite (proj2 (Z.ltb_ge UINT32_MAX _)) by lia.
      rewrite u32_id by (cint; lia). done. }
  assert (dispatch_gather_dim_capacity cfg = Some (if decide (max_index_bytes (tuning cfg) = 0) then 0
    else DAMACY_MAX_CHUNKS_PER_BATCH * cfg_sample_rank cfg)) as Hg.
  { unfold dispatch_gather_dim_capacity. rewrite Hcap. cbn [mbind option_bind]. destruct Hv. case_decide as E; [done|].
    rewrite (proj2 (Z.eqb_neq (batch_indices cfg) 0)) by lia. cbn [negb]. unfold DAMACY_MAX_CHUNKS_PER_BATCH.
    rewrite u32_id by clia. done. }
  unfold dispatch_index_storage_bytes. rewrite Hg, Hcap. cbn [mbind option_bind].
  case_decide as E; [done|]. specialize (H32 E). destruct Hv. unfold DAMACY_MAX_CHUNKS_PER_BATCH, sizeof_gather_index, sizeof_gather_dim.
  rewrite (u64_id (batch_indices cfg * 8)), (u64_id (16384 * cfg_sample_rank cfg * 16)) by clia.
  rewrite u64_id by clia. split_and!; try done. f_equal. lia.
Qed.

(** ** The output volume *)

Lemma volume_loop_spec n : forall sh d v,
  0 <= d -> d + Z.of_nat n <= zlen sh -> is_u64 v -> 0 < v ->
  (forall k x, d <= k < d + Z.of_nat n -> aget sh k = Some x -> 0 < x < 2 ^ 63) ->
  volume_loop n sh d v =
    Some (if decide (v * extent_prod n sh d <= UINT64_MAX) then Some (v * extent_prod n sh d) else None).
Proof.
  induction n as [|n IH]; intros sh d v Hd Hl Hv Hv0 Hp; cbn [volume_loop extent_prod].
  { rewrite Z.mul_1_r, decide_True by clia. done. }
  destruct (aget_is_Some sh d) as [x Hx]; [lia|]. rewrite Hx. cbn [mbind option_bind from_option id].
  assert (0 < x < 2 ^ 63) as Hx0 by (apply (Hp d); [lia|done]). rewrite (u64_id x) by clia.
  assert (forall k y, d + 1 <= k < d + 1 + Z.of_nat n -> aget sh k = Some y -> 0 < y < 2 ^ 63) as Hp' by (intros k y Hk; apply Hp; lia).
  assert (0 < extent_prod n sh (d + 1)) as H0 by (apply extent_prod_pos; intros k y Hk Hy; by apply (Hp' k y)).
  destruct (Z.ltb_spec (UINT64_MAX / x) v) as [Hlt|Hge].
  - rewrite decide_False; [done|]. pose proof (Z.mul_succ_div_gt UINT64_MAX x ltac:(lia)).
    assert (UINT64_MAX < v * x) by nia. nia.
  - assert (v * x <= UINT64_MAX) by (pose proof (Z.mul_div_le UINT64_MAX x ltac:(lia)); nia).
    rewrite (u64_id (v * x)) by (split; [nia|clia]).
    rewrite IH; [by rewrite Z.mul_assoc|lia|lia|split; [nia|clia]|nia|done].
Qed.

Lemma copy_shape_spec n : forall sh out d,
  0 <= d -> d + Z.of_nat n <= zlen sh -> d + Z.of_nat n <= zlen out ->
  (forall k x, d <= k < d + Z.of_nat n -> aget sh k = Some x -> 0 < x) ->
  exists out', copy_shape n sh out d = Some (DAMACY_OK, out') /\ length out' = length out /\
    (forall k, k < d -> aget out' k = aget out k) /\
    (forall k, d <= k < d + Z.of_nat n -> aget out' k = aget sh k).
Proof.
  induction n as [|n IH]; intros sh out d Hd Hl Ho Hp; cbn [copy_shape].
  { exists out. split_and!; try done. lia. }
  destruct (aget_is_Some sh d) as [x Hx]; [lia|]. rewrite Hx. cbn [mbind option_bind].
  assert (0 < x) as Hx0 by (apply (Hp d); [lia|done]). rewrite (proj2 (Z.leb_gt x 0)) by lia.
  destruct (aset out d x) as [o1|] eqn:Hs; [|rewrite aset_range in Hs by lia; done]. cbn [mbind option_bind].
  pose proof (length_aset _ _ _ _ Hs) as Hlen.
  destruct (IH sh o1 (d + 1)) as (o2 & -> & Hl2 & Hlow & Hhi); [lia..|intros k y Hk; apply Hp; lia|].
  exists o2. split_and!; [done|congruence| |].
  - intros k Hk. rewrite Hlow by lia. by rewrite (aget_aset_ne _ _ _ _ _ Hs) by lia.
  - intros k Hk. destruct (decide (k = d)) as [->|]; [|apply Hhi; lia].
    rewrite Hlow by lia. by rewrite (aget_aset_eq _ _ _ _ Hs).
Qed.

Lemma extent_prod_ext n l l' d :
  (forall k, d <= k < d + Z.of_nat n -> aget l k = aget l' k) -> extent_prod n l d = extent_prod n l' d.
Proof.
  revert d. induction n as [|n IH]; intros d H; cbn [extent_prod]; [done|].
  rewrite (H d) by lia. f_equal. apply IH. intros k Hk. apply H. lia.
Qed.

(** Bytes of one output batch. *)
Definition batch_bytes (cfg : damacy_config) : Z :=
  samples_per_batch cfg * damacy_dtype_bpe (cfg_dtype cfg) *
    extent_prod (Z.to_nat (cfg_sample_rank cfg)) (cfg_sample_shape cfg) 0.

(** [resolve_sample_volume_bytes] on a validated configuration is the exact
    size of a batch, or [DAMACY_BUDGET] precisely when it exceeds 64 bits. *)
Theorem sample_volume_exact cfg :
  cfg_fits cfg -> config_valid cfg ->
  resolve_sample_volume_bytes (Some cfg) =
    Some (if decide (batch_bytes cfg <= UINT64_MAX) then (DAMACY_OK, Some (batch_bytes cfg)) else (DAMACY_BUDGET, None)).
Proof.
  intros [] []. unfold resolve_sample_volume_bytes, resolve_sample_shape, DAMACY_MAX_RANK.
  rewrite (proj2 (Z.eqb_neq (cfg_sample_rank cfg) 0)), (proj2 (Z.ltb_ge 31 (cfg_sample_rank cfg))) by lia. cbn [orb].
  destruct (copy_shape_spec (Z.to_nat (cfg_sample_rank cfg)) (cfg_sample_shape cfg) (repeat 0 31) 0)
    as (out & -> & Hlen & _ & Hcopy); [lia|rewrite fit_shape0; lia|cbn; lia|intros k x Hk; apply ok_shape0; lia|].
  cbn [mbind option_bind fst snd]. rewrite decide_True by done. cbn [mbind option_bind].
  rewrite decide_False by (intros H; by apply H).
  pose proof (proj2 (dtype_bpe_pos _) ok_dtype0) as Hbpe.
  assert (damacy_dtype_bpe (cfg_dtype cfg) <= 8) as Hb8.
  { unfold damacy_dtype_bpe. destruct (aget output_types (cfg_dtype cfg)) as [z|] eqn:E; cbn; [|lia].
    assert (z ∈ output_types) as Hz by (apply elem_of_aget; eauto). revert Hz. generalize z. apply Forall_forall.
    repeat constructor; discriminate. }
  rewrite (proj2 (Z.eqb_neq (damacy_dtype_bpe (cfg_dtype cfg)) 0)), (proj2 (Z.eqb_neq (samples_per_batch cfg) 0)) by lia.
  cbn [orb].
  assert (0 < samples_per_batch cfg * damacy_dtype_bpe (cfg_dtype cfg) <= 2 ^ 35) as Hsb by (unfold is_u32 in fit_spb0; nia).
  rewrite (u64_id (samples_per_batch cfg * damacy_dtype_bpe (cfg_dtype cfg))) by clia.
  rewrite volume_loop_spec; [|lia|rewrite Hlen; cbn; lia|clia|lia|].
  - rewrite (extent_prod_ext _ out (cfg_sample_shape cfg)) by (intros k Hk; apply Hcopy; lia).
    cbn [mbind option_bind]. unfold batch_bytes. by case_decide.
  - intros k x Hk Hx. rewrite Hcopy in Hx by lia. split; [apply (ok_shape0 k); [lia|done]|].
    by apply (Forall_aget _ _ _ _ fit_extents0 Hx).
Qed.

(** Every output type is read back from its short and from its long name, and
    no other name is accepted. *)
Theorem dtype_names_round_trip name dt :
  damacy_dtype_from_string name = Some dt <->
    0 <= dt < 10 /\ exists long, aget output_names dt = Some (damacy_dtype_name dt, long) /\
      (name = damacy_dtype_name dt \/ name = long).
Proof.
  unfold damacy_dtype_from_string. split.
  - intros H. assert (exists short long, aget output_names dt = Some (short, long) /\ (name = short \/ name = long)) as (s & l & Hs & Hn).
    { revert H. unfold output_names. cbn [dtype_loop].
      repeat (match goal with |- context [String.eqb ?a name] =>
        destruct (String.eqb_spec a name) as [<-|_]; cbn [orb];
        [intros [= <-]; eexists _, _; split; [reflexivity|by auto]|] end). done. }
    pose proof (aget_Some_range _ _ _ Hs) as Hr. split; [exact Hr|]. exists l.
    assert (damacy_dtype_name dt = s) as ->; [|done].
    unfold damacy_dtype_name. rewrite Hs. cbn. pose proof (proj2 (dtype_bpe_pos dt) Hr).
    by rewrite (proj2 (Z.eqb_neq _ 0)) by lia.
  - intros (Hd & l & Hl & Hn). assert (dt ∈ seqZ 0 10) as Hin by (apply elem_of_seqZ; lia).
    assert (Forall (fun dt => forall l, aget output_names dt = Some (damacy_dtype_name dt, l) ->
      dtype_loop output_names 0 (damacy_dtype_name dt) = Some dt /\ dtype_loop output_names 0 l = Some dt) (seqZ 0 10)) as HF.
    { change (seqZ 0 10) with [0; 1; 2; 3; 4; 5; 6; 7; 8; 9].
      repeat (apply Forall_cons_2; [intros ? [= <-]; vm_compute; done|]). apply Forall_nil_2. }
    rewrite Forall_forall in HF. destruct (HF dt Hin l Hl) as [H1 H2]. by destruct Hn as [-> | ->].
Qed.

(** ** Example *)

Definition ex_tuning (gpu : Z) : damacy_tuning :=
  let t := damacy_tuning_defaults in
  Tuning gpu (max_index_bytes t) (max_chunk_uncompressed_bytes t) (max_read_op_bytes t) (host_buffer_waves t)
    (max_chunks_per_wave t) (max_substreams_per_chunk t) (n_io_threads t) (metadata_io_concurrency t)
    (n_array_meta_cache t) (n_shard_index_cache t) (n_chunk_layout_cache t) (max_shards_per_sample t)
    (numa_strategy t) (numa_node t) (enable_gds t).

Definition ex_config : damacy_config :=
  Config 0 ([16; 64; 64] ++ repeat 0 28) 3 1 2 (-1) (ex_tuning (2 ^ 30))
    (DebugFlags 0 (Latency 0 (S754_zero false) (S754_zero false) 0 0)).

Lemma ex_fits : cfg_fits ex_config.
Proof. constructor; try (split; [discriminate|reflexivity]); [reflexivity|]. repeat constructor; discriminate. Qed.

Lemma ex_valid : config_valid ex_config.
Proof.
  constructor; try reflexivity; try discriminate; try (split; discriminate || reflexivity).
  intros d x Hd Hx. cbn in Hd. assert (d = 0 \/ d = 1 \/ d = 2) as [-> | [-> | ->] ] by lia; vm_compute in Hx; injection Hx as <-; done.
Qed.

Lemma validate_config_correct_witness : validate_config (Some ex_config) = Some DAMACY_OK /\ config_valid ex_config.
Proof.
  destruct (validate_config_correct ex_config ex_fits) as (s & Hs & _ & Hiff & _).
  split; [vm_compute; reflexivity|]. apply Hiff. vm_compute in Hs. congruence.
Defined.

Lemma index_capacity_exact_witness : dispatch_index_capacity ex_config = Some 144.
Proof.
  destruct (index_capacity_exact ex_config ex_fits ex_valid) as [H _]; [reflexivity|exact H].
Defined.

Lemma sample_volume_exact_witness : resolve_sample_volume_bytes (Some ex_config) = Some (DAMACY_OK, Some 262144).
Proof.
  rewrite (sample_volume_exact ex_config ex_fits ex_valid). reflexivity.
Defined.

(** With the default caches the shard-index floor leaves room for a lookahead of
    at most 2 samples. *)
Lemma default_tuning_lookahead cfg gpu :
  tuning cfg = ex_tuning gpu -> config_valid cfg -> lookahead_samples cfg <= 2.
Proof.
  intros Ht Hv. pose proof (ok_sidx _ Hv) as H. pose proof (ok_batch _ Hv). rewrite Ht in H.
  change (max_shards_per_sample (ex_tuning gpu)) with 64 in H. change (n_shard_index_cache (ex_tuning gpu)) with 256 in H. lia.
Qed.
