(* ===== verification/Pool.v ===== *)
(** * The object pool

    [src/src/util/pool.c]: fixed-size slots with a free list threaded through the
    unused ones. Pointers are byte offsets into the storage, [None] is [NULL]; of
    each slot the model keeps the first word, where the free list lives, and which
    a client may overwrite while it owns the slot. Calls are serialised by the
    pool's lock. *)

From S2P Require Import Prelude.

#[local] Open Scope Z_scope.

Record pool := Pool {
  links : list (option Z); head : option Z; slot_size : Z; capacity : Z; in_use : Z }.

(** [_Alignof(max_align_t)] is 16 and a pointer has 8 bytes on the 64-bit targets. *)
Definition pool_round_slot (elem_size : Z) : Z :=
  let elem_size := if elem_size <? 8 then 8 else elem_size in
  Z.land (u64 (elem_size + 16 - 1)) (u64 (Z.lnot (16 - 1))).

Definition set_links (p : pool) (l : list (option Z)) : pool := Pool l (head p) (slot_size p) (capacity p) (in_use p).

(** [slots[i].next = &slots[i + 1]] for the first [n] slots from [i]. *)
Fixpoint thread_slots (n : nat) (l : list (option Z)) (i size : Z) : option (list (option Z)) :=
  match n with
  | O => Some l
  | S n => l ← aset l i (Some ((i + 1) * size)); thread_slots n l (i + 1) size
  end.

(** [alloc k]: does the [k]-th allocation succeed. A failed check destroys what was
    built and returns [NULL]. *)
Definition pool_create (alloc : nat -> bool) (elem_size cap : Z) : option (option pool) :=
  if negb (0 <? elem_size) || negb (0 <? cap) || negb (alloc 0%nat) then Some None
  else
    let size := pool_round_slot elem_size in
    if negb ((size =? 0) || (cap <=? SIZE_MAX / size)) then Some None
    else if negb (alloc 1%nat) || negb (alloc 2%nat) then Some None
    else
      l ← thread_slots (Z.to_nat (cap - 1)) (replicate (Z.to_nat cap) None) 0 size;
      l ← aset l (cap - 1) None;
      Some (Some (Pool l (Some 0) size cap 0)).

(** [true] when the storage is freed, [false] when it is leaked. *)
Definition pool_destroy (p : pool) : bool := in_use p =? 0.

Definition pool_owns_unlocked (p : pool) (q : Z) : bool :=
  if (q <? 0) || (capacity p * slot_size p <=? q) then false else q mod slot_size p =? 0.

(** The slot of a pointer the pool owns. *)
Definition slot_at (p : pool) (q : Z) : Z := q / slot_size p.

Definition pool_alloc (p : pool) : option (option Z * pool) :=
  match head p with
  | None => Some (None, p)
  | Some q =>
      nxt ← aget (links p) (slot_at p q);
      l ← aset (links p) (slot_at p q) None;
      Some (Some q, Pool l nxt (slot_size p) (capacity p) (u64 (in_use p + 1)))
  end.

Definition pool_free (p : pool) (ptr : option Z) : option pool :=
  match ptr with
  | None => Some p
  | Some q =>
      if negb (pool_owns_unlocked p q) then Some p
      else if negb (0 <? in_use p) then Some p
      else
        l ← aset (links p) (slot_at p q) (head p);
        Some (Pool l (Some q) (slot_size p) (capacity p) (u64 (in_use p - 1)))
  end.

Definition pool_in_use (p : option pool) : Z := match p with Some p => in_use p | None => 0 end.
Definition pool_capacity (p : option pool) : Z := match p with Some p => capacity p | None => 0 end.

(** A client writes the first word of the slot at [q]. *)
Definition scribble (p : pool) (q : Z) (w : option Z) : option pool :=
  l ← aset (links p) (slot_at p q) w; Some (set_links p l).

(** ** Invariant *)

Section pool.
Implicit Types (p : pool) (F U : list Z).

(** The free list from [h] is [F]. *)
Fixpoint chain p (h : option Z) F : Prop :=
  match F with
  | [] => h = None
  | q :: F => h = Some q /\ exists nxt, aget (links p) (slot_at p q) = Some nxt /\ chain p nxt F
  end.

Definition slot_ptrs p : list Z := (fun i => i * slot_size p) <$> seqZ 0 (capacity p).

Record pool_ok p U : Prop := {
  po_size : 0 < slot_size p;
  po_cap : 0 < capacity p < 2 ^ 64;
  po_len : zlen (links p) = capacity p;
  po_use : in_use p = zlen U;
  po_free : exists F, chain p (head p) F /\ F ++ U ≡ₚ slot_ptrs p }.

Lemma slot_ptrs_nodup p : 0 < slot_size p -> NoDup (slot_ptrs p).
Proof. intros Hs. apply NoDup_fmap_2; [|apply NoDup_seqZ]. intros x y H. nia. Qed.

Lemma elem_of_slot_ptrs p q :
  0 < slot_size p -> q ∈ slot_ptrs p <-> exists i, q = i * slot_size p /\ 0 <= i < capacity p.
Proof.
  intros Hs. unfold slot_ptrs. rewrite list_elem_of_fmap. split; intros (i & -> & Hi); exists i; (split; [done|]).
  - apply elem_of_seqZ in Hi. lia.
  - apply elem_of_seqZ. lia.
Qed.

Lemma slot_at_ptr p i : 0 < slot_size p -> slot_at p (i * slot_size p) = i.
Proof. intros Hs. unfold slot_at. apply Z.div_mul. lia. Qed.

Lemma owns_iff p q : 0 < slot_size p -> pool_owns_unlocked p q = true <-> q ∈ slot_ptrs p.
Proof.
  intros Hs. rewrite elem_of_slot_ptrs by done. unfold pool_owns_unlocked. split.
  - destruct ((q <? 0) || (capacity p * slot_size p <=? q)) eqn:E; [done|]. intros Hm%Z.eqb_eq.
    exists (q / slot_size p). pose proof (Z.div_mod q (slot_size p) ltac:(lia)) as Hd. split; [lia|]. nia.
  - intros (i & -> & Hi). replace ((i * slot_size p <? 0) || (capacity p * slot_size p <=? i * slot_size p)) with false by nia.
    rewrite Z_mod_mult. done.
Qed.

(** Writing a slot outside the free list keeps the list. *)
Lemma chain_write p l s w h F :
  chain p h F -> aset (links p) s w = Some l -> Forall (fun q => slot_at p q <> s) F ->
  chain (set_links p l) h F.
Proof.
  intros Hc Hs. revert h Hc. induction F as [|q F IH]; intros h Hc Hf; [done|]. cbn in Hc |- *.
  destruct Hc as [-> (nxt & Hn & Hc)]. apply Forall_cons in Hf as [Hq Hf]. split; [done|].
  exists nxt. change (slot_at (set_links p l) q) with (slot_at p q).
  rewrite (aget_aset_ne _ _ _ _ _ Hs) by congruence. split; [done|]. by apply IH.
Qed.

(** Only the links and the slot size matter to a chain. *)
Lemma chain_ext p p' h F : chain p h F -> links p' = links p -> slot_size p' = slot_size p -> chain p' h F.
Proof.
  intros Hc Hl Hs. revert h Hc. induction F as [|q F IH]; intros h Hc; [done|]. cbn in *.
  destruct Hc as [-> (nxt & Hn & Hc)]. split; [done|]. exists nxt. unfold slot_at in *. rewrite Hl, Hs. split; [done|]. by apply IH.
Qed.

Lemma slot_at_ne p q q' : 0 < slot_size p -> q ∈ slot_ptrs p -> q' ∈ slot_ptrs p -> q <> q' -> slot_at p q <> slot_at p q'.
Proof.
  intros Hs (i & -> & _)%elem_of_slot_ptrs (j & -> & _)%elem_of_slot_ptrs Hne; try done.
  rewrite !slot_at_ptr by done. congruence.
Qed.

Lemma slot_at_range p q : 0 < slot_size p -> q ∈ slot_ptrs p -> 0 <= slot_at p q < capacity p.
Proof. intros Hs (i & -> & Hi)%elem_of_slot_ptrs; [|done]. by rewrite slot_at_ptr. Qed.

Lemma pool_alloc_spec p U :
  pool_ok p U ->
  exists r p', pool_alloc p = Some (r, p') /\ slot_size p' = slot_size p /\ capacity p' = capacity p /\
    match r with
    | None => p' = p /\ zlen U = capacity p
    | Some q => q ∉ U /\ q ∈ slot_ptrs p /\ aget (links p') (slot_at p q) = Some None /\ pool_ok p' (q :: U)
    end.
Proof.
  intros [Hs Hc Hl Hu (F & Hch & Hp)]. unfold pool_alloc.
  pose proof (slot_ptrs_nodup p Hs) as Hnd. rewrite <-Hp in Hnd.
  pose proof (Permutation_length Hp) as Hlen. unfold slot_ptrs in Hlen. rewrite length_app, length_fmap, length_seqZ in Hlen.
  destruct F as [|q F]; cbn in Hch.
  { rewrite Hch. exists None, p. split_and!; try done. cbn in Hlen. lia. }
  destruct Hch as [-> (nxt & Hn & Hch)]. rewrite Hn. cbn [mbind option_bind].
  destruct (aset (links p) (slot_at p q) None) as [l|] eqn:Ha.
  2: { rewrite aset_range in Ha by (by eapply aget_Some_range). done. }
  cbn [mbind option_bind]. eexists (Some q), _. split; [done|]. split; [done|]. split; [done|].
  assert (forall x, x ∈ F ++ U \/ x = q -> x ∈ slot_ptrs p) as Hin by (intros x Hx; rewrite <-Hp; set_solver).
  cbn in Hnd. apply NoDup_cons in Hnd as [Hq Hnd]. split; [set_solver|]. split; [apply Hin; by right|].
  split; [cbn; by rewrite (aget_aset_eq _ _ _ _ Ha)|]. cbn [length app] in Hlen. constructor; cbn; try done.
  - by rewrite (length_aset _ _ _ _ Ha).
  - rewrite Hu, u64_id by clia. lia.
  - exists F. split; [|by rewrite <-Hp, <-Permutation_middle].
    eapply (chain_ext (set_links p l)); [|done|done]. eapply chain_write; [done|done|].
    apply Forall_forall. intros x Hx. apply slot_at_ne; [done|apply Hin; set_solver|apply Hin; by right|set_solver].
Qed.

Lemma pool_free_spec p U1 q U2 :
  pool_ok p (U1 ++ q :: U2) ->
  exists p', pool_free p (Some q) = Some p' /\ slot_size p' = slot_size p /\ capacity p' = capacity p /\ pool_ok p' (U1 ++ U2).
Proof.
  intros [Hs Hc Hl Hu (F & Hch & Hp)]. unfold pool_free.
  pose proof (slot_ptrs_nodup p Hs) as Hnd. rewrite <-Hp, <-Permutation_middle in Hnd.
  pose proof (Permutation_length Hp) as Hlen. unfold slot_ptrs in Hlen. rewrite !length_app, length_fmap, length_seqZ in Hlen. cbn in Hlen.
  assert (forall x, x ∈ F \/ x = q -> x ∈ slot_ptrs p) as Hin by (intros x Hx; rewrite <-Hp; set_solver).
  rewrite (proj2 (owns_iff p q Hs)) by (apply Hin; by right). cbn [negb].
  rewrite length_app in Hu. cbn in Hu. rewrite (proj2 (Z.ltb_lt 0 (in_use p))) by lia. cbn [negb].
  pose proof (slot_at_range p q Hs (Hin q (or_intror eq_refl))) as Hr.
  destruct (aset (links p) (slot_at p q) (head p)) as [l|] eqn:Ha; [|rewrite aset_range in Ha by lia; done].
  cbn [mbind option_bind]. eexists. split; [done|]. split; [done|]. split; [done|].
  apply NoDup_app in Hnd as (_ & Hnd & _). constructor; cbn; try done.
  - by rewrite (length_aset _ _ _ _ Ha).
  - rewrite u64_id by clia. rewrite length_app. lia.
  - exists (q :: F). split; [|rewrite <-Hp; solve_Permutation].
    cbn. split; [done|]. exists (head p). unfold slot_at at 1. cbn. fold (slot_at p q).
    split; [by apply (aget_aset_eq _ _ _ _ Ha)|].
    eapply (chain_ext (set_links p l)); [|done|done]. eapply chain_write; [done|done|].
    apply Forall_forall. intros x Hx. apply slot_at_ne; [done|apply Hin; by left|apply Hin; by right|].
    intros ->. apply (Hnd q Hx). set_solver.
Qed.

Lemma scribble_spec p U q w :
  pool_ok p U -> q ∈ U -> exists p', scribble p q w = Some p' /\ slot_size p' = slot_size p /\ capacity p' = capacity p /\ pool_ok p' U.
Proof.
  intros [Hs Hc Hl Hu (F & Hch & Hp)] Hq. unfold scribble.
  pose proof (slot_ptrs_nodup p Hs) as Hnd. rewrite <-Hp in Hnd. apply NoDup_app in Hnd as (_ & Hnd & _).
  assert (forall x, x ∈ F \/ x ∈ U -> x ∈ slot_ptrs p) as Hin by (intros x Hx; rewrite <-Hp; set_solver).
  pose proof (slot_at_range p q Hs (Hin q (or_intror Hq))) as Hr.
  destruct (aset (links p) (slot_at p q) w) as [l|] eqn:Ha; [|rewrite aset_range in Ha by lia; done].
  cbn [mbind option_bind]. eexists. split; [done|]. split; [done|]. split; [done|]. constructor; cbn; try done.
  - by rewrite (length_aset _ _ _ _ Ha).
  - exists F. split; [|done]. eapply chain_write; [done|done|].
    apply Forall_forall. intros x Hx. apply slot_at_ne; [done|apply Hin; by left|apply Hin; by right|].
    intros ->. by apply (Hnd q Hx).
Qed.
End pool.

(** ** Creation *)

Lemma pool_round_slot_spec elem_size :
  0 < elem_size <= SIZE_MAX - 15 ->
  pool_round_slot elem_size = (Z.max elem_size 8 + 15) / 16 * 16.
Proof.
  intros He. unfold pool_round_slot.
  replace (if elem_size <? 8 then 8 else elem_size) with (Z.max elem_size 8) by (destruct (Z.ltb_spec elem_size 8); lia).
  set (m := Z.max elem_size 8). replace (m + 16 - 1) with (m + 15) by lia.
  assert (0 <= m + 15 < 2 ^ 64) as Hm by (unfold m; clia). rewrite (u64_id (m + 15)) by done.
  change (u64 (Z.lnot (16 - 1))) with (Z.shiftl (Z.ones 60) 4).
  replace ((m + 15) / 16 * 16) with (Z.shiftl (Z.shiftr (m + 15) 4) 4) by (by rewrite Z.shiftl_mul_pow2, Z.shiftr_div_pow2).
  apply Z.bits_inj'. intros n Hn. rewrite Z.land_spec. destruct (decide (n < 4)).
  - rewrite !Z.shiftl_spec_low by lia. apply andb_false_r.
  - rewrite !Z.shiftl_spec, Z.shiftr_spec by lia. replace (n - 4 + 4) with n by lia.
    rewrite Z.testbit_ones by lia. rewrite (proj2 (Z.leb_le 0 (n - 4))) by lia. cbn [andb].
    destruct (Z.ltb_spec (n - 4) 60); [apply andb_true_r|]. rewrite andb_false_r.
    destruct (decide (m + 15 = 0)) as [->|]; [by rewrite Z.bits_0|].
    rewrite Z.bits_above_log2; [done|lia|]. assert (Z.log2 (m + 15) < 64) by (apply Z.log2_lt_pow2; lia). lia.
Qed.

Lemma pool_round_slot_ge elem_size :
  0 < elem_size <= SIZE_MAX - 15 -> elem_size <= pool_round_slot elem_size /\ (16 | pool_round_slot elem_size).
Proof.
  intros He. rewrite pool_round_slot_spec by done. split; [|by eexists].
  pose proof (Z.div_mod (Z.max elem_size 8 + 15) 16 ltac:(done)).
  pose proof (Z.mod_pos_bound (Z.max elem_size 8 + 15) 16 ltac:(done)). lia.
Qed.

Lemma thread_slots_spec n : forall l i size,
  0 <= i -> i + Z.of_nat n <= zlen l ->
  exists l', thread_slots n l i size = Some l' /\ length l' = length l /\
    forall k, aget l' k = if decide (i <= k < i + Z.of_nat n) then Some (Some ((k + 1) * size)) else aget l k.
Proof.
  induction n as [|n IH]; intros l i size Hi Hl; cbn [thread_slots].
  { exists l. split_and!; try done. intros k. by rewrite decide_False by lia. }
  destruct (aset l i (Some ((i + 1) * size))) as [l1|] eqn:Ha; [|rewrite aset_range in Ha by lia; done].
  cbn [mbind option_bind]. pose proof (length_aset _ _ _ _ Ha) as Hlen.
  destruct (IH l1 (i + 1) size) as (l' & -> & Hl' & Hg); [lia..|]. exists l'. split_and!; [done|congruence|].
  intros k. rewrite Hg, (aget_aset _ _ _ _ _ Ha). repeat case_decide; try lia; congruence.
Qed.

Lemma seq_chain p (n : nat) : forall i,
  0 < slot_size p -> 0 <= i -> i + Z.of_nat n = capacity p -> (0 < n)%nat ->
  (forall k, 0 <= k < capacity p ->
     aget (links p) k = Some (if decide (k = capacity p - 1) then None else Some ((k + 1) * slot_size p))) ->
  chain p (Some (i * slot_size p)) ((fun k => k * slot_size p) <$> seqZ i (Z.of_nat n)).
Proof.
  induction n as [|n IH]; intros i Hs Hi Hn H0 Hg; [lia|]. rewrite seqZ_cons by lia. rewrite fmap_cons. cbn [chain].
  split; [done|]. rewrite slot_at_ptr by done. eexists. split; [apply Hg; lia|].
  replace (Z.pred (Z.of_nat (S n))) with (Z.of_nat n) by lia. case_decide.
  - assert (n = 0%nat) as -> by lia. done.
  - apply IH; [done|lia..|done].
Qed.

Lemma pool_create_spec alloc elem_size cap :
  0 < elem_size <= SIZE_MAX - 15 -> 0 < cap -> cap <= SIZE_MAX / pool_round_slot elem_size ->
  alloc 0%nat && alloc 1%nat && alloc 2%nat = true ->
  exists p, pool_create alloc elem_size cap = Some (Some p) /\ slot_size p = pool_round_slot elem_size /\
    capacity p = cap /\ pool_ok p [].
Proof.
  intros He Hc Hcap [[A0 A1]%andb_true_iff A2]%andb_true_iff. unfold pool_create.
  destruct (pool_round_slot_ge elem_size He) as [Hge _].
  rewrite (proj2 (Z.ltb_lt 0 elem_size)), (proj2 (Z.ltb_lt 0 cap)), A0, A1, A2 by lia. cbn [negb orb].
  rewrite (proj2 (Z.leb_le cap _) Hcap), orb_true_r. cbn [negb].
  destruct (thread_slots_spec (Z.to_nat (cap - 1)) (replicate (Z.to_nat cap) None) 0 (pool_round_slot elem_size))
    as (l & -> & Hl & Hg); [lia|rewrite length_replicate; lia|]. cbn [mbind option_bind]. rewrite length_replicate in Hl.
  destruct (aset l (cap - 1) None) as [l2|] eqn:Ha; [|rewrite aset_range in Ha by lia; done]. cbn [mbind option_bind].
  eexists. split; [done|]. split; [done|]. split; [done|]. pose proof (length_aset _ _ _ _ Ha) as Hl2.
  assert (cap < 2 ^ 64).
  { assert (SIZE_MAX / pool_round_slot elem_size <= SIZE_MAX) by (apply Z.div_le_upper_bound; cint; nia). clia. }
  constructor; cbn; try done; try lia.
  eexists. split.
  - apply (seq_chain _ (Z.to_nat cap) 0); cbn; [lia|lia|lia|lia|].
    intros k Hk. rewrite (aget_aset _ _ _ _ _ Ha). repeat case_decide; try lia; try done.
    rewrite Hg, decide_True by lia. done.
  - rewrite app_nil_r. unfold slot_ptrs. cbn. by rewrite Z2Nat.id by lia.
Qed.

(** ** Histories *)

(** The states clients reach, with the pointers they own: they free what they own
    (or a pointer the pool ignores) and write only to what they own. *)
Inductive pool_reach (elem_size cap : Z) : list Z -> pool -> Prop :=
| PoolCreate alloc p : pool_create alloc elem_size cap = Some (Some p) -> pool_reach elem_size cap [] p
| PoolAlloc U p q p' : pool_reach elem_size cap U p -> pool_alloc p = Some (Some q, p') -> pool_reach elem_size cap (q :: U) p'
| PoolExhausted U p p' : pool_reach elem_size cap U p -> pool_alloc p = Some (None, p') -> pool_reach elem_size cap U p'
| PoolFree U1 q U2 p p' :
    pool_reach elem_size cap (U1 ++ q :: U2) p -> pool_free p (Some q) = Some p' -> pool_reach elem_size cap (U1 ++ U2) p'
| PoolForeign U p q p' :
    pool_reach elem_size cap U p -> pool_owns_unlocked p q = false -> pool_free p (Some q) = Some p' ->
    pool_reach elem_size cap U p'
| PoolWrite U p q w p' :
    pool_reach elem_size cap U p -> q ∈ U -> scribble p q w = Some p' -> pool_reach elem_size cap U p'.

Lemma pool_create_inv alloc elem_size cap p :
  0 < elem_size <= SIZE_MAX - 15 -> pool_create alloc elem_size cap = Some (Some p) ->
  0 < cap /\ cap <= SIZE_MAX / pool_round_slot elem_size /\ alloc 0%nat && alloc 1%nat && alloc 2%nat = true.
Proof.
  intros He. destruct (pool_round_slot_ge elem_size He) as [Hge _]. unfold pool_create.
  destruct (Z.ltb_spec 0 cap); [|by rewrite orb_true_r]. destruct (alloc 0%nat); cbn [negb]; [|by rewrite !orb_true_r].
  destruct (0 <? elem_size); cbn [negb orb]; [|done].
  rewrite (proj2 (Z.eqb_neq _ 0)) by lia. cbn [orb].
  destruct (Z.leb_spec cap (SIZE_MAX / pool_round_slot elem_size)); cbn [negb]; [|done].
  by destruct (alloc 1%nat), (alloc 2%nat).
Qed.

Lemma pool_reach_ok elem_size cap U p :
  0 < elem_size <= SIZE_MAX - 15 -> pool_reach elem_size cap U p ->
  pool_ok p U /\ slot_size p = pool_round_slot elem_size /\ capacity p = cap.
Proof.
  intros He. induction 1 as [alloc p Hc|U p q p' _ (Hok & Hs & Hn) Ha|U p p' _ (Hok & Hs & Hn) Ha|
    U1 q U2 p p' _ (Hok & Hs & Hn) Ha|U p q p' _ (Hok & Hs & Hn) Ho Ha|U p q w p' _ (Hok & Hs & Hn) Hq Ha].
  - destruct (pool_create_inv _ _ _ _ He Hc) as (H0 & H1 & H2).
    destruct (pool_create_spec alloc elem_size cap He H0 H1 H2) as (p0 & Hp0 & Hs & Hn & Hok).
    assert (p0 = p) as -> by congruence. done.
  - destruct (pool_alloc_spec p U Hok) as (r & p0 & Hr & Hs0 & Hn0 & Hcase). rewrite Ha in Hr. simplify_eq.
    split_and!; [apply Hcase|congruence..].
  - destruct (pool_alloc_spec p U Hok) as (r & p0 & Hr & Hs0 & Hn0 & Hcase). rewrite Ha in Hr. simplify_eq.
    destruct Hcase as [-> _]. done.
  - destruct (pool_free_spec p U1 q U2 Hok) as (p0 & Hr & Hs0 & Hn0 & Hok0). rewrite Ha in Hr. simplify_eq.
    split_and!; [done|congruence..].
  - unfold pool_free in Ha. rewrite Ho in Ha. cbn in Ha. by simplify_eq.
  - destruct (scribble_spec p U q w Hok Hq) as (p0 & Hr & Hs0 & Hn0 & Hok0). rewrite Ha in Hr. simplify_eq.
    split_and!; [done|congruence..].
Qed.

(** In every history the pointers clients own are distinct slots, at least
    [elem_size] bytes apart and inside the storage, and [in_use] counts them;
    an allocation returns a slot nobody owns, with its first word zero, and fails
    only when all slots are taken; the storage is freed only when none is. *)
Theorem pool_history_correct elem_size cap U p :
  0 < elem_size <= SIZE_MAX - 15 -> pool_reach elem_size cap U p ->
  NoDup U /\ in_use p = zlen U /\ zlen U <= cap /\
  (forall q, q ∈ U -> 0 <= q /\ q + elem_size <= cap * slot_size p /\ (16 | q)) /\
  (forall q q', q ∈ U -> q' ∈ U -> q <> q' -> elem_size <= Z.abs (q - q')) /\
  (pool_destroy p = true <-> U = []) /\
  exists r p', pool_alloc p = Some (r, p') /\
    match r with
    | Some q => q ∉ U /\ aget (links p') (slot_at p q) = Some None
    | None => zlen U = cap
    end.
Proof.
  intros He Hr. destruct (pool_reach_ok _ _ _ _ He Hr) as (Hok & Hs & <-).
  pose proof Hok as [Hs0 Hc Hl Hu (F & Hch & Hp)]. pose proof (slot_ptrs_nodup p Hs0) as Hnd. rewrite <-Hp in Hnd.
  destruct (pool_round_slot_ge elem_size He) as [Hge H16]. rewrite <-Hs in Hge, H16.
  assert (forall q, q ∈ U -> exists i, q = i * slot_size p /\ 0 <= i < capacity p) as HU.
  { intros q Hq. apply elem_of_slot_ptrs; [done|]. rewrite <-Hp. set_solver. }
  pose proof (Permutation_length Hp) as Hlen. unfold slot_ptrs in Hlen. rewrite length_app, length_fmap, length_seqZ in Hlen.
  split; [by apply NoDup_app in Hnd as (_ & _ & ?)|]. split; [done|]. split; [lia|]. split; [|split; [|split]].
  - intros q Hq. destruct (HU q Hq) as (i & -> & Hi). split_and!; [nia|nia|by apply Z.divide_mul_r].
  - intros q q' Hq Hq' Hne. destruct (HU q Hq) as (i & -> & Hi). destruct (HU q' Hq') as (j & -> & Hj).
    assert (i <> j) by congruence. rewrite <-Z.mul_sub_distr_r, Z.abs_mul. assert (1 <= Z.abs (i - j)) by lia. nia.
  - unfold pool_destroy. rewrite Hu, Z.eqb_eq. destruct U; cbn; split; done || lia.
  - destruct (pool_alloc_spec p U Hok) as (r & p' & Ha & _ & _ & Hcase). exists r, p'. split; [done|].
    destruct r as [q|]; [|apply Hcase]. destruct Hcase as (? & _ & ? & _). done.
Qed.

(** ** Example *)

Definition ex_pool : pool := Eval vm_compute in
  match pool_create (fun _ => true) 24 3 with Some (Some p) => p | _ => Pool [] None 0 0 0 end.
Definition ex_pool1 : pool := Eval vm_compute in match pool_alloc ex_pool with Some (_, p) => p | None => ex_pool end.

Lemma pool_history_correct_witness : NoDup [0] /\ in_use ex_pool1 = 1 /\ pool_destroy ex_pool1 = false.
Proof.
  destruct (pool_history_correct 24 3 [0] ex_pool1) as (H1 & H2 & _ & _ & _ & H3 & _); [split; [reflexivity|discriminate]| |].
  - apply (PoolAlloc 24 3 [] ex_pool 0 ex_pool1); [|vm_compute; reflexivity].
    apply (PoolCreate 24 3 (fun _ => true)). vm_compute. reflexivity.
  - split; [exact H1|]. split; [exact H2|reflexivity].
Defined.

(** The rounding wraps for element sizes next to [SIZE_MAX], and the overflow guard
    lets the resulting slot size 0 through. *)
Lemma pool_round_slot_wraps :
  pool_round_slot SIZE_MAX = 0 /\ exists p, pool_create (fun _ => true) SIZE_MAX 2 = Some (Some p).
Proof. split; [reflexivity|]. eexists. vm_compute. reflexivity. Qed.
