(* ===== verification/Lookahead.v ===== *)
(** * The lookahead queue

    [src/src/lookahead/lookahead.c]: the bounded ring of samples between the
    pushing user and the prefetcher. Every operation holds the queue's lock; the
    waits are modelled by what the queue is when they return. *)

From stdpp Require Import strings.
From S2P Require Import Prelude Selection.

#[local] Open Scope Z_scope.

Record damacy_sample_slot := SampleSlot {
  sl_uri : option string; sl_aabb : damacy_aabb; sl_axes : list query_axis; sample_seq : Z }.
Definition slot_zero : damacy_sample_slot := SampleSlot None (Aabb [] 0) [] 0.

(** The lock and the condition variable are objects that exist or not. *)
Record damacy_lookahead := Lookahead {
  la_slots : option (list damacy_sample_slot); la_cap : Z; la_head : Z; la_tail : Z; la_size : Z;
  la_lock : bool; la_cond : bool; stop_signaled : bool }.

(** The string freed and the slot. *)
Definition sample_slot_clear (slot : damacy_sample_slot) : option string * damacy_sample_slot := (sl_uri slot, slot_zero).

(** The strings freed and what is left of the structure. *)
Definition lookahead_destroy (la : damacy_lookahead) : list string * damacy_lookahead :=
  (omap (fun s => fst (sample_slot_clear s)) (default [] (la_slots la)),
   Lookahead None (la_cap la) (la_head la) (la_tail la) (la_size la) false false (stop_signaled la)).

(** [alloc k]: does the [k]-th allocation succeed. Return code and queue; [la0] is
    the memory before. *)
Definition lookahead_init (alloc : nat -> bool) (la0 : damacy_lookahead) (cap : Z) : Z * damacy_lookahead :=
  if negb (0 <? cap) then (1, snd (lookahead_destroy la0))
  else
    let la := Lookahead None 0 0 0 0 false false false in
    if negb (alloc 0%nat) then (1, snd (lookahead_destroy la))
    else
      let la := Lookahead (Some (replicate (Z.to_nat cap) slot_zero)) cap 0 0 0 false false false in
      if negb (alloc 1%nat) then (1, snd (lookahead_destroy la))
      else
        let la := Lookahead (la_slots la) cap 0 0 0 true false false in
        if negb (alloc 2%nat) then (1, snd (lookahead_destroy la))
        else (0, Lookahead (la_slots la) cap 0 0 0 true true false).

(** A copy that fails half-way has written bounds and axes, [junk], but not the uri,
    to the free slot. *)
Definition lookahead_push_with_sample_seq (malloc : Z -> bool) (junk : damacy_aabb * list query_axis)
    (la : damacy_lookahead) (sample : option damacy_sample) (seq : Z) : option (Z * damacy_lookahead) :=
  match sample with
  | None => Some (1, la)
  | Some s =>
      match s_uri s with
      | None => Some (1, la)
      | Some _ =>
          if la_size la =? la_cap la then Some (1, la)
          else
            slots ← la_slots la;
            copied ← query_copy malloc sample;
            match copied with
            | inl _ =>
                old ← aget slots (la_tail la);
                slots ← aset slots (la_tail la) (SampleSlot (sl_uri old) (fst junk) (snd junk) (sample_seq old));
                Some (1, Lookahead (Some slots) (la_cap la) (la_head la) (la_tail la) (la_size la)
                           (la_lock la) (la_cond la) (stop_signaled la))
            | inr (uri, aabb, axes) =>
                slots ← aset slots (la_tail la) (SampleSlot (Some uri) aabb axes seq);
                Some (0, Lookahead (Some slots) (la_cap la) (la_head la) (u32 (la_tail la + 1) mod la_cap la)
                           (u32 (la_size la + 1)) (la_lock la) (la_cond la) (stop_signaled la))
            end
      end
  end.

Definition lookahead_push (malloc : Z -> bool) (junk : damacy_aabb * list query_axis) (la : damacy_lookahead)
    (sample : option damacy_sample) : option (Z * damacy_lookahead) :=
  lookahead_push_with_sample_seq malloc junk la sample 0.

Definition pop_one_locked (la : damacy_lookahead) : option (damacy_sample_slot * damacy_lookahead) :=
  slots ← la_slots la;
  out ← aget slots (la_head la);
  slots ← aset slots (la_head la) slot_zero;
  Some (out, Lookahead (Some slots) (la_cap la) (u32 (la_head la + 1) mod la_cap la) (la_tail la)
               (u32 (la_size la - 1)) (la_lock la) (la_cond la) (stop_signaled la)).

Fixpoint drain_loop (n : nat) (la : damacy_lookahead) : option (list damacy_sample_slot * damacy_lookahead) :=
  match n with
  | O => Some ([], la)
  | S n =>
      r ← pop_one_locked la;
      q ← drain_loop n (snd r);
      Some (fst r :: fst q, snd q)
  end.

(** The samples written to [out]. *)
Definition lookahead_drain (la : damacy_lookahead) (n : Z) : option (list damacy_sample_slot * damacy_lookahead) :=
  drain_loop (Z.to_nat (if n <? la_size la then n else la_size la)) la.

(** The sample, when one was popped. *)
Definition lookahead_try_pop (la : damacy_lookahead) : option (option damacy_sample_slot * damacy_lookahead) :=
  if 0 <? la_size la then r ← pop_one_locked la; Some (Some (fst r), snd r) else Some (None, la).

(** One pass of the loop: [None] inside is a wait, after which it is run again. *)
Definition must_wait (la : damacy_lookahead) : bool := (la_size la =? 0) && negb (stop_signaled la).

Definition lookahead_pop_blocking (la : damacy_lookahead) : option (option (option damacy_sample_slot * damacy_lookahead)) :=
  if must_wait la then Some None else r ← lookahead_try_pop la; Some (Some r).

(** [waited]: the queue when the timed wait returns. *)
Definition lookahead_pop_blocking_timeout (la waited : damacy_lookahead)
    : option (option damacy_sample_slot * damacy_lookahead) :=
  lookahead_try_pop (if must_wait la then waited else la).

(** Whether samples are there, [None] to wait again. *)
Definition lookahead_wait_nonempty_timeout (la waited : damacy_lookahead) (timeout_ms : Z) : option bool :=
  if timeout_ms <? 0 then if must_wait la then None else Some (0 <? la_size la)
  else Some (0 <? la_size (if must_wait la then waited else la)).

Definition lookahead_signal_stop (la : damacy_lookahead) : damacy_lookahead :=
  Lookahead (la_slots la) (la_cap la) (la_head la) (la_tail la) (la_size la) (la_lock la) (la_cond la) true.

Definition lookahead_size (la : damacy_lookahead) : Z := la_size la.

(** ** The queue *)

(** The ring holds [q], oldest first; unused cells own no string. *)
Record la_ring (la : damacy_lookahead) (slots q : list damacy_sample_slot) : Prop := {
  lr_some : la_slots la = Some slots;
  lr_len : zlen slots = la_cap la;
  lr_cap : 0 < la_cap la < UINT32_MAX;
  lr_head : 0 <= la_head la < la_cap la;
  lr_size : la_size la = zlen q;
  lr_fit : zlen q <= la_cap la;
  lr_tail : la_tail la = (la_head la + zlen q) mod la_cap la;
  lr_data : forall k x, aget q k = Some x -> aget slots ((la_head la + k) mod la_cap la) = Some x;
  lr_clear : forall k, zlen q <= k < la_cap la ->
    exists x, aget slots ((la_head la + k) mod la_cap la) = Some x /\ sl_uri x = None }.

Definition la_rep (la : damacy_lookahead) (q : list damacy_sample_slot) : Prop := exists slots, la_ring la slots q.

Lemma mod_distinct h c a b :
  0 < c -> 0 <= a < c -> 0 <= b < c -> (h + a) mod c = (h + b) mod c -> a = b.
Proof.
  intros Hc Ha Hb He. assert ((a - b) mod c = 0) as Hm.
  { replace (a - b) with ((h + a) - (h + b)) by lia. rewrite Zminus_mod, He, Z.sub_diag. done. }
  apply Z.mod_divide in Hm as [k Hk]; [|lia]. assert (k = 0) by nia. subst k. lia.
Qed.

Lemma push_spec malloc junk la q s seq :
  la_rep la q -> (exists u, s_uri s = Some u) -> (exists r, query_copy malloc (Some s) = Some r) ->
  exists rc la', lookahead_push_with_sample_seq malloc junk la (Some s) seq = Some (rc, la') /\
    la_cap la' = la_cap la /\ stop_signaled la' = stop_signaled la /\
    ((rc = 0 /\ zlen q < la_cap la /\ exists uri aabb axes, query_copy malloc (Some s) = Some (inr (uri, aabb, axes)) /\
        la_rep la' (q ++ [SampleSlot (Some uri) aabb axes seq])) \/
     (rc = 1 /\ la_rep la' q /\ (zlen q = la_cap la \/ exists st, query_copy malloc (Some s) = Some (inl st)))).
Proof.
  intros HR [u Hu] [r Hr]. pose proof HR as [slots [Hsome Hlen Hcap Hh Hsz Hfit Htl Hdata Hclr]]. unfold lookahead_push_with_sample_seq. rewrite Hu.
  destruct (Z.eqb_spec (la_size la) (la_cap la)) as [Hfull|Hroom].
  { exists 1, la. split_and!; try done. right. split_and!; try done. left. lia. }
  rewrite Hsome. cbn [mbind option_bind]. rewrite Hr. cbn [mbind option_bind].
  assert (0 <= la_tail la < la_cap la) as Htr by (rewrite Htl; apply Z.mod_pos_bound; lia).
  assert (forall sl v, aset slots (la_tail la) v = Some sl -> forall k, 0 <= k < la_cap la -> k <> zlen q ->
    aget sl ((la_head la + k) mod la_cap la) = aget slots ((la_head la + k) mod la_cap la)) as Hne.
  { intros sl v Hs k Hk Hkq. rewrite (aget_aset_ne _ _ _ _ _ Hs); [done|]. rewrite Htl. intros He.
    apply Hkq. symmetry. eapply (mod_distinct (la_head la) (la_cap la)); try done; lia. }
  destruct r as [st|[[uri aabb] axes]].
  { destruct (Hclr (zlen q)) as (old & Hold & Hnone); [lia|]. rewrite <-Htl in Hold. rewrite Hold. cbn [mbind option_bind].
    destruct (aset slots (la_tail la) (SampleSlot (sl_uri old) (fst junk) (snd junk) (sample_seq old))) as [sl|] eqn:Hs;
      [|rewrite aset_range in Hs by lia; done].
    cbn [mbind option_bind]. exists 1. eexists. split; [done|]. split; [done|]. split; [done|]. right. split; [done|].
    split; [|right; eauto]. exists sl. constructor; cbn [la_slots la_cap la_head la_size la_tail]; try done.
    - by rewrite (length_aset _ _ _ _ Hs).
    - intros k x Hk. pose proof (aget_Some_range _ _ _ Hk). rewrite (Hne sl _ Hs) by lia. by apply Hdata.
    - intros k Hk. destruct (decide (k = zlen q)) as [->|].
      + rewrite <-Htl, (aget_aset_eq _ _ _ _ Hs). eauto.
      + rewrite (Hne sl _ Hs) by lia. apply Hclr. lia. }
  destruct (aset slots (la_tail la) (SampleSlot (Some uri) aabb axes seq)) as [sl|] eqn:Hs;
    [|rewrite aset_range in Hs by lia; done].
  cbn [mbind option_bind]. exists 0. eexists. split; [done|]. split; [done|]. split; [done|]. left. split; [done|]. split; [lia|].
  exists uri, aabb, axes. split; [done|]. exists sl.
  constructor; cbn [la_slots la_cap la_head la_size la_tail]; rewrite ?length_app; cbn [length]; try done; try lia.
  - by rewrite (length_aset _ _ _ _ Hs).
  - rewrite u32_id by clia. lia.
  - rewrite u32_id by clia. rewrite Htl, Zplus_mod_idemp_l. f_equal. lia.
  - intros k x Hk. apply aget_snoc in Hk as [Hk|[-> ->]].
    + pose proof (aget_Some_range _ _ _ Hk). rewrite (Hne sl _ Hs) by lia. by apply Hdata.
    + rewrite <-Htl. by apply (aget_aset_eq _ _ _ _ Hs).
  - intros k Hk. rewrite (Hne sl _ Hs) by lia. apply Hclr. lia.
Qed.

Lemma pop_one_spec la x q :
  la_rep la (x :: q) ->
  exists la', pop_one_locked la = Some (x, la') /\ la_rep la' q /\ la_cap la' = la_cap la /\ stop_signaled la' = stop_signaled la.
Proof.
  intros [slots [Hsome Hlen Hcap Hh Hsz Hfit Htl Hdata Hclr]]. unfold pop_one_locked. rewrite Hsome. cbn [mbind option_bind].
  cbn [length] in *.
  assert (aget slots (la_head la) = Some x) as Hx.
  { rewrite <-(Hdata 0 x) by done. rewrite Z.add_0_r, Z.mod_small by lia. done. }
  rewrite Hx. cbn [mbind option_bind].
  destruct (aset slots (la_head la) slot_zero) as [sl|] eqn:Hs; [|rewrite aset_range in Hs by lia; done].
  cbn [mbind option_bind]. eexists. split; [done|]. split; [|done]. exists sl.
  rewrite (u32_id (la_head la + 1)) by clia.
  assert (forall k, 0 <= k < la_cap la - 1 ->
    aget sl ((((la_head la + 1) mod la_cap la) + k) mod la_cap la) = aget slots ((la_head la + (k + 1)) mod la_cap la)) as Hne.
  { intros k Hk. rewrite Zplus_mod_idemp_l. replace (la_head la + 1 + k) with (la_head la + (k + 1)) by lia.
    rewrite (aget_aset_ne _ _ _ _ _ Hs); [done|]. intros He. assert (0 = k + 1); [|lia].
    apply (mod_distinct (la_head la) (la_cap la)); [lia..|]. rewrite Z.add_0_r, (Z.mod_small (la_head la)) by lia. exact He. }
  constructor; cbn [la_slots la_cap la_head la_size la_tail]; try done; try lia.
  - by rewrite (length_aset _ _ _ _ Hs).
  - apply Z.mod_pos_bound. lia.
  - rewrite u32_id by clia. lia.
  - rewrite Htl, Zplus_mod_idemp_l. f_equal. lia.
  - intros k y Hk. pose proof (aget_Some_range _ _ _ Hk) as Hr. rewrite Hne by lia. apply Hdata.
    apply aget_lookup in Hk as [_ Hk]. apply aget_lookup. split; [lia|]. by replace (Z.to_nat (k + 1)) with (S (Z.to_nat k)) by lia.
  - intros k Hk. destruct (decide (k = la_cap la - 1)) as [->|].
    + rewrite Zplus_mod_idemp_l. replace (la_head la + 1 + (la_cap la - 1)) with (la_head la + 1 * la_cap la) by lia.
      rewrite Z_mod_plus_full, Z.mod_small by lia. exists slot_zero. split; [|done]. by apply (aget_aset_eq _ _ _ _ Hs).
    + rewrite Hne by lia. apply Hclr. lia.
Qed.

Lemma try_pop_spec la q :
  la_rep la q ->
  exists la', lookahead_try_pop la = Some (head q, la') /\ la_rep la' (tail q) /\ la_cap la' = la_cap la /\
    stop_signaled la' = stop_signaled la.
Proof.
  intros Hr. pose proof Hr as [slots [Hsome Hlen Hcap Hh Hsz Hfit Htl Hdata Hclr]]. unfold lookahead_try_pop. rewrite Hsz.
  destruct q as [|x q]; cbn [length head tail].
  - exists la. done.
  - rewrite (proj2 (Z.ltb_lt 0 _)) by lia. destruct (pop_one_spec la x q Hr) as (la' & -> & H). cbn [mbind option_bind fst snd]. eauto.
Qed.

Lemma drain_loop_spec n : forall la q,
  la_rep la q -> (n <= length q)%nat ->
  exists la', drain_loop n la = Some (take n q, la') /\ la_rep la' (drop n q) /\ la_cap la' = la_cap la /\
    stop_signaled la' = stop_signaled la.
Proof.
  induction n as [|n IH]; intros la q Hr Hn; cbn [drain_loop].
  { rewrite take_0, drop_0. eauto. }
  destruct q as [|x q]; [cbn in Hn; lia|]. destruct (pop_one_spec la x q Hr) as (la1 & -> & Hr1 & Hc1 & Hs1).
  cbn [mbind option_bind fst snd]. destruct (IH la1 q Hr1) as (la2 & -> & Hr2 & Hc2 & Hs2); [cbn in Hn; lia|].
  cbn [mbind option_bind fst snd take drop]. exists la2. split_and!; try done; congruence.
Qed.

Lemma lookahead_drain_ring la q n :
  la_rep la q -> 0 <= n ->
  exists la', lookahead_drain la n = Some (take (Z.to_nat n) q, la') /\ la_rep la' (drop (Z.to_nat n) q) /\
    la_cap la' = la_cap la /\ stop_signaled la' = stop_signaled la.
Proof.
  intros Hr Hn. pose proof Hr as [slots [_ _ _ _ Hsz _ _ _ _]]. unfold lookahead_drain. rewrite Hsz.
  destruct (Z.ltb_spec n (zlen q)).
  - apply drain_loop_spec; [done|lia].
  - rewrite Nat2Z.id, (take_ge q), (drop_ge q) by lia.
    destruct (drain_loop_spec (length q) la q Hr) as (la' & Hd & H'); [lia|].
    rewrite take_ge in Hd by lia. rewrite drop_ge in H' by lia. eauto.
Qed.

Lemma lookahead_init_ring alloc la0 cap :
  0 <= cap < UINT32_MAX ->
  exists rc la, lookahead_init alloc la0 cap = (rc, la) /\
    if (0 <? cap) && (alloc 0%nat && alloc 1%nat && alloc 2%nat) then
      rc = 0 /\ la_rep la [] /\ la_cap la = cap /\ stop_signaled la = false /\ la_lock la = true /\ la_cond la = true
    else rc = 1 /\ la_slots la = None /\ la_lock la = false /\ la_cond la = false.
Proof.
  intros Hc. unfold lookahead_init. destruct (Z.ltb_spec 0 cap) as [H0|H0]; cbn [negb andb]; [|eexists _, _; split; [done|]; done].
  destruct (alloc 0%nat); cbn [negb andb]; [|eexists _, _; split; [done|]; done].
  destruct (alloc 1%nat); cbn [negb andb]; [|eexists _, _; split; [done|]; done].
  destruct (alloc 2%nat); cbn [negb andb]; [|eexists _, _; split; [done|]; done].
  eexists _, _. split; [done|]. split; [done|]. split; [|done]. exists (replicate (Z.to_nat cap) slot_zero).
  constructor; cbn; try done; try lia.
  - rewrite length_replicate. lia.
  - intros k x [_ Hx]%aget_lookup. done.
  - intros k Hk. rewrite Z.mod_small by lia. exists slot_zero. split; [|done]. apply aget_lookup. split; [lia|]. apply lookup_replicate. split; [done|lia].
Qed.

(** The ring cut open at its head. *)
Lemma ring_open la slots q :
  la_ring la slots q ->
  forall k x, (drop (Z.to_nat (la_head la)) slots ++ take (Z.to_nat (la_head la)) slots) !! k = Some x ->
    aget slots ((la_head la + Z.of_nat k) mod la_cap la) = Some x.
Proof.
  intros [Hsome Hlen Hcap Hh Hsz Hfit Htl Hdata Hclr] k x Hk. apply lookup_app_Some in Hk as [Hk|[Hge Hk]].
  - rewrite lookup_drop in Hk. pose proof (lookup_lt_Some _ _ _ Hk). rewrite Z.mod_small by lia.
    apply aget_lookup. split; [lia|]. by replace (Z.to_nat (la_head la + Z.of_nat k)) with (Z.to_nat (la_head la) + k)%nat by lia.
  - rewrite length_drop in Hk, Hge. apply lookup_take_Some in Hk as [Hk Hlt].
    replace (la_head la + Z.of_nat k) with (Z.of_nat (k - (length slots - Z.to_nat (la_head la))) + 1 * la_cap la) by lia.
    rewrite Z_mod_plus_full, Z.mod_small by lia. by rewrite aget_nat.
Qed.

Lemma omap_none {A B} (f : A -> option B) l : Forall (fun x => f x = None) l -> omap f l = [].
Proof. induction 1 as [|x l Hx _ IH]; [done|]. cbn. by rewrite Hx. Qed.

Lemma destroy_spec la q :
  la_rep la q -> fst (lookahead_destroy la) ≡ₚ omap sl_uri q.
Proof.
  intros [slots HR]. pose proof (ring_open la slots q HR) as Hopen. destruct HR as [Hsome Hlen Hcap Hh Hsz Hfit Htl Hdata Hclr].
  unfold lookahead_destroy. rewrite Hsome. cbn [fst default from_option id].
  set (h := Z.to_nat (la_head la)) in *. set (r := drop h slots ++ take h slots) in *.
  assert (slots ≡ₚ r) as Hp by (unfold r; rewrite Permutation_app_comm, take_drop; done).
  assert (length r = length slots) as Hlr by (by rewrite <-Hp).
  change (fun s => fst (sample_slot_clear s)) with sl_uri. rewrite Hp, <-(take_drop (length q) r), omap_app.
  rewrite (omap_none sl_uri (drop (length q) r)), app_nil_r.
  - assert (take (length q) r = q) as ->; [|done]. apply aget_ext; [rewrite length_take; lia|].
    intros i x [Hi Hx]%aget_lookup. apply lookup_take_Some in Hx as [Hx Hlt].
    destruct (aget_is_Some q i) as [y Hy]; [lia|]. apply Hopen in Hx. apply Hdata in Hy as Hy'.
    rewrite Z2Nat.id in Hx by lia. congruence.
  - apply Forall_forall. intros x [i Hx]%list_elem_of_lookup. rewrite lookup_drop in Hx.
    pose proof (lookup_lt_Some _ _ _ Hx). apply Hopen in Hx.
    destruct (Hclr (Z.of_nat (length q + i))) as (y & Hy & Hn); [lia|]. congruence.
Qed.

(** ** Histories *)

(** The queues reached by pushes, pops and a stop, with the samples accepted and the
    samples handed out so far. *)
Inductive la_reach (cap : Z) : list damacy_sample_slot -> list damacy_sample_slot -> damacy_lookahead -> Prop :=
| LaInit alloc la0 la : lookahead_init alloc la0 cap = (0, la) -> la_reach cap [] [] la
| LaPush ins outs la malloc junk s seq la' uri aabb axes :
    la_reach cap ins outs la -> lookahead_push_with_sample_seq malloc junk la (Some s) seq = Some (0, la') ->
    query_copy malloc (Some s) = Some (inr (uri, aabb, axes)) ->
    la_reach cap (ins ++ [SampleSlot (Some uri) aabb axes seq]) outs la'
| LaRefused ins outs la malloc junk s seq la' :
    la_reach cap ins outs la -> lookahead_push_with_sample_seq malloc junk la s seq = Some (1, la') ->
    la_reach cap ins outs la'
| LaPop ins outs la r la' :
    la_reach cap ins outs la -> lookahead_pop_blocking la = Some (Some (r, la')) ->
    la_reach cap ins (outs ++ option_list r) la'
| LaTryPop ins outs la r la' :
    la_reach cap ins outs la -> lookahead_try_pop la = Some (r, la') -> la_reach cap ins (outs ++ option_list r) la'
| LaDrain ins outs la n l la' :
    la_reach cap ins outs la -> 0 <= n -> lookahead_drain la n = Some (l, la') -> la_reach cap ins (outs ++ l) la'
| LaStop ins outs la : la_reach cap ins outs la -> la_reach cap ins outs (lookahead_signal_stop la).

Lemma stop_rep la q : la_rep la q -> la_rep (lookahead_signal_stop la) q.
Proof. intros [slots []]. exists slots. by constructor. Qed.

Lemma head_tail {A} (l : list A) : option_list (head l) ++ tail l = l.
Proof. by destruct l. Qed.

Lemma pop_blocking_spec la q :
  la_rep la q ->
  if must_wait la then q = [] /\ stop_signaled la = false /\ lookahead_pop_blocking la = Some None
  else exists la', lookahead_pop_blocking la = Some (Some (head q, la')) /\ la_rep la' (tail q).
Proof.
  intros Hr. pose proof Hr as [slots [_ _ _ _ Hsz _ _ _ _]]. unfold lookahead_pop_blocking.
  destruct (must_wait la) eqn:E.
  - apply andb_true_iff in E as [E1%Z.eqb_eq E2%negb_true_iff]. split; [|done].
    destruct q; [done|]. cbn in Hsz. lia.
  - destruct (try_pop_spec la q Hr) as (la' & -> & Hr' & _). cbn [mbind option_bind]. eauto.
Qed.

Lemma la_reach_rep cap ins outs la :
  0 <= cap < UINT32_MAX -> la_reach cap ins outs la ->
  exists q, la_rep la q /\ ins = outs ++ q /\ la_cap la = cap.
Proof.
  intros Hc. induction 1 as [alloc la0 la Hi|ins outs la malloc junk s seq la' uri aabb axes _ (q & Hr & -> & Hcap) Hp Hq|
    ins outs la malloc junk s seq la' _ (q & Hr & -> & Hcap) Hp|ins outs la r la' _ (q & Hr & -> & Hcap) Hp|
    ins outs la r la' _ (q & Hr & -> & Hcap) Hp|ins outs la n l la' _ (q & Hr & -> & Hcap) Hn Hp|ins outs la _ (q & Hr & -> & Hcap)].
  - destruct (lookahead_init_ring alloc la0 cap Hc) as (rc & la1 & Hi' & Hcase). rewrite Hi in Hi'. simplify_eq.
    destruct (_ && _); [|by destruct Hcase]. destruct Hcase as (_ & Hr & Hcap & _). exists []. done.
  - unfold lookahead_push_with_sample_seq in Hp. destruct (s_uri s) as [u|] eqn:Eu; [|done].
    fold (lookahead_push_with_sample_seq malloc junk la (Some s) seq) in Hp.
    destruct (push_spec malloc junk la q s seq Hr) as (rc & la1 & Hp' & Hc1 & _ & Hcase); [eauto..|].
    unfold lookahead_push_with_sample_seq in Hp'. rewrite Eu, Hp in Hp'. simplify_eq.
    destruct Hcase as [(_ & _ & u1 & a1 & x1 & Hq1 & Hr1)|(? & _)]; [|done].
    rewrite Hq in Hq1. simplify_eq. exists (q ++ [SampleSlot (Some u1) a1 x1 seq]). rewrite app_assoc. split_and!; try done.
  - destruct s as [s|]; [|cbn in Hp; simplify_eq; exists q; done].
    destruct (s_uri s) as [u|] eqn:Eu; [|unfold lookahead_push_with_sample_seq in Hp; rewrite Eu in Hp; simplify_eq; exists q; done].
    destruct (query_copy malloc (Some s)) as [r|] eqn:Eq.
    + destruct (push_spec malloc junk la q s seq Hr) as (rc & la1 & Hp' & Hc1 & _ & Hcase); [eauto..|].
      rewrite Hp in Hp'. simplify_eq. destruct Hcase as [(? & _)|(_ & Hr1 & _)]; [done|]. exists q. done.
    + unfold lookahead_push_with_sample_seq in Hp. rewrite Eu, Eq in Hp.
      destruct (la_size la =? la_cap la); [simplify_eq; exists q; done|]. by destruct (la_slots la).
  - pose proof (pop_blocking_spec la q Hr) as Hs. destruct (must_wait la) eqn:Ew.
    + destruct Hs as (_ & _ & Hs). congruence.
    + destruct (try_pop_spec la q Hr) as (la1 & Ht & Hr1 & Hc1 & _). unfold lookahead_pop_blocking in Hp.
      rewrite Ew, Ht in Hp. cbn in Hp. simplify_eq. exists (tail q). rewrite <-app_assoc, head_tail. done.
  - destruct (try_pop_spec la q Hr) as (la1 & Ht & Hr1 & Hc1 & _). rewrite Hp in Ht. simplify_eq.
    exists (tail q). rewrite <-app_assoc, head_tail. done.
  - destruct (lookahead_drain_ring la q n Hr Hn) as (la1 & Hd & Hr1 & Hc1 & _). rewrite Hp in Hd. simplify_eq.
    exists (drop (Z.to_nat n) q). rewrite <-app_assoc, take_drop. done.
  - exists q. split; [by apply stop_rep|]. done.
Qed.

(** C28: the lookahead is a bounded first-in first-out queue: in every history the
    accepted samples are those handed out followed by those still queued, in order;
    a push is refused exactly when the queue is full or the sample cannot be
    copied; a blocking pop waits exactly when the queue is empty and not stopped,
    and otherwise returns the oldest sample; destruction frees the string of each
    queued sample once. *)
Theorem lookahead_history_correct cap ins outs la :
  0 <= cap < UINT32_MAX -> la_reach cap ins outs la ->
  exists q, ins = outs ++ q /\ zlen q <= cap /\ lookahead_size la = zlen q /\
    fst (lookahead_destroy la) ≡ₚ omap sl_uri q /\
    (forall malloc junk s seq, (exists u, s_uri s = Some u) -> (exists r, query_copy malloc (Some s) = Some r) ->
      exists rc la', lookahead_push_with_sample_seq malloc junk la (Some s) seq = Some (rc, la') /\
        (rc = 1 <-> zlen q = cap \/ exists st, query_copy malloc (Some s) = Some (inl st))) /\
    (if must_wait la then q = [] /\ stop_signaled la = false /\ lookahead_pop_blocking la = Some None
     else exists la', lookahead_pop_blocking la = Some (Some (head q, la'))).
Proof.
  intros Hc Hr. destruct (la_reach_rep cap ins outs la Hc Hr) as (q & Hq & -> & <-). exists q.
  pose proof Hq as [slots [_ _ _ _ Hsz Hfit _ _ _]]. split; [done|]. split; [done|]. split; [done|].
  split; [by apply destroy_spec|]. split.
  - intros malloc junk s seq Hu Hcp. destruct (push_spec malloc junk la q s seq Hq Hu Hcp) as (rc & la' & Hp & _ & _ & Hcase).
    exists rc, la'. split; [done|]. destruct Hcase as [(-> & Hlt & uri & ab & ax & Hcopy & _)|(-> & _ & Hwhy)].
    + split; [done|]. intros [?|[st Hst]]; [lia|congruence].
    + split; [done|done].
  - pose proof (pop_blocking_spec la q Hq) as Hs. destruct (must_wait la); [done|]. destruct Hs as (la' & Hp & _). eauto.
Qed.

(** ** Example *)

Definition ex_sample : damacy_sample := Sample (Some "a.zarr") 1 [AxisInterval (Interval 0 4)].
Definition la_none : damacy_lookahead := Lookahead None 0 0 0 0 false false false.
Definition ex_la : damacy_lookahead := Eval vm_compute in snd (lookahead_init (fun _ => true) la_none 2).
Definition ex_la1 : damacy_lookahead := Eval vm_compute in
  match lookahead_push_with_sample_seq (fun _ => true) (Aabb [] 0, []) ex_la (Some ex_sample) 7 with
  | Some (_, la) => la | None => ex_la end.
Definition ex_item : damacy_sample_slot := SampleSlot (Some "a.zarr") (Aabb [Interval 0 4] 1) [query_axis_none] 7.

Lemma lookahead_history_correct_witness :
  exists q, [ex_item] = [] ++ q /\ lookahead_size ex_la1 = zlen q.
Proof.
  destruct (lookahead_history_correct 2 [ex_item] [] ex_la1) as (q & H1 & _ & H2 & _); [split; [discriminate|reflexivity]| |].
  - apply (LaPush 2 [] [] ex_la (fun _ => true) (Aabb [] 0, []) ex_sample 7 ex_la1 "a.zarr" (Aabb [Interval 0 4] 1) [query_axis_none]);
      [|vm_compute; reflexivity|vm_compute; reflexivity].
    apply (LaInit 2 (fun _ => true) la_none). vm_compute. reflexivity.
  - exists q. exact (conj H1 H2).
Defined.
