(* ===== verification/Json.v ===== *)
(** * The JSON reader

    [src/src/util/json.c], a lazy reader that never allocates: a query walks the
    bytes of the source and returns the span of the value it finds. A [cslice] is
    the bytes it spans, so a cursor is the rest of the source and the end of a span
    is where a later cursor starts. [None] is a run that does not return: fuel that
    is not enough, or a nesting counter that leaves [int]. *)

From Stdlib Require Import Ascii.
From stdpp Require Import strings.
From S2P Require Import Prelude Strbuf.

#[local] Open Scope Z_scope.

Inductive json_type := JSON_INVALID | JSON_NULL | JSON_BOOL | JSON_NUMBER | JSON_STRING | JSON_ARRAY | JSON_OBJECT.
Inductive json_err :=
  JSON_OK | JSON_ERR_INVALID | JSON_ERR_PARSE | JSON_ERR_TYPE | JSON_ERR_RANGE | JSON_ERR_NOT_FOUND | JSON_ERR_OOM.
Inductive json_node_flag := JSON_NODE_FLAG_NONE | JSON_NODE_FLAG_STR_ESCAPED | JSON_NODE_FLAG_NUM_FLOAT.
#[export] Instance json_type_eq : EqDecision json_type.
Proof. solve_decision. Defined.
#[export] Instance json_err_eq : EqDecision json_err.
Proof. solve_decision. Defined.
#[export] Instance json_node_flag_eq : EqDecision json_node_flag.
Proof. solve_decision. Defined.

Record json_node := Node { n_type : json_type; n_flag : json_node_flag; n_s : string }.

#[export] Instance json_node_eq : EqDecision json_node.
Proof. solve_decision. Defined.

(** A call gives its value, or an error code other than [JSON_OK]. *)
Notation jres A := (json_err + A)%type.

(** ** Bytes *)

Definition code (ch : ascii) : Z := Z.of_N (N_of_ascii ch).
Definition dquote : ascii := "034".
Definition backslash : ascii := "\".
Definition char_is (a b : ascii) : bool := Ascii.eqb a b.
Definition is_digit (ch : ascii) : bool := (48 <=? code ch) && (code ch <=? 57).
Definition isxdigit (ch : ascii) : bool :=
  is_digit ch || ((65 <=? code ch) && (code ch <=? 70)) || ((97 <=? code ch) && (code ch <=? 102)).
Definition is_ws (ch : ascii) : bool :=
  char_is ch " " || char_is ch "009" || char_is ch "010" || char_is ch "013".

(** The span from [start] to the later cursor [c]. *)
Definition cs_until (start c : string) : string := String.substring 0 (String.length start - String.length c) start.

Fixpoint skip_ws (c : string) : string :=
  match c with
  | EmptyString => c
  | String ch c' => if is_ws ch then skip_ws c' else c
  end.

(** ** Lexer

    Each lexer returns the cursor it leaves, also when it fails. *)

Definition simple_escape (esc : ascii) : bool :=
  char_is esc dquote || char_is esc backslash || char_is esc "/" || char_is esc "b" || char_is esc "f" ||
  char_is esc "n" || char_is esc "r" || char_is esc "t".

(** The loop after the opening quote; on success the cursor is at the closing one. *)
Fixpoint string_loop (c : string) (f : json_node_flag) : string * option json_node_flag :=
  match c with
  | EmptyString => (c, None)
  | String ch c1 =>
      if char_is ch dquote then (c, Some f)
      else if char_is ch backslash then
        match c1 with
        | EmptyString => (c1, None)
        | String esc c2 =>
            if char_is esc "u" then
              match c2 with
              | String h1 (String h2 (String h3 (String h4 c3))) =>
                  if isxdigit h1 && isxdigit h2 && isxdigit h3 && isxdigit h4
                  then string_loop c3 JSON_NODE_FLAG_STR_ESCAPED
                  else (c1, None)
              | _ => (c1, None)
              end
            else if simple_escape esc then string_loop c2 JSON_NODE_FLAG_STR_ESCAPED
            else (c1, None)
        end
      else if code ch <? 32 then (c, None)
      else string_loop c1 f
  end.

Definition tail (c : string) : string := match c with EmptyString => EmptyString | String _ c => c end.

Definition lex_string_span (c : string) : string * option (string * json_node_flag) :=
  match c with
  | EmptyString => (c, None)
  | String ch start =>
      if negb (char_is ch dquote) then (c, None)
      else
        match string_loop start JSON_NODE_FLAG_NONE with
        | (c, None) => (c, None)
        | (c, Some f) => (tail c, Some (cs_until start c, f))
        end
  end.

Fixpoint skip_digits (c : string) : string :=
  match c with
  | EmptyString => c
  | String ch c' => if is_digit ch then skip_digits c' else c
  end.
Definition at_digit (c : string) : bool := match c with EmptyString => false | String ch _ => is_digit ch end.

(** The optional fraction and exponent: the cursor, and the flag unless a digit is
    missing. *)
Definition lex_fraction (c : string) (f : json_node_flag) : string * option json_node_flag :=
  match c with
  | String ch c' =>
      if char_is ch "." then
        if at_digit c' then (skip_digits c', Some JSON_NODE_FLAG_NUM_FLOAT) else (c', None)
      else (c, Some f)
  | EmptyString => (c, Some f)
  end.
Definition skip_sign (c : string) : string :=
  match c with
  | String ch c' => if char_is ch "+" || char_is ch "-" then c' else c
  | EmptyString => c
  end.
Definition lex_exponent (c : string) (f : json_node_flag) : string * option json_node_flag :=
  match c with
  | String ch c' =>
      if char_is ch "e" || char_is ch "E" then
        let c' := skip_sign c' in
        if at_digit c' then (skip_digits c', Some JSON_NODE_FLAG_NUM_FLOAT) else (c', None)
      else (c, Some f)
  | EmptyString => (c, Some f)
  end.
Definition skip_minus (c : string) : string :=
  match c with String ch c' => if char_is ch "-" then c' else c | EmptyString => c end.

Definition lex_number_span (start : string) : string * option (string * json_node_flag) :=
  let c := skip_minus start in
  match c with
  | EmptyString => (c, None)
  | String ch c' =>
      let int := if char_is ch "0" then Some c' else if is_digit ch then Some (skip_digits c) else None in
      match int with
      | None => (c, None)
      | Some c =>
          match lex_fraction c JSON_NODE_FLAG_NONE with
          | (c, None) => (c, None)
          | (c, Some f) =>
              match lex_exponent c f with
              | (c, None) => (c, None)
              | (c, Some f) => (c, Some (cs_until start c, f))
              end
          end
      end
  end.

(** The bytes after [kw], if the cursor is at [kw]. *)
Fixpoint lex_keyword (c kw : string) : option string :=
  match kw, c with
  | EmptyString, _ => Some c
  | String k kw, String ch c => if char_is ch k then lex_keyword c kw else None
  | String _ _, EmptyString => None
  end.

Definition INT_MAX : Z := 2 ^ 31 - 1.

(** Skips to the bracket that closes the container; other brackets are bytes like
    any other. *)
Fixpoint container_loop (fuel : nat) (open close : ascii) (c : string) (depth : Z) : option (string * bool) :=
  match c with
  | EmptyString => Some (c, false)
  | String ch c' =>
      match fuel with
      | O => None
      | S fuel =>
          if char_is ch dquote then
            match lex_string_span c with
            | (_, None) => Some (c, false)
            | (tmp, Some _) => container_loop fuel open close tmp depth
            end
          else if char_is ch open then
            if INT_MAX <=? depth then None else container_loop fuel open close c' (depth + 1)
          else if char_is ch close then
            if depth - 1 =? 0 then Some (c', true) else container_loop fuel open close c' (depth - 1)
          else container_loop fuel open close c' depth
      end
  end.

Definition skip_container (c : string) : option (string * bool) :=
  match c with
  | EmptyString => Some (c, false)
  | String ch _ =>
      if char_is ch "{" then container_loop (String.length c) "{" "}" c 0
      else if char_is ch "[" then container_loop (String.length c) "[" "]" c 0
      else Some (c, false)
  end.

Definition keyword_value (c kw : string) (t : json_type) : string * jres json_node :=
  match lex_keyword c kw with
  | None => (c, inl JSON_ERR_PARSE)
  | Some c' => (c', inr (Node t JSON_NODE_FLAG_NONE (cs_until c c')))
  end.

Definition span_value (r : string * option (string * json_node_flag)) (t : json_type) : string * jres json_node :=
  match r with
  | (c, None) => (c, inl JSON_ERR_PARSE)
  | (c, Some (s, f)) => (c, inr (Node t f s))
  end.

Definition lex_value (c : string) : option (string * jres json_node) :=
  match c with
  | EmptyString => Some (c, inl JSON_ERR_PARSE)
  | String ch _ =>
      if char_is ch "{" || char_is ch "[" then
        r ← skip_container c;
        let '(c', found) := (r : string * bool) in
        if found then
          Some (c', inr (Node (if char_is ch "{" then JSON_OBJECT else JSON_ARRAY) JSON_NODE_FLAG_NONE (cs_until c c')))
        else Some (c', inl JSON_ERR_PARSE)
      else if char_is ch dquote then Some (span_value (lex_string_span c) JSON_STRING)
      else if char_is ch "t" then Some (keyword_value c "true" JSON_BOOL)
      else if char_is ch "f" then Some (keyword_value c "false" JSON_BOOL)
      else if char_is ch "n" then Some (keyword_value c "null" JSON_NULL)
      else if char_is ch "-" || is_digit ch then Some (span_value (lex_number_span c) JSON_NUMBER)
      else Some (c, inl JSON_ERR_PARSE)
  end.

(** ** Objects and arrays *)

(** The cursor past [ch], if it is at [ch]. *)
Definition eat (ch : ascii) (c : string) : option string :=
  match c with
  | String x c' => if char_is x ch then Some c' else None
  | EmptyString => None
  end.

Fixpoint object_loop (fuel : nat) (key c : string) : option (jres json_node) :=
  match fuel with
  | O => None
  | S fuel =>
      let c := skip_ws c in
      match lex_string_span c with
      | (_, None) => Some (inl JSON_ERR_PARSE)
      | (c, Some (key_span, key_flag)) =>
          match eat ":" (skip_ws c) with
          | None => Some (inl JSON_ERR_PARSE)
          | Some c =>
              let c := skip_ws c in
              v ← lex_value c;
              if bool_decide (key_flag <> JSON_NODE_FLAG_STR_ESCAPED) && bool_decide (key_span = key)
              then Some (snd v)
              else
                match snd v with
                | inl e => Some (inl e)
                | inr _ =>
                    let c := skip_ws (fst v) in
                    match eat "," c with
                    | Some c => object_loop fuel key c
                    | None => Some (inl (match eat "}" c with Some _ => JSON_ERR_NOT_FOUND | None => JSON_ERR_PARSE end))
                    end
                end
          end
      end
  end.

Definition object_step (node : json_node) (key : string) : option (jres json_node) :=
  if negb (bool_decide (n_type node = JSON_OBJECT)) then Some (inl JSON_ERR_TYPE)
  else
    match eat "{" (n_s node) with
    | None => Some (inl JSON_ERR_PARSE)
    | Some c =>
        let c := skip_ws c in
        match eat "}" c with
        | Some _ => Some (inl JSON_ERR_NOT_FOUND)
        | None => object_loop (S (String.length c)) key c
        end
    end.

Fixpoint array_loop (fuel : nat) (want i : Z) (c : string) : option (jres json_node) :=
  match fuel with
  | O => None
  | S fuel =>
      v ← lex_value (skip_ws c);
      match snd v with
      | inl e => Some (inl e)
      | inr node =>
          if i =? want then Some (inr node)
          else
            let c := skip_ws (fst v) in
            match eat "," c with
            | Some c => array_loop fuel want (u64 (i + 1)) c
            | None => Some (inl (match eat "]" c with Some _ => JSON_ERR_NOT_FOUND | None => JSON_ERR_PARSE end))
            end
      end
  end.

Definition array_step (node : json_node) (want : Z) : option (jres json_node) :=
  if negb (bool_decide (n_type node = JSON_ARRAY)) then Some (inl JSON_ERR_TYPE)
  else
    match eat "[" (n_s node) with
    | None => Some (inl JSON_ERR_PARSE)
    | Some c =>
        let c := skip_ws c in
        match eat "]" c with
        | Some _ => Some (inl JSON_ERR_NOT_FOUND)
        | None => array_loop (S (String.length c)) want 0 c
        end
    end.

(** ** Queries *)

Inductive json_query :=
  | QUERY_KEY (key : string)
  | QUERY_INDEX (index : Z)
  | QUERY_ITER
  | QUERY_WHERE (part : list json_query) (rhs : string) (rhs_type : json_type).

Definition str_eq_unescaped (n : json_node) (rhs : string) : bool :=
  if bool_decide (n_type n <> JSON_STRING) || bool_decide (n_flag n = JSON_NODE_FLAG_STR_ESCAPED) then false
  else bool_decide (n_s n = rhs).
Definition num_eq_literal (n : json_node) (rhs : string) : bool :=
  if bool_decide (n_type n <> JSON_NUMBER) then false else bool_decide (n_s n = rhs).
Definition bool_eq_literal (n : json_node) (rhs : string) : bool :=
  if bool_decide (n_type n <> JSON_BOOL) then false else bool_decide (n_s n = rhs).

Definition JSON_ITER_MAX_FRAMES : nat := 4.
Record json_iter_frame := Frame { part_index : nat; f_rest : string; saw_first : bool }.

(** The frames in use, the deepest first; [depth] is their number. *)
Record json_iter := Iter {
  it_src : string; it_parts : list json_query; it_frames : list json_iter_frame; it_done : bool;
  last_err : json_err * Z }.

Definition iter_open_array (arr : json_node) : jres string :=
  if negb (bool_decide (n_type arr = JSON_ARRAY)) then inl JSON_ERR_TYPE
  else match eat "[" (n_s arr) with None => inl JSON_ERR_PARSE | Some c => inr c end.

(** The array's cursor and [saw_first] with the element. *)
Definition iter_take (rest : string) (saw_first : bool) : option (string * bool * jres json_node) :=
  let rest := skip_ws rest in
  match rest with
  | EmptyString => Some (rest, saw_first, inl JSON_ERR_PARSE)
  | String ch rest' =>
      if char_is ch "]" then Some (rest', saw_first, inl JSON_ERR_NOT_FOUND)
      else if negb saw_first then
        v ← lex_value rest; Some (fst v, true, snd v)
      else if negb (char_is ch ",") then Some (rest, saw_first, inl JSON_ERR_PARSE)
      else v ← lex_value (skip_ws rest'); Some (fst v, saw_first, snd v)
  end.

Section evaluator.
(** [holds cur part]: the test of a [QUERY_WHERE] part. *)
Variable holds : json_node -> json_query -> option bool.
Variable parts : list json_query.

(** The parts from number [i] on, applied to [cur]. *)
Fixpoint apply_from (ps : list json_query) (i : nat) (cur : json_node) (frames : list json_iter_frame)
    : option (jres json_node * list json_iter_frame) :=
  match ps with
  | [] => Some (inr cur, frames)
  | QUERY_KEY key :: ps =>
      r ← object_step cur key;
      match r with
      | inl e => Some (inl e, frames)
      | inr cur => apply_from ps (S i) cur frames
      end
  | QUERY_INDEX index :: ps =>
      r ← array_step cur index;
      match r with
      | inl e => Some (inl e, frames)
      | inr cur => apply_from ps (S i) cur frames
      end
  | QUERY_ITER :: ps =>
      if (JSON_ITER_MAX_FRAMES <=? length frames)%nat then Some (inl JSON_ERR_OOM, frames)
      else
        match iter_open_array cur with
        | inl e => Some (inl e, frames)
        | inr rest =>
            t ← iter_take rest false;
            let '(rest, saw, v) := (t : string * bool * jres json_node) in
            match v with
            | inl JSON_ERR_NOT_FOUND => Some (inl JSON_ERR_NOT_FOUND, frames)
            | inl e => Some (inl e, Frame i rest saw :: frames)
            | inr first => apply_from ps (S i) first (Frame i rest saw :: frames)
            end
        end
  | QUERY_WHERE part rhs rhs_type :: ps =>
      h ← holds cur (QUERY_WHERE part rhs rhs_type);
      if (h : bool) then apply_from ps (S i) cur frames else Some (inl JSON_ERR_NOT_FOUND, frames)
  end.

Fixpoint backtrack_iter (fuel : nat) (frames : list json_iter_frame)
    : option (jres json_node * list json_iter_frame) :=
  match frames with
  | [] => Some (inl JSON_ERR_NOT_FOUND, [])
  | f :: outer =>
      match fuel with
      | O => None
      | S fuel =>
          t ← iter_take (f_rest f) (saw_first f);
          let '(rest, saw, v) := (t : string * bool * jres json_node) in
          match v with
          | inl JSON_ERR_NOT_FOUND => backtrack_iter fuel outer
          | inl e => Some (inl e, Frame (part_index f) rest saw :: outer)
          | inr next =>
              a ← apply_from (drop (S (part_index f)) parts) (S (part_index f)) next
                    (Frame (part_index f) rest saw :: outer);
              match a with
              | (inl JSON_ERR_NOT_FOUND, frames) => backtrack_iter fuel frames
              | (r, frames) => Some (r, frames)
              end
          end
      end
  end.

(** Every round of the loop consumes a byte of some frame or closes one. *)
Definition frames_size (frames : list json_iter_frame) : nat :=
  sum_list ((fun f => S (String.length (f_rest f))) <$> frames).

(** The result, and the cursor past the root value, where a failure is reported. *)
Definition resolve_with (src : string) : option (jres json_node * string) :=
  root ← lex_value (skip_ws src);
  match snd root with
  | inl e => Some (inl e, fst root)
  | inr node =>
      a ← apply_from parts 0 node [];
      match a with
      | (inl JSON_ERR_NOT_FOUND, (_ :: _) as frames) =>
          b ← backtrack_iter (frames_size frames) frames;
          Some (fst b, fst root)
      | (r, _) => Some (r, fst root)
      end
  end.
End evaluator.

(** How deep [QUERY_WHERE] parts are nested. *)
Fixpoint query_depth (q : json_query) : nat :=
  match q with
  | QUERY_WHERE part _ _ => S (foldr (fun q n => Nat.max (query_depth q) n) O part)
  | _ => O
  end.
Definition parts_depth (parts : list json_query) : nat := foldr (fun q n => Nat.max (query_depth q) n) O parts.

(** Queries nested at most [n] deep. *)
Fixpoint where_holds (n : nat) (node : json_node) (part : json_query) : option bool :=
  match n with
  | O => None
  | S n =>
      match part with
      | QUERY_WHERE sub rhs rhs_type =>
          r ← resolve_with (where_holds n) sub (n_s node);
          match fst r with
          | inl _ => Some false
          | inr leaf =>
              match rhs_type with
              | JSON_STRING => Some (str_eq_unescaped leaf rhs)
              | JSON_NUMBER => Some (num_eq_literal leaf rhs)
              | JSON_BOOL => Some (bool_eq_literal leaf rhs)
              | _ => Some false
              end
          end
      | _ => Some false
      end
  end.

(** The result, and what is written to a non-null [err]. *)
Definition json_resolve (src : string) (parts : list json_query) : option (jres json_node * option (json_err * Z)) :=
  r ← resolve_with (where_holds (parts_depth parts)) parts src;
  match fst r with
  | inl e => Some (inl e, Some (e, strlen src - strlen (snd r)))
  | inr node => Some (inr node, None)
  end.

Definition json_iter_init (src : string) (parts : list json_query) : json_iter :=
  Iter src parts [] false (JSON_OK, 0).

Definition iter_set (it : json_iter) (frames : list json_iter_frame) (done_ : bool) : json_iter :=
  Iter (it_src it) (it_parts it) frames done_ (last_err it).

Definition json_iter_next (it : json_iter) : option (jres json_node * json_iter) :=
  let holds := where_holds (parts_depth (it_parts it)) in
  if it_done it then Some (inl JSON_ERR_NOT_FOUND, it)
  else
    match it_frames it with
    | [] =>
        root ← lex_value (skip_ws (it_src it));
        match snd root with
        | inl e => Some (inl e, iter_set it [] true)
        | inr node =>
            a ← apply_from holds (it_parts it) 0 node [];
            match a with
            | (inr v, frames) => Some (inr v, iter_set it frames false)
            | (inl JSON_ERR_NOT_FOUND, (_ :: _) as frames) =>
                b ← backtrack_iter holds (it_parts it) (frames_size frames) frames;
                Some (fst b, iter_set it (snd b) false)
            | (inl e, frames) => Some (inl e, iter_set it frames true)
            end
        end
    | frames =>
        b ← backtrack_iter holds (it_parts it) (frames_size frames) frames;
        Some (fst b, iter_set it (snd b) (match fst b with inl _ => true | inr _ => false end))
    end.

(** ** Conversions *)

(** [strtoll] and [strtoull] in base 10 on the text up to its terminator: the
    magnitude, the sign and whether the whole text was read. *)
Definition isspace (ch : ascii) : bool := is_ws ch || char_is ch "011" || char_is ch "012".
Fixpoint skip_space (c : string) : string :=
  match c with EmptyString => c | String ch c' => if isspace ch then skip_space c' else c end.
Fixpoint digits_value (c : string) (v : Z) : Z * string :=
  match c with
  | EmptyString => (v, c)
  | String ch c' => if is_digit ch then digits_value c' (v * 10 + (code ch - 48)) else (v, c)
  end.
Definition strto (buf : string) : option (bool * Z) :=
  let c := skip_space buf in
  let neg := match c with String ch _ => char_is ch "-" | EmptyString => false end in
  let c := skip_sign c in
  if negb (at_digit c) then None
  else let '(v, c) := digits_value c 0 in match c with EmptyString => Some (neg, v) | _ => None end.

Definition INT64_MIN : Z := - 2 ^ 63.

Definition json_as_int (n : json_node) : jres Z :=
  if negb (bool_decide (n_type n = JSON_NUMBER)) then inl JSON_ERR_TYPE
  else if bool_decide (n_flag n = JSON_NODE_FLAG_NUM_FLOAT) then inl JSON_ERR_RANGE
  else
    let len := strlen (n_s n) in
    if (len =? 0) || (64 <=? len) then inl JSON_ERR_RANGE
    else
      match strto (n_s n) with
      | None => inl JSON_ERR_RANGE
      | Some (neg, v) =>
          let v := if neg : bool then - v else v in
          if (v <? INT64_MIN) || (INT64_MAX <? v) then inl JSON_ERR_RANGE else inr v
      end.

Definition json_as_uint (n : json_node) : jres Z :=
  if negb (bool_decide (n_type n = JSON_NUMBER)) then inl JSON_ERR_TYPE
  else if bool_decide (n_flag n = JSON_NODE_FLAG_NUM_FLOAT) then inl JSON_ERR_RANGE
  else
    let len := strlen (n_s n) in
    if match n_s n with String ch _ => char_is ch "-" | EmptyString => false end then inl JSON_ERR_RANGE
    else if (len =? 0) || (64 <=? len) then inl JSON_ERR_RANGE
    else
      match strto (n_s n) with
      | None => inl JSON_ERR_RANGE
      | Some (neg, v) => if UINT64_MAX <? v then inl JSON_ERR_RANGE else inr (if neg : bool then u64 (- v) else v)
      end.

Definition json_as_bool (n : json_node) : jres Z :=
  if negb (bool_decide (n_type n = JSON_BOOL)) then inl JSON_ERR_TYPE
  else if bool_decide (n_s n = "true") then inr 1
  else if bool_decide (n_s n = "false") then inr 0
  else inl JSON_ERR_RANGE.

Definition json_str_eq (n : json_node) (lit : string) : bool :=
  if bool_decide (n_type n <> JSON_STRING) || bool_decide (n_flag n = JSON_NODE_FLAG_STR_ESCAPED) then false
  else bool_decide (n_s n = lit).

(** ** Object iteration *)

Record json_object_iter := ObjectIter { remaining : string; oi_first : bool }.

Fixpoint last_is (ch : ascii) (c : string) : bool :=
  match c with
  | EmptyString => false
  | String x EmptyString => char_is x ch
  | String _ c => last_is ch c
  end.

Definition json_object_iter_init (node : json_node) : jres json_object_iter :=
  if negb (bool_decide (n_type node = JSON_OBJECT)) then inl JSON_ERR_TYPE
  else if strlen (n_s node) <? 2 then inl JSON_ERR_PARSE
  else
    match eat "{" (n_s node) with
    | None => inl JSON_ERR_PARSE
    | Some c => if last_is "}" (n_s node) then inr (ObjectIter c true) else inl JSON_ERR_PARSE
    end.

(** The key and the value; a failed call leaves the iterator as it was. *)
Definition json_object_iter_next (it : json_object_iter) : option (jres (json_node * json_node) * json_object_iter) :=
  let cursor := skip_ws (remaining it) in
  match cursor with
  | EmptyString => Some (inl JSON_ERR_PARSE, it)
  | String ch cursor' =>
      if char_is ch "}" then Some (inl JSON_ERR_NOT_FOUND, it)
      else if negb (oi_first it) && negb (char_is ch ",") then Some (inl JSON_ERR_PARSE, it)
      else
        match lex_string_span (if oi_first it then cursor else skip_ws cursor') with
        | (_, None) => Some (inl JSON_ERR_PARSE, it)
        | (c, Some (s, f)) =>
            match eat ":" (skip_ws c) with
            | None => Some (inl JSON_ERR_PARSE, it)
            | Some c =>
                v ← lex_value (skip_ws c);
                match snd v with
                | inl e => Some (inl e, it)
                | inr value => Some (inr (Node JSON_STRING f s, value), ObjectIter (fst v) false)
                end
            end
        end
  end.
