(* ===== verification/JsonTotal.v ===== *)
(** * The JSON reader always returns

    On any bytes, well-formed or not, the lexers, the queries and the iterator of
    [Json.v] return: the fuel of each loop is enough and the nesting counter stays
    in [int], for sources of at most [INT_MAX] bytes. *)

From Stdlib Require Import Ascii.
From stdpp Require Import strings.
From S2P Require Import Prelude Strbuf Json.

#[local] Open Scope nat_scope.

Notation slen := String.length.
Definition MAXLEN : nat := Z.to_nat INT_MAX.

Lemma substring_0_len n s : n <= slen s -> slen (String.substring 0 n s) = n.
Proof.
  revert n. induction s as [|ch s IH]; intros [|n] H; simpl in *; try done; try lia.
  rewrite IH; lia.
Qed.

Lemma cs_until_len start c : slen (cs_until start c) = slen start - slen c.
Proof. apply substring_0_len. lia. Qed.

Lemma skip_ws_len c : slen (skip_ws c) <= slen c.
Proof. induction c as [|ch c IH]; simpl; [lia|]. destruct (is_ws ch); simpl; lia. Qed.
Lemma skip_digits_len c : slen (skip_digits c) <= slen c.
Proof. induction c as [|ch c IH]; simpl; [lia|]. destruct (is_digit ch); simpl; lia. Qed.
Lemma eat_len ch c c' : eat ch c = Some c' -> slen c = S (slen c').
Proof. destruct c as [|x c]; simpl; [done|]. destruct (char_is x ch); [|done]. by intros [= ->]. Qed.
Lemma skip_sign_len c : slen (skip_sign c) <= slen c.
Proof. destruct c as [|x c]; simpl; [lia|]. case_match; simpl; lia. Qed.

Lemma string_loop_len c f :
  slen (fst (string_loop c f)) <= slen c /\
  (forall g, snd (string_loop c f) = Some g -> 0 < slen (fst (string_loop c f))).
Proof.
  revert f. induction c as [c IH] using (well_founded_induction (Wf_nat.well_founded_ltof _ slen)).
  unfold Wf_nat.ltof in IH. intros f. destruct c as [|ch c1]; [simpl; split; [lia|done]|].
  cbn [string_loop]. destruct (char_is ch dquote); [simpl; split; [lia|intros; lia]|].
  destruct (char_is ch backslash).
  - destruct c1 as [|esc c2]; [simpl; split; [lia|done]|].
    destruct (char_is esc "u").
    + destruct c2 as [|h1 [|h2 [|h3 [|h4 c3]]]]; try (simpl; split; [lia|done]).
      case_match; [|simpl; split; [lia|done]].
      destruct (IH c3 ltac:(simpl; lia) JSON_NODE_FLAG_STR_ESCAPED) as [H1 H2]. split; [simpl; lia|done].
    + destruct (simple_escape esc); [|simpl; split; [lia|done]].
      destruct (IH c2 ltac:(simpl; lia) JSON_NODE_FLAG_STR_ESCAPED) as [H1 H2]. split; [simpl; lia|done].
  - case_match; [simpl; split; [lia|done]|].
    destruct (IH c1 ltac:(simpl; lia) f) as [H1 H2]. split; [simpl; lia|done].
Qed.

(** What a lexer does to the cursor: it never moves back, and a value spans bytes it
    consumed. *)
Definition lexes (c : string) (r : string * option (string * json_node_flag)) : Prop :=
  slen (fst r) <= slen c /\ forall s f, snd r = Some (s, f) -> slen (fst r) + slen s <= slen c /\ slen (fst r) < slen c.

Lemma lex_string_span_len c : lexes c (lex_string_span c).
Proof.
  unfold lexes. destruct c as [|ch start]; [simpl; split; [lia|done]|].
  cbn [lex_string_span]. destruct (char_is ch dquote); cbn [negb]; [|simpl; split; [lia|done]].
  destruct (string_loop_len start JSON_NODE_FLAG_NONE) as [H1 H2].
  destruct (string_loop start JSON_NODE_FLAG_NONE) as [c [g|]]; cbn [fst snd] in *.
  - specialize (H2 g eq_refl). destruct c as [|q c]; [simpl in H2; lia|]. simpl in *.
    split; [lia|]. intros s f [= <- <-]. rewrite cs_until_len. simpl. lia.
  - simpl. split; [lia|done].
Qed.

Lemma lex_number_span_len c : lexes c (lex_number_span c).
Proof.
  unfold lexes, lex_number_span.
  assert (Hm : slen (skip_minus c) <= slen c) by (destruct c; simpl; [lia|case_match; simpl; lia]).
  destruct (skip_minus c) as [|ch c'] eqn:E; [simpl; split; [lia|done]|]. simpl in Hm.
  set (int := if char_is ch "0" then _ else _).
  assert (Hi : forall c2, int = Some c2 -> slen c2 < slen c).
  { subst int. intros c2. destruct (char_is ch "0"); [intros [= <-]; lia|].
    destruct (is_digit ch) eqn:Hd; [|done]. intros [= <-]. simpl. rewrite Hd.
    pose proof (skip_digits_len c'). lia. }
  destruct int as [c2|]; [|simpl; split; [lia|done]]. specialize (Hi c2 eq_refl).
  assert (Hf : slen (fst (lex_fraction c2 JSON_NODE_FLAG_NONE)) <= slen c2).
  { unfold lex_fraction. destruct c2 as [|x c2]; [simpl; lia|].
    repeat case_match; simpl; try lia. pose proof (skip_digits_len c2). lia. }
  destruct (lex_fraction c2 _) as [c3 [f|]]; simpl in Hf; [|simpl; split; [lia|done]].
  assert (He : slen (fst (lex_exponent c3 f)) <= slen c3).
  { unfold lex_exponent. destruct c3 as [|x c3]; [simpl; lia|]. pose proof (skip_sign_len c3).
    repeat case_match; simpl; try lia. pose proof (skip_digits_len (skip_sign c3)). lia. }
  destruct (lex_exponent c3 f) as [c4 [g|]]; simpl in *; [|split; [lia|done]].
  split; [lia|]. intros s h [= <- <-]. rewrite cs_until_len. lia.
Qed.

Lemma container_loop_total fuel open close c depth :
  slen c <= fuel -> (1 <= depth)%Z -> (depth + Z.of_nat (slen c) <= INT_MAX)%Z ->
  exists c' found, container_loop fuel open close c depth = Some (c', found) /\
    slen c' <= slen c /\ (found = true -> slen c' < slen c).
Proof.
  revert c depth. induction fuel as [|fuel IH]; intros c depth Hf H0 Hb.
  { destruct c; simpl in *; [|lia]. eexists _, _. split; [done|]. by split; [simpl; lia|]. }
  destruct c as [|ch c]; cbn [container_loop]; [eexists _, _; split; [done|]; by split; [simpl; lia|]|].
  simpl in Hf, Hb.
  assert (Hrec : forall d c1, slen c1 <= slen c -> (1 <= d)%Z -> (d <= depth + 1)%Z ->
    exists c' found, container_loop fuel open close c1 d = Some (c', found) /\
      slen c' <= S (slen c) /\ (found = true -> slen c' < S (slen c))).
  { intros d c1 H1 H2 H3. destruct (IH c1 d) as (c' & found & -> & H5 & H6); [lia..|].
    exists c', found. split; [done|]. split; [lia|]. intros Hfnd. specialize (H6 Hfnd). lia. }
  destruct (char_is ch dquote).
  - destruct (lex_string_span_len (String ch c)) as [H1 H2].
    destruct (lex_string_span (String ch c)) as [tmp [[s f]|]]; cbn [fst snd slen] in *.
    + destruct (H2 s f eq_refl). apply Hrec; lia.
    + eexists _, _. split; [done|]. by split; [simpl; lia|].
  - destruct (char_is ch open).
    + rewrite (proj2 (Z.leb_gt _ _)) by lia. apply Hrec; lia.
    + destruct (char_is ch close); [|apply Hrec; lia].
      destruct (Z.eqb_spec (depth - 1) 0) as [E|E]; [|apply Hrec; lia].
      eexists _, _. split; [done|]. split; simpl; lia.
Qed.

(** The first bracket opens the container. *)
Lemma container_start open close c :
  char_is open dquote = false ->
  container_loop (slen (String open c)) open close (String open c) 0 = container_loop (slen c) open close c 1.
Proof.
  intros Hq. cbn [container_loop slen]. unfold char_is in *. rewrite Hq, Ascii.eqb_refl. done.
Qed.

Lemma skip_container_total c :
  slen c <= MAXLEN -> exists c' found, skip_container c = Some (c', found) /\
    slen c' <= slen c /\ (found = true -> slen c' < slen c).
Proof.
  unfold MAXLEN. intros Hc. destruct c as [|ch c]; [eexists _, _; split; [done|]; by split; [simpl; lia|]|].
  simpl in Hc. assert (Hb : (1 + Z.of_nat (slen c) <= INT_MAX)%Z) by (unfold INT_MAX in *; lia).
  unfold skip_container. destruct (char_is ch "{") eqn:E1.
  { apply Ascii.eqb_eq in E1 as ->. rewrite container_start by done.
    destruct (container_loop_total (slen c) "{" "}" c 1) as (c' & found & -> & H1 & H2); [lia..|].
    exists c', found. split; [done|]. simpl. split; [lia|]. intros H. specialize (H2 H). lia. }
  destruct (char_is ch "[") eqn:E2.
  { apply Ascii.eqb_eq in E2 as ->. rewrite container_start by done.
    destruct (container_loop_total (slen c) "[" "]" c 1) as (c' & found & -> & H1 & H2); [lia..|].
    exists c', found. split; [done|]. simpl. split; [lia|]. intros H. specialize (H2 H). lia. }
  eexists _, _. split; [done|]. by split; [simpl; lia|].
Qed.

(** What [lex_value] does to the cursor. *)
Definition value_lexed (c : string) (r : string * jres json_node) : Prop :=
  slen (fst r) <= slen c /\
  forall n, snd r = inr n -> slen (fst r) + slen (n_s n) <= slen c /\ slen (fst r) < slen c.

Lemma span_value_lexed c r t : lexes c r -> value_lexed c (span_value r t).
Proof.
  intros [H1 H2]. destruct r as [c' [[s f]|]]; cbn [span_value fst snd] in *; split; try done.
  intros n [= <-]. simpl. apply (H2 s f eq_refl).
Qed.

Lemma lex_keyword_len c kw c' : lex_keyword c kw = Some c' -> slen c = slen kw + slen c'.
Proof.
  revert c. induction kw as [|k kw IH]; intros c; [destruct c; simpl; by intros [= <-]|].
  destruct c as [|ch c]; simpl; [done|]. destruct (char_is ch k); [|done]. intros H. apply IH in H. simpl. lia.
Qed.

Lemma keyword_value_lexed c kw t : 0 < slen kw -> value_lexed c (keyword_value c kw t).
Proof.
  intros Hk. unfold keyword_value, value_lexed. destruct (lex_keyword c kw) as [c'|] eqn:E; simpl; [|by split; [simpl; lia|]].
  apply lex_keyword_len in E. split; [lia|]. intros n [= <-]. simpl. rewrite cs_until_len. lia.
Qed.

Lemma lex_value_total c : slen c <= MAXLEN -> exists r, lex_value c = Some r /\ value_lexed c r.
Proof.
  intros Hc. destruct c as [|ch c0]; [eexists; split; [done|]; by split; [simpl; lia|]|].
  cbn [lex_value]. set (c := String ch c0) in *.
  destruct (char_is ch "{" || char_is ch "[").
  { destruct (skip_container_total c Hc) as (c' & found & -> & H1 & H2). cbn [mbind option_bind].
    clearbody c. destruct found; eexists; (split; [done|]); split; try done. simpl. intros n [= <-]. simpl.
    rewrite cs_until_len. specialize (H2 eq_refl). lia. }
  destruct (char_is ch dquote); [eexists; split; [done|apply span_value_lexed, lex_string_span_len]|].
  destruct (char_is ch "t"); [eexists; split; [done|apply keyword_value_lexed; simpl; lia]|].
  destruct (char_is ch "f"); [eexists; split; [done|apply keyword_value_lexed; simpl; lia]|].
  destruct (char_is ch "n"); [eexists; split; [done|apply keyword_value_lexed; simpl; lia]|].
  destruct (char_is ch "-" || is_digit ch); [eexists; split; [done|apply span_value_lexed, lex_number_span_len]|].
  eexists; split; [done|]. by split; [simpl; lia|].
Qed.

(** Destructs the next call of [lex_value]. *)
Ltac step_value c :=
  let r := fresh "r" in let c' := fresh "c'" in let e := fresh "e" in let n := fresh "node" in
  let H := fresh "H" in let Hl := fresh "Hl" in let Hn := fresh "Hn" in
  destruct (lex_value_total c) as (r & H & Hl & Hn); [lia|]; rewrite H; cbn [mbind option_bind];
  destruct r as [c' [e|n]]; cbn [fst snd] in *; [clear Hn|destruct (Hn n eq_refl)].

(** ** Steps

    A value found by a step is shorter than the container it was found in. *)

Definition step_in (len : nat) (r : jres json_node) : Prop := forall n, r = inr n -> slen (n_s n) <= len.

Lemma object_loop_total fuel key c :
  slen c < fuel -> slen c <= MAXLEN -> exists r, object_loop fuel key c = Some r /\ step_in (slen c) r.
Proof.
  revert c. induction fuel as [|fuel IH]; intros c Hf Hc; [lia|]. cbn [object_loop].
  pose proof (skip_ws_len c) as Hw. destruct (lex_string_span_len (skip_ws c)) as [H1 H2].
  destruct (lex_string_span (skip_ws c)) as [c1 [[ks kf]|]]; cbn [fst snd] in *; [|by eexists].
  destruct (H2 ks kf eq_refl) as [_ H3]. pose proof (skip_ws_len c1) as Hw1.
  destruct (eat ":" (skip_ws c1)) as [c2|] eqn:E; [|by eexists]. apply eat_len in E.
  pose proof (skip_ws_len c2) as Hw2.
  step_value (skip_ws c2).
  { by case_match; eexists. }
  case_match; [eexists; split; [done|]; intros n [= <-]; lia|].
  pose proof (skip_ws_len c') as Hw3.
  destruct (eat "," (skip_ws c')) as [c3|] eqn:E3; [|by eexists]. apply eat_len in E3.
  destruct (IH c3 ltac:(lia) ltac:(lia)) as (r & -> & Hr). eexists. split; [done|].
  intros n Hn'. specialize (Hr n Hn'). lia.
Qed.

Lemma object_step_total node key :
  slen (n_s node) <= MAXLEN -> exists r, object_step node key = Some r /\ step_in (slen (n_s node)) r.
Proof.
  intros Hc. unfold object_step. case_match; [by eexists|].
  destruct (eat "{" (n_s node)) as [c|] eqn:E; [|by eexists]. apply eat_len in E.
  case_match; [by eexists|]. pose proof (skip_ws_len c).
  destruct (object_loop_total (S (slen (skip_ws c))) key (skip_ws c)) as (r & -> & Hr); [lia..|].
  eexists. split; [done|]. intros n Hn. specialize (Hr n Hn). lia.
Qed.

Lemma array_loop_total fuel want i c :
  slen c < fuel -> slen c <= MAXLEN -> exists r, array_loop fuel want i c = Some r /\ step_in (slen c) r.
Proof.
  revert i c. induction fuel as [|fuel IH]; intros i c Hf Hc; [lia|]. cbn [array_loop].
  pose proof (skip_ws_len c) as Hw. step_value (skip_ws c); [by eexists|].
  case_match; [eexists; split; [done|]; intros n [= <-]; lia|].
  pose proof (skip_ws_len c') as Hw3.
  destruct (eat "," (skip_ws c')) as [c3|] eqn:E3; [|by eexists]. apply eat_len in E3.
  destruct (IH (u64 (i + 1)) c3 ltac:(lia) ltac:(lia)) as (r & -> & Hr). eexists. split; [done|].
  intros n Hn'. specialize (Hr n Hn'). lia.
Qed.

Lemma array_step_total node want :
  slen (n_s node) <= MAXLEN -> exists r, array_step node want = Some r /\ step_in (slen (n_s node)) r.
Proof.
  intros Hc. unfold array_step. case_match; [by eexists|].
  destruct (eat "[" (n_s node)) as [c|] eqn:E; [|by eexists]. apply eat_len in E.
  case_match; [by eexists|]. pose proof (skip_ws_len c).
  destruct (array_loop_total (S (slen (skip_ws c))) want 0 (skip_ws c)) as (r & -> & Hr); [lia..|].
  eexists. split; [done|]. intros n Hn. specialize (Hr n Hn). lia.
Qed.

(** Bounds on lists of frames and of parts. *)
Lemma drop_parts (k : nat) (l : list json_query) : drop k l ⊆ l.
Proof. intros x Hx. rewrite <-(take_drop k l). apply elem_of_app. by right. Qed.

(** ** Iteration *)

(** An open array: a comma stands before the next element, or its bytes have run
    out. *)
Definition frame_ok (f : json_iter_frame) : Prop :=
  slen (f_rest f) <= MAXLEN /\ (saw_first f = true \/ f_rest f = EmptyString).

(** Closes a case of [iter_take_total]. *)
Ltac take_done :=
  eexists _, _, _; split; [done|]; cbn [slen] in *; split_and!;
    [lia|by auto|intros ? [= <-]; by auto|first [done|intros ? [= <-]; split_and!; [done|lia..]]].

Lemma iter_take_total rest saw :
  slen rest <= MAXLEN -> exists rest' saw' v, iter_take rest saw = Some (rest', saw', v) /\
    slen rest' <= slen rest /\ (saw = true \/ rest = EmptyString -> saw' = true \/ rest' = EmptyString) /\
    (forall e, v = inl e -> e <> JSON_ERR_NOT_FOUND -> saw' = true \/ rest' = EmptyString \/ saw = true) /\
    (forall n, v = inr n -> saw' = true /\ 0 < slen rest /\ slen rest' + slen (n_s n) + (if saw then 1 else 0) <= slen rest).
Proof.
  intros Hr. unfold iter_take. pose proof (skip_ws_len rest) as Hw.
  assert (He : rest = EmptyString -> skip_ws rest = EmptyString) by (by intros ->).
  destruct (skip_ws rest) as [|ch r1] eqn:E; [take_done|].
  assert (Hs : saw = true \/ rest = EmptyString -> saw = true) by (intros [|H]; [done|by specialize (He H)]).
  destruct (char_is ch "]"); [take_done|].
  destruct saw; cbn [negb].
  - destruct (char_is ch ","); cbn [negb]; [|take_done].
    pose proof (skip_ws_len r1) as Hw1. cbn [slen] in Hw. step_value (skip_ws r1); take_done.
  - step_value (String ch r1); take_done.
Qed.

Lemma frames_size_cons f frames : frames_size (f :: frames) = S (slen (f_rest f)) + frames_size frames.
Proof. done. Qed.

Section total.
Variable holds : json_node -> json_query -> option bool.
Variable parts : list json_query.
Hypothesis holds_total : forall node part rhs t,
  QUERY_WHERE part rhs t ∈ parts -> slen (n_s node) <= MAXLEN ->
  exists b, holds node (QUERY_WHERE part rhs t) = Some b.

(** Applying parts opens frames over bytes of the value. *)
Definition applied (len : nat) (frames : list json_iter_frame)
    (r : option (jres json_node * list json_iter_frame)) : Prop :=
  exists v frames', r = Some (v, frames') /\ frames_size frames' <= frames_size frames + len /\ Forall frame_ok frames' /\
    step_in MAXLEN v.

Lemma applied_stop len frames v : step_in MAXLEN v -> Forall frame_ok frames -> applied len frames (Some (v, frames)).
Proof. intros Hv H. eexists _, _. split; [done|]. split; [lia|done]. Qed.
Lemma applied_error len frames e : Forall frame_ok frames -> applied len frames (Some (inl e, frames)).
Proof. by apply applied_stop. Qed.

Lemma applied_le len len' frames r : len' <= len -> applied len' frames r -> applied len frames r.
Proof. intros H (v & fs & -> & H1 & H2). eexists _, _. split; [done|]. split; [lia|done]. Qed.

Lemma applied_cons len f frames r :
  S (slen (f_rest f)) <= len -> applied (len - S (slen (f_rest f))) (f :: frames) r -> applied len frames r.
Proof.
  intros H (v & fs & -> & H1 & H2). eexists _, _. split; [done|]. split; [|done].
  rewrite frames_size_cons in H1. lia.
Qed.

Lemma apply_from_total ps i cur frames :
  ps ⊆ parts -> slen (n_s cur) <= MAXLEN -> Forall frame_ok frames ->
  applied (slen (n_s cur)) frames (apply_from holds ps i cur frames).
Proof.
  revert i cur frames. induction ps as [|p ps IH]; intros i cur frames Hps Hc Hf; [apply applied_stop; [intros n [= <-]|]; done|].
  assert (Hps' : ps ⊆ parts) by set_solver.
  assert (Hrec : forall i cur' frames', slen (n_s cur') <= slen (n_s cur) -> Forall frame_ok frames' ->
    applied (slen (n_s cur')) frames' (apply_from holds ps i cur' frames')) by (intros; apply IH; [done|lia|done]).
  destruct p as [key|index| |part rhs t]; cbn [apply_from].
  - destruct (object_step_total cur key Hc) as ([e|n] & -> & Hn); cbn [mbind option_bind]; [by apply applied_error|].
    specialize (Hn n eq_refl). eapply applied_le, Hrec; [|done..]. done.
  - destruct (array_step_total cur index Hc) as ([e|n] & -> & Hn); cbn [mbind option_bind]; [by apply applied_error|].
    specialize (Hn n eq_refl). eapply applied_le, Hrec; [|done..]. done.
  - case_match; [by apply applied_error|]. unfold iter_open_array.
    destruct (negb (bool_decide (n_type cur = JSON_ARRAY))); [by apply applied_error|].
    destruct (eat "[" (n_s cur)) as [rest|] eqn:E; [|by apply applied_error]. apply eat_len in E.
    destruct (iter_take_total rest false) as (rest' & saw & v & -> & H1 & _ & H3 & H4); [lia|]. cbn [mbind option_bind].
    assert (Hpush : saw = true \/ rest' = EmptyString -> Forall frame_ok (Frame i rest' saw :: frames)).
    { intros Hs. apply Forall_cons_2; [|done]. split; simpl; [lia|done]. }
    destruct v as [e|n].
    + destruct (decide (e = JSON_ERR_NOT_FOUND)) as [->|Hne]; [by apply applied_error|].
      assert (match e with JSON_ERR_NOT_FOUND => Some (inl JSON_ERR_NOT_FOUND, frames)
              | _ => Some (inl e, Frame i rest' saw :: frames) end =
              Some (inl e : jres json_node, Frame i rest' saw :: frames)) as -> by (by destruct e).
      apply (applied_cons _ (Frame i rest' saw)); simpl; [lia|]. apply applied_error, Hpush. by destruct (H3 e) as [|[]]; auto.
    + destruct (H4 n eq_refl) as [-> Hn]. apply (applied_cons _ (Frame i rest' true)); simpl; [lia|].
      eapply applied_le, Hrec; [lia..|]. apply Hpush. by left.
  - destruct (holds_total cur part rhs t) as [b ->]; [set_solver|done|]. cbn [mbind option_bind].
    destruct b; [|by apply applied_error]. by apply Hrec.
Qed.

Lemma backtrack_total fuel frames :
  frames_size frames <= fuel -> Forall frame_ok frames ->
  exists v frames', backtrack_iter holds parts fuel frames = Some (v, frames') /\ Forall frame_ok frames' /\
    step_in MAXLEN v /\ (forall n, v = inr n -> frames_size frames' < frames_size frames).
Proof.
  revert frames. induction fuel as [|fuel IH]; intros [|f outer] Hs Hf;
    [by eexists _, _|unfold frames_size in Hs; simpl in Hs; lia|by eexists _, _|].
  inversion Hf as [|? ? [Hl Hsaw] Hout]; subst. cbn [backtrack_iter].
  destruct (iter_take_total (f_rest f) (saw_first f) Hl) as (rest & saw & v & -> & H1 & H2 & H3 & H4).
  cbn [mbind option_bind].
  pose proof (frames_size_cons f outer) as Hsz.
  assert (Hnew : forall k, Forall frame_ok (Frame k rest saw :: outer)).
  { intros k. apply Forall_cons_2; [|done]. split; simpl; [lia|by auto]. }
  destruct v as [e|n].
  - assert (Hcase : match e with JSON_ERR_NOT_FOUND => backtrack_iter holds parts fuel outer
              | _ => Some (inl e, Frame (part_index f) rest saw :: outer) end =
            if decide (e = JSON_ERR_NOT_FOUND) then backtrack_iter holds parts fuel outer
            else Some (inl e : jres json_node, Frame (part_index f) rest saw :: outer)) by (by destruct e).
    rewrite Hcase. case_decide; [|by eexists _, _].
    destruct (IH outer) as (v & fs & -> & K1 & K2 & K3); [lia|done|]. eexists _, _. split_and!; [done..|].
    intros n Hv. specialize (K3 n Hv). lia.
  - destruct (H4 n eq_refl) as [-> Hn].
    assert (Ht : saw_first f = true) by (destruct Hsaw as [|Hz]; [done|rewrite Hz in Hn; simpl in Hn; lia]).
    rewrite Ht in Hn.
    destruct (apply_from_total (drop (S (part_index f)) parts) (S (part_index f)) n
      (Frame (part_index f) rest true :: outer)) as (w & fs & -> & H5 & H6 & H7); [apply drop_parts|lia|apply Hnew|].
    cbn [mbind option_bind]. rewrite !frames_size_cons in *. cbn [f_rest] in *.
    destruct w as [[]|w]; try by eexists _, _.
    + destruct (IH fs) as (v & fs' & -> & K1 & K2 & K3); [lia|done|]. eexists _, _. split_and!; [done..|].
      intros m Hv. specialize (K3 m Hv). lia.
    + eexists _, _. split_and!; [done..|]. intros m _. lia.
Qed.

Lemma resolve_with_total src :
  slen src <= MAXLEN -> exists r, resolve_with holds parts src = Some r /\ step_in MAXLEN (fst r).
Proof.
  intros Hs. unfold resolve_with. pose proof (skip_ws_len src). step_value (skip_ws src); [by eexists|].
  destruct (apply_from_total parts 0 node []) as (w & fs & -> & _ & Hf & Hb); [done|lia|by apply Forall_nil_2|].
  cbn [mbind option_bind]. destruct w as [[]|]; try by eexists. destruct fs as [|f fs]; [by eexists|].
  destruct (backtrack_total (frames_size (f :: fs)) (f :: fs)) as (v & fs' & -> & _ & Hv & _); [lia|done|]. by eexists.
Qed.
End total.

(** ** Nested queries *)

Lemma query_depth_where part rhs t : query_depth (QUERY_WHERE part rhs t) = S (parts_depth part).
Proof. done. Qed.

Lemma parts_depth_elem q parts : q ∈ parts -> query_depth q <= parts_depth parts.
Proof.
  induction 1 as [q l|q p l _ IH]; unfold parts_depth in *; simpl; lia.
Qed.

Lemma where_holds_total n node part rhs t :
  S (parts_depth part) <= n -> slen (n_s node) <= MAXLEN ->
  exists b, where_holds n node (QUERY_WHERE part rhs t) = Some b.
Proof.
  revert node part rhs t. induction n as [|n IH]; intros node part rhs t Hd Hl; [lia|]. cbn [where_holds].
  destruct (resolve_with_total (where_holds n) part) with (src := n_s node) as (r & -> & _); [|done|].
  - intros node' p r t' Hin Hn. apply IH; [|done]. apply parts_depth_elem in Hin.
    rewrite query_depth_where in Hin. lia.
  - cbn [mbind option_bind]. destruct (fst r); [by eexists|]. by destruct t; eexists.
Qed.

Lemma holds_all_total parts node part rhs t :
  QUERY_WHERE part rhs t ∈ parts -> slen (n_s node) <= MAXLEN ->
  exists b, where_holds (parts_depth parts) node (QUERY_WHERE part rhs t) = Some b.
Proof. intros Hin Hl. apply where_holds_total; [|done]. by apply parts_depth_elem in Hin. Qed.
#[export] Hint Resolve holds_all_total : damacy.

(** ** The interface *)

Lemma json_resolve_total src parts : slen src <= MAXLEN -> exists r, json_resolve src parts = Some r /\ step_in MAXLEN (fst r).
Proof.
  intros Hs. unfold json_resolve.
  destruct (resolve_with_total (where_holds (parts_depth parts)) parts) with (src := src) as ([[e|n] c] & -> & Hb);
    [by apply holds_all_total|done|by eexists..].
Qed.

(** Iterators a caller can hold. *)
Inductive iter_reach (src : string) (parts : list json_query) : json_iter -> Prop :=
  | reach_init : iter_reach src parts (json_iter_init src parts)
  | reach_next it r it' : iter_reach src parts it -> json_iter_next it = Some (r, it') -> iter_reach src parts it'.

Definition iter_ok (src : string) (parts : list json_query) (it : json_iter) : Prop :=
  it_src it = src /\ it_parts it = parts /\ Forall frame_ok (it_frames it).

Lemma json_iter_next_total src parts it :
  slen src <= MAXLEN -> iter_ok src parts it ->
  exists r it', json_iter_next it = Some (r, it') /\ iter_ok src parts it' /\ step_in MAXLEN r /\
    (forall n, r = inr n -> match it_frames it with
                           | [] => frames_size (it_frames it') <= slen src
                           | fs => frames_size (it_frames it') < frames_size fs
                           end).
Proof.
  intros Hs (<- & <- & Hf). unfold json_iter_next.
  assert (Hset : forall fs d, Forall frame_ok fs -> iter_ok (it_src it) (it_parts it) (iter_set it fs d)).
  { intros fs d H. split; [done|]. by split. }
  destruct (it_done it); [eexists _, _; split; [done|]; split; [|done]; split; [done|]; by split|].
  assert (Hback : forall fs, Forall frame_ok fs -> exists v fs',
    backtrack_iter (where_holds (parts_depth (it_parts it))) (it_parts it) (frames_size fs) fs = Some (v, fs') /\
    Forall frame_ok fs' /\ step_in MAXLEN v /\ (forall n, v = inr n -> frames_size fs' < frames_size fs)).
  { intros fs H. apply backtrack_total; [by apply holds_all_total|lia|done]. }
  destruct (it_frames it) as [|f fs] eqn:E.
  - pose proof (skip_ws_len (it_src it)). step_value (skip_ws (it_src it)).
    { eexists _, _. split; [done|]. split; [by apply Hset, Forall_nil_2|done]. }
    destruct (apply_from_total (where_holds (parts_depth (it_parts it))) (it_parts it)) with
      (ps := it_parts it) (i := 0) (cur := node) (frames := @nil json_iter_frame) as (w & fs & -> & Hsz & Hfs & Hw);
      [by apply holds_all_total|done|lia|by apply Forall_nil_2|].
    change (frames_size []) with 0 in Hsz. cbn [mbind option_bind].
    destruct w as [e|n]; [|eexists _, _; split; [done|]; split_and!; [by apply Hset|done|simpl; lia]].
    destruct e; try (eexists _, _; split; [done|]; by split; [apply Hset|]).
    destruct fs as [|f fs]; [eexists _, _; split; [done|]; by split; [apply Hset|]|].
    destruct (Hback (f :: fs) Hfs) as (v & fs' & -> & H' & Hv & Hd). eexists _, _. split; [done|].
    split_and!; [by apply Hset|done|]. intros n Hr. specialize (Hd n Hr). simpl in *. lia.
  - destruct (Hback (f :: fs) Hf) as (v & fs' & -> & H' & Hv & Hd). eexists _, _. split; [done|].
    by split; [apply Hset|].
Qed.

Lemma iter_reach_ok src parts it : slen src <= MAXLEN -> iter_reach src parts it -> iter_ok src parts it.
Proof.
  intros Hs. induction 1 as [|it r it' _ IH Hn]; [split; [done|]; split; [done|]; apply Forall_nil_2|].
  destruct (json_iter_next_total src parts it Hs IH) as (r' & it2 & Hn' & Hok & _). rewrite Hn in Hn'. by simplify_eq.
Qed.

Lemma object_iter_next_total it :
  slen (remaining it) <= MAXLEN -> exists r it', json_object_iter_next it = Some (r, it') /\
    slen (remaining it') <= slen (remaining it) /\ (forall kv, r = inr kv -> slen (remaining it') < slen (remaining it)).
Proof.
  intros Hl. unfold json_object_iter_next. pose proof (skip_ws_len (remaining it)) as Hw.
  assert (Hstop : forall e : json_err, exists r it', Some (inl e : jres (json_node * json_node), it) = Some (r, it') /\
    slen (remaining it') <= slen (remaining it) /\ (forall kv, r = inr kv -> slen (remaining it') < slen (remaining it))).
  { intros e. by eexists _, _. }
  destruct (skip_ws (remaining it)) as [|ch c0] eqn:E; [apply Hstop|].
  destruct (char_is ch "}"); [apply Hstop|]. destruct (negb (oi_first it) && negb (char_is ch ",")); [apply Hstop|].
  pose proof (skip_ws_len c0) as Hw0. set (c := if oi_first it then String ch c0 else skip_ws c0).
  assert (Hc : slen c <= slen (remaining it)) by (subst c; destruct (oi_first it); simpl in *; lia).
  destruct (lex_string_span_len c) as [H1 H2]. destruct (lex_string_span c) as [c1 [[s f]|]]; [|apply Hstop].
  cbn [fst snd] in *. destruct (H2 s f eq_refl) as [_ H3]. pose proof (skip_ws_len c1) as Hw1.
  destruct (eat ":" (skip_ws c1)) as [c2|] eqn:E2; [|apply Hstop]. apply eat_len in E2.
  pose proof (skip_ws_len c2) as Hw2. step_value (skip_ws c2); [apply Hstop|].
  eexists _, _. split; [done|]. simpl. split; [lia|]. intros _ _. lia.
Qed.

(** C29: on any bytes, well-formed JSON or not, of at most [INT_MAX] bytes, and for
    any query, [json_resolve] returns, and so does [json_iter_next] on every iterator
    reached from [json_iter_init] by earlier calls; [json_object_iter_next] returns
    and each member it yields shortens what remains, so that a walk over an object
    ends. *)
Theorem json_reader_total src parts :
  (strlen src <= INT_MAX)%Z ->
  (exists r, json_resolve src parts = Some r) /\
  (forall it, iter_reach src parts it -> exists r it', json_iter_next it = Some (r, it')) /\
  (forall it, (strlen (remaining it) <= INT_MAX)%Z -> exists r it', json_object_iter_next it = Some (r, it') /\
    (forall kv, r = inr kv -> (strlen (remaining it') < strlen (remaining it))%Z)).
Proof.
  unfold strlen. intros Hs. assert (slen src <= MAXLEN) as Hl by (unfold MAXLEN, INT_MAX in *; lia).
  split; [destruct (json_resolve_total src parts Hl) as (r & -> & _); by eexists|]. split.
  - intros it Hr. destruct (json_iter_next_total src parts it Hl) as (r & it' & H & _ & _); [by apply iter_reach_ok|].
    by eexists _, _.
  - intros it Hi. destruct (object_iter_next_total it) as (r & it' & -> & _ & H); [unfold MAXLEN, INT_MAX in *; lia|].
    eexists _, _. split; [done|]. intros kv Hkv. specialize (H kv Hkv). lia.
Qed.

Lemma json_reader_total_witness :
  (strlen "[1,{,[2" <= INT_MAX)%Z /\ exists r, json_resolve "[1,{,[2" [QUERY_ITER; QUERY_INDEX 0] = Some r.
Proof.
  split; [by vm_compute|]. apply (json_reader_total "[1,{,[2" [QUERY_ITER; QUERY_INDEX 0]). by vm_compute.
Defined.
