(* ===== verification/JsonSpec.v ===== *)
(** * JSON documents and what queries mean on them

    The reference for [Json.v]: JSON values as trees, the texts that write a value
    (with any white space), and the results a query has on a tree. Strings and
    numbers are kept as they are written: the characters between the quotes, and the
    literal.

    Then the lexers: on the text of a JSON value, followed by anything that can follow
    a value, those of [Json.v] consume exactly that text and return its node. *)

From Stdlib Require Import Ascii.
From stdpp Require Import strings.
From S2P Require Import Prelude Strbuf Json JsonTotal.

#[local] Open Scope Z_scope.

Inductive json :=
  | JNull | JBool (b : bool) | JNumber (lit : string) | JString (raw : string)
  | JArray (vs : list json) | JObject (ms : list (string * json)).

(** ** Texts *)

Fixpoint all_chars (P : ascii -> bool) (s : string) : Prop :=
  match s with EmptyString => True | String ch s => P ch = true /\ all_chars P s end.
Notation ws := (all_chars is_ws).
Notation digits := (all_chars is_digit).

(** The characters of a string between its quotes. *)
Inductive str_text : string -> Prop :=
  | st_nil : str_text EmptyString
  | st_plain ch s : char_is ch dquote = false -> char_is ch backslash = false -> 32 <= code ch ->
      str_text s -> str_text (String ch s)
  | st_escape e s : simple_escape e = true -> str_text s -> str_text (String backslash (String e s))
  | st_unicode h1 h2 h3 h4 s : isxdigit h1 = true -> isxdigit h2 = true -> isxdigit h3 = true -> isxdigit h4 = true ->
      str_text s -> str_text (String backslash (String "u" (String h1 (String h2 (String h3 (String h4 s)))))).

Definition int_text (s : string) : Prop :=
  s = "0" \/ exists d s', s = String d s' /\ is_digit d = true /\ d <> "0"%char /\ digits s'.
Definition digits1 (s : string) : Prop := exists d s', s = String d s' /\ is_digit d = true /\ digits s'.
Definition fraction_text (s : string) : Prop := s = "" \/ exists s', s = String "." s' /\ digits1 s'.
Definition exponent_text (s : string) : Prop :=
  s = "" \/ exists e sign s', s = String e (sign +:+ s') /\ (e = "e"%char \/ e = "E"%char) /\
    (sign = "" \/ sign = "+" \/ sign = "-") /\ digits1 s'.
Definition number_text (lit : string) : Prop :=
  exists sign int frac exp, lit = sign +:+ int +:+ frac +:+ exp /\ (sign = "" \/ sign = "-") /\
    int_text int /\ fraction_text frac /\ exponent_text exp.

Notation quoted k := (String dquote (k +:+ String dquote EmptyString)).

(** [renders v s]: the text [s] writes [v]. [elements] and [members] are the text
    after the first item, with the closing bracket. *)
Inductive renders : json -> string -> Prop :=
  | r_null : renders JNull "null"
  | r_true : renders (JBool true) "true"
  | r_false : renders (JBool false) "false"
  | r_number lit : number_text lit -> renders (JNumber lit) lit
  | r_string raw : str_text raw -> renders (JString raw) (quoted raw)
  | r_array_nil w : ws w -> renders (JArray []) (String "[" (w +:+ "]"))
  | r_array w v vs s t : ws w -> renders v s -> elements vs t -> renders (JArray (v :: vs)) (String "[" (w +:+ s +:+ t))
  | r_object_nil w : ws w -> renders (JObject []) (String "{" (w +:+ "}"))
  | r_object w k v ms s t : ws w -> member k v s -> members ms t ->
      renders (JObject ((k, v) :: ms)) (String "{" (w +:+ s +:+ t))
with elements : list json -> string -> Prop :=
  | e_nil w : ws w -> elements [] (w +:+ "]")
  | e_cons w w' v vs s t : ws w -> ws w' -> renders v s -> elements vs t ->
      elements (v :: vs) (w +:+ String "," (w' +:+ s +:+ t))
with member : string -> json -> string -> Prop :=
  | member_intro k w w' v s : str_text k -> ws w -> ws w' -> renders v s ->
      member k v (quoted k +:+ w +:+ String ":" (w' +:+ s))
with members : list (string * json) -> string -> Prop :=
  | m_nil w : ws w -> members [] (w +:+ "}")
  | m_cons w w' k v ms s t : ws w -> ws w' -> member k v s -> members ms t ->
      members ((k, v) :: ms) (w +:+ String "," (w' +:+ s +:+ t)).

Scheme renders_mut := Minimality for renders Sort Prop
  with elements_mut := Minimality for elements Sort Prop
  with member_mut := Minimality for member Sort Prop
  with members_mut := Minimality for members Sort Prop.
Combined Scheme renders_mutind from renders_mut, elements_mut, member_mut, members_mut.

(** ** Nodes *)

Fixpoint has_char (P : ascii -> bool) (s : string) : bool :=
  match s with EmptyString => false | String ch s => P ch || has_char P s end.
Definition escaped (raw : string) : bool := has_char (fun ch => char_is ch backslash) raw.
Definition is_float (lit : string) : bool :=
  has_char (fun ch => char_is ch "." || char_is ch "e" || char_is ch "E") lit.

(** The node for [v] written as [s]. *)
Definition node_of (v : json) (s : string) : json_node :=
  match v with
  | JNull => Node JSON_NULL JSON_NODE_FLAG_NONE s
  | JBool _ => Node JSON_BOOL JSON_NODE_FLAG_NONE s
  | JNumber lit => Node JSON_NUMBER (if is_float lit then JSON_NODE_FLAG_NUM_FLOAT else JSON_NODE_FLAG_NONE) s
  | JString raw => Node JSON_STRING (if escaped raw then JSON_NODE_FLAG_STR_ESCAPED else JSON_NODE_FLAG_NONE) raw
  | JArray _ => Node JSON_ARRAY JSON_NODE_FLAG_NONE s
  | JObject _ => Node JSON_OBJECT JSON_NODE_FLAG_NONE s
  end.
Definition is_node (v : json) (n : json_node) : Prop := exists s, renders v s /\ n = node_of v s.

(** ** Queries on trees *)

(** The value of the first member called [key]; a name with an escape has no plain
    spelling and is never found. *)
Fixpoint lookup_member (key : string) (ms : list (string * json)) : option json :=
  match ms with
  | [] => None
  | (k, v) :: ms => if negb (escaped k) && bool_decide (k = key) then Some v else lookup_member key ms
  end.

(** The results in order, and the error that ends the stream, if one does. *)
Definition stream : Type := list json * option json_err.
Fixpoint stream_concat (l : list stream) : stream :=
  match l with
  | [] => ([], None)
  | (xs, Some e) :: _ => (xs, Some e)
  | (xs, None) :: l => let '(ys, e) := stream_concat l in (xs ++ ys, e)
  end.
Definition of_option (o : option json) (f : json -> stream) : stream :=
  match o with Some v => f v | None => ([], None) end.

Section results.
Variable selects : json -> json_query -> bool.

(** [room]: how many more arrays may be opened. *)
Fixpoint results (ps : list json_query) (room : nat) (v : json) : stream :=
  match ps with
  | [] => ([v], None)
  | QUERY_KEY key :: ps =>
      match v with
      | JObject ms => of_option (lookup_member key ms) (results ps room)
      | _ => ([], Some JSON_ERR_TYPE)
      end
  | QUERY_INDEX i :: ps =>
      match v with
      | JArray vs => of_option (aget vs i) (results ps room)
      | _ => ([], Some JSON_ERR_TYPE)
      end
  | QUERY_ITER :: ps =>
      match room with
      | O => ([], Some JSON_ERR_OOM)
      | S room =>
          match v with
          | JArray vs => stream_concat (results ps room <$> vs)
          | _ => ([], Some JSON_ERR_TYPE)
          end
      end
  | QUERY_WHERE part rhs t :: ps => if selects v (QUERY_WHERE part rhs t) then results ps room v else ([], None)
  end.
End results.

(** Whether a value is the string, number or boolean a [QUERY_WHERE] compares with. *)
Definition equals_literal (v : json) (rhs : string) (t : json_type) : bool :=
  match t, v with
  | JSON_STRING, JString raw => negb (escaped raw) && bool_decide (raw = rhs)
  | JSON_NUMBER, JNumber lit => bool_decide (lit = rhs)
  | JSON_BOOL, JBool b => bool_decide ((if b then "true" else "false") = rhs)
  | _, _ => false
  end.

(** The test of a [QUERY_WHERE]: the first result of its sub-query on the value is the
    literal. *)
Fixpoint selects (n : nat) (v : json) (part : json_query) : bool :=
  match n with
  | O => false
  | S n =>
      match part with
      | QUERY_WHERE sub rhs t =>
          match results (selects n) sub JSON_ITER_MAX_FRAMES v with
          | (x :: _, _) => equals_literal x rhs t
          | ([], _) => false
          end
      | _ => false
      end
  end.

(** The results of a query on a document. *)
Definition query_results (parts : list json_query) (v : json) : stream :=
  results (selects (parts_depth parts)) parts JSON_ITER_MAX_FRAMES v.

(** *** Tests of strings

    [where_holds] of [json.c] runs the sub-query on the span of the node, and the span of
    a string leaves out the quotes: the characters of the string are read as JSON text.
    [query_ok]: wherever the query tests a string, the sub-query starts with a key, which
    no string has a member for, read either way. *)

Definition starts_with_key (sub : list json_query) : bool := match sub with QUERY_KEY _ :: _ => true | _ => false end.

Section tests.
Variable test_ok : json -> json_query -> bool.

(** The tests that the query makes from [v] on. *)
Fixpoint tests_ok (ps : list json_query) (v : json) : bool :=
  match ps with
  | [] => true
  | QUERY_KEY key :: ps =>
      match v with JObject ms => match lookup_member key ms with Some x => tests_ok ps x | None => true end | _ => true end
  | QUERY_INDEX i :: ps =>
      match v with JArray vs => match aget vs i with Some x => tests_ok ps x | None => true end | _ => true end
  | QUERY_ITER :: ps => match v with JArray vs => forallb (tests_ok ps) vs | _ => true end
  | QUERY_WHERE part rhs t :: ps => test_ok v (QUERY_WHERE part rhs t) && tests_ok ps v
  end.
End tests.

Fixpoint test_ok (n : nat) (v : json) (part : json_query) : bool :=
  match n with
  | O => true
  | S n =>
      match part with
      | QUERY_WHERE sub _ _ => match v with JString _ => starts_with_key sub | _ => tests_ok (test_ok n) sub v end
      | _ => true
      end
  end.

Definition query_ok (parts : list json_query) (v : json) : bool := tests_ok (test_ok (parts_depth parts)) parts v.

(** ** Strings *)

Lemma app_cons ch a b : String ch a +:+ b = String ch (a +:+ b).
Proof. done. Qed.
Lemma app_nil_l b : EmptyString +:+ b = b.
Proof. done. Qed.
Lemma slen_app a b : slen (a +:+ b) = (slen a + slen b)%nat.
Proof. induction a as [|ch a IH]; [done|]. rewrite app_cons. simpl. by rewrite IH. Qed.

Lemma substring_app a b : String.substring 0 (slen a) (a +:+ b) = a.
Proof. induction a as [|ch a IH]; [by destruct b|]. rewrite app_cons. simpl. by rewrite IH. Qed.
Lemma cs_until_app a b : cs_until (a +:+ b) b = a.
Proof.
  unfold cs_until. rewrite slen_app. replace (slen a + slen b - slen b)%nat with (slen a) by lia. apply substring_app.
Qed.

Lemma char_is_refl ch : char_is ch ch = true.
Proof. apply Ascii.eqb_refl. Qed.
Lemma char_is_true a b : char_is a b = true -> a = b.
Proof. apply Ascii.eqb_eq. Qed.
Lemma char_is_ne a b : a <> b -> char_is a b = false.
Proof. apply Ascii.eqb_neq. Qed.

(** Evaluates comparisons with a character of which a boolean is known. *)
Ltac char_cases :=
  repeat match goal with
  | |- context [char_is ?a ?b] =>
      let E := fresh "E" in destruct (char_is a b) eqn:E; [apply char_is_true in E; subst; try done|]
  end.

Lemma all_chars_app P a b : all_chars P (a +:+ b) <-> all_chars P a /\ all_chars P b.
Proof. induction a as [|ch a IH]; [simpl; tauto|]. rewrite app_cons. simpl. rewrite IH. tauto. Qed.
Lemma all_chars_impl (P Q : ascii -> bool) s :
  (forall ch, P ch = true -> Q ch = true) -> all_chars P s -> all_chars Q s.
Proof. intros H. induction s as [|ch s IH]; [done|]. simpl. intros [? ?]. auto. Qed.
Lemma has_char_app P a b : has_char P (a +:+ b) = has_char P a || has_char P b.
Proof. induction a as [|ch a IH]; [done|]. rewrite app_cons. simpl. by rewrite IH, orb_assoc. Qed.

(** Does the text start with a character of this kind? *)
Definition starts (P : ascii -> bool) (s : string) : bool := match s with EmptyString => false | String ch _ => P ch end.

Lemma skip_ws_app w s : ws w -> starts is_ws s = false -> skip_ws (w +:+ s) = s.
Proof.
  intros Hw Hs. induction w as [|ch w IH]; simpl in *.
  - destruct s as [|ch s]; [done|]. simpl in *. by rewrite Hs.
  - destruct Hw as [-> Hw]. auto.
Qed.
Lemma skip_ws_id s : starts is_ws s = false -> skip_ws s = s.
Proof. apply (skip_ws_app EmptyString). done. Qed.

Lemma skip_digits_app ds s : digits ds -> starts is_digit s = false -> skip_digits (ds +:+ s) = s.
Proof.
  intros Hw Hs. induction ds as [|ch ds IH]; simpl in *.
  - destruct s as [|ch s]; [done|]. simpl in *. by rewrite Hs.
  - destruct Hw as [-> Hw]. auto.
Qed.

(** ** String values *)

Definition str_flag (esc : bool) (f : json_node_flag) : json_node_flag :=
  if esc then JSON_NODE_FLAG_STR_ESCAPED else f.

Lemma string_loop_text raw f r :
  str_text raw -> string_loop (raw +:+ String dquote r) f = (String dquote r, Some (str_flag (escaped raw) f)).
Proof.
  intros H. revert f. induction H as [|ch s Hq Hb Hc _ IH|e s He _ IH|h1 h2 h3 h4 s H1 H2 H3 H4 _ IH]; intros f.
  - done.
  - rewrite app_cons. cbn [string_loop]. rewrite Hq, Hb, (proj2 (Z.ltb_ge _ _)), IH by lia.
    unfold escaped. cbn [has_char]. by rewrite Hb.
  - rewrite !app_cons. cbn [string_loop]. rewrite He, IH.
    assert (char_is e "u" = false) as -> by (char_cases; done).
    unfold str_flag. by destruct (escaped s).
  - rewrite !app_cons. cbn [string_loop]. rewrite H1, H2, H3, H4, IH. unfold str_flag. by destruct (escaped s).
Qed.

Lemma lex_string_text raw r :
  str_text raw -> lex_string_span (quoted raw +:+ r) = (r, Some (raw, str_flag (escaped raw) JSON_NODE_FLAG_NONE)).
Proof.
  intros H. rewrite app_cons, string_app_assoc, app_cons, app_nil_l. cbn [lex_string_span].
  rewrite string_loop_text by done. cbn [tail]. by rewrite cs_until_app.
Qed.

(** ** Numbers *)

(** What can follow a number: nothing that would make it longer. *)
Definition num_char (ch : ascii) : bool := is_digit ch || char_is ch "." || char_is ch "e" || char_is ch "E".
Lemma starts_not (P Q : ascii -> bool) s :
  (forall ch, P ch = true -> Q ch = true) -> starts Q s = false -> starts P s = false.
Proof. intros H. destruct s as [|ch s]; [done|]. simpl. intros HQ. destruct (P ch) eqn:E; [|done]. by rewrite H in HQ. Qed.

Lemma digits1_skip s r : digits1 s -> starts is_digit r = false -> at_digit (s +:+ r) = true /\ skip_digits (s +:+ r) = r.
Proof.
  intros (d & s' & -> & Hd & Hs) Hr. rewrite app_cons. split; [done|].
  rewrite <-app_cons. apply skip_digits_app; [by split|done].
Qed.

Lemma fraction_starts frac s :
  fraction_text frac -> starts is_digit s = false -> starts is_digit (frac +:+ s) = false.
Proof. intros [->|(s' & -> & _)] Hs; [done|]. done. Qed.
Lemma exponent_starts exp s P :
  exponent_text exp -> P "e"%char = false -> P "E"%char = false -> starts P s = false -> starts P (exp +:+ s) = false.
Proof. intros [->|(e & sg & s' & -> & [-> | ->] & _)] H1 H2 H3; [done..|]. done. Qed.

Definition float_flag (b : bool) (f : json_node_flag) : json_node_flag :=
  if b then JSON_NODE_FLAG_NUM_FLOAT else f.
Definition nonempty (s : string) : bool := match s with EmptyString => false | _ => true end.

Lemma lex_fraction_text frac s f :
  fraction_text frac -> starts num_char s = false \/ (starts is_digit s = false /\ starts (fun ch => char_is ch ".") s = false) ->
  lex_fraction (frac +:+ s) f = (s, Some (float_flag (nonempty frac) f)).
Proof.
  intros Hf Hs. assert (Hd : starts is_digit s = false /\ starts (fun ch => char_is ch ".") s = false).
  { destruct Hs as [Hs|]; [|done]. split; eapply starts_not, Hs; unfold num_char; by intros ch ->; rewrite ?orb_true_r. }
  destruct Hd as [Hd Hp]. destruct Hf as [->|(s' & -> & H1)].
  - rewrite app_nil_l. destruct s as [|ch s]; [done|]. simpl in *. by rewrite Hp.
  - destruct (digits1_skip s' s H1 Hd) as [Ha Hk]. rewrite app_cons. cbn [lex_fraction]. by rewrite Ha, Hk.
Qed.

Lemma lex_exponent_text exp s f :
  exponent_text exp -> starts num_char s = false ->
  lex_exponent (exp +:+ s) f = (s, Some (float_flag (nonempty exp) f)).
Proof.
  intros He Hs. assert (Hd : starts is_digit s = false).
  { eapply starts_not, Hs. unfold num_char. by intros ch ->. }
  destruct He as [->|(e & sg & s' & -> & Hch & Hsg & H1)].
  - rewrite app_nil_l. destruct s as [|ch s]; [done|]. simpl in *. unfold num_char in Hs.
    destruct (is_digit ch), (char_is ch "."), (char_is ch "e"), (char_is ch "E"); done.
  - destruct (digits1_skip s' s H1 Hd) as [Ha Hk].
    assert (skip_sign ((sg +:+ s') +:+ s) = s' +:+ s) as Hsk.
    { rewrite string_app_assoc. destruct Hsg as [->|[-> | ->]]; [|done..]. rewrite app_nil_l.
      destruct H1 as (d & s'' & -> & Hdig & _). rewrite app_cons. cbn [skip_sign]. by char_cases. }
    rewrite app_cons. cbn [lex_exponent].
    destruct Hch as [-> | ->]; cbn -[skip_sign]; rewrite Hsk, Ha, Hk; done.
Qed.

Notation float_char := (fun ch => char_is ch "." || char_is ch "e" || char_is ch "E").

Lemma digits_not_float s : digits s -> has_char float_char s = false.
Proof.
  induction s as [|ch s IH]; [done|]. simpl. intros [Hd Hs]. rewrite IH by done. by char_cases.
Qed.

Lemma is_float_number sign int frac exp :
  sign = "" \/ sign = "-" -> int_text int -> fraction_text frac -> exponent_text exp ->
  is_float (sign +:+ int +:+ frac +:+ exp) = nonempty frac || nonempty exp.
Proof.
  intros Hs Hi Hf He. unfold is_float. rewrite !has_char_app.
  assert (has_char float_char sign = false) as -> by (by destruct Hs as [-> | ->]).
  assert (has_char float_char int = false) as ->.
  { destruct Hi as [->|(d & s & -> & Hd & _ & Hds)]; [done|]. apply digits_not_float. by split. }
  destruct Hf as [->|(s & -> & _)]; [|done]. destruct He as [->|(e & sg & s & -> & [-> | ->] & _)]; done.
Qed.

Lemma lex_number_text lit r :
  number_text lit -> starts num_char r = false ->
  lex_number_span (lit +:+ r) = (r, Some (lit, float_flag (is_float lit) JSON_NODE_FLAG_NONE)).
Proof.
  intros (sign & int & frac & exp & -> & Hs & Hi & Hf & He) Hr. rewrite is_float_number by done.
  unfold lex_number_span. set (lit := sign +:+ int +:+ frac +:+ exp).
  assert (Hd : starts is_digit r = false) by (eapply starts_not, Hr; unfold num_char; by intros ch ->).
  assert (Hed : starts is_digit (exp +:+ r) = false) by (by apply exponent_starts).
  assert (Hmin : skip_minus (lit +:+ r) = int +:+ frac +:+ exp +:+ r).
  { subst lit. rewrite !string_app_assoc. destruct Hs as [-> | ->]; [|done]. rewrite app_nil_l.
    destruct Hi as [->|(d & s & -> & Hdig & _)]; [done|]. rewrite app_cons. cbn [skip_minus]. by char_cases. }
  rewrite Hmin. set (tl := frac +:+ exp +:+ r).
  assert (Hint : exists ch c', int +:+ tl = String ch c' /\
    (if char_is ch "0" then Some c' else if is_digit ch then Some (skip_digits (String ch c')) else None) = Some tl).
  { destruct Hi as [->|(d & s & -> & Hdig & H0 & Hds)]; [by eexists _, _|]. exists d, (s +:+ tl). split; [done|].
    rewrite char_is_ne, Hdig by done. f_equal. rewrite <-app_cons. apply skip_digits_app; [by split|].
    by apply fraction_starts. }
  destruct Hint as (ch & c' & -> & ->). subst tl.
  rewrite lex_fraction_text; [|done|].
  2:{ right. split; [done|]. apply exponent_starts; [done..|]. eapply starts_not, Hr. unfold num_char.
      by intros ch' ->; rewrite ?orb_true_r. }
  rewrite lex_exponent_text by done. rewrite cs_until_app. unfold float_flag.
  by destruct (nonempty frac), (nonempty exp).
Qed.

(** ** Containers *)

(** Bytes the scan of a container passes over. *)
Definition plain (ch : ascii) : bool :=
  negb (char_is ch dquote || char_is ch "{" || char_is ch "}" || char_is ch "[" || char_is ch "]").
Definition bracket (o c : ascii) : Prop := (o = "{" /\ c = "}")%char \/ (o = "[" /\ c = "]")%char.

(** The scan of a container, at depth [d], passes over [s]. *)
Definition scans (s : string) : Prop :=
  forall o c d fuel rest, bracket o c -> 1 <= d -> (slen (s +:+ rest) <= fuel)%nat ->
    d + Z.of_nat (slen (s +:+ rest)) <= INT_MAX ->
    exists fuel', container_loop fuel o c (s +:+ rest) d = container_loop fuel' o c rest d /\ (slen rest <= fuel')%nat.

Lemma scans_nil : scans EmptyString.
Proof. intros o c d fuel rest _ _ Hf _. by exists fuel. Qed.

Lemma scans_app a b : scans a -> scans b -> scans (a +:+ b).
Proof.
  intros Ha Hb o c d fuel rest Ho Hd Hf Hm. rewrite !string_app_assoc in *.
  destruct (Ha o c d fuel (b +:+ rest)) as (f1 & -> & H1); [done..|].
  apply Hb; try done. rewrite !slen_app in *. lia.
Qed.

Lemma loop_skip fuel o c ch r d :
  char_is ch dquote = false -> char_is ch o = false -> char_is ch c = false ->
  container_loop (S fuel) o c (String ch r) d = container_loop fuel o c r d.
Proof. intros H1 H2 H3. cbn [container_loop]. by rewrite H1, H2, H3. Qed.

Lemma scans_plain1 ch : plain ch = true -> scans (String ch EmptyString).
Proof.
  intros Hp o c d fuel rest Ho Hd Hf Hm. rewrite app_cons, app_nil_l in *. simpl in Hf.
  destruct fuel as [|fuel]; [lia|]. exists fuel. cbn [container_loop]. unfold plain in Hp.
  apply negb_true_iff in Hp. rewrite !orb_false_iff in Hp. destruct Hp as [[[[-> H1] H2] H3] H4].
  destruct Ho as [[-> ->]|[-> ->]]; rewrite ?H1, ?H2, ?H3, ?H4; (split; [done|lia]).
Qed.

Lemma scans_plain s : all_chars plain s -> scans s.
Proof.
  induction s as [|ch s IH]; [intros; apply scans_nil|]. intros [Hc Hs].
  apply (scans_app (String ch EmptyString) s); [by apply scans_plain1|auto].
Qed.

Lemma ws_plain s : ws s -> scans s.
Proof. intros H. apply scans_plain. eapply all_chars_impl, H. intros ch Hc. unfold plain. by char_cases. Qed.

Lemma digits_plain s : digits s -> all_chars plain s.
Proof. apply all_chars_impl. intros ch Hc. unfold plain. by char_cases. Qed.

Lemma number_plain lit : number_text lit -> scans lit.
Proof.
  intros (sign & int & frac & exp & -> & Hs & Hi & Hf & He). apply scans_plain. rewrite !all_chars_app. split_and!.
  - by destruct Hs as [-> | ->].
  - destruct Hi as [->|(d & s & -> & Hd & _ & Hds)]; [done|]. apply digits_plain. by split.
  - destruct Hf as [->|(s & -> & d & s' & -> & Hd & Hds)]; [done|]. split; [done|]. apply digits_plain. by split.
  - destruct He as [->|(e & sg & s & -> & He & Hsg & d & s' & -> & Hd & Hds)]; [done|].
    split; [by destruct He as [-> | ->]|]. rewrite all_chars_app. split; [by destruct Hsg as [->|[-> | ->]]|].
    apply digits_plain. by split.
Qed.

Lemma scans_string raw : str_text raw -> scans (quoted raw).
Proof.
  intros H o c d fuel rest Ho Hd Hf Hm. pose proof (lex_string_text raw rest H) as HL.
  rewrite app_cons in *. simpl in Hf. destruct fuel as [|fuel]; [lia|]. cbn [container_loop].
  change (char_is dquote dquote) with true. cbv iota. rewrite HL. exists fuel. split; [done|].
  rewrite !slen_app in Hf. lia.
Qed.

(** A container inside the one that is scanned: its brackets are plain, or open and
    close one level. *)
Lemma scans_nested o' c' body : bracket o' c' -> scans body -> scans (String o' (body +:+ String c' EmptyString)).
Proof.
  intros Hb' Hbody o c d fuel rest Ho Hd Hf Hm.
  destruct (decide (o = o')) as [->|Hne].
  - assert (c = c') as -> by (destruct Ho as [[-> ->]|[-> ->]], Hb' as [[? ?]|[? ?]]; congruence).
    rewrite app_cons, string_app_assoc in *. simpl in Hf, Hm. destruct fuel as [|fuel]; [lia|]. cbn [container_loop].
    assert (char_is o' dquote = false) as -> by (by destruct Ho as [[-> _]|[-> _]]). rewrite char_is_refl.
    rewrite (proj2 (Z.leb_gt _ _)) by lia.
    destruct (Hbody o' c' (d + 1) fuel (String c' EmptyString +:+ rest)) as (f1 & -> & H1); [done|lia|lia|lia|].
    rewrite app_cons, app_nil_l in *. simpl in H1. destruct f1 as [|f1]; [lia|]. exists f1. cbn [container_loop].
    assert (char_is c' dquote = false) as -> by (by destruct Ho as [[_ ->]|[_ ->]]).
    assert (char_is c' o' = false) as -> by (by destruct Ho as [[-> ->]|[-> ->]]). rewrite char_is_refl.
    rewrite (proj2 (Z.eqb_neq _ _)) by lia. replace (d + 1 - 1) with d by lia. split; [done|lia].
  - assert (Hx : char_is o' dquote = false /\ char_is o' o = false /\ char_is o' c = false /\
      char_is c' dquote = false /\ char_is c' o = false /\ char_is c' c = false)
      by (by destruct Ho as [[-> ->]|[-> ->]], Hb' as [[-> ->]|[-> ->]]).
    destruct Hx as (X1 & X2 & X3 & X4 & X5 & X6).
    rewrite app_cons, string_app_assoc in *. simpl in Hf, Hm. destruct fuel as [|fuel]; [lia|].
    rewrite loop_skip by done.
    destruct (Hbody o c d fuel (String c' EmptyString +:+ rest)) as (f1 & -> & H1); [done|lia|lia|lia|].
    rewrite app_cons, app_nil_l in *. simpl in H1. destruct f1 as [|f1]; [lia|]. exists f1.
    rewrite loop_skip by done. split; [done|lia].
Qed.

Lemma container_closes o c body rest :
  bracket o c -> scans body -> (slen (String o (body +:+ String c rest)) <= MAXLEN)%nat ->
  skip_container (String o (body +:+ String c rest)) = Some (rest, true).
Proof.
  intros Hb Hs Hm. set (t := body +:+ String c rest) in *.
  assert (Hsk : skip_container (String o t) = container_loop (slen (String o t)) o c (String o t) 0)
    by (by destruct Hb as [[-> ->]|[-> ->]]).
  rewrite Hsk, container_start by (by destruct Hb as [[-> _]|[-> _]]). unfold MAXLEN in Hm. simpl in Hm. subst t.
  destruct (Hs o c 1 (slen (body +:+ String c rest)) (String c rest)) as (f1 & -> & H1);
    [done|lia|lia|unfold INT_MAX in *; lia|].
  simpl in H1. destruct f1 as [|f1]; [lia|]. cbn [container_loop].
  assert (char_is c dquote = false) as -> by (by destruct Hb as [[_ ->]|[_ ->]]).
  assert (char_is c o = false) as -> by (by destruct Hb as [[-> ->]|[-> ->]]). by rewrite char_is_refl.
Qed.

(** The text of a value is scanned; so is a container's, up to its bracket. *)
Lemma scans_text :
  (forall v s, renders v s -> scans s) /\
  (forall vs t, elements vs t -> exists body, t = body +:+ "]" /\ scans body) /\
  (forall k v s, member k v s -> scans s) /\
  (forall ms t, members ms t -> exists body, t = body +:+ "}" /\ scans body).
Proof.
  apply renders_mutind; intros; try (by apply scans_plain).
  - by apply number_plain.
  - by apply scans_string.
  - apply (scans_nested "[" "]"); [by right|by apply ws_plain].
  - destruct H3 as (body & -> & Hb).
    replace (w +:+ s +:+ body +:+ "]") with ((w +:+ s +:+ body) +:+ "]") by (by rewrite !string_app_assoc).
    apply (scans_nested "[" "]"); [by right|]. repeat apply scans_app; try done. by apply ws_plain.
  - apply (scans_nested "{" "}"); [by left|by apply ws_plain].
  - destruct H3 as (body & -> & Hb).
    replace (w +:+ s +:+ body +:+ "}") with ((w +:+ s +:+ body) +:+ "}") by (by rewrite !string_app_assoc).
    apply (scans_nested "{" "}"); [by left|]. repeat apply scans_app; try done. by apply ws_plain.
  - exists w. split; [done|by apply ws_plain].
  - destruct H4 as (body & -> & Hb). exists (w +:+ String "," (w' +:+ s +:+ body)).
    split; [by rewrite !string_app_assoc, app_cons, !string_app_assoc|].
    apply scans_app; [by apply ws_plain|]. apply (scans_app (String "," EmptyString)); [by apply scans_plain|].
    repeat apply scans_app; try done. by apply ws_plain.
  - apply scans_app; [by apply scans_string|]. apply scans_app; [by apply ws_plain|].
    apply (scans_app (String ":" EmptyString)); [by apply scans_plain|]. apply scans_app; [by apply ws_plain|done].
  - exists w. split; [done|by apply ws_plain].
  - destruct H4 as (body & -> & Hb). exists (w +:+ String "," (w' +:+ s +:+ body)).
    split; [by rewrite !string_app_assoc, app_cons, !string_app_assoc|].
    apply scans_app; [by apply ws_plain|]. apply (scans_app (String "," EmptyString)); [by apply scans_plain|].
    repeat apply scans_app; try done. by apply ws_plain.
Qed.

(** ** Values *)

Lemma array_text vs s : renders (JArray vs) s -> exists body, s = String "[" (body +:+ "]") /\ scans body.
Proof.
  intros H. inversion H as [| | | | |w Hw|w v vs' s' t Hw Hv Ht| |]; subst.
  - exists w. split; [done|by apply ws_plain].
  - destruct (proj1 (proj2 scans_text) _ _ Ht) as (body & -> & Hb). exists (w +:+ s' +:+ body).
    split; [by rewrite !string_app_assoc|]. repeat apply scans_app; [by apply ws_plain|by apply (proj1 scans_text _ _ Hv)|done].
Qed.
Lemma object_text ms s : renders (JObject ms) s -> exists body, s = String "{" (body +:+ "}") /\ scans body.
Proof.
  intros H. inversion H as [| | | | | | |w Hw|w k v ms' s' t Hw Hv Ht]; subst.
  - exists w. split; [done|by apply ws_plain].
  - destruct (proj2 (proj2 (proj2 scans_text)) _ _ Ht) as (body & -> & Hb). exists (w +:+ s' +:+ body).
    split; [by rewrite !string_app_assoc|].
    repeat apply scans_app; [by apply ws_plain|by apply (proj1 (proj2 (proj2 scans_text)) _ _ _ Hv)|done].
Qed.

Lemma int_starts int s : int_text int -> exists ch s', int +:+ s = String ch s' /\ is_digit ch = true.
Proof. intros [->|(d & s' & -> & Hd & _)]; [by eexists _, _|]. rewrite app_cons. by eexists _, _. Qed.

Lemma lex_value_number lit r :
  number_text lit -> lex_value (lit +:+ r) = Some (span_value (lex_number_span (lit +:+ r)) JSON_NUMBER).
Proof.
  intros (sign & int & frac & exp & -> & Hs & Hi & _). rewrite !string_app_assoc.
  destruct Hs as [-> | ->]; [|done]. rewrite app_nil_l.
  destruct (int_starts int (frac +:+ exp +:+ r) Hi) as (ch & s' & -> & Hd). cbn [lex_value].
  rewrite Hd, orb_true_r. by char_cases.
Qed.

Lemma keyword_text kw r t : keyword_value (kw +:+ r) kw t = (r, inr (Node t JSON_NODE_FLAG_NONE kw)).
Proof.
  unfold keyword_value. assert (lex_keyword (kw +:+ r) kw = Some r) as ->.
  { induction kw as [|k kw IH]; [by destruct r|]. rewrite app_cons. simpl. by rewrite char_is_refl. }
  by rewrite cs_until_app.
Qed.

(** What may follow a value. *)
Definition follows (r : string) : Prop := starts num_char r = false.

Lemma lex_value_text v s r :
  renders v s -> follows r -> (slen (s +:+ r) <= MAXLEN)%nat -> lex_value (s +:+ r) = Some (r, inr (node_of v s)).
Proof.
  intros Hv Hr Hm. destruct v as [|b|lit|raw|vs|ms].
  - inversion Hv; subst. change (Some (keyword_value ("null" +:+ r) "null" JSON_NULL) = Some (r, inr (node_of JNull "null"))).
    by rewrite keyword_text.
  - inversion Hv; subst.
    + change (Some (keyword_value ("true" +:+ r) "true" JSON_BOOL) = Some (r, inr (node_of (JBool true) "true"))).
      by rewrite keyword_text.
    + change (Some (keyword_value ("false" +:+ r) "false" JSON_BOOL) = Some (r, inr (node_of (JBool false) "false"))).
      by rewrite keyword_text.
  - inversion Hv; subst. by rewrite lex_value_number, lex_number_text.
  - inversion Hv as [| | | |? Hraw| | | |]; subst. pose proof (lex_string_text raw r Hraw) as HL.
    rewrite app_cons in HL |- *. cbn [lex_value]. by rewrite HL.
  - destruct (array_text vs s Hv) as (body & -> & Hb).
    assert (Ht : String "[" (body +:+ "]") +:+ r = String "[" (body +:+ String "]" r)) by (by rewrite app_cons, string_app_assoc).
    cbn [node_of]. rewrite <-(cs_until_app (String "[" (body +:+ "]")) r) at 2. rewrite Ht in *.
    cbn [lex_value]. rewrite (container_closes "[" "]") by (done || by right). done.
  - destruct (object_text ms s Hv) as (body & -> & Hb).
    assert (Ht : String "{" (body +:+ "}") +:+ r = String "{" (body +:+ String "}" r)) by (by rewrite app_cons, string_app_assoc).
    cbn [node_of]. rewrite <-(cs_until_app (String "{" (body +:+ "}")) r) at 2. rewrite Ht in *.
    cbn [lex_value]. rewrite (container_closes "{" "}") by (done || by left). done.
Qed.
