(* ===== verification/JsonQuery.v ===== *)
(** * Queries compute their results

    On the text of a JSON document, [json_resolve] and the iterator of [Json.v]
    return the results that [JsonSpec.v] defines on the document's tree. *)

From Stdlib Require Import Ascii.
From stdpp Require Import strings.
From S2P Require Import Prelude Strbuf Json JsonTotal JsonSpec.

#[local] Open Scope Z_scope.

(** ** How texts start *)

(** Characters that stand between values. *)
Definition sep (ch : ascii) : bool := is_ws ch || char_is ch "," || char_is ch "]" || char_is ch "}".

Lemma value_starts v s : renders v s -> exists ch s', s = String ch s' /\ sep ch = false.
Proof.
  intros Hv. inversion Hv as [| | |lit Hl| | | | |]; subst; try by eexists _, _.
  destruct Hl as (sign & int & frac & exp & -> & Hs & Hi & _).
  destruct Hs as [-> | ->]; [|by eexists _, _]. rewrite app_nil_l.
  destruct (int_starts int (frac +:+ exp) Hi) as (ch & s' & -> & Hd). eexists _, _. split; [done|].
  unfold sep, is_ws. by char_cases.
Qed.

Lemma sep_starts ch s : sep ch = false -> starts is_ws (String ch s) = false /\ eat "," (String ch s) = None /\
  eat "]" (String ch s) = None /\ eat "}" (String ch s) = None.
Proof. unfold sep. rewrite !orb_false_iff. simpl. intros [[[-> ->] ->] ->]. done. Qed.

Lemma value_skip v s w r : renders v s -> ws w -> skip_ws (w +:+ s +:+ r) = s +:+ r.
Proof.
  intros Hv Hw. destruct (value_starts v s Hv) as (ch & s' & -> & Hs). apply skip_ws_app; [done|].
  by apply (sep_starts ch (s' +:+ r)).
Qed.

Lemma sep_follows t : starts sep t = true \/ t = EmptyString -> follows t.
Proof.
  intros [H| ->]; [|done]. destruct t as [|ch t]; [done|]. unfold follows. simpl in *. revert H.
  by destruct ch as [[] [] [] [] [] [] [] []].
Qed.

Lemma ws_then w ch s : ws w -> sep ch = true -> starts sep (w +:+ String ch s) = true.
Proof. destruct w as [|c w]; [done|]. intros [Hc _] _. rewrite app_cons. simpl. unfold sep. by rewrite Hc. Qed.

Lemma elements_follow vs t : elements vs t -> follows t.
Proof. intros H. apply sep_follows. left. by inversion H; subst; apply ws_then. Qed.
Lemma members_follow ms t : members ms t -> follows t.
Proof. intros H. apply sep_follows. left. by inversion H; subst; apply ws_then. Qed.

Lemma skip_ws_char w ch s : ws w -> is_ws ch = false -> skip_ws (w +:+ String ch s) = String ch s.
Proof. intros Hw Hc. by apply skip_ws_app. Qed.

(** ** Objects and arrays *)

(** A step returns the node of a value, or that there is none. *)
Definition found (o : option json) (r : jres json_node) : Prop :=
  match o with
  | Some v => exists n, r = inr n /\ is_node v n
  | None => r = inl JSON_ERR_NOT_FOUND
  end.

Lemma lex_node v s t : renders v s -> follows t -> (slen (s +:+ t) <= MAXLEN)%nat ->
  exists n, lex_value (s +:+ t) = Some (t, inr n) /\ is_node v n.
Proof. intros Hv Ht Hm. eexists. split; [by apply lex_value_text|]. by exists s. Qed.

Lemma object_loop_text fuel key w k v ms s t :
  ws w -> member k v s -> members ms t -> (slen (w +:+ s +:+ t) < fuel)%nat -> (slen (w +:+ s +:+ t) <= MAXLEN)%nat ->
  exists r, object_loop fuel key (w +:+ s +:+ t) = Some r /\ found (lookup_member key ((k, v) :: ms)) r.
Proof.
  revert w k v ms s t. induction fuel as [|fuel IH]; intros w k v ms s t Hw Hs Ht Hf Hm; [lia|].
  inversion Hs as [k' w1 w2 v' sv Hk Hw1 Hw2 Hv]; subst.
  cbn [object_loop lookup_member]. rewrite !string_app_assoc in *.
  rewrite app_cons, skip_ws_char by done. rewrite <-app_cons, lex_string_text by done.
  rewrite app_cons, !string_app_assoc, skip_ws_char by done. cbn [eat]. rewrite char_is_refl.
  rewrite (value_skip v sv) by done. rewrite !slen_app in *. cbn [slen] in *. rewrite !slen_app in *.
  destruct (lex_node v sv t Hv) as (n & -> & Hn); [by eapply members_follow|rewrite slen_app; lia|].
  cbn [mbind option_bind fst snd].
  replace (bool_decide (str_flag (escaped k) JSON_NODE_FLAG_NONE <> JSON_NODE_FLAG_STR_ESCAPED)) with (negb (escaped k))
    by (by destruct (escaped k)).
  destruct (negb (escaped k) && bool_decide (k = key)); [eexists; split; [done|]; by exists n|].
  inversion Ht as [w3 Hw3|w3 w4 k2 v2 ms' s2 t2 Hw3 Hw4 Hs2 Ht2]; subst.
  - rewrite skip_ws_char by done. cbn. by eexists.
  - rewrite skip_ws_char by done. cbn [eat]. rewrite char_is_refl.
    rewrite !slen_app in *. cbn [slen] in *. rewrite !slen_app in *.
    apply IH; try done; rewrite !slen_app; lia.
Qed.

(** What follows the bracket of a container that has a first item. *)
Lemma member_skip k v s w r : member k v s -> ws w -> skip_ws (w +:+ s +:+ r) = s +:+ r /\ eat "}" (s +:+ r) = None.
Proof. intros H Hw. inversion H; subst. rewrite !string_app_assoc, app_cons. by rewrite skip_ws_char. Qed.

Lemma object_step_text v n key :
  is_node v n -> (slen (n_s n) <= MAXLEN)%nat ->
  exists r, object_step n key = Some r /\
    match v with JObject ms => found (lookup_member key ms) r | _ => r = inl JSON_ERR_TYPE end.
Proof.
  intros (s & Hv & ->) Hm. destruct v as [|b|lit|raw|vs|ms]; try by eexists.
  inversion Hv as [| | | | | | |w Hw|w k v ms' s' t Hw Hs Ht]; subst;
    unfold object_step; rewrite bool_decide_true by done; cbn [negb n_s node_of eat] in *; rewrite char_is_refl.
  - rewrite skip_ws_char by done. by eexists.
  - destruct (member_skip k v s' w t Hs Hw) as [-> ->]. cbn [slen] in Hm.
    apply (object_loop_text _ _ EmptyString); try done; rewrite app_nil_l; [lia|]. rewrite slen_app in Hm. lia.
Qed.

Lemma aget_tail {A} (x : A) l i : i <> 0 -> aget (x :: l) i = aget l (i - 1).
Proof.
  intros H. unfold aget. destruct (Z.leb_spec 0 i), (Z.leb_spec 0 (i - 1)); try lia; [|done].
  by replace (Z.to_nat i) with (S (Z.to_nat (i - 1))) by lia.
Qed.

Lemma array_loop_text fuel want i w v vs s t :
  ws w -> renders v s -> elements vs t -> (slen (w +:+ s +:+ t) < fuel)%nat -> (slen (w +:+ s +:+ t) <= MAXLEN)%nat ->
  0 <= i -> i + Z.of_nat (slen (w +:+ s +:+ t)) <= INT_MAX ->
  exists r, array_loop fuel want i (w +:+ s +:+ t) = Some r /\ found (aget (v :: vs) (want - i)) r.
Proof.
  revert i w v vs s t. induction fuel as [|fuel IH]; intros i w v vs s t Hw Hs Ht Hf Hm H0 Hi; [lia|].
  cbn [array_loop]. rewrite (value_skip v s) by done. rewrite !slen_app in *.
  destruct (lex_node v s t Hs) as (n & -> & Hn); [by eapply elements_follow|rewrite slen_app; lia|].
  cbn [mbind option_bind fst snd]. destruct (Z.eqb_spec i want) as [->|Hne].
  { rewrite Z.sub_diag. eexists. split; [done|]. by exists n. }
  inversion Ht as [w3 Hw3|w3 w4 v2 vs' s2 t2 Hw3 Hw4 Hs2 Ht2]; subst.
  - rewrite skip_ws_char by done. cbn [eat]. eexists. split; [done|].
    rewrite (proj2 (aget_None _ _)); [done|]. cbn. lia.
  - rewrite skip_ws_char by done. cbn [eat]. rewrite char_is_refl.
    rewrite !slen_app in *. cbn [slen] in *. rewrite !slen_app in *.
    rewrite u64_id by (unfold INT_MAX in Hi; cint; lia).
    destruct (IH (i + 1) w4 v2 vs' s2 t2) as (r & -> & Hr); try done; rewrite ?slen_app; try lia.
    eexists. split; [done|]. replace (aget (v :: v2 :: vs') (want - i)) with (aget (v2 :: vs') (want - (i + 1))); [done|].
    rewrite (aget_tail v (v2 :: vs')) by lia. f_equal. lia.
Qed.

Lemma array_step_text v n want :
  is_node v n -> (slen (n_s n) <= MAXLEN)%nat ->
  exists r, array_step n want = Some r /\
    match v with JArray vs => found (aget vs want) r | _ => r = inl JSON_ERR_TYPE end.
Proof.
  intros (s & Hv & ->) Hm. destruct v as [|b|lit|raw|vs|ms]; try by eexists.
  inversion Hv as [| | | | |w Hw|w v vs' s' t Hw Hs Ht| |]; subst;
    unfold array_step; rewrite bool_decide_true by done; cbn [negb n_s node_of eat] in *; rewrite char_is_refl.
  - rewrite skip_ws_char by done. eexists. split; [done|]. unfold aget. by destruct (0 <=? want).
  - rewrite (value_skip v s') by done.
    assert (eat "]" (s' +:+ t) = None) as ->.
    { destruct (value_starts v s' Hs) as (ch & s2 & -> & Hc). by apply (sep_starts ch (s2 +:+ t)). }
    cbn [slen] in Hm. rewrite slen_app in Hm. unfold MAXLEN in Hm.
    destruct (array_loop_text (S (slen (s' +:+ t))) want 0 EmptyString v vs' s' t) as (r & Hr & Hfd);
      try done; rewrite ?app_nil_l; unfold MAXLEN, INT_MAX in *; try lia.
    rewrite app_nil_l in Hr. rewrite Z.sub_0_r in Hfd. by exists r.
Qed.

(** ** Frames *)

Lemma iter_take_text vs t :
  elements vs t -> (slen t <= MAXLEN)%nat ->
  exists t' r, iter_take t true = Some (t', true, r) /\ (slen t' <= slen t)%nat /\
    match vs with
    | [] => r = inl JSON_ERR_NOT_FOUND
    | v :: vs => exists n, r = inr n /\ is_node v n /\ elements vs t' /\ (slen t' + slen (n_s n) < slen t)%nat
    end.
Proof.
  intros H Hm. destruct (iter_take_total t true Hm) as (t' & saw & r & E & Hl & _ & _ & Hn).
  inversion H as [w Hw|w w' v vs' s t2 Hw Hw' Hs Ht]; subst; unfold iter_take in *; rewrite skip_ws_char in * by done.
  - cbn in *. simplify_eq. by eexists _, _.
  - cbn [negb] in *. change (char_is "," "]") with false in *. change (char_is "," ",") with true in *.
    cbn [negb] in *. cbv iota in *. rewrite (value_skip v s) in * by done.
    destruct (lex_node v s t2 Hs) as (n & E2 & Hnode); [by eapply elements_follow| |].
    { rewrite !slen_app in *. cbn [slen] in *. rewrite !slen_app in *. lia. }
    rewrite E2 in *. cbn [mbind option_bind fst snd] in *. simplify_eq. eexists _, _. split; [done|]. split; [done|].
    exists n. destruct (Hn n eq_refl) as (_ & _ & ?). split_and!; [done|done|done|lia].
Qed.

Lemma iter_first_text vs s :
  renders (JArray vs) s -> (slen s <= MAXLEN)%nat ->
  exists rest t r saw, eat "[" s = Some rest /\ iter_take rest false = Some (t, saw, r) /\ (slen t <= slen s)%nat /\
    match vs with
    | [] => r = inl JSON_ERR_NOT_FOUND
    | v :: vs => saw = true /\ exists n, r = inr n /\ is_node v n /\ elements vs t /\ (slen (n_s n) <= slen s)%nat
    end.
Proof.
  intros H Hm. inversion H as [| | | | |w Hw|w v vs' s' t Hw Hs Ht| |]; subst.
  - exists (w +:+ "]"). unfold iter_take. rewrite skip_ws_char by done. eexists _, _, _. split; [done|]. split; [done|].
    split; [simpl; lia|done].
  - cbn [slen] in Hm. exists (w +:+ s' +:+ t).
    destruct (iter_take_total (w +:+ s' +:+ t) false) as (t' & saw & r & E & Hl & _ & _ & Hn); [lia|].
    rewrite E. unfold iter_take in E. rewrite (value_skip v s') in E by done.
    destruct (value_starts v s' Hs) as (ch & s2 & -> & Hc). rewrite app_cons in E.
    destruct (sep_starts ch (s2 +:+ t) Hc) as (_ & _ & H3 & _). cbn [eat] in H3.
    destruct (char_is ch "]"); [done|]. cbn [negb] in E. rewrite <-app_cons in E.
    destruct (lex_node v (String ch s2) t Hs) as (n & E2 & Hnode); [by eapply elements_follow|rewrite !slen_app in *; lia|].
    rewrite E2 in E. cbn [mbind option_bind fst snd] in E. simplify_eq. destruct (Hn n eq_refl) as (_ & _ & ?).
    eexists _, _, _. split; [done|]. split; [done|]. split; [simpl; lia|]. split; [done|]. exists n.
    split_and!; [done|done|done|]. cbn [slen] in *. lia.
Qed.

Definition stream_app (a b : stream) : stream :=
  match a with (xs, Some e) => (xs, Some e) | (xs, None) => (xs ++ fst b, snd b) end.

Lemma stream_app_assoc a b c : stream_app (stream_app a b) c = stream_app a (stream_app b c).
Proof. destruct a as [xs [e|]], b as [ys [e'|]], c as [zs e'']; simpl; by rewrite ?app_assoc. Qed.
Lemma stream_app_nil st : stream_app ([], None) st = st.
Proof. by destruct st. Qed.
Lemma stream_concat_cons a l : stream_concat (a :: l) = stream_app a (stream_concat l).
Proof. destruct a as [xs [e|]]; [done|]. simpl. by destruct (stream_concat l). Qed.

Section queries.
Variable holds : json_node -> json_query -> option bool.
Variable sel ok : json -> json_query -> bool.
Variable parts : list json_query.
Hypothesis holds_sel : forall v n part rhs t,
  QUERY_WHERE part rhs t ∈ parts -> ok v (QUERY_WHERE part rhs t) = true -> is_node v n -> (slen (n_s n) <= MAXLEN)%nat ->
  holds n (QUERY_WHERE part rhs t) = Some (sel v (QUERY_WHERE part rhs t)).

Hypothesis holds_total : forall node part rhs t,
  QUERY_WHERE part rhs t ∈ parts -> (slen (n_s node) <= MAXLEN)%nat ->
  exists b, holds node (QUERY_WHERE part rhs t) = Some b.

(** [pends frames st]: what the open arrays still have to give. *)
Inductive pends : list json_iter_frame -> stream -> Prop :=
  | pends_nil : pends [] ([], None)
  | pends_cons i t frames vs st : elements vs t -> forallb (tests_ok ok (drop (S i) parts)) vs = true -> (slen t <= MAXLEN)%nat -> (length frames < JSON_ITER_MAX_FRAMES)%nat ->
      pends frames st -> pends (Frame i t true :: frames)
        (stream_app (stream_concat (results sel (drop (S i) parts) (JSON_ITER_MAX_FRAMES - S (length frames)) <$> vs)) st).

(** The result [r] of a step that had [st] before it and leaves [st']. *)
Definition outcome (r : jres json_node) (st st' : stream) : Prop :=
  match r with
  | inr n => exists x, is_node x n /\ st = (x :: fst st', snd st')
  | inl JSON_ERR_NOT_FOUND => st = st'
  | inl e => exists xs, st = (xs, Some e) /\ xs = []
  end.

Lemma outcome_error e st st' : e <> JSON_ERR_NOT_FOUND -> st = ([], Some e) -> outcome (inl e) st st'.
Proof. intros He ->. by destruct e; try exists []. Qed.

Lemma drop_cons_inv (i : nat) p (ps : list json_query) : p :: ps = drop i parts -> ps = drop (S i) parts /\ p ∈ parts.
Proof.
  intros H. split.
  - replace (S i) with (i + 1)%nat by lia. by rewrite <-drop_drop, <-H.
  - apply (drop_parts i). rewrite <-H. set_solver.
Qed.

Lemma apply_from_text ps i v cur frames room st :
  ps = drop i parts -> tests_ok ok ps v = true -> is_node v cur -> (slen (n_s cur) <= MAXLEN)%nat -> pends frames st ->
  (room + length frames = JSON_ITER_MAX_FRAMES)%nat ->
  exists r frames' st', apply_from holds ps i cur frames = Some (r, frames') /\
    outcome r (stream_app (results sel ps room v) st) st' /\ pends frames' st'.
Proof.
  revert i v cur frames room st. induction ps as [|p ps IH]; intros i v cur frames room st Hp Hok Hn Hl Hf Hroom.
  { eexists _, _, st. split; [done|]. split; [|done]. exists v. by destruct st. }
  apply drop_cons_inv in Hp as [Hps Hin].
  assert (Herr : forall e, e <> JSON_ERR_NOT_FOUND -> exists r frames' st', Some (inl e : jres json_node, frames) = Some (r, frames') /\
    outcome r (stream_app ([], Some e) st) st' /\ pends frames' st').
  { intros e He. eexists _, _, st. split; [done|]. split; [by apply outcome_error|done]. }
  assert (Hnone : exists r frames' st', Some (inl JSON_ERR_NOT_FOUND : jres json_node, frames) = Some (r, frames') /\
    outcome r (stream_app ([], None) st) st' /\ pends frames' st').
  { eexists _, _, st. split; [done|]. by rewrite stream_app_nil. }
  destruct p as [key|index| |part rhs t]; cbn [apply_from results]; cbn [tests_ok] in Hok.
  - destruct (object_step_total cur key Hl) as (r0 & E0 & Hlen).
    destruct (object_step_text v cur key Hn Hl) as (r & E & Hr). rewrite E in *. simplify_eq. cbn [mbind option_bind].
    destruct v as [|b|lit|raw|vs|ms]; try (subst r0; by apply Herr).
    destruct (lookup_member key ms) as [x|]; cbn [found of_option] in *; [|subst r0; apply Hnone].
    destruct Hr as (n & -> & Hx). specialize (Hlen n eq_refl). apply IH; try done. lia.
  - destruct (array_step_total cur index Hl) as (r0 & E0 & Hlen).
    destruct (array_step_text v cur index Hn Hl) as (r & E & Hr). rewrite E in *. simplify_eq. cbn [mbind option_bind].
    destruct v as [|b|lit|raw|vs|ms]; try (subst r0; by apply Herr).
    destruct (aget vs index) as [x|]; cbn [found of_option] in *; [|subst r0; apply Hnone].
    destruct Hr as (n & -> & Hx). specialize (Hlen n eq_refl). apply IH; try done. lia.
  - destruct (Nat.leb_spec JSON_ITER_MAX_FRAMES (length frames)) as [Hfull|Hspace].
    { assert (room = 0)%nat as -> by lia. by apply Herr. }
    destruct room as [|room]; [lia|]. unfold iter_open_array. destruct Hn as (s & Hv & ->).
    destruct v as [|b|lit|raw|vs|ms]; try by apply Herr. cbn [node_of n_type n_s] in *.
    rewrite bool_decide_true by done. cbn [negb].
    destruct (iter_first_text vs s Hv Hl) as (rest & t & r & saw & -> & -> & Hlt & Hr). cbn [mbind option_bind].
    destruct vs as [|x vs]; [subst r; apply Hnone|]. destruct Hr as (-> & n & -> & Hx & Ht & Hln).
    rewrite fmap_cons, stream_concat_cons, stream_app_assoc. cbn [forallb] in Hok. apply andb_true_iff in Hok as [Hokx Hokvs].
    apply IH; [done|done|done|lia| |simpl in *; lia]. rewrite Hps in Hokvs |- *.
    replace room with (JSON_ITER_MAX_FRAMES - S (length frames))%nat by lia.
    apply pends_cons; [done|done|lia|done|done].
  - apply andb_true_iff in Hok as [Hokt Hokps]. rewrite (holds_sel v) by done. cbn [mbind option_bind].
    destruct (sel v (QUERY_WHERE part rhs t)); [by apply IH|apply Hnone].
Qed.

Lemma pends_ok frames st : pends frames st -> Forall frame_ok frames.
Proof. induction 1 as [|i t frames vs st Ht _ Hl _ _ IH]; [apply Forall_nil_2|]. apply Forall_cons_2; [|done]. split; auto. Qed.

(** [backtrack_iter] returns the next of the results the frames hold. *)
Lemma backtrack_text fuel frames st :
  pends frames st -> (frames_size frames <= fuel)%nat ->
  exists r frames' st', backtrack_iter holds parts fuel frames = Some (r, frames') /\ outcome r st st' /\ pends frames' st' /\
    (r = inl JSON_ERR_NOT_FOUND -> frames' = []).
Proof.
  revert frames st. induction fuel as [|fuel IH]; intros frames st Hp Hs; inversion Hp as [|i t outer vs st0 Ht Hok Hl Hlen Hp0]; subst.
  1,3: eexists _, _, ([], None); split; [done|]; by split.
  { rewrite frames_size_cons in Hs. lia. }
  rewrite frames_size_cons in Hs. cbn [f_rest] in Hs. cbn [backtrack_iter f_rest saw_first part_index].
  destruct (iter_take_text vs t Ht Hl) as (t' & r & -> & Hlt & Hr). cbn [mbind option_bind].
  destruct vs as [|x vs]; [subst r|destruct Hr as (n & -> & Hx & Ht' & Hsz)].
  { rewrite stream_app_nil. apply IH; [done|lia]. }
  rewrite fmap_cons, stream_concat_cons, stream_app_assoc. cbn [forallb] in Hok. apply andb_true_iff in Hok as [Hokx Hokvs].
  assert (Hp' : pends (Frame i t' true :: outer)
    (stream_app (stream_concat (results sel (drop (S i) parts) (JSON_ITER_MAX_FRAMES - S (length outer)) <$> vs)) st0))
    by (apply pends_cons; [done|done|lia|done|done]).
  destruct (apply_from_total holds parts holds_total (drop (S i) parts) (S i) n (Frame i t' true :: outer))
    as (r1 & fs1 & E1 & Hsz1 & _); [apply drop_parts|lia|by eapply pends_ok|].
  destruct (apply_from_text (drop (S i) parts) (S i) x n (Frame i t' true :: outer)
    (JSON_ITER_MAX_FRAMES - S (length outer)) _ eq_refl Hokx Hx ltac:(lia) Hp' ltac:(cbn [length]; lia))
    as (r & frames' & st' & E & Ho & Hp2).
  rewrite E in *. simplify_eq. cbn [mbind option_bind]. rewrite frames_size_cons in Hsz1. cbn [f_rest] in Hsz1.
  destruct (decide (r1 = inl JSON_ERR_NOT_FOUND)) as [->|Hne].
  - cbn beta iota delta [outcome] in Ho. rewrite Ho. apply IH; [done|lia].
  - eexists _, _, st'. split; [by destruct r1 as [[]|]|]. by split.
Qed.

(** The answer to a query whose results are [st]. *)
Definition answers (st : stream) (r : jres json_node) : Prop :=
  match st with
  | (x :: _, _) => exists n, r = inr n /\ is_node x n
  | ([], Some e) => r = inl e
  | ([], None) => r = inl JSON_ERR_NOT_FOUND
  end.

Lemma outcome_answers r st st' :
  outcome r st st' -> (r = inl JSON_ERR_NOT_FOUND -> st' = ([], None)) -> answers st r.
Proof.
  destruct r as [e|n]; [|intros (x & Hx & ->) _; by exists n].
  destruct e; cbn [outcome]; try (intros (xs & -> & ->) _; done). by intros -> ->.
Qed.

Lemma pends_empty st : pends [] st -> st = ([], None).
Proof. by inversion 1. Qed.

Lemma stream_app_end st : stream_app st ([], None) = st.
Proof. destruct st as [xs [e|]]; simpl; [done|]. by rewrite app_nil_r. Qed.

Lemma root_text v w s r : renders v s -> ws w -> follows r -> (slen (w +:+ s +:+ r) <= MAXLEN)%nat ->
  exists n, lex_value (skip_ws (w +:+ s +:+ r)) = Some (r, inr n) /\ is_node v n /\ (slen (n_s n) <= MAXLEN)%nat.
Proof.
  intros Hv Hw Hr Hm. rewrite (value_skip v s) by done. rewrite !slen_app in Hm.
  destruct (lex_node v s r Hv Hr) as (n & E & Hn); [rewrite slen_app; lia|]. exists n. split; [done|]. split; [done|].
  destruct (lex_value_total (s +:+ r)) as (r0 & E0 & _ & H0); [rewrite slen_app; lia|].
  rewrite E in E0. simplify_eq. destruct (H0 n eq_refl) as [H1 _]. rewrite slen_app in H1. lia.
Qed.

Lemma resolve_text v w s r :
  tests_ok ok parts v = true -> renders v s -> ws w -> follows r -> (slen (w +:+ s +:+ r) <= MAXLEN)%nat ->
  exists res, resolve_with holds parts (w +:+ s +:+ r) = Some (res, r) /\
    answers (results sel parts JSON_ITER_MAX_FRAMES v) res.
Proof.
  intros Hok Hv Hw Hr Hm. unfold resolve_with.
  destruct (root_text v w s r Hv Hw Hr Hm) as (n & -> & Hn & Hl). cbn [mbind option_bind fst snd].
  destruct (apply_from_text parts 0 v n [] JSON_ITER_MAX_FRAMES ([], None)) as (r1 & fs & st & -> & Ho & Hp);
    [done|done|done|done|apply pends_nil|done|].
  rewrite stream_app_end in Ho. cbn [mbind option_bind].
  destruct (decide (r1 = inl JSON_ERR_NOT_FOUND)) as [->|Hne].
  - destruct fs as [|f fs].
    + eexists. split; [done|]. eapply outcome_answers; [done|]. intros _. by apply pends_empty.
    + cbn [outcome] in Ho. rewrite Ho. destruct (backtrack_text _ _ _ Hp (le_n _)) as (r2 & fs2 & st2 & -> & Ho2 & Hp2 & Hend).
      cbn [mbind option_bind fst]. eexists. split; [done|]. eapply outcome_answers; [done|].
      intros ->. rewrite Hend in Hp2 by done. by apply pends_empty.
  - eexists. split; [by destruct r1 as [[]|]|]. by eapply outcome_answers.
Qed.
End queries.

(** ** Selections *)

Lemma equals_literal_node x n rhs t : is_node x n ->
  match t with
  | JSON_STRING => Some (str_eq_unescaped n rhs)
  | JSON_NUMBER => Some (num_eq_literal n rhs)
  | JSON_BOOL => Some (bool_eq_literal n rhs)
  | _ => Some false
  end = Some (equals_literal x rhs t).
Proof.
  intros (s & Hx & ->). unfold str_eq_unescaped, num_eq_literal, bool_eq_literal.
  destruct t, x as [|b|lit|raw|vs|ms]; try done; inversion Hx; subst; cbn [node_of n_type n_flag n_s equals_literal].
  all: rewrite ?(bool_decide_false (_ <> _)) by (by intros []); try done.
  by destruct (escaped raw).
Qed.

(** *** Strings read without their quotes *)

Lemma substring_prefix k s : exists q, s = String.substring 0 k s +:+ q.
Proof.
  revert k. induction s as [|ch s IH]; intros [|k]; try by eexists.
  destruct (IH k) as [q Hq]. exists q. cbn [String.substring]. rewrite app_cons. by rewrite <-Hq.
Qed.

(** Between its quotes a string has no quote where a key could start. *)
Lemma str_text_no_quote p q : str_text (p +:+ q) -> starts (fun ch => char_is ch dquote) (skip_ws p) = false.
Proof.
  induction p as [|ch p IH]; [done|]. rewrite app_cons. intros H. cbn [skip_ws].
  destruct (is_ws ch) eqn:Ew; inversion H; subst; try done. by apply IH.
Qed.
Lemma str_text_skip s : str_text s -> str_text (skip_ws s).
Proof.
  induction 1 as [|ch s H1 H2 H3 Hs IH| |]; try (by constructor). cbn [skip_ws].
  destruct (is_ws ch); [done|by constructor].
Qed.

Lemma lex_object_span c c' n : lex_value c = Some (c', inr n) -> n_type n = JSON_OBJECT -> n_s n = cs_until c c'.
Proof.
  unfold lex_value, span_value, keyword_value. destruct c as [|ch c0]; [done|]. intros E Ht.
  destruct (char_is ch "{" || char_is ch "[").
  { destruct (skip_container (String ch c0)) as [[c2 []]|]; cbn [mbind option_bind] in E; by simplify_eq/=. }
  destruct (char_is ch dquote); [destruct (lex_string_span _) as [? [[]|]]; by simplify_eq/=|].
  destruct (char_is ch "t"); [destruct (lex_keyword _ _); by simplify_eq/=|].
  destruct (char_is ch "f"); [destruct (lex_keyword _ _); by simplify_eq/=|].
  destruct (char_is ch "n"); [destruct (lex_keyword _ _); by simplify_eq/=|].
  destruct (char_is ch "-" || is_digit ch); [destruct (lex_number_span _) as [? [[]|]]; by simplify_eq/=|]. done.
Qed.

Lemma no_member_in_string raw n c' key r :
  str_text raw -> lex_value (skip_ws raw) = Some (c', inr n) -> object_step n key = Some r -> exists e, r = inl e.
Proof.
  intros Hraw EL EO. unfold object_step in EO. case_bool_decide as Ht; cbn [negb] in EO; [|simplify_eq; by eexists].
  pose proof (lex_object_span _ _ _ EL Ht) as Hs. destruct (substring_prefix (slen (skip_ws raw) - slen c') (skip_ws raw)) as [q Hq].
  fold (cs_until (skip_ws raw) c') in Hq. rewrite <-Hs in Hq. apply str_text_skip in Hraw. rewrite Hq in Hraw.
  destruct (n_s n) as [|ch c1]; [simplify_eq/=; by eexists|]. cbn [eat] in EO.
  destruct (char_is ch "{") eqn:Ec; [|simplify_eq; by eexists]. apply char_is_true in Ec as ->.
  destruct (eat "}" (skip_ws c1)); [simplify_eq; by eexists|].
  rewrite app_cons in Hraw. inversion Hraw as [|? ? _ _ _ Hc1| |]; subst. apply str_text_no_quote in Hc1.
  cbn [object_loop] in EO.
  assert (Hid : skip_ws (skip_ws c1) = skip_ws c1).
  { clear. induction c1 as [|x c IH]; [done|]. cbn [skip_ws]. destruct (is_ws x) eqn:E; [done|]. cbn [skip_ws]. by rewrite E. }
  rewrite Hid in EO. assert (lex_string_span (skip_ws c1) = (skip_ws c1, None)) as EL2.
  { destruct (skip_ws c1) as [|x c]; [done|]. cbn in Hc1. cbn [lex_string_span]. by rewrite Hc1. }
  rewrite EL2 in EO. simplify_eq. by eexists.
Qed.

(** So a test whose sub-query starts with a key fails on every string. *)
Lemma where_holds_string n raw flag key sub rhs t :
  str_text raw -> (exists b, where_holds (S n) (Node JSON_STRING flag raw) (QUERY_WHERE (QUERY_KEY key :: sub) rhs t) = Some b) ->
  where_holds (S n) (Node JSON_STRING flag raw) (QUERY_WHERE (QUERY_KEY key :: sub) rhs t) = Some false.
Proof.
  intros Hraw [b Hb]. cbn [where_holds n_s] in *. unfold resolve_with in *.
  destruct (lex_value (skip_ws raw)) as [[c' [e|nd]]|] eqn:EL; cbn [mbind option_bind fst snd] in *; [done| |done].
  cbn [apply_from] in *. destruct (object_step nd key) as [r|] eqn:EO; [|done]. cbn [mbind option_bind] in *.
  destruct (no_member_in_string raw nd c' key r Hraw EL EO) as [e ->]. by destruct e.
Qed.

Lemma where_holds_text n v node part rhs t :
  (S (parts_depth part) <= n)%nat -> test_ok n v (QUERY_WHERE part rhs t) = true -> is_node v node -> (slen (n_s node) <= MAXLEN)%nat ->
  where_holds n node (QUERY_WHERE part rhs t) = Some (selects n v (QUERY_WHERE part rhs t)).
Proof.
  revert v node part rhs t. induction n as [|n IH]; intros v node part rhs t Hd Hok Hn Hl; [lia|].
  pose proof (where_holds_total (S n) node part rhs t Hd Hl) as Hb.
  assert (Hdeep : forall p r t', QUERY_WHERE p r t' ∈ part -> (S (parts_depth p) <= n)%nat).
  { intros p r t' Hin. apply parts_depth_elem in Hin. rewrite query_depth_where in Hin. lia. }
  destruct Hn as (s & Hv & ->). cbn [selects]. cbn [test_ok] in Hok.
  assert (Hgen : tests_ok (test_ok n) part v = true -> n_s (node_of v s) = s -> where_holds (S n) (node_of v s) (QUERY_WHERE part rhs t) =
    Some match results (selects n) part JSON_ITER_MAX_FRAMES v with (x :: _, _) => equals_literal x rhs t | ([], _) => false end).
  { intros Hok' Hs. cbn [where_holds]. rewrite Hs in *.
    destruct (resolve_text (where_holds n) (selects n) (test_ok n) part) with (v := v) (w := EmptyString) (s := s) (r := EmptyString)
      as (res & E & Ha); [|intros; apply where_holds_total; eauto|done|done|done|done|by rewrite app_nil_l, string_app_nil|].
    { intros x nx p r t' Hin Hokx Hx Hlx. apply IH; eauto. }
    rewrite app_nil_l, string_app_nil in E. rewrite E. cbn [mbind option_bind fst].
    destruct (results (selects n) part JSON_ITER_MAX_FRAMES v) as [[|x xs] [e|]]; cbn [answers] in Ha.
    - by subst res.
    - by subst res.
    - destruct Ha as (nx & -> & Hx). by apply equals_literal_node.
    - destruct Ha as (nx & -> & Hx). by apply equals_literal_node. }
  destruct v as [|b'|lit|raw|vs|ms]; try (by apply Hgen). inversion Hv as [| | | |? Hraw| | | |]; subst.
  destruct part as [|[key| | |] sub]; try done. cbn [node_of results] in *. by apply where_holds_string.
Qed.

Lemma holds_selects parts v n part rhs t :
  QUERY_WHERE part rhs t ∈ parts -> test_ok (parts_depth parts) v (QUERY_WHERE part rhs t) = true -> is_node v n -> (slen (n_s n) <= MAXLEN)%nat ->
  where_holds (parts_depth parts) n (QUERY_WHERE part rhs t) = Some (selects (parts_depth parts) v (QUERY_WHERE part rhs t)).
Proof. intros Hin Hok Hn Hl. apply where_holds_text; [by apply parts_depth_elem in Hin|done|done|done]. Qed.

(** ** Iteration *)

(** A caller's loop: the nodes until the first error, and that error. *)
Fixpoint iter_collect (fuel : nat) (it : json_iter) : option (list json_node * json_err) :=
  match fuel with
  | O => None
  | S fuel =>
      r ← json_iter_next it;
      match r with
      | (inl e, _) => Some ([], e)
      | (inr n, it) => q ← iter_collect fuel it; Some (n :: fst q, snd q)
      end
  end.

(** Frames stay open while results come out. *)
Lemma apply_from_keeps holds ps i cur frames n frames' :
  apply_from holds ps i cur frames = Some (inr n, frames') -> frames <> [] \/ QUERY_ITER ∈ ps -> frames' <> [].
Proof.
  revert i cur frames. induction ps as [|p ps IH]; intros i cur frames E Hne.
  { cbn in E. simplify_eq. destruct Hne as [|Hin]; [done|]. by apply elem_of_nil in Hin. }
  destruct p as [key|index| |part rhs t]; cbn [apply_from] in E.
  - destruct (object_step cur key) as [[e|c]|]; try done. eapply IH; [done|]. destruct Hne; [by left|right; set_solver].
  - destruct (array_step cur index) as [[e|c]|]; try done. eapply IH; [done|]. destruct Hne; [by left|right; set_solver].
  - case_match; [done|]. destruct (iter_open_array cur) as [e|rest]; [done|].
    destruct (iter_take rest false) as [[[rest' saw] [e|c]]|]; cbn [mbind option_bind] in E; try done.
    + by destruct e.
    + eapply IH; [done|]. by left.
  - destruct (holds cur (QUERY_WHERE part rhs t)) as [[]|]; try done.
    eapply IH; [done|]. destruct Hne; [by left|right; set_solver].
Qed.

Lemma backtrack_keeps holds parts fuel frames n frames' :
  backtrack_iter holds parts fuel frames = Some (inr n, frames') -> frames' <> [].
Proof.
  revert frames. induction fuel as [|fuel IH]; intros [|f outer] E; cbn [backtrack_iter] in E; try done.
  destruct (iter_take (f_rest f) (saw_first f)) as [[[rest saw] [e|c]]|]; cbn [mbind option_bind] in E; try done.
  { destruct e; try done. by eapply IH. }
  destruct (apply_from holds _ _ c _) as [[[e|c'] fs]|] eqn:EA; cbn [mbind option_bind] in E; try done.
  { destruct e; try done. by eapply IH. }
  simplify_eq. eapply apply_from_keeps; [exact EA|]. by left.
Qed.

Section iteration.
Variable parts : list json_query.
Variable src : string.
Notation holds := (where_holds (parts_depth parts)).
Notation sel := (selects (parts_depth parts)).
Notation ok := (test_ok (parts_depth parts)).

(** What is left to collect. *)
Definition collects (fuel : nat) (it : json_iter) (st : stream) : Prop :=
  exists nodes, iter_collect fuel it = Some (nodes, default JSON_ERR_NOT_FOUND (snd st)) /\ Forall2 is_node (fst st) nodes.

Lemma collect_outcome fuel it r it' st st' :
  json_iter_next it = Some (r, it') -> outcome r st st' -> (r = inl JSON_ERR_NOT_FOUND -> st' = ([], None)) ->
  (forall n, r = inr n -> collects (length (fst st)) it' st') -> fuel = S (length (fst st)) -> collects fuel it st.
Proof.
  intros E Ho Hend Hrec ->. unfold collects. cbn [iter_collect]. rewrite E. cbn [mbind option_bind].
  destruct r as [e|n].
  - exists []. pose proof (outcome_answers _ _ _ Ho Hend) as Ha.
    assert (Hfst : fst st = []) by (destruct st as [[|x xs] e']; [done|]; by destruct Ha as (n & ? & _)).
    destruct st as [xs e']. cbn in Hfst. subst xs. split; [|by apply Forall2_nil_2].
    by destruct e'; cbn [answers] in Ha; simplify_eq.
  - destruct Ho as (x & Hx & ->). destruct (Hrec n eq_refl) as (nodes & -> & Hall). cbn [mbind option_bind fst snd].
    exists (n :: nodes). split; [done|]. by apply Forall2_cons_2.
Qed.

Lemma collect_frames xs e fs le :
  pends sel ok parts fs (xs, e) -> fs <> [] -> collects (S (length xs)) (Iter src parts fs false le) (xs, e).
Proof.
  remember (length xs) as k eqn:Hk. revert xs e fs Hk. induction k as [|k IH]; intros xs e fs Hk Hp Hne;
    (destruct (backtrack_text holds sel ok parts) with (fuel := frames_size fs) (frames := fs) (st := (xs, e))
       as (r & fs' & st' & E & Ho & Hp' & Hend);
       [intros; by apply holds_selects|intros; by apply holds_all_total|done|lia|]);
    (assert (Hnext : json_iter_next (Iter src parts fs false le) =
      Some (r, Iter src parts fs' (match r with inl _ => true | inr _ => false end) le))
      by (unfold json_iter_next; cbn [it_done it_frames it_parts it_src]; destruct fs; [done|]; by rewrite E));
    (eapply collect_outcome; [exact Hnext|exact Ho| | |cbn; congruence]);
    try (intros ->; rewrite Hend in Hp' by done; by apply pends_empty in Hp');
    intros n ->; destruct Ho as (x & Hx & Hst); simplify_eq.
  destruct st' as [xs' e']. cbn in Hk. cbn [fst snd length] in *. injection Hk as Hk. rewrite <-Hk.
  apply IH; [done|done|]. by eapply backtrack_keeps.
Qed.
End iteration.

(** ** The reader on documents *)

Lemma maxlen_strlen s : strlen s <= INT_MAX -> (slen s <= MAXLEN)%nat.
Proof. unfold strlen, MAXLEN, INT_MAX. lia. Qed.

Lemma json_resolve_answers parts v w s r :
  query_ok parts v = true -> renders v s -> ws w -> follows r -> strlen (w +:+ s +:+ r) <= INT_MAX ->
  exists res err, json_resolve (w +:+ s +:+ r) parts = Some (res, err) /\ answers (query_results parts v) res /\
    forall e, res = inl e -> err = Some (e, strlen w + strlen s).
Proof.
  intros Hok Hv Hw Hr Hm. unfold json_resolve.
  destruct (resolve_text (where_holds (parts_depth parts)) (selects (parts_depth parts)) (test_ok (parts_depth parts)) parts)
    with (v := v) (w := w) (s := s) (r := r) as (res & -> & Ha);
    [intros; by apply holds_selects|intros; by apply holds_all_total|done|done|done|done|by apply maxlen_strlen|].
  cbn [mbind option_bind fst snd]. destruct res as [e|n]; eexists _, _; (split; [done|]); (split; [done|]); [|done].
  intros e' [= <-]. do 2 f_equal. rewrite !strlen_app. lia.
Qed.

Lemma json_iter_collects parts v w s r :
  QUERY_ITER ∈ parts -> query_ok parts v = true -> renders v s -> ws w -> follows r -> strlen (w +:+ s +:+ r) <= INT_MAX ->
  collects (S (length (fst (query_results parts v)))) (json_iter_init (w +:+ s +:+ r) parts) (query_results parts v).
Proof.
  intros Hit Hok Hv Hw Hr Hm. set (src := w +:+ s +:+ r). set (holds := where_holds (parts_depth parts)).
  destruct (root_text v w s r Hv Hw Hr (maxlen_strlen _ Hm)) as (n & E & Hn & Hl).
  destruct (apply_from_text holds (selects (parts_depth parts)) (test_ok (parts_depth parts)) parts) with (ps := parts) (i := 0%nat) (v := v) (cur := n)
    (frames := @nil json_iter_frame) (room := JSON_ITER_MAX_FRAMES) (st := ([] : list json, None : option json_err))
    as (r1 & fs & st & EA & Ho & Hp); [intros; by apply holds_selects|intros; by apply holds_all_total|done|done|done|done|apply pends_nil|done|].
  rewrite stream_app_end in Ho. fold (query_results parts v) in Ho. fold src in E.
  assert (Hnext : forall r2 it2, json_iter_next (json_iter_init src parts) = Some (r2, it2) ->
    forall st2, outcome r2 (query_results parts v) st2 -> (r2 = inl JSON_ERR_NOT_FOUND -> st2 = ([], None)) ->
    (forall n, r2 = inr n -> exists fs2, it2 = Iter src parts fs2 false (JSON_OK, 0) /\ fs2 <> [] /\
      pends (selects (parts_depth parts)) (test_ok (parts_depth parts)) parts fs2 st2) ->
    collects (S (length (fst (query_results parts v)))) (json_iter_init src parts) (query_results parts v)).
  { intros r2 it2 EN st2 Ho2 Hend Hsucc. eapply collect_outcome; [exact EN|exact Ho2|exact Hend| |done].
    intros n2 ->. destruct (Hsucc n2 eq_refl) as (fs2 & -> & Hne & Hp2). destruct Ho2 as (x & _ & ->).
    destruct st2 as [xs2 e2]. by apply collect_frames. }
  unfold json_iter_next in Hnext at 1. cbn [json_iter_init it_done it_frames it_parts it_src] in Hnext.
  rewrite E in Hnext. cbn [mbind option_bind fst snd] in Hnext. fold holds in Hnext. rewrite EA in Hnext.
  cbn [mbind option_bind] in Hnext. destruct r1 as [e|n1].
  - destruct (decide (e = JSON_ERR_NOT_FOUND)) as [->|Hne].
    + destruct fs as [|f fs]; [by eapply Hnext; [done|exact Ho|intros _; apply (pends_empty _ _ _ _ Hp)|]|].
      destruct (backtrack_text holds (selects (parts_depth parts)) (test_ok (parts_depth parts)) parts) with (fuel := frames_size (f :: fs))
        (frames := f :: fs) (st := st) as (r2 & fs2 & st2 & EB & Ho2 & Hp2 & Hend);
        [intros; by apply holds_selects|intros; by apply holds_all_total|done|lia|].
      rewrite EB in Hnext. cbn [mbind option_bind fst snd] in Hnext. cbn [outcome] in Ho. rewrite <-Ho in Ho2.
      eapply Hnext; [done|exact Ho2|intros ->; rewrite Hend in Hp2 by done; apply (pends_empty _ _ _ _ Hp2)|].
      intros n2 ->. exists fs2. split; [done|]. split; [by eapply backtrack_keeps|done].
    + destruct e; try done; (eapply Hnext; [done|exact Ho|done|done]).
  - eapply Hnext; [done|exact Ho|done|]. intros n2 _. exists fs. split; [done|].
    split; [|done]. eapply apply_from_keeps; [exact EA|]. by right.
Qed.

(** C30: on any text of a document (any white space, and anything that cannot
    continue a number after it) of at most [INT_MAX] bytes, [json_resolve] returns
    the first result of the query on the document's tree: the node of that value,
    with its type, its flag and its own text; or the error that stops the query
    before a first result, or [JSON_ERR_NOT_FOUND] when there is none. A failure is
    reported at the end of the document. Where the query tests a string with a
    [QUERY_WHERE], its sub-query must start with a key; other tests of strings do not
    do what they say (json.c reads the characters as JSON). *)
Theorem json_resolve_correct parts v w s r :
  query_ok parts v = true -> renders v s -> ws w -> follows r -> strlen (w +:+ s +:+ r) <= INT_MAX ->
  exists res err, json_resolve (w +:+ s +:+ r) parts = Some (res, err) /\ answers (query_results parts v) res /\
    forall e, res = inl e -> err = Some (e, strlen w + strlen s).
Proof. apply json_resolve_answers. Qed.

(** C31: a loop over [json_iter_next] on a document's text, for a query with a
    [QUERY_ITER] part, yields the nodes of all results of the query on the tree, in
    order, and then the error that ends the stream, or [JSON_ERR_NOT_FOUND]. As for
    [json_resolve], a string is only tested with a sub-query that starts with a key. *)
Theorem json_iter_correct parts v w s r :
  QUERY_ITER ∈ parts -> query_ok parts v = true -> renders v s -> ws w -> follows r -> strlen (w +:+ s +:+ r) <= INT_MAX ->
  exists nodes, Forall2 is_node (fst (query_results parts v)) nodes /\
    iter_collect (S (length nodes)) (json_iter_init (w +:+ s +:+ r) parts) =
      Some (nodes, default JSON_ERR_NOT_FOUND (snd (query_results parts v))).
Proof.
  intros Hit Hok Hv Hw Hr Hm. destruct (json_iter_collects parts v w s r Hit Hok Hv Hw Hr Hm) as (nodes & E & Hall).
  exists nodes. split; [done|]. apply Forall2_length in Hall. by rewrite <-Hall.
Qed.

(** ** Examples *)

Definition ex_doc : json := JArray [JObject [("a", JNumber "1")]; JString "x"; JObject [("a", JNumber "-2")]].
(** [[{"a":1},"x", {"a": -2}]], its quotes spelled out. *)
Definition ex_doc_text : string :=
  "[{" +:+ quoted "a" +:+ ":1}," +:+ quoted "x" +:+ ", {" +:+ quoted "a" +:+ ": -2}]".

Lemma ex_renders : renders ex_doc ex_doc_text.
Proof.
  assert (Ha : str_text "a") by (apply st_plain; [done..|apply st_nil]). assert (Hx : str_text "x") by (apply st_plain; [done..|apply st_nil]).
  assert (H1 : renders (JNumber "1") "1").
  { apply r_number. exists "", "1", "", "". split_and!; [done|by left| |by left|by left].
    right. exists "1"%char, "". split_and!; done. }
  assert (H2 : renders (JNumber "-2") "-2").
  { apply r_number. exists "-", "2", "", "". split_and!; [done|by right| |by left|by left].
    right. exists "2"%char, "". split_and!; done. }
  change ex_doc_text with (String "[" ("" +:+ (String "{" ("" +:+ (quoted "a" +:+ "" +:+ String ":" ("" +:+ "1")) +:+ ("" +:+ "}"))) +:+
    ("" +:+ String "," ("" +:+ quoted "x" +:+
      ("" +:+ String "," (" " +:+ (String "{" ("" +:+ (quoted "a" +:+ "" +:+ String ":" (" " +:+ "-2")) +:+ ("" +:+ "}"))) +:+ ("" +:+ "]"))))))).
  apply r_array; [done| |apply e_cons; [done|done|by apply r_string|apply e_cons; [done|done| |by apply e_nil]]];
    (apply r_object; [done| |by apply m_nil]); by apply member_intro.
Qed.

(** The elements whose [a] is -2; the string has no [a]. *)
Definition ex_query : list json_query := [QUERY_ITER; QUERY_WHERE [QUERY_KEY "a"] "-2" JSON_NUMBER].

Lemma json_resolve_correct_witness :
  renders ex_doc ex_doc_text /\ query_results ex_query ex_doc = ([JObject [("a", JNumber "-2")]], None) /\
  exists res err, json_resolve ("" +:+ ex_doc_text +:+ "") ex_query = Some (res, err) /\
    answers (query_results ex_query ex_doc) res /\
    forall e, res = inl e -> err = Some (e, strlen "" + strlen ex_doc_text).
Proof.
  split; [exact ex_renders|]. split; [done|]. apply (json_resolve_correct ex_query ex_doc "" ex_doc_text "");
    [done|exact ex_renders|done|done|by vm_compute].
Defined.

Lemma json_iter_correct_witness :
  renders ex_doc ex_doc_text /\
  exists nodes, Forall2 is_node (fst (query_results ex_query ex_doc)) nodes /\
    iter_collect (S (length nodes)) (json_iter_init ("" +:+ ex_doc_text +:+ "") ex_query) =
      Some (nodes, default JSON_ERR_NOT_FOUND (snd (query_results ex_query ex_doc))).
Proof.
  split; [exact ex_renders|]. apply (json_iter_correct ex_query ex_doc "" ex_doc_text "");
    [left|done|exact ex_renders|done|done|by vm_compute].
Defined.

(** Without a [QUERY_ITER] part the stream does not end: every call starts over. *)
Example single_query_repeats :
  let it := json_iter_init "7" [] in json_iter_next it = Some (inr (Node JSON_NUMBER JSON_NODE_FLAG_NONE "7"), it).
Proof. done. Qed.

(** Tests of strings that [query_ok] leaves out: the string ["x"] is not found equal to
    itself, and the string ["[1]"] is taken for an array. *)
Example where_on_strings :
  json_resolve (String "[" (quoted "x" +:+ "]")) [QUERY_ITER; QUERY_WHERE [] "x" JSON_STRING] =
    Some (inl JSON_ERR_NOT_FOUND, Some (JSON_ERR_NOT_FOUND, 5)) /\
  query_results [QUERY_ITER; QUERY_WHERE [] "x" JSON_STRING] (JArray [JString "x"]) = ([JString "x"], None).
Proof. done. Qed.
Example where_reads_strings :
  json_resolve (String "[" (quoted "[1]" +:+ "]")) [QUERY_ITER; QUERY_WHERE [QUERY_INDEX 0] "1" JSON_NUMBER] =
    Some (inr (Node JSON_STRING JSON_NODE_FLAG_NONE "[1]"), None) /\
  query_results [QUERY_ITER; QUERY_WHERE [QUERY_INDEX 0] "1" JSON_NUMBER] (JArray [JString "[1]"]) = ([], None).
Proof. done. Qed.
