(* ===== verification/JsonWriter.v ===== *)
(** * The JSON writer

    [src/src/util/json_writer.c]: a writer that appends the tokens of a document to
    a string buffer. What it writes is text of the document, which the reader of
    [Json.v] reads back. [malloc] decides the allocations of the buffer; the text
    behind a [printf] format is computed, for doubles by [fmt_fixed] (["%.1f"]) and
    [fmt_general] (["%g"]). *)

From Stdlib Require Import Ascii SpecFloat.
From stdpp Require Import strings.
From S2P Require Import Prelude Strbuf Json JsonTotal JsonSpec JsonQuery.

#[local] Open Scope Z_scope.

Record json_writer := Writer { jw_sb : strbuf; needs_comma : bool; jw_err : bool }.

Definition jw_init (sb : strbuf) : json_writer := Writer sb false false.
Definition set_comma (jw : json_writer) (b : bool) : json_writer := Writer (jw_sb jw) b (jw_err jw).

(** The digits of ["%04x"] for a byte. *)
Definition hex_digit (d : Z) : ascii := Ascii.ascii_of_N (Z.to_N (if d <? 10 then 48 + d else 87 + d)).
Definition hex4 (c : Z) : string :=
  String "0" (String "0" (String (hex_digit (c / 16)) (String (hex_digit (c mod 16)) EmptyString))).
(** ["%lld"]. *)
Definition itoa (z : Z) : string := if z <? 0 then String "-" (utoa (- z)) else utoa z.

Section writer.
Variable malloc : Z -> bool.

Definition jw_put (jw : json_writer) (text : string) : option json_writer :=
  if jw_err jw then Some jw
  else
    r ← strbuf_vappendf malloc (jw_sb jw) text;
    Some (Writer (snd r) (needs_comma jw) (fst r)).

Definition jw_comma (jw : json_writer) : option json_writer := if needs_comma jw then jw_put jw "," else Some jw.

Definition jw_object_begin (jw : json_writer) : option json_writer :=
  jw ← jw_comma jw; jw ← jw_put jw "{"; Some (set_comma jw false).
Definition jw_object_end (jw : json_writer) : option json_writer :=
  jw ← jw_put jw "}"; Some (set_comma jw true).
Definition jw_array_begin (jw : json_writer) : option json_writer :=
  jw ← jw_comma jw; jw ← jw_put jw "["; Some (set_comma jw false).
Definition jw_array_end (jw : json_writer) : option json_writer :=
  jw ← jw_put jw "]"; Some (set_comma jw true).

Notation quote_mark := (String dquote EmptyString).

Definition jw_key (jw : json_writer) (key : string) : option json_writer :=
  jw ← jw_comma jw; jw ← jw_put jw quote_mark; jw ← jw_put jw key;
  jw ← jw_put jw (String dquote ":"); Some (set_comma jw false).

(** What is put for a character. *)
Definition escape_char (c : ascii) : string :=
  if char_is c dquote then String backslash quote_mark
  else if char_is c backslash then String backslash (String backslash EmptyString)
  else if char_is c "010" then String backslash "n"
  else if char_is c "013" then String backslash "r"
  else if char_is c "009" then String backslash "t"
  else if code c <? 32 then String backslash (String "u" (hex4 (code c)))
  else String c EmptyString.

Fixpoint escaped_loop (s : string) (jw : json_writer) : option json_writer :=
  match s with
  | EmptyString => Some jw
  | String c s => if jw_err jw then Some jw else jw ← jw_put jw (escape_char c); escaped_loop s jw
  end.

Definition jw_put_escaped_string (jw : json_writer) (s : string) : option json_writer :=
  jw ← jw_put jw quote_mark; jw ← escaped_loop s jw; jw_put jw quote_mark.

(** The comma, the text, and a comma from now on. *)
Definition jw_token (jw : json_writer) (text : string) : option json_writer :=
  jw ← jw_comma jw; jw ← jw_put jw text; Some (set_comma jw true).

Definition jw_string (jw : json_writer) (val : string) : option json_writer :=
  jw ← jw_comma jw; jw ← jw_put_escaped_string jw val; Some (set_comma jw true).
Definition jw_int (jw : json_writer) (val : Z) : option json_writer := jw_token jw (itoa val).
Definition jw_uint (jw : json_writer) (val : Z) : option json_writer := jw_token jw (utoa val).
Definition jw_null (jw : json_writer) : option json_writer := jw_token jw "null".
Definition jw_bool (jw : json_writer) (val : Z) : option json_writer :=
  jw_token jw (if val =? 0 then "false" else "true").
Definition jw_raw (jw : json_writer) (text : string) : option json_writer := jw_token jw text.

Section floats.
Variables fmt_fixed fmt_general : spec_float -> string.

(** [(long long)val]: the value without its fraction and whether there was one;
    [None] when the conversion is undefined. *)
Definition to_long_long (val : spec_float) : option (Z * bool) :=
  match val with
  | S754_zero _ => Some (0, true)
  | S754_finite s m e =>
      let mag := if 0 <=? e then Z.pos m * 2 ^ e else Z.pos m / 2 ^ (- e) in
      let exact := (0 <=? e) || (Z.pos m mod 2 ^ (- e) =? 0) in
      let v := if s : bool then - mag else mag in
      if (- 2 ^ 63 <=? v) && (v <? 2 ^ 63) then Some (v, exact) else None
  | _ => None
  end.

Definition jw_float (jw : json_writer) (val : spec_float) : option json_writer :=
  jw ← jw_comma jw;
  c ← to_long_long val;
  let '(v, exact) := (c : Z * bool) in
  jw ← jw_put jw (if exact && (- 10 ^ 15 <=? v) && (v <=? 10 ^ 15) then fmt_fixed val else fmt_general val);
  Some (set_comma jw true).
End floats.

Definition jw_length (jw : json_writer) : Z := strbuf_len (jw_sb jw).
Definition jw_error (jw : json_writer) : bool := jw_err jw.

(** ** Documents *)

(** What a caller writes, and the calls that write it. *)
Inductive tree :=
  | TNull | TBool (b : bool) | TInt (z : Z) | TUint (z : Z) | TString (s : string)
  | TArray (ts : list tree) | TObject (ms : list (string * tree)).

Fixpoint write_tree (t : tree) (jw : json_writer) : option json_writer :=
  match t with
  | TNull => jw_null jw
  | TBool b => jw_bool jw (if b then 1 else 0)
  | TInt z => jw_int jw z
  | TUint z => jw_uint jw z
  | TString s => jw_string jw s
  | TArray ts =>
      jw ← jw_array_begin jw;
      jw ← (fix go ts jw := match ts with [] => Some jw | t :: ts => jw ← write_tree t jw; go ts jw end) ts jw;
      jw_array_end jw
  | TObject ms =>
      jw ← jw_object_begin jw;
      jw ← (fix go ms jw := match ms with
                            | [] => Some jw
                            | (k, t) :: ms => jw ← jw_key jw k; jw ← write_tree t jw; go ms jw
                            end) ms jw;
      jw_object_end jw
  end.
End writer.

(** ** The text *)

Fixpoint escape (s : string) : string :=
  match s with EmptyString => EmptyString | String c s => escape_char c +:+ escape s end.

(** The document a tree stands for. *)
Fixpoint json_of (t : tree) : json :=
  match t with
  | TNull => JNull
  | TBool b => JBool b
  | TInt z => JNumber (itoa z)
  | TUint z => JNumber (utoa z)
  | TString s => JString (escape s)
  | TArray ts => JArray (json_of <$> ts)
  | TObject ms => JObject ((fun kt => (fst kt, json_of (snd kt))) <$> ms)
  end.

(** Numbers fit their types, and keys need no escape. *)
Inductive tree_ok : tree -> Prop :=
  | ok_null : tree_ok TNull
  | ok_bool b : tree_ok (TBool b)
  | ok_int z : - 2 ^ 63 <= z < 2 ^ 63 -> tree_ok (TInt z)
  | ok_uint z : is_u64 z -> tree_ok (TUint z)
  | ok_string s : tree_ok (TString s)
  | ok_array ts : Forall tree_ok ts -> tree_ok (TArray ts)
  | ok_object ms : Forall (fun kt => str_text (fst kt) /\ tree_ok (snd kt)) ms -> tree_ok (TObject ms).

(** The separators and text of the items of a container, with its bracket. *)
Fixpoint items (close : string) (texts : list string) : string :=
  match texts with [] => close | t :: ts => String "," (t +:+ items close ts) end.
Definition items1 (close : string) (texts : list string) : string :=
  match texts with [] => close | t :: ts => t +:+ items close ts end.

Fixpoint tree_text (t : tree) : string :=
  match t with
  | TNull => "null"
  | TBool b => if b then "true" else "false"
  | TInt z => itoa z
  | TUint z => utoa z
  | TString s => quoted (escape s)
  | TArray ts => String "[" (items1 "]" (tree_text <$> ts))
  | TObject ms => String "{" (items1 "}" ((fun kt => quoted (fst kt) +:+ String ":" (tree_text (snd kt))) <$> ms))
  end.

(** Induction on trees with the hypothesis for every item. *)
Lemma tree_items_ind (P : tree -> Prop) :
  P TNull -> (forall b, P (TBool b)) -> (forall z, P (TInt z)) -> (forall z, P (TUint z)) -> (forall s, P (TString s)) ->
  (forall ts, Forall P ts -> P (TArray ts)) -> (forall ms, Forall (fun kt => P (snd kt)) ms -> P (TObject ms)) ->
  forall t, P t.
Proof.
  intros H1 H2 H3 H4 H5 H6 H7. fix IH 1. intros [|b|z|z|s|ts|ms]; [done|done|done|done|done|apply H6|apply H7].
  - induction ts as [|t ts IHts]; [apply Forall_nil_2|apply Forall_cons_2; [apply IH|apply IHts]].
  - induction ms as [|[k t] ms IHms]; [apply Forall_nil_2|apply Forall_cons_2; [apply IH|apply IHms]].
Qed.

(** Normal form of appended texts. *)
Ltac app_norm := repeat first [rewrite app_cons | rewrite app_nil_l | rewrite string_app_assoc].

(** ** Emitted text *)

Section emits.
Variable malloc : Z -> bool.
Notation cstr jw := (strbuf_cstr (jw_sb jw)).

(** [emits m c text c']: from comma state [c], [m] appends [text] and leaves comma
    state [c'], unless the writer is or goes into its error state, for which an
    allocation must have failed. *)
Definition emits (m : json_writer -> option json_writer) (c : bool) (text : string) (c' : bool) : Prop :=
  forall jw, needs_comma jw = c -> sb_ok (jw_sb jw) -> (jw_err jw = false -> strlen (cstr jw) + strlen text < 2 ^ 62) ->
  exists jw', m jw = Some jw' /\ needs_comma jw' = c' /\ sb_ok (jw_sb jw') /\
    (jw_err jw' = false -> jw_err jw = false /\ cstr jw' = cstr jw +:+ text) /\
    (jw_err jw' = true -> jw_err jw = true \/ exists n, malloc n = false).

Lemma emits_put text c : emits (fun jw => jw_put malloc jw text) c text c.
Proof.
  intros jw Hc Hok Hlen. unfold jw_put. destruct (jw_err jw) eqn:E.
  { exists jw. split_and!; [done..|by rewrite E|by left]. }
  destruct (vappendf_spec malloc (jw_sb jw) text Hok (Hlen eq_refl)) as (fail & sb & -> & Hok' & _ & Ht & Hf).
  cbn [mbind option_bind fst snd]. eexists. split; [done|]. cbn. split_and!; [done|done|by auto|by right; auto].
Qed.

Lemma emits_set c c' : emits (fun jw => Some (set_comma jw c')) c "" c'.
Proof.
  intros jw Hc Hok _. eexists. split; [done|]. cbn. split_and!; [done|done| |by left].
  intros ->. by rewrite string_app_nil.
Qed.
Lemma emits_skip c : emits Some c "" c.
Proof. intros jw Hc Hok _. exists jw. split_and!; [done..| |by left]. intros ->. by rewrite string_app_nil. Qed.

Lemma emits_seq m1 m2 c a c1 b c2 :
  emits m1 c a c1 -> emits m2 c1 b c2 -> emits (fun jw => jw ← m1 jw; m2 jw) c (a +:+ b) c2.
Proof.
  intros H1 H2 jw Hc Hok Hlen.
  assert (Hlen' : jw_err jw = false -> strlen (cstr jw) + strlen a + strlen b < 2 ^ 62).
  { intros E. specialize (Hlen E). rewrite strlen_app in Hlen. lia. }
  destruct (H1 jw Hc Hok) as (jw1 & -> & Hc1 & Hok1 & Ht1 & He1).
  { intros E. specialize (Hlen' E). pose proof (strlen_nonneg b). lia. }
  cbn [mbind option_bind].
  destruct (H2 jw1 Hc1 Hok1) as (jw2 & -> & Hc2 & Hok2 & Ht2 & He2).
  { intros E. destruct (Ht1 E) as [E0 ->]. specialize (Hlen' E0). rewrite strlen_app. lia. }
  exists jw2. split_and!; [done|done|done| |].
  - intros E. destruct (Ht2 E) as [E1 ->]. destruct (Ht1 E1) as [E0 ->]. by rewrite string_app_assoc.
  - intros E. destruct (He2 E) as [E1|]; [|by right]. by apply He1.
Qed.

Definition comma (c : bool) : string := if c then "," else "".

Lemma emits_comma c : emits (jw_comma malloc) c (comma c) c.
Proof.
  destruct c.
  - intros jw Hc Hok Hl. unfold jw_comma. rewrite Hc. by apply (emits_put "," true).
  - intros jw Hc Hok Hl. unfold jw_comma. rewrite Hc. by apply (emits_skip false).
Qed.

Lemma emits_ext m m' c a b c' : (forall jw, m jw = m' jw) -> a = b -> emits m c a c' -> emits m' c b c'.
Proof. intros Hm -> H jw Hc Hok Hl. rewrite <-Hm. by apply H. Qed.

Lemma emits_end m c a c' : emits m c a c' -> forall c'', emits (fun jw => jw ← m jw; Some (set_comma jw c'')) c a c''.
Proof.
  intros H c''. eapply emits_ext; [done| |eapply emits_seq; [exact H|apply emits_set]]. by rewrite string_app_nil.
Qed.

(** A comma if one is due, then [text], then [c']. *)
Lemma emits_token text c c' :
  emits (fun jw => jw ← jw_comma malloc jw; jw ← jw_put malloc jw text; Some (set_comma jw c')) c (comma c +:+ text) c'.
Proof. eapply emits_seq; [apply emits_comma|]. apply (emits_end (fun jw => jw_put malloc jw text) c text c), emits_put. Qed.

Lemma emits_close text c :
  emits (fun jw => jw ← jw_put malloc jw text; Some (set_comma jw true)) c text true.
Proof. apply (emits_end (fun jw => jw_put malloc jw text) c text c), emits_put. Qed.

Lemma emits_escaped s c : emits (escaped_loop malloc s) c (escape s) c.
Proof.
  induction s as [|ch s IH]; [apply emits_skip|]. intros jw Hc Hok Hl.
  pose proof (emits_seq _ _ _ _ _ _ _ (emits_put (escape_char ch) c) IH jw Hc Hok Hl) as H. cbn [escaped_loop escape].
  destruct (jw_err jw) eqn:E; [|done]. exists jw. split_and!; [done..|by rewrite E|by left].
Qed.

Lemma emits_string s c : emits (fun jw => jw_string malloc jw s) c (comma c +:+ quoted (escape s)) true.
Proof.
  eapply emits_seq; [apply emits_comma|]. apply (emits_end _ c _ c).
  change (quoted (escape s)) with (String dquote EmptyString +:+ (escape s +:+ String dquote EmptyString)).
  eapply emits_seq; [apply emits_put|]. eapply emits_seq; [apply emits_escaped|apply emits_put].
Qed.

Lemma emits_key k c : emits (fun jw => jw_key malloc jw k) c (comma c +:+ quoted k +:+ ":") false.
Proof.
  eapply emits_seq; [apply emits_comma|].
  eapply emits_ext; [done| |eapply emits_seq; [apply emits_put|eapply emits_seq; [apply emits_put|eapply emits_end, emits_put]]].
  by rewrite (app_cons dquote (k +:+ String dquote EmptyString)), string_app_assoc.
Qed.

(** The items of an array, its bracket included. *)
Lemma emits_array_items ts :
  Forall (fun t => forall c, emits (write_tree malloc t) c (comma c +:+ tree_text t) true) ts -> forall c,
  emits (fun jw => jw ← (fix go ts jw := match ts with [] => Some jw | t :: ts => jw ← write_tree malloc t jw; go ts jw end) ts jw;
                   jw_array_end malloc jw) c
    ((if c then items else items1) "]" (tree_text <$> ts)) true.
Proof.
  induction 1 as [|t ts Ht _ IH]; intros c.
  { eapply emits_ext; [| |apply (emits_close "]" c)]; [done|by destruct c]. }
  eapply emits_ext; [| |eapply emits_seq; [apply (Ht c)|apply (IH true)]].
  - intros jw. cbn. by destruct (write_tree malloc t jw).
  - destruct c; cbn [comma fmap list_fmap items items1]; [by rewrite app_cons|by rewrite app_nil_l].
Qed.

Lemma emits_object_items ms :
  Forall (fun kt => forall c, emits (write_tree malloc (snd kt)) c (comma c +:+ tree_text (snd kt)) true) ms -> forall c,
  emits (fun jw => jw ← (fix go ms jw := match ms with
                            | [] => Some jw
                            | (k, t) :: ms => jw ← jw_key malloc jw k; jw ← write_tree malloc t jw; go ms jw
                            end) ms jw;
                   jw_object_end malloc jw) c
    ((if c then items else items1) "}" ((fun kt => quoted (fst kt) +:+ String ":" (tree_text (snd kt))) <$> ms)) true.
Proof.
  induction 1 as [|[k t] ms Ht _ IH]; intros c.
  { eapply emits_ext; [| |apply (emits_close "}" c)]; [done|by destruct c]. }
  cbn [snd] in Ht.
  eapply emits_ext; [| |eapply emits_seq; [apply (emits_key k c)|eapply emits_seq; [apply (Ht false)|apply (IH true)]]].
  - intros jw. cbn. destruct (jw_key malloc jw k) as [jw1|]; [|done]. cbn. by destruct (write_tree malloc t jw1).
  - destruct c; cbn [comma fmap list_fmap items items1 fst snd]; by app_norm.
Qed.

Lemma emits_tree t : forall c, emits (write_tree malloc t) c (comma c +:+ tree_text t) true.
Proof.
  induction t as [|b|z|z|s|ts IH|ms IH] using tree_items_ind; intros c.
  - apply emits_token.
  - destruct b; apply emits_token.
  - apply emits_token.
  - apply emits_token.
  - apply emits_string.
  - eapply emits_ext; [| |eapply emits_seq; [apply (emits_token "[" c false)|apply (emits_array_items ts IH false)]].
    + intros jw. cbn [write_tree]. unfold jw_array_begin.
      destruct (jw_comma malloc jw) as [jw1|]; [|done]. cbn. by destruct (jw_put malloc jw1 "[").
    + by rewrite string_app_assoc.
  - eapply emits_ext; [| |eapply emits_seq; [apply (emits_token "{" c false)|apply (emits_object_items ms IH false)]].
    + intros jw. cbn [write_tree]. unfold jw_object_begin.
      destruct (jw_comma malloc jw) as [jw1|]; [|done]. cbn. by destruct (jw_put malloc jw1 "{").
    + by rewrite string_app_assoc.
Qed.
End emits.

(** ** The text is the document's *)

Lemma code_digit d : 0 <= d < 10 -> code (digit d) = 48 + d.
Proof.
  intros H. pose proof (digit_val d H) as Hv. unfold code. unfold nat_of_ascii in Hv.
  rewrite N_nat_Z in Hv. lia.
Qed.
Lemma is_digit_digit d : 0 <= d < 10 -> is_digit (digit d) = true.
Proof. intros H. unfold is_digit. rewrite code_digit by done. apply andb_true_iff. split; lia. Qed.

Lemma all_digits_digits s : all_digits s -> digits s.
Proof. induction s as [|ch s IH]; [done|]. intros [(d & Hd & ->) Hs]. split; [by apply is_digit_digit|auto]. Qed.

Lemma utoa_loop_leads fuel n acc :
  0 < n < 10 ^ Z.of_nat fuel -> exists d s, utoa_loop fuel n acc = String (digit d) s /\ 0 < d < 10.
Proof.
  revert n acc. induction fuel as [|fuel IH]; intros n acc Hn; [simpl in Hn; lia|]. cbn [utoa_loop].
  destruct (Z.ltb_spec n 10) as [Hlt|Hge]; [exists (n mod 10), acc; split; [done|]; rewrite Z.mod_small by lia; lia|].
  apply IH. rewrite Nat2Z.inj_succ, Z.pow_succ_r in Hn by lia. split; [apply Z.div_str_pos; lia|].
  apply Z.div_lt_upper_bound; lia.
Qed.

Lemma digit_nonzero d : 0 < d < 10 -> digit d <> "0"%char.
Proof. intros H E. pose proof (code_digit d ltac:(lia)) as Hc. rewrite E in Hc. change (code "0") with 48 in Hc. lia. Qed.

Lemma utoa_int n : is_u64 n -> int_text (utoa n).
Proof.
  intros Hn. destruct (decide (n = 0)) as [->|Hne]; [by left|]. right.
  destruct (utoa_spec n Hn) as (_ & Had & _). apply all_digits_digits in Had.
  destruct (utoa_loop_leads 20 n EmptyString) as (d & s & E & Hd).
  { split; [destruct Hn; lia|]. eapply Z.lt_trans; [apply Hn|]. by vm_compute. }
  fold (utoa n) in E. rewrite E in *. destruct Had as [_ Hs]. exists (digit d), s.
  split_and!; [done|apply is_digit_digit; lia|by apply digit_nonzero|done].
Qed.

Lemma utoa_number n : is_u64 n -> number_text (utoa n).
Proof.
  intros Hn. exists "", (utoa n), "", "". split_and!; [by rewrite !string_app_nil|by left|by apply utoa_int|by left|by left].
Qed.
Lemma itoa_number z : - 2 ^ 63 <= z < 2 ^ 63 -> number_text (itoa z).
Proof.
  intros Hz. unfold itoa. destruct (Z.ltb_spec z 0); [|apply utoa_number; clia].
  exists "-", (utoa (- z)), "", "". split_and!; [by rewrite !string_app_nil|by right|apply utoa_int; clia|by left|by left].
Qed.

Lemma isxdigit_hex d : 0 <= d < 16 -> isxdigit (hex_digit d) = true.
Proof.
  intros H. rewrite <-(Z2Nat.id d) by lia. assert (Z.to_nat d < 16)%nat as Hn by lia. revert Hn.
  generalize (Z.to_nat d). intros k Hk. do 16 (destruct k as [|k]; [done|]). lia.
Qed.

Lemma escape_text s : str_text (escape s).
Proof.
  induction s as [|c s IH]; [apply st_nil|]. cbn [escape]. unfold escape_char.
  destruct (char_is c dquote) eqn:E1; [by apply st_escape|].
  destruct (char_is c backslash) eqn:E2; [by apply st_escape|].
  destruct (char_is c "010"); [by apply st_escape|]. destruct (char_is c "013"); [by apply st_escape|].
  destruct (char_is c "009"); [by apply st_escape|].
  destruct (Z.ltb_spec (code c) 32) as [Hlt|Hge]; [|by apply st_plain].
  assert (0 <= code c) by (unfold code; lia).
  apply st_unicode; [done|done|apply isxdigit_hex|apply isxdigit_hex|done]; dlia.
Qed.

Lemma elements_items ts :
  Forall (fun t => tree_ok t -> renders (json_of t) (tree_text t)) ts -> Forall tree_ok ts ->
  elements (json_of <$> ts) (items "]" (tree_text <$> ts)).
Proof.
  induction 1 as [|t ts Ht _ IH]; intros Hok; [by apply (e_nil EmptyString)|]. inversion Hok; subst.
  apply (e_cons EmptyString EmptyString); auto; done.
Qed.
Lemma members_items ms :
  Forall (fun kt => tree_ok (snd kt) -> renders (json_of (snd kt)) (tree_text (snd kt))) ms ->
  Forall (fun kt => str_text (fst kt) /\ tree_ok (snd kt)) ms ->
  members ((fun kt => (fst kt, json_of (snd kt))) <$> ms)
    (items "}" ((fun kt => quoted (fst kt) +:+ String ":" (tree_text (snd kt))) <$> ms)).
Proof.
  induction 1 as [|[k t] ms Ht _ IH]; intros Hok; [by apply (m_nil EmptyString)|]. inversion Hok as [|? ? [Hk Ho] Hr]; subst.
  apply (m_cons EmptyString EmptyString); [done|done|by apply (member_intro _ EmptyString EmptyString); auto|auto].
Qed.

Lemma tree_renders t : tree_ok t -> renders (json_of t) (tree_text t).
Proof.
  induction t as [|b|z|z|s|ts IH|ms IH] using tree_items_ind; intros Hok; inversion Hok as [| | | | |? Hts|? Hms]; subst.
  - apply r_null.
  - destruct b; constructor.
  - by apply r_number, itoa_number.
  - by apply r_number, utoa_number.
  - apply r_string, escape_text.
  - destruct IH as [|t ts Ht IHs]; [by apply (r_array_nil EmptyString)|]. inversion Hts; subst.
    apply (r_array EmptyString); [done|by apply Ht|by apply elements_items].
  - destruct IH as [|[k t] ms Ht IHs]; [by apply (r_object_nil EmptyString)|]. inversion Hms as [|? ? [Hk Ho] Hr]; subst.
    apply (r_object EmptyString); [done|by apply (member_intro _ EmptyString EmptyString); auto|by apply members_items].
Qed.

(** ** Reading numbers and strings back *)

Lemma digits_value_app s v : digits s -> digits_value s v = (dec s v, EmptyString).
Proof.
  revert v. induction s as [|ch s IH]; intros v; [done|]. intros [Hd Hs]. cbn [digits_value dec]. rewrite Hd, IH by done.
  unfold code, nat_of_ascii. by rewrite N_nat_Z.
Qed.

Lemma strto_utoa n : is_u64 n -> strto (utoa n) = Some (false, n) /\ strto (String "-" (utoa n)) = Some (true, n).
Proof.
  intros Hn. destruct (utoa_spec n Hn) as (Hdec & Had & _). apply all_digits_digits in Had.
  destruct (int_starts (utoa n) EmptyString (utoa_int n Hn)) as (ch & s & E & Hd). rewrite string_app_nil in E.
  assert (Hds : digits_value (utoa n) 0 = (n, EmptyString)) by (by rewrite digits_value_app, Hdec).
  assert (Hat : at_digit (utoa n) = true) by (by rewrite E).
  assert (Hne : char_is ch "+" = false /\ char_is ch "-" = false /\ isspace ch = false).
  { unfold isspace, is_ws. split_and!; by char_cases. }
  destruct Hne as (Hp & Hm & Hs). split.
  - unfold strto. assert (skip_space (utoa n) = utoa n) as -> by (rewrite E; cbn [skip_space]; by rewrite Hs).
    assert (skip_sign (utoa n) = utoa n) as -> by (rewrite E; cbn [skip_sign]; by rewrite Hp, Hm).
    rewrite Hat, Hds, E, Hm. done.
  - unfold strto. change (skip_space (String "-" (utoa n))) with (String "-" (utoa n)).
    change (skip_sign (String "-" (utoa n))) with (utoa n). by rewrite Hat, Hds.
Qed.

(** The part of a tree that a path of keys and indices leads to. *)
Fixpoint assoc (key : string) (ms : list (string * tree)) : option tree :=
  match ms with
  | [] => None
  | (k, t) :: ms => if negb (escaped k) && bool_decide (k = key) then Some t else assoc key ms
  end.
Fixpoint subtree (path : list json_query) (t : tree) : option tree :=
  match path with
  | [] => Some t
  | QUERY_KEY key :: path => match t with TObject ms => assoc key ms ≫= subtree path | _ => None end
  | QUERY_INDEX i :: path => match t with TArray ts => aget ts i ≫= subtree path | _ => None end
  | _ => None
  end.

(** ** The characters of a string

    What the characters between the quotes stand for (RFC 8259, section 7), in UTF-8.
    Of the escapes by number those of the surrogates are left out. *)

Definition hex_value (h : ascii) : option Z :=
  let c := code h in
  if (48 <=? c) && (c <=? 57) then Some (c - 48)
  else if (65 <=? c) && (c <=? 70) then Some (c - 55)
  else if (97 <=? c) && (c <=? 102) then Some (c - 87)
  else None.
Definition byte_char (b : Z) : ascii := Ascii.ascii_of_N (Z.to_N b).
Definition utf8 (u : Z) : option string :=
  if u <? 128 then Some (String (byte_char u) EmptyString)
  else if u <? 2048 then Some (String (byte_char (192 + u / 64)) (String (byte_char (128 + u mod 64)) EmptyString))
  else if (55296 <=? u) && (u <? 57344) then None
  else Some (String (byte_char (224 + u / 4096)) (String (byte_char (128 + (u / 64) mod 64)) (String (byte_char (128 + u mod 64)) EmptyString))).

(** The character of a two-character escape. *)
Definition escape_meaning (e : ascii) : option ascii :=
  if char_is e "n" then Some "010"%char
  else if char_is e "r" then Some "013"%char
  else if char_is e "t" then Some "009"%char
  else if char_is e "b" then Some "008"%char
  else if char_is e "f" then Some "012"%char
  else if char_is e "/" || char_is e backslash || char_is e dquote then Some e
  else None.

Fixpoint unescape (raw : string) : option string :=
  match raw with
  | EmptyString => Some EmptyString
  | String ch raw =>
      if char_is ch backslash then
        match raw with
        | EmptyString => None
        | String e raw =>
            if char_is e "u" then
              match raw with
              | String h1 (String h2 (String h3 (String h4 raw))) =>
                  a ← hex_value h1; b ← hex_value h2; c ← hex_value h3; d ← hex_value h4;
                  chars ← utf8 (4096 * a + 256 * b + 16 * c + d);
                  rest ← unescape raw; Some (chars +:+ rest)
              | _ => None
              end
            else ch ← escape_meaning e; rest ← unescape raw; Some (String ch rest)
        end
      else if char_is ch dquote || (code ch <? 32) then None
      else rest ← unescape raw; Some (String ch rest)
  end.

(** A string whose characters all stand for themselves. *)
Definition needs_no_escape (s : string) : Prop := all_chars (fun ch => negb (char_is ch dquote) && negb (char_is ch backslash) && (32 <=? code ch)) s.

Lemma control_code c : code c < 32 -> exists a b, hex_value (hex_digit (code c / 16)) = Some a /\ hex_value (hex_digit (code c mod 16)) = Some b /\ utf8 (16 * a + b) = Some (String c EmptyString).
Proof. intros Hc%Z.ltb_lt. destruct c as [[] [] [] [] [] [] [] []]; try discriminate Hc; eexists _, _; split_and!; vm_compute; reflexivity. Qed.
Lemma unescape_char c r : unescape (escape_char c +:+ r) = rest ← unescape r; Some (String c rest).
Proof.
  unfold escape_char. destruct (char_is c dquote) eqn:E1; [by apply Ascii.eqb_eq in E1 as ->|]. destruct (char_is c backslash) eqn:E2; [by apply Ascii.eqb_eq in E2 as ->|].
  destruct (char_is c "010") eqn:E3; [by apply Ascii.eqb_eq in E3 as ->|]. destruct (char_is c "013") eqn:E4; [by apply Ascii.eqb_eq in E4 as ->|]. destruct (char_is c "009") eqn:E5; [by apply Ascii.eqb_eq in E5 as ->|].
  destruct (Z.ltb_spec (code c) 32) as [Hc|Hc].
  - destruct (control_code c Hc) as (a & b & Ha & Hb & Hu). unfold hex4. rewrite !app_cons, app_nil_l. cbn [unescape]. change (char_is backslash backslash) with true. change (char_is "u" "u") with true. cbn match.
    change (hex_value "0") with (Some 0). cbn [mbind option_bind]. rewrite Ha. cbn [mbind option_bind]. rewrite Hb. cbn [mbind option_bind]. replace (4096 * 0 + 256 * 0 + 16 * a + b) with (16 * a + b) by lia. rewrite Hu. cbn [mbind option_bind].
    by destruct (unescape r).
  - rewrite app_cons, app_nil_l. cbn [unescape]. rewrite E1, E2, (proj2 (Z.ltb_ge _ _) Hc). done.
Qed.
Lemma unescape_escape s : unescape (escape s) = Some s.
Proof. induction s as [|c s IH]; [done|]. cbn [escape]. by rewrite unescape_char, IH. Qed.
Lemma escape_id s : needs_no_escape s -> escape s = s.
Proof.
  induction s as [|c s IH]; [done|]. intros [Hc Hs]. cbn [escape]. rewrite (IH Hs). rewrite !andb_true_iff in Hc. destruct Hc as [[H1%negb_true_iff H2%negb_true_iff] H3%Z.leb_le].
  unfold escape_char. rewrite H1, H2, (proj2 (Z.ltb_ge _ _) H3).
  assert (Hnot : forall d, code d < 32 -> char_is c d = false) by (intros d Hd; destruct (char_is c d) eqn:E; [apply Ascii.eqb_eq in E; subst d; lia|done]). by rewrite !Hnot by done.
Qed.

(** Reading a node gives what was written. *)
Definition reads_as (t : tree) (n : json_node) : Prop :=
  match t with
  | TNull => n_type n = JSON_NULL
  | TBool b => json_as_bool n = inr (if b then 1 else 0)
  | TInt z => json_as_int n = inr z
  | TUint z => json_as_uint n = inr z
  | TString s => n_type n = JSON_STRING /\ unescape (n_s n) = Some s /\ (needs_no_escape s -> json_str_eq n s = true)
  | TArray _ => n_type n = JSON_ARRAY
  | TObject _ => n_type n = JSON_OBJECT
  end.

Lemma lookup_assoc key ms :
  lookup_member key ((fun kt => (fst kt, json_of (snd kt))) <$> ms) = json_of <$> assoc key ms.
Proof.
  induction ms as [|[k t] ms IH]; [done|]. cbn [fmap list_fmap lookup_member assoc fst snd]. by case_match.
Qed.

Lemma aget_fmap {A B} (f : A -> B) l i : aget (f <$> l) i = f <$> aget l i.
Proof. unfold aget. destruct (0 <=? i); [|done]. apply list_lookup_fmap. Qed.

Lemma results_subtree sel path room t t' :
  subtree path t = Some t' -> results sel path room (json_of t) = ([json_of t'], None).
Proof.
  revert t. induction path as [|p path IH]; intros t; [by intros [= ->]|].
  destruct p as [key|i| |? ? ?]; try done; cbn [subtree results]; destruct t; try done; cbn [json_of].
  - rewrite lookup_assoc. destruct (assoc key ms); [|done]. apply IH.
  - rewrite aget_fmap. destruct (aget ts i); [|done]. apply IH.
Qed.

Lemma tests_subtree ok path t t' : subtree path t = Some t' -> tests_ok ok path (json_of t) = true.
Proof.
  revert t. induction path as [|p path IH]; intros t; [done|].
  destruct p as [key|i| |? ? ?]; try done; cbn [subtree tests_ok]; destruct t; try done; cbn [json_of].
  - rewrite lookup_assoc. destruct (assoc key ms); [|done]. apply IH.
  - rewrite aget_fmap. destruct (aget ts i); [|done]. apply IH.
Qed.

Lemma tree_ok_subtree path t t' : tree_ok t -> subtree path t = Some t' -> tree_ok t'.
Proof.
  revert t. induction path as [|p path IH]; intros t Hok; [by intros [= <-]|].
  destruct p as [key|i| |? ? ?]; try done; cbn [subtree]; destruct t as [| | | | |ts|ms]; try done; inversion Hok as [| | | | |? Hts|? Hms]; subst.
  - destruct (assoc key ms) as [x|] eqn:E; [|done]. apply IH. clear -E Hms.
    induction Hms as [|[k t] ms [_ Ht] _ IHm]; [done|]. cbn [assoc] in E. case_match; [by simplify_eq|auto].
  - destruct (aget ts i) as [x|] eqn:E; [|done]. apply IH. by eapply Forall_aget.
Qed.

Lemma escaped_plain s : escape s = s -> escaped s = false.
Proof.
  intros H. pose proof (escape_text s) as Ht. rewrite H in Ht. destruct (escaped s) eqn:E; [|done]. exfalso.
  clear Ht. assert (Hlen : forall u, (slen u <= slen (escape u))%nat /\ (escaped u = true -> (slen u < slen (escape u))%nat)).
  { induction u as [|c u [IH1 IH2]]; [done|]. unfold escaped in *. cbn [escape has_char]. rewrite slen_app. cbn [slen].
    assert (1 <= slen (escape_char c) /\ (char_is c backslash = true -> 2 <= slen (escape_char c)))%nat as [H1 H2].
    { unfold escape_char. destruct (char_is c dquote); [simpl; lia|]. destruct (char_is c backslash); [simpl; lia|].
      repeat (case_match; [simpl; lia|]). simpl. split; [lia|done]. }
    split; [lia|]. intros Hor. apply orb_true_iff in Hor as [Hc|Hu]; [specialize (H2 Hc)|specialize (IH2 Hu)]; lia. }
  destruct (Hlen s) as [_ Hl]. specialize (Hl E). rewrite H in Hl. lia.
Qed.

Lemma not_float_utoa n : is_u64 n -> is_float (utoa n) = false.
Proof. intros Hn. apply digits_not_float, all_digits_digits. by apply utoa_spec. Qed.

Lemma utoa_len n : is_u64 n -> 1 <= strlen (utoa n) <= 20.
Proof.
  intros Hn. destruct (utoa_spec n Hn) as (_ & _ & Hl). split; [|done].
  destruct (int_starts (utoa n) EmptyString (utoa_int n Hn)) as (ch & s & E & _). rewrite string_app_nil in E.
  rewrite E. unfold strlen. simpl. lia.
Qed.

Lemma as_int_itoa z : - 2 ^ 63 <= z < 2 ^ 63 -> json_as_int (Node JSON_NUMBER JSON_NODE_FLAG_NONE (itoa z)) = inr z.
Proof.
  intros Hz. set (m := Z.abs z). assert (Hm : is_u64 m) by (unfold m; clia).
  destruct (strto_utoa m Hm) as [E1 E2]. pose proof (utoa_len m Hm) as Hl.
  assert (Hst : strto (itoa z) = Some (z <? 0, m) /\ 1 <= strlen (itoa z) <= 21).
  { unfold itoa. destruct (Z.ltb_spec z 0).
    - replace (- z) with m by lia. split; [done|]. unfold strlen in *. simpl. lia.
    - replace z with m by lia. rewrite E1. split; [done|lia]. }
  destruct Hst as [Hst Hlen]. unfold json_as_int. cbn [n_type n_flag n_s].
  rewrite (bool_decide_true (JSON_NUMBER = _)), (bool_decide_false (_ = JSON_NODE_FLAG_NUM_FLOAT)) by done. cbn [negb].
  rewrite (proj2 (Z.eqb_neq _ _)), (proj2 (Z.leb_gt _ _)), Hst by lia. cbn [orb].
  replace (if z <? 0 then - m else m) with z by (destruct (Z.ltb_spec z 0); lia). unfold INT64_MIN, INT64_MAX.
  by rewrite !(proj2 (Z.ltb_ge _ _)) by lia.
Qed.

Lemma as_uint_utoa n : is_u64 n -> json_as_uint (Node JSON_NUMBER JSON_NODE_FLAG_NONE (utoa n)) = inr n.
Proof.
  intros Hn. destruct (strto_utoa n Hn) as [E1 _]. pose proof (utoa_len n Hn) as Hl. unfold json_as_uint.
  cbn [n_type n_flag n_s].
  rewrite (bool_decide_true (JSON_NUMBER = _)), (bool_decide_false (_ = JSON_NODE_FLAG_NUM_FLOAT)) by done. cbn [negb].
  destruct (int_starts (utoa n) EmptyString (utoa_int n Hn)) as (ch & s & E & Hd). rewrite string_app_nil in E.
  assert (match utoa n with String ch _ => char_is ch "-" | EmptyString => false end = false) as ->.
  { rewrite E. by char_cases. }
  rewrite (proj2 (Z.eqb_neq _ _)), (proj2 (Z.leb_gt _ _)), E1 by lia. cbn [orb].
  by rewrite (proj2 (Z.ltb_ge _ _)) by clia.
Qed.

Lemma not_float_itoa z : - 2 ^ 63 <= z < 2 ^ 63 -> is_float (itoa z) = false.
Proof.
  intros Hz. unfold itoa. destruct (Z.ltb_spec z 0); [|apply not_float_utoa; clia].
  change (is_float (String "-" (utoa (- z)))) with (is_float (utoa (- z))). apply not_float_utoa. clia.
Qed.

Lemma node_reads t n : tree_ok t -> is_node (json_of t) n -> reads_as t n.
Proof.
  intros Hok (s & Hr & ->). destruct t as [|b|z|z|u|ts|ms]; inversion Hok; subst; cbn [reads_as json_of node_of] in *; try done.
  - by inversion Hr.
  - inversion Hr; subst. rewrite not_float_itoa by done. by apply as_int_itoa.
  - inversion Hr; subst. rewrite not_float_utoa by done. by apply as_uint_utoa.
  - split_and!; [done|apply unescape_escape|]. intros E%escape_id. rewrite E, (escaped_plain u E). unfold json_str_eq. cbn [n_type n_flag n_s].
    by rewrite !bool_decide_false, bool_decide_true by (done || by intros []).
Qed.

Lemma json_write_reads malloc sb t :
  sb_ok sb -> strbuf_cstr sb = "" -> tree_ok t -> strlen (tree_text t) <= INT_MAX ->
  exists jw, write_tree malloc t (jw_init sb) = Some jw /\
    (jw_error jw = true -> exists n, malloc n = false) /\
    (jw_error jw = false -> strbuf_cstr (jw_sb jw) = tree_text t /\
      forall path t', subtree path t = Some t' ->
      exists n, json_resolve (strbuf_cstr (jw_sb jw)) path = Some (inr n, None) /\ reads_as t' n).
Proof.
  intros Hsb Hnil Hok Hlen. destruct (emits_tree malloc t false (jw_init sb)) as (jw & E & _ & _ & Ht & He); [done|done| |].
  { intros _. cbn [jw_init jw_sb comma]. rewrite Hnil, app_nil_l. unfold INT_MAX in Hlen.
    change (strlen "") with 0. clear -Hlen. assert (2 ^ 31 < 2 ^ 62) by done. lia. }
  exists jw. split; [done|]. split; [intros Hf; by destruct (He Hf)|]. intros Hf. destruct (Ht Hf) as [_ Hc].
  cbn [jw_init jw_sb comma] in Hc. rewrite Hnil, !app_nil_l in Hc. split; [done|]. intros path t' Hsub. rewrite Hc.
  destruct (json_resolve_answers path (json_of t) "" (tree_text t) "") as (res & err & ER & Ha & _);
    [by eapply tests_subtree|by apply tree_renders|done|done|by rewrite app_nil_l, string_app_nil|].
  rewrite app_nil_l, string_app_nil in ER. unfold query_results in Ha.
  rewrite (results_subtree _ path _ t t' Hsub) in Ha. destruct Ha as (n & -> & Hn). exists n.
  split; [|by apply node_reads; [eapply tree_ok_subtree|]]. rewrite ER. f_equal. f_equal.
  unfold json_resolve in ER. destruct (resolve_with _ _ _) as [[[e|n'] c]|]; by simplify_eq/=.
Qed.

(** C32: a document written with the [jw_*] calls into an empty buffer is, unless an
    allocation failed, exactly its text, and reading that text back at any path of
    keys and indices gives what was written there: every integer, unsigned integer
    and boolean with its value, every string as characters whose escapes decode to it
    (and equal to itself when it needs no escape), and containers with their type. *)
Theorem json_write_then_read malloc sb t :
  sb_ok sb -> strbuf_cstr sb = "" -> tree_ok t -> strlen (tree_text t) <= INT_MAX ->
  exists jw, write_tree malloc t (jw_init sb) = Some jw /\
    (jw_error jw = true -> exists n, malloc n = false) /\
    (jw_error jw = false -> strbuf_cstr (jw_sb jw) = tree_text t /\
      forall path t', subtree path t = Some t' ->
      exists n, json_resolve (strbuf_cstr (jw_sb jw)) path = Some (inr n, None) /\ reads_as t' n).
Proof. apply json_write_reads. Qed.

(** A string with a quote, a line feed, a tab, a backslash and a control character. *)
Definition ex_string : string := String dquote (String "010" (String "009" (String backslash (String "001" "x")))).
Definition ex_tree : tree := TObject [("id", TUint 7); ("at", TArray [TInt (-3); TString ex_string])].

Lemma json_write_then_read_witness :
  tree_ok ex_tree /\ exists jw, write_tree (fun _ => true) ex_tree (jw_init strbuf_zero) = Some jw /\
    exists n, json_resolve (strbuf_cstr (jw_sb jw)) [QUERY_KEY "at"; QUERY_INDEX 1] = Some (inr n, None) /\
      n_type n = JSON_STRING /\ unescape (n_s n) = Some ex_string.
Proof.
  assert (Hok : tree_ok ex_tree).
  { apply ok_object. repeat apply Forall_cons_2; [| |apply Forall_nil_2]; (split; [repeat (apply st_plain; [done..|]); apply st_nil|]).
    - apply ok_uint. done.
    - apply ok_array. repeat apply Forall_cons_2; [by apply ok_int|apply ok_string|apply Forall_nil_2]. }
  split; [exact Hok|].
  destruct (json_write_then_read (fun _ => true) strbuf_zero ex_tree) as (jw & E & Hf & Hread); [done|done|exact Hok|by vm_compute|]. exists jw. split; [exact E|].
  assert (Hno : jw_error jw = false) by (destruct (jw_error jw); [destruct (Hf eq_refl) as [n Hn]; discriminate Hn|reflexivity]).
  destruct (Hread Hno) as [_ Hpath]. destruct (Hpath [QUERY_KEY "at"; QUERY_INDEX 1] (TString ex_string)) as (n & Hn & Ht & Hu & _); [reflexivity|]. exists n. split; [exact Hn|]. split; [exact Ht|exact Hu].
Defined.
