(* ===== verification/ZarrMeta.v ===== *)
(** * Reading array metadata

    [zarr_metadata_parse] of [src/src/zarr/zarr_metadata.c]: a zarr v3 [zarr.json]
    becomes the record of [Plan.v]. The inner [None] of a result is the failure
    return; arrays have all their [DAMACY_MAX_RANK] entries, zero past the rank.
    Doubles are their 64-bit patterns; [strtod] is the library's conversion, [None]
    when it reports an error or stops early. *)

From Stdlib Require Import Ascii SpecFloat.
From stdpp Require Import strings.
From S2P Require Import Prelude Selection Strbuf Plan Json.

#[local] Open Scope Z_scope.

Definition DAMACY_MAX_DTYPE_BYTES : Z := 8.

(** ** Floating point, on bit patterns *)

(** The binary32 pattern of a rounded value. *)
Definition bits32 (f : spec_float) : Z :=
  match f with
  | S754_zero s => if s then 2 ^ 31 else 0
  | S754_infinity s => (if s then 2 ^ 31 else 0) + Z.shiftl 255 23
  | S754_nan => Z.shiftl 255 23 + 2 ^ 22
  | S754_finite s m e =>
      (if s then 2 ^ 31 else 0) +
      (if Z.pos m <? 2 ^ 23 then Z.pos m else Z.shiftl (e + 150) 23 + (Z.pos m - 2 ^ 23))
  end.

(** [(float)v]: round to nearest even; a NaN stays one, with its sign. *)
Definition to_float (v : Z) : Z :=
  let s := Z.testbit v 63 in
  let e := Z.land (Z.shiftr v 52) 0x7FF in
  let m := Z.land v (2 ^ 52 - 1) in
  let sign := if s then 2 ^ 31 else 0 in
  if e =? 0x7FF then sign + Z.shiftl 255 23 + (if m =? 0 then 0 else Z.lor (Z.shiftr m 29) (2 ^ 22))
  else if (e =? 0) && (m =? 0) then sign
  else
    let mant := if e =? 0 then m else m + 2 ^ 52 in
    let exp := if e =? 0 then - 1074 else e - 1075 in
    bits32 (binary_normalize 24 128 (if s then - mant else mant) exp s).

Definition float_to_half_bits (f_bits : Z) : Z :=
  let sign := Z.land (Z.shiftr f_bits 31) 1 in
  let e := Z.land (Z.shiftr f_bits 23) 0xFF - 127 in
  let m := Z.land f_bits 0x7FFFFF in
  if Z.land (Z.shiftr f_bits 23) 0xFF =? 0xFF then
    u16 (Z.lor (Z.lor (Z.shiftl sign 15) (Z.shiftl 31 10)) (if m =? 0 then 0 else 0x200))
  else if Z.land f_bits 0x7FFFFFFF =? 0 then u16 (Z.shiftl sign 15)
  else if 15 <? e then u16 (Z.lor (Z.shiftl sign 15) (Z.shiftl 31 10))
  else if e <? -14 then u16 (Z.shiftl sign 15)
  else u16 (Z.lor (Z.lor (Z.shiftl sign 15) (Z.shiftl (e + 15) 10)) (Z.shiftr (m + 0x1000) 13)).

(** ** Numbers and bytes *)

Fixpoint pack_loop (n : nat) (dst : list Z) (v i : Z) : option (list Z) :=
  match n with
  | O => Some dst
  | S n => dst ← aset dst i (u8 (Z.shiftr v (8 * i))); pack_loop n dst v (i + 1)
  end.
Definition pack_le (dst : list Z) (v n : Z) : option (list Z) := pack_loop (Z.to_nat n) dst v 0.

(** The elements collected in [out], and how many. *)
Fixpoint read_uint_loop (fuel : nat) (it : json_iter) (out : list Z) (n max_rank : Z) : option (option (list Z * Z)) :=
  match fuel with
  | O => None
  | S fuel =>
      r ← json_iter_next it;
      match r with
      | (inl JSON_ERR_NOT_FOUND, _) => if n =? 0 then Some None else Some (Some (out, u8 n))
      | (inl _, _) => Some None
      | (inr v, it) =>
          if max_rank <=? n then Some None
          else
            match json_as_uint v with
            | inl _ => Some None
            | inr x => out ← aset out n x; read_uint_loop fuel it out (n + 1) max_rank
            end
      end
  end.
(** The loop stops at the latest at the element past [max_rank]. *)
Definition read_uint_array (arr : json_node) (out : list Z) (max_rank : Z) : option (option (list Z * Z)) :=
  if negb (bool_decide (n_type arr = JSON_ARRAY)) then Some None
  else read_uint_loop (Z.to_nat max_rank + 2) (json_iter_init (n_s arr) [QUERY_ITER]) out 0 max_rank.

(** ** Fill values *)

Section fill.
Variable strtod : string -> option Z.

Definition json_as_double (n : json_node) : jres Z :=
  if negb (bool_decide (n_type n = JSON_NUMBER)) then inl JSON_ERR_TYPE
  else
    let len := strlen (n_s n) in
    if (len =? 0) || (64 <=? len) then inl JSON_ERR_RANGE
    else match strtod (n_s n) with None => inl JSON_ERR_RANGE | Some v => inr v end.

(** [NAN] and [INFINITY] as doubles. *)
Definition NAN_bits : Z := 0x7FF8000000000000.
Definition INFINITY_bits : Z := 0x7FF0000000000000.

Definition parse_float_special (n : json_node) (dt : zdtype) (out : list Z) : option (option (list Z)) :=
  if bool_decide (n_type n <> JSON_STRING) || bool_decide (n_flag n = JSON_NODE_FLAG_STR_ESCAPED) then Some None
  else
    let '(negative, s) :=
      match n_s n with
      | String ch s => if char_is ch "-" then (true, s) else if char_is ch "+" then (false, s) else (false, n_s n)
      | EmptyString => (false, n_s n)
      end in
    let v := if bool_decide (s = "NaN") then Some NAN_bits
             else if bool_decide (s = "Infinity") then Some INFINITY_bits else None in
    match v with
    | None => Some None
    | Some v =>
        let v := if negative : bool then Z.lxor v (2 ^ 63) else v in
        match dt with
        | dtype_f16 => out ← pack_le out (float_to_half_bits (to_float v)) 2; Some (Some out)
        | dtype_f32 => out ← pack_le out (to_float v) 4; Some (Some out)
        | dtype_f64 => out ← pack_le out v 8; Some (Some out)
        | _ => Some None
        end
    end.

Definition parse_fill_value (n : json_node) (dt : zdtype) (out : list Z) (bpe : Z) : option (option (list Z)) :=
  if (bpe =? 0) || (DAMACY_MAX_DTYPE_BYTES <? bpe) then Some None
  else
    out ← array_fill (Z.to_nat bpe) out 0 0;
    match dt with
    | dtype_u8 | dtype_u16 | dtype_u32 | dtype_u64 =>
        match json_as_uint n with
        | inl _ => Some None
        | inr v => out ← pack_le out v bpe; Some (Some out)
        end
    | dtype_i8 | dtype_i16 | dtype_i32 | dtype_i64 =>
        match json_as_int n with
        | inl _ => Some None
        | inr v => out ← pack_le out (u64 v) bpe; Some (Some out)
        end
    | dtype_f16 =>
        match n_type n, json_as_double n with
        | JSON_NUMBER, inr v => out ← pack_le out (float_to_half_bits (to_float v)) 2; Some (Some out)
        | _, _ => parse_float_special n dtype_f16 out
        end
    | dtype_f32 =>
        if bool_decide (n_type n = JSON_NUMBER) then
          match json_as_double n with
          | inl _ => Some None
          | inr v => out ← pack_le out (to_float v) 4; Some (Some out)
          end
        else parse_float_special n dtype_f32 out
    | dtype_f64 =>
        if bool_decide (n_type n = JSON_NUMBER) then
          match json_as_double n with
          | inl _ => Some None
          | inr v => out ← pack_le out v 8; Some (Some out)
          end
        else parse_float_special n dtype_f64 out
    end.

(** ** Types and codecs *)

Definition dtype_table : list (string * zdtype) :=
  [("uint8", dtype_u8); ("uint16", dtype_u16); ("uint32", dtype_u32); ("uint64", dtype_u64);
   ("int8", dtype_i8); ("int16", dtype_i16); ("int32", dtype_i32); ("int64", dtype_i64);
   ("float16", dtype_f16); ("float32", dtype_f32); ("float64", dtype_f64)].
Fixpoint dtype_from_table (table : list (string * zdtype)) (s : string) : option zdtype :=
  match table with
  | [] => None
  | (name, dt) :: table => if bool_decide (name = s) then Some dt else dtype_from_table table s
  end.
Definition dtype_from_zarr_string (s : string) : option zdtype := dtype_from_table dtype_table s.

Definition parse_data_type (n : json_node) : option zdtype :=
  if bool_decide (n_type n <> JSON_STRING) then None
  else if bool_decide (n_flag n = JSON_NODE_FLAG_STR_ESCAPED) then None
  else dtype_from_zarr_string (n_s n).

(** [json_resolve] with a null [err]. *)
Definition resolve (src : string) (parts : list json_query) : option (jres json_node) :=
  r ← json_resolve src parts; Some (fst r).

Definition resolve_blosc_cname (codec_obj : json_node) : option (option compression_codec) :=
  r ← resolve (n_s codec_obj) [QUERY_KEY "configuration"; QUERY_KEY "cname"];
  match r with
  | inl _ => Some None
  | inr cname =>
      if negb (bool_decide (n_type cname = JSON_STRING)) then Some None
      else if json_str_eq cname "lz4" || json_str_eq cname "lz4hc" then Some (Some CODEC_BLOSC_LZ4)
      else if json_str_eq cname "zstd" then Some (Some CODEC_BLOSC_ZSTD)
      else Some None
  end.

Fixpoint inner_codec_loop (fuel : nat) (it : json_iter) : option (option compression_codec) :=
  match fuel with
  | O => None
  | S fuel =>
      r ← json_iter_next it;
      match r with
      | (inl JSON_ERR_NOT_FOUND, _) => Some (Some CODEC_NONE)
      | (inl _, _) => Some None
      | (inr c, it) =>
          if negb (bool_decide (n_type c = JSON_OBJECT)) then Some None
          else
            q ← resolve (n_s c) [QUERY_KEY "name"];
            match q with
            | inl _ => Some None
            | inr name =>
                if negb (bool_decide (n_type name = JSON_STRING)) then Some None
                else if json_str_eq name "bytes" then inner_codec_loop fuel it
                else if json_str_eq name "zstd" then Some (Some CODEC_ZSTD)
                else if json_str_eq name "blosc" then resolve_blosc_cname c
                else Some None
            end
      end
  end.
(** Every call after the first consumes a byte. *)
Definition parse_inner_codec (codecs_arr : json_node) : option (option compression_codec) :=
  if negb (bool_decide (n_type codecs_arr = JSON_ARRAY)) then Some None
  else inner_codec_loop (S (S (String.length (n_s codecs_arr)))) (json_iter_init (n_s codecs_arr) [QUERY_ITER]).

(** ** The document *)

Definition sharding_path : list json_query :=
  [QUERY_KEY "codecs"; QUERY_ITER; QUERY_WHERE [QUERY_KEY "name"] "sharding_indexed" JSON_STRING].

Notation zeros := (replicate (Z.to_nat DAMACY_MAX_RANK) 0).

(** An optional step: the failure return when it fails. *)
Notation "'try' x <- m ; k" := (r__ ← m; match r__ with None => Some None | Some x => k end)
  (at level 200, x binder, right associativity).
Notation "'ask' x <- m ; k" := (r__ ← m; match r__ with inl _ => Some None | inr x => k end)
  (at level 200, x binder, right associativity).

(** [shape[d] % inner[d] == 0], and no zero. *)
Fixpoint multiples_loop (n : nat) (shard inner : list Z) (d : Z) : option bool :=
  match n with
  | O => Some true
  | S n =>
      c ← aget inner d; s ← aget shard d;
      if (c =? 0) || negb (s mod c =? 0) then Some false else multiples_loop n shard inner (d + 1)
  end.

(** [inner[d] = shard[d]] below the rank. *)
Fixpoint copy_loop (n : nat) (src dst : list Z) (d : Z) : option (list Z) :=
  match n with
  | O => Some dst
  | S n => x ← aget src d; dst ← aset dst d x; copy_loop n src dst (d + 1)
  end.

(** What the two kinds of array leave in [out]: inner shape, codec and whether the
    index is a footer. *)
Definition parse_sharded (sharding : json_node) (rank : Z) : option (option (list Z * compression_codec * bool)) :=
  ask n <- resolve (n_s sharding) [QUERY_KEY "configuration"; QUERY_KEY "chunk_shape"];
  try ir <- read_uint_array n zeros DAMACY_MAX_RANK;
  if negb (snd ir =? rank) then Some None
  else
    ask n <- resolve (n_s sharding) [QUERY_KEY "configuration"; QUERY_KEY "codecs"];
    try codec <- parse_inner_codec n;
    q ← resolve (n_s sharding) [QUERY_KEY "configuration"; QUERY_KEY "index_location"];
    Some (Some (fst ir, codec, match q with inr n => negb (json_str_eq n "start") | inl _ => true end)).

Definition parse_plain (all : string) (rank : Z) (shard : list Z) : option (option (list Z * compression_codec * bool)) :=
  inner ← copy_loop (Z.to_nat rank) shard zeros 0;
  ask codecs <- resolve all [QUERY_KEY "codecs"];
  try codec <- parse_inner_codec codecs;
  Some (Some (inner, codec, true)).

(** The fill value: zeros when the document has none. *)
Definition parse_fill (all : string) (dt : zdtype) : option (option (list Z)) :=
  let zero := replicate (Z.to_nat DAMACY_MAX_DTYPE_BYTES) 0 in
  let bpe := dtype_bpe dt in
  if (bpe =? 0) || (DAMACY_MAX_DTYPE_BYTES <? bpe) then Some None
  else
    q ← resolve all [QUERY_KEY "fill_value"];
    match q with
    | inr n => parse_fill_value n dt zero bpe
    | inl _ => Some (Some zero)
    end.

Definition zarr_metadata_parse (all : string) : option (option zarr_metadata) :=
  ask n <- resolve all [QUERY_KEY "node_type"];
  if negb (json_str_eq n "array") then Some None
  else
    ask n <- resolve all [QUERY_KEY "zarr_format"];
    if negb (bool_decide (json_as_int n = inr 3)) then Some None
    else
      ask n <- resolve all [QUERY_KEY "shape"];
      try sr <- read_uint_array n zeros DAMACY_MAX_RANK;
      ask n <- resolve all [QUERY_KEY "data_type"];
      match parse_data_type n with
      | None => Some None
      | Some dt =>
          try fill <- parse_fill all dt;
          ask n <- resolve all [QUERY_KEY "chunk_grid"; QUERY_KEY "configuration"; QUERY_KEY "chunk_shape"];
          try cr <- read_uint_array n zeros DAMACY_MAX_RANK;
          if negb (snd cr =? snd sr) then Some None
          else
            sharding ← resolve all sharding_path;
            match sharding with
            | inl e =>
                if bool_decide (e = JSON_ERR_NOT_FOUND) then
                  try r <- parse_plain all (snd sr) (fst cr);
                  let '(inner, codec, footer) := (r : list Z * compression_codec * bool) in
                  ok ← multiples_loop (Z.to_nat (snd sr)) (fst cr) inner 0;
                  Some (if ok : bool then Some (Meta dt (snd sr) (fst sr) inner (fst cr) false codec footer fill) else None)
                else Some None
            | inr sh =>
                try r <- parse_sharded sh (snd sr);
                let '(inner, codec, footer) := (r : list Z * compression_codec * bool) in
                ok ← multiples_loop (Z.to_nat (snd sr)) (fst cr) inner 0;
                Some (if ok : bool then Some (Meta dt (snd sr) (fst sr) inner (fst cr) true codec footer fill) else None)
            end
      end.
End fill.
