(* ===== verification/ZarrMetaProof.v ===== *)
(** * Metadata parsing is correct

    [parse_doc] reads array metadata off the tree of a [zarr.json], with definitions of
    its own for types, integers, special values, fill bytes and the rounding of halves;
    [zarr_metadata_parse] on the text of a document is [parse_doc] of its tree
    ([parse_document]), up to the half-precision fill values whose carry
    [float_to_half_bits] loses. *)

From Stdlib Require Import Ascii.
From stdpp Require Import strings.
From S2P Require Import Prelude Selection Strbuf Plan Json JsonTotal JsonSpec JsonQuery JsonWriter ZarrMeta Convert.

#[local] Open Scope Z_scope.

(** The node of a scalar, whose text is determined. *)
Definition scalar_node (v : json) : json_node :=
  node_of v (match v with JNumber lit => lit | JBool b => if b then "true" else "false" | _ => "" end).

(** The first result of a query. *)
Definition first_result (parts : list json_query) (v : json) : jres json :=
  match query_results parts v with
  | (x :: _, _) => inr x
  | ([], Some e) => inl e
  | ([], None) => inl JSON_ERR_NOT_FOUND
  end.
Definition value_at (keys : list string) (v : json) : option json :=
  match first_result (QUERY_KEY <$> keys) v with inr x => Some x | inl _ => None end.

(** ** Scalars *)

(** A string that is spelled like [lit]. *)
Definition is_text (v : json) (lit : string) : bool := match v with JString raw => negb (escaped raw) && bool_decide (raw = lit) | _ => false end.

(** The integer a literal of fewer than 64 characters spells. *)
Definition negative (lit : string) : bool := match lit with String ch _ => char_is ch "-" | EmptyString => false end.
Definition integer (v : json) : option Z :=
  match v with
  | JNumber lit =>
      if is_float lit || (64 <=? strlen lit) then None
      else Some (match lit with String ch rest => if char_is ch "-" then - dec rest 0 else dec lit 0 | EmptyString => 0 end)
  | _ => None
  end.
(** A 64-bit one: without a sign, or a signed one. *)
Definition as_uint (v : json) : option Z :=
  match v with
  | JNumber lit => if negative lit then None else x ← integer v; if x <=? UINT64_MAX then Some x else None
  | _ => None
  end.
Definition as_int (v : json) : option Z := x ← integer v; if (- 2 ^ 63 <=? x) && (x <? 2 ^ 63) then Some x else None.

(** Types and their names. *)
Definition dtype_text (dt : zdtype) : string :=
  match dt with
  | dtype_u8 => "uint8" | dtype_u16 => "uint16" | dtype_u32 => "uint32" | dtype_u64 => "uint64"
  | dtype_i8 => "int8" | dtype_i16 => "int16" | dtype_i32 => "int32" | dtype_i64 => "int64"
  | dtype_f16 => "float16" | dtype_f32 => "float32" | dtype_f64 => "float64"
  end.
Definition signed (dt : zdtype) : bool :=
  match dt with dtype_i8 | dtype_i16 | dtype_i32 | dtype_i64 => true | _ => false end.
Definition is_float_type (dt : zdtype) : bool :=
  match dt with dtype_f16 | dtype_f32 | dtype_f64 => true | _ => false end.
Definition width (dt : zdtype) : Z :=
  match dt with
  | dtype_u8 | dtype_i8 => 1
  | dtype_u16 | dtype_i16 | dtype_f16 => 2
  | dtype_u32 | dtype_i32 | dtype_f32 => 4
  | dtype_u64 | dtype_i64 | dtype_f64 => 8
  end.
Definition all_dtypes : list zdtype :=
  [dtype_f64; dtype_f32; dtype_f16; dtype_i64; dtype_i32; dtype_i16; dtype_i8; dtype_u64; dtype_u32; dtype_u16; dtype_u8].
Definition type_of (v : json) : option zdtype := find (fun dt => is_text v (dtype_text dt)) all_dtypes.

(** *** Half precision

    The half float nearest to a float [f], ties away from zero, by value: [x] is the
    magnitude of [f] in units of [2 ^ -149]. A float below the normal halves becomes a
    zero, one from [2 ^ 16] on an infinity. *)
Definition half_of (f : Z) : Z :=
  let sign := (f / 2 ^ 31) mod 2 * 2 ^ 15 in
  let r := f mod 2 ^ 31 in
  let x := f32_mag r in
  if f32_inf <? r then sign + 0x7e00
  else if x <? 2 ^ 135 then sign
  else if 2 ^ 165 <=? x then sign + 0x7c00
  else
    let e := Z.log2 x in
    let ulp := 2 ^ (e - 10) in
    sign + (e - 134) * 1024 + ((2 * x + ulp) / (2 * ulp) - 1024).

(** The floats for which [float_to_half_bits] is wrong: those that round up to the next
    power of two, from a binade with an odd exponent field, whose carry is lost. *)
Definition carry_lost (f : Z) : bool :=
  let e := f / 2 ^ 23 mod 2 ^ 8 in
  (113 <=? e) && (e <=? 142) && Z.odd e && (0x7ff000 <=? f mod 2 ^ 23).

(** *** Fill values *)

(** [NaN] and [Infinity] with an optional sign: negative, and not a number. *)
Definition special_names : list (string * (bool * bool)) :=
  [("NaN", (false, true)); ("+NaN", (false, true)); ("-NaN", (true, true));
   ("Infinity", (false, false)); ("+Infinity", (false, false)); ("-Infinity", (true, false))].
Definition special (v : json) : option (bool * bool) := snd <$> find (fun s => is_text v (fst s)) special_names.
Definition special_bits (dt : zdtype) (s : bool * bool) : Z :=
  match dt with
  | dtype_f16 => (if fst s then 2 ^ 15 else 0) + (if snd s then 0x7e00 else 0x7c00)
  | dtype_f32 => (if fst s then 2 ^ 31 else 0) + (if snd s then 0x7fc00000 else 0x7f800000)
  | _ => (if fst s then 2 ^ 63 else 0) + (if snd s then 0x7ff8000000000000 else 0x7ff0000000000000)
  end.

(** The low [k] bytes of [x], little-endian, in eight. *)
Definition fill_bytes (k x : Z) : list Z := ((fun i => (x / 256 ^ i) mod 256) <$> seqZ 0 k) ++ replicate (Z.to_nat (8 - k)) 0.

(** A list of extents, at most [DAMACY_MAX_RANK] of them and at least one, and the
    array that holds it. *)
Definition extents (v : json) : option (list Z) :=
  match v with
  | JArray vs =>
      if (0 <? zlen vs) && (zlen vs <=? DAMACY_MAX_RANK) then mapM as_uint vs else None
  | _ => None
  end.
Definition padded (l : list Z) : list Z := l ++ replicate (Z.to_nat (DAMACY_MAX_RANK - zlen l)) 0.

Definition blosc_codec (c : json) : option compression_codec :=
  cname ← value_at ["configuration"; "cname"] c;
  if is_text cname "lz4" || is_text cname "lz4hc" then Some CODEC_BLOSC_LZ4
  else if is_text cname "zstd" then Some CODEC_BLOSC_ZSTD
  else None.

(** The first codec other than the byte order decides. *)
Fixpoint codec_of (cs : list json) : option compression_codec :=
  match cs with
  | [] => Some CODEC_NONE
  | (JObject _ as c) :: cs =>
      name ← value_at ["name"] c;
      if is_text name "bytes" then codec_of cs
      else if is_text name "zstd" then Some CODEC_ZSTD
      else if is_text name "blosc" then blosc_codec c
      else None
  | _ => None
  end.
Definition codecs_of (v : json) : option compression_codec := match v with JArray cs => codec_of cs | _ => None end.

Definition divides_all (shard inner : list Z) : bool :=
  forallb (fun sc => negb (snd sc =? 0) && (fst sc mod snd sc =? 0)) (zip shard inner).

Section doc.
Variable strtod : string -> option Z.

(** The double nearest to a literal of fewer than 64 characters. *)
Definition as_double (lit : string) : option Z := if 64 <=? strlen lit then None else strtod lit.
(** A number of the type: integers modulo its width, floats rounded to it. *)
Definition fill_value (x : json) (dt : zdtype) : option (list Z) :=
  bits ← (if is_float_type dt then
            match x with
            | JNumber lit =>
                d ← as_double lit;
                Some (match dt with dtype_f16 => half_of (to_float d) | dtype_f32 => to_float d | _ => d end)
            | _ => special_bits dt <$> special x
            end
          else if signed dt then as_int x else as_uint x);
  Some (fill_bytes (width dt) bits).

(** The eight fill bytes. *)
Definition fill_of (v : json) (dt : zdtype) : option (list Z) :=
  match value_at ["fill_value"] v with None => Some (replicate 8 0) | Some x => fill_value x dt end.

(** Inner shape, codec and footer flag of a sharded array from its sharding codec. *)
Definition sharded_of (sharding : json) (rank : nat) : option (list Z * compression_codec * bool) :=
  inner ← value_at ["configuration"; "chunk_shape"] sharding ≫= extents;
  if negb (length inner =? rank)%nat then None
  else
    codec ← value_at ["configuration"; "codecs"] sharding ≫= codecs_of;
    Some (inner, codec,
      match value_at ["configuration"; "index_location"] sharding with Some x => negb (is_text x "start") | None => true end).

Definition plain_of (v : json) (shard : list Z) : option (list Z * compression_codec * bool) :=
  codec ← value_at ["codecs"] v ≫= codecs_of; Some (shard, codec, true).

Definition parse_doc (v : json) : option zarr_metadata :=
  node_type ← value_at ["node_type"] v;
  format ← value_at ["zarr_format"] v;
  if negb (is_text node_type "array") || negb (bool_decide (as_int format = Some 3)) then None
  else
    shp ← value_at ["shape"] v ≫= extents;
    dt ← value_at ["data_type"] v ≫= type_of;
    fill ← fill_of v dt;
    shard ← value_at ["chunk_grid"; "configuration"; "chunk_shape"] v ≫= extents;
    if negb (length shard =? length shp)%nat then None
    else
      r ← match first_result [QUERY_KEY "codecs"; QUERY_ITER; QUERY_WHERE [QUERY_KEY "name"] "sharding_indexed" JSON_STRING] v with
          | inr sh => r ← sharded_of sh (length shp); Some (true, r)
          | inl JSON_ERR_NOT_FOUND => r ← plain_of v shard; Some (false, r)
          | inl _ => None
          end;
      let '(is_sharded, (inner, codec, footer)) := (r : bool * (list Z * compression_codec * bool)) in
      if divides_all shard inner
      then Some (Meta dt (zlen shp) (padded shp) (padded inner) (padded shard) is_sharded codec footer fill)
      else None.

(** No half-precision fill value is one that [float_to_half_bits] gets wrong. *)
Definition half_exact (v : json) : Prop :=
  forall x lit d, value_at ["data_type"] v = Some x -> type_of x = Some dtype_f16 -> value_at ["fill_value"] v = Some (JNumber lit) ->
    strtod lit = Some d -> carry_lost (to_float d) = false.
End doc.

(** ** Queries on texts *)

(** A source with the text of [v], short enough to be read. *)
Definition text_of (v : json) (src : string) : Prop :=
  (exists w s r, src = w +:+ s +:+ r /\ renders v s /\ ws w /\ follows r) /\ (slen src <= MAXLEN)%nat.
Lemma text_exact v s : renders v s -> (slen s <= MAXLEN)%nat -> text_of v s.
Proof. intros Hr Hl. split; [|done]. exists "", s, "". by rewrite app_nil_l, string_app_nil. Qed.
Lemma maxlen_int s : (slen s <= MAXLEN)%nat -> strlen s <= INT_MAX.
Proof. unfold strlen, MAXLEN, INT_MAX. lia. Qed.
(** A node of [v] with a short text. *)
Definition node_for (v : json) (n : json_node) : Prop := is_node v n /\ (slen (n_s n) <= MAXLEN)%nat.

Definition asked (r : jres json) (res : jres json_node) : Prop :=
  match r with inr x => exists n, res = inr n /\ node_for x n | inl e => res = inl e end.

Lemma tests_keys ok keys v : tests_ok ok (QUERY_KEY <$> keys) v = true.
Proof. revert v. induction keys as [|k keys IH]; intros v; [done|]. csimpl. cbn [tests_ok]. destruct v as [| | | | |ms]; try done. by destruct (lookup_member k ms). Qed.
Lemma tests_sharding v : query_ok sharding_path v = true.
Proof.
  unfold query_ok, sharding_path. cbn [tests_ok parts_depth foldr query_depth Nat.max]. destruct v as [| | | | |ms]; try done. destruct (lookup_member _ ms) as [[| | | |vs|]|]; try done.
  apply forallb_forall. intros y _. cbn [test_ok]. destruct y as [| | | | |ms']; try done. cbn [tests_ok]. by destruct (lookup_member _ ms').
Qed.

Lemma resolve_asked v s parts : query_ok parts v = true -> text_of v s -> exists res, resolve s parts = Some res /\ asked (first_result parts v) res.
Proof.
  intros Hok [(w & t & r0 & -> & Hr & Hw & Hf) Hl].
  destruct (json_resolve_answers parts v w t r0) as (res & err & E & Ha & _); [done..|by apply maxlen_int|].
  set (s := w +:+ t +:+ r0) in *. destruct (json_resolve_total s parts Hl) as (r & E' & Hb).
  rewrite E in E'. simplify_eq. cbn [fst] in Hb. exists res. unfold resolve. rewrite E. split; [done|].
  unfold asked, first_result. destruct (query_results parts v) as [[|x xs] [e|]]; cbn [answers] in Ha; try done.
  all: destruct Ha as (n & -> & Hn); exists n; split; [done|]; split; [done|by apply Hb].
Qed.

(** A node that is not a string has the text of its value. *)
Lemma node_text v n : node_for v n -> match v with JString _ => True | _ => text_of v (n_s n) end.
Proof. intros [(s & Hr & ->) Hl]. destruct v; try done; by apply text_exact. Qed.

(** Its type and flag are the value's. *)
Lemma node_type_of v n : is_node v n -> n_type n = n_type (scalar_node v) /\ n_flag n = n_flag (scalar_node v).
Proof. intros (s & Hr & ->). by destruct v. Qed.

Lemma is_text_node v n lit : is_node v n -> json_str_eq n lit = is_text v lit.
Proof.
  intros (s & Hr & ->). unfold json_str_eq. destruct v; try done. cbn [node_of n_type n_flag n_s is_text]. rewrite (bool_decide_false (JSON_STRING <> _)) by (by intros []). cbn [orb]. by destruct (escaped raw).
Qed.

Lemma digits_value_nonneg c a : 0 <= a -> 0 <= fst (digits_value c a).
Proof.
  revert a. induction c as [|ch c IH]; intros a Ha; [done|]. cbn [digits_value].
  destruct (is_digit ch) eqn:Ed; [|done]. apply IH. unfold is_digit in Ed.
  apply andb_true_iff in Ed as [H1%Z.leb_le _]. lia.
Qed.
(** The integer of a literal, as [strtoull] reads it. *)
Lemma strto_number lit : number_text lit -> is_float lit = false ->
  lit <> "" /\ exists m, strto lit = Some (negative lit, m) /\ 0 <= m /\ match lit with String ch rest => if char_is ch "-" then - dec rest 0 else dec lit 0 | EmptyString => 0 end = if negative lit then - m else m.
Proof.
  intros (sign & int & frac & exp & -> & Hs & Hi & Hf & He) Hfl. rewrite (is_float_number sign int frac exp Hs Hi Hf He) in Hfl.
  assert (frac = "" /\ exp = "") as [-> ->].
  { destruct Hf as [->|(s & -> & _)]; [|done]. destruct He as [->|(e & sg & s & -> & _)]; done. }
  rewrite !string_app_nil. assert (Hd : digits int) by (destruct Hi as [->|(d & s & -> & Hd & _ & Hds)]; by split).
  assert (exists ch s, int = String ch s /\ is_digit ch = true) as (ch & s & -> & Hch) by (destruct Hi as [->|(d & s & -> & Hd' & _)]; eauto).
  assert (Hne : char_is ch "+" = false /\ char_is ch "-" = false /\ isspace ch = false) by (unfold isspace, is_ws; split_and!; by char_cases). destruct Hne as (Hp & Hm & Hsp).
  pose proof (digits_value_app _ 0 Hd) as Hv. assert (Hnn : 0 <= dec (String ch s) 0).
  { pose proof (digits_value_nonneg (String ch s) 0 ltac:(lia)) as H0. by rewrite Hv in H0. }
  destruct Hs as [-> | ->].
  - rewrite app_nil_l. split; [done|]. exists (dec (String ch s) 0). unfold strto, negative. cbn [skip_space skip_sign]. rewrite Hsp. cbn [skip_sign]. rewrite Hp, Hm. cbn [orb at_digit]. rewrite Hch, Hv. done.
  - split; [done|]. exists (dec (String ch s) 0). change ("-" +:+ String ch s) with (String "-" (String ch s)). split; [|done]. unfold strto, negative. change (skip_space (String "-" (String ch s))) with (String "-" (String ch s)).
    change (skip_sign (String "-" (String ch s))) with (String ch s). cbn [at_digit]. by rewrite Hch, Hv.
Qed.

Lemma strlen_pos s : s <> "" -> 0 < strlen s.
Proof. destruct s; [done|]. unfold strlen. cbn. lia. Qed.

Lemma as_uint_node v n : is_node v n -> as_uint v = match json_as_uint n with inr x => Some x | inl _ => None end.
Proof.
  intros (s & Hr & ->). unfold json_as_uint. destruct v as [| |lit| | |]; try done. inversion Hr as [| | |? Hn| | | | |]; subst. cbn [node_of n_type n_flag n_s as_uint integer].
  rewrite (bool_decide_true (JSON_NUMBER = _)) by done. cbn [negb]. fold (negative s). destruct (is_float s) eqn:Hf; [rewrite bool_decide_true by done; by destruct (negative s)|].
  rewrite bool_decide_false by done. destruct (strto_number s Hn Hf) as (Hne & m & -> & Hm & Ev). pose proof (strlen_pos s Hne). rewrite Ev, (proj2 (Z.eqb_neq (strlen s) 0)) by lia. destruct (negative s); [done|].
  cbn [orb]. destruct (64 <=? strlen s); [done|]. cbn [mbind option_bind]. destruct (Z.leb_spec m UINT64_MAX), (Z.ltb_spec UINT64_MAX m); (done || lia).
Qed.
Lemma as_int_node v n : is_node v n -> as_int v = match json_as_int n with inr x => Some x | inl _ => None end.
Proof.
  intros (s & Hr & ->). unfold json_as_int, as_int. destruct v as [| |lit| | |]; try done. inversion Hr as [| | |? Hn| | | | |]; subst. cbn [node_of n_type n_flag n_s integer].
  rewrite (bool_decide_true (JSON_NUMBER = _)) by done. cbn [negb]. destruct (is_float s) eqn:Hf; [by rewrite bool_decide_true by done|].
  rewrite bool_decide_false by done. destruct (strto_number s Hn Hf) as (Hne & m & -> & Hm & Ev). pose proof (strlen_pos s Hne). rewrite Ev, (proj2 (Z.eqb_neq (strlen s) 0)) by lia.
  cbn [orb]. destruct (64 <=? strlen s); [done|]. cbn [mbind option_bind]. generalize (if negative s then - m else m). intros z. unfold INT64_MIN, INT64_MAX.
  destruct (Z.leb_spec (- 2 ^ 63) z), (Z.ltb_spec z (2 ^ 63)), (Z.ltb_spec z (- 2 ^ 63)), (Z.ltb_spec (2 ^ 63 - 1) z); (done || lia).
Qed.
Lemma type_node v n : is_node v n -> parse_data_type n = type_of v.
Proof.
  intros (s & Hr & ->). unfold parse_data_type, type_of. destruct v as [| | |raw| |]; try done. cbn [node_of n_type n_flag n_s all_dtypes find is_text dtype_text].
  rewrite (bool_decide_false (JSON_STRING <> _)) by (by intros []). destruct (escaped raw); [done|]. cbn [negb andb]. unfold dtype_from_zarr_string, dtype_table. cbn [dtype_from_table].
  repeat match goal with |- context [bool_decide (raw = ?x)] => destruct (decide (raw = x)) as [->|]; [done|rewrite (bool_decide_false (raw = x)), (bool_decide_false (x = raw)) by congruence] end. done.
Qed.

Lemma str_eq_needs_string n lit : n_type n <> JSON_STRING -> json_str_eq n lit = false.
Proof. intros H. unfold json_str_eq. by rewrite bool_decide_true. Qed.

(** ** Arrays of elements *)

Lemma iter_results v : query_results [QUERY_ITER] v =
  match v with JArray vs => (vs, None) | _ => ([], Some JSON_ERR_TYPE) end.
Proof.
  destruct v as [| | | |vs|]; try done. unfold query_results. cbn [results JSON_ITER_MAX_FRAMES].
  induction vs as [|x vs IH]; [done|]. rewrite fmap_cons, stream_concat_cons, IH. done.
Qed.

Lemma collect_bounded src parts fuel it nodes e :
  (slen src <= MAXLEN)%nat -> iter_ok src parts it -> iter_collect fuel it = Some (nodes, e) ->
  Forall (fun n => (slen (n_s n) <= MAXLEN)%nat) nodes.
Proof.
  intros Hs. revert it nodes. induction fuel as [|fuel IH]; intros it nodes Hok E; [done|]. cbn [iter_collect] in E.
  destruct (json_iter_next_total src parts it Hs Hok) as (r & it' & EN & Hok' & Hb). rewrite EN in E.
  cbn [mbind option_bind] in E. destruct r as [e'|n]; [simplify_eq; apply Forall_nil_2|].
  destruct (iter_collect fuel it') as [[ns e']|] eqn:EC; cbn [mbind option_bind] in E; simplify_eq.
  apply Forall_cons_2; [by apply Hb|by eapply IH].
Qed.

(** The elements of an array's text. *)
Lemma collect_array vs s :
  text_of (JArray vs) s -> exists nodes, Forall2 node_for vs nodes /\
    iter_collect (S (length nodes)) (json_iter_init s [QUERY_ITER]) = Some (nodes, JSON_ERR_NOT_FOUND).
Proof.
  intros [(w & t & r0 & -> & Hr & Hw & Hf) Hl].
  destruct (json_iter_collects [QUERY_ITER] (JArray vs) w t r0) as (nodes & E & Hall);
    [left|by apply forallb_forall|done|done|done|by apply maxlen_int|].
  set (s := w +:+ t +:+ r0) in *. rewrite iter_results in *. cbn [fst snd default] in *. exists nodes.
  pose proof (Forall2_length _ _ _ Hall) as Hlen. rewrite Hlen in E. split; [|done].
  assert (Hb : Forall (fun n => (slen (n_s n) <= MAXLEN)%nat) nodes).
  { eapply (collect_bounded s [QUERY_ITER]); [done| |exact E]. split; [done|]. split; [done|]. apply Forall_nil_2. }
  clear -Hall Hb. induction Hall as [|v n vs nodes Hn Hall IH]; [by apply Forall2_nil_2|].
  inversion Hb; subst. apply Forall2_cons_2; [by split|auto].
Qed.

(** The loop of [read_uint_array] on collected nodes. *)
Fixpoint read_nodes (nodes : list json_node) (out : list Z) (n : Z) : option (list Z * Z) :=
  match nodes with
  | [] => if n =? 0 then None else Some (out, u8 n)
  | v :: nodes =>
      if DAMACY_MAX_RANK <=? n then None
      else match json_as_uint v with inl _ => None | inr x => read_nodes nodes (<[Z.to_nat n := x]> out) (n + 1) end
  end.

Lemma read_uint_loop_nodes fuel it nodes out n :
  iter_collect (S (length nodes)) it = Some (nodes, JSON_ERR_NOT_FOUND) -> length out = Z.to_nat DAMACY_MAX_RANK ->
  0 <= n <= DAMACY_MAX_RANK -> DAMACY_MAX_RANK - n + 1 < Z.of_nat fuel ->
  read_uint_loop fuel it out n DAMACY_MAX_RANK = Some (read_nodes nodes out n).
Proof.
  revert it nodes out n. induction fuel as [|fuel IH]; intros it nodes out n E Hlen Hn Hf; [lia|].
  cbn [iter_collect] in E. cbn [read_uint_loop].
  destruct (json_iter_next it) as [[[e|v] it']|]; cbn [mbind option_bind] in *; [|..|done].
  - simplify_eq. cbn [read_nodes]. by destruct (n =? 0).
  - destruct (iter_collect (length nodes) it') as [[ns e']|] eqn:EC; cbn [mbind option_bind fst snd] in E; [|done].
    simplify_eq. cbn [read_nodes length] in *. destruct (Z.leb_spec DAMACY_MAX_RANK n); [done|].
    destruct (json_as_uint v) as [e|x]; [done|].
    rewrite aset_range by (unfold DAMACY_MAX_RANK in *; lia). cbn [mbind option_bind].
    apply IH; [done|by rewrite length_insert|lia|lia].
Qed.

Lemma padded_insert l x : zlen l < DAMACY_MAX_RANK -> <[Z.to_nat (zlen l) := x]> (padded l) = padded (l ++ [x]).
Proof.
  intros H. unfold padded. rewrite Nat2Z.id, insert_app_r_alt, Nat.sub_diag, length_app by lia. cbn [length].
  replace (Z.to_nat (DAMACY_MAX_RANK - zlen l)) with (S (Z.to_nat (DAMACY_MAX_RANK - Z.of_nat (length l + 1)))) by lia.
  by rewrite <-app_assoc.
Qed.

Lemma read_nodes_spec vs nodes done_ :
  Forall2 node_for vs nodes -> zlen done_ <= DAMACY_MAX_RANK ->
  read_nodes nodes (padded done_) (zlen done_) =
    if (zlen done_ + zlen vs =? 0) || (DAMACY_MAX_RANK <? zlen done_ + zlen vs) then None
    else r ← mapM as_uint vs; Some (padded (done_ ++ r), zlen done_ + zlen vs).
Proof.
  intros Hall. revert done_. induction Hall as [|v n vs nodes [Hn _] _ IH]; intros done_ Hd; cbn [read_nodes].
  { cbn [length]. change (Z.of_nat 0) with 0. rewrite Z.add_0_r, (proj2 (Z.ltb_ge _ _)) by lia.
    destruct (zlen done_ =? 0); [done|]. change (mapM as_uint []) with (Some (@nil Z)). cbn [orb mbind option_bind].
    rewrite app_nil_r, u8_id; [done|].
    unfold DAMACY_MAX_RANK in *. clia. }
  cbn [length]. destruct (Z.leb_spec DAMACY_MAX_RANK (zlen done_)).
  { rewrite (proj2 (Z.ltb_lt _ _)), orb_true_r by lia. done. }
  pose proof (as_uint_node v n Hn) as Hu. change (mapM as_uint (v :: vs)) with (y ← as_uint v; k ← mapM as_uint vs; mret (y :: k)).
  rewrite Hu. destruct (json_as_uint n) as [e|x]; [by destruct (_ || _)|]. cbn [mbind option_bind].
  rewrite padded_insert by lia. replace (zlen done_ + 1) with (zlen (done_ ++ [x])) by (rewrite length_app; cbn [length]; lia).
  rewrite IH by (rewrite length_app; cbn [length]; lia).
  replace (zlen (done_ ++ [x]) + zlen vs) with (zlen done_ + Z.of_nat (S (length vs))) by (rewrite length_app; cbn [length]; lia).
  case_match; [done|]. destruct (mapM as_uint vs); [|done]. cbn. by rewrite <-app_assoc.
Qed.

Lemma read_uint_array_spec v n :
  node_for v n -> read_uint_array n (replicate (Z.to_nat DAMACY_MAX_RANK) 0) DAMACY_MAX_RANK =
    Some ((fun l => (padded l, zlen l)) <$> extents v).
Proof.
  intros Hn. unfold read_uint_array. destruct (node_type_of v n (proj1 Hn)) as [-> _].
  destruct v as [| | | |vs|]; try done. rewrite bool_decide_true by done. cbn [negb].
  destruct (collect_array vs (n_s n) (node_text _ _ Hn)) as (nodes & Hall & E).
  rewrite (read_uint_loop_nodes _ _ nodes) by (done || unfold DAMACY_MAX_RANK; lia).
  change (replicate (Z.to_nat DAMACY_MAX_RANK) 0) with (padded []).
  change (read_nodes nodes (padded []) 0) with (read_nodes nodes (padded []) (zlen (@nil Z))).
  rewrite (read_nodes_spec vs) by done. cbn [length extents]. f_equal. change (Z.of_nat 0) with 0. rewrite Z.add_0_l.
  destruct (Z.eqb_spec (zlen vs) 0), (Z.ltb_spec 0 (zlen vs)), (Z.ltb_spec DAMACY_MAX_RANK (zlen vs)),
    (Z.leb_spec (zlen vs) DAMACY_MAX_RANK); try lia; cbn [orb andb]; try done.
  destruct (mapM as_uint vs) as [r|] eqn:Em; [|done]. cbn. apply length_mapM in Em. by rewrite Em.
Qed.

(** ** Codecs *)

Lemma value_at_asked keys v s : text_of v s -> exists res, resolve s (QUERY_KEY <$> keys) = Some res /\
  match value_at keys v with Some x => exists n, res = inr n /\ node_for x n | None => exists e, res = inl e end.
Proof.
  intros Ht. destruct (resolve_asked v s (QUERY_KEY <$> keys) (tests_keys _ _ _) Ht) as (res & E & Ha). exists res. split; [done|].
  unfold value_at. destruct (first_result (QUERY_KEY <$> keys) v); [by eexists|done].
Qed.

(** Runs [resolve] for a path of keys. *)
Ltac ask_path keys v s Ht x n Hn :=
  let res := fresh "res" in let e := fresh "e" in let E := fresh "E" in
  destruct (value_at_asked keys v s Ht) as (res & E & Hn); cbn [fmap list_fmap] in E; rewrite E; clear E;
  cbn [mbind option_bind];
  destruct (value_at keys v) as [x|]; [destruct Hn as (n & -> & Hn)|destruct Hn as [e ->]; try done].

Lemma blosc_spec ms n : node_for (JObject ms) n -> resolve_blosc_cname n = Some (blosc_codec (JObject ms)).
Proof.
  intros Hn. unfold resolve_blosc_cname, blosc_codec.
  ask_path ["configuration"; "cname"] (JObject ms) (n_s n) (node_text _ _ Hn) x m Hm.
  cbn [mbind option_bind]. rewrite <-!(is_text_node x m) by apply Hm.
  case_bool_decide as Ht; cbn [negb]; [by repeat case_match|]. by rewrite !str_eq_needs_string.
Qed.

Lemma inner_codec_loop_spec fuel it vs nodes :
  Forall2 node_for vs nodes -> iter_collect (S (length nodes)) it = Some (nodes, JSON_ERR_NOT_FOUND) ->
  (length nodes < fuel)%nat -> inner_codec_loop fuel it = Some (codec_of vs).
Proof.
  intros Hall. revert fuel it. induction Hall as [|v n vs nodes Hn _ IH]; intros fuel it E Hf;
    (destruct fuel as [|fuel]; [lia|]); cbn [iter_collect] in E; cbn [inner_codec_loop];
    destruct (json_iter_next it) as [[[e|c] it']|]; cbn [mbind option_bind] in *; try done.
  - simplify_eq. done.
  - destruct (iter_collect (length (n :: nodes)) it') as [[ns e']|] eqn:EC; cbn [mbind option_bind fst snd] in E; [|done].
    simplify_eq. destruct (node_type_of v n (proj1 Hn)) as [-> _]. cbn [codec_of length] in *.
    destruct v as [| | | | |ms]; try done. rewrite bool_decide_true by done. cbn [negb].
    ask_path ["name"] (JObject ms) (n_s n) (node_text _ _ Hn) x m Hm.
    cbn [mbind option_bind]. rewrite <-!(is_text_node x m) by apply Hm.
    case_bool_decide as Ht; cbn [negb]; [|by rewrite !str_eq_needs_string].
    destruct (json_str_eq m "bytes"); [apply IH; [done|lia]|]. destruct (json_str_eq m "zstd"); [done|].
    destruct (json_str_eq m "blosc"); [by apply blosc_spec|done].
Qed.

Lemma value_nonempty v s : renders v s -> (0 < slen s)%nat.
Proof. intros H. destruct (value_starts v s H) as (ch & s' & -> & _). simpl. lia. Qed.

Lemma elements_count vs t : elements vs t -> (length vs < slen t)%nat.
Proof.
  revert t. induction vs as [|v vs IH]; intros t H; inversion H; subst; rewrite slen_app; cbn [slen length]; [lia|].
  rewrite !slen_app. specialize (IH _ ltac:(eassumption)). lia.
Qed.
Lemma array_count vs s : renders (JArray vs) s -> (length vs <= slen s)%nat.
Proof.
  intros H. inversion H as [| | | | | |w v vs' s' t Hw Hs Ht| |]; subst; [simpl; lia|]. apply elements_count in Ht.
  cbn [slen length]. rewrite !slen_app. lia.
Qed.

Lemma parse_inner_codec_spec v n : node_for v n -> parse_inner_codec n = Some (codecs_of v).
Proof.
  intros Hn. unfold parse_inner_codec. destruct (node_type_of v n (proj1 Hn)) as [-> _].
  destruct v as [| | | |vs|]; try done. rewrite bool_decide_true by done. cbn [negb codecs_of].
  destruct (collect_array vs (n_s n) (node_text _ _ Hn)) as (nodes & Hall & E).
  destruct Hn as [(s & Hr & ->) Hl]. cbn [node_of n_s] in *. apply (inner_codec_loop_spec _ _ vs nodes); [done|done|]. rewrite <-(Forall2_length _ _ _ Hall).
  pose proof (array_count vs s Hr). lia.
Qed.

(** ** The sharding codec *)

(** The node the sharding path finds has the text of its value. *)
Lemma sharding_text v x n : first_result sharding_path v = inr x -> node_for x n -> text_of x (n_s n).
Proof.
  intros Hf Hn. pose proof (node_text x n Hn) as Ht. destruct x as [| | |raw| |]; try done. exfalso.
  destruct Hn as [(s & Hr & _) _]. inversion Hr as [| | | |? Hraw| | | |]; subst.
  unfold first_result, query_results, sharding_path in Hf. cbn [results parts_depth foldr query_depth Nat.max] in Hf.
  destruct v as [| | | | |ms]; try done. destruct (lookup_member "codecs" ms) as [y|]; cbn [of_option] in Hf; [|done].
  cbn [JSON_ITER_MAX_FRAMES] in Hf. destruct y as [| | | |vs|]; try done.
  induction vs as [|y vs IH]; [done|]. rewrite fmap_cons, stream_concat_cons in Hf.
  destruct (selects 1 y (QUERY_WHERE [QUERY_KEY "name"] "sharding_indexed" JSON_STRING)) eqn:Es.
  - assert (y = JString raw) as -> by (clear -Hf; cbn in Hf; by simplify_eq). done.
  - rewrite stream_app_nil in Hf. by apply IH.
Qed.

(** ** The pieces of a document *)

Lemma extents_length v l : extents v = Some l -> 0 < zlen l <= DAMACY_MAX_RANK.
Proof.
  destruct v as [| | | |vs|]; try done. cbn [extents]. case_match eqn:E; [|done]. intros Hm. apply length_mapM in Hm.
  rewrite <-Hm. apply andb_true_iff in E as [H1%Z.ltb_lt H2%Z.leb_le]. lia.
Qed.

Definition pad_fst (r : list Z * compression_codec * bool) : list Z * compression_codec * bool :=
  let '(inner, codec, footer) := r in (padded inner, codec, footer).

Lemma parse_sharded_spec sh n rank :
  text_of sh (n_s n) -> parse_sharded n (Z.of_nat rank) = Some (pad_fst <$> sharded_of sh rank).
Proof.
  intros Ht. unfold parse_sharded, sharded_of.
  ask_path ["configuration"; "chunk_shape"] sh (n_s n) Ht x m Hm. cbn [mbind option_bind].
  rewrite (read_uint_array_spec x m Hm). cbn [mbind option_bind]. destruct (extents x) as [inner|]; [|done].
  cbn [fmap option_fmap option_map mbind option_bind fst snd].
  replace (zlen inner =? Z.of_nat rank) with (length inner =? rank)%nat.
  2:{ destruct (Nat.eqb_spec (length inner) rank), (Z.eqb_spec (zlen inner) (Z.of_nat rank)); try done; lia. }
  destruct (length inner =? rank)%nat; cbn [negb]; [|done].
  ask_path ["configuration"; "codecs"] sh (n_s n) Ht y k Hk. cbn [mbind option_bind].
  rewrite (parse_inner_codec_spec y k Hk). cbn [mbind option_bind]. destruct (codecs_of y) as [codec|]; [|done].
  cbn [mbind option_bind].
  ask_path ["configuration"; "index_location"] sh (n_s n) Ht z j Hj. cbn [mbind option_bind].
  by rewrite (is_text_node z j _ (proj1 Hj)).
Qed.

Lemma padded_get l i : 0 <= i < zlen l -> aget (padded l) i = aget l i.
Proof.
  intros H. unfold aget, padded. rewrite (proj2 (Z.leb_le _ _)) by lia. apply lookup_app_l. lia.
Qed.

Lemma copy_loop_spec n shard done_ rest :
  shard = done_ ++ rest -> n = length rest -> zlen shard <= DAMACY_MAX_RANK ->
  copy_loop n (padded shard) (padded done_) (zlen done_) = Some (padded shard).
Proof.
  revert done_ rest. induction n as [|n IH]; intros done_ rest -> Hn Hl; destruct rest as [|x rest]; try done; cbn [copy_loop].
  { by rewrite app_nil_r. }
  rewrite length_app in Hl. cbn [length] in *.
  rewrite padded_get by (rewrite length_app; cbn [length]; lia). rewrite aget_middle. cbn [mbind option_bind].
  rewrite aset_range by (unfold padded; rewrite length_app, length_replicate; lia). cbn [mbind option_bind].
  rewrite padded_insert by lia. replace (zlen done_ + 1) with (zlen (done_ ++ [x])) by (rewrite length_app; cbn [length]; lia).
  apply (IH _ rest); [by rewrite <-app_assoc|lia|rewrite !length_app; cbn [length]; lia].
Qed.

Lemma parse_plain_spec v s shard :
  text_of v s -> zlen shard <= DAMACY_MAX_RANK ->
  parse_plain s (zlen shard) (padded shard) = Some (pad_fst <$> plain_of v shard).
Proof.
  intros Ht Hl. unfold parse_plain, plain_of.
  change (replicate (Z.to_nat DAMACY_MAX_RANK) 0) with (padded []). change 0 with (zlen (@nil Z)) at 1.
  rewrite (copy_loop_spec _ shard [] shard) by (done || lia). cbn [mbind option_bind].
  ask_path ["codecs"] v s Ht x m Hm. cbn [mbind option_bind].
  rewrite (parse_inner_codec_spec x m Hm). cbn [mbind option_bind]. by destruct (codecs_of x).
Qed.

Lemma multiples_loop_spec n shard inner done_s done_i rs ri :
  shard = done_s ++ rs -> inner = done_i ++ ri -> length done_s = length done_i -> length rs = n -> length ri = n ->
  multiples_loop n (padded shard) (padded inner) (zlen done_s) = Some (divides_all rs ri).
Proof.
  revert done_s done_i rs ri. induction n as [|n IH]; intros ds di rs ri -> -> Hd Hs Hi;
    destruct rs as [|s rs], ri as [|c ri]; try done. cbn [multiples_loop length] in *.
  rewrite !padded_get by (rewrite length_app; cbn [length]; lia). rewrite (aget_middle ds), Hd, (aget_middle di).
  cbn [mbind option_bind divides_all zip zip_with forallb fst snd].
  destruct (Z.eqb_spec c 0); [done|]. cbn [orb negb andb]. destruct (s mod c =? 0); cbn [negb andb]; [|done].
  replace (zlen di + 1) with (zlen (ds ++ [s])) by (rewrite length_app; cbn [length]; lia).
  apply (IH _ (di ++ [c]) rs ri); [by rewrite <-app_assoc..|rewrite !length_app; cbn [length]; lia|lia|lia].
Qed.

Lemma multiples_spec shard inner :
  length shard = length inner -> multiples_loop (length shard) (padded shard) (padded inner) 0 = Some (divides_all shard inner).
Proof. intros H. by apply (multiples_loop_spec _ shard inner [] []). Qed.

(** The bytes of a value, in eight. *)
Definition packed (k : Z) (v : Z) : list Z :=
  ((fun i => u8 (Z.shiftr v (8 * i))) <$> seqZ 0 k) ++ replicate (Z.to_nat (8 - k)) 0.

(** What [parse_fill_value] stores. *)
Lemma fill_value_eq strtod n dt : parse_fill_value strtod n dt (replicate 8 0) (dtype_bpe dt) = Some (
  match dt with
  | dtype_u8 | dtype_u16 | dtype_u32 | dtype_u64 =>
      match json_as_uint n with inl _ => None | inr v => Some (packed (dtype_bpe dt) v) end
  | dtype_i8 | dtype_i16 | dtype_i32 | dtype_i64 =>
      match json_as_int n with inl _ => None | inr v => Some (packed (dtype_bpe dt) (u64 v)) end
  | dtype_f16 =>
      match n_type n, json_as_double strtod n with
      | JSON_NUMBER, inr v => Some (packed 2 (float_to_half_bits (to_float v)))
      | _, _ => default None (parse_float_special n dtype_f16 (replicate 8 0))
      end
  | dtype_f32 =>
      if bool_decide (n_type n = JSON_NUMBER) then
        match json_as_double strtod n with inl _ => None | inr v => Some (packed 4 (to_float v)) end
      else default None (parse_float_special n dtype_f32 (replicate 8 0))
  | dtype_f64 =>
      if bool_decide (n_type n = JSON_NUMBER) then
        match json_as_double strtod n with inl _ => None | inr v => Some (packed 8 v) end
      else default None (parse_float_special n dtype_f64 (replicate 8 0))
  end).
Proof.
  assert (Hs : forall dt', parse_float_special n dt' (replicate 8 0) =
    Some (default None (parse_float_special n dt' (replicate 8 0)))).
  { intros dt'. unfold parse_float_special. case_match; [done|]. destruct (match n_s n with EmptyString => _ | String _ _ => _ end) as [neg s].
    case_match; [|done]. by destruct dt'. }
  unfold parse_fill_value.
  assert (((dtype_bpe dt =? 0) || (DAMACY_MAX_DTYPE_BYTES <? dtype_bpe dt)) = false) as -> by (by destruct dt).
  assert (array_fill (Z.to_nat (dtype_bpe dt)) (replicate 8 0) 0 0 = Some (replicate 8 0)) as -> by (by destruct dt).
  cbn [mbind option_bind].
  destruct dt; try (destruct (json_as_uint n); done); try (destruct (json_as_int n); done).
  - rewrite (Hs dtype_f16). destruct (n_type n); try done. by destruct (json_as_double strtod n).
  - rewrite (Hs dtype_f32). case_bool_decide; [|done]. by destruct (json_as_double strtod n).
  - rewrite (Hs dtype_f64). case_bool_decide; [|done]. by destruct (json_as_double strtod n).
Qed.

(** The bytes by shifts and by divisions. *)
Lemma packed_bytes k x : 0 <= k <= 8 -> packed k x = fill_bytes k x.
Proof.
  intros Hk. unfold packed, fill_bytes. f_equal. apply list_fmap_ext. intros i y [-> Hi]%lookup_seqZ. unfold u8. rewrite Z.shiftr_div_pow2 by lia.
  change 256 with (2 ^ 8). rewrite <-Z.pow_mul_r by lia. done.
Qed.
Lemma packed_u64 k x : 0 <= k <= 8 -> packed k (u64 x) = fill_bytes k x.
Proof.
  intros Hk. rewrite packed_bytes by done. unfold fill_bytes. f_equal. apply list_fmap_ext. intros i y [-> Hi]%lookup_seqZ. rewrite Z.add_0_l. unfold u64.
  set (j := Z.of_nat i). assert (0 <= j < 8) as Hj by lia. clearbody j. clear Hi i.
  assert (x = 2 ^ 64 * (x / 2 ^ 64) + x mod 2 ^ 64) as E by (apply Z.div_mod; lia). rewrite E at 2.
  assert (2 ^ 64 = 256 ^ j * (256 * 256 ^ (7 - j))) as E2. { rewrite (Z.mul_comm 256), Z.mul_assoc, <-Z.pow_add_r by lia. replace (j + (7 - j)) with 7 by lia. done. }
  pose proof (Z.pow_pos_nonneg 256 j ltac:(lia) ltac:(lia)). generalize (x / 2 ^ 64) (x mod 2 ^ 64). intros a b.
  replace (2 ^ 64 * a + b) with (b + (256 ^ (7 - j) * a * 256) * 256 ^ j) by (rewrite E2; ring).
  rewrite Z.div_add by lia. by rewrite Z.mod_add by lia.
Qed.

(** *** Half precision *)

Lemma half_arith e q : 0 <= q <= 1024 -> 0 <= e -> (q = 1024 -> e mod 2 = 0) -> Z.lor (e * 1024) q = e * 1024 + q.
Proof.
  intros Hq He Hc. rewrite <-Z.add_lor_land. enough (Z.land (e * 1024) q = 0) by lia. destruct (decide (q = 1024)) as [->|Hne].
  - specialize (Hc eq_refl). apply Z.bits_inj'. intros i Hi. rewrite Z.bits_0, Z.land_spec. change 1024 with (2 ^ 10). rewrite Z.pow2_bits_eqb by lia. destruct (Z.eqb_spec 10 i) as [<-|]; [|apply andb_false_r].
    rewrite andb_true_r, Z.mul_pow2_bits, Z.sub_diag, Z.bit0_odd by lia. by rewrite Zmod_odd in Hc; destruct (Z.odd e).
  - apply Z.bits_inj'. intros i Hi. rewrite Z.bits_0, Z.land_spec. change 1024 with (2 ^ 10). destruct (Z.ltb_spec i 10).
    + by rewrite Z.mul_pow2_bits_low.
    + rewrite (Z.bits_above_log2 q i), andb_false_r; [done|lia|]. destruct (decide (q = 0)) as [->|]; [cbn; lia|]. assert (Z.log2 q < 10) by (apply Z.log2_lt_pow2; lia). lia.
Qed.
Lemma half_sign s v : 0 <= s <= 1 -> 0 <= v < 2 ^ 15 -> Z.lor (Z.shiftl s 15) v = s * 2 ^ 15 + v.
Proof.
  intros Hs Hv. rewrite Z.shiftl_mul_pow2, <-Z.add_lor_land by lia. enough (Z.land (s * 2 ^ 15) v = 0) by lia. apply Z.bits_inj'. intros i Hi. rewrite Z.bits_0, Z.land_spec. destruct (Z.ltb_spec i 15).
  - by rewrite Z.mul_pow2_bits_low.
  - rewrite (Z.bits_above_log2 v i), andb_false_r; [done|lia|]. destruct (decide (v = 0)) as [->|]; [cbn; lia|]. assert (Z.log2 v < 15) by (apply Z.log2_lt_pow2; lia). lia.
Qed.

(** The value of a float with exponent field [e] and mantissa [m], and its rounding. *)
Lemma half_round e m : 113 <= e <= 142 -> 0 <= m < 2 ^ 23 ->
  let x := (2 ^ 23 + m) * 2 ^ (e - 1) in
  2 ^ 135 <= x < 2 ^ 165 /\ Z.log2 x = e + 22 /\ (2 * x + 2 ^ (Z.log2 x - 10)) / (2 * 2 ^ (Z.log2 x - 10)) = 1024 + (m + 4096) / 8192.
Proof.
  intros He Hm x. assert (Hp : 0 < 2 ^ (e - 1)) by (apply Z.pow_pos_nonneg; lia).
  assert (Hlog : Z.log2 x = e + 22). { apply Z.log2_unique; [lia|]. unfold x. replace (e + 22) with (23 + (e - 1)) by lia. rewrite <-Z.add_succ_l, !Z.pow_add_r by lia. change (2 ^ 23) with 8388608 in *. change (2 ^ Z.succ 23) with 16777216. nia. }
  split; [|split; [done|]].
  - assert (2 ^ 112 <= 2 ^ (e - 1)) by (apply Z.pow_le_mono_r; lia). assert (2 ^ (e - 1) <= 2 ^ 141) by (apply Z.pow_le_mono_r; lia). unfold x. change (2 ^ 135) with (2 ^ 23 * 2 ^ 112). change (2 ^ 165) with (2 ^ 24 * 2 ^ 141). nia.
  - rewrite Hlog. unfold x. replace (e + 22 - 10) with (13 + (e - 1)) by lia. rewrite Z.pow_add_r by lia.
    replace (2 * ((2 ^ 23 + m) * 2 ^ (e - 1)) + 2 ^ 13 * 2 ^ (e - 1)) with ((m + 4096 + 1024 * 8192) * (2 * 2 ^ (e - 1))) by (change (2 ^ 23) with 8388608; change (2 ^ 13) with 8192; ring).
    replace (2 * (2 ^ 13 * 2 ^ (e - 1))) with (8192 * (2 * 2 ^ (e - 1))) by (change (2 ^ 13) with 8192; ring). rewrite Z.div_mul_cancel_r by lia. rewrite Z.div_add by lia. lia.
Qed.

Lemma u16_small x : 0 <= x < 2 ^ 16 -> u16 x = x.
Proof. apply Z.mod_small. Qed.
Lemma half_bits_of f : carry_lost f = false -> float_to_half_bits f = half_of f.
Proof.
  intros Hc. unfold float_to_half_bits, half_of. set (s := (f / 2 ^ 31) mod 2). set (r := f mod 2 ^ 31).
  assert (Hs : Z.land (Z.shiftr f 31) 1 = s) by (rewrite Z.shiftr_div_pow2 by lia; change 1 with (Z.ones 1); rewrite Z.land_ones by lia; done).
  set (e := f / 2 ^ 23 mod 2 ^ 8). set (m := f mod 2 ^ 23).
  assert (He : Z.land (Z.shiftr f 23) 0xFF = e) by (rewrite Z.shiftr_div_pow2 by lia; change 0xFF with (Z.ones 8); rewrite Z.land_ones by lia; done).
  assert (Hm : Z.land f 0x7FFFFF = m) by (change 0x7FFFFF with (Z.ones 23); rewrite Z.land_ones by lia; done).
  assert (Hr : Z.land f 0x7FFFFFFF = r) by (change 0x7FFFFFFF with (Z.ones 31); rewrite Z.land_ones by lia; done).
  assert (Hrem : r = e * 2 ^ 23 + m). { unfold r, e, m. change (2 ^ 31) with (2 ^ 23 * 2 ^ 8). rewrite Z.rem_mul_r by lia. lia. }
  assert (Hs01 : 0 <= s <= 1) by (unfold s; pose proof (Z.mod_pos_bound (f / 2 ^ 31) 2 ltac:(lia)); lia).
  assert (He8 : 0 <= e < 256) by (unfold e; apply Z.mod_pos_bound; lia). assert (Hm23 : 0 <= m < 2 ^ 23) by (unfold m; apply Z.mod_pos_bound; lia).
  assert (Hc' : 113 <= e <= 142 -> (m + 4096) / 8192 = 1024 -> (e - 112) mod 2 = 0).
  { intros Hr1 Hr2. assert (0x7ff000 <= m) by (pose proof (Z.mul_div_le (m + 4096) 8192 ltac:(lia)); lia). unfold carry_lost in Hc. fold e m in Hc. rewrite (proj2 (Z.leb_le 113 e)), (proj2 (Z.leb_le e 142)), (proj2 (Z.leb_le _ m)), andb_true_r in Hc by lia. cbn [andb] in Hc.
    rewrite Zmod_odd, Z.odd_sub, Hc. done. }
  rewrite Hs, He, Hm, Hr. clearbody e m r s. clear Hs He Hm Hr Hc. subst r. unfold f32_inf.
  destruct (Z.eqb_spec e 255) as [->|Hne].
  - unfold f32_mag. rewrite Z.div_add_l, (Z.div_small m), Z.add_0_r by lia. cbn [Z.eqb]. destruct (Z.eqb_spec m 0) as [->|Hm0].
    + rewrite Z.lor_0_r. change (Z.shiftl 31 10) with 0x7c00. rewrite half_sign, u16_small by lia. done.
    + rewrite (proj2 (Z.ltb_lt _ _)) by lia. rewrite <-Z.lor_assoc. change (Z.lor (Z.shiftl 31 10) 0x200) with 0x7e00. rewrite half_sign, u16_small by lia. done.
  - rewrite (proj2 (Z.ltb_ge _ (e * 2 ^ 23 + m))) by lia.
    assert (Hmag : f32_mag (e * 2 ^ 23 + m) = if e =? 0 then m else (2 ^ 23 + m) * 2 ^ (e - 1)).
    { unfold f32_mag. rewrite Z.div_add_l, (Z.div_small m), Z.add_0_r by lia. rewrite (Z.add_comm (e * _)), Z.mod_add, Z.mod_small by lia. done. }
    assert (Hz : u16 (Z.shiftl s 15) = s * 2 ^ 15) by (rewrite Z.shiftl_mul_pow2, u16_small; lia).
    assert (Hsmall : e < 113 -> f32_mag (e * 2 ^ 23 + m) < 2 ^ 135).
    { intros Hlt. rewrite Hmag. destruct (Z.eqb_spec e 0); [change (2 ^ 23) with 8388608 in Hm23; lia|]. assert (0 < 2 ^ (e - 1) <= 2 ^ 111) by (split; [apply Z.pow_pos_nonneg; lia|apply Z.pow_le_mono_r; lia]).
      change (2 ^ 135) with (2 ^ 24 * 2 ^ 111). nia. }
    destruct (Z.eqb_spec (e * 2 ^ 23 + m) 0) as [E0|E0]; [rewrite (proj2 (Z.ltb_lt _ (2 ^ 135))) by (apply Hsmall; lia); done|].
    destruct (Z.ltb_spec 15 (e - 127)) as [Hbig|Hbig].
    + assert (2 ^ 165 <= f32_mag (e * 2 ^ 23 + m)). { rewrite Hmag, (proj2 (Z.eqb_neq e 0)) by lia. assert (2 ^ 142 <= 2 ^ (e - 1)) by (apply Z.pow_le_mono_r; lia). change (2 ^ 165) with (2 ^ 23 * 2 ^ 142). nia. }
      rewrite (proj2 (Z.ltb_ge _ (2 ^ 135))), (proj2 (Z.leb_le (2 ^ 165) _)) by lia. change (Z.shiftl 31 10) with 0x7c00. rewrite half_sign, u16_small by lia. done.
    + destruct (Z.ltb_spec (e - 127) (-14)) as [Hlow|Hlow]; [rewrite (proj2 (Z.ltb_lt _ (2 ^ 135))) by (apply Hsmall; lia); done|].
      destruct (half_round e m ltac:(lia) Hm23) as (Hx & Hlog & Hq). rewrite Hmag, (proj2 (Z.eqb_neq e 0)) by lia. rewrite (proj2 (Z.ltb_ge _ (2 ^ 135))), (proj2 (Z.leb_gt (2 ^ 165) _)) by lia. rewrite Hq, Hlog.
      rewrite <-Z.lor_assoc, (Z.shiftl_mul_pow2 (e - 127 + 15)), (Z.shiftr_div_pow2 (m + 0x1000)) by lia. change (2 ^ 10) with 1024. change (2 ^ 13) with 8192. change 0x1000 with 4096. change (2 ^ 23) with 8388608 in Hm23.
      assert (0 <= (m + 4096) / 8192 < 1025) by (split; [apply Z.div_pos; lia|apply Z.div_lt_upper_bound; lia]).
      rewrite half_arith; [|lia|lia|intros E; replace (e - 127 + 15) with (e - 112) by lia; apply Hc'; lia].
      rewrite half_sign, u16_small by lia. lia.
Qed.

(** [half_of] is nearest: no normal half is closer in value (both in units of
    [2 ^ -149]). *)
Lemma nearest_multiple x u q k : 0 < u -> q = (2 * x + u) / (2 * u) -> Z.abs (q * u - x) <= Z.abs (k * u - x).
Proof.
  intros Hu ->. pose proof (Z.div_mod (2 * x + u) (2 * u) ltac:(lia)) as E. pose proof (Z.mod_pos_bound (2 * x + u) (2 * u) ltac:(lia)) as B. set (q := (2 * x + u) / (2 * u)) in *. clearbody q.
  assert (2 * x + u = 2 * u * q + (2 * x + u) mod (2 * u)) as E' by exact E. destruct (Z.lt_trichotomy k q) as [Hlt|[->|Hgt]]; [|done|].
  - assert (u * k <= u * q - u) by nia. nia.
  - assert (u * q + u <= u * k) by nia. nia.
Qed.
Lemma half_of_nearest f h : f mod 2 ^ 31 <= f32_inf -> 2 ^ 135 <= f32_mag (f mod 2 ^ 31) < 2 ^ 165 -> 0x400 <= h <= 0x7c00 ->
  Z.abs (f16_mag (half_of f mod 2 ^ 15) * 2 ^ 125 - f32_mag (f mod 2 ^ 31)) <= Z.abs (f16_mag h * 2 ^ 125 - f32_mag (f mod 2 ^ 31)).
Proof.
  intros Hf Hx Hh. unfold half_of. rewrite (proj2 (Z.ltb_ge _ (f mod _))) by done. set (x := f32_mag (f mod 2 ^ 31)) in *. clearbody x. rewrite (proj2 (Z.ltb_ge x _)), (proj2 (Z.leb_gt _ x)) by lia.
  set (e := Z.log2 x). assert (He : 2 ^ e <= x < 2 ^ Z.succ e) by (apply Z.log2_spec; lia). assert (Hr : 135 <= e < 165) by (split; [apply Z.log2_le_pow2; lia|apply Z.log2_lt_pow2; lia]). clearbody e.
  set (u := 2 ^ (e - 10)). assert (Hu : 2 ^ e = 1024 * u /\ 2 ^ Z.succ e = 2048 * u /\ 0 < u).
  { assert (E : 2 ^ e = 1024 * u) by (unfold u; change 1024 with (2 ^ 10); rewrite <-Z.pow_add_r by lia; f_equal; lia).
    split; [done|]. split; [rewrite Z.pow_succ_r by lia; lia|]. apply Z.pow_pos_nonneg; lia. }
  destruct Hu as (E1 & E2 & Hu). rewrite E1, E2 in He. set (q := (2 * x + u) / (2 * u)).
  assert (Hq : 1024 <= q <= 2048) by (unfold q; split; [apply Z.div_le_lower_bound; lia|assert (q < 2049) by (apply Z.div_lt_upper_bound; lia); lia]).
  assert (Hmag : f16_mag ((f / 2 ^ 31 mod 2 * 2 ^ 15 + (e - 134) * 1024 + (q - 1024)) mod 2 ^ 15) * 2 ^ 125 = q * u).
  { replace (f / 2 ^ 31 mod 2 * 2 ^ 15 + (e - 134) * 1024 + (q - 1024)) with ((e - 134) * 1024 + (q - 1024) + f / 2 ^ 31 mod 2 * 2 ^ 15) by ring. rewrite Z.mod_add, Z.mod_small by lia. unfold f16_mag. change (2 ^ 10) with 1024. unfold u.
    destruct (decide (q = 2048)) as [->|].
    - replace ((e - 134) * 1024 + (2048 - 1024)) with ((e - 133) * 1024) by ring. rewrite Z.div_mul, Z.mod_mul, (proj2 (Z.eqb_neq (e - 133) 0)) by lia. rewrite Z.add_0_r, <-Z.mul_assoc, <-Z.pow_add_r by lia.
      replace (e - 133 - 1 + 125) with (1 + (e - 10)) by lia. rewrite Z.pow_add_r by lia. lia.
    - rewrite Z.div_add_l, (Z.div_small (q - 1024)), Z.add_0_r, (proj2 (Z.eqb_neq (e - 134) 0)) by lia. rewrite (Z.add_comm (_ * 1024)), Z.mod_add, Z.mod_small by lia. rewrite <-Z.mul_assoc, <-Z.pow_add_r by lia.
      replace (e - 134 - 1 + 125) with (e - 10) by lia. f_equal. lia. }
  rewrite Hmag. unfold f16_mag. change (2 ^ 10) with 1024. set (g := h / 1024). set (k := h mod 1024). assert (Hg : 1 <= g <= 31) by (unfold g; split; [apply Z.div_le_lower_bound; lia|apply Z.div_le_upper_bound; lia]).
  assert (Hk : 0 <= k < 1024) by (apply Z.mod_pos_bound; lia). clearbody g k. rewrite (proj2 (Z.eqb_neq g 0)) by lia. rewrite <-Z.mul_assoc, <-Z.pow_add_r by lia. replace (g - 1 + 125) with (g + 124) by lia.
  destruct (Z.le_gt_cases e (g + 134)) as [Hge|Hlt].
  - replace (g + 124) with (g + 134 - e + (e - 10)) by lia. rewrite Z.pow_add_r, Z.mul_assoc by lia. by apply nearest_multiple.
  - pose proof (nearest_multiple x u q 1024 Hu eq_refl). assert (2 ^ (g + 124) * 2 <= u) by (unfold u; rewrite Z.mul_comm, <-Z.pow_succ_r by lia; apply Z.pow_le_mono_r; lia). nia.
Qed.

(** *** Fill values *)

Lemma special_value n v dt : is_node v n -> match v with JNumber _ => True | _ => default None (parse_float_special n dt (replicate 8 0)) = if is_float_type dt then fill_bytes (width dt) ∘ special_bits dt <$> special v else None end.
Proof.
  intros (s & Hr & ->). unfold parse_float_special, special. destruct v as [| | |raw| |]; try (by destruct dt); try done. cbn [node_of n_type n_flag n_s].
  rewrite (bool_decide_false (JSON_STRING <> _)) by (by intros []). cbn [orb find special_names is_text fst]. destruct (escaped raw) eqn:Ee; [by destruct dt|].
  rewrite bool_decide_false by done. cbn [negb andb].
  assert (Hcases : raw = "NaN" \/ raw = "+NaN" \/ raw = "-NaN" \/ raw = "Infinity" \/ raw = "+Infinity" \/ raw = "-Infinity" \/
    (raw <> "NaN" /\ raw <> "+NaN" /\ raw <> "-NaN" /\ raw <> "Infinity" /\ raw <> "+Infinity" /\ raw <> "-Infinity")).
  { destruct (decide (raw = "NaN")), (decide (raw = "+NaN")), (decide (raw = "-NaN")), (decide (raw = "Infinity")), (decide (raw = "+Infinity")), (decide (raw = "-Infinity")); tauto. }
  destruct Hcases as [->|[->|[->|[->|[->|[->|(N1 & N2 & N3 & N4 & N5 & N6)]]]]]]; [by destruct dt; vm_compute..|].
  rewrite !bool_decide_false by done. cbn [fmap option_fmap option_map]. assert (Hnone : forall neg t, t <> "NaN" -> t <> "Infinity" -> (if bool_decide (t = "NaN") then Some NAN_bits else if bool_decide (t = "Infinity") then Some INFINITY_bits else None) = None /\ neg = neg :> bool) by (intros; by rewrite !bool_decide_false by done).
  destruct raw as [|ch rest]; [by destruct dt|]. destruct (char_is ch "-") eqn:E1; [apply char_is_true in E1; subst ch|destruct (char_is ch "+") eqn:E2; [apply char_is_true in E2; subst ch|]].
  - rewrite (proj1 (Hnone true rest ltac:(congruence) ltac:(congruence))). by destruct dt.
  - rewrite (proj1 (Hnone true rest ltac:(congruence) ltac:(congruence))). by destruct dt.
  - rewrite (proj1 (Hnone true (String ch rest) ltac:(congruence) ltac:(congruence))). by destruct dt.
Qed.

Lemma number_nonempty s : number_text s -> s <> "".
Proof. intros (sign & int & frac & exp & -> & [-> | ->] & [->|(d & t & -> & _)] & _); done. Qed.
Lemma as_double_node strtod lit n : is_node (JNumber lit) n -> n_type n = JSON_NUMBER /\ json_as_double strtod n = match as_double strtod lit with Some d => inr d | None => inl JSON_ERR_RANGE end.
Proof.
  intros (s & Hr & ->). inversion Hr as [| | |? Hn| | | | |]; subst. split; [done|]. unfold json_as_double, as_double. cbn [node_of n_type n_s]. rewrite bool_decide_true by done. cbn [negb].
  pose proof (strlen_pos s (number_nonempty s Hn)). rewrite (proj2 (Z.eqb_neq (strlen s) 0)) by lia. cbn [orb]. by destruct (64 <=? strlen s).
Qed.

Lemma fill_node strtod v n dt : is_node v n -> (dt = dtype_f16 -> forall lit d, v = JNumber lit -> strtod lit = Some d -> carry_lost (to_float d) = false) ->
  parse_fill_value strtod n dt (replicate 8 0) (dtype_bpe dt) = Some (fill_value strtod v dt).
Proof.
  intros Hn Hex. rewrite fill_value_eq. f_equal. unfold fill_value. pose proof (special_value n v dt Hn) as Hsp. destruct (is_float_type dt) eqn:Hft.
  - destruct v as [| |lit| | |]; try (destruct (node_type_of _ n Hn) as [Ht _]; rewrite Ht; destruct dt; try done; cbn [n_type node_of scalar_node]; rewrite ?(bool_decide_false (_ = JSON_NUMBER)), Hsp by done; by destruct (special _)).
    destruct (as_double_node strtod lit n Hn) as [Ht Hd]. rewrite Ht, Hd, bool_decide_true by done. clear Hsp. unfold as_double in *. destruct (64 <=? strlen lit); [|destruct (strtod lit) as [d|] eqn:Es]; destruct dt; try done; cbn [mbind option_bind dtype_bpe];
      try (unfold parse_float_special; rewrite Ht; done).
    + rewrite (half_bits_of _ (Hex eq_refl lit d eq_refl Es)). by rewrite packed_bytes.
    + by rewrite packed_bytes.
    + by rewrite packed_bytes.
  - pose proof (as_uint_node v n Hn) as Hu. pose proof (as_int_node v n Hn) as Hi. destruct dt; try done; cbn [signed]; rewrite ?Hu, ?Hi;
      first [destruct (json_as_uint n); [done|]; cbn [mbind option_bind]; by rewrite packed_bytes|destruct (json_as_int n); [done|]; cbn [mbind option_bind]; by rewrite packed_u64].
Qed.

Lemma parse_fill_spec strtod v s dt : (dt = dtype_f16 -> forall lit d, value_at ["fill_value"] v = Some (JNumber lit) -> strtod lit = Some d -> carry_lost (to_float d) = false) ->
  text_of v s -> parse_fill strtod s dt = Some (fill_of strtod v dt).
Proof.
  intros Hex Ht. unfold parse_fill, fill_of.
  assert (((dtype_bpe dt =? 0) || (DAMACY_MAX_DTYPE_BYTES <? dtype_bpe dt)) = false) as -> by (by destruct dt).
  ask_path ["fill_value"] v s Ht x m Hm.
  change (replicate (Z.to_nat DAMACY_MAX_DTYPE_BYTES) 0) with (replicate 8 0).
  apply fill_node; [apply Hm|]. intros E lit d ->. by apply Hex.
Qed.

Lemma sharded_of_length sh rank r : sharded_of sh rank = Some r -> length (fst (fst r)) = rank.
Proof.
  unfold sharded_of. destruct (value_at _ sh ≫= extents) as [inner|]; [|done]. cbn [mbind option_bind].
  destruct (Nat.eqb_spec (length inner) rank); [|done]. cbn [negb].
  destruct (value_at _ sh ≫= codecs_of); [|done]. cbn. by intros [= <-].
Qed.

(** The last steps: inner shape, codec and the divisibility check. *)
Lemma parse_finish dt shp shard fill (b : bool) (o : option (list Z * compression_codec * bool)) :
  (forall r, o = Some r -> length (fst (fst r)) = length shard) ->
  (q ← Some (pad_fst <$> o);
   match q with
   | None => Some None
   | Some r =>
       let '(inner, codec, footer) := (r : list Z * compression_codec * bool) in
       ok ← multiples_loop (Z.to_nat (zlen shard)) (padded shard) inner 0;
       Some (if ok : bool then Some (Meta dt (zlen shard) (padded shp) inner (padded shard) b codec footer fill) else None)
   end) =
  Some (r ← o; let '(inner, codec, footer) := (r : list Z * compression_codec * bool) in
        if divides_all shard inner
        then Some (Meta dt (zlen shard) (padded shp) (padded inner) (padded shard) b codec footer fill) else None).
Proof.
  intros Hlen. destruct o as [[[inner codec] footer]|]; [|done]. specialize (Hlen _ eq_refl). cbn in Hlen.
  cbn [fmap option_fmap option_map pad_fst mbind option_bind]. rewrite Nat2Z.id, multiples_spec by done.
  cbn [mbind option_bind]. done.
Qed.

Lemma parse_document strtod v s : half_exact strtod v -> text_of v s -> zarr_metadata_parse strtod s = Some (parse_doc strtod v).
Proof.
  intros Hex Ht. unfold half_exact in Hex. unfold zarr_metadata_parse, parse_doc.
  ask_path ["node_type"] v s Ht nt m1 H1; cbn [mbind option_bind].
  rewrite (is_text_node nt m1 _ (proj1 H1)). destruct (is_text nt "array"); cbn [negb orb];
    [|by destruct (value_at ["zarr_format"] v)].
  ask_path ["zarr_format"] v s Ht zf m2 H2; cbn [mbind option_bind].
  assert (bool_decide (json_as_int m2 = inr 3) = bool_decide (as_int zf = Some 3)) as ->.
  { apply bool_decide_ext. rewrite (as_int_node zf m2 (proj1 H2)). destruct (json_as_int m2); naive_solver. }
  destruct (bool_decide (as_int zf = Some 3)); cbn [negb]; [|done].
  ask_path ["shape"] v s Ht sv m3 H3; cbn [mbind option_bind].
  rewrite (read_uint_array_spec sv m3 H3). cbn [mbind option_bind].
  destruct (extents sv) as [shp|] eqn:Eshp; [|done]. cbn [fmap option_fmap option_map mbind option_bind fst snd].
  ask_path ["data_type"] v s Ht dv m4 H4; cbn [mbind option_bind].
  rewrite (type_node dv m4 (proj1 H4)). specialize (Hex dv).
  destruct (type_of dv) as [dt|] eqn:Edt; [|done]. cbn [mbind option_bind].
  rewrite (parse_fill_spec strtod v s dt) by (done || (intros -> lit d Hx; by apply Hex)). cbn [mbind option_bind].
  destruct (fill_of strtod v dt) as [fill|]; [|done]. cbn [mbind option_bind].
  ask_path ["chunk_grid"; "configuration"; "chunk_shape"] v s Ht gv m5 H5; cbn [mbind option_bind].
  rewrite (read_uint_array_spec gv m5 H5). cbn [mbind option_bind].
  destruct (extents gv) as [shard|] eqn:Eshard; [|done]. cbn [fmap option_fmap option_map mbind option_bind fst snd].
  destruct (Nat.eqb_spec (length shard) (length shp)) as [Hlen|Hne];
    [rewrite Hlen, Z.eqb_refl|rewrite (proj2 (Z.eqb_neq _ _)) by lia; done]. cbn [negb].
  destruct (resolve_asked v s sharding_path (tests_sharding v) Ht) as (res & -> & Ha). cbn [mbind option_bind]. rewrite <-Hlen.
  apply extents_length in Eshard. destruct (first_result sharding_path v) as [e|sh] eqn:Ef; cbn [asked] in Ha.
  - change (first_result _ v) with (first_result sharding_path v). rewrite Ef. subst res. case_bool_decide as Ee; [subst e|by destruct e].
    rewrite (parse_plain_spec v s shard Ht) by lia.
    rewrite (parse_finish dt shp shard fill false (plain_of v shard)); [by destruct (plain_of v shard)|].
    intros r. unfold plain_of. destruct (value_at ["codecs"] v ≫= codecs_of); [|done]. by intros [= <-].
  - change (first_result _ v) with (first_result sharding_path v). rewrite Ef. destruct Ha as (n & -> & Hn). rewrite (parse_sharded_spec sh n (length shard) (sharding_text v sh n Ef Hn)).
    rewrite (parse_finish dt shp shard fill true (sharded_of sh (length shard))); [by destruct (sharded_of sh (length shard))|].
    apply sharded_of_length.
Qed.
