(* ===== verification/ZarrMetaClaims.v ===== *)
(** * Metadata claims

    The theorems about [zarr_metadata_parse], and the conversion to half precision
    that fill values go through. *)

From Stdlib Require Import Ascii.
From stdpp Require Import strings.
From S2P Require Import Prelude Selection Strbuf Plan Json JsonTotal JsonSpec JsonQuery JsonWriter ZarrMeta ZarrMetaProof.

#[local] Open Scope Z_scope.

(** ** Documents that describe arrays *)

(** An array of integers; the fill value is a number of its type. *)
Record array_doc := ArrayDoc {
  d_dtype : zdtype; d_fill : Z; d_shape : list Z; d_shard : list Z; d_inner : list Z; d_codec : compression_codec;
  d_sharded : bool; d_footer : bool }.

Definition nums (l : list Z) : tree := TArray (TUint <$> l).
Definition named (name : string) : tree := TObject [("name", TString name)].
Definition codecs_tree (c : compression_codec) : tree :=
  TArray (named "bytes" ::
    match c with
    | CODEC_ZSTD => [named "zstd"]
    | CODEC_BLOSC_LZ4 => [TObject [("name", TString "blosc"); ("configuration", TObject [("cname", TString "lz4")])]]
    | CODEC_BLOSC_ZSTD => [TObject [("name", TString "blosc"); ("configuration", TObject [("cname", TString "zstd")])]]
    | _ => []
    end).

Definition doc_tree (d : array_doc) : tree :=
  TObject [
    ("zarr_format", TUint 3); ("node_type", TString "array"); ("shape", nums (d_shape d));
    ("data_type", TString (dtype_text (d_dtype d)));
    ("chunk_grid", TObject [("name", TString "regular"); ("configuration", TObject [("chunk_shape", nums (d_shard d))])]);
    ("fill_value", if signed (d_dtype d) then TInt (d_fill d) else TUint (d_fill d));
    ("codecs",
      if d_sharded d then
        TArray [TObject [("name", TString "sharding_indexed");
          ("configuration", TObject [("chunk_shape", nums (d_inner d)); ("codecs", codecs_tree (d_codec d));
             ("index_location", TString (if d_footer d then "end" else "start"))])]]
      else codecs_tree (d_codec d))].

Record doc_ok (d : array_doc) : Prop := {
  dk_type : is_float_type (d_dtype d) = false;
  dk_fill : if signed (d_dtype d) then - 2 ^ 63 <= d_fill d < 2 ^ 63 else is_u64 (d_fill d);
  dk_rank : 0 < zlen (d_shape d) <= DAMACY_MAX_RANK;
  dk_shard : length (d_shard d) = length (d_shape d);
  dk_inner : length (d_inner d) = length (d_shape d);
  dk_nums : Forall is_u64 (d_shape d ++ d_shard d ++ d_inner d);
  dk_div : divides_all (d_shard d) (d_inner d) = true;
  dk_codec : d_codec d <> CODEC_FILL;
  dk_plain : d_sharded d = false -> d_inner d = d_shard d /\ d_footer d = true }.

(** Its metadata: the fill value as the little-endian bytes of its type. *)
Definition meta_of (d : array_doc) : zarr_metadata :=
  Meta (d_dtype d) (zlen (d_shape d)) (padded (d_shape d)) (padded (d_inner d)) (padded (d_shard d)) (d_sharded d)
    (d_codec d) (d_footer d) (packed (dtype_bpe (d_dtype d)) (u64 (d_fill d))).

(** The literals the writer makes. *)
Lemma uint_literal x : is_u64 x -> as_uint (JNumber (utoa x)) = Some x.
Proof.
  intros Hx. rewrite (as_uint_node _ (node_of (JNumber (utoa x)) (utoa x))) by (exists (utoa x); split; [by constructor; apply utoa_number|done]).
  cbn [node_of]. by rewrite not_float_utoa, as_uint_utoa.
Qed.
Lemma int_literal x : - 2 ^ 63 <= x < 2 ^ 63 -> as_int (JNumber (itoa x)) = Some x.
Proof.
  intros Hx. rewrite (as_int_node _ (node_of (JNumber (itoa x)) (itoa x))) by (exists (itoa x); split; [by constructor; apply itoa_number|done]).
  cbn [node_of]. by rewrite not_float_itoa, as_int_itoa.
Qed.

Lemma extents_nums l : Forall is_u64 l -> 0 < zlen l <= DAMACY_MAX_RANK -> extents (json_of (nums l)) = Some l.
Proof.
  intros Hl Hr. cbn [nums json_of extents]. rewrite !length_fmap.
  rewrite (proj2 (Z.ltb_lt _ _)), (proj2 (Z.leb_le _ _)) by lia. cbn [andb]. clear Hr.
  induction Hl as [|x l Hx _ IH]; [done|].
  change (mapM as_uint (json_of <$> (TUint <$> (x :: l))))
    with (y ← as_uint (JNumber (utoa x)); k ← mapM as_uint (json_of <$> (TUint <$> l)); mret (y :: k)).
  by rewrite IH, uint_literal.
Qed.

Lemma codecs_tree_of c : c <> CODEC_FILL -> codecs_of (json_of (codecs_tree c)) = Some c.
Proof. by destruct c. Qed.

Lemma fill_of_doc strtod d : doc_ok d ->
  fill_of strtod (json_of (doc_tree d)) (d_dtype d) = Some (packed (dtype_bpe (d_dtype d)) (u64 (d_fill d))).
Proof.
  intros [Hty Hf _ _ _ _ _ _ _]. unfold fill_of.
  assert (value_at ["fill_value"] (json_of (doc_tree d)) =
    Some (json_of (if signed (d_dtype d) then TInt (d_fill d) else TUint (d_fill d)))) as -> by done.
  unfold fill_value. rewrite Hty, packed_u64 by (by destruct (d_dtype d)). replace (width (d_dtype d)) with (dtype_bpe (d_dtype d)) by (by destruct (d_dtype d)).
  destruct (signed (d_dtype d)); cbn [json_of]; [by rewrite int_literal|by rewrite uint_literal].
Qed.

Lemma parse_doc_tree strtod d : doc_ok d -> parse_doc strtod (json_of (doc_tree d)) = Some (meta_of d).
Proof.
  intros Hok. pose proof (fill_of_doc strtod d Hok) as Hfill. destruct Hok as [Hty Hf Hr Hs Hi Hn Hd Hc Hp].
  rewrite !Forall_app in Hn. destruct Hn as (N1 & N2 & N3).
  pose proof (extents_nums _ N1 Hr) as E1. pose proof (extents_nums _ N2 ltac:(lia)) as E2.
  pose proof (extents_nums _ N3 ltac:(lia)) as E3. pose proof (codecs_tree_of _ Hc) as EC.
  unfold parse_doc, meta_of.
  assert (value_at ["node_type"] (json_of (doc_tree d)) = Some (JString "array")) as -> by done.
  assert (value_at ["zarr_format"] (json_of (doc_tree d)) = Some (JNumber (utoa 3))) as -> by done.
  assert (value_at ["shape"] (json_of (doc_tree d)) = Some (json_of (nums (d_shape d)))) as -> by done.
  assert (value_at ["data_type"] (json_of (doc_tree d)) = Some (JString (escape (dtype_text (d_dtype d))))) as -> by done.
  assert (value_at ["chunk_grid"; "configuration"; "chunk_shape"] (json_of (doc_tree d)) = Some (json_of (nums (d_shard d))))
    as -> by done.
  cbn [mbind option_bind]. rewrite E1, E2. cbn [mbind option_bind].
  assert (type_of (JString (escape (dtype_text (d_dtype d)))) = Some (d_dtype d)) as -> by (by destruct (d_dtype d)).
  cbn [mbind option_bind]. rewrite Hfill. cbn [mbind option_bind].
  assert (negb (is_text (JString "array") "array") || negb (bool_decide (as_int (JNumber (utoa 3)) = Some 3)) = false)
    as -> by done.
  rewrite Hs, Nat.eqb_refl. cbn [negb]. destruct (d_sharded d) eqn:Esh.
  - set (sh := TObject [("name", TString "sharding_indexed");
          ("configuration", TObject [("chunk_shape", nums (d_inner d)); ("codecs", codecs_tree (d_codec d));
             ("index_location", TString (if d_footer d then "end" else "start"))])]).
    assert (first_result [QUERY_KEY "codecs"; QUERY_ITER; QUERY_WHERE [QUERY_KEY "name"] "sharding_indexed" JSON_STRING] (json_of (doc_tree d)) = inr (json_of sh)) as -> by (unfold doc_tree; by rewrite Esh).
    unfold sharded_of.
    assert (value_at ["configuration"; "chunk_shape"] (json_of sh) = Some (json_of (nums (d_inner d)))) as -> by done.
    assert (value_at ["configuration"; "codecs"] (json_of sh) = Some (json_of (codecs_tree (d_codec d)))) as -> by done.
    assert (value_at ["configuration"; "index_location"] (json_of sh) =
      Some (JString (escape (if d_footer d then "end" else "start")))) as -> by done.
    cbn [mbind option_bind]. rewrite E3, EC. cbn [mbind option_bind]. rewrite Hi, Nat.eqb_refl. cbn [negb mbind option_bind].
    rewrite Hd. by destruct (d_footer d).
  - destruct (Hp eq_refl) as [Hin Hft].
    assert (Hc2 : value_at ["codecs"] (json_of (doc_tree d)) = Some (json_of (codecs_tree (d_codec d))))
      by (unfold doc_tree; by rewrite Esh).
    assert (first_result [QUERY_KEY "codecs"; QUERY_ITER; QUERY_WHERE [QUERY_KEY "name"] "sharding_indexed" JSON_STRING] (json_of (doc_tree d)) = inl JSON_ERR_NOT_FOUND) as ->.
    { unfold doc_tree. rewrite Esh. by destruct (d_codec d). }
    unfold plain_of. rewrite Hc2. cbn [mbind option_bind]. rewrite EC. cbn [mbind option_bind]. by rewrite <-Hin, Hd, Hft, Hin in *.
Qed.

(** ** Any input *)

Definition fits (s : string) : Prop := (slen s <= MAXLEN)%nat.

Lemma resolve_total s parts : fits s -> exists res, resolve s parts = Some res /\ step_in MAXLEN res.
Proof. intros Hs. destruct (json_resolve_total s parts Hs) as ([res err] & E & Hb). exists res. unfold resolve. by rewrite E. Qed.

(** Runs [resolve] on any text. *)
Ltac any_path Hs n Hn :=
  let res := fresh "res" in let E := fresh "E" in
  match goal with |- context [mbind _ (resolve ?s ?p)] => destruct (resolve_total s p Hs) as (res & E & Hn); rewrite E; clear E end;
  cbn [mbind option_bind]; destruct res as [?|n]; [clear Hn|specialize (Hn n eq_refl)].

(** An array of extents as the reader leaves it. *)
Definition extents_ok (l : list Z) : Prop := zlen l = DAMACY_MAX_RANK /\ Forall is_u64 l.

Lemma strto_nonneg s neg v : strto s = Some (neg, v) -> 0 <= v.
Proof.
  unfold strto. case_match; [done|]. pose proof (digits_value_nonneg (skip_sign (skip_space s)) 0 ltac:(lia)) as H0.
  destruct (digits_value _ _) as [v' c]. case_match; [|done]. by intros [= _ <-].
Qed.

Lemma as_uint_range n x : json_as_uint n = inr x -> is_u64 x.
Proof.
  unfold json_as_uint. repeat (case_match; try done); intros [= <-]; try apply u64_range.
  match goal with H : strto _ = Some _ |- _ => apply strto_nonneg in H end.
  match goal with H : (UINT64_MAX <? _) = false |- _ => apply Z.ltb_ge in H end. clia.
Qed.

Lemma read_uint_loop_total src fuel it out n :
  fits src -> iter_ok src [QUERY_ITER] it -> extents_ok out -> 0 <= n <= DAMACY_MAX_RANK ->
  DAMACY_MAX_RANK - n + 1 < Z.of_nat fuel ->
  exists r, read_uint_loop fuel it out n DAMACY_MAX_RANK = Some r /\
    forall l k, r = Some (l, k) -> extents_ok l /\ 0 < k <= DAMACY_MAX_RANK.
Proof.
  intros Hs. revert it out n. induction fuel as [|fuel IH]; intros it out n Hit Hout Hn Hf; [lia|]. cbn [read_uint_loop].
  destruct (json_iter_next_total src [QUERY_ITER] it Hs Hit) as (r & it' & -> & Hit' & _). cbn [mbind option_bind].
  destruct r as [e|v].
  - destruct e; try (by eexists). destruct (Z.eqb_spec n 0); [by eexists|]. eexists. split; [done|].
    intros l k [= <- <-]. split; [done|]. rewrite u8_id; unfold DAMACY_MAX_RANK in *; [lia|clia].
  - destruct (Z.leb_spec DAMACY_MAX_RANK n); [by eexists|].
    destruct (json_as_uint v) as [e|x] eqn:Ex; [by eexists|]. destruct Hout as [Hlen Hall].
    rewrite aset_range by (unfold DAMACY_MAX_RANK in *; lia). cbn [mbind option_bind].
    apply IH; [done| |lia|lia]. split; [by rewrite length_insert|].
    apply Forall_insert; [done|by eapply as_uint_range].
Qed.

Lemma read_uint_array_total n :
  fits (n_s n) -> exists r, read_uint_array n (replicate (Z.to_nat DAMACY_MAX_RANK) 0) DAMACY_MAX_RANK = Some r /\
    forall l k, r = Some (l, k) -> extents_ok l /\ 0 < k <= DAMACY_MAX_RANK.
Proof.
  intros Hn. unfold read_uint_array. case_match; [by eexists|].
  apply (read_uint_loop_total (n_s n)); [done| | |unfold DAMACY_MAX_RANK; lia..].
  - split; [done|]. split; [done|]. apply Forall_nil_2.
  - split; [by rewrite length_replicate|]. by apply Forall_replicate.
Qed.

(** A call that ends, with a property of what it accepts. *)
Definition returns {A} (P : A -> Prop) (m : option (option A)) : Prop :=
  exists r, m = Some r /\ forall x, r = Some x -> P x.
Lemma returns_none {A} (P : A -> Prop) : returns P (Some None).
Proof. by eexists. Qed.
Lemma returns_some {A} (P : A -> Prop) x : P x -> returns P (Some (Some x)).
Proof. intros H. eexists. split; [done|]. by intros y [= <-]. Qed.
#[local] Hint Resolve returns_none returns_some : damacy.

Lemma returns_step {A B} (P : A -> Prop) (Q : B -> Prop) m k :
  returns P m -> (forall x, P x -> returns Q (k x)) ->
  returns Q (r ← m; match r with None => Some None | Some x => k x end).
Proof.
  intros (r & -> & Hr) Hk. cbn [mbind option_bind]. destruct r as [x|]; [by apply Hk, Hr|apply returns_none].
Qed.

Lemma read_uint_array_returns n :
  fits (n_s n) ->
  returns (fun r => extents_ok (fst r) /\ 0 < snd r <= DAMACY_MAX_RANK)
    (read_uint_array n (replicate (Z.to_nat DAMACY_MAX_RANK) 0) DAMACY_MAX_RANK).
Proof. intros Hn. destruct (read_uint_array_total n Hn) as (r & -> & H). eexists. split; [done|]. intros [l k]. apply H. Qed.

(** An iterator that gave an element keeps a frame. *)
Lemma iter_next_open src it n it' :
  iter_ok src [QUERY_ITER] it -> json_iter_next it = Some (inr n, it') -> it_frames it' <> [].
Proof.
  intros (_ & Hp & _). unfold json_iter_next. destruct (it_done it); [done|]. rewrite Hp. destruct (it_frames it) as [|f fs].
  - destruct (lex_value _) as [[? [e|node]]|]; cbn [mbind option_bind snd]; try done.
    destruct (apply_from _ _ 0%nat node []) as [[[e|v] frames]|] eqn:EA; cbn [mbind option_bind]; try done.
    + destruct e; try done. destruct frames as [|f fs]; [done|].
      destruct (backtrack_iter _ _ _ _) as [[v fs']|] eqn:EB; cbn [mbind option_bind fst snd]; [|done].
      intros [= -> <-]. by eapply backtrack_keeps.
    + intros [= <- <-]. eapply apply_from_keeps; [exact EA|]. right. by apply list_elem_of_singleton.
  - destruct (backtrack_iter _ _ _ _) as [[v fs']|] eqn:EB; cbn [mbind option_bind fst snd]; [|done].
    intros [= -> <-]. by eapply backtrack_keeps.
Qed.

Lemma blosc_returns c : fits (n_s c) -> returns (fun k => k <> CODEC_FILL) (resolve_blosc_cname c).
Proof.
  intros Hc. unfold resolve_blosc_cname. any_path Hc n Hn; [auto with damacy|].
  repeat case_match; by auto with damacy.
Qed.

Lemma inner_codec_loop_returns src fuel it :
  fits src -> iter_ok src [QUERY_ITER] it ->
  (match it_frames it with [] => S (S (slen src)) | fs => S (frames_size fs) end <= fuel)%nat ->
  returns (fun k => k <> CODEC_FILL) (inner_codec_loop fuel it).
Proof.
  intros Hs. revert it. induction fuel as [|fuel IH]; intros it Hit Hf; [by destruct (it_frames it); lia|]. cbn [inner_codec_loop].
  destruct (json_iter_next_total src [QUERY_ITER] it Hs Hit) as (r & it' & E & Hit' & Hb & Hd). rewrite E.
  cbn [mbind option_bind]. destruct r as [e|c]; [destruct e; by auto with damacy|].
  specialize (Hb c eq_refl). specialize (Hd c eq_refl). pose proof (iter_next_open src it c it' Hit E) as Hne.
  destruct (negb _); [auto with damacy|]. any_path Hb nm Hn; [auto with damacy|]. destruct (negb _); [auto with damacy|].
  destruct (json_str_eq nm "bytes");
    [|repeat (destruct (json_str_eq nm _); [by auto using blosc_returns with damacy|]); auto with damacy].
  apply IH; [done|]. destruct (it_frames it') as [|f' fs'] eqn:E'; [done|]. destruct (it_frames it); lia.
Qed.

Lemma parse_inner_codec_returns n : fits (n_s n) -> returns (fun k => k <> CODEC_FILL) (parse_inner_codec n).
Proof.
  intros Hn. unfold parse_inner_codec. destruct (negb _); [auto with damacy|].
  apply (inner_codec_loop_returns (n_s n)); [done| |simpl; unfold slen; lia].
  split; [done|]. split; [done|]. apply Forall_nil_2.
Qed.

(** What the two kinds of array give. *)
Definition layout_ok (r : list Z * compression_codec * bool) : Prop := extents_ok (fst (fst r)) /\ snd (fst r) <> CODEC_FILL.

Lemma parse_sharded_returns n rank : fits (n_s n) -> returns layout_ok (parse_sharded n rank).
Proof.
  intros Hn. unfold parse_sharded. any_path Hn a Ha; [auto with damacy|].
  eapply returns_step; [by apply read_uint_array_returns|]. intros [l k] [Hl Hk]. destruct (negb _); [auto with damacy|].
  any_path Hn b Hb; [auto with damacy|]. eapply returns_step; [by apply parse_inner_codec_returns|]. intros codec Hc.
  any_path Hn c Hc'; by apply returns_some.
Qed.

Lemma copy_loop_total n src dst d :
  extents_ok src -> extents_ok dst -> 0 <= d -> d + Z.of_nat n <= DAMACY_MAX_RANK ->
  exists l, copy_loop n src dst d = Some l /\ extents_ok l.
Proof.
  intros [Hs Hsu]. revert dst d. induction n as [|n IH]; intros dst d [Hd Hdu] H0 Hn; [by eexists|]. cbn [copy_loop].
  destruct (aget_is_Some src d ltac:(lia)) as [x Hx]. rewrite Hx. cbn [mbind option_bind].
  rewrite aset_range by lia. cbn [mbind option_bind]. apply IH; [|lia..]. split; [by rewrite length_insert|].
  apply Forall_insert; [done|]. apply aget_lookup in Hx as [_ Hx]. by eapply Forall_lookup_1 in Hx.
Qed.

Lemma parse_plain_returns s rank shard :
  fits s -> extents_ok shard -> 0 < rank <= DAMACY_MAX_RANK -> returns layout_ok (parse_plain s rank shard).
Proof.
  intros Hs Hx Hr. unfold parse_plain.
  destruct (copy_loop_total (Z.to_nat rank) shard (replicate (Z.to_nat DAMACY_MAX_RANK) 0) 0) as (l & -> & Hl); [done| |lia..|].
  { split; [by rewrite length_replicate|by apply Forall_replicate]. }
  cbn [mbind option_bind]. any_path Hs b Hb; [auto with damacy|].
  eapply returns_step; [by apply parse_inner_codec_returns|]. intros codec Hc. by apply returns_some.
Qed.

(** Every inner chunk extent is positive and divides the shard's. *)
Definition nested (rank : Z) (shard inner : list Z) : Prop :=
  forall d, 0 <= d < rank -> exists s c, aget shard d = Some s /\ aget inner d = Some c /\ 0 < c /\ s mod c = 0.

Lemma multiples_loop_total n shard inner d :
  extents_ok shard -> extents_ok inner -> 0 <= d -> d + Z.of_nat n <= DAMACY_MAX_RANK ->
  exists ok, multiples_loop n shard inner d = Some ok /\
    (ok = true -> forall k, d <= k < d + Z.of_nat n -> exists s c, aget shard k = Some s /\ aget inner k = Some c /\ 0 < c /\ s mod c = 0).
Proof.
  intros [Hs Hsu] [Hi Hiu]. revert d. induction n as [|n IH]; intros d H0 Hn; [eexists; split; [done|]; lia|]. cbn [multiples_loop].
  destruct (aget_is_Some inner d ltac:(lia)) as [c Hc]. destruct (aget_is_Some shard d ltac:(lia)) as [s Hsd].
  rewrite Hc, Hsd. cbn [mbind option_bind].
  assert (0 <= c) by (apply aget_lookup in Hc as [_ Hc]; eapply Forall_lookup_1 in Hc; [|done]; unfold is_u64 in *; lia).
  destruct (Z.eqb_spec c 0); [by eexists|]. destruct (Z.eqb_spec (s mod c) 0); cbn [orb negb]; [|by eexists].
  destruct (IH (d + 1)) as (ok & -> & Hok); [lia..|]. eexists. split; [done|]. intros Ht k Hk.
  destruct (decide (k = d)) as [->|]; [exists s, c; split_and!; [done..|lia|done]|]. apply Hok; [done|lia].
Qed.

(** Eight bytes. *)
Definition fill_ok (l : list Z) : Prop := zlen l = DAMACY_MAX_DTYPE_BYTES /\ Forall is_u8 l.
Lemma packed_ok k v : 0 <= k <= 8 -> fill_ok (packed k v).
Proof.
  intros Hk. unfold fill_ok, packed. rewrite length_app, length_fmap, length_seqZ, length_replicate.
  split; [unfold DAMACY_MAX_DTYPE_BYTES; lia|]. apply Forall_app. split; [|apply Forall_replicate; clia].
  apply Forall_fmap, Forall_true. intros i. unfold u8, is_u8. apply Z.mod_pos_bound. lia.
Qed.

Lemma special_ok n dt l : parse_float_special n dt (replicate 8 0) = Some (Some l) -> fill_ok l.
Proof.
  unfold parse_float_special. case_match; [done|]. destruct (match n_s n with EmptyString => _ | String _ _ => _ end) as [neg s].
  destruct (if bool_decide (s = "NaN") then _ else _) as [v|]; [|done]. set (w := if neg then _ else _).
  destruct dt; try done; intros Hl.
  - assert (pack_le (replicate 8 0) (float_to_half_bits (to_float w)) 2 = Some (packed 2 (float_to_half_bits (to_float w)))) as E by done.
    rewrite E in Hl. cbn in Hl. simplify_eq. by apply (packed_ok 2).
  - assert (pack_le (replicate 8 0) (to_float w) 4 = Some (packed 4 (to_float w))) as E by done.
    rewrite E in Hl. cbn in Hl. simplify_eq. by apply (packed_ok 4).
  - assert (pack_le (replicate 8 0) w 8 = Some (packed 8 w)) as E by done.
    rewrite E in Hl. cbn in Hl. simplify_eq. by apply (packed_ok 8).
Qed.

Lemma fill_value_ok strtod n dt l :
  parse_fill_value strtod n dt (replicate 8 0) (dtype_bpe dt) = Some (Some l) -> fill_ok l.
Proof.
  rewrite fill_value_eq. intros [= H]. revert H.
  assert (Hsp : forall dt', default None (parse_float_special n dt' (replicate 8 0)) = Some l -> fill_ok l).
  { intros dt' H. apply (special_ok n dt'). destruct (parse_float_special n dt' (replicate 8 0)) as [o|]; [|done]. by cbn in H; rewrite H. }
  assert (Hp : forall k v, 0 <= k <= 8 -> Some (packed k v) = Some l -> fill_ok l) by (intros k v Hk [= <-]; by apply packed_ok).
  destruct dt; repeat case_match; try done; first [by apply (Hsp dtype_f16)|by apply (Hsp dtype_f32)|by apply (Hsp dtype_f64)|apply Hp; cbn; lia].
Qed.

Lemma parse_fill_returns strtod s dt : fits s -> returns fill_ok (parse_fill strtod s dt).
Proof.
  intros Hs. unfold parse_fill.
  assert (((dtype_bpe dt =? 0) || (DAMACY_MAX_DTYPE_BYTES <? dtype_bpe dt)) = false) as -> by (by destruct dt).
  any_path Hs n Hn; [apply returns_some; exact (packed_ok 0 0 ltac:(lia))|].
  change (replicate (Z.to_nat DAMACY_MAX_DTYPE_BYTES) 0) with (replicate 8 0).
  eexists. split; [apply fill_value_eq|]. intros l Hl. apply (fill_value_ok strtod n dt). rewrite fill_value_eq. by rewrite Hl.
Qed.

(** What accepted metadata satisfies. *)
Record meta_ok (m : zarr_metadata) : Prop := {
  mo_rank : 0 < m_rank m <= DAMACY_MAX_RANK;
  mo_shape : extents_ok (shape m);
  mo_shard : extents_ok (shard_shape m);
  mo_inner : extents_ok (inner_chunk_shape m);
  mo_nested : nested (m_rank m) (shard_shape m) (inner_chunk_shape m);
  mo_fill : fill_ok (m_fill_value m);
  mo_codec : inner_codec m <> CODEC_FILL }.

(** The last steps of the parser, for either kind of array. *)
Lemma finish_returns dt rank shp shard fill b r :
  0 < rank <= DAMACY_MAX_RANK -> extents_ok shp -> extents_ok shard -> fill_ok fill -> layout_ok r ->
  returns meta_ok (let '(inner, codec, footer) := (r : list Z * compression_codec * bool) in
    ok ← multiples_loop (Z.to_nat rank) shard inner 0;
    Some (if ok : bool then Some (Meta dt rank shp inner shard b codec footer fill) else None)).
Proof.
  destruct r as [[inner codec] footer]. intros Hr Hp Hs Hf [Hi Hc]. cbn [fst snd] in *.
  destruct (multiples_loop_total (Z.to_nat rank) shard inner 0) as (ok & -> & Hok); [done|done|lia|lia|].
  cbn [mbind option_bind]. destruct ok; [|apply returns_none]. apply returns_some. split; try done.
  intros d Hd. apply Hok; [done|simpl in Hd; lia].
Qed.

Lemma metadata_returns strtod s : fits s -> returns meta_ok (zarr_metadata_parse strtod s).
Proof.
  intros Hs. unfold zarr_metadata_parse. any_path Hs n1 H1; [auto with damacy|]. destruct (negb _); [auto with damacy|].
  any_path Hs n2 H2; [auto with damacy|]. destruct (negb _); [auto with damacy|].
  any_path Hs n3 H3; [auto with damacy|]. eapply returns_step; [by apply read_uint_array_returns|]. intros [shp rank] [Hshp Hrank].
  any_path Hs n4 H4; [auto with damacy|]. destruct (parse_data_type n4) as [dt|]; [|auto with damacy].
  eapply returns_step; [by apply parse_fill_returns|]. intros fill Hfill.
  any_path Hs n5 H5; [auto with damacy|]. eapply returns_step; [by apply read_uint_array_returns|]. intros [shard k] [Hshard _].
  cbn [fst snd] in *. destruct (negb _); [auto with damacy|]. any_path Hs sh Hsh.
  - destruct (bool_decide _); [|auto with damacy]. eapply returns_step; [by apply parse_plain_returns|].
    intros r Hr. by apply finish_returns.
  - eapply returns_step; [by apply parse_sharded_returns|]. intros r Hr. by apply finish_returns.
Qed.

(** ** The claims *)

Lemma fits_int s : strlen s <= INT_MAX -> fits s.
Proof. unfold fits, strlen, MAXLEN, INT_MAX. lia. Qed.


(** C34: on any bytes of at most [INT_MAX], JSON or not, [zarr_metadata_parse] returns
    and never reads or writes outside its arrays; the metadata it accepts has a rank
    of 1 to [DAMACY_MAX_RANK], shapes of 64-bit extents, inner chunk extents that are
    positive and divide the shard's, eight bytes of fill value and a codec that a
    document can name. *)
Theorem zarr_metadata_parse_safe strtod s :
  strlen s <= INT_MAX ->
  exists r, zarr_metadata_parse strtod s = Some r /\ forall m, r = Some m -> meta_ok m.
Proof. intros Hs. by apply metadata_returns, fits_int. Qed.

(** C35: the document that describes an array of integers, plain or sharded, in any
    rendering, is read back as exactly that array's metadata. *)
Theorem zarr_metadata_round_trip strtod d s :
  doc_ok d -> renders (json_of (doc_tree d)) s -> strlen s <= INT_MAX ->
  zarr_metadata_parse strtod s = Some (Some (meta_of d)).
Proof.
  intros Hd Hr Hs. rewrite <-(parse_doc_tree strtod d Hd). apply parse_document; [|by apply text_exact, fits_int].
  intros x lit y Hx Ht. exfalso. pose proof (dk_type d Hd) as Hty. injection Hx as <-. by destruct (d_dtype d).
Qed.

(** A sharded 16-bit array with negative fill value. *)
Definition ex_doc : array_doc :=
  ArrayDoc dtype_i16 (-2) [100; 200] [64; 64] [32; 16] CODEC_ZSTD true false.
Lemma ex_doc_ok : doc_ok ex_doc.
Proof. split; try done. repeat (apply Forall_cons_2; [clia|]). apply Forall_nil_2. Qed.

(** Decides [tree_ok] on a concrete tree. *)
Ltac tree_ok_step :=
  first [apply Forall_nil_2|apply Forall_cons_2|apply st_nil|apply st_plain; [done..|]
        |apply ok_object|apply ok_array|apply ok_string|apply ok_uint; done|apply ok_int; done|split].

Lemma ex_doc_tree_ok : tree_ok (doc_tree ex_doc).
Proof. unfold doc_tree, ex_doc, nums; cbn. repeat tree_ok_step. Qed.



(** A truncated document is refused. *)
Lemma zarr_metadata_parse_safe_witness :
  strlen "{ [1,]}" <= INT_MAX /\
  exists r, zarr_metadata_parse (fun _ => None) "{ [1,]}" = Some r /\ forall m, r = Some m -> meta_ok m.
Proof. split; [by vm_compute|]. apply (zarr_metadata_parse_safe (fun _ => None) "{ [1,]}"). by vm_compute. Defined.

Lemma zarr_metadata_round_trip_witness :
  doc_ok ex_doc /\ zarr_metadata_parse (fun _ => None) (tree_text (doc_tree ex_doc)) =
    Some (Some (Meta dtype_i16 2 (padded [100; 200]) (padded [32; 16]) (padded [64; 64]) true CODEC_ZSTD false
      [254; 255; 0; 0; 0; 0; 0; 0])).
Proof.
  split; [apply ex_doc_ok|].
  apply (zarr_metadata_round_trip (fun _ => None) ex_doc); [apply ex_doc_ok|apply tree_renders, ex_doc_tree_ok|by vm_compute].
Defined.

(** The rounding carry of the conversion to half precision is OR-ed into the
    exponent: the float just below 2 becomes 1, although the nearest half is 2. *)
Example half_carry_lost : float_to_half_bits 0x3FFFFFFF = 0x3C00 /\ half_of 0x3FFFFFFF = 0x4000 /\ carry_lost 0x3FFFFFFF = true.
Proof. done. Qed.
