(* ===== verification/Prefetcher.v ===== *)
(** * The prefetcher

    The keys of the three caches, with the comparison and the hash of
    [src/src/prefetch/array_meta.c], [shard_index.c] and [chunk_layout.c]. A stored
    key is a copy of the probe, so both have the same type here.

    Then [src/src/prefetch/prefetcher.c]: samples leave the lookahead, ask the caches for
    array metadata, then for the indices of the shards they touch, then for the chunk
    layout, and are handed out in the order they were pushed.

    The caches are an interface, [MetaCaches]: what the prefetcher calls of
    [prefetch_cache.c]. Its operations return a new world, which also holds what
    other threads did to the caches before the call took effect. A gate is the
    address of its owner entry. *)

From stdpp Require Import strings.
From S2P Require Import Prelude Crc ShardFooter PrefetchTypes PrefetchProof Selection Plan ShardIter Hash DispatchTypes Lookahead PrefetchCache.

#[local] Open Scope Z_scope.

(** A [uint64_t] array as memory, on the little-endian targets. *)
Definition u64_array_bytes (l : list Z) : list Z := l ≫= le_bytes 8.

(** ** Array metadata: the uri *)

Definition array_meta_key_eq (stored probe : string) : bool := bool_decide (stored = probe).

(** ** Shard indices *)

(** [sk_coord]: the entries of [shard_coord] below the rank come first. *)
Record shard_index_key := ShardKey { sk_uri : string; sk_coord : list Z; sk_rank : Z }.

Definition shard_index_eq (a b : shard_index_key) : bool :=
  (sk_rank a =? sk_rank b) && bool_decide (sk_uri a = sk_uri b) &&
  bool_decide (take (Z.to_nat (sk_rank a)) (sk_coord a) = take (Z.to_nat (sk_rank a)) (sk_coord b)).

Definition shard_index_key_hash (k : shard_index_key) : Z :=
  hash_combine (hash_fnv1a_str (sk_uri k)) (hash_fnv1a (u64_array_bytes (take (Z.to_nat (sk_rank k)) (sk_coord k)))).

(** ** Chunk layouts *)

(** [ck_coords] is flat, [n_shards] rows of [rank] entries. *)
Record chunk_layout_key := LayoutKey {
  ck_uri : string; ck_rank : Z; ck_n_shards : Z; ck_coords : list Z; ck_shards : list prefetch_handle }.

#[export] Instance prefetch_handle_eq_dec : EqDecision prefetch_handle.
Proof. solve_decision. Defined.

Definition chunk_layout_key_eq (a b : chunk_layout_key) : bool :=
  (ck_rank a =? ck_rank b) && (ck_n_shards a =? ck_n_shards b) && bool_decide (ck_uri a = ck_uri b) &&
  (let n_coord := Z.to_nat (ck_n_shards a * ck_rank a) in bool_decide (take n_coord (ck_coords a) = take n_coord (ck_coords b))) &&
  (let n := Z.to_nat (ck_n_shards a) in bool_decide (take n (ck_shards a) = take n (ck_shards b))).

Definition chunk_layout_key_hash (k : chunk_layout_key) : Z :=
  let h := hash_fnv1a_str (ck_uri k) in
  let n_coord := ck_n_shards k * ck_rank k in
  if n_coord =? 0 then h else hash_combine h (hash_fnv1a (u64_array_bytes (take (Z.to_nat n_coord) (ck_coords k)))).

(** ** The comparisons are equivalences, and equal keys have equal hashes *)

(** The part of a key that is compared. *)
Definition shard_key_part (k : shard_index_key) : Z * string * list Z :=
  (sk_rank k, sk_uri k, take (Z.to_nat (sk_rank k)) (sk_coord k)).
Definition layout_key_part (k : chunk_layout_key) : Z * Z * string * list Z * list prefetch_handle :=
  (ck_rank k, ck_n_shards k, ck_uri k, take (Z.to_nat (ck_n_shards k * ck_rank k)) (ck_coords k),
   take (Z.to_nat (ck_n_shards k)) (ck_shards k)).

Lemma shard_index_eq_part a b : shard_index_eq a b = bool_decide (shard_key_part a = shard_key_part b).
Proof.
  apply eq_bool_prop_intro. unfold shard_index_eq, shard_key_part. rewrite !andb_True, !bool_decide_spec, Is_true_true, Z.eqb_eq.
  split; [intros [[-> ->] H]; by rewrite H|]. intros [= H1 H2 H3]. rewrite H1 in *. by rewrite H3.
Qed.

Lemma chunk_layout_key_eq_part a b : chunk_layout_key_eq a b = bool_decide (layout_key_part a = layout_key_part b).
Proof.
  apply eq_bool_prop_intro. unfold chunk_layout_key_eq, layout_key_part.
  rewrite !andb_True, !bool_decide_spec, !Is_true_true, !Z.eqb_eq. split.
  - intros [[[[H1 H2] H3] H4] H5]. rewrite H1, H2 in *. by rewrite H3, H4, H5.
  - intros [= H1 H2 H3 H4 H5]. rewrite H1, H2 in *. done.
Qed.

(** Comparing by a part is an equivalence. *)
Lemma key_equiv_part {K P} `{!EqDecision P} (eq : K -> K -> bool) (part : K -> P) :
  (forall a b, eq a b = bool_decide (part a = part b)) -> KeyEquiv eq.
Proof.
  intros H. split.
  - intros k. rewrite H. by apply bool_decide_true.
  - intros a b c d Hc Hd. rewrite !H in *. apply bool_decide_eq_true in Hc, Hd. by rewrite <-Hc, <-Hd.
Qed.

#[export] Instance array_meta_key_equiv : KeyEquiv array_meta_key_eq.
Proof. by apply (key_equiv_part _ id). Qed.
#[export] Instance shard_index_key_equiv : KeyEquiv shard_index_eq.
Proof. apply (key_equiv_part _ shard_key_part), shard_index_eq_part. Qed.
#[export] Instance chunk_layout_key_equiv : KeyEquiv chunk_layout_key_eq.
Proof. apply (key_equiv_part _ layout_key_part), chunk_layout_key_eq_part. Qed.

Lemma shard_index_hash_eq a b : shard_index_eq a b = true -> shard_index_key_hash a = shard_index_key_hash b.
Proof.
  rewrite shard_index_eq_part, bool_decide_eq_true. intros [= H1 H2 H3]. unfold shard_index_key_hash. by rewrite H2, H3.
Qed.
Lemma chunk_layout_hash_eq a b : chunk_layout_key_eq a b = true -> chunk_layout_key_hash a = chunk_layout_key_hash b.
Proof.
  rewrite chunk_layout_key_eq_part, bool_decide_eq_true. intros [= H1 H2 H3 H4 H5]. unfold chunk_layout_key_hash.
  rewrite H1, H2 in *. by rewrite H3, H4.
Qed.

(** ** The caches *)

Record cache_ops (W K V : Type) := CacheOps {
  co_request : W -> Z -> K -> Z -> option ptr -> option (W * prefetch_request_result);
  co_query : W -> prefetch_handle -> option (W * (prefetch_state * option V * Z)) }.
Arguments CacheOps {W K V}.
Arguments co_request {W K V}.
Arguments co_query {W K V}.

Class MetaCaches (W : Type) := {
  array_meta_cache : cache_ops W string zarr_metadata;
  shard_index_cache : cache_ops W shard_index_key shard_index_value;
  chunk_layout_cache : option (cache_ops W chunk_layout_key chunk_layout);
  gate_init : W -> ptr -> W;
  gate_set_error : W -> ptr -> option W;
  gate_pending : W -> ptr -> option Z }.

(** ** Data *)

Inductive prefetcher_state :=
| state_free | state_pending_meta | state_pending_shards | state_pending_layout | state_ready | state_error.
#[export] Instance prefetcher_state_eq_dec : EqDecision prefetcher_state.
Proof. solve_decision. Defined.

(** A null state is [None]. *)
Record prefetcher_slot := PfSlot {
  pf_state : option prefetcher_state; pf_err_code : Z; pf_uri : option string; pf_aabb : damacy_aabb; pf_axes : list query_axis;
  pf_seq : Z; pf_gate : option ptr; pf_h_meta : prefetch_handle; pf_h_shards : option (list prefetch_handle);
  pf_coords : option (list Z); pf_n_shards : Z; pf_n_requested : Z; pf_h_layout : prefetch_handle }.

Record prefetcher_owner_entry := OwnerEntry { oe_id : Z; oe_refcount : Z; oe_in_use : bool }.

Record prefetcher_counts := Counts { submitted : Z; ready : Z; errored : Z }.

(** [capacity] and [owner_capacity] are the lengths of the two arrays. *)
Record prefetcher := Prefetcher {
  pf_slots : list prefetcher_slot; pf_owners : list prefetcher_owner_entry; pf_max_shards : Z;
  pf_stop : bool; pf_started : bool; in_transit : Z; stalled : damacy_sample_slot; has_stalled : bool;
  pf_counts : prefetcher_counts; next_consume_seq : Z }.

Inductive prefetcher_result := PREFETCHER_RESULT_READY | PREFETCHER_RESULT_ERROR.

Record prefetcher_ready := Ready {
  rd_result : prefetcher_result; rd_err_code : Z; rd_uri : option string; rd_aabb : damacy_aabb; rd_axes : list query_axis;
  rd_seq : Z; rd_h_meta : prefetch_handle; rd_h_shards : option (list prefetch_handle); rd_n_shards : Z;
  rd_h_layout : prefetch_handle }.

Record prefetcher_wave_ticket := Ticket { sample_seq_begin : Z; n_samples : Z }.
Record prefetcher_stats := PfStats { st_submitted : Z; st_ready : Z; st_errored : Z; st_in_flight : Z }.

(** ** Slots *)

Definition slot_free (s : prefetcher_slot) : bool := bool_decide (pf_state s = None) || bool_decide (pf_state s = Some state_free).
Definition has_advance (st : prefetcher_state) : bool :=
  match st with state_pending_meta | state_pending_shards | state_pending_layout => true | _ => false end.
Definition slot_active (s : prefetcher_slot) : bool := match pf_state s with None => false | Some st => has_advance st end.
Definition slot_terminal (s : prefetcher_slot) : bool :=
  bool_decide (pf_state s = Some state_ready) || bool_decide (pf_state s = Some state_error).
Definition slot_failed (s : prefetcher_slot) : bool := bool_decide (pf_state s = Some state_error).

Definition empty_slot (st : option prefetcher_state) : prefetcher_slot :=
  PfSlot st 0 None (Aabb [] 0) [] 0 None PREFETCH_HANDLE_NONE None None 0 0 PREFETCH_HANDLE_NONE.
Definition slot_reset_free : prefetcher_slot := empty_slot (Some state_free).
Definition slot_result (s : prefetcher_slot) : prefetcher_result :=
  if slot_failed s then PREFETCHER_RESULT_ERROR else PREFETCHER_RESULT_READY.

Definition slot_set_state (s : prefetcher_slot) (st : prefetcher_state) : prefetcher_slot :=
  PfSlot (Some st) (pf_err_code s) (pf_uri s) (pf_aabb s) (pf_axes s) (pf_seq s) (pf_gate s) (pf_h_meta s) (pf_h_shards s)
    (pf_coords s) (pf_n_shards s) (pf_n_requested s) (pf_h_layout s).
Definition slot_set_err (s : prefetcher_slot) (err : Z) : prefetcher_slot :=
  PfSlot (pf_state s) err (pf_uri s) (pf_aabb s) (pf_axes s) (pf_seq s) (pf_gate s) (pf_h_meta s) (pf_h_shards s)
    (pf_coords s) (pf_n_shards s) (pf_n_requested s) (pf_h_layout s).
Definition slot_set_shards (s : prefetcher_slot) (hs : option (list prefetch_handle)) (cs : option (list Z)) (n req : Z)
    : prefetcher_slot :=
  PfSlot (pf_state s) (pf_err_code s) (pf_uri s) (pf_aabb s) (pf_axes s) (pf_seq s) (pf_gate s) (pf_h_meta s) hs cs n req
    (pf_h_layout s).
Definition slot_set_layout (s : prefetcher_slot) (h : prefetch_handle) : prefetcher_slot :=
  PfSlot (pf_state s) (pf_err_code s) (pf_uri s) (pf_aabb s) (pf_axes s) (pf_seq s) (pf_gate s) (pf_h_meta s) (pf_h_shards s)
    (pf_coords s) (pf_n_shards s) (pf_n_requested s) h.
(** The slot of a sample, before its state is set. *)
Definition sample_slot (popped : damacy_sample_slot) (gate : option ptr) (h : prefetch_handle) : prefetcher_slot :=
  PfSlot None 0 (sl_uri popped) (sl_aabb popped) (sl_axes popped) (sample_seq popped) gate h None None 0 0 PREFETCH_HANDLE_NONE.

(** [n] entries of an array from [off], and writing them. *)
Definition row_read (l : list Z) (off n : Z) : option (list Z) :=
  if (0 <=? off) && (off + n <=? zlen l) then Some (take (Z.to_nat n) (drop (Z.to_nat off) l)) else None.
Definition row_write (l : list Z) (off : Z) (row : list Z) : option (list Z) :=
  if (0 <=? off) && (off + zlen row <=? zlen l)
  then Some (take (Z.to_nat off) l ++ row ++ drop (Z.to_nat (off + zlen row)) l) else None.

(** ** One slot *)

Section prefetcher.
Context {W : Type} `{!MetaCaches W}.

(** What a transition of a slot may change. *)
Record slot_world := SW { sw_world : W; sw_counts : prefetcher_counts; sw_slot : prefetcher_slot }.

Definition slot_fail (w : W) (c : prefetcher_counts) (s : prefetcher_slot) (err_code : Z) : option slot_world :=
  w ← match pf_gate s with None => Some w | Some g => gate_set_error w g end;
  Some (SW w (Counts (submitted c) (ready c) (u64 (errored c + 1)))
    (slot_set_err (slot_set_state s state_error) (if err_code =? 0 then status_code DAMACY_INVAL else err_code))).

Definition slot_mark_ready (w : W) (c : prefetcher_counts) (s : prefetcher_slot) : option slot_world :=
  Some (SW w (Counts (submitted c) (u64 (ready c + 1)) (errored c)) (slot_set_state s state_ready)).

Definition request_chunk_layout (cl : cache_ops W chunk_layout_key chunk_layout) (w : W) (s : prefetcher_slot)
    : option (W * prefetch_request_result) :=
  uri ← pf_uri s;
  let key := LayoutKey uri (aabb_rank (pf_aabb s)) (pf_n_shards s) (default [] (pf_coords s)) (default [] (pf_h_shards s)) in
  co_request cl w (chunk_layout_key_hash key) key (pf_seq s) (pf_gate s).

(** The request for the layout and what follows it, in both places that issue it. *)
Definition enter_layout (w : W) (c : prefetcher_counts) (s : prefetcher_slot) : option slot_world :=
  match chunk_layout_cache with
  | None => slot_mark_ready w c s
  | Some cl =>
      r ← request_chunk_layout cl w s;
      let '(w, req) := (r : W * prefetch_request_result) in
      if decide (r_status req = DAMACY_AGAIN) then Some (SW w c s)
      else
        let s := slot_set_layout s (r_handle req) in
        if decide (r_status req = DAMACY_OK) then Some (SW w c (slot_set_state s state_pending_layout))
        else slot_fail w c s (status_code (r_status req))
  end.

(** The while loop; [n] is the number of shards left. *)
Fixpoint request_loop (n : nat) (w : W) (s : prefetcher_slot) (rank : Z) : option (W * prefetcher_slot * damacy_status) :=
  match n with
  | O => Some (w, s, DAMACY_OK)
  | S n =>
      let i := pf_n_requested s in
      uri ← pf_uri s;
      coords ← pf_coords s;
      row ← row_read coords (i * rank) rank;
      let probe := ShardKey uri row rank in
      r ← co_request shard_index_cache w (shard_index_key_hash probe) probe (pf_seq s) (pf_gate s);
      let '(w, req) := (r : W * prefetch_request_result) in
      if decide (r_status req = DAMACY_AGAIN) then Some (w, s, DAMACY_AGAIN)
      else
        hs ← pf_h_shards s;
        hs ← aset hs i (r_handle req);
        if decide (r_status req = DAMACY_OK)
        then request_loop n w (slot_set_shards s (Some hs) (pf_coords s) (pf_n_shards s) (u32 (i + 1))) rank
        else Some (w, slot_set_shards s (Some hs) (pf_coords s) (pf_n_shards s) i, r_status req)
  end.
Definition request_remaining_shards (w : W) (s : prefetcher_slot) (rank : Z) : option (W * prefetcher_slot * damacy_status) :=
  request_loop (Z.to_nat (pf_n_shards s - pf_n_requested s)) w s rank.

(** The end of [advance_from_meta], after the shards are listed. *)
Definition enter_shards (w : W) (c : prefetcher_counts) (s : prefetcher_slot) (rank : Z) : option slot_world :=
  r ← request_remaining_shards w s rank;
  let '(w, s, rs) := (r : W * prefetcher_slot * damacy_status) in
  if decide (rs = DAMACY_AGAIN) then Some (SW w c s)
  else if decide (rs = DAMACY_OK) then Some (SW w c (slot_set_state s state_pending_shards))
  else slot_fail w c s (status_code rs).

Fixpoint fill_coords (n : nat) (g : selection_grid) (coords : list Z) (i rank : Z) : option (list Z) :=
  match n with
  | O => Some coords
  | S n =>
      r ← selection_grid_next g;
      match r with
      | (None, _) => Some coords
      | (Some c, g) => coords ← row_write coords (i * rank) c; fill_coords n g coords (i + 1) rank
      end
  end.

(** [mem]: do the two allocations succeed. *)
Definition advance_from_meta (max_shards : Z) (mem : bool * bool) (w : W) (c : prefetcher_counts) (s : prefetcher_slot)
    : option slot_world :=
  match pf_h_shards s with
  | Some _ => enter_shards w c s (aabb_rank (pf_aabb s))
  | None =>
      q ← co_query array_meta_cache w (pf_h_meta s);
      let '(w, (st, value, err)) := (q : W * (prefetch_state * option zarr_metadata * Z)) in
      match st, value with
      | PREFETCH_STATE_PENDING, _ => Some (SW w c s)
      | PREFETCH_STATE_ERROR, _ | PREFETCH_STATE_READY, None => slot_fail w c s err
      | PREFETCH_STATE_READY, Some meta =>
          it ← sample_shard_iterator_init meta (pf_aabb s);
          match it with
          | None => slot_fail w c s (status_code DAMACY_INVAL)
          | Some _ =>
              g ← selection_grid_init (pf_aabb s) (pf_axes s) (shard_shape meta) None None UINT64_MAX;
              let '(gst, g) := (g : damacy_status * selection_grid) in
              let n := g_count g in
              if negb (bool_decide (gst = DAMACY_OK)) then slot_fail w c s (status_code DAMACY_INVAL)
              else if max_shards <? n then slot_fail w c s (status_code DAMACY_INVAL)
              else if n =? 0 then enter_layout w c (slot_set_shards s None (pf_coords s) 0 (pf_n_requested s))
              else if negb (fst mem) then slot_fail w c s (status_code DAMACY_OOM)
              else
                let hs := Some (repeat PREFETCH_HANDLE_NONE (Z.to_nat n)) in
                if negb (snd mem) then
                  slot_fail w c (slot_set_shards s hs None (pf_n_shards s) (pf_n_requested s)) (status_code DAMACY_OOM)
                else
                  coords ← fill_coords (Z.to_nat n) g (repeat 0 (Z.to_nat (n * m_rank meta))) 0 (m_rank meta);
                  enter_shards w c (slot_set_shards s hs (Some coords) (u32 n) (pf_n_requested s)) (m_rank meta)
          end
      end
  end.

Inductive poll := PollPending | PollFailed (err : Z) | PollDone.
Fixpoint poll_shards (n : nat) (w : W) (hs : list prefetch_handle) (i : Z) : option (W * poll) :=
  match n with
  | O => Some (w, PollDone)
  | S n =>
      h ← aget hs i;
      q ← co_query shard_index_cache w h;
      let '(w, (st, _, err)) := (q : W * (prefetch_state * option shard_index_value * Z)) in
      match st with
      | PREFETCH_STATE_PENDING => Some (w, PollPending)
      | PREFETCH_STATE_ERROR => if err =? status_code DAMACY_NOTFOUND then poll_shards n w hs (i + 1) else Some (w, PollFailed err)
      | PREFETCH_STATE_READY => poll_shards n w hs (i + 1)
      end
  end.

Definition advance_from_shard (w : W) (c : prefetcher_counts) (s : prefetcher_slot) : option slot_world :=
  r ← poll_shards (Z.to_nat (pf_n_shards s)) w (default [] (pf_h_shards s)) 0;
  match r with
  | (w, PollPending) => Some (SW w c s)
  | (w, PollFailed err) => slot_fail w c s err
  | (w, PollDone) => enter_layout w c s
  end.

Definition advance_from_layout (w : W) (c : prefetcher_counts) (s : prefetcher_slot) : option slot_world :=
  cl ← chunk_layout_cache;
  q ← co_query cl w (pf_h_layout s);
  let '(w, (st, _, err)) := (q : W * (prefetch_state * option chunk_layout * Z)) in
  match st with
  | PREFETCH_STATE_PENDING => Some (SW w c s)
  | PREFETCH_STATE_ERROR => slot_fail w c s err
  | PREFETCH_STATE_READY => slot_mark_ready w c s
  end.

(** [s->state->advance(p, s)] when the slot is active. *)
Definition advance_slot (max_shards : Z) (mem : bool * bool) (w : W) (c : prefetcher_counts) (s : prefetcher_slot)
    : option slot_world :=
  match pf_state s with
  | Some state_pending_meta => advance_from_meta max_shards mem w c s
  | Some state_pending_shards => advance_from_shard w c s
  | Some state_pending_layout => advance_from_layout w c s
  | _ => Some (SW w c s)
  end.

(** [mem i]: the allocations for slot [i]. *)
Fixpoint advance_loop (max_shards : Z) (mem : nat -> bool * bool) (i : nat) (w : W) (c : prefetcher_counts)
    (l : list prefetcher_slot) : option (W * prefetcher_counts * list prefetcher_slot) :=
  match l with
  | [] => Some (w, c, [])
  | s :: l =>
      r ← advance_slot max_shards (mem i) w c s;
      q ← advance_loop max_shards mem (S i) (sw_world r) (sw_counts r) l;
      let '(w, c, l) := (q : W * prefetcher_counts * list prefetcher_slot) in
      Some (w, c, sw_slot r :: l)
  end.
End prefetcher.
Arguments slot_world : clear implicits.
Arguments SW {W}.
