(* ===== verification/PrefetcherOps.v ===== *)
(** * Operations and threads of the prefetcher

    Owners, admission, the worker's pass over the slots, and the consumer's side of
    [src/src/prefetch/prefetcher.c]. Each operation is the part of the C function
    that runs under the prefetcher's lock. Then its threads: the worker against a
    producer that pushes samples, a consumer that takes them and the threads that
    change the caches. The worker runs in the parts its locks make atomic. *)

From stdpp Require Import strings.
From S2P Require Import Prelude Selection Plan Hash DispatchTypes Lookahead PrefetchCache Prefetcher.

#[local] Open Scope Z_scope.

(** ** Field updates *)

Definition with_slots (p : prefetcher) (l : list prefetcher_slot) : prefetcher :=
  Prefetcher l (pf_owners p) (pf_max_shards p) (pf_stop p) (pf_started p) (in_transit p) (stalled p) (has_stalled p)
    (pf_counts p) (next_consume_seq p).
Definition with_owners (p : prefetcher) (l : list prefetcher_owner_entry) : prefetcher :=
  Prefetcher (pf_slots p) l (pf_max_shards p) (pf_stop p) (pf_started p) (in_transit p) (stalled p) (has_stalled p)
    (pf_counts p) (next_consume_seq p).
Definition with_run (p : prefetcher) (stop started : bool) : prefetcher :=
  Prefetcher (pf_slots p) (pf_owners p) (pf_max_shards p) stop started (in_transit p) (stalled p) (has_stalled p)
    (pf_counts p) (next_consume_seq p).
Definition with_transit (p : prefetcher) (n : Z) : prefetcher :=
  Prefetcher (pf_slots p) (pf_owners p) (pf_max_shards p) (pf_stop p) (pf_started p) n (stalled p) (has_stalled p)
    (pf_counts p) (next_consume_seq p).
Definition with_stalled (p : prefetcher) (s : damacy_sample_slot) (b : bool) : prefetcher :=
  Prefetcher (pf_slots p) (pf_owners p) (pf_max_shards p) (pf_stop p) (pf_started p) (in_transit p) s b
    (pf_counts p) (next_consume_seq p).
Definition with_pf_counts (p : prefetcher) (c : prefetcher_counts) : prefetcher :=
  Prefetcher (pf_slots p) (pf_owners p) (pf_max_shards p) (pf_stop p) (pf_started p) (in_transit p) (stalled p) (has_stalled p)
    c (next_consume_seq p).
Definition with_next (p : prefetcher) (n : Z) : prefetcher :=
  Prefetcher (pf_slots p) (pf_owners p) (pf_max_shards p) (pf_stop p) (pf_started p) (in_transit p) (stalled p) (has_stalled p)
    (pf_counts p) n.

(** The address of the gate in entry [i]. *)
Definition owner_gate (i : nat) : ptr := Pos.of_succ_nat i.

(** The first entry that satisfies [P]. *)
Fixpoint find_first {A} (P : A -> bool) (l : list A) (i : nat) : option nat :=
  match l with
  | [] => None
  | x :: l => if P x then Some i else find_first P l (S i)
  end.

Definition owner_lookup_locked (owners : list prefetcher_owner_entry) (owner_id : Z) : option nat :=
  find_first (fun e => oe_in_use e && (oe_id e =? owner_id)) owners 0.

Section prefetcher.
Context {W : Type} `{!MetaCaches W}.

(** The entry, [None] inside when none is free. *)
Definition owner_get_or_create_locked (w : W) (owners : list prefetcher_owner_entry) (owner_id : Z)
    : option (W * list prefetcher_owner_entry * option nat) :=
  match owner_lookup_locked owners owner_id with
  | Some i =>
      e ← owners !! i;
      Some (w, <[i := OwnerEntry (oe_id e) (u32 (oe_refcount e + 1)) (oe_in_use e)]> owners, Some i)
  | None =>
      match find_first (fun e => negb (oe_in_use e)) owners 0 with
      | Some i => Some (gate_init w (owner_gate i), <[i := OwnerEntry owner_id 1 true]> owners, Some i)
      | None => Some (w, owners, None)
      end
  end.

Definition owner_try_free_locked (w : W) (owners : list prefetcher_owner_entry) (i : nat) : option (list prefetcher_owner_entry) :=
  e ← owners !! i;
  if negb (oe_refcount e =? 0) then Some owners
  else
    n ← gate_pending w (owner_gate i);
    if negb (n =? 0) then Some owners else Some (<[i := OwnerEntry (oe_id e) (oe_refcount e) false]> owners).

Definition owner_unref_entry_locked (w : W) (owners : list prefetcher_owner_entry) (i : nat) : option (list prefetcher_owner_entry) :=
  e ← owners !! i;
  let r := if 0 <? oe_refcount e then u32 (oe_refcount e - 1) else oe_refcount e in
  owner_try_free_locked w (<[i := OwnerEntry (oe_id e) r (oe_in_use e)]> owners) i.

Definition owner_unref_locked (w : W) (owners : list prefetcher_owner_entry) (owner_id : Z) : option (list prefetcher_owner_entry) :=
  match owner_lookup_locked owners owner_id with
  | Some i => owner_unref_entry_locked w owners i
  | None => Some owners
  end.

Fixpoint sweep_loop (n : nat) (w : W) (owners : list prefetcher_owner_entry) (i : nat) : option (list prefetcher_owner_entry) :=
  match n with
  | O => Some owners
  | S n =>
      e ← owners !! i;
      owners ← (if oe_in_use e && (oe_refcount e =? 0) then owner_try_free_locked w owners i else Some owners);
      sweep_loop n w owners (S i)
  end.
Definition owner_sweep_locked (w : W) (owners : list prefetcher_owner_entry) : option (list prefetcher_owner_entry) :=
  sweep_loop (length owners) w owners 0.

(** ** The worker *)

(** The prefetcher with the caches it uses. *)
Record pf_world := PW { pw_pf : prefetcher; pw_w : W }.

Definition advance_all (mem : nat -> bool * bool) (x : pf_world) : option pf_world :=
  let p := pw_pf x in
  r ← advance_loop (pf_max_shards p) mem 0 (pw_w x) (pf_counts p) (pf_slots p);
  let '(w, c, l) := (r : W * prefetcher_counts * list prefetcher_slot) in
  Some (PW (with_pf_counts (with_slots p l) c) w).

(** The first free slot, and whether a slot is in flight. *)
Definition scan_slots_locked (p : prefetcher) : option nat * bool :=
  (find_first slot_free (pf_slots p) 0, existsb slot_active (pf_slots p)).

(** The first locked part of an iteration of [worker_fn]. *)
Definition worker_scan (mem : nat -> bool * bool) (x : pf_world) : option (pf_world * (option nat * bool)) :=
  x ← advance_all mem x;
  owners ← owner_sweep_locked (pw_w x) (pf_owners (pw_pf x));
  let p := with_owners (pw_pf x) owners in
  Some (PW p (pw_w x), scan_slots_locked p).

(** Store [s] in slot [i]. *)
Definition set_slot (p : prefetcher) (i : nat) (s : prefetcher_slot) (c : prefetcher_counts) : option prefetcher :=
  if decide (i < length (pf_slots p))%nat then Some (with_pf_counts (with_slots p (<[i := s]> (pf_slots p))) c) else None.

Definition emit_error_slot_locked (x : pf_world) (slot : nat) (popped : damacy_sample_slot) (gate : option ptr) (err_code : Z)
    : option pf_world :=
  r ← slot_fail (pw_w x) (pf_counts (pw_pf x)) (sample_slot popped gate PREFETCH_HANDLE_NONE) err_code;
  p ← set_slot (pw_pf x) slot (sw_slot r) (sw_counts r);
  Some (PW p (sw_world r)).

(** On a slot that is not null. *)
Definition admit_locked (x : pf_world) (slot : nat) (popped : damacy_sample_slot) : option (pf_world * damacy_status) :=
  let p := pw_pf x in
  o ← owner_get_or_create_locked (pw_w x) (pf_owners p) (sample_seq popped);
  let '(w, owners, owner) := (o : W * list prefetcher_owner_entry * option nat) in
  let p := with_owners p owners in
  match owner with
  | None =>
      x ← emit_error_slot_locked (PW p w) slot popped None (status_code DAMACY_BUDGET);
      Some (x, DAMACY_OK)
  | Some i =>
      let gate := Some (owner_gate i) in
      uri ← sl_uri popped;
      r ← co_request array_meta_cache w (hash_fnv1a_str uri) uri (sample_seq popped) gate;
      let '(w, req) := (r : W * prefetch_request_result) in
      if decide (r_status req = DAMACY_AGAIN) then
        owners ← owner_unref_entry_locked w (pf_owners p) i;
        Some (PW (with_owners p owners) w, DAMACY_AGAIN)
      else if decide (r_status req = DAMACY_OK) then
        let c := pf_counts p in
        p ← set_slot p slot (slot_set_state (sample_slot popped gate (r_handle req)) state_pending_meta)
              (Counts (u64 (submitted c + 1)) (ready c) (errored c));
        Some (PW p w, DAMACY_OK)
      else
        x ← emit_error_slot_locked (PW p w) slot popped gate (status_code (r_status req));
        Some (x, DAMACY_OK)
  end.

(** ** The consumer *)

Definition find_terminal_sample_locked (p : prefetcher) (seq : Z) : option nat :=
  find_first (fun s => slot_terminal s && (pf_seq s =? seq)) (pf_slots p) 0.

Definition ready_of (s : prefetcher_slot) : prefetcher_ready :=
  Ready (slot_result s) (pf_err_code s) (pf_uri s) (pf_aabb s) (pf_axes s) (pf_seq s) (pf_h_meta s) (pf_h_shards s)
    (pf_n_shards s) (pf_h_layout s).

(** The sample, [None] inside when the slot is not terminal. *)
Definition pop_terminal_slot_idx_locked (x : pf_world) (i : nat) : option (option (prefetcher_ready * pf_world)) :=
  let p := pw_pf x in
  match pf_slots p !! i with
  | None => Some None
  | Some s =>
      if negb (slot_terminal s) then Some None
      else
        owners ← owner_unref_locked (pw_w x) (pf_owners p) (pf_seq s);
        Some (Some (ready_of s, PW (with_owners (with_slots p (<[i := slot_reset_free]> (pf_slots p))) owners) (pw_w x)))
  end.

(** [n] bounds the search; [None] when it is not enough. *)
Fixpoint prefix_loop (fuel : nat) (p : prefetcher) (n : Z) : option Z :=
  match find_terminal_sample_locked p (u64 (next_consume_seq p + n)) with
  | None => Some n
  | Some _ => match fuel with O => None | S fuel => prefix_loop fuel p (u32 (n + 1)) end
  end.
Definition ready_prefix_count_locked (p : prefetcher) : option Z := prefix_loop (length (pf_slots p)) p 0.

Definition prefetcher_pop_ready (x : pf_world) : option (option prefetcher_ready * pf_world) :=
  let p := pw_pf x in
  match find_terminal_sample_locked p (next_consume_seq p) with
  | None => Some (None, x)
  | Some i =>
      r ← pop_terminal_slot_idx_locked x i;
      match r with
      | None => Some (None, x)
      | Some (out, x) => Some (Some out, PW (with_next (pw_pf x) (u64 (next_consume_seq (pw_pf x) + 1))) (pw_w x))
      end
  end.

(** The strings freed. *)
Definition prefetcher_ready_free (r : prefetcher_ready) : list string := option_list (rd_uri r).

(** The loop of [prefetcher_take_ready_wave]; [inl] are the strings freed when a
    sample cannot be popped. *)
Fixpoint wave_loop (n : nat) (x : pf_world) (acc : list prefetcher_ready)
    : option (list string * pf_world + list prefetcher_ready * pf_world) :=
  match n with
  | O => Some (inr (acc, x))
  | S n =>
      r ← prefetcher_pop_ready x;
      match r with
      | (None, x) => Some (inl (acc ≫= prefetcher_ready_free, x))
      | (Some out, x) => wave_loop n x (acc ++ [out])
      end
  end.

(** The ticket and the samples; no sample is the return value 0. *)
Definition prefetcher_take_ready_wave (x : pf_world) (max_samples : Z)
    : option (prefetcher_wave_ticket * list prefetcher_ready * pf_world) :=
  if negb (0 <? max_samples) then Some (Ticket 0 0, [], x)
  else
    k ← ready_prefix_count_locked (pw_pf x);
    let n := if k <? max_samples then k else max_samples in
    if n =? 0 then Some (Ticket 0 0, [], x)
    else
      r ← wave_loop (Z.to_nat n) x [];
      match r with
      | inl (_, x) => Some (Ticket 0 0, [], x)
      | inr (out, x') => Some (Ticket (next_consume_seq (pw_pf x)) n, out, x')
      end.

Definition prefetcher_unconsumed_count (p : prefetcher) (pushed_samples : Z) : Z :=
  if next_consume_seq p <? pushed_samples then pushed_samples - next_consume_seq p else 0.

Definition count_active (p : prefetcher) : Z := zlen (filter (fun s => slot_active s = true) (pf_slots p)).
Definition prefetcher_in_flight (p : prefetcher) : Z := u32 (in_transit p + count_active p).
Definition prefetcher_has_ready (p : prefetcher) : bool :=
  bool_decide (is_Some (find_terminal_sample_locked p (next_consume_seq p))).
Definition prefetcher_sample_gate (p : prefetcher) (seq : Z) : option ptr := owner_gate <$> owner_lookup_locked (pf_owners p) seq.
Definition prefetcher_stats_get (p : prefetcher) : prefetcher_stats :=
  let c := pf_counts p in PfStats (submitted c) (ready c) (errored c) (count_active p).

(** ** Life cycle *)

(** Capacities, the bound on shards, and whether the lookahead and the two caches
    that must exist do. *)
Record prefetcher_config := PfConfig {
  pc_slots : Z; pc_owners : Z; pc_max_shards : Z; pc_lookahead : bool; pc_array_cache : bool; pc_shard_cache : bool }.

Definition prefetcher_create (alloc : nat -> bool) (cfg : prefetcher_config) : option prefetcher :=
  if (0 <? pc_slots cfg) && (0 <? pc_owners cfg) && (0 <? pc_max_shards cfg) && pc_lookahead cfg && pc_array_cache cfg &&
     pc_shard_cache cfg && alloc 0%nat && alloc 1%nat && alloc 2%nat && alloc 3%nat
  then Some (Prefetcher (repeat slot_reset_free (Z.to_nat (pc_slots cfg))) (repeat (OwnerEntry 0 0 false) (Z.to_nat (pc_owners cfg)))
               (pc_max_shards cfg) false false 0 slot_zero false (Counts 0 0 0) 0)
  else None.

(** [thread_ok]: does the thread start. The return code. *)
Definition prefetcher_start (thread_ok : bool) (p : prefetcher) : Z * prefetcher :=
  if pf_started p then (0, p) else (if thread_ok then 0 else 1, with_run p (pf_stop p) true).

(** The flags and the lookahead as the worker sees them before it is joined. *)
Definition prefetcher_stop (p : prefetcher) (la : damacy_lookahead) : prefetcher * damacy_lookahead :=
  if pf_started p then (with_run p true false, lookahead_signal_stop la) else (p, la).

(** The strings freed. *)
Definition prefetcher_destroy (p : prefetcher) : list string :=
  (if has_stalled p then option_list (sl_uri (stalled p)) else []) ++ omap pf_uri (pf_slots p).
End prefetcher.
Arguments pf_world : clear implicits.
Arguments PW {W}.

(** Where [worker_fn] is: before the test of [stop], before the locked scan, with the
    result of the scan, with [in_transit] raised for a pop, with a sample in hand, and
    before [in_transit] is lowered. *)
Inductive worker_pc :=
| WTop | WLocking | WScanned (slot : option nat) (busy : bool) | WCounted (slot : nat)
| WPopped (slot : nat) (s : damacy_sample_slot) | WUncount | WDone.

Section run.
Context {W : Type} `{!MetaCaches W} (env : W -> W -> Prop) (valid : damacy_sample -> Prop).

(** [env]: what other threads do to the caches; [valid]: which samples are pushed.
    [y_acc] are the samples accepted and [y_out] the samples handed out so far. *)
Record run := Run {
  y_x : pf_world W; y_la : damacy_lookahead; y_pc : worker_pc;
  y_acc : list damacy_sample_slot; y_out : list prefetcher_ready }.

Definition on_pf (f : prefetcher -> prefetcher) (x : pf_world W) : pf_world W := PW (f (pw_pf x)) (pw_w x).
Definition transit (d : Z) (p : prefetcher) : prefetcher := with_transit p (u32 (in_transit p + d)).

(** What is left after [admit_locked] returned [st] for [s]. *)
Definition after_admit (x : pf_world W) (s : damacy_sample_slot) (st : damacy_status) : pf_world W * worker_pc :=
  if decide (st = DAMACY_AGAIN) then (on_pf (fun p => with_stalled p s true) x, WTop)
  else (on_pf (fun p => with_stalled p (stalled p) false) x, WUncount).

Inductive rstep : run -> run -> Prop :=
| RCheck x la acc out :
    rstep (Run x la WTop acc out) (Run x la (if pf_stop (pw_pf x) then WDone else WLocking) acc out)
| RScan x la acc out mem x' slot busy :
    worker_scan mem x = Some (x', (slot, busy)) ->
    rstep (Run x la WLocking acc out) (Run x' la (WScanned slot busy) acc out)
| RFull x la acc out busy : rstep (Run x la (WScanned None busy) acc out) (Run x la WTop acc out)
| RReplay x la acc out i busy :
    has_stalled (pw_pf x) = true ->
    rstep (Run x la (WScanned (Some i) busy) acc out) (Run x la (WPopped i (stalled (pw_pf x))) acc out)
| RIdle x la acc out i busy :
    has_stalled (pw_pf x) = false -> (0 <? lookahead_size la) = false ->
    rstep (Run x la (WScanned (Some i) busy) acc out) (Run x la WTop acc out)
| RCount x la acc out i busy :
    has_stalled (pw_pf x) = false -> (0 <? lookahead_size la) = true ->
    rstep (Run x la (WScanned (Some i) busy) acc out) (Run (on_pf (transit 1) x) la (WCounted i) acc out)
| RPop x la acc out i r la' :
    lookahead_try_pop la = Some (r, la') ->
    rstep (Run x la (WCounted i) acc out) (Run x la' (match r with Some s => WPopped i s | None => WUncount end) acc out)
| RAdmit x la acc out i s x' st :
    admit_locked x i s = Some (x', st) ->
    rstep (Run x la (WPopped i s) acc out) (Run (fst (after_admit x' s st)) la (snd (after_admit x' s st)) acc out)
| RUncount x la acc out : rstep (Run x la WUncount acc out) (Run (on_pf (transit (-1)) x) la WTop acc out)
| RPush x la pc acc out malloc junk sample la' uri aabb axes :
    valid sample -> zlen acc + 1 < 2 ^ 64 -> lookahead_push_with_sample_seq malloc junk la (Some sample) (zlen acc) = Some (0, la') ->
    query_copy malloc (Some sample) = Some (inr (uri, aabb, axes)) ->
    rstep (Run x la pc acc out) (Run x la' pc (acc ++ [SampleSlot (Some uri) aabb axes (zlen acc)]) out)
| RRefuse x la pc acc out malloc junk sample la' :
    lookahead_push_with_sample_seq malloc junk la (Some sample) (zlen acc) = Some (1, la') ->
    rstep (Run x la pc acc out) (Run x la' pc acc out)
| RTake x la pc acc out r x' :
    prefetcher_pop_ready x = Some (r, x') -> rstep (Run x la pc acc out) (Run x' la pc acc (out ++ option_list r))
| RWave x la pc acc out k ticket l x' :
    prefetcher_take_ready_wave x k = Some (ticket, l, x') -> rstep (Run x la pc acc out) (Run x' la pc acc (out ++ l))
| RStop x la pc acc out p' la' :
    prefetcher_stop (pw_pf x) la = (p', la') -> rstep (Run x la pc acc out) (Run (PW p' (pw_w x)) la' pc acc out)
| RCaches x la pc acc out w' :
    env (pw_w x) w' -> rstep (Run x la pc acc out) (Run (PW (pw_pf x) w') la pc acc out).

(** The worker starts on a new prefetcher and an empty lookahead. *)
Definition starts (cap : Z) (w : W) (y : run) : Prop :=
  exists alloc cfg p la0 la, pc_slots cfg < 2 ^ 32 /\ prefetcher_create alloc cfg = Some p /\ lookahead_init alloc la0 cap = (0, la) /\
    y = Run (PW (snd (prefetcher_start true p)) w) la WTop [] [].
End run.
Arguments run : clear implicits.
Arguments Run {W}.
