(* ===== verification/PrefetcherOrder.v ===== *)
(** * Samples leave the prefetcher in order

    Which sample is where while [PrefetcherOps.v] runs: every accepted sample is in
    the lookahead, in the worker's hands, in exactly one slot, or handed out. *)

From stdpp Require Import strings.
From S2P Require Import Prelude Selection Plan Hash DispatchTypes Lookahead PrefetchCache Prefetcher PrefetcherOps.

#[local] Open Scope Z_scope.

Lemma find_first_spec {A} (P : A -> bool) l i :
  match find_first P l i with
  | Some j => exists x, (i <= j)%nat /\ l !! (j - i)%nat = Some x /\ P x = true
  | None => forall k x, l !! k = Some x -> P x = false
  end.
Proof.
  revert i. induction l as [|x l IH]; intros i; cbn [find_first]; [done|]. destruct (P x) eqn:E.
  - exists x. rewrite Nat.sub_diag. split; [lia|done].
  - specialize (IH (S i)). destruct (find_first P l (S i)) as [j|].
    + destruct IH as (z & Hj & Hz & HP). exists z. split; [lia|]. by replace (j - i)%nat with (S (j - S i)) by lia.
    + intros [|k] z Hk; cbn in Hk; [congruence|by eapply IH].
Qed.
Lemma find_first_Some {A} (P : A -> bool) l j : find_first P l 0 = Some j -> exists x, l !! j = Some x /\ P x = true.
Proof. intros H. pose proof (find_first_spec P l 0) as S. rewrite H in S. destruct S as (x & _ & Hx & HP). rewrite Nat.sub_0_r in Hx. eauto. Qed.

(** The sample a slot, and a result, was made for. *)
Definition of_sample (s : prefetcher_slot) (x : damacy_sample_slot) : Prop :=
  pf_uri s = sl_uri x /\ pf_aabb s = sl_aabb x /\ pf_axes s = sl_axes x /\ pf_seq s = sample_seq x.
Definition ready_for (r : prefetcher_ready) (x : damacy_sample_slot) : Prop :=
  rd_uri r = sl_uri x /\ rd_aabb r = sl_aabb x /\ rd_axes r = sl_axes x /\ rd_seq r = sample_seq x.

(** A transition of one slot keeps its sample and does not free it. *)
Definition same_sample (s s' : prefetcher_slot) : Prop :=
  slot_free s' = slot_free s /\ pf_uri s' = pf_uri s /\ pf_aabb s' = pf_aabb s /\ pf_axes s' = pf_axes s /\ pf_seq s' = pf_seq s /\
  pf_gate s' = pf_gate s.

#[export] Instance same_sample_preorder : PreOrder same_sample.
Proof. split; [done|]. intros a b c (H1 & H2 & H3 & H4 & H5 & H6) (K1 & K2 & K3 & K4 & K5 & K6). split_and!; congruence. Qed.

Section order.
Context {W : Type} `{!MetaCaches W} (env : W -> W -> Prop).
Implicit Types (w : W) (s : prefetcher_slot).

(** ** One slot *)

Lemma slot_fail_same w c s err r : slot_free s = false -> slot_fail w c s err = Some r -> same_sample s (sw_slot r).
Proof. unfold slot_fail. intros Hs H. destruct (pf_gate s) eqn:E; simplify_option_eq; (split_and!; [by rewrite Hs|done..]). Qed.

Lemma enter_layout_same w c s r : slot_free s = false -> enter_layout w c s = Some r -> same_sample s (sw_slot r).
Proof.
  unfold enter_layout, slot_mark_ready. intros Hs H. destruct chunk_layout_cache as [cl|]; simplify_eq/=; [|split_and!; by rewrite ?Hs].
  destruct (request_chunk_layout cl w s) as [[w1 req]|]; simplify_eq/=. destruct (decide _); [by simplify_eq/=|].
  destruct (decide _); [simplify_eq/=; split_and!; by rewrite ?Hs|]. apply slot_fail_same in H; [|done]. by etrans; [|exact H].
Qed.

Lemma request_loop_same n w s rank r : request_loop n w s rank = Some r -> same_sample s (snd (fst r)).
Proof.
  revert w s. induction n as [|n IH]; intros w s H; cbn [request_loop] in H; [by simplify_eq/=|].
  destruct (pf_uri s); simplify_eq/=. destruct (pf_coords s); simplify_eq/=. destruct (row_read _ _ _); simplify_eq/=.
  destruct (co_request _ _ _ _ _ _) as [[w1 req]|]; simplify_eq/=. destruct (decide _); [by simplify_eq/=|].
  destruct (pf_h_shards s); simplify_eq/=. destruct (aset _ _ _); simplify_eq/=.
  destruct (decide _); [|by simplify_eq/=]. apply IH in H. by etrans; [|exact H].
Qed.

Lemma enter_shards_same w c s rank r : slot_free s = false -> enter_shards w c s rank = Some r -> same_sample s (sw_slot r).
Proof.
  unfold enter_shards, request_remaining_shards. intros Hs H.
  destruct (request_loop _ _ _ _) as [[[w1 s1] rs]|] eqn:E; simplify_eq/=. apply request_loop_same in E as Hm. cbn in Hm.
  assert (slot_free s1 = false) as Hs1 by (destruct Hm as [-> _]; done).
  destruct (decide _); [by simplify_eq/=|]. destruct (decide _); [simplify_eq/=; etrans; [exact Hm|]; split_and!; by rewrite ?Hs1|].
  apply slot_fail_same in H; [|done]. by etrans.
Qed.

Lemma advance_slot_same ms mem w c s r : advance_slot ms mem w c s = Some r -> same_sample s (sw_slot r).
Proof.
  unfold advance_slot. intros H. destruct (pf_state s) as [[]|] eqn:Es; try (by simplify_eq/=);
    assert (slot_free s = false) as Hs by (unfold slot_free; by rewrite Es).
  - unfold advance_from_meta in H. destruct (pf_h_shards s); [by eapply enter_shards_same|].
    destruct (co_query _ _ _) as [[w1 [[st value] err]]|]; simplify_eq/=.
    destruct st; [by simplify_eq/=| |by eapply slot_fail_same]. destruct value as [meta|]; [|by eapply slot_fail_same].
    destruct (ShardIter.sample_shard_iterator_init _ _) as [[it|]|]; simplify_eq/=; [|by eapply slot_fail_same].
    destruct (selection_grid_init _ _ _ _ _ _) as [[gst g]|]; simplify_eq/=.
    destruct (negb _); [by eapply slot_fail_same|]. destruct (_ <? _); [by eapply slot_fail_same|].
    destruct (_ =? _); [apply enter_layout_same in H; [by etrans; [|exact H]|done]|].
    destruct (fst mem); cbn [negb] in H; [|by eapply slot_fail_same].
    destruct (snd mem); cbn [negb] in H; [|apply slot_fail_same in H; [by etrans; [|exact H]|done]].
    destruct (fill_coords _ _ _ _ _); simplify_eq/=. apply enter_shards_same in H; [by etrans; [|exact H]|done].
  - unfold advance_from_shard in H. destruct (poll_shards _ _ _ _) as [[w1 []]|]; simplify_eq/=; [done|by eapply slot_fail_same|by eapply enter_layout_same].
  - unfold advance_from_layout in H. destruct chunk_layout_cache as [cl|]; simplify_eq/=.
    destruct (co_query _ _ _) as [[w1 [[st value] err]]|]; simplify_eq/=.
    destruct st; [by simplify_eq/=| |by eapply slot_fail_same]. unfold slot_mark_ready in H. simplify_eq/=. split_and!; by rewrite ?Hs.
Qed.

Lemma advance_loop_same ms mem i w c l r :
  advance_loop ms mem i w c l = Some r -> Forall2 same_sample l (snd r).
Proof.
  revert i w c r. induction l as [|s l IH]; intros i w c r H; cbn [advance_loop] in H; [simplify_eq/=; constructor|].
  destruct (advance_slot _ _ _ _ _) as [q|] eqn:E; simplify_eq/=. destruct (advance_loop _ _ _ _ _ _) as [[[w1 c1] l1]|] eqn:E1; simplify_eq/=.
  constructor; [by eapply advance_slot_same|by eapply IH in E1].
Qed.

(** ** All slots *)

(** The slots hold the samples [adm] from [n] on, each once. *)
Record slots_ok (l : list prefetcher_slot) (adm : list damacy_sample_slot) (n : nat) : Prop := {
  so_slot : forall i s, l !! i = Some s -> slot_free s = false -> exists k x, adm !! k = Some x /\ (n <= k)%nat /\ of_sample s x;
  so_inj : forall i j s t, l !! i = Some s -> l !! j = Some t -> slot_free s = false -> slot_free t = false -> pf_seq s = pf_seq t -> i = j;
  so_all : forall k x, adm !! k = Some x -> (n <= k)%nat -> exists i s, l !! i = Some s /\ slot_free s = false /\ of_sample s x }.

Definition numbered (adm : list damacy_sample_slot) : Prop := forall k x, adm !! k = Some x -> sample_seq x = Z.of_nat k.

Lemma slots_advance l l' adm n : Forall2 same_sample l l' -> slots_ok l adm n -> slots_ok l' adm n.
Proof.
  intros H2 [H H0 H1].
  assert (Hback : forall i s', l' !! i = Some s' -> exists s, l !! i = Some s /\ same_sample s s').
  { intros i s' Hi. destruct (Forall2_lookup_r _ _ _ _ _ H2 Hi) as (s & Hs & Hm). eauto. }
  split.
  - intros i s' Hi Hf. destruct (Hback i s' Hi) as (s & Hs & E0 & E1 & E2 & E3 & E4 & _). rewrite E0 in Hf.
    destruct (H i s Hs Hf) as (k & x & Hk & Hn & O1 & O2 & O3 & O4). exists k, x. split; [done|]. split; [done|]. split_and!; congruence.
  - intros i j s' t' Hi Hj Hf Hg He. destruct (Hback i s' Hi) as (s & Hs & E0 & _ & _ & _ & E4 & _).
    destruct (Hback j t' Hj) as (t & Ht & F0 & _ & _ & _ & F4 & _). eapply (H0 i j s t); congruence.
  - intros k x Hk Hn. destruct (H1 k x Hk Hn) as (i & s & Hs & Hf & O1 & O2 & O3 & O4).
    destruct (Forall2_lookup_l _ _ _ _ _ H2 Hs) as (s' & Hs' & E0 & E1 & E2 & E3 & E4 & _). exists i, s'. split; [done|].
    split; [congruence|]. split_and!; congruence.
Qed.

Lemma slots_admit l adm n i s s' x :
  slots_ok l adm n -> numbered (adm ++ [x]) -> (n <= length adm)%nat -> l !! i = Some s -> slot_free s = true ->
  slot_free s' = false -> of_sample s' x -> slots_ok (<[i := s']> l) (adm ++ [x]) n.
Proof.
  intros [H H0 H1] Hnum Hn Hi Hfree Hf Hof. pose proof (lookup_lt_Some _ _ _ Hi) as Hlt.
  assert (Hx : sample_seq x = zlen adm) by (apply (Hnum (length adm)); by rewrite lookup_app_r, Nat.sub_diag).
  assert (Hne : forall j t, <[i := s']> l !! j = Some t -> j = i /\ t = s' \/ j <> i /\ l !! j = Some t).
  { intros j t Hj. destruct (decide (j = i)) as [->|Hne]; [left|right].
    - rewrite list_lookup_insert_eq in Hj by done. by simplify_eq.
    - by rewrite list_lookup_insert_ne in Hj by done. }
  assert (Hold : forall j t, l !! j = Some t -> slot_free t = false -> pf_seq t <> zlen adm).
  { intros j t Ht Htf. destruct (H j t Ht Htf) as (k & z & Hk & _ & _ & _ & _ & ->).
    rewrite (Hnum k z) by (by apply lookup_app_l_Some). pose proof (lookup_lt_Some _ _ _ Hk). lia. }
  split.
  - intros j t Hj Htf. destruct (Hne j t Hj) as [[-> ->]|[_ Ht]].
    + exists (length adm), x. rewrite lookup_app_r, Nat.sub_diag by done. done.
    + destruct (H j t Ht Htf) as (k & z & Hk & Hkn & Ho). exists k, z. split; [by apply lookup_app_l_Some|done].
  - intros j k t u Hj Hk Htf Huf He. destruct Hof as (_ & _ & _ & Hseq).
    destruct (Hne j t Hj) as [[-> ->]|[Hji Ht]], (Hne k u Hk) as [[-> ->]|[Hki Hu]]; try done.
    + destruct (Hold k u Hu Huf). congruence.
    + destruct (Hold j t Ht Htf). congruence.
    + by eapply (H0 j k t u).
  - intros k z Hk Hkn. apply lookup_app_Some in Hk as [Hk|[Hge Hk]].
    + destruct (H1 k z Hk Hkn) as (j & t & Ht & Htf & Ho). exists j, t. split; [|done].
      rewrite list_lookup_insert_ne; [done|]. intros ->. congruence.
    + apply list_lookup_singleton_Some in Hk as [_ <-]. exists i, s'. by rewrite list_lookup_insert_eq.
Qed.

Lemma slots_take l adm n i s :
  slots_ok l adm n -> numbered adm -> l !! i = Some s -> slot_free s = false -> pf_seq s = Z.of_nat n ->
  slots_ok (<[i := slot_reset_free]> l) adm (S n).
Proof.
  intros [H H0 H1] Hnum Hi Hf Hseq. pose proof (lookup_lt_Some _ _ _ Hi) as Hlt.
  assert (Hne : forall j t, <[i := slot_reset_free]> l !! j = Some t -> slot_free t = false -> j <> i /\ l !! j = Some t).
  { intros j t Hj Htf. destruct (decide (j = i)) as [->|Hne].
    - rewrite list_lookup_insert_eq in Hj by done. by simplify_eq.
    - by rewrite list_lookup_insert_ne in Hj by done. }
  split.
  - intros j t Hj Htf. destruct (Hne j t Hj Htf) as [Hji Ht]. destruct (H j t Ht Htf) as (k & z & Hk & Hkn & Ho).
    exists k, z. split; [done|]. split; [|done]. assert (k <> n); [|lia]. intros ->. apply Hji, (H0 j i t s); try done.
    destruct Ho as (_ & _ & _ & ->). rewrite Hseq. by apply Hnum.
  - intros j k t u Hj Hk Htf Huf. destruct (Hne j t Hj Htf), (Hne k u Hk Huf). by eapply H0.
  - intros k z Hk Hkn. destruct (H1 k z Hk) as (j & t & Ht & Htf & Ho); [lia|]. exists j, t. split; [|done].
    rewrite list_lookup_insert_ne; [done|]. intros ->. assert (t = s) as -> by congruence. destruct Ho as (_ & _ & _ & Ho).
    rewrite (Hnum k z Hk) in Ho. lia.
Qed.

(** ** Operations *)

(** The fields that belong to the worker. *)
Definition same_worker (p p' : prefetcher) : Prop :=
  in_transit p' = in_transit p /\ stalled p' = stalled p /\ has_stalled p' = has_stalled p.

Lemma worker_scan_slots mem x x' slot busy :
  worker_scan mem x = Some (x', (slot, busy)) ->
  Forall2 same_sample (pf_slots (pw_pf x)) (pf_slots (pw_pf x')) /\ same_worker (pw_pf x) (pw_pf x') /\
  next_consume_seq (pw_pf x') = next_consume_seq (pw_pf x) /\
  (forall i, slot = Some i -> exists s, pf_slots (pw_pf x') !! i = Some s /\ slot_free s = true).
Proof.
  unfold worker_scan, advance_all. intros H. destruct (advance_loop _ _ _ _ _ _) as [[[w c] l]|] eqn:E; simplify_eq/=.
  destruct (owner_sweep_locked _ _) as [owners|]; simplify_eq/=. unfold scan_slots_locked in *. simplify_eq/=.
  split; [by apply (advance_loop_same _ _ _ _ _ _ _ E)|]. split; [done|]. split; [done|]. intros i Hi. by apply find_first_Some.
Qed.

Lemma slot_fail_sample w c popped gate err r :
  slot_fail w c (sample_slot popped gate PREFETCH_HANDLE_NONE) err = Some r ->
  of_sample (sw_slot r) popped /\ slot_free (sw_slot r) = false.
Proof. unfold slot_fail. intros H. destruct (pf_gate _); simplify_option_eq; done. Qed.

Lemma set_slot_Some p i s c p' :
  set_slot p i s c = Some p' ->
  pf_slots p' = <[i := s]> (pf_slots p) /\ same_worker p p' /\ next_consume_seq p' = next_consume_seq p.
Proof. unfold set_slot. case_decide; by intros [= <-]. Qed.

Lemma emit_error_slots x i popped gate err x' :
  emit_error_slot_locked x i popped gate err = Some x' ->
  same_worker (pw_pf x) (pw_pf x') /\ next_consume_seq (pw_pf x') = next_consume_seq (pw_pf x) /\
  exists s, pf_slots (pw_pf x') = <[i := s]> (pf_slots (pw_pf x)) /\ of_sample s popped /\ slot_free s = false.
Proof.
  unfold emit_error_slot_locked. intros H. destruct (slot_fail _ _ _ _) as [r|] eqn:Ef; cbn in H; [|done].
  apply slot_fail_sample in Ef as [Ho Hf]. destruct (set_slot _ _ _ _) as [p1|] eqn:E; simplify_eq/=.
  apply set_slot_Some in E as (E1 & E2 & E3). split; [exact E2|]. split; [exact E3|]. cbn in E1. rewrite E1. eauto.
Qed.

Lemma admit_locked_slots x i popped x' st :
  admit_locked x i popped = Some (x', st) ->
  same_worker (pw_pf x) (pw_pf x') /\ next_consume_seq (pw_pf x') = next_consume_seq (pw_pf x) /\
  if decide (st = DAMACY_AGAIN) then pf_slots (pw_pf x') = pf_slots (pw_pf x)
  else exists s, pf_slots (pw_pf x') = <[i := s]> (pf_slots (pw_pf x)) /\ of_sample s popped /\ slot_free s = false.
Proof.
  unfold admit_locked. intros H.
  destruct (owner_get_or_create_locked _ _ _) as [[[w owners] [o|]]|]; cbn [mbind option_bind] in H; [| |done].
  - destruct (sl_uri popped) eqn:Eu; cbn [mbind option_bind] in H; [|done].
    destruct (co_request _ _ _ _ _ _) as [[w1 req]|]; cbn [mbind option_bind] in H; [|done].
    destruct (decide _); [destruct (owner_unref_entry_locked _ _ _); by simplify_eq/=|].
    destruct (decide _).
    + destruct (set_slot _ _ _ _) as [p1|] eqn:E; simplify_eq/=. apply set_slot_Some in E as (E1 & E2 & E3). cbn in E1.
      split; [exact E2|]. split; [exact E3|]. rewrite E1. eexists. split; [done|]. by split.
    + destruct (emit_error_slot_locked _ _ _ _ _) as [x1|] eqn:E; simplify_eq/=. by apply emit_error_slots in E.
  - destruct (emit_error_slot_locked _ _ _ _ _) as [x1|] eqn:E; simplify_eq/=. by apply emit_error_slots in E.
Qed.

Lemma terminal_busy s : slot_terminal s = true -> slot_free s = false.
Proof. unfold slot_terminal, slot_free. destruct (pf_state s) as [[]|]; done. Qed.

Lemma pop_ready_slots x r x' :
  prefetcher_pop_ready x = Some (r, x') ->
  match r with
  | None => x' = x
  | Some out => exists i s, pf_slots (pw_pf x) !! i = Some s /\ slot_terminal s = true /\ pf_seq s = next_consume_seq (pw_pf x) /\
      out = ready_of s /\ pf_slots (pw_pf x') = <[i := slot_reset_free]> (pf_slots (pw_pf x)) /\
      same_worker (pw_pf x) (pw_pf x') /\ next_consume_seq (pw_pf x') = u64 (next_consume_seq (pw_pf x) + 1)
  end.
Proof.
  unfold prefetcher_pop_ready, find_terminal_sample_locked, pop_terminal_slot_idx_locked. intros H.
  destruct (find_first _ _ _) as [i|] eqn:E; [|by simplify_eq/=].
  apply find_first_Some in E as (s & Hs & [Ht Hq%Z.eqb_eq]%andb_true_iff). rewrite Hs in H. rewrite Ht in H. cbn [negb mbind option_bind] in H.
  destruct (owner_unref_locked _ _ _) as [owners|]; simplify_eq/=. exists i, s. done.
Qed.

(** Samples taken one after the other. *)
Inductive pops : pf_world W -> list prefetcher_ready -> pf_world W -> Prop :=
| PopsNil x : pops x [] x
| PopsCons x r x1 l x' : prefetcher_pop_ready x = Some (Some r, x1) -> pops x1 l x' -> pops x (r :: l) x'.

Lemma wave_loop_pops n x acc res :
  wave_loop n x acc = Some res ->
  exists l x', pops x l x' /\ (length l <= n)%nat /\
    match res with
    | inr (out, x2) => out = acc ++ l /\ x2 = x' /\ length l = n
    | inl (_, x2) => x2 = x' /\ (length l < n)%nat /\ prefetcher_pop_ready x' = Some (None, x')
    end.
Proof.
  revert x acc. induction n as [|n IH]; intros x acc H; cbn [wave_loop] in H.
  { simplify_eq/=. exists [], x. rewrite app_nil_r. split; [constructor|done]. }
  destruct (prefetcher_pop_ready x) as [[[r|] x1]|] eqn:E; simplify_eq/=.
  - destruct (IH x1 (acc ++ [r]) H) as (l & x' & Hp & Hn & Hc). exists (r :: l), x'. split; [by econstructor|]. split; [cbn; lia|].
    destruct res as [[fr x2]|[out x2]]; cbn; [destruct Hc as (-> & ? & ?); split_and!; [done|lia|done]|].
    destruct Hc as (-> & -> & <-). by rewrite <-app_assoc.
  - pose proof (pop_ready_slots _ _ _ E) as ->. exists [], x. split; [constructor|]. split; [cbn; lia|]. split_and!; [done|cbn; lia|done].
Qed.
End order.
