(* ===== verification/PrefetcherDeliver.v ===== *)
(** * The prefetcher refines a queue

    The invariant of [PrefetcherOps.v] and what follows from it: samples are handed
    out in the order they were pushed, and draining waits for all of them
    ([src/src/prefetch/prefetcher.c]). *)

From stdpp Require Import strings.
From S2P Require Import Prelude Selection Plan Hash DispatchTypes Lookahead PrefetchCache Prefetcher PrefetcherOps PrefetcherOrder.

#[local] Open Scope Z_scope.

(** The sample in the worker's hands: stalled, or popped and not yet admitted. *)
Definition held (p : prefetcher) (pc : worker_pc) : list damacy_sample_slot :=
  if has_stalled p then [stalled p] else match pc with WPopped _ s => [s] | _ => [] end.

Definition uncounted (pc : worker_pc) : Z := match pc with WCounted _ | WUncount => 1 | _ => 0 end.

(** The slot the worker chose, and what it holds. *)
Definition pc_ok (p : prefetcher) (pc : worker_pc) : Prop :=
  match pc with
  | WScanned (Some i) _ => exists s, pf_slots p !! i = Some s /\ slot_free s = true
  | WCounted i => has_stalled p = false /\ exists s, pf_slots p !! i = Some s /\ slot_free s = true
  | WPopped i x => (has_stalled p = true -> x = stalled p) /\ exists s, pf_slots p !! i = Some s /\ slot_free s = true
  | WUncount => has_stalled p = false
  | _ => True
  end.

Section deliver.
Context {W : Type} `{!MetaCaches W} (env : W -> W -> Prop) (valid : damacy_sample -> Prop).
Implicit Types (y : run W) (x : pf_world W).

(** A sample that was pushed. *)
Definition copied (s : damacy_sample_slot) : Prop :=
  exists malloc sample uri, valid sample /\ sl_uri s = Some uri /\ query_copy malloc (Some sample) = Some (inr (uri, sl_aabb s, sl_axes s)).

(** [adm] are the samples that were admitted to a slot, in order. *)
Record rinv (cap : Z) y (adm : list damacy_sample_slot) : Prop := {
  ri_la : la_reach cap (y_acc y) (adm ++ held (pw_pf (y_x y)) (y_pc y)) (y_la y);
  ri_num : numbered (y_acc y) /\ zlen (y_acc y) < 2 ^ 64;
  ri_valid : Forall copied (y_acc y);
  ri_next : next_consume_seq (pw_pf (y_x y)) = zlen (y_out y) /\ (length (y_out y) <= length adm)%nat;
  ri_out : forall i r, y_out y !! i = Some r -> exists s, adm !! i = Some s /\ ready_for r s;
  ri_slots : slots_ok (pf_slots (pw_pf (y_x y))) adm (length (y_out y));
  ri_cap : zlen (pf_slots (pw_pf (y_x y))) < 2 ^ 32;
  ri_transit : in_transit (pw_pf (y_x y)) = zlen (held (pw_pf (y_x y)) (y_pc y)) + uncounted (y_pc y);
  ri_pc : pc_ok (pw_pf (y_x y)) (y_pc y) }.

Lemma rinv_split cap y adm :
  0 <= cap < UINT32_MAX -> rinv cap y adm ->
  exists q, y_acc y = adm ++ held (pw_pf (y_x y)) (y_pc y) ++ q /\ la_rep (y_la y) q /\ la_cap (y_la y) = cap.
Proof. intros Hc HI. destruct (la_reach_rep _ _ _ _ Hc (ri_la _ _ _ HI)) as (q & Hq & -> & Hcap). exists q. by rewrite app_assoc. Qed.

Lemma rinv_adm cap y adm : 0 <= cap < UINT32_MAX -> rinv cap y adm -> numbered adm /\ (length adm <= length (y_acc y))%nat.
Proof.
  intros Hc HI. destruct (rinv_split _ _ _ Hc HI) as (q & Hq & _). split; [|rewrite Hq, length_app; lia].
  intros k x Hk. apply (ri_num _ _ _ HI). rewrite Hq. by apply lookup_app_l_Some.
Qed.

(** ** Steps that leave the samples where they are *)

Lemma held_worker p p' pc : same_worker p p' -> held p' pc = held p pc.
Proof. intros (_ & H1 & H2). unfold held. by rewrite H1, H2. Qed.

Lemma scan_rinv cap x la acc out mem x' slot busy adm :
  rinv cap (Run x la WLocking acc out) adm -> worker_scan mem x = Some (x', (slot, busy)) ->
  rinv cap (Run x' la (WScanned slot busy) acc out) adm.
Proof.
  intros [H1 H2 H3 H4 H5 H6 H7 H8 H9] Hs. destruct (worker_scan_slots _ _ _ _ _ Hs) as (HF & Hw & Hn & Hfree). cbn in *.
  assert (Hh : held (pw_pf x') (WScanned slot busy) = held (pw_pf x) WLocking) by (by rewrite (held_worker _ _ _ Hw)).
  split; cbn; rewrite ?Hh, ?Hn; try done.
  - by eapply slots_advance.
  - by rewrite <-(Forall2_length _ _ _ HF).
  - destruct Hw as (-> & _). exact H8.
  - destruct slot as [i|]; [|done]. by apply Hfree.
Qed.

(** ** Taking samples *)

(** A slot that the worker chose stays free when another is emptied. *)
Lemma free_insert (l : list prefetcher_slot) i j :
  (exists s, l !! i = Some s /\ slot_free s = true) -> exists s, <[j := slot_reset_free]> l !! i = Some s /\ slot_free s = true.
Proof.
  intros (s & Hs & Hf). destruct (decide (i = j)) as [->|Hne]; [|exists s; by rewrite list_lookup_insert_ne].
  exists slot_reset_free. split; [|done]. apply list_lookup_insert_eq. by eapply lookup_lt_Some.
Qed.

Lemma pop_rinv cap x la pc acc out r x' adm :
  0 <= cap < UINT32_MAX -> rinv cap (Run x la pc acc out) adm -> prefetcher_pop_ready x = Some (Some r, x') ->
  rinv cap (Run x' la pc acc (out ++ [r])) adm.
Proof.
  intros Hc HI Hp. destruct (rinv_adm _ _ _ Hc HI) as [Hnum Hle]. destruct HI as [H1 H2 H3 H4 H5 H6 H7 H8 H9]. cbn in *.
  destruct (pop_ready_slots _ _ _ Hp) as (i & s & Hs & Ht & Hq & -> & Hsl & Hw & Hn). apply terminal_busy in Ht.
  destruct H4 as [H4 Hlen]. rewrite H4 in Hq, Hn. destruct (so_slot _ _ _ H6 i s Hs Ht) as (k & z & Hk & Hkn & Ho).
  assert (k = length out) as -> by (destruct Ho as (_ & _ & _ & Ho); rewrite (Hnum k z Hk) in Ho; lia).
  assert (Hlt : (length out < length adm)%nat) by (by eapply lookup_lt_Some).
  split; cbn; rewrite ?(held_worker _ _ _ Hw), ?Hsl; try done.
  - rewrite Hn, length_app. cbn. rewrite u64_id by clia. split; lia.
  - intros j r Hj. apply lookup_app_Some in Hj as [Hj|[Hge Hj]]; [by apply H5|].
    apply list_lookup_singleton_Some in Hj as [Hj <-]. assert (j = length out) as -> by lia. exists z. split; [done|].
    destruct Ho as (O1 & O2 & O3 & O4). split_and!; [exact O1|exact O2|exact O3|exact O4].
  - rewrite length_app, Nat.add_1_r. by eapply slots_take.
  - by rewrite length_insert.
  - destruct Hw as (-> & _). exact H8.
  - destruct Hw as (_ & E1 & E2). unfold pc_ok in *. rewrite E1, E2. rewrite Hsl. destruct pc as [| |[j|] ?|j|j ?| |]; try done.
    + by apply free_insert.
    + destruct H9. split; [done|]. by apply free_insert.
    + destruct H9. split; [done|]. by apply free_insert.
Qed.

Lemma pops_rinv cap x la pc acc out l x' adm :
  0 <= cap < UINT32_MAX -> pops x l x' -> rinv cap (Run x la pc acc out) adm -> rinv cap (Run x' la pc acc (out ++ l)) adm.
Proof.
  intros Hc Hp. revert out. induction Hp as [x|x r x1 l x' Hp _ IH]; intros out HI; [by rewrite app_nil_r|].
  rewrite (cons_middle r out l), app_assoc. apply IH. by eapply pop_rinv.
Qed.

Lemma pops_worker x l x' : pops x l x' -> same_worker (pw_pf x) (pw_pf x').
Proof.
  induction 1 as [x|x r x1 l x' Hp _ (I1 & I2 & I3)]; [done|].
  destruct (pop_ready_slots _ _ _ Hp) as (_ & _ & _ & _ & _ & _ & _ & (E1 & E2 & E3) & _). split_and!; congruence.
Qed.

Definition terminal_at (p : prefetcher) (seq : Z) : Prop :=
  exists i s, pf_slots p !! i = Some s /\ slot_terminal s = true /\ pf_seq s = seq.

Lemma find_terminal_at p seq : is_Some (find_terminal_sample_locked p seq) <-> terminal_at p seq.
Proof.
  unfold find_terminal_sample_locked. split.
  - intros [i Hi]. apply find_first_Some in Hi as (s & Hs & [Ht Hq%Z.eqb_eq]%andb_true_iff). by exists i, s.
  - intros (i & s & Hs & Ht & Hq). pose proof (find_first_spec (fun s => slot_terminal s && (pf_seq s =? seq)) (pf_slots p) 0) as F.
    destruct (find_first _ _ _) as [j|]; [done|]. specialize (F i s Hs). cbn in F. by rewrite Ht, Hq, Z.eqb_refl in F.
Qed.

Lemma pop_ready_none x x' : prefetcher_pop_ready x = Some (None, x') -> ~ terminal_at (pw_pf x) (next_consume_seq (pw_pf x)).
Proof.
  unfold prefetcher_pop_ready. rewrite <-find_terminal_at. destruct (find_terminal_sample_locked _ _) as [i|] eqn:E; [|by intros _ []].
  unfold find_terminal_sample_locked in E. apply find_first_Some in E as (s & Hs & [Ht _]%andb_true_iff).
  unfold pop_terminal_slot_idx_locked. rewrite Hs, Ht. cbn [negb mbind option_bind]. by destruct (owner_unref_locked _ _ _).
Qed.

(** Taking samples leaves the later ones. *)
Lemma pops_terminal cap x l x' la pc acc out adm q :
  0 <= cap < UINT32_MAX -> pops x l x' -> rinv cap (Run x la pc acc out) adm ->
  zlen out + zlen l <= q -> terminal_at (pw_pf x) q -> terminal_at (pw_pf x') q.
Proof.
  intros Hc Hp. revert out. induction Hp as [x|x r x1 l x' Hp _ IH]; intros out HI Hq Ht; [done|].
  pose proof (pop_rinv _ _ _ _ _ _ _ _ _ Hc HI Hp) as HI1.
  apply (IH (out ++ [r])); [done|rewrite length_app; cbn in *; lia|].
  destruct Ht as (i & s & Hs & Ht & Hseq). destruct (pop_ready_slots _ _ _ Hp) as (j & t & Htj & _ & Hqt & _ & Hsl & _).
  destruct (ri_next _ _ _ HI) as [Hn _]. cbn in Hn. exists i, s. rewrite Hsl. split; [|done].
  rewrite list_lookup_insert_ne; [done|]. intros ->. cbn in *. assert (t = s) by congruence. subst. lia.
Qed.

Lemma prefix_loop_spec fuel p n k :
  0 <= n -> n + Z.of_nat fuel < 2 ^ 32 -> prefix_loop fuel p n = Some k ->
  n <= k <= n + Z.of_nat fuel /\ forall j, n <= j < k -> terminal_at p (u64 (next_consume_seq p + j)).
Proof.
  revert n. induction fuel as [|fuel IH]; intros n Hn Hf H; cbn [prefix_loop] in H;
    destruct (find_terminal_sample_locked _ _) as [i|] eqn:E; simplify_eq; [split; [lia|intros j Hj; lia]| |split; [lia|intros j Hj; lia]].
  rewrite u32_id in H by clia. destruct (IH (n + 1)) as [Hk Hj]; [lia|lia|done|]. split; [lia|]. intros j Hjn.
  destruct (decide (j = n)) as [->|]; [apply find_terminal_at; by rewrite E|apply Hj; lia].
Qed.

(** No more sequence numbers are found than there are slots: the fuel is enough. *)
Lemma terminals_bound p (qs : list Z) : NoDup qs -> Forall (terminal_at p) qs -> (length qs <= length (pf_slots p))%nat.
Proof.
  intros Hnd Hall. rewrite <-(length_fmap pf_seq (pf_slots p)). apply submseteq_length, NoDup_submseteq; [done|]. intros q Hq. rewrite Forall_forall in Hall.
  destruct (Hall q Hq) as (i & s & Hs & _ & <-). apply list_elem_of_fmap. exists s. split; [done|]. by eapply list_elem_of_lookup_2.
Qed.
Lemma prefix_loop_total fuel p n : 0 <= n -> n + Z.of_nat fuel < 2 ^ 32 ->
  (forall j, 0 <= j < n -> terminal_at p (u64 (next_consume_seq p + j))) -> zlen (pf_slots p) <= n + Z.of_nat fuel ->
  exists k, prefix_loop fuel p n = Some k /\ n <= k <= zlen (pf_slots p) /\ (forall j, 0 <= j < k -> terminal_at p (u64 (next_consume_seq p + j))) /\
    ~ terminal_at p (u64 (next_consume_seq p + k)).
Proof.
  assert (Hfit : forall m, 0 <= m <= 2 ^ 32 -> (forall j, 0 <= j < m -> terminal_at p (u64 (next_consume_seq p + j))) -> m <= zlen (pf_slots p)).
  { intros m Hm Hall. pose proof (terminals_bound p ((fun j => u64 (next_consume_seq p + j)) <$> seqZ 0 m)) as Hb. rewrite length_fmap, length_seqZ in Hb. enough (Z.to_nat m <= length (pf_slots p))%nat by lia. apply Hb.
    - apply NoDup_fmap_2_strong; [|apply NoDup_seqZ]. intros x y Hx%elem_of_seqZ Hy%elem_of_seqZ E. unfold u64 in E. Z.div_mod_to_equations. lia.
    - apply Forall_fmap, Forall_forall. intros j Hj%elem_of_seqZ. apply Hall. lia. }
  revert n. induction fuel as [|fuel IH]; intros n Hn Hu Hall Hlen; cbn [prefix_loop];
    pose proof (Hfit n ltac:(lia) Hall) as Hl; pose proof (find_terminal_at p (u64 (next_consume_seq p + n))) as Hft; destruct (find_terminal_sample_locked _ _) as [i|];
    try (exists n; split; [done|]; split; [lia|]; split; [done|]; intros Ht; by apply Hft in Ht as [? ?]).
  all: assert (Hall' : forall j, 0 <= j < n + 1 -> terminal_at p (u64 (next_consume_seq p + j))) by (intros j Hj; destruct (decide (j = n)) as [->|]; [apply Hft; eauto|apply Hall; lia]).
  - pose proof (Hfit (n + 1) ltac:(lia) Hall'). lia.
  - rewrite u32_id by clia. destruct (IH (n + 1)) as (k & Hk & Hr & Hrest); [lia|lia|done|lia|]. exists k. split; [done|]. split; [lia|done].
Qed.

Lemma wave_rinv cap x la pc acc out k ticket l x' adm :
  0 <= cap < UINT32_MAX -> rinv cap (Run x la pc acc out) adm -> prefetcher_take_ready_wave x k = Some (ticket, l, x') ->
  pops x l x' /\ n_samples ticket = zlen l /\ (l <> [] -> sample_seq_begin ticket = zlen out).
Proof.
  intros Hc HI H. pose proof (ri_cap _ _ _ HI) as Hcap. destruct (ri_next _ _ _ HI) as [Hn Hle]. destruct (rinv_adm _ _ _ Hc HI) as [Hnum Hle2].
  pose proof (ri_num _ _ _ HI) as [_ Hsm]. cbn in *. unfold prefetcher_take_ready_wave in H.
  destruct (0 <? k) eqn:Ek; cbn [negb] in H; [apply Z.ltb_lt in Ek|simplify_eq; split; [constructor|done]].
  destruct (ready_prefix_count_locked _) as [c|] eqn:Ec; cbn [mbind option_bind] in H; [|done].
  destruct (prefix_loop_spec (length (pf_slots (pw_pf x))) (pw_pf x) 0 c ltac:(lia) ltac:(lia) Ec) as [Hc0 Hterm].
  set (n := if c <? k then c else k) in H. assert (0 <= n <= c) as Hnc by (subst n; destruct (Z.ltb_spec c k); lia).
  destruct (Z.eqb_spec n 0); [simplify_eq; split; [constructor|done]|].
  destruct (wave_loop _ _ _) as [res|] eqn:Ew; cbn [mbind option_bind] in H; [|done].
  destruct (wave_loop_pops _ _ _ _ Ew) as (l2 & x2 & Hp & Hl & Hres). destruct res as [[fr x3]|[o3 x3]]; simplify_eq.
  - exfalso. destruct Hres as (-> & Hlt & Hnone). apply pop_ready_none in Hnone. apply Hnone.
    pose proof (pops_rinv _ _ _ _ _ _ _ _ _ Hc Hp HI) as HI2. destruct (ri_next _ _ _ HI2) as [Hn2 Hle3]. cbn in Hn2, Hle3.
    rewrite Hn2, length_app. rewrite length_app in Hle3. eapply (pops_terminal cap x l2 x2 la pc acc out adm); try done; [lia|].
    specialize (Hterm (zlen l2) ltac:(lia)). rewrite Hn, u64_id in Hterm by clia. by rewrite Nat2Z.inj_add.
  - destruct Hres as (-> & -> & Hlen). cbn. split; [done|]. split; [lia|]. intros _. exact Hn.
Qed.

(** ** Admission *)

Lemma hand_is p i s : pc_ok p (WPopped i s) -> held p (WPopped i s) = [s].
Proof. intros [H _]. unfold held. destruct (has_stalled p); [|done]. by rewrite H. Qed.

Lemma admit_rinv cap x la acc out i s x' st adm :
  0 <= cap < UINT32_MAX -> rinv cap (Run x la (WPopped i s) acc out) adm -> admit_locked x i s = Some (x', st) ->
  exists adm', rinv cap (Run (fst (after_admit x' s st)) la (snd (after_admit x' s st)) acc out) adm' /\
    adm' = adm ++ (if decide (st = DAMACY_AGAIN) then [] else [s]).
Proof.
  intros Hc HI Ha. destruct (rinv_split _ _ _ Hc HI) as (q & Hq & _). pose proof (hand_is _ _ _ (ri_pc _ _ _ HI)) as Hh. cbn in Hq, Hh.
  destruct HI as [H1 H2 H3 H4 H5 H6 H7 H8 H9]. cbn in *. rewrite Hh in *.
  destruct (admit_locked_slots _ _ _ _ _ Ha) as (Hw & Hn & Hsl). eexists. split; [|done]. unfold after_admit.
  destruct Hw as (E1 & E2 & E3). destruct (decide (st = DAMACY_AGAIN)).
  - rewrite app_nil_r. split; cbn; rewrite ?Hn, ?Hsl; try done. rewrite E1. exact H8.
  - destruct Hsl as (t & Hsl & Hof & Hf). destruct H9 as [_ (u & Hu & Huf)].
    assert (Hnum : numbered (adm ++ [s])).
    { intros k z Hk. apply H2. rewrite Hq, (assoc_L (++)). by apply lookup_app_l_Some. }
    split; cbn; rewrite ?Hn, ?Hsl; try done.
    + by rewrite app_nil_r.
    + destruct H4 as [-> ?]. split; [done|]. rewrite length_app. lia.
    + intros j r Hj. destruct (H5 j r Hj) as (z & Hz & Hr). exists z. split; [by apply lookup_app_l_Some|done].
    + eapply slots_admit; try done. apply H4.
    + by rewrite length_insert.
    + rewrite E1. exact H8.
Qed.

(** ** Every step *)

(** Samples only move on. *)
Definition moves_on y adm y' adm' : Prop :=
  adm `prefix_of` adm' /\ adm ++ held (pw_pf (y_x y)) (y_pc y) `prefix_of` adm' ++ held (pw_pf (y_x y')) (y_pc y') /\
  y_acc y `prefix_of` y_acc y' /\ y_out y `prefix_of` y_out y'.

Lemma quiet y y' adm :
  held (pw_pf (y_x y')) (y_pc y') = held (pw_pf (y_x y)) (y_pc y) -> y_acc y `prefix_of` y_acc y' -> y_out y `prefix_of` y_out y' ->
  moves_on y adm y' adm.
Proof. intros H. unfold moves_on. by rewrite H. Qed.

Lemma rstep_rinv cap y y' adm :
  0 <= cap < UINT32_MAX -> rinv cap y adm -> rstep env valid y y' -> exists adm', rinv cap y' adm' /\ moves_on y adm y' adm'.
Proof.
  intros Hc HI Hs. destruct Hs.
  - exists adm. destruct HI. destruct (pf_stop (pw_pf x)); (split; [by split|by apply quiet]).
  - exists adm. split; [by eapply scan_rinv|]. destruct (worker_scan_slots _ _ _ _ _ H) as (_ & Hw & _). apply quiet; try done.
    exact (held_worker _ _ WLocking Hw).
  - exists adm. split; [by destruct HI|by apply quiet].
  - exists adm. split; [|by apply quiet; unfold held; cbn; rewrite ?H]. destruct HI as [H1 H2 H3 H4 H5 H6 H7 H8 H9]. unfold held in *. cbn in *.
    by split; cbn; unfold held; rewrite ?H in *.
  - exists adm. split; [|by apply quiet]. destruct HI as [H1 H2 H3 H4 H5 H6 H7 H8 H9]. unfold held in *. cbn in *.
    by split; cbn; unfold held; rewrite ?H in *.
  - exists adm. split; [|by apply quiet]. destruct HI as [H1 H2 H3 H4 H5 H6 H7 H8 H9]. unfold held in *. cbn in *. rewrite H in *.
    split; cbn; unfold held; cbn; rewrite ?H; try done. rewrite H8. done.
  - exists adm. destruct HI as [H1 H2 H3 H4 H5 H6 H7 H8 [H9 H10]]. unfold held in *. cbn in *. rewrite H9 in *.
    pose proof (LaTryPop _ _ _ _ _ _ H1 H) as H11. rewrite app_nil_r in H11. split.
    + destruct r as [z|]; split; cbn; unfold held; cbn; rewrite ?H9; done.
    + unfold moves_on, held; cbn. rewrite H9, app_nil_r. by split_and!; try apply prefix_app_r.
  - destruct (admit_rinv _ _ _ _ _ _ _ _ _ _ Hc HI H) as (adm' & HI' & ->). eexists. split; [done|].
    pose proof (hand_is _ _ _ (ri_pc _ _ _ HI)) as Hh. unfold moves_on. cbn in *. rewrite Hh. unfold after_admit.
    split; [by eexists|]. split; [|done]. destruct (decide _); cbn; [by rewrite app_nil_r|]. apply prefix_app_r. done.
  - exists adm. split; [|by apply quiet]. destruct HI as [H1 H2 H3 H4 H5 H6 H7 H8 H9]. unfold held in *. cbn in *. rewrite H9 in *.
    split; cbn; unfold held; cbn; rewrite ?H9; try done. by rewrite H8.
  - exists adm. split; [|by apply quiet; [|apply prefix_app_r|]]. destruct HI as [I1 I2 I3 I4 I5 I6 I7 I8 I9]. cbn in *. split; cbn; try done.
    + by eapply LaPush.
    + split; [|rewrite length_app; cbn; lia]. intros k z Hk. apply lookup_app_Some in Hk as [Hk|[Hge Hk]]; [by apply I2|].
      apply list_lookup_singleton_Some in Hk as [Hk <-]. cbn. lia.
    + apply Forall_app. split; [done|]. constructor; [|constructor]. by exists malloc, sample, uri.
  - exists adm. split; [|by apply quiet]. destruct HI. split; try done. by eapply LaRefused.
  - exists adm. destruct r as [r|]; cbn.
    + split; [by eapply pop_rinv|]. apply quiet; [|done|by apply prefix_app_r]. cbn.
      destruct (pop_ready_slots _ _ _ H) as (_ & _ & _ & _ & _ & _ & _ & Hw & _). by apply held_worker.
    + rewrite app_nil_r, (pop_ready_slots _ _ _ H). split; [done|by apply quiet].
  - exists adm. destruct (wave_rinv _ _ _ _ _ _ _ _ _ _ _ Hc HI H) as [Hp _]. split; [by eapply pops_rinv|].
    apply quiet; [|done|by apply prefix_app_r]. by apply held_worker, (pops_worker _ _ _ Hp).
  - exists adm. unfold prefetcher_stop in H. destruct (pf_started (pw_pf x)); simplify_eq; [|destruct x; split; [done|by apply quiet]].
    split; [|by apply quiet]. destruct HI. split; try done. by apply LaStop.
  - exists adm. split; [by destruct HI|by apply quiet].
Qed.

Lemma rsteps_rinv cap y y' adm :
  0 <= cap < UINT32_MAX -> rinv cap y adm -> rtc (rstep env valid) y y' -> exists adm', rinv cap y' adm' /\ moves_on y adm y' adm'.
Proof.
  intros Hc HI Hr. revert adm HI. induction Hr as [y|y1 y2 y3 Hs _ IH]; intros adm HI; [exists adm; split; [done|by apply quiet]|].
  destruct (rstep_rinv _ _ _ _ Hc HI Hs) as (adm2 & HI2 & M1 & M2 & M3 & M4).
  destruct (IH adm2 HI2) as (adm3 & HI3 & N1 & N2 & N3 & N4). exists adm3. split; [done|]. by split_and!; etrans.
Qed.

Lemma starts_rinv cap w y : 0 <= cap < UINT32_MAX -> starts cap w y -> rinv cap y [].
Proof.
  intros Hc (alloc & cfg & p & la0 & la & Hcap & Hp & Hl & ->). unfold prefetcher_create in Hp. case_match; [|done]. simplify_eq/=.
  assert (Hfree : forall n i s, repeat slot_reset_free n !! i = Some s -> slot_free s = true).
  { intros n i s Hi. apply list_elem_of_lookup_2, list_elem_of_In, repeat_spec in Hi as ->. done. }
  split; cbn; try done.
  - by apply (LaInit _ alloc la0).
  - split; [intros i s Hi Hf; apply Hfree in Hi; congruence|intros i j s t Hi _ Hf; apply Hfree in Hi; congruence|done].
  - rewrite repeat_length. lia.
Qed.

(** ** Draining *)

(** [prefetcher_drain], called in [y], returns in [y']: in one pass of its loop the
    lookahead was empty, then no sample was in transit, then no slot was active. *)
Inductive drains (y y' : run W) : Prop :=
| Drains y1 y2 :
    rtc (rstep env valid) y y1 -> lookahead_size (y_la y1) = 0 -> rtc (rstep env valid) y1 y2 -> in_transit (pw_pf (y_x y2)) = 0 ->
    rtc (rstep env valid) y2 y' -> existsb slot_active (pf_slots (pw_pf (y_x y'))) = false -> drains y y'.

Lemma idle_slot (l : list prefetcher_slot) i s :
  existsb slot_active l = false -> l !! i = Some s -> slot_free s = false -> slot_terminal s = true.
Proof.
  intros He Hi Hf. assert (slot_active s = false) as Ha.
  { destruct (slot_active s) eqn:E; [|done]. rewrite <-not_true_iff_false in He. destruct He. apply existsb_exists. exists s.
    split; [|done]. apply list_elem_of_In. by eapply list_elem_of_lookup_2. }
  unfold slot_active, slot_free, slot_terminal in *. by destruct (pf_state s) as [[]|].
Qed.

(** ** The claims *)

(** C40: in every interleaving of the worker, pushes, takes, a stop and changes of the
    caches, the samples handed out are exactly the first ones that were pushed, in
    order, each with its own uri, bounds and axes. Every other accepted sample is in
    exactly one place: admitted samples in exactly one slot each, at most one in the
    worker's hands, the later ones in the lookahead in order. The slot the worker
    chose stays free until it fills it. The search of [ready_prefix_count_locked] ends,
    with the number of finished samples at the front of the order. *)
Theorem prefetcher_delivers_in_order cap w y0 y :
  0 <= cap < UINT32_MAX -> starts cap w y0 -> rtc (rstep env valid) y0 y ->
  let p := pw_pf (y_x y) in
  exists adm q, y_acc y = adm ++ held p (y_pc y) ++ q /\ lookahead_size (y_la y) = zlen q /\
    next_consume_seq p = zlen (y_out y) /\ (length (y_out y) <= length adm)%nat /\
    (forall i r, y_out y !! i = Some r -> exists s, adm !! i = Some s /\ ready_for r s) /\
    (forall i s, adm !! i = Some s -> (length (y_out y) <= i)%nat ->
       exists j t, pf_slots p !! j = Some t /\ slot_free t = false /\ of_sample t s /\
         forall k u, pf_slots p !! k = Some u -> slot_free u = false -> of_sample u s -> k = j) /\
    (forall j t, pf_slots p !! j = Some t -> slot_free t = false ->
       exists i s, adm !! i = Some s /\ (length (y_out y) <= i)%nat /\ of_sample t s) /\
    (forall i s, y_pc y = WPopped i s -> exists t, pf_slots p !! i = Some t /\ slot_free t = true) /\
    exists k, ready_prefix_count_locked p = Some k /\ 0 <= k <= zlen (pf_slots p) /\
      (forall j, 0 <= j < k -> terminal_at p (u64 (next_consume_seq p + j))) /\ ~ terminal_at p (u64 (next_consume_seq p + k)).
Proof.
  intros Hc H0 Hr p. destruct (rsteps_rinv _ _ _ _ Hc (starts_rinv _ _ _ Hc H0) Hr) as (adm & HI & _).
  destruct (rinv_split _ _ _ Hc HI) as (q & Hq & Hrep & _). pose proof Hrep as [slots [_ _ _ _ Hsz _ _ _ _]].
  destruct HI as [_ _ _ [H4 H5] H6 [S1 S2 S3] Hcap _ H9]. exists adm, q. split_and!; try done.
  - intros i s Hi Hle. destruct (S3 i s Hi Hle) as (j & t & Ht & Hf & Ho). exists j, t. split_and!; try done.
    intros k u Hu Hfu Hou. eapply (S2 k j u t); try done. destruct Ho as (_ & _ & _ & ->), Hou as (_ & _ & _ & ->). done.
  - intros i s Hpc. rewrite Hpc in H9. apply H9.
  - apply prefix_loop_total; try fold p in Hcap; try lia.
Qed.

(** C26: [prefetcher_drain] returns only when every sample pushed before the call has
    been handed out or sits, finished, in a slot; samples the worker had popped but
    not yet admitted are not overlooked. *)
Theorem prefetcher_drain_complete cap w y0 y y' :
  0 <= cap < UINT32_MAX -> starts cap w y0 -> rtc (rstep env valid) y0 y -> drains y y' ->
  forall i s, y_acc y !! i = Some s ->
    (exists r, y_out y' !! i = Some r /\ ready_for r s) \/
    (exists j t, pf_slots (pw_pf (y_x y')) !! j = Some t /\ slot_terminal t = true /\ of_sample t s).
Proof.
  intros Hc H0 Hr [y1 y2 R1 Hsz R2 Htr R3 Hact] i s Hi.
  destruct (rsteps_rinv _ _ _ _ Hc (starts_rinv _ _ _ Hc H0) Hr) as (adm & HI & _).
  destruct (rsteps_rinv _ _ _ _ Hc HI R1) as (adm1 & HI1 & _ & _ & A1 & _).
  destruct (rsteps_rinv _ _ _ _ Hc HI1 R2) as (adm2 & HI2 & _ & P2 & _ & _).
  destruct (rsteps_rinv _ _ _ _ Hc HI2 R3) as (adm3 & HI3 & P3 & _ & _ & _).
  destruct (rinv_split _ _ _ Hc HI1) as (q & Hq & Hrep & _). pose proof Hrep as [slots [_ _ _ _ Hz _ _ _ _]].
  unfold lookahead_size in Hsz. rewrite Hsz in Hz. destruct q; [|done]. rewrite app_nil_r in Hq.
  pose proof (ri_transit _ _ _ HI2) as Ht2. rewrite Htr in Ht2.
  assert (held (pw_pf (y_x y2)) (y_pc y2) = []) as Hh.
  { destruct (held (pw_pf (y_x y2)) (y_pc y2)); [done|]. cbn in Ht2. unfold uncounted in Ht2. destruct (y_pc y2); lia. }
  rewrite Hh, app_nil_r, <-Hq in P2. assert (adm3 !! i = Some s) as Hs by (repeat (eapply prefix_lookup_Some; [|done]); done).
  destruct (decide (i < length (y_out y'))%nat) as [Hlt|Hge].
  - left. apply lookup_lt_is_Some in Hlt as [r Hri]. destruct (ri_out _ _ _ HI3 i r Hri) as (s' & Hs' & Hrf). exists r. split; [done|].
    by assert (s' = s) as -> by congruence.
  - right. destruct (so_all _ _ _ (ri_slots _ _ _ HI3) i s Hs) as (j & t & Ht & Hf & Ho); [lia|]. exists j, t. split_and!; try done.
    by eapply idle_slot.
Qed.
End deliver.
