(* ===== verification/PrefetcherLaws.v ===== *)
(** * What the prefetcher relies on

    The promises of the metadata caches ([src/src/prefetch/prefetch_cache.h]) to the
    prefetcher, as laws of the interface [MetaCaches], and what the prefetcher owes
    them: a gate is passed to a request only while its owner entry is in use, and is
    initialised again only when nothing waits for it. The owner entries of
    [src/src/prefetch/prefetcher.c] keep that. *)

From stdpp Require Import strings.
From S2P Require Import Prelude Selection Plan Hash DispatchTypes Lookahead PrefetchCache Prefetcher PrefetcherOps PrefetcherOrder.

#[local] Open Scope Z_scope.

(** What happens to the caches. [ml_step o]: a call or a step of another thread, in
    which only gate [o] may gain waiters. *)
Class MetaLaws (W : Type) `{!MetaCaches W} := {
  ml_ok : W -> Prop;
  ml_step : option ptr -> W -> W -> Prop;
  ml_watermark : W -> Z;
  ml_live : W -> ptr -> Prop;
  ml_idle : W -> ptr -> Prop;
  ml_step_ok w w' o : ml_ok w -> ml_step o w w' -> ml_ok w' /\ ml_watermark w <= ml_watermark w';
  ml_step_live w w' o g : ml_ok w -> ml_step o w w' -> ml_live w g -> ml_live w' g;
  ml_step_idle w w' o g : ml_ok w -> ml_step o w w' -> o <> Some g -> ml_idle w g -> ml_idle w' g;
  ml_init w g : ml_ok w -> ml_idle w g -> ml_step None w (gate_init w g) /\ ml_live (gate_init w g) g;
  ml_error w g w' : ml_ok w -> gate_set_error w g = Some w' -> ml_step None w w';
  ml_pending w g : ml_ok w -> gate_pending w g = Some 0 -> ml_idle w g }.

(** One cache: [cl_holds w k o h], the handle [h] names the entry of key [k], which
    the sample [o] owns; [cl_view], what the handle reads; [good], what the fetcher
    promises of a value. *)
Class CacheLaws {W K V : Type} `{MetaLaws W} (c : cache_ops W K V) (good : V -> Prop) := {
  cl_holds : W -> K -> Z -> prefetch_handle -> Prop;
  cl_view : W -> prefetch_handle -> prefetch_state * option V * Z;
  cl_request w hash k o gate w' r :
    ml_ok w -> (forall g, gate = Some g -> ml_live w g) -> co_request c w hash k o gate = Some (w', r) ->
    ml_step gate w w' /\ (r_status r = DAMACY_OK -> cl_holds w' k o (r_handle r));
  cl_query w h w' a : ml_ok w -> co_query c w h = Some (w', a) -> ml_step None w w' /\ cl_view w' h = a;
  cl_good w h v : ml_ok w -> snd (fst (cl_view w h)) = Some v -> good v;
  cl_stable w w' g k o h :
    ml_ok w -> ml_step g w w' -> ml_watermark w' <= o -> cl_holds w k o h ->
    cl_holds w' k o h /\ (fst (fst (cl_view w h)) <> PREFETCH_STATE_PENDING -> cl_view w' h = cl_view w h) }.
Arguments cl_holds {W K V _ _} c {_ _}.
Arguments cl_view {W K V _ _} c {_ _}.

Class LayoutLaws (W : Type) `{MetaLaws W} := layout_laws cl : chunk_layout_cache = Some cl -> CacheLaws cl (fun _ => True).

Section steps.
Context {W : Type} `{MetaLaws W}.
Implicit Types w : W.

(** Several steps, in which only gate [o] may gain waiters. *)
Inductive steps (o : option ptr) : W -> W -> Prop :=
| steps_refl w : steps o w w
| steps_cons w1 w2 w3 g : g = None \/ g = o -> ml_step g w1 w2 -> steps o w2 w3 -> steps o w1 w3.

Lemma steps_trans o w1 w2 w3 : steps o w1 w2 -> steps o w2 w3 -> steps o w1 w3.
Proof. induction 1 as [|? ? ? ? Hg Hs _ IH]; [done|]. intros Ht. by econstructor; [|exact Hs|apply IH]. Qed.
Lemma steps_one o w w' : ml_step o w w' -> steps o w w'.
Proof. intros Hs. econstructor; [by right|exact Hs|constructor]. Qed.
Lemma steps_none o w w' : ml_step None w w' -> steps o w w'.
Proof. intros Hs. econstructor; [by left|exact Hs|constructor]. Qed.
Lemma steps_weaken o w w' : steps None w w' -> steps o w w'.
Proof. induction 1 as [|? ? ? ? [->| ->] Hs _ IH]; [constructor|by eapply steps_cons; [left|..]..]. Qed.

Lemma steps_ok o w w' : ml_ok w -> steps o w w' -> ml_ok w' /\ ml_watermark w <= ml_watermark w'.
Proof.
  intros Hw Hs. induction Hs as [|w1 w2 w3 g _ Hs _ IH]; [done|]. destruct (ml_step_ok _ _ _ Hw Hs) as [Hw2 Hle].
  destruct (IH Hw2). split; [done|lia].
Qed.
Lemma steps_live o w w' g : ml_ok w -> steps o w w' -> ml_live w g -> ml_live w' g.
Proof.
  intros Hw Hs. induction Hs as [|w1 w2 w3 o' _ Hs _ IH]; [done|]. intros Hl. destruct (ml_step_ok _ _ _ Hw Hs) as [Hw2 _].
  exact (IH Hw2 (ml_step_live _ _ _ _ Hw Hs Hl)).
Qed.
Lemma steps_idle o w w' g : ml_ok w -> steps o w w' -> o <> Some g -> ml_idle w g -> ml_idle w' g.
Proof.
  intros Hw Hs Ho. induction Hs as [|w1 w2 w3 o' Hg Hs _ IH]; [done|]. intros Hl. destruct (ml_step_ok _ _ _ Hw Hs) as [Hw2 _].
  apply (IH Hw2), (ml_step_idle _ _ _ _ Hw Hs); [|done]. by destruct Hg as [->| ->].
Qed.

Context {K V : Type} (c : cache_ops W K V) {good : V -> Prop} `{!CacheLaws c good}.

(** A handle that stands for the entry of [k] and has been answered. *)
Definition answered w (k : K) (o : Z) (h : prefetch_handle) (a : prefetch_state * option V * Z) : Prop :=
  cl_holds c w k o h /\ cl_view c w h = a.

Lemma steps_holds g w w' k o h : ml_ok w -> steps g w w' -> ml_watermark w' <= o -> cl_holds c w k o h -> cl_holds c w' k o h.
Proof.
  intros Hw Hs. induction Hs as [|w1 w2 w3 g' _ Hs Hr IH]; [done|]. intros Hwm Hh. destruct (ml_step_ok _ _ _ Hw Hs) as [Hw2 _].
  destruct (steps_ok _ _ _ Hw2 Hr) as [_ Hle]. apply IH; try done. apply (cl_stable (c := c) w1 w2 g' k o h); try done. lia.
Qed.
Lemma steps_answered g w w' k o h a :
  ml_ok w -> steps g w w' -> ml_watermark w' <= o -> fst (fst a) <> PREFETCH_STATE_PENDING -> answered w k o h a -> answered w' k o h a.
Proof.
  intros Hw Hs. induction Hs as [|w1 w2 w3 g' _ Hs Hr IH]; [done|]. intros Hwm Ha [Hh Hv]. destruct (ml_step_ok _ _ _ Hw Hs) as [Hw2 _].
  destruct (steps_ok _ _ _ Hw2 Hr) as [_ Hle]. apply IH; try done.
  destruct (cl_stable (c := c) w1 w2 g' k o h) as [Hh' Hv']; try done; [lia|]. split; [done|]. rewrite Hv'; [done|]. by rewrite Hv.
Qed.
End steps.

Lemma owner_gate_inj i j : owner_gate i = owner_gate j -> i = j.
Proof. unfold owner_gate. lia. Qed.

Section owners.
Context {W : Type} `{MetaLaws W}.
Implicit Types (w : W) (l : list prefetcher_owner_entry).

(** The entries: [refs id] says that a slot is occupied by sample [id]. *)
Record owners_ok w l (refs : Z -> Prop) : Prop := {
  oo_unique : forall i j e f, l !! i = Some e -> l !! j = Some f -> oe_in_use e = true -> oe_in_use f = true -> oe_id e = oe_id f -> i = j;
  oo_refs : forall i e, l !! i = Some e -> oe_in_use e = true -> oe_refcount e = 0 \/ oe_refcount e = 1 /\ refs (oe_id e);
  oo_live : forall i e, l !! i = Some e -> oe_in_use e = true -> ml_live w (owner_gate i);
  oo_idle : forall i e, l !! i = Some e -> oe_in_use e = false -> ml_idle w (owner_gate i) }.

(** The gate of a slot belongs to the entry of its sample. *)
Definition gate_owned l (s : prefetcher_slot) : Prop :=
  forall g, pf_gate s = Some g -> exists i e, g = owner_gate i /\ l !! i = Some e /\ oe_in_use e = true /\ oe_id e = pf_seq s /\ oe_refcount e = 1.

(** The gates of entries that are not in use gain no waiters when those in use do. *)
Lemma owners_steps w w' l refs o :
  ml_ok w -> steps o w w' -> (forall g, o = Some g -> exists i e, g = owner_gate i /\ l !! i = Some e /\ oe_in_use e = true) ->
  owners_ok w l refs -> owners_ok w' l refs.
Proof.
  intros Hw Hs Ho [H1 H2 H3 H4]. split; try done.
  - intros i e Hi Hu. by eapply steps_live, H3.
  - intros i e Hi Hu. eapply steps_idle; [done|exact Hs| |by eapply H4]. intros ->. destruct (Ho _ eq_refl) as (j & f & Hj & Hf & Hfu).
    apply owner_gate_inj in Hj as ->. congruence.
Qed.

Lemma gate_owned_live w l refs s g : owners_ok w l refs -> gate_owned l s -> pf_gate s = Some g -> ml_live w g.
Proof. intros HO Hs Hg. destruct (Hs g Hg) as (i & e & -> & Hi & Hu & _). by eapply oo_live. Qed.
Lemma gate_owned_use l s g : gate_owned l s -> pf_gate s = Some g -> exists i e, g = owner_gate i /\ l !! i = Some e /\ oe_in_use e = true.
Proof. intros Hs Hg. destruct (Hs g Hg) as (i & e & -> & Hi & Hu & _). eauto. Qed.

Lemma owners_weaken w l (refs refs' : Z -> Prop) : (forall id, refs id -> refs' id) -> owners_ok w l refs -> owners_ok w l refs'.
Proof. intros Hr [H1 H2 H3 H4]. split; try done. intros i e Hi Hu. destruct (H2 i e Hi Hu) as [|[? ?]]; [by left|right; eauto]. Qed.

(** One entry changes its count, or is freed. *)
Lemma owners_update w l refs (refs' : Z -> Prop) i e e' :
  owners_ok w l refs -> l !! i = Some e -> oe_in_use e = true -> oe_id e' = oe_id e ->
  (oe_in_use e' = true -> oe_refcount e' = 0 \/ oe_refcount e' = 1 /\ refs' (oe_id e)) -> (oe_in_use e' = false -> ml_idle w (owner_gate i)) ->
  (forall id, id <> oe_id e -> refs id -> refs' id) -> owners_ok w (<[i := e']> l) refs'.
Proof.
  intros [H1 H2 H3 H4] Hi Hu Hid Hc Hidle Hrefs. pose proof (lookup_lt_Some _ _ _ Hi) as Hlt.
  assert (Hl : forall j f, <[i := e']> l !! j = Some f -> j = i /\ f = e' \/ j <> i /\ l !! j = Some f).
  { intros j f Hj. destruct (decide (j = i)) as [->|Hne]; [left; rewrite list_lookup_insert_eq in Hj by done; by simplify_eq|].
    right. by rewrite list_lookup_insert_ne in Hj. }
  assert (Hinj : forall j f, l !! j = Some f -> oe_in_use f = true -> oe_id f = oe_id e -> j = i) by (intros j f Hj Hf Hd; by eapply (H1 j i f e)).
  split.
  - intros j k f g Hj Hk Hf Hg Hd. destruct (Hl j f Hj) as [[-> ->]|[Hji Hj']], (Hl k g Hk) as [[-> ->]|[Hki Hk']]; try done.
    + destruct Hki. eapply Hinj; [exact Hk'|done|congruence].
    + destruct Hji. eapply Hinj; [exact Hj'|done|congruence].
    + by eapply (H1 j k f g).
  - intros j f Hj Hf. destruct (Hl j f Hj) as [[-> ->]|[Hji Hj']]; [rewrite Hid; by apply Hc|].
    destruct (H2 j f Hj' Hf) as [|[Hr1 Hr2]]; [by left|right]. split; [done|]. apply Hrefs; [|done]. intros Hd. by destruct Hji; eapply Hinj.
  - intros j f Hj Hf. destruct (Hl j f Hj) as [[-> ->]|[Hji Hj']]; [|by eapply H3]. by eapply H3.
  - intros j f Hj Hf. destruct (Hl j f Hj) as [[-> ->]|[Hji Hj']]; [|by eapply H4]. by apply Hidle.
Qed.

Lemma owner_lookup_Some l id i : owner_lookup_locked l id = Some i -> exists e, l !! i = Some e /\ oe_in_use e = true /\ oe_id e = id.
Proof. intros Hf. apply find_first_Some in Hf as (e & He & [Hu Hd%Z.eqb_eq]%andb_true_iff). eauto. Qed.
Lemma owner_lookup_None l id : owner_lookup_locked l id = None -> forall i e, l !! i = Some e -> oe_in_use e = true -> oe_id e <> id.
Proof.
  unfold owner_lookup_locked. intros Hf i e Hi Hu. pose proof (find_first_spec (fun e => oe_in_use e && (oe_id e =? id)) l 0) as S. rewrite Hf in S.
  specialize (S i e Hi). cbn in S. rewrite Hu in S. by apply Z.eqb_neq in S.
Qed.

(** ** Freeing entries *)

(** Freeing an entry whose count is zero: either nothing, or the entry is no longer in use. *)
Lemma try_free_spec w l i l' e :
  ml_ok w -> l !! i = Some e -> owner_try_free_locked w l i = Some l' ->
  exists e', l' = <[i := e']> l /\ oe_id e' = oe_id e /\ oe_refcount e' = oe_refcount e /\
    (oe_in_use e' = oe_in_use e \/ oe_in_use e' = false /\ oe_refcount e = 0 /\ ml_idle w (owner_gate i)).
Proof.
  intros Hw Hi Hf. unfold owner_try_free_locked in Hf. rewrite Hi in Hf. cbn [mbind option_bind] in Hf.
  assert (Hsame : <[i := e]> l = l) by (by apply list_insert_id).
  destruct (Z.eqb_spec (oe_refcount e) 0) as [H0|]; cbn [negb] in Hf; [|simplify_eq; exists e; rewrite Hsame; eauto].
  destruct (gate_pending w (owner_gate i)) as [n|] eqn:Ep; cbn [mbind option_bind] in Hf; [|done].
  destruct (Z.eqb_spec n 0) as [->|]; cbn [negb] in Hf; simplify_eq; [|exists e; rewrite Hsame; eauto].
  eexists. split; [done|]. split; [done|]. split; [done|]. right. split; [done|]. split; [done|]. by apply ml_pending.
Qed.

Lemma sweep_loop_spec n w l i l' refs :
  ml_ok w -> owners_ok w l refs -> sweep_loop n w l i = Some l' ->
  owners_ok w l' refs /\ forall j e, l !! j = Some e -> oe_refcount e <> 0 -> l' !! j = Some e.
Proof.
  intros Hw. revert l i. induction n as [|n IH]; intros l i HO Hs; cbn [sweep_loop] in Hs; [by simplify_eq|].
  destruct (l !! i) as [e|] eqn:Hi; cbn [mbind option_bind] in Hs; [|done].
  destruct (oe_in_use e && (oe_refcount e =? 0)) eqn:Ec; cbn [mbind option_bind] in Hs; [|by eapply IH].
  apply andb_true_iff in Ec as [Hu H0%Z.eqb_eq]. destruct (owner_try_free_locked w l i) as [l1|] eqn:Ef; cbn [mbind option_bind] in Hs; [|done].
  destruct (try_free_spec _ _ _ _ _ Hw Hi Ef) as (e' & -> & Hid & Hr & Hcase).
  destruct (IH (<[i := e']> l) (S i)) as [HO' Hkeep]; [|done|].
  - eapply (owners_update w l refs refs i e e'); try done; [intros _; left; congruence|].
    intros Hf. destruct Hcase as [Hc|(_ & _ & Hc)]; [congruence|done].
  - split; [done|]. intros j f Hj Hjr. apply Hkeep; [|done]. rewrite list_lookup_insert_ne; [done|]. intros <-. congruence.
Qed.

(** Dropping the reference of sample [id]. *)
Lemma unref_entry_spec w l refs i e l' :
  ml_ok w -> owners_ok w l refs -> l !! i = Some e -> oe_in_use e = true -> owner_unref_entry_locked w l i = Some l' ->
  owners_ok w l' (fun id => refs id /\ id <> oe_id e) /\ forall j f, j <> i -> l !! j = Some f -> l' !! j = Some f.
Proof.
  intros Hw HO Hi Hu Hf. unfold owner_unref_entry_locked in Hf. rewrite Hi in Hf. cbn [mbind option_bind] in Hf.
  set (r := if 0 <? oe_refcount e then _ else _) in Hf. set (e1 := OwnerEntry (oe_id e) r (oe_in_use e)) in Hf.
  assert (r = 0) as Hr.
  { subst r. destruct (oo_refs _ _ _ HO i e Hi Hu) as [->|[-> _]]; done. }
  pose proof (lookup_lt_Some _ _ _ Hi) as Hlt.
  destruct (try_free_spec w (<[i := e1]> l) i l' e1 Hw) as (e' & -> & Hid & Hrc & Hcase); [by apply list_lookup_insert_eq|done|].
  rewrite list_insert_insert_eq. cbn in Hid, Hrc, Hcase. split.
  - eapply (owners_update w l refs _ i e e'); try done.
    + intros _. left. congruence.
    + intros Hff. destruct Hcase as [Hc|(_ & _ & Hc)]; [congruence|done].
  - intros j f Hj Hjf. by rewrite list_lookup_insert_ne.
Qed.

Lemma unref_spec w l refs id l' :
  ml_ok w -> owners_ok w l refs -> owner_unref_locked w l id = Some l' ->
  owners_ok w l' (fun d => refs d /\ d <> id) /\
  forall j f, l !! j = Some f -> oe_in_use f = true -> oe_id f <> id -> l' !! j = Some f.
Proof.
  intros Hw HO Hf. unfold owner_unref_locked in Hf. destruct (owner_lookup_locked l id) as [i|] eqn:El.
  - apply owner_lookup_Some in El as (e & Hi & Hu & <-). destruct (unref_entry_spec _ _ _ _ _ _ Hw HO Hi Hu Hf) as [HO' Hk].
    split; [done|]. intros j f Hj _ Hd. apply Hk; [|done]. intros ->. congruence.
  - simplify_eq. split; [|done]. destruct HO as [H1 H2 H3 H4]. split; try done. intros i e Hi Hu.
    destruct (H2 i e Hi Hu) as [|[? ?]]; [by left|right]. split; [done|]. split; [done|]. by eapply owner_lookup_None.
Qed.

(** ** Taking an entry *)

Lemma get_or_create_spec w l refs id w' l' o :
  ml_ok w -> owners_ok w l refs -> ~ refs id -> owner_get_or_create_locked w l id = Some (w', l', o) ->
  steps None w w' /\
  match o with
  | None => l' = l
  | Some i => owners_ok w' l' (fun d => refs d \/ d = id) /\
      (exists e, l' !! i = Some e /\ oe_in_use e = true /\ oe_id e = id /\ oe_refcount e = 1) /\
      forall j f, l !! j = Some f -> oe_in_use f = true -> oe_id f <> id -> l' !! j = Some f
  end.
Proof.
  intros Hw HO Hid Hf. unfold owner_get_or_create_locked in Hf. destruct (owner_lookup_locked l id) as [i|] eqn:El.
  - apply owner_lookup_Some in El as (e & Hi & Hu & <-). rewrite Hi in Hf. cbn [mbind option_bind] in Hf. simplify_eq.
    assert (oe_refcount e = 0) as H0 by (destruct (oo_refs _ _ _ HO i e Hi Hu) as [|[_ ?]]; done).
    pose proof (lookup_lt_Some _ _ _ Hi) as Hlt. rewrite H0, Hu. change (u32 (0 + 1)) with 1. split; [constructor|]. split; [|split].
    + eapply (owners_update _ l refs _ i e); try done; [intros _; by right; split; [|right]|by left].
    + eexists. split; [by apply list_lookup_insert_eq|done].
    + intros j f Hj Hfu Hd. rewrite list_lookup_insert_ne; [done|]. intros ->. congruence.
  - pose proof (owner_lookup_None _ _ El) as Hnone. destruct (find_first _ l 0) as [i|] eqn:Ef; [|simplify_eq; split; [constructor|done]].
    simplify_eq. apply find_first_Some in Ef as (e & Hi & Hu%negb_true_iff). pose proof (lookup_lt_Some _ _ _ Hi) as Hlt.
    destruct (ml_init w (owner_gate i) Hw (oo_idle _ _ _ HO i e Hi Hu)) as [Hst Hlive].
    split; [by apply steps_none|]. destruct HO as [H1 H2 H3 H4].
    assert (Hl : forall j f, <[i := OwnerEntry id 1 true]> l !! j = Some f -> j = i /\ f = OwnerEntry id 1 true \/ j <> i /\ l !! j = Some f).
    { intros j f Hj. destruct (decide (j = i)) as [->|Hne]; [left; rewrite list_lookup_insert_eq in Hj by done; by simplify_eq|].
      right. by rewrite list_lookup_insert_ne in Hj. }
    split; [split|split].
    + intros j k f g Hj Hk Hfu Hgu Hd. destruct (Hl j f Hj) as [[-> ->]|[Hji Hj']], (Hl k g Hk) as [[-> ->]|[Hki Hk']]; try done.
      * by destruct (Hnone k g Hk' Hgu).
      * by destruct (Hnone j f Hj' Hfu).
      * by eapply (H1 j k f g).
    + intros j f Hj Hfu. destruct (Hl j f Hj) as [[-> ->]|[_ Hj']]; [by right; split; [|right]|].
      destruct (H2 j f Hj' Hfu) as [|[? ?]]; [by left|right; by split; [|left]].
    + intros j f Hj Hfu. destruct (Hl j f Hj) as [[-> ->]|[_ Hj']]; [done|]. by eapply ml_step_live, H3.
    + intros j f Hj Hfu. destruct (Hl j f Hj) as [[-> ->]|[_ Hj']]; [done|]. by eapply ml_step_idle, H4.
    + eexists. split; [by apply list_lookup_insert_eq|done].
    + intros j f Hj Hfu Hd. rewrite list_lookup_insert_ne; [done|]. intros ->. congruence.
Qed.
End owners.
