(* ===== verification/PrefetcherReady.v ===== *)
(** * What a slot of the prefetcher knows

    The stages of a slot of [src/src/prefetch/prefetcher.c] in terms of the caches:
    what each stage has requested and has been answered, and that every advance keeps
    it. *)

From stdpp Require Import strings.
From S2P Require Import Prelude Selection SelectionGrid Plan PlanProof PlanMain ShardIter Hash DispatchTypes Lookahead PrefetchCache Prefetcher PrefetcherOps PrefetcherOrder PrefetcherLaws.

#[local] Open Scope Z_scope.

(** ** Flat coordinate arrays *)

Lemma concat_rows (rows : list (list Z)) rank : Forall (fun c => zlen c = rank) rows -> zlen (concat rows) = zlen rows * rank.
Proof. induction 1 as [|c rows Hc _ IH]; [done|]. cbn. rewrite length_app. lia. Qed.

Lemma concat_row (rows : list (list Z)) rank i c :
  Forall (fun c => zlen c = rank) rows -> rows !! i = Some c -> row_read (concat rows) (Z.of_nat i * rank) rank = Some c.
Proof.
  intros HF Hi. pose proof (Forall_lookup_1 _ _ _ _ HF Hi) as Hc. cbn in Hc. pose proof (concat_rows _ _ HF) as Hl. apply lookup_lt_Some in Hi as Hlt.
  unfold row_read. rewrite Hl. rewrite (proj2 (Z.leb_le 0 _)), (proj2 (Z.leb_le _ (zlen rows * rank))) by nia. cbn [andb]. f_equal.
  clear Hl Hlt. revert i Hi. induction HF as [|r rows Hr _ IH]; intros [|i] Hi; cbn in Hi; simplify_eq; cbn [concat].
  - change (Z.of_nat 0) with 0. rewrite Z.mul_0_l, drop_0, take_app_le by lia. apply take_ge. lia.
  - rewrite drop_app_ge by nia. rewrite <-(IH i Hi). f_equal. f_equal. nia.
Qed.

Lemma drop_repeat {A} (x : A) k n : drop k (repeat x n) = repeat x (n - k).
Proof. revert k. induction n as [|n IH]; intros [|k]; cbn; [done..|]. apply IH. Qed.

Lemma row_write_next (done row rest : list Z) :
  zlen row <= zlen rest -> row_write (done ++ rest) (zlen done) row = Some (done ++ row ++ drop (length row) rest).
Proof.
  intros Hl. unfold row_write. rewrite length_app. rewrite (proj2 (Z.leb_le 0 _)), (proj2 (Z.leb_le _ _)) by lia. cbn [andb].
  rewrite Nat2Z.id, take_app_length. replace (Z.to_nat (zlen done + zlen row)) with (length done + length row)%nat by lia.
  by rewrite drop_app_add.
Qed.

Lemma fill_coords_spec rows fuel g done i rank :
  grid_drain fuel g = Some rows -> Forall (fun c => zlen c = rank) rows -> 0 <= rank -> zlen done = i * rank ->
  fill_coords (length rows) g (done ++ repeat 0 (Z.to_nat (zlen rows * rank))) i rank = Some (done ++ concat rows).
Proof.
  intros Hd HF. revert fuel g done i Hd. induction HF as [|c rows Hc HF IH]; intros fuel g done i Hd Hr Hl; cbn [length fill_coords].
  { rewrite Z.mul_0_l. done. }
  destruct fuel as [|fuel]; cbn [grid_drain] in Hd; [done|].
  destruct (selection_grid_next g) as [[[c'|] g']|]; cbn [mbind option_bind] in *; [|done|done].
  destruct (grid_drain fuel g') as [cs|] eqn:Ed; cbn [mbind option_bind] in Hd; [|done]. simplify_eq.
  rewrite <-Hl, row_write_next by (rewrite repeat_length; nia). cbn [mbind option_bind].
  rewrite drop_repeat.
  match goal with |- context [repeat 0 ?n] => replace n with (Z.to_nat (zlen rows * zlen c)) by nia end.
  rewrite (assoc_L (++)), (IH fuel g' (done ++ c) (i + 1)); [by rewrite <-(assoc_L (++))|done|lia|rewrite length_app; lia].
Qed.

Definition shard_settled {V} (a : prefetch_state * option V * Z) : Prop :=
  match fst (fst a) with
  | PREFETCH_STATE_READY => True
  | PREFETCH_STATE_ERROR => snd a = status_code DAMACY_NOTFOUND
  | PREFETCH_STATE_PENDING => False
  end.

(** The shards of a sample, in row-major order. *)
Definition shards_of (aabb : damacy_aabb) (axes : list query_axis) (meta : zarr_metadata) (coords : list (list Z)) : Prop :=
  m_rank meta = aabb_rank aabb /\ (exists it, sample_shard_iterator_init meta aabb = Some (Some it)) /\
  StronglySorted lex_lt coords /\ forall c, c ∈ coords <-> coord_selected aabb axes (shard_shape meta) None None c.

(** Bounds and axes as [query_copy] leaves them for a valid request. *)
Definition axes_good (aabb : damacy_aabb) (axes : list query_axis) : Prop :=
  0 < aabb_rank aabb <= DAMACY_MAX_RANK /\
  forall d, 0 <= d < aabb_rank aabb -> exists b q, aget (dims aabb) d = Some b /\ aget axes d = Some q /\ axis_ok b q /\ 0 <= count q < 2 ^ 32.

Definition index_wf (v : shard_index_value) : Prop := n_entries v = zlen (si_entries v).

Lemma iterator_rank meta aabb it : sample_shard_iterator_init meta aabb = Some (Some it) -> m_rank meta = aabb_rank aabb.
Proof.
  unfold sample_shard_iterator_init. destruct (Z.eqb_spec (aabb_rank aabb) (m_rank meta)); [done|]. by cbn.
Qed.

Lemma listed_shards aabb axes meta it g :
  axes_good aabb axes -> meta_wf meta -> sample_shard_iterator_init meta aabb = Some (Some it) ->
  selection_grid_init aabb axes (shard_shape meta) None None UINT64_MAX = Some (DAMACY_OK, g) ->
  exists coords, shards_of aabb axes meta coords /\ zlen coords = g_count g /\ Forall (fun c => zlen c = m_rank meta) coords /\
    exists fuel, grid_drain fuel g = Some coords.
Proof.
  intros [Hrank Hax] [_ (_ & _ & Hlen) (_ & _ & Hu)] Hit Hg. pose proof (iterator_rank _ _ _ Hit) as Hr.
  assert (grid_pre aabb axes (shard_shape meta)) as Hp.
  { split; [done|]. intros d Hd. destruct (Hax d Hd) as (b & q & Hb & Hq & Hok & _).
    destruct (aget_is_Some (shard_shape meta) d ltac:(lia)) as [x Hx]. exists b, q, x. split_and!; try done; by apply (Forall_aget _ _ _ _ Hu Hx). }
  destruct (grid_init_total _ _ _ UINT64_MAX Hp) as (st & g' & Hg' & Hok). assert (st = DAMACY_OK /\ g' = g) as [-> ->] by (rewrite Hg in Hg'; by simplify_eq).
  destruct (selection_grid_spec aabb axes (shard_shape meta) None None UINT64_MAX (Hok eq_refl)) as (st & g2 & Hg2 & Hspec); [clia|].
  rewrite Hg in Hg2. simplify_eq. destruct Hspec as (coords & Hd & Hl & _ & Hs & Hin). exists coords. split; [|split; [done|split; [|by eexists]]].
  - by split_and!; [|eexists| |].
  - apply Forall_forall. intros c Hc. apply Hin in Hc as [Hc _]. congruence.
Qed.

Section ready.
Context {W : Type} `{MetaLaws W} `{!CacheLaws array_meta_cache meta_wf} `{!CacheLaws shard_index_cache index_wf} `{!LayoutLaws W}.
Context (max_shards : Z).
Implicit Types (w : W) (s : prefetcher_slot).

Definition handles s : list prefetch_handle := default [] (pf_h_shards s).

(** The metadata of the sample was answered. *)
Definition knows w s (uri : string) (meta : zarr_metadata) : Prop :=
  pf_uri s = Some uri /\ meta_wf meta /\
  exists e, answered array_meta_cache w uri (pf_seq s) (pf_h_meta s) (PREFETCH_STATE_READY, Some meta, e).

(** Its shards are listed, and the first [n] have been requested. *)
Record listed w s (uri : string) (meta : zarr_metadata) (coords : list (list Z)) (n : nat) : Prop := {
  l_shards : shards_of (pf_aabb s) (pf_axes s) meta coords;
  l_max : zlen coords <= max_shards;
  l_n : pf_n_shards s = zlen coords;
  l_len : length (handles s) = length coords;
  l_coords : coords = [] \/ pf_coords s = Some (concat coords);
  l_rows : Forall (fun c => zlen c = m_rank meta) coords;
  l_held : forall i c h, (i < n)%nat -> coords !! i = Some c -> handles s !! i = Some h ->
    cl_holds shard_index_cache w (ShardKey uri c (m_rank meta)) (pf_seq s) h }.

(** Every shard was answered: its index, or that there is no such shard. *)
Definition settled w s (uri : string) (meta : zarr_metadata) (coords : list (list Z)) : Prop :=
  forall i c h, coords !! i = Some c -> handles s !! i = Some h ->
    exists a, answered shard_index_cache w (ShardKey uri c (m_rank meta)) (pf_seq s) h a /\ shard_settled a.

Definition layout_key s (uri : string) : chunk_layout_key :=
  LayoutKey uri (aabb_rank (pf_aabb s)) (pf_n_shards s) (default [] (pf_coords s)) (handles s).
Definition layout_held w s (uri : string) : Prop :=
  forall cl (E : chunk_layout_cache = Some cl), let _ := layout_laws cl E in cl_holds cl w (layout_key s uri) (pf_seq s) (pf_h_layout s).
Definition layout_ready w s (uri : string) : Prop :=
  forall cl (E : chunk_layout_cache = Some cl), let _ := layout_laws cl E in
    exists v e, answered cl w (layout_key s uri) (pf_seq s) (pf_h_layout s) (PREFETCH_STATE_READY, v, e).

(** What a slot has in each state. *)
Definition stage w s : Prop :=
  match pf_state s with
  | Some state_pending_meta =>
      exists uri, pf_uri s = Some uri /\
        match pf_h_shards s with
        | None => cl_holds array_meta_cache w uri (pf_seq s) (pf_h_meta s) /\ pf_n_requested s = 0
        | Some _ => exists meta coords, knows w s uri meta /\ listed w s uri meta coords (Z.to_nat (pf_n_requested s)) /\
            coords <> [] /\ 0 <= pf_n_requested s <= zlen coords
        end
  | Some state_pending_shards => exists uri meta coords, knows w s uri meta /\ listed w s uri meta coords (length coords)
  | Some state_pending_layout =>
      exists uri meta coords, knows w s uri meta /\ listed w s uri meta coords (length coords) /\ settled w s uri meta coords /\
        layout_held w s uri
  | Some state_ready =>
      exists uri meta coords, knows w s uri meta /\ listed w s uri meta coords (length coords) /\ settled w s uri meta coords /\
        layout_ready w s uri
  | _ => True
  end.

(** ** Time passes *)

Section time.
Context (g : option ptr) (w w' : W) (Hw : ml_ok w) (Hs : steps g w w').

Lemma knows_steps s uri meta : ml_watermark w' <= pf_seq s -> knows w s uri meta -> knows w' s uri meta.
Proof.
  intros Hm (Hu & Hg & e & Ha). split; [done|]. split; [done|]. exists e. by eapply steps_answered; [exact Hw|exact Hs| | |].
Qed.
Lemma listed_steps s uri meta coords n : ml_watermark w' <= pf_seq s -> listed w s uri meta coords n -> listed w' s uri meta coords n.
Proof. intros Hm [H1 H2 H3 H4 H5 H6 H7]. split; try done. intros i c h Hi Hc Hh. eapply steps_holds; [exact Hw|exact Hs|done|by eapply H7]. Qed.
Lemma settled_steps s uri meta coords : ml_watermark w' <= pf_seq s -> settled w s uri meta coords -> settled w' s uri meta coords.
Proof.
  intros Hm Hse i c h Hc Hh. destruct (Hse i c h Hc Hh) as (a & Ha & Hsa). exists a. split; [|done].
  eapply steps_answered; [exact Hw|exact Hs|done| |done]. unfold shard_settled in Hsa. by destruct (fst (fst a)).
Qed.
Lemma layout_held_steps s uri : ml_watermark w' <= pf_seq s -> layout_held w s uri -> layout_held w' s uri.
Proof. intros Hm Hl cl E. eapply steps_holds; [exact Hw|exact Hs|done|apply (Hl cl E)]. Qed.
Lemma layout_ready_steps s uri : ml_watermark w' <= pf_seq s -> layout_ready w s uri -> layout_ready w' s uri.
Proof. intros Hm Hl cl E L. destruct (Hl cl E) as (v & e & Ha). exists v, e. by eapply steps_answered; [exact Hw|exact Hs|done| |]. Qed.

Lemma stage_steps s : ml_watermark w' <= pf_seq s -> stage w s -> stage w' s.
Proof.
  intros Hm. unfold stage. destruct (pf_state s) as [[]|]; try done.
  - intros (uri & Hu & Hst). exists uri. split; [done|]. destruct (pf_h_shards s).
    + destruct Hst as (meta & coords & H1 & H2 & H3). exists meta, coords. split; [by apply knows_steps|]. split; [by apply listed_steps|done].
    + destruct Hst as [H1 H2]. split; [|done]. by eapply steps_holds; [exact Hw|exact Hs| |].
  - intros (uri & meta & coords & H1 & H2). exists uri, meta, coords. split; [by apply knows_steps|by apply listed_steps].
  - intros (uri & meta & coords & H1 & H2 & H3 & H4). exists uri, meta, coords.
    split_and!; [by apply knows_steps|by apply listed_steps|by apply settled_steps|by apply layout_held_steps].
  - intros (uri & meta & coords & H1 & H2 & H3 & H4). exists uri, meta, coords.
    split_and!; [by apply knows_steps|by apply listed_steps|by apply settled_steps|by apply layout_ready_steps].
Qed.
End time.

(** ** One slot *)

Lemma slot_fail_steps w c s err r :
  ml_ok w -> slot_fail w c s err = Some r -> steps (pf_gate s) w (sw_world r) /\ stage (sw_world r) (sw_slot r).
Proof.
  intros Hw Hf. unfold slot_fail in Hf. destruct (pf_gate s) as [g|]; cbn [mbind option_bind] in Hf; [|simplify_eq; split; [constructor|done]].
  destruct (gate_set_error w g) as [w1|] eqn:E; cbn [mbind option_bind] in Hf; [|done]. simplify_eq. split; [|done].
  apply steps_none. by eapply ml_error.
Qed.

Lemma enter_layout_steps w c s r :
  ml_ok w -> (forall g, pf_gate s = Some g -> ml_live w g) -> enter_layout w c s = Some r ->
  steps (pf_gate s) w (sw_world r) /\
  (ml_watermark (sw_world r) <= pf_seq s -> stage w s ->
   (exists uri meta coords, knows w s uri meta /\ listed w s uri meta coords (length coords) /\ settled w s uri meta coords) ->
   stage (sw_world r) (sw_slot r)).
Proof.
  intros Hw Hlive He. unfold enter_layout in He. destruct chunk_layout_cache as [cl|] eqn:Ecl.
  2:{ unfold slot_mark_ready in He. simplify_eq. split; [constructor|]. intros _ _ (uri & meta & coords & H1 & H2 & H3).
      exists uri, meta, coords. split_and!; [exact H1|by destruct H2|exact H3|]. intros cl' E'. congruence. }
  unfold request_chunk_layout in He. destruct (pf_uri s) as [uri|] eqn:Eu; cbn [mbind option_bind] in He; [|done].
  destruct (co_request cl _ _ _ _ _) as [[w1 req]|] eqn:Er; cbn [mbind option_bind] in He; [|done].
  pose proof (layout_laws cl Ecl) as L. destruct (cl_request (CacheLaws := L) w _ _ _ _ w1 req Hw Hlive Er) as [Hst _].
  apply steps_one in Hst as Hs. destruct (steps_ok _ _ _ Hw Hs) as [Hw1 _]. destruct (decide _).
  { simplify_eq. split; [done|]. intros Hm Hsg _. by apply (stage_steps _ _ _ Hw Hs). }
  destruct (decide _) as [Hok|].
  2:{ apply slot_fail_steps in He as [Hs2 Hg]; [|done]. split; [by eapply steps_trans|done]. }
  simplify_eq. cbn [sw_world sw_slot]. split; [done|]. intros Hm _ (uri' & meta & coords & H1 & H2 & H3).
  assert (uri' = uri) as -> by (destruct H1; congruence).
  apply (knows_steps _ _ _ Hw Hs) in H1; [|done]. apply (listed_steps _ _ _ Hw Hs) in H2; [|done]. apply (settled_steps _ _ _ Hw Hs) in H3; [|done].
  exists uri, meta, coords. split_and!; [exact H1|by destruct H2|exact H3|]. intros cl' E'. assert (cl' = cl) as -> by congruence.
  cbn. by apply (cl_request (CacheLaws := layout_laws cl E') w _ _ _ _ w1 req Hw Hlive Er).
Qed.

(** Requesting a shard adds its handle. *)
Lemma listed_set w s uri meta coords i c h hs :
  listed w s uri meta coords i -> coords !! i = Some c -> pf_h_shards s = Some hs ->
  cl_holds shard_index_cache w (ShardKey uri c (m_rank meta)) (pf_seq s) h ->
  listed w (slot_set_shards s (Some (<[i := h]> hs)) (pf_coords s) (pf_n_shards s) (Z.of_nat (S i))) uri meta coords (S i).
Proof.
  intros [H1 H2 H3 H4 H5 H6 H7] Hc Hhs Hh. split; try done; unfold handles in *; rewrite Hhs in *; cbn in *; [by rewrite length_insert|].
  intros j d h' Hj Hd Hh'. destruct (decide (j = i)) as [->|Hne].
  - apply list_lookup_insert_Some in Hh' as [(_ & <- & _)|[? _]]; [|done]. by assert (d = c) as -> by congruence.
  - rewrite list_lookup_insert_ne in Hh' by done. eapply H7; try done. lia.
Qed.

Lemma request_loop_steps n w s rank w' s' rs :
  ml_ok w -> (forall g, pf_gate s = Some g -> ml_live w g) -> request_loop n w s rank = Some (w', s', rs) ->
  steps (pf_gate s) w w' /\
  forall uri meta coords, ml_watermark w' <= pf_seq s -> rank = m_rank meta -> knows w s uri meta ->
    listed w s uri meta coords (Z.to_nat (pf_n_requested s)) -> coords <> [] -> zlen coords < 2 ^ 32 -> 0 <= pf_n_requested s ->
    pf_n_requested s + Z.of_nat n = zlen coords -> is_Some (pf_h_shards s) ->
    (exists hs k, s' = slot_set_shards s (Some hs) (pf_coords s) (pf_n_shards s) k) /\ knows w' s' uri meta /\
    (rs = DAMACY_OK -> listed w' s' uri meta coords (length coords)) /\
    (rs = DAMACY_AGAIN -> listed w' s' uri meta coords (Z.to_nat (pf_n_requested s')) /\ 0 <= pf_n_requested s' <= zlen coords).
Proof.
  revert w s. induction n as [|n IH]; intros w s Hw Hlive Hr; cbn [request_loop] in Hr.
  { simplify_eq. split; [constructor|]. intros uri meta coords Hm _ Hk Hl _ _ H0 Hn [hs Hhs]. split; [exists hs, (pf_n_requested s'); rewrite <-Hhs; by destruct s'|].
    split; [done|]. split; [|done]. intros _. by replace (length coords) with (Z.to_nat (pf_n_requested s')) by lia. }
  destruct (pf_uri s) as [uri|] eqn:Eu; cbn [mbind option_bind] in Hr; [|done].
  destruct (pf_coords s) as [cs|] eqn:Ec; cbn [mbind option_bind] in Hr; [|done].
  destruct (row_read cs _ rank) as [row|] eqn:Ew; cbn [mbind option_bind] in Hr; [|done].
  destruct (co_request _ _ _ _ _ _) as [[w1 req]|] eqn:Er; cbn [mbind option_bind] in Hr; [|done].
  destruct (cl_request w _ _ _ _ w1 req Hw Hlive Er) as [Hst Hheld]. apply steps_one in Hst as Hs. destruct (steps_ok _ _ _ Hw Hs) as [Hw1 Hmono].
  assert (Hlive1 : forall g, pf_gate s = Some g -> ml_live w1 g) by (intros g Hg; exact (steps_live _ _ _ _ Hw Hs (Hlive g Hg))).
  destruct (decide _) as [|Hna].
  { simplify_eq. split; [done|]. intros uri' meta coords Hm -> Hk Hl _ _ H0 Hn [hs Hhs].
    split; [exists hs, (pf_n_requested s'); rewrite <-Hhs, <-Ec; by destruct s'|].
    split; [by apply (knows_steps _ _ _ Hw Hs)|]. split; [done|]. intros _. split; [by apply (listed_steps _ _ _ Hw Hs)|lia]. }
  destruct (pf_h_shards s) as [hs|] eqn:Eh; cbn [mbind option_bind] in Hr; [|done].
  destruct (aset hs _ _) as [hs1|] eqn:Ea; cbn [mbind option_bind] in Hr; [|done]. apply aset_Some in Ea as [Hrange ->].
  destruct (decide _) as [Hok|Hnok].
  - apply IH in Hr as [Hs2 Hrest]; [|done|done]. cbn [pf_gate slot_set_shards] in *. split; [by eapply steps_trans|].
    intros uri' meta coords Hm -> Hk Hl Hne Hsm H0 Hn _. assert (uri' = uri) as -> by (destruct Hk; congruence).
    destruct (steps_ok _ _ _ Hw1 Hs2) as [_ Hmono2]. set (i := Z.to_nat (pf_n_requested s)) in *.
    assert (pf_n_requested s = Z.of_nat i) as Hi by lia.
    assert (exists c, coords !! i = Some c) as [c Hc] by (apply lookup_lt_is_Some; lia).
    assert (row = c) as ->.
    { destruct (l_coords _ _ _ _ _ _ Hl) as [|Hcs]; [done|]. rewrite Ec in Hcs. simplify_eq.
      pose proof (concat_row _ _ _ _ (l_rows _ _ _ _ _ _ Hl) Hc) as Hrow. rewrite <-Hi in Hrow. congruence. }
    assert (Hl1 : listed w1 s uri meta coords i) by (eapply listed_steps; [exact Hw|exact Hs|lia|done]).
    pose proof (listed_set w1 s uri meta coords i c (r_handle req) hs Hl1 Hc Eh (Hheld Hok)) as Hl2. rewrite Ec in Hl2.
    assert (u32 (pf_n_requested s + 1) = Z.of_nat (S i)) as Hu by (rewrite u32_id by clia; lia). rewrite Hu in *.
    destruct (Hrest uri meta coords) as ((hs2 & k & ->) & Hk2 & Hl3 & Hl4); cbn [pf_n_requested pf_seq slot_set_shards]; try done; try lia.
    + apply (knows_steps _ _ _ Hw Hs) in Hk; [exact Hk|lia].
    + by rewrite Nat2Z.id.
    + split; [by eexists _, _|]. by split_and!.
  - simplify_eq. split; [done|]. intros uri' meta coords Hm -> Hk Hl _ _ H0 Hn _. split; [by eexists _, _|].
    split; [apply (knows_steps _ _ _ Hw Hs) in Hk; [exact Hk|lia]|]. split; congruence.
Qed.
End ready.

Section stages.
Context {W : Type} `{MetaLaws W} `{!CacheLaws array_meta_cache meta_wf} `{!CacheLaws shard_index_cache index_wf} `{!LayoutLaws W}.
Context (max_shards : Z).
Implicit Types (w : W) (s : prefetcher_slot).
Notation stage := (stage max_shards).
Notation listed := (listed max_shards).

(** A transition of [s] from world [w]. *)
Definition good_step w s (r : slot_world W) : Prop :=
  steps (pf_gate s) w (sw_world r) /\
  (axes_good (pf_aabb s) (pf_axes s) -> ml_watermark (sw_world r) <= pf_seq s -> stage w s -> stage (sw_world r) (sw_slot r)).

Lemma fail_step w w1 c s s1 err r :
  ml_ok w1 -> steps (pf_gate s) w w1 -> pf_gate s1 = pf_gate s -> slot_fail w1 c s1 err = Some r -> good_step w s r.
Proof. intros Hw Hs Hg Hf. apply (slot_fail_steps max_shards) in Hf as [Hs2 Hst]; [|done]. rewrite Hg in Hs2. split; [by eapply steps_trans|done]. Qed.

(** ** Shards *)

Lemma enter_shards_step w c s rank r :
  ml_ok w -> (forall g, pf_gate s = Some g -> ml_live w g) -> enter_shards w c s rank = Some r ->
  steps (pf_gate s) w (sw_world r) /\
  forall uri meta coords, ml_watermark (sw_world r) <= pf_seq s -> pf_state s = Some state_pending_meta -> rank = m_rank meta ->
    knows w s uri meta -> listed w s uri meta coords (Z.to_nat (pf_n_requested s)) -> coords <> [] -> zlen coords < 2 ^ 32 ->
    0 <= pf_n_requested s <= zlen coords -> is_Some (pf_h_shards s) -> stage (sw_world r) (sw_slot r).
Proof.
  intros Hw Hlive He. unfold enter_shards, request_remaining_shards in He.
  destruct (request_loop _ w s rank) as [[[w1 s1] rs]|] eqn:Er; cbn [mbind option_bind] in He; [|done].
  destruct (request_loop_steps max_shards _ _ _ _ _ _ _ Hw Hlive Er) as [Hs Hl]. destruct (steps_ok _ _ _ Hw Hs) as [Hw1 _].
  assert (Hseq : pf_gate s1 = pf_gate s).
  { apply request_loop_same in Er as (_ & _ & _ & _ & _ & Hg). exact Hg. }
  destruct (decide (rs = DAMACY_AGAIN)) as [->|]; [|destruct (decide (rs = DAMACY_OK)) as [->|]].
  - simplify_eq. split; [done|]. intros uri meta coords Hm Hst -> Hk Hlst Hne Hsm Hrg [hs Hhs]. cbn [sw_world sw_slot] in *.
    destruct (Hl uri meta coords) as ((hs2 & k & ->) & Hk2 & _ & Hag); try done; try lia; [rewrite (l_n _ _ _ _ _ _ _ Hlst); lia|].
    destruct (Hag eq_refl) as [Hl2 Hr2]. unfold PrefetcherReady.stage. cbn [pf_state slot_set_shards]. rewrite Hst. exists uri.
    split; [apply Hk|]. cbn [pf_h_shards slot_set_shards]. exists meta, coords. done.
  - simplify_eq. split; [done|]. intros uri meta coords Hm Hst -> Hk Hlst Hne Hsm Hrg [hs Hhs]. cbn [sw_world sw_slot] in *.
    destruct (Hl uri meta coords) as ((hs2 & k & ->) & Hk2 & Hok & _); try done; try lia; [rewrite (l_n _ _ _ _ _ _ _ Hlst); lia|].
    exists uri, meta, coords. split; [exact Hk2|]. specialize (Hok eq_refl). by destruct Hok.
  - apply (slot_fail_steps max_shards) in He as [Hs2 Hst]; [|done]. rewrite Hseq in Hs2. split; [by eapply steps_trans|done].
Qed.

Lemma poll_shards_step n w hs i w' res :
  ml_ok w -> poll_shards n w hs i = Some (w', res) -> 0 <= i ->
  steps None w w' /\
  (res = PollDone -> forall j h k o, (Z.to_nat i <= j < Z.to_nat i + n)%nat -> hs !! j = Some h -> cl_holds shard_index_cache w k o h ->
     ml_watermark w' <= o -> exists a, answered shard_index_cache w' k o h a /\ shard_settled a).
Proof.
  revert w i. induction n as [|n IH]; intros w i Hw Hp Hi; cbn [poll_shards] in Hp.
  { simplify_eq. split; [constructor|]. intros _ j h k o Hj. lia. }
  destruct (aget hs i) as [h|] eqn:Eh; cbn [mbind option_bind] in Hp; [|done]. apply aget_lookup in Eh as [_ Eh].
  destruct (co_query _ w h) as [[w1 [[st v] err]]|] eqn:Eq; cbn [mbind option_bind] in Hp; [|done].
  destruct (cl_query _ _ _ _ Hw Eq) as [Hst Hv]. apply (steps_none None) in Hst as Hs. destruct (steps_ok _ _ _ Hw Hs) as [Hw1 _].
  assert (Hnext : shard_settled (st, v, err) -> poll_shards n w1 hs (i + 1) = Some (w', res) -> steps None w w' /\
    (res = PollDone -> forall j h k o, (Z.to_nat i <= j < Z.to_nat i + S n)%nat -> hs !! j = Some h -> cl_holds shard_index_cache w k o h ->
     ml_watermark w' <= o -> exists a, answered shard_index_cache w' k o h a /\ shard_settled a)).
  { intros Hse Hrest. destruct (IH w1 (i + 1) Hw1 Hrest ltac:(lia)) as [Hs2 Hall]. split; [by eapply steps_trans|].
    intros Hd j h' k o Hj Hh' Hk Hm. destruct (steps_ok _ _ _ Hw1 Hs2) as [_ Hmono].
    assert (cl_holds shard_index_cache w1 k o h') as Hk1 by (apply (steps_holds shard_index_cache _ _ _ _ _ _ Hw Hs); [lia|done]).
    destruct (decide (j = Z.to_nat i)) as [->|Hne]; [|by apply (Hall Hd j); [lia|..]].
    assert (h' = h) as -> by congruence. exists (st, v, err). split; [|done].
    apply (steps_answered shard_index_cache _ _ _ _ _ _ _ Hw1 Hs2); [done| |done]. unfold shard_settled in Hse. by destruct st. }
  destruct st; [by simplify_eq|by apply Hnext|]. destruct (Z.eqb_spec err (status_code DAMACY_NOTFOUND)) as [->|]; [by apply Hnext|by simplify_eq].
Qed.

Lemma shard_step w c s r :
  ml_ok w -> (forall g, pf_gate s = Some g -> ml_live w g) -> pf_state s = Some state_pending_shards ->
  advance_from_shard w c s = Some r -> good_step w s r.
Proof.
  intros Hw Hlive Hst Ha. unfold advance_from_shard in Ha.
  destruct (poll_shards _ w _ 0) as [[w1 res]|] eqn:Ep; cbn [mbind option_bind] in Ha; [|done].
  destruct (poll_shards_step _ _ _ _ _ _ Hw Ep ltac:(lia)) as [Hs Hd]. apply (steps_weaken (pf_gate s)) in Hs as Hsg.
  destruct (steps_ok _ _ _ Hw Hs) as [Hw1 _]. destruct res as [|err|].
  - simplify_eq. split; [done|]. intros _ Hm Hsg2. by apply (stage_steps max_shards _ _ _ Hw Hs).
  - by eapply fail_step.
  - assert (Hlive1 : forall g, pf_gate s = Some g -> ml_live w1 g) by (intros g Hg; exact (steps_live _ _ _ _ Hw Hs (Hlive g Hg))).
    destruct (enter_layout_steps max_shards _ _ _ _ Hw1 Hlive1 Ha) as [Hs2 Hstg]. split; [by eapply steps_trans|].
    intros _ Hm Hsw. destruct (steps_ok _ _ _ Hw1 Hs2) as [_ Hmono]. unfold PrefetcherReady.stage in Hsw. rewrite Hst in Hsw.
    destruct Hsw as (uri & meta & coords & Hk & Hl).
    apply (knows_steps _ _ _ Hw Hs) in Hk as Hk1; [|lia]. apply (listed_steps max_shards _ _ _ Hw Hs) in Hl as Hl1; [|lia].
    apply Hstg; [done| |].
    + unfold PrefetcherReady.stage. rewrite Hst. eauto.
    + exists uri, meta, coords. split_and!; [done|done|]. intros i cc h Hi Hh. apply (Hd eq_refl i); [|done| |lia].
      * apply lookup_lt_Some in Hi. rewrite (l_n _ _ _ _ _ _ _ Hl). lia.
      * eapply (l_held _ _ _ _ _ _ _ Hl); try done. by eapply lookup_lt_Some.
Qed.

Lemma layout_step w c s r :
  ml_ok w -> pf_state s = Some state_pending_layout -> advance_from_layout w c s = Some r -> good_step w s r.
Proof.
  intros Hw Hst Ha. unfold advance_from_layout in Ha. destruct chunk_layout_cache as [cl|] eqn:Ecl; cbn [mbind option_bind] in Ha; [|done].
  destruct (co_query cl w _) as [[w1 [[st v] err]]|] eqn:Eq; cbn [mbind option_bind] in Ha; [|done].
  destruct (cl_query (CacheLaws := layout_laws cl Ecl) _ _ _ _ Hw Eq) as [Hs1 Hv]. apply (steps_none (pf_gate s)) in Hs1 as Hs.
  destruct (steps_ok _ _ _ Hw Hs) as [Hw1 _]. destruct st.
  - simplify_eq. split; [done|]. intros _ Hm. by apply (stage_steps max_shards _ _ _ Hw Hs).
  - unfold slot_mark_ready in Ha. simplify_eq. split; [done|]. intros _ Hm Hsw. cbn [sw_world sw_slot] in *.
    unfold PrefetcherReady.stage in Hsw. rewrite Hst in Hsw. destruct Hsw as (uri & meta & coords & Hk & Hl & Hse & Hly).
    apply (knows_steps _ _ _ Hw Hs) in Hk; [|done]. apply (listed_steps max_shards _ _ _ Hw Hs) in Hl; [|done].
    apply (settled_steps _ _ _ Hw Hs) in Hse; [|done]. apply (layout_held_steps _ _ _ Hw Hs) in Hly; [|done].
    exists uri, meta, coords. split_and!; [exact Hk|by destruct Hl|exact Hse|]. intros cl' E'. assert (cl' = cl) as -> by congruence.
    exists v, err. split; [apply (Hly cl E')|]. by apply (cl_query (CacheLaws := layout_laws cl E') _ _ _ _ Hw Eq).
  - by eapply fail_step.
Qed.

(** ** Metadata *)

Context (Hmax : max_shards < 2 ^ 32).

(** The metadata is there: the shards are listed and requested. *)
Lemma meta_ready_step mem w c s meta err r :
  ml_ok w -> (forall g, pf_gate s = Some g -> ml_live w g) -> pf_state s = Some state_pending_meta -> pf_h_shards s = None ->
  cl_view array_meta_cache w (pf_h_meta s) = (PREFETCH_STATE_READY, Some meta, err) ->
  (it ← sample_shard_iterator_init meta (pf_aabb s);
   match it with
   | None => slot_fail w c s (status_code DAMACY_INVAL)
   | Some _ =>
       g ← selection_grid_init (pf_aabb s) (pf_axes s) (shard_shape meta) None None UINT64_MAX;
       let '(gst, g) := (g : damacy_status * selection_grid) in
       let n := g_count g in
       if negb (bool_decide (gst = DAMACY_OK)) then slot_fail w c s (status_code DAMACY_INVAL)
       else if max_shards <? n then slot_fail w c s (status_code DAMACY_INVAL)
       else if n =? 0 then enter_layout w c (slot_set_shards s None (pf_coords s) 0 (pf_n_requested s))
       else if negb (fst mem) then slot_fail w c s (status_code DAMACY_OOM)
       else
         let hs := Some (repeat PREFETCH_HANDLE_NONE (Z.to_nat n)) in
         if negb (snd mem) then
           slot_fail w c (slot_set_shards s hs None (pf_n_shards s) (pf_n_requested s)) (status_code DAMACY_OOM)
         else
           coords ← fill_coords (Z.to_nat n) g (repeat 0 (Z.to_nat (n * m_rank meta))) 0 (m_rank meta);
           enter_shards w c (slot_set_shards s hs (Some coords) (u32 n) (pf_n_requested s)) (m_rank meta)
   end) = Some r -> good_step w s r.
Proof.
  intros Hw Hlive Hst Hh Hv Ha. assert (Hs : steps (pf_gate s) w w) by constructor.
  destruct (sample_shard_iterator_init meta (pf_aabb s)) as [[it|]|] eqn:Ei; cbn [mbind option_bind] in Ha; [|by eapply fail_step|done].
  destruct (selection_grid_init _ _ _ _ _ _) as [[gst g]|] eqn:Eg; cbn [mbind option_bind] in Ha; [|done].
  destruct (bool_decide_reflect (gst = DAMACY_OK)) as [->|]; cbn [negb] in Ha; [|by eapply fail_step].
  destruct (Z.ltb_spec max_shards (g_count g)) as [|Hle]; [by eapply fail_step|].
  assert (Hlist : axes_good (pf_aabb s) (pf_axes s) -> stage w s -> exists uri coords, knows w s uri meta /\ pf_n_requested s = 0 /\
    cl_holds array_meta_cache w uri (pf_seq s) (pf_h_meta s) /\
    shards_of (pf_aabb s) (pf_axes s) meta coords /\ zlen coords = g_count g /\ Forall (fun c => zlen c = m_rank meta) coords /\
    0 <= m_rank meta /\ exists fuel, grid_drain fuel g = Some coords).
  { intros Hax Hsg. unfold PrefetcherReady.stage in Hsg. rewrite Hst, Hh in Hsg. destruct Hsg as (uri & Hu & Hk & H0).
    assert (meta_wf meta) as Hwf by (eapply (cl_good w (pf_h_meta s)); [done|by rewrite Hv]).
    destruct (listed_shards _ _ _ _ _ Hax Hwf Ei Eg) as (coords & H1 & H2 & H3 & H4). exists uri, coords. split_and!; try done.
    - split; [done|]. split; [done|]. by exists err.
    - apply Hwf. }
  destruct (Z.eqb_spec (g_count g) 0) as [Hz|Hz].
  - apply (enter_layout_steps max_shards) in Ha as [Hs2 Hstg]; [|done|done]. split; [done|]. intros Hax Hm Hsg.
    destruct (Hlist Hax Hsg) as (uri & coords & Hk & H0 & Hkh & H1 & H2 & H3 & _). destruct coords; [|cbn in H2; lia]. apply Hstg; [done| |].
    + unfold PrefetcherReady.stage. cbn [pf_state slot_set_shards pf_h_shards]. rewrite Hst. exists uri. split; [apply Hk|]. done.
    + exists uri, meta, []. split; [exact Hk|]. split; [|by intros i]. split; try done; [cbn; lia|by left].
  - destruct (fst mem); cbn [negb] in Ha; [|by eapply fail_step]. destruct (snd mem); cbn [negb] in Ha; [|by eapply fail_step; [done|exact Hs| |done]].
    destruct (fill_coords _ g _ 0 _) as [cs|] eqn:Ef; cbn [mbind option_bind] in Ha; [|done].
    apply enter_shards_step in Ha as [Hs2 Hstg]; [|done|done]. split; [done|]. intros Hax Hm Hsg.
    destruct (Hlist Hax Hsg) as (uri & coords & Hk & H0 & _ & H1 & H2 & H3 & H4 & fuel & H5).
    pose proof (fill_coords_spec coords fuel g [] 0 (m_rank meta) H5 H3 H4 ltac:(done)) as Hfc. cbn [app] in Hfc.
    rewrite <-H2, Nat2Z.id, Hfc in Ef. simplify_eq. eapply (Hstg uri meta coords); try done; cbn [pf_n_requested slot_set_shards]; rewrite ?H0; try lia.
    + split; try done; unfold handles; cbn [pf_h_shards pf_n_shards pf_coords slot_set_shards default from_option id]; rewrite <-?H2; try lia.
      * by rewrite u32_id by clia.
      * rewrite repeat_length. lia.
      * by right.
    + intros ->. cbn in H2. lia.
Qed.

Lemma meta_step mem w c s r :
  ml_ok w -> (forall g, pf_gate s = Some g -> ml_live w g) -> pf_state s = Some state_pending_meta ->
  advance_from_meta max_shards mem w c s = Some r -> good_step w s r.
Proof.
  intros Hw Hlive Hst Ha. unfold advance_from_meta in Ha. destruct (pf_h_shards s) as [hs|] eqn:Eh.
  { apply enter_shards_step in Ha as [Hs Hstg]; [|done|done]. split; [done|]. intros _ Hm Hsg. unfold PrefetcherReady.stage in Hsg.
    rewrite Hst, Eh in Hsg. destruct Hsg as (uri & Hu & meta & coords & Hk & Hl & Hne & Hr).
    eapply Hstg; try done; [by destruct (l_shards _ _ _ _ _ _ _ Hl) as [<- _]|pose proof (l_max _ _ _ _ _ _ _ Hl); lia]. }
  destruct (co_query _ w _) as [[w1 [[st v] err]]|] eqn:Eq; cbn [mbind option_bind] in Ha; [|done].
  destruct (cl_query _ _ _ _ Hw Eq) as [Hs1 Hv]. apply (steps_none (pf_gate s)) in Hs1 as Hs. destruct (steps_ok _ _ _ Hw Hs) as [Hw1 _].
  destruct st; [|destruct v as [meta|]; [|by eapply fail_step]|by eapply fail_step].
  - simplify_eq. split; [done|]. intros _ Hm. by apply (stage_steps max_shards _ _ _ Hw Hs).
  - apply (meta_ready_step mem w1 c s meta err r) in Ha as [Hs2 Hstg]; try done.
    + split; [by eapply steps_trans|]. intros Hax Hm Hsg. destruct (steps_ok _ _ _ Hw1 Hs2) as [_ Hmono]. apply Hstg; [done|done|].
      apply (stage_steps max_shards _ _ _ Hw Hs); [lia|done].
    + intros g Hg. exact (steps_live _ _ _ _ Hw Hs (Hlive g Hg)).
Qed.

Lemma advance_slot_step mem w c s r :
  ml_ok w -> (forall g, pf_gate s = Some g -> ml_live w g) -> advance_slot max_shards mem w c s = Some r -> good_step w s r.
Proof.
  intros Hw Hlive Ha. unfold advance_slot in Ha. destruct (pf_state s) as [[]|] eqn:Est;
    [by simplify_eq; split; [constructor|]|by eapply meta_step|by eapply shard_step|by eapply layout_step|by simplify_eq; split; [constructor|]..].
Qed.
End stages.
