(* ===== verification/PrefetcherCaches.v ===== *)
(** * The prefetcher keeps its contract with the caches

    The invariant of the slots, the owner entries and the samples handed out, over
    the steps of [PrefetcherOps.v] on caches that obey [PrefetcherLaws.v]. *)

From stdpp Require Import strings.
From S2P Require Import Prelude Selection SelectionGrid Plan PlanProof PlanMain ShardIter Hash DispatchTypes Lookahead PrefetchCache Prefetcher PrefetcherOps PrefetcherOrder PrefetcherDeliver PrefetcherLaws PrefetcherReady.

#[local] Open Scope Z_scope.

Section caches.
Context {W : Type} `{MetaLaws W} `{!CacheLaws array_meta_cache meta_wf} `{!CacheLaws shard_index_cache index_wf} `{!LayoutLaws W}.
Context (max_shards : Z) (Hmax : max_shards < 2 ^ 32).
Implicit Types (w : W) (s : prefetcher_slot) (x : pf_world W).
Notation stage := (stage max_shards).

(** What a sample that was handed out as ready has. *)
Definition complete w (r : prefetcher_ready) : Prop :=
  exists uri meta coords, rd_uri r = Some uri /\ meta_wf meta /\
    (exists e, answered array_meta_cache w uri (rd_seq r) (rd_h_meta r) (PREFETCH_STATE_READY, Some meta, e)) /\
    shards_of (rd_aabb r) (rd_axes r) meta coords /\ zlen coords <= max_shards /\ rd_n_shards r = zlen coords /\
    length (default [] (rd_h_shards r)) = length coords /\
    (forall i c h, coords !! i = Some c -> default [] (rd_h_shards r) !! i = Some h ->
       exists a, answered shard_index_cache w (ShardKey uri c (m_rank meta)) (rd_seq r) h a /\ shard_settled a) /\
    (forall cl (E : chunk_layout_cache = Some cl), let _ := layout_laws cl E in
       exists key v e, ck_uri key = uri /\ answered cl w key (rd_seq r) (rd_h_layout r) (PREFETCH_STATE_READY, v, e)).

Lemma complete_of_stage w s : pf_state s = Some state_ready -> stage w s -> complete w (ready_of s).
Proof.
  intros Hst Hs. unfold PrefetcherReady.stage in Hs. rewrite Hst in Hs. destruct Hs as (uri & meta & coords & (Hu & Hwf & He) & [L1 L2 L3 L4 L5 L6 L7] & Hse & Hly).
  exists uri, meta, coords. split_and!; try done. intros cl E L. destruct (Hly cl E) as (v & e & Ha). exists (layout_key s uri), v, e. done.
Qed.

Lemma complete_steps g w w' r : ml_ok w -> steps g w w' -> ml_watermark w' <= rd_seq r -> complete w r -> complete w' r.
Proof.
  intros Hw Hs Hm (uri & meta & coords & H1 & H2 & (e & H3) & H4 & H5 & H6 & H7 & H8 & H9). exists uri, meta, coords. split_and!; try done.
  - exists e. by apply (steps_answered array_meta_cache _ _ _ _ _ _ _ Hw Hs).
  - intros i c h Hc Hh. destruct (H8 i c h Hc Hh) as (a & Ha & Hse). exists a. split; [|done].
    apply (steps_answered shard_index_cache _ _ _ _ _ _ _ Hw Hs); [done| |done]. unfold shard_settled in Hse. by destruct (fst (fst a)).
  - intros cl E L. destruct (H9 cl E) as (key & v & e' & Hk & Ha). exists key, v, e'. split; [done|].
    by apply (steps_answered cl _ _ _ _ _ _ _ Hw Hs).
Qed.

(** ** Worlds later on *)

(** Gates of entries in use may have gained waiters. *)
Definition later (l : list prefetcher_owner_entry) : W -> W -> Prop :=
  rtc (fun w w' => exists o, (forall g, o = Some g -> exists i e, g = owner_gate i /\ l !! i = Some e /\ oe_in_use e = true) /\ steps o w w').

Lemma later_steps l o w w' :
  (forall g, o = Some g -> exists i e, g = owner_gate i /\ l !! i = Some e /\ oe_in_use e = true) -> steps o w w' -> later l w w'.
Proof. intros Ho Hs. apply rtc_once. by exists o. Qed.
Lemma later_none l w w' : steps None w w' -> later l w w'.
Proof. by apply later_steps. Qed.

Lemma later_ok l w w' : ml_ok w -> later l w w' -> ml_ok w' /\ ml_watermark w <= ml_watermark w'.
Proof.
  intros Hw Hl. revert Hw. induction Hl as [|w1 w2 w3 (o & _ & Hs) _ IH]; intros Hw; [done|].
  destruct (steps_ok _ _ _ Hw Hs) as [Hw2 Hle]. destruct (IH Hw2). split; [done|lia].
Qed.
Lemma later_owners l w w' refs : ml_ok w -> later l w w' -> owners_ok w l refs -> owners_ok w' l refs.
Proof.
  intros Hw Hl. revert Hw. induction Hl as [|w1 w2 w3 (o & Ho & Hs) _ IH]; intros Hw HO; [done|]. destruct (steps_ok _ _ _ Hw Hs) as [Hw2 _].
  apply (IH Hw2). exact (owners_steps _ _ _ _ _ Hw Hs Ho HO).
Qed.
Lemma later_stage l w w' s : ml_ok w -> later l w w' -> ml_watermark w' <= pf_seq s -> stage w s -> stage w' s.
Proof.
  intros Hw Hl. revert Hw. induction Hl as [|w1 w2 w3 (o & _ & Hs) Hr IH]; intros Hw Hm Hst; [done|]. destruct (steps_ok _ _ _ Hw Hs) as [Hw2 _].
  apply (IH Hw2 Hm), (stage_steps max_shards _ _ _ Hw Hs); [|done]. destruct (later_ok l w2 w3 Hw2 Hr). lia.
Qed.
Lemma later_complete l w w' r : ml_ok w -> later l w w' -> ml_watermark w' <= rd_seq r -> complete w r -> complete w' r.
Proof.
  intros Hw Hl. revert Hw. induction Hl as [|w1 w2 w3 (o & _ & Hs) Hr IH]; intros Hw Hm Hst; [done|]. destruct (steps_ok _ _ _ Hw Hs) as [Hw2 _].
  apply (IH Hw2 Hm), (complete_steps _ _ _ _ Hw Hs); [|done]. destruct (later_ok l w2 w3 Hw2 Hr). lia.
Qed.

(** ** The pass over the slots *)

Lemma advance_free mem w c s r : slot_free s = true -> advance_slot max_shards mem w c s = Some r -> r = SW w c s.
Proof. unfold advance_slot, slot_free. destruct (pf_state s) as [[]|]; cbn; intros; by simplify_eq. Qed.

Lemma advance_loop_later mem i w c l w' c' l' owners refs :
  ml_ok w -> owners_ok w owners refs -> Forall (fun s => slot_free s = false -> gate_owned owners s) l ->
  advance_loop max_shards mem i w c l = Some (w', c', l') ->
  later owners w w' /\ Forall2 (fun s s' => axes_good (pf_aabb s) (pf_axes s) -> ml_watermark w' <= pf_seq s -> stage w s -> stage w' s') l l'.
Proof.
  intros Hw HO HF. revert i w c w' c' l' Hw HO. induction HF as [|s l Hg _ IH]; intros i w c w' c' l' Hw HO Ha; cbn [advance_loop] in Ha.
  { simplify_eq. split; [apply rtc_refl|constructor]. }
  destruct (advance_slot _ _ _ _ _) as [r|] eqn:E; cbn [mbind option_bind] in Ha; [|done].
  destruct (advance_loop _ _ _ _ _ _) as [[[w2 c2] l2]|] eqn:E2; cbn [mbind option_bind] in Ha; [|done]. simplify_eq.
  assert (later owners w (sw_world r) /\ (axes_good (pf_aabb s) (pf_axes s) -> ml_watermark (sw_world r) <= pf_seq s -> stage w s -> stage (sw_world r) (sw_slot r))) as [Hl Hst].
  { destruct (slot_free s) eqn:Ef; [apply advance_free in E as ->; [split; [apply rtc_refl|done]|done]|]. specialize (Hg eq_refl).
    destruct (advance_slot_step max_shards Hmax _ _ _ _ _ Hw (fun g => gate_owned_live _ _ _ _ g HO Hg) E) as [Hs Hst].
    split; [|done]. eapply later_steps; [|exact Hs]. intros g. by apply gate_owned_use. }
  destruct (later_ok _ _ _ Hw Hl) as [Hw1 _]. destruct (IH (S i) (sw_world r) (sw_counts r) w' c' l2 Hw1 (later_owners _ _ _ _ Hw Hl HO) E2) as [Hl2 HF2].
  destruct (later_ok _ _ _ Hw1 Hl2) as [_ Hmono]. split; [by etrans|]. constructor.
  - intros Hax Hm Hsg. pose proof (advance_slot_same _ _ _ _ _ _ E) as (_ & _ & _ & _ & Hseq & _).
    apply (later_stage _ _ _ _ Hw1 Hl2); [congruence|]. apply Hst; [done|lia|done].
  - eapply Forall2_impl; [exact HF2|]. intros t t' Ht Hax Hm Hsg. apply Ht; [done|done|].
    apply (later_stage _ _ _ _ Hw Hl); [lia|done].
Qed.

(** ** The invariant *)

Definition occupied (l : list prefetcher_slot) (id : Z) : Prop := exists i s, l !! i = Some s /\ slot_free s = false /\ pf_seq s = id.

(** [refs]: the samples that hold a reference to their owner entry. *)
Record caches_at (refs : Z -> Prop) x (out : list prefetcher_ready) : Prop := {
  ci_ok : ml_ok (pw_w x);
  ci_max : pf_max_shards (pw_pf x) = max_shards;
  ci_owners : owners_ok (pw_w x) (pf_owners (pw_pf x)) refs;
  ci_gates : forall i s, pf_slots (pw_pf x) !! i = Some s -> slot_free s = false -> gate_owned (pf_owners (pw_pf x)) s;
  ci_stage : forall i s, pf_slots (pw_pf x) !! i = Some s -> axes_good (pf_aabb s) (pf_axes s) -> ml_watermark (pw_w x) <= pf_seq s -> stage (pw_w x) s;
  ci_out : forall r, r ∈ out -> rd_result r = PREFETCHER_RESULT_READY -> axes_good (rd_aabb r) (rd_axes r) ->
    ml_watermark (pw_w x) <= rd_seq r -> complete (pw_w x) r }.
Definition caches_inv x (out : list prefetcher_ready) : Prop := caches_at (occupied (pf_slots (pw_pf x))) x out.

(** The caches change, the prefetcher does not. *)
Lemma caches_later refs x w' out :
  caches_at refs x out -> later (pf_owners (pw_pf x)) (pw_w x) w' -> caches_at refs (PW (pw_pf x) w') out.
Proof.
  intros [H1 H2 H3 H4 H5 H6] Hl. destruct (later_ok _ _ _ H1 Hl) as [Hw' Hle]. split; cbn; try done.
  - exact (later_owners _ _ _ _ H1 Hl H3).
  - intros i s Hi Hax Hm. eapply later_stage; [exact H1|exact Hl|done|]. apply (H5 i); [done|done|lia].
  - intros r Hr Hd Hax Hm. eapply later_complete; [exact H1|exact Hl|done|]. apply H6; [done|done|done|lia].
Qed.

Lemma gate_owned_keep (l l' : list prefetcher_owner_entry) s :
  (forall i e, l !! i = Some e -> oe_in_use e = true -> oe_id e = pf_seq s -> oe_refcount e = 1 -> l' !! i = Some e) ->
  gate_owned l s -> gate_owned l' s.
Proof. intros Hk Hg g Hgs. destruct (Hg g Hgs) as (i & e & -> & Hi & Hu & Hd & Hr). exists i, e. split_and!; try done. by apply Hk. Qed.

Lemma gate_owned_same l s s' : same_sample s s' -> gate_owned l s -> gate_owned l s'.
Proof. intros (_ & _ & _ & _ & Hq & Hg) Hs g Hgs. rewrite Hq. apply Hs. congruence. Qed.

Lemma occupied_same l l' id : Forall2 same_sample l l' -> occupied l id -> occupied l' id.
Proof.
  intros HF (i & s & Hs & Hf & Hq). destruct (Forall2_lookup_l _ _ _ _ _ HF Hs) as (s' & Hs' & E0 & _ & _ & _ & E4 & _).
  exists i, s'. split_and!; congruence.
Qed.

Lemma scan_caches mem x x' res out : caches_inv x out -> worker_scan mem x = Some (x', res) -> caches_inv x' out.
Proof.
  intros HI Hs. pose proof HI as [H1 H2 H3 H4 H5 H6]. unfold worker_scan, advance_all in Hs. rewrite H2 in Hs.
  destruct (advance_loop _ _ _ _ _ _) as [[[w1 c1] l1]|] eqn:Ea; cbn [mbind option_bind] in Hs; [|done]. cbn [pw_w pw_pf with_pf_counts with_slots pf_owners] in Hs.
  destruct (owner_sweep_locked w1 _) as [ow|] eqn:Es; cbn [mbind option_bind] in Hs; [|done]. simplify_eq.
  assert (HF : Forall (fun s => slot_free s = false -> gate_owned (pf_owners (pw_pf x)) s) (pf_slots (pw_pf x))).
  { apply Forall_forall. intros s [i Hi]%list_elem_of_lookup. eauto. }
  destruct (advance_loop_later _ _ _ _ _ _ _ _ _ _ H1 H3 HF Ea) as [Hl HF2]. pose proof (advance_loop_same _ _ _ _ _ _ _ Ea) as HS. cbn [snd] in HS.
  destruct (later_ok _ _ _ H1 Hl) as [Hw1 Hle]. pose proof (later_owners _ _ _ _ H1 Hl H3) as HO1.
  destruct (sweep_loop_spec _ _ _ _ _ _ Hw1 HO1 Es) as [HO2 Hkeep]. split; cbn; try done.
  - eapply owners_weaken; [|exact HO2]. intros id. by apply occupied_same.
  - intros i s' Hi Hf. destruct (Forall2_lookup_r _ _ _ _ _ HS Hi) as (s & Hsi & Hsm). eapply gate_owned_same; [exact Hsm|].
    eapply gate_owned_keep; [|apply (H4 i s Hsi); by destruct Hsm as [<- _]]. intros j e Hj _ _ Hr. apply Hkeep; [done|lia].
  - intros i s' Hi Hax Hm. destruct (Forall2_lookup_r _ _ _ _ _ HS Hi) as (s & Hsi & Hsm). pose proof Hsm as (_ & _ & E2 & E3 & E4 & _).
    destruct (Forall2_lookup_r _ _ _ _ _ HF2 Hi) as (s2 & Hs2 & Hst). assert (s2 = s) as -> by congruence. rewrite E2, E3 in Hax. rewrite E4 in Hm.
    apply Hst; [done|done|]. apply (H5 i); [done|done|lia].
  - intros r Hr Hd Hax Hm. eapply later_complete; [exact H1|exact Hl|done|]. apply H6; [done|done|done|lia].
Qed.

Lemma pop_caches x r x' out : caches_inv x out -> prefetcher_pop_ready x = Some (Some r, x') ->
  (forall i j s t, pf_slots (pw_pf x) !! i = Some s -> pf_slots (pw_pf x) !! j = Some t -> slot_free s = false -> slot_free t = false ->
     pf_seq s = pf_seq t -> i = j) -> caches_inv x' (out ++ [r]).
Proof.
  intros [H1 H2 H3 H4 H5 H6] Hp Hinj. unfold prefetcher_pop_ready in Hp. destruct (find_terminal_sample_locked _ _) as [i|] eqn:Ef; [|done].
  unfold find_terminal_sample_locked in Ef. apply find_first_Some in Ef as (s & Hi & [Ht _]%andb_true_iff). apply terminal_busy in Ht as Hb.
  unfold pop_terminal_slot_idx_locked in Hp. rewrite Hi, Ht in Hp. cbn [negb mbind option_bind] in Hp.
  destruct (owner_unref_locked _ _ _) as [ow|] eqn:Eo; cbn [mbind option_bind] in Hp; [|done]. simplify_eq.
  destruct (unref_spec _ _ _ _ _ H1 H3 Eo) as [HO Hkeep].
  assert (Hne : forall j t, <[i := slot_reset_free]> (pf_slots (pw_pf x)) !! j = Some t -> slot_free t = false -> j <> i /\ pf_slots (pw_pf x) !! j = Some t).
  { intros j t Hj Htf. destruct (decide (j = i)) as [->|Hne].
    - rewrite list_lookup_insert_eq in Hj by (by eapply lookup_lt_Some). by simplify_eq.
    - by rewrite list_lookup_insert_ne in Hj. }
  split; cbn; try done.
  - eapply owners_weaken; [|exact HO]. intros id [(j & t & Hj & Htf & <-) Hd]. exists j, t. split; [|done].
    rewrite list_lookup_insert_ne; [done|]. intros <-. congruence.
  - intros j t Hj Htf. destruct (Hne j t Hj Htf) as [Hji Hj']. eapply gate_owned_keep; [|by eapply H4].
    intros k e Hk Hu Hd _. apply Hkeep; [done|done|]. intros Hd'. apply Hji, (Hinj j i t s); try done. congruence.
  - intros j t Hj Hax Hm. destruct (decide (j = i)) as [->|Hji].
    + rewrite list_lookup_insert_eq in Hj by (by eapply lookup_lt_Some). by simplify_eq.
    + rewrite list_lookup_insert_ne in Hj by done. by apply (H5 j).
  - intros r Hr. apply elem_of_app in Hr as [Hr|Hr]; [by apply H6|]. apply list_elem_of_singleton in Hr as ->. intros Hd Hax Hm. apply complete_of_stage; [|by apply (H5 i)].
    unfold slot_terminal in Ht. unfold ready_of, slot_result, slot_failed in Hd. cbn in Hd. destruct (pf_state s) as [[]|]; done.
Qed.

(** ** Admission *)

(** A slot is filled with sample [id], which holds its entry. *)
Lemma fill_caches x p' i s0 s out :
  caches_at (fun d => occupied (pf_slots (pw_pf x)) d \/ d = pf_seq s) x out ->
  pf_slots (pw_pf x) !! i = Some s0 -> slot_free s0 = true -> slot_free s = false ->
  pf_slots p' = <[i := s]> (pf_slots (pw_pf x)) -> pf_owners p' = pf_owners (pw_pf x) -> pf_max_shards p' = pf_max_shards (pw_pf x) ->
  gate_owned (pf_owners (pw_pf x)) s -> stage (pw_w x) s -> caches_inv (PW p' (pw_w x)) out.
Proof.
  intros [H1 H2 H3 H4 H5 H6] Hi Hf0 Hf Es Eo Em Hg Hst. pose proof (lookup_lt_Some _ _ _ Hi) as Hlt.
  assert (Hl : forall j t, <[i := s]> (pf_slots (pw_pf x)) !! j = Some t -> t = s \/ j <> i /\ pf_slots (pw_pf x) !! j = Some t).
  { intros j t Hj. destruct (decide (j = i)) as [->|Hne]; [rewrite list_lookup_insert_eq in Hj by done; left; congruence|].
    right. by rewrite list_lookup_insert_ne in Hj. }
  split; cbn; rewrite ?Es, ?Eo, ?Em; try done.
  - eapply owners_weaken; [|exact H3]. intros id [(j & t & Hj & Htf & Hq)| ->].
    + exists j, t. split; [|done]. rewrite list_lookup_insert_ne; [done|]. intros <-. congruence.
    + exists i, s. by rewrite list_lookup_insert_eq.
  - intros j t Hj Htf. destruct (Hl j t Hj) as [->|[_ Ht]]; [done|by eapply H4].
  - intros j t Hj Hax Hm. destruct (Hl j t Hj) as [->|[_ Ht]]; [done|by eapply H5].
Qed.

Lemma emit_caches x i s0 popped gate err x' out :
  caches_at (fun d => occupied (pf_slots (pw_pf x)) d \/ d = sample_seq popped) x out ->
  pf_slots (pw_pf x) !! i = Some s0 -> slot_free s0 = true -> gate_owned (pf_owners (pw_pf x)) (sample_slot popped gate PREFETCH_HANDLE_NONE) ->
  emit_error_slot_locked x i popped gate err = Some x' -> caches_inv x' out.
Proof.
  intros HI Hi Hf0 Hg He. unfold emit_error_slot_locked in He. destruct (slot_fail _ _ _ _) as [r|] eqn:Ef; cbn [mbind option_bind] in He; [|done].
  destruct (slot_fail_steps max_shards _ _ _ _ _ (ci_ok _ _ _ HI) Ef) as [Hs _]. pose proof (slot_fail_sample _ _ _ _ _ _ Ef) as [(_ & _ & _ & Hseq) Hf].
  assert (pf_gate (sw_slot r) = gate /\ pf_state (sw_slot r) = Some state_error) as [Hgr Hsr].
  { unfold slot_fail in Ef. cbn [pf_gate sample_slot] in Ef. destruct gate as [g|]; cbn [mbind option_bind] in Ef; [destruct (gate_set_error _ g); cbn [mbind option_bind] in Ef; [|done]|];
      by simplify_eq. }
  unfold set_slot in He. case_decide; cbn [mbind option_bind] in He; [|done]. simplify_eq.
  assert (Hl : later (pf_owners (pw_pf x)) (pw_w x) (sw_world r)).
  { eapply later_steps; [|exact Hs]. intros g. by apply gate_owned_use. }
  pose proof (caches_later _ _ _ _ HI Hl) as HI1.
  apply (fill_caches (PW (pw_pf x) (sw_world r)) _ i s0 (sw_slot r)); try done; cbn [pw_pf pw_w].
  - by rewrite Hseq.
  - intros g Hgg. rewrite Hseq. apply (Hg g). exact Hgg.
  - unfold PrefetcherReady.stage. by rewrite Hsr.
Qed.

Lemma admit_caches x i s0 popped x' st out :
  caches_inv x out -> pf_slots (pw_pf x) !! i = Some s0 -> slot_free s0 = true -> ~ occupied (pf_slots (pw_pf x)) (sample_seq popped) ->
  admit_locked x i popped = Some (x', st) -> caches_inv x' out.
Proof.
  intros HI Hi Hf0 Hno Ha. pose proof HI as [H1 H2 H3 H4 H5 H6]. unfold admit_locked in Ha.
  destruct (owner_get_or_create_locked _ _ _) as [[[w1 ow] o]|] eqn:Eo; cbn [mbind option_bind] in Ha; [|done].
  destruct (get_or_create_spec _ _ _ _ _ _ _ H1 H3 Hno Eo) as [Hs1 Hown].
  set (x1 := PW (with_owners (pw_pf x) ow) w1). destruct o as [k|].
  2:{ subst ow. destruct (emit_error_slot_locked _ _ _ _ _) as [x2|] eqn:E; cbn [mbind option_bind] in Ha; [|done]. simplify_eq.
      eapply (emit_caches x1 i s0 popped None); [|done|done|by intros g|exact E].
      pose proof (caches_later _ _ w1 _ HI (later_none _ _ _ Hs1)) as [K1 K2 K3 K4 K5 K6]. split; try done.
      eapply owners_weaken; [|exact K3]. by left. }
  destruct Hown as (HO & (e & He & Heu & Hed & Her) & Hkeep). destruct (steps_ok _ _ _ H1 Hs1) as [Hw1 Hle1].
  assert (HI1 : caches_at (fun d => occupied (pf_slots (pw_pf x)) d \/ d = sample_seq popped) x1 out).
  { split; cbn; try done.
    - intros j s Hj Hf. eapply gate_owned_keep; [|by eapply H4]. intros m f Hm Hu Hd _. apply Hkeep; [done|done|].
      intros Hd'. apply Hno. exists j, s. split_and!; congruence.
    - intros j s Hj Hax Hm. apply (stage_steps max_shards _ _ _ H1 Hs1); [done|]. apply (H5 j); [done|done|lia].
    - intros r Hr Hd Hax Hm. apply (complete_steps _ _ _ _ H1 Hs1); [done|]. apply H6; [done|done|done|lia]. }
  destruct (sl_uri popped) as [uri|] eqn:Eu; cbn [mbind option_bind] in Ha; [|done].
  destruct (co_request _ _ _ _ _ _) as [[w2 req]|] eqn:Er; cbn [mbind option_bind] in Ha; [|done].
  assert (Hlive : forall g, Some (owner_gate k) = Some g -> ml_live w1 g) by (intros g [= <-]; by eapply oo_live).
  destruct (cl_request w1 _ _ _ _ w2 req Hw1 Hlive Er) as [Hst Hheld]. apply steps_one in Hst as Hs2.
  assert (Hl : later ow w1 w2) by (eapply later_steps; [|exact Hs2]; intros g [= <-]; eauto).
  pose proof (caches_later _ _ w2 _ HI1 Hl) as HI2. cbn [pw_pf x1] in HI2.
  assert (Hgate : forall h, gate_owned ow (sample_slot popped (Some (owner_gate k)) h)) by (intros h g [= <-]; by exists k, e).
  destruct (decide (r_status req = DAMACY_AGAIN)).
  - destruct (owner_unref_entry_locked _ _ _) as [ow2|] eqn:Eo2; cbn [mbind option_bind] in Ha; [|done]. simplify_eq. cbn [pf_owners with_owners] in Eo2.
    destruct HI2 as [K1 K2 K3 K4 K5 K6]. cbn in *. destruct (unref_entry_spec _ _ _ _ _ _ K1 K3 He Heu Eo2) as [HO2 Hk2]. split; cbn; try done.
    + eapply owners_weaken; [|exact HO2]. rewrite Hed. by intros id [[|] ?].
    + intros j s Hj Hf. eapply gate_owned_keep; [|by eapply K4]. intros m f Hm Hu Hd Hr. apply Hk2; [|done]. intros ->.
      apply Hno. exists j, s. split_and!; congruence.
  - destruct (decide (r_status req = DAMACY_OK)) as [Hok|].
    + unfold set_slot in Ha. case_decide; cbn [mbind option_bind] in Ha; [|done]. simplify_eq.
      apply (fill_caches (PW (with_owners (pw_pf x) ow) w2) _ i s0
        (slot_set_state (sample_slot popped (Some (owner_gate k)) (r_handle req)) state_pending_meta)); try done.
      * intros g Hgg. exact (Hgate (r_handle req) g Hgg).
      * unfold PrefetcherReady.stage. cbn. exists uri. rewrite Eu. split; [done|]. split; [by apply Hheld|done].
    + destruct (emit_error_slot_locked _ _ _ _ _) as [x3|] eqn:E; cbn [mbind option_bind] in Ha; [|done]. simplify_eq.
      by eapply (emit_caches (PW (with_owners (pw_pf x) ow) w2)); [exact HI2| | |apply Hgate|exact E].
Qed.
End caches.
