(* ===== verification/PrefetcherClaims.v ===== *)
(** * Theorems on the prefetcher

    What a sample handed out by [src/src/prefetch/prefetcher.c] has, for every run
    over caches that keep their promises, and that it is what the plan builder
    expects. *)

From stdpp Require Import strings.
From S2P Require Import Prelude Selection SelectionGrid Plan PlanProof PlanMain ShardIter Hash DispatchTypes Lookahead PrefetchCache Prefetcher PrefetcherOps PrefetcherOrder PrefetcherDeliver PrefetcherLaws PrefetcherReady PrefetcherCaches.

#[local] Open Scope Z_scope.

(** The samples [zarr_push] of [src/src/pipeline/zarr_planner.c] accepts. *)
Definition zarr_accepts (output : damacy_batch_spec) (max_plan_bytes : Z) (s : damacy_sample) : Prop :=
  sample_fits s output /\ is_u64 max_plan_bytes /\ query_validate (Some s) (Some output) max_plan_bytes = Some DAMACY_OK /\
  forall uri, s_uri s = Some uri -> Z.of_nat (String.length uri) + max_plan_bytes < 2 ^ 63 /\ Z.of_nat (String.length uri) < 2 ^ 60.

Lemma accepted_good output m malloc s uri aabb axes :
  zarr_accepts output m s -> query_copy malloc (Some s) = Some (inr (uri, aabb, axes)) ->
  axes_good aabb axes /\ Z.of_nat (String.length uri) < 2 ^ 60.
Proof.
  intros (Hfit & Hm & Hv & Hu) Hcp. destruct (query_validate_iff s output m Hfit Hm) as (st & Hv' & Hacc). rewrite Hv in Hv'. simplify_eq.
  assert (Hq : query_accepted s output m) by (by apply Hacc).
  destruct (query_copy_accepted malloc s output m Hfit Hm Hq) as (uri' & b' & a' & size & Hs & Hc & Hr & _ & _ & Hax); [intros u E; by apply Hu|].
  rewrite Hcp in Hc. destruct (malloc size); simplify_eq. split; [|by apply Hu]. destruct Hq as (_ & Hrank & _). split; [by rewrite Hr|].
  intros d Hd. pose proof (sf_axes _ _ Hfit) as Hlen. rewrite Hr in Hd. destruct (aget_is_Some (s_axes s) d) as [a Ha]; [lia|].
  destruct (Hax d a Hd Ha) as (b & q & Hb & Hqq & Hcopy & Hfits & Hval). exists b, q. split_and!; try done.
  - by eapply axis_copied_ok.
  - destruct a as [iv|[values|] k|]; try done; cbn in Hcopy; [by destruct Hcopy as [_ ->]|destruct Hcopy as [-> _], Hfits; lia].
  - destruct a as [iv|[values|] k|]; try done; cbn in Hcopy; [by destruct Hcopy as [_ ->]|destruct Hcopy as [-> _], Hfits; lia].
Qed.

(** The status behind an error number. *)
Definition status_of (code : Z) : damacy_status :=
  default DAMACY_INVAL (find (fun s => status_code s =? code)
    [DAMACY_OK; DAMACY_AGAIN; DAMACY_INVAL; DAMACY_NOTFOUND; DAMACY_DTYPE; DAMACY_RANK; DAMACY_IO; DAMACY_DECODE; DAMACY_CUDA;
     DAMACY_OOM; DAMACY_BUDGET; DAMACY_SHUTDOWN; DAMACY_UNSUPPORTED]).

(** The sample as [zarr_next] stages it for the plan builder. *)
Definition planner_sample_of (r : prefetcher_ready) : planner_sample :=
  PlannerSample (rd_uri r) (rd_aabb r) (rd_axes r) (rd_h_meta r) (default [] (rd_h_shards r)) (rd_n_shards r) PREFETCH_HANDLE_NONE.

Section claims.
Context {W : Type} `{MetaLaws W} `{!CacheLaws array_meta_cache meta_wf} `{!CacheLaws shard_index_cache index_wf} `{!LayoutLaws W}.
Context (max_shards : Z).
Implicit Types (w : W) (x : pf_world W) (y : run W).

(** What the caches answer, as the plan builder sees it. *)
Definition world_view w : CacheView := {|
  query_array h := let '(st, v, e) := cl_view array_meta_cache w h in Query st v (status_of e);
  query_shard h := let '(st, v, e) := cl_view shard_index_cache w h in Query st v (status_of e) |}.

Context (Hmax : 0 < max_shards < 2 ^ 32 - 1) (valid : damacy_sample -> Prop).
Notation rstep := (rstep (ml_step None) valid).

(** The invariant looks at the slots, the entries and the caches only. *)
Lemma caches_pf x p' out :
  pf_slots p' = pf_slots (pw_pf x) -> pf_owners p' = pf_owners (pw_pf x) -> pf_max_shards p' = pf_max_shards (pw_pf x) ->
  caches_inv max_shards x out -> caches_inv max_shards (PW p' (pw_w x)) out.
Proof. intros E1 E2 E3 [H1 H2 H3 H4 H5 H6]. unfold caches_inv. cbn. rewrite E1. split; cbn; rewrite ?E1, ?E2, ?E3; done. Qed.

Lemma not_occupied cap y adm i s :
  0 <= cap < UINT32_MAX -> rinv valid cap y adm -> y_pc y = WPopped i s -> ~ occupied (pf_slots (pw_pf (y_x y))) (sample_seq s).
Proof.
  intros Hc HI Hpc (j & t & Hj & Hf & Hq). destruct (rinv_split valid _ _ _ Hc HI) as (q & Hacc & _). destruct (rinv_adm valid _ _ _ Hc HI) as [Hnum _].
  pose proof (ri_pc _ _ _ _ HI) as Hok. rewrite Hpc in Hok, Hacc. rewrite (hand_is _ _ _ Hok) in Hacc.
  destruct (so_slot _ _ _ (ri_slots _ _ _ _ HI) j t Hj Hf) as (k & z & Hk & _ & _ & _ & _ & Hz). pose proof (lookup_lt_Some _ _ _ Hk).
  assert (sample_seq s = zlen adm) as Hs.
  { apply (ri_num _ _ _ _ HI). rewrite Hacc, lookup_app_r, Nat.sub_diag by done. done. }
  rewrite (Hnum k z Hk) in Hz. lia.
Qed.

Lemma pops_caches cap x l x' la pc acc out adm :
  0 <= cap < UINT32_MAX -> pops x l x' -> rinv valid cap (Run x la pc acc out) adm -> caches_inv max_shards x out ->
  caches_inv max_shards x' (out ++ l).
Proof.
  intros Hc Hp. revert out. induction Hp as [x|x r x1 l x' Hp _ IH]; intros out HI HC; [by rewrite app_nil_r|].
  rewrite (cons_middle r out l), app_assoc. apply IH; [by eapply pop_rinv|]. eapply pop_caches; [exact HC|exact Hp|].
  apply (so_inj _ _ _ (ri_slots _ _ _ _ HI)).
Qed.

Lemma rstep_caches cap y y' adm :
  0 <= cap < UINT32_MAX -> rinv valid cap y adm -> caches_inv max_shards (y_x y) (y_out y) -> rstep y y' ->
  caches_inv max_shards (y_x y') (y_out y').
Proof.
  intros Hc HI HC Hs. destruct Hs; cbn [y_x y_out] in *; try done.
  - eapply scan_caches; [lia|exact HC|done].
  - by apply caches_pf.
  - pose proof (not_occupied _ _ _ _ _ Hc HI eq_refl) as Hno. destruct (ri_pc _ _ _ _ HI) as [_ (s0 & Hs0 & Hf0)]. cbn in *.
    pose proof (admit_caches max_shards _ _ _ _ _ _ _ HC Hs0 Hf0 Hno H0) as HC'. unfold after_admit. destruct (decide _); by apply caches_pf.
  - by apply caches_pf.
  - destruct r as [r|]; cbn.
    + eapply pop_caches; [exact HC|done|]. apply (so_inj _ _ _ (ri_slots _ _ _ _ HI)).
    + by rewrite app_nil_r, (pop_ready_slots _ _ _ H0).
  - destruct (wave_rinv valid _ _ _ _ _ _ _ _ _ _ _ Hc HI H0) as [Hp _]. by eapply pops_caches.
  - unfold prefetcher_stop in H0. destruct (pf_started (pw_pf x)); simplify_eq; by apply caches_pf.
  - apply caches_later; [done|]. by apply later_none, steps_none.
Qed.

Lemma starts_caches cap w y :
  starts cap w y -> pf_max_shards (pw_pf (y_x y)) = max_shards -> ml_ok w -> (forall i, ml_idle w (owner_gate i)) ->
  caches_inv max_shards (y_x y) (y_out y).
Proof.
  intros (alloc & cfg & p & la0 & la & _ & Hp & _ & ->) Hms Hw Hidle. unfold prefetcher_create in Hp. case_match; [|done]. simplify_eq/=.
  assert (Hslot : forall n i s, repeat slot_reset_free n !! i = Some s -> slot_free s = true /\ pf_state s = Some state_free).
  { intros n i s Hi. apply list_elem_of_lookup_2, list_elem_of_In, repeat_spec in Hi as ->. done. }
  assert (Hown : forall n i e, repeat (OwnerEntry 0 0 false) n !! i = Some e -> oe_in_use e = false).
  { intros n i e Hi. apply list_elem_of_lookup_2, list_elem_of_In, repeat_spec in Hi as ->. done. }
  split; cbn; try done.
  - split.
    + intros i j e f Hi _ Hu. apply Hown in Hi. congruence.
    + intros i e Hi Hu. apply Hown in Hi. congruence.
    + intros i e Hi Hu. apply Hown in Hi. congruence.
    + intros i e _ _. apply Hidle.
  - intros i s Hi Hf. apply Hslot in Hi as [Hi _]. congruence.
  - intros i s Hi _ _. apply Hslot in Hi as [_ Hi]. unfold stage. by rewrite Hi.
  - by intros r Hr%not_elem_of_nil.
Qed.

Lemma run_caches cap w y0 y :
  0 <= cap < UINT32_MAX -> starts cap w y0 -> pf_max_shards (pw_pf (y_x y0)) = max_shards -> ml_ok w -> (forall i, ml_idle w (owner_gate i)) ->
  rtc rstep y0 y -> (exists adm, rinv valid cap y adm) /\ caches_inv max_shards (y_x y) (y_out y).
Proof.
  intros Hc H0 Hms Hw Hid Hr. pose proof (starts_rinv valid _ _ _ Hc H0) as HI. pose proof (starts_caches _ _ _ H0 Hms Hw Hid) as HC.
  clear H0 Hms Hw Hid. revert HI HC. generalize ([] : list damacy_sample_slot). induction Hr as [y|y1 y2 y3 Hs _ IH]; intros adm HI HC; [eauto|].
  destruct (rstep_rinv (ml_step None) valid _ _ _ _ Hc HI Hs) as (adm' & HI' & _). eapply IH; [exact HI'|]. exact (rstep_caches _ _ _ _ Hc HI HC Hs).
Qed.
End claims.

(** Over caches that keep their promises, every sample the prefetcher hands out
    as ready is complete, as long as the watermark has not passed it: its metadata is
    answered; it has one handle per shard its selection touches, in row-major order
    and within [max_shards_per_sample]; each handle stands for the index of that very
    shard, answered with the index or with the news that the shard does not exist; and
    the layout, where one is fetched, is answered. So it is what the plan builder
    assumes of a sample. The gates the caches know are those of entries in use: an
    entry is free only when nothing waits for its gate. *)
Theorem ready_complete {W : Type} `{MetaLaws W} `{!CacheLaws array_meta_cache meta_wf} `{!CacheLaws shard_index_cache index_wf}
    `{!LayoutLaws W} max_shards output m cap (w : W) y0 y :
  0 < max_shards < 2 ^ 32 - 1 -> 0 <= cap < UINT32_MAX -> starts cap w y0 -> pf_max_shards (pw_pf (y_x y0)) = max_shards ->
  ml_ok w -> (forall i, ml_idle w (owner_gate i)) -> rtc (rstep (ml_step None) (zarr_accepts output m)) y0 y ->
  let w' := pw_w (y_x y) in
  (forall r, r ∈ y_out y -> rd_result r = PREFETCHER_RESULT_READY -> ml_watermark w' <= rd_seq r ->
     complete max_shards w' r /\ @sample_wf (world_view w') (planner_sample_of r)) /\
  (forall i e, pf_owners (pw_pf (y_x y)) !! i = Some e -> if oe_in_use e then ml_live w' (owner_gate i) else ml_idle w' (owner_gate i)).
Proof.
  intros Hmax Hc H0 Hms Hw Hid Hr w'. destruct (run_caches max_shards Hmax (zarr_accepts output m) _ _ _ _ Hc H0 Hms Hw Hid Hr) as [(adm & HI) HC].
  destruct HC as [C1 C2 C3 C4 C5 C6]. split.
  - intros r Hr' Hres Hwm. apply list_elem_of_lookup in Hr' as Hi. destruct Hi as [i Hi]. destruct (ri_out _ _ _ _ HI i r Hi) as (s & Hs & E1 & E2 & E3 & E4).
    destruct (rinv_split _ _ _ _ Hc HI) as (q & Hq & _). assert (copied (zarr_accepts output m) s) as (malloc & sample & uri & Hv & Hu & Hcp).
    { eapply Forall_lookup_1; [exact (ri_valid _ _ _ _ HI)|]. rewrite Hq. by apply lookup_app_l_Some. }
    destruct (accepted_good _ _ _ _ _ _ _ Hv Hcp) as [Hax Hlen]. rewrite <-E2, <-E3 in Hax. specialize (C6 r Hr' Hres Hax Hwm). split; [done|].
    destruct C6 as (uri' & meta & coords & Hu' & Hwf & (e & Hh & Hview) & _ & Hle & Hn & Hl & _). split; cbn.
    + apply Hax.
    + apply Hax.
    + intros u Hur. rewrite E1, Hu in Hur. simplify_eq. exact Hlen.
    + split; lia.
    + intros h idx _. destruct (cl_view shard_index_cache w' h) as [[st v] e'] eqn:Ev. cbn. intros ->.
      apply (cl_good (c := shard_index_cache) (good := index_wf) w' h); [done|]. by rewrite Ev.
    + intros mt. destruct (cl_view array_meta_cache w' (rd_h_meta r)) as [[st v] e'] eqn:Ev. cbn. intros ->.
      apply (cl_good (c := array_meta_cache) (good := meta_wf) w' (rd_h_meta r)); [done|]. by rewrite Ev.
  - intros i e Hi. destruct (oe_in_use e) eqn:Eu; [by eapply oo_live|by eapply oo_idle].
Qed.
