(* ===== verification/SharedCache.v ===== *)
(** * A prefetch cache whose gates are shared

    A sample waits for several caches with one gate. Here is one cache
    ([src/src/prefetch/prefetch_cache.c]) among others that use the same gates: the
    requests of its client, what other threads do to it in between, and what both
    keep. *)

From stdpp Require Import gmap.
From S2P Require Import Prelude Hash Lru LruSpec LruCorrect LruClaims LruClient PrefetchCache PrefetchGates PrefetchProof PrefetchSteps PrefetchRequest PrefetchUnpin PrefetchClaims.

#[local] Open Scope Z_scope.

(** What other threads do: the fetch at place [i] of the outstanding ones ends, or
    the consumer moves the watermark. *)
Inductive cache_move (V : Type) := EndFetch (i : nat) (value : option V) (err : Z) | Advance (w : Z).
Arguments EndFetch {V}.
Arguments Advance {V}.

Section shared.
Context {K V : Type} (key_eq : K -> K -> bool) (good : V -> Prop).
Implicit Types (w : @world K V) (st : pst K V) (L : list (item (ptr * K) * prefetch_slot K V)).

(** The world with the gates as they are now. *)
Definition with_world_gates w (G : gmap ptr Z) : world := World (w_reqs w) (with_gates (w_st w) G) (w_out w) (w_vals w).

(** [malloc] gives back an address that is not in use. *)
Definition fresh_memory st (mem : request_memory) : request_memory :=
  Memory (clone_ok mem) (p ← slot_mem mem; match heap st !! p with Some _ => None | None => Some p end) (grow_ok mem).

(** [prefetch_cache_request_result], with the fetches that are outstanding. The model
    ends at 2^31 requests, where 32-bit generations would repeat. *)
Definition shared_request (mem : request_memory) (how : launch_result) w (hash : Z) (key : K) (owner : Z) (gate : option ptr)
    : option (world * prefetch_request_result) :=
  if negb (w_reqs w + 1 <? 2 ^ 31) then None
  else
    r ← request_locked key_eq (fresh_memory (w_st w) mem) (w_st w) hash key owner gate;
    match r with
    | (st, Answered a) => Some (World (w_reqs w + 1) st (w_out w) (w_vals w), a)
    | (st, Launch p t h) =>
        st ← launch st p t how;
        Some (World (w_reqs w + 1) st (match launch_error how with None => (p, t) :: w_out w | Some _ => w_out w end) (w_vals w),
              Result h DAMACY_OK)
    end.

Definition shared_move (m : cache_move V) w : option world :=
  match m with
  | EndFetch i value err =>
      match w_out w !! i with
      | None => Some w
      | Some (_, t) =>
          st ← prefetch_cache_complete (w_st w) t value err;
          Some (World (w_reqs w) st (delete i (w_out w)) (option_list value ++ w_vals w))
      end
  | Advance m => st ← prefetch_cache_advance_watermark (w_st w) m; Some (World (w_reqs w) st (w_out w) (w_vals w))
  end.

Definition move_good (m : cache_move V) : Prop := match m with EndFetch _ value _ => forall v, value = Some v -> good v | Advance _ => True end.

(** It is the modelled request. *)
Lemma shared_request_result mem how w hash key owner gate w' r :
  shared_request mem how w hash key owner gate = Some (w', r) ->
  prefetch_cache_request_result key_eq (fresh_memory (w_st w) mem) how (w_st w) hash key owner gate = Some (w_st w', r).
Proof.
  unfold shared_request, prefetch_cache_request_result. intros Hr. case_match; [done|].
  destruct (request_locked _ _ _ _ _ _ _) as [[st [a|p t h]]|]; cbn [mbind option_bind] in *; simplify_eq; [done|].
  destruct (launch st p t how) as [st'|]; cbn [mbind option_bind] in *; by simplify_eq.
Qed.

Inductive shared_step (o : option ptr) : world -> world -> Prop :=
| SharedMove m w w' : move_good m -> shared_move m w = Some w' -> shared_step o w w'
| SharedRequest mem how w hash key owner w' r :
    shared_request mem how w hash key owner o = Some (w', r) -> shared_step o w w'.

(** ** What a handle stands for *)

Definition holds w (k : K) (o : Z) (h : prefetch_handle) : Prop :=
  exists p s, heap (w_st w) !! p = Some s /\ h = make_handle (active_idx s) (generation s) /\ key_eq (s_key s) k = true /\ o <= max_owner_id s.
Definition view w (h : prefetch_handle) : prefetch_state * option V * Z :=
  default (PREFETCH_STATE_PENDING, None, 0) (prefetch_cache_query (w_st w) h).
Definition mark w : Z := watermark (pc (w_st w)).

(** What a handle keeps while its sample is not passed. *)
Record keeps w w' : Prop := {
  kp_mark : mark w <= mark w';
  kp_holds : forall k o h, mark w' <= o -> holds w k o h -> holds w' k o h /\
    (fst (fst (view w h)) <> PREFETCH_STATE_PENDING -> view w' h = view w h) }.

#[export] Instance keeps_preorder : PreOrder keeps.
Proof.
  split; [intros w; split; [lia|done]|]. intros w1 w2 w3 [M1 H1] [M2 H2]. split; [lia|]. intros k o h Hm Hh.
  destruct (H1 k o h ltac:(lia) Hh) as [Hh2 V2]. destruct (H2 k o h Hm Hh2) as [Hh3 V3]. split; [done|].
  intros Hp. specialize (V2 Hp). rewrite <-V2. apply V3. by rewrite V2.
Qed.

(** ** The invariant, with the waiters at each gate *)

Context `{!KeyEquiv key_eq}.

Definition shared_ok w (f : ptr -> Z) : Prop :=
  exists (OW : OtherWaiters) L ca, winv key_eq w L ca /\ Forall good (w_vals w) /\ forall g, f g = waiting L g.

Lemma shared_ok_range w f g : shared_ok w f -> 0 <= f g <= 2 ^ 61.
Proof.
  intros (OW & L & ca & (HV & _) & _ & ->). pose proof (v_core _ _ _ _ _ HV) as HC. pose proof (k_reqs _ _ _ HC).
  pose proof (pcore_len _ _ _ HC). pose proof (k_cap _ _ _ HC).
  pose proof (waiting_bound _ _ _ g (k_entry _ _ _ HC) ltac:(lia) ltac:(lia)). lia.
Qed.

(** The gates may change under a cache as long as they count its waiters. *)
Lemma winv_gates {OW1 OW2 : OtherWaiters} w L ca G :
  winv (OW := OW1) key_eq w L ca -> gates_ok G (expected (OW := OW2) L) -> winv (OW := OW2) key_eq (with_world_gates w G) L ca.
Proof. intros (HV & Ht & Ha) HG. split; [|done]. destruct HV as [V1 V2 V3 V4 V5 V6]. split; try done. destruct V4. by split. Qed.

(** An entry behind a handle. *)
Lemma holds_entry {OW : OtherWaiters} w L ca k o h :
  winv key_eq w L ca -> holds w k o h -> exists e, e ∈ L /\ h = handle_of e /\ key_eq (s_key (snd e)) k = true /\ o <= max_owner_id (snd e).
Proof.
  intros (HV & _) (p & s & Hp & -> & Hk & Ho). assert (p ∈ eptr <$> L) as (e & -> & He)%list_elem_of_fmap by (by apply (v_dom _ _ _ _ _ HV)).
  destruct (pinv_entry _ _ _ _ _ e HV He) as (_ & Hh & _). rewrite Hp in Hh. injection Hh as ->. by exists e.
Qed.
Lemma entry_holds {OW : OtherWaiters} w L ca e k o :
  winv key_eq w L ca -> e ∈ L -> key_eq (s_key (snd e)) k = true -> o <= max_owner_id (snd e) -> holds w k o (handle_of e).
Proof. intros (HV & _) He Hk Ho. destruct (pinv_entry _ _ _ _ _ e HV He) as (_ & Hh & _). by exists (eptr e), (snd e). Qed.

Lemma entry_view {OW : OtherWaiters} w L ca e : winv key_eq w L ca -> e ∈ L -> view w (handle_of e) = reading e.
Proof. intros (HV & _) He. unfold view. by destruct (query_entry key_eq _ _ _ _ _ HV He) as [-> _]. Qed.

Lemma evolves_keeps {OW1 OW2 : OtherWaiters} w w' L ca L' ca' :
  winv (OW := OW1) key_eq w L ca -> winv (OW := OW2) key_eq w' L' ca' -> evolves L L' -> mark w <= mark w' -> keeps w w'.
Proof.
  intros Hw Hw' Hev Hm. split; [done|]. intros k o h Ho Hh. destruct (holds_entry _ _ _ _ _ _ Hw Hh) as (e & He & -> & Hk & Hmax).
  pose proof (v_owned _ _ _ _ _ (proj1 Hw)) as Hown. rewrite Forall_forall in Hown. unfold mark in *.
  destruct (Hev e He) as (e' & He' & Hl); [apply Hown; [done|lia]|]. rewrite <-(l_handle _ _ Hl) at 1 3. split.
  - apply (entry_holds w' L' ca' e'); try done; [by rewrite (proj1 (l_key _ _ Hl))|pose proof (l_owner _ _ Hl); lia].
  - rewrite (entry_view w L ca e Hw He), (entry_view w' L' ca' e' Hw' He'). intros Hp.
    destruct (l_state _ _ Hl) as (E1 & E2 & E3); [intros Hq; apply Hp; unfold reading; by rewrite Hq|]. unfold reading. by rewrite E1, E2, E3.
Qed.

(** What one step does, as the other caches and the clients see it. [top] bounds the
    watermark. *)
Record effect {OW : OtherWaiters} (o : option ptr) (top : Z) w w' L : Prop := {
  ef_inv : exists L' ca', winv key_eq w' L' ca' /\ forall g, waiting L' g <= waiting L g + occurs g (option_list o);
  ef_keeps : keeps w w';
  ef_mark : mark w' <= Z.max (mark w) top;
  ef_dom : dom (gates (w_st w')) = dom (gates (w_st w)) }.

Lemma effect_by {OW : OtherWaiters} o top w w' L ca L' ca' :
  winv key_eq w L ca -> winv key_eq w' L' ca' -> evolves L L' -> mark w <= mark w' <= Z.max (mark w) top -> dom (gates (w_st w')) = dom (gates (w_st w)) ->
  (forall g, waiting L' g <= waiting L g + occurs g (option_list o)) -> effect o top w w' L.
Proof. intros Hw Hw' Hev [Hm Hm'] Hd Hwt. split; [by exists L', ca'|by eapply evolves_keeps|done|done]. Qed.

(** A fetch that ends takes nothing away from its waiting entry. *)
Lemma end_fetch {OW : OtherWaiters} o top w L ca i p t value err :
  winv key_eq w L ca -> w_out w !! i = Some (p, t) ->
  exists st', prefetch_cache_complete (w_st w) t value err = Some st' /\
    let w' := World (w_reqs w) st' (delete i (w_out w)) (option_list value ++ w_vals w) in
    effect o top w w' L /\ forall e k owner, e ∈ L -> is_pending e -> key_eq (s_key (snd e)) k = true -> owner <= max_owner_id (snd e) ->
      holds w' k owner (handle_of e).
Proof.
  intros Hw Hi. pose proof Hw as Hw0. destruct (token_entry key_eq w L ca p t Hw) as (e & He & Hp & -> & ->); [by eapply list_elem_of_lookup_2|].
  destruct Hw as (HV & Ht & Ha).
  destruct (complete_spec key_eq _ _ L ca e value err HV He Hp) as (st' & e' & L' & Hc & _ & HV' & Hev & Htk & Hacc & Hwm & Hdom & _ & _ & _ & Hwt & _).
  exists st'. split; [done|]. intros w'. assert (Hw' : winv key_eq w' L' ca).
  { split; [done|]. split; cbn; [|by rewrite Hacc, Ha]. rewrite Htk in Ht. rewrite (delete_Permutation _ _ _ Hi) in Ht. by apply Permutation_cons_inv in Ht. }
  split; [|intros x k owner Hx Hxp Hk Ho].
  2:{ destruct (Hev x Hx) as (x' & Hx' & Hl); [apply (e_pending _ _ _ (proj2 (proj2 (pinv_entry _ _ _ _ _ x HV Hx)))); done|].
      rewrite <-(l_handle _ _ Hl). apply (entry_holds _ _ _ _ _ _ Hw' Hx'); [by rewrite (proj1 (l_key _ _ Hl))|pose proof (l_owner _ _ Hl); lia]. }
  apply (effect_by o top w w' L ca L' ca); try done.
  - unfold mark; cbn; lia.
  - intros g. rewrite Hwt. pose proof (occurs_range g (waiters (snd e))). pose proof (occurs_range g (option_list o)). lia.
Qed.

Lemma fresh_memory_ok st mem p : slot_mem (fresh_memory st mem) = Some p -> heap st !! p = None.
Proof. cbn. destruct (slot_mem mem) as [q|]; cbn; [|done]. destruct (heap st !! q) eqn:E; [done|]. by intros [= <-]. Qed.

(** Only an advance moves the watermark. *)
Definition move_top (top : Z) (m : cache_move V) : Prop := match m with Advance x => x <= top | _ => True end.

Lemma move_effect {OW : OtherWaiters} o top w L ca m w' :
  winv key_eq w L ca -> move_top top m -> shared_move m w = Some w' -> effect o top w w' L.
Proof.
  intros Hw Ht Hm. assert (Hself : effect o top w w L).
  { split; [|done|lia|done]. exists L, ca. split; [done|]. intros g. pose proof (occurs_range g (option_list o)). lia. }
  destruct m as [i value err|m]; cbn [shared_move] in Hm.
  - destruct (w_out w !! i) as [[p t]|] eqn:Hi; [|by simplify_eq]. destruct (end_fetch o top w L ca i p t value err Hw Hi) as (st' & Hc & He & _).
    rewrite Hc in Hm. by simplify_eq/=.
  - cbn in Ht. pose proof Hw as (HV & Htok & Ha). destruct (advance_spec key_eq _ _ _ _ m HV) as (st' & L' & ca' & Hs & HV' & Hev & Htk & Hacc & Hwm & Hg & Hwt).
    rewrite Hs in Hm. simplify_eq/=. eapply (effect_by o top w _ L ca L' ca'); try done; [|unfold mark; cbn; lia|cbn; by rewrite Hg|].
    { split; [done|]. cbn. by rewrite Htk, Hacc. }
    intros g.
    pose proof (occurs_range g (option_list o)). rewrite Hwt. lia.
Qed.

Lemma request_effect {OW : OtherWaiters} top w L ca mem how hash key owner o w' r :
  winv key_eq w L ca -> (forall g, o = Some g -> is_Some (gates (w_st w) !! g)) -> shared_request mem how w hash key owner o = Some (w', r) ->
  effect o top w w' L /\ w_vals w' = w_vals w /\ (r_status r = DAMACY_OK -> holds w' key owner (r_handle r)).
Proof.
  intros Hw Hg Hr. unfold shared_request in Hr. destruct (Z.ltb_spec (w_reqs w + 1) (2 ^ 31)) as [Hn|]; [|done]. cbn [negb] in Hr. pose proof Hw as (HV & Ht & Ha).
  destruct (request_locked_spec key_eq _ (fresh_memory (w_st w) mem) (w_st w) L ca hash key owner o HV Hn Hg (fresh_memory_ok _ _))
    as (st1 & out & L1 & ca1 & Hs & HV1 & Hev & Hans & Hacc & Hwm & Hdom & Hwt). rewrite Hs in Hr. cbn [mbind option_bind] in Hr.
  destruct out as [a|p t h]; cbn in Hans.
  - simplify_eq. destruct Hans as (Htk & Hok & _). assert (Hw1 : winv key_eq (World (w_reqs w + 1) st1 (w_out w) (w_vals w)) L1 ca1).
    { split; [done|]. cbn. by rewrite Htk, Hacc. }
    split; [|split; [done|]]; [eapply (effect_by _ _ _ _ L ca L1 ca1); try done; unfold mark; cbn; lia|].
    intros E. destruct (Hok E) as (e & He & -> & _ & Hk & Ho & _). by apply (entry_holds _ _ _ _ _ _ Hw1).
  - destruct Hans as (e & He & -> & -> & -> & Hp & Htk & _ & Hk & Ho & _).
    assert (Hw1 : winv key_eq (World (w_reqs w + 1) st1 ((eptr e, token_of e) :: w_out w) (w_vals w)) L1 ca1).
    { split; [done|]. cbn. by rewrite Htk, Ht, Hacc. }
    assert (Hh : holds (World (w_reqs w + 1) st1 ((eptr e, token_of e) :: w_out w) (w_vals w)) key owner (handle_of e)).
    { apply (entry_holds _ _ _ _ _ _ Hw1); [done| |done]. rewrite Hk. apply ke_refl. }
    assert (Heff : effect o top w (World (w_reqs w + 1) st1 ((eptr e, token_of e) :: w_out w) (w_vals w)) L).
    { eapply (effect_by _ _ _ _ L ca L1 ca1); try done. unfold mark. cbn. lia. }
    rewrite (launch_spec key_eq _ _ _ _ _ how HV1 He Hp) in Hr. destruct (launch_error how) as [err|] eqn:Eh; cbn [mbind option_bind] in Hr.
    + destruct (end_fetch None top _ L1 ca1 0 _ _ None err Hw1 eq_refl) as (st2 & Hc & [(L2 & ca2 & Hw2 & Hwt2) Hk2 Hm2 Hd2] & Hhold). cbn in Hc, Hd2.
      rewrite Hc in Hr. cbn in Hr. simplify_eq. split; [|split; [done|]].
      * split; [|by etrans; [apply Heff|]|pose proof (ef_mark _ _ _ _ _ Heff); unfold mark in *; cbn in *; lia|cbn; by rewrite Hd2, <-(ef_dom _ _ _ _ _ Heff)]. exists L2, ca2. split; [done|]. intros g. specialize (Hwt g). specialize (Hwt2 g).
        change (occurs g (option_list None)) with 0 in Hwt2. lia.
      * intros _. apply Hhold; try done. apply ke_refl.
    + by simplify_eq.
Qed.

(** One step of a cache that shares its gates: [other] counts the waiters of the
    rest. *)
Section step.
Context (w : @world K V) (f other : ptr -> Z) (G : gmap ptr Z).
Context (Hok : shared_ok w f) (Hother : forall g, 0 <= other g <= 2 ^ 62) (HG : gates_ok G (fun g => f g + other g)).

Definition stepped (o : option ptr) (top : Z) (w' : @world K V) : Prop :=
  exists f', shared_ok w' f' /\ gates_ok (gates (w_st w')) (fun g => f' g + other g) /\ dom (gates (w_st w')) = dom G /\
    keeps w w' /\ mark w' <= Z.max (mark w) top /\ forall g, f' g <= f g + occurs g (option_list o).

Lemma shared_inv : exists L ca, winv (OW := {| others := other; others_range := Hother |}) key_eq (with_world_gates w G) L ca /\
  Forall good (w_vals w) /\ forall g, f g = waiting L g.
Proof.
  destruct Hok as (OW & L & ca & Hw & Hv & Hf). exists L, ca. split; [|done]. eapply winv_gates; [exact Hw|].
  eapply gates_ok_ext; [exact HG|]. intros g. unfold expected. cbn. by rewrite Hf.
Qed.

Lemma effect_stepped o top w' L :
  (forall g, f g = waiting L g) -> effect (OW := {| others := other; others_range := Hother |}) o top (with_world_gates w G) w' L ->
  Forall good (w_vals w') -> stepped o top w'.
Proof.
  intros Hf [(L' & ca' & Hw' & Hwt) Hk Hm Hd] Hv. exists (waiting L'). split; [by eexists _, L', ca'|]. split_and!.
  - exact (k_gates _ _ _ (v_core _ _ _ _ _ (proj1 Hw'))).
  - exact Hd.
  - destruct Hk as [K1 K2]. split; [exact K1|exact K2].
  - exact Hm.
  - intros g. rewrite Hf. apply Hwt.
Qed.

Lemma move_stepped o top m w' : move_good m -> move_top top m -> shared_move m (with_world_gates w G) = Some w' -> stepped o top w'.
Proof.
  intros Hm Ht Hr. destruct shared_inv as (L & ca & Hw & Hv & Hf). apply (effect_stepped o top w' L Hf); [by eapply move_effect|].
  destruct m as [i value err|m]; cbn in Hr, Hm.
  - destruct (w_out w !! i) as [[p t]|]; [|by simplify_eq]. destruct (prefetch_cache_complete _ t value err); cbn in Hr; [|done]. simplify_eq/=.
    apply Forall_app. split; [|done]. destruct value as [v|]; [|done]. apply Forall_singleton. by apply Hm.
  - destruct (prefetch_cache_advance_watermark _ m); cbn in Hr; by simplify_eq/=.
Qed.

Lemma request_stepped top mem how hash key owner o w' r :
  (forall g, o = Some g -> is_Some (G !! g)) -> shared_request mem how (with_world_gates w G) hash key owner o = Some (w', r) ->
  stepped o top w' /\ (r_status r = DAMACY_OK -> holds w' key owner (r_handle r)).
Proof.
  intros Hg Hr. destruct shared_inv as (L & ca & Hw & Hv & Hf).
  destruct (request_effect (OW := {| others := other; others_range := Hother |}) top _ L ca mem how hash key owner o w' r Hw Hg Hr) as (He & Hvals & Hh).
  split; [|done]. apply (effect_stepped o top w' L Hf He). by rewrite Hvals.
Qed.
End step.

(** A value read came from a fetch. *)
Lemma view_good w f h v : shared_ok w f -> snd (fst (view w h)) = Some v -> good v.
Proof.
  intros (OW & L & ca & (HV & _ & Ha) & Hgood & _). unfold view, prefetch_cache_query.
  destruct (resolve_handle (w_st w) h) as [[p|]|]; cbn [mbind option_bind]; [|done|done].
  destruct (heap (w_st w) !! p) as [s|] eqn:Hp; cbn; [|done]. case_bool_decide; [|done]. intros Hv.
  assert (p ∈ eptr <$> L) as (e & -> & He)%list_elem_of_fmap by (by apply (v_dom _ _ _ _ _ HV)).
  destruct (pinv_entry _ _ _ _ _ e HV He) as (_ & Hh & _). rewrite Hp in Hh. injection Hh as ->.
  rewrite Forall_forall in Hgood. apply Hgood. rewrite <-Ha. apply elem_of_app. right. apply list_elem_of_bind. exists e. split; [|done].
  rewrite Hv. left.
Qed.
End shared.
