(* ===== verification/MetaWorld.v ===== *)
(** * The two caches of the planner

    [zarr_start] of [src/src/pipeline/zarr_planner.c] gives the prefetcher a cache of
    array metadata and one of shard indices, whose requests wait at the same gates,
    and no cache of layouts. This is the world the prefetcher runs in, as an instance
    of [MetaCaches], and it keeps the promises of [PrefetcherLaws.v].

    [mw_choices] decides, for each call the prefetcher makes, what other threads did
    to the caches before it took effect, what [malloc] returned and how the fetch
    started. *)

From stdpp Require Import strings gmap.
From S2P Require Import Prelude Selection Plan PlanMain DispatchTypes PrefetchCache PrefetchGates PrefetchProof PrefetchSteps PrefetchRequest PrefetchUnpin PrefetchClaims SharedCache Prefetcher PrefetcherOps PrefetcherLaws PrefetcherReady.

#[local] Open Scope Z_scope.

(** A fetch that is outstanding at place [i] of a cache ends, or the watermark the
    consumer announced reaches a cache. *)
Inductive meta_move :=
| EndArray (i : nat) (value : option zarr_metadata) (err : Z) | EndShard (i : nat) (value : option shard_index_value) (err : Z)
| AdvanceArrays | AdvanceShards.
Record choice := Choice { ch_before : list meta_move; ch_mem : request_memory; ch_how : launch_result }.

(** [mw_target] is the watermark of the last [prefetcher_advance_watermark]. *)
Record meta_world := MetaWorld {
  mw_gates : gmap ptr Z; mw_arrays : @world string zarr_metadata; mw_shards : @world shard_index_key shard_index_value;
  mw_target : Z; mw_choices : nat -> choice; mw_time : nat }.
Implicit Types w : meta_world.

Definition tick w : meta_world := MetaWorld (mw_gates w) (mw_arrays w) (mw_shards w) (mw_target w) (mw_choices w) (S (mw_time w)).
Definition announce w (m : Z) : meta_world := MetaWorld (mw_gates w) (mw_arrays w) (mw_shards w) m (mw_choices w) (mw_time w).
Definition set_gates w (G : gmap ptr Z) : meta_world := MetaWorld G (mw_arrays w) (mw_shards w) (mw_target w) (mw_choices w) (mw_time w).
Definition put_arrays w a : meta_world := MetaWorld (gates (w_st a)) a (mw_shards w) (mw_target w) (mw_choices w) (mw_time w).
Definition put_shards w s : meta_world := MetaWorld (gates (w_st s)) (mw_arrays w) s (mw_target w) (mw_choices w) (mw_time w).
Definition arrays_now w : @world string zarr_metadata := with_world_gates (mw_arrays w) (mw_gates w).
Definition shards_now w : @world shard_index_key shard_index_value := with_world_gates (mw_shards w) (mw_gates w).

Definition run_move (m : meta_move) w : option meta_world :=
  match m with
  | EndArray i value err => put_arrays w <$> shared_move (EndFetch i value err) (arrays_now w)
  | EndShard i value err => put_shards w <$> shared_move (EndFetch i value err) (shards_now w)
  | AdvanceArrays => put_arrays w <$> shared_move (Advance (mw_target w)) (arrays_now w)
  | AdvanceShards => put_shards w <$> shared_move (Advance (mw_target w)) (shards_now w)
  end.
Fixpoint run_moves (l : list meta_move) w : option meta_world :=
  match l with [] => Some w | m :: l => w ← run_move m w; run_moves l w end.

(** The moment of the next call. *)
Definition next_choice w : choice := mw_choices w (mw_time w).
Definition before w : option meta_world := run_moves (ch_before (next_choice w)) (tick w).

Definition meta_arrays : cache_ops meta_world string zarr_metadata := {|
  co_request w hash key owner gate :=
    w' ← before w;
    r ← shared_request array_meta_key_eq (ch_mem (next_choice w)) (ch_how (next_choice w)) (arrays_now w') hash key owner gate;
    Some (put_arrays w' (fst r), snd r);
  co_query w h := w' ← before w; a ← prefetch_cache_query (w_st (mw_arrays w')) h; Some (w', a) |}.
Definition meta_shards : cache_ops meta_world shard_index_key shard_index_value := {|
  co_request w hash key owner gate :=
    w' ← before w;
    r ← shared_request shard_index_eq (ch_mem (next_choice w)) (ch_how (next_choice w)) (shards_now w') hash key owner gate;
    Some (put_shards w' (fst r), snd r);
  co_query w h := w' ← before w; a ← prefetch_cache_query (w_st (mw_shards w')) h; Some (w', a) |}.

(** The operations on gates look at the gates only. *)
Definition gate_state w : pst string zarr_metadata := w_st (arrays_now w).
#[export] Instance meta_caches : MetaCaches meta_world := {|
  array_meta_cache := meta_arrays; shard_index_cache := meta_shards; chunk_layout_cache := None;
  gate_init w g := set_gates w (gates (prefetch_gate_init (gate_state w) (Some g)));
  gate_set_error w g := (fun st => set_gates w (gates st)) <$> prefetch_gate_set_error (gate_state w) (Some g);
  gate_pending w g := prefetch_gate_pending (gate_state w) (Some g) |}.

(** ** Steps *)

Definition meta_move_good (m : meta_move) : Prop :=
  match m with
  | EndArray _ value _ => forall v, value = Some v -> meta_wf v
  | EndShard _ value _ => forall v, value = Some v -> index_wf v
  | _ => True
  end.

(** Nothing waits for the gate. *)
Definition gate_free w (g : ptr) : Prop := forall v, mw_gates w !! g = Some v -> Z.land v GATE_PENDING_MASK = 0.
Definition gate_alive w (o : option ptr) : Prop := forall g, o = Some g -> is_Some (mw_gates w !! g).

Inductive mstep (o : option ptr) : meta_world -> meta_world -> Prop :=
| MsTick w : mstep o w (tick w)
| MsMove m w w' : meta_move_good m -> run_move m w = Some w' -> mstep o w w'
| MsArrays mem how w hash key owner a r :
    gate_alive w o -> shared_request array_meta_key_eq mem how (arrays_now w) hash key owner o = Some (a, r) -> mstep o w (put_arrays w a)
| MsShards mem how w hash key owner s r :
    gate_alive w o -> shared_request shard_index_eq mem how (shards_now w) hash key owner o = Some (s, r) -> mstep o w (put_shards w s)
| MsAnnounce w m : mw_target w <= m -> mstep o w (announce w m)
| MsInit w g : gate_free w g -> mstep o w (gate_init w g)
| MsError w g w' : gate_set_error w g = Some w' -> mstep o w w'.
Definition mstep_for (o : option ptr) w w' : Prop := mstep None w w' \/ mstep o w w'.

(** ** The invariant *)

Definition counted w (f g : ptr -> Z) : Prop :=
  shared_ok array_meta_key_eq meta_wf (mw_arrays w) f /\ shared_ok shard_index_eq index_wf (mw_shards w) g /\
  gates_ok (mw_gates w) (fun x => f x + g x).
Definition meta_mark w : Z := Z.max (mark (mw_arrays w)) (mark (mw_shards w)).
Definition meta_ok w : Prop :=
  (forall t, Forall meta_move_good (ch_before (mw_choices w t))) /\ meta_mark w <= mw_target w /\ exists f g, counted w f g.

Lemma gate_free_iff w c g : gates_ok (mw_gates w) c -> gate_free w g <-> c g = 0.
Proof.
  intros [H1 H2 H3]. specialize (H3 g). split.
  - intros Hf. destruct (decide (c g = 0)) as [|Hn]; [done|]. destruct (H2 g Hn) as [v Hv]. destruct (H1 g v Hv) as [b ->].
    apply Hf in Hv. rewrite gate_val_mask in Hv by lia. lia.
  - intros H0 v Hv. destruct (H1 g v Hv) as [b ->]. rewrite gate_val_mask; lia.
Qed.

(** What a step leaves to the others. *)
Record after (o : option ptr) w w' : Prop := {
  af_dom : dom (mw_gates w) ⊆ dom (mw_gates w');
  af_free : forall g, o <> Some g -> gate_free w g -> gate_free w' g;
  af_arrays : keeps array_meta_key_eq (mw_arrays w) (mw_arrays w');
  af_shards : keeps shard_index_eq (mw_shards w) (mw_shards w');
  af_mark : meta_mark w' <= Z.max (meta_mark w) (mw_target w');
  af_target : mw_target w <= mw_target w';
  af_choices : mw_choices w' = mw_choices w }.

#[export] Instance after_preorder o : PreOrder (after o).
Proof.
  split; [intros w; split; try done; lia|]. intros w1 w2 w3 [A1 A2 A3 A4 A5 A6 A7] [B1 B2 B3 B4 B5 B6 B7].
  split; [set_solver|by eauto|by etrans|by etrans|lia|lia|congruence].
Qed.

Lemma free_le w w' c c' o g :
  gates_ok (mw_gates w) c -> gates_ok (mw_gates w') c' -> (forall x, 0 <= c' x) -> (forall x, c' x <= c x + occurs x (option_list o)) ->
  o <> Some g -> gate_free w g -> gate_free w' g.
Proof.
  intros H H' H0 Hle Ho Hf. apply (gate_free_iff w c g H) in Hf. apply (gate_free_iff w' c' g H'). specialize (H0 g). specialize (Hle g).
  assert (occurs g (option_list o) = 0); [|lia]. destruct o as [x|]; [|done]. change (option_list (Some x)) with [x]. rewrite occurs_cons, decide_False by congruence. done.
Qed.

Lemma arrays_stepped o w a f g :
  counted w f g -> stepped array_meta_key_eq meta_wf (mw_arrays w) f g (mw_gates w) o (mw_target w) a ->
  (exists f', counted (put_arrays w a) f' g) /\ after o w (put_arrays w a).
Proof.
  intros (H1 & H2 & HG) (f' & Ha & HG' & Hd & Hk & Hm & Hle). split; [by exists f'|]. split; cbn; try done; [by rewrite Hd| |unfold meta_mark; cbn; lia].
  intros x Hx Hfree. eapply (free_le w _ (fun x => f x + g x) (fun x => f' x + g x)); try done; intros y; cbn.
  - pose proof (shared_ok_range _ _ _ _ y Ha). pose proof (shared_ok_range _ _ _ _ y H2). lia.
  - specialize (Hle y). lia.
Qed.
Lemma shards_stepped o w s f g :
  counted w f g -> stepped shard_index_eq index_wf (mw_shards w) g f (mw_gates w) o (mw_target w) s ->
  (exists g', counted (put_shards w s) f g') /\ after o w (put_shards w s).
Proof.
  intros (H1 & H2 & HG) (g' & Ha & HG' & Hd & Hk & Hm & Hle).
  assert (HG2 : gates_ok (gates (w_st s)) (fun x => f x + g' x)) by (eapply gates_ok_ext; [exact HG'|]; intros x; cbn; lia).
  split; [by exists g'|]. split; cbn; try done; [by rewrite Hd| |unfold meta_mark; cbn; lia].
  intros x Hx Hfree. eapply (free_le w _ (fun x => f x + g x) (fun x => f x + g' x)); try done; intros y; cbn.
  - pose proof (shared_ok_range _ _ _ _ y Ha). pose proof (shared_ok_range _ _ _ _ y H1). lia.
  - specialize (Hle y). lia.
Qed.

Section step.
Context w f g (Hc : counted w f g).

Lemma arrays_room x : 0 <= g x <= 2 ^ 62.
Proof. pose proof (shared_ok_range _ _ _ _ x (proj1 (proj2 Hc))). lia. Qed.
Lemma shards_room x : 0 <= f x <= 2 ^ 62.
Proof. pose proof (shared_ok_range _ _ _ _ x (proj1 Hc)). lia. Qed.
Lemma shards_gates : gates_ok (mw_gates w) (fun x => g x + f x).
Proof. eapply gates_ok_ext; [apply Hc|]. intros x. cbn. lia. Qed.

Lemma array_request_step mem how hash key owner o a r :
  gate_alive w o -> shared_request array_meta_key_eq mem how (arrays_now w) hash key owner o = Some (a, r) ->
  ((exists f', counted (put_arrays w a) f' g) /\ after o w (put_arrays w a)) /\
  (r_status r = DAMACY_OK -> holds array_meta_key_eq a key owner (r_handle r)).
Proof.
  intros Hg Hr. destruct Hc as (H1 & H2 & HG).
  destruct (request_stepped array_meta_key_eq meta_wf _ f g (mw_gates w) H1 arrays_room HG (mw_target w) mem how hash key owner o a r Hg Hr) as [Hs Hh].
  split; [|done]. by apply (arrays_stepped _ _ _ f g).
Qed.
Lemma shard_request_step mem how hash key owner o s r :
  gate_alive w o -> shared_request shard_index_eq mem how (shards_now w) hash key owner o = Some (s, r) ->
  ((exists g', counted (put_shards w s) f g') /\ after o w (put_shards w s)) /\
  (r_status r = DAMACY_OK -> holds shard_index_eq s key owner (r_handle r)).
Proof.
  intros Hg Hr. destruct Hc as (H1 & H2 & HG).
  destruct (request_stepped shard_index_eq index_wf _ g f (mw_gates w) H2 shards_room shards_gates (mw_target w) mem how hash key owner o s r Hg Hr) as [Hs Hh].
  split; [|done]. by apply (shards_stepped _ _ _ f g).
Qed.
End step.

Lemma gates_changed o w G f g :
  counted w f g -> gates_ok G (fun x => f x + g x) -> dom (mw_gates w) ⊆ dom G ->
  counted (set_gates w G) f g /\ after o w (set_gates w G).
Proof.
  intros (H1 & H2 & HG) HG' Hd. split; [done|]. split; try done; [|unfold meta_mark; cbn; lia]. intros x _ Hf. apply (gate_free_iff _ (fun x => f x + g x)) in Hf; [|done].
  by apply (gate_free_iff _ (fun x => f x + g x)).
Qed.

(** Every step keeps the invariant. *)
Lemma mstep_ok o w w' : meta_ok w -> mstep o w w' -> meta_ok w' /\ after o w w'.
Proof.
  intros (Hch & Hmk & f & g & Hc) Hs. assert (Hfin : forall w', (exists f' g', counted w' f' g') -> after o w w' -> meta_ok w' /\ after o w w').
  { intros x Hx Ha. split; [|done]. split; [by rewrite (af_choices _ _ _ Ha)|]. split; [|done]. pose proof (af_mark _ _ _ Ha). pose proof (af_target _ _ _ Ha). lia. }
  destruct Hs as [w|m w w' Hm Hr|mem how w hash key owner a r Hg Hr|mem how w hash key owner s r Hg Hr|w m Hm|w x Hx|w x w' Hx].
  - apply Hfin; [by exists f, g|split; try done; unfold meta_mark; cbn; lia].
  - assert (HA : forall c a, move_good meta_wf c -> move_top (mw_target w) c -> shared_move c (arrays_now w) = Some a -> meta_ok (put_arrays w a) /\ after o w (put_arrays w a)).
    { intros c a Hgood Htop Hr'. pose proof Hc as (H1 & H2 & HG). destruct (arrays_stepped o w a f g Hc) as [[f' ?] Ha]; [|by apply Hfin; [exists f', g|]].
      by apply (move_stepped _ _ _ _ _ _ H1 (arrays_room w f g Hc) HG o _ c). }
    assert (HS : forall c a, move_good index_wf c -> move_top (mw_target w) c -> shared_move c (shards_now w) = Some a -> meta_ok (put_shards w a) /\ after o w (put_shards w a)).
    { intros c a Hgood Htop Hr'. pose proof Hc as (H1 & H2 & HG). destruct (shards_stepped o w a f g Hc) as [[g' ?] Ha]; [|by apply Hfin; [exists f, g'|]].
      by apply (move_stepped _ _ _ _ _ _ H2 (shards_room w f g Hc) (shards_gates w f g Hc) o _ c). }
    destruct m; cbn [run_move meta_move_good] in Hm, Hr; apply fmap_Some in Hr as (a & Hr & ->).
    + by apply HA in Hr.
    + by apply HS in Hr.
    + by apply HA in Hr; [|done|cbn].
    + by apply HS in Hr; [|done|cbn].
  - destruct (array_request_step w f g Hc mem how hash key owner o a r Hg Hr) as [[[f' ?] Ha] _]. apply Hfin; [by exists f', g|done].
  - destruct (shard_request_step w f g Hc mem how hash key owner o s r Hg Hr) as [[[g' ?] Ha] _]. apply Hfin; [by exists f, g'|done].
  - apply Hfin; [by exists f, g|split; try done; unfold meta_mark; cbn; lia].
  - pose proof Hc as (_ & _ & HG). pose proof (proj1 (gate_free_iff _ _ x HG) Hx) as H0. destruct HG as [G1 G2 G3].
    destruct (gates_changed o w (<[x := 0]> (mw_gates w)) f g Hc) as [Hc' Ha]; [|rewrite dom_insert; set_solver|apply Hfin; [by exists f, g|exact Ha]]. split; [| |done].
    + intros y v. destruct (decide (x = y)) as [<-|Hne]; [|rewrite lookup_insert_ne by done; apply G1].
      rewrite lookup_insert_eq. intros [= <-]. exists false. by rewrite H0.
    + intros y Hy. destruct (decide (x = y)) as [<-|Hne]; [done|]. rewrite lookup_insert_ne by done. by apply G2.
  - change ((fun st => set_gates w (gates st)) <$> prefetch_gate_set_error (gate_state w) (Some x) = Some w') in Hx.
    apply fmap_Some in Hx as (st & Hst & ->). pose proof Hc as (_ & _ & HG).
    destruct (gate_error_spec (gate_state w) (Some x) _ HG) as (G & Hst' & HG' & _ & Hd).
    { intros y [= <-]. unfold prefetch_gate_set_error, gate_update, gate_load in Hst. cbn in Hst |- *.
      by destruct (mw_gates w !! x). }
    rewrite Hst in Hst'. injection Hst' as ->. destruct (gates_changed o w G f g Hc HG') as [Hc' Ha]; [by rewrite Hd|].
    apply Hfin; [by exists f, g|done].
Qed.

Lemma after_weaken o w w' : after None w w' -> after o w w'.
Proof. intros [A1 A2 A3 A4 A5 A6 A7]. split; try done. intros g _. by apply A2. Qed.

Lemma msteps_ok o w w' : meta_ok w -> rtc (mstep_for o) w w' -> meta_ok w' /\ after o w w'.
Proof.
  intros Hw Hr. induction Hr as [w|w1 w2 w3 Hs _ IH]; [by split|].
  assert (meta_ok w2 /\ after o w1 w2) as [Hw2 Ha].
  { destruct Hs as [Hs|Hs]; [|by apply mstep_ok]. destruct (mstep_ok _ _ _ Hw Hs). split; [done|]. by apply after_weaken. }
  destruct (IH Hw2) as [Hw3 Ha3]. split; [done|by etrans].
Qed.

Lemma run_moves_steps o l w w' : Forall meta_move_good l -> run_moves l w = Some w' -> rtc (mstep_for o) w w'.
Proof.
  intros Hl. revert w. induction Hl as [|m l Hm _ IH]; intros w Hr; cbn in Hr; [by simplify_eq|].
  destruct (run_move m w) as [w1|] eqn:E; cbn in Hr; [|done]. eapply rtc_l; [|by apply IH]. left. by eapply MsMove.
Qed.
Lemma before_steps o w w' : meta_ok w -> before w = Some w' -> rtc (mstep_for o) w w'.
Proof. intros [Hch _] Hb. eapply rtc_l; [left; apply MsTick|]. by eapply run_moves_steps; [apply Hch|]. Qed.

(** ** The promises *)

#[export] Instance meta_laws : MetaLaws meta_world.
Proof.
  unshelve eapply Build_MetaLaws.
  - exact meta_ok.
  - exact (fun o => rtc (mstep_for o)).
  - exact meta_mark.
  - exact (fun w g => is_Some (mw_gates w !! g)).
  - exact gate_free.
  - intros w w' o Hw Hs. destruct (msteps_ok _ _ _ Hw Hs) as [Hw' [_ _ A3 A4 _ _ _]]. split; [done|].
    pose proof (kp_mark _ _ _ A3). pose proof (kp_mark _ _ _ A4). unfold meta_mark. lia.
  - intros w w' o g Hw Hs. destruct (msteps_ok _ _ _ Hw Hs) as [_ A]. pose proof (af_dom _ _ _ A). rewrite <-!elem_of_dom. set_solver.
  - intros w w' o g Hw Hs. destruct (msteps_ok _ _ _ Hw Hs) as [_ A]. apply (af_free _ _ _ A).
  - intros w g Hw Hi. split; [apply rtc_once; left; by apply MsInit|]. cbn. by rewrite lookup_insert_eq.
  - intros w g w' Hw He. apply rtc_once. left. by eapply MsError.
  - intros w g Hw Hp v Hv. cbn in Hp. unfold gate_load in Hp. cbn in Hp. rewrite Hv in Hp. cbn in Hp. congruence.
Defined.

#[export] Instance meta_array_laws : CacheLaws (W := meta_world) array_meta_cache meta_wf.
Proof.
  unshelve eapply Build_CacheLaws; [exact (fun w => holds array_meta_key_eq (mw_arrays w))|exact (fun w => view (mw_arrays w))|..].
  - intros w hash k o gate w' r Hw Hg Hr. cbn in Hr. destruct (before w) as [w1|] eqn:Hb; cbn [mbind option_bind] in Hr; [|done].
    destruct (shared_request _ _ _ (arrays_now w1) hash k o gate) as [[a r']|] eqn:Hq; cbn in Hr; [|done]. simplify_eq.
    pose proof (before_steps gate _ _ Hw Hb) as Hs. destruct (msteps_ok _ _ _ Hw Hs) as [(_ & _ & f & g & Hc) A].
    assert (Hal : gate_alive w1 gate).
    { intros x ->. specialize (Hg x eq_refl). cbn in Hg. rewrite <-!elem_of_dom in *. pose proof (af_dom _ _ _ A). set_solver. }
    destruct (array_request_step w1 f g Hc _ _ _ _ _ _ _ _ Hal Hq) as [_ Hh]. split; [|exact Hh].
    eapply rtc_r; [exact Hs|]. right. by eapply MsArrays.
  - intros w h w' a Hw Hq. cbn in Hq. destruct (before w) as [w1|] eqn:Hb; cbn [mbind option_bind] in Hq; [|done].
    destruct (prefetch_cache_query _ h) as [x|] eqn:E; cbn in Hq; [|done]. simplify_eq. split; [by apply before_steps|]. unfold view. by rewrite E.
  - intros w h v (_ & _ & f & g & H1 & _) Hv. by eapply view_good.
  - intros w w' g k o h Hw Hs Hm Hh. destruct (msteps_ok _ _ _ Hw Hs) as [_ A]. apply (kp_holds _ _ _ (af_arrays _ _ _ A) k o h); [|done].
    cbn in Hm. unfold meta_mark in Hm. lia.
Defined.

#[export] Instance meta_shard_laws : CacheLaws (W := meta_world) shard_index_cache index_wf.
Proof.
  unshelve eapply Build_CacheLaws; [exact (fun w => holds shard_index_eq (mw_shards w))|exact (fun w => view (mw_shards w))|..].
  - intros w hash k o gate w' r Hw Hg Hr. cbn in Hr. destruct (before w) as [w1|] eqn:Hb; cbn [mbind option_bind] in Hr; [|done].
    destruct (shared_request _ _ _ (shards_now w1) hash k o gate) as [[a r']|] eqn:Hq; cbn in Hr; [|done]. simplify_eq.
    pose proof (before_steps gate _ _ Hw Hb) as Hs. destruct (msteps_ok _ _ _ Hw Hs) as [(_ & _ & f & g & Hc) A].
    assert (Hal : gate_alive w1 gate).
    { intros x ->. specialize (Hg x eq_refl). cbn in Hg. rewrite <-!elem_of_dom in *. pose proof (af_dom _ _ _ A). set_solver. }
    destruct (shard_request_step w1 f g Hc _ _ _ _ _ _ _ _ Hal Hq) as [_ Hh]. split; [|exact Hh].
    eapply rtc_r; [exact Hs|]. right. by eapply MsShards.
  - intros w h w' a Hw Hq. cbn in Hq. destruct (before w) as [w1|] eqn:Hb; cbn [mbind option_bind] in Hq; [|done].
    destruct (prefetch_cache_query _ h) as [x|] eqn:E; cbn in Hq; [|done]. simplify_eq. split; [by apply before_steps|]. unfold view. by rewrite E.
  - intros w h v (_ & _ & f & g & _ & H2 & _) Hv. by eapply view_good.
  - intros w w' g k o h Hw Hs Hm Hh. destruct (msteps_ok _ _ _ Hw Hs) as [_ A]. apply (kp_holds _ _ _ (af_shards _ _ _ A) k o h); [|done].
    cbn in Hm. unfold meta_mark in Hm. lia.
Defined.

#[export] Instance meta_layouts : LayoutLaws meta_world.
Proof. by intros cl. Defined.
