(* ===== verification/ZarrPlanner.v ===== *)
(** * The planner of zarr batches

    [src/src/pipeline/zarr_planner.c] on the caches of [MetaWorld.v]: it starts the
    prefetcher, accepts samples, stages the samples that are ready and builds a plan
    when a batch is complete. The calls come from one thread; the worker of the
    prefetcher and the caches run between their parts. *)

From stdpp Require Import strings gmap.
From S2P Require Import Prelude Config Selection Plan PlanBuilder DispatchTypes Lookahead PrefetchCache PrefetchClaims SharedCache Prefetcher PrefetcherOps PrefetcherLaws PrefetcherClaims MetaWorld.

#[local] Open Scope Z_scope.

Record damacy_metadata_cache_config := MetaConfig { array_entries : Z; shard_entries : Z }.

(** [staged] is the length of [z_samples]; the prefetcher, the lookahead and the
    caches are apart, in a [run]. *)
Record zarr_planner := ZarrPlanner {
  z_metadata : damacy_metadata_cache_config; z_limits : damacy_plan_limits; z_output : damacy_batch_spec; z_lookahead_samples : Z;
  z_samples : list planner_sample; z_pushed : Z; z_planned : Z; z_watermark : Z }.

Definition staged (z : zarr_planner) : Z := zlen (z_samples z).

Definition with_staged (z : zarr_planner) (l : list planner_sample) (watermark : Z) : zarr_planner :=
  ZarrPlanner (z_metadata z) (z_limits z) (z_output z) (z_lookahead_samples z) l (z_pushed z) (z_planned z) watermark.
Definition with_pushed (z : zarr_planner) (n : Z) : zarr_planner :=
  ZarrPlanner (z_metadata z) (z_limits z) (z_output z) (z_lookahead_samples z) (z_samples z) n (z_planned z) (z_watermark z).
Definition with_planned (z : zarr_planner) (n : Z) : zarr_planner :=
  ZarrPlanner (z_metadata z) (z_limits z) (z_output z) (z_lookahead_samples z) [] (z_pushed z) n (z_watermark z).

(** ** Creation and start *)

(** Null pointers are [None]; [mem]: does the allocation succeed. *)
Definition damacy_chunk_planner_create (mem : bool) (metadata : option damacy_metadata_cache_config) (limits : option damacy_plan_limits)
    : damacy_status + zarr_planner :=
  match metadata, limits with
  | Some metadata, Some limits =>
      if (max_chunks limits =? 0) || (DAMACY_MAX_CHUNKS_PER_BATCH <? max_chunks limits) || (max_chunk_bytes limits =? 0) ||
         (max_shards_per_sample limits =? 0) || (max_plan_bytes limits =? 0)
      then inl DAMACY_INVAL
      else if negb mem then inl DAMACY_OOM
      else inr (ZarrPlanner metadata limits (BatchSpec 0 [] 0 0) 0 [] 0 0 0)
  | _, _ => inl DAMACY_INVAL
  end.

(** What the allocations and the thread return at the start. *)
Record start_memory := StartMemory {
  sm_reader : bool; sm_arrays : nat -> bool; sm_shards : nat -> bool; sm_lookahead : nat -> bool; sm_samples : bool;
  sm_prefetcher : nat -> bool; sm_thread : bool }.

(** The configuration of both caches: an asynchronous fetcher, 16 probes. *)
Definition zarr_cache_config (entries : Z) : prefetch_cache_config := PConfig entries 16 true None None (Some true).
Definition new_cache {K V} (c : prefetch_cache K) : @world K V := World 0 (PState c ∅ ∅ [] []) [] [].
Definition lookahead_zero : damacy_lookahead := Lookahead None 0 0 0 0 false false false.

(** The status, and on success the planner with what it started. *)
Definition zarr_start (mem : start_memory) (choices : nat -> choice) (z : zarr_planner) (output : damacy_batch_spec) (lookahead_samples : Z)
    : option (damacy_status * option (zarr_planner * run meta_world)) :=
  let limits := z_limits z in
  let floor := u64 (lookahead_samples + samples_per_batch output) in
  if (array_entries (z_metadata z) <? floor) || (shard_entries (z_metadata z) <? u64 (floor * max_shards_per_sample limits))
  then Some (DAMACY_INVAL, None)
  else
    let z := ZarrPlanner (z_metadata z) limits output lookahead_samples (z_samples z) 0 0 0 in
    let fail := Some (DAMACY_OOM, None) in
    if negb (sm_reader mem) then fail
    else
      arrays ← prefetch_cache_create (sm_arrays mem) (zarr_cache_config (array_entries (z_metadata z)));
      match arrays with
      | None => fail
      | Some arrays =>
          shards ← prefetch_cache_create (sm_shards mem) (zarr_cache_config (shard_entries (z_metadata z)));
          match shards with
          | None => fail
          | Some shards =>
              let '(rc, la) := lookahead_init (sm_lookahead mem) lookahead_zero lookahead_samples in
              if negb (rc =? 0) || negb (sm_samples mem) then fail
              else
                match prefetcher_create (sm_prefetcher mem)
                        (PfConfig lookahead_samples (u32 (lookahead_samples + 4)) (max_shards_per_sample limits) true true true) with
                | None => fail
                | Some p =>
                    let '(rc, p) := prefetcher_start (sm_thread mem) p in
                    if negb (rc =? 0) then fail
                    else Some (DAMACY_OK, Some (z, Run (PW p (MetaWorld ∅ (new_cache arrays) (new_cache shards) 0 choices 0)) la WTop [] []))
                end
          end
      end.

(** ** Pushing *)

(** One round of the loop. *)
Definition push_one (malloc : Z -> bool) (junk : damacy_aabb * list query_axis) (z : zarr_planner) (p : prefetcher) (la : damacy_lookahead)
    (s : damacy_sample) : option (damacy_status * zarr_planner * damacy_lookahead) :=
  if z_lookahead_samples z <=? prefetcher_unconsumed_count p (z_pushed z) then Some (DAMACY_AGAIN, z, la)
  else
    st ← query_validate (Some s) (Some (z_output z)) (max_plan_bytes (z_limits z));
    if negb (bool_decide (st = DAMACY_OK)) then Some (st, z, la)
    else
      r ← lookahead_push_with_sample_seq malloc junk la (Some s) (z_pushed z);
      let '(rc, la) := (r : Z * damacy_lookahead) in
      if negb (rc =? 0) then Some (DAMACY_OOM, z, la) else Some (DAMACY_OK, with_pushed z (u64 (z_pushed z + 1)), la).

(** The samples left and the status, when no other thread runs meanwhile. *)
Fixpoint zarr_push (malloc : Z -> bool) (junk : damacy_aabb * list query_axis) (z : zarr_planner) (p : prefetcher) (la : damacy_lookahead)
    (samples : list damacy_sample) : option (list damacy_sample * damacy_status * zarr_planner * damacy_lookahead) :=
  match samples with
  | [] => Some ([], DAMACY_OK, z, la)
  | s :: rest =>
      r ← push_one malloc junk z p la s;
      let '(st, z, la) := (r : damacy_status * zarr_planner * damacy_lookahead) in
      if bool_decide (st = DAMACY_OK) then zarr_push malloc junk z p la rest else Some (samples, st, z, la)
  end.

(** ** Planning *)

(** One round of the loop that stages samples: the status it returns, if it returns,
    the sample that was popped, and the prefetcher. *)
Definition stage_one (z : zarr_planner) (x : pf_world meta_world)
    : option (option damacy_status * option prefetcher_ready * zarr_planner * pf_world meta_world) :=
  r ← prefetcher_pop_ready x;
  match r with
  | (None, x) => Some (Some DAMACY_AGAIN, None, z, x)
  | (Some ready, x) =>
      match rd_result ready with
      | PREFETCHER_RESULT_ERROR => Some (Some (if rd_err_code ready =? 0 then DAMACY_INVAL else status_of (rd_err_code ready)), Some ready, z, x)
      | PREFETCHER_RESULT_READY =>
          Some (None, Some ready, with_staged z (z_samples z ++ [planner_sample_of ready]) (u64 (rd_seq ready + 1)), x)
      end
  end.

(** The rest of [zarr_next]: the status and the plan, the planner, and the watermark
    it announces. *)
Definition plan_staged (malloc : Z -> bool) (z : zarr_planner) (w : meta_world)
    : option (damacy_status * option prepared_plan * zarr_planner * option Z) :=
  r ← prepared_plan_build (H := world_view w) malloc (z_samples z) (z_output z) (z_limits z);
  let status := match r with inl e => e | inr _ => DAMACY_OK end in
  let plan := match r with inl _ => None | inr plan => Some plan end in
  if bool_decide (status = DAMACY_AGAIN) then Some (status, plan, z, None)
  else Some (status, plan, with_planned z (u64 (z_planned z + staged z)), Some (z_watermark z)).

Definition prefetcher_advance_watermark (w : meta_world) (watermark : Z) : option meta_world :=
  w ← run_move AdvanceArrays (announce w watermark); run_move AdvanceShards w.

Fixpoint stage_loop (n : nat) (z : zarr_planner) (x : pf_world meta_world) : option (option damacy_status * zarr_planner * pf_world meta_world) :=
  match n with
  | O => Some (None, z, x)
  | S n =>
      r ← stage_one z x;
      let '(st, _, z, x) := (r : option damacy_status * option prefetcher_ready * zarr_planner * pf_world meta_world) in
      match st with Some st => Some (Some st, z, x) | None => stage_loop n z x end
  end.

(** The whole call, when no other thread runs meanwhile. *)
Definition zarr_next (malloc : Z -> bool) (z : zarr_planner) (x : pf_world meta_world)
    : option (damacy_status * option prepared_plan * zarr_planner * pf_world meta_world) :=
  r ← stage_loop (Z.to_nat (samples_per_batch (z_output z) - staged z)) z x;
  let '(st, z, x) := (r : option damacy_status * zarr_planner * pf_world meta_world) in
  match st with
  | Some st => Some (st, None, z, x)
  | None =>
      r ← plan_staged malloc z (pw_w x);
      let '(st, plan, z, m) := (r : damacy_status * option prepared_plan * zarr_planner * option Z) in
      match m with
      | None => Some (st, plan, z, x)
      | Some m => w ← prefetcher_advance_watermark (pw_w x) m; Some (st, plan, z, PW (pw_pf x) w)
      end
  end.

Definition zarr_pending (z : zarr_planner) : Z := u64 (z_pushed z - z_planned z).

(** ** The end *)

(** The strings of the staged samples. *)
Definition clear_samples (z : zarr_planner) : list string * zarr_planner := (omap ps_uri (z_samples z), with_staged z [] (z_watermark z)).

(** The strings freed and the caches after their destruction, once the prefetcher is
    stopped and the reader drained. *)
Definition zarr_stop (z : zarr_planner) (y : run meta_world)
    : option (list string * pst string zarr_metadata * pst shard_index_key shard_index_value * zarr_planner) :=
  let '(p, la) := prefetcher_stop (pw_pf (y_x y)) (y_la y) in
  let w := pw_w (y_x y) in
  shards ← prefetch_cache_destroy (w_st (shards_now w));
  arrays ← prefetch_cache_destroy (w_st (arrays_now w));
  let '(names, z) := clear_samples z in
  Some (prefetcher_destroy p ++ fst (lookahead_destroy la) ++ names, arrays, shards, z).
