(* ===== verification/ZarrPlannerRun.v ===== *)
(** * Runs of the planner

    [prepared_plan_build] of [src/src/planner/plan_builder.c] returns [DAMACY_AGAIN]
    only while a cache has not answered: with every handle of the samples answered it
    returns a plan or another error.

    The calls of [src/src/pipeline/zarr_planner.c] in parts, between steps of the
    prefetcher's worker and of the caches, and what holds between them: the staged
    samples are the ready ones among those handed out since the last plan. *)

From stdpp Require Import strings gmap.
From S2P Require Import Prelude Strbuf Config Selection SelectionGrid Plan PlanBuilder PlanProof PlanMain PlanCorrect Hash DispatchTypes Lookahead PrefetchCache PrefetchClaims SharedCache Prefetcher PrefetcherOps PrefetcherOrder PrefetcherDeliver PrefetcherLaws PrefetcherReady PrefetcherCaches PrefetcherClaims MetaWorld ZarrPlanner.

#[local] Open Scope Z_scope.

(** ** Computations that avoid a result *)

Section avoids.
Context {R : Type} (bad : R -> Prop).
Definition avoids (x : option R) : Prop := forall r, x = Some r -> ~ bad r.
Implicit Types x y : option R.

Lemma avoids_some r : ~ bad r -> avoids (Some r).
Proof. by intros Hr x [= <-]. Qed.
Lemma avoids_none : avoids None.
Proof. by intros r. Qed.
Lemma avoids_if (b : bool) x y : avoids x -> avoids y -> avoids (if b then x else y).
Proof. by destruct b. Qed.
Lemma avoids_decide P `{Decision P} x y : (P -> avoids x) -> (~ P -> avoids y) -> avoids (if decide P then x else y).
Proof. destruct (decide P); auto. Qed.
Lemma avoids_bind {B} (x : option B) f : (forall b, x = Some b -> avoids (f b)) -> avoids (x ≫= f).
Proof. destruct x; intros Hf; [by apply Hf|apply avoids_none]. Qed.
Lemma avoids_sum {A B} (r : A + B) f g :
  (forall a, r = inl a -> avoids (f a)) -> (forall b, r = inr b -> avoids (g b)) -> avoids (match r with inl a => f a | inr b => g b end).
Proof. destruct r; auto. Qed.
Lemma avoids_option {B} (r : option B) y f : avoids y -> (forall b, r = Some b -> avoids (f b)) -> avoids (match r with Some b => f b | None => y end).
Proof. destruct r; auto. Qed.
Lemma avoids_pair {B C} (p : B * C) f : (forall b c, p = (b, c) -> avoids (f b c)) -> avoids (let '(b, c) := p in f b c).
Proof. destruct p; auto. Qed.
End avoids.

(** Decomposes a computation; the results remain. *)
Ltac avoids :=
  repeat first
    [ apply avoids_some; [discriminate] | apply avoids_none | apply avoids_if | apply avoids_decide; intros | apply avoids_bind; intros
    | apply avoids_sum; intros; subst | apply avoids_option; intros | apply avoids_pair; intros; subst ].

(** It does not ask to be called again. *)
Notation settles x := (avoids (fun r => r = inl DAMACY_AGAIN) x).

Lemma axis_init_again b a size cb ce d : settles (grid_axis_init b a size cb ce d).
Proof. unfold grid_axis_init. avoids. Qed.

(** The status of a grid. *)
Lemma grid_loop_again n bounds axes shape cb ce cells d acc :
  avoids (fun r => fst r = DAMACY_AGAIN) (grid_init_loop n bounds axes shape cb ce cells d acc).
Proof.
  revert d acc. induction n as [|n IH]; intros d acc; cbn [grid_init_loop]; avoids; try apply IH.
  apply avoids_some. cbn. intros ->. by eapply axis_init_again.
Qed.
Lemma grid_init_again bounds axes shape cb ce cells : avoids (fun r => fst r = DAMACY_AGAIN) (selection_grid_init bounds axes shape cb ce cells).
Proof. unfold selection_grid_init. avoids. apply grid_loop_again. Qed.

Lemma geometry_loop_again n s m output limits d size : settles (geometry_loop n s m output limits d size).
Proof. revert d size. induction n as [|n IH]; intros d size; cbn [geometry_loop]; avoids. apply IH. Qed.

(** The error of a part is the error of the whole. *)
Ltac passes H := apply avoids_some; intros [= ->]; by eapply H.

Lemma sample_geometry_again s m output limits : settles (sample_geometry s m output limits).
Proof.
  unfold sample_geometry. avoids; [passes geometry_loop_again|]. apply avoids_some. intros [= ->]. by eapply grid_init_again.
Qed.
Lemma index_bytes_again n axes mb d ib : settles (index_bytes_loop n axes mb d ib).
Proof. revert d ib. induction n as [|n IH]; intros d ib; cbn [index_bytes_loop]; avoids. apply IH. Qed.

Lemma entry_again index proto i : settles (chunk_of_entry index proto i).
Proof. unfold chunk_of_entry. avoids. Qed.
Lemma add_use_again rm i c st : settles (add_use rm i c st).
Proof. unfold add_use. avoids. Qed.
Lemma chunk_loop_again rm i a decoded per index sp coords st : settles (chunk_loop rm i a decoded per index sp coords st).
Proof.
  revert st. induction coords as [|c coords IH]; intros st; cbn [chunk_loop]; avoids; [passes entry_again|passes add_use_again|apply IH].
Qed.

Section settled.
Context `{CacheView}.

(** Every request of the sample has been answered. *)
Record sample_settled (s : planner_sample) : Prop := {
  ss_array : q_state (query_array (h_meta s)) = PREFETCH_STATE_READY;
  ss_shards : forall h, h ∈ h_shards s ->
    match q_state (query_shard h) with
    | PREFETCH_STATE_PENDING => False | PREFETCH_STATE_ERROR => q_error (query_shard h) = DAMACY_NOTFOUND
    | PREFETCH_STATE_READY => q_error (query_shard h) = DAMACY_OK
    end }.

Lemma array_again s e : sample_settled s -> array_metadata (query_array (h_meta s)) = inl e -> e <> DAMACY_AGAIN.
Proof. intros [Ha _]. unfold array_metadata. rewrite Ha. case_match; [done|by intros [= <-]]. Qed.
Lemma shard_again s h e : sample_settled s -> h ∈ h_shards s -> shard_answer (query_shard h) = inl e -> e <> DAMACY_AGAIN.
Proof.
  intros [_ Hs] Hh. specialize (Hs h Hh). unfold shard_answer. destruct (q_state (query_shard h)); [done| |]; rewrite Hs; [|done].
  case_bool_decide; [done|]. cbn. case_match; [done|]. by intros [= <-].
Qed.

Lemma size_sample_again s output limits z : sample_settled s -> settles (size_sample s output limits z).
Proof.
  intros Hs. unfold size_sample. avoids; [|passes sample_geometry_again|passes index_bytes_again].
  apply avoids_some. intros [= ->]. by eapply array_again.
Qed.
Lemma size_loop_again samples output limits z : Forall sample_settled samples -> settles (size_loop samples output limits z).
Proof.
  intros Hs. revert z. induction Hs as [|s samples Hs _ IH]; intros z; cbn [size_loop]; avoids; [|apply IH].
  apply avoids_some. intros [= ->]. by eapply size_sample_again.
Qed.

Lemma add_shard_again malloc rm limits i a decoded s u m per k coord st :
  sample_settled s -> settles (add_shard malloc rm limits i a decoded s u m per k coord st).
Proof.
  intros Hs. unfold add_shard. avoids.
  - apply avoids_some. intros [= ->]. eapply (shard_again s b); [done| |done|done]. apply elem_of_aget. eauto.
  - apply avoids_some. intros [= ->]. match goal with E : ?x = Some (inl DAMACY_AGAIN) |- _ => assert (settles x) as Hx by avoids; by apply (Hx _ E) end.
  - apply chunk_loop_again.
  - apply avoids_some. intros [= ->]. by eapply grid_init_again.
Qed.
Lemma shard_loop_again malloc rm limits i a decoded s u m per k coords st :
  sample_settled s -> settles (shard_loop malloc rm limits i a decoded s u m per k coords st).
Proof.
  intros Hs. revert k st. induction coords as [|c coords IH]; intros k st; cbn [shard_loop].
  - apply avoids_some. by destruct (_ =? _).
  - avoids; [|apply IH]. apply avoids_some. intros [= ->]. by eapply add_shard_again.
Qed.
Lemma add_sample_again malloc rm output limits i s st : sample_settled s -> settles (add_sample malloc rm output limits i s st).
Proof.
  intros Hs. unfold add_sample. avoids; [|passes sample_geometry_again|by apply shard_loop_again|].
  - apply avoids_some. intros [= ->]. by eapply array_again.
  - apply avoids_some. intros [= ->]. by eapply grid_init_again.
Qed.
Lemma sample_loop_again malloc rm output limits i samples st :
  Forall sample_settled samples -> settles (sample_loop malloc rm output limits i samples st).
Proof.
  intros Hs. revert i st. induction Hs as [|s samples Hs _ IH]; intros i st; cbn [sample_loop]; avoids; [|apply IH].
  apply avoids_some. intros [= ->]. by eapply add_sample_again.
Qed.

Lemma plan_build_again malloc samples output limits : Forall sample_settled samples -> settles (prepared_plan_build malloc samples output limits).
Proof.
  intros Hs. unfold prepared_plan_build. avoids; apply avoids_some; intros [= ->]; [by eapply size_loop_again|by eapply sample_loop_again].
Qed.
End settled.

Record zsys := Zsys { zs_z : zarr_planner; zs_y : run meta_world }.
Definition zs_w (s : zsys) : meta_world := pw_w (y_x (zs_y s)).

(** The entry of the lookahead a push makes. *)
Definition pushed_slot (malloc : Z -> bool) (s : damacy_sample) (seq : Z) : list damacy_sample_slot :=
  match query_copy malloc (Some s) with Some (inr (uri, aabb, axes)) => [SampleSlot (Some uri) aabb axes seq] | _ => [] end.

Definition announced (m : option Z) (w : meta_world) : meta_world := match m with Some m => announce w m | None => w end.

Section run.
Context (output : damacy_batch_spec) (limits : damacy_plan_limits).
Implicit Types y : run meta_world.

(** A sample as the C type has it, with a text that fits in memory. *)
Definition sample_small (s : damacy_sample) : Prop :=
  sample_fits s output /\ forall uri, s_uri s = Some uri -> Z.of_nat (String.length uri) + max_plan_bytes limits < 2 ^ 63 /\ Z.of_nat (String.length uri) < 2 ^ 60.
Notation rs := (rstep (ml_step None) (zarr_accepts output (max_plan_bytes limits))).

(** [ZOther] is a step of the worker or of the caches. [ZPlan] announces the
    watermark, which reaches the caches in later steps. *)
Inductive zstep : zsys -> zsys -> Prop :=
| ZOther z y y' :
    rs y y' -> y_acc y' = y_acc y -> y_out y' = y_out y -> mw_target (pw_w (y_x y')) = mw_target (pw_w (y_x y)) -> zstep (Zsys z y) (Zsys z y')
| ZPush z y malloc junk s st z' la' :
    sample_small s -> zlen (y_acc y) + 1 < 2 ^ 64 -> push_one malloc junk z (pw_pf (y_x y)) (y_la y) s = Some (st, z', la') ->
    zstep (Zsys z y) (Zsys z' (Run (y_x y) la' (y_pc y) (y_acc y ++ if decide (st = DAMACY_OK) then pushed_slot malloc s (z_pushed z) else []) (y_out y)))
| ZStage z y r out z' x' :
    staged z < samples_per_batch (z_output z) -> stage_one z (y_x y) = Some (r, out, z', x') ->
    zstep (Zsys z y) (Zsys z' (Run x' (y_la y) (y_pc y) (y_acc y) (y_out y ++ option_list out)))
| ZPlan z y malloc st plan z' m :
    staged z = samples_per_batch (z_output z) -> plan_staged malloc z (pw_w (y_x y)) = Some (st, plan, z', m) ->
    zstep (Zsys z y) (Zsys z' (Run (PW (pw_pf (y_x y)) (announced m (pw_w (y_x y)))) (y_la y) (y_pc y) (y_acc y) (y_out y))).

(** ** The invariant *)

Definition is_ready (r : prefetcher_ready) : Prop := rd_result r = PREFETCHER_RESULT_READY.
#[export] Instance is_ready_dec r : Decision (is_ready r).
Proof. unfold is_ready. destruct (rd_result r); [by left|by right]. Defined.

Definition passed (s : zsys) : list prefetcher_ready := take (Z.to_nat (mw_target (zs_w s))) (y_out (zs_y s)).
Definition since (s : zsys) : list prefetcher_ready := drop (Z.to_nat (mw_target (zs_w s))) (y_out (zs_y s)).

Record zinv (s : zsys) : Prop := {
  zi_output : z_output (zs_z s) = output;
  zi_limits : z_limits (zs_z s) = limits;
  zi_pushed : z_pushed (zs_z s) = zlen (y_acc (zs_y s));
  zi_target : 0 <= mw_target (zs_w s) <= zlen (y_out (zs_y s));
  zi_samples : z_samples (zs_z s) = planner_sample_of <$> filter is_ready (since s);
  zi_planned : z_planned (zs_z s) = zlen (filter is_ready (passed s));
  zi_staged : staged (zs_z s) <= samples_per_batch output;
  zi_full : staged (zs_z s) = samples_per_batch output -> z_watermark (zs_z s) = zlen (y_out (zs_y s)) }.

Context (cap : Z) (Hcap : 0 <= cap < UINT32_MAX) (Hbytes : 0 <= max_plan_bytes limits <= 2 ^ 63).
Notation rinv := (rinv (zarr_accepts output (max_plan_bytes limits)) cap).

(** Samples come out with their numbers. *)
Lemma out_number y adm j r : rinv y adm -> y_out y !! j = Some r -> rd_seq r = Z.of_nat j.
Proof.
  intros HI Hj. destruct (ri_out _ _ _ _ HI j r Hj) as (s & Hs & _ & _ & _ & ->). destruct (rinv_adm _ _ _ _ Hcap HI) as [Hn _]. by apply Hn.
Qed.
Lemma out_short y adm : rinv y adm -> zlen (y_out y) <= zlen (y_acc y) < 2 ^ 64.
Proof. intros HI. destruct (rinv_adm _ _ _ _ Hcap HI) as [_ Hl]. pose proof (ri_next _ _ _ _ HI) as [_ Hn]. pose proof (ri_num _ _ _ _ HI) as [_ ?]. lia. Qed.

Lemma drop_snoc {A} (l : list A) x k : (k <= length l)%nat -> drop k (l ++ [x]) = drop k l ++ [x].
Proof. intros Hk. by rewrite drop_app_le. Qed.

(** ** Pushes *)

Lemma push_result malloc junk la s seq rc la' :
  lookahead_push_with_sample_seq malloc junk la (Some s) seq = Some (rc, la') ->
  rc = 1 \/ rc = 0 /\ exists uri aabb axes, query_copy malloc (Some s) = Some (inr (uri, aabb, axes)).
Proof.
  unfold lookahead_push_with_sample_seq. destruct (s_uri s); [|intros [= <- _]; by left]. case_match; [intros [= <- _]; by left|].
  destruct (la_slots la); [|done]. cbn [mbind option_bind]. destruct (query_copy malloc (Some s)) as [[e|[[uri aabb] axes]]|]; [| |done]; cbn [mbind option_bind].
  - destruct (aget _ _); [|done]. cbn [mbind option_bind]. destruct (aset _ _ _); [|done]. intros [= <- _]. by left.
  - destruct (aset _ _ _); [|done]. intros [= <- _]. right. split; [done|]. by eexists _, _, _.
Qed.

(** A push is a step of the prefetcher's producer, or leaves it alone. *)
Lemma push_one_run malloc junk z y s st z' la' :
  sample_small s -> zlen (y_acc y) + 1 < 2 ^ 64 -> z_output z = output -> z_limits z = limits -> z_pushed z = zlen (y_acc y) ->
  push_one malloc junk z (pw_pf (y_x y)) (y_la y) s = Some (st, z', la') ->
  let acc := y_acc y ++ if decide (st = DAMACY_OK) then pushed_slot malloc s (z_pushed z) else [] in
  rtc rs y (Run (y_x y) la' (y_pc y) acc (y_out y)) /\ z' = with_pushed z (zlen acc).
Proof.
  intros [Hfit Hsmall] Hn Ho Hl Hp Hr. unfold push_one in Hr. rewrite Ho, Hl, Hp in Hr.
  assert (Hstay : forall st, st <> DAMACY_OK -> let acc := y_acc y ++ if decide (st = DAMACY_OK) then pushed_slot malloc s (z_pushed z) else [] in
    rtc rs y (Run (y_x y) (y_la y) (y_pc y) acc (y_out y)) /\ z = with_pushed z (zlen acc)).
  { intros st' Hst. rewrite decide_False by done. cbn. rewrite app_nil_r, <-Hp. split; [by destruct y|by destruct z]. }
  case_match; [by simplify_eq; apply Hstay|]. destruct (query_validate _ _ _) as [st0|] eqn:Hv; cbn [mbind option_bind] in Hr; [|done].
  case_bool_decide as Hok; cbn [negb] in Hr; [subst st0|by simplify_eq; apply Hstay].
  destruct (lookahead_push_with_sample_seq _ _ _ _ _) as [[rc la1]|] eqn:Hpush; cbn [mbind option_bind] in Hr; [|done].
  destruct y as [x la pc acc out]. cbn [y_x y_la y_pc y_acc y_out] in *.
  destruct (push_result _ _ _ _ _ _ _ Hpush) as [->|(-> & uri & aabb & axes & Hc)]; cbn in Hr; simplify_eq.
  - rewrite decide_False by done. cbn. rewrite app_nil_r, <-Hp. split; [|by destruct z']. apply rtc_once. by eapply RRefuse.
  - rewrite decide_True by done. cbn. unfold pushed_slot. rewrite Hc, Hp. split.
    + apply rtc_once. eapply RPush; try done. split; [done|split; [clia|done]].
    + rewrite length_app. cbn. rewrite u64_id by clia. f_equal. lia.
Qed.

(** ** The invariant holds between the steps *)

Lemma pop_ready_world (x : pf_world meta_world) r x' : prefetcher_pop_ready x = Some (r, x') -> pw_w x' = pw_w x.
Proof.
  unfold prefetcher_pop_ready, pop_terminal_slot_idx_locked. intros H. case_match; [|by simplify_eq].
  case_match; [|by simplify_eq/=]. case_match; [by simplify_eq/=|]. destruct (owner_unref_locked _ _ _); by simplify_eq/=.
Qed.

Lemma since_snoc z y z' x' la pc acc r :
  0 <= mw_target (zs_w (Zsys z y)) <= zlen (y_out y) -> pw_w x' = pw_w (y_x y) ->
  let s' := Zsys z' (Run x' la pc acc (y_out y ++ [r])) in since s' = since (Zsys z y) ++ [r] /\ passed s' = passed (Zsys z y).
Proof.
  unfold since, passed, zs_w. cbn. intros Ht ->. split; [apply drop_snoc; lia|]. by rewrite take_app_le by lia.
Qed.

Lemma ready_snoc (l : list prefetcher_ready) r : filter is_ready (l ++ [r]) = filter is_ready l ++ if decide (is_ready r) then [r] else [].
Proof. rewrite filter_app. f_equal. Qed.

Lemma zinv_ext z y y' :
  y_acc y' = y_acc y -> y_out y' = y_out y -> mw_target (pw_w (y_x y')) = mw_target (pw_w (y_x y)) -> zinv (Zsys z y) -> zinv (Zsys z y').
Proof.
  intros E1 E2 E3 [I1 I2 I3 I4 I5 I6 I8 I7]. unfold since, passed, zs_w in *. cbn in *.
  split; unfold since, passed, zs_w; cbn; rewrite ?E1, ?E2, ?E3; done.
Qed.

Lemma zinv_pushed z y acc la :
  zinv (Zsys z y) -> zinv (Zsys (with_pushed z (zlen acc)) (Run (y_x y) la (y_pc y) acc (y_out y))).
Proof. intros [I1 I2 I3 I4 I5 I6 I8 I7]. by split. Qed.

Lemma stage_zinv z y r out z' x' adm :
  zinv (Zsys z y) -> staged z < samples_per_batch (z_output z) -> stage_one z (y_x y) = Some (r, out, z', x') ->
  let y' := Run x' (y_la y) (y_pc y) (y_acc y) (y_out y ++ option_list out) in
  rs y y' /\ (rinv y' adm -> zinv (Zsys z' y')).
Proof.
  intros HI Hfew Hs y'. unfold stage_one in Hs. destruct (prefetcher_pop_ready (y_x y)) as [[[rd|] x1]|] eqn:Hp; cbn [mbind option_bind] in Hs; [| |done].
  - assert (out = Some rd /\ x1 = x') as [-> ->] by (destruct (rd_result rd); by simplify_eq).
    split; [destruct y; by apply RTake|]. intros HR. pose proof (pop_ready_world _ _ _ Hp) as Hw.
    destruct (since_snoc z y z' x' (y_la y) (y_pc y) (y_acc y) rd (zi_target _ HI) Hw) as [Es Ep].
    assert (Hseq : rd_seq rd = zlen (y_out y)).
    { apply (out_number _ _ _ _ HR). cbn. by rewrite lookup_app_r, Nat.sub_diag. }
    pose proof (out_short _ _ HR) as Hlen. cbn in Hlen. rewrite length_app in Hlen. cbn in Hlen.
    destruct HI as [I1 I2 I3 I4 I5 I6 I8 I7]. unfold zs_w in *. cbn [zs_z zs_y] in *. unfold y' in *. change (option_list (Some rd)) with [rd] in *.
    assert (Ht : 0 <= mw_target (pw_w x') <= zlen (y_out y ++ [rd])) by (rewrite Hw, length_app; cbn; lia).
    destruct (rd_result rd) eqn:Er; simplify_eq.
    + split; try done; rewrite ?Es, ?Ep, ?ready_snoc; try done.
      * rewrite decide_True by exact Er. rewrite fmap_app, <-I5. done.
      * unfold staged in *. cbn. rewrite length_app. cbn. rewrite I1 in Hfew. lia.
      * intros _. cbn. rewrite length_app, Hseq. cbn. rewrite u64_id by clia. lia.
    + assert (~ is_ready rd) as Hn by (unfold is_ready; congruence).
      split; try done; rewrite ?Es, ?Ep, ?ready_snoc; try done; [by rewrite decide_False, app_nil_r|]. cbn. intros Hfull. rewrite I1 in Hfew. lia.
  - pose proof (pop_ready_slots _ _ _ Hp) as ->. simplify_eq. unfold y'. cbn. rewrite app_nil_r. split; [|intros _; by destruct y].
    destruct y as [x la pc acc o]. cbn in *. replace o with (o ++ option_list None) at 2 by apply app_nil_r. by apply RTake.
Qed.

Lemma plan_zinv malloc z y st plan z' m adm :
  zinv (Zsys z y) -> rinv y adm -> staged z = samples_per_batch (z_output z) -> plan_staged malloc z (pw_w (y_x y)) = Some (st, plan, z', m) ->
  let y' := Run (PW (pw_pf (y_x y)) (announced m (pw_w (y_x y)))) (y_la y) (y_pc y) (y_acc y) (y_out y) in
  rtc rs y y' /\ zinv (Zsys z' y').
Proof.
  intros HI HR Hfull Hp y'. unfold plan_staged in Hp. destruct (prepared_plan_build _ _ _ _) as [res|]; cbn [mbind option_bind] in Hp; [|done].
  case_bool_decide; simplify_eq; [unfold y'; cbn; by destruct y as [[? ?] ? ? ? ?]|].
  pose proof (out_short _ _ HR) as Hlen. pose proof HI as [I1 I2 I3 I4 I5 I6 I8 I7]. unfold zs_w in *. cbn [zs_z zs_y] in *. rewrite I1 in Hfull. specialize (I7 Hfull).
  split.
  - destruct y as [[p w] la pc acc out]. apply rtc_once, RCaches. cbn in *. apply rtc_once. left. apply MsAnnounce. lia.
  - unfold y'. cbn. assert (Ha : since (Zsys z y) = drop (Z.to_nat (mw_target (pw_w (y_x y)))) (y_out y)) by done.
    assert (Hcount : z_planned z + staged z = zlen (filter is_ready (y_out y))).
    { rewrite <-(take_drop (Z.to_nat (mw_target (pw_w (y_x y)))) (y_out y)), filter_app, length_app. unfold staged.
      rewrite I5, I6, length_fmap. unfold passed, since, zs_w. cbn. lia. }
    assert (Hle : zlen (filter is_ready (y_out y)) <= zlen (y_out y)) by (pose proof (length_filter is_ready (y_out y)); lia).
    split; unfold since, passed, zs_w; cbn; try done; rewrite ?I7; [lia|..].
    + by rewrite drop_ge by lia.
    + rewrite take_ge by lia. rewrite Hcount. apply u64_id. clia.
    + unfold staged in *. cbn. lia.
Qed.

(** Every step keeps the invariant and is a run of the prefetcher. *)
Lemma zstep_zinv s s' adm :
  zinv s -> rinv (zs_y s) adm -> zstep s s' -> zinv s' /\ rtc rs (zs_y s) (zs_y s') /\ exists adm', rinv (zs_y s') adm'.
Proof.
  assert (Hfin : forall y y', rinv y adm -> rtc rs y y' -> exists adm', rinv y' adm').
  { intros y y' HR Hr. destruct (rsteps_rinv _ _ _ _ _ _ Hcap HR Hr) as (adm' & ? & _). by exists adm'. }
  intros HI HR Hs. destruct Hs as [z y y' Hr E1 E2 E3|z y malloc junk s st z' la' Hsm Hn Hp|z y r out z' x' Hfew Hp|z y malloc st plan z' m Hfull Hp]; cbn [zs_y] in *.
  - split; [by eapply zinv_ext|]. split; [by apply rtc_once|]. by eapply Hfin; [|apply rtc_once].
  - pose proof HI as [I1 I2 I3 _ _ _ _ _]. destruct (push_one_run _ _ _ _ _ _ _ _ Hsm Hn I1 I2 I3 Hp) as [Hr ->].
    split; [by apply zinv_pushed|]. split; [done|]. by eapply Hfin.
  - destruct (stage_zinv z y r out z' x' [] HI Hfew Hp) as [Hr _]. destruct (Hfin _ _ HR (rtc_once _ _ Hr)) as [adm' HR'].
    split; [by eapply stage_zinv|]. split; [by apply rtc_once|]. by exists adm'.
  - destruct (plan_zinv malloc z y st plan z' m adm HI HR Hfull Hp) as [Hr HI']. split; [done|]. split; [done|]. by eapply Hfin.
Qed.

Lemma zsteps_zinv s s' adm :
  zinv s -> rinv (zs_y s) adm -> rtc zstep s s' -> zinv s' /\ rtc rs (zs_y s) (zs_y s') /\ exists adm', rinv (zs_y s') adm'.
Proof.
  intros HI HR Hr. revert adm HI HR. induction Hr as [s|s1 s2 s3 Hs _ IH]; intros adm HI HR; [by split_and!; [| |exists adm]|].
  destruct (zstep_zinv _ _ _ HI HR Hs) as (HI2 & R2 & adm2 & HR2). destruct (IH _ HI2 HR2) as (HI3 & R3 & HR3). split_and!; [done|by etrans|done].
Qed.

(** Samples handed out stay so. *)
Lemma zsteps_out s s' : rtc zstep s s' -> y_out (zs_y s) `prefix_of` y_out (zs_y s').
Proof.
  induction 1 as [s|s1 s2 s3 Hs _ IH]; [done|]. etrans; [|exact IH]. destruct Hs as [z y y' _ _ E _| | |]; cbn; [by rewrite E|done|by apply prefix_app_r|done].
Qed.
End run.
