(* ===== verification/ZarrPlannerClaims.v ===== *)
(** * Theorems on the planner

    Whole calls of [src/src/pipeline/zarr_planner.c] as runs, the state after a start,
    and what every run of planner, prefetcher and caches together shows: the planner
    plans the samples that were pushed, in order, and every plan is right. *)

From stdpp Require Import strings gmap.
From S2P Require Import Prelude Config Selection SelectionGrid Plan PlanBuilder PlanProof PlanMain PlanCorrect ZarrPlannerRun Hash DispatchTypes Lookahead Lru LruCorrect PrefetchCache PrefetchGates PrefetchProof PrefetchClaims SharedCache Prefetcher PrefetcherOps PrefetcherOrder PrefetcherDeliver PrefetcherLaws PrefetcherReady PrefetcherCaches PrefetcherClaims MetaWorld ZarrPlanner.

#[local] Open Scope Z_scope.

(** ** Whole calls *)

Section calls.
Context (output : damacy_batch_spec) (limits : damacy_plan_limits).
Notation zs := (zstep output limits).

(** A push is a sequence of steps: one per sample taken, and one that refuses. *)
Lemma zarr_push_run malloc junk samples z y rest st z' la' :
  Forall (sample_small output limits) samples -> zlen (y_acc y) + zlen samples < 2 ^ 64 ->
  zarr_push malloc junk z (pw_pf (y_x y)) (y_la y) samples = Some (rest, st, z', la') ->
  exists acc, rtc zs (Zsys z y) (Zsys z' (Run (y_x y) la' (y_pc y) (y_acc y ++ acc) (y_out y))).
Proof.
  intros Hs. revert z y. induction Hs as [|s samples Hs _ IH]; intros z y Hn Hp; cbn [zarr_push] in Hp; cbn in Hn.
  { simplify_eq. exists []. rewrite app_nil_r. by destruct y. }
  destruct (push_one _ _ _ _ _ _) as [[[st1 z1] la1]|] eqn:E; cbn [mbind option_bind] in Hp; [|done].
  pose proof (ZPush _ _ z y malloc junk s st1 z1 la1 Hs ltac:(lia) E) as H1. case_bool_decide as Hst.
  - destruct (IH z1 (Run (y_x y) la1 (y_pc y) (y_acc y ++ if decide (st1 = DAMACY_OK) then pushed_slot malloc s (z_pushed z) else []) (y_out y)))
      as [acc Hr]; [|exact Hp|].
    { cbn. rewrite length_app. case_decide; cbn; [|lia]. unfold pushed_slot. repeat case_match; cbn; lia. }
    cbn in Hr. eexists. eapply rtc_l; [exact H1|]. rewrite <-app_assoc in Hr. exact Hr.
  - simplify_eq. eexists. by apply rtc_once.
Qed.

Lemma stage_loop_run n z y r z' x' :
  staged z + Z.of_nat n <= samples_per_batch (z_output z) -> stage_loop n z (y_x y) = Some (r, z', x') ->
  exists out, rtc zs (Zsys z y) (Zsys z' (Run x' (y_la y) (y_pc y) (y_acc y) (y_out y ++ out))) /\
    z_output z' = z_output z /\ (r = None -> staged z' = staged z + Z.of_nat n).
Proof.
  revert z y. induction n as [|n IH]; intros z y Hn Hl; cbn [stage_loop] in Hl.
  { simplify_eq. exists []. rewrite app_nil_r. destruct y. split; [done|]. split; [done|]. intros _. lia. }
  destruct (stage_one z (y_x y)) as [[[[st rd] z1] x1]|] eqn:E; cbn [mbind option_bind] in Hl; [|done].
  pose proof (ZStage output limits z y st rd z1 x1 ltac:(lia) E) as H1. assert (Hz : z_output z1 = z_output z /\ (st = None -> staged z1 = staged z + 1)).
  { unfold stage_one in E. destruct (prefetcher_pop_ready _) as [[[rd0|] x2]|]; cbn [mbind option_bind] in E; [| |done]; [|by simplify_eq].
    destruct (rd_result rd0); simplify_eq; split; try done. intros _. unfold staged. cbn. rewrite length_app. cbn. lia. }
  destruct Hz as [Ho Hc]. destruct st as [st|]; [simplify_eq; eexists; split; [by apply rtc_once|done]|]. specialize (Hc eq_refl).
  destruct (IH z1 (Run x1 (y_la y) (y_pc y) (y_acc y) (y_out y ++ option_list rd))) as (out & Hr & Ho' & Hc'); [rewrite Ho; lia|exact Hl|].
  exists (option_list rd ++ out). cbn in Hr. rewrite <-app_assoc in Hr. split; [by eapply rtc_l|]. split; [congruence|]. intros Hr'. rewrite (Hc' Hr'). lia.
Qed.

Lemma advance_run w w' m z p la pc acc out :
  prefetcher_advance_watermark w m = Some w' ->
  rtc zs (Zsys z (Run (PW p (announce w m)) la pc acc out)) (Zsys z (Run (PW p w') la pc acc out)).
Proof.
  unfold prefetcher_advance_watermark. intros H. destruct (run_move AdvanceArrays _) as [w1|] eqn:E1; cbn [mbind option_bind] in H; [|done].
  assert (Hmove : forall mv w w', mv = AdvanceArrays \/ mv = AdvanceShards -> run_move mv w = Some w' ->
    zs (Zsys z (Run (PW p w) la pc acc out)) (Zsys z (Run (PW p w') la pc acc out))).
  { intros mv v v' Hmv Hv. apply ZOther; try done.
    - apply RCaches. cbn. apply rtc_once. left. apply (MsMove None mv); [by destruct Hmv as [->| ->]|done].
    - cbn. destruct Hmv as [->| ->]; cbn in Hv; apply fmap_Some in Hv as (a & _ & ->); done. }
  eapply rtc_l; [by eapply (Hmove AdvanceArrays); [left|]|]. apply rtc_once. by eapply (Hmove AdvanceShards); [right|].
Qed.

(** So is a call of [zarr_next]. *)
Lemma zarr_next_run malloc z y st plan z' x' :
  staged z <= samples_per_batch (z_output z) -> zarr_next malloc z (y_x y) = Some (st, plan, z', x') ->
  exists out, rtc zs (Zsys z y) (Zsys z' (Run x' (y_la y) (y_pc y) (y_acc y) (y_out y ++ out))).
Proof.
  intros Hle Hn. unfold zarr_next in Hn. destruct (stage_loop _ _ _) as [[[r z1] x1]|] eqn:E; cbn [mbind option_bind] in Hn; [|done].
  destruct (stage_loop_run (Z.to_nat (samples_per_batch (z_output z) - staged z)) z y r z1 x1) as (out & Hr & Ho & Hf); [lia|exact E|]. exists out. destruct r as [r|]; [by simplify_eq|]. specialize (Hf eq_refl).
  destruct (plan_staged _ _ _) as [[[[st1 plan1] z2] m]|] eqn:Ep; cbn [mbind option_bind] in Hn; [|done].
  pose proof (ZPlan output limits z1 (Run x1 (y_la y) (y_pc y) (y_acc y) (y_out y ++ out)) malloc st1 plan1 z2 m) as Hp. cbn [y_x y_la y_pc y_acc y_out] in Hp.
  specialize (Hp ltac:(rewrite Ho; lia) Ep). destruct m as [m|]; cbn [announced] in Hp.
  - destruct (prefetcher_advance_watermark _ m) as [w|] eqn:Ew; cbn [mbind option_bind] in Hn; [|done]. simplify_eq.
    etrans; [exact Hr|]. eapply rtc_l; [exact Hp|]. by apply advance_run.
  - simplify_eq. eapply rtc_r; [exact Hr|]. by destruct x'.
Qed.
End calls.

(** ** After a start *)

Lemma prefetcher_create_mem alloc cfg p : prefetcher_create alloc cfg = Some p -> prefetcher_create (fun _ => true) cfg = Some p.
Proof.
  unfold prefetcher_create. intros H. destruct (_ && alloc 3%nat) eqn:E; [|done]. rewrite !andb_true_iff in E.
  destruct E as [[[[[[[[[-> ->] ->] ->] ->] ->] _] _] _] _]. exact H.
Qed.
Lemma lookahead_init_mem alloc la0 cap la : lookahead_init alloc la0 cap = (0, la) -> lookahead_init (fun _ => true) la0 cap = (0, la).
Proof.
  unfold lookahead_init. intros H. destruct (negb (0 <? cap)); [done|]. destruct (alloc 0%nat); [|done]. destruct (alloc 1%nat); [|done].
  cbn [negb] in *. destruct (alloc 2%nat); done.
Qed.
Lemma lru_create_mem {V} alloc capacity max_probe (l : lru V) :
  lru_create alloc capacity max_probe = Some (Some l) -> lru_create (fun _ => true) capacity max_probe = Some (Some l).
Proof.
  unfold lru_create. intros H. case_match; [done|]. destruct (alloc 0%nat); [|done]. cbn [negb] in *.
  destruct (list_init _ Order) as [s1|]; cbn [mbind option_bind] in *; [|done]. destruct (list_init _ Free) as [s2|]; cbn [mbind option_bind] in *; [|done].
  destruct (alloc 1%nat); cbn [negb] in *; [|by destruct (lru_destroy _)]. destruct (alloc 2%nat); cbn [negb] in *; [done|by destruct (lru_destroy _)].
Qed.
Lemma cache_create_mem {K} alloc cfg (c : prefetch_cache K) :
  prefetch_cache_create alloc cfg = Some (Some c) -> prefetch_cache_create (fun _ => true) cfg = Some (Some c).
Proof.
  unfold prefetch_cache_create. intros H. case_match; [done|]. case_match; [done|]. cbn [negb andb].
  destruct (free_loop _ _ _ _) as [f|]; cbn [mbind option_bind] in *; [|done].
  destruct (lru_create (fun k => alloc (4 + k)%nat) _ _) as [[l|]|] eqn:E; cbn [mbind option_bind] in H; [|done|done].
  by rewrite (lru_create_mem _ _ _ _ E).
Qed.

(** A new cache holds nothing and nothing waits. *)
Lemma new_cache_ok {K V} key_eq `{!KeyEquiv key_eq} (good : V -> Prop) alloc entries (c : prefetch_cache K) :
  entries <= 2 ^ 30 -> prefetch_cache_create alloc (zarr_cache_config entries) = Some (Some c) ->
  shared_ok key_eq good (new_cache c) (fun _ => 0) /\ mark (new_cache (V := V) c) = 0.
Proof.
  intros Hn H. apply cache_create_mem in H. assert (Hok : prefetch_config_ok (zarr_cache_config entries) = true).
  { unfold prefetch_cache_create in H. by destruct (prefetch_config_ok _). }
  destruct (create_spec (OW := no_others) (V := V) key_eq (fun _ => true) (zarr_cache_config entries)) as (c' & Hc & _ & Hw & HV); try done.
  assert (c' = c) as -> by congruence. split; [|exact Hw]. exists no_others, [], empty_cache. split; [by split|]. done.
Qed.

Record started (mem : start_memory) (choices : nat -> choice) (z0 z : zarr_planner) (output : damacy_batch_spec) (la : Z) (y : run meta_world) : Prop := {
  sd_planner : z = ZarrPlanner (z_metadata z0) (z_limits z0) output la (z_samples z0) 0 0 0;
  sd_starts : starts la (pw_w (y_x y)) y;
  sd_shards : pf_max_shards (pw_pf (y_x y)) = max_shards_per_sample (z_limits z0);
  sd_empty : y_acc y = [] /\ y_out y = [];
  sd_target : mw_target (pw_w (y_x y)) = 0;
  sd_gates : mw_gates (pw_w (y_x y)) = ∅;
  sd_ok : (forall t, Forall meta_move_good (ch_before (choices t))) -> meta_ok (pw_w (y_x y)) }.

Lemma zarr_start_started mem choices z0 output la z y :
  la < 2 ^ 32 -> array_entries (z_metadata z0) <= 2 ^ 30 -> shard_entries (z_metadata z0) <= 2 ^ 30 ->
  zarr_start mem choices z0 output la = Some (DAMACY_OK, Some (z, y)) -> started mem choices z0 z output la y.
Proof.
  intros Hla Ha Hs H. unfold zarr_start in H. case_match; [done|]. destruct (sm_reader mem); [|done]. cbn [negb z_metadata] in H.
  destruct (prefetch_cache_create (sm_arrays mem) _) as [[arrays|]|] eqn:Ea; cbn [mbind option_bind] in H; [|done|done].
  destruct (prefetch_cache_create (sm_shards mem) _) as [[shards|]|] eqn:Es; cbn [mbind option_bind] in H; [|done|done].
  destruct (lookahead_init _ _ _) as [rc lk] eqn:El. destruct (Z.eqb_spec rc 0) as [->|]; [|done]. destruct (sm_samples mem); [|done]. cbn [negb orb] in H.
  destruct (prefetcher_create _ _) as [p|] eqn:Ep; [|done]. destruct (prefetcher_start _ p) as [rc2 p2] eqn:Et.
  destruct (Z.eqb_spec rc2 0) as [->|]; [|done]. cbn [negb] in H. simplify_eq.
  assert (p2 = snd (prefetcher_start true p)) as ->.
  { unfold prefetcher_start in *. by destruct (pf_started p); simplify_eq. }
  destruct (new_cache_ok array_meta_key_eq meta_wf _ _ _ Ha Ea) as [Oa Ma]. destruct (new_cache_ok shard_index_eq index_wf _ _ _ Hs Es) as [Os Ms].
  split; try done; cbn.
  - eexists (fun _ => true), _, p, _, lk. split_and!; [|by eapply prefetcher_create_mem|by eapply lookahead_init_mem|done]. done.
  - unfold prefetcher_create in Ep. case_match; [|done]. simplify_eq. unfold prefetcher_start. by cbn.
  - intros Hch. split; [done|]. split; [unfold meta_mark; cbn; lia|]. exists (fun _ => 0), (fun _ => 0). split_and!; try done.
Qed.

(** ** Samples the plan builder can use *)

(** A value comes without an error. *)
Lemma view_ready {K V} (w : @world K V) h v e : view w h = (PREFETCH_STATE_READY, v, e) -> e = 0.
Proof.
  unfold view, prefetch_cache_query. destruct (resolve_handle (w_st w) h) as [[p|]|]; cbn [mbind option_bind]; [|by intros [=]|by intros [=]].
  destruct (heap (w_st w) !! p) as [s|]; cbn; [|by intros [=]]. intros [= E1 _ E3]. rewrite bool_decide_false in E3; congruence.
Qed.

Lemma complete_settled max_shards (w : meta_world) r : complete max_shards w r -> @sample_settled (world_view w) (planner_sample_of r).
Proof.
  intros (uri & meta & coords & _ & _ & (e & _ & Hm) & _ & _ & _ & Hl & Hs & _). split; cbn in *; [by rewrite Hm|].
  intros h Hh. apply list_elem_of_lookup in Hh as [i Hi]. destruct (lookup_lt_is_Some_2 coords i) as [c Hc]; [rewrite <-Hl; by eapply lookup_lt_Some|].
  destruct (Hs i c h Hc Hi) as ([[st v] e'] & [_ Ha] & Hset). cbn in Ha. rewrite Ha. cbn in *. destruct st; [done| |cbn in Hset; by rewrite Hset].
  by rewrite (view_ready _ _ _ _ Ha).
Qed.

(** What the C types and the configuration give. *)
Record planner_fits (metadata : damacy_metadata_cache_config) (limits : damacy_plan_limits) (output : damacy_batch_spec) (la : Z) : Prop := {
  pl_entries : array_entries metadata <= 2 ^ 30 /\ shard_entries metadata <= 2 ^ 30;
  pl_chunks : 0 <= max_chunks limits /\ 0 <= max_chunk_bytes limits < 2 ^ 32;
  pl_shards : 0 <= max_shards_per_sample limits < 2 ^ 32 - 1;
  pl_bytes : 0 <= max_plan_bytes limits <= 2 ^ 63;
  pl_rank : 0 <= sample_rank output <= zlen (sample_shape output);
  pl_batch : 0 <= samples_per_batch output < 2 ^ 32;
  pl_lookahead : 0 <= la < UINT32_MAX }.

Section planned.
Context (metadata : damacy_metadata_cache_config) (limits : damacy_plan_limits) (output : damacy_batch_spec) (la : Z).
Context (Hfit : planner_fits metadata limits output la).
Context (memz : bool) (mem : start_memory) (choices : nat -> choice) (z0 z : zarr_planner) (y : run meta_world).
Context (Hgood : forall t, Forall meta_move_good (ch_before (choices t))).
Context (Hcreate : damacy_chunk_planner_create memz (Some metadata) (Some limits) = inr z0).
Context (Hstart : zarr_start mem choices z0 output la = Some (DAMACY_OK, Some (z, y))).

Lemma created_planner : z0 = ZarrPlanner metadata limits (BatchSpec 0 [] 0 0) 0 [] 0 0 0 /\
  0 < max_chunks limits <= DAMACY_MAX_CHUNKS_PER_BATCH /\ 0 < max_shards_per_sample limits.
Proof using Hfit Hcreate.
  clear Hstart. pose proof Hcreate as Hc. unfold damacy_chunk_planner_create in Hc. destruct (_ || _) eqn:E; [done|]. destruct memz; [|done]. cbn [negb] in Hc. simplify_eq.
  rewrite !orb_false_iff in E. destruct E as [[[[E1%Z.eqb_neq E2%Z.ltb_ge] _] E4%Z.eqb_neq] _]. destruct (pl_chunks _ _ _ _ Hfit) as [? _].
  pose proof (pl_shards _ _ _ _ Hfit). split; [done|]. lia.
Qed.

Lemma planner_started : started mem choices z0 z output la y.
Proof.
  destruct created_planner as (E & _ & _). destruct (pl_entries _ _ _ _ Hfit). pose proof (pl_lookahead _ _ _ _ Hfit) as Hl. unfold UINT32_MAX in Hl.
  apply zarr_start_started; try done; rewrite ?E; cbn; try done. lia.
Qed.

(** The invariants, after any run. *)
Lemma planner_run s : rtc (zstep output limits) (Zsys z y) s ->
  zinv output limits s /\ rtc (rstep (ml_step None) (zarr_accepts output (max_plan_bytes limits))) y (zs_y s) /\
  exists adm, rinv (zarr_accepts output (max_plan_bytes limits)) la (zs_y s) adm.
Proof.
  intros Hr. destruct planner_started as [Hz Hst _ [Ha Ho] Ht _ _]. destruct created_planner as (E & _ & _). pose proof (pl_lookahead _ _ _ _ Hfit) as Hl.
  pose proof (pl_bytes _ _ _ _ Hfit) as Hb. pose proof (pl_batch _ _ _ _ Hfit) as Hsp.
  apply (zsteps_zinv output limits la Hl Hb (Zsys z y) s []); [|by apply starts_rinv with (w := pw_w (y_x y))|done]. rewrite Hz, E.
  split; unfold since, passed, zs_w; cbn; rewrite ?Ha, ?Ho, ?Ht; cbn; try done. unfold staged. cbn. lia.
Qed.

(** Every sample staged is complete. *)
Lemma planner_staged s r : rtc (zstep output limits) (Zsys z y) s -> r ∈ since s -> is_ready r ->
  complete (max_shards_per_sample limits) (zs_w s) r /\ @sample_wf (world_view (zs_w s)) (planner_sample_of r).
Proof.
  intros Hr Hin Hre. destruct (planner_run s Hr) as (HI & Hrr & adm & HR). destruct planner_started as [Hz Hst Hms [Ha Ho] Ht Hg Hok].
  destruct created_planner as (E & _ & Hsh). pose proof (pl_lookahead _ _ _ _ Hfit) as Hl. pose proof (pl_shards _ _ _ _ Hfit) as Hs2. rewrite E in Hms. cbn in Hms.
  assert (Hidle : forall i, ml_idle (pw_w (y_x y)) (owner_gate i)) by (intros i v; by rewrite Hg).
  assert (Hok' : ml_ok (pw_w (y_x y))) by exact (Hok Hgood).
  destruct (ready_complete (max_shards_per_sample limits) output (max_plan_bytes limits) la (pw_w (y_x y)) y (zs_y s)
    ltac:(lia) Hl Hst Hms Hok' Hidle Hrr) as [Hc _]. unfold since in Hin.
  apply list_elem_of_lookup in Hin as [i Hi]. rewrite lookup_drop in Hi. apply Hc; [by eapply list_elem_of_lookup_2|exact Hre|].
  rewrite (out_number _ _ _ Hl _ _ _ _ HR Hi). pose proof (zi_target _ _ _ HI) as Htg.
  destruct (run_caches (max_shards_per_sample limits) ltac:(lia) (zarr_accepts output (max_plan_bytes limits)) la (pw_w (y_x y)) y (zs_y s)
    Hl Hst Hms Hok' Hidle Hrr) as [_ HC].
  destruct (ci_ok _ _ _ _ HC) as (_ & Hmk & _). cbn. change (meta_mark (zs_w s) <= Z.of_nat (Z.to_nat (mw_target (zs_w s)) + i)). change (meta_mark (zs_w s) <= mw_target (zs_w s)) in Hmk. lia.
Qed.
End planned.

(** C16: The planner, the prefetcher's worker and the two metadata caches run
    together, in any interleaving, from [damacy_chunk_planner_create] and
    [zarr_start]. The samples handed out are the samples pushed, in order. The staged
    samples are the ready ones among those handed out since the last plan; each is
    complete in the caches as they are now, so its entries cannot be evicted before it
    is planned. [zarr_pending] counts the pushed samples for which no plan was tried,
    those of a failed build no longer. When the fetched metadata is well-formed and a
    batch is full the plan builder returns, never with [DAMACY_AGAIN], the batch is
    cleared, and the watermark announced is the number of samples handed out; a plan
    that is returned uses exactly the chunks of the staged samples. *)
Theorem zarr_planner_plans metadata limits output la memz mem choices z0 z y s malloc :
  planner_fits metadata limits output la -> (forall t, Forall meta_move_good (ch_before (choices t))) ->
  damacy_chunk_planner_create memz (Some metadata) (Some limits) = inr z0 ->
  zarr_start mem choices z0 output la = Some (DAMACY_OK, Some (z, y)) -> rtc (zstep output limits) (Zsys z y) s ->
  (forall i r, y_out (zs_y s) !! i = Some r -> exists a, y_acc (zs_y s) !! i = Some a /\ ready_for r a) /\
  z_samples (zs_z s) = planner_sample_of <$> filter is_ready (since s) /\
  (forall r, r ∈ since s -> is_ready r -> complete (max_shards_per_sample limits) (zs_w s) r) /\
  zarr_pending (zs_z s) = zlen (y_acc (zs_y s)) - zlen (filter is_ready (passed s)) /\
  (staged (zs_z s) = samples_per_batch output ->
     exists st plan z', plan_staged malloc (zs_z s) (zs_w s) = Some (st, plan, z', Some (zlen (y_out (zs_y s)))) /\
       st <> DAMACY_AGAIN /\ z_samples z' = [] /\ zarr_pending z' = zarr_pending (zs_z s) - samples_per_batch output /\
       forall p, plan = Some p -> st = DAMACY_OK /\ @plan_ok (world_view (zs_w s)) (z_samples (zs_z s)) output limits p).
Proof.
  intros Hfit Hgood Hc Hs Hr. destruct (planner_run _ _ _ _ Hfit _ _ _ _ _ _ Hc Hs s Hr) as (HI & _ & adm & HR).
  pose proof (fun r => planner_staged _ _ _ _ Hfit _ _ _ _ _ _ Hgood Hc Hs s r Hr) as Hstaged.
  destruct (created_planner _ _ _ _ Hfit _ _ Hc) as (_ & Hch & _). pose proof (pl_lookahead _ _ _ _ Hfit) as Hl.
  pose proof (out_short _ _ _ Hl _ _ HR) as Hlen. pose proof HI as [I1 I2 I3 I4 I5 I6 I7 I8].
  assert (Hpl : zlen (filter is_ready (since s)) + zlen (filter is_ready (passed s)) <= zlen (y_out (zs_y s))).
  { pose proof (length_filter is_ready (since s)). pose proof (length_filter is_ready (passed s)). unfold since, passed in *.
    rewrite <-(take_drop (Z.to_nat (mw_target (zs_w s))) (y_out (zs_y s))) at 3. rewrite length_app. lia. }
  assert (Hpend : zarr_pending (zs_z s) = zlen (y_acc (zs_y s)) - zlen (filter is_ready (passed s))).
  { unfold zarr_pending. rewrite I3, I6. apply u64_id. clia. }
  assert (Hsz : zlen (z_samples (zs_z s)) = zlen (filter is_ready (since s))) by (by rewrite I5, length_fmap).
  split_and!; [|done|by intros r ? ?; apply Hstaged|done|].
  { intros i r Hi. destruct (ri_out _ _ _ _ HR i r Hi) as (a & Ha & Hra). destruct (rinv_split _ _ _ _ Hl HR) as (q & Hq & _).
    exists a. split; [|done]. rewrite Hq. by apply lookup_app_l_Some. }
  intros Hfull. unfold plan_staged. rewrite I1, I2. pose proof (pl_batch _ _ _ _ Hfit). pose proof (pl_rank _ _ _ _ Hfit). destruct (pl_chunks _ _ _ _ Hfit).
  pose proof (pl_shards _ _ _ _ Hfit). pose proof (pl_bytes _ _ _ _ Hfit). unfold DAMACY_MAX_CHUNKS_PER_BATCH in Hch. unfold staged in *.
  destruct (@plan_build_ok (world_view (zs_w s)) malloc (z_samples (zs_z s)) output limits) as (res & Hb & Hok); try lia.
  { rewrite I5. apply Forall_fmap, Forall_forall. intros r [? ?]%list_elem_of_filter. by apply Hstaged. }
  rewrite Hb. cbn [mbind option_bind].
  assert (Hset : Forall (@sample_settled (world_view (zs_w s))) (z_samples (zs_z s))).
  { rewrite I5. apply Forall_fmap, Forall_forall. intros r [? ?]%list_elem_of_filter. eapply complete_settled. by apply Hstaged. }
  assert (Hnot : match res with inl e => e | inr _ => DAMACY_OK end <> DAMACY_AGAIN).
  { intros E. apply (plan_build_again malloc _ output limits Hset res Hb). by destruct res; subst. }
  rewrite bool_decide_false by done. rewrite (I8 Hfull). eexists _, _, _. split; [done|]. split; [done|]. split; [done|]. split.
  - rewrite Hpend. unfold zarr_pending. cbn. rewrite I3, I6. unfold staged. rewrite Hfull, (u64_id (_ + _)) by clia. rewrite u64_id by clia. lia.
  - intros p. destruct res as [e|plan]; [done|]. intros [= ->]. split; [done|]. by apply Hok.
Qed.

(** A sample that failed stays pending for ever: only planned samples are taken off
    the count. *)
Theorem failed_stays_pending metadata limits output la memz mem choices z0 z y s :
  planner_fits metadata limits output la -> damacy_chunk_planner_create memz (Some metadata) (Some limits) = inr z0 ->
  zarr_start mem choices z0 output la = Some (DAMACY_OK, Some (z, y)) -> rtc (zstep output limits) (Zsys z y) s ->
  zlen (filter (fun r => ~ is_ready r) (y_out (zs_y s))) <= zarr_pending (zs_z s).
Proof.
  intros Hfit Hc Hs Hr. destruct (planner_run _ _ _ _ Hfit _ _ _ _ _ _ Hc Hs s Hr) as (HI & _ & adm & HR).
  pose proof (out_short _ _ _ (pl_lookahead _ _ _ _ Hfit) _ _ HR) as Hlen. pose proof HI as [_ _ I3 _ _ I6 _ _].
  set (l := y_out (zs_y s)) in *. assert (Hsplit : zlen (filter is_ready l) + zlen (filter (fun r => ~ is_ready r) l) = zlen l).
  { clear. induction l as [|r l IH]; [done|]. rewrite !filter_cons. destruct (decide (is_ready r)) as [Hr|Hr];
      [rewrite (decide_False (P := ~ is_ready r)) by tauto|rewrite (decide_True (P := ~ is_ready r)) by done]; cbn [length] in *; lia. }
  assert (Hle : zlen (filter is_ready (passed s)) <= zlen (filter is_ready l)).
  { unfold passed. fold l. rewrite <-(take_drop (Z.to_nat (mw_target (zs_w s))) l) at 2. rewrite filter_app, length_app. lia. }
  unfold zarr_pending. rewrite I3, I6, u64_id by clia. lia.
Qed.
