(* ===== verification/PrefetcherExample.v ===== *)
(** * Runs of the prefetcher, executed

    The steps of [PrefetcherOps.v] as a function of a schedule, a small pair of
    caches that keep the promises of [PrefetcherLaws.v], and a run in which a sample
    that touches two shards is pushed, admitted, completed and taken. *)

From stdpp Require Import strings.
From S2P Require Import Prelude Selection Plan PlanMain Hash DispatchTypes Lookahead PrefetchCache Prefetcher PrefetcherOps PrefetcherOrder PrefetcherDeliver PrefetcherLaws PrefetcherReady PrefetcherCaches PrefetcherClaims.

#[local] Open Scope Z_scope.

(** ** Schedules *)

(** Who moves next: the worker, a producer, the consumer, or the caches. *)
Inductive move (W : Type) := MWorker | MPush (s : damacy_sample) | MTake | MCaches (f : W -> W).
Arguments MWorker {W}.
Arguments MPush {W}.
Arguments MTake {W}.
Arguments MCaches {W}.

Section exec.
Context {W : Type} `{!MetaCaches W}.

Definition exec_worker (y : run W) : option (run W) :=
  let x := y_x y in let la := y_la y in let acc := y_acc y in let out := y_out y in
  match y_pc y with
  | WTop => Some (Run x la (if pf_stop (pw_pf x) then WDone else WLocking) acc out)
  | WLocking => r ← worker_scan (fun _ => (true, true)) x; let '(x', (slot, busy)) := r in Some (Run x' la (WScanned slot busy) acc out)
  | WScanned None _ => Some (Run x la WTop acc out)
  | WScanned (Some i) _ =>
      if has_stalled (pw_pf x) then Some (Run x la (WPopped i (stalled (pw_pf x))) acc out)
      else if 0 <? lookahead_size la then Some (Run (on_pf (transit 1) x) la (WCounted i) acc out)
      else Some (Run x la WTop acc out)
  | WCounted i => r ← lookahead_try_pop la; let '(r, la') := r in Some (Run x la' (match r with Some s => WPopped i s | None => WUncount end) acc out)
  | WPopped i s => r ← admit_locked x i s; let '(x', st) := r in
      Some (Run (fst (after_admit x' s st)) la (snd (after_admit x' s st)) acc out)
  | WUncount => Some (Run (on_pf (transit (-1)) x) la WTop acc out)
  | WDone => None
  end.

Definition exec (m : move W) (y : run W) : option (run W) :=
  match m with
  | MWorker => exec_worker y
  | MPush s =>
      r ← lookahead_push_with_sample_seq (fun _ => true) (Aabb [] 0, []) (y_la y) (Some s) (zlen (y_acc y));
      match r, query_copy (fun _ => true) (Some s) with
      | (0, la'), Some (inr (uri, aabb, axes)) =>
          if zlen (y_acc y) + 1 <? 2 ^ 64
          then Some (Run (y_x y) la' (y_pc y) (y_acc y ++ [SampleSlot (Some uri) aabb axes (zlen (y_acc y))]) (y_out y)) else None
      | _, _ => None
      end
  | MTake => r ← prefetcher_pop_ready (y_x y); let '(r, x') := r in Some (Run x' (y_la y) (y_pc y) (y_acc y) (y_out y ++ option_list r))
  | MCaches f => Some (Run (PW (pw_pf (y_x y)) (f (pw_w (y_x y)))) (y_la y) (y_pc y) (y_acc y) (y_out y))
  end.

Definition exec_all (l : list (move W)) (y : run W) : option (run W) := foldl (fun o m => o ≫= exec m) (Some y) l.

Definition move_ok (env : W -> W -> Prop) (valid : damacy_sample -> Prop) (m : move W) : Prop :=
  match m with MPush s => valid s | MCaches f => forall w, env w (f w) | _ => True end.

Lemma exec_sound env valid m y y' : move_ok env valid m -> exec m y = Some y' -> rstep env valid y y'.
Proof.
  destruct y as [x la pc acc out]. destruct m; cbn [exec move_ok y_x y_la y_pc y_acc y_out]; intros Hm He.
  - unfold exec_worker in He. cbn [y_x y_la y_pc y_acc y_out] in He. destruct pc as [| |[i|] busy|i|i s| |]; simplify_eq.
    + constructor.
    + destruct (worker_scan _ x) as [[x' [slot busy]]|] eqn:E; cbn in He; simplify_eq. by econstructor.
    + destruct (has_stalled (pw_pf x)) eqn:E; simplify_eq; [by constructor|].
      destruct (0 <? lookahead_size la) eqn:E2; simplify_eq; by constructor.
    + constructor.
    + destruct (lookahead_try_pop la) as [[r la']|] eqn:E; cbn in He; simplify_eq. by constructor.
    + destruct (admit_locked x i s) as [[x' st]|] eqn:E; cbn in He; simplify_eq. by constructor.
    + constructor.
  - destruct (lookahead_push_with_sample_seq _ _ la (Some s) _) as [[rc la']|] eqn:E; cbn [mbind option_bind] in He; [|done].
    destruct rc; [|done..]. destruct (query_copy _ (Some s)) as [[?|[[uri aabb] axes]]|] eqn:Ec; try done.
    destruct (Z.ltb_spec (zlen acc + 1) (2 ^ 64)) as [Hlt|]; [|done]. simplify_eq. econstructor; [done|exact Hlt|exact E|exact Ec].
  - destruct (prefetcher_pop_ready x) as [[r x']|] eqn:E; cbn in He; simplify_eq. by constructor.
  - simplify_eq. constructor. apply Hm.
Qed.

Lemma exec_all_none (l : list (move W)) : foldl (fun o m => o ≫= exec m) None l = None.
Proof. by induction l. Qed.

Lemma exec_all_sound env valid l y y' : Forall (move_ok env valid) l -> exec_all l y = Some y' -> rtc (rstep env valid) y y'.
Proof.
  intros Hl. revert y. unfold exec_all. induction Hl as [|m l Hm _ IH]; intros y He; cbn [foldl] in He; [by simplify_eq|].
  cbn [mbind option_bind] in He. destruct (exec m y) as [y1|] eqn:E; [|by rewrite exec_all_none in He].
  eapply rtc_l; [by eapply exec_sound|by apply IH].
Qed.
End exec.

(** ** A pair of caches *)

(** Entries are never removed. Every entry answers once [tw_done] is set. *)
Record toy := Toy { tw_metas : list (string * Z); tw_shards : list (shard_index_key * Z); tw_done : bool }.

Definition toy_meta : zarr_metadata := Meta dtype_u8 1 [16] [4] [8] true CODEC_NONE true (repeat 0 8).
Definition toy_index : shard_index_value := ShardIndex [ShardEntry 0 4; ShardEntry 4 4] 2.
Definition toy_handle {K} (l : list (K * Z)) : prefetch_handle := Handle (zlen l) 1.
(** The second shard does not exist. *)
Definition toy_view {V} (known : Z) (v : V) (w : toy) (h : prefetch_handle) : prefetch_state * option V * Z :=
  if tw_done w then if h_slot h <? known then (PREFETCH_STATE_READY, Some v, 0) else (PREFETCH_STATE_ERROR, None, status_code DAMACY_NOTFOUND)
  else (PREFETCH_STATE_PENDING, None, 0).

Definition toy_metas : cache_ops toy string zarr_metadata := {|
  co_request w _ k o _ := Some (Toy (tw_metas w ++ [(k, o)]) (tw_shards w) (tw_done w), Result (toy_handle (tw_metas w)) DAMACY_OK);
  co_query w h := Some (w, toy_view 5 toy_meta w h) |}.
Definition toy_shards : cache_ops toy shard_index_key shard_index_value := {|
  co_request w _ k o _ := Some (Toy (tw_metas w) (tw_shards w ++ [(k, o)]) (tw_done w), Result (toy_handle (tw_shards w)) DAMACY_OK);
  co_query w h := Some (w, toy_view 1 toy_index w h) |}.

#[export] Instance toy_caches : MetaCaches toy := {|
  array_meta_cache := toy_metas; shard_index_cache := toy_shards; chunk_layout_cache := None;
  gate_init w _ := w; gate_set_error w _ := Some w; gate_pending _ _ := Some 0 |}.

Record toy_step (w w' : toy) : Prop := {
  ts_metas : tw_metas w `prefix_of` tw_metas w';
  ts_shards : tw_shards w `prefix_of` tw_shards w';
  ts_done : tw_done w = true -> tw_done w' = true }.

#[export] Instance toy_laws : MetaLaws toy.
Proof.
  unshelve eapply Build_MetaLaws; [exact (fun _ => True)|exact (fun _ => toy_step)|exact (fun _ => 0)|exact (fun _ _ => True)|exact (fun _ _ => True)|..];
    try done; cbn; intros; simplify_eq; by repeat split.
Defined.

Lemma toy_stable {V} known (v : V) w w' h :
  toy_step w w' -> fst (fst (toy_view known v w h)) <> PREFETCH_STATE_PENDING -> toy_view known v w' h = toy_view known v w h.
Proof. intros [_ _ Hd]. unfold toy_view. destruct (tw_done w); [|done]. by rewrite Hd. Qed.

Definition toy_holds {K} (l : list (K * Z)) (k : K) (o : Z) (h : prefetch_handle) : Prop := exists i, h = Handle (Z.of_nat i) 1 /\ l !! i = Some (k, o).

Lemma toy_holds_new {K} (l : list (K * Z)) k o : toy_holds (l ++ [(k, o)]) k o (toy_handle l).
Proof. exists (length l). split; [done|]. by rewrite lookup_app_r, Nat.sub_diag by done. Qed.
Lemma toy_holds_prefix {K} (l l' : list (K * Z)) k o h : l `prefix_of` l' -> toy_holds l k o h -> toy_holds l' k o h.
Proof. intros Hp (i & -> & Hi). exists i. split; [done|]. by eapply prefix_lookup_Some. Qed.

#[export] Instance toy_meta_laws : CacheLaws (W := toy) array_meta_cache meta_wf.
Proof.
  unshelve eapply Build_CacheLaws; [exact (fun w => toy_holds (tw_metas w))|exact (toy_view 5 toy_meta)|..].
  - intros w hash k o gate w' r _ _ [= <- <-]. split; [|intros _; apply toy_holds_new]. split; cbn; [by apply prefix_app_r|done..].
  - intros w h w' a _ [= <- <-]. by split.
  - intros w h v _. unfold toy_view. repeat case_match; cbn; intros E; simplify_eq.
    split; [done|done|]. split_and!; (constructor; [done|constructor]).
  - intros w w' g k o h _ Hs _ Hh. split; [|by apply toy_stable]. eapply toy_holds_prefix; [apply Hs|done].
Defined.

#[export] Instance toy_shard_laws : CacheLaws (W := toy) shard_index_cache index_wf.
Proof.
  unshelve eapply Build_CacheLaws; [exact (fun w => toy_holds (tw_shards w))|exact (toy_view 1 toy_index)|..].
  - intros w hash k o gate w' r _ _ [= <- <-]. split; [|intros _; apply toy_holds_new]. split; cbn; [done|by apply prefix_app_r|done].
  - intros w h w' a _ [= <- <-]. by split.
  - intros w h v _. unfold toy_view. repeat case_match; cbn; intros E; by simplify_eq.
  - intros w w' g k o h _ Hs _ Hh. split; [|by apply toy_stable]. eapply toy_holds_prefix; [apply Hs|done].
Defined.

#[export] Instance toy_layouts : LayoutLaws toy.
Proof. by intros cl. Defined.

(** ** A run *)

(** Elements 6 to 11 of an array with shards of eight. *)
Definition toy_sample : damacy_sample := Sample (Some "a.zarr") 1 (AxisInterval (Interval 6 12) :: replicate 30 AxisOther).
Definition toy_output : damacy_batch_spec := BatchSpec 0 (6 :: replicate 30 0) 1 1.

Lemma toy_sample_accepted : zarr_accepts toy_output 4096 toy_sample.
Proof.
  split; [|split; [done|split; [vm_compute; reflexivity|intros uri [= <-]; done]]].
  split; [done|done| |done|]; repeat constructor; simpl; lia.
Qed.

Definition toy_start : run toy := Eval vm_compute in
  let p := Prefetcher (repeat slot_reset_free 2) (repeat (OwnerEntry 0 0 false) 2) 4 false false 0 slot_zero false (Counts 0 0 0) 0 in
  Run (PW (snd (prefetcher_start true p)) (Toy [] [] false)) (snd (lookahead_init (fun _ => true) la_none 3)) WTop [] [].

Lemma toy_starts : starts 3 (Toy [] [] false) toy_start.
Proof.
  exists (fun _ => true), (PfConfig 2 2 4 true true true). eexists _, la_none, _. split; [done|]. split; [reflexivity|]. split; reflexivity.
Qed.

(** The second sample is pushed while the first waits for its metadata. *)
Definition toy_answer (w : toy) : toy := Toy (tw_metas w) (tw_shards w) true.
Definition toy_admit : list (move toy) := MPush toy_sample :: replicate 6 MWorker ++ [MPush toy_sample; MWorker].
Definition toy_finish : list (move toy) := MCaches toy_answer :: replicate 14 MWorker.

Definition toy_run (l : list (move toy)) (y : run toy) : run toy := default y (exec_all l y).
Definition toy_middle : run toy := Eval vm_compute in toy_run toy_admit toy_start.
Definition toy_idle : run toy := Eval vm_compute in toy_run toy_finish toy_middle.
Definition toy_end : run toy := Eval vm_compute in toy_run [MTake; MTake] toy_idle.

Lemma toy_answers w : toy_step w (toy_answer w).
Proof. by split. Qed.

(** Every move of a concrete schedule is allowed. *)
Ltac allowed := repeat (apply Forall_cons_2; [first [exact I|done|apply toy_answers]|]); apply Forall_nil_2.

Section toy.
Context (valid : damacy_sample -> Prop) (Hv : valid toy_sample).
Notation rstep := (rstep (ml_step None) valid).

Lemma toy_to_middle : rtc rstep toy_start toy_middle.
Proof. apply (exec_all_sound _ _ toy_admit); [allowed|vm_compute; reflexivity]. Qed.
Lemma toy_to_idle : rtc rstep toy_middle toy_idle.
Proof. apply (exec_all_sound _ _ toy_finish); [allowed|vm_compute; reflexivity]. Qed.
Lemma toy_to_end : rtc rstep toy_idle toy_end.
Proof. apply (exec_all_sound _ _ [MTake; MTake]); [allowed|vm_compute; reflexivity]. Qed.
Lemma toy_drains : drains (ml_step None) valid toy_middle toy_idle.
Proof. econstructor; [apply toy_to_idle|reflexivity|apply rtc_refl|reflexivity|apply rtc_refl|reflexivity]. Qed.
End toy.

(** Two samples were pushed, both were handed out. *)
Lemma prefetcher_delivers_in_order_witness :
  length (y_out toy_end) = 2%nat /\ next_consume_seq (pw_pf (y_x toy_end)) = zlen (y_out toy_end).
Proof.
  assert (Hr : rtc (rstep (ml_step None) (fun _ => True)) toy_start toy_end).
  { etrans; [by apply toy_to_middle|]. etrans; [by apply toy_to_idle|by apply toy_to_end]. }
  destruct (prefetcher_delivers_in_order (ml_step None) (fun _ => True) 3 (Toy [] [] false) toy_start toy_end) as (adm & q & _ & _ & Hn & _);
    [done|apply toy_starts|exact Hr|]. split; [reflexivity|exact Hn].
Defined.

(** Draining waits for the sample in the lookahead and for the one in a slot. *)
Lemma prefetcher_drain_complete_witness :
  length (y_acc toy_middle) = 2%nat /\ y_out toy_idle = [] /\
  exists j t, pf_slots (pw_pf (y_x toy_idle)) !! j = Some t /\ slot_terminal t = true /\ pf_seq t = 1.
Proof.
  split; [reflexivity|]. split; [reflexivity|].
  destruct (prefetcher_drain_complete (ml_step None) (fun _ => True) 3 (Toy [] [] false) toy_start toy_middle toy_idle) with (i := 1%nat) (s := SampleSlot (Some "a.zarr"%string) (Aabb [Interval 6 12] 1) [query_axis_none] 1) as [(r & Hr & _)|(j & t & Hj & Ht & Ho)].
  - done.
  - apply toy_starts.
  - by apply toy_to_middle.
  - by apply toy_drains.
  - reflexivity.
  - done.
  - exists j, t. split; [exact Hj|]. split; [exact Ht|]. apply Ho.
Defined.
