(* ===== verification/ZarrPlannerExample.v ===== *)
(** * Runs of the planner, executed

    The steps of [ZarrPlannerRun.v] as a function of a schedule. In one run a sample
    that touches two shards, one of which does not exist, is pushed, fetched, staged
    and planned; in another the reader refuses a fetch. *)

From stdpp Require Import strings gmap.
From S2P Require Import Prelude Config Selection Plan PlanBuilder PlanMain Hash DispatchTypes Lookahead PrefetchCache SharedCache Prefetcher PrefetcherOps PrefetcherDeliver PrefetcherLaws PrefetcherReady PrefetcherClaims MetaWorld ZarrPlanner ZarrPlannerRun ZarrPlannerClaims PrefetcherExample.

#[local] Open Scope Z_scope.

(** ** Schedules *)

Inductive zmove := ZmWorker | ZmPush (s : damacy_sample) | ZmStage | ZmPlan | ZmCaches (m : meta_move).

Definition ample : Z -> bool := fun _ => true.
Definition nothing : damacy_aabb * list query_axis := (Aabb [] 0, []).

Definition zexec (m : zmove) (s : zsys) : option zsys :=
  let '(Zsys z y) := s in
  match m with
  | ZmWorker =>
      y' ← exec_worker y;
      if mw_target (pw_w (y_x y')) =? mw_target (pw_w (y_x y)) then Some (Zsys z y') else None
  | ZmPush s =>
      r ← push_one ample nothing z (pw_pf (y_x y)) (y_la y) s;
      let '(st, z', la') := (r : damacy_status * zarr_planner * damacy_lookahead) in
      if zlen (y_acc y) + 1 <? 2 ^ 64
      then Some (Zsys z' (Run (y_x y) la' (y_pc y) (y_acc y ++ if decide (st = DAMACY_OK) then pushed_slot ample s (z_pushed z) else []) (y_out y)))
      else None
  | ZmStage =>
      r ← stage_one z (y_x y);
      let '(_, out, z', x') := (r : option damacy_status * option prefetcher_ready * zarr_planner * pf_world meta_world) in
      if staged z <? samples_per_batch (z_output z) then Some (Zsys z' (Run x' (y_la y) (y_pc y) (y_acc y) (y_out y ++ option_list out))) else None
  | ZmPlan =>
      r ← plan_staged ample z (pw_w (y_x y));
      let '(_, _, z', m) := (r : damacy_status * option prepared_plan * zarr_planner * option Z) in
      if staged z =? samples_per_batch (z_output z)
      then Some (Zsys z' (Run (PW (pw_pf (y_x y)) (announced m (pw_w (y_x y)))) (y_la y) (y_pc y) (y_acc y) (y_out y))) else None
  | ZmCaches m =>
      w' ← run_move m (pw_w (y_x y));
      if mw_target w' =? mw_target (pw_w (y_x y)) then Some (Zsys z (Run (PW (pw_pf (y_x y)) w') (y_la y) (y_pc y) (y_acc y) (y_out y))) else None
  end.
Definition zexec_all (l : list zmove) (s : zsys) : option zsys := foldl (fun o m => o ≫= zexec m) (Some s) l.

Lemma exec_worker_keeps (y y' : run meta_world) : exec_worker y = Some y' -> y_acc y' = y_acc y /\ y_out y' = y_out y.
Proof.
  unfold exec_worker. intros H. destruct (y_pc y) as [| |[i|] busy|i|i s| |]; simplify_eq; try done.
  - destruct (worker_scan _ _) as [[x' [slot busy]]|]; cbn in H; by simplify_eq.
  - repeat case_match; by simplify_eq.
  - destruct (lookahead_try_pop _) as [[r la']|]; cbn in H; by simplify_eq.
  - destruct (admit_locked _ _ _) as [[x' st]|]; cbn in H; by simplify_eq.
Qed.

Section sound.
Context (output : damacy_batch_spec) (limits : damacy_plan_limits).

Definition zmove_ok (m : zmove) : Prop :=
  match m with ZmPush s => sample_small output limits s | ZmCaches m => meta_move_good m | _ => True end.

Lemma zexec_sound m s s' : zmove_ok m -> zexec m s = Some s' -> zstep output limits s s'.
Proof.
  destruct s as [z y]. destruct m as [|s| | |m]; cbn [zexec zmove_ok]; intros Hm He.
  - destruct (exec_worker y) as [y'|] eqn:E; cbn [mbind option_bind] in He; [|done]. destruct (Z.eqb_spec (mw_target (pw_w (y_x y'))) (mw_target (pw_w (y_x y)))); [|done].
    simplify_eq. destruct (exec_worker_keeps _ _ E). apply ZOther; try done. by apply (exec_sound _ _ MWorker).
  - destruct (push_one _ _ _ _ _ _) as [[[st z'] la']|] eqn:E; cbn [mbind option_bind] in He; [|done].
    destruct (Z.ltb_spec (zlen (y_acc y) + 1) (2 ^ 64)); [|done]. simplify_eq. by eapply ZPush.
  - destruct (stage_one _ _) as [[[[st out] z'] x']|] eqn:E; cbn [mbind option_bind] in He; [|done].
    destruct (Z.ltb_spec (staged z) (samples_per_batch (z_output z))); [|done]. simplify_eq. by eapply ZStage.
  - destruct (plan_staged _ _ _) as [[[[st plan] z'] mk]|] eqn:E; cbn [mbind option_bind] in He; [|done].
    destruct (Z.eqb_spec (staged z) (samples_per_batch (z_output z))); [|done]. simplify_eq. by eapply ZPlan.
  - destruct (run_move m _) as [w'|] eqn:E; cbn [mbind option_bind] in He; [|done]. destruct (Z.eqb_spec (mw_target w') (mw_target (pw_w (y_x y)))) as [Et|]; [|done].
    simplify_eq. apply ZOther; try done. destruct y as [[p w] la pc acc out]. apply RCaches, rtc_once. left. by eapply MsMove.
Qed.

Lemma zexec_all_none l : foldl (fun o m => o ≫= zexec m) None l = None.
Proof. by induction l. Qed.

Lemma zexec_all_sound l s s' : Forall zmove_ok l -> zexec_all l s = Some s' -> rtc (zstep output limits) s s'.
Proof.
  intros Hl. revert s. unfold zexec_all. induction Hl as [|m l Hm _ IH]; intros s He; cbn [foldl] in He; [by simplify_eq|].
  cbn [mbind option_bind] in He. destruct (zexec m s) as [s1|] eqn:E; [|by rewrite zexec_all_none in He].
  eapply rtc_l; [by eapply zexec_sound|by apply IH].
Qed.
End sound.

(** ** A planner for batches of one sample *)

Definition ex_metadata : damacy_metadata_cache_config := MetaConfig 4 8.
Definition ex_limits : damacy_plan_limits := Limits 64 4096 2 65536.
(** The [t]-th call gets a new address; [how] is what starting a fetch returns. *)
Definition ex_choices (how : launch_result) (t : nat) : choice := Choice [] (Memory true (Some (Pos.of_succ_nat (100 + t))) true) how.
Definition ex_memory : start_memory := StartMemory true (fun _ => true) (fun _ => true) (fun _ => true) true (fun _ => true) true.
Definition ex_planner : zarr_planner := ZarrPlanner ex_metadata ex_limits (BatchSpec 0 [] 0 0) 0 [] 0 0 0.
Definition ex_none : run meta_world :=
  Run (PW (Prefetcher [] [] 0 false false 0 slot_zero false (Counts 0 0 0) 0)
    (MetaWorld ∅ (new_cache (PCache (Lru.Lru [] 0 0 (Lru.Index [] 0 0 0 0) (Lru.Link Lru.Null Lru.Null) (Lru.Link Lru.Null Lru.Null) Lru.zero_counters []) 0 0 [] [] 0 0 0 0 0))
       (new_cache (PCache (Lru.Lru [] 0 0 (Lru.Index [] 0 0 0 0) (Lru.Link Lru.Null Lru.Null) (Lru.Link Lru.Null Lru.Null) Lru.zero_counters []) 0 0 [] [] 0 0 0 0 0))
       0 (fun _ => Choice [] (Memory false None false) NoContext) 0)) lookahead_zero WTop [] [].
Definition ex_started (how : launch_result) : zarr_planner * run meta_world :=
  match zarr_start ex_memory (ex_choices how) ex_planner toy_output 1 with
  | Some (DAMACY_OK, Some s) => s
  | _ => (ex_planner, ex_none)
  end.
Definition ex_start (how : launch_result) : zsys := Zsys (fst (ex_started how)) (snd (ex_started how)).

Definition ex_schedule : list zmove :=
  ZmPush toy_sample :: replicate 6 ZmWorker ++ ZmCaches (EndArray 0 (Some toy_meta) 0) :: replicate 4 ZmWorker ++
  [ZmCaches (EndShard 0 None (status_code DAMACY_NOTFOUND)); ZmCaches (EndShard 0 (Some toy_index) 0)] ++ replicate 4 ZmWorker ++ [ZmStage].
Definition ex_full : zsys := default (ex_start AsyncStarted) (zexec_all ex_schedule (ex_start AsyncStarted)).
Definition ex_refused : zsys := default (ex_start AsyncRefused) (zexec_all (ZmPush toy_sample :: replicate 10 ZmWorker) (ex_start AsyncRefused)).

Lemma ex_started_eq how : zarr_start ex_memory (ex_choices how) ex_planner toy_output 1 = Some (DAMACY_OK, Some (ex_started how)).
Proof. destruct how; vm_compute; reflexivity. Qed.

Lemma ex_planner_fits : planner_fits ex_metadata ex_limits toy_output 1.
Proof. split; cbn; unfold UINT32_MAX; lia. Qed.

Lemma ex_sample_small : sample_small toy_output ex_limits toy_sample.
Proof. split; [|intros uri [= <-]; done]. apply toy_sample_accepted. Qed.

Lemma toy_meta_wf : meta_wf toy_meta.
Proof. split; [done|done|]. split_and!; (constructor; [done|constructor]). Qed.
Lemma toy_index_wf : index_wf toy_index.
Proof. done. Qed.

Lemma ex_moves_ok : Forall (zmove_ok toy_output ex_limits) ex_schedule.
Proof.
  unfold ex_schedule. repeat (first [apply Forall_cons_2|apply Forall_app_2|apply Forall_nil_2|apply Forall_replicate]); cbn [zmove_ok]; try exact I.
  - apply ex_sample_small.
  - intros v [= <-]. apply toy_meta_wf.
  - by intros v.
  - intros v [= <-]. apply toy_index_wf.
Qed.

(** The run that stages the sample: it has two shards, one of which does not exist,
    and its plan has two chunks, one of them missing. *)
Lemma zarr_planner_plans_witness :
  staged (zs_z ex_full) = 1 /\ zarr_pending (zs_z ex_full) = 1 /\
  exists plan z', plan_staged ample (zs_z ex_full) (zs_w ex_full) = Some (DAMACY_OK, Some plan, z', Some 1) /\
    zarr_pending z' = 0 /\ (missing <$> chunks plan) = [false; true].
Proof.
  assert (Hr : rtc (zstep toy_output ex_limits) (ex_start AsyncStarted) ex_full).
  { apply (zexec_all_sound _ _ ex_schedule); [apply ex_moves_ok|vm_compute; reflexivity]. }
  destruct (zarr_planner_plans ex_metadata ex_limits toy_output 1 true ex_memory (ex_choices AsyncStarted) ex_planner
    (fst (ex_started AsyncStarted)) (snd (ex_started AsyncStarted)) ex_full ample ex_planner_fits) as (_ & _ & _ & Hpend & Hplan);
    [by intros t|vm_compute; reflexivity|rewrite ex_started_eq; by destruct (ex_started AsyncStarted)|exact Hr|].
  assert (Hst : staged (zs_z ex_full) = 1) by (vm_compute; reflexivity). split; [exact Hst|].
  assert (Hone : zarr_pending (zs_z ex_full) = 1) by (vm_compute; reflexivity). split; [exact Hone|].
  destruct (Hplan Hst) as (st & plan & z' & Hp & _ & _ & Hp' & _). rewrite Hone in Hp'. cbn in Hp'.
  vm_compute in Hp. injection Hp as <- <- <-. eexists _, _. split; [vm_compute; reflexivity|]. split; [exact Hp'|vm_compute; reflexivity].
Defined.

(** ** A fetch that cannot start *)

(** The state after the call of [zarr_next] that meets the sample. *)
Definition ex_lost : zsys := default ex_refused (zexec_all [ZmStage] ex_refused).

Lemma ex_refused_run : rtc (zstep toy_output ex_limits) (ex_start AsyncRefused) ex_refused.
Proof.
  apply (zexec_all_sound _ _ (ZmPush toy_sample :: replicate 10 ZmWorker)); [|vm_compute; reflexivity].
  apply Forall_cons_2; [apply ex_sample_small|]. by apply Forall_replicate.
Qed.
Lemma ex_lost_run : rtc (zstep toy_output ex_limits) ex_refused ex_lost.
Proof. apply (zexec_all_sound _ _ [ZmStage]); [by apply Forall_cons_2|vm_compute; reflexivity]. Qed.

(** C24: When the reader refuses to start a fetch, the sample that waits for it fails
    with [DAMACY_AGAIN]. The call of [zarr_next] that consumes the sample then returns
    what it returns when no sample is ready: no error is reported, the sample is in
    no plan, and it is pending in every later state. *)
Theorem refused_fetch_is_lost :
  rtc (zstep toy_output ex_limits) (ex_start AsyncRefused) ex_refused /\
  zarr_pending (zs_z ex_refused) = 1 /\ next_consume_seq (pw_pf (y_x (zs_y ex_refused))) = 0 /\
  zarr_next ample (zs_z ex_refused) (y_x (zs_y ex_refused)) = Some (DAMACY_AGAIN, None, zs_z ex_lost, y_x (zs_y ex_lost)) /\
  next_consume_seq (pw_pf (y_x (zs_y ex_lost))) = 1 /\ z_samples (zs_z ex_lost) = [] /\
  forall s, rtc (zstep toy_output ex_limits) ex_lost s -> 1 <= zarr_pending (zs_z s).
Proof.
  split; [apply ex_refused_run|]. repeat (split; [vm_compute; reflexivity|]). intros s Hs.
  assert (Hr : rtc (zstep toy_output ex_limits) (ex_start AsyncRefused) s).
  { etrans; [apply ex_refused_run|]. etrans; [apply ex_lost_run|exact Hs]. }
  etrans; [|eapply (failed_stays_pending ex_metadata ex_limits toy_output 1 true ex_memory (ex_choices AsyncRefused) ex_planner); [apply ex_planner_fits|vm_compute; reflexivity| |exact Hr]].
  - destruct (zsteps_out _ _ _ _ Hs) as [l ->]. rewrite filter_app, length_app.
    assert (length (filter (fun r => ~ is_ready r) (y_out (zs_y ex_lost))) = 1%nat) as -> by (vm_compute; reflexivity). lia.
  - rewrite ex_started_eq. by destruct (ex_started AsyncRefused).
Qed.
