(* ===== verification/Components.v ===== *)
(** * Batches and their buffers

    [src/src/pipeline/components.c]: the layout of an output batch, the readers and
    the metadata a pipeline is made of, and the reference counts of batches and the
    buffers behind them. *)

From stdpp Require Import gmap.
From S2P Require Import Prelude Config ConfigProof Selection Plan.

#[local] Open Scope Z_scope.

(** ** The layout of a batch *)

(** A product of [int64_t]; overflow is an error. *)
Definition i64_mul (a b : Z) : option Z := if (- 2 ^ 63 <=? a * b) && (a * b <=? INT64_MAX) then Some (a * b) else None.

(** Are the extents accepted, with the shape as far as it is written and the product. *)
Fixpoint layout_shape (n : nat) (extents shape : list Z) (d elements : Z) : option (bool * list Z * Z) :=
  match n with
  | O => Some (true, shape, elements)
  | S n =>
      extent ← aget extents d;
      if (extent <=? 0) || (INT64_MAX / extent <? elements) then Some (false, shape, elements)
      else shape ← aset shape (d + 1) extent; layout_shape n extents shape (d + 1) (u64 (elements * extent))
  end.

(** From dimension [n - 1] down. *)
Fixpoint layout_strides (n : nat) (shape strides : list Z) : option (list Z) :=
  match n with
  | O => Some strides
  | S d =>
      a ← aget strides (Z.of_nat d + 1);
      b ← aget shape (Z.of_nat d + 1);
      s ← i64_mul a b;
      strides ← aset strides (Z.of_nat d) s;
      layout_strides d shape strides
  end.

(** The caller's arrays [shape] and [strides], the status and the size in bytes. *)
Definition batch_spec_layout (spec : option damacy_batch_spec) (shape strides : list Z)
    : option (damacy_status * list Z * list Z * option Z) :=
  match spec with
  | None => Some (DAMACY_INVAL, shape, strides, None)
  | Some spec =>
      if (samples_per_batch spec =? 0) || (UINT16_MAX <? samples_per_batch spec) || (sample_rank spec =? 0) ||
         (DAMACY_MAX_RANK <? sample_rank spec) || (damacy_dtype_bpe (dtype spec) =? 0)
      then Some (DAMACY_INVAL, shape, strides, None)
      else
        shape ← aset shape 0 (samples_per_batch spec);
        r ← layout_shape (Z.to_nat (sample_rank spec)) (sample_shape spec) shape 0 (samples_per_batch spec);
        let '(accepted, shape, elements) := (r : bool * list Z * Z) in
        if negb accepted then Some (DAMACY_INVAL, shape, strides, None)
        else if SIZE_MAX / damacy_dtype_bpe (dtype spec) <? elements then Some (DAMACY_BUDGET, shape, strides, None)
        else
          strides ← aset strides (sample_rank spec) 1;
          strides ← layout_strides (Z.to_nat (sample_rank spec)) shape strides;
          Some (DAMACY_OK, shape, strides, Some (u64 (elements * damacy_dtype_bpe (dtype spec))))
  end.

(** *** Row-major arrays *)

Fixpoint volume (dims : list Z) : Z := match dims with [] => 1 | n :: dims => n * volume dims end.
Fixpoint row_major (dims : list Z) : list Z := match dims with [] => [] | _ :: dims => volume dims :: row_major dims end.
Fixpoint address (index strides : list Z) : Z :=
  match index, strides with i :: index, s :: strides => i * s + address index strides | _, _ => 0 end.
Definition inside (dims index : list Z) : Prop := Forall2 (fun n i => 0 <= i < n) dims index.

Lemma volume_pos dims : Forall (fun n => 0 < n) dims -> 0 < volume dims.
Proof. induction 1 as [|n dims Hn _ IH]; cbn; [lia|]. nia. Qed.

(** The addresses of the elements are the numbers below the volume, each once. *)
Lemma address_range dims index : inside dims index -> 0 <= address index (row_major dims) < volume dims.
Proof. induction 1 as [|n i dims index Hi _ IH]; cbn; [lia|]. nia. Qed.
Lemma address_inj dims i j : inside dims i -> inside dims j -> address i (row_major dims) = address j (row_major dims) -> i = j.
Proof.
  intros Hi. revert j. induction Hi as [|n a dims i Ha Hi IH]; intros j Hj; inversion Hj as [|? b ? j' Hb Hj']; subst; [done|]. cbn. intros E.
  pose proof (address_range _ _ Hi). pose proof (address_range _ _ Hj'). assert (a = b) as -> by nia. f_equal. apply IH; [done|lia].
Qed.

(** *** What the function computes *)

Record spec_fits (spec : damacy_batch_spec) : Prop := {
  sp_rank : is_u8 (sample_rank spec);
  sp_batch : is_u32 (samples_per_batch spec);
  sp_shape : zlen (sample_shape spec) = DAMACY_MAX_RANK;
  sp_extents : Forall (fun x => - 2 ^ 63 <= x <= INT64_MAX) (sample_shape spec) }.

Definition batch_dims (spec : damacy_batch_spec) : list Z := samples_per_batch spec :: take (Z.to_nat (sample_rank spec)) (sample_shape spec).

Record layout_valid (spec : damacy_batch_spec) : Prop := {
  lv_batch : 1 <= samples_per_batch spec <= UINT16_MAX;
  lv_rank : 1 <= sample_rank spec <= DAMACY_MAX_RANK;
  lv_type : 0 <= dtype spec < 10;
  lv_extents : Forall (fun n => 0 < n) (batch_dims spec);
  lv_volume : volume (batch_dims spec) <= INT64_MAX;
  lv_bytes : volume (batch_dims spec) * damacy_dtype_bpe (dtype spec) <= SIZE_MAX }.

Lemma volume_app l m : volume (l ++ m) = volume l * volume m.
Proof. induction l as [|x l IH]; cbn; [lia|]. rewrite IH. lia. Qed.

(** The shape as written: [pre] are the extents so far. *)
Lemma layout_shape_spec n extents pre rest elements :
  zlen pre + Z.of_nat n <= zlen extents + 1 -> (n <= length rest)%nat -> pre <> [] ->
  elements = volume pre -> 0 < elements <= INT64_MAX ->
  exists ok out e, layout_shape n extents (pre ++ rest) (zlen pre - 1) elements = Some (ok, out, e) /\ length out = length (pre ++ rest) /\
    let dims := take n (drop (length pre - 1) extents) in
    (ok = true <-> Forall (fun x => 0 < x) dims /\ elements * volume dims <= INT64_MAX) /\
    (ok = true -> out = pre ++ dims ++ drop n rest /\ e = elements * volume dims).
Proof.
  revert pre rest elements. induction n as [|n IH]; intros pre rest elements Hn Hr Hp He H0; cbn [layout_shape].
  { eexists _, _, _. split; [done|]. split; [done|]. rewrite take_0. cbn. split; [split; [intros _; split; [constructor|lia]|done]|].
    intros _. split; [done|lia]. }
  assert (Hpre : (0 < length pre)%nat) by (destruct pre; cbn; [done|lia]).
  destruct (aget_is_Some extents (zlen pre - 1)) as [x Hx]; [lia|]. rewrite Hx. cbn [mbind option_bind].
  assert (Hd : take (S n) (drop (length pre - 1) extents) = x :: take n (drop (length pre) extents)).
  { apply aget_lookup in Hx as [_ Hx]. replace (Z.to_nat (zlen pre - 1)) with (length pre - 1)%nat in Hx by lia.
    rewrite (drop_S _ _ _ Hx). cbn. f_equal. f_equal. f_equal. lia. }
  rewrite Hd. destruct (Z.leb_spec x 0) as [Hneg|Hpos]; cbn [orb].
  { eexists _, _, _. split; [done|]. split; [done|]. cbn. split; [|done]. split; [done|]. intros [Hf _]. inversion Hf. lia. }
  destruct (Z.ltb_spec (INT64_MAX / x) elements) as [Hbig|Hsmall].
  { eexists _, _, _. split; [done|]. split; [done|]. cbn. split; [|done]. split; [done|]. intros [Hf Hv]. inversion Hf as [|? ? _ Hf']; subst.
    pose proof (volume_pos _ Hf'). assert (INT64_MAX < volume pre * x); [|nia].
    pose proof (Z.mul_succ_div_gt INT64_MAX x ltac:(lia)). nia. }
  destruct rest as [|r0 rest]; [cbn in Hr; lia|]. cbn in Hr.
  replace (zlen pre - 1 + 1) with (zlen pre) by lia. rewrite aset_middle. cbn [mbind option_bind].
  assert (Hmul : elements * x <= INT64_MAX) by (pose proof (Z.mul_div_le INT64_MAX x ltac:(lia)); nia).
  rewrite u64_id by (unfold is_u64, INT64_MAX in *; nia).
  destruct (IH (pre ++ [x]) rest (elements * x)) as (ok & out & e & Hs & Hl & Hok & Hout).
  { rewrite length_app. cbn. lia. }
  { lia. }
  { by destruct pre. }
  { rewrite volume_app, He. cbn. lia. }
  { nia. }
  rewrite length_app in Hs, Hok, Hout. cbn [length] in Hs, Hok, Hout. replace (Z.of_nat (length pre + 1) - 1) with (zlen pre) in Hs by lia.
  rewrite <-app_assoc in Hs, Hl. cbn [app] in Hs, Hl. replace (length pre + 1 - 1)%nat with (length pre) in Hok, Hout by lia.
  exists ok, out, e. split; [done|]. split; [rewrite Hl, !length_app; done|]. cbn [volume].
  cbn in Hok, Hout. split.
  - rewrite Hok, Forall_cons. split; [intros [? ?]; split_and!; [lia|done|lia]|intros [[? ?] ?]; split; [done|lia]].
  - intros E. destruct (Hout E) as [-> ->]. split; [|lia]. by rewrite <-app_assoc.
Qed.

Lemma layout_strides_spec n shape dims done junk :
  length dims = n -> length junk = n -> take n (drop 1 shape) = dims -> (n < length shape)%nat ->
  0 < volume dims * done <= INT64_MAX -> Forall (fun x => 0 < x) dims -> 0 < done ->
  forall rest, layout_strides n shape (junk ++ done :: rest) = Some (((fun v => v * done) <$> row_major (1 :: dims)) ++ rest).
Proof.
  revert dims done junk. induction n as [|n IH]; intros dims dn junk Hd Hj Ht Hs Hv Hp Hdn rest; cbn [layout_strides].
  { destruct dims; [|done]. destruct junk; [|done]. cbn. do 2 f_equal. lia. }
  destruct dims as [|x dims' _] using rev_ind; [done|]. destruct junk as [|y junk' _] using rev_ind; [done|].
  rewrite length_app in Hd, Hj. cbn in Hd, Hj. apply Forall_app in Hp as [Hp Hx]. inversion Hx as [|? ? Hx0 _]; subst.
  assert (Hl' : length dims' = n) by lia. assert (Hl'' : length junk' = n) by lia.
  replace (Z.of_nat n + 1) with (zlen (junk' ++ [y])) by (rewrite length_app; cbn; lia). rewrite aget_middle. cbn [mbind option_bind].
  assert (Hsx : aget shape (zlen (junk' ++ [y])) = Some x).
  { apply aget_lookup. split; [lia|]. rewrite Nat2Z.id, length_app. cbn. rewrite Hl''.
    assert (Hk : take (S n) (drop 1 shape) !! n = Some x) by (rewrite Ht, lookup_app_r, Hl', Nat.sub_diag by lia; done).
    rewrite lookup_take_lt, lookup_drop in Hk by lia. by rewrite Nat.add_comm. }
  rewrite Hsx. cbn [mbind option_bind]. rewrite volume_app in Hv. cbn in Hv. pose proof (volume_pos _ Hp) as Hvp.
  assert (Hm : i64_mul dn x = Some (dn * x)).
  { unfold i64_mul. destruct (Z.leb_spec (- 2 ^ 63) (dn * x)); [|nia]. destruct (Z.leb_spec (dn * x) INT64_MAX); [done|nia]. }
  rewrite Hm. cbn [mbind option_bind]. rewrite <-app_assoc. cbn [app]. rewrite <-Hl'', aset_middle. cbn [mbind option_bind]. rewrite Hl''.
  rewrite (IH dims' (dn * x) junk'); try done; [| |lia|nia|nia].
  - f_equal. assert (Hrm : forall l y, row_major (y :: l ++ [x]) = ((fun v => v * x) <$> row_major (y :: l)) ++ [1]).
    { clear. induction l as [|a l IH]; intros y; [cbn; f_equal; lia|]. cbn [app]. change (row_major (y :: a :: l ++ [x])) with (volume (a :: l ++ [x]) :: row_major (a :: l ++ [x])).
      rewrite IH. change (a :: l ++ [x]) with ((a :: l) ++ [x]). rewrite volume_app. cbn. f_equal. lia. }
    rewrite Hrm, fmap_app, <-app_assoc. f_equal; [|cbn; f_equal; lia].
    rewrite <-list_fmap_compose. apply list_fmap_ext. intros i v _. cbn. lia.
  - assert (take n (drop 1 shape) = take n (take (S n) (drop 1 shape))) as -> by (rewrite take_take; f_equal; lia).
    rewrite Ht, take_app_le, take_ge by lia. done.
Qed.

Lemma dtype_bpe_small dt : 0 <= damacy_dtype_bpe dt <= 8.
Proof.
  unfold damacy_dtype_bpe. destruct (aget output_types dt) as [z|] eqn:E; cbn; [|lia].
  assert (z ∈ output_types) as Hz by (apply elem_of_aget; eauto). revert Hz. generalize z. apply Forall_forall.
  repeat constructor; discriminate.
Qed.

(** The function, on every branch. *)
Lemma batch_spec_layout_spec spec shape strides :
  spec_fits spec -> zlen shape = DAMACY_MAX_RANK + 1 -> zlen strides = DAMACY_MAX_RANK + 1 ->
  exists st shape' strides' bytes, batch_spec_layout (Some spec) shape strides = Some (st, shape', strides', bytes) /\
    (st = DAMACY_OK <-> layout_valid spec) /\
    (st = DAMACY_OK ->
       let n := Z.to_nat (sample_rank spec + 1) in let dims := batch_dims spec in
       take n shape' = dims /\ bytes = Some (volume dims * damacy_dtype_bpe (dtype spec)) /\ take n strides' = row_major dims).
Proof.
  intros [H1 H2 H3 H4] Hs Ht. unfold batch_spec_layout. destruct (_ || _) eqn:E.
  { eexists _, _, _, _. split; [done|]. split; [|done]. split; [done|]. intros [L1 L2 L3 _ _ _]. exfalso. rewrite !orb_true_iff in E.
    pose proof (proj2 (dtype_bpe_pos (dtype spec)) L3).
    destruct E as [[[[E%Z.eqb_eq|E%Z.ltb_lt]|E%Z.eqb_eq]|E%Z.ltb_lt]|E%Z.eqb_eq]; lia. }
  rewrite !orb_false_iff in E. destruct E as [[[[E1%Z.eqb_neq E2%Z.ltb_ge] E3%Z.eqb_neq] E4%Z.ltb_ge] E5%Z.eqb_neq].
  unfold is_u8, is_u32, DAMACY_MAX_RANK in *. destruct shape as [|s0 rest]; [cbn in Hs; lia|]. cbn in Hs.
  change (aset (s0 :: rest) 0 (samples_per_batch spec)) with (Some (samples_per_batch spec :: rest)). cbn [mbind option_bind].
  destruct (layout_shape_spec (Z.to_nat (sample_rank spec)) (sample_shape spec) [samples_per_batch spec] rest (samples_per_batch spec))
    as (ok & out & e & Hl & Hlen & Hok & Hout); [cbn; lia|lia|done|cbn; lia|unfold INT64_MAX, UINT16_MAX in *; lia|].
  cbn [length app] in Hl. change (Z.of_nat 1 - 1) with 0 in Hl. rewrite Hl. cbn [mbind option_bind]. cbn [length Nat.sub] in Hok, Hout. rewrite drop_0 in Hok, Hout. cbn in Hok.
  set (ext := take (Z.to_nat (sample_rank spec)) (sample_shape spec)) in *.
  assert (Hdims : batch_dims spec = samples_per_batch spec :: ext) by done.
  assert (Hvalid : layout_valid spec <-> ok = true /\ volume (batch_dims spec) * damacy_dtype_bpe (dtype spec) <= SIZE_MAX).
  { rewrite Hok. rewrite Hdims. cbn [volume]. split.
    - intros [_ _ _ L4 L5 L6]. rewrite Hdims in L4, L5, L6. apply Forall_cons in L4 as [_ L4]. done.
    - intros [[F V] B]. pose proof (dtype_bpe_small (dtype spec)). split; try (rewrite Hdims; cbn [volume]); try done; unfold DAMACY_MAX_RANK; try lia.
      + apply dtype_bpe_pos. lia.
      + by constructor; [lia|]. }
  destruct ok; cbn [negb]; [|eexists _, _, _, _; split; [done|]; split; [|done]; rewrite Hvalid; by split; [|intros []]].
  destruct (Hout eq_refl) as [-> ->]. destruct (proj1 Hok eq_refl) as [Hpos Hvol]. pose proof (volume_pos _ Hpos) as Hv0.
  pose proof (dtype_bpe_small (dtype spec)) as Hb. cbn [app]. rewrite Hdims in *. cbn [volume] in Hvalid.
  destruct (Z.ltb_spec (SIZE_MAX / damacy_dtype_bpe (dtype spec)) (samples_per_batch spec * volume ext)) as [Hbig|Hsmall].
  { eexists _, _, _, _. split; [done|]. split; [|done]. rewrite Hvalid. split; [done|]. intros [_ B]. exfalso.
    pose proof (Z.mul_succ_div_gt SIZE_MAX (damacy_dtype_bpe (dtype spec)) ltac:(lia)). nia. }
  assert (Hext : length ext = Z.to_nat (sample_rank spec)) by (unfold ext; rewrite length_take; lia).
  destruct (lookup_lt_is_Some_2 strides (Z.to_nat (sample_rank spec))) as [t0 Ht0]; [lia|].
  pose proof (take_drop_middle _ _ _ Ht0) as Hsplit. set (junk := take (Z.to_nat (sample_rank spec)) strides) in *.
  assert (Hjunk : length junk = Z.to_nat (sample_rank spec)) by (unfold junk; rewrite length_take; lia).
  assert (Hset : aset strides (sample_rank spec) 1 = Some (junk ++ 1 :: drop (S (Z.to_nat (sample_rank spec))) strides)).
  { rewrite <-Hsplit at 1. replace (sample_rank spec) with (zlen junk) at 2 by lia. apply aset_middle. }
  rewrite Hset. cbn [mbind option_bind].
  assert (Hbytes : samples_per_batch spec * volume ext * damacy_dtype_bpe (dtype spec) <= SIZE_MAX).
  { pose proof (Z.mul_div_le SIZE_MAX (damacy_dtype_bpe (dtype spec)) ltac:(lia)). nia. }
  rewrite (layout_strides_spec (Z.to_nat (sample_rank spec)) _ ext 1 junk); try done; try lia.
  - cbn [mbind option_bind]. eexists _, _, _, _. split; [done|]. split; [by rewrite Hvalid|]. intros _. set (n := Z.to_nat (sample_rank spec + 1)). set (dims := samples_per_batch spec :: ext).
    assert (Hrows : take n (((fun v => v * 1) <$> row_major (1 :: ext)) ++ drop (S (Z.to_nat (sample_rank spec))) strides) = row_major dims).
    { assert (Hrl : forall l, length (row_major l) = length l) by (induction l; cbn; congruence).
      rewrite take_app_le, take_ge by (rewrite length_fmap, Hrl; cbn; lia).
      rewrite (list_fmap_ext _ id) by (intros; cbn; lia). by rewrite list_fmap_id. }
    rewrite Hrows. split_and!; [| |done].
    + unfold n, dims. replace (Z.to_nat (sample_rank spec + 1)) with (S (Z.to_nat (sample_rank spec))) by lia. cbn. f_equal.
      by rewrite <-Hext, take_app_length.
    + rewrite u64_id by (unfold is_u64, SIZE_MAX, UINT64_MAX in *; nia). done.
  - cbn. rewrite skipn_O. rewrite <-Hext. by rewrite take_app_length.
  - cbn. rewrite length_app, Hext. lia.
  - nia.
Qed.

(** C25: [batch_spec_layout] stays in the caller's arrays and returns; it accepts
    exactly the specifications with a batch size, rank, type and extents in range whose
    elements can be counted in 63 bits and whose bytes in 64. It then gives the shape
    of the batch, its size, and row-major strides: every element has an address below
    the number of elements, and no two have the same. *)
Theorem batch_spec_layout_correct spec shape strides :
  spec_fits spec -> zlen shape = DAMACY_MAX_RANK + 1 -> zlen strides = DAMACY_MAX_RANK + 1 ->
  exists st shape' strides' bytes, batch_spec_layout (Some spec) shape strides = Some (st, shape', strides', bytes) /\
    (st = DAMACY_OK <-> layout_valid spec) /\
    (st = DAMACY_OK ->
       let n := Z.to_nat (sample_rank spec + 1) in let dims := batch_dims spec in
       take n shape' = dims /\ bytes = Some (volume dims * damacy_dtype_bpe (dtype spec)) /\
       (forall i, inside dims i -> 0 <= address i (take n strides') < volume dims) /\
       (forall i j, inside dims i -> inside dims j -> address i (take n strides') = address j (take n strides') -> i = j)).
Proof.
  intros Hf Hs Ht. destruct (batch_spec_layout_spec spec shape strides Hf Hs Ht) as (st & shape' & strides' & bytes & -> & Hst & Hok).
  exists st, shape', strides', bytes. split; [done|]. split; [done|]. intros E. cbv zeta. destruct (Hok E) as (H1 & H2 & H3). cbv zeta in H3. rewrite H3. split_and!; [done|done| |].
  - exact (fun i => address_range _ i).
  - exact (address_inj _).
Qed.

(** ** An example *)

Module Example.
Definition spec : damacy_batch_spec := BatchSpec 4 ([5; 7] ++ replicate 29 0) 2 3.

Lemma batch_spec_layout_correct_witness :
  exists shape' strides', batch_spec_layout (Some spec) (replicate 32 0) (replicate 32 0) = Some (DAMACY_OK, shape', strides', Some 420) /\
    take 3 shape' = [3; 5; 7] /\ take 3 strides' = [35; 7; 1] /\
    forall i j, inside [3; 5; 7] i -> inside [3; 5; 7] j -> address i [35; 7; 1] = address j [35; 7; 1] -> i = j.
Proof.
  destruct (batch_spec_layout_correct spec (replicate 32 0) (replicate 32 0)) as (st & shape' & strides' & bytes & E & Hst & Hok).
  { split; try done. unfold spec. cbn. repeat constructor; done. }
  { done. }
  { done. }
  vm_compute in E. injection E as <- <- <- <-. eexists _, _. split; [reflexivity|]. split; [reflexivity|]. split; [reflexivity|].
  destruct (Hok eq_refl) as (_ & _ & _ & Hinj). exact Hinj.
Defined.
End Example.
