(* ===== verification/CpuAssemble.v ===== *)
(** * Assembling a batch on the CPU

    [copy_row], [gather_chunk] and [assemble_chunk] of
    [src/src/executor/cpu_executor.c]: the decoded elements of a chunk go to their
    places in the output buffer, once for every use of the chunk; [decode_chunk] and
    [decode_one] decode it first. Buffers are arrays of elements, an element is its
    bytes. A cell of the output buffer is [None] until it is written. The theorems hold
    for every function [convert] in the place of [dtype_convert]
    ([src/src/dtype/convert.h]) and for all [decoders], which stand for the zstd and
    blosc libraries. *)

From stdpp Require Import strings.
From S2P Require Import Prelude Config Selection Plan Components.

#[local] Open Scope Z_scope.

Notation element := (list Z) (only parsing).
Notation cells := (list (option (list Z))) (only parsing).

Section assemble.
Context (convert : Z -> zdtype -> element -> element).

(** ** Rows *)

(** By the values of the enums: f32, bf16, u8 to u64, i8 to i64. *)
Definition dtype_matches (destination : Z) (source : zdtype) : bool :=
  match destination, source with
  | 0, dtype_f32 | 2, dtype_u8 | 3, dtype_u16 | 4, dtype_u32 | 5, dtype_u64 => true
  | 6, dtype_i8 | 7, dtype_i16 | 8, dtype_i32 | 9, dtype_i64 => true
  | _, _ => false
  end.

(** [value i] is what goes to place [i] of the row. *)
Fixpoint row_loop (n : nat) (buffer : cells) (destination : Z) (value : Z -> option element) (i : Z) : option cells :=
  match n with
  | O => Some buffer
  | S n =>
      v ← value i;
      buffer ← aset buffer (destination + i) (Some v);
      row_loop n buffer destination value (i + 1)
  end.

(** [source i] is the element [i] places after the source pointer. *)
Definition copy_row (buffer : cells) (destination : Z) (output : Z) (source : Z -> option element) (input : zdtype) (count : Z) (fill : bool)
    : option cells :=
  let n := Z.to_nat count in
  if negb fill && dtype_matches output input then row_loop n buffer destination source 0
  else if damacy_dtype_bpe output =? 0 then Some buffer
  else if fill then v ← source 0; row_loop n buffer destination (fun _ => Some (convert output input v)) 0
  else row_loop n buffer destination (fun i => e ← source i; Some (convert output input e)) 0.

(** The source pointer: the fill value, or the decoded elements from [source] on. *)
Definition row_source (chunk : plan_chunk) (meta : zarr_metadata) (decoded : list element) (source : Z) (i : Z) : option element :=
  if missing chunk then Some (take (Z.to_nat (dtype_bpe (m_dtype meta))) (m_fill_value meta)) else aget decoded (source + i).

(** ** The odometer *)

(** The dimensions below [n], the last one first. *)
Fixpoint advance (n : nat) (base limit position : list Z) : option (list Z * bool) :=
  match n with
  | O => Some (position, true)
  | S d =>
      p ← aget position (Z.of_nat d);
      lo ← aget base (Z.of_nat d);
      hi ← aget limit (Z.of_nat d);
      let p := u64 (p + 1) in
      if p <? hi then position ← aset position (Z.of_nat d) p; Some (position, false)
      else position ← aset position (Z.of_nat d) lo; advance d base limit position
  end.

(** [body] at every position from [position] on. *)
Fixpoint odometer (fuel rows : nat) (base limit : list Z) (body : list Z -> cells -> option cells) (position : list Z) (buffer : cells) : option cells :=
  match fuel with
  | O => None
  | S fuel =>
      buffer ← body position buffer;
      r ← advance rows base limit position;
      let '(position, finished) := (r : list Z * bool) in
      if finished then Some buffer else odometer fuel rows base limit body position buffer
  end.

(** ** Regions *)

Section region.
Context (output : Z) (strides : list Z) (chunk : plan_chunk) (region : plan_region) (meta : zarr_metadata) (decoded : list element).

(** The addresses of a row; [place d] is its coordinate and its output position in
    dimension [d]. *)
Fixpoint row_address (n : nat) (d : Z) (place : Z -> option (Z * Z)) (origin : list Z) (source destination : Z) : option (Z * Z) :=
  match n with
  | O => Some (source, destination)
  | S n =>
      xo ← place d;
      inner ← aget (inner_chunk_shape meta) d;
      o ← aget origin d;
      stride ← aget strides (d + 1);
      row_address n (d + 1) place origin (u64 (source * inner + fst xo - o)) (u64 (destination + snd xo * u64 stride))
  end.

Definition write_row (width : Z) (place : Z -> option (Z * Z)) (origin : list Z) (buffer : cells) : option cells :=
  stride ← aget strides 0;
  a ← row_address (Z.to_nat (m_rank meta)) 0 place origin 0 (u64 (sample region * u64 stride));
  copy_row buffer (snd a) output (row_source chunk meta decoded (fst a)) (m_dtype meta) width (missing chunk).

(** *** Regions with an indexed axis *)

Fixpoint gather_spans (n : nat) (d : Z) (origin : list Z) (spans : list selection_span) (elements : Z)
    : option (list Z * list selection_span * Z) :=
  match n with
  | O => Some (origin, spans, elements)
  | S n =>
      c ← aget (coordinate chunk) d;
      inner ← aget (inner_chunk_shape meta) d;
      axis ← aget (r_axes region) d;
      bounds ← aget (dims (r_source region)) d;
      let o := u64 (c * inner) in
      sp ← query_chunk_span axis bounds o inner;
      gather_spans n (d + 1) (origin ++ [o]) (spans ++ [sp]) (u64 (elements * sp_count sp))
  end.

(** The coordinate and the output position at place [p] of an axis. *)
Definition axis_place (axis : query_axis) (bounds : damacy_interval) (p : Z) : option (Z * Z) :=
  if negb (count axis =? 0) then e ← aget (indices axis) p; Some (u64 (source e), Selection.output e)
  else Some (p, u64 (p - u64 (beg bounds))).

Definition gather_place (spans : list selection_span) (position : list Z) (d : Z) : option (Z * Z) :=
  axis ← aget (r_axes region) d;
  bounds ← aget (dims (r_source region)) d;
  sp ← aget spans d;
  pos ← aget position d;
  axis_place axis bounds (u64 (sp_begin sp + pos)).

(** The buffer and the number of bytes. *)
Definition gather_chunk (buffer : cells) : option (cells * Z) :=
  r ← gather_spans (Z.to_nat (m_rank meta)) 0 [] [] 1;
  let '(origin, spans, elements) := (r : list Z * list selection_span * Z) in
  if elements =? 0 then Some (buffer, 0)
  else
    let last := m_rank meta - 1 in
    axis ← aget (r_axes region) last;
    sp ← aget spans last;
    let indexed := negb (count axis =? 0) in
    let zeros := replicate (length spans) 0 in
    buffer ← odometer (Z.to_nat elements) (Z.to_nat (if indexed then m_rank meta else last)) zeros (sp_count <$> spans)
      (fun position => write_row (if indexed then 1 else sp_count sp) (gather_place spans position) origin) zeros buffer;
    Some (buffer, u64 (elements * damacy_dtype_bpe output)).

(** *** Boxes *)

Fixpoint copy_bounds (n : nat) (d : Z) (origin lo hi : list Z) (bytes : Z) : option (list Z * list Z * list Z * Z) :=
  match n with
  | O => Some (origin, lo, hi, bytes)
  | S n =>
      c ← aget (coordinate chunk) d;
      inner ← aget (inner_chunk_shape meta) d;
      bounds ← aget (dims (r_source region)) d;
      let o := u64 (c * inner) in
      let b := u64 (beg bounds) in let e := u64 (end_ bounds) in
      let l := if b <? o then o else b in
      let ce := u64 (o + inner) in
      let h := if ce <? e then ce else e in
      copy_bounds n (d + 1) (origin ++ [o]) (lo ++ [l]) (hi ++ [h]) (u64 (bytes * u64 (h - l)))
  end.

Definition copy_place (position : list Z) (d : Z) : option (Z * Z) :=
  bounds ← aget (dims (r_source region)) d;
  x ← aget position d;
  Some (x, u64 (x - u64 (beg bounds))).

Definition copy_region (buffer : cells) : option (cells * Z) :=
  r ← copy_bounds (Z.to_nat (m_rank meta)) 0 [] [] [] (damacy_dtype_bpe output);
  let '(origin, lo, hi, bytes) := (r : list Z * list Z * list Z * Z) in
  l ← aget lo (m_rank meta - 1);
  h ← aget hi (m_rank meta - 1);
  buffer ← odometer (Z.to_nat bytes) (Z.to_nat (m_rank meta - 1)) lo hi (fun position => write_row (u64 (h - l)) (copy_place position) origin) lo buffer;
  Some (buffer, bytes).
End region.

(** ** A chunk *)

(** The uses from [u] on. *)
Fixpoint use_loop (fuel : nat) (output : Z) (strides : list Z) (plan : prepared_plan) (chunk : plan_chunk) (meta : zarr_metadata)
    (decoded : list element) (u : Z) (buffer : cells) (bytes : Z) : option (cells * Z) :=
  if u =? UINT32_MAX then Some (buffer, bytes)
  else
    match fuel with
    | O => None
    | S fuel =>
        use ← aget (uses plan) u;
        reg ← aget (regions plan) (region use);
        r ← match operation reg with
            | PLAN_GATHER => gather_chunk output strides chunk reg meta decoded buffer
            | PLAN_COPY => copy_region output strides chunk reg meta decoded buffer
            end;
        use_loop fuel output strides plan chunk meta decoded (next use) (fst r) (u64 (bytes + snd r))
    end.

Definition assemble_chunk (output : Z) (strides : list Z) (plan : prepared_plan) (chunk : plan_chunk) (decoded : list element) (buffer : cells)
    : option (cells * Z) :=
  arr ← aget (arrays plan) (array chunk);
  use_loop (length (uses plan)) output strides plan chunk (metadata arr) decoded (first_use chunk) buffer 0.

(** ** Decoding *)

(** What [decode_chunk] calls of the two libraries. [None] is an error; a list is the
    bytes written. *)
Record decoders := Decoders {
  ZSTD_decompressDCtx : list Z -> Z -> option (list Z);
  blosc_cbuffer_validate : list Z -> Z -> option Z;
  blosc_cbuffer_sizes : list Z -> Z * Z * Z;
  blosc_cbuffer_metainfo : list Z -> Z * Z;
  blosc_cbuffer_complib : list Z -> option string;
  blosc_decompress_ctx : list Z -> Z -> option (list Z);
  BLOSC_MIN_HEADER_LENGTH : Z; BLOSC_MAX_BUFFERSIZE : Z; BLOSC_MEMCPYED : Z;
  BLOSC_LZ4_LIBNAME : string; BLOSC_ZSTD_LIBNAME : string }.
Context (lib : decoders).

Definition decode_blosc (expected : string) (chunk : plan_chunk) (meta : zarr_metadata) (input : list Z) : damacy_status + list Z :=
  match blosc_cbuffer_validate lib input (encoded_bytes chunk) with
  | None => inl DAMACY_DECODE
  | Some size =>
      if negb (size =? decoded_bytes chunk) || (encoded_bytes chunk <? BLOSC_MIN_HEADER_LENGTH lib) then inl DAMACY_DECODE
      else
        let '(nbytes, cbytes, blocksize) := blosc_cbuffer_sizes lib input in
        let '(typesize, flags) := blosc_cbuffer_metainfo lib input in
        if (blocksize =? 0) || (size <? blocksize) || negb (typesize =? dtype_bpe (m_dtype meta)) || negb (cbytes =? encoded_bytes chunk) ||
           (BLOSC_MAX_BUFFERSIZE lib <? size) ||
           ((Z.land flags (BLOSC_MEMCPYED lib) =? 0) && negb (bool_decide (blosc_cbuffer_complib lib input = Some expected)))
        then inl DAMACY_DECODE
        else match blosc_decompress_ctx lib input size with
             | Some bytes => if (0 <? zlen bytes) && (zlen bytes =? size) then inr bytes else inl DAMACY_DECODE
             | None => inl DAMACY_DECODE
             end
  end.

(** The bytes behind [decoded]; nothing reads them when the chunk is missing. *)
Definition decode_chunk (chunk : plan_chunk) (meta : zarr_metadata) (input : list Z) : damacy_status + list Z :=
  if missing chunk then inr []
  else match inner_codec meta with
       | CODEC_NONE => if negb (encoded_bytes chunk =? decoded_bytes chunk) then inl DAMACY_DECODE else inr input
       | CODEC_ZSTD =>
           match ZSTD_decompressDCtx lib input (decoded_bytes chunk) with
           | Some bytes => if zlen bytes =? decoded_bytes chunk then inr bytes else inl DAMACY_DECODE
           | None => inl DAMACY_DECODE
           end
       | CODEC_BLOSC_LZ4 => decode_blosc (BLOSC_LZ4_LIBNAME lib) chunk meta input
       | CODEC_BLOSC_ZSTD => decode_blosc (BLOSC_ZSTD_LIBNAME lib) chunk meta input
       | CODEC_FILL => inl DAMACY_DECODE
       end.

(** Bytes as elements of [bpe] bytes. *)
Definition elements_of (bpe : Z) (bytes : list Z) : list element :=
  (fun i => take (Z.to_nat bpe) (drop (i * Z.to_nat bpe) bytes)) <$> seq 0 (length bytes / Z.to_nat bpe).

(** The entry of [wave->results], of [wave->output_bytes], and the buffer. *)
Definition decode_one (output : Z) (strides : list Z) (plan : prepared_plan) (chunk : plan_chunk) (input : list Z) (buffer : cells)
    : option (damacy_status * Z * cells) :=
  arr ← aget (arrays plan) (array chunk);
  match decode_chunk chunk (metadata arr) input with
  | inl st => Some (st, 0, buffer)
  | inr bytes =>
      r ← assemble_chunk output strides plan chunk (elements_of (dtype_bpe (m_dtype (metadata arr))) bytes) buffer;
      Some (DAMACY_OK, snd r, fst r)
  end.

(** The chunks of a plan in the order the workers take them; [input x] is what was
    read for chunk [x]. *)
Fixpoint decode_all (output : Z) (strides : list Z) (plan : prepared_plan) (input : Z -> list Z) (order : list Z) (buffer : cells)
    : option (list damacy_status * cells) :=
  match order with
  | [] => Some ([], buffer)
  | x :: order =>
      ck ← aget (chunks plan) x;
      r ← decode_one output strides plan ck (input x) buffer;
      rest ← decode_all output strides plan input order (snd r);
      Some (fst (fst r) :: fst rest, snd rest)
  end.
End assemble.

(** ** Writes *)

(** [want q v]: the value that belongs at address [q]. *)
Section writes.
Context (want : Z -> element -> Prop).

Definition written (b : cells) (q : Z) : Prop := exists v, aget b q = Some (Some v) /\ want q v.

(** From [b] to [b'] only right values were written, those at [where] among them. *)
Record improves (b b' : cells) (where_ : Z -> Prop) : Prop := {
  im_len : length b' = length b;
  im_change : forall q v, aget b' q = Some (Some v) -> aget b q = Some (Some v) \/ want q v;
  im_keep : forall q, written b q -> written b' q;
  im_new : forall q, where_ q -> written b' q }.

Lemma improves_refl b : improves b b (fun _ => False).
Proof. split; [done|by left|done|done]. Qed.
Lemma improves_trans b1 b2 b3 P Q : improves b1 b2 P -> improves b2 b3 Q -> improves b1 b3 (fun q => P q \/ Q q).
Proof. intros [A1 A2 A3 A4] [B1 B2 B3 B4]. split; [congruence| |auto|]; [intros q v [?|?]%B2; auto|intros q [?|?]; auto]. Qed.
Lemma improves_weaken b b' (P Q : Z -> Prop) : (forall q, Q q -> P q) -> improves b b' P -> improves b b' Q.
Proof. intros H [A1 A2 A3 A4]. split; auto. Qed.

Lemma improves_set b q v : want q v -> 0 <= q < zlen b -> exists b', aset b q (Some v) = Some b' /\ improves b b' (eq q).
Proof.
  intros Hw Hq. destruct (aset b q (Some v)) as [b'|] eqn:E; [|by rewrite aset_range in E]. exists b'. split; [done|].
  pose proof (aget_aset_eq _ _ _ _ E) as Hnew. split.
  - by eapply length_aset.
  - intros p x Hp. destruct (decide (q = p)) as [<-|Hne]; [right; congruence|]. rewrite (aget_aset_ne _ _ _ _ _ E Hne) in Hp. by left.
  - intros p (x & Hx & Hwx). destruct (decide (q = p)) as [<-|Hne]; [by exists v|]. exists x. by rewrite (aget_aset_ne _ _ _ _ _ E Hne).
  - intros p <-. by exists v.
Qed.

Lemma row_loop_spec n b destination value i :
  (forall k, i <= k < i + Z.of_nat n -> exists v, value k = Some v /\ want (destination + k) v) ->
  0 <= destination + i -> destination + i + Z.of_nat n <= zlen b ->
  exists b', row_loop n b destination value i = Some b' /\ improves b b' (fun q => destination + i <= q < destination + i + Z.of_nat n).
Proof.
  revert b i. induction n as [|n IH]; intros b i Hv H0 Hl; cbn [row_loop].
  { exists b. split; [done|]. eapply improves_weaken; [|apply improves_refl]. cbn. lia. }
  destruct (Hv i) as (v & -> & Hw); [lia|]. cbn [mbind option_bind].
  destruct (improves_set b (destination + i) v Hw) as (b1 & -> & Hi1); [lia|]. cbn [mbind option_bind].
  destruct (IH b1 (i + 1)) as (b2 & Hb2 & Hi2); [intros k Hk; apply Hv; lia|lia|rewrite (im_len _ _ _ Hi1); lia|].
  exists b2. split; [done|]. eapply improves_weaken; [|by eapply improves_trans]. intros q Hq. cbn in *. lia.
Qed.
End writes.

(** What [copy_row] stores for the element [e]. *)
Definition stored (convert : Z -> zdtype -> element -> element) (output : Z) (input : zdtype) (fill : bool) (e : element) : element :=
  if negb fill && dtype_matches output input then e else convert output input e.

Lemma copy_row_spec want convert b destination output source input count fill :
  0 < damacy_dtype_bpe output -> 0 < count -> 0 <= destination -> destination + count <= zlen b ->
  (forall k, 0 <= k < count -> exists e, source k = Some e /\ want (destination + k) (stored convert output input fill e)) ->
  (fill = true -> forall k, source k = source 0) ->
  exists b', copy_row convert b destination output source input count fill = Some b' /\
    improves want b b' (fun q => destination <= q < destination + count).
Proof.
  intros Ho Hc Hd Hl Hs Hf. unfold copy_row. assert (Hrow : forall value, (forall k, 0 <= k < count -> exists v, value k = Some v /\ want (destination + k) v) ->
    exists b', row_loop (Z.to_nat count) b destination value 0 = Some b' /\ improves want b b' (fun q => destination <= q < destination + count)).
  { intros value Hv. destruct (row_loop_spec want (Z.to_nat count) b destination value 0) as (b' & Hb & Hi); [intros k Hk; apply Hv; lia|lia|lia|].
    exists b'. split; [done|]. eapply improves_weaken; [|exact Hi]. cbn. intros q Hq. lia. }
  destruct (negb fill && dtype_matches output input) eqn:E.
  - apply Hrow. intros k Hk. destruct (Hs k Hk) as (e & He & Hw). unfold stored in Hw. rewrite E in Hw. by exists e.
  - rewrite (proj2 (Z.eqb_neq _ _)) by lia. destruct fill.
    + destruct (Hs 0) as (e & He & _); [lia|]. rewrite He. cbn [mbind option_bind]. apply Hrow. intros k Hk.
      destruct (Hs k Hk) as (e' & He' & Hw). rewrite Hf, He in He' by done. simplify_eq. eexists. split; [done|].
      unfold stored in Hw. by rewrite E in Hw.
    + apply Hrow. intros k Hk. destruct (Hs k Hk) as (e & -> & Hw). eexists. split; [done|]. unfold stored in Hw. by rewrite E in Hw.
Qed.

(** ** The odometer *)

(** The number of a position: how many come before it. *)
Definition extents (lo hi : list Z) : list Z := zip_with (fun h l => h - l) hi lo.
Definition number (lo hi position : list Z) : Z := address (zip_with Z.sub position lo) (row_major (extents lo hi)).

(** Every entry of [position] is between its bounds. *)
Definition between (lo hi position : list Z) : Prop :=
  length position = length lo /\ length hi = length lo /\
  forall i l h p, lo !! i = Some l -> hi !! i = Some h -> position !! i = Some p -> l <= p < h.

Lemma between_inside lo hi p : between lo hi p -> inside (extents lo hi) (zip_with Z.sub p lo).
Proof.
  intros (H1 & H2 & H). unfold inside, extents. apply Forall2_same_length_lookup. rewrite !length_zip_with. split; [lia|].
  intros i n x Hn Hx. rewrite lookup_zip_with in Hn, Hx. destruct (hi !! i) eqn:E1, (lo !! i) eqn:E2, (p !! i) eqn:E3; simplify_eq/=.
  specialize (H i _ _ _ E2 E1 E3). lia.
Qed.

Lemma row_major_snoc l x : row_major (l ++ [x]) = ((fun v => v * x) <$> row_major l) ++ [1].
Proof. induction l as [|a l IH]; cbn; [done|]. rewrite IH, volume_app. cbn. f_equal. lia. Qed.
Lemma address_scale i s x : address i ((fun v => v * x) <$> s) = address i s * x.
Proof. revert i. induction s as [|a s IH]; intros [|b i]; cbn; try lia. rewrite IH. lia. Qed.
Lemma address_app i j s t : length i = length s -> address (i ++ j) (s ++ t) = address i s + address j t.
Proof. revert s. induction i as [|a i IH]; intros [|b s] H; try done. cbn. rewrite IH by (cbn in H; lia). lia. Qed.
Lemma length_row_major l : length (row_major l) = length l.
Proof. induction l; cbn; congruence. Qed.

Lemma number_snoc lo hi p l h x : length p = length lo -> length hi = length lo ->
  number (lo ++ [l]) (hi ++ [h]) (p ++ [x]) = number lo hi p * (h - l) + (x - l).
Proof.
  intros H1 H2. unfold number, extents. rewrite !zip_with_app by lia. cbn. rewrite row_major_snoc, address_app, address_scale.
  - cbn. lia.
  - rewrite length_fmap, length_row_major, !length_zip_with. lia.
Qed.
Lemma extents_snoc lo hi l h : length hi = length lo -> extents (lo ++ [l]) (hi ++ [h]) = extents lo hi ++ [h - l].
Proof. intros H. unfold extents. by rewrite zip_with_app by lia. Qed.

Lemma between_snoc lo hi p l h x : length p = length lo ->
  between (lo ++ [l]) (hi ++ [h]) (p ++ [x]) <-> between lo hi p /\ l <= x < h.
Proof.
  intros Hl. split.
  - intros (H1 & H2 & H). rewrite !length_app in H2. cbn in H2. split; [split; [done|split; [lia|]]|].
    + intros i l' h' p' E1 E2 E3. apply (H i); by apply lookup_app_l_Some.
    + apply (H (length lo)); [by rewrite lookup_app_r, Nat.sub_diag|rewrite lookup_app_r by lia|rewrite lookup_app_r by lia].
      * by replace (length lo - length hi)%nat with 0%nat by lia.
      * by replace (length lo - length p)%nat with 0%nat by lia.
  - intros ((_ & H2 & H) & Hx). split; [rewrite !length_app; cbn; lia|]. split; [rewrite !length_app; cbn; lia|]. intros i l' h' p' E1 E2 E3.
    destruct (decide (i < length lo)%nat) as [Hi|Hi].
    + rewrite !lookup_app_l in E1, E2, E3 by lia. by apply (H i).
    + rewrite !lookup_app_r in E1, E2, E3 by lia. apply list_lookup_singleton_Some in E1 as [? <-].
      apply list_lookup_singleton_Some in E2 as [_ <-]. by apply list_lookup_singleton_Some in E3 as [_ <-].
Qed.

(** One step of the odometer on the first [n] entries. *)
Lemma position_advance_spec n lo hi p lo' hi' p' :
  length lo = n -> between lo hi p -> Forall (fun h => h < 2 ^ 64) hi -> Forall (fun l => 0 <= l) lo ->
  exists r finished, advance n (lo ++ lo') (hi ++ hi') (p ++ p') = Some (r ++ p', finished) /\ between lo hi r /\
    if (finished : bool) then number lo hi p = volume (extents lo hi) - 1 else number lo hi r = number lo hi p + 1.
Proof.
  revert lo hi p lo' hi' p'. induction n as [|n IH]; intros lo hi p lo' hi' p' Hn Hb Hh Hl; pose proof Hb as (H1 & H2 & H3); cbn [advance].
  { destruct lo; [|done]. destruct p; [|done]. destruct hi; [|done]. by exists [], true. }
  destruct lo as [|l lo _] using rev_ind; [done|]. destruct hi as [|h hi _] using rev_ind; [rewrite length_app in H2; cbn in H2; lia|].
  destruct p as [|x p _] using rev_ind; [rewrite length_app in H1; cbn in H1; lia|].
  rewrite ?length_app in H1. rewrite ?length_app in H2. rewrite length_app in Hn. cbn in H1, H2, Hn.
  assert (Hp : length p = n) by lia. assert (Hlo : length lo = n) by lia. assert (Hhi : length hi = n) by lia.
  apply between_snoc in Hb as [Hb Hx]; [|lia]. apply Forall_app in Hh as [Hh Hh1]. apply Forall_app in Hl as [Hl Hl1].
  rewrite Forall_singleton in Hh1. rewrite Forall_singleton in Hl1. rewrite <-!app_assoc. cbn [app].
  assert (Hat : forall (a : list Z) y a', length a = n -> aget (a ++ y :: a') (Z.of_nat n) = Some y) by (intros a y a' <-; apply aget_middle).
  assert (Hput : forall y, aset (p ++ x :: p') (Z.of_nat n) y = Some (p ++ y :: p')) by (intros y; rewrite <-Hp; apply aset_middle).
  rewrite !Hat by done. cbn [mbind option_bind]. rewrite u64_id by clia.
  destruct (Z.ltb_spec (x + 1) h) as [Hlt|Hge].
  - rewrite Hput. cbn [mbind option_bind]. exists (p ++ [x + 1]), false. rewrite <-app_assoc. split; [done|].
    split; [apply between_snoc; [lia|]; split; [done|lia]|]. rewrite !number_snoc by lia. lia.
  - rewrite Hput. cbn [mbind option_bind].
    destruct (IH lo hi p (l :: lo') (h :: hi') (l :: p') Hlo Hb Hh Hl) as (r & fin & -> & Hr & Hnum).
    pose proof Hr as (Hlr & _ & _). exists (r ++ [l]), fin. rewrite <-app_assoc. split; [done|]. split; [apply between_snoc; [lia|]; split; [done|lia]|].
    rewrite !number_snoc, extents_snoc, volume_app by lia. cbn. destruct fin; [rewrite Hnum; assert (h = x + 1) as -> by lia; lia|]. rewrite Hnum. assert (h = x + 1) as -> by lia. lia.
Qed.

Lemma number_range lo hi p : between lo hi p -> 0 <= number lo hi p < volume (extents lo hi).
Proof. intros H. by apply address_range, between_inside. Qed.
Lemma zip_sub_inj (p r lo : list Z) : length p = length lo -> length r = length lo -> zip_with Z.sub p lo = zip_with Z.sub r lo -> p = r.
Proof.
  revert p r. induction lo as [|l lo IH]; intros [|x p] [|y r] H1 H2 E; try done. cbn in *. injection E as E1 E2. f_equal; [lia|]. apply IH; [lia|lia|done].
Qed.
Lemma number_inj lo hi p r : between lo hi p -> between lo hi r -> number lo hi p = number lo hi r -> p = r.
Proof.
  intros Hp Hr E. apply (zip_sub_inj p r lo); [apply Hp|apply Hr|]. by apply (address_inj (extents lo hi)); [apply between_inside..|].
Qed.

Lemma odometer_spec want rows lo hi lo' hi' tail body (D : list Z -> Z -> Prop) len :
  length lo = rows -> Forall (fun h => h < 2 ^ 64) hi -> Forall (fun l => 0 <= l) lo ->
  (forall p b, between lo hi p -> length b = len -> exists b', body (p ++ tail) b = Some b' /\ improves want b b' (D (p ++ tail))) ->
  forall fuel p b, between lo hi p -> length b = len -> volume (extents lo hi) - number lo hi p <= Z.of_nat fuel ->
  exists b', odometer fuel rows (lo ++ lo') (hi ++ hi') body (p ++ tail) b = Some b' /\
    improves want b b' (fun q => exists r, between lo hi r /\ number lo hi p <= number lo hi r /\ D (r ++ tail) q).
Proof.
  intros Hn Hh Hl Hbody. induction fuel as [|fuel IH]; intros p b Hp Hb Hf; cbn [odometer].
  { pose proof (number_range _ _ _ Hp). lia. }
  destruct (Hbody p b Hp Hb) as (b1 & -> & Hi1). cbn [mbind option_bind].
  destruct (position_advance_spec rows lo hi p lo' hi' tail Hn Hp Hh Hl) as (r & fin & -> & Hr & Hnum). cbn [mbind option_bind]. destruct fin.
  - exists b1. split; [done|]. eapply improves_weaken; [|exact Hi1]. intros q (s & Hs & Hle & Hq). pose proof (number_range _ _ _ Hs).
    by rewrite (number_inj lo hi p s Hp Hs) by lia.
  - destruct (IH r b1 Hr) as (b2 & Hb2 & Hi2); [by rewrite (im_len _ _ _ _ Hi1)|lia|]. exists b2. split; [done|].
    eapply improves_weaken; [|by eapply improves_trans]. intros q (s & Hs & Hle & Hq). cbn.
    destruct (decide (number lo hi p = number lo hi s)) as [E|E]; [left; by rewrite (number_inj lo hi p s Hp Hs E)|]. right. exists s. split; [done|]. split; [lia|done].
Qed.

(** ** Addresses *)

Lemma u64_add_l a b : u64 (u64 a + b) = u64 (a + b).
Proof. unfold u64. by rewrite Zplus_mod_idemp_l. Qed.
Lemma u64_mul_l a b : u64 (u64 a * b) = u64 (a * b).
Proof. unfold u64. by rewrite Zmult_mod_idemp_l. Qed.

(** Rows of coordinates [xs] and output positions [os], from dimension [d] on. *)
Lemma row_address_spec strides meta place origin xs os inners origins strs d s t :
  length os = length xs -> length inners = length xs -> length origins = length xs -> length strs = length xs -> 0 <= d ->
  (forall k x o, xs !! k = Some x -> os !! k = Some o -> place (d + Z.of_nat k) = Some (x, o)) ->
  (forall k v, inners !! k = Some v -> aget (inner_chunk_shape meta) (d + Z.of_nat k) = Some v) ->
  (forall k v, origins !! k = Some v -> aget origin (d + Z.of_nat k) = Some v) ->
  (forall k v, strs !! k = Some v -> aget strides (d + Z.of_nat k + 1) = Some v /\ is_u64 v) ->
  is_u64 s -> is_u64 t ->
  row_address strides meta (length xs) d place origin s t =
    Some (u64 (s * volume inners + address (zip_with Z.sub xs origins) (row_major inners)), u64 (t + address os strs)).
Proof.
  revert os inners origins strs d s t. induction xs as [|x xs IH]; intros [|o os] [|inner inners] [|org origins] [|str strs] d s t H1 H2 H3 H4 Hd Hp Hi Ho Hs Hs0 Ht0; try done.
  { cbn. by rewrite !u64_id by (unfold is_u64 in *; lia); f_equal; f_equal; lia. }
  cbn [length row_address]. pose proof (Hp 0%nat x o eq_refl eq_refl) as P0. pose proof (Hi 0%nat inner eq_refl) as I0. pose proof (Ho 0%nat org eq_refl) as O0.
  destruct (Hs 0%nat str eq_refl) as [S0 Sr]. change (Z.of_nat 0) with 0 in *. rewrite Z.add_0_r in *. rewrite P0, I0, O0, S0. cbn [mbind option_bind fst snd].
  rewrite (u64_id str) by done.
  rewrite (IH os inners origins strs (d + 1)); cbn in H1, H2, H3, H4; try lia.
  - cbn. f_equal. f_equal.
    + rewrite <-(u64_add_l (u64 _ * _)), u64_mul_l, u64_add_l. f_equal. lia.
    + rewrite u64_add_l. f_equal. lia.
  - intros k x' o' Hx Ho'. replace (d + 1 + Z.of_nat k) with (d + Z.of_nat (S k)) by lia. by apply Hp.
  - intros k v Hv. replace (d + 1 + Z.of_nat k) with (d + Z.of_nat (S k)) by lia. by apply Hi.
  - intros k v Hv. replace (d + 1 + Z.of_nat k) with (d + Z.of_nat (S k)) by lia. by apply Ho.
  - intros k v Hv. replace (d + 1 + Z.of_nat k) with (d + Z.of_nat (S k)) by lia. by apply Hs.
  - apply u64_range.
  - apply u64_range.
Qed.
