(* ===== verification/CpuRegion.v ===== *)
(** * One use of a chunk

    [gather_chunk] and the copy loop of [assemble_chunk]
    ([src/src/executor/cpu_executor.c]) for a chunk and a region that touches it: every
    position of the sample whose source lies in the chunk is written with its element.
    Then the axes of a request: what [query_copy] made of an axis and what
    [query_chunk_span] answers for a chunk give the places of the axis in the chunk. *)

From stdpp Require Import strings.
From S2P Require Import Prelude Config Selection SelectionGrid Plan PlanMain PlanCorrect Components CpuAssemble.

#[local] Open Scope Z_scope.

(** ** One dimension *)

(** The source index at position [o] of an axis of a request. *)
Definition axis_source (a : damacy_axis_selection) (o : Z) : Z :=
  match a with AxisInterval iv => beg iv + o | AxisIndices (Some values) _ => default 0 (aget values o) | _ => 0 end.

(** An axis of a request as the plan stores it, with the cell of the chunk and the
    places of the axis in it. *)
Record dimension := Dim {
  dm_req : damacy_axis_selection; dm_bounds : damacy_interval; dm_axis : query_axis; dm_inner : Z; dm_cell : Z; dm_out : Z; dm_begin : Z; dm_count : Z }.

(** Position [o] of the output has its source in the chunk. *)
Definition falls (dm : dimension) (o : Z) : Prop := 0 <= o < dm_out dm /\ axis_source (dm_req dm) o / dm_inner dm = dm_cell dm.
Definition at_place (dm : dimension) (p o : Z) : Prop :=
  dm_begin dm <= p < dm_begin dm + dm_count dm /\ axis_place (dm_axis dm) (dm_bounds dm) p = Some (axis_source (dm_req dm) o, o).

Record dim_ok (dm : dimension) : Prop := {
  do_inner : 0 < dm_inner dm < 2 ^ 63 /\ 0 <= dm_cell dm * dm_inner dm < 2 ^ 63;
  do_count : 0 < dm_count dm <= dm_out dm /\ 0 <= dm_begin dm /\ dm_begin dm + dm_count dm < 2 ^ 64;
  do_span : query_chunk_span (dm_axis dm) (dm_bounds dm) (dm_cell dm * dm_inner dm) (dm_inner dm) = Some (Span (dm_begin dm) (dm_count dm));
  do_place : forall p, dm_begin dm <= p < dm_begin dm + dm_count dm -> exists o, at_place dm p o /\ falls dm o;
  do_onto : forall o, falls dm o -> exists p, at_place dm p o;
  do_flat : count (dm_axis dm) = 0 -> forall p, dm_begin dm <= p < dm_begin dm + dm_count dm -> at_place dm p (p - beg (dm_bounds dm)) }.

(** ** Vectors *)

(** Places [ps] of the axes hold positions [os]. *)
Fixpoint places (ds : list dimension) (ps os : list Z) : Prop :=
  match ds, ps, os with
  | [], [], [] => True
  | dm :: ds, p :: ps, o :: os => at_place dm p o /\ falls dm o /\ places ds ps os
  | _, _, _ => False
  end.
Definition all_fall (ds : list dimension) (os : list Z) : Prop := Forall2 falls ds os.
Definition sources (ds : list dimension) (os : list Z) : list Z := zip_with axis_source (map dm_req ds) os.
Definition begins (ds : list dimension) : list Z := map dm_begin ds.
Definition ends (ds : list dimension) : list Z := map (fun dm => dm_begin dm + dm_count dm) ds.

Lemma places_length ds ps os : places ds ps os -> length ps = length ds /\ length os = length ds.
Proof. revert ps os. induction ds as [|dm ds IH]; intros [|p ps] [|o os]; try done. intros (_ & _ & H). destruct (IH _ _ H). cbn. lia. Qed.
Lemma places_fall ds ps os : places ds ps os -> all_fall ds os.
Proof. revert ps os. induction ds as [|dm ds IH]; intros [|p ps] [|o os]; try done; [constructor|]. intros (_ & H & Hr). constructor; [done|by eapply IH]. Qed.
Lemma places_between ds ps os : places ds ps os -> between (begins ds) (ends ds) ps.
Proof.
  intros H. destruct (places_length _ _ _ H) as [Hl _]. split; [by unfold begins; rewrite length_fmap|]. split; [by unfold ends, begins; rewrite !length_fmap|].
  revert ps os H Hl. induction ds as [|dm ds IH]; intros [|p ps] [|o os] H Hl; try done. destruct H as ([Hr _] & _ & H).
  intros [|i] l h x; cbn; [intros; simplify_eq; lia|]. apply (IH ps os H). cbn in Hl. lia.
Qed.

Lemma places_of ds ps : Forall dim_ok ds -> between (begins ds) (ends ds) ps -> exists os, places ds ps os.
Proof.
  intros Hd. revert ps. induction Hd as [|dm ds Hdm _ IH]; intros ps (H1 & H2 & H); destruct ps as [|p ps]; cbn in H1; try done; [by exists []|].
  destruct (do_place _ Hdm p) as (o & Ho & Hf); [by apply (H 0%nat)|]. destruct (IH ps) as [os Hos].
  { split; [by injection H1|]. split; [by injection H2|]. intros i l h x E1 E2 E3. by apply (H (S i)). }
  by exists (o :: os).
Qed.
Lemma places_onto ds os : Forall dim_ok ds -> all_fall ds os -> exists ps, places ds ps os.
Proof.
  intros Hd Hf. induction Hf as [|dm o ds os Hf _ IH]; [by exists []|]. inversion Hd as [|? ? Hdm Hd']; subst.
  destruct (do_onto _ Hdm o Hf) as [p Hp]. destruct (IH Hd') as [ps Hps]. by exists (p :: ps).
Qed.

Lemma places_fun ds ps os os' : places ds ps os -> places ds ps os' -> os = os'.
Proof.
  revert ps os os'. induction ds as [|d l IH]; intros [|x ps] [|y os] [|y' os']; try done.
  intros ([_ A1] & _ & R1) ([_ A2] & _ & R2). rewrite A1 in A2. injection A2 as _ ->. f_equal. by eapply IH.
Qed.

Lemma all_fall_inside ds os : all_fall ds os -> inside (map dm_out ds) os.
Proof. induction 1 as [|dm o ds os Hf _ IH]; [constructor|]. constructor; [apply Hf|exact IH]. Qed.

Definition origins (ds : list dimension) : list Z := map (fun dm => dm_cell dm * dm_inner dm) ds.
Definition inners (ds : list dimension) : list Z := map dm_inner ds.

(** The source elements lie in the chunk. *)
Lemma falls_inside ds os : Forall dim_ok ds -> all_fall ds os -> inside (inners ds) (zip_with Z.sub (sources ds os) (origins ds)).
Proof.
  intros Hd Hf. induction Hf as [|dm o ds os Hf _ IH]; [constructor|]. inversion Hd as [|? ? Hdm Hd']; subst. constructor; [|by apply IH].
  destruct Hf as [_ <-]. pose proof (proj1 (do_inner _ Hdm)). pose proof (Z.mul_div_le (axis_source (dm_req dm) o) (dm_inner dm) ltac:(lia)).
  pose proof (Z.mul_succ_div_gt (axis_source (dm_req dm) o) (dm_inner dm) ltac:(lia)). lia.
Qed.

Lemma places_snoc ds dm ps p os o : places ds ps os -> at_place dm p o -> falls dm o -> places (ds ++ [dm]) (ps ++ [p]) (os ++ [o]).
Proof.
  revert ps os. induction ds as [|d ds IH]; intros [|x ps] [|y os] H Hp Hf; try done. destruct H as (H1 & H2 & H3). split; [done|]. split; [done|]. by apply IH.
Qed.
Lemma places_last ds dm ps os : places (ds ++ [dm]) ps os ->
  exists ps' p os' o, ps = ps' ++ [p] /\ os = os' ++ [o] /\ places ds ps' os' /\ at_place dm p o /\ falls dm o.
Proof.
  revert ps os. induction ds as [|d ds IH]; intros [|x ps] [|y os] H; try done; destruct H as (H1 & H2 & H3).
  - destruct ps, os; try done. by exists [], x, [], y.
  - destruct (IH _ _ H3) as (ps' & p & os' & o & -> & -> & ? & ? & ?). by exists (x :: ps'), p, (y :: os'), o.
Qed.

Lemma falls_snoc ds dm os o : all_fall (ds ++ [dm]) (os ++ [o]) <-> all_fall ds os /\ falls dm o.
Proof.
  unfold all_fall. split.
  - intros H. apply Forall2_app_inv in H as [H1 H2]; [by inversion H2|]. apply Forall2_length in H. rewrite !length_app in H. cbn in H. lia.
  - intros [H1 H2]. apply Forall2_app; [done|]. by constructor.
Qed.

Lemma address_snoc dims n i x : length i = length dims -> address (i ++ [x]) (row_major (dims ++ [n])) = address i (row_major dims) * n + x.
Proof. intros H. rewrite row_major_snoc, address_app, address_scale by (rewrite length_fmap, length_row_major; lia). cbn. lia. Qed.

(** Positions inside the spans are places of the axes. *)
Definition shifted (l : list dimension) (p : list Z) : list Z := zip_with Z.add (begins l) p.
Definition zeros (l : list dimension) : list Z := replicate (length l) 0.

Lemma shifted_at l p i dm y : l !! i = Some dm -> p !! i = Some y -> shifted l p !! i = Some (dm_begin dm + y).
Proof. intros E1 E2. unfold shifted, begins. by rewrite lookup_zip_with, list_lookup_fmap, E1, E2. Qed.
Lemma between_shifted l p : between (zeros l) (map dm_count l) p <-> length p = length l /\ between (begins l) (ends l) (shifted l p).
Proof.
  assert (Hb : forall i dm, l !! i = Some dm -> begins l !! i = Some (dm_begin dm) /\ ends l !! i = Some (dm_begin dm + dm_count dm)).
  { intros i dm E. unfold begins, ends. by rewrite !list_lookup_fmap, E. }
  split.
  - intros (H1 & _ & H3). unfold zeros in H1. rewrite length_replicate in H1. split; [done|]. split; [unfold shifted, begins; rewrite length_zip_with, length_map; lia|].
    split; [unfold begins, ends; by rewrite !length_map|]. intros i x h z E1 E2 E3.
    destruct (lookup_lt_is_Some_2 l i) as [dm Edm]; [apply lookup_lt_Some in E1; unfold begins in E1; by rewrite length_map in E1|].
    destruct (lookup_lt_is_Some_2 p i) as [y Ey]; [rewrite H1; by eapply lookup_lt_Some|]. destruct (Hb i dm Edm). rewrite (shifted_at _ _ _ _ _ Edm Ey) in E3. simplify_eq.
    specialize (H3 i 0 (dm_count dm) y). rewrite list_lookup_fmap, Edm in H3. unfold zeros in H3. rewrite lookup_replicate_2 in H3 by (by eapply lookup_lt_Some).
    specialize (H3 eq_refl eq_refl Ey). lia.
  - intros (H1 & _ & _ & H3). split; [unfold zeros; by rewrite length_replicate|]. split; [unfold zeros; by rewrite length_map, length_replicate|].
    intros i x h y E1 E2 E3. apply lookup_replicate in E1 as [-> Hi]. rewrite list_lookup_fmap in E2. destruct (l !! i) as [dm|] eqn:Edm; [|done]. cbn in E2. simplify_eq.
    destruct (Hb i dm Edm) as [B1 B2]. specialize (H3 i _ _ _ B1 B2 (shifted_at _ _ _ _ _ Edm E3)). lia.
Qed.
Lemma zeros_between l : Forall dim_ok l -> between (zeros l) (map dm_count l) (zeros l).
Proof.
  intros Hd. split; [done|]. split; [unfold zeros; by rewrite length_map, length_replicate|]. intros i x h y E1 E2 E3. unfold zeros in *.
  apply lookup_replicate in E1 as [-> _]. apply lookup_replicate in E3 as [-> _].
  rewrite list_lookup_fmap in E2. destruct (l !! i) as [dm|] eqn:Edm; [|done]. cbn in E2. simplify_eq. rewrite Forall_lookup in Hd. pose proof (do_count _ (Hd i dm Edm)). lia.
Qed.
Lemma zeros_extents l : extents (zeros l) (map dm_count l) = map dm_count l.
Proof. unfold extents, zeros. induction l as [|dm l IH]; cbn; [done|]. f_equal; [lia|done]. Qed.
(** Every place has its position. *)
Lemma shifted_onto l ps : between (begins l) (ends l) ps -> exists p, between (zeros l) (map dm_count l) p /\ shifted l p = ps.
Proof.
  intros Hp. pose proof Hp as (Hl & _ & _). unfold begins in Hl. rewrite length_map in Hl. exists (zip_with Z.sub ps (begins l)).
  assert (Hsh : shifted l (zip_with Z.sub ps (begins l)) = ps).
  { unfold shifted, begins. revert Hl. clear. revert ps. induction l as [|dm l IH]; intros [|p ps] Hl; try done. cbn in *. f_equal; [lia|]. apply IH. lia. }
  split; [|done]. apply between_shifted. rewrite Hsh. split; [|done]. unfold begins. rewrite length_zip_with, length_map. lia.
Qed.
Lemma counts_small l : Forall dim_ok l -> Forall (fun h => h < 2 ^ 64) (map dm_count l).
Proof. intros Hd. apply Forall_map. eapply Forall_impl; [exact Hd|]. intros dm Hdm. pose proof (do_count _ Hdm). lia. Qed.
Lemma zeros_pos l : Forall (fun x => 0 <= x) (zeros l).
Proof. apply Forall_replicate. lia. Qed.

(** ** A use *)

Section use.
Context (convert : Z -> zdtype -> element -> element) (output : Z) (strides : list Z) (chunk : plan_chunk) (region : plan_region) (meta : zarr_metadata) (decoded : list element).
Context (want : Z -> element -> Prop) (ds : list dimension) (batch : Z).

Definition target (os : list Z) : Z := address (sample region :: os) (row_major (batch :: map dm_out ds)).
Definition origin_of (os : list Z) : Z := address (zip_with Z.sub (sources ds os) (origins ds)) (row_major (inners ds)).
Definition total : Z := volume (batch :: map dm_out ds).

(** The chunk and the region are about the dimensions [ds], and [want] is what the
    positions in the chunk should hold. *)
Record use_ok : Prop := {
  uo_dims : Forall dim_ok ds;
  uo_rank : m_rank meta = zlen ds /\ 0 < zlen ds;
  uo_inner : forall k v, inners ds !! k = Some v -> aget (inner_chunk_shape meta) (Z.of_nat k) = Some v;
  uo_axes : forall k dm, ds !! k = Some dm -> aget (r_axes region) (Z.of_nat k) = Some (dm_axis dm) /\
    aget (dims (r_source region)) (Z.of_nat k) = Some (dm_bounds dm) /\ aget (coordinate chunk) (Z.of_nat k) = Some (dm_cell dm);
  uo_strides : take (S (length ds)) strides = row_major (batch :: map dm_out ds);
  uo_sample : 0 <= sample region < batch;
  uo_total : total <= INT64_MAX;
  uo_bytes : total * damacy_dtype_bpe output <= SIZE_MAX;
  uo_size : volume (inners ds) < 2 ^ 64;
  uo_type : 0 < damacy_dtype_bpe output;
  uo_want : forall os, all_fall ds os -> exists e, row_source chunk meta decoded (origin_of os) 0 = Some e /\
    want (target os) (stored convert output (m_dtype meta) (missing chunk) e) }.
Context (H : use_ok).

Lemma target_range os : all_fall ds os -> 0 <= target os < total.
Proof. intros Hf. apply address_range. constructor; [apply (uo_sample H)|]. by apply all_fall_inside. Qed.
Lemma origin_range os : all_fall ds os -> 0 <= origin_of os < 2 ^ 64.
Proof. intros Hf. pose proof (address_range _ _ (falls_inside _ _ (uo_dims H) Hf)). pose proof (uo_size H). unfold origin_of. lia. Qed.

Lemma row_source_shift s i : row_source chunk meta decoded s i = row_source chunk meta decoded (s + i) 0.
Proof. unfold row_source. by rewrite Z.add_0_r. Qed.

Lemma outs_pos : Forall (fun n => 0 < n) (map dm_out ds).
Proof. apply Forall_map. eapply Forall_impl; [exact (uo_dims H)|]. intros dm Hd. pose proof (do_count _ Hd). lia. Qed.

Lemma strides_at k v : row_major (batch :: map dm_out ds) !! k = Some v -> aget strides (Z.of_nat k) = Some v /\ is_u64 v.
Proof.
  intros Hk. split.
  - rewrite <-(uo_strides H) in Hk. pose proof (lookup_lt_Some _ _ _ Hk) as Hl. rewrite length_take in Hl. rewrite lookup_take_lt in Hk by lia. by rewrite aget_nat.
  - assert (Hb : 0 < batch) by (pose proof (uo_sample H); lia). pose proof (uo_total H) as Ht. pose proof outs_pos as Ho. unfold total in Ht. cbn [volume] in Ht.
    assert (Hs : forall l k v, Forall (fun n => 0 < n) l -> row_major l !! k = Some v -> 0 < v <= volume l).
    { clear. induction l as [|n l IH]; intros k v Hl Hk; [done|]. inversion Hl as [|? ? Hn Hl']; subst. pose proof (volume_pos _ Hl'). cbn [volume].
      destruct k as [|k]; cbn in Hk; [simplify_eq; nia|]. specialize (IH k v Hl' Hk). nia. }
    specialize (Hs (batch :: map dm_out ds) k v ltac:(by constructor) Hk). cbn [volume] in Hs. unfold is_u64, INT64_MAX in *. lia.
Qed.

(** A row that starts at the positions [os]. *)
Lemma write_row_spec place b os width :
  all_fall ds os -> (forall k x o, sources ds os !! k = Some x -> os !! k = Some o -> place (Z.of_nat k) = Some (x, o)) ->
  0 < width -> (forall i, 0 <= i < width -> exists r, all_fall ds r /\ target r = target os + i /\ origin_of r = origin_of os + i) ->
  zlen b = total ->
  exists b', write_row convert output strides chunk region meta decoded width place (origins ds) b = Some b' /\
    improves want b b' (fun q => target os <= q < target os + width).
Proof.
  intros Hf Hp Hw Hrow Hb. unfold write_row. destruct (uo_rank H) as [Hr Hr0]. pose proof (Forall2_length _ _ _ Hf) as Hlen.
  assert (Hsl : length (sources ds os) = length ds) by (unfold sources; rewrite length_zip_with, length_map; lia).
  destruct (strides_at 0 (volume (map dm_out ds)) eq_refl) as [Hs00 Hs0]. change (Z.of_nat 0) with 0 in Hs00. rewrite Hs00. cbn [mbind option_bind]. rewrite (u64_id (volume _)) by done.
  pose proof (target_range os Hf) as Ht. pose proof (origin_range os Hf) as Ho. pose proof (uo_total H) as Htot.
  replace (Z.to_nat (m_rank meta)) with (length (sources ds os)) by lia.
  rewrite (row_address_spec strides meta place (origins ds) (sources ds os) os (inners ds) (origins ds) (row_major (map dm_out ds)) 0 0).
  - cbn [mbind option_bind fst snd]. rewrite u64_add_l, Z.mul_0_l, Z.add_0_l. change (address _ (row_major (inners ds))) with (origin_of os).
    change (sample region * volume (map dm_out ds) + address os (row_major (map dm_out ds))) with (target os).
    rewrite !u64_id by (unfold is_u64, INT64_MAX in *; lia). apply copy_row_spec; [apply (uo_type H)|done|lia| | |].
    + destruct (Hrow (width - 1)) as (r & Hr1 & Hr2 & _); [lia|]. pose proof (target_range r Hr1). lia.
    + intros k Hk. destruct (Hrow k Hk) as (r & Hr1 & Hr2 & Hr3). destruct (uo_want H r Hr1) as (e & He & Hwe). exists e.
      rewrite row_source_shift, <-Hr3, <-Hr2. done.
    + intros Hm k. unfold row_source. by rewrite Hm.
  - lia.
  - unfold inners. rewrite length_map. lia.
  - unfold origins. rewrite length_map. lia.
  - rewrite length_row_major, length_map. lia.
  - lia.
  - intros k x o Hx Ho'. rewrite Z.add_0_l. by apply Hp.
  - intros k v Hv. rewrite Z.add_0_l. by apply (uo_inner H).
  - intros k v Hv. rewrite Z.add_0_l, aget_nat. done.
  - intros k v Hv. rewrite Z.add_0_l. replace (Z.of_nat k + 1) with (Z.of_nat (S k)) by lia. by apply strides_at.
  - done.
  - apply u64_range.
Qed.

(** *** Places and positions *)

Lemma places_at l ps os k dm p o : places l ps os -> l !! k = Some dm -> ps !! k = Some p -> os !! k = Some o -> at_place dm p o.
Proof.
  revert ps os k. induction l as [|d l IH]; intros [|x ps] [|y os] [|k] Hp E1 E2 E3; try done; destruct Hp as (H1 & _ & H3).
  - by simplify_eq/=.
  - by apply (IH ps os k).
Qed.
Lemma sources_at os k x : sources ds os !! k = Some x -> exists dm o, ds !! k = Some dm /\ os !! k = Some o /\ x = axis_source (dm_req dm) o.
Proof.
  unfold sources. rewrite lookup_zip_with, list_lookup_fmap. destruct (ds !! k) as [dm|]; cbn; [|done]. destruct (os !! k) as [o|]; cbn; [|done].
  intros [= <-]. by exists dm, o.
Qed.

Definition span_of (dm : dimension) : selection_span := Span (dm_begin dm) (dm_count dm).

Lemma gather_place_at p os k x o :
  places ds (shifted ds p) os -> sources ds os !! k = Some x -> os !! k = Some o -> gather_place region (map span_of ds) p (Z.of_nat k) = Some (x, o).
Proof.
  intros Hp Hx Ho. apply sources_at in Hx as (dm & o' & Hd & Ho' & ->). assert (o' = o) as -> by congruence. destruct (places_length _ _ _ Hp) as [Hl _].
  destruct (lookup_lt_is_Some_2 (shifted ds p) k) as [q Hq]; [rewrite Hl; by eapply lookup_lt_Some|]. pose proof (places_at _ _ _ _ _ _ _ Hp Hd Hq Ho) as [Hr Ha].
  destruct (p !! k) as [y|] eqn:Ey.
  2:{ apply lookup_ge_None in Ey. apply lookup_lt_Some in Hq. unfold shifted in Hq. rewrite length_zip_with in Hq. lia. }
  rewrite (shifted_at _ _ _ _ _ Hd Ey) in Hq. injection Hq as <-. destruct (uo_axes H k dm Hd) as (E1 & E2 & _).
  unfold gather_place. rewrite E1, E2. cbn [mbind option_bind]. rewrite !aget_nat, list_lookup_fmap, Hd. cbn [fmap option_fmap option_map mbind option_bind]. rewrite Ey. cbn.
  pose proof (uo_dims H) as Hds. rewrite Forall_lookup in Hds. pose proof (do_count _ (Hds k dm Hd)). rewrite u64_id by clia. exact Ha.
Qed.

Lemma copy_place_at p os k x o :
  Forall (fun dm => count (dm_axis dm) = 0) ds -> places ds p os -> sources ds os !! k = Some x -> os !! k = Some o ->
  copy_place region p (Z.of_nat k) = Some (x, o).
Proof.
  intros Hflat Hp Hx Ho. apply sources_at in Hx as (dm & o' & Hd & Ho' & ->). assert (o' = o) as -> by congruence. destruct (places_length _ _ _ Hp) as [Hl _].
  destruct (lookup_lt_is_Some_2 p k) as [q Hq]; [rewrite Hl; by eapply lookup_lt_Some|]. pose proof (places_at _ _ _ _ _ _ _ Hp Hd Hq Ho) as [Hr Ha].
  destruct (uo_axes H k dm Hd) as (_ & E2 & _). unfold copy_place. rewrite E2. cbn [mbind option_bind]. rewrite aget_nat, Hq. cbn.
  rewrite Forall_lookup in Hflat. unfold axis_place in Ha. by rewrite (Hflat k dm Hd) in Ha.
Qed.

(** *** Rows along the last dimension *)

Lemma flat_place dm p : dim_ok dm -> count (dm_axis dm) = 0 -> dm_begin dm <= p < dm_begin dm + dm_count dm ->
  at_place dm p (p - beg (dm_bounds dm)) /\ falls dm (p - beg (dm_bounds dm)) /\ axis_source (dm_req dm) (p - beg (dm_bounds dm)) = p.
Proof.
  intros Hd Hc Hp. pose proof (do_flat _ Hd Hc p Hp) as Ha. destruct (do_place _ Hd p Hp) as (o & [Hr Ho] & Hf). pose proof Ha as [_ Ha'].
  rewrite Ho in Ha'. injection Ha' as Es Eo. split; [done|]. rewrite <-Eo in *. split; [done|]. unfold axis_place in Ho. rewrite Hc in Ho. cbn in Ho. injection Ho as -> _. done.
Qed.

Lemma row_shift ds0 dl os0 o i :
  ds = ds0 ++ [dl] -> count (dm_axis dl) = 0 -> all_fall ds0 os0 -> o = dm_begin dl - beg (dm_bounds dl) -> 0 <= i < dm_count dl ->
  all_fall ds (os0 ++ [o + i]) /\ target (os0 ++ [o + i]) = target (os0 ++ [o]) + i /\ origin_of (os0 ++ [o + i]) = origin_of (os0 ++ [o]) + i.
Proof.
  intros E Hc Hf -> Hi. pose proof (uo_dims H) as Hd. rewrite E in Hd. apply Forall_app in Hd as [_ Hd]. pose proof (proj1 (Forall_singleton _ _) Hd) as Hdl.
  destruct (flat_place dl (dm_begin dl + i) Hdl Hc) as (_ & F1 & S1); [lia|]. destruct (flat_place dl (dm_begin dl) Hdl Hc) as (_ & _ & S0); [lia|].
  replace (dm_begin dl + i - beg (dm_bounds dl)) with (dm_begin dl - beg (dm_bounds dl) + i) in * by lia. pose proof (Forall2_length _ _ _ Hf) as Hl.
  split; [rewrite E; by apply falls_snoc|]. split.
  - unfold target. rewrite E, map_app. cbn [map]. change (?a :: ?l ++ ?r) with ((a :: l) ++ r). rewrite !address_snoc by (cbn; rewrite length_map; lia). lia.
  - unfold origin_of, sources, origins, inners. rewrite E, !map_app. cbn [map].
    rewrite !(zip_with_app axis_source) by (rewrite length_map; lia). cbn. rewrite !(zip_with_app Z.sub) by (rewrite length_zip_with, !length_map; lia). cbn.
    rewrite !address_snoc by (rewrite !length_zip_with, !length_map; lia). lia.
Qed.

(** *** Whole regions *)

Definition covered (q : Z) : Prop := exists os, all_fall ds os /\ q = target os.
Notation row width place := (write_row convert output strides chunk region meta decoded width place (origins ds)).

Lemma number_start lo hi : number lo hi lo = 0.
Proof.
  unfold number. generalize (row_major (extents lo hi)). induction lo as [|l lo IH]; intros [|n s]; try done. cbn [zip_with address]. rewrite IH. lia.
Qed.

Lemma places_split ds0 dl ps0 os : ds = ds0 ++ [dl] -> count (dm_axis dl) = 0 -> places ds (ps0 ++ [dm_begin dl]) os ->
  exists os0, os = os0 ++ [dm_begin dl - beg (dm_bounds dl)] /\ places ds0 ps0 os0.
Proof.
  intros E Hc Hp. pose proof (uo_dims H) as Hd. rewrite E in Hd, Hp. apply Forall_app in Hd as [_ Hd]. pose proof (proj1 (Forall_singleton _ _) Hd) as Hdl.
  apply places_last in Hp as (ps' & p & os' & o & Eq & -> & Hp & [Hr Ha] & Hf). apply app_inj_tail in Eq as [<- <-]. exists os'. split; [|done]. do 2 f_equal.
  destruct (flat_place dl (dm_begin dl) Hdl Hc) as ([_ Ha'] & _ & _); [lia|]. rewrite Ha in Ha'. by injection Ha'.
Qed.

(** The last dimension is copied as rows. *)
Lemma flat_region ds0 dl lo hi lo' hi' tail placef abs fuel b :
  ds = ds0 ++ [dl] -> count (dm_axis dl) = 0 -> length lo = length ds0 -> Forall (fun h => h < 2 ^ 64) hi -> Forall (fun l => 0 <= l) lo ->
  (forall p, between lo hi p -> between (begins ds0) (ends ds0) (abs p)) ->
  (forall ps, between (begins ds0) (ends ds0) ps -> exists p, between lo hi p /\ abs p = ps) ->
  (forall p os k x o, between lo hi p -> places ds (abs p ++ [dm_begin dl]) os -> sources ds os !! k = Some x -> os !! k = Some o ->
     placef (p ++ tail) (Z.of_nat k) = Some (x, o)) ->
  between lo hi lo -> volume (extents lo hi) <= Z.of_nat fuel -> zlen b = total ->
  exists b', odometer fuel (length ds0) (lo ++ lo') (hi ++ hi') (fun position => row (dm_count dl) (placef position)) (lo ++ tail) b = Some b' /\
    improves want b b' covered.
Proof.
  intros E Hc Hn Hh Hl Habs Honto Hplace Hstart Hfuel Hb. pose proof (uo_dims H) as Hd. rewrite E in Hd. apply Forall_app in Hd as [Hd0 Hd].
  pose proof (proj1 (Forall_singleton _ _) Hd) as Hdl. pose proof (do_count _ Hdl) as Hcnt. destruct (flat_place dl (dm_begin dl) Hdl Hc) as (Ha & Hf & _); [lia|].
  set (o := dm_begin dl - beg (dm_bounds dl)) in *.
  destruct (odometer_spec want (length ds0) lo hi lo' hi' tail (fun position => row (dm_count dl) (placef position))
    (fun pt q => exists p os0, pt = p ++ tail /\ between lo hi p /\ places ds0 (abs p) os0 /\ target (os0 ++ [o]) <= q < target (os0 ++ [o]) + dm_count dl)
    (length b) Hn Hh Hl) with (fuel := fuel) (p := lo) (b := b) as (b' & -> & Hi).
  - intros p b1 Hp Hb1. destruct (places_of ds0 (abs p) Hd0 (Habs p Hp)) as [os0 Hos0]. pose proof (places_snoc _ _ _ _ _ _ Hos0 Ha Hf) as Hos. rewrite <-E in Hos.
    pose proof (places_fall _ _ _ Hos0) as Hf0.
    destruct (write_row_spec (placef (p ++ tail)) b1 (os0 ++ [o]) (dm_count dl)) as (b2 & Hb2 & Hi2).
    + by eapply places_fall.
    + intros k x y Hx Hy. by eapply Hplace.
    + lia.
    + intros i Hi. eexists. by eapply (row_shift ds0 dl os0 o i).
    + lia.
    + exists b2. split; [done|]. eapply improves_weaken; [|exact Hi2]. intros q (p' & os' & Eq & _ & Hos' & Hq). apply app_inj_2 in Eq as [-> _]; [|done].
      by rewrite <-(places_fun _ _ _ _ Hos0 Hos') in Hq.
  - done.
  - done.
  - rewrite number_start. lia.
  - exists b'. split; [done|]. eapply improves_weaken; [|exact Hi]. intros q (os & Hos & ->). destruct (places_onto ds os (uo_dims H) Hos) as [ps Hps].
    pose proof Hps as Hps'. rewrite E in Hps. apply places_last in Hps as (ps0 & pl & os0 & ol & -> & -> & Hps0 & [Hr Hpl] & Hfl).
    destruct (Honto ps0) as (p & Hp & <-); [by eapply places_between|]. exists p. split; [done|]. rewrite number_start. split; [by apply number_range in Hp as [? _]|].
    exists p, os0. split; [done|]. split; [done|]. split; [done|]. destruct (flat_place dl pl Hdl Hc Hr) as ([_ Hpl'] & _ & _). rewrite Hpl in Hpl'. injection Hpl' as _ ->.
    pose proof (row_shift ds0 dl os0 o (pl - dm_begin dl) E Hc (places_fall _ _ _ Hps0) eq_refl ltac:(lia)) as (_ & Ht & _).
    replace (pl - beg (dm_bounds dl)) with (o + (pl - dm_begin dl)) by (unfold o; lia). lia.
Qed.

(** Every position is copied by itself. *)
Lemma indexed_region fuel b :
  volume (map dm_count ds) <= Z.of_nat fuel -> zlen b = total ->
  exists b', odometer fuel (length ds) (zeros ds) (map dm_count ds) (fun position => row 1 (gather_place region (map span_of ds) position)) (zeros ds) b = Some b' /\
    improves want b b' covered.
Proof.
  intros Hfuel Hb. pose proof (uo_dims H) as Hd.
  destruct (odometer_spec want (length ds) (zeros ds) (map dm_count ds) [] [] [] (fun position => row 1 (gather_place region (map span_of ds) position))
    (fun p q => exists os, places ds (shifted ds p) os /\ q = target os) (length b)) with (fuel := fuel) (p := zeros ds) (b := b) as (b' & Hb' & Hi).
  - unfold zeros. by rewrite length_replicate.
  - by apply counts_small.
  - apply zeros_pos.
  - intros p b1 Hp Hb1. rewrite app_nil_r. apply between_shifted in Hp as [Hlp Hp]. destruct (places_of ds _ Hd Hp) as [os Hos].
    destruct (write_row_spec (gather_place region (map span_of ds) p) b1 os 1) as (b2 & Hb2 & Hi2).
    + by eapply places_fall.
    + intros k x o Hx Ho. by eapply gather_place_at.
    + lia.
    + intros i Hi. exists os. split; [by eapply places_fall|]. lia.
    + lia.
    + exists b2. split; [done|]. eapply improves_weaken; [|exact Hi2]. intros q (os' & Hos' & ->). rewrite <-(places_fun _ _ _ _ Hos Hos'). lia.
  - by apply zeros_between.
  - done.
  - rewrite number_start, zeros_extents. lia.
  - rewrite !app_nil_r in Hb'. exists b'. split; [done|]. eapply improves_weaken; [|exact Hi]. intros q (os & Hos & ->). destruct (places_onto ds os Hd Hos) as [ps Hps].
    destruct (shifted_onto ds ps (places_between _ _ _ Hps)) as (p & Hp & <-). exists p. split; [done|]. rewrite number_start. split; [by apply number_range in Hp as [? _]|].
    rewrite app_nil_r. by exists os.
Qed.

(** *** The spans *)

Lemma counts_total l : (forall dm, dm ∈ l -> dm ∈ ds) -> 0 < volume (map dm_count l) <= volume (map dm_out l).
Proof.
  pose proof (uo_dims H) as Hd. rewrite Forall_forall in Hd. induction l as [|dm l IH]; intros Hl; cbn; [lia|].
  pose proof (do_count _ (Hd dm (Hl dm ltac:(set_solver)))). destruct IH; [intros x Hx; apply Hl; set_solver|]. nia.
Qed.
Lemma counts_le pre l : ds = pre ++ l -> 0 < volume (map dm_count pre) * volume (map dm_count l) <= total.
Proof.
  intros E. assert (Hb : 0 < batch) by (pose proof (uo_sample H); lia). rewrite <-volume_app, <-map_app, <-E.
  pose proof (counts_total ds ltac:(done)). unfold total. cbn [volume]. nia.
Qed.

Lemma gather_spans_spec pre l :
  ds = pre ++ l ->
  gather_spans chunk region meta (length l) (zlen pre) (origins pre) (map span_of pre) (volume (map dm_count pre)) =
    Some (origins ds, map span_of ds, volume (map dm_count ds)).
Proof.
  revert pre. induction l as [|dm l IH]; intros pre E; cbn [length gather_spans]; [by rewrite app_nil_r in E; subst|].
  assert (Ek : ds !! length pre = Some dm) by (rewrite E, lookup_app_r, Nat.sub_diag by done; done).
  destruct (uo_axes H _ _ Ek) as (E1 & E2 & E3). rewrite E1, E2, E3. assert (E4 : aget (inner_chunk_shape meta) (zlen pre) = Some (dm_inner dm)).
  { apply (uo_inner H). unfold inners. by rewrite list_lookup_fmap, Ek. }
  rewrite E4. cbn [mbind option_bind]. pose proof (uo_dims H) as Hd. rewrite Forall_lookup in Hd. specialize (Hd _ _ Ek).
  pose proof (do_inner _ Hd). rewrite (u64_id (_ * _)) by clia. rewrite (do_span _ Hd). cbn [mbind option_bind sp_count].
  assert (E' : ds = (pre ++ [dm]) ++ l) by (rewrite <-app_assoc; exact E). specialize (IH (pre ++ [dm]) E').
  pose proof (counts_le _ _ E') as Hle. pose proof (uo_total H). pose proof (counts_total l ltac:(intros x Hx; rewrite E; set_solver)).
  unfold origins in *. repeat rewrite map_app in IH. repeat rewrite map_app in Hle. rewrite volume_app in IH. rewrite volume_app in Hle. cbn [map volume] in IH, Hle. rewrite Z.mul_1_r in IH, Hle. rewrite length_app in IH. cbn [length] in IH.
  rewrite u64_id by (unfold is_u64, INT64_MAX in *; nia). replace (zlen pre + 1) with (Z.of_nat (length pre + 1)) by lia. exact IH.
Qed.

Lemma flat_bounds dm : dim_ok dm -> count (dm_axis dm) = 0 ->
  let o := dm_cell dm * dm_inner dm in let b := u64 (beg (dm_bounds dm)) in let e := u64 (end_ (dm_bounds dm)) in let ce := u64 (o + dm_inner dm) in
  (if b <? o then o else b) = dm_begin dm /\ (if ce <? e then ce else e) = dm_begin dm + dm_count dm.
Proof.
  intros Hd Hc. pose proof (do_span _ Hd) as Hs. pose proof (do_inner _ Hd). pose proof (do_count _ Hd). unfold query_chunk_span in Hs. rewrite Hc in Hs. cbn [negb Z.eqb] in Hs.
  cbn zeta. rewrite (u64_id (_ * _ + _)) by clia. destruct (Z.ltb_spec (UINT64_MAX - dm_inner dm) (dm_cell dm * dm_inner dm)); [clia|]. injection Hs as Hb Hn. split; [done|].
  rewrite Hb in Hn. revert Hn. generalize (u64 (end_ (dm_bounds dm))). intros e Hn.
  destruct (Z.ltb_spec e (dm_cell dm * dm_inner dm + dm_inner dm)), (Z.ltb_spec (dm_cell dm * dm_inner dm + dm_inner dm) e); try lia;
    match type of Hn with context [dm_begin dm <? ?x] => destruct (Z.ltb_spec (dm_begin dm) x) end; lia.
Qed.

Lemma copy_bounds_spec pre l :
  ds = pre ++ l -> Forall (fun dm => count (dm_axis dm) = 0) ds ->
  copy_bounds chunk region meta (length l) (zlen pre) (origins pre) (begins pre) (ends pre) (damacy_dtype_bpe output * volume (map dm_count pre)) =
    Some (origins ds, begins ds, ends ds, damacy_dtype_bpe output * volume (map dm_count ds)).
Proof.
  intros E Hflat. revert pre E. induction l as [|dm l IH]; intros pre E; cbn [length copy_bounds]; [by rewrite app_nil_r in E; subst|].
  assert (Ek : ds !! length pre = Some dm) by (rewrite E, lookup_app_r, Nat.sub_diag by done; done).
  destruct (uo_axes H _ _ Ek) as (_ & E2 & E3). rewrite E2, E3. assert (E4 : aget (inner_chunk_shape meta) (zlen pre) = Some (dm_inner dm)).
  { apply (uo_inner H). unfold inners. by rewrite list_lookup_fmap, Ek. }
  rewrite E4. cbn [mbind option_bind]. pose proof (uo_dims H) as Hd. rewrite Forall_lookup in Hd. specialize (Hd _ _ Ek). rewrite Forall_lookup in Hflat.
  pose proof (do_inner _ Hd). rewrite (u64_id (dm_cell dm * _)) by clia. destruct (flat_bounds dm Hd (Hflat _ _ Ek)) as [-> ->].
  replace (dm_begin dm + dm_count dm - dm_begin dm) with (dm_count dm) by lia. pose proof (do_count _ Hd). rewrite (u64_id (dm_count dm)) by clia.
  assert (E' : ds = (pre ++ [dm]) ++ l) by (rewrite <-app_assoc; exact E). specialize (IH (pre ++ [dm]) E').
  pose proof (counts_le _ _ E') as Hle. pose proof (uo_bytes H). pose proof (uo_type H). pose proof (counts_total l ltac:(intros x Hx; rewrite E; set_solver)).
  unfold origins, begins, ends in *. repeat rewrite map_app in IH. repeat rewrite map_app in Hle. rewrite volume_app in IH. rewrite volume_app in Hle. cbn [map volume] in IH, Hle.
  rewrite Z.mul_1_r in IH, Hle. rewrite length_app in IH. cbn [length] in IH.
  assert (0 < volume (map dm_count pre) * dm_count dm <= total) by nia. rewrite <-Z.mul_assoc, u64_id by (unfold is_u64, SIZE_MAX, UINT64_MAX in *; nia).
  replace (zlen pre + 1) with (Z.of_nat (length pre + 1)) by lia. exact IH.
Qed.

Lemma last_dim : exists ds0 dl, ds = ds0 ++ [dl] /\ m_rank meta - 1 = zlen ds0 /\
  aget (r_axes region) (m_rank meta - 1) = Some (dm_axis dl).
Proof.
  destruct (uo_rank H) as [Hr H0]. destruct (exists_last (l := ds)) as (ds0 & dl & E); [by destruct ds|]. exists ds0, dl. split; [done|].
  assert (Hz : m_rank meta - 1 = zlen ds0) by (rewrite Hr, E, length_app; cbn; lia). split; [done|]. rewrite Hz. apply (uo_axes H). by rewrite E, lookup_app_r, Nat.sub_diag.
Qed.

(** [gather_chunk] writes every position of the sample that falls in the chunk. *)
Lemma gather_chunk_spec b : zlen b = total ->
  exists b' n, gather_chunk convert output strides chunk region meta decoded b = Some (b', n) /\ improves want b b' covered.
Proof.
  intros Hb. unfold gather_chunk. destruct (uo_rank H) as [Hr H0]. replace (Z.to_nat (m_rank meta)) with (length ds) by lia.
  pose proof (gather_spans_spec [] ds eq_refl) as Hs. change (zlen []) with 0 in Hs. cbn [origins map volume] in Hs. rewrite Hs. cbn [mbind option_bind]. pose proof (counts_le [] ds eq_refl) as Hv. cbn [map volume] in Hv.
  rewrite (proj2 (Z.eqb_neq _ _)) by lia. destruct last_dim as (ds0 & dl & E & Hz & Hax). rewrite Hax. cbn [mbind option_bind].
  assert (Hsp : aget (map span_of ds) (m_rank meta - 1) = Some (span_of dl)) by (rewrite Hz, aget_nat, list_lookup_fmap, E, lookup_app_r, Nat.sub_diag by done; done).
  rewrite Hsp. cbn [mbind option_bind]. rewrite length_map. assert (Hcs : sp_count <$> map span_of ds = map dm_count ds) by (change (sp_count <$> map span_of ds) with (map sp_count (map span_of ds)); by rewrite map_map).
  rewrite Hcs. destruct (Z.eqb_spec (count (dm_axis dl)) 0) as [Hc|Hc]; cbn [negb].
  - pose proof (uo_dims H) as Hd. rewrite E in Hd. apply Forall_app in Hd as [Hd0 Hdl]. pose proof (do_count _ (proj1 (Forall_singleton _ _) Hdl)) as Hdc.
    destruct (flat_region ds0 dl (zeros ds0) (map dm_count ds0) [0] [dm_count dl] [0] (gather_place region (map span_of ds)) (shifted ds0)
      (Z.to_nat (volume (map dm_count ds))) b E Hc) as (b' & Hb' & Hi).
    + unfold zeros. by rewrite length_replicate.
    + by apply counts_small.
    + apply zeros_pos.
    + intros p Hp. by apply between_shifted in Hp as [_ Hp].
    + apply shifted_onto.
    + intros p os k x o Hp Hos Hx Ho. eapply gather_place_at; [|done|done]. apply between_shifted in Hp as [Hlp _].
      assert (shifted ds (p ++ [0]) = shifted ds0 p ++ [dm_begin dl]) as ->; [|done]. unfold shifted, begins. rewrite E, map_app. cbn [map].
      rewrite zip_with_app by (rewrite length_map; lia). cbn. do 2 f_equal. lia.
    + by apply zeros_between.
    + rewrite zeros_extents. assert (0 < volume (map dm_count ds0)) by (apply counts_total; intros x Hx; rewrite E; set_solver).
      rewrite E, map_app, volume_app. cbn [map volume]. rewrite Z2Nat.id; nia.
    + done.
    + assert (Hz1 : replicate (length ds) 0 = zeros ds0 ++ [0]) by (unfold zeros; rewrite E, length_app; cbn [length]; rewrite replicate_add; done).
      assert (Hz2 : map dm_count ds = map dm_count ds0 ++ [dm_count dl]) by (rewrite E, map_app; done).
      rewrite Hz, Nat2Z.id, Hz1. cbn [span_of sp_count]. rewrite <-Hz2 in Hb'. rewrite Hb'. cbn [mbind option_bind]. eexists _, _. split; [done|exact Hi].
  - replace (Z.to_nat (m_rank meta)) with (length ds) by lia. change (replicate (length ds) 0) with (zeros ds).
    destruct (indexed_region (Z.to_nat (volume (map dm_count ds))) b ltac:(lia) Hb) as (b' & -> & Hi). cbn [mbind option_bind]. eexists _, _. split; [done|exact Hi].
Qed.

(** So does the loop for boxes. *)
Lemma copy_region_spec b : zlen b = total -> Forall (fun dm => count (dm_axis dm) = 0) ds ->
  exists b' n, copy_region convert output strides chunk region meta decoded b = Some (b', n) /\ improves want b b' covered.
Proof.
  intros Hb Hflat. unfold copy_region. destruct (uo_rank H) as [Hr H0]. replace (Z.to_nat (m_rank meta)) with (length ds) by lia.
  pose proof (copy_bounds_spec [] ds eq_refl Hflat) as Hs. change (zlen []) with 0 in Hs. cbn [origins begins ends map volume] in Hs. rewrite Z.mul_1_r in Hs. rewrite Hs. cbn [mbind option_bind].
  destruct last_dim as (ds0 & dl & E & Hz & _). pose proof (counts_le [] ds eq_refl) as Hv. cbn [map volume] in Hv. pose proof (uo_type H).
  assert (Hl : aget (begins ds) (m_rank meta - 1) = Some (dm_begin dl)) by (rewrite Hz, aget_nat; unfold begins; rewrite list_lookup_fmap, E, lookup_app_r, Nat.sub_diag by done; done).
  assert (Hh : aget (ends ds) (m_rank meta - 1) = Some (dm_begin dl + dm_count dl)) by (rewrite Hz, aget_nat; unfold ends; rewrite list_lookup_fmap, E, lookup_app_r, Nat.sub_diag by done; done).
  rewrite Hl, Hh. cbn [mbind option_bind]. pose proof (uo_dims H) as Hd. rewrite E in Hd. apply Forall_app in Hd as [Hd0 Hdl]. pose proof (proj1 (Forall_singleton _ _) Hdl) as Hdl'.
  pose proof (do_count _ Hdl') as Hc. replace (dm_begin dl + dm_count dl - dm_begin dl) with (dm_count dl) by lia. rewrite (u64_id (dm_count dl)) by clia.
  assert (Hfl : count (dm_axis dl) = 0) by (rewrite E in Hflat; apply Forall_app in Hflat as [_ F]; exact (proj1 (Forall_singleton _ _) F)).
  assert (Hself : between (begins ds0) (ends ds0) (begins ds0)).
  { split; [done|]. split; [unfold begins, ends; by rewrite !length_map|]. intros i l h x E1 E2 E3. unfold begins, ends in *. rewrite !list_lookup_fmap in *.
    destruct (ds0 !! i) as [dm|] eqn:Edm; [|done]. cbn in *. simplify_eq. rewrite Forall_lookup in Hd0. pose proof (do_count _ (Hd0 i dm Edm)). lia. }
  destruct (flat_region ds0 dl (begins ds0) (ends ds0) [dm_begin dl] [dm_begin dl + dm_count dl] [dm_begin dl] (copy_place region) id
    (Z.to_nat (damacy_dtype_bpe output * volume (map dm_count ds))) b E Hfl) as (b' & Hb' & Hi).
  - unfold begins. by rewrite length_map.
  - unfold ends. apply Forall_map. eapply Forall_impl; [exact Hd0|]. intros dm Hdm. pose proof (do_count _ Hdm). lia.
  - unfold begins. apply Forall_map. eapply Forall_impl; [exact Hd0|]. intros dm Hdm. pose proof (do_count _ Hdm). lia.
  - done.
  - intros ps Hps. by exists ps.
  - intros p os k x o _ Hos Hx Ho. by eapply copy_place_at.
  - done.
  - assert (extents (begins ds0) (ends ds0) = map dm_count ds0) as ->.
    { unfold extents, begins, ends. clear. induction ds0 as [|dm l IH]; cbn; [done|]. f_equal; [lia|done]. }
    assert (0 < volume (map dm_count ds0)) by (apply counts_total; intros x Hx; rewrite E; set_solver).
    rewrite E, map_app, volume_app. cbn [map volume]. assert (1 <= damacy_dtype_bpe output * dm_count dl) by nia. rewrite Z.mul_1_r, Z2Nat.id by nia. nia.
  - done.
  - assert (Hb1 : begins ds = begins ds0 ++ [dm_begin dl]) by (unfold begins; rewrite E, map_app; done).
    assert (Hb2 : ends ds = ends ds0 ++ [dm_begin dl + dm_count dl]) by (unfold ends; rewrite E, map_app; done).
    rewrite Hz, Nat2Z.id, Hb1, Hb2, Hb'. cbn [mbind option_bind]. eexists _, _. split; [done|exact Hi].
Qed.
End use.

(** The copy in the plan is the axis of the request. *)
Lemma copied_axis_id a b q : axis_copied a b q -> copied_axis q = q.
Proof.
  destruct a as [iv|[values|] k|]; cbn; try done.
  - intros [_ ->]. done.
  - intros (Hc & Hl & _ & _ & _ & (e & He & _) & _). unfold copied_axis. case_decide as E.
    + assert (length (indices q) = 0%nat) as H0 by lia. apply nil_length_inv in H0. rewrite H0 in He. by apply not_elem_of_nil in He.
    + rewrite firstn_all2 by lia. by destruct q.
Qed.

Lemma div_cell s inner c : 0 < inner -> s / inner = c <-> c * inner <= s < c * inner + inner.
Proof.
  intros Hi. split.
  - intros <-. pose proof (Z.mul_div_le s inner Hi). pose proof (Z.mul_succ_div_gt s inner Hi). lia.
  - intros H. symmetry. apply (Z.div_unique_pos s inner c (s - c * inner)); lia.
Qed.

Lemma cell_range s inner : 0 < inner -> 0 <= s < 2 ^ 63 -> 0 <= s / inner * inner < 2 ^ 63 /\ s / inner * inner <= s < s / inner * inner + inner.
Proof. intros Hi H. pose proof (proj1 (div_cell s inner (s / inner) Hi) eq_refl). pose proof (Z.div_pos s inner ltac:(lia) ltac:(lia)). nia. Qed.

Section axis.
Context (b : damacy_interval) (q : query_axis) (inner s0 : Z).
Hypothesis Hinner : 0 < inner < 2 ^ 63.
Hypothesis Hsel : axis_selects b q s0.
Notation c := (s0 / inner).

Lemma interval_dim iv : axis_fits (AxisInterval iv) -> axis_valid (AxisInterval iv) -> axis_copied (AxisInterval iv) b q ->
  exists begin cnt, dim_ok (Dim (AxisInterval iv) b q inner c (end_ b - beg b) begin cnt).
Proof.
  intros Hf Hv Hc. pose proof (axis_copied_ok _ _ _ Hf Hv Hc) as Hok. destruct Hc as [-> ->]. cbn in Hf, Hv.
  assert (Hs : beg iv <= s0 < end_ iv) by (by apply (axis_selects_interval iv query_axis_none s0)).
  destruct (cell_range s0 inner ltac:(lia) ltac:(lia)) as [Hc1 Hc2].
  destruct (query_chunk_span_interval query_axis_none iv (c * inner) inner Hok eq_refl) as ([bg ct] & Hq & Hspan); [clia|clia|]. cbn in Hspan.
  assert (Hsp : forall s, bg <= s < bg + ct <-> beg iv <= s < end_ iv /\ c * inner <= s < c * inner + inner).
  { intros s. rewrite Hspan, axis_selects_interval by done. done. }
  pose proof (proj2 (Hsp s0) ltac:(lia)) as H0. pose proof (proj1 (Hsp bg) ltac:(lia)) as H1. pose proof (proj1 (Hsp (bg + ct - 1)) ltac:(lia)) as H2.
  assert (Hat : forall p, bg <= p < bg + ct -> at_place (Dim (AxisInterval iv) iv query_axis_none inner c (end_ iv - beg iv) bg ct) p (p - beg iv)).
  { intros p Hp. split; [done|]. cbn. unfold axis_place. cbn. pose proof (proj1 (Hsp p) Hp). rewrite (u64_id (beg iv)), u64_id by clia.
    do 2 f_equal. lia. }
  exists bg, ct. split; cbn [dm_inner dm_cell dm_count dm_out dm_begin dm_axis dm_bounds dm_req].
  - lia.
  - lia.
  - done.
  - intros p Hp. exists (p - beg iv). split; [by apply Hat|]. pose proof (proj1 (Hsp p) Hp). split; cbn; [lia|].
    replace (beg iv + (p - beg iv)) with p by lia. apply div_cell; lia.
  - intros o [Ho Hcell]. cbn in Ho, Hcell. apply div_cell in Hcell; [|lia]. exists (beg iv + o).
    replace o with (beg iv + o - beg iv) at 2 by lia. apply Hat, Hsp. lia.
  - intros _. exact Hat.
Qed.

Lemma indexed_dim values k : axis_fits (AxisIndices (Some values) k) -> axis_valid (AxisIndices (Some values) k) -> axis_copied (AxisIndices (Some values) k) b q ->
  exists begin cnt, dim_ok (Dim (AxisIndices (Some values) k) b q inner c k begin cnt).
Proof.
  intros Hf Hv Hc. pose proof (axis_copied_ok _ _ _ Hf Hv Hc) as Hok. cbn in Hf, Hv, Hc. destruct Hf as (Hk & Hlv & _), Hv as [Hk0 Hv], Hc as (Hc & Hl & _ & Hin & Hb & _).
  assert (Hsrc : forall i e, aget (indices q) i = Some e -> 0 <= source e < INT64_MAX /\ 0 <= Selection.output e < k /\ aget values (Selection.output e) = Some (source e)).
  { intros i e He. destruct (proj1 (Hin e)) as [Ho Hval]; [apply elem_of_aget; eauto|]. split; [by eapply Hv|done]. }
  assert (Hs : exists i0 e0, aget (indices q) i0 = Some e0 /\ source e0 = s0).
  { revert Hsel. unfold axis_selects. rewrite decide_False by lia. intros (e & He & E). apply elem_of_aget in He as [i Hi]. eauto. }
  destruct Hs as (i0 & e0 & Hi0 & E0). pose proof (Hsrc _ _ Hi0) as (Hr0 & _).
  destruct (cell_range s0 inner ltac:(lia) ltac:(unfold INT64_MAX in Hr0; lia)) as [Hc1 Hc2].
  destruct (query_chunk_span_indices q b (c * inner) inner Hok) as ([bg ct] & Hq & Hb0 & Hct & Hend & Hspan); [lia|clia|clia|]. cbn in *.
  pose proof (proj2 (Hspan i0 e0 Hi0) ltac:(lia)) as H0.
  assert (Hat : forall p e, bg <= p < bg + ct -> aget (indices q) p = Some e ->
     at_place (Dim (AxisIndices (Some values) k) b q inner c k bg ct) p (Selection.output e) /\ falls (Dim (AxisIndices (Some values) k) b q inner c k bg ct) (Selection.output e)).
  { intros p e Hp He. destruct (Hsrc _ _ He) as (Hr & Ho & Hval). pose proof (proj1 (Hspan p e He) Hp) as Hin'. split.
    - split; [done|]. cbn. unfold axis_place. rewrite (proj2 (Z.eqb_neq _ _)) by lia. cbn. rewrite He. cbn [mbind option_bind]. rewrite Hval. cbn.
      rewrite u64_id by clia. done.
    - split; [done|]. cbn. rewrite Hval. cbn. apply div_cell; lia. }
  exists bg, ct. split; cbn [dm_inner dm_cell dm_count dm_out dm_begin dm_axis dm_bounds dm_req].
  - lia.
  - lia.
  - done.
  - intros p Hp. destruct (aget_is_Some (indices q) p ltac:(lia)) as [e He]. exists (Selection.output e). by apply Hat.
  - intros o [Ho Hcell]. cbn in Ho, Hcell. destruct (aget_is_Some values o ltac:(lia)) as [v Hvo]. rewrite Hvo in Hcell. cbn in Hcell. apply div_cell in Hcell; [|lia].
    assert (He : QueryIndex v o ∈ indices q) by (by apply Hin). apply elem_of_aget in He as [i Hi]. exists i.
    pose proof (proj2 (Hspan i _ Hi) Hcell) as Hp. by apply (Hat i _ Hp Hi).
  - intros E. lia.
Qed.
End axis.

(** Any axis a request may have. *)
Lemma axis_dim a b q inner s0 out :
  axis_fits a -> axis_valid a -> axis_copied a b q -> 0 < inner < 2 ^ 63 -> axis_selects b q s0 -> out = (if decide (count q = 0) then end_ b - beg b else count q) ->
  exists begin cnt, dim_ok (Dim a b q inner (s0 / inner) out begin cnt).
Proof.
  intros Hf Hv Hc Hi Hs ->. destruct a as [iv|[values|] k|]; try done.
  - rewrite decide_True by (by destruct Hc as [_ ->]). by apply interval_dim.
  - pose proof Hc as (Hk & _). destruct Hv as [Hk0 Hv]. rewrite decide_False by lia. rewrite Hk. by apply indexed_dim.
Qed.

(** Where the source of a position lies. *)
Lemma axis_source_selects a b q o out : axis_fits a -> axis_valid a -> axis_copied a b q -> out = (if decide (count q = 0) then end_ b - beg b else count q) -> 0 <= o < out ->
  axis_selects b q (axis_source a o).
Proof.
  intros Hf Hv Hc -> Ho. destruct a as [iv|[values|] k|]; try done.
  - destruct Hc as [-> ->]. rewrite decide_True in Ho by done. apply axis_selects_interval; [done|]. cbn. lia.
  - destruct Hc as (Hk & Hl & _ & Hin & _). destruct Hf as (Hk1 & Hlv & _). destruct Hv as [Hk0 Hv]. rewrite decide_False in Ho by lia. unfold axis_selects. rewrite decide_False by lia.
    destruct (aget_is_Some values o ltac:(lia)) as [v Hvo]. exists (QueryIndex v o). cbn. rewrite Hvo. split; [|done]. apply Hin. cbn. split; [lia|done].
Qed.
