(* ===== verification/CpuBatch.v ===== *)
(** * A whole batch on the CPU

    [decode_one] of [src/src/executor/cpu_executor.c] over the chunks of a plan, in any
    order: the output buffer ends up with the element each position asked for. *)

From stdpp Require Import strings.
From S2P Require Import Prelude Config ConfigProof Selection SelectionGrid Plan PlanBuilder PlanTable PlanProof PlanMain PlanCorrect PrefetcherClaims Components Crc ShardFooter Convert CpuAssemble CpuRegion.

#[local] Open Scope Z_scope.

(** ** The uses of a chunk *)

Section chain.
Context (convert : Z -> zdtype -> element -> element) (output : Z) (strides : list Z) (plan : prepared_plan).
Context (ck : plan_chunk) (meta : zarr_metadata) (decoded : list element) (want : Z -> element -> Prop) (x len : Z) (cov : plan_use -> Z -> Prop).
Hypothesis Hsmall : zlen (uses plan) < UINT32_MAX.
Hypothesis Hnext : forall p u, aget (uses plan) p = Some u -> next u = last_use (take (Z.to_nat p) (uses plan)) (chunk u).
Hypothesis Hstep : forall p u, aget (uses plan) p = Some u -> chunk u = x -> forall b, zlen b = len ->
  exists reg b' n, aget (regions plan) (region u) = Some reg /\
    match operation reg with
    | PLAN_GATHER => gather_chunk convert output strides ck reg meta decoded b
    | PLAN_COPY => copy_region convert output strides ck reg meta decoded b
    end = Some (b', n) /\ improves want b b' (cov u).

(** The [next] links lead through all uses of the chunk below [p]. *)
Lemma use_loop_spec p fuel b bytes : (p <= length (uses plan))%nat -> (p <= fuel)%nat -> zlen b = len ->
  exists b' n, use_loop convert fuel output strides plan ck meta decoded (last_use (take p (uses plan)) x) b bytes = Some (b', n) /\
    improves want b b' (fun q => exists i u, 0 <= i < Z.of_nat p /\ aget (uses plan) i = Some u /\ chunk u = x /\ cov u q).
Proof.
  revert fuel b bytes. induction p as [|p IH]; intros fuel b bytes Hp Hf Hb.
  { exists b, bytes. split; [by destruct fuel|]. eapply improves_weaken; [|apply improves_refl]. intros q (i & u & Hi & _). lia. }
  destruct (lookup_lt_is_Some_2 (uses plan) p) as [u Hu]; [lia|]. rewrite (take_S_r _ _ _ Hu), last_use_snoc, length_take_le by lia.
  pose proof Hu as Hu'. rewrite <-aget_nat in Hu'. destruct (decide (chunk u = x)) as [E|E].
  - destruct fuel as [|fuel]; [lia|]. cbn [use_loop]. rewrite (proj2 (Z.eqb_neq _ _)) by lia. rewrite Hu'. cbn [mbind option_bind].
    destruct (Hstep _ u Hu' E b Hb) as (reg & b1 & n & -> & Hs & Hi). cbn [mbind option_bind]. rewrite Hs. cbn [mbind option_bind fst snd].
    rewrite (Hnext _ _ Hu'), Nat2Z.id, E. destruct (IH fuel b1 (u64 (bytes + n))) as (b' & n' & -> & Hi'); [lia|lia|rewrite (im_len _ _ _ _ Hi); done|].
    exists b', n'. split; [done|]. eapply improves_weaken; [|exact (improves_trans _ _ _ _ _ _ Hi Hi')].
    intros q (i & v & Hr & Hv & Hc & Hcov). destruct (decide (i = Z.of_nat p)) as [->|]; [left; by simplify_eq|]. right. exists i, v. split; [lia|done].
  - destruct (IH fuel b bytes) as (b' & n & -> & Hi); [lia|lia|done|]. exists b', n. split; [done|]. eapply improves_weaken; [|exact Hi].
    intros q (i & v & Hr & Hv & Hc & Hcov). destruct (decide (i = Z.of_nat p)) as [->|]; [by simplify_eq|]. exists i, v. split; [lia|done].
Qed.
End chain.

(** ** Sizes *)

Lemma extent_prod_volume n l : (n <= length l)%nat -> extent_prod n l 0 = volume (take n l).
Proof.
  enough (H : forall n k, (k + n <= length l)%nat -> extent_prod n l (Z.of_nat k) = volume (take n (drop k l))) by (intros Hn; apply (H n 0%nat); lia).
  clear n. induction n as [|n IH]; intros k Hk; cbn [extent_prod]; [by rewrite take_0|].
  destruct (lookup_lt_is_Some_2 l k) as [v Hv]; [lia|]. rewrite aget_nat, Hv, (drop_S _ _ _ Hv). cbn. f_equal.
  replace (Z.of_nat k + 1) with (Z.of_nat (S k)) by lia. apply IH. lia.
Qed.

Lemma volume_factors l : Forall (fun n => 0 <= n) l -> 0 < volume l -> Forall (fun n => 0 < n <= volume l) l.
Proof.
  induction 1 as [|n l Hn Hl IH]; cbn [volume]; [constructor|]. intros Hv. assert (0 < volume l) as H0 by (destruct (Z.le_gt_cases (volume l) 0); nia).
  assert (0 < n) by nia. constructor; [nia|]. eapply Forall_impl; [exact (IH H0)|]. cbn. intros z Hz. split; [lia|]. assert (volume l <= n * volume l) by nia. lia.
Qed.

Lemma list_choice {A} (P : Z -> A -> Prop) n : (forall d, 0 <= d < Z.of_nat n -> exists y, P d y) -> exists l, length l = n /\ forall k y, l !! k = Some y -> P (Z.of_nat k) y.
Proof.
  induction n as [|n IH]; intros H; [by exists []|]. destruct IH as (l & Hl & HP); [intros d Hd; apply H; lia|]. destruct (H (Z.of_nat n)) as [y Hy]; [lia|].
  exists (l ++ [y]). rewrite length_app. cbn. split; [lia|]. intros k z [Hk|[Hk Hz]]%lookup_app_Some; [by apply HP|].
  apply list_lookup_singleton_Some in Hz as [Hk' <-]. by replace k with n by lia.
Qed.

Lemma elements_of_at bpe bytes i : 0 < bpe -> 0 <= i < zlen bytes / bpe ->
  aget (elements_of bpe bytes) i = Some (take (Z.to_nat bpe) (drop (Z.to_nat (i * bpe)) bytes)).
Proof.
  intros Hb Hi. rewrite <-(Z2Nat.id i), aget_nat by lia. unfold elements_of. rewrite list_lookup_fmap, lookup_seq_lt.
  - cbn. do 3 f_equal. nia.
  - apply Nat2Z.inj_lt. rewrite Nat2Z.inj_div, !Z2Nat.id by lia. lia.
Qed.

(** ** Samples, requests and the plan *)

Section batch.
Context `{CacheView} (convert : Z -> zdtype -> element -> element) (lib : decoders).
Context (requests : list damacy_sample) (samples : list planner_sample) (output : damacy_batch_spec) (limits : damacy_plan_limits).
Context (plan : prepared_plan) (strides : list Z) (input : Z -> list Z).

(** Sample [s] was made from a request that [zarr_push] accepted. *)
Definition asked (request : damacy_sample) (s : planner_sample) : Prop :=
  zarr_accepts output (max_plan_bytes limits) request /\
  exists malloc u, query_copy malloc (Some request) = Some (inr (u, ps_aabb s, ps_axes s)) /\ ps_uri s = Some u.

(** What the executor has when it decodes a plan. *)
Record batch_ready : Prop := {
  br_plan : plan_ok samples output limits plan;
  br_limits : max_chunks limits < UINT32_MAX;
  br_samples : Forall sample_wf samples /\ zlen samples = samples_per_batch output;
  br_requests : Forall2 asked requests samples;
  br_same : forall s s', s ∈ samples -> s' ∈ samples -> ps_uri s = ps_uri s' -> query_array (h_meta s) = query_array (h_meta s');
  br_layout : spec_fits output /\ exists shape0 strides0 shape' bytes, zlen shape0 = DAMACY_MAX_RANK + 1 /\ zlen strides0 = DAMACY_MAX_RANK + 1 /\
    batch_spec_layout (Some output) shape0 strides0 = Some (DAMACY_OK, shape', strides, bytes);
  br_input : forall x ck, aget (chunks plan) x = Some ck -> missing ck = false -> zlen (input x) = encoded_bytes ck }.
Context (R : batch_ready).

Lemma output_layout : layout_valid output /\ take (Z.to_nat (sample_rank output + 1)) strides = row_major (batch_dims output).
Proof.
  destruct (br_layout R) as (Hf & shape0 & strides0 & shape' & bytes & H1 & H2 & E).
  destruct (batch_spec_layout_spec output shape0 strides0 Hf H1 H2) as (st & sh & str & by_ & E' & Hst & Hok). rewrite E in E'. injection E' as <- <- <- <-.
  split; [by apply Hst|]. by apply Hok.
Qed.

(** Dimension [d] of a request, of its sample, of the array and of the output. *)
Record axis_facts (request : damacy_sample) (s : planner_sample) (m : zarr_metadata) (d : Z) (ax : damacy_axis_selection) (b : damacy_interval) (q : query_axis) (inner out : Z) : Prop := {
  af_request : aget (s_axes request) d = Some ax;
  af_bounds : aget (dims (ps_aabb s)) d = Some b;
  af_axis : aget (ps_axes s) d = Some q;
  af_inner : aget (inner_chunk_shape m) d = Some inner /\ 0 < inner < 2 ^ 63;
  af_out : aget (sample_shape output) d = Some out /\ out = (if decide (count q = 0) then end_ b - beg b else count q);
  af_copied : axis_fits ax /\ axis_valid ax /\ axis_copied ax b q }.

(** Sample [j] in the plan. *)
Record in_plan (j : Z) (s : planner_sample) (request : damacy_sample) (u : string) (m : zarr_metadata) (a : Z) (r : plan_region) : Prop := {
  ip_uri : ps_uri s = Some u;
  ip_meta : array_metadata (query_array (h_meta s)) = inr m;
  ip_rank : m_rank m = sample_rank output /\ m_rank m = aabb_rank (ps_aabb s) /\ 0 < m_rank m;
  ip_array : exists arr, aget (arrays plan) a = Some arr /\ uri arr = u /\ metadata arr = m;
  ip_region : aget (regions plan) j = Some r /\ region_of j a s m r;
  ip_axes : forall d, 0 <= d < m_rank m -> exists ax b q inner out, axis_facts request s m d ax b q inner out;
  ip_inner : m_rank m <= zlen (inner_chunk_shape m) /\ 0 < volume (take (Z.to_nat (m_rank m)) (inner_chunk_shape m)) < 2 ^ 32;
  ip_cells : forall c, c ∈ coordinate <$> used_chunks plan j <-> coord_selected (ps_aabb s) (ps_axes s) (inner_chunk_shape m) None None c;
  ip_chunks : Forall (fun ck => array ck = a) (used_chunks plan j) }.

Lemma dtype_bpe_range dt : 1 <= dtype_bpe dt <= 8.
Proof. destruct dt; cbn; lia. Qed.

(** The arrays of the plan carry the metadata of their samples. *)
Lemma plan_metadata arr s m : arr ∈ arrays plan -> s ∈ samples -> ps_uri s = Some (uri arr) -> array_metadata (query_array (h_meta s)) = inr m -> metadata arr = m.
Proof.
  intros Ha Hs Hu Hm. pose proof (po_metadata _ _ _ _ (br_plan R)) as HF. rewrite Forall_forall in HF. destruct (HF arr Ha) as (s' & Hs' & Hu' & Hm').
  rewrite (br_same R s s' Hs Hs') in Hm by congruence. congruence.
Qed.

Lemma planned_array j s u m a decoded per S cks : aget samples j = Some s -> planned_with output (arrays plan) (regions plan) j s u m a decoded per S cks ->
  exists arr, aget (arrays plan) a = Some arr /\ uri arr = u /\ metadata arr = m.
Proof.
  intros Hs P. destruct (pw_array _ _ _ _ _ _ _ _ _ _ _ _ P) as (arr & Ha & Hu). exists arr. split; [done|]. split; [done|].
  apply (plan_metadata arr s m); [apply elem_of_aget; eauto|apply elem_of_aget; eauto|rewrite Hu; by apply P|by apply P].
Qed.

Lemma asked_axes request s d : asked request s -> 0 <= d < aabb_rank (ps_aabb s) -> s_rank request = aabb_rank (ps_aabb s) /\ sample_rank output = s_rank request /\
  exists ax b q, aget (s_axes request) d = Some ax /\ aget (dims (ps_aabb s)) d = Some b /\ aget (ps_axes s) d = Some q /\ axis_fits ax /\ axis_valid ax /\ axis_copied ax b q.
Proof.
  intros ((Hfit & Hm & Hv & Hu) & malloc & u & Hcp & _) Hd. destruct (query_validate_iff request output _ Hfit Hm) as (st & Hv' & Hacc). rewrite Hv in Hv'. simplify_eq.
  assert (Hq : query_accepted request output (max_plan_bytes limits)) by (by apply Hacc).
  destruct (query_copy_accepted malloc request output _ Hfit Hm Hq) as (uri' & b' & a' & size & Hs & Hc & Hr & _ & _ & Hax); [intros v E; by apply Hu|].
  rewrite Hcp in Hc. destruct (malloc size); simplify_eq. destruct Hq as (_ & Hrank & Hsr & _). split; [done|]. split; [done|].
  pose proof (sf_axes _ _ Hfit) as Hlen. destruct (aget_is_Some (s_axes request) d) as [ax Ha]; [lia|].
  destruct (Hax d ax ltac:(lia) Ha) as (b & q & Hb & Hqq & Hcopy & Hfits & Hval). exists ax, b, q. by split_and!.
Qed.

Lemma sample_in_plan j s request : aget samples j = Some s -> aget requests j = Some request -> exists u m a r, in_plan j s request u m a r.
Proof.
  intros Hs Hreq. destruct (po_regions _ _ _ _ (br_plan R) j s Hs) as (u & m & a & decoded & per & S & P). pose proof (planned_array _ _ _ _ _ _ _ _ _ Hs P) as Harr. destruct P.
  destruct pw_region as (r & Hr1 & Hr2). exists u, m, a, r. destruct pw_fits as [Hrank Hfo].
  assert (Hwf : sample_wf s) by (eapply Forall_aget; [apply (br_samples R)|done]). pose proof (sw_rank _ Hwf) as Hrk.
  assert (Hask : asked request s) by (pose proof (br_requests R) as HF; apply Forall2_aget in HF as [_ HF]; eauto).
  pose proof (array_metadata_wf _ _ Hwf pw_meta) as Hmw. destruct (mw_len _ Hmw) as (_ & Hlen & _). destruct (mw_u64 _ Hmw) as (_ & Hu & _).
  rewrite extent_prod_volume in pw_decoded by lia. pose proof (dtype_bpe_range (m_dtype m)) as Hbpe. set (inn := take (Z.to_nat (m_rank m)) (inner_chunk_shape m)) in *.
  assert (Hv : 0 < volume inn < 2 ^ 32) by nia.
  assert (Hin : Forall (fun n => 0 < n <= volume inn) inn).
  { apply volume_factors; [|lia]. apply Forall_take. eapply Forall_impl; [exact Hu|]. intros z Hz. clia. }
  destruct (asked_axes request s 0 Hask ltac:(lia)) as (Hr0 & Hso & _).
  split; try done.
  - lia.
  - intros d Hd. destruct (asked_axes request s d Hask ltac:(lia)) as (_ & _ & ax & b & q & Hax & Hb & Hq & Hc1 & Hc2 & Hc3).
    destruct (Hfo d Hd) as (b' & q' & n & out & Hb' & Hq' & _ & Ho & _ & Hout). simplify_eq.
    destruct (aget_is_Some (inner_chunk_shape m) d ltac:(lia)) as [inner Hi]. exists ax, b, q, inner, (if decide (count q = 0) then end_ b - beg b else count q). split; try done. split; [done|].
    assert (Hi' : aget inn d = Some inner). { apply aget_lookup in Hi as [H0 Hi]. apply aget_lookup. split; [done|]. unfold inn. rewrite lookup_take_lt by lia. done. }
    pose proof (Forall_aget _ _ _ _ Hin Hi') as Hb2. cbn in Hb2. lia.
Qed.

(** ** What the buffer should hold *)

Notation rank := (Z.to_nat (sample_rank output)).
Notation extents_out := (take rank (sample_shape output)).

(** The source index of position [os] of a sample. *)
Definition position_source (request : damacy_sample) (os : list Z) : list Z := zip_with axis_source (take rank (s_axes request)) os.

(** Element [i] of a chunk as it is stored in the output. *)
Definition chunk_value (ck : plan_chunk) (m : zarr_metadata) (bytes : list Z) (i : Z) : element :=
  let bpe := dtype_bpe (m_dtype m) in
  stored convert (dtype output) (m_dtype m) (missing ck)
    (take (Z.to_nat bpe) (if missing ck then m_fill_value m else drop (Z.to_nat (i * bpe)) bytes)).

(** [v] is the element of the array of sample [j] at the source index of [os]: chunk
    coordinates by division, the place in the chunk by remainder. *)
Definition right (j : Z) (os : list Z) (v : element) : Prop :=
  exists s request m x ck arr bytes,
    aget samples j = Some s /\ aget requests j = Some request /\ array_metadata (query_array (h_meta s)) = inr m /\
    aget (chunks plan) x = Some ck /\ aget (arrays plan) (array ck) = Some arr /\ ps_uri s = Some (uri arr) /\
    decode_chunk lib ck m (input x) = inr bytes /\
    let inner := take rank (inner_chunk_shape m) in let xs := position_source request os in
    coordinate ck = zip_with Z.div xs inner /\
    v = chunk_value ck m bytes (address (zip_with Z.modulo xs inner) (row_major inner)).

Definition place_of (j : Z) (os : list Z) : Z := address (j :: os) (row_major (batch_dims output)).
Definition want (q : Z) (v : element) : Prop :=
  forall j os, 0 <= j < samples_per_batch output -> inside extents_out os -> q = place_of j os -> right j os v.

(** The places sample [region use] has in chunk [ck]. *)
Definition use_covers (ck : plan_chunk) (m : zarr_metadata) (use : plan_use) (q : Z) : Prop :=
  exists request os, aget requests (region use) = Some request /\ inside extents_out os /\ q = place_of (region use) os /\
    zip_with Z.div (position_source request os) (take rank (inner_chunk_shape m)) = coordinate ck.

(** ** One use *)

Lemma decode_blosc_size expected ck m inp bytes : decode_blosc lib expected ck m inp = inr bytes -> zlen bytes = decoded_bytes ck.
Proof.
  unfold decode_blosc. destruct (blosc_cbuffer_validate _ _ _) as [size|]; [|done]. destruct (Z.eqb_spec size (decoded_bytes ck)) as [<-|]; cbn [negb orb]; [|done].
  destruct (_ <? _); [done|]. destruct (blosc_cbuffer_sizes _ _) as [[] ?], (blosc_cbuffer_metainfo _ _). destruct (_ || _); [done|].
  destruct (blosc_decompress_ctx _ _ _) as [l|]; [|done]. destruct (Z.eqb_spec (zlen l) size); rewrite ?andb_false_r; [|done]. destruct (0 <? zlen l); [|done]. cbn. by intros [= <-].
Qed.
Lemma decode_chunk_size ck m inp bytes : decode_chunk lib ck m inp = inr bytes -> missing ck = false -> zlen inp = encoded_bytes ck -> zlen bytes = decoded_bytes ck.
Proof.
  unfold decode_chunk. intros E Hm Hin. rewrite Hm in E. destruct (inner_codec m); try done.
  - destruct (Z.eqb_spec (encoded_bytes ck) (decoded_bytes ck)); cbn in E; simplify_eq. congruence.
  - destruct (ZSTD_decompressDCtx _ _ _) as [l|]; [|done]. destruct (Z.eqb_spec (zlen l) (decoded_bytes ck)); by simplify_eq.
  - by apply decode_blosc_size in E.
  - by apply decode_blosc_size in E.
Qed.

Lemma chunk_decoded x ck arr : aget (chunks plan) x = Some ck -> aget (arrays plan) (array ck) = Some arr ->
  decoded_bytes ck = dtype_bpe (m_dtype (metadata arr)) * extent_prod (Z.to_nat (m_rank (metadata arr))) (inner_chunk_shape (metadata arr)) 0.
Proof.
  intros Hx Ha. destruct (po_chunks _ _ _ _ (br_plan R) ck) as (j & s & u & m & a & decoded & per & S & c & Hs & P & Hf & Hck); [apply elem_of_aget; eauto|].
  destruct (planned_array _ _ _ _ _ _ _ _ _ Hs P) as (arr' & Ha' & _ & <-).
  destruct Hf as (k & h & index & _ & _ & _ & E). assert (decoded_bytes c = decoded /\ array c = a) as [Hd Har].
  { revert E. unfold chunk_of_entry. destruct index as [idx|]; [|by intros [= <-]]. destruct (_ <=? _); [done|].
    destruct (aget (si_entries idx) _); [|done]. cbn [mbind option_bind]. cbv zeta. destruct (_ || _); [done|]. by intros [= <-]. }
  assert (array ck = a) as Hca by (rewrite Hck; by destruct c). rewrite Hca in Ha. simplify_eq.
  rewrite Hck. rewrite <-(pw_decoded _ _ _ _ _ _ _ _ _ _ _ _ P). by destruct c.
Qed.

Lemma dims_list {A} (f : dimension -> A) (l : list A) ds : (forall k dm, ds !! k = Some dm -> aget l (Z.of_nat k) = Some (f dm)) -> map f ds = take (length ds) l.
Proof.
  intros Hf. apply list_eq. intros k. rewrite list_lookup_fmap. destruct (ds !! k) as [dm|] eqn:E.
  - pose proof (Hf _ _ E) as Hl. rewrite aget_nat in Hl. rewrite lookup_take_lt, Hl; [done|by eapply lookup_lt_Some].
  - cbn. symmetry. apply lookup_take_ge. by apply lookup_ge_None.
Qed.

Lemma all_fall_iff ds os : all_fall ds os <-> inside (map dm_out ds) os /\ zip_with Z.div (sources ds os) (inners ds) = map dm_cell ds.
Proof.
  revert os. induction ds as [|dm ds IH]; intros [|o os].
  - split; [intros _; split; [constructor|done]|constructor].
  - split; [intros Hf; inversion Hf|intros [Hi _]; inversion Hi].
  - split; [intros Hf; inversion Hf|intros [Hi _]; inversion Hi].
  - unfold all_fall in *. split.
    + intros Hf. inversion Hf as [|? ? ? ? H1 H2]; subst. apply IH in H2 as [H2 H3]. destruct H1 as [H0 H1]. split; [by constructor|]. cbn. by f_equal.
    + intros [Hi Hz]. inversion Hi as [|? ? ? ? H1 H2]; subst. cbn in Hz. injection Hz as Hz1 Hz2. constructor; [done|]. by apply IH.
Qed.

Lemma origin_modulo ds os : Forall dim_ok ds -> all_fall ds os -> zip_with Z.sub (sources ds os) (origins ds) = zip_with Z.modulo (sources ds os) (inners ds).
Proof.
  intros Hd Hf. induction Hf as [|dm o ds os Hf _ IH]; [done|]. inversion Hd as [|? ? Hdm Hd']; subst. cbn. f_equal; [|by apply IH].
  destruct Hf as [_ <-]. pose proof (proj1 (do_inner _ Hdm)). rewrite Z.mod_eq by lia. lia.
Qed.

(** The dimensions of a chunk that sample [j] uses. *)
Record chunk_dims (request : damacy_sample) (s : planner_sample) (m : zarr_metadata) (ck : plan_chunk) (ds : list dimension) : Prop := {
  cd_ok : Forall dim_ok ds;
  cd_rank : zlen ds = m_rank m;
  cd_facts : forall k dm, ds !! k = Some dm -> axis_facts request s m (Z.of_nat k) (dm_req dm) (dm_bounds dm) (dm_axis dm) (dm_inner dm) (dm_out dm);
  cd_cells : map dm_cell ds = coordinate ck }.

Lemma used_chunk_dims j s request u m a r ck : in_plan j s request u m a r -> ck ∈ used_chunks plan j -> exists ds, chunk_dims request s m ck ds.
Proof.
  intros P Hck. destruct (ip_rank _ _ _ _ _ _ _ P) as (_ & Hr & Hr0).
  destruct (proj1 (ip_cells _ _ _ _ _ _ _ P (coordinate ck))) as [Hlen Hcell]; [by apply list_elem_of_fmap_2|].
  destruct (list_choice (fun d dm => dim_ok dm /\ axis_facts request s m d (dm_req dm) (dm_bounds dm) (dm_axis dm) (dm_inner dm) (dm_out dm) /\ aget (coordinate ck) d = Some (dm_cell dm)) (Z.to_nat (m_rank m)))
    as (ds & Hl & Hds).
  - intros d Hd. destruct (ip_axes _ _ _ _ _ _ _ P d ltac:(lia)) as (ax & b & q & inner & out & A). destruct (aget_is_Some (coordinate ck) d ltac:(lia)) as [c Hc].
    destruct (Hcell d c Hc) as (b' & q' & size & Hb & Hq & Hs & _ & s0 & Hsel & ->).
    pose proof (af_bounds _ _ _ _ _ _ _ _ _ A). pose proof (af_axis _ _ _ _ _ _ _ _ _ A). pose proof (af_inner _ _ _ _ _ _ _ _ _ A) as [Hi Hi0].
    assert (b' = b) as -> by congruence. assert (q' = q) as -> by congruence. assert (size = inner) as -> by congruence.
    destruct (af_copied _ _ _ _ _ _ _ _ _ A) as (C1 & C2 & C3). destruct (axis_dim ax b q inner s0 out C1 C2 C3 Hi0 Hsel) as (bg & ct & Hdim); [apply A|].
    eexists. split; [exact Hdim|]. by cbn.
  - exists ds. split.
    + apply Forall_lookup. intros k dm E. by destruct (Hds k dm E).
    + lia.
    + intros k dm E. by destruct (Hds k dm E) as (_ & ? & _).
    + rewrite (dims_list dm_cell (coordinate ck)) by (intros k dm E; by destruct (Hds k dm E) as (_ & _ & ?)). apply take_ge. lia.
Qed.

Section one.
Context (j : Z) (s : planner_sample) (request : damacy_sample) (u : string) (m : zarr_metadata) (a : Z) (r : plan_region).
Context (x : Z) (ck : plan_chunk) (ds : list dimension) (bytes : list Z).
Hypothesis Hs : aget samples j = Some s.
Hypothesis Hreq : aget requests j = Some request.
Hypothesis P : in_plan j s request u m a r.
Hypothesis Hx : aget (chunks plan) x = Some ck.
Hypothesis Hck : ck ∈ used_chunks plan j.
Hypothesis D : chunk_dims request s m ck ds.
Hypothesis Hdec : decode_chunk lib ck m (input x) = inr bytes.

Lemma dims_rank : length ds = rank /\ Z.to_nat (m_rank m) = rank.
Proof. destruct (ip_rank _ _ _ _ _ _ _ P) as (E & _). pose proof (cd_rank _ _ _ _ _ D). lia. Qed.
Lemma dims_out : map dm_out ds = extents_out.
Proof. rewrite <-(proj1 dims_rank). apply dims_list. intros k dm E. apply (cd_facts _ _ _ _ _ D k dm E). Qed.
Lemma dims_inner : inners ds = take rank (inner_chunk_shape m).
Proof. rewrite <-(proj1 dims_rank). apply dims_list. intros k dm E. apply (cd_facts _ _ _ _ _ D k dm E). Qed.
Lemma dims_sources os : sources ds os = position_source request os.
Proof. unfold sources, position_source. f_equal. rewrite <-(proj1 dims_rank). apply dims_list. intros k dm E. apply (cd_facts _ _ _ _ _ D k dm E). Qed.
Lemma dims_batch : batch_dims output = samples_per_batch output :: map dm_out ds.
Proof. by rewrite dims_out. Qed.
Lemma sample_index : 0 <= j < samples_per_batch output.
Proof. rewrite <-(proj2 (br_samples R)). by eapply aget_Some_range. Qed.

Lemma target_place os : target r ds (samples_per_batch output) os = place_of j os.
Proof. unfold target, place_of. rewrite dims_batch. destruct (ip_region _ _ _ _ _ _ _ P) as [_ Hr]. by rewrite (proj2 (ro_ids _ _ _ _ _ Hr)). Qed.

Lemma chunk_array : exists arr, aget (arrays plan) (array ck) = Some arr /\ uri arr = u /\ metadata arr = m.
Proof. destruct (ip_array _ _ _ _ _ _ _ P) as (arr & Ha & Hu & Hm). exists arr. pose proof (ip_chunks _ _ _ _ _ _ _ P) as HF. rewrite Forall_forall in HF. by rewrite (HF ck Hck). Qed.

Lemma bytes_size : missing ck = false -> zlen bytes = dtype_bpe (m_dtype m) * volume (inners ds).
Proof.
  intros Hm. destruct chunk_array as (arr & Ha & _ & Hmeta). rewrite (decode_chunk_size _ _ _ _ Hdec Hm), (chunk_decoded x ck arr Hx Ha), Hmeta by (by apply (br_input R)).
  destruct (ip_inner _ _ _ _ _ _ _ P) as [Hl _]. rewrite extent_prod_volume, dims_inner, (proj2 dims_rank) by lia. done.
Qed.

Lemma source_value os : all_fall ds os -> exists e,
  row_source ck m (elements_of (dtype_bpe (m_dtype m)) bytes) (origin_of ds os) 0 = Some e /\
  stored convert (dtype output) (m_dtype m) (missing ck) e =
    chunk_value ck m bytes (address (zip_with Z.modulo (position_source request os) (take rank (inner_chunk_shape m))) (row_major (take rank (inner_chunk_shape m)))).
Proof.
  intros Hf. pose proof (address_range _ _ (falls_inside _ _ (cd_ok _ _ _ _ _ D) Hf)) as Ho. fold (origin_of ds os) in Ho.
  assert (Heq : origin_of ds os = address (zip_with Z.modulo (position_source request os) (take rank (inner_chunk_shape m))) (row_major (take rank (inner_chunk_shape m)))).
  { unfold origin_of. rewrite origin_modulo, dims_sources, dims_inner by (done || apply D). done. }
  rewrite <-Heq. unfold row_source, chunk_value. destruct (missing ck) eqn:Hm; [by eexists|].
  pose proof (dtype_bpe_range (m_dtype m)). rewrite Z.add_0_r, elements_of_at; [by eexists|lia|].
  rewrite bytes_size by done. rewrite Z.mul_comm, Z.div_mul by lia. done.
Qed.

Lemma chunk_use_ok : use_ok convert (dtype output) strides ck r m (elements_of (dtype_bpe (m_dtype m)) bytes) want ds (samples_per_batch output).
Proof.
  destruct (ip_rank _ _ _ _ _ _ _ P) as (Hr1 & Hr2 & Hr0). destruct (ip_region _ _ _ _ _ _ _ P) as [_ Hreg]. destruct output_layout as [V Hstr]. pose proof dims_rank as [Hdr _].
  split.
  - apply D.
  - pose proof (cd_rank _ _ _ _ _ D). lia.
  - intros k v Hk. unfold inners in Hk. rewrite list_lookup_fmap in Hk. destruct (ds !! k) as [dm|] eqn:E; [|done]. cbn in Hk. simplify_eq. apply (cd_facts _ _ _ _ _ D k dm E).
  - intros k dm E. destruct (cd_facts _ _ _ _ _ D k dm E). rewrite (ro_source _ _ _ _ _ Hreg). split_and!.
    + rewrite (ro_axes _ _ _ _ _ Hreg (Z.of_nat k) (dm_axis dm)); [|pose proof (lookup_lt_Some _ _ _ E); lia|done]. f_equal. eapply copied_axis_id. apply af_copied0.
    + done.
    + rewrite <-(cd_cells _ _ _ _ _ D), aget_nat, list_lookup_fmap, E. done.
  - rewrite Hdr, <-dims_batch, <-Hstr. f_equal. lia.
  - rewrite (proj2 (ro_ids _ _ _ _ _ Hreg)). apply sample_index.
  - unfold total. rewrite <-dims_batch. apply V.
  - unfold total. rewrite <-dims_batch. apply V.
  - rewrite dims_inner, <-(proj2 dims_rank). pose proof (ip_inner _ _ _ _ _ _ _ P). lia.
  - pose proof (proj2 (dtype_bpe_pos (dtype output)) (lv_type _ V)). lia.
  - intros os Hf. destruct (source_value os Hf) as (e & He & Hval). exists e. split; [done|]. rewrite Hval. intros j' os' Hj' Hin Heq. rewrite target_place in Heq. unfold place_of in Heq.
    pose proof (proj1 (all_fall_iff _ _) Hf) as [Hi Hd]. apply address_inj in Heq; [| |by constructor].
    + injection Heq as <- <-. destruct chunk_array as (arr & Ha & Hu & Hm). exists s, request, m, x, ck, arr, bytes. split_and!; try done.
      * apply P.
      * rewrite Hu. apply P.
      * cbv zeta. rewrite <-dims_inner, <-dims_sources, Hd. split; [by rewrite (cd_cells _ _ _ _ _ D)|done].
    + unfold batch_dims. constructor; [apply sample_index|]. by rewrite <-dims_out.
Qed.
End one.

(** A step of the loop over the uses. *)
Lemma use_step x ck arr bytes p use b :
  aget (chunks plan) x = Some ck -> aget (arrays plan) (array ck) = Some arr -> decode_chunk lib ck (metadata arr) (input x) = inr bytes ->
  aget (uses plan) p = Some use -> chunk use = x -> zlen b = volume (batch_dims output) ->
  exists reg b' n, aget (regions plan) (region use) = Some reg /\
    match operation reg with
    | PLAN_GATHER => gather_chunk convert (dtype output) strides ck reg (metadata arr) (elements_of (dtype_bpe (m_dtype (metadata arr))) bytes) b
    | PLAN_COPY => copy_region convert (dtype output) strides ck reg (metadata arr) (elements_of (dtype_bpe (m_dtype (metadata arr))) bytes) b
    end = Some (b', n) /\ improves want b b' (use_covers ck (metadata arr) use).
Proof.
  intros Hx Ha Hdec Hp Hc Hb. pose proof (po_uses _ _ _ _ (br_plan R)) as HF. destruct (Forall_aget _ _ _ _ HF Hp) as [_ Hj].
  destruct (aget_is_Some samples (region use) Hj) as [s Hs]. pose proof (br_requests R) as HR. pose proof (Forall2_length _ _ _ HR) as Hl.
  destruct (aget_is_Some requests (region use)) as [request Hreq]; [lia|]. destruct (sample_in_plan _ s request Hs Hreq) as (u & m & a & r & P).
  assert (Hck : ck ∈ used_chunks plan (region use)).
  { unfold used_chunks. apply list_elem_of_omap. exists use. split; [apply elem_of_aget; eauto|]. rewrite decide_True by done. by rewrite Hc. }
  destruct (chunk_array (region use) s request u m a r ck P Hck) as (arr' & Ha' & _ & Hm). rewrite Ha in Ha'. injection Ha' as <-. rewrite Hm in *.
  destruct (used_chunk_dims _ _ _ _ _ _ _ _ P Hck) as [ds D]. destruct (ip_region _ _ _ _ _ _ _ P) as [Hr Hreg].
  pose proof (chunk_use_ok _ _ _ _ _ _ _ _ _ _ _ Hs Hreq P Hx Hck D Hdec) as U.
  assert (Hb' : zlen b = total ds (samples_per_batch output)) by (unfold total; rewrite Hb, (dims_batch (region use) s request u m a r ck ds P D); done).
  assert (Hcov : forall q, use_covers ck m use q -> covered r ds (samples_per_batch output) q).
  { intros q (request' & os & Hreq' & Hi & -> & Hz). rewrite Hreq in Hreq'. injection Hreq' as <-. exists os. split; [|by rewrite (target_place (region use) s request u m a r ck ds P D)].
    apply all_fall_iff. rewrite (dims_out _ _ _ _ _ _ _ _ _ P D), (dims_inner _ _ _ _ _ _ _ _ _ P D), (dims_sources _ _ _ _ _ _ _ _ _ P D), (cd_cells _ _ _ _ _ D). done. }
  exists r. destruct (operation r) eqn:Hop.
  - destruct (copy_region_spec _ _ _ _ _ _ _ _ _ _ U b Hb') as (b' & n & E & Him).
    { apply Forall_lookup. intros k dm Hk. destruct (decide (count (dm_axis dm) = 0)) as [|Hne]; [done|]. exfalso. destruct (cd_facts _ _ _ _ _ D k dm Hk).
      assert (operation r = PLAN_GATHER); [|congruence]. apply (ro_op _ _ _ _ _ Hreg). exists (Z.of_nat k), (dm_axis dm). split; [|done].
      pose proof (cd_rank _ _ _ _ _ D). pose proof (lookup_lt_Some _ _ _ Hk). lia. }
    exists b', n. split_and!; [done|done|]. by eapply improves_weaken.
  - destruct (gather_chunk_spec _ _ _ _ _ _ _ _ _ _ U b Hb') as (b' & n & E & Him). exists b', n. split_and!; [done|done|]. by eapply improves_weaken.
Qed.

(** The places of chunk [x]. *)
Definition chunk_covers (x q : Z) : Prop :=
  exists ck arr p use, aget (chunks plan) x = Some ck /\ aget (arrays plan) (array ck) = Some arr /\ aget (uses plan) p = Some use /\ chunk use = x /\ use_covers ck (metadata arr) use q.

Lemma chunk_has_array ck : ck ∈ chunks plan -> exists arr, aget (arrays plan) (array ck) = Some arr.
Proof.
  intros Hck. destruct (po_chunks _ _ _ _ (br_plan R) ck Hck) as (j & s & u & m & a & decoded & per & S & c & Hs & P & (k & h & index & _ & _ & _ & E) & Hset).
  destruct (planned_array _ _ _ _ _ _ _ _ _ Hs P) as (arr & Ha & _). exists arr. replace (array ck) with a; [done|]. rewrite Hset. revert E.
  unfold chunk_of_entry. destruct index as [idx|]; [|by intros [= <-]]. destruct (_ <=? _); [done|].
  destruct (aget (si_entries idx) _); [|done]. cbn [mbind option_bind]. cbv zeta. destruct (_ || _); [done|]. by intros [= <-].
Qed.

Lemma decode_one_spec x ck b : aget (chunks plan) x = Some ck -> zlen b = volume (batch_dims output) ->
  exists st n b', decode_one convert lib (dtype output) strides plan ck (input x) b = Some (st, n, b') /\
    improves want b b' (fun q => st = DAMACY_OK /\ chunk_covers x q).
Proof.
  intros Hx Hb. unfold decode_one. destruct (chunk_has_array ck) as [arr Ha]; [apply elem_of_aget; eauto|]. rewrite Ha. cbn [mbind option_bind].
  destruct (decode_chunk lib ck (metadata arr) (input x)) as [e|bytes] eqn:Hdec.
  { exists e, 0, b. split; [done|]. eapply improves_weaken; [|apply improves_refl]. intros q [-> _]. revert Hdec. clear.
    unfold decode_chunk, decode_blosc. repeat case_match; congruence. }
  unfold assemble_chunk. rewrite Ha. cbn [mbind option_bind]. rewrite (po_first _ _ _ _ (br_plan R) x ck Hx), <-(firstn_all (uses plan)).
  destruct (use_loop_spec convert (dtype output) strides plan ck (metadata arr) (elements_of (dtype_bpe (m_dtype (metadata arr))) bytes) want x (volume (batch_dims output)) (use_covers ck (metadata arr)))
    with (p := length (uses plan)) (fuel := length (take (length (uses plan)) (uses plan))) (b := b) (bytes := 0) as (b' & n & E & Hi).
  - pose proof (po_counts _ _ _ _ (br_plan R)). pose proof (br_limits R). lia.
  - apply (po_next _ _ _ _ (br_plan R)).
  - intros p use Hp Hc b0 Hb0. by eapply use_step.
  - done.
  - rewrite firstn_all. done.
  - done.
  - rewrite E. cbn [mbind option_bind fst snd]. exists DAMACY_OK, n, b'. split; [done|]. eapply improves_weaken; [|exact Hi].
    intros q (_ & ck' & arr' & p & use & Hx' & Ha' & Hp & Hc & Hcov). simplify_eq. exists p, use. split; [by apply aget_Some_range in Hp|done].
Qed.

(** ** All chunks *)

Lemma decode_all_spec order b : Forall (fun x => 0 <= x < zlen (chunks plan)) order -> zlen b = volume (batch_dims output) ->
  exists sts b', decode_all convert lib (dtype output) strides plan input order b = Some (sts, b') /\ length sts = length order /\
    improves want b b' (fun q => exists x, x ∈ order /\ Forall (eq DAMACY_OK) sts /\ chunk_covers x q).
Proof.
  intros HF. revert b. induction HF as [|x order Hx _ IH]; intros b Hb; cbn [decode_all].
  { exists [], b. split; [done|]. split; [done|]. eapply improves_weaken; [|apply improves_refl]. intros q (x & Hx & _). by apply not_elem_of_nil in Hx. }
  destruct (aget_is_Some (chunks plan) x Hx) as [ck Hck]. rewrite Hck. cbn [mbind option_bind].
  destruct (decode_one_spec x ck b Hck Hb) as (st & n & b1 & -> & Hi1). cbn [mbind option_bind fst snd].
  destruct (IH b1) as (sts & b2 & -> & Hl & Hi2); [by rewrite (im_len _ _ _ _ Hi1)|]. cbn [mbind option_bind fst snd].
  exists (st :: sts), b2. split; [done|]. split; [cbn; lia|]. eapply improves_weaken; [|exact (improves_trans _ _ _ _ _ _ Hi1 Hi2)].
  intros q (y & Hy & Hok & Hcov). apply Forall_cons in Hok as [<- Hok]. apply elem_of_cons in Hy as [->|Hy]; [by left|]. right. eauto.
Qed.

(** Every position has its source in a chunk of the plan. *)
Lemma position_covered j os : 0 <= j < samples_per_batch output -> inside extents_out os -> exists x, 0 <= x < zlen (chunks plan) /\ chunk_covers x (place_of j os).
Proof.
  intros Hj Hin. pose proof (br_samples R) as [Hwf Hlen]. rewrite <-Hlen in Hj. destruct (aget_is_Some samples j Hj) as [s Hs].
  pose proof (Forall2_length _ _ _ (br_requests R)) as Hl. destruct (aget_is_Some requests j) as [request Hreq]; [lia|].
  destruct (sample_in_plan j s request Hs Hreq) as (u & m & a & r & P). destruct (ip_rank _ _ _ _ _ _ _ P) as (Hr1 & Hr2 & Hr0).
  destruct (ip_inner _ _ _ _ _ _ _ P) as [Hli _]. pose proof (Forall2_length _ _ _ Hin) as Hlo.
  assert (Hax : forall d, 0 <= d < m_rank m -> exists o, aget os d = Some o /\ exists ax b q inner out, axis_facts request s m d ax b q inner out /\ 0 <= o < out).
  { intros d Hd. destruct (ip_axes _ _ _ _ _ _ _ P d Hd) as (ax & b & q & inner & out & A). destruct (af_out _ _ _ _ _ _ _ _ _ A) as [Ho _].
    apply aget_lookup in Ho as [_ Ho]. destruct (Forall2_lookup_l _ _ _ (Z.to_nat d) out Hin) as (o & Hos & Hb); [rewrite lookup_take_lt by lia; done|].
    exists o. split; [apply aget_lookup; split; [lia|done]|]. by exists ax, b, q, inner, out. }
  set (c := zip_with Z.div (position_source request os) (take rank (inner_chunk_shape m))).
  assert (Hc : forall k, (k < rank)%nat -> exists ax o inner, take rank (s_axes request) !! k = Some ax /\ os !! k = Some o /\ take rank (inner_chunk_shape m) !! k = Some inner /\
     exists b q, axis_facts request s m (Z.of_nat k) ax b q inner (if decide (count q = 0) then end_ b - beg b else count q) /\ 0 <= o < (if decide (count q = 0) then end_ b - beg b else count q)).
  { intros k Hk. destruct (Hax (Z.of_nat k) ltac:(lia)) as (o & Ho & ax & b & q & inner & out & A & Hb). rewrite aget_nat in Ho. destruct (af_out _ _ _ _ _ _ _ _ _ A) as [_ ->].
    exists ax, o, inner. rewrite !lookup_take_lt by lia. pose proof (af_request _ _ _ _ _ _ _ _ _ A) as E1. pose proof (proj1 (af_inner _ _ _ _ _ _ _ _ _ A)) as E2. rewrite aget_nat in E1. rewrite aget_nat in E2. split_and!; try done. by exists b, q. }
  assert (Hck : c ∈ coordinate <$> used_chunks plan j).
  { apply (ip_cells _ _ _ _ _ _ _ P). split.
    - assert (length c = rank); [|lia]. destruct (Nat.lt_trichotomy (length c) rank) as [Hlt|[E|Hgt]]; [|done|].
      + exfalso. destruct (Hc _ Hlt) as (ax & o & inner & E1 & E2 & E3 & _). generalize (lookup_ge_None_2 c (length c) (Nat.le_refl _)). revert E1 E2 E3. generalize (length c). intros n E1 E2 E3 E.
        revert E. unfold c, position_source. rewrite lookup_zip_with, lookup_zip_with, E1, E2, E3. done.
      + exfalso. unfold c in Hgt. rewrite length_zip_with, length_take in Hgt. lia.
    - intros d z Hz. apply aget_lookup in Hz as [Hd Hz]. pose proof (lookup_lt_Some _ _ _ Hz) as Hlt. unfold c in Hlt. rewrite length_zip_with, length_take in Hlt.
      destruct (Hc (Z.to_nat d) ltac:(lia)) as (ax & o & inner & E1 & E2 & E3 & b & q & A & Ho). rewrite Z2Nat.id in A by lia.
      unfold c, position_source in Hz. rewrite lookup_zip_with, lookup_zip_with, E1, E2, E3 in Hz. cbn in Hz. injection Hz as <-.
      destruct (af_copied _ _ _ _ _ _ _ _ _ A) as (C1 & C2 & C3). exists b, q, inner. split_and!; [apply A|apply A|apply A|]. split; [done|]. exists (axis_source ax o). split; [|done].
      by eapply axis_source_selects. }
  apply list_elem_of_fmap in Hck as (ck & Hc' & Hck). pose proof (chunk_array j s request u m a r ck P Hck) as (arr & Ha & _ & Hm).
  unfold used_chunks in Hck. apply list_elem_of_omap in Hck as (use & Huse & E). case_decide as Ej; [|done]. apply elem_of_aget in Huse as [p Hp].
  exists (chunk use). split; [by eapply aget_Some_range|]. exists ck, arr, p, use. split_and!; try done. exists request, os. rewrite Ej, Hm. by split_and!.
Qed.

(** From any contents of the buffer: every position keeps its old cell or gets its
    element, and it gets it when no chunk fails. *)
Lemma batch_decoded order buffer0 :
  order ≡ₚ seqZ 0 (zlen (chunks plan)) -> zlen buffer0 = volume (batch_dims output) ->
  exists sts buffer, decode_all convert lib (dtype output) strides plan input order buffer0 = Some (sts, buffer) /\
    zlen buffer = volume (batch_dims output) /\ length sts = length order /\
    forall j os, 0 <= j < samples_per_batch output -> inside extents_out os ->
      let q := address (j :: os) (take (rank + 1) strides) in
      (forall v, aget buffer q = Some (Some v) -> aget buffer0 q = Some (Some v) \/ right j os v) /\
      (Forall (eq DAMACY_OK) sts -> exists v, aget buffer q = Some (Some v) /\ right j os v).
Proof.
  intros Ho Hb0. destruct output_layout as [V Hstr]. pose proof (lv_rank _ V).
  destruct (decode_all_spec order buffer0) as (sts & b & E & Hl & Hi).
  { apply Forall_forall. intros x Hx. rewrite Ho in Hx. by apply elem_of_seqZ in Hx. }
  { done. }
  exists sts, b. split; [done|]. split; [by rewrite (im_len _ _ _ _ Hi)|]. split; [done|].
  intros j os Hj Hin. cbv zeta. replace (take (rank + 1) strides) with (row_major (batch_dims output)) by (rewrite <-Hstr; f_equal; lia). fold (place_of j os). split.
  - intros v Hq. destruct (im_change _ _ _ _ Hi _ _ Hq) as [?|Hw]; [by left|right; by apply Hw].
  - intros Hok. destruct (position_covered j os Hj Hin) as (x & Hx & Hcov). destruct (im_new _ _ _ _ Hi (place_of j os)) as (v & Hq & Hw); [|exists v; split; [done|by apply Hw]].
    exists x. split; [|done]. rewrite Ho. apply elem_of_seqZ. lia.
Qed.

(** C6. The batch on the CPU. A plan of [prepared_plan_build] for accepted requests, the
    strides of [batch_spec_layout] and what was read for its chunks: [decode_one] runs
    on the chunks in any order, always returns and stays in the output buffer and in
    the decoded chunks. Whatever chunks fail to decode, no position of the batch gets a
    wrong element; when none fails, every position [os] of every sample [j] holds the
    element of its array at the source index the request gives for [os] (interval or
    index list, repeated and unordered indices included), or the fill value where the
    chunk is missing. *)
Theorem cpu_batch_correct order buffer0 :
  order ≡ₚ seqZ 0 (zlen (chunks plan)) -> zlen buffer0 = volume (batch_dims output) ->
  exists sts buffer, decode_all convert lib (dtype output) strides plan input order buffer0 = Some (sts, buffer) /\
    zlen buffer = volume (batch_dims output) /\ length sts = length order /\
    forall j os, 0 <= j < samples_per_batch output -> inside extents_out os ->
      let q := address (j :: os) (take (rank + 1) strides) in
      (forall v, aget buffer q = Some (Some v) -> aget buffer0 q = Some (Some v) \/ right j os v) /\
      (Forall (eq DAMACY_OK) sts -> exists v, aget buffer q = Some (Some v) /\ right j os v).
Proof. apply batch_decoded. Qed.
End batch.

(** ** An example *)

Module Example.
(** Sixteen bytes in chunks of four and shards of eight; the last chunk is missing. *)
Definition meta : zarr_metadata := Meta dtype_u8 1 [16] [4] [8] true CODEC_NONE true [77; 0; 0; 0; 0; 0; 0; 0].
Definition handle (n : Z) : prefetch_handle := Handle n 1.
#[local] Instance view : CacheView := {
  query_array h := Query PREFETCH_STATE_READY (Some meta) DAMACY_OK;
  query_shard h := Query PREFETCH_STATE_READY
    (Some (ShardIndex [ShardEntry 0 4; if h_slot h =? 0 then ShardEntry 4 4 else ShardEntry ZARR_SHARD_EMPTY_OFFSET ZARR_SHARD_EMPTY_NBYTES] 2)) DAMACY_OK }.

(** An interval and a list of indices, the 9 twice. *)
Definition requests : list damacy_sample :=
  [Sample (Some "a"%string) 1 (AxisInterval (Interval 2 8) :: replicate 30 AxisOther);
   Sample (Some "a"%string) 1 (AxisIndices (Some [9; 3; 9; 0; 12; 7]) 6 :: replicate 30 AxisOther)].
Definition made (b : damacy_interval) (q : query_axis) (shards : list prefetch_handle) : planner_sample :=
  PlannerSample (Some "a"%string) (Aabb [b] 1) [q] (handle 0) shards (zlen shards) (handle 9).
Definition entries : list query_index := [QueryIndex 0 3; QueryIndex 3 1; QueryIndex 7 5; QueryIndex 9 0; QueryIndex 9 2; QueryIndex 12 4].
Definition samples : list planner_sample := [made (Interval 2 8) query_axis_none [handle 0]; made (Interval 0 13) (QueryAxis entries 6) [handle 0; handle 1]].
Definition output : damacy_batch_spec := BatchSpec 0 (6 :: replicate 30 0) 1 2.
Definition limits : damacy_plan_limits := Limits 16 64 4 100000.
Definition lib : decoders := Decoders (fun _ _ => None) (fun _ _ => None) (fun _ => (0, 0, 0)) (fun _ => (0, 0)) (fun _ => None) (fun _ _ => None) 16 2147483631 2 "LZ4" "Zstd".
Definition convert (output : Z) (input : zdtype) (e : element) : element := default [] (dtype_convert output e input).
Definition input (x : Z) : list Z := [4 * x; 4 * x + 1; 4 * x + 2; 4 * x + 3].

Lemma made_wf b q shards : axis_ok b q -> 0 <= count q < 2 ^ 32 -> zlen shards < 100 -> sample_wf (made b q shards).
Proof.
  intros Hok Hc Hl. split; cbn; try done.
  - intros d Hd. assert (d = 0) as -> by lia. by exists b, q.
  - by intros u [= <-].
  - lia.
  - by intros h idx _ [= <-].
  - intros m [= <-]. split; [done|done|]. split_and!; (constructor; [done|constructor]).
Qed.

Lemma samples_wf : Forall sample_wf samples.
Proof.
  assert (Hok : axis_ok (Interval 0 13) (QueryAxis entries 6)).
  { split; [cbn; lia|]. intros _. split; [|split; [done|]].
    - split; [|by repeat constructor|done]. repeat constructor; cbn; lia.
    - apply Forall_forall. repeat constructor; cbn; lia. }
  repeat apply Forall_cons_2; [apply made_wf; [|done|done]; split; [cbn; lia|done]|by apply made_wf|apply Forall_nil_2].
Qed.

Lemma requests_asked : Forall2 (asked output limits) requests samples.
Proof.
  assert (Hf : forall ax, axis_fits ax -> query_validate (Some (Sample (Some "a"%string) 1 (ax :: replicate 30 AxisOther))) (Some output) 100000 = Some DAMACY_OK ->
    zarr_accepts output (max_plan_bytes limits) (Sample (Some "a"%string) 1 (ax :: replicate 30 AxisOther))).
  { intros ax Hax Hq. split; [|split; [done|split; [done|by intros u [= <-]]]]. split; try done.
    - cbn. apply Forall_cons_2; [done|]. apply (Forall_replicate _ 30 AxisOther). done.
    - cbn. apply Forall_cons_2; [lia|]. apply (Forall_replicate _ 30 0). lia. }
  apply Forall2_cons_2; [|apply Forall2_cons_2; [|apply Forall2_nil_2]]; (split; [apply Hf; [|vm_compute; reflexivity]|]); cbn [axis_fits].
  - cbn. lia.
  - exists (fun _ => true), "a"%string. split; [vm_compute; reflexivity|done].
  - split; [lia|]. split; [done|]. by repeat apply Forall_cons_2; [..|apply Forall_nil_2].
  - exists (fun _ => true), "a"%string. split; [vm_compute; reflexivity|done].
Qed.

Lemma plan_ready plan strides input : prepared_plan_build (fun _ => true) samples output limits = Some (inr plan) ->
  (exists shape0 strides0 shape' bytes, zlen shape0 = DAMACY_MAX_RANK + 1 /\ zlen strides0 = DAMACY_MAX_RANK + 1 /\
     batch_spec_layout (Some output) shape0 strides0 = Some (DAMACY_OK, shape', strides, bytes)) ->
  (forall x ck, aget (chunks plan) x = Some ck -> missing ck = false -> zlen (input x) = encoded_bytes ck) ->
  batch_ready requests samples output limits plan strides input.
Proof.
  destruct (plan_build_ok (fun _ => true) samples output limits samples_wf) as (r & Hr & Hok); [done..|]. intros E Hl Hin. rewrite E in Hr. injection Hr as <-. specialize (Hok plan eq_refl). clear E. split.
  - exact Hok.
  - done.
  - split; [exact samples_wf|done].
  - exact requests_asked.
  - done.
  - split; [|exact Hl]. split; try done. cbn. apply Forall_cons_2; [done|]. by apply (Forall_replicate _ 30 0).
  - exact Hin.
Qed.

(** Chunks 3, 1, 0, 2 in this order. *)
Lemma cpu_batch_correct_witness :
  exists plan strides buffer, prepared_plan_build (fun _ => true) samples output limits = Some (inr plan) /\ take 2 strides = [6; 1] /\
    decode_all convert lib 0 strides plan input [3; 1; 0; 2] (replicate 12 None) = Some (replicate 4 DAMACY_OK, buffer) /\
    buffer = (fun v => Some (le_bytes 4 (f32_of_int v))) <$> [2; 3; 4; 5; 6; 7; 9; 3; 9; 0; 77; 7] /\
    right convert lib requests samples output plan input 1 [2] (le_bytes 4 (f32_of_int 9)).
Proof.
  destruct (prepared_plan_build (fun _ => true) samples output limits) as [[e|plan]|] eqn:E; [exfalso; vm_compute in E; discriminate E| |exfalso; vm_compute in E; discriminate E].
  pose proof (plan_ready plan) as Hready. vm_compute in E.
  destruct (batch_spec_layout (Some output) (replicate 32 0) (replicate 32 0)) as [[[[st shape'] strides] bytes]|] eqn:El; vm_compute in El; [|discriminate].
  exists plan, strides.
  destruct (cpu_batch_correct convert lib requests samples output limits plan strides input) with (order := [3; 1; 0; 2]) (buffer0 := replicate 12 (@None (list Z))) as (sts & buffer & Hd & _ & _ & Hc).
  - apply Hready; [rewrite <-E; vm_compute; reflexivity| |].
    + exists (replicate 32 0), (replicate 32 0), shape', bytes. split; [done|]. split; [done|]. injection El as <- <- <- <-. vm_compute. reflexivity.
    + assert (Hen : Forall (fun ck => missing ck = false -> encoded_bytes ck = 4) (chunks plan)).
      { injection E as <-. repeat apply Forall_cons_2; [done..|apply Forall_nil_2]. }
      intros x ck Hx Hm. by rewrite (Forall_aget _ _ _ _ Hen Hx Hm).
  - injection E as <-. cbn [chunks length]. change (seqZ 0 (Z.of_nat 4)) with [0; 1; 2; 3]. by apply Permutation_sym, (bool_decide_unpack ([0; 1; 2; 3] ≡ₚ [3; 1; 0; 2])).
  - done.
  - injection E as <-. injection El as <- <- <- <-. vm_compute in Hd. injection Hd as <- <-. eexists. split; [reflexivity|]. split; [reflexivity|]. split; [vm_compute; reflexivity|].
    split; [reflexivity|]. destruct (Hc 1 [2]) as [Hright _]; [done|by repeat constructor|]. destruct (Hright (le_bytes 4 (f32_of_int 9)) eq_refl) as [E|E]; [discriminate E|exact E].
Defined.
End Example.
