(* ===== verification/CpuRead.v ===== *)
(** * The reads of a batch on the CPU

    [cpu_read_plan_build] of [src/src/executor/cpu_executor.c] ([cpu_read_plan.h]): the
    chunks of a plan as reads, merged by [coalesce_reads], and per merged read the list
    of its chunks. *)

From stdpp Require Import strings.
From S2P Require Import Prelude Selection Plan ReadOpSort DispatchTypes Coalesce CoalesceProof Dispatch.

#[local] Open Scope Z_scope.

Record damacy_cpu_config := CpuConfig {
  decode_workers : Z; max_encoded_chunk_bytes : Z; max_decoded_chunk_bytes : Z; max_memory_bytes : Z; chunks_per_input_buffer : Z }.

Record cpu_chunk_read := ChunkRead { cr_offset : Z; cr_next : Z }.

(** [rp_reads] has the merged reads below [rp_count]. *)
Record cpu_read_plan := ReadPlan {
  rp_reads : list read_op; rp_chunks : list cpu_chunk_read; first_chunks : list Z; rp_count : Z; rp_bytes : Z }.
Definition read_plan_zero : cpu_read_plan := ReadPlan [] [] [] 0 0.

Definition sizeof_cpu_chunk_read : Z := 8.

(** [for (i = n; i-- > 0;)] *)
Fixpoint chain_loop (n : nat) (read_index offset_in_read : list Z) (first : list Z) (links : list cpu_chunk_read) : option (list Z * list cpu_chunk_read) :=
  match n with
  | O => Some (first, links)
  | S i =>
      read ← aget read_index (Z.of_nat i);
      o ← aget offset_in_read (Z.of_nat i);
      next ← aget first read;
      links ← aset links (Z.of_nat i) (ChunkRead o next);
      first ← aset first read (Z.of_nat i);
      chain_loop i read_index offset_in_read first links
  end.

Definition chunk_read (ck : plan_chunk) : read_op := if missing ck then ReadOp None 0 0 0 else ReadOp (path ck) (offset ck) 0 (encoded_bytes ck).

(** [malloc n] says whether [n] bytes can be had. *)
Definition cpu_read_plan_build (malloc : Z -> bool) (plan : prepared_plan) (config : damacy_cpu_config) (available active_plan_bytes : Z)
    : option (damacy_status + cpu_read_plan) :=
  let count := zlen (chunks plan) in
  let bytes := u64 (count * (sizeof_read_op + sizeof_cpu_chunk_read + 4)) in
  let scratch_bytes := u64 (count * (sizeof_read_op + 4 * 4)) in
  let need := u64 (bytes + scratch_bytes) in
  if (SIZE_MAX <? need) || ((available <? need) && (active_plan_bytes <? u64 (need - available))) then Some (inl DAMACY_BUDGET)
  else if available <? need then Some (inl DAMACY_AGAIN)
  else if negb (malloc bytes && malloc (count * sizeof_read_op) && malloc (count * 4 * 4)) then Some (inl DAMACY_OOM)
  else
    let n := Z.to_nat count in
    let read_chunks := if chunks_per_input_buffer config <? decode_workers config then chunks_per_input_buffer config else decode_workers config in
    r ← coalesce_reads (Some (map chunk_read (chunks plan))) count (u64 (read_chunks * max_encoded_chunk_bytes config)) read_chunks
          (Some (Scratch (replicate n 0) (replicate n 0) (replicate (2 * n) 0) (replicate n (ReadOp None 0 0 0))));
    match r with
    | inl status => Some (inl status)
    | inr c =>
        first ← array_fill (Z.to_nat (c_n c)) (replicate n 0) 0 UINT32_MAX;
        r ← chain_loop n (c_index c) (c_offset c) first (replicate n (ChunkRead 0 0));
        Some (inr (ReadPlan (c_reads c) (snd r) (fst r) (c_n c) bytes))
    end.

(** ** The lists of chunks *)

(** The chunks from [c] on, along the links. *)
Fixpoint linked (links : list cpu_chunk_read) (c : Z) (l : list Z) : Prop :=
  match l with
  | [] => c = UINT32_MAX
  | i :: l => c = i /\ exists cr, aget links i = Some cr /\ linked links (cr_next cr) l
  end.

Lemma linked_aset links links' i cr c l : aset links i cr = Some links' -> i ∉ l -> linked links c l -> linked links' c l.
Proof.
  intros Hs. revert c. induction l as [|j l IH]; intros c Hi; [done|]. apply not_elem_of_cons in Hi as [Hne Hi]. cbn. intros (-> & cr' & Hj & Hl).
  split; [done|]. exists cr'. split; [by rewrite (aget_aset_ne _ _ _ _ _ Hs)|]. by apply IH.
Qed.

(** The chunks of read [x] from [i] on. *)
Definition members (read_index : list Z) (x i n : Z) : list Z := filter (fun j => aget read_index j = Some x) (seqZ i (n - i)).

Lemma members_step read_index x i n y : 0 <= i < n -> aget read_index i = Some y ->
  members read_index x i n = if decide (x = y) then i :: members read_index x (i + 1) n else members read_index x (i + 1) n.
Proof.
  intros Hi Hy. unfold members. rewrite seqZ_cons by lia. rewrite filter_cons. replace (Z.pred (n - i)) with (n - (i + 1)) by lia. replace (Z.succ i) with (i + 1) by lia.
  case_decide as E; case_decide as E'; try congruence.
Qed.
Lemma members_elem read_index x i n j : j ∈ members read_index x i n <-> i <= j < n /\ aget read_index j = Some x.
Proof. unfold members. rewrite list_elem_of_filter, elem_of_seqZ. split; intros [? ?]; (split; [|done || lia]); done || lia. Qed.

Lemma chain_loop_spec n read_index offsets first links N count :
  Z.of_nat n <= N -> zlen links = N -> zlen read_index >= N -> zlen offsets >= N -> count <= zlen first ->
  (forall i x, 0 <= i < N -> aget read_index i = Some x -> 0 <= x < count) ->
  (forall x, 0 <= x < count -> exists c, aget first x = Some c /\ linked links c (members read_index x (Z.of_nat n) N)) ->
  (forall i, Z.of_nat n <= i < N -> exists o cr, aget offsets i = Some o /\ aget links i = Some cr /\ cr_offset cr = o) ->
  exists first' links', chain_loop n read_index offsets first links = Some (first', links') /\ length first' = length first /\ length links' = length links /\
    (forall x, 0 <= x < count -> exists c, aget first' x = Some c /\ linked links' c (members read_index x 0 N)) /\
    (forall i, 0 <= i < N -> exists o cr, aget offsets i = Some o /\ aget links' i = Some cr /\ cr_offset cr = o).
Proof.
  intros Hn Hl Hri Hof Hc Hidx. revert first links Hl Hc. induction n as [|n IH]; intros first links Hl Hc Hlink Hoff; cbn [chain_loop].
  { by exists first, links. }
  destruct (aget_is_Some read_index (Z.of_nat n) ltac:(lia)) as [y Hy]. rewrite Hy. cbn [mbind option_bind].
  destruct (aget_is_Some offsets (Z.of_nat n) ltac:(lia)) as [o Ho]. rewrite Ho. cbn [mbind option_bind].
  pose proof (Hidx (Z.of_nat n) y ltac:(lia) Hy) as Hyr. destruct (Hlink y Hyr) as (c & Hcy & Hly). rewrite Hcy. cbn [mbind option_bind].
  destruct (aset links (Z.of_nat n) (ChunkRead o c)) as [links1|] eqn:E1; [|by rewrite aset_range in E1 by lia]. cbn [mbind option_bind].
  destruct (aset first y (Z.of_nat n)) as [first1|] eqn:E2; [|by rewrite aset_range in E2 by lia]. cbn [mbind option_bind].
  pose proof (length_aset _ _ _ _ E1) as L1. pose proof (length_aset _ _ _ _ E2) as L2.
  destruct (IH ltac:(lia) first1 links1) as (first' & links' & -> & H1 & H2 & H3 & H4); [lia|lia| | |].
  - intros x Hx. rewrite (members_step _ _ _ _ y) by (done || lia). replace (Z.of_nat n + 1) with (Z.of_nat (S n)) by lia.
    assert (Hfree : Z.of_nat n ∉ members read_index x (Z.of_nat (S n)) N) by (rewrite members_elem; lia). case_decide as Exy.
    + subst x. exists (Z.of_nat n). split; [by eapply aget_aset_eq|]. split; [done|]. exists (ChunkRead o c). split; [by eapply aget_aset_eq|]. by eapply linked_aset.
    + destruct (Hlink x Hx) as (c' & Hc' & Hl'). exists c'. split; [by rewrite (aget_aset_ne _ _ _ _ _ E2)|]. by eapply linked_aset.
  - intros i Hi. destruct (decide (i = Z.of_nat n)) as [->|].
    + exists o, (ChunkRead o c). split; [done|]. split; [by eapply aget_aset_eq|done].
    + destruct (Hoff i ltac:(lia)) as (o' & cr & ? & ? & ?). exists o', cr. split; [done|]. split; [by rewrite (aget_aset_ne _ _ _ _ _ E1)|done].
  - exists first', links'. split; [done|]. split; [congruence|]. split; [congruence|]. by split.
Qed.

(** ** The plan of reads *)

Section build.
Context (malloc : Z -> bool) (plan : prepared_plan) (config : damacy_cpu_config) (available active : Z).

(** What the builder may rely on of a plan. *)
Record chunks_ok : Prop := {
  ck_count : 0 < zlen (chunks plan) <= 2 ^ 31;
  ck_reads : Forall (fun ck => 0 <= decoded_bytes ck /\
    if missing ck then encoded_bytes ck = 0 else is_Some (path ck) /\ 0 < encoded_bytes ck < 2 ^ 32 /\ 0 <= offset ck /\ offset ck + encoded_bytes ck < 2 ^ 64) (chunks plan) }.

Notation count := (zlen (chunks plan)).

(** The read [t] holds the bytes of chunk [ck], [o] after its start. *)
Definition holds_chunk (t : read_op) (o : Z) (ck : plan_chunk) : Prop :=
  if missing ck then is_io t = false /\ nbytes t = 0 /\ o = 0
  else is_io t = true /\ shard_path t = path ck /\ file_offset t + o = offset ck /\ 0 <= o /\ o + encoded_bytes ck <= nbytes t.

(** Read [x] with its chunks [l]. *)
Record read_of (rp : cpu_read_plan) (x : Z) (l : list Z) : Prop := {
  rd_first : exists c, aget (first_chunks rp) x = Some c /\ linked (rp_chunks rp) c l;
  rd_some : l <> [] /\ NoDup l /\ Forall (fun i => 0 <= i < count) l;
  rd_read : exists t, aget (rp_reads rp) x = Some t /\ 0 <= nbytes t < 2 ^ 32 /\
    (forall i ck, i ∈ l -> aget (chunks plan) i = Some ck -> exists cr, aget (rp_chunks rp) i = Some cr /\ holds_chunk t (cr_offset cr) ck) /\
    zlen l <= Z.min (decode_workers config) (chunks_per_input_buffer config) /\
    nbytes t <= Z.min (decode_workers config) (chunks_per_input_buffer config) * max_encoded_chunk_bytes config }.

(** All chunks are in the reads, each once. *)
Record read_plan_ok (rp : cpu_read_plan) : Prop := {
  ro_count : 0 < rp_count rp <= count /\ zlen (rp_reads rp) = count /\ zlen (rp_chunks rp) = count;
  ro_reads : exists Ls, zlen Ls = rp_count rp /\ concat Ls ≡ₚ seqZ 0 count /\ forall x l, aget Ls x = Some l -> read_of rp x l;
  ro_bytes : rp_bytes rp = count * (sizeof_read_op + sizeof_cpu_chunk_read + 4) }.

Hypothesis Hck : chunks_ok.
Hypothesis Hconfig : 0 < decode_workers config < 2 ^ 32 /\ 0 < chunks_per_input_buffer config < 2 ^ 32 /\ 0 < max_encoded_chunk_bytes config < 2 ^ 32.
Hypothesis Havail : is_u64 available.
Hypothesis Hencoded : Forall (fun ck => encoded_bytes ck <= max_encoded_chunk_bytes config) (chunks plan).

Lemma chunk_read_fits ck : ck ∈ chunks plan -> read_fits (chunk_read ck) /\ is_io (chunk_read ck) = negb (missing ck).
Proof.
  intros H. pose proof (ck_reads Hck) as HF. rewrite Forall_forall in HF. destruct (HF ck H) as [_ Hm]. unfold read_fits, chunk_read, is_io. destruct (missing ck); cbn; [lia|].
  destruct Hm as (Hp & He & Ho & Hs). split; [lia|]. rewrite (proj2 (Z.eqb_neq _ _)) by lia. cbn. by apply bool_decide_eq_true.
Qed.

Lemma aget_map_inv {A B} (f : A -> B) l i y : aget (map f l) i = Some y -> exists z, aget l i = Some z /\ y = f z.
Proof. intros [Hi Hy]%aget_lookup. rewrite list_lookup_fmap in Hy. destruct (l !! Z.to_nat i) as [z|] eqn:E; [|done]. cbn in Hy. injection Hy as <-. exists z. split; [by apply aget_lookup|done]. Qed.

(** The members of the reads partition the chunks. *)
Lemma members_partition read_index n cnt : 0 <= n -> 0 <= cnt -> (forall i, 0 <= i < n -> exists x, aget read_index i = Some x /\ 0 <= x < cnt) ->
  concat (map (fun x => members read_index x 0 n) (seqZ 0 cnt)) ≡ₚ seqZ 0 n.
Proof.
  intros Hn Hcnt Hidx. apply NoDup_Permutation; [|apply NoDup_seqZ|].
  - assert (Hnd : NoDup (seqZ 0 cnt)) by apply NoDup_seqZ. revert Hnd. generalize (seqZ 0 cnt). intros xs Hnd. induction Hnd as [|x xs Hx Hnd IH]; cbn [map concat]; [apply NoDup_nil_2|].
    apply NoDup_app. split_and!; [apply NoDup_filter, NoDup_seqZ| |done]. intros i [_ Hi]%members_elem Hin. apply list_elem_of_In, in_concat in Hin as (l & Hl & Hin).
    apply in_map_iff in Hl as (y & <- & Hy). apply list_elem_of_In, members_elem in Hin as [_ Hin]. apply list_elem_of_In in Hy. assert (x = y) by congruence. by subst.
  - intros i. rewrite elem_of_seqZ. rewrite list_elem_of_In, in_concat. split.
    + intros (l & Hl & Hin). apply in_map_iff in Hl as (y & <- & _). apply list_elem_of_In, members_elem in Hin. lia.
    + intros Hi. destruct (Hidx i ltac:(lia)) as (x & Hx & Hr). exists (members read_index x 0 n). split; [|apply list_elem_of_In, members_elem; split; [lia|done]].
      apply in_map_iff. exists x. split; [done|]. apply list_elem_of_In, elem_of_seqZ. lia.
Qed.

Notation read_chunks := (Z.min (decode_workers config) (chunks_per_input_buffer config)).

Lemma coalesced_index c : coalesced (map chunk_read (chunks plan)) count (read_chunks * max_encoded_chunk_bytes config) read_chunks c ->
  count <= zlen (c_index c) /\ count <= zlen (c_offset c) /\ forall i, 0 <= i < count -> exists x, aget (c_index c) i = Some x /\ 0 <= x < c_n c.
Proof.
  intros C. assert (Hl : forall i, 0 <= i < count -> exists x o, aget (c_index c) i = Some x /\ 0 <= x < c_n c /\ aget (c_offset c) i = Some o).
  { intros i Hi. destruct (aget_is_Some (map chunk_read (chunks plan)) i ltac:(rewrite length_map; lia)) as [r Hr]. destruct (co_located _ _ _ _ _ C i r Hi Hr) as (x & o & t & Hx & Hxr & Ho & _). by exists x, o. }
  pose proof (ck_count Hck). destruct (Hl (count - 1) ltac:(lia)) as (x & o & Hx & _ & Ho). apply aget_Some_range in Hx. apply aget_Some_range in Ho.
  split; [lia|]. split; [lia|]. intros i Hi. destruct (Hl i Hi) as (x' & o' & ? & ? & _). by exists x'.
Qed.

Lemma coalesced_read c first links x : coalesced (map chunk_read (chunks plan)) count (read_chunks * max_encoded_chunk_bytes config) read_chunks c ->
  (exists a, aget first x = Some a /\ linked links a (members (c_index c) x 0 count)) -> 0 <= x < c_n c ->
  (forall i, 0 <= i < count -> exists o cr, aget (c_offset c) i = Some o /\ aget links i = Some cr /\ cr_offset cr = o) ->
  read_of (ReadPlan (c_reads c) links first (c_n c) (count * (sizeof_read_op + sizeof_cpu_chunk_read + 4))) x (members (c_index c) x 0 count).
Proof.
  intros C Hf Hx Hoff. pose proof (co_count _ _ _ _ _ C) as Hcn. pose proof (co_len _ _ _ _ _ C) as Hlen. rewrite length_map in Hlen.
  destruct (aget_is_Some (c_reads c) x ltac:(lia)) as [t Ht]. destruct (co_justified _ _ _ _ _ C x t Hx Ht) as (G & HG & HGn & HGm & Hcap & Hbytes).
  set (l := members (c_index c) x 0 count) in *. assert (Hnd : NoDup l) by (apply NoDup_filter, NoDup_seqZ).
  assert (Hperm : l ≡ₚ G). { apply NoDup_Permutation; [done|done|]. intros i. rewrite HGm. unfold l. by rewrite members_elem. }
  assert (Hne : l <> []) by (intros E; rewrite E in Hperm; by apply Permutation_nil in Hperm).
  assert (Hloc : forall i ck, i ∈ l -> aget (chunks plan) i = Some ck -> 0 <= nbytes t < 2 ^ 32 /\ exists cr, aget links i = Some cr /\ holds_chunk t (cr_offset cr) ck).
  { intros i ck [Hi Hix]%members_elem Hc. assert (Hr : aget (map chunk_read (chunks plan)) i = Some (chunk_read ck)).
    { apply aget_lookup in Hc as [? Hc]. apply aget_lookup. split; [done|]. by rewrite list_lookup_fmap, Hc. }
    destruct (chunk_read_fits ck) as [Hfit Hio]; [apply elem_of_aget; eauto|]. destruct (co_located _ _ _ _ _ C i _ Hi Hr) as (x' & o & t' & Hx' & _ & Ho & Ht' & Hcase).
    rewrite Hix in Hx'. injection Hx' as <-. rewrite Ht in Ht'. injection Ht' as <-. rewrite Hio in Hcase. destruct (Hoff i Hi) as (o' & cr & Ho' & Hcr & Hco). rewrite Ho in Ho'. injection Ho' as <-.
    pose proof (ck_reads Hck) as HF. rewrite Forall_forall in HF. destruct (HF ck) as [_ Hm]; [apply elem_of_aget; eauto|]. unfold holds_chunk, chunk_read in *. destruct (missing ck); cbn in Hcase.
    - destruct Hcase as [-> E]. split; [done|]. exists cr. rewrite Hco. done.
    - destruct Hcase as (Hp & Hfo & Ho0 & Hon & Hn). split; [lia|]. exists cr. rewrite Hco. split; [done|]. split; [|by split_and!]. apply is_io_iff. rewrite Hp. split; [lia|apply Hm]. }
  destruct l as [|i0 l0] eqn:El; [done|]. destruct (proj1 (members_elem (c_index c) x 0 count i0)) as [Hi0 _]; [fold l; rewrite El; set_solver|].
  destruct (aget_is_Some (chunks plan) i0 Hi0) as [ck0 Hck0]. destruct (Hloc i0 ck0 ltac:(set_solver) Hck0) as [Hnb _]. rewrite <-El in *. split.
  - exact Hf.
  - split; [by rewrite El|]. split; [done|]. apply Forall_forall. intros i [Hi _]%members_elem. lia.
  - exists t. split; [done|]. split; [done|]. split; [intros i ck Hi Hc; by apply (Hloc i ck Hi Hc)|]. rewrite (Permutation_length Hperm). destruct Hcap as [Hone|[? ?]]; [|lia]. split; [lia|].
    assert (HG1 : forall i, i ∈ G -> i = i0). { intros i Hi. assert (Hi0' : i0 ∈ G) by (rewrite <-Hperm, El; set_solver). destruct G as [|g [|]]; [done|set_solver|cbn in Hone; lia]. }
    assert (Hsmall : nbytes t <= encoded_bytes ck0 \/ nbytes t = 0).
    { destruct (is_io t) eqn:Hio; [left|right].
      2: { destruct (Hloc i0 ck0 ltac:(rewrite El; set_solver) Hck0) as [_ (cr & _ & Hh)]. unfold holds_chunk in Hh. destruct (missing ck0); [lia|]. destruct Hh. congruence. }
      destruct (Z.le_gt_cases (nbytes t) 0); [apply is_io_iff in Hio; lia|].
      assert (Hin : forall b, file_offset t <= b < file_offset t + nbytes t -> file_offset (chunk_read ck0) <= b < file_offset (chunk_read ck0) + nbytes (chunk_read ck0)).
      { intros b Hb. destruct (Hbytes b Hb) as (i & r & Hi & Hr & Hbr). rewrite (HG1 i Hi) in Hr. apply aget_map_inv in Hr as (ck & Hc & ->). rewrite Hck0 in Hc. by injection Hc as <-. }
      pose proof (Hin (file_offset t) ltac:(lia)). pose proof (Hin (file_offset t + nbytes t - 1) ltac:(lia)). unfold chunk_read in *. destruct (missing ck0); cbn in *; lia. }
    rewrite Forall_forall in Hencoded. pose proof (Hencoded ck0 ltac:(apply elem_of_aget; eauto)). nia.
Qed.

Lemma read_plan_build_spec : exists r, cpu_read_plan_build malloc plan config available active = Some r /\
  match r with inl st => st <> DAMACY_OK | inr rp => read_plan_ok rp /\ rp_bytes rp <= available end.
Proof.
  unfold cpu_read_plan_build. pose proof (ck_count Hck) as Hc. unfold sizeof_read_op, sizeof_cpu_chunk_read.
  rewrite (u64_id (count * (32 + 8 + 4))), (u64_id (count * (32 + 4 * 4))), (u64_id (_ + _)) by clia.
  destruct (_ || _); [by eexists|]. destruct (Z.ltb_spec available (count * (32 + 8 + 4) + count * (32 + 4 * 4))) as [|Hav]; [by eexists|]. destruct (negb _); [by eexists|].
  set (rc := if _ <? _ then _ else _). assert (Hrc : rc = read_chunks) by (unfold rc; destruct (Z.ltb_spec (chunks_per_input_buffer config) (decode_workers config)); lia). rewrite Hrc. clear rc Hrc.
  rewrite u64_id by (unfold is_u64; nia). set (n := Z.to_nat count).
  destruct (coalesce_reads_spec (map chunk_read (chunks plan)) count (read_chunks * max_encoded_chunk_bytes config) read_chunks
    (Scratch (replicate n 0) (replicate n 0) (replicate (2 * n) 0) (replicate n (ReadOp None 0 0 0)))) as (c & -> & C);
    [lia|rewrite length_map; lia|lia|cbn; rewrite length_replicate; lia..| |].
  { intros i r _ Hr. apply aget_lookup in Hr as [_ Hr]. rewrite list_lookup_fmap in Hr. destruct (chunks plan !! Z.to_nat i) as [ck|] eqn:E; [|done]. cbn in Hr. injection Hr as <-.
    apply chunk_read_fits. by eapply list_elem_of_lookup_2. }
  cbn [mbind option_bind]. pose proof (co_count _ _ _ _ _ C) as Hcn. destruct (coalesced_index c C) as (Hi1 & Hi2 & Hidx).
  destruct (array_fill_spec (Z.to_nat (c_n c)) (replicate n 0) 0 UINT32_MAX) as (first & -> & Hfl & Hfv); [lia|rewrite length_replicate; lia|]. cbn [mbind option_bind]. rewrite length_replicate in Hfl.
  destruct (chain_loop_spec n (c_index c) (c_offset c) first (replicate n (ChunkRead 0 0)) count (c_n c)) as (first' & links & -> & Hl1 & Hl2 & Hlink & Hoff).
  - lia.
  - rewrite length_replicate. lia.
  - lia.
  - lia.
  - lia.
  - intros i x Hi Hx. destruct (Hidx i Hi) as (x' & Hx' & Hr). congruence.
  - intros x Hx. exists UINT32_MAX. rewrite Hfv, decide_True by lia. split; [done|]. unfold members. rewrite seqZ_nil by lia. done.
  - intros i Hi. lia.
  - cbn [mbind option_bind fst snd]. eexists. split; [done|]. split; [|cbn; lia]. split; cbn [rp_count rp_reads rp_bytes].
    + pose proof (co_len _ _ _ _ _ C) as E. rewrite length_map in E. cbn [rp_chunks]. rewrite length_replicate in Hl2. lia.
    + exists (map (fun x => members (c_index c) x 0 count) (seqZ 0 (c_n c))). split; [rewrite length_map, length_seqZ; lia|]. split; [apply members_partition; [lia|lia|exact Hidx]|].
      intros x l Hl. apply aget_lookup in Hl as [Hx Hl]. rewrite list_lookup_fmap in Hl. destruct (seqZ 0 (c_n c) !! Z.to_nat x) as [y|] eqn:E; [|done]. apply lookup_seqZ in E as [Ey Hy].
      assert (y = x) as -> by lia. cbn in Hl. injection Hl as <-. apply (coalesced_read c first' links x C); [by apply Hlink; lia|lia|exact Hoff].
    + done.
Qed.
End build.
