(* ===== verification/CpuExecutor.v ===== *)
(** * The CPU executor

    [cpu_submit], [cpu_dispatch], [cpu_collect], [cpu_step], [cpu_take] and [cpu_busy] of
    [src/src/executor/cpu_executor.c], with the decode thread and the buffer references
    of [src/src/pipeline/components.c]. Two slots render two batches, two waves carry
    their reads. A chunk of a wave is its index in the plan of its slot; an input
    pointer is an offset into the input of the wave. Statistics and clocks are left
    out. *)

From stdpp Require Import strings.
From S2P Require Import Prelude Config Selection Plan PlanBuilder ReadOpSort DispatchTypes Components CpuAssemble CpuRead.

#[local] Open Scope Z_scope.

Inductive cpu_slot_state := CPU_FREE | CPU_RENDERING | CPU_READY | CPU_HELD.
Inductive cpu_wave_state := CPU_INPUT_FREE | CPU_READING | CPU_READ_READY | CPU_DECODING.
#[export] Instance cpu_slot_state_eq_dec : EqDecision cpu_slot_state.
Proof. solve_decision. Defined.
#[export] Instance cpu_wave_state_eq_dec : EqDecision cpu_wave_state.
Proof. solve_decision. Defined.

(** [s_refs] and [s_data] are the references and the contents of the buffer. *)
Record cpu_slot := Slot {
  s_state : cpu_slot_state; s_refs : Z; s_data : cells; s_plan : option prepared_plan; s_read_plan : cpu_read_plan;
  s_batch_id : Z; s_dispatched : Z; s_remaining : Z }.

Record cpu_chunk_input := ChunkInput { ci_chunk : Z; ci_input : Z }.
Record store_read := StoreRead { sr_key : option string; sr_offset : Z; sr_len : Z; sr_dst : Z }.

(** [w_chunks] are the entries below [count], [w_reads] those submitted; [w_event] says
    whether [event] is that of a submission or the null event. *)
Record cpu_wave := Wave {
  w_state : cpu_wave_state; w_reads : list store_read; w_chunks : list cpu_chunk_input; w_input : list Z; w_results : list damacy_status;
  w_slot : Z; w_input_bytes : Z; w_sequence : Z; w_event : bool }.

(** [decode_todo] are the entries of the wave that no worker has finished. *)
Record cpu_executor := Exec {
  x_config : damacy_cpu_config; x_inflight : Z; x_output : Z; x_strides : list Z;
  x_slots : list cpu_slot; x_waves : list cpu_wave; x_decoding : option Z; x_done : bool; decode_todo : list Z;
  x_next_wave : Z; x_committed : Z }.

Definition set_slots (x : cpu_executor) (slots : list cpu_slot) : cpu_executor :=
  Exec (x_config x) (x_inflight x) (x_output x) (x_strides x) slots (x_waves x) (x_decoding x) (x_done x) (decode_todo x) (x_next_wave x) (x_committed x).
Definition set_waves (x : cpu_executor) (waves : list cpu_wave) : cpu_executor :=
  Exec (x_config x) (x_inflight x) (x_output x) (x_strides x) (x_slots x) waves (x_decoding x) (x_done x) (decode_todo x) (x_next_wave x) (x_committed x).
Definition set_decode (x : cpu_executor) (decoding : option Z) (finished : bool) (todo : list Z) : cpu_executor :=
  Exec (x_config x) (x_inflight x) (x_output x) (x_strides x) (x_slots x) (x_waves x) decoding finished todo (x_next_wave x) (x_committed x).
Definition set_committed (x : cpu_executor) (n : Z) : cpu_executor :=
  Exec (x_config x) (x_inflight x) (x_output x) (x_strides x) (x_slots x) (x_waves x) (x_decoding x) (x_done x) (decode_todo x) (x_next_wave x) n.
Definition set_next_wave (x : cpu_executor) (n : Z) : cpu_executor :=
  Exec (x_config x) (x_inflight x) (x_output x) (x_strides x) (x_slots x) (x_waves x) (x_decoding x) (x_done x) (decode_todo x) n (x_committed x).

Definition slot_state (s : cpu_slot) (st : cpu_slot_state) : cpu_slot :=
  Slot st (s_refs s) (s_data s) (s_plan s) (s_read_plan s) (s_batch_id s) (s_dispatched s) (s_remaining s).
Definition slot_refs (s : cpu_slot) (n : Z) : cpu_slot :=
  Slot (s_state s) n (s_data s) (s_plan s) (s_read_plan s) (s_batch_id s) (s_dispatched s) (s_remaining s).
Definition slot_data (s : cpu_slot) (data : cells) : cpu_slot :=
  Slot (s_state s) (s_refs s) data (s_plan s) (s_read_plan s) (s_batch_id s) (s_dispatched s) (s_remaining s).
Definition slot_dispatched (s : cpu_slot) (n : Z) : cpu_slot :=
  Slot (s_state s) (s_refs s) (s_data s) (s_plan s) (s_read_plan s) (s_batch_id s) n (s_remaining s).
Definition slot_remaining (s : cpu_slot) (n : Z) : cpu_slot :=
  Slot (s_state s) (s_refs s) (s_data s) (s_plan s) (s_read_plan s) (s_batch_id s) (s_dispatched s) n.
Definition buffer_retain (s : cpu_slot) : cpu_slot := slot_refs s (u32 (s_refs s + 1)).
(** The executor keeps its reference until it stops, so the buffer stays. *)
Definition buffer_release (s : cpu_slot) : cpu_slot := slot_refs s (u32 (s_refs s - 1)).
Definition buffer_available (s : cpu_slot) : bool := s_refs s =? 1.
(** [cpu_read_plan_destroy], [prepared_plan_destroy] and [state = CPU_READY]. *)
Definition slot_finish (s : cpu_slot) : cpu_slot :=
  Slot CPU_READY (s_refs s) (s_data s) None read_plan_zero (s_batch_id s) (s_dispatched s) (s_remaining s).
Definition wave_state (w : cpu_wave) (st : cpu_wave_state) : cpu_wave :=
  Wave st (w_reads w) (w_chunks w) (w_input w) (w_results w) (w_slot w) (w_input_bytes w) (w_sequence w) (w_event w).
Definition wave_results (w : cpu_wave) (results : list damacy_status) : cpu_wave :=
  Wave (w_state w) (w_reads w) (w_chunks w) (w_input w) results (w_slot w) (w_input_bytes w) (w_sequence w) (w_event w).
(** A poll that is ready: the event is cleared, then the status is looked at. *)
Definition wave_polled (w : cpu_wave) (st : cpu_wave_state) (input : list Z) : cpu_wave :=
  Wave st (w_reads w) (w_chunks w) input (w_results w) (w_slot w) (w_input_bytes w) (w_sequence w) false.

(** ** Create, start, stop *)

Definition slot_zero : cpu_slot := Slot CPU_FREE 0 [] None read_plan_zero 0 0 0.
Definition wave_zero : cpu_wave := Wave CPU_INPUT_FREE [] [] [] [] 0 0 0 false.
Definition slots_zero : list cpu_slot := [slot_zero; slot_zero].
Definition waves_zero : list cpu_wave := [wave_zero; wave_zero].

(** [reader] is its [max_inflight_reads]; [malloc] whether there is memory. *)
Definition damacy_cpu_executor_create (malloc : bool) (reader : option Z) (config : option damacy_cpu_config) : damacy_status + cpu_executor :=
  match reader, config with
  | Some inflight, Some config =>
      if (decode_workers config =? 0) || (DAMACY_MAX_IO_THREADS <? decode_workers config) || (max_encoded_chunk_bytes config =? 0) ||
         (max_decoded_chunk_bytes config =? 0) || (max_memory_bytes config =? 0) then inl DAMACY_INVAL
      else if (chunks_per_input_buffer config <? decode_workers config) || (DAMACY_MAX_CHUNKS_PER_BATCH <? chunks_per_input_buffer config) then inl DAMACY_INVAL
      else if negb malloc then inl DAMACY_OOM
      else inr (Exec config inflight 0 (replicate (Z.to_nat (DAMACY_MAX_RANK + 1)) 0) slots_zero waves_zero None false [] 0 0)
  | _, _ => inl DAMACY_INVAL
  end.

(** The executor gives its reference to a buffer back. [None]: the slot has no buffer, or
    the buffer is destroyed; else the references left and the contents. *)
Definition buffer_drop (s : cpu_slot) : option (Z * cells) := if (s_refs s =? 0) || (s_refs s =? 1) then None else Some (u32 (s_refs s - 1), s_data s).
(** What [cpu_stop] leaves of the buffers, and of the executor. *)
Definition stop_buffers (x : cpu_executor) : list (option (Z * cells)) := map buffer_drop (x_slots x).
Definition cpu_stop (x : cpu_executor) : cpu_executor := Exec (x_config x) (x_inflight x) (x_output x) (x_strides x) slots_zero waves_zero None false [] 0 0.

(** What depends on the platform and on zstd. *)
Record cpu_sizes := CpuSizes { sizeof_cpu_executor : Z; sizeof_damacy_buffer : Z; ZSTD_estimateDCtxSize : Z }.
Definition sizeof_cpu_worker : Z := 24.
Definition sizeof_store_read : Z := 32.
Definition sizeof_cpu_chunk_input : Z := 16.

(** The bytes needed besides the output buffers. *)
Definition start_need (sizes : cpu_sizes) (config : damacy_cpu_config) : Z :=
  let workspace := ZSTD_estimateDCtxSize sizes in
  let codec_reserve := u64 (workspace + 3 * max_decoded_chunk_bytes config + Z.shiftl 256 10) in
  let per_worker := u64 (max_decoded_chunk_bytes config + codec_reserve + sizeof_cpu_worker) in
  let per_read_chunk := u64 (2 * max_encoded_chunk_bytes config + 2 * (sizeof_store_read + sizeof_cpu_chunk_input + 4 + 2 * 4 + 8)) in
  let fixed := u64 (sizeof_cpu_executor sizes + 2 * sizeof_damacy_buffer sizes) in
  let input := u64 (per_read_chunk * chunks_per_input_buffer config) in
  let decode := u64 (per_worker * decode_workers config) in
  u64 (fixed + input + decode).

(** [resources] says whether all memory, the pool and the thread can be had; [junk] are
    the bytes of fresh memory. *)
Definition cpu_start (resources : bool) (junk : Z -> Z) (sizes : cpu_sizes) (x : cpu_executor) (output : damacy_batch_spec) : option (damacy_status * cpu_executor) :=
  r ← batch_spec_layout (Some output) (replicate (Z.to_nat (DAMACY_MAX_RANK + 1)) 0) (x_strides x);
  let '(status, shape, strides, bytes) := (r : damacy_status * list Z * list Z * option Z) in
  let config := x_config x in
  let x := Exec config (x_inflight x) (dtype output) strides (x_slots x) (x_waves x) (x_decoding x) (x_done x) (decode_todo x) (x_next_wave x) (x_committed x) in
  if negb (bool_decide (status = DAMACY_OK)) then Some (status, x)
  else
    bytes ← bytes;
    let chunks := chunks_per_input_buffer config in
    let budget := max_memory_bytes config in
    let need := start_need sizes config in
    if (SIZE_MAX / max_encoded_chunk_bytes config <? chunks) || (budget <? need) || (u64 (budget - need) / 2 <? bytes) then Some (DAMACY_BUDGET, x)
    else if negb resources then Some (DAMACY_OOM, cpu_stop x)
    else
      let slot := Slot CPU_FREE 1 (replicate (Z.to_nat (bytes / damacy_dtype_bpe (dtype output))) None) None read_plan_zero 0 0 0 in
      let wave := Wave CPU_INPUT_FREE [] [] (junk <$> seqZ 0 (chunks * max_encoded_chunk_bytes config)) (replicate (Z.to_nat chunks) DAMACY_OK) 0 0 0 false in
      Some (DAMACY_OK, Exec config (x_inflight x) (dtype output) strides [slot; slot] [wave; wave] (x_decoding x) (x_done x) (decode_todo x) (x_next_wave x) (u64 (need + 2 * bytes))).

(** ** Choice of a slot *)

(** The loop over the slots: one that satisfies [p] with the smallest id. *)
Fixpoint oldest (p : cpu_slot -> bool) (l : list cpu_slot) (i : Z) (best : option (Z * cpu_slot)) : option (Z * cpu_slot) :=
  match l with
  | [] => best
  | s :: l => oldest p l (i + 1) (if p s && match best with None => true | Some (_, b) => s_batch_id s <? s_batch_id b end then Some (i, s) else best)
  end.

Fixpoint first_free (l : list cpu_slot) (i : Z) : option Z :=
  match l with [] => None | s :: l => if decide (s_state s = CPU_FREE) then Some i else first_free l (i + 1) end.

Section executor.
Context (convert : Z -> zdtype -> element -> element) (lib : decoders).

(** ** Submit *)

Definition codec_known (codec : compression_codec) : bool := match codec with CODEC_FILL => false | _ => true end.

Fixpoint submit_check (config : damacy_cpu_config) (plan : prepared_plan) (cks : list plan_chunk) : option damacy_status :=
  match cks with
  | [] => Some DAMACY_OK
  | ck :: cks =>
      if (max_encoded_chunk_bytes config <? encoded_bytes ck) || (max_decoded_chunk_bytes config <? decoded_bytes ck) then Some DAMACY_BUDGET
      else
        arr ← aget (arrays plan) (array ck);
        if negb (missing ck) && negb (codec_known (inner_codec (metadata arr))) then Some DAMACY_DECODE
        else submit_check config plan cks
  end.

Definition cpu_submit (malloc : Z -> bool) (x : cpu_executor) (plan : option prepared_plan) (batch_id : Z) : option (damacy_status * cpu_executor) :=
  match first_free (x_slots x) 0 with
  | None => Some (DAMACY_AGAIN, x)
  | Some i =>
      match plan with
      | None => Some (DAMACY_INVAL, x)
      | Some plan =>
          if zlen (chunks plan) =? 0 then Some (DAMACY_INVAL, x)
          else
            status ← submit_check (x_config x) plan (chunks plan);
            if negb (bool_decide (status = DAMACY_OK)) then Some (status, x)
            else
              s ← aget (x_slots x) i;
              s0 ← aget (x_slots x) 0;
              s1 ← aget (x_slots x) 1;
              r ← cpu_read_plan_build malloc plan (x_config x) (u64 (max_memory_bytes (x_config x) - x_committed x))
                    (u64 (rp_bytes (s_read_plan s0) + rp_bytes (s_read_plan s1)));
              match r with
              | inl status => Some (status, x)
              | inr rp =>
                  slots ← aset (x_slots x) i (Slot CPU_RENDERING (s_refs s) (s_data s) (Some plan) rp batch_id 0 (zlen (chunks plan)));
                  Some (DAMACY_OK, set_committed (set_slots x slots) (u64 (x_committed x + rp_bytes rp)))
              end
      end
  end.

(** ** Dispatch *)

(** The number of chunks from [c] on. *)
Fixpoint chain_length (fuel : nat) (links : list cpu_chunk_read) (c n : Z) : option Z :=
  if c =? UINT32_MAX then Some n
  else match fuel with O => None | S fuel => cr ← aget links c; chain_length fuel links (cr_next cr) (u32 (n + 1)) end.
(** [wave->chunks[count++] = ...]; the array has room for [cap]. *)
Fixpoint chain_inputs (fuel : nat) (links : list cpu_chunk_read) (cap base c : Z) (acc : list cpu_chunk_input) : option (list cpu_chunk_input) :=
  if c =? UINT32_MAX then Some acc
  else match fuel with
       | O => None
       | S fuel => cr ← aget links c; acc ← push cap acc (ChunkInput c (base + cr_offset cr)); chain_inputs fuel links cap base (cr_next cr) acc
       end.

(** The reads from [next_read] on that fit into the wave. *)
Fixpoint dispatch_loop (fuel : nat) (config : damacy_cpu_config) (inflight : Z) (rp : cpu_read_plan) (next_read : Z)
    (cis : list cpu_chunk_input) (reads : list store_read) (bytes : Z) : option (Z * list cpu_chunk_input * list store_read * Z) :=
  let cap := chunks_per_input_buffer config in
  let capacity := u64 (cap * max_encoded_chunk_bytes config) in
  if next_read <? rp_count rp then
    match fuel with
    | O => None
    | S fuel =>
        read ← aget (rp_reads rp) next_read;
        c ← aget (first_chunks rp) next_read;
        n ← chain_length (length (rp_chunks rp)) (rp_chunks rp) c 0;
        if (u32 (cap - zlen cis) <? n) || (u64 (capacity - bytes) <? nbytes read) || (negb (nbytes read =? 0) && (zlen reads =? inflight))
        then Some (next_read, cis, reads, bytes)
        else
          cis ← chain_inputs (length (rp_chunks rp)) (rp_chunks rp) cap bytes c cis;
          reads ← (if negb (nbytes read =? 0) then push cap reads (StoreRead (shard_path read) (file_offset read) (nbytes read) bytes) else Some reads);
          dispatch_loop fuel config inflight rp (next_read + 1) cis reads (u64 (bytes + nbytes read))
    end
  else Some (next_read, cis, reads, bytes).

Definition dispatchable (s : cpu_slot) : bool := bool_decide (s_state s = CPU_RENDERING) && (s_dispatched s <? rp_count (s_read_plan s)).

(** [submit] is what [store_read_submit] answers. The flag is [*changed]. *)
Definition cpu_dispatch (submit : list store_read -> damacy_status) (x : cpu_executor) (wi : Z) : option (damacy_status * cpu_executor * bool) :=
  match oldest dispatchable (x_slots x) 0 None with
  | None => Some (DAMACY_OK, x, false)
  | Some (i, s) =>
      w ← aget (x_waves x) wi;
      let rp := s_read_plan s in
      r ← dispatch_loop (Z.to_nat (rp_count rp)) (x_config x) (x_inflight x) rp (s_dispatched s) [] [] 0;
      let '(next_read, cis, reads, bytes) := (r : Z * list cpu_chunk_input * list store_read * Z) in
      let status := submit reads in
      if negb (bool_decide (status = DAMACY_OK)) then Some (status, x, false)
      else
        waves ← aset (x_waves x) wi (Wave CPU_READING reads cis (w_input w) (w_results w) i bytes (x_next_wave x) true);
        slots ← aset (x_slots x) i (slot_dispatched s next_read);
        Some (DAMACY_OK, set_next_wave (set_slots (set_waves x waves) slots) (u64 (x_next_wave x + 1)), true)
  end.

(** ** Collect *)

Fixpoint first_failure (n : nat) (results : list damacy_status) (j : Z) : option (option damacy_status) :=
  match n with
  | O => Some None
  | S n => st ← aget results j; if bool_decide (st = DAMACY_OK) then first_failure n results (j + 1) else Some (Some st)
  end.

Definition cpu_collect (x : cpu_executor) : option (damacy_status * cpu_executor * bool) :=
  match x_decoding x with
  | None => Some (DAMACY_OK, x, false)
  | Some wi =>
      if negb (x_done x) then Some (DAMACY_OK, x, false)
      else
        w ← aget (x_waves x) wi;
        s ← aget (x_slots x) (w_slot w);
        f ← first_failure (length (w_chunks w)) (w_results w) 0;
        match (f : option damacy_status) with
        | Some st => Some (st, x, false)
        | None =>
            let s := slot_remaining s (u32 (s_remaining s - zlen (w_chunks w))) in
            waves ← aset (x_waves x) wi (wave_state w CPU_INPUT_FREE);
            let x := set_decode (set_waves x waves) None (x_done x) (decode_todo x) in
            if s_remaining s =? 0 then
              slots ← aset (x_slots x) (w_slot w) (slot_finish s);
              Some (DAMACY_OK, set_slots (set_committed x (u64 (x_committed x - rp_bytes (s_read_plan s)))) slots, true)
            else
              slots ← aset (x_slots x) (w_slot w) s;
              Some (DAMACY_OK, set_slots x slots, true)
        end
  end.

(** ** Step *)

Definition free_held (s : cpu_slot) : cpu_slot := if bool_decide (s_state s = CPU_HELD) && buffer_available s then slot_state s CPU_FREE else s.

(** A wave whose input is free takes reads; only a failure other than [DAMACY_AGAIN] ends the loop. *)
Fixpoint dispatch_waves (n : nat) (submit : Z -> list store_read -> damacy_status) (x : cpu_executor) (wi : Z) (changed : bool)
    : option (damacy_status * cpu_executor * bool) :=
  match n with
  | O => Some (DAMACY_OK, x, changed)
  | S n =>
      w ← aget (x_waves x) wi;
      if bool_decide (w_state w = CPU_INPUT_FREE) then
        r ← cpu_dispatch (submit wi) x wi;
        let '(status, x, c) := (r : damacy_status * cpu_executor * bool) in
        if negb (bool_decide (status = DAMACY_OK)) && negb (bool_decide (status = DAMACY_AGAIN)) then Some (status, x, changed || c)
        else dispatch_waves n submit x (wi + 1) (changed || c)
      else dispatch_waves n submit x (wi + 1) changed
  end.

(** The bytes a read delivers. [file] is the storage. *)
Context (file : option string -> Z -> Z).
Definition file_bytes (key : option string) (at_ n : Z) : list Z := (fun i => file key (at_ + i)) <$> seqZ 0 n.

(** The reads of a wave arrive in its input. *)
Fixpoint store_fill (input : list Z) (reads : list store_read) : option (list Z) :=
  match reads with
  | [] => Some input
  | r :: reads =>
      if sr_dst r + sr_len r <=? zlen input then
        store_fill (take (Z.to_nat (sr_dst r)) input ++ file_bytes (sr_key r) (sr_offset r) (sr_len r) ++ drop (Z.to_nat (sr_dst r + sr_len r)) input) reads
      else None
  end.

(** [poll wi] is what [store_event_query] answers: [None] when the reads are not done,
    else the status, with the bytes that reads of a submission that failed leave behind.
    A query of the null event delivers nothing. *)
Fixpoint poll_waves (n : nat) (poll : Z -> option (damacy_status * (Z -> Z))) (x : cpu_executor) (wi : Z) (changed : bool)
    : option (damacy_status * cpu_executor * bool) :=
  match n with
  | O => Some (DAMACY_OK, x, changed)
  | S n =>
      w ← aget (x_waves x) wi;
      if bool_decide (w_state w = CPU_READING) then
        match poll wi with
        | None => poll_waves n poll x (wi + 1) changed
        | Some (status, leftover) =>
            let ok := bool_decide (status = DAMACY_OK) in
            input ← (if negb (w_event w) then Some (w_input w)
                     else if ok then store_fill (w_input w) (w_reads w)
                     else Some (leftover <$> seqZ 0 (zlen (w_input w))));
            waves ← aset (x_waves x) wi (wave_polled w (if ok then CPU_READ_READY else CPU_READING) input);
            if ok then poll_waves n poll (set_waves x waves) (wi + 1) true
            else Some (status, set_waves x waves, changed)
        end
      else poll_waves n poll x (wi + 1) changed
  end.

Fixpoint next_ready (l : list cpu_wave) (wi : Z) (best : option (Z * cpu_wave)) : option (Z * cpu_wave) :=
  match l with
  | [] => best
  | w :: l => next_ready l (wi + 1) (if bool_decide (w_state w = CPU_READ_READY) && match best with None => true | Some (_, b) => w_sequence w <? w_sequence b end then Some (wi, w) else best)
  end.

(** The wave is handed to the decode thread. *)
Definition start_decode (x : cpu_executor) (changed : bool) : option (damacy_status * cpu_executor * bool) :=
  match x_decoding x with
  | Some _ => Some (DAMACY_OK, x, changed)
  | None =>
      match next_ready (x_waves x) 0 None with
      | None => Some (DAMACY_OK, x, changed)
      | Some (wi, w) =>
          waves ← aset (x_waves x) wi (wave_state w CPU_DECODING);
          Some (DAMACY_OK, set_decode (set_waves x waves) (Some wi) false (seqZ 0 (zlen (w_chunks w))), true)
      end
  end.

Definition cpu_step (submit : Z -> list store_read -> damacy_status) (poll : Z -> option (damacy_status * (Z -> Z))) (x : cpu_executor)
    : option (damacy_status * cpu_executor * bool) :=
  r ← cpu_collect x;
  let '(status, x, c0) := (r : damacy_status * cpu_executor * bool) in
  if negb (bool_decide (status = DAMACY_OK)) then Some (status, x, c0)
  else
    let c1 := c0 || existsb (fun s => bool_decide (s_state s = CPU_HELD) && buffer_available s) (x_slots x) in
    let x := set_slots x (map free_held (x_slots x)) in
    r ← dispatch_waves 2 submit x 0 c1;
    let '(status, x, c2) := (r : damacy_status * cpu_executor * bool) in
    if negb (bool_decide (status = DAMACY_OK)) then Some (status, x, c2)
    else
      r ← poll_waves 2 poll x 0 c2;
      let '(status, x, c3) := (r : damacy_status * cpu_executor * bool) in
      if negb (bool_decide (status = DAMACY_OK)) then Some (status, x, c3)
      else start_decode x c3.

(** ** The decode thread *)

(** A worker takes entry [j] of the wave ([decode_one]). *)
Definition decode_entry (x : cpu_executor) (j : Z) : option cpu_executor :=
  wi ← x_decoding x;
  w ← aget (x_waves x) wi;
  s ← aget (x_slots x) (w_slot w);
  plan ← s_plan s;
  ci ← aget (w_chunks w) j;
  ck ← aget (chunks plan) (ci_chunk ci);
  let n := encoded_bytes ck in
  if negb (missing ck) && negb (ci_input ci + n <=? zlen (w_input w)) then None
  else
    r ← decode_one convert lib (x_output x) (x_strides x) plan ck (take (Z.to_nat n) (drop (Z.to_nat (ci_input ci)) (w_input w))) (s_data s);
    results ← aset (w_results w) j (fst (fst r));
    waves ← aset (x_waves x) wi (wave_results w results);
    slots ← aset (x_slots x) (w_slot w) (slot_data s (snd r));
    Some (set_decode (set_slots (set_waves x waves) slots) (Some wi) (x_done x) (filter (fun k => k <> j) (decode_todo x))).

(** All entries done: [decode_main] sets [decode_done]. *)
Definition decode_finish (x : cpu_executor) : cpu_executor := set_decode x (x_decoding x) true (decode_todo x).

(** ** Batches *)

Record damacy_batch := Batch { b_refs : Z; b_slot : Z; b_id : Z }.

Definition renders (s : cpu_slot) : bool := bool_decide (s_state s = CPU_RENDERING) || bool_decide (s_state s = CPU_READY).

(** [malloc] says whether [batch_create] gets its memory. *)
Definition cpu_take (malloc : bool) (x : cpu_executor) : option (damacy_status * cpu_executor * option damacy_batch) :=
  match oldest renders (x_slots x) 0 None with
  | None => Some (DAMACY_AGAIN, x, None)
  | Some (i, s) =>
      if negb (bool_decide (s_state s = CPU_READY)) then Some (DAMACY_AGAIN, x, None)
      else if negb malloc then Some (DAMACY_OOM, x, None)
      else
        slots ← aset (x_slots x) i (slot_state (buffer_retain s) CPU_HELD);
        Some (DAMACY_OK, set_slots x slots, Some (Batch 1 i (s_batch_id s)))
  end.

Definition cpu_busy (x : cpu_executor) : bool := existsb (fun s => negb (bool_decide (s_state s = CPU_FREE))) (x_slots x).

Definition damacy_batch_retain (b : damacy_batch) : damacy_batch := Batch (u32 (b_refs b + 1)) (b_slot b) (b_id b).

(** The batch is gone when its last reference is. *)
Definition damacy_batch_release (x : cpu_executor) (b : damacy_batch) : option (cpu_executor * option damacy_batch) :=
  if b_refs b =? 1 then
    s ← aget (x_slots x) (b_slot b);
    slots ← aset (x_slots x) (b_slot b) (buffer_release s);
    Some (set_slots x slots, None)
  else Some (x, Some (Batch (u32 (b_refs b - 1)) (b_slot b) (b_id b))).
End executor.
