(* ===== verification/CpuDispatch.v ===== *)
(** * The reads of a wave

    The loop of [cpu_dispatch] ([src/src/executor/cpu_executor.c]): the reads it packs
    into the input of a wave fit, and once they have arrived every chunk of the wave
    finds its bytes. *)

From stdpp Require Import strings.
From S2P Require Import Prelude Selection Plan PlanBuilder ReadOpSort DispatchTypes Coalesce CoalesceProof Dispatch CpuAssemble CpuRead CpuExecutor.

#[local] Open Scope Z_scope.

(** ** Lists of chunks *)

Lemma linked_range links c l : linked links c l -> Forall (fun i => 0 <= i < zlen links) l.
Proof. revert c. induction l as [|i l IH]; intros c; [constructor|]. cbn. intros (_ & cr & Hi & Hl). constructor; [by eapply aget_Some_range|by eapply IH]. Qed.

Lemma distinct_length (l : list Z) n : NoDup l -> Forall (fun i => 0 <= i < n) l -> zlen l <= Z.max 0 n.
Proof.
  intros Hnd Hr. assert (Hsub : l ⊆+ seqZ 0 n) by (apply NoDup_submseteq; [done|]; intros i Hi; rewrite Forall_forall in Hr; apply elem_of_seqZ; specialize (Hr i Hi); lia).
  apply submseteq_length in Hsub. rewrite length_seqZ in Hsub. lia.
Qed.

Lemma chain_length_spec fuel links c l n : linked links c l -> zlen links < UINT32_MAX -> (length l <= fuel)%nat -> 0 <= n -> n + zlen l < 2 ^ 32 ->
  chain_length fuel links c n = Some (n + zlen l).
Proof.
  revert fuel c n. induction l as [|i l IH]; intros fuel c n Hl Hlen Hf Hn Hs; cbn [linked] in Hl.
  - subst c. destruct fuel; cbn [chain_length]; rewrite Z.eqb_refl; f_equal; cbn; lia.
  - destruct Hl as (-> & cr & Hi & Hl). pose proof (aget_Some_range _ _ _ Hi). destruct fuel as [|fuel]; [cbn in Hf; lia|]. cbn [chain_length]. rewrite (proj2 (Z.eqb_neq _ _)) by lia.
    rewrite Hi. cbn [mbind option_bind]. cbn [length] in *. rewrite u32_id by clia. rewrite IH by (done || lia). f_equal. lia.
Qed.

(** The inputs made for the chunks [l] of a read at [base]. *)
Definition inputs_for (links : list cpu_chunk_read) (base : Z) (cis : list cpu_chunk_input) : Prop :=
  Forall (fun ci => exists cr, aget links (ci_chunk ci) = Some cr /\ ci_input ci = base + cr_offset cr) cis.

Lemma chain_inputs_spec fuel links cap base c l acc : linked links c l -> zlen links < UINT32_MAX -> (length l <= fuel)%nat -> zlen acc + zlen l <= cap ->
  exists cis, chain_inputs fuel links cap base c acc = Some (acc ++ cis) /\ ci_chunk <$> cis = l /\ inputs_for links base cis.
Proof.
  revert fuel c acc. induction l as [|i l IH]; intros fuel c acc Hl Hlen Hf Hs; cbn [linked] in Hl.
  - subst c. exists []. rewrite app_nil_r. split; [|split; [done|constructor]]. destruct fuel; cbn [chain_inputs]; by rewrite Z.eqb_refl.
  - destruct Hl as (-> & cr & Hi & Hl). pose proof (aget_Some_range _ _ _ Hi). destruct fuel as [|fuel]; [cbn in Hf; lia|]. cbn [chain_inputs]. rewrite (proj2 (Z.eqb_neq _ _)) by lia.
    rewrite Hi. cbn [mbind option_bind length] in *. unfold push. rewrite (proj2 (Z.ltb_lt _ _)) by lia. cbn [mbind option_bind].
    destruct (IH fuel (cr_next cr) (acc ++ [ChunkInput i (base + cr_offset cr)]) Hl Hlen ltac:(lia)) as (cis & -> & Hc & Hin); [rewrite length_app; cbn; lia|].
    exists (ChunkInput i (base + cr_offset cr) :: cis). split; [by rewrite <-(assoc_L (++))|]. split; [by csimpl; f_equal|]. constructor; [|done]. by exists cr.
Qed.

(** ** Bytes *)

Section fill.
Context (file : option string -> Z -> Z).

Lemma file_bytes_length key at_ n : 0 <= n -> zlen (file_bytes file key at_ n) = n.
Proof. intros Hn. unfold file_bytes. rewrite length_fmap, length_seqZ. lia. Qed.

(** A part of what a read delivers. *)
Lemma file_bytes_part key at_ n o k : 0 <= o -> 0 <= k -> o + k <= n ->
  take (Z.to_nat k) (drop (Z.to_nat o) (file_bytes file key at_ n)) = file_bytes file key (at_ + o) k.
Proof.
  intros Ho Hk Hn. unfold file_bytes. rewrite <-fmap_drop, <-fmap_take. replace n with (o + (k + (n - o - k))) by lia. rewrite seqZ_app, drop_app_length' by (rewrite ?length_seqZ; lia).
  rewrite seqZ_app, take_app_length' by (rewrite ?length_seqZ; lia). apply list_eq. intros i. rewrite !list_lookup_fmap. destruct (decide (Z.of_nat i < k)).
  - rewrite !(lookup_seqZ_lt _ _ _) by lia. cbn. do 2 f_equal. lia.
  - rewrite !lookup_seqZ_ge by lia. done.
Qed.

(** The input after a read [n] bytes long at [dst]. *)
Definition fill_at (input : list Z) (dst : Z) (bytes : list Z) : list Z := take (Z.to_nat dst) input ++ bytes ++ drop (Z.to_nat (dst + zlen bytes)) input.

Lemma fill_at_length input dst bytes : 0 <= dst -> dst + zlen bytes <= zlen input -> length (fill_at input dst bytes) = length input.
Proof. intros Hd Hl. unfold fill_at. rewrite !length_app, length_take, length_drop. lia. Qed.
Lemma fill_at_before input dst bytes o k : 0 <= o -> 0 <= k -> o + k <= dst -> dst <= zlen input ->
  take (Z.to_nat k) (drop (Z.to_nat o) (fill_at input dst bytes)) = take (Z.to_nat k) (drop (Z.to_nat o) input).
Proof.
  intros Ho Hk Hs Hd. unfold fill_at. rewrite drop_app_le by (rewrite length_take; lia). rewrite take_app_le by (rewrite length_drop, length_take; lia).
  rewrite skipn_firstn_comm, take_take. f_equal. lia.
Qed.
Lemma fill_at_inside input dst bytes o k : 0 <= dst <= zlen input -> 0 <= o -> 0 <= k -> o + k <= zlen bytes ->
  take (Z.to_nat k) (drop (Z.to_nat (dst + o)) (fill_at input dst bytes)) = take (Z.to_nat k) (drop (Z.to_nat o) bytes).
Proof.
  intros Hd Ho Hk Hs. unfold fill_at. rewrite drop_app_ge by (rewrite length_take; lia). rewrite length_take. replace (Z.to_nat (dst + o) - Z.to_nat dst `min` length input)%nat with (Z.to_nat o) by lia.
  rewrite drop_app_le by lia. rewrite take_app_le by (rewrite length_drop; lia). done.
Qed.

Lemma store_fill_snoc input reads data r : store_fill file input reads = Some data -> 0 <= sr_len r -> sr_dst r + sr_len r <= zlen data ->
  store_fill file input (reads ++ [r]) = Some (fill_at data (sr_dst r) (file_bytes file (sr_key r) (sr_offset r) (sr_len r))).
Proof.
  intros H0 Hn Hr. revert input H0. induction reads as [|y reads IH]; intros input; cbn [store_fill app].
  - intros [= ->]. rewrite (proj2 (Z.leb_le _ _)) by done. unfold fill_at. by rewrite file_bytes_length.
  - destruct (_ <=? _); [|done]. apply IH.
Qed.

Definition chunk_input (plan : prepared_plan) (x : Z) : list Z :=
  match aget (chunks plan) x with Some ck => file_bytes file (path ck) (offset ck) (encoded_bytes ck) | None => [] end.

(** The bytes below [n] of a wave hold its chunks. *)
Definition inputs_below (plan : prepared_plan) (data : list Z) (n : Z) (cis : list cpu_chunk_input) : Prop :=
  Forall (fun ci => exists ck, aget (chunks plan) (ci_chunk ci) = Some ck /\
    (missing ck = false -> 0 <= ci_input ci /\ ci_input ci + encoded_bytes ck <= n /\
       take (Z.to_nat (encoded_bytes ck)) (drop (Z.to_nat (ci_input ci)) data) = chunk_input plan (ci_chunk ci))) cis.
Definition inputs_at (plan : prepared_plan) (data : list Z) (cis : list cpu_chunk_input) : Prop := inputs_below plan data (zlen data) cis.

(** ** The loop *)

Section loop.
Context (config : damacy_cpu_config) (inflight : Z) (plan : prepared_plan) (rp : cpu_read_plan) (Ls : list (list Z)) (input : list Z) (d0 : Z).

Notation cap := (chunks_per_input_buffer config).
Notation capacity := (chunks_per_input_buffer config * max_encoded_chunk_bytes config).

Hypothesis Hconfig : 0 < decode_workers config <= cap /\ cap < 2 ^ 31 /\ 0 < max_encoded_chunk_bytes config < 2 ^ 32.
Hypothesis Hinflight : 0 < inflight.
Hypothesis Hinput : zlen input = capacity.
Hypothesis Hcount : zlen Ls = rp_count rp.
Hypothesis Hreads : forall y l, aget Ls y = Some l -> read_of plan config rp y l.
Hypothesis Hlinks : zlen (rp_chunks rp) <= 2 ^ 31.
Hypothesis Henc : Forall (fun ck => 0 <= encoded_bytes ck) (chunks plan).

(** The wave with the reads from [d0] up to [next]. *)
Record packed (next_read : Z) (cis : list cpu_chunk_input) (reads : list store_read) (bytes : Z) : Prop := {
  pk_next : 0 <= d0 /\ d0 <= next_read <= zlen Ls;
  pk_chunks : ci_chunk <$> cis = concat (drop (Z.to_nat d0) (take (Z.to_nat next_read) Ls));
  pk_room : zlen cis <= cap /\ zlen reads <= zlen cis /\ zlen reads <= inflight /\ 0 <= bytes <= capacity;
  pk_data : exists data, store_fill file input reads = Some data /\ length data = length input /\ inputs_below plan data bytes cis }.

Lemma packed_read next_read cis reads bytes l t cis' : packed next_read cis reads bytes -> aget Ls next_read = Some l -> aget (rp_reads rp) next_read = Some t ->
  zlen cis + zlen l <= cap -> bytes + nbytes t <= capacity -> (nbytes t <> 0 -> zlen reads < inflight) -> ci_chunk <$> cis' = l -> inputs_for (rp_chunks rp) bytes cis' ->
  packed (next_read + 1) (cis ++ cis') (reads ++ if nbytes t =? 0 then [] else [StoreRead (shard_path t) (file_offset t) (nbytes t) bytes]) (bytes + nbytes t).
Proof.
  intros [P1 P2 P3 (data & D1 & D2 & D3)] Hl Ht Hroom Hbytes Hfl Hcis Hfor. destruct (Hreads _ _ Hl) as [_ (Hne & Hnd & Hrange) (t' & Ht' & Hnb & Hholds & _)].
  rewrite Ht in Ht'. injection Ht' as <-. pose proof (aget_Some_range _ _ _ Hl) as Hnr. assert (Hlen : zlen cis' = zlen l) by (rewrite <-Hcis; by rewrite length_fmap).
  assert (Hl1 : 0 < zlen l) by (destruct l; [done|cbn; lia]). split.
  - lia.
  - rewrite fmap_app, P2, Hcis. rewrite (take_succ_aget _ _ _ Hl). rewrite drop_app_le by (rewrite length_take; lia). rewrite concat_app. cbn. by rewrite app_nil_r.
  - rewrite !length_app. destruct (Z.eqb_spec (nbytes t) 0); cbn [length]; lia.
  - assert (Hnew : forall ci, ci ∈ cis' -> exists ck cr, aget (chunks plan) (ci_chunk ci) = Some ck /\ ci_input ci = bytes + cr_offset cr /\ holds_chunk t (cr_offset cr) ck).
    { intros ci Hci. assert (Hin : ci_chunk ci ∈ l) by (rewrite <-Hcis; by apply list_elem_of_fmap_2). rewrite Forall_forall in Hrange. destruct (aget_is_Some (chunks plan) (ci_chunk ci) (Hrange _ Hin)) as [ck Hck].
      destruct (Hholds _ _ Hin Hck) as (cr & Hcr & Hh). unfold inputs_for in Hfor. rewrite Forall_forall in Hfor. destruct (Hfor ci Hci) as (cr' & Hcr' & Hat). rewrite Hcr in Hcr'. injection Hcr' as <-. by exists ck, cr. }
    destruct (Z.eqb_spec (nbytes t) 0) as [Hz|Hz].
    + exists data. rewrite app_nil_r. split; [done|]. split; [done|]. apply Forall_app_2; [by rewrite Hz, Z.add_0_r|]. apply Forall_forall. intros ci Hci. destruct (Hnew ci Hci) as (ck & cr & Hck & Hat & Hh).
      exists ck. split; [done|]. intros Hm. unfold holds_chunk in Hh. rewrite Hm in Hh. destruct Hh as (Hio & _). apply is_io_iff in Hio. lia.
    + set (fb := file_bytes file (shard_path t) (file_offset t) (nbytes t)). assert (Hfb : zlen fb = nbytes t) by (apply file_bytes_length; lia).
      exists (fill_at data bytes fb). split; [by apply (store_fill_snoc input reads data (StoreRead (shard_path t) (file_offset t) (nbytes t) bytes) D1); cbn; lia|].
      split; [rewrite fill_at_length by lia; done|]. apply Forall_app_2.
      * eapply Forall_impl; [exact D3|]. intros ci (ck & Hck & Hin). exists ck. split; [done|]. intros Hm. destruct (Hin Hm) as (I1 & I2 & I3). pose proof (Forall_aget _ _ _ _ Henc Hck) as He. cbn in He.
        split; [done|]. split; [lia|]. by rewrite fill_at_before by lia.
      * apply Forall_forall. intros ci Hci. destruct (Hnew ci Hci) as (ck & cr & Hck & Hat & Hh). exists ck. split; [done|]. intros Hm. pose proof (Forall_aget _ _ _ _ Henc Hck) as He. cbn in He.
        unfold holds_chunk in Hh. rewrite Hm in Hh. destruct Hh as (_ & Hp & Ho & Ho0 & Hon). split; [lia|]. split; [lia|].
        rewrite Hat, fill_at_inside by lia. unfold fb. rewrite file_bytes_part by lia. unfold chunk_input. by rewrite Hck, Hp, Ho.
Qed.

Lemma dispatch_loop_spec fuel next_read cis reads bytes : packed next_read cis reads bytes -> (Z.to_nat (rp_count rp - next_read) <= fuel)%nat ->
  exists next' cis' reads' bytes', dispatch_loop fuel config inflight rp next_read cis reads bytes = Some (next', cis', reads', bytes') /\ packed next' cis' reads' bytes' /\ next_read <= next' /\
    (cis = [] -> reads = [] -> bytes = 0 -> next_read < rp_count rp -> next_read < next').
Proof.
  revert next_read cis reads bytes. induction fuel as [|fuel IH]; intros next_read cis reads bytes P Hf; cbn [dispatch_loop]; cbv zeta; (destruct (Z.ltb_spec next_read (rp_count rp)) as [Hlt|]; [|by eexists _, _, _, _; split; [done|]; split; [done|]; split; lia]).
  { lia. }
  pose proof (pk_next _ _ _ _ P) as Hn. pose proof (pk_room _ _ _ _ P) as (Hr1 & Hr2 & Hr3 & Hr4).
  destruct (aget_is_Some Ls next_read ltac:(lia)) as [l Hl]. pose proof (Hreads _ _ Hl) as [(c & Hc & Hlink) (Hne & Hnd & Hrange) (t & Ht & Hnb & _ & Hcap & Hmax)].
  rewrite Ht. cbn [mbind option_bind]. rewrite Hc. cbn [mbind option_bind]. pose proof (linked_range _ _ _ Hlink) as Hlr. pose proof (distinct_length _ _ Hnd Hlr) as Hll.
  rewrite (chain_length_spec _ _ _ l) by (done || clia). cbn [mbind option_bind]. rewrite (u64_id capacity), (u64_id (capacity - bytes)), (u32_id (cap - zlen cis)) by (unfold is_u64, is_u32; nia). rewrite Z.add_0_l.
  destruct (Z.ltb_spec (cap - zlen cis) (zlen l)) as [Hfull|Hfit]; cbn [orb].
  { eexists _, _, _, _. split; [done|]. split; [done|]. split; [lia|]. intros -> _ _ _. cbn in Hfull. lia. }
  destruct (Z.ltb_spec (capacity - bytes) (nbytes t)) as [Hfull|Hfit']; cbn [orb].
  { eexists _, _, _, _. split; [done|]. split; [done|]. split; [lia|]. intros _ _ -> _. nia. }
  destruct (negb (nbytes t =? 0) && (zlen reads =? inflight)) eqn:Hfl.
  { eexists _, _, _, _. split; [done|]. split; [done|]. split; [lia|]. intros _ -> _ _. apply andb_true_iff in Hfl as [_ Hfl%Z.eqb_eq]. cbn in Hfl. lia. }
  destruct (chain_inputs_spec (length (rp_chunks rp)) (rp_chunks rp) cap bytes c l cis) as (cis' & -> & Hcis & Hfor); [done|clia|lia|lia|]. cbn [mbind option_bind].
  assert (Hnf : nbytes t <> 0 -> zlen reads < inflight). { intros Hz. rewrite (proj2 (Z.eqb_neq _ _) Hz) in Hfl. cbn in Hfl. apply Z.eqb_neq in Hfl. lia. }
  assert (Hl1 : 0 < zlen l) by (destruct l; [done|cbn; lia]).
  pose proof (packed_read _ _ _ _ l t cis' P Hl Ht ltac:(lia) ltac:(lia) Hnf Hcis Hfor) as P'. rewrite (u64_id (bytes + nbytes t)) by (unfold is_u64; nia).
  destruct (IH (next_read + 1) _ _ _ P' ltac:(lia)) as (next' & c' & r' & b' & E & P2 & Hmon & _). exists next', c', r', b'. split; [|split; [done|lia]].
  destruct (Z.eqb_spec (nbytes t) 0); cbn [negb].
  - by rewrite app_nil_r in E.
  - unfold push. rewrite (proj2 (Z.ltb_lt _ _)) by lia. cbn [mbind option_bind]. done.
Qed.
End loop.
End fill.
