(* ===== verification/CpuRun.v ===== *)
(** * The CPU executor at work

    The invariant of [src/src/executor/cpu_executor.c]: where every chunk of a batch is,
    what the input of a wave holds, and what the output buffer of a slot holds. *)

From stdpp Require Import strings.
From S2P Require Import Prelude Config Selection Plan PlanBuilder PlanMain PlanCorrect ReadOpSort DispatchTypes Coalesce CoalesceProof Dispatch Components CpuAssemble CpuRegion CpuBatch CpuRead CpuExecutor CpuDispatch.

#[local] Open Scope Z_scope.

(** ** Lists of two *)

Lemma aset_delete {A} (l l' : list A) i v w : aget l i = Some v -> aset l i w = Some l' -> exists rest, l ≡ₚ v :: rest /\ l' ≡ₚ w :: rest.
Proof.
  intros Hv Hs. apply aget_lookup in Hv as [Hi Hv]. pose proof (lookup_lt_Some _ _ _ Hv) as Hl. rewrite aset_range in Hs by lia. injection Hs as <-. exists (delete (Z.to_nat i) l).
  split; [by apply delete_Permutation|]. rewrite insert_take_drop, delete_take_drop by done. apply Permutation_sym, Permutation_middle.
Qed.

Lemma concat_map_perm {A B} (f : A -> list B) l l' : l ≡ₚ l' -> concat (map f l) ≡ₚ concat (map f l').
Proof. intros H. induction H; cbn; [done|by f_equiv|rewrite !(assoc_L (++)); f_equiv; apply Permutation_app_comm|by etrans]. Qed.

(** The list of [f] after an update. *)
Lemma concat_aset {A B} (f : A -> list B) l l' i v w : aget l i = Some v -> aset l i w = Some l' ->
  exists rest, concat (map f l) ≡ₚ f v ++ rest /\ concat (map f l') ≡ₚ f w ++ rest.
Proof. intros Hv Hs. destruct (aset_delete _ _ _ _ _ Hv Hs) as (r & H1 & H2). exists (concat (map f r)). split; [exact (concat_map_perm f _ _ H1)|exact (concat_map_perm f _ _ H2)]. Qed.
Lemma concat_aset_same {A B} (f : A -> list B) l l' i v w : aget l i = Some v -> aset l i w = Some l' -> f w = f v -> concat (map f l') ≡ₚ concat (map f l).
Proof. intros Hv Hs E. destruct (concat_aset f _ _ _ _ _ Hv Hs) as (rest & -> & ->). by rewrite E. Qed.

(** ** Where the chunks are *)

(** The chunks of slot [i] that wave [w] carries, and those no worker has decoded yet. *)
Definition carried_of (i : Z) (w : cpu_wave) : list Z :=
  if decide (w_slot w = i) then match w_state w with CPU_INPUT_FREE => [] | _ => ci_chunk <$> w_chunks w end else [].
Definition undecoded_of (i : Z) (todo : list Z) (w : cpu_wave) : list Z :=
  if decide (w_slot w = i) then
    match w_state w with
    | CPU_INPUT_FREE => []
    | CPU_DECODING => omap (fun j => ci_chunk <$> aget (w_chunks w) j) todo
    | _ => ci_chunk <$> w_chunks w
    end
  else [].
Definition carried (i : Z) (ws : list cpu_wave) : list Z := concat (map (carried_of i) ws).
Definition undecoded (i : Z) (todo : list Z) (ws : list cpu_wave) : list Z := concat (map (undecoded_of i todo) ws).

#[local] Arguments undecoded : simpl never.
#[local] Arguments carried : simpl never.

(** A decoded entry of the wave failed. *)
Definition failed (i : Z) (dec : option Z) (todo : list Z) (ws : list cpu_wave) : Prop :=
  exists wi w j st, dec = Some wi /\ aget ws wi = Some w /\ w_slot w = i /\ 0 <= j < zlen (w_chunks w) /\ j ∉ todo /\ aget (w_results w) j = Some st /\ st <> DAMACY_OK.

(** Every wave that reads has its event; so it is until a poll answers a failure. *)
Definition events_set (ws : list cpu_wave) : Prop := forall k w, aget ws k = Some w -> w_state w = CPU_READING -> w_event w = true.

Lemma events_set_aget ws k w : events_set ws -> aget ws k = Some w -> w_state w = CPU_READING -> w_event w = true.
Proof. intros Hs. apply Hs. Qed.
Lemma events_set_aset ws ws' k w' : events_set ws -> aset ws k w' = Some ws' -> (w_state w' = CPU_READING -> w_event w' = true) -> events_set ws'.
Proof.
  intros Hs Ha Hw i w Hi. destruct (decide (k = i)) as [<-|Hne]; [rewrite (aget_aset_eq _ _ _ _ Ha) in Hi; by injection Hi as <-|]. rewrite (aget_aset_ne _ _ _ _ _ Ha Hne) in Hi. by apply (Hs i).
Qed.

Section plans.
Context `{CacheView} (file : option string -> Z -> Z) (output : damacy_batch_spec) (strides : list Z).

(** A plan of the plan builder, with the requests it is for. *)
Definition plan_for (requests : list damacy_sample) (samples : list planner_sample) (plan : prepared_plan) : Prop :=
  Forall (fun ck => 0 <= offset ck) (chunks plan) /\
  exists limits, max_chunks limits <= DAMACY_MAX_CHUNKS_PER_BATCH /\ batch_ready requests samples output limits plan strides (chunk_input file plan).
Definition plan_good (plan : prepared_plan) : Prop :=
  exists requests samples, chunks_ok plan /\ exists limits, batch_ready requests samples output limits plan strides (chunk_input file plan).

Lemma plan_for_good requests samples plan : plan_for requests samples plan -> 0 < zlen (chunks plan) -> plan_good plan.
Proof.
  intros (Ho & limits & Hl & R) Hn. exists requests, samples. split; [|by exists limits]. split.
  - pose proof (po_counts _ _ _ _ (br_plan _ _ _ _ _ _ _ R)). unfold DAMACY_MAX_CHUNKS_PER_BATCH in Hl. lia.
  - rewrite Forall_forall in Ho. apply Forall_forall. intros ck Hck. specialize (Ho ck Hck).
    assert (Hen : missing ck = false -> 0 <= encoded_bytes ck). { pose proof Hck as [y Hy]%elem_of_aget. intros Hm. rewrite <-(br_input _ _ _ _ _ _ _ R y ck Hy Hm). lia. }
    destruct (po_chunks _ _ _ _ (br_plan _ _ _ _ _ _ _ R) ck Hck) as (j & s & u & m & a & decoded & per & S & c & _ & P & (k & h & index & _ & _ & _ & E) & Hset).
    set (f := first_use ck) in Hset. clearbody f. subst ck.
    pose proof (pw_bounded _ _ _ _ _ _ _ _ _ _ _ _ P) as Hd. unfold chunk_of_entry in E. destruct index as [idx|]; [|injection E as E; pose proof (f_equal missing E) as E1; pose proof (f_equal encoded_bytes E) as E2; pose proof (f_equal decoded_bytes E) as E3; cbn in *; rewrite <-E1, <-E2, <-E3; lia]. destruct (_ <=? _); [done|].
    destruct (aget (si_entries idx) _) as [e|]; [|done]. cbn [mbind option_bind] in E. cbv zeta in E. destruct (_ || _) eqn:Hb; [done|]. apply orb_false_iff in Hb as [_ Hb].
    injection E as E. pose proof (f_equal missing E) as E1. pose proof (f_equal encoded_bytes E) as E2. pose proof (f_equal offset E) as E3. pose proof (f_equal path E) as E4. pose proof (f_equal decoded_bytes E) as E5. clear E.
    cbn in *. rewrite <-E1, <-E2, <-E3, <-E4, <-E5 in *. split; [lia|]. destruct (e_nbytes e =? ZARR_SHARD_EMPTY_NBYTES); [done|]. cbn in Hb. rewrite !orb_false_iff in Hb. destruct Hb as [[Hb1%Z.eqb_neq Hb2%Z.ltb_ge] Hb3%Z.ltb_ge].
    specialize (Hen eq_refl). rewrite u64_id in Hb3 by clia. split; [by eexists|]. clia.
Qed.

End plans.

Section inv.
Context `{CacheView} (convert : Z -> zdtype -> element -> element) (lib : decoders) (file : option string -> Z -> Z).
Context (config : damacy_cpu_config) (output : damacy_batch_spec) (strides : list Z) (base : Z).

#[local] Notation chunk_input := (chunk_input file).
#[local] Notation inputs_at := (inputs_at file).
#[local] Notation plan_good := (plan_good file output strides).

Notation size := (volume (batch_dims output)).

(** The chunks [order] were decoded into [data]. *)
Definition progress (plan : prepared_plan) (order : list Z) (sts : list damacy_status) (data : cells) : Prop :=
  exists data0, zlen data0 = size /\ decode_all convert lib (dtype output) strides plan (chunk_input plan) order data0 = Some (sts, data).
Definition complete (plan : prepared_plan) (data : cells) : Prop :=
  exists order sts, order ≡ₚ seqZ 0 (zlen (chunks plan)) /\ progress plan order sts data /\ Forall (eq DAMACY_OK) sts.

(** A slot whose chunks [L] are left in waves that carry [C]. *)
Record rendering (L C : list Z) (F : Prop) (s : cpu_slot) (plan : prepared_plan) : Prop := {
  rn_plan : s_plan s = Some plan;
  rn_reads : exists Ls order sts,
    zlen Ls = rp_count (s_read_plan s) /\ zlen (rp_chunks (s_read_plan s)) = zlen (chunks plan) /\
    (forall y l, aget Ls y = Some l -> read_of plan config (s_read_plan s) y l) /\
    0 <= s_dispatched s <= zlen Ls /\
    concat (drop (Z.to_nat (s_dispatched s)) Ls) ++ L ++ order ≡ₚ seqZ 0 (zlen (chunks plan)) /\
    s_remaining s = zlen (concat (drop (Z.to_nat (s_dispatched s)) Ls) ++ C) /\
    progress plan order sts (s_data s) /\ (Forall (eq DAMACY_OK) sts \/ F) }.

Lemma rendering_frame L C F L' C' (F' : Prop) s plan : L ≡ₚ L' -> C ≡ₚ C' -> (F -> F') -> rendering L C F s plan -> rendering L' C' F' s plan.
Proof.
  intros HL HC HF [H1 (Ls & order & sts & H2 & H3 & H4 & H5 & H6 & H7 & H8 & H9)]. split; [done|]. exists Ls, order, sts. do 4 (split; [done|]). split_and!; [| |done|].
  - by rewrite <-HL.
  - by rewrite <-HC.
  - destruct H9; [by left|right; auto].
Qed.

Definition slot_ok (subs : list prepared_plan) (L C : list Z) (F : Prop) (s : cpu_slot) : Prop :=
  zlen (s_data s) = size /\
  match s_state s with
  | CPU_FREE => s_refs s = 1 /\ s_read_plan s = read_plan_zero
  | CPU_RENDERING => (s_refs s = 1 /\ 0 <= rp_bytes (s_read_plan s) /\ 0 < s_remaining s) /\ exists plan, aget subs (s_batch_id s) = Some plan /\ plan_good plan /\ rendering L C F s plan
  | CPU_READY => s_refs s = 1 /\ s_read_plan s = read_plan_zero /\ exists plan, aget subs (s_batch_id s) = Some plan /\ complete plan (s_data s)
  | CPU_HELD => 1 <= s_refs s <= 2 /\ s_read_plan s = read_plan_zero /\ exists plan, aget subs (s_batch_id s) = Some plan /\ complete plan (s_data s)
  end.

Lemma slot_ok_frame subs L C F L' C' (F' : Prop) s : L ≡ₚ L' -> C ≡ₚ C' -> (F -> F') -> slot_ok subs L C F s -> slot_ok subs L' C' F' s.
Proof.
  intros HL HC HF [H0 H1]. split; [done|]. destruct (s_state s); try done. destruct H1 as (Hr & plan & ? & ? & ?). split; [done|]. exists plan. split_and!; try done. by eapply rendering_frame.
Qed.

Definition serves (slots : list cpu_slot) (i : Z) (plan : prepared_plan) : Prop :=
  exists s, aget slots i = Some s /\ s_state s = CPU_RENDERING /\ s_plan s = Some plan.

Definition wave_ok (slots : list cpu_slot) (w : cpu_wave) : Prop :=
  zlen (w_input w) = chunks_per_input_buffer config * max_encoded_chunk_bytes config /\ zlen (w_results w) = chunks_per_input_buffer config /\
  (w_state w <> CPU_INPUT_FREE ->
     0 < zlen (w_chunks w) <= chunks_per_input_buffer config /\ exists plan, serves slots (w_slot w) plan /\
     match w_state w with
     | CPU_READING => w_event w = true -> exists data, store_fill file (w_input w) (w_reads w) = Some data /\ length data = length (w_input w) /\ inputs_at plan data (w_chunks w)
     | _ => inputs_at plan (w_input w) (w_chunks w)
     end).

Lemma wave_ok_frame slots slots' w : (w_state w <> CPU_INPUT_FREE -> forall plan, serves slots (w_slot w) plan -> serves slots' (w_slot w) plan) -> wave_ok slots w -> wave_ok slots' w.
Proof. intros Hs (H1 & H2 & H3). split_and!; try done. intros Hne. destruct (H3 Hne) as (H4 & plan & H5 & H6). split; [done|]. exists plan. split; [by apply Hs|done]. Qed.

Definition decode_ok (ws : list cpu_wave) (dec : option Z) (finished : bool) (todo : list Z) : Prop :=
  match dec with
  | None => forall wi w, aget ws wi = Some w -> w_state w <> CPU_DECODING
  | Some wi => exists w, aget ws wi = Some w /\ w_state w = CPU_DECODING /\ (forall wi' w', aget ws wi' = Some w' -> w_state w' = CPU_DECODING -> wi' = wi) /\
      NoDup todo /\ (forall j, j ∈ todo -> 0 <= j < zlen (w_chunks w)) /\ (finished = true -> todo = [])
  end.

Definition zsum (l : list Z) : Z := foldr Z.add 0 l.

(** [subs] are the plans submitted, [taken] the number of batches taken. *)
Record exec_inv (x : cpu_executor) (subs : list prepared_plan) (taken : Z) : Prop := {
  ei_fixed : x_config x = config /\ x_output x = dtype output /\ x_strides x = strides;
  ei_len : length (x_slots x) = 2%nat /\ length (x_waves x) = 2%nat /\ 0 < x_inflight x;
  ei_slots : forall i s, aget (x_slots x) i = Some s ->
    slot_ok subs (undecoded i (decode_todo x) (x_waves x)) (carried i (x_waves x)) (failed i (x_decoding x) (decode_todo x) (x_waves x)) s;
  ei_waves : forall wi w, aget (x_waves x) wi = Some w -> wave_ok (x_slots x) w;
  ei_decode : decode_ok (x_waves x) (x_decoding x) (x_done x) (decode_todo x);
  ei_ids : 0 <= taken <= zlen subs /\ s_batch_id <$> filter (fun s => renders s = true) (x_slots x) ≡ₚ seqZ taken (zlen subs - taken);
  ei_committed : x_committed x = base + zsum (map (fun s => rp_bytes (s_read_plan s)) (x_slots x)) /\ 0 <= x_committed x <= max_memory_bytes config }.

Hypothesis Hconfig : 0 < decode_workers config < 2 ^ 32 /\ 0 < max_encoded_chunk_bytes config < 2 ^ 32 /\
  decode_workers config <= chunks_per_input_buffer config < 2 ^ 31 /\ 0 <= max_memory_bytes config < 2 ^ 64.
Hypothesis Hbase : 0 <= base.

(** Only a slot that renders has chunks in waves. *)
Lemma slot_idle x subs taken i s : exec_inv x subs taken -> aget (x_slots x) i = Some s -> s_state s <> CPU_RENDERING ->
  forall w, w ∈ x_waves x -> w_slot w = i -> w_state w = CPU_INPUT_FREE.
Proof.
  intros E Hi Hs w Hw Hwi. destruct (decide (w_state w = CPU_INPUT_FREE)) as [|Hne]; [done|]. exfalso. apply elem_of_aget in Hw as [wi Hw].
  destruct (ei_waves _ _ _ E wi w Hw) as (_ & _ & H3). destruct (H3 Hne) as (_ & plan & (s' & Hs' & Hst & _) & _). rewrite Hwi, Hi in Hs'. injection Hs' as <-. done.
Qed.
Lemma idle_lists ws i todo : (forall w, w ∈ ws -> w_slot w = i -> w_state w = CPU_INPUT_FREE) -> undecoded i todo ws = [] /\ carried i ws = [].
Proof.
  unfold undecoded, carried. induction ws as [|w ws IH]; intros Hw; [done|]. destruct IH as [E1 E2]; [intros w' H'; apply Hw; set_solver|]. cbn. rewrite E1, E2, !app_nil_r.
  unfold undecoded_of, carried_of. case_decide as E; [|done]. by rewrite (Hw w) by (set_solver || done).
Qed.

(** ** Choice of a slot *)

Lemma oldest_spec (p : cpu_slot -> bool) (l : list cpu_slot) (i : Z) (best : option (Z * cpu_slot)) : match best with Some (_, b) => p b = true | None => True end ->
  match oldest p l i best with
  | None => best = None /\ Forall (fun s => p s = false) l
  | Some (k, s) => p s = true /\ (best = Some (k, s) \/ aget l (k - i) = Some s) /\
      (forall s', s' ∈ l -> p s' = true -> s_batch_id s <= s_batch_id s') /\ (forall k' b, best = Some (k', b) -> s_batch_id s <= s_batch_id b)
  end.
Proof.
  revert i best. induction l as [|s l IH]; intros i best Hbest; cbn [oldest].
  { destruct best as [[k b]|]; [|by split]. split; [done|]. split; [by left|]. split; [intros s' Hs'; by apply not_elem_of_nil in Hs'|]. intros k' b' [= <- <-]. lia. }
  set (best' := if p s && match best with None => true | Some (_, b) => s_batch_id s <? s_batch_id b end then Some (i, s) else best). specialize (IH (i + 1) best').
  assert (Hb' : match best' with Some (_, b) => p b = true | None => True end).
  { unfold best'. destruct (p s) eqn:E; cbn [andb]; [|done]. destruct best as [[k b]|]; [|done]. by destruct (_ <? _). }
  specialize (IH Hb'). assert (Hshift : forall k t, aget l (k - (i + 1)) = Some t -> aget (s :: l) (k - i) = Some t).
  { intros k t [H0 Ht]%aget_lookup. apply aget_lookup. split; [lia|]. by replace (Z.to_nat (k - i)) with (S (Z.to_nat (k - (i + 1)))) by lia. }
  destruct (oldest p l (i + 1) best') as [[k t]|].
  - destruct IH as (Hp & Hin & Hmin & Hold). split; [done|]. unfold best' in Hin, Hold. destruct (p s) eqn:E; cbn [andb] in Hin, Hold.
    + destruct best as [[k0 b]|]; [destruct (Z.ltb_spec (s_batch_id s) (s_batch_id b))|].
      * split; [destruct Hin as [[= <- <-]|Hin]; [right; by rewrite Z.sub_diag|right; by apply Hshift]|]. pose proof (Hold _ _ eq_refl). split; [|intros k' b' [= <- <-]; lia].
        intros s' [->|Hs']%elem_of_cons Hp'; [done|by apply Hmin].
      * split; [destruct Hin as [?|Hin]; [by left|right; by apply Hshift]|]. pose proof (Hold _ _ eq_refl). split; [|intros k' b' [= <- <-]; lia].
        intros s' [->|Hs']%elem_of_cons Hp'; [lia|by apply Hmin].
      * split; [destruct Hin as [[= <- <-]|Hin]; [right; by rewrite Z.sub_diag|right; by apply Hshift]|]. pose proof (Hold _ _ eq_refl). split; [|done].
        intros s' [->|Hs']%elem_of_cons Hp'; [done|by apply Hmin].
    + split; [destruct Hin as [?|Hin]; [by left|right; by apply Hshift]|]. split; [|done]. intros s' [->|Hs']%elem_of_cons Hp'; [congruence|by apply Hmin].
  - destruct IH as [Hn HF]. unfold best' in Hn. destruct (p s) eqn:E; cbn [andb] in Hn; [|by split; [|constructor]]. destruct best as [[k b]|]; [|done]. by destruct (_ <? _).
Qed.

Lemma oldest_some p l i s : oldest p l 0 None = Some (i, s) -> aget l i = Some s /\ p s = true /\ forall s', s' ∈ l -> p s' = true -> s_batch_id s <= s_batch_id s'.
Proof.
  intros E. pose proof (oldest_spec p l 0 None I) as Hs. rewrite E in Hs. destruct Hs as (Hp & [?|Hin] & Hmin & _); [done|]. rewrite Z.sub_0_r in Hin. done.
Qed.

(** ** Batches of the client *)

(** Buffers that a batch refers to are not touched. *)
Definition keeps_held (x x' : cpu_executor) : Prop :=
  forall i s, aget (x_slots x) i = Some s -> s_state s = CPU_HELD -> s_refs s = 2 -> aget (x_slots x') i = Some s.
Definition after (x x' : cpu_executor) (subs : list prepared_plan) (taken : Z) : Prop := exec_inv x' subs taken /\ keeps_held x x'.

Lemma keeps_held_refl x : keeps_held x x.
Proof. by intros i s. Qed.
Lemma keeps_held_trans x1 x2 x3 : keeps_held x1 x2 -> keeps_held x2 x3 -> keeps_held x1 x3.
Proof. intros H1 H2 i s Hi Hst Hr. by apply H2; [apply H1|..]. Qed.
Lemma keeps_held_same x x' : x_slots x' = x_slots x -> keeps_held x x'.
Proof. intros E i s. by rewrite E. Qed.
Lemma keeps_held_aset x x' i s s' slots : aget (x_slots x) i = Some s -> aset (x_slots x) i s' = Some slots -> s_state s <> CPU_HELD -> x_slots x' = slots -> keeps_held x x'.
Proof. intros Hi Hs Hn Hx k t Hk Hst Hr. destruct (decide (i = k)) as [<-|Hne]; [congruence|]. by rewrite Hx, (aget_aset_ne _ _ _ _ _ Hs Hne). Qed.
Lemma after_trans x1 x2 x3 subs taken : keeps_held x1 x2 -> after x2 x3 subs taken -> after x1 x3 subs taken.
Proof. intros H1 [H2 H3]. split; [done|]. by eapply keeps_held_trans. Qed.
Lemma after_refl x subs taken : exec_inv x subs taken -> after x x subs taken.
Proof. intros E. split; [done|apply keeps_held_refl]. Qed.
#[local] Hint Resolve after_refl keeps_held_refl keeps_held_same : core.

(** ** Take, release, free *)

(** Updates of a slot that keep what its waves rely on. *)
Lemma serves_aset slots slots' i s s' : aget slots i = Some s -> aset slots i s' = Some slots' ->
  (s_state s = CPU_RENDERING -> s_state s' = CPU_RENDERING /\ s_plan s' = s_plan s) -> forall k plan, serves slots k plan -> serves slots' k plan.
Proof.
  intros Hi Hs Hk k plan (t & Ht & Hst & Hp). destruct (decide (i = k)) as [<-|Hne].
  - rewrite Hi in Ht. injection Ht as <-. destruct (Hk Hst) as [E1 E2]. exists s'. split; [by eapply aget_aset_eq|]. split; [done|congruence].
  - exists t. split; [by rewrite (aget_aset_ne _ _ _ _ _ Hs Hne)|done].
Qed.

Lemma renders_ids slots slots' i s s' : aget slots i = Some s -> aset slots i s' = Some slots' -> renders s' = renders s -> s_batch_id s' = s_batch_id s ->
  s_batch_id <$> filter (fun s => renders s = true) slots' ≡ₚ s_batch_id <$> filter (fun s => renders s = true) slots.
Proof.
  intros Hi Hs Hr Hb. destruct (aset_delete _ _ _ _ _ Hi Hs) as (r & -> & ->). rewrite !filter_cons, Hr. by case_decide; csimpl; rewrite ?Hb.
Qed.
Lemma zsum_perm l l' : l ≡ₚ l' -> zsum l = zsum l'.
Proof. unfold zsum. induction 1; cbn; lia. Qed.
Lemma committed_aset (f : cpu_slot -> Z) slots slots' i s s' : aget slots i = Some s -> aset slots i s' = Some slots' -> zsum (map f slots') = zsum (map f slots) - f s + f s'.
Proof.
  intros Hi Hs. destruct (aset_delete _ _ _ _ _ Hi Hs) as (r & H1 & H2). rewrite (zsum_perm _ _ (Permutation_map f H1)), (zsum_perm _ _ (Permutation_map f H2)). cbn. lia.
Qed.

Lemma ids_unique x subs taken i k s t : exec_inv x subs taken -> aget (x_slots x) i = Some s -> aget (x_slots x) k = Some t -> renders s = true -> renders t = true ->
  s_batch_id s = s_batch_id t -> i = k.
Proof.
  intros E Hi Hk Hs Ht Hb. destruct (decide (i = k)) as [|Hne]; [done|]. exfalso. destruct (ei_ids _ _ _ E) as [_ Hp].
  assert (Hnd : NoDup (s_batch_id <$> filter (fun s => renders s = true) (x_slots x))) by (rewrite Hp; apply NoDup_seqZ).
  pose proof Hi as Hi'. pose proof Hk as Hk'. apply aget_lookup in Hi' as [Hi0 Hi']. apply aget_lookup in Hk' as [Hk0 Hk'].
  pose proof (delete_Permutation _ _ _ Hi') as D. remember (delete (Z.to_nat i) (x_slots x)) as rest eqn:Er. assert (Hin : t ∈ rest).
  { rewrite Er. apply list_elem_of_lookup. destruct (decide (Z.to_nat k < Z.to_nat i)%nat).
    - exists (Z.to_nat k). by rewrite list_lookup_delete_lt.
    - exists (Z.to_nat k - 1)%nat. rewrite list_lookup_delete_ge by lia. by replace (S (Z.to_nat k - 1)) with (Z.to_nat k) by lia. }
  rewrite D, filter_cons_True in Hnd by done. csimpl. apply NoDup_cons in Hnd as [Hn _]. apply Hn. apply list_elem_of_fmap. exists t. split; [done|]. by apply list_elem_of_filter.
Qed.

Lemma take_inv malloc x subs taken : exec_inv x subs taken ->
  exists st x' batch, cpu_take malloc x = Some (st, x', batch) /\
    match batch with
    | None => x' = x
    | Some b => st = DAMACY_OK /\ b_refs b = 1 /\ b_id b = taken /\ exec_inv x' subs (taken + 1) /\ keeps_held x x' /\
        exists s s' plan, aget (x_slots x) (b_slot b) = Some s /\ s_state s = CPU_READY /\ aget (x_slots x') (b_slot b) = Some s' /\
          s_state s' = CPU_HELD /\ s_refs s' = 2 /\ aget subs taken = Some plan /\ complete plan (s_data s')
    end.
Proof.
  intros E. unfold cpu_take. destruct (oldest renders (x_slots x) 0 None) as [[i s]|] eqn:Ho; [|by eexists _, _, _].
  destruct (oldest_some _ _ _ _ Ho) as (Hi & Hr & Hmin). case_bool_decide as Hst; cbn [negb]; [|by eexists _, _, _]. destruct malloc; cbn [negb]; [|by eexists _, _, _].
  pose proof (ei_slots _ _ _ E i s Hi) as (Hd & Hok). rewrite Hst in Hok. destruct Hok as (Href & Hrp & plan & Hplan & Hcomp).
  unfold buffer_retain. rewrite Href. change (u32 (1 + 1)) with 2. set (s' := slot_state (slot_refs s 2) CPU_HELD).
  destruct (aset (x_slots x) i s') as [slots|] eqn:Hs; [|rewrite aset_range in Hs by (by eapply aget_Some_range); done]. cbn [mbind option_bind].
  eexists _, _, (Some (Batch 1 i (s_batch_id s))). split; [done|]. split; [done|]. split; [done|]. cbn [b_id b_slot]. destruct (ei_ids _ _ _ E) as [Ht Hids].
  destruct (aset_delete _ _ _ _ _ Hi Hs) as (rest & D1 & D2). assert (Hid : s_batch_id s = taken).
  { assert (Hin : s_batch_id s ∈ seqZ taken (zlen subs - taken)) by (rewrite <-Hids; apply list_elem_of_fmap; exists s; split; [done|]; apply list_elem_of_filter; split; [done|apply elem_of_aget; eauto]).
    apply elem_of_seqZ in Hin. assert (Ht' : taken ∈ s_batch_id <$> filter (fun s => renders s = true) (x_slots x)) by (rewrite Hids; apply elem_of_seqZ; lia).
    apply list_elem_of_fmap in Ht' as (t & Et & [Htr Htin]%list_elem_of_filter). specialize (Hmin t Htin Htr). lia. }
  split; [done|]. split.
  - destruct E as [F1 F2 F3 F4 F5 F6 F7]. split; cbn.
    + done.
    + split; [|by apply F2]. rewrite (length_aset _ _ _ _ Hs). apply F2.
    + intros k t Hk. destruct (decide (i = k)) as [<-|Hne].
      * rewrite (aget_aset_eq _ _ _ _ Hs) in Hk. injection Hk as <-. split; [done|]. cbn. split; [lia|]. split; [done|]. by exists plan.
      * rewrite (aget_aset_ne _ _ _ _ _ Hs Hne) in Hk. by apply F3.
    + intros wi w Hw. eapply wave_ok_frame; [|by apply (F4 wi)]. intros _. by apply (serves_aset _ _ _ _ _ Hi Hs); rewrite Hst.
    + done.
    + split; [destruct (decide (taken = zlen subs)); [|lia]|].
      * exfalso. assert (Hin : s_batch_id s ∈ s_batch_id <$> filter (fun s => renders s = true) (x_slots x)) by (apply list_elem_of_fmap; exists s; split; [done|]; apply list_elem_of_filter; split; [done|apply elem_of_aget; eauto]).
        rewrite Hids in Hin. apply elem_of_seqZ in Hin. lia.
      * rewrite D2, filter_cons_False by (by unfold renders, s'; cbn). rewrite D1, filter_cons_True in Hids by done. csimpl in Hids. rewrite Hid in Hids.
        assert (Hlt : taken < zlen subs). { assert (Hin : taken ∈ seqZ taken (zlen subs - taken)) by (rewrite <-Hids; set_solver). apply elem_of_seqZ in Hin. lia. }
        rewrite seqZ_cons in Hids by lia. apply Permutation_cons_inv in Hids. rewrite Hids. f_equiv; lia.
    + rewrite (committed_aset _ _ _ _ _ _ Hi Hs). cbn. lia.
  - split; [apply (keeps_held_aset _ _ _ _ _ _ Hi Hs); [by rewrite Hst|done]|]. exists s, s', plan. split; [done|]. split; [done|]. split; [by eapply aget_aset_eq|]. cbn. rewrite <-Hid. by split_and!.
Qed.

Lemma inv_set_slot x subs taken i s s' slots : exec_inv x subs taken -> aget (x_slots x) i = Some s -> aset (x_slots x) i s' = Some slots ->
  slot_ok subs (undecoded i (decode_todo x) (x_waves x)) (carried i (x_waves x)) (failed i (x_decoding x) (decode_todo x) (x_waves x)) s' ->
  (s_state s = CPU_RENDERING -> s_state s' = CPU_RENDERING /\ s_plan s' = s_plan s) -> renders s' = renders s -> s_batch_id s' = s_batch_id s ->
  rp_bytes (s_read_plan s') = rp_bytes (s_read_plan s) -> exec_inv (set_slots x slots) subs taken.
Proof.
  intros [F1 F2 F3 F4 F5 F6 F7] Hi Hs Hok Hr Hre Hb Hrp. split; cbn.
  - done.
  - split; [|by apply F2]. rewrite (length_aset _ _ _ _ Hs). apply F2.
  - intros k t Hk. destruct (decide (i = k)) as [<-|Hne]; [rewrite (aget_aset_eq _ _ _ _ Hs) in Hk; by injection Hk as <-|]. rewrite (aget_aset_ne _ _ _ _ _ Hs Hne) in Hk. by apply F3.
  - intros wi w Hw. eapply wave_ok_frame; [|by apply (F4 wi)]. intros _ pl. by apply (serves_aset _ _ _ _ _ Hi Hs).
  - done.
  - split; [apply F6|]. rewrite (renders_ids _ _ _ _ _ Hi Hs) by done. apply F6.
  - rewrite (committed_aset _ _ _ _ _ _ Hi Hs), Hrp. lia.
Qed.

(** The last reference to a batch goes. *)
Lemma release_inv x subs taken i s : exec_inv x subs taken -> aget (x_slots x) i = Some s -> s_state s = CPU_HELD -> s_refs s = 2 ->
  exists slots, aset (x_slots x) i (buffer_release s) = Some slots /\ exec_inv (set_slots x slots) subs taken.
Proof.
  intros E Hi Hst Href. unfold buffer_release. rewrite Href. change (u32 (2 - 1)) with 1.
  destruct (aset (x_slots x) i (slot_refs s 1)) as [slots|] eqn:Hs; [|rewrite aset_range in Hs by (by eapply aget_Some_range); done]. exists slots. split; [done|].
  pose proof (ei_slots _ _ _ E i s Hi) as (Hd & Hok). rewrite Hst in Hok. destruct Hok as (_ & Hrp & Hp).
  eapply inv_set_slot; try done. split; [done|]. cbn. rewrite Hst. split; [lia|]. done.
Qed.

Lemma free_held_slot s subs L C F : slot_ok subs L C F s -> slot_ok subs L C F (free_held s).
Proof.
  intros [H1 H2]. unfold free_held, buffer_available. case_bool_decide as Hst; cbn [andb]; [|done]. destruct (Z.eqb_spec (s_refs s) 1); [|done]. split; [done|]. cbn. rewrite Hst in H2. split; [done|apply H2].
Qed.
Lemma aget_map_2 {A B} (f : A -> B) l i z : aget l i = Some z -> aget (map f l) i = Some (f z).
Proof. intros [Hi Hz]%aget_lookup. apply aget_lookup. split; [done|]. by rewrite list_lookup_fmap, Hz. Qed.

Lemma free_held_inv x subs taken : exec_inv x subs taken -> after x (set_slots x (map free_held (x_slots x))) subs taken.
Proof.
  assert (Hkeep : forall s, renders (free_held s) = renders s /\ s_batch_id (free_held s) = s_batch_id s /\ rp_bytes (s_read_plan (free_held s)) = rp_bytes (s_read_plan s) /\ (s_state s = CPU_RENDERING -> free_held s = s)).
  { intros s. unfold free_held, buffer_available. case_bool_decide as Hst; cbn [andb]; [|done]. destruct (_ =? 1); [|done]. split_and!; try done; [by unfold renders; cbn; rewrite Hst|congruence]. }
  intros [F1 F2 F3 F4 F5 F6 F7]. split.
  2: { intros i s Hi Hst Hr. cbn. rewrite (aget_map_2 _ _ _ _ Hi). unfold free_held, buffer_available. by rewrite Hr, andb_false_r. }
  split; cbn.
  - done.
  - rewrite length_map. done.
  - intros i s' (s & Hs & ->)%aget_map_inv. by apply free_held_slot, F3.
  - intros wi w Hw. eapply wave_ok_frame; [|by apply (F4 wi)]. intros _ pl (s & Hs & Hst & Hp). exists s. split; [|done]. rewrite (aget_map_2 _ _ _ _ Hs). f_equal. by apply Hkeep.
  - done.
  - split; [apply F6|]. destruct F6 as [_ <-]. clear -Hkeep. induction (x_slots x) as [|s l IH]; [done|]. cbn [map]. rewrite !filter_cons. destruct (Hkeep s) as (-> & Hb & _). case_decide; csimpl; rewrite ?Hb; by rewrite IH.
  - rewrite map_map. rewrite (map_ext _ (fun s => rp_bytes (s_read_plan s))) by (intros s; by apply Hkeep). done.
Qed.

(** ** Waves *)

Lemma inv_set_waves x subs taken ws dec fin todo : exec_inv x subs taken -> length ws = length (x_waves x) -> (forall wi w, aget ws wi = Some w -> wave_ok (x_slots x) w) ->
  decode_ok ws dec fin todo ->
  (forall i s, aget (x_slots x) i = Some s -> undecoded i (decode_todo x) (x_waves x) ≡ₚ undecoded i todo ws /\ carried i (x_waves x) ≡ₚ carried i ws /\
     (failed i (x_decoding x) (decode_todo x) (x_waves x) -> failed i dec todo ws)) -> exec_inv (set_decode (set_waves x ws) dec fin todo) subs taken.
Proof.
  intros [F1 F2 F3 F4 F5 F6 F7] Hl Hw Hd Hs. split; cbn; try done.
  - destruct F2 as (? & ? & ?). split_and!; [done|congruence|done].
  - intros i s Hi. destruct (Hs i s Hi) as (H1 & H2 & H3). eapply slot_ok_frame; [exact H1|exact H2|exact H3|by apply F3].
Qed.

Lemma finish_inv x subs taken wi : exec_inv x subs taken -> x_decoding x = Some wi -> decode_todo x = [] -> exec_inv (decode_finish x) subs taken.
Proof.
  intros [F1 F2 F3 F4 F5 F6 F7] Hd Ht. split; cbn; try done. rewrite Hd, Ht in *. destruct F5 as (w & ? & ? & ? & ? & ? & _). by exists w.
Qed.

(** An update of a wave that is not being decoded. *)
Lemma failed_aset ws ws' wi w w' i dec todo : aget ws wi = Some w -> aset ws wi w' = Some ws' -> dec <> Some wi -> failed i dec todo ws -> failed i dec todo ws'.
Proof.
  intros Hw Hs Hne (wi' & v & j & st & Hd & Hv & Hr). exists wi', v, j, st. split; [done|]. split; [|done]. rewrite (aget_aset_ne _ _ _ _ _ Hs); [done|congruence].
Qed.
Lemma decode_ok_aset ws ws' wi w w' dec fin todo : aget ws wi = Some w -> aset ws wi w' = Some ws' -> w_state w <> CPU_DECODING -> w_state w' <> CPU_DECODING ->
  decode_ok ws dec fin todo -> decode_ok ws' dec fin todo /\ dec <> Some wi.
Proof.
  intros Hw Hs Hn Hn'. assert (Hback : forall k v, aget ws' k = Some v -> w_state v = CPU_DECODING -> aget ws k = Some v).
  { intros k v Hv Hst. destruct (decide (wi = k)) as [<-|Hne]; [rewrite (aget_aset_eq _ _ _ _ Hs) in Hv; congruence|]. by rewrite (aget_aset_ne _ _ _ _ _ Hs Hne) in Hv. }
  destruct dec as [d|]; cbn.
  - intros (v & Hv & Hst & Hu & Hr). assert (wi <> d) by congruence. split; [|congruence]. exists v. split; [by rewrite (aget_aset_ne _ _ _ _ _ Hs)|]. split; [done|]. split; [|done]. intros k v' Hk Hk'. eapply Hu; [by apply Hback|done].
  - intros Hu. split; [|done]. intros k v Hk Hst. by eapply (Hu k v); [by apply Hback|].
Qed.

(** An update of a wave that reads, by the poll. *)
Lemma polled_inv x subs taken wi w st input : exec_inv x subs taken -> aget (x_waves x) wi = Some w -> w_state w = CPU_READING -> st = CPU_READING \/ st = CPU_READ_READY ->
  length input = length (w_input w) -> (forall plan, serves (x_slots x) (w_slot w) plan -> st = CPU_READ_READY -> inputs_at plan input (w_chunks w)) ->
  exists ws, aset (x_waves x) wi (wave_polled w st input) = Some ws /\ exec_inv (set_waves x ws) subs taken.
Proof.
  intros E Hw Hst Hnew Hl Hin. destruct (ei_waves _ _ _ E wi w Hw) as (H1 & H2 & H3). destruct (H3 ltac:(congruence)) as (Hn & plan & Hsv & _).
  destruct (aset (x_waves x) wi (wave_polled w st input)) as [ws|] eqn:Hs; [|rewrite aset_range in Hs by (by eapply aget_Some_range); done].
  exists ws. split; [done|]. destruct (decode_ok_aset _ _ _ _ _ _ _ _ Hw Hs ltac:(by rewrite Hst) ltac:(by destruct Hnew as [-> | ->]) (ei_decode _ _ _ E)) as [Hd Hne].
  replace (set_waves x ws) with (set_decode (set_waves x ws) (x_decoding x) (x_done x) (decode_todo x)) by (by destruct x). apply inv_set_waves; [done|by apply (length_aset _ _ _ _ Hs)| |done|].
  - intros k v Hk. destruct (decide (wi = k)) as [<-|Hk'].
    + rewrite (aget_aset_eq _ _ _ _ Hs) in Hk. injection Hk as <-. split; [cbn; congruence|]. split; [done|]. intros _. split; [done|]. exists plan. split; [done|]. cbn. destruct Hnew as [-> | ->]; [done|]. by apply Hin.
    + rewrite (aget_aset_ne _ _ _ _ _ Hs Hk') in Hk. by apply (ei_waves _ _ _ E k).
  - intros i s _. split_and!.
    + symmetry. apply (concat_aset_same (undecoded_of i (decode_todo x)) _ _ _ _ _ Hw Hs). unfold undecoded_of. cbn. rewrite Hst. by destruct Hnew as [-> | ->].
    + symmetry. apply (concat_aset_same (carried_of i) _ _ _ _ _ Hw Hs). unfold carried_of. cbn. rewrite Hst. by destruct Hnew as [-> | ->].
    + by eapply failed_aset.
Qed.

(** The input arrives with a poll that is ready, when the wave has an event. *)
Lemma poll_wave_inv x subs taken wi w : exec_inv x subs taken -> aget (x_waves x) wi = Some w -> w_state w = CPU_READING -> w_event w = true ->
  exists data ws, store_fill file (w_input w) (w_reads w) = Some data /\ aset (x_waves x) wi (wave_polled w CPU_READ_READY data) = Some ws /\ exec_inv (set_waves x ws) subs taken.
Proof.
  intros E Hw Hst Hev. destruct (ei_waves _ _ _ E wi w Hw) as (_ & _ & H3). rewrite Hst in H3. destruct (H3 ltac:(done)) as (_ & plan & (s & Hs & _ & Hp) & Hdata). destruct (Hdata Hev) as (data & Hf & Hl & Hin).
  destruct (polled_inv x subs taken wi w CPU_READ_READY data E Hw Hst) as (ws & Hws & E'); [by right|done| |by exists data, ws].
  intros plan' (s' & Hs' & _ & Hp') _. assert (plan' = plan) as -> by congruence. done.
Qed.

Lemma poll_waves_inv poll n x subs taken wi changed : exec_inv x subs taken -> events_set (x_waves x) -> 0 <= wi -> wi + Z.of_nat n <= 2 ->
  exists st x' c, poll_waves file n poll x wi changed = Some (st, x', c) /\ after x x' subs taken /\
    (st = DAMACY_OK /\ events_set (x_waves x') \/ st <> DAMACY_OK /\ exists k leftover, poll k = Some (st, leftover)).
Proof.
  revert x wi changed. induction n as [|n IH]; intros x wi changed E Hev H0 Hn; cbn [poll_waves]; [eexists _, _, _; split; [done|]; split; [split; [done|apply keeps_held_refl]|by left]|].
  destruct (ei_len _ _ _ E) as (_ & Hl & _). destruct (aget_is_Some (x_waves x) wi ltac:(lia)) as [w Hw]. rewrite Hw. cbn [mbind option_bind].
  case_bool_decide as Hst; [|apply IH; [done|done|lia|lia]]. destruct (poll wi) as [[status leftover]|] eqn:Hpoll; [|apply IH; [done|done|lia|lia]]. cbv zeta. pose proof (events_set_aget _ _ _ Hev Hw Hst) as Hew. rewrite Hew. cbn [negb]. case_bool_decide as Hok.
  - destruct (poll_wave_inv x subs taken wi w E Hw Hst Hew) as (data & ws & -> & Hs & E'). cbn [mbind option_bind]. rewrite Hs. cbn [mbind option_bind].
    destruct (IH (set_waves x ws) (wi + 1) true E') as (st & x' & c & -> & Ha & Hr); [by apply (events_set_aset _ _ _ _ Hev Hs)|lia|lia|]. exists st, x', c. split; [done|]. split; [|done]. by eapply after_trans, Ha; apply keeps_held_same.
  - cbn [mbind option_bind]. destruct (polled_inv x subs taken wi w CPU_READING (leftover <$> seqZ 0 (zlen (w_input w))) E Hw Hst) as (ws & -> & E'); [by left|rewrite length_fmap, length_seqZ; lia|done|]. cbn [mbind option_bind].
    eexists _, _, _. split; [done|]. split; [split; [done|by apply keeps_held_same]|]. right. split; [done|]. by exists wi, leftover.
Qed.

(** ** The decode thread *)

Lemma omap_from {A B} (f : A -> B) (pre l : list A) : omap (fun j => f <$> aget (pre ++ l) j) (seqZ (zlen pre) (zlen l)) = f <$> l.
Proof.
  revert pre. induction l as [|a l IH]; intros pre; [done|]. rewrite seqZ_cons by (cbn; lia). cbn [omap list_omap].
  assert (aget (pre ++ a :: l) (zlen pre) = Some a) as ->. { apply aget_lookup. split; [lia|]. rewrite Nat2Z.id. by apply list_lookup_middle. }
  cbn [fmap option_fmap option_map]. csimpl. f_equal. specialize (IH (pre ++ [a])). rewrite <-(assoc_L (++)) in IH. cbn [app] in IH. rewrite <-IH. f_equal. rewrite length_app. cbn [length]. f_equal; lia.
Qed.
Lemma omap_all {A B} (f : A -> B) (l : list A) : omap (fun j => f <$> aget l j) (seqZ 0 (zlen l)) = f <$> l.
Proof. exact (omap_from f [] l). Qed.

Lemma next_ready_spec (l : list cpu_wave) (i : Z) (best : option (Z * cpu_wave)) : match next_ready l i best with
  | None => best = None /\ Forall (fun w => w_state w <> CPU_READ_READY) l
  | Some (k, w) => best = Some (k, w) \/ (aget l (k - i) = Some w /\ w_state w = CPU_READ_READY)
  end.
Proof.
  revert i best. induction l as [|w l IH]; intros i best; cbn [next_ready]; [by destruct best as [[k w]|]; [left|split]|].
  set (best' := if _ && _ then Some (i, w) else best). assert (Hb : best' = best \/ (best' = Some (i, w) /\ w_state w = CPU_READ_READY)).
  { unfold best'. case_bool_decide; cbn [andb]; [|by left]. destruct best as [[k b]|]; [|by right]. destruct (_ <? _); [by right|by left]. }
  specialize (IH (i + 1) best'). destruct (next_ready l (i + 1) best') as [[k v]|].
  - destruct IH as [Hn|[Hk Hv]].
    + destruct Hb as [->|[-> Hst]]; [by left|]. right. injection Hn as <- <-. by rewrite Z.sub_diag.
    + right. split; [|done]. apply aget_lookup in Hk as [Hk0 Hk]. apply aget_lookup. split; [lia|]. by replace (Z.to_nat (k - i)) with (S (Z.to_nat (k - (i + 1)))) by lia.
  - destruct IH as [Hn HF]. unfold best' in Hn. case_bool_decide as Hst; cbn [andb] in Hn; [|by split; [|constructor]]. destruct best as [[k b]|]; [|done]. by destruct (_ <? _).
Qed.

(** Two waves: the one at [wi] and another. *)
Lemma pair_wave (ws : list cpu_wave) (wi : Z) (w : cpu_wave) : length ws = 2%nat -> aget ws wi = Some w -> exists k v, k <> wi /\ aget ws k = Some v /\
  (forall f : cpu_wave -> list Z, concat (map f ws) ≡ₚ f w ++ f v) /\
  (forall (f : cpu_wave -> list Z) w' ws', aset ws wi w' = Some ws' -> concat (map f ws') ≡ₚ f w' ++ f v).
Proof.
  intros Hl Hw. destruct ws as [|a [|b [|]]]; try done. pose proof (aget_Some_range _ _ _ Hw) as Hr. cbn in Hr.
  assert (wi = 0 \/ wi = 1) as [-> | ->] by lia; cbn in Hw; injection Hw as <-.
  - exists 1, b. split_and!; try done; [intros f; cbn; by rewrite app_nil_r|]. intros f w' ws' [= <-]. cbn. by rewrite app_nil_r.
  - exists 0, a. split_and!; try done; [intros f; cbn; rewrite app_nil_r; apply Permutation_app_comm|]. intros f w' ws' [= <-]. cbn. rewrite app_nil_r. apply Permutation_app_comm.
Qed.

Lemma undecoded_idle i todo todo' w : w_state w <> CPU_DECODING -> undecoded_of i todo w = undecoded_of i todo' w.
Proof. unfold undecoded_of. intros Hn. by destruct (w_state w). Qed.

Lemma start_decode_inv x subs taken changed : exec_inv x subs taken -> exists st x' c, start_decode x changed = Some (st, x', c) /\ after x x' subs taken.
Proof.
  intros E. unfold start_decode. destruct (x_decoding x) as [d|] eqn:Hd; [by eexists _, _, _|].
  pose proof (next_ready_spec (x_waves x) 0 None) as Hn. destruct (next_ready (x_waves x) 0 None) as [[wi w]|]; [|by eexists _, _, _].
  destruct Hn as [?|[Hw Hst]]; [done|]. rewrite Z.sub_0_r in Hw. destruct (ei_len _ _ _ E) as (_ & Hl & _). pose proof (ei_decode _ _ _ E) as HD. rewrite Hd in HD. cbn in HD.
  destruct (aset (x_waves x) wi (wave_state w CPU_DECODING)) as [ws|] eqn:Hs; [|rewrite aset_range in Hs by (by eapply aget_Some_range); done]. cbn [mbind option_bind].
  eexists _, _, _. split; [done|]. destruct (pair_wave _ _ _ Hl Hw) as (k & v & Hk & Hv & Hp & Hp'). split; [|by apply keeps_held_same]. apply inv_set_waves; [done|by apply (length_aset _ _ _ _ Hs)| | |].
  - intros wi' w' Hw'. destruct (decide (wi = wi')) as [<-|Hne].
    + rewrite (aget_aset_eq _ _ _ _ Hs) in Hw'. injection Hw' as <-. destruct (ei_waves _ _ _ E wi w Hw) as (H1 & H2 & H3). rewrite Hst in H3. destruct (H3 ltac:(done)) as (H4 & plan & H5 & H6).
      split; [done|]. split; [done|]. intros _. split; [done|]. by exists plan.
    + rewrite (aget_aset_ne _ _ _ _ _ Hs Hne) in Hw'. by apply (ei_waves _ _ _ E wi').
  - exists (wave_state w CPU_DECODING). split; [by eapply aget_aset_eq|]. split; [done|]. split; [|split; [apply NoDup_seqZ|split; [|done]]].
    + intros wi' w' Hw' Hst'. destruct (decide (wi = wi')) as [<-|Hne]; [done|]. rewrite (aget_aset_ne _ _ _ _ _ Hs Hne) in Hw'. by destruct (HD wi' w' Hw').
    + intros j Hj%elem_of_seqZ. cbn. lia.
  - intros i s _. split_and!.
    + unfold undecoded. rewrite Hp, (Hp' _ _ _ Hs). f_equiv.
      * unfold undecoded_of. cbn [w_slot w_state w_chunks wave_state]. rewrite Hst, omap_all. done.
      * by rewrite (undecoded_idle i (decode_todo x) (seqZ 0 (zlen (w_chunks w)))) by (by apply (HD k)).
    + unfold carried. rewrite Hp, (Hp' _ _ _ Hs). unfold carried_of at 3. cbn [w_slot w_state w_chunks wave_state]. unfold carried_of at 1. by rewrite Hst.
    + intros (wi' & _ & _ & _ & Hd' & _). congruence.
Qed.

Lemma decode_all_snoc (output' : Z) str plan input order c b sts b1 ck st n b2 :
  decode_all convert lib output' str plan input order b = Some (sts, b1) -> aget (chunks plan) c = Some ck ->
  decode_one convert lib output' str plan ck (input c) b1 = Some (st, n, b2) ->
  decode_all convert lib output' str plan input (order ++ [c]) b = Some (sts ++ [st], b2).
Proof.
  intros Hd Hc Ho. revert b sts Hd. induction order as [|y order IH]; intros b sts; cbn [decode_all app].
  - intros [= <- <-]. rewrite Hc. cbn [mbind option_bind]. rewrite Ho. done.
  - destruct (aget (chunks plan) y) as [cky|]; [|done]. cbn [mbind option_bind]. destruct (decode_one _ _ _ _ _ _ _ b) as [[[st' n'] b']|]; [|done]. cbn [mbind option_bind fst snd].
    destruct (decode_all _ _ _ _ _ _ order b') as [[sts' b'']|] eqn:E; [|done]. cbn [mbind option_bind fst snd]. intros [= <- <-]. rewrite (IH _ _ E). done.
Qed.

(** Nothing reads the input of a missing chunk. *)
Lemma decode_one_missing output' str plan ck inp inp' b : missing ck = true -> decode_one convert lib output' str plan ck inp b = decode_one convert lib output' str plan ck inp' b.
Proof. intros Hm. unfold decode_one, decode_chunk. by rewrite Hm. Qed.

(** A worker on entry [j] of wave [wi]: what is left shrinks by its chunk. *)
Lemma undecoded_entry w j c i todo : w_state w = CPU_DECODING -> w_slot w = i -> NoDup todo -> j ∈ todo -> aget (w_chunks w) j = Some c ->
  undecoded_of i todo w ≡ₚ ci_chunk c :: undecoded_of i (filter (fun k => k <> j) todo) w.
Proof.
  intros Hst Hi Hnd Hj Hc. unfold undecoded_of. rewrite !decide_True by done. rewrite Hst. clear Hst Hi.
  induction Hnd as [|k todo Hk Hnd IH]; [by apply not_elem_of_nil in Hj|]. rewrite filter_cons. csimpl. destruct (decide (k = j)) as [->|Hne].
  - rewrite decide_False by (intros H'; by apply H'). rewrite Hc. cbn. replace (filter (fun k => k <> j) todo) with todo; [done|]. symmetry. clear IH Hj Hnd. induction todo as [|y todo IH]; [done|].
    rewrite filter_cons. apply not_elem_of_cons in Hk as [Hy Hk]. rewrite decide_True by congruence. by rewrite IH.
  - rewrite decide_True by done. csimpl. apply elem_of_cons in Hj as [Hj|Hj]; [done|]. specialize (IH Hj). destruct (ci_chunk <$> aget (w_chunks w) k); [|done]. rewrite IH. apply Permutation_swap.
Qed.

Lemma decode_entry_inv x subs taken j : exec_inv x subs taken -> is_Some (x_decoding x) -> j ∈ decode_todo x ->
  exists x', decode_entry convert lib x j = Some x' /\ after x x' subs taken.
Proof.
  intros E [wi Hd] Hj. unfold decode_entry. rewrite Hd. cbn [mbind option_bind]. pose proof (ei_decode _ _ _ E) as HD. rewrite Hd in HD. destruct HD as (w & Hw & Hst & Huniq & Hnd & Htodo & Hfin).
  rewrite Hw. cbn [mbind option_bind]. destruct (ei_waves _ _ _ E wi w Hw) as (W1 & W2 & W3). rewrite Hst in W3. destruct (W3 ltac:(done)) as (Wn & plan & (s & Hs & Hss & Hsp) & Win).
  rewrite Hs. cbn [mbind option_bind]. rewrite Hsp. cbn [mbind option_bind]. destruct (aget_is_Some (w_chunks w) j (Htodo j Hj)) as [ci Hci]. rewrite Hci. cbn [mbind option_bind].
  destruct (Forall_aget _ _ _ _ Win Hci) as (ck & Hck & Hin). rewrite Hck. cbn [mbind option_bind].
  destruct (ei_slots _ _ _ E _ s Hs) as [Hsz Hok]. rewrite Hss in Hok. destruct Hok as (Href & plan' & Hsub & Hgood & Hren). assert (plan' = plan) as -> by (pose proof (rn_plan _ _ _ _ _ Hren); congruence).
  pose proof Hgood as (requests & samples & _ & limits & R).
  destruct (decode_one_spec convert lib requests samples output limits plan strides (chunk_input plan) R (ci_chunk ci) ck (s_data s) Hck Hsz) as (st & n & data & Hone & Him).
  assert (Hdec : (if negb (missing ck) && negb (ci_input ci + encoded_bytes ck <=? zlen (w_input w)) then None else Some ()) = Some () /\
    decode_one convert lib (x_output x) (x_strides x) plan ck (take (Z.to_nat (encoded_bytes ck)) (drop (Z.to_nat (ci_input ci)) (w_input w))) (s_data s) = Some (st, n, data)).
  { destruct (ei_fixed _ _ _ E) as (_ & -> & ->). destruct (missing ck) eqn:Hm; cbn [negb andb].
    - split; [done|]. by rewrite (decode_one_missing _ _ _ _ _ (chunk_input plan (ci_chunk ci))).
    - destruct (Hin eq_refl) as (I1 & I2 & I3). rewrite (proj2 (Z.leb_le _ _)) by done. split; [done|]. by rewrite I3. }
  destruct Hdec as [Hb Hdec]. destruct (negb (missing ck) && _); [done|]. rewrite Hdec. cbn [mbind option_bind fst snd].
  destruct (aset (w_results w) j st) as [results|] eqn:Hres; [|rewrite aset_range in Hres; [done|pose proof (Htodo j Hj); lia]]. cbn [mbind option_bind].
  destruct (aset (x_waves x) wi (wave_results w results)) as [ws|] eqn:Hws; [|rewrite aset_range in Hws by (by eapply aget_Some_range); done]. cbn [mbind option_bind].
  destruct (aset (x_slots x) (w_slot w) (slot_data s data)) as [slots|] eqn:Hsl; [|rewrite aset_range in Hsl by (by eapply aget_Some_range); done]. cbn [mbind option_bind].
  eexists. split; [done|]. set (todo := filter (fun k => k <> j) (decode_todo x)). destruct (ei_len _ _ _ E) as (_ & Hl & _).
  destruct (pair_wave _ _ _ Hl Hw) as (k & v & Hk & Hv & Hp & Hp'). assert (Hvn : w_state v <> CPU_DECODING) by (intros Hv'; by apply Hk, (Huniq k v)).
  assert (Hund : forall i, undecoded i todo ws ≡ₚ undecoded_of i todo w ++ undecoded_of i (decode_todo x) v).
  { intros i. unfold undecoded. rewrite (Hp' _ _ _ Hws). by rewrite (undecoded_idle i todo (decode_todo x) v Hvn). }
  assert (Hcar : forall i, carried i (x_waves x) ≡ₚ carried i ws). { intros i. symmetry. by apply (concat_aset_same (carried_of i) _ _ _ _ _ Hw Hws). }
  split; [|apply (keeps_held_aset _ _ _ _ _ _ Hs Hsl); [by rewrite Hss|done]]. destruct E as [F1 F2 F3 F4 F5 F6 F7]. split; cbn.
  - done.
  - rewrite (length_aset _ _ _ _ Hsl), (length_aset _ _ _ _ Hws). done.
  - intros i t Hi. destruct (decide (w_slot w = i)) as [<-|Hne].
    + rewrite (aget_aset_eq _ _ _ _ Hsl) in Hi. injection Hi as <-. split; [cbn; by rewrite (im_len _ _ _ _ Him)|]. cbn. rewrite Hss. split; [done|]. exists plan. split; [done|]. split; [done|].
      destruct Hren as [_ (Ls & order & sts & R2 & R3 & R4 & R5 & R6 & R7 & (data0 & R8 & R8') & R9)]. split; [done|]. exists Ls, (order ++ [ci_chunk ci]), (sts ++ [st]). do 4 (split; [done|]). split_and!.
      * rewrite <-R6. cbn. fold todo. rewrite Hund. unfold undecoded. rewrite Hp. rewrite (undecoded_entry w j ci (w_slot w) (decode_todo x)) by done. fold todo.
        generalize (undecoded_of (w_slot w) todo w) (undecoded_of (w_slot w) (decode_todo x) v) (concat (drop (Z.to_nat (s_dispatched s)) Ls)). intros l1 l2 l3. cbn [app].
        apply Permutation_app_head. rewrite (assoc_L (++)), Permutation_app_comm. cbn [app]. by rewrite <-(assoc_L (++)).
      * cbn. rewrite R7. by rewrite !length_app, (Permutation_length (Hcar _)).
      * exists data0. split; [done|]. by eapply decode_all_snoc.
      * destruct (decide (st = DAMACY_OK)) as [->|Hbad].
        -- destruct R9 as [R9|(wi' & w' & j' & st' & Hd' & Hw' & Hi' & Hjr & Hjn & Hr' & Hb')]; [left; by apply Forall_app_2; [|repeat constructor]|right]. assert (wi' = wi) as -> by congruence. assert (w' = w) as -> by congruence.
           exists wi, (wave_results w results), j', st'. split; [done|]. split; [by eapply aget_aset_eq|]. split; [done|]. split; [done|]. split; [by intros [_ ?]%list_elem_of_filter|]. split; [|done]. cbn.
           rewrite (aget_aset_ne _ _ _ _ _ Hres); [done|congruence].
        -- right. exists wi, (wave_results w results), j, st. split; [done|]. split; [by eapply aget_aset_eq|]. split; [done|]. split; [by apply Htodo|]. split; [by intros [? _]%list_elem_of_filter|]. split; [|done]. by eapply aget_aset_eq.
    + rewrite (aget_aset_ne _ _ _ _ _ Hsl Hne) in Hi. eapply slot_ok_frame; [|apply Hcar| |by apply F3].
      * rewrite Hund. unfold undecoded. rewrite Hp. f_equiv. unfold undecoded_of. by rewrite !decide_False by done.
      * intros (wi' & w' & j' & st' & Hd' & Hw' & Hi' & _). congruence.
  - intros wi' w' Hw'. apply (wave_ok_frame (x_slots x)); [intros _ pl; apply (serves_aset _ _ _ _ _ Hs Hsl); by intros _|].
    destruct (decide (wi = wi')) as [<-|Hne]; [|rewrite (aget_aset_ne _ _ _ _ _ Hws Hne) in Hw'; by apply (F4 wi')]. rewrite (aget_aset_eq _ _ _ _ Hws) in Hw'. injection Hw' as <-.
    split; [done|]. split; [cbn; by rewrite (length_aset _ _ _ _ Hres)|]. intros _. split; [done|]. exists plan. split; [by exists s|]. cbn. by rewrite Hst.
  - exists (wave_results w results). split; [by eapply aget_aset_eq|]. split; [done|]. split; [|split; [by apply NoDup_filter|split]].
    + intros wi' w' Hw' Hst'. destruct (decide (wi = wi')) as [<-|Hne]; [done|]. rewrite (aget_aset_ne _ _ _ _ _ Hws Hne) in Hw'. by apply (Huniq wi' w').
    + intros j' [_ Hj']%list_elem_of_filter. cbn. by apply Htodo.
    + intros Hf. unfold todo. by rewrite (Hfin Hf).
  - split; [apply F6|]. rewrite (renders_ids _ _ _ _ _ Hs Hsl) by done. apply F6.
  - rewrite (committed_aset _ _ _ _ _ _ Hs Hsl). cbn. lia.
Qed.

(** ** Dispatch *)

Lemma dispatch_inv submit x subs taken wi w : exec_inv x subs taken -> aget (x_waves x) wi = Some w -> w_state w = CPU_INPUT_FREE ->
  exists st x' c, cpu_dispatch submit x wi = Some (st, x', c) /\ after x x' subs taken.
Proof.
  intros E Hw Hst. unfold cpu_dispatch. destruct (oldest dispatchable (x_slots x) 0 None) as [[i s]|] eqn:Ho; [|by eexists _, _, _].
  destruct (oldest_some _ _ _ _ Ho) as (Hi & Hdis & _). unfold dispatchable in Hdis. apply andb_true_iff in Hdis as [Hss%bool_decide_eq_true Hlt%Z.ltb_lt].
  rewrite Hw. cbn [mbind option_bind]. destruct (ei_slots _ _ _ E i s Hi) as [Hsz Hok]. rewrite Hss in Hok. destruct Hok as (Href & plan & Hsub & Hgood & [Rp (Ls & order & sts & R2 & R3 & R4 & R5 & R6 & R7 & R8 & R9)]).
  pose proof Hgood as (requests & samples & [Hcn Hcr] & _). destruct (ei_waves _ _ _ E wi w Hw) as (W1 & W2 & _). destruct (ei_len _ _ _ E) as (_ & Hl & Hfl). destruct (ei_fixed _ _ _ E) as (-> & _).
  destruct (dispatch_loop_spec file config (x_inflight x) plan (s_read_plan s) Ls (w_input w) (s_dispatched s)) with (fuel := Z.to_nat (rp_count (s_read_plan s))) (next_read := s_dispatched s) (cis := @nil cpu_chunk_input) (reads := @nil store_read) (bytes := 0)
    as (next & cis & reads & bytes & -> & P & Hmon & Hprog); [lia|done|done|done|done|lia| | |lia|].
  { eapply Forall_impl; [exact Hcr|]. intros ck [_ Hck]. destruct (missing ck); lia. }
  { split; [lia| |cbn; nia|]. - rewrite skipn_firstn_comm, Nat.sub_diag. done. - exists (w_input w). split; [done|]. split; [done|]. constructor. }
  cbn [mbind option_bind]. case_bool_decide; cbn [negb]; [|by eexists _, _, _]. pose proof (pk_next _ _ _ _ _ _ _ _ _ _ _ P) as Pn. specialize (Hprog eq_refl eq_refl eq_refl Hlt).
  pose proof (pk_room _ _ _ _ _ _ _ _ _ _ _ P) as (Pr & _). pose proof (pk_chunks _ _ _ _ _ _ _ _ _ _ _ P) as Pc. destruct (pk_data _ _ _ _ _ _ _ _ _ _ _ P) as (data & Pf & Pl & Pin).
  set (w' := Wave CPU_READING reads cis (w_input w) (w_results w) i bytes (x_next_wave x) true).
  destruct (aset (x_waves x) wi w') as [ws|] eqn:Hws; [|rewrite aset_range in Hws by (by eapply aget_Some_range); done]. cbn [mbind option_bind].
  destruct (aset (x_slots x) i (slot_dispatched s next)) as [slots|] eqn:Hsl; [|rewrite aset_range in Hsl by (by eapply aget_Some_range); done]. cbn [mbind option_bind].
  eexists _, _, _. split; [done|]. destruct (decode_ok_aset _ _ _ _ w' _ _ _ Hw Hws ltac:(by rewrite Hst) ltac:(done) (ei_decode _ _ _ E)) as [Hdec Hnd].
  assert (Hcut : concat (drop (Z.to_nat (s_dispatched s)) Ls) = (ci_chunk <$> cis) ++ concat (drop (Z.to_nat next) Ls)).
  { rewrite Pc, <-concat_app. f_equal. rewrite <-drop_app_le by (rewrite length_take; lia). by rewrite take_drop. }
  assert (Hsome : 0 < zlen cis).
  { destruct (aget_is_Some Ls (s_dispatched s) ltac:(lia)) as [l Hl']. destruct (rd_some _ _ _ _ _ (R4 _ _ Hl')) as [Hne _]. destruct l as [|c0 l]; [done|].
    assert (Hin : c0 ∈ ci_chunk <$> cis). { rewrite Pc. apply (elem_of_concat_aget _ _ 0 (c0 :: l)); [|set_solver]. apply aget_lookup in Hl' as [_ Hl']. apply aget_lookup. split; [lia|]. rewrite lookup_drop, lookup_take_lt by lia. by rewrite Nat.add_0_r. }
    destruct cis; [by apply not_elem_of_nil in Hin|cbn; lia]. }
  assert (Hund : forall k, undecoded k (decode_todo x) ws ≡ₚ (if decide (i = k) then ci_chunk <$> cis else []) ++ undecoded k (decode_todo x) (x_waves x)).
  { intros k. destruct (concat_aset (undecoded_of k (decode_todo x)) _ _ _ _ _ Hw Hws) as (rest & H1 & H2). unfold undecoded. rewrite H1, H2. unfold undecoded_of. cbn. rewrite Hst. by repeat case_decide. }
  assert (Hcar : forall k, carried k ws ≡ₚ (if decide (i = k) then ci_chunk <$> cis else []) ++ carried k (x_waves x)).
  { intros k. destruct (concat_aset (carried_of k) _ _ _ _ _ Hw Hws) as (rest & H1 & H2). unfold carried. rewrite H1, H2. unfold carried_of. cbn. rewrite Hst. by repeat case_decide. }
  split; [|apply (keeps_held_aset _ _ _ _ _ _ Hi Hsl); [by rewrite Hss|done]]. destruct E as [F1 F2 F3 F4 F5 F6 F7]. split; cbn.
  - done.
  - rewrite (length_aset _ _ _ _ Hsl), (length_aset _ _ _ _ Hws). done.
  - intros k t Hk. destruct (decide (i = k)) as [<-|Hne].
    + rewrite (aget_aset_eq _ _ _ _ Hsl) in Hk. injection Hk as <-. split; [done|]. cbn. rewrite Hss. split; [done|]. exists plan. split; [done|]. split; [done|]. split; [done|].
      exists Ls, order, sts. do 3 (split; [done|]). split; [cbn; lia|]. cbn. split_and!.
      * rewrite <-R6, Hund, decide_True, Hcut by done. rewrite !(assoc_L (++)). do 2 f_equiv. apply Permutation_app_comm.
      * rewrite R7. rewrite !length_app, (Permutation_length (Hcar i)), decide_True, Hcut, !length_app by done. lia.
      * done.
      * destruct R9; [by left|right; by eapply failed_aset].
    + rewrite (aget_aset_ne _ _ _ _ _ Hsl Hne) in Hk. eapply slot_ok_frame; [| | |by apply (F3 k t)].
      * rewrite Hund, decide_False by done. done.
      * rewrite Hcar, decide_False by done. done.
      * by eapply failed_aset.
  - intros wi' v Hv. apply (wave_ok_frame (x_slots x)); [intros _ pl; apply (serves_aset _ _ _ _ _ Hi Hsl); by intros _|].
    destruct (decide (wi = wi')) as [<-|Hne]; [|rewrite (aget_aset_ne _ _ _ _ _ Hws Hne) in Hv; by apply (F4 wi')]. rewrite (aget_aset_eq _ _ _ _ Hws) in Hv. injection Hv as <-.
    split; [done|]. split; [done|]. intros _. split; [cbn; lia|]. exists plan. split; [by exists s|]. intros _. exists data. split; [done|]. split; [done|].
    eapply Forall_impl; [exact Pin|]. intros ci (ck & Hck & Hin). exists ck. split; [done|]. intros Hm. destruct (Hin Hm) as (? & ? & ?). split; [done|]. split; [|done]. pose proof (pk_room _ _ _ _ _ _ _ _ _ _ _ P). cbn. lia.
  - done.
  - split; [apply F6|]. rewrite (renders_ids _ _ _ _ _ Hi Hsl) by done. apply F6.
  - rewrite (committed_aset _ _ _ _ _ _ Hi Hsl). cbn. lia.
Qed.

Lemma dispatch_waves_inv submit n x subs taken wi changed : exec_inv x subs taken -> 0 <= wi -> wi + Z.of_nat n <= 2 ->
  exists st x' c, dispatch_waves n submit x wi changed = Some (st, x', c) /\ after x x' subs taken.
Proof.
  revert x wi changed. induction n as [|n IH]; intros x wi changed E H0 Hn; cbn [dispatch_waves]; [by eexists _, _, _|].
  destruct (ei_len _ _ _ E) as (_ & Hl & _). destruct (aget_is_Some (x_waves x) wi ltac:(lia)) as [w Hw]. rewrite Hw. cbn [mbind option_bind].
  case_bool_decide as Hst; [|apply IH; [done|lia|lia]]. destruct (dispatch_inv (submit wi) x subs taken wi w E Hw Hst) as (st & x' & c & -> & E'). cbn [mbind option_bind].
  destruct (_ && _); [by eexists _, _, _|]. destruct (IH x' (wi + 1) (changed || c) (proj1 E') ltac:(lia) ltac:(lia)) as (st2 & x2 & c2 & -> & Ha). exists st2, x2, c2. split; [done|]. by eapply after_trans, Ha; apply E'.
Qed.

(** ** Collect *)

Lemma first_failure_spec n results j : 0 <= j -> j + Z.of_nat n <= zlen results -> exists f, first_failure n results j = Some f /\
  (f = None -> forall k, j <= k < j + Z.of_nat n -> aget results k = Some DAMACY_OK).
Proof.
  revert j. induction n as [|n IH]; intros j Hj Hn; cbn [first_failure]; [exists None; split; [done|lia]|].
  destruct (aget_is_Some results j ltac:(lia)) as [st Hst]. rewrite Hst. cbn [mbind option_bind]. case_bool_decide as Hok; [|by eexists].
  destruct (IH (j + 1) ltac:(lia) ltac:(lia)) as (f & -> & Hf). exists f. split; [done|]. intros Hn' k Hk. destruct (decide (k = j)) as [->|]; [by rewrite Hst, Hok|]. apply Hf; [done|lia].
Qed.

Lemma slot_bytes x subs taken i s : exec_inv x subs taken -> aget (x_slots x) i = Some s -> 0 <= rp_bytes (s_read_plan s).
Proof. intros E Hi. destruct (ei_slots _ _ _ E i s Hi) as [_ Hok]. destruct (s_state s); [| |destruct Hok as (_ & -> & _); done..]; [destruct Hok as (_ & ->); done|by destruct Hok as [(_ & ? & _) _]]. Qed.

Lemma other_slots x subs taken i s : exec_inv x subs taken -> aget (x_slots x) i = Some s -> base + rp_bytes (s_read_plan s) <= x_committed x.
Proof.
  intros E Hi. destruct (ei_committed _ _ _ E) as [-> _]. apply aget_lookup in Hi as [_ Hi]. rewrite (zsum_perm _ _ (Permutation_map (fun s => rp_bytes (s_read_plan s)) (delete_Permutation _ _ _ Hi))). cbn.
  assert (Hall : Forall (fun s => 0 <= rp_bytes (s_read_plan s)) (delete (Z.to_nat i) (x_slots x))).
  { apply Forall_forall. intros t Ht. assert (Hin : t ∈ x_slots x) by (rewrite (delete_Permutation _ _ _ Hi); set_solver). apply elem_of_aget in Hin as [k Hk]. by eapply slot_bytes. }
  assert (0 <= zsum (map (fun s => rp_bytes (s_read_plan s)) (delete (Z.to_nat i) (x_slots x)))); [|unfold zsum in *; lia]. induction Hall; cbn; [lia|unfold zsum in *; lia].
Qed.

(** The wave [wi] is given back. *)
Lemma collect_inv x subs taken : exec_inv x subs taken -> exists st x' c, cpu_collect x = Some (st, x', c) /\ after x x' subs taken.
Proof.
  intros E. unfold cpu_collect. destruct (x_decoding x) as [wi|] eqn:Hd; [|by eexists _, _, _]. destruct (x_done x) eqn:Hfin; cbn [negb]; [|by eexists _, _, _].
  pose proof (ei_decode _ _ _ E) as HD. rewrite Hd, Hfin in HD. destruct HD as (w & Hw & Hst & Huniq & _ & _ & Htodo). specialize (Htodo eq_refl).
  rewrite Hw. cbn [mbind option_bind]. destruct (ei_waves _ _ _ E wi w Hw) as (W1 & W2 & W3). rewrite Hst in W3. destruct (W3 ltac:(done)) as (Wn & plan & (s & Hs & Hss & Hsp) & _).
  rewrite Hs. cbn [mbind option_bind]. destruct (first_failure_spec (length (w_chunks w)) (w_results w) 0) as (f & -> & Hf); [lia|lia|]. cbn [mbind option_bind].
  destruct f as [st|]; [by eexists _, _, _|]. specialize (Hf eq_refl).
  destruct (aset (x_waves x) wi (wave_state w CPU_INPUT_FREE)) as [ws|] eqn:Hws; [|rewrite aset_range in Hws by (by eapply aget_Some_range); done]. cbn [mbind option_bind].
  destruct (ei_len _ _ _ E) as (_ & Hl & _). destruct (pair_wave _ _ _ Hl Hw) as (k & v & Hk & Hv & Hp & Hp'). assert (Hvn : w_state v <> CPU_DECODING) by (intros Hv'; by apply Hk, (Huniq k v)).
  destruct (ei_slots _ _ _ E _ s Hs) as [Hsz Hok]. rewrite Hss in Hok. destruct Hok as (Href & plan' & Hsub & Hgood & Hren). assert (plan' = plan) as -> by (pose proof (rn_plan _ _ _ _ _ Hren); congruence).
  destruct Hren as [_ (Ls & order & sts & R2 & R3 & R4 & R5 & R6 & R7 & R8 & R9)]. set (rest := concat (drop (Z.to_nat (s_dispatched s)) Ls)) in *.
  assert (Hund : forall i, undecoded i (decode_todo x) (x_waves x) ≡ₚ carried_of i v). 
  { intros i. unfold undecoded. rewrite Hp, Htodo. unfold undecoded_of at 1. rewrite Hst. cbn. case_decide; cbn [app]; unfold undecoded_of, carried_of; by destruct (w_state v). }
  assert (Hcar : forall i, carried i (x_waves x) ≡ₚ (if decide (w_slot w = i) then ci_chunk <$> w_chunks w else []) ++ carried_of i v).
  { intros i. unfold carried. rewrite Hp. unfold carried_of at 1. by rewrite Hst. }
  assert (Hund' : forall i, undecoded i (decode_todo x) ws ≡ₚ carried_of i v).
  { intros i. unfold undecoded. rewrite (Hp' _ _ _ Hws). unfold undecoded_of at 1. cbn. case_decide; cbn [app]; unfold undecoded_of, carried_of; by destruct (w_state v). }
  assert (Hcar' : forall i, carried i ws ≡ₚ carried_of i v). { intros i. unfold carried. rewrite (Hp' _ _ _ Hws). unfold carried_of at 1. cbn. by case_decide. }
  assert (Hall : Forall (eq DAMACY_OK) sts).
  { destruct R9 as [?|(wi' & w' & j & st & Hd' & Hw' & _ & Hj & _ & Hr & Hbad)]; [done|]. exfalso. assert (w' = w) as -> by congruence. rewrite Hf in Hr by lia. congruence. }
  assert (Hrem : u32 (s_remaining s - zlen (w_chunks w)) = zlen (rest ++ carried_of (w_slot w) v)).
  { rewrite R7. rewrite !length_app, (Permutation_length (Hcar (w_slot w))), decide_True, !length_app, length_fmap by done. rewrite u32_id; [lia|].
    rewrite Hund in R6. apply Permutation_length in R6. rewrite !length_app, length_seqZ in R6. destruct Hgood as (_ & _ & [Hcn _] & _). clia. }
  assert (Hgen : forall s' c slots, aset (x_slots x) (w_slot w) s' = Some slots ->
    slot_ok subs (carried_of (w_slot w) v) (carried_of (w_slot w) v) False s' -> (carried_of (w_slot w) v <> [] -> s_state s' = CPU_RENDERING /\ s_plan s' = Some plan) ->
    renders s' = true -> s_batch_id s' = s_batch_id s -> rp_bytes (s_read_plan s') = rp_bytes (s_read_plan s) - (x_committed x - c) -> 0 <= c <= x_committed x ->
    after x (set_slots (set_committed (set_decode (set_waves x ws) None (x_done x) (decode_todo x)) c) slots) subs taken).
  { intros s' c slots Hsl Hok' Hkeep Hrs Hbi Hrb Hc. split; [|apply (keeps_held_aset _ _ _ _ _ _ Hs Hsl); [by rewrite Hss|done]]. destruct E as [F1 F2 F3 F4 F5 F6 F7]. split; cbn.
    - done.
    - rewrite (length_aset _ _ _ _ Hsl), (length_aset _ _ _ _ Hws). done.
    - intros i t Hi. destruct (decide (w_slot w = i)) as [<-|Hne].
      + rewrite (aget_aset_eq _ _ _ _ Hsl) in Hi. injection Hi as <-. eapply slot_ok_frame; [symmetry; apply Hund'|symmetry; apply Hcar'| |exact Hok']. done.
      + rewrite (aget_aset_ne _ _ _ _ _ Hsl Hne) in Hi. eapply slot_ok_frame; [| | |by apply (F3 i t)].
        * by rewrite Hund, Hund'.
        * rewrite Hcar, Hcar', decide_False by done. done.
        * intros (wi' & w' & j & st & Hd' & Hw' & Hi' & _). congruence.
    - intros wi' w' Hw'. destruct (decide (wi = wi')) as [<-|Hne].
      { rewrite (aget_aset_eq _ _ _ _ Hws) in Hw'. injection Hw' as <-. split; [done|]. split; [done|]. done. }
      rewrite (aget_aset_ne _ _ _ _ _ Hws Hne) in Hw'. assert (w' = v) as ->.
      { assert (wi' = k); [|congruence]. pose proof (aget_Some_range _ _ _ Hw). pose proof (aget_Some_range _ _ _ Hw'). pose proof (aget_Some_range _ _ _ Hv). lia. }
      eapply wave_ok_frame; [|by apply (F4 wi')]. intros Hvs pl (t & Ht & Hts & Htp). destruct (decide (w_slot w = w_slot v)) as [Heq|Hn'].
      + exists s'. rewrite <-Heq. split; [by eapply aget_aset_eq|]. rewrite <-Heq, Hs in Ht. injection Ht as <-. rewrite <-Htp, Hsp. apply Hkeep. unfold carried_of. rewrite decide_True by done.
        destruct (F4 wi' v Hw') as (_ & _ & H3). destruct (H3 Hvs) as ([Hpos _] & _). destruct (w_chunks v); [done|]. by destruct (w_state v).
      + exists t. split; [by rewrite (aget_aset_ne _ _ _ _ _ Hsl Hn')|done].
    - intros wi' w' Hw' Hst'. destruct (decide (wi = wi')) as [<-|Hne]; [rewrite (aget_aset_eq _ _ _ _ Hws) in Hw'; by injection Hw' as <-|]. rewrite (aget_aset_ne _ _ _ _ _ Hws Hne) in Hw'. by apply Hne, eq_sym, (Huniq wi' w').
    - split; [apply F6|]. rewrite (renders_ids _ _ _ _ _ Hs Hsl); [apply F6| |done]. unfold renders at 2. by rewrite Hss.
    - rewrite (committed_aset _ _ _ _ _ _ Hs Hsl), Hrb. lia. }
  rewrite Hfin in Hgen. cbn [s_remaining slot_remaining]. rewrite Hrem. destruct (Z.eqb_spec (zlen (rest ++ carried_of (w_slot w) v)) 0) as [Hz|Hz].
  - assert (rest = [] /\ carried_of (w_slot w) v = []) as [Hr0 Hc0]. { destruct rest; [|done]. by destruct (carried_of (w_slot w) v). }
    destruct (aset (x_slots x) (w_slot w) (slot_finish (slot_remaining s (u32 (s_remaining s - zlen (w_chunks w)))))) as [slots|] eqn:Hsl; [|rewrite aset_range in Hsl by (by eapply aget_Some_range); done].
    rewrite <-Hrem. change (x_slots (set_decode (set_waves x ws) None true (decode_todo x))) with (x_slots x). rewrite Hsl. cbn [mbind option_bind]. eexists _, _, _. split; [done|]. pose proof (other_slots _ _ _ _ _ E Hs) as Hcm. pose proof (slot_bytes _ _ _ _ _ E Hs). pose proof (ei_committed _ _ _ E) as [_ Hcm'].
    cbn [s_read_plan slot_remaining x_committed set_decode set_waves]. rewrite u64_id by clia. apply (Hgen _ _ _ Hsl); try done; cbn; try lia.
    split; [done|]. cbn. split; [apply Href|]. split; [done|]. exists plan. split; [done|]. exists order, sts. split; [|done]. by rewrite Hr0, Hund, Hc0 in R6.
  - destruct (aset (x_slots x) (w_slot w) (slot_remaining s (u32 (s_remaining s - zlen (w_chunks w))))) as [slots|] eqn:Hsl; [|rewrite aset_range in Hsl by (by eapply aget_Some_range); done].
    rewrite <-Hrem. change (x_slots (set_decode (set_waves x ws) None true (decode_todo x))) with (x_slots x). rewrite Hsl. cbn [mbind option_bind]. eexists _, _, _. split; [done|]. pose proof (ei_committed _ _ _ E) as [_ Hcm'].
    apply (Hgen _ (x_committed x) _ Hsl); try done; cbn; try lia; [|by unfold renders; cbn; rewrite Hss].
    split; [done|]. cbn. rewrite Hss, Hrem. split; [split; [apply Href|]; split; [apply Href|lia]|]. exists plan. split; [done|]. split; [done|]. split; [done|]. exists Ls, order, sts. cbn. rewrite ?Hrem. do 4 (split; [done|]). split_and!; [by rewrite Hund in R6|done|done|by left].
Qed.

(** ** Submit and step *)

Lemma first_free_spec (l : list cpu_slot) (i k : Z) : first_free l i = Some k -> exists s, aget l (k - i) = Some s /\ s_state s = CPU_FREE.
Proof.
  revert i. induction l as [|s l IH]; intros i; cbn [first_free]; [done|]. case_decide as Hs; [intros [= <-]; exists s; by rewrite Z.sub_diag|].
  intros (t & Ht & Hst)%IH. exists t. split; [|done]. apply aget_lookup in Ht as [H0 Ht]. apply aget_lookup. split; [lia|]. by replace (Z.to_nat (k - i)) with (S (Z.to_nat (k - (i + 1)))) by lia.
Qed.

Lemma submit_check_spec plan cks : (forall ck, ck ∈ cks -> exists arr, aget (arrays plan) (array ck) = Some arr) ->
  exists st, submit_check config plan cks = Some st /\ (st = DAMACY_OK -> Forall (fun ck => encoded_bytes ck <= max_encoded_chunk_bytes config) cks).
Proof.
  induction cks as [|ck cks IH]; intros Ha; cbn [submit_check]; [by eexists|]. destruct (_ || _) eqn:Hb; [by eexists|]. apply orb_false_iff in Hb as [Hb _]. apply Z.ltb_ge in Hb.
  destruct (Ha ck) as [arr ->]; [set_solver|]. cbn [mbind option_bind]. destruct (_ && _); [by eexists|]. destruct IH as (st & -> & Hst); [intros c Hc; apply Ha; set_solver|].
  exists st. split; [done|]. intros Hok. constructor; auto.
Qed.

Lemma slot_ok_subs subs plan L C F s : slot_ok subs L C F s -> slot_ok (subs ++ [plan]) L C F s.
Proof.
  assert (Happ : forall i p, aget subs i = Some p -> aget (subs ++ [plan]) i = Some p). { intros i p [Hi Hp]%aget_lookup. apply aget_lookup. split; [done|]. by apply lookup_app_l_Some. }
  intros [H0 H1]. split; [done|]. destruct (s_state s).
  - done.
  - destruct H1 as (? & p & Hp & ?). split; [done|]. exists p. auto.
  - destruct H1 as (? & ? & p & Hp & ?). split; [done|]. split; [done|]. exists p. auto.
  - destruct H1 as (? & ? & p & Hp & ?). split; [done|]. split; [done|]. exists p. auto.
Qed.

Lemma submit_inv malloc x subs taken plan : exec_inv x subs taken -> (forall p, plan = Some p -> 0 < zlen (chunks p) -> plan_good p) ->
  exists st x', cpu_submit malloc x plan (zlen subs) = Some (st, x') /\
    if decide (st = DAMACY_OK) then exists p, plan = Some p /\ after x x' (subs ++ [p]) taken else x' = x.
Proof.
  intros E Hgood. unfold cpu_submit. destruct (first_free (x_slots x) 0) as [i|] eqn:Hff; [|by eexists _, _]. destruct (first_free_spec _ _ _ Hff) as (s & Hi & Hst). rewrite Z.sub_0_r in Hi.
  destruct plan as [plan|]; [|by eexists _, _]. destruct (Z.eqb_spec (zlen (chunks plan)) 0) as [|Hne]; [by eexists _, _|]. pose proof (Hgood plan eq_refl ltac:(lia)) as Hpg.
  pose proof Hpg as (requests & samples & Hck & limits & R). destruct (ei_fixed _ _ _ E) as (-> & _).
  destruct (submit_check_spec plan (chunks plan)) as (st & -> & Henc); [intros ck Hin; by eapply (chunk_has_array requests samples output limits plan strides _ R)|]. cbn [mbind option_bind].
  case_bool_decide as Hok; cbn [negb]; [|by eexists _, _; split; [done|]; rewrite decide_False]. specialize (Henc Hok). rewrite Hi. cbn [mbind option_bind].
  destruct (ei_len _ _ _ E) as (Hl & _ & _). destruct (aget_is_Some (x_slots x) 0 ltac:(lia)) as [s0 ->]. destruct (aget_is_Some (x_slots x) 1 ltac:(lia)) as [s1 ->]. cbn [mbind option_bind].
  pose proof (ei_committed _ _ _ E) as [Hcm Hcm']. rewrite (u64_id (max_memory_bytes config - x_committed x)) by clia.
  destruct (read_plan_build_spec malloc plan config (max_memory_bytes config - x_committed x) (u64 (rp_bytes (s_read_plan s0) + rp_bytes (s_read_plan s1)))) as (r & -> & Hrp); [done|lia|clia|done|].
  cbn [mbind option_bind]. destruct r as [st'|rp]; [by eexists _, _; split; [done|]; rewrite decide_False|]. destruct Hrp as [[Hc Hreads Hb] Hav].
  set (s' := Slot CPU_RENDERING (s_refs s) (s_data s) (Some plan) rp (zlen subs) 0 (zlen (chunks plan))).
  destruct (aset (x_slots x) i s') as [slots|] eqn:Hsl; [|rewrite aset_range in Hsl by (by eapply aget_Some_range); done]. cbn [mbind option_bind]. eexists _, _. split; [done|].
  rewrite decide_True by done. exists plan. split; [done|]. destruct (idle_lists (x_waves x) i (decode_todo x)) as [Hund Hcar]; [apply (slot_idle _ _ _ _ _ E Hi); by rewrite Hst|].
  destruct (ei_slots _ _ _ E i s Hi) as [Hsz Hfree]. rewrite Hst in Hfree. destruct Hfree as [Href Hzero]. assert (0 <= rp_bytes rp) by (rewrite Hb; unfold sizeof_read_op, sizeof_cpu_chunk_read; lia).
  destruct Hreads as (Ls & L1 & L2 & L3). destruct E as [F1 F2 F3 F4 F5 F6 F7]. rewrite u64_id by clia. split; [|apply (keeps_held_aset _ _ _ _ _ _ Hi Hsl); [by rewrite Hst|done]]. split; cbn.
  - done.
  - rewrite (length_aset _ _ _ _ Hsl). done.
  - intros k t Hk. destruct (decide (i = k)) as [<-|Hn].
    + rewrite (aget_aset_eq _ _ _ _ Hsl) in Hk. injection Hk as <-. split; [done|]. cbn. split; [split; [done|]; split; [done|lia]|]. exists plan. split; [apply aget_middle|]. split; [done|]. split; [done|].
      exists Ls, [], []. cbn. rewrite Hund, Hcar. split; [done|]. split; [lia|]. split; [done|]. split; [lia|]. rewrite drop_0, !app_nil_r. split; [done|]. split; [by rewrite (Permutation_length L2), length_seqZ; lia|].
      split; [by exists (s_data s)|]. left. constructor.
    + rewrite (aget_aset_ne _ _ _ _ _ Hsl Hn) in Hk. by apply slot_ok_subs, (F3 k).
  - intros wi w Hw. eapply wave_ok_frame; [|by apply (F4 wi)]. intros _ pl. apply (serves_aset _ _ _ _ _ Hi Hsl). by rewrite Hst.
  - done.
  - destruct F6 as [Ht Hids]. rewrite length_app, Nat2Z.inj_add. cbn [length]. change (Z.of_nat 1) with 1. split; [lia|]. destruct (aset_delete _ _ _ _ _ Hi Hsl) as (rest & D1 & D2). rewrite D2, filter_cons_True by done. csimpl.
    rewrite D1, filter_cons_False in Hids by (unfold renders; by rewrite Hst). rewrite Hids. replace (zlen subs + 1 - taken) with ((zlen subs - taken) + 1) by lia. rewrite seqZ_app by lia.
    replace (taken + (zlen subs - taken)) with (zlen subs) by lia. rewrite (seqZ_cons (zlen subs) 1) by lia. rewrite (seqZ_nil (Z.succ (zlen subs)) (Z.pred 1)) by lia. apply Permutation_cons_append.
  - rewrite (committed_aset _ _ _ _ _ _ Hi Hsl), Hzero. cbn. lia.
Qed.

(** ** Events *)

Lemma collect_events x st x' c : events_set (x_waves x) -> cpu_collect x = Some (st, x', c) -> events_set (x_waves x').
Proof.
  intros Hs. unfold cpu_collect. destruct (x_decoding x) as [wi|]; [|by intros [= _ <- _]]. destruct (x_done x); cbn [negb]; [|by intros [= _ <- _]].
  destruct (aget (x_waves x) wi) as [w|]; [|done]. cbn [mbind option_bind]. destruct (aget (x_slots x) _) as [s|]; [|done]. cbn [mbind option_bind].
  destruct (first_failure _ _ _) as [[f|]|]; [by intros [= _ <- _]|cbn [mbind option_bind]|done]. destruct (aset (x_waves x) _ _) as [ws|] eqn:Ha; [|done]. cbn [mbind option_bind]. pose proof (events_set_aset _ _ _ _ Hs Ha ltac:(done)).
  destruct (_ =? 0); (destruct (aset (x_slots _) _ _); [|done]); by intros [= _ <- _].
Qed.
Lemma dispatch_events submit x wi st x' c : events_set (x_waves x) -> cpu_dispatch submit x wi = Some (st, x', c) -> events_set (x_waves x').
Proof.
  intros Hs. unfold cpu_dispatch. destruct (oldest _ _ _ _) as [[i s]|]; [|by intros [= _ <- _]]. destruct (aget (x_waves x) wi) as [w|]; [|done]. cbn [mbind option_bind].
  destruct (dispatch_loop _ _ _ _ _ _ _ _) as [[[[next cis] reads] bytes]|]; [|done]. cbn [mbind option_bind]. case_bool_decide; cbn [negb]; [|by intros [= _ <- _]].
  destruct (aset (x_waves x) _ _) eqn:Ha; [|done]. cbn [mbind option_bind]. destruct (aset (x_slots x) _ _); [|done]. intros [= _ <- _]. by eapply events_set_aset.
Qed.
Lemma dispatch_waves_events submit n x wi c st x' c' : events_set (x_waves x) -> dispatch_waves n submit x wi c = Some (st, x', c') -> events_set (x_waves x').
Proof.
  revert x wi c. induction n as [|n IH]; intros x wi c Hs; cbn [dispatch_waves]; [by intros [= _ <- _]|]. destruct (aget (x_waves x) wi) as [w|]; [|done]. cbn [mbind option_bind].
  case_bool_decide; [|by apply IH]. destruct (cpu_dispatch _ _ _) as [[[st1 x1] c1]|] eqn:Ed; [|done]. cbn [mbind option_bind]. apply (dispatch_events _ _ _ _ _ _ Hs) in Ed. destruct (_ && _); [by intros [= _ <- _]|by apply IH].
Qed.
Lemma start_decode_events x c st x' c' : events_set (x_waves x) -> start_decode x c = Some (st, x', c') -> events_set (x_waves x').
Proof.
  intros Hs. unfold start_decode. destruct (x_decoding x); [by intros [= _ <- _]|]. destruct (next_ready _ _ _) as [[wi w]|]; [|by intros [= _ <- _]].
  destruct (aset _ _ _) eqn:Ha; [|done]. intros [= _ <- _]. by eapply events_set_aset.
Qed.
Lemma decode_entry_events x j x' : events_set (x_waves x) -> decode_entry convert lib x j = Some x' -> events_set (x_waves x').
Proof.
  intros Hs. unfold decode_entry. destruct (x_decoding x) as [wi|]; [|done]. cbn [mbind option_bind]. destruct (aget (x_waves x) wi) as [w|] eqn:Hw; [|done]. cbn [mbind option_bind].
  destruct (aget (x_slots x) _); [|done]. cbn [mbind option_bind]. destruct (s_plan _); [|done]. cbn [mbind option_bind]. destruct (aget (w_chunks w) j); [|done]. cbn [mbind option_bind].
  destruct (aget (chunks _) _); [|done]. cbn [mbind option_bind]. cbv zeta. destruct (negb _ && negb _); [done|]. destruct (decode_one _ _ _ _ _ _ _ _); [|done]. cbn [mbind option_bind].
  destruct (aset (w_results w) _ _); [|done]. cbn [mbind option_bind]. destruct (aset (x_waves x) _ _) eqn:Ha; [|done]. cbn [mbind option_bind]. destruct (aset (x_slots x) _ _); [|done]. intros [= <-].
  eapply events_set_aset; [exact Hs|exact Ha|]. cbn. by apply (Hs wi).
Qed.

(** ** References *)

(** The references of the buffers. Only [cpu_take] and the clients change them. *)
Notation refs_of x := (map s_refs (x_slots x)).

Lemma map_aset_same {A B} (f : A -> B) l l' i v w : aget l i = Some v -> aset l i w = Some l' -> f w = f v -> map f l' = map f l.
Proof.
  intros Hv Hs E. apply aget_lookup in Hv as [Hi Hv]. pose proof (lookup_lt_Some _ _ _ Hv). rewrite aset_range in Hs by lia. injection Hs as <-. change (f <$> <[Z.to_nat i:=w]> l = f <$> l).
  rewrite list_fmap_insert, E. apply list_insert_id. by rewrite list_lookup_fmap, Hv.
Qed.
Lemma collect_refs x st x' c : cpu_collect x = Some (st, x', c) -> refs_of x' = refs_of x.
Proof.
  unfold cpu_collect. destruct (x_decoding x) as [wi|]; [|by intros [= _ <- _]]. destruct (x_done x); cbn [negb]; [|by intros [= _ <- _]].
  destruct (aget (x_waves x) wi) as [w|]; [|done]. cbn [mbind option_bind]. destruct (aget (x_slots x) (w_slot w)) as [s|] eqn:Hs; [|done]. cbn [mbind option_bind].
  destruct (first_failure _ _ _) as [[f|]|]; [by intros [= _ <- _]|cbn [mbind option_bind]|done]. destruct (aset (x_waves x) _ _) as [ws|]; [|done]. cbn [mbind option_bind].
  destruct (_ =? 0); (destruct (aset (x_slots _) _ _) eqn:Ha; [|done]); intros [= _ <- _]; by apply (map_aset_same s_refs _ _ _ _ _ Hs Ha).
Qed.
Lemma free_held_refs x : refs_of (set_slots x (map free_held (x_slots x))) = refs_of x.
Proof. cbn. rewrite map_map. apply map_ext. intros s. unfold free_held. by destruct (_ && _). Qed.
Lemma dispatch_refs submit x wi st x' c : cpu_dispatch submit x wi = Some (st, x', c) -> refs_of x' = refs_of x.
Proof.
  unfold cpu_dispatch. destruct (oldest _ _ _ _) as [[i s]|] eqn:Ho; [|by intros [= _ <- _]]. destruct (oldest_some _ _ _ _ Ho) as (Hs & _). destruct (aget (x_waves x) wi) as [w|]; [|done]. cbn [mbind option_bind].
  destruct (dispatch_loop _ _ _ _ _ _ _ _) as [[[[next cis] reads] bytes]|]; [|done]. cbn [mbind option_bind]. case_bool_decide; cbn [negb]; [|by intros [= _ <- _]].
  destruct (aset (x_waves x) _ _); [|done]. cbn [mbind option_bind]. destruct (aset (x_slots x) _ _) eqn:Ha; [|done]. intros [= _ <- _]. by apply (map_aset_same s_refs _ _ _ _ _ Hs Ha).
Qed.
Lemma dispatch_waves_refs submit n x wi c st x' c' : dispatch_waves n submit x wi c = Some (st, x', c') -> refs_of x' = refs_of x.
Proof.
  revert x wi c. induction n as [|n IH]; intros x wi c; cbn [dispatch_waves]; [by intros [= _ <- _]|]. destruct (aget (x_waves x) wi) as [w|]; [|done]. cbn [mbind option_bind].
  case_bool_decide; [|by apply IH]. destruct (cpu_dispatch _ _ _) as [[[st1 x1] c1]|] eqn:Ed; [|done]. cbn [mbind option_bind]. apply dispatch_refs in Ed. rewrite <-Ed. destruct (_ && _); [by intros [= _ <- _]|by apply IH].
Qed.
Lemma poll_waves_refs poll n x wi c st x' c' : poll_waves file n poll x wi c = Some (st, x', c') -> refs_of x' = refs_of x.
Proof.
  revert x wi c. induction n as [|n IH]; intros x wi c; cbn [poll_waves]; [by intros [= _ <- _]|]. destruct (aget (x_waves x) wi) as [w|]; [|done]. cbn [mbind option_bind].
  case_bool_decide; [|apply IH]. destruct (poll wi) as [[status leftover]|]; [|apply IH]. cbv zeta. case_bool_decide as Hok; (destruct (if negb (w_event w) then _ else _); [|done]); cbn [mbind option_bind];
    (destruct (aset _ _ _); [|done]); cbn [mbind option_bind]; [by intros ->%IH|by intros [= _ <- _]].
Qed.
Lemma step_refs submit poll x st x' c : cpu_step file submit poll x = Some (st, x', c) -> refs_of x' = refs_of x.
Proof.
  unfold cpu_step. destruct (cpu_collect x) as [[[st1 x1] c1]|] eqn:E1; [|done]. cbn [mbind option_bind]. apply collect_refs in E1. rewrite <-E1. case_bool_decide; cbn [negb]; [|by intros [= _ <- _]].
  destruct (dispatch_waves _ _ _ _ _) as [[[st2 x2] c2]|] eqn:E2; [|done]. cbn [mbind option_bind]. apply dispatch_waves_refs in E2. rewrite free_held_refs in E2. rewrite <-E2. case_bool_decide; cbn [negb]; [|by intros [= _ <- _]].
  destruct (poll_waves _ _ _ _ _ _) as [[[st3 x3] c3]|] eqn:E3; [|done]. cbn [mbind option_bind]. apply poll_waves_refs in E3. rewrite <-E3. case_bool_decide; cbn [negb]; [|by intros [= _ <- _]].
  unfold start_decode. destruct (x_decoding x3); [by intros [= _ <- _]|]. destruct (next_ready _ _ _) as [[wi w]|]; [|by intros [= _ <- _]]. destruct (aset _ _ _); [|done]. by intros [= _ <- _].
Qed.
Lemma decode_entry_refs x j x' : decode_entry convert lib x j = Some x' -> refs_of x' = refs_of x.
Proof.
  unfold decode_entry. destruct (x_decoding x) as [wi|]; [|done]. cbn [mbind option_bind]. destruct (aget (x_waves x) wi) as [w|]; [|done]. cbn [mbind option_bind].
  destruct (aget (x_slots x) (w_slot w)) as [s|] eqn:Hs; [|done]. cbn [mbind option_bind]. destruct (s_plan s); [|done]. cbn [mbind option_bind]. destruct (aget (w_chunks w) j); [|done]. cbn [mbind option_bind].
  destruct (aget (chunks _) _); [|done]. cbn [mbind option_bind]. cbv zeta. destruct (negb _ && negb _); [done|]. destruct (decode_one _ _ _ _ _ _ _ _); [|done]. cbn [mbind option_bind].
  destruct (aset (w_results w) _ _); [|done]. cbn [mbind option_bind]. destruct (aset (x_waves x) _ _); [|done]. cbn [mbind option_bind]. destruct (aset (x_slots x) _ _) eqn:Ha; [|done]. intros [= <-].
  by apply (map_aset_same s_refs _ _ _ _ _ Hs Ha).
Qed.
Lemma submit_keeps malloc x plan id st x' : cpu_submit malloc x plan id = Some (st, x') -> refs_of x' = refs_of x /\ x_waves x' = x_waves x.
Proof.
  unfold cpu_submit. destruct (first_free (x_slots x) 0) as [i|]; [|by intros [= _ <-]]. destruct plan as [plan|]; [|by intros [= _ <-]]. destruct (_ =? 0); [by intros [= _ <-]|].
  destruct (submit_check _ _ _); [|done]. cbn [mbind option_bind]. case_bool_decide; cbn [negb]; [|by intros [= _ <-]]. destruct (aget (x_slots x) i) as [s|] eqn:Hs; [|done]. cbn [mbind option_bind].
  destruct (aget (x_slots x) 0); [|done]. cbn [mbind option_bind]. destruct (aget (x_slots x) 1); [|done]. cbn [mbind option_bind]. destruct (cpu_read_plan_build _ _ _ _ _) as [[?|rp]|]; [by intros [= _ <-]| |done]. cbn [mbind option_bind].
  destruct (aset (x_slots x) _ _) eqn:Ha; [|done]. intros [= _ <-]. split; [|done]. by apply (map_aset_same s_refs _ _ _ _ _ Hs Ha).
Qed.
Lemma take_keeps malloc x st x' b : cpu_take malloc x = Some (st, x', b) ->
  x_waves x' = x_waves x /\ forall i, (forall b', b = Some b' -> i <> b_slot b') -> aget (refs_of x') i = aget (refs_of x) i.
Proof.
  unfold cpu_take. destruct (oldest _ _ _ _) as [[i s]|]; [|by intros [= _ <- _]]. case_bool_decide; cbn [negb]; [|by intros [= _ <- _]]. destruct malloc; cbn [negb]; [|by intros [= _ <- _]].
  destruct (aset _ _ _) as [l|] eqn:Ha; [|done]. intros [= _ <- <-]. split; [done|]. intros k Hk. cbn. assert (Hne : i <> k) by (intros ->; by eapply Hk). pose proof (aget_aset_ne _ _ _ _ _ Ha Hne) as Hg.
  unfold aget in *. destruct (0 <=? k); [|done]. change (map s_refs l) with (s_refs <$> l). change (map s_refs (x_slots x)) with (s_refs <$> x_slots x). rewrite !list_lookup_fmap. by rewrite Hg.
Qed.

(** After a step the events are set again unless a poll answered a failure. *)
Lemma step_inv submit poll x subs taken : exec_inv x subs taken -> events_set (x_waves x) ->
  exists st x' c, cpu_step file submit poll x = Some (st, x', c) /\ after x x' subs taken /\ (events_set (x_waves x') \/ st <> DAMACY_OK /\ exists k leftover, poll k = Some (st, leftover)).
Proof.
  intros E Hs. unfold cpu_step. destruct (collect_inv x subs taken E) as (st & x1 & c0 & Ec & E1 & K1). rewrite Ec. apply (collect_events _ _ _ _ Hs) in Ec as Hs1. cbn [mbind option_bind]. case_bool_decide; cbn [negb]; [|eexists _, _, _; split; [done|]; split; [by split|by left]].
  destruct (free_held_inv _ _ _ E1) as [E1' K1']. destruct (dispatch_waves_inv submit 2 _ subs taken 0 (c0 || existsb (fun s => bool_decide (s_state s = CPU_HELD) && buffer_available s) (x_slots x1)) E1') as (st2 & x2 & c2 & Ed & E2 & K2); [lia|lia|].
  rewrite Ed. apply (dispatch_waves_events _ _ (set_slots x1 _) _ _ _ _ _ Hs1) in Ed as Hs2. pose proof (keeps_held_trans _ _ _ (keeps_held_trans _ _ _ K1 K1') K2) as K. cbn [mbind option_bind]. case_bool_decide; cbn [negb]; [|eexists _, _, _; split; [done|]; split; [by split|by left]].
  destruct (poll_waves_inv poll 2 x2 subs taken 0 c2 E2 Hs2) as (st3 & x3 & c3 & -> & [E3 K3] & Hp); [lia|lia|]. cbn [mbind option_bind]. pose proof (keeps_held_trans _ _ _ K K3).
  case_bool_decide; cbn [negb]; [|eexists _, _, _; split; [done|]; split; [by split|right; by destruct Hp as [[? _]|[_ ?]]]]. destruct Hp as [[_ Hs3]|[? _]]; [|done].
  destruct (start_decode_inv x3 subs taken c3 E3) as (st4 & x4 & c4 & Es & Ha). rewrite Es. exists st4, x4, c4. split; [done|]. split; [by eapply after_trans|]. left. by eapply start_decode_events.
Qed.

(** ** A step that changes nothing *)

Lemma first_failure_bad n results j st : first_failure n results j = Some (Some st) -> st <> DAMACY_OK.
Proof.
  revert j. induction n as [|n IH]; intros j; cbn [first_failure]; [done|]. destruct (aget results j) as [r|]; [|done]. cbn [mbind option_bind]. case_bool_decide; [apply IH|]. by intros [= <-].
Qed.
Lemma collect_stalls x x' : cpu_collect x = Some (DAMACY_OK, x', false) -> x' = x /\ (x_decoding x = None \/ x_done x = false).
Proof.
  unfold cpu_collect. destruct (x_decoding x) as [wi|]; [|intros [= <-]; auto]. destruct (x_done x); cbn [negb]; [|intros [= <-]; auto].
  destruct (aget (x_waves x) wi) as [w|]; [|done]. cbn [mbind option_bind]. destruct (aget (x_slots x) _) as [s|]; [|done]. cbn [mbind option_bind].
  destruct (first_failure _ _ _) as [[st|]|] eqn:Hf; [|cbn [mbind option_bind]|done].
  - intros [= -> _]. by apply first_failure_bad in Hf.
  - destruct (aset _ _ _); [|done]. cbn [mbind option_bind]. by destruct (_ =? 0); destruct (aset _ _ _).
Qed.
Lemma free_held_stalls x : existsb (fun s => bool_decide (s_state s = CPU_HELD) && buffer_available s) (x_slots x) = false -> set_slots x (map free_held (x_slots x)) = x.
Proof.
  intros Hn. replace (map free_held (x_slots x)) with (x_slots x); [by destruct x|]. induction (x_slots x) as [|s l IH]; [done|]. cbn in *. apply orb_false_iff in Hn as [Hs Hl]. f_equal; [|by apply IH].
  unfold free_held. by rewrite Hs.
Qed.
Lemma dispatch_stalls submit x wi st x' : cpu_dispatch submit x wi = Some (st, x', false) -> x' = x /\ (st = DAMACY_OK -> oldest dispatchable (x_slots x) 0 None = None).
Proof.
  unfold cpu_dispatch. destruct (oldest _ _ _ _) as [[i s]|]; [|by intros [= _ <-]]. destruct (aget (x_waves x) wi) as [w|]; [|done]. cbn [mbind option_bind].
  destruct (dispatch_loop _ _ _ _ _ _ _ _) as [[[[next cis] reads] bytes]|]; [|done]. cbn [mbind option_bind]. case_bool_decide; cbn [negb]; [|by intros [= <- <-]]. destruct (aset (x_waves x) _ _); [|done]. cbn [mbind option_bind]. by destruct (aset (x_slots x) _ _).
Qed.
(** Every free wave found no slot to read for, or the store refused its reads. *)
Lemma dispatch_waves_stalls submit n x wi x' c : dispatch_waves n submit x wi c = Some (DAMACY_OK, x', false) ->
  c = false /\ x' = x /\ forall k w, wi <= k < wi + Z.of_nat n -> aget (x_waves x) k = Some w -> w_state w = CPU_INPUT_FREE ->
    oldest dispatchable (x_slots x) 0 None = None \/ cpu_dispatch (submit k) x k = Some (DAMACY_AGAIN, x, false).
Proof.
  revert x wi c. induction n as [|n IH]; intros x wi c; cbn [dispatch_waves]; [intros [= <- ->]; split_and!; [done|done|lia]|].
  destruct (aget (x_waves x) wi) as [w|] eqn:Hw; [|done]. cbn [mbind option_bind]. case_bool_decide as Hst.
  - destruct (cpu_dispatch (submit wi) x wi) as [[[st1 x1] c1]|] eqn:Ed; [|done]. cbn [mbind option_bind]. destruct (_ && _) eqn:Eb; [intros [= -> _ _]; by rewrite bool_decide_eq_true_2 in Eb by done|].
    intros (Hc & -> & Hk)%IH. apply orb_false_iff in Hc as [-> ->]. destruct (dispatch_stalls _ _ _ _ _ Ed) as [-> Ho]. split_and!; [done|done|]. intros k v Hkr Hv Hvs.
    destruct (decide (k = wi)) as [->|]; [|apply (Hk k v); [lia|done|done]]. apply andb_false_iff in Eb as [Eb|Eb]; apply negb_false_iff, bool_decide_eq_true in Eb; subst st1; [left; by apply Ho|by right].
  - intros (-> & -> & Hk)%IH. split_and!; [done|done|]. intros k v Hkr Hv Hvs. destruct (decide (k = wi)) as [->|]; [congruence|]. apply (Hk k v); [lia|done|done].
Qed.
Lemma poll_stalls poll n x wi x' c : poll_waves file n poll x wi c = Some (DAMACY_OK, x', false) -> c = false /\ x' = x.
Proof.
  revert x wi c. induction n as [|n IH]; intros x wi c; cbn [poll_waves]; [by intros [= <- ->]|]. destruct (aget (x_waves x) wi) as [w|]; [|done]. cbn [mbind option_bind].
  case_bool_decide; [|apply IH]. destruct (poll wi) as [[status leftover]|]; [|apply IH]. cbv zeta. case_bool_decide as Hok; (destruct (if negb (w_event w) then _ else _); [|done]); cbn [mbind option_bind];
    (destruct (aset _ _ _); [|done]); cbn [mbind option_bind]; [by intros [? _]%IH|]. intros [= E _ _]. done.
Qed.
Lemma start_decode_stalls x st x' c : start_decode x c = Some (st, x', false) -> c = false /\ x' = x /\ (x_decoding x = None -> Forall (fun w => w_state w <> CPU_READ_READY) (x_waves x)).
Proof.
  unfold start_decode. destruct (x_decoding x); [by intros [= _ <- ->]|]. pose proof (next_ready_spec (x_waves x) 0 None) as Hn. destruct (next_ready _ _ _) as [[k w]|]; [by destruct (aset _ _ _)|].
  destruct Hn as [_ HF]. by intros [= _ <- ->].
Qed.

(** The executor waits only for the store and for the decode thread. *)
Lemma step_stalls submit poll x subs taken x' : exec_inv x subs taken -> cpu_step file submit poll x = Some (DAMACY_OK, x', false) ->
  x' = x /\ (forall s, s ∈ x_slots x -> s_state s = CPU_RENDERING -> (exists w, w ∈ x_waves x /\ w_state w = CPU_READING) \/ (is_Some (x_decoding x) /\ x_done x = false) \/
    exists k w, aget (x_waves x) k = Some w /\ w_state w = CPU_INPUT_FREE /\ cpu_dispatch (submit k) x k = Some (DAMACY_AGAIN, x, false)).
Proof.
  intros E. unfold cpu_step. destruct (cpu_collect x) as [[[st1 x1] c1]|] eqn:E1; [|done]. cbn [mbind option_bind]. case_bool_decide as H1; cbn [negb]; [subst st1|by intros [= ? _]].
  destruct (dispatch_waves _ _ _ _ _) as [[[st2 x2] c2]|] eqn:E2; [|done]. cbn [mbind option_bind]. case_bool_decide as H2; cbn [negb]; [subst st2|by intros [= ? _]].
  destruct (poll_waves _ _ _ _ _ _) as [[[st3 x3] c3]|] eqn:E3; [|done]. cbn [mbind option_bind]. case_bool_decide as H3; cbn [negb]; [subst st3|by intros [= ? _]].
  intros (-> & -> & Hready)%start_decode_stalls. apply poll_stalls in E3 as [-> ->]. destruct (dispatch_waves_stalls _ _ _ _ _ _ E2) as (Hc & -> & Hfree). apply orb_false_iff in Hc as [-> Hheld].
  apply collect_stalls in E1 as [-> Hcol]. rewrite (free_held_stalls _ Hheld) in *. split; [done|]. intros s Hs Hst.
  destruct (x_decoding x) as [d|] eqn:Hd; [right; left; split; [done|]; by destruct Hcol|]. specialize (Hready eq_refl). pose proof (ei_decode _ _ _ E) as HD. rewrite Hd in HD. cbn in HD.
  destruct (decide (Exists (fun w => w_state w = CPU_READING) (x_waves x))) as [(w & Hw & Hr)%Exists_exists|Hno]; [left; by exists w|].
  assert (Hidle : forall w, w ∈ x_waves x -> w_state w = CPU_INPUT_FREE).
  { intros w Hw. pose proof Hw as [k Hk]%elem_of_aget. rewrite Forall_forall in Hready. pose proof (Hready w Hw). pose proof (HD k w Hk). destruct (w_state w) eqn:Ew; try done. exfalso. apply Hno, Exists_exists. by exists w. }
  destruct (ei_len _ _ _ E) as (_ & Hl & _). destruct (aget_is_Some (x_waves x) 0 ltac:(lia)) as [w0 Hw0].
  assert (Hf0 : w_state w0 = CPU_INPUT_FREE) by (apply Hidle, elem_of_aget; eauto). destruct (Hfree 0 w0 ltac:(lia) Hw0 Hf0) as [Hnone|Hagain]; [exfalso|right; right; by exists 0, w0]. pose proof (oldest_spec dispatchable (x_slots x) 0 None I) as Ho. rewrite Hnone in Ho. destruct Ho as [_ Ho]. rewrite Forall_forall in Ho.
  specialize (Ho s Hs). pose proof Hs as [i Hi]%elem_of_aget. destruct (ei_slots _ _ _ E i s Hi) as [_ Hok]. rewrite Hst in Hok. destruct Hok as ((_ & _ & Hrem) & plan & _ & _ & [_ (Ls & order & sts & R2 & _ & _ & R5 & _ & R7 & _)]).
  unfold dispatchable in Ho. rewrite bool_decide_eq_true_2 in Ho by done. cbn in Ho. apply Z.ltb_ge in Ho. destruct (idle_lists (x_waves x) i [] ltac:(auto)) as [_ Hcar]. rewrite R7, Hcar, drop_ge in Hrem by lia. cbn in Hrem. lia.
Qed.
End inv.
