(* ===== verification/CpuClaims.v ===== *)
(** * The CPU executor

    The executor of [src/src/executor/cpu_executor.c] with its caller, its decode thread
    and the clients of its batches, in every interleaving. *)

From stdpp Require Import strings.
From S2P Require Import Prelude Config ConfigProof Selection Plan PlanBuilder PlanMain PlanCorrect ReadOpSort DispatchTypes Components ShardFooter Convert CpuAssemble CpuRegion CpuBatch CpuRead CpuExecutor CpuDispatch CpuRun.

#[local] Open Scope Z_scope.

(** A plan that is submitted, with the requests it was made for. *)
Record job := Job { j_requests : list damacy_sample; j_samples : list planner_sample; j_plan : prepared_plan }.

(** [wd_jobs] were accepted, [wd_taken] are the ids of the batches taken, in order.
    [wd_batches] are the batches that clients hold, each with the contents of its
    buffer when it was taken. [wd_failed] is set by a step that fails, as
    [failed_status] by [damacy_scheduler_step]. *)
Record world := World { wd_exec : cpu_executor; wd_jobs : list job; wd_taken : list Z; wd_batches : list (damacy_batch * cells); wd_failed : bool }.

Inductive cpu_event :=
  | Submit (malloc : Z -> bool) (j : option job)
  | Step (submit : Z -> list store_read -> damacy_status) (poll : Z -> option (damacy_status * (Z -> Z)))
  | Decode (j : Z)
  | DecodeDone
  | Take (malloc : bool)
  | Retain (k : nat)
  | Release (k : nat).

Section run.
Context `{CacheView} (convert : Z -> zdtype -> element -> element) (lib : decoders) (file : option string -> Z -> Z).

Definition perform (w : world) (e : cpu_event) : option world :=
  let x := wd_exec w in
  match e with
  | Submit malloc j =>
      r ← cpu_submit malloc x (j_plan <$> j) (zlen (wd_jobs w));
      Some (World (snd r) (wd_jobs w ++ if bool_decide (fst r = DAMACY_OK) then option_list j else []) (wd_taken w) (wd_batches w) (wd_failed w))
  | Step submit poll =>
      r ← cpu_step file submit poll x;
      let status := fst (fst r) in
      Some (World (snd (fst r)) (wd_jobs w) (wd_taken w) (wd_batches w) (wd_failed w || (negb (bool_decide (status = DAMACY_OK)) && negb (bool_decide (status = DAMACY_AGAIN)))))
  | Decode j => x ← decode_entry convert lib x j; Some (World x (wd_jobs w) (wd_taken w) (wd_batches w) (wd_failed w))
  | DecodeDone => Some (World (decode_finish x) (wd_jobs w) (wd_taken w) (wd_batches w) (wd_failed w))
  | Take malloc =>
      r ← cpu_take malloc x;
      match snd r with
      | None => Some (World (snd (fst r)) (wd_jobs w) (wd_taken w) (wd_batches w) (wd_failed w))
      | Some b => s ← aget (x_slots (snd (fst r))) (b_slot b); Some (World (snd (fst r)) (wd_jobs w) (wd_taken w ++ [b_id b]) (wd_batches w ++ [(b, s_data s)]) (wd_failed w))
      end
  | Retain k => b ← wd_batches w !! k; Some (World x (wd_jobs w) (wd_taken w) (<[k := (damacy_batch_retain (fst b), snd b)]> (wd_batches w)) (wd_failed w))
  | Release k =>
      b ← wd_batches w !! k;
      r ← damacy_batch_release x (fst b);
      Some (World (fst r) (wd_jobs w) (wd_taken w) (match snd r with None => delete k (wd_batches w) | Some b' => <[k := (b', snd b)]> (wd_batches w) end) (wd_failed w))
  end.

Context (config : damacy_cpu_config) (inflight : Z) (output : damacy_batch_spec) (x0 : cpu_executor).

(** Plans are those of the plan builder. There is no step after one that failed:
    [damacy_scheduler_step] returns at once when [failed_status] is set; and reads that
    are done do not answer [DAMACY_AGAIN], which it takes for success. The decode thread
    takes every entry of its wave once and then is done. *)
Definition allowed (w : world) (e : cpu_event) : Prop :=
  match e with
  | Submit _ j => forall j', j = Some j' -> 0 < zlen (chunks (j_plan j')) -> plan_for file output (x_strides x0) (j_requests j') (j_samples j') (j_plan j')
  | Step _ poll => wd_failed w = false /\ forall k st leftover, poll k = Some (st, leftover) -> st <> DAMACY_AGAIN
  | Decode j => is_Some (x_decoding (wd_exec w)) /\ j ∈ decode_todo (wd_exec w)
  | DecodeDone => is_Some (x_decoding (wd_exec w)) /\ decode_todo (wd_exec w) = []
  | Retain k => exists b, wd_batches w !! k = Some b /\ b_refs (fst b) < UINT32_MAX
  | Release k => is_Some (wd_batches w !! k)
  | _ => True
  end.

Inductive reachable : world -> Prop :=
  | reachable_start : reachable (World x0 [] [] [] false)
  | reachable_step w e w' : reachable w -> allowed w e -> perform w e = Some w' -> reachable w'.

(** ** The start *)

Record config_fits : Prop := {
  cf_u32 : is_u32 (decode_workers config) /\ is_u32 (max_encoded_chunk_bytes config) /\ is_u32 (max_decoded_chunk_bytes config) /\ is_u32 (chunks_per_input_buffer config);
  cf_u64 : is_u64 (max_memory_bytes config) }.

Lemma executor_create_spec malloc x : config_fits -> damacy_cpu_executor_create malloc (Some inflight) (Some config) = inr x ->
  x = Exec config inflight 0 (replicate (Z.to_nat (DAMACY_MAX_RANK + 1)) 0) slots_zero waves_zero None false [] 0 0 /\
  0 < decode_workers config < 2 ^ 32 /\ 0 < max_encoded_chunk_bytes config < 2 ^ 32 /\ decode_workers config <= chunks_per_input_buffer config < 2 ^ 31 /\ 0 <= max_memory_bytes config < 2 ^ 64.
Proof.
  intros [(F1 & F2 & F3 & F4) F5]. unfold damacy_cpu_executor_create. destruct (_ || _ || _) eqn:E1; [done|]. destruct (_ || _) eqn:E2 in |- *; [done|]. destruct malloc; cbn [negb]; [|done]. intros [= <-].
  rewrite !orb_false_iff in E1. destruct E1 as [[[[E1%Z.eqb_neq _] E3%Z.eqb_neq] _] _]. rewrite orb_false_iff in E2. destruct E2 as [E2%Z.ltb_ge E4%Z.ltb_ge]. unfold DAMACY_MAX_CHUNKS_PER_BATCH in E4.
  split; [done|]. clia.
Qed.

#[local] Notation inv := (exec_inv convert lib file config output (x_strides x0) (x_committed x0)).

Lemma start_inv resources junk sizes x : spec_fits output -> 0 < inflight -> 0 <= max_memory_bytes config < 2 ^ 64 -> 0 < max_encoded_chunk_bytes config -> 0 <= chunks_per_input_buffer config ->
  x_config x = config -> x_inflight x = inflight -> zlen (x_strides x) = DAMACY_MAX_RANK + 1 -> x_decoding x = None -> decode_todo x = [] ->
  cpu_start resources junk sizes x output = Some (DAMACY_OK, x0) -> inv x0 [] 0 /\ 0 <= x_committed x0 /\ events_set (x_waves x0) /\ Forall (eq 1) (map s_refs (x_slots x0)).
Proof.
  intros Hf Hin Hmem Hme Hch Hc Hi Hs Hd Ht. unfold cpu_start.
  destruct (batch_spec_layout_spec output (replicate (Z.to_nat (DAMACY_MAX_RANK + 1)) 0) (x_strides x) Hf) as (st & shape & strides & bytes & -> & Hst & Hok); [done|done|]. cbn [mbind option_bind].
  case_bool_decide as E; cbn [negb]; [|by intros [= ? _]]. destruct (Hok E) as (_ & -> & _). cbn [mbind option_bind]. rewrite Hc.
  destruct (_ || _) eqn:Eb; [done|]. destruct resources; cbn [negb]; [|done]. rewrite !orb_false_iff in Eb. destruct Eb as [[_ E2%Z.ltb_ge] E3%Z.ltb_ge].
  assert (Hneed : 0 <= start_need sizes config) by (unfold start_need; apply u64_range). rewrite u64_id in E3 by clia.
  pose proof (proj1 Hst E) as V. pose proof (proj2 (dtype_bpe_pos (dtype output)) (lv_type _ V)) as Hbpe. pose proof (volume_pos _ (lv_extents _ V)) as Hvol.
  remember (volume (batch_dims output)) as vol eqn:Evol.
  assert (0 <= vol * damacy_dtype_bpe (dtype output)) by nia. pose proof (Z.mul_div_le (max_memory_bytes config - start_need sizes config) 2 ltac:(lia)) as Hdiv.
  intros [= Hx]. assert (Hcom : x_committed x0 = start_need sizes config + 2 * (vol * damacy_dtype_bpe (dtype output))).
  { rewrite <-Hx. cbn [x_committed]. apply u64_id. unfold is_u64. lia. }
  split; [|split; [lia|rewrite <-Hx; split; [|by repeat constructor]; intros k w Hw; assert (Hel : w ∈ x_waves x0) by (apply elem_of_aget; exists k; by rewrite <-Hx); rewrite <-Hx in Hel; cbn in Hel; set_solver]]. set (slot := Slot CPU_FREE 1 _ _ _ _ _ _) in Hx. set (wave := Wave CPU_INPUT_FREE _ _ _ _ _ _ _ _) in Hx.
  assert (Hsl : forall i s, aget (x_slots x0) i = Some s -> s = slot). { intros i s Hi'. rewrite <-Hx in Hi'. cbn [x_slots] in Hi'. assert (Hel : s ∈ [slot; slot]) by (apply elem_of_aget; eauto). set_solver. }
  assert (Hwv : forall i w, aget (x_waves x0) i = Some w -> w = wave). { intros i w Hi'. rewrite <-Hx in Hi'. cbn [x_waves] in Hi'. assert (Hel : w ∈ [wave; wave]) by (apply elem_of_aget; eauto). set_solver. }
  split.
  - by rewrite <-Hx.
  - rewrite <-Hx. cbn. split_and!; [done|done|]. by rewrite Hi.
  - intros i s ->%Hsl. split; [|done]. cbn [s_data slot]. rewrite length_replicate, Z.div_mul by lia. lia.
  - intros i w ->%Hwv. split_and!; try done; cbn.
    + rewrite length_fmap, length_seqZ. nia.
    + rewrite length_replicate. lia.
  - rewrite <-Hx. cbn. rewrite Hd. intros wi w Hw. assert (w = wave) as ->; [|done]. apply (Hwv wi). rewrite <-Hx. exact Hw.
  - rewrite <-Hx. cbn. split; [lia|]. done.
  - rewrite Hcom. rewrite <-Hx at 1. cbn [x_slots map s_read_plan]. split; [|lia]. cbn. lia.
Qed.

(** ** The run *)

(** A batch a client holds, with the contents of its buffer when it was taken. *)
Definition batch_ok (x : cpu_executor) (plans : list prepared_plan) (b : damacy_batch * cells) : Prop :=
  0 < b_refs (fst b) < 2 ^ 32 /\
  (exists s, aget (x_slots x) (b_slot (fst b)) = Some s /\ s_state s = CPU_HELD /\ s_refs s = 2 /\ s_data s = snd b) /\
  exists plan, aget plans (b_id (fst b)) = Some plan /\ complete convert lib file output (x_strides x0) plan (snd b).

Record world_ok (w : world) : Prop := {
  wo_exec : inv (wd_exec w) (map j_plan (wd_jobs w)) (zlen (wd_taken w));
  wo_taken : wd_taken w = seqZ 0 (zlen (wd_taken w));
  wo_jobs : Forall (fun j => 0 < zlen (chunks (j_plan j)) /\ plan_for file output (x_strides x0) (j_requests j) (j_samples j) (j_plan j)) (wd_jobs w);
  wo_slots : NoDup ((fun b => b_slot (fst b)) <$> wd_batches w);
  wo_events : wd_failed w = false -> events_set (x_waves (wd_exec w));
  wo_refs : forall i, aget (map s_refs (x_slots (wd_exec w))) i = Some 2 -> i ∈ (fun b => b_slot (fst b)) <$> wd_batches w;
  wo_batches : Forall (batch_ok (wd_exec w) (map j_plan (wd_jobs w))) (wd_batches w) }.

Lemma batch_ok_keeps x x' plans b : keeps_held x x' -> batch_ok x plans b -> batch_ok x' plans b.
Proof. intros K (H1 & (s & Hs & Hst & Hr & Hd) & H3). split; [done|]. split; [|done]. exists s. split; [by apply K|done]. Qed.
Lemma batch_ok_plans x plans p b : batch_ok x plans b -> batch_ok x (plans ++ p) b.
Proof.
  intros (H1 & H2 & plan & Hp & Hc). split; [done|]. split; [done|]. exists plan. split; [|done]. apply aget_lookup in Hp as [? Hp]. apply aget_lookup. split; [done|]. by apply lookup_app_l_Some.
Qed.

(** A call of the executor that keeps the batches. *)
Lemma world_after w x' failed : world_ok w -> after convert lib file config output (x_strides x0) (x_committed x0) (wd_exec w) x' (map j_plan (wd_jobs w)) (zlen (wd_taken w)) ->
  map s_refs (x_slots x') = map s_refs (x_slots (wd_exec w)) -> (failed = false -> events_set (x_waves x')) -> world_ok (World x' (wd_jobs w) (wd_taken w) (wd_batches w) failed).
Proof. intros [W1 W2 W3 W4 We Wr W5] [E K] Hrefs Hev. split; cbn; try done; [by rewrite Hrefs|]. eapply Forall_impl; [exact W5|]. intros b. by apply batch_ok_keeps. Qed.

Hypothesis Hconfig : 0 < decode_workers config < 2 ^ 32 /\ 0 < max_encoded_chunk_bytes config < 2 ^ 32 /\
  decode_workers config <= chunks_per_input_buffer config < 2 ^ 31 /\ 0 <= max_memory_bytes config < 2 ^ 64.
Hypothesis Hbase : 0 <= x_committed x0.

Lemma submit_ok w malloc j : world_ok w -> allowed w (Submit malloc j) -> exists w', perform w (Submit malloc j) = Some w' /\ world_ok w'.
Proof.
  intros W Ha. pose proof W as [W1 W2 W3 W4 We Wr W5]. cbn [perform].
  destruct (submit_inv convert lib file config output (x_strides x0) (x_committed x0) Hconfig Hbase malloc _ _ _ (j_plan <$> j) W1) as (st & x' & E & Hr).
  { intros p Hp Hn. destruct j as [j|]; [|done]. cbn in Hp. injection Hp as <-. exact (plan_for_good _ _ _ _ _ _ (Ha j eq_refl Hn) Hn). }
  rewrite length_map in E. rewrite E. destruct (submit_keeps _ _ _ _ _ _ E) as [Hrefs Hwaves]. cbn [mbind option_bind fst snd]. eexists. split; [done|]. case_decide as Hst.
  - destruct Hr as (p & Hp & E' & K). destruct j as [j|]; [|done]. cbn in Hp. injection Hp as <-. rewrite bool_decide_eq_true_2 by done. cbn [option_list]. split; cbn.
    + by rewrite map_app.
    + done.
    + apply Forall_app_2; [done|]. constructor; [|constructor]. assert (0 < zlen (chunks (j_plan j))); [|by split; [|apply Ha]].
      destruct (decide (chunks (j_plan j) = [])) as [Hnil|]; [|destruct (chunks (j_plan j)); [done|cbn; lia]]. exfalso. revert E. unfold cpu_submit. cbn. destruct (first_free _ _); [|by intros [= <- _]]. rewrite Hnil. cbn. by intros [= <- _].
    + done.
    + by rewrite Hwaves.
    + by rewrite Hrefs.
    + eapply Forall_impl; [exact W5|]. intros b Hb. rewrite map_app. by apply batch_ok_plans, (batch_ok_keeps (wd_exec w)).
  - subst x'. rewrite bool_decide_eq_false_2 by done. rewrite app_nil_r. by destruct w.
Qed.

Lemma take_ok w malloc : world_ok w -> exists w', perform w (Take malloc) = Some w' /\ world_ok w'.
Proof.
  intros W. pose proof W as [W1 W2 W3 W4 We Wr W5]. cbn [perform]. destruct (take_inv convert lib file config output (x_strides x0) (x_committed x0) Hconfig Hbase malloc _ _ _ W1) as (st & x' & b & Et & Hb). rewrite Et. destruct (take_keeps _ _ _ _ _ Et) as [Hwaves Hrefs].
  cbn [mbind option_bind fst snd]. destruct b as [b|]; [|subst x'; eexists; split; [done|]; by destruct w]. destruct Hb as (_ & Hb1 & Hb2 & E & K & s & s' & plan & Hs & Hst & Hs' & Hst' & Hr & Hp & Hc).
  rewrite Hs'. cbn [mbind option_bind]. eexists. split; [done|]. split; cbn.
  - rewrite length_app, Nat2Z.inj_add. done.
  - rewrite Hb2, length_app, Nat2Z.inj_add, seqZ_app by lia. by f_equal.
  - done.
  - rewrite fmap_app. apply NoDup_app. split; [done|]. split; [|apply NoDup_singleton]. intros k Hk Hin. apply list_elem_of_singleton in Hin. cbn in Hin. subst k. apply list_elem_of_fmap in Hk as ([b' d] & Hk & Hin).
    rewrite Forall_forall in W5. destruct (W5 _ Hin) as (_ & (t & Ht & Htst & _) & _). cbn in *. congruence.
  - by rewrite Hwaves.
  - intros i Hi. rewrite fmap_app. apply elem_of_app. destruct (decide (i = b_slot b)) as [->|Hne]; [right; cbn; set_solver|]. left. apply Wr. rewrite <-Hi. symmetry. apply Hrefs. by intros b' [= <-].
  - apply Forall_app_2; [eapply Forall_impl; [exact W5|]; intros b'; by apply batch_ok_keeps|]. constructor; [|constructor]. split; [cbn; lia|]. split; [by exists s'|]. exists plan. cbn. by rewrite Hb2.
Qed.

Lemma retain_ok w k : world_ok w -> allowed w (Retain k) -> exists w', perform w (Retain k) = Some w' /\ world_ok w'.
Proof.
  intros [W1 W2 W3 W4 We Wr W5] ([b d] & Hb & Hr). cbn [perform]. rewrite Hb. cbn [mbind option_bind fst snd]. eexists. split; [done|].
  assert (Hsame : (fun b => b_slot (fst b)) <$> <[k:=(damacy_batch_retain b, d)]> (wd_batches w) = (fun b => b_slot (fst b)) <$> wd_batches w) by (rewrite list_fmap_insert; cbn; rewrite list_insert_id; [done|by rewrite list_lookup_fmap, Hb]).
  split; cbn; rewrite ?Hsame; try done.
  apply Forall_insert; [done|]. rewrite Forall_lookup in W5. destruct (W5 _ _ Hb) as (H1 & H2 & H3). split; [|done]. cbn in *. rewrite u32_id; clia.
Qed.

Lemma release_ok w k : world_ok w -> allowed w (Release k) -> exists w', perform w (Release k) = Some w' /\ world_ok w'.
Proof.
  intros [W1 W2 W3 W4 We Wr W5] [[b d] Hb]. cbn [perform]. rewrite Hb. cbn [mbind option_bind fst snd]. pose proof W5 as W5'. rewrite Forall_lookup in W5'. destruct (W5' _ _ Hb) as (H1 & (s & Hs & Hst & Hr & Hd) & H3). cbn in *.
  unfold damacy_batch_release. destruct (Z.eqb_spec (b_refs b) 1) as [Hone|Hone].
  - rewrite Hs. cbn [mbind option_bind]. destruct (release_inv convert lib file config output (x_strides x0) (x_committed x0) _ _ _ _ _ W1 Hs Hst Hr) as (slots & Hsl & E). rewrite Hsl. cbn [mbind option_bind fst snd].
    eexists. split; [done|]. pose proof (delete_Permutation _ _ _ Hb) as D. pose proof W4 as W4'. rewrite D in W4'. csimpl in W4'. apply NoDup_cons in W4' as [Hno Hnd]. split; cbn; try done.
    { intros i Hi. apply aget_map_inv in Hi as (t & Ht & Ht2). destruct (decide (b_slot b = i)) as [<-|Hne]; [rewrite (aget_aset_eq _ _ _ _ Hsl) in Ht; injection Ht as <-; cbn in Ht2; by rewrite Hr in Ht2|].
      rewrite (aget_aset_ne _ _ _ _ _ Hsl Hne) in Ht. specialize (Wr i). rewrite (aget_map_2 _ _ _ _ Ht), Ht2, D in Wr. csimpl in Wr. specialize (Wr eq_refl). set_solver. }
    apply Forall_forall. intros b' Hb'. rewrite Forall_forall in W5. destruct (W5 b') as (G1 & (t & Ht & G2) & G3); [rewrite D; set_solver|]. split; [done|]. split; [|done]. exists t. split; [|done]. cbn.
    rewrite (aget_aset_ne _ _ _ _ _ Hsl); [done|]. intros Heq. apply Hno. apply list_elem_of_fmap. exists b'. split; [done|done].
  - cbn [mbind option_bind fst snd]. eexists. split; [done|].
    assert (Hsame : (fun b => b_slot (fst b)) <$> <[k:=(Batch (u32 (b_refs b - 1)) (b_slot b) (b_id b), d)]> (wd_batches w) = (fun b => b_slot (fst b)) <$> wd_batches w) by (rewrite list_fmap_insert; cbn; rewrite list_insert_id; [done|by rewrite list_lookup_fmap, Hb]).
    split; cbn; rewrite ?Hsame; try done. apply Forall_insert; [done|]. split; [|split; [by exists s|done]]. cbn. rewrite u32_id; clia.
Qed.

Lemma perform_ok w e : world_ok w -> allowed w e -> exists w', perform w e = Some w' /\ world_ok w'.
Proof.
  intros W Ha. pose proof (wo_exec _ W) as E. destruct e as [malloc j|submit poll|j| |malloc|k|k].
  - by apply submit_ok.
  - cbn. destruct (step_inv convert lib file config output (x_strides x0) (x_committed x0) Hconfig Hbase submit poll _ _ _ E (wo_events _ W (proj1 Ha))) as (st & x' & c & Es & A & Hev). rewrite Es. cbn. eexists. split; [done|]. apply world_after; [done|done|by eapply step_refs|].
    destruct Ha as [-> Hpoll]. cbn. intros Hf. destruct Hev as [Hev|(Hne & k & leftover & Hk)]; [done|]. apply andb_false_iff in Hf as [Hf|Hf]; apply negb_false_iff, bool_decide_eq_true in Hf; [done|]. by destruct (Hpoll _ _ _ Hk).
  - cbn. destruct Ha as [Hd Hj]. destruct (decode_entry_inv convert lib file config output (x_strides x0) (x_committed x0) _ _ _ j E Hd Hj) as (x' & Ed & A). rewrite Ed. cbn. eexists. split; [done|]. apply world_after; [done|done|by eapply decode_entry_refs|]. intros Hf. eapply decode_entry_events; [by apply (wo_events _ W)|done].
  - cbn. destruct Ha as [[wi Hd] Ht]. eexists. split; [done|]. apply world_after; [done| |done|apply (wo_events _ W)]. split; [by eapply finish_inv|]. by apply keeps_held_same.
  - by apply take_ok.
  - by apply retain_ok.
  - by apply release_ok.
Qed.

Lemma reachable_ok w : inv x0 [] 0 -> events_set (x_waves x0) -> Forall (eq 1) (map s_refs (x_slots x0)) -> reachable w -> world_ok w.
Proof.
  intros E0 Hev Hrefs Hr. induction Hr as [|w e w' _ IH Ha Hp].
  - split; cbn; try done; [apply NoDup_nil_2|]. intros i Hi. by pose proof (Forall_aget _ _ _ _ Hrefs Hi).
  - destruct (perform_ok w e IH Ha) as (w'' & Hp' & W). rewrite Hp in Hp'. by injection Hp' as <-.
Qed.

(** The contents of a buffer at a position of sample [j], for a job. *)
Definition delivered (j : job) (data : cells) : Prop :=
  forall i os, 0 <= i < samples_per_batch output -> inside (take (Z.to_nat (sample_rank output)) (sample_shape output)) os ->
    exists v, aget data (address (i :: os) (take (Z.to_nat (sample_rank output) + 1) (x_strides x0))) = Some (Some v) /\
      right convert lib (j_requests j) (j_samples j) output (j_plan j) (chunk_input file (j_plan j)) i os v.

Lemma complete_delivered j data : plan_for file output (x_strides x0) (j_requests j) (j_samples j) (j_plan j) ->
  complete convert lib file output (x_strides x0) (j_plan j) data -> delivered j data.
Proof.
  intros (_ & limits & _ & R) (order & sts & Ho & (data0 & Hz & Hd) & Hok) i os Hi Hos.
  destruct (batch_decoded convert lib _ _ output limits _ _ _ R order data0 Ho Hz) as (sts' & buffer & Hd' & _ & _ & Hall). rewrite Hd in Hd'. injection Hd' as <- <-.
  by apply (Hall i os Hi Hos).
Qed.
End run.

(** ** Lifetimes *)

Lemma layout_strides_length n shape strides strides' : layout_strides n shape strides = Some strides' -> length strides' = length strides.
Proof.
  revert strides. induction n as [|d IH]; intros strides; cbn [layout_strides]; [by intros [= <-]|]. destruct (aget strides _); [|done]. cbn [mbind option_bind]. destruct (aget shape _); [|done]. cbn [mbind option_bind].
  destruct (i64_mul _ _); [|done]. cbn [mbind option_bind]. destruct (aset strides _ _) eqn:Ha; [|done]. cbn [mbind option_bind]. intros ->%IH. by apply (length_aset _ _ _ _ Ha).
Qed.
Lemma batch_spec_layout_strides spec shape strides st shape' strides' bytes : batch_spec_layout (Some spec) shape strides = Some (st, shape', strides', bytes) -> length strides' = length strides.
Proof.
  unfold batch_spec_layout. destruct (_ || _); [by intros [= _ _ <- _]|]. destruct (aset shape _ _); [|done]. cbn [mbind option_bind]. destruct (layout_shape _ _ _ _ _) as [[[accepted sh] elements]|]; [|done]. cbn [mbind option_bind].
  destruct accepted; cbn [negb]; [|by intros [= _ _ <- _]]. destruct (_ <? _); [by intros [= _ _ <- _]|]. destruct (aset strides _ _) eqn:Ha; [|done]. cbn [mbind option_bind].
  destruct (layout_strides _ _ _) eqn:El; [|done]. cbn [mbind option_bind]. intros [= _ _ <- _]. rewrite (layout_strides_length _ _ _ _ El). by apply (length_aset _ _ _ _ Ha).
Qed.

(** An executor that is not running: created, or stopped after any run, or left behind by
    a [cpu_start] that failed. Every start may ask for another output. *)
Section idle.
Context `{CacheView} (convert : Z -> zdtype -> element -> element) (lib : decoders) (file : option string -> Z -> Z) (config : damacy_cpu_config) (inflight : Z).

Inductive idle : cpu_executor -> Prop :=
  | idle_created malloc x : damacy_cpu_executor_create malloc (Some inflight) (Some config) = inr x -> idle x
  | idle_refused x output resources junk sizes status x' : idle x -> spec_fits output -> cpu_start resources junk sizes x output = Some (status, x') -> status <> DAMACY_OK -> idle x'
  | idle_stopped x output resources junk sizes x0 w : idle x -> spec_fits output -> cpu_start resources junk sizes x output = Some (DAMACY_OK, x0) ->
      reachable convert lib file output x0 w -> idle (cpu_stop (wd_exec w)).

(** A start sees only the configuration and the arrays of the executor. *)
Record at_rest (x : cpu_executor) : Prop := {
  ar_config : x_config x = config /\ 0 < x_inflight x;
  ar_strides : zlen (x_strides x) = DAMACY_MAX_RANK + 1;
  ar_decode : x_decoding x = None /\ decode_todo x = [] }.

Hypothesis Hconfig : 0 < decode_workers config < 2 ^ 32 /\ 0 < max_encoded_chunk_bytes config < 2 ^ 32 /\
  decode_workers config <= chunks_per_input_buffer config < 2 ^ 31 /\ 0 <= max_memory_bytes config < 2 ^ 64.
Hypothesis Hinflight : 0 < inflight.

(** [cpu_start] keeps the configuration, and the strides have their length. *)
Lemma start_fixed output resources junk sizes x status x' : spec_fits output -> at_rest x -> cpu_start resources junk sizes x output = Some (status, x') -> at_rest x'.
Proof.
  intros Hf [[Hc Hi] Hs [Hd Ht]]. unfold cpu_start. destruct (batch_spec_layout_spec output (replicate (Z.to_nat (DAMACY_MAX_RANK + 1)) 0) (x_strides x) Hf) as (st & shape & strides & bytes & E & _ & Hok); [done|done|].
  pose proof (batch_spec_layout_strides _ _ _ _ _ _ _ E) as Hl. rewrite <-Hl in Hs. rewrite E. cbn [mbind option_bind].
  case_bool_decide; cbn [negb]; [|intros [= _ <-]; by split]. destruct bytes as [bytes|]; [|done]. cbn [mbind option_bind]. destruct (_ || _); [intros [= _ <-]; by split|]. destruct resources; cbn [negb]; intros [= _ <-]; by split.
Qed.

Lemma started output resources junk sizes x x0 : spec_fits output -> at_rest x -> cpu_start resources junk sizes x output = Some (DAMACY_OK, x0) ->
  (forall w, reachable convert lib file output x0 w -> world_ok convert lib file config output x0 w) /\ 0 <= x_committed x0.
Proof.
  intros Hf R Hst. pose proof R as [[Hc Hi] Hs [Hd Ht]]. destruct (start_inv convert lib file config (x_inflight x) output x0 resources junk sizes x) as (E0 & Hb & Hev & Hrefs); try done; try lia.
  split; [|done]. intros w Hr. by apply (reachable_ok convert lib file config output x0 Hconfig Hb).
Qed.

Lemma idle_at_rest x : config_fits config -> idle x -> at_rest x.
Proof.
  intros Hf Hx. induction Hx as [malloc x Hcr|x output resources junk sizes status x' _ IH Ho Hst _|x output resources junk sizes x0 w _ IH Ho Hst Hr].
  - destruct (executor_create_spec _ _ _ _ Hf Hcr) as (-> & _). by split.
  - by eapply start_fixed.
  - destruct (started _ _ _ _ _ _ Ho IH Hst) as [Hall _]. pose proof (start_fixed _ _ _ _ _ _ _ Ho IH Hst) as R0.
    pose proof (wo_exec _ _ _ _ _ _ _ (Hall w Hr)) as E. destruct (ei_fixed _ _ _ _ _ _ _ _ _ _ E) as (Hc & _ & Hs). split; cbn; [|by rewrite Hs; apply R0|done].
    split; [done|]. apply (ei_len _ _ _ _ _ _ _ _ _ _ E).
Qed.
End idle.

Lemma idle_config `{CacheView} convert lib file config inflight x : config_fits config -> idle convert lib file config inflight x ->
  0 < decode_workers config < 2 ^ 32 /\ 0 < max_encoded_chunk_bytes config < 2 ^ 32 /\ decode_workers config <= chunks_per_input_buffer config < 2 ^ 31 /\ 0 <= max_memory_bytes config < 2 ^ 64.
Proof. intros Hf. induction 1 as [malloc x Hcr| |]; [|done|done]. by destruct (executor_create_spec _ _ _ _ Hf Hcr) as (_ & ?). Qed.

(** What holds in every reachable state. *)
Lemma reachable_world `{CacheView} convert lib file config inflight output resources junk sizes x x0 w :
  config_fits config -> spec_fits output -> 0 < inflight -> idle convert lib file config inflight x ->
  cpu_start resources junk sizes x output = Some (DAMACY_OK, x0) -> reachable convert lib file output x0 w ->
  world_ok convert lib file config output x0 w /\ 0 <= x_committed x0 /\
  0 < decode_workers config < 2 ^ 32 /\ 0 < max_encoded_chunk_bytes config < 2 ^ 32 /\ decode_workers config <= chunks_per_input_buffer config < 2 ^ 31 /\ 0 <= max_memory_bytes config < 2 ^ 64.
Proof.
  intros Hc Hf Hi Hx Hst Hr. pose proof (idle_config _ _ _ _ _ _ Hc Hx) as Hconfig. assert (R : at_rest config x) by by eapply idle_at_rest.
  assert ((forall w, reachable convert lib file output x0 w -> world_ok convert lib file config output x0 w) /\ 0 <= x_committed x0) as [Hall Hb] by by eapply started.
  split; [by apply Hall|done].
Qed.

(** C14. The CPU executor, from [cpu_start] on, in every lifetime (the executor was
    created, or stopped after an earlier run) and with every interleaving of calls,
    workers of the decode thread, answers of the store and clients that retain and
    release batches. The caller makes no further step once a step failed, as
    [damacy_scheduler_step]. Every call returns, no access leaves a buffer and the
    memory stays within [max_memory_bytes]. Batches come out with the ids 0, 1, 2, ...
    in the order their plans were accepted. While a client holds a batch nothing writes
    to its buffer, and at every position of every sample the buffer holds the element
    its request asks for. When the executor is stopped, the buffers clients hold stay
    with their contents and one reference, and the others are freed. *)
Theorem cpu_executor_correct `{CacheView} convert lib file config inflight output resources junk sizes x x0 w :
  config_fits config -> spec_fits output -> 0 < inflight ->
  idle convert lib file config inflight x ->
  cpu_start resources junk sizes x output = Some (DAMACY_OK, x0) ->
  reachable convert lib file output x0 w ->
  (forall e, allowed file output x0 w e -> exists w', perform convert lib file w e = Some w') /\
  x_committed (wd_exec w) <= max_memory_bytes config /\
  wd_taken w = seqZ 0 (zlen (wd_taken w)) /\ zlen (wd_taken w) <= zlen (wd_jobs w) /\
  (forall b data, (b, data) ∈ wd_batches w ->
    (exists s, aget (x_slots (wd_exec w)) (b_slot b) = Some s /\ s_data s = data) /\
    aget (stop_buffers (wd_exec w)) (b_slot b) = Some (Some (1, data)) /\
    exists j, aget (wd_jobs w) (b_id b) = Some j /\ delivered convert lib file output x0 j data) /\
  forall i, 0 <= i < 2 -> (forall b data, (b, data) ∈ wd_batches w -> b_slot b <> i) -> aget (stop_buffers (wd_exec w)) i = Some None.
Proof.
  intros Hc Hf Hi Hx Hst Hr. destruct (reachable_world _ _ _ _ _ _ _ _ _ _ _ _ Hc Hf Hi Hx Hst Hr) as (W & Hb & Hconfig). pose proof (wo_exec _ _ _ _ _ _ _ W) as E. split_and!.
  - intros e Ha. destruct (perform_ok convert lib file config output x0 Hconfig Hb w e W Ha) as (w' & Hp & _). by exists w'.
  - apply (ei_committed _ _ _ _ _ _ _ _ _ _ E).
  - apply W.
  - destruct (ei_ids _ _ _ _ _ _ _ _ _ _ E) as [? _]. rewrite length_map in *. lia.
  - intros b data Hin. pose proof (wo_batches _ _ _ _ _ _ _ W) as HB. rewrite Forall_forall in HB. destruct (HB _ Hin) as (_ & (s & Hs & _ & Hrf & Hd) & plan & Hp & Hcomp). cbn in *. split; [by exists s|].
    split; [unfold stop_buffers; rewrite (aget_map_2 _ _ _ _ Hs); unfold buffer_drop; by rewrite Hrf, Hd|].
    apply aget_map_inv in Hp as (j & Hj & ->). exists j. split; [done|]. apply complete_delivered; [|done]. by apply (Forall_aget _ _ _ _ (wo_jobs _ _ _ _ _ _ _ W) Hj).
  - intros i Hir Hno. destruct (ei_len _ _ _ _ _ _ _ _ _ _ E) as (Hl & _). destruct (aget_is_Some (x_slots (wd_exec w)) i ltac:(lia)) as [s Hs]. unfold stop_buffers. rewrite (aget_map_2 _ _ _ _ Hs). do 2 f_equal.
    assert (Hn2 : s_refs s <> 2). { intros H2. pose proof (wo_refs _ _ _ _ _ _ _ W i) as Hw. rewrite (aget_map_2 _ _ _ _ Hs), H2 in Hw. specialize (Hw eq_refl). apply list_elem_of_fmap in Hw as ([b data] & -> & Hin). by apply (Hno b data). }
    destruct (ei_slots _ _ _ _ _ _ _ _ _ _ E i s Hs) as [_ Hok]. unfold buffer_drop. assert (s_refs s = 1) as ->; [|done]. destruct (s_state s); [apply Hok|apply Hok|apply Hok|]. destruct Hok as (? & _). lia.
Qed.

(** C27. The CPU executor does not stall, in any lifetime: in every reachable state in
    which a plan that was accepted is not taken yet, a [cpu_step] that succeeds without
    a change leaves the executor as it was, and then reads are under way, or the decode
    thread is at work, or [cpu_take] gives out the next batch, or the store refused the
    reads of a free wave with [DAMACY_AGAIN]. And when [cpu_busy] denies, all batches
    have been taken. *)
Theorem cpu_executor_waits `{CacheView} convert lib file config inflight output resources junk sizes x x0 w :
  config_fits config -> spec_fits output -> 0 < inflight ->
  idle convert lib file config inflight x ->
  cpu_start resources junk sizes x output = Some (DAMACY_OK, x0) ->
  reachable convert lib file output x0 w ->
  (forall submit poll y, zlen (wd_taken w) < zlen (wd_jobs w) -> cpu_step file submit poll (wd_exec w) = Some (DAMACY_OK, y, false) ->
     y = wd_exec w /\
     ((exists v, v ∈ x_waves y /\ w_state v = CPU_READING) \/ (is_Some (x_decoding y) /\ x_done y = false) \/
      (exists y' b, cpu_take true y = Some (DAMACY_OK, y', Some b) /\ b_id b = zlen (wd_taken w)) \/
      exists k v, aget (x_waves y) k = Some v /\ w_state v = CPU_INPUT_FREE /\ cpu_dispatch (submit k) y k = Some (DAMACY_AGAIN, y, false))) /\
  (cpu_busy (wd_exec w) = false -> zlen (wd_taken w) = zlen (wd_jobs w)).
Proof.
  intros Hc Hf Hi Hx Hst Hr. destruct (reachable_world _ _ _ _ _ _ _ _ _ _ _ _ Hc Hf Hi Hx Hst Hr) as (W & Hb & Hconfig). pose proof (wo_exec _ _ _ _ _ _ _ W) as E. destruct (ei_ids _ _ _ _ _ _ _ _ _ _ E) as [Ht Hids]. rewrite length_map in *. split.
  - intros submit poll y Hlt Hstep. destruct (step_stalls convert lib file config output (x_strides x0) (x_committed x0) Hconfig Hb _ _ _ _ _ _ E Hstep) as [-> Hwait]. split; [done|].
    assert (Hin : zlen (wd_taken w) ∈ s_batch_id <$> filter (fun s => renders s = true) (x_slots (wd_exec w))) by (rewrite Hids; apply elem_of_seqZ; lia).
    apply list_elem_of_fmap in Hin as (t & _ & [Htr Htin]%list_elem_of_filter). pose proof (oldest_spec renders (x_slots (wd_exec w)) 0 None I) as Ho.
    destruct (oldest renders (x_slots (wd_exec w)) 0 None) as [[i s]|] eqn:Eo; [|destruct Ho as [_ Ho]; rewrite Forall_forall in Ho; by rewrite (Ho t Htin) in Htr].
    destruct (oldest_some _ _ _ _ Eo) as (Hs & Hsr & _). unfold renders in Hsr. destruct (decide (s_state s = CPU_RENDERING)) as [Hren|Hn]; [destruct (Hwait s) as [?|[?|?]]; [apply elem_of_aget; eauto|done|by left|by right; left|by right; right; right]|].
    right. right. left. rewrite bool_decide_eq_false_2 in Hsr by done. apply bool_decide_eq_true in Hsr. destruct (take_inv convert lib file config output (x_strides x0) (x_committed x0) Hconfig Hb true _ _ _ E) as (st & y' & b & Et & Hb').
    pose proof Et as Et'. unfold cpu_take in Et'. rewrite Eo, bool_decide_eq_true_2 in Et' by done. cbn [negb] in Et'. destruct (aset _ _ _); [|done]. cbn [mbind option_bind] in Et'. injection Et' as <- <- <-.
    eexists _, _. split; [exact Et|]. by destruct Hb' as (_ & _ & ? & _).
  - intros Hbusy. assert (Hnone : filter (fun s => renders s = true) (x_slots (wd_exec w)) = []).
    { clear -Hbusy. unfold cpu_busy in Hbusy. induction (x_slots (wd_exec w)) as [|s l IH]; [done|]. cbn in Hbusy. apply orb_false_iff in Hbusy as [Hs Hl]. rewrite filter_cons_False; [by apply IH|].
      apply negb_false_iff, bool_decide_eq_true in Hs. unfold renders. by rewrite Hs. }
    rewrite Hnone in Hids. cbn in Hids. apply Permutation_length in Hids. rewrite length_seqZ in Hids. cbn in Hids. lia.
Qed.

(** ** An example *)

Module Example.
Import CpuBatch.Example.
#[local] Existing Instance view.

(** Two chunks to a wave; the first two chunks are read at once. *)
Definition config : damacy_cpu_config := CpuConfig 2 4 4 (2 ^ 30) 2.
Definition sizes : cpu_sizes := CpuSizes 4096 64 100000.
Definition file (key : option string) (at_ : Z) : Z := if bool_decide (key = Some "a/c/0"%string) then at_ else 8 + at_.
Definition junk (_ : Z) : Z := 255.

(** Runs of events other than [Submit]. *)
Definition may (w : world) (e : cpu_event) : bool :=
  match e with
  | Submit _ _ => false
  | Step _ _ => negb (wd_failed w)
  | Decode j => bool_decide (is_Some (x_decoding (wd_exec w))) && bool_decide (j ∈ decode_todo (wd_exec w))
  | DecodeDone => bool_decide (is_Some (x_decoding (wd_exec w))) && bool_decide (decode_todo (wd_exec w) = [])
  | Retain k => match wd_batches w !! k with Some b => b_refs (fst b) <? UINT32_MAX | None => false end
  | Release k => bool_decide (is_Some (wd_batches w !! k))
  | _ => true
  end.
Fixpoint run (w : world) (es : list cpu_event) : option world :=
  match es with [] => Some w | e :: es => if may w e then w' ← perform convert lib file w e; run w' es else None end.

Definition polls_fit (e : cpu_event) : Prop := match e with Step _ poll => forall k st leftover, poll k = Some (st, leftover) -> st <> DAMACY_AGAIN | _ => True end.
Lemma run_reachable x0 w es w' : Forall polls_fit es -> reachable convert lib file output x0 w -> run w es = Some w' -> reachable convert lib file output x0 w'.
Proof.
  intros Hes. revert w. induction Hes as [|e es He _ IH]; intros w Hr; cbn [run]; [by intros [= <-]|]. destruct (may w e) eqn:Hm; [|done]. destruct (perform convert lib file w e) as [w1|] eqn:Hp; [|done]. cbn [mbind option_bind].
  apply IH. eapply reachable_step; [exact Hr| |exact Hp]. destruct e; cbn [may allowed polls_fit] in *; try done.
  - by apply negb_true_iff in Hm.
  - apply andb_true_iff in Hm as [?%bool_decide_eq_true ?%bool_decide_eq_true]. done.
  - apply andb_true_iff in Hm as [?%bool_decide_eq_true ?%bool_decide_eq_true]. done.
  - destruct (wd_batches w !! k) as [b|]; [|done]. apply Z.ltb_lt in Hm. by exists b.
  - by apply bool_decide_eq_true in Hm.
Qed.

Definition taking (k : Z) (rs : list store_read) : damacy_status := DAMACY_OK.
Definition waiting (k : Z) : option (damacy_status * (Z -> Z)) := None.
Definition arrived (k : Z) : option (damacy_status * (Z -> Z)) := Some (DAMACY_OK, junk).
Definition failing (k : Z) : option (damacy_status * (Z -> Z)) := Some (DAMACY_IO, junk).
Definition events : list cpu_event :=
  [Step taking waiting; Step taking arrived; Decode 1; Decode 0; DecodeDone; Step taking arrived; Decode 0; Decode 1; DecodeDone; Step taking arrived; Take true; Retain 0; Release 0].
Lemma events_fit : Forall polls_fit events.
Proof. repeat apply Forall_cons_2; try apply Forall_nil_2; try exact I; intros k st leftover; cbn; intros [=]; by subst. Qed.
Definition values : cells := (fun v => Some (le_bytes 4 (f32_of_int v))) <$> [2; 3; 4; 5; 6; 7; 9; 3; 9; 0; 77; 7].

Lemma config_ok : config_fits config.
Proof. split; [split_and!|]; by vm_compute. Qed.
Lemma output_fits : spec_fits output.
Proof. split; try done. cbn. apply Forall_cons_2; [done|]. by apply (Forall_replicate _ 30 0). Qed.

(** A plan for the requests of the example can be submitted. *)
Lemma submit_reachable plan x0 w : prepared_plan_build (fun _ => true) samples output limits = Some (inr plan) ->
  (exists shape0 strides0 shape' bytes, zlen shape0 = DAMACY_MAX_RANK + 1 /\ zlen strides0 = DAMACY_MAX_RANK + 1 /\
     batch_spec_layout (Some output) shape0 strides0 = Some (DAMACY_OK, shape', x_strides x0, bytes)) ->
  Forall (fun ck => 0 <= offset ck /\ (missing ck = false -> encoded_bytes ck = 4)) (chunks plan) ->
  perform convert lib file (World x0 [] [] [] false) (Submit (fun _ => true) (Some (Job requests samples plan))) = Some w -> reachable convert lib file output x0 w.
Proof.
  intros E Hl Hc Hp. pose proof (fun i => plan_ready plan (x_strides x0) i E Hl) as Hready. clear E Hl. refine (reachable_step _ _ _ _ _ _ _ _ (reachable_start _ _ _ _ _) _ Hp).
  intros j Hj _. injection Hj as <-. cbn [j_requests j_samples j_plan]. split; [eapply Forall_impl; [exact Hc|]; by intros ck [? _]|]. exists limits. split; [done|]. apply Hready.
  intros y ck Hy Hm. unfold chunk_input. rewrite Hy. destruct (Forall_aget _ _ _ _ Hc Hy) as [_ He]. rewrite file_bytes_length by (rewrite (He Hm); done). done.
Qed.

(** The run, and the state after its first step. The executor was started and stopped
    before. *)
Lemma submitted : exists x x0 w, idle convert lib file config 8 x /\ cpu_start true junk sizes x output = Some (DAMACY_OK, x0) /\
  reachable convert lib file output x0 w /\ (fun w => (wd_batches w, length (wd_jobs w))) <$> run w events = Some ([(Batch 1 0 0, values)], 1%nat) /\
  (w ← run w [Step taking waiting]; r ← cpu_step file taking waiting (wd_exec w); Some (fst (fst r), snd r, length (wd_jobs w), wd_taken w)) = Some (DAMACY_OK, false, 1%nat, []).
Proof.
  assert (exists x x1, damacy_cpu_executor_create true (Some 8) (Some config) = inr x /\ cpu_start true junk sizes x output = Some (DAMACY_OK, x1) /\
    x_config (cpu_stop x1) = config /\ x_inflight x1 = 8 /\ x_output x1 = dtype output /\ x_strides x1 = [6; 1] ++ replicate 30 0) as (x & x1 & Hcr & Hst & Hf).
  { eexists _, _. split; [vm_compute; reflexivity|]. split; [vm_compute; reflexivity|]. vm_compute. split_and!; reflexivity. }
  pose proof (idle_stopped convert lib file config 8 x output true junk sizes x1 (World x1 [] [] [] false) (idle_created convert lib file config 8 true x Hcr) output_fits Hst (reachable_start _ _ _ _ _)) as Hidle.
  destruct x1 as [xc xi xo xs x5 x6 x7 x8 x9 x10 x11]. destruct Hf as (E1 & E2 & E3 & E4). cbn in E1, E2, E3, E4. subst xc xi xo xs. clear Hcr Hst.
  destruct (prepared_plan_build (fun _ => true) samples output limits) as [[e|plan]|] eqn:E; [exfalso; vm_compute in E; discriminate E| |exfalso; vm_compute in E; discriminate E].
  pose proof (fun x0 w => submit_reachable plan x0 w E) as Hreach. vm_compute in E. injection E as E. subst plan.
  eexists _, _, _. split; [exact Hidle|]. split; [vm_compute; reflexivity|]. split; [apply Hreach; [| |vm_compute; reflexivity]|split; vm_compute; reflexivity].
  - exists (replicate 32 0), (replicate 32 0). eexists _, _. split; [done|]. split; [done|]. vm_compute. reflexivity.
  - repeat apply Forall_cons_2; [done..|apply Forall_nil_2].
Qed.

(** Why there is no step after a failed one: the wave whose reads failed keeps the state
    [CPU_READING] without an event, the next step takes it for ready, and bytes that were
    never read are decoded. *)
Example step_after_failure : exists x0 w, reachable convert lib file output x0 w /\
  (r ← cpu_step file taking failing (wd_exec w);
   s ← cpu_step file taking arrived (snd (fst r));
   v ← aget (x_waves (snd (fst s))) 0;
   Some (fst (fst r), fst (fst s), w_state v, forallb (Z.eqb 255) (w_input v))) = Some (DAMACY_IO, DAMACY_OK, CPU_DECODING, true).
Proof.
  destruct (prepared_plan_build (fun _ => true) samples output limits) as [[e|plan]|] eqn:E; [exfalso; vm_compute in E; discriminate E| |exfalso; vm_compute in E; discriminate E].
  pose proof (fun x0 w => submit_reachable plan x0 w E) as Hreach. vm_compute in E. injection E as E. subst plan.
  assert (exists x x0, damacy_cpu_executor_create true (Some 8) (Some config) = inr x /\ cpu_start true junk sizes x output = Some (DAMACY_OK, x0) /\ True) as (x & x0 & Hcr & Hst & _).
  { eexists _, _. split; [vm_compute; reflexivity|]. split; [vm_compute; reflexivity|done]. }
  vm_compute in Hcr. injection Hcr as <-. vm_compute in Hst. injection Hst as Hst. exists x0. subst x0. eexists. split; [apply Hreach; [| |vm_compute; reflexivity]|vm_compute; reflexivity].
  - exists (replicate 32 0), (replicate 32 0). eexists _, _. split; [done|]. split; [done|]. vm_compute. reflexivity.
  - repeat apply Forall_cons_2; [done..|apply Forall_nil_2].
Qed.

Lemma cpu_executor_correct_witness : exists x0 w j, reachable convert lib file output x0 w /\ wd_batches w = [(Batch 1 0 0, values)] /\
  x_committed (wd_exec w) <= 2 ^ 30 /\ aget (stop_buffers (wd_exec w)) 0 = Some (Some (1, values)) /\ aget (wd_jobs w) 0 = Some j /\ delivered convert lib file output x0 j values.
Proof.
  destruct submitted as (x & x0 & w & Hc & Hs & Hr & Hrun & _). destruct (run w events) as [w'|] eqn:E; [|discriminate Hrun]. cbn in Hrun. injection Hrun as Hb _. pose proof (run_reachable _ _ _ _ events_fit Hr E) as Hr'.
  destruct (cpu_executor_correct convert lib file config 8 output true junk sizes x x0 w' config_ok output_fits ltac:(lia) Hc Hs Hr') as (_ & Hm & _ & _ & Hall & _).
  destruct (Hall (Batch 1 0 0) values) as (_ & Hkept & j & Hj & Hd); [rewrite Hb; left|]. exists x0, w', j. split; [exact Hr'|]. split; [exact Hb|]. split; [exact Hm|]. split; [exact Hkept|]. split; [exact Hj|exact Hd].
Defined.

(** Both waves wait for the store. *)
Lemma cpu_executor_waits_witness : exists x0 w, reachable convert lib file output x0 w /\ length (wd_jobs w) = 1%nat /\ wd_taken w = [] /\
  exists y, cpu_step file taking waiting (wd_exec w) = Some (DAMACY_OK, y, false) /\ y = wd_exec w /\
    ((exists v, v ∈ x_waves y /\ w_state v = CPU_READING) \/ (is_Some (x_decoding y) /\ x_done y = false) \/
     (exists y' b, cpu_take true y = Some (DAMACY_OK, y', Some b) /\ b_id b = 0) \/
     exists k v, aget (x_waves y) k = Some v /\ w_state v = CPU_INPUT_FREE /\ cpu_dispatch (taking k) y k = Some (DAMACY_AGAIN, y, false)).
Proof.
  destruct submitted as (x & x0 & w & Hc & Hs & Hr & _ & Hstep). destruct (run w [Step taking waiting]) as [w'|] eqn:E; [|discriminate Hstep]. cbn [mbind option_bind] in Hstep.
  destruct (cpu_step file taking waiting (wd_exec w')) as [[[st y] c]|] eqn:Ey; [|discriminate Hstep]. cbn [mbind option_bind fst snd] in Hstep. injection Hstep as -> -> Hj Ht. assert (Hfit : Forall polls_fit [Step taking waiting]) by (repeat constructor; done). pose proof (run_reachable _ _ _ _ Hfit Hr E) as Hr'.
  exists x0, w'. split; [exact Hr'|]. split; [exact Hj|]. split; [exact Ht|]. exists y. split; [exact Ey|].
  destruct (cpu_executor_waits convert lib file config 8 output true junk sizes x x0 w' config_ok output_fits ltac:(lia) Hc Hs Hr') as [Hw _].
  specialize (Hw taking waiting y). rewrite Ht, Hj in Hw. apply Hw; [done|exact Ey].
Defined.
End Example.
